(* ===== verification/_CoqProject ===== *)
-Q . S2P
Prelude.v
StdSet.v
Chars.v
Dns.v
Names.v
NamesFacts.v
NamesOrder.v
NamesText.v
NamesWire.v
NamesSpec.v
SuffixTree.v
SuffixSpec.v
Mangler.v
PacketWalk.v
PacketSafety.v
Reader.v
ReaderFacts.v
ParserSpec.v
Edns.v
TxtText.v
Writer.v
Compression.v
Base32.v
NsecBitmap.v
Denial.v
DenialFacts.v
DenialSpec.v
Nsec3Spec.v
Validate.v
ValidateSpec.v
IpUtils.v
NetTree.v
NetTreeFacts.v
NetTreeSpec.v
NetGroups.v
Ixfr.v
IxfrSpec.v
EdnsPayloads.v
ProxyProtocol.v
ProxyProtocolSpec.v
NameIndex.v
CacheCleaner.v
NegCache.v
NegCacheSpec.v
PacketCache.v
PacketCacheSpec.v
TaskQueue.v
TaskQueueSpec.v
RecPacketCache.v
RecPacketCacheSpec.v
RecursorCache.v
RecursorCacheOps.v
RecursorCacheFacts.v
RecursorCacheSpec.v
RecursorCacheAnswers.v
IpText.v
Rpz.v
RpzEngine.v
RpzLoader.v
RpzFacts.v
RpzNetmasks.v
RpzLookups.v
RpzTriggers.v
RpzZones.v
RpzSpec.v
RpzExamples.v
AggressiveNsec.v
AggressiveDenial.v
AggressiveLookup.v
AggressiveZones.v
AggressiveOps.v
AggressivePrune.v
Base32Order.v
AggressiveSpec.v
AggressiveSpec3.v
AggressiveMain.v
DnsdistBackend.v
DnsdistBackendSpec.v
DnsdistPools.v
DnsdistPoolsSpec.v
