(* ===== verification/Prelude.v ===== *)
(** * PowerDNS core: a verification development

    PowerDNS is an authoritative name server, a recursor and a load balancer
    (dnsdist) built over a common set of sources in [src/pdns].  This development
    models the parts of those sources that carry the protocol's own logic, in the
    order in which they build on each other, and proves what makes them correct.
    The definitions are shallow and executable; they keep the names of the source.

    ** Conventions

    A C++ exception is a value of [exn] and fallible code returns [result]; code
    that also mutates an object runs in the state monad [SM], which keeps the state
    when an exception is thrown.  A w-bit integer is a [Z] with its wrap-around
    ([u8], [u16], [u32]) written where the source performs it; a byte string is a
    list of such bytes, with [zat], [zsub], [ztake], [zdrop] for indexed access.
    Loops whose recursion is not structural take fuel that is a length of the input,
    and the theorems that the code returns show that this fuel is never used up
    ([wire_parser_terminates], [parseProxyHeader_safe], the walkers of packets).
    Code outside the repository (hash functions, engines that verify signatures,
    random numbers, clocks, sockets, containers of Boost) is an argument of the
    definitions that use it.  A name, a message or a tree that a theorem speaks about
    is tied to the model by a relation such as [represents] (a [DNSName] and its
    labels).

    ** The parts

    - Codes and characters ([Dns.v], [Chars.v]): record types, classes, response
      codes ([qtype.cc], [dns.cc]), the case tables and the hash of [burtle.hh].
    - Names ([Names.v], [NamesFacts.v], [NamesOrder.v], [NamesText.v],
      [NamesWire.v], [NamesSpec.v]): the class [DNSName] of
      [dnsname.cc] and the text machine of [dnslabeltext.rl].  Proved: the class
      invariant under every operation, the round trips with text and wire form, that
      the compressed parser terminates, accepts only legal names within the packet
      and, but for a pointer cut by its end, only what RFC 1035 reads there, reads every
      name within its limits, and that the comparisons are the canonical
      order.
    - Suffix trees ([SuffixTree.v], [SuffixSpec.v], over the ordered sets of
      [StdSet.v]): [SuffixMatchTree] and [SuffixMatchNode] of [dnsname.hh] refine a
      map from names and answer with the longest match.
    - Packets ([Mangler.v], [PacketWalk.v], [PacketSafety.v]): the in-place walkers
      of [dnsparser.cc], against an abstract message and on arbitrary bytes.
    - Reading ([Reader.v], [ReaderFacts.v], [ParserSpec.v]): [PacketReader] and
      [MOADNSParser], complete on well-formed messages, with the readers of record
      types as an argument, and consistent on any bytes.
    - Writing ([Writer.v], [Compression.v], [TxtText.v]):
      [GenericDNSPacketWriter] with name compression; every name written is read back
      by the parser, within the bounds at which compression is right.
    - EDNS ([Edns.v], [EdnsPayloads.v]): options, client subnet, cookies, extended
      errors.
    - Encodings ([Base32.v], [NsecBitmap.v]).
    - Denial of existence ([Denial.v], [DenialFacts.v], [DenialSpec.v],
      [Nsec3Spec.v]) and signatures ([Validate.v], [ValidateSpec.v]):
      [validate.cc].  What [getDenial] concludes from NSEC and NSEC3 records of a zone
      is true of the zone; [validateWithKeySet] says secure exactly when there is a
      signature that makes it so.
    - Addresses and netmasks ([IpUtils.v], [NetTree.v], [NetTreeFacts.v],
      [NetTreeSpec.v], [NetGroups.v]): [iputils.hh] with its radix tree, which refines
      a finite map with longest match.
    - Incremental transfers ([Ixfr.v], [IxfrSpec.v]): [ixfr.cc].
    - The proxy protocol ([ProxyProtocol.v], [ProxyProtocolSpec.v]):
      [proxy-protocol.cc].
    - Caches ([CacheCleaner.v], [NameIndex.v], [NegCache.v],
      [NegCacheSpec.v]): pruning of [cachecleaner.hh], walks over indices ordered by
      name, and the negative cache of the recursor, with its invariant, lookups, wipes
      through the canonical order and the limits of serving stale entries.
    - The packet cache of the recursor ([PacketCache.v], [PacketCacheSpec.v],
      [RecPacketCache.v], [RecPacketCacheSpec.v]): hashing and matching of queries
      ([packetcache.hh]), and [recpacketcache.cc]: a response is found by the queries
      that match the one it was stored for, and by no other; its size is bounded.
    - The task queue ([TaskQueue.v], [TaskQueueSpec.v]):
      [taskqueue.cc] and [rec-taskqueue.cc]: tasks are run in order, none is lost or run
      twice,
      the rate limit decides as one that remembers everything.
    - The record cache of the recursor ([RecursorCache.v], [RecursorCacheOps.v],
      [RecursorCacheFacts.v], [RecursorCacheSpec.v], [RecursorCacheAnswers.v]):
      [recursor_cache.cc]: lookups by the range of a name and by the index of client
      networks, replacement, wiping, ageing, validation updates and pruning.  Proved:
      the invariant over every history, that lookups return what was stored, which
      data may replace which, and where the index of networks goes wrong.
    - The filtering engine of the recursor ([IpText.v], [Rpz.v], [RpzEngine.v],
      [RpzLoader.v] and the theorems of [RpzFacts.v], [RpzNetmasks.v],
      [RpzLookups.v], [RpzTriggers.v], [RpzZones.v], [RpzSpec.v],
      [RpzExamples.v]): [filterpo.cc] and [rpzloader.cc]: response policy zones, their
      triggers by name and by network, loading, incremental updates and dumps.
      Proved: which policy a lookup finds, that a record changes a zone at its trigger
      only, the order of the zones over time, that dumped networks load, and two
      places where updates go wrong.
    - The aggressive NSEC cache of the recursor ([AggressiveNsec.v] and
      [AggressiveDenial.v], the operations; [AggressiveLookup.v],
      [AggressiveZones.v], [AggressiveOps.v], [AggressivePrune.v], [Base32Order.v],
      [AggressiveSpec.v], [AggressiveSpec3.v], [AggressiveMain.v],
      the theorems): [aggressive_nsec.cc].  Proved: answers
      made from NSEC and NSEC3 records of a zone are right for the zone, after any
      history of the cache; the record that covers a name is found; the invariant
      and the exact effect of pruning.
    - The backends of dnsdist ([DnsdistBackend.v], [DnsdistBackendSpec.v]):
      [DownstreamState] of [dnsdist-backend.cc] and [dnsdist.hh]: health checks, active
      and lazy, the states of the queries in flight, limits on the rate.  Proved: when
      a backend goes up and down, that one with lazy checks recovers, where a failed
      reconnection or a switch to lazy checks ends its checks for ever, and that no query
      is forgotten.
    - The pools of dnsdist and the choice of a server ([DnsdistPools.v],
      [DnsdistPoolsSpec.v]): [dnsdist-lbpolicies.cc] and [ServerPool] of
      [dnsdist-backend.cc].  Proved: only servers that take queries are chosen
      (but by round robin when there is none), in proportion to their weights, consistently by hash, the best by load and by
      order, in turn; and the invariant of pools.

    ** Interactions

    The wire parser of names is what the reader, the walkers and the writer's round
    trip speak about; the canonical order of names is what denial of existence and
    the ordered index of the caches rest on; equal names have equal hashes, on which
    the shards of the caches rest; the netmask and its tree serve client subnets and
    access lists; serial arithmetic is shared by signatures and cookies.  Components
    meet at classes where one relies on another's promise: ordered sets by their
    comparison ([StdSet.v]), the radix tree by its key ([NetKey]), the caches by
    their quotas and hashed indices ([Quotas], [HashedIndex], [PacketCacheIndex],
    [RangeIndex]), the
    tasks by the addresses of their functions ([FunctionAddresses]).  A lookup in a
    cache answers with pushes to the task queue, and a run of a task with those
    the resolver makes.  The filtering engine keeps networks in the radix tree and
    names in maps under one abstract operation ([RpzTriggers.v]); the contents of its
    records ([RecordContents]), texts of addresses ([AddressText]) and the conversions
    of the C library ([AddressParser], with what it promises in [AddressForms]) are
    classes.  The aggressive cache keeps its zones in the suffix tree, takes SOA and
    wildcard records from the record cache, hashes within the validation context of
    the query and judges a record by [matchesNSEC] of the validator; that base32hex
    keeps the order of hashes ([base32_order]) is why NSEC3 owners can be searched in
    the canonical order of names.  Pools hold pointers to backends in a shared store, so
    that a policy which reads a limiter or computes hashes changes the backend for all
    pools; their stable sort is that of the indices of the caches ([NameIndex.v]), and
    hashes of servers and of names are those of [burtle.hh].

    ** Bounds

    Fuel is always the length of the input (a packet, a header, a list of records),
    and each round consumes at least one byte or record.  Compression is proved for
    packets of at most 16 KB and names of at most ten labels, the limits of
    [lookupName] and of the parser; beyond them it goes wrong
    ([compression_wrong_beyond_16k]), as it can for a name written after a rollback
    ([compression_wrong_after_rollback]).  Pruning is proved for caches of fewer than 2^26
    entries, where the products of its quotas are exact in double precision; the
    doubles of dnsdist are binary64 numbers of [SpecFloat], for which rounding and
    infinities are those of the machine.

    ** Not modelled

    Sockets, threads, files, databases, Lua, the web server and the control channel;
    the backends, which are database clients; cryptographic primitives.  Locks are
    not modelled: an operation is what one thread does.  Operations that only print
    ([toString] of trees, dumps of caches) are left out.  The rest of the recursor,
    of dnsdist and of the authoritative server, and most record contents, are not
    modelled. *)

From stdpp Require Export prelude strings.
From Stdlib Require Export ZArith Lia.
From Stdlib Require Import Ascii.

#[local] Open Scope Z_scope.

(** ** Exceptions and results

    C++ exceptions are values.  The class of the exception is kept, because
    callers of the modelled code catch [std::range_error] and
    [std::out_of_range] separately; the message is the static part of the
    message of the source. *)

Inductive exn : Type :=
| range_error (msg : string)
| out_of_range (msg : string)
| runtime_error (msg : string)
| MOADNSException (msg : string)
| logic_error (msg : string)
| PDNSException (msg : string)
| NetmaskException (msg : string)
| ImmediateServFailException (msg : string).

Inductive result (A : Type) : Type :=
| Ok (a : A)
| Throw (e : exn).
Arguments Ok {A} a.
Arguments Throw {A} e.

#[export] Instance exn_eq_dec : EqDecision exn.
Proof. solve_decision. Defined.

#[export] Instance result_eq_dec {A} `{EqDecision A} : EqDecision (result A).
Proof. solve_decision. Defined.

#[export] Instance result_ret : MRet result := @Ok.

#[export] Instance result_bind : MBind result :=
  fun A B f m => match m with Ok a => f a | Throw e => Throw e end.

#[export] Instance result_fmap : FMap result :=
  fun A B f m => match m with Ok a => Ok (f a) | Throw e => Throw e end.

(** [throw_if b e] is [if (b) { throw e; }]. *)
Definition throw_if (b : bool) (e : exn) : result unit :=
  if b then Throw e else Ok tt.

Definition of_option {A} (e : exn) (o : option A) : result A :=
  match o with Some a => Ok a | None => Throw e end.

Definition is_ok {A} (r : result A) : bool :=
  match r with Ok _ => true | Throw _ => false end.

(** ** Machine integers

    A w-bit value is a [Z], with the wrap-around written out where the source
    performs it.  A byte is a [Z] between 0 and 255, a byte string a list of
    bytes. *)

Abbreviation bytes := (list Z).

Definition u8 (x : Z) : Z := x mod 2 ^ 8.
Definition u16 (x : Z) : Z := x mod 2 ^ 16.
Definition u32 (x : Z) : Z := x mod 2 ^ 32.

Definition is_byte (b : Z) : Prop := 0 <= b < 256.
Definition bytes_ok (s : bytes) : Prop := Forall is_byte s.

#[export] Instance is_byte_dec b : Decision (is_byte b).
Proof. unfold is_byte. apply _. Defined.

#[export] Instance bytes_ok_dec s : Decision (bytes_ok s).
Proof. unfold bytes_ok. apply _. Defined.

(** The bytes of a string literal. *)
Fixpoint bs (s : string) : bytes :=
  match s with
  | EmptyString => []
  | String c s' => Z.of_N (N_of_ascii c) :: bs s'
  end.

(** ** Lists indexed by [Z], as the [size_t] positions of the source *)

Section zlist.
Context {A : Type}.
Implicit Types (s t : list A) (i n : Z).

Definition zlen (s : list A) : Z := Z.of_nat (length s).

(** [s.at(i)]: the element, or nothing out of range. *)
Definition zat (s : list A) (i : Z) : option A :=
  if i <? 0 then None else s !! Z.to_nat i.

Definition ztake (n : Z) (s : list A) : list A := take (Z.to_nat n) s.
Definition zdrop (n : Z) (s : list A) : list A := drop (Z.to_nat n) s.

(** [n] elements from position [i]. *)
Definition zsub (s : list A) (i n : Z) : list A := ztake n (zdrop i s).

(** Overwrites the elements from position [i] on with those of [t]. *)
Definition zwrite (s : list A) (i : Z) (t : list A) : list A :=
  ztake i s ++ t ++ zdrop (i + zlen t) s.

Lemma zlen_nonneg s : 0 <= zlen s.
Proof. unfold zlen. lia. Qed.

Lemma zlen_nil : zlen (@nil A) = 0.
Proof. done. Qed.

Lemma zlen_cons x s : zlen (x :: s) = 1 + zlen s.
Proof. unfold zlen. simpl. lia. Qed.

Lemma zlen_app s t : zlen (s ++ t) = zlen s + zlen t.
Proof. unfold zlen. rewrite length_app. lia. Qed.

Lemma zlen_ztake n s : 0 <= n -> zlen (ztake n s) = Z.min n (zlen s).
Proof. unfold zlen, ztake. rewrite length_take. lia. Qed.

Lemma zlen_zdrop n s : 0 <= n -> zlen (zdrop n s) = Z.max 0 (zlen s - n).
Proof. unfold zlen, zdrop. rewrite length_drop. lia. Qed.

Lemma zlen_zero_inv s : zlen s = 0 -> s = [].
Proof. destruct s; [done|]. rewrite zlen_cons. pose proof (zlen_nonneg s). lia. Qed.

Lemma zat_Some_range s i x : zat s i = Some x -> 0 <= i < zlen s.
Proof.
  unfold zat, zlen. destruct (Z.ltb_spec i 0); [done|].
  intros Hl%lookup_lt_Some. lia.
Qed.

Lemma zat_range s i : 0 <= i < zlen s -> exists x, zat s i = Some x.
Proof.
  unfold zat, zlen. intros. destruct (Z.ltb_spec i 0); [lia|].
  destruct (lookup_lt_is_Some_2 s (Z.to_nat i)) as [x Hx]; [lia|]. eauto.
Qed.

Lemma zat_None s i : zlen s <= i -> zat s i = None.
Proof.
  unfold zat, zlen. intros. destruct (Z.ltb_spec i 0); [done|].
  apply lookup_ge_None. lia.
Qed.

Lemma zat_0 x s : zat (x :: s) 0 = Some x.
Proof. done. Qed.

Lemma zat_cons x s i : 0 < i -> zat (x :: s) i = zat s (i - 1).
Proof.
  unfold zat. intros. destruct (Z.ltb_spec i 0), (Z.ltb_spec (i - 1) 0); try lia.
  replace (Z.to_nat i) with (S (Z.to_nat (i - 1))) by lia. done.
Qed.

Lemma zat_app_l s t i : i < zlen s -> zat (s ++ t) i = zat s i.
Proof.
  unfold zat, zlen. intros. destruct (Z.ltb_spec i 0); [done|].
  apply lookup_app_l. lia.
Qed.

Lemma zat_app_r s t i : zlen s <= i -> zat (s ++ t) i = zat t (i - zlen s).
Proof.
  unfold zat, zlen. intros.
  destruct (Z.ltb_spec i 0), (Z.ltb_spec (i - Z.of_nat (length s)) 0); try lia.
  rewrite lookup_app_r by lia. f_equal. lia.
Qed.

Lemma ztake_0 s : ztake 0 s = [].
Proof. done. Qed.

Lemma zdrop_0 s : zdrop 0 s = s.
Proof. done. Qed.

Lemma ztake_app s t n : n = zlen s -> ztake n (s ++ t) = s.
Proof. unfold ztake, zlen. intros ->. rewrite Nat2Z.id. apply take_app_length. Qed.

Lemma zdrop_app s t n : n = zlen s -> zdrop n (s ++ t) = t.
Proof. unfold zdrop, zlen. intros ->. rewrite Nat2Z.id. apply drop_app_length. Qed.

Lemma ztake_all n s : zlen s <= n -> ztake n s = s.
Proof. unfold ztake, zlen. intros. apply take_ge. lia. Qed.

Lemma zdrop_all n s : zlen s <= n -> zdrop n s = [].
Proof. unfold zdrop, zlen. intros. apply drop_ge. lia. Qed.

Lemma ztake_zdrop n s : ztake n s ++ zdrop n s = s.
Proof. apply take_drop. Qed.

Lemma zdrop_zdrop n m s : 0 <= n -> 0 <= m -> zdrop n (zdrop m s) = zdrop (m + n) s.
Proof. unfold zdrop. intros. rewrite drop_drop. f_equal. lia. Qed.

Lemma zdrop_app_ge s t n : zlen s <= n -> zdrop n (s ++ t) = zdrop (n - zlen s) t.
Proof.
  unfold zdrop, zlen. intros. rewrite drop_app_ge by lia. f_equal. lia.
Qed.

Lemma zdrop_cons_S x s n : 0 <= n -> zdrop (n + 1) (x :: s) = zdrop n s.
Proof. unfold zdrop. intros. by replace (Z.to_nat (n + 1)) with (S (Z.to_nat n)) by lia. Qed.

Lemma zat_zdrop s n i : 0 <= n -> 0 <= i -> zat (zdrop n s) i = zat s (n + i).
Proof.
  unfold zat, zdrop. intros. destruct (Z.ltb_spec i 0), (Z.ltb_spec (n + i) 0); try lia.
  rewrite lookup_drop. f_equal. lia.
Qed.

Lemma zat_split s i x :
  zat s i = Some x -> s = ztake i s ++ x :: zdrop (i + 1) s.
Proof.
  unfold zat, ztake, zdrop. destruct (Z.ltb_spec i 0); [done|]. intros Hx.
  replace (Z.to_nat (i + 1)) with (S (Z.to_nat i)) by lia.
  symmetry. by apply take_drop_middle.
Qed.

Lemma zdrop_split s i x :
  zat s i = Some x -> zdrop i s = x :: zdrop (i + 1) s.
Proof.
  intros Hx. pose proof (zat_Some_range _ _ _ Hx).
  rewrite (zat_split _ _ _ Hx) at 1. rewrite zdrop_app; [done|].
  rewrite zlen_ztake; lia.
Qed.

Lemma zlen_zwrite s i t :
  0 <= i -> i + zlen t <= zlen s -> zlen (zwrite s i t) = zlen s.
Proof.
  intros. unfold zwrite. pose proof (zlen_nonneg t).
  rewrite !zlen_app, zlen_ztake, zlen_zdrop by lia. lia.
Qed.
End zlist.

Lemma bytes_ok_app s t : bytes_ok (s ++ t) <-> bytes_ok s /\ bytes_ok t.
Proof. apply Forall_app. Qed.

Lemma bytes_ok_ztake n s : bytes_ok s -> bytes_ok (ztake n s).
Proof. apply Forall_take. Qed.

Lemma bytes_ok_zdrop n s : bytes_ok s -> bytes_ok (zdrop n s).
Proof. apply Forall_drop. Qed.

Lemma bytes_ok_zat s i b : bytes_ok s -> zat s i = Some b -> is_byte b.
Proof.
  unfold zat. destruct (i <? 0); [done|]. intros. by eapply Forall_lookup_1.
Qed.

(** ** State that survives exceptions

    A method of an object that can throw: it returns the object as it left it,
    and a value or the exception.  An exception does not undo the changes made
    before it. *)

Definition SM (S A : Type) : Type := S -> S * result A.

#[export] Instance SM_ret {S} : MRet (SM S) := fun A a s => (s, Ok a).

#[export] Instance SM_bind {S} : MBind (SM S) :=
  fun A B f m s => match m s with (s', Ok a) => f a s' | (s', Throw e) => (s', Throw e) end.

Definition sm_throw {S A} (e : exn) : SM S A := fun s => (s, Throw e).

Definition sm_throw_if {S} (b : bool) (e : exn) : SM S unit :=
  if b then sm_throw e else mret tt.

Definition sm_get {S A} (f : S -> A) : SM S A := fun s => (s, Ok (f s)).

Definition sm_modify {S} (f : S -> S) : SM S unit := fun s => (f s, Ok tt).

Definition sm_lift {S A} (r : result A) : SM S A := fun s => (s, r).

(** A method of the first part of the state. *)
Definition on_fst {S T A} (m : SM S A) : SM (S * T) A :=
  fun '(s, t) => let '(s', r) := m s in ((s', t), r).

Definition on_snd {S T} (f : T -> T) : SM (S * T) unit := fun '(s, t) => ((s, f t), Ok tt).

(** [for (i = i0; i < i0 + n; ++i)]: the body says with [Some] that it leaves
    the loop. *)
Fixpoint loopM {S A} (n : nat) (body : Z -> SM S (option A)) (i : Z) : SM S (option A) :=
  match n with
  | O => mret None
  | Datatypes.S n' =>
      r ← body i;
      match r with Some a => mret (Some a) | None => loopM n' body (i + 1) end
  end.

Lemma sm_bind_run {S A B} (m : SM S A) (f : A -> SM S B) s :
  (m ≫= f) s = match m s with (s', Ok a) => f a s' | (s', Throw e) => (s', Throw e) end.
Proof. done. Qed.

Lemma sm_bind_Ok {S A B} (m : SM S A) (f : A -> SM S B) s s' b :
  (m ≫= f) s = (s', Ok b) -> exists s1 a, m s = (s1, Ok a) /\ f a s1 = (s', Ok b).
Proof.
  unfold mbind, SM_bind. destruct (m s) as [s1 [a|e]]; [by eauto|by intros [= ? ?]].
Qed.

Lemma on_fst_run {S T A} (m : SM S A) s s' r (t : T) :
  m s = (s', r) -> on_fst m (s, t) = ((s', t), r).
Proof. intros E. unfold on_fst. by rewrite E. Qed.

(** [keeps I m Q]: the method keeps the invariant [I], whether it returns or
    throws, and what it returns satisfies [Q]. *)
Definition keeps {S A} (I : S -> Prop) (m : SM S A) (Q : A -> Prop) : Prop :=
  forall s, I s -> I (fst (m s)) /\ forall a, snd (m s) = Ok a -> Q a.

Section keeps.
Context {S : Type} (I : S -> Prop).

Lemma keeps_ret {A} (a : A) (Q : A -> Prop) : Q a -> keeps I (mret a : SM S A) Q.
Proof. intros Ha s Hs. split; [done|]. by intros ? [= <-]. Qed.

Lemma keeps_bind {A B} (m : SM S A) (f : A -> SM S B) P Q :
  keeps I m P -> (forall a, P a -> keeps I (f a) Q) -> keeps I (m ≫= f) Q.
Proof.
  intros Hm Hf s Hs. destruct (Hm s Hs) as [HI HP]. unfold mbind, SM_bind.
  destruct (m s) as [s' [a|e]]; simpl in *; [|done]. apply Hf; auto.
Qed.

Lemma keeps_weaken {A} (m : SM S A) P (Q : A -> Prop) :
  keeps I m P -> (forall a, P a -> Q a) -> keeps I m Q.
Proof. intros Hm HPQ s Hs. destruct (Hm s Hs). split; auto. Qed.

Lemma keeps_throw_if b e : keeps I (sm_throw_if b e) (fun _ => b = false).
Proof. intros s Hs. by destruct b. Qed.

Lemma keeps_throw {A} e (Q : A -> Prop) : keeps I (sm_throw e) Q.
Proof. by intros s Hs. Qed.

Lemma keeps_get {A} (f : S -> A) (Q : A -> Prop) : (forall s, I s -> Q (f s)) -> keeps I (sm_get f) Q.
Proof. intros Hf s Hs. split; [done|]. intros a [= <-]. auto. Qed.

Lemma keeps_lift {A} (r : result A) : keeps I (sm_lift r) (fun _ => True).
Proof. by intros s Hs. Qed.

Lemma keeps_modify f : (forall s, I s -> I (f s)) -> keeps I (sm_modify f) (fun _ => True).
Proof. intros Hf s Hs. split; [by apply Hf|done]. Qed.

Lemma keeps_if {A} (b : bool) (m m' : SM S A) Q :
  keeps I m Q -> keeps I m' Q -> keeps I (if b then m else m') Q.
Proof. by destruct b. Qed.

Lemma keeps_loopM {A} n (body : Z -> SM S (option A)) i :
  (forall i, keeps I (body i) (fun _ => True)) -> keeps I (loopM n body i) (fun _ => True).
Proof.
  intros Hb. revert i. induction n as [|n IH]; intros i; [by apply keeps_ret|].
  eapply keeps_bind; [apply Hb|]. intros [a|] _; [by apply keeps_ret|apply IH].
Qed.
End keeps.

Lemma keeps_on_fst {S T A} (I : S -> T -> Prop) (m : SM S A) Q :
  (forall t, keeps (fun s => I s t) m Q) -> keeps (fun st => I (fst st) (snd st)) (on_fst m) Q.
Proof.
  intros Hm [s t] Hs. unfold on_fst. specialize (Hm t s Hs). by destruct (m s).
Qed.

Lemma keeps_on_snd {S T} (I : S -> T -> Prop) (f : T -> T) :
  (forall s t, I s t -> I s (f t)) -> keeps (fun st => I (fst st) (snd st)) (on_snd f) (fun _ => True).
Proof. intros Hf [s t] Hs. split; [by apply Hf|done]. Qed.

Create HintDb keeps.
#[export] Hint Resolve keeps_throw_if keeps_lift keeps_throw keeps_loopM : keeps.

(** ** Big-endian integers *)

Definition byte_at (p : bytes) (i : Z) : Z := default 0 (zat p i).

Definition get16 (p : bytes) (i : Z) : Z := byte_at p i * 256 + byte_at p (i + 1).

Definition get32 (p : bytes) (i : Z) : Z := get16 p i * 65536 + get16 p (i + 2).

Definition be16 (v : Z) : bytes := [v / 256 mod 256; v mod 256].

Definition be32 (v : Z) : bytes := be16 (v / 65536) ++ be16 (v mod 65536).

Lemma byte_at_app pre x post : byte_at (pre ++ x :: post) (zlen pre) = x.
Proof. unfold byte_at. by rewrite zat_app_r, Z.sub_diag by lia. Qed.

Lemma byte_at_app_skip pre x post i :
  0 <= i -> byte_at (pre ++ x :: post) (zlen pre + (1 + i)) = byte_at ((pre ++ [x]) ++ post) (zlen (pre ++ [x]) + i).
Proof.
  intros. rewrite <- app_assoc, zlen_app, zlen_cons, zlen_nil. simpl. f_equal. lia.
Qed.

Lemma div_mod_256 v : 0 <= v < 65536 -> v / 256 mod 256 * 256 + v mod 256 = v.
Proof.
  intros. assert (v / 256 < 256) by (apply Z.div_lt_upper_bound; lia).
  assert (0 <= v / 256) by (apply Z.div_pos; lia).
  rewrite (Z.mod_small (v / 256)) by lia. pose proof (Z.div_mod v 256). lia.
Qed.

Lemma get16_be16 pre v post :
  0 <= v < 65536 -> get16 (pre ++ be16 v ++ post) (zlen pre) = v.
Proof.
  intros. unfold get16, be16. cbn [app]. rewrite byte_at_app.
  replace (zlen pre + 1) with (zlen (pre ++ [v / 256 mod 256])).
  2: { rewrite zlen_app. done. }
  replace (pre ++ v / 256 mod 256 :: v mod 256 :: post)
    with ((pre ++ [v / 256 mod 256]) ++ v mod 256 :: post) by by rewrite <- app_assoc.
  rewrite byte_at_app. by apply div_mod_256.
Qed.

Lemma get32_be32 pre v post :
  0 <= v < 2 ^ 32 -> get32 (pre ++ be32 v ++ post) (zlen pre) = v.
Proof.
  intros. assert (v / 65536 < 65536) by (apply Z.div_lt_upper_bound; lia).
  assert (0 <= v / 65536) by (apply Z.div_pos; lia).
  pose proof (Z.mod_pos_bound v 65536). unfold get32, be32. rewrite <- app_assoc.
  rewrite get16_be16 by lia.
  replace (zlen pre + 2) with (zlen (pre ++ be16 (v / 65536))) by by rewrite zlen_app.
  rewrite app_assoc, get16_be16 by lia. pose proof (Z.div_mod v 65536). lia.
Qed.

#[global] Arguments be16 : simpl never.
#[global] Arguments be32 : simpl never.

Lemma zlen_be16 v : zlen (be16 v) = 2.
Proof. done. Qed.

Lemma zlen_be32 v : zlen (be32 v) = 4.
Proof. done. Qed.

Lemma byte_at_range p i : bytes_ok p -> 0 <= byte_at p i < 256.
Proof.
  intros Hp. unfold byte_at. destruct (zat p i) as [b|] eqn:E; simpl; [|lia].
  apply (bytes_ok_zat _ _ _ Hp E).
Qed.

Lemma get16_range p i : bytes_ok p -> 0 <= get16 p i < 65536.
Proof. intros Hp. unfold get16. pose proof (byte_at_range p i Hp). pose proof (byte_at_range p (i + 1) Hp). lia. Qed.

Lemma get32_range p i : bytes_ok p -> 0 <= get32 p i < 2 ^ 32.
Proof.
  intros Hp. unfold get32. pose proof (get16_range p i Hp). pose proof (get16_range p (i + 2) Hp). lia.
Qed.

Lemma byte_at_ztake n s j : 0 <= j < n -> byte_at (ztake n s) j = byte_at s j.
Proof.
  intros Hj. unfold byte_at, zat, ztake. destruct (Z.ltb_spec j 0); [lia|].
  by rewrite lookup_take_lt by lia.
Qed.

Lemma byte_at_zsub s pos n i : 0 <= pos -> 0 <= i < n -> byte_at (zsub s pos n) i = byte_at s (pos + i).
Proof. intros Hp Hi. unfold zsub. rewrite byte_at_ztake by done. unfold byte_at. by rewrite zat_zdrop by lia. Qed.

Lemma bytes_ok_zeros n : bytes_ok (replicate n 0).
Proof. apply Forall_replicate. unfold is_byte. lia. Qed.

Lemma zlen_zeros n : zlen (replicate n 0) = Z.of_nat n.
Proof. unfold zlen. by rewrite length_replicate. Qed.

Lemma byte_at_zeros n j : byte_at (replicate n 0) j = 0.
Proof.
  unfold byte_at, zat. destruct (_ <? 0); [done|]. destruct (replicate n 0 !! _) eqn:E; [|done].
  by apply lookup_replicate in E as [-> _].
Qed.

Lemma bytes_ok_zwrite p i t : bytes_ok p -> bytes_ok t -> bytes_ok (zwrite p i t).
Proof.
  intros. unfold zwrite. rewrite !bytes_ok_app. auto using bytes_ok_ztake, bytes_ok_zdrop.
Qed.

Lemma land_pow2 x n : 0 <= n -> Z.land x (2 ^ n) = 0 <-> Z.testbit x n = false.
Proof.
  intros Hn. split; intros H.
  - apply (f_equal (fun v => Z.testbit v n)) in H. rewrite Z.land_spec, Z.bits_0, Z.pow2_bits_true in H by done.
    by rewrite andb_true_r in H.
  - apply Z.bits_inj'. intros m Hm. rewrite Z.land_spec, Z.bits_0, Z.pow2_bits_eqb by done.
    destruct (Z.eqb_spec n m) as [->|]; [by rewrite H|apply andb_false_r].
Qed.

(** ** Total orders given by a comparison function

    The interface the ordering theorems of the components are proved against:
    a three-way comparison that decides equality, is antisymmetric and
    transitive.  Lexicographic comparison lifts it to lists. *)

Class TotalCompare {A : Type} (cmp : A -> A -> comparison) : Prop := {
  cmp_eq_iff : forall x y, cmp x y = Eq <-> x = y;
  cmp_opp : forall x y, cmp y x = CompOpp (cmp x y);
  cmp_trans : forall x y z, cmp x y = Lt -> cmp y z = Lt -> cmp x z = Lt;
}.

#[export] Instance Z_total_compare : TotalCompare Z.compare.
Proof.
  split; intros *.
  - apply Z.compare_eq_iff.
  - apply Z.compare_antisym.
  - rewrite !Z.compare_lt_iff. lia.
Qed.

Section lex_compare.
Context {A : Type} (cmp : A -> A -> comparison).

Fixpoint lex_compare (a b : list A) : comparison :=
  match a, b with
  | [], [] => Eq
  | [], _ :: _ => Lt
  | _ :: _, [] => Gt
  | x :: a', y :: b' =>
      match cmp x y with Eq => lex_compare a' b' | c => c end
  end.

Context `{!TotalCompare cmp}.

Lemma cmp_refl x : cmp x x = Eq.
Proof. by apply cmp_eq_iff. Qed.

Lemma lex_compare_eq_iff a b : lex_compare a b = Eq <-> a = b.
Proof.
  revert b. induction a as [|x a IH]; intros [|y b]; simpl; try done.
  destruct (cmp x y) eqn:E.
  - apply cmp_eq_iff in E as ->. rewrite IH. naive_solver.
  - split; [done|]. intros [= -> ->]. by rewrite cmp_refl in E.
  - split; [done|]. intros [= -> ->]. by rewrite cmp_refl in E.
Qed.

Lemma lex_compare_opp a b : lex_compare b a = CompOpp (lex_compare a b).
Proof.
  revert b. induction a as [|x a IH]; intros [|y b]; simpl; try done.
  rewrite (cmp_opp x y), IH. by destruct (cmp x y).
Qed.

Lemma lex_compare_trans a b c :
  lex_compare a b = Lt -> lex_compare b c = Lt -> lex_compare a c = Lt.
Proof.
  revert b c. induction a as [|x a IH]; intros [|y b] [|z c]; simpl; try done.
  destruct (cmp x y) eqn:Exy; destruct (cmp y z) eqn:Eyz; try done; intros.
  - apply cmp_eq_iff in Exy as ->. rewrite Eyz. eauto.
  - apply cmp_eq_iff in Exy as ->. by rewrite Eyz.
  - apply cmp_eq_iff in Eyz as ->. by rewrite Exy.
  - by rewrite (cmp_trans x y z).
Qed.

#[export] Instance lex_total_compare : TotalCompare lex_compare.
Proof.
  split.
  - apply lex_compare_eq_iff.
  - intros. apply lex_compare_opp.
  - apply lex_compare_trans.
Qed.
End lex_compare.

Lemma map_reverse {A B} (f : A -> B) l : map f (reverse l) = reverse (map f l).
Proof. apply (fmap_reverse f l). Qed.

Lemma insert_middle {A} (a b : list A) x y i :
  i = length a -> <[i := y]> (a ++ x :: b) = a ++ y :: b.
Proof. intros ->. induction a as [|z a IH]; simpl; [done|]. by rewrite IH. Qed.

Lemma u8_small x : 0 <= x < 256 -> u8 x = x.
Proof. intros. unfold u8. apply Z.mod_small. lia. Qed.

Lemma u8_u8 x : u8 (u8 x) = u8 x.
Proof. unfold u8. apply Z.mod_mod. lia. Qed.

Lemma u8_byte x : is_byte (u8 x).
Proof. unfold u8, is_byte. apply (Z.mod_pos_bound x 256). lia. Qed.

Lemma u8_add_l x y : u8 (u8 x + y) = u8 (x + y).
Proof. unfold u8. apply Zplus_mod_idemp_l. Qed.

Lemma throw_if_Ok b e u : throw_if b e = Ok u <-> b = false.
Proof. unfold throw_if. by destruct b, u. Qed.

(** ** Tactics *)

(** Splits a hypothesis [x ← m; k = Ok r] into the success of [m] and of [k]. *)
Ltac bind_inv H :=
  let E := fresh "E" in
  lazymatch type of H with
  | mbind ?f ?m = Ok _ =>
      destruct m eqn:E; [|discriminate H];
      cbn [mbind result_bind] in H
  | result_bind _ _ ?f ?m = Ok _ =>
      destruct m eqn:E; [|discriminate H];
      cbn [mbind result_bind] in H
  end.

(** Proves a decidable closed goal by evaluation. *)
Ltac by_decide := apply (bool_decide_unpack _); vm_compute; exact I.

(** ** Lists filtered, searched and concatenated

    Facts on lists with boolean predicates that the caches share. *)

Section lists.
Context {A : Type}.

Lemma filter_split (p : A -> bool) l : List.filter p l ++ List.filter (fun x => negb (p x)) l ≡ₚ l.
Proof.
  induction l as [|x l IH]; [done|]. cbn. destruct (p x); cbn; [by rewrite IH|]. by rewrite <- Permutation_middle, IH.
Qed.

Lemma filter_both_zlen (p : A -> bool) l : zlen (List.filter (fun e => negb (p e)) l) = zlen l - zlen (List.filter p l).
Proof. unfold zlen. rewrite <- (Permutation_length (filter_split p l)), length_app. lia. Qed.

Lemma filter_perm (p : A -> bool) l l' : l ≡ₚ l' -> List.filter p l ≡ₚ List.filter p l'.
Proof. induction 1; cbn; repeat case_match; auto using perm_swap. by etrans. Qed.

Lemma forall_sublist (P : A -> Prop) l' l : l' `sublist_of` l -> Forall P l -> Forall P l'.
Proof. induction 1; intros Hl; [done|apply Forall_cons in Hl as [? ?]; constructor; auto|apply Forall_cons in Hl as [? ?]; auto]. Qed.

Lemma filter_sublist (p : A -> bool) l : List.filter p l `sublist_of` l.
Proof. induction l as [|x l IH]; cbn; [done|]. destruct (p x); [by apply sublist_skip|by apply sublist_cons]. Qed.

Lemma find_spec (p : A -> bool) l x : List.find p l = Some x -> x ∈ l /\ p x = true.
Proof. intros H. apply find_some in H as [Hin Hp]. by apply list_elem_of_In in Hin. Qed.

(** At most one element satisfies [p]. *)
Definition one_of (p : A -> bool) (l : list A) : Prop := forall x y, x ∈ l -> y ∈ l -> p x = true -> p y = true -> x = y.

Lemma find_unique (p : A -> bool) l x : one_of p l -> x ∈ l -> p x = true -> List.find p l = Some x.
Proof.
  intros Ho Hx Hp. destruct (List.find p l) as [y|] eqn:Hf.
  - apply find_spec in Hf as [Hy Hpy]. f_equal. by apply Ho.
  - apply list_elem_of_In in Hx. by rewrite (find_none _ _ Hf x Hx) in Hp.
Qed.

Lemma find_perm (p : A -> bool) l l' : one_of p l -> l ≡ₚ l' -> List.find p l = List.find p l'.
Proof.
  intros Ho Hl. destruct (List.find p l') as [x|] eqn:Hf.
  - apply find_spec in Hf as [Hx Hp]. rewrite <- Hl in Hx. by apply find_unique.
  - destruct (List.find p l) as [x|] eqn:Hf'; [|done]. apply find_spec in Hf' as [Hx Hp]. rewrite Hl in Hx.
    apply list_elem_of_In in Hx. by rewrite (find_none _ _ Hf x Hx) in Hp.
Qed.

Lemma elem_of_concat_map {B} (f : B -> list A) (ms : list B) x : x ∈ concat (map f ms) <-> exists i m, ms !! i = Some m /\ x ∈ f m.
Proof.
  rewrite list_elem_of_In, in_concat. split.
  - intros (l & (m & <- & Hm)%in_map_iff & He). apply list_elem_of_In, list_elem_of_lookup in Hm as [i Hi].
    exists i, m. split; [done|by apply list_elem_of_In].
  - intros (i & m & Hi & He). exists (f m). split; [|by apply list_elem_of_In]. apply in_map, list_elem_of_In.
    by eapply list_elem_of_lookup_2.
Qed.
End lists.

(** An element told by its key among elements with different keys. *)
Lemma nodup_map_inj {A B} (f : A -> B) (l : list A) x y : NoDup (map f l) -> x ∈ l -> y ∈ l -> f x = f y -> x = y.
Proof.
  induction l as [|z l IH]; intros Hn Hx Hy Heq; [by apply not_elem_of_nil in Hx|]. cbn in Hn. apply NoDup_cons in Hn as [Hz Hn].
  apply elem_of_cons in Hx as [->|Hx], Hy as [->|Hy]; [done| | |auto].
  - destruct Hz. rewrite Heq. by apply list_elem_of_fmap_2.
  - destruct Hz. rewrite <- Heq. by apply list_elem_of_fmap_2.
Qed.
