(* ===== verification/StdSet.v ===== *)
(** * Ordered sets

    [std::set] and [std::map] as the components use them: a list kept strictly
    sorted by the comparator of the container.  A lookup, an insertion and a
    removal all go to the lower bound of what is looked for; a probe says how
    an element compares to it, and is made from the two calls of the
    comparator the container makes.

    The lemmas are stated against a key and a total comparison of keys, the
    contract a comparator has to fulfil. *)

From S2P Require Import Prelude.

(** How an element compares to what is looked for, from [element < key] and
    [key < element]. *)
Definition probe_of {A : Type} (below above : A -> bool) (x : A) : comparison :=
  if below x then Lt else if above x then Gt else Eq.

(** [set.find(key)]. *)
Fixpoint set_find {A : Type} (probe : A -> comparison) (l : list A) : option A :=
  match l with
  | [] => None
  | x :: l' =>
      match probe x with
      | Lt => set_find probe l'
      | Eq => Some x
      | Gt => None
      end
  end.

(** What is at the lower bound, if it is equivalent to the key, is replaced by
    what [f] makes of it: insertion, removal and update of a mutable part of an
    element. *)
Fixpoint set_alter {A : Type} (probe : A -> comparison) (f : option A -> option A) (l : list A)
  : list A :=
  match l with
  | [] => option_list (f None)
  | x :: l' =>
      match probe x with
      | Lt => x :: set_alter probe f l'
      | Eq => option_list (f (Some x)) ++ l'
      | Gt => option_list (f None) ++ l
      end
  end.

(** [set.insert(x)]: an equivalent element that is there stays. *)
Definition set_insert {A : Type} (lt : A -> A -> bool) (x : A) (l : list A) : list A :=
  set_alter (probe_of (fun y => lt y x) (fun y => lt x y))
    (fun o => Some (default x o)) l.

(** [set.erase(x)]. *)
Definition set_erase {A : Type} (lt : A -> A -> bool) (x : A) (l : list A) : list A :=
  set_alter (probe_of (fun y => lt y x) (fun y => lt x y)) (fun _ => None) l.

Create HintDb sets.

Section sets.
Context {A K : Type} `{!EqDecision K} (key : A -> K) (cmp : K -> K -> comparison).
Context `{!TotalCompare cmp}.

Inductive set_sorted : list A -> Prop :=
| set_sorted_nil : set_sorted []
| set_sorted_cons x l :
    Forall (fun y => cmp (key x) (key y) = Lt) l -> set_sorted l -> set_sorted (x :: l).

(** The probe for a key, which every probe of a lawful comparator agrees with. *)
Definition key_probe (k : K) (x : A) : comparison := cmp (key x) k.

Definition set_get (k : K) (l : list A) : option A := set_find (key_probe k) l.

Lemma probe_of_key (below above : A -> bool) k x :
  (below x = true <-> cmp (key x) k = Lt) -> (above x = true <-> cmp k (key x) = Lt) ->
  probe_of below above x = key_probe k x.
Proof.
  intros Hb Ha. unfold probe_of, key_probe. pose proof (cmp_opp (cmp := cmp) (key x) k) as E. rewrite E in Ha.
  destruct (below x), (above x), (cmp (key x) k); simpl in *; naive_solver.
Qed.

Lemma set_find_ext (p q : A -> comparison) l :
  Forall (fun x => p x = q x) l -> set_find p l = set_find q l.
Proof. induction 1 as [|x l E _ IH]; simpl; [done|]. by rewrite E, IH. Qed.

Lemma set_alter_ext (p q : A -> comparison) f l :
  Forall (fun x => p x = q x) l -> set_alter p f l = set_alter q f l.
Proof. induction 1 as [|x l E _ IH]; simpl; [done|]. by rewrite E, IH. Qed.

Lemma cmp_gt_lt x y : cmp x y = Gt <-> cmp y x = Lt.
Proof. pose proof (cmp_opp (cmp := cmp) x y) as ->. by destruct (cmp x y). Qed.

Lemma set_get_above k l :
  Forall (fun y => cmp k (key y) = Lt) l -> set_get k l = None.
Proof.
  destruct 1 as [|x l Hx _]; [done|]. unfold set_get, key_probe. simpl.
  by apply cmp_gt_lt in Hx as ->.
Qed.

Lemma sorted_above k x l :
  set_sorted (x :: l) -> cmp k (key x) <> Gt -> Forall (fun y => cmp k (key y) = Lt) l.
Proof.
  intros Hs Hk. inversion_clear Hs as [|?? Hx Hl]. eapply Forall_impl; [done|]. simpl. intros y Hy.
  destruct (cmp k (key x)) eqn:E; [apply cmp_eq_iff in E as ->; done| |done].
  by eapply cmp_trans.
Qed.

Lemma set_get_key k l x : set_get k l = Some x -> key x = k /\ x ∈ l.
Proof.
  unfold set_get, key_probe. induction l as [|y l IH]; simpl; [done|].
  destruct (cmp (key y) k) eqn:E; [|intros (?&?)%IH; split; [done|by right]|done].
  intros [= ->]. split; [by apply cmp_eq_iff|by left].
Qed.

Lemma set_get_elem l x : set_sorted l -> x ∈ l -> set_get (key x) l = Some x.
Proof.
  induction 1 as [|y l Hy Hl IH]; intros Hx; [by apply elem_of_nil in Hx|].
  unfold set_get, key_probe in *. simpl. apply elem_of_cons in Hx as [->|Hx].
  - by rewrite cmp_refl.
  - rewrite Forall_forall in Hy. by rewrite (Hy _ Hx), IH.
Qed.

(** An update leaves elements of the key it was made at, so that it keeps the
    order, is seen by a lookup of that key and by no other. *)
Definition keeps_key (k : K) (f : option A -> option A) : Prop :=
  forall o y, (forall x, o = Some x -> key x = k) -> f o = Some y -> key y = k.

Section alter.
Context (k : K) (f : option A -> option A) (Hf : keeps_key k f).

Lemma alter_Forall (P : A -> Prop) l :
  (forall o y, (forall x, o = Some x -> P x /\ key x = k) -> f o = Some y -> P y) ->
  Forall P l -> Forall P (set_alter (key_probe k) f l).
Proof.
  intros HP. induction 1 as [|x l Hx Hl IH]; simpl.
  - destruct (f None) eqn:E; simpl; [|done]. constructor; [|done]. by apply (HP None).
  - unfold key_probe at 1. destruct (cmp (key x) k) eqn:E.
    + destruct (f (Some x)) eqn:Ef; simpl; [|done]. constructor; [|done].
      apply (HP (Some x)); [|done]. intros ? [= <-]. split; [done|by apply cmp_eq_iff].
    + by constructor.
    + destruct (f None) eqn:Ef; simpl; [|by constructor]. constructor; [|by constructor].
      by apply (HP None).
Qed.

Lemma alter_sorted l : set_sorted l -> set_sorted (set_alter (key_probe k) f l).
Proof.
  induction 1 as [|x l Hx Hl IH]; simpl.
  - destruct (f None); simpl; repeat constructor.
  - unfold key_probe at 1. destruct (cmp (key x) k) eqn:E.
    + destruct (f (Some x)) as [y|] eqn:Ef; simpl; [|done]. constructor; [|done].
      rewrite (Hf (Some x) y); [|by intros ? [= <-]; apply cmp_eq_iff|done].
      by apply cmp_eq_iff in E as <-.
    + constructor; [|done]. apply alter_Forall; [|done].
      intros o y Ho Hy. rewrite (Hf o y); [done| |done]. intros z Hz. by apply Ho.
    + destruct (f None) as [y|] eqn:Ef; simpl; [|by constructor]. constructor; [|by constructor].
      rewrite (Hf None y) by done. apply cmp_gt_lt in E. constructor; [done|].
      eapply sorted_above; [by constructor|]. by rewrite E.
Qed.

Lemma alter_get_same l :
  set_sorted l -> set_get k (set_alter (key_probe k) f l) = f (set_get k l).
Proof.
  unfold set_get. induction 1 as [|x l Hx Hl IH]; simpl.
  - destruct (f None) as [y|] eqn:Ef; simpl; [|done]. unfold key_probe.
    by rewrite (Hf None y), cmp_refl.
  - unfold key_probe at 2 4. destruct (cmp (key x) k) eqn:E.
    + apply cmp_eq_iff in E as <-. destruct (f (Some x)) as [y|] eqn:Ef; simpl.
      * unfold key_probe. rewrite (Hf (Some x) y); [by rewrite cmp_refl|by intros ? [= ->]|done].
      * by apply set_get_above.
    + simpl. unfold key_probe at 1. by rewrite E.
    + destruct (f None) as [y|] eqn:Ef; simpl; unfold key_probe.
      * by rewrite (Hf None y), cmp_refl.
      * by rewrite E.
Qed.

Lemma alter_get_other k' l :
  set_sorted l -> k' <> k -> set_get k' (set_alter (key_probe k) f l) = set_get k' l.
Proof.
  intros Hl Hne. unfold set_get. induction Hl as [|x l Hx Hl IH]; simpl.
  - destruct (f None) as [y|] eqn:Ef; simpl; [|done]. unfold key_probe.
    rewrite (Hf None y) by done. destruct (cmp k k') eqn:E; [|done..].
    by apply cmp_eq_iff in E as ->.
  - unfold key_probe at 2. destruct (cmp (key x) k) eqn:E.
    + apply cmp_eq_iff in E. destruct (f (Some x)) as [y|] eqn:Ef; simpl; unfold key_probe.
      * assert (key y = k) as ->; [apply (Hf (Some x)); [by intros ? [= <-]|done]|].
        rewrite E. destruct (cmp k k') eqn:E'; [by apply cmp_eq_iff in E' as ->|done..].
      * rewrite E. destruct (cmp k k') eqn:E'; [by apply cmp_eq_iff in E' as ->|done|].
        apply set_get_above. apply (sorted_above _ x); [by constructor|].
        apply cmp_gt_lt in E'. by rewrite E, E'.
    + simpl. destruct (key_probe k' x); [done|done|done].
    + destruct (f None) as [y|] eqn:Ef; simpl; [|done]. unfold key_probe at 1.
      rewrite (Hf None y) by done. destruct (cmp k k') eqn:E'; [by apply cmp_eq_iff in E' as ->|done|].
      unfold key_probe at 1. apply cmp_gt_lt in E, E'.
      assert (cmp (key x) k' = Gt) as ->; [|done]. apply cmp_gt_lt. by eapply cmp_trans.
Qed.

Lemma alter_get k' l :
  set_sorted l ->
  set_get k' (set_alter (key_probe k) f l) = if decide (k' = k) then f (set_get k l) else set_get k' l.
Proof.
  intros Hl. destruct (decide (k' = k)) as [->|Hne];
    [by apply alter_get_same|by apply alter_get_other].
Qed.
End alter.

(** ** Sets of whole elements *)

Section laws.
Context (lt : A -> A -> bool) (lt_spec : forall x y, lt x y = true <-> cmp (key x) (key y) = Lt).

Lemma lt_probe x y : probe_of (fun z => lt z x) (fun z => lt x z) y = key_probe (key x) y.
Proof. apply probe_of_key; apply lt_spec. Qed.

Lemma set_insert_alter x l :
  set_insert lt x l = set_alter (key_probe (key x)) (fun o => Some (default x o)) l.
Proof. apply set_alter_ext, Forall_forall. intros ? _. apply lt_probe. Qed.

Lemma set_erase_alter x l :
  set_erase lt x l = set_alter (key_probe (key x)) (fun _ => None) l.
Proof. apply set_alter_ext, Forall_forall. intros ? _. apply lt_probe. Qed.

Lemma insert_keeps_key x : keeps_key (key x) (fun o => Some (default x o)).
Proof. intros [y|] z Ho [= <-]; simpl; [by apply Ho|done]. Qed.

Lemma erase_keeps_key k : keeps_key k (fun _ => None).
Proof. by intros ???. Qed.

Lemma set_insert_sorted x l : set_sorted l -> set_sorted (set_insert lt x l).
Proof. rewrite set_insert_alter. apply alter_sorted, insert_keeps_key. Qed.

Lemma set_erase_sorted x l : set_sorted l -> set_sorted (set_erase lt x l).
Proof. rewrite set_erase_alter. apply alter_sorted, erase_keeps_key. Qed.

Lemma set_insert_get x l k :
  set_sorted l ->
  set_get k (set_insert lt x l) = if decide (k = key x) then Some (default x (set_get k l)) else set_get k l.
Proof.
  intros. rewrite set_insert_alter, (alter_get (key x) _ (insert_keeps_key x)) by done.
  by destruct (decide _) as [->|].
Qed.

Lemma set_erase_get x l k :
  set_sorted l -> set_get k (set_erase lt x l) = if decide (k = key x) then None else set_get k l.
Proof. intros. by rewrite set_erase_alter, (alter_get (key x) _ (erase_keeps_key _)) by done. Qed.
End laws.
End sets.

#[export] Hint Constructors set_sorted : sets.
#[export] Hint Resolve set_insert_sorted set_erase_sorted alter_sorted : sets.
