(* ===== verification/Chars.v ===== *)
(** * Case folding, byte-string comparison and hashing

    The character layer of [pdns/dnsname.hh], [pdns/dnsname.cc] and
    [pdns/burtle.hh]: the two 256-entry case tables, the three-way
    case-insensitive comparison every name comparison of PowerDNS goes
    through, and the Burtle hash in its plain and case-insensitive forms. *)

From S2P Require Import Prelude.

#[local] Open Scope Z_scope.

(** ** The case tables *)

(** The tables are the identity but for the 26 letters. *)
Definition dns_toupper_table : bytes :=
  seqZ 0 97 ++ bs "ABCDEFGHIJKLMNOPQRSTUVWXYZ" ++ seqZ 123 133.

Definition dns_tolower_table : bytes :=
  seqZ 0 65 ++ bs "abcdefghijklmnopqrstuvwxyz" ++ seqZ 91 165.

Definition dns_toupper (chr : Z) : Z := nth (Z.to_nat chr) dns_toupper_table 0.

Definition dns_tolower (chr : Z) : Z := nth (Z.to_nat chr) dns_tolower_table 0.

Definition dns_isspace (chr : Z) : bool :=
  (chr =? 32) || (chr =? 9) || (chr =? 13) || (chr =? 10).

(** [toLowerInPlace] and [toLower] of [misc.hh], and [toUpper]. *)
Definition toLower (s : bytes) : bytes := map dns_tolower s.

Definition toUpper (s : bytes) : bytes := map dns_toupper s.

(** ** Comparison *)

Fixpoint pdns_ilexicographical_compare_three_way (a b : bytes) : Z :=
  match a, b with
  | [], [] => 0
  | [], _ :: _ => -1
  | _ :: _, [] => 1
  | x :: a', y :: b' =>
      if x =? y then pdns_ilexicographical_compare_three_way a' b'
      else
        let rc := dns_tolower x - dns_tolower y in
        if negb (rc =? 0) then rc
        else pdns_ilexicographical_compare_three_way a' b'
  end.

Definition pdns_ilexicographical_compare (a b : bytes) : bool :=
  pdns_ilexicographical_compare_three_way a b <? 0.

Definition pdns_iequals (a b : bytes) : bool :=
  if negb (zlen a =? zlen b) then false
  else pdns_ilexicographical_compare_three_way a b =? 0.

Definition pdns_iequals_ch (a b : Z) : bool :=
  negb (negb (a =? b) && negb (dns_tolower a =? dns_tolower b)).

(** ** The Burtle hash

    [burtle] and [burtleCI] differ only in what they do to each byte they
    read, so both are instances of one definition over that function. *)

Definition burtlemix (st : Z * Z * Z) : Z * Z * Z :=
  let '(a, b, c) := st in
  let a := u32 (a - b) in let a := u32 (a - c) in let a := Z.lxor a (Z.shiftr c 13) in
  let b := u32 (b - c) in let b := u32 (b - a) in let b := Z.lxor b (u32 (Z.shiftl a 8)) in
  let c := u32 (c - a) in let c := u32 (c - b) in let c := Z.lxor c (Z.shiftr b 13) in
  let a := u32 (a - b) in let a := u32 (a - c) in let a := Z.lxor a (Z.shiftr c 12) in
  let b := u32 (b - c) in let b := u32 (b - a) in let b := Z.lxor b (u32 (Z.shiftl a 16)) in
  let c := u32 (c - a) in let c := u32 (c - b) in let c := Z.lxor c (Z.shiftr b 5) in
  let a := u32 (a - b) in let a := u32 (a - c) in let a := Z.lxor a (Z.shiftr c 3) in
  let b := u32 (b - c) in let b := u32 (b - a) in let b := Z.lxor b (u32 (Z.shiftl a 10)) in
  let c := u32 (c - a) in let c := u32 (c - b) in let c := Z.lxor c (Z.shiftr b 15) in
  (a, b, c).

Section burtle.
(** What is done to each byte read: nothing, or case folding. *)
Variable f : Z -> Z.

Definition burtle_byte (k : bytes) (i : nat) (shift : Z) : Z :=
  match k !! i with Some x => u32 (Z.shiftl (f x) shift) | None => 0 end.

Definition burtle_word (k : bytes) (i : nat) : Z :=
  burtle_byte k i 0 + burtle_byte k (i + 1) 8
  + burtle_byte k (i + 2) 16 + burtle_byte k (i + 3) 24.

(** The [while (len >= 12)] loop; the rest of the key is the list itself. *)
Fixpoint burtle_loop (fuel : nat) (k : bytes) (st : Z * Z * Z) : bytes * (Z * Z * Z) :=
  match fuel with
  | O => (k, st)
  | S fuel' =>
      if 12 <=? zlen k then
        let '(a, b, c) := st in
        burtle_loop fuel' (drop 12 k)
          (burtlemix (u32 (a + burtle_word k 0), u32 (b + burtle_word k 4),
                      u32 (c + burtle_word k 8)))
      else (k, st)
  end.

(** The fall-through [switch] on the last, at most 11, bytes: the bytes that
    are not there contribute nothing. *)
Definition burtle_tail (k : bytes) (st : Z * Z * Z) : Z * Z * Z :=
  let '(a, b, c) := st in
  (u32 (a + burtle_word k 0), u32 (b + burtle_word k 4),
   u32 (c + burtle_byte k 8 8 + burtle_byte k 9 16 + burtle_byte k 10 24)).

Definition burtle_with (k : bytes) (initval : Z) : Z :=
  let '(rest, (a, b, c)) :=
    burtle_loop (length k) k (2654435769, 2654435769, u32 initval) in
  let '(_, _, c) := burtlemix (burtle_tail rest (a, b, u32 (c + zlen k))) in c.
End burtle.

Definition burtle : bytes -> Z -> Z := burtle_with (fun x => x).
Definition burtleCI : bytes -> Z -> Z := burtle_with dns_tolower.

(** ** Facts *)

Lemma dns_tolower_spec c :
  is_byte c -> dns_tolower c = if (65 <=? c) && (c <=? 90) then c + 32 else c.
Proof.
  intros Hc.
  assert (Forall (fun c => dns_tolower c = if (65 <=? c) && (c <=? 90) then c + 32 else c)
            (seqZ 0 256)) as Hall.
  { apply (bool_decide_unpack _). vm_compute. exact I. }
  rewrite Forall_forall in Hall. apply Hall. apply elem_of_seqZ. unfold is_byte in Hc. lia.
Qed.

Lemma dns_tolower_byte c : is_byte c -> is_byte (dns_tolower c).
Proof.
  intros Hc. rewrite dns_tolower_spec by done. unfold is_byte in *.
  destruct (_ && _) eqn:E; lia.
Qed.

Lemma dns_tolower_idemp c : is_byte c -> dns_tolower (dns_tolower c) = dns_tolower c.
Proof.
  intros Hc. rewrite (dns_tolower_spec (dns_tolower c)) by by apply dns_tolower_byte.
  rewrite dns_tolower_spec by done. unfold is_byte in *.
  repeat case_match; lia.
Qed.

(** Label lengths are never changed by case folding. *)
Lemma dns_tolower_small c : 0 <= c < 65 -> dns_tolower c = c.
Proof.
  intros. rewrite dns_tolower_spec by (unfold is_byte; lia).
  destruct (_ && _) eqn:E; lia.
Qed.

(** [pdns_ilexicographical_compare_three_way] is the lexicographic comparison
    of the case-folded strings. *)
Lemma ilex_compare_spec a b :
  (pdns_ilexicographical_compare_three_way a b ?= 0)
  = lex_compare Z.compare (toLower a) (toLower b).
Proof.
  revert b. induction a as [|x a IH]; intros [|y b]; simpl; try done.
  destruct (Z.eqb_spec x y) as [->|Hne].
  - by rewrite Z.compare_refl, IH.
  - destruct (Z.eqb_spec (dns_tolower x - dns_tolower y) 0) as [E|E]; simpl.
    + replace (dns_tolower x) with (dns_tolower y) by lia.
      by rewrite Z.compare_refl, IH.
    + rewrite <- (Z.compare_sub (dns_tolower x) (dns_tolower y)).
      destruct (Z.compare_spec (dns_tolower x) (dns_tolower y)); done || lia.
Qed.

Lemma ilex_compare_eq_iff a b :
  pdns_ilexicographical_compare_three_way a b = 0 <-> toLower a = toLower b.
Proof.
  rewrite <- Z.compare_eq_iff, ilex_compare_spec. apply (lex_compare_eq_iff _).
Qed.

Lemma zlen_toLower s : zlen (toLower s) = zlen s.
Proof. unfold zlen, toLower. by rewrite length_map. Qed.

Lemma pdns_iequals_spec a b : pdns_iequals a b = true <-> toLower a = toLower b.
Proof.
  unfold pdns_iequals. destruct (Z.eqb_spec (zlen a) (zlen b)) as [E|E]; simpl.
  - rewrite Z.eqb_eq. apply ilex_compare_eq_iff.
  - split; [done|]. intros Heq. by rewrite <- (zlen_toLower a), Heq, zlen_toLower in E.
Qed.

Lemma toLower_app a b : toLower (a ++ b) = toLower a ++ toLower b.
Proof. apply map_app. Qed.

Lemma toLower_idemp s : bytes_ok s -> toLower (toLower s) = toLower s.
Proof.
  induction 1; simpl; [done|]. f_equal; [by apply dns_tolower_idemp|done].
Qed.

Lemma toLower_bytes_ok s : bytes_ok s -> bytes_ok (toLower s).
Proof. induction 1; constructor; auto using dns_tolower_byte. Qed.
