(* ===== verification/Dns.v ===== *)
(** * Codes, their names, and the packet header

    [pdns/dns.hh], [pdns/dns.cc], [pdns/qtype.hh] and [pdns/qtype.cc]: record
    types and classes, response codes and opcodes with their text forms, the
    fixed header of a packet, and the hash of a packet's question. *)

From S2P Require Import Prelude Chars.

#[local] Open Scope Z_scope.

(** The error codes of [errno.h] the sources return. *)
Definition ENOENT : Z := 2.
Definition EIO : Z := 5.
Definition EINVAL : Z := 22.

(** ** Record types *)

Module QType.
Definition ENT : Z := 0.
Definition A : Z := 1.
Definition NS : Z := 2.
Definition CNAME : Z := 5.
Definition SOA : Z := 6.
Definition MB : Z := 7.
Definition MG : Z := 8.
Definition MR : Z := 9.
Definition PTR : Z := 12.
Definition HINFO : Z := 13.
Definition MINFO : Z := 14.
Definition MX : Z := 15.
Definition TXT : Z := 16.
Definition RP : Z := 17.
Definition AFSDB : Z := 18.
Definition SIG : Z := 24.
Definition KEY : Z := 25.
Definition AAAA : Z := 28.
Definition LOC : Z := 29.
Definition SRV : Z := 33.
Definition NAPTR : Z := 35.
Definition KX : Z := 36.
Definition CERT : Z := 37.
Definition A6 : Z := 38.
Definition DNAME : Z := 39.
Definition OPT : Z := 41.
Definition APL : Z := 42.
Definition DS : Z := 43.
Definition SSHFP : Z := 44.
Definition IPSECKEY : Z := 45.
Definition RRSIG : Z := 46.
Definition NSEC : Z := 47.
Definition DNSKEY : Z := 48.
Definition DHCID : Z := 49.
Definition NSEC3 : Z := 50.
Definition NSEC3PARAM : Z := 51.
Definition TLSA : Z := 52.
Definition SMIMEA : Z := 53.
Definition RKEY : Z := 57.
Definition CDS : Z := 59.
Definition CDNSKEY : Z := 60.
Definition OPENPGPKEY : Z := 61.
Definition CSYNC : Z := 62.
Definition ZONEMD : Z := 63.
Definition SVCB : Z := 64.
Definition HTTPS : Z := 65.
Definition HHIT : Z := 67.
Definition BRID : Z := 68.
Definition SPF : Z := 99.
Definition NID : Z := 104.
Definition L32 : Z := 105.
Definition L64 : Z := 106.
Definition LP : Z := 107.
Definition EUI48 : Z := 108.
Definition EUI64 : Z := 109.
Definition TKEY : Z := 249.
Definition TSIG : Z := 250.
Definition IXFR : Z := 251.
Definition AXFR : Z := 252.
Definition MAILB : Z := 253.
Definition MAILA : Z := 254.
Definition ANY : Z := 255.
Definition URI : Z := 256.
Definition CAA : Z := 257.
Definition RESINFO : Z := 261.
Definition WALLET : Z := 262.
Definition DLV : Z := 32769.
Definition ADDR : Z := 65400.
Definition ALIAS : Z := 65401.
Definition LUA : Z := 65402.
Definition rfc6895MetaLowerBound : Z := 128.
Definition rfc6895MetaUpperBound : Z := 254.
Definition rfc6895Reserved : Z := 65535.
End QType.

Module QClass.
Definition IN : Z := 1.
Definition CHAOS : Z := 3.
Definition NONE : Z := 254.
Definition ANY : Z := 255.
End QClass.

(** [QType::names]. *)
Definition qtype_names : list (bytes * Z) :=
  [(bs "A", 1); (bs "NS", 2); (bs "CNAME", 5); (bs "SOA", 6);
   (bs "MB", 7); (bs "MG", 8); (bs "MR", 9); (bs "PTR", 12);
   (bs "HINFO", 13); (bs "MINFO", 14); (bs "MX", 15); (bs "TXT", 16);
   (bs "RP", 17); (bs "AFSDB", 18); (bs "SIG", 24); (bs "KEY", 25);
   (bs "AAAA", 28); (bs "LOC", 29); (bs "SRV", 33); (bs "NAPTR", 35);
   (bs "KX", 36); (bs "CERT", 37); (bs "A6", 38); (bs "DNAME", 39);
   (bs "OPT", 41); (bs "APL", 42); (bs "DS", 43); (bs "SSHFP", 44);
   (bs "IPSECKEY", 45); (bs "RRSIG", 46); (bs "NSEC", 47); (bs "DNSKEY", 48);
   (bs "DHCID", 49); (bs "NSEC3", 50); (bs "NSEC3PARAM", 51); (bs "TLSA", 52);
   (bs "SMIMEA", 53); (bs "RKEY", 57); (bs "CDS", 59); (bs "CDNSKEY", 60);
   (bs "OPENPGPKEY", 61); (bs "CSYNC", 62); (bs "ZONEMD", 63); (bs "SVCB", 64);
   (bs "HTTPS", 65); (bs "HHIT", 67); (bs "BRID", 68); (bs "SPF", 99);
   (bs "NID", 104); (bs "L32", 105); (bs "L64", 106); (bs "LP", 107);
   (bs "EUI48", 108); (bs "EUI64", 109); (bs "TKEY", 249); (bs "TSIG", 250);
   (bs "IXFR", 251); (bs "AXFR", 252); (bs "MAILB", 253); (bs "MAILA", 254);
   (bs "ANY", 255); (bs "URI", 256); (bs "CAA", 257); (bs "RESINFO", 261);
   (bs "WALLET", 262); (bs "DLV", 32769); (bs "ADDR", 65400); (bs "ALIAS", 65401);
   (bs "LUA", 65402)].

(** A [std::map] from names, given by its initialiser. *)
Fixpoint assoc_name (m : list (bytes * Z)) (k : bytes) : option Z :=
  match m with
  | [] => None
  | (k', v) :: m' => if bool_decide (k' = k) then Some v else assoc_name m' k
  end.

(** [QType::numbers], the swapped map. *)
Fixpoint assoc_number (m : list (bytes * Z)) (v : Z) : option bytes :=
  match m with
  | [] => None
  | (k, v') :: m' => if v' =? v then Some k else assoc_number m' v
  end.

Definition isSupportedType (code : Z) : bool :=
  match assoc_number qtype_names code with Some _ => true | None => false end.

Definition isMetadataType (code : Z) : bool :=
  (code =? QType.OPT)
  || ((QType.rfc6895MetaLowerBound <=? code) && (code <=? QType.rfc6895MetaUpperBound)).

(** [std::to_string] of an unsigned number. *)
Fixpoint dec_digits (fuel : nat) (n : Z) (acc : bytes) : bytes :=
  match fuel with
  | O => acc
  | S fuel' =>
      let acc := (48 + n mod 10) :: acc in
      if n / 10 =? 0 then acc else dec_digits fuel' (n / 10) acc
  end.

Definition to_string (n : Z) : bytes := dec_digits (S (Z.to_nat (Z.log2 n))) n [].

Definition qtype_toString (code : Z) : bytes :=
  match assoc_number qtype_names code with
  | Some name => name
  | None => bs "TYPE" ++ to_string code
  end.

(** [isspace] in the C locale. *)
Definition c_isspace (c : Z) : bool := (c =? 32) || ((9 <=? c) && (c <=? 13)).

Definition c_isdigit (c : Z) : bool := (48 <=? c) && (c <=? 57).

Fixpoint skip_spaces (s : bytes) : bytes :=
  match s with
  | c :: s' => if c_isspace c then skip_spaces s' else s
  | [] => []
  end.

Definition ULONG_MAX : Z := 2 ^ 64 - 1.

(** The digits of [strtoul]: the value, the rest, and whether there was one. *)
Fixpoint strtoul_digits (s : bytes) (v : Z) (any : bool) : Z * bytes * bool :=
  match s with
  | c :: s' => if c_isdigit c then strtoul_digits s' (v * 10 + (c - 48)) true else (v, s, any)
  | [] => (v, [], any)
  end.

(** [strtoul(s, &end, 10)]: the value and what [end] points at, [None] when no
    conversion was made. *)
Definition strtoul (s : bytes) : Z * option bytes :=
  let s1 := skip_spaces s in
  let '(neg, s2) := match s1 with
                    | c :: s' => if c =? 45 then (true, s') else if c =? 43 then (false, s') else (false, s1)
                    | [] => (false, [])
                    end in
  let '(v, rest, any) := strtoul_digits s2 0 false in
  if any : bool then
    if ULONG_MAX <? v then (ULONG_MAX, Some rest)
    else ((if neg : bool then (- v) mod 2 ^ 64 else v), Some rest)
  else (0, None).

(** A C string ends at its first zero byte. *)
Fixpoint c_str (s : bytes) : bytes :=
  match s with
  | c :: s' => if c =? 0 then [] else c :: c_str s'
  | [] => []
  end.

Definition chartocode (text : bytes) : Z :=
  let ptr := c_str text in
  let upper := toUpper ptr in
  match assoc_name qtype_names upper with
  | Some num => num
  | None =>
      let digits :=
        if bool_decide (head ptr = Some 35) then Some (zdrop 1 ptr)
        else if bool_decide (ztake 4 upper = bs "TYPE") then Some (zdrop 4 ptr)
        else None in
      match digits with
      | Some digits =>
          match strtoul digits with
          | (typeno, Some rest) =>
              if (typeno <=? 65535)
                 && match rest with [] => true | c :: _ => c_isspace c end
              then typeno else 0
          | (_, None) => 0
          end
      | None => 0
      end
  end.

Definition s_classMap : list (bytes * Z) :=
  [(bs "IN", QClass.IN); (bs "CHAOS", QClass.CHAOS); (bs "NONE", QClass.NONE); (bs "ANY", QClass.ANY)].

Definition QClass_from_string (code : bytes) : result Z :=
  of_option (runtime_error "Invalid QClass") (assoc_name s_classMap code).

Definition qclass_toString (qclass : Z) : bytes :=
  if qclass =? QClass.IN then bs "IN"
  else if qclass =? QClass.CHAOS then bs "CHAOS"
  else if qclass =? QClass.NONE then bs "NONE"
  else if qclass =? QClass.ANY then bs "ANY"
  else bs "CLASS" ++ to_string qclass.

(** ** Response codes and opcodes *)

Definition rcodes_s : list bytes :=
  [bs "No Error"; bs "Form Error"; bs "Server Failure"; bs "Non-Existent domain";
   bs "Not Implemented"; bs "Query Refused"; bs "Name Exists when it should not";
   bs "RR Set Exists when it should not"; bs "RR Set that should exist does not";
   bs "Server Not Authoritative for zone / Not Authorized"; bs "Name not contained in zone";
   bs "Err#11"; bs "Err#12"; bs "Err#13"; bs "Err#14"; bs "Err#15";
   bs "Bad OPT Version / TSIG Signature Failure"; bs "Key not recognized";
   bs "Signature out of time window"; bs "Bad TKEY Mode"; bs "Duplicate key name";
   bs "Algorithm not supported"; bs "Bad Truncation"; bs "Bad/missing Server Cookie"].

Definition rcodes_short_s : list bytes :=
  [bs "noerror"; bs "formerr"; bs "servfail"; bs "nxdomain"; bs "notimp"; bs "refused";
   bs "yxdomain"; bs "yxrrset"; bs "nxrrset"; bs "notauth"; bs "notzone"; bs "rcode11";
   bs "rcode12"; bs "rcode13"; bs "rcode14"; bs "rcode15"; bs "badvers"; bs "badkey";
   bs "badtime"; bs "badmode"; bs "badname"; bs "badalg"; bs "badtrunc"; bs "badcookie"].

Definition ERCode_to_s (rcode : Z) : bytes :=
  match zat rcodes_s rcode with Some s => s | None => bs "Err#" ++ to_string rcode end.

Definition ERCode_to_short_s (rcode : Z) : bytes :=
  match zat rcodes_short_s rcode with Some s => s | None => bs "rcode" ++ to_string rcode end.

(** [std::find] followed by [std::distance]. *)
Fixpoint find_index (s : bytes) (l : list bytes) (i : Z) : option Z :=
  match l with
  | [] => None
  | x :: l' => if bool_decide (x = s) then Some i else find_index s l' (i + 1)
  end.

Definition ERCode_from_short (ercode_string : bytes) : option Z :=
  find_index ercode_string rcodes_short_s 0.

Definition RCode_to_s (rcode : Z) : bytes :=
  if 15 <? rcode then bs "ErrOutOfRange" else ERCode_to_s rcode.

Definition RCode_to_short_s (rcode : Z) : bytes :=
  if 15 <? rcode then bs "ErrOutOfRange" else ERCode_to_short_s rcode.

Definition RCode_from_short (rcode_string : bytes) : option Z :=
  match find_index rcode_string rcodes_short_s 0 with
  | None => None
  | Some code => if 15 <? code then None else Some code
  end.

Definition s_opcodes : list bytes :=
  [bs "Query"; bs "IQuery"; bs "Status"; []; bs "Notify"; bs "Update"].

Definition Opcode_to_s (opcode : Z) : bytes :=
  match zat s_opcodes opcode with
  | None | Some [] => to_string opcode
  | Some s => s
  end.

Definition s_opcodes_lower : list bytes :=
  [bs "query"; bs "iquery"; bs "status"; []; bs "notify"; bs "update"].

Definition Opcode_from_lowercase_string (opcode_string : bytes) : option Z :=
  match find_index opcode_string s_opcodes_lower 0 with
  | None => None
  | Some i => if bool_decide (zat s_opcodes_lower i = Some []) then None else Some i
  end.

Inductive Place : Type := QUESTION | ANSWER | AUTHORITY | ADDITIONAL.

#[export] Instance Place_eq_dec : EqDecision Place.
Proof. solve_decision. Defined.

Definition placeString (place : Z) : bytes :=
  default (bs "?") (zat [bs "QUESTION"; bs "ANSWER"; bs "AUTHORITY"; bs "ADDITIONAL"] place).

(** ** The packet header *)

Record dnsheader : Type := mkHeader {
  dh_id : Z;
  dh_qr : bool; dh_opcode : Z; dh_aa : bool; dh_tc : bool; dh_rd : bool;
  dh_ra : bool; dh_unused : bool; dh_ad : bool; dh_cd : bool; dh_rcode : Z;
  dh_qdcount : Z; dh_ancount : Z; dh_nscount : Z; dh_arcount : Z;
}.

Definition sizeof_dnsheader : Z := 12.

(** The fields of the struct over the first 12 bytes of a packet. *)
Definition header_of (packet : bytes) : dnsheader :=
  let b2 := byte_at packet 2 in
  let b3 := byte_at packet 3 in
  mkHeader (get16 packet 0)
    (Z.testbit b2 7) (Z.land (Z.shiftr b2 3) 15) (Z.testbit b2 2) (Z.testbit b2 1) (Z.testbit b2 0)
    (Z.testbit b3 7) (Z.testbit b3 6) (Z.testbit b3 5) (Z.testbit b3 4) (Z.land b3 15)
    (get16 packet 4) (get16 packet 6) (get16 packet 8) (get16 packet 10).

Definition header_bytes (dh : dnsheader) : bytes :=
  be16 (dh_id dh)
  ++ [Z.b2z (dh_qr dh) * 128 + dh_opcode dh * 8 + Z.b2z (dh_aa dh) * 4 + Z.b2z (dh_tc dh) * 2 + Z.b2z (dh_rd dh);
      Z.b2z (dh_ra dh) * 128 + Z.b2z (dh_unused dh) * 64 + Z.b2z (dh_ad dh) * 32 + Z.b2z (dh_cd dh) * 16 + dh_rcode dh]
  ++ be16 (dh_qdcount dh) ++ be16 (dh_ancount dh) ++ be16 (dh_nscount dh) ++ be16 (dh_arcount dh).

(** The value [getFlagsFromDNSHeader] points at, in network order. *)
Definition getFlagsFromDNSHeader (packet : bytes) : Z := get16 packet 2.

(** ** Hashing the question of a packet *)

(** The loop over the labels: the length of the name, if it ends in the packet. *)
Fixpoint hashQuestion_loop (fuel : nat) (name : bytes) (len : Z) : option Z :=
  match fuel with
  | O => None
  | S fuel' =>
      if len <? zlen name then
        let labellen := byte_at name len in
        let len := len + 1 in
        if labellen =? 0 then Some len else hashQuestion_loop fuel' name (len + labellen)
      else None
  end.

(** The hash and [wasOK]. *)
Definition hashQuestion (packet : bytes) (init : Z) : Z * bool :=
  if zlen packet <? sizeof_dnsheader then (init, false)
  else
    let name := zdrop sizeof_dnsheader packet in
    match hashQuestion_loop (S (length name)) name 0 with
    | Some len => (burtleCI (ztake len name) init, true)
    | None => (init, false)
    end.

(** ** Facts *)

Lemma strtoul_digits_app ds v any :
  Forall (fun c => c_isdigit c = true) ds ->
  strtoul_digits ds v any
  = (fold_left (fun v c => v * 10 + (c - 48)) ds v, [], any || negb (bool_decide (ds = []))).
Proof.
  intros Hd. revert v any. induction Hd as [|c ds Hc Hd IH]; intros v any; simpl.
  - by rewrite orb_false_r.
  - rewrite Hc, IH. simpl. by rewrite orb_true_r.
Qed.

Definition dec_value (ds : bytes) : Z := fold_left (fun v c => v * 10 + (c - 48)) ds 0.

Lemma dec_digits_spec fuel n acc :
  0 <= n < 2 ^ Z.of_nat fuel -> fuel <> O ->
  exists ds, dec_digits fuel n acc = ds ++ acc /\ dec_value ds = n /\ ds <> []
             /\ Forall (fun c => c_isdigit c = true) ds.
Proof.
  revert n acc. induction fuel as [|fuel IH]; intros n acc Hn Hf; [done|]. cbn [dec_digits].
  pose proof (Z.mod_pos_bound n 10 ltac:(lia)) as Hm. pose proof (Z.div_mod n 10 ltac:(lia)) as Hdm.
  assert (c_isdigit (48 + n mod 10) = true) as Hdig by (unfold c_isdigit; lia).
  destruct (Z.eqb_spec (n / 10) 0) as [E|E].
  - exists [48 + n mod 10]. split_and!; [done|unfold dec_value; simpl; lia|done|by repeat constructor].
  - rewrite Nat2Z.inj_succ, Z.pow_succ_r in Hn by lia.
    assert (0 <= n / 10) by (apply Z.div_pos; lia).
    assert (n / 10 < 2 ^ Z.of_nat fuel) by (apply Z.div_lt_upper_bound; lia).
    destruct (IH (n / 10) (48 + n mod 10 :: acc)) as (ds & -> & Hv & Hne & Hall); [lia| |].
    { intros ->. simpl in *. lia. }
    exists (ds ++ [48 + n mod 10]). rewrite <- app_assoc. split_and!; [done| | |].
    + unfold dec_value in *. rewrite fold_left_app, Hv. simpl. lia.
    + by destruct ds.
    + apply Forall_app. split; [done|]. by repeat constructor.
Qed.

(** [std::to_string] writes decimal digits that stand for the number. *)
Lemma to_string_spec n :
  0 <= n -> dec_value (to_string n) = n /\ to_string n <> []
            /\ Forall (fun c => c_isdigit c = true) (to_string n).
Proof.
  intros Hn. unfold to_string.
  destruct (dec_digits_spec (S (Z.to_nat (Z.log2 n))) n []) as (ds & -> & ? & ? & ?); [|done|].
  - rewrite Nat2Z.inj_succ, Z2Nat.id by apply Z.log2_nonneg.
    destruct (decide (n = 0)) as [->|]; [done|]. pose proof (Z.log2_spec n). lia.
  - by rewrite app_nil_r.
Qed.

Lemma strtoul_to_string n : 0 <= n <= ULONG_MAX -> strtoul (to_string n) = (n, Some []).
Proof.
  intros Hn. destruct (to_string_spec n) as (Hv & Hne & Hd); [lia|].
  destruct (to_string n) as [|c ds] eqn:E; [done|]. rewrite <- E in Hv. clear Hne.
  inversion_clear Hd as [|?? Hc Hds]. pose proof Hc as Hc'. unfold c_isdigit in Hc'.
  unfold strtoul. cbn [skip_spaces].
  assert (c_isspace c = false) as -> by (unfold c_isspace; lia).
  rewrite (proj2 (Z.eqb_neq c 45)), (proj2 (Z.eqb_neq c 43)) by lia.
  rewrite strtoul_digits_app by by constructor. fold (dec_value (c :: ds)). rewrite <- E, Hv, E.
  cbn [orb bool_decide negb]. rewrite (bool_decide_eq_false_2 (c :: ds = [])) by done. cbn [negb].
  by rewrite (proj2 (Z.ltb_ge _ _)) by lia.
Qed.

Lemma toUpper_digits ds : Forall (fun c => c_isdigit c = true) ds -> toUpper ds = ds.
Proof.
  induction 1 as [|c ds Hc _ IH]; [done|]. simpl. f_equal; [|done].
  assert (Forall (fun k => dns_toupper (Z.of_nat k) = Z.of_nat k) (seq 48 10)) as Hall by by_decide.
  rewrite Forall_seq in Hall. unfold c_isdigit in Hc. specialize (Hall (Z.to_nat c)).
  rewrite Z2Nat.id in Hall by lia. apply Hall. lia.
Qed.

Lemma c_str_digits ds : Forall (fun c => c_isdigit c = true) ds -> c_str ds = ds.
Proof.
  induction 1 as [|c ds Hc _ IH]; [done|]. simpl. unfold c_isdigit in Hc.
  rewrite (proj2 (Z.eqb_neq c 0)) by lia. by rewrite IH.
Qed.

Lemma assoc_name_None m k :
  Forall (fun e => ztake 4 (fst e) <> bs "TYPE") m -> ztake 4 k = bs "TYPE" -> assoc_name m k = None.
Proof.
  intros Hm Hk. induction Hm as [|[k' v] m Hne _ IH]; [done|]. simpl in *.
  rewrite bool_decide_eq_false_2; [done|]. congruence.
Qed.

Lemma assoc_number_elem m v k : assoc_number m v = Some k -> (k, v) ∈ m.
Proof.
  induction m as [|[k' v'] m IH]; simpl; [done|].
  destruct (Z.eqb_spec v' v) as [->|]; [intros [= ->]; by left|]. right. auto.
Qed.

Lemma chartocode_TYPE ds :
  Forall (fun c => c_isdigit c = true) ds ->
  chartocode (bs "TYPE" ++ ds)
  = match strtoul ds with
    | (typeno, Some []) => if typeno <=? 65535 then typeno else 0
    | (typeno, Some (c :: _)) => if (typeno <=? 65535) && c_isspace c then typeno else 0
    | (_, None) => 0
    end.
Proof.
  intros Hd. unfold chartocode.
  assert (c_str (bs "TYPE" ++ ds) = bs "TYPE" ++ ds) as -> by (simpl; by rewrite c_str_digits).
  assert (toUpper (bs "TYPE" ++ ds) = bs "TYPE" ++ ds) as ->.
  { unfold toUpper. rewrite map_app. f_equal. by apply toUpper_digits. }
  rewrite assoc_name_None; [|by_decide|done].
  rewrite bool_decide_eq_false_2 by done. rewrite bool_decide_eq_true_2 by done.
  change (zdrop 4 (bs "TYPE" ++ ds)) with ds.
  destruct (strtoul ds) as [v [[|c rest]|]]; [by rewrite andb_true_r|done|done].
Qed.

(** every record type survives being written as text and read back, all 16
    bits of it, whether it has a name or is written as [TYPE] and its number. *)
Theorem qtype_text_round_trip (code : Z) :
  0 <= code < 65536 -> chartocode (qtype_toString code) = code.
Proof.
  intros Hc. unfold qtype_toString. destruct (assoc_number qtype_names code) as [k|] eqn:E.
  - apply assoc_number_elem in E.
    assert (Forall (fun e => chartocode (fst e) = snd e) qtype_names) as Hall by by_decide.
    rewrite Forall_forall in Hall. apply (Hall (k, code) E).
  - rewrite chartocode_TYPE by (apply to_string_spec; lia).
    rewrite strtoul_to_string by (unfold ULONG_MAX; lia).
    by rewrite (proj2 (Z.leb_le _ _)) by lia.
Qed.

Lemma qtype_text_round_trip_witness : chartocode (qtype_toString 4711) = 4711.
Proof. apply qtype_text_round_trip. lia. Defined.
