(* ===== verification/Names.v ===== *)
(** * DNS names: storage, label operations, comparison for equality

    The class [DNSName] of [pdns/dnsname.hh] and [pdns/dnsname.cc].  A name is
    its raw storage, in DNS label format with a trailing zero; without the
    trailing zero the name is "empty", which is not the root.

    The storage is read through [const char*] or [const unsigned char*]
    depending on the function.  Label lengths never exceed 63 in a name that
    satisfies the class invariant [wf_name] below, where both readings agree;
    the definitions read unsigned bytes. *)

From S2P Require Import Prelude Chars.

#[local] Open Scope Z_scope.

Record DNSName : Type := mkDNSName { d_storage : bytes }.

#[export] Instance DNSName_eq_dec : EqDecision DNSName.
Proof. solve_decision. Defined.

Definition s_maxDNSNameLength : Z := 255.
Definition s_maxDNSLabelLength : Z := 63.

(** ** Queries *)

Definition name_empty (n : DNSName) : bool := bool_decide (d_storage n = []).

Definition isRoot (n : DNSName) : bool :=
  (zlen (d_storage n) =? 1) && bool_decide (zat (d_storage n) 0 = Some 0).

Definition hasLabels (n : DNSName) : bool := negb (name_empty n) && negb (isRoot n).

Definition g_rootdnsname : DNSName := mkDNSName [0].

Definition wirelength (n : DNSName) : Z := zlen (d_storage n).

Definition toDNSString (n : DNSName) : result bytes :=
  if name_empty n then Throw (out_of_range "Attempt to DNSString an unset DNSName")
  else Ok (d_storage n).

Definition toDNSStringLC (n : DNSName) : result bytes :=
  r ← toDNSString n; Ok (toLower r).

(** The loop of [getRawLabels]: [p] is what is left of the storage. *)
Fixpoint getRawLabels_loop (fuel : nat) (p : bytes) : list bytes :=
  match fuel, p with
  | S fuel', len :: p' =>
      if len =? 0 then []
      else ztake len p' :: getRawLabels_loop fuel' (zdrop len p')
  | _, _ => []
  end.

Definition getRawLabels (n : DNSName) : list bytes :=
  getRawLabels_loop (length (d_storage n)) (d_storage n).

Fixpoint getRawLabel_loop (fuel : nat) (p : bytes) (currentPos pos : Z) : result bytes :=
  match fuel, p with
  | S fuel', len :: p' =>
      if len =? 0 then Throw (out_of_range "trying to get label at position")
      else if currentPos =? pos then Ok (ztake len p')
      else getRawLabel_loop fuel' (zdrop len p') (currentPos + 1) pos
  | _, _ => Throw (out_of_range "trying to get label at position")
  end.

Definition getRawLabel (n : DNSName) (pos : Z) : result bytes :=
  getRawLabel_loop (length (d_storage n)) (d_storage n) 0 pos.

Fixpoint countLabels_loop (fuel : nat) (p : bytes) : Z :=
  match fuel, p with
  | S fuel', len :: p' =>
      if len =? 0 then 0 else 1 + countLabels_loop fuel' (zdrop len p')
  | _, _ => 0
  end.

Definition countLabels (n : DNSName) : Z :=
  countLabels_loop (length (d_storage n)) (d_storage n).

Definition isWildcard (n : DNSName) : bool :=
  if zlen (d_storage n) <? 2 then false
  else bool_decide (zat (d_storage n) 0 = Some 1) && bool_decide (zat (d_storage n) 1 = Some 42).

Definition eightbit_allowed (c : Z) : bool :=
  ((97 <=? c) && (c <=? 122)) || ((65 <=? c) && (c <=? 90)) || ((48 <=? c) && (c <=? 57))
  || (c =? 45) || (c =? 95) || (c =? 42) || (c =? 46) || (c =? 47) || (c =? 64)
  || (c =? 32) || (c =? 92) || (c =? 58).

(** The loops of [has8bitBytes]; [s.at(pos)] throws past the end. *)
Fixpoint has8bitBytes_loop (fuel : nat) (p : bytes) : result bool :=
  match fuel with
  | O => Throw (out_of_range "string::at")
  | S fuel' =>
      match p with
      | [] => Throw (out_of_range "string::at")
      | len :: p' =>
          if len =? 0 then Ok false
          else
            let label := ztake len p' in
            if existsb (fun c => negb (eightbit_allowed c)) label then Ok true
            else if zlen label <? len then Throw (out_of_range "string::at")
            else has8bitBytes_loop fuel' (zdrop len p')
      end
  end.

Definition has8bitBytes (n : DNSName) : result bool :=
  has8bitBytes_loop (S (length (d_storage n))) (d_storage n).

(** ** Changes *)

Definition chopOff (n : DNSName) : DNSName * bool :=
  match d_storage n with
  | [] => (n, false)
  | len :: p => if len =? 0 then (n, false) else (mkDNSName (zdrop len p), true)
  end.

Fixpoint chopOff_times (k : nat) (n : DNSName) : DNSName :=
  match k with O => n | S k' => chopOff_times k' (fst (chopOff n)) end.

Definition trimToLabels (n : DNSName) (to_ : Z) : DNSName :=
  if negb (to_ =? 0) then chopOff_times (Z.to_nat (countLabels n - to_)) n
  else if negb (name_empty n) then g_rootdnsname else n.

Definition getLastLabel (n : DNSName) : DNSName := trimToLabels n 1.

(** [checkLabelLength] takes a [uint8_t]: its callers' lengths are truncated. *)
Definition checkLabelLength (length_ : Z) : result unit :=
  _ ← throw_if (u8 length_ =? 0) (range_error "no such thing as an empty label to append");
  throw_if (s_maxDNSLabelLength <? u8 length_) (range_error "label too long to append").

Definition appendRawLabel (n : DNSName) (label : bytes) : result DNSName :=
  _ ← checkLabelLength (zlen label);
  _ ← throw_if (s_maxDNSNameLength - 1 <? zlen (d_storage n) + zlen label)
        (range_error "name too long to append");
  let s := if name_empty n then [u8 (zlen label)]
           else ztake (zlen (d_storage n) - 1) (d_storage n) ++ [u8 (zlen label)] in
  Ok (mkDNSName (s ++ label ++ [0])).

Definition prependRawLabel (n : DNSName) (label : bytes) : result DNSName :=
  _ ← checkLabelLength (zlen label);
  _ ← throw_if (s_maxDNSNameLength - 1 <? zlen (d_storage n) + zlen label)
        (range_error "name too long to prepend");
  let s := if name_empty n then [0] else d_storage n in
  Ok (mkDNSName (u8 (zlen label) :: label ++ s)).

Definition makeLowerCase (n : DNSName) : DNSName := mkDNSName (toLower (d_storage n)).

(** [operator+=] (and [operator+]). *)
Definition name_append (n rhs : DNSName) : result DNSName :=
  _ ← throw_if (s_maxDNSNameLength + 1 <? zlen (d_storage n) + zlen (d_storage rhs))
        (range_error "resulting name too long");
  if name_empty rhs then Ok n
  else if name_empty n then Ok (mkDNSName (d_storage n ++ d_storage rhs))
  else
    let p := zlen (d_storage n) - 1 in
    Ok (mkDNSName (ztake p (d_storage n) ++ d_storage rhs
                   ++ zdrop (p + zlen (d_storage rhs)) (d_storage n))).

(** ** Comparison *)

Fixpoint lower_eqb (us p : bytes) : bool :=
  match us, p with
  | x :: us', y :: p' =>
      if negb (dns_tolower y =? dns_tolower x) then false else lower_eqb us' p'
  | _, _ => true
  end.

(** [operator==]. *)
Definition name_eqb (n rhs : DNSName) : bool :=
  if negb (Bool.eqb (name_empty rhs) (name_empty n))
     || negb (zlen (d_storage rhs) =? zlen (d_storage n)) then false
  else lower_eqb (d_storage n) (d_storage rhs).

Fixpoint isPartOf_loop (fuel : nat) (us parent : bytes) : result bool :=
  match fuel, us with
  | S fuel', len :: us' =>
      if zlen us <? zlen parent then Ok false
      else if zlen us =? zlen parent then Ok (lower_eqb us parent)
      else if s_maxDNSLabelLength <? len
           then Throw (out_of_range "illegal label length in DNSName")
           else isPartOf_loop fuel' (zdrop len us') parent
  | _, _ => Ok false
  end.

Definition isPartOf (n parent : DNSName) : result bool :=
  if name_empty parent || name_empty n then
    Throw (out_of_range "empty DNSNames aren't part of anything")
  else if zlen (d_storage n) <? zlen (d_storage parent) then Ok false
  else isPartOf_loop (length (d_storage n)) (d_storage n) (d_storage parent).

Definition makeRelative (n zone : DNSName) : result DNSName :=
  p ← isPartOf n zone;
  if p : bool then
    Ok (mkDNSName (ztake (zlen (d_storage n) - zlen (d_storage zone)) (d_storage n) ++ [0]))
  else Ok (mkDNSName []).

(** The loop of [getCommonLabels] walks both label vectors from their ends:
    the arguments are the reversed vectors. *)
Fixpoint getCommonLabels_loop (ours others : list bytes) (res : DNSName) : result DNSName :=
  match ours, others with
  | ourLabel :: ours', otherLabel :: others' =>
      if negb (pdns_iequals ourLabel otherLabel) then Ok res
      else res' ← prependRawLabel res ourLabel; getCommonLabels_loop ours' others' res'
  | _, _ => Ok res
  end.

Definition getCommonLabels (n other : DNSName) : result DNSName :=
  if name_empty n || name_empty other then Ok (mkDNSName [])
  else getCommonLabels_loop (reverse (getRawLabels n)) (reverse (getRawLabels other))
         g_rootdnsname.

(** [labelReverse] pops the label vector from its end and appends. *)
Fixpoint append_all (ret : DNSName) (ls : list bytes) : result DNSName :=
  match ls with
  | [] => Ok ret
  | l :: ls' => ret' ← appendRawLabel ret l; append_all ret' ls'
  end.

Definition labelReverse (n : DNSName) : result DNSName :=
  if isRoot n then Ok n
  else if negb (name_empty n) then append_all (mkDNSName []) (reverse (getRawLabels n))
  else Ok (mkDNSName []).

Definition hash (n : DNSName) (init : Z) : Z := burtleCI (d_storage n) init.

(** [matchesUncompressedName]. *)
Definition matchesUncompressedName (n : DNSName) (wire_uncompressed : bytes) : bool :=
  if negb (Bool.eqb (bool_decide (wire_uncompressed = [])) (name_empty n))
     || (zlen wire_uncompressed <? zlen (d_storage n)) then false
  else pdns_ilexicographical_compare_three_way
         (ztake (zlen (d_storage n)) wire_uncompressed) (d_storage n) =? 0.

(** ** The raw labels visitor *)

Record RawLabelsVisitor : Type := mkVisitor {
  v_labelPositions : list Z;  (* the first [v_position] cells of the array *)
  v_storage : bytes;
  v_position : Z;
}.

(** [d_labelPositions.at(d_position) = position] throws at the 129th label. *)
Fixpoint visitor_loop (fuel : nat) (p : bytes) (position : Z) (acc : list Z)
  : result (list Z) :=
  match fuel, p with
  | S fuel', len :: p' =>
      if len =? 0 then Ok acc
      else if 128 <=? zlen acc then Throw (out_of_range "array::at")
      else visitor_loop fuel' (zdrop len p') (position + len + 1) (acc ++ [u8 position])
  | _, _ => Ok acc
  end.

Definition getRawLabelsVisitor (n : DNSName) : result RawLabelsVisitor :=
  ps ← visitor_loop (length (d_storage n)) (d_storage n) 0 [];
  Ok (mkVisitor ps (d_storage n) (zlen ps)).

Definition visitor_empty (v : RawLabelsVisitor) : bool := v_position v =? 0.

Definition visitor_label_at (v : RawLabelsVisitor) (offset : Z) : result bytes :=
  len ← of_option (out_of_range "string::at") (zat (v_storage v) offset);
  if len =? 0 then Ok []
  else _ ← of_option (out_of_range "string::at") (zat (v_storage v) (offset + 1));
       Ok (zsub (v_storage v) (offset + 1) len).

Definition visitor_front (v : RawLabelsVisitor) : result bytes :=
  if v_position v =? 0
  then Throw (out_of_range "trying to access the front of an empty DNSName::RawLabelsVisitor")
  else visitor_label_at v 0.

Definition visitor_back (v : RawLabelsVisitor) : result bytes :=
  if v_position v =? 0
  then Throw (out_of_range "trying to access the back of an empty DNSName::RawLabelsVisitor")
  else offset ← of_option (out_of_range "array::at") (zat (v_labelPositions v) (v_position v - 1));
       visitor_label_at v offset.

Definition visitor_pop_back (v : RawLabelsVisitor) : RawLabelsVisitor * bool :=
  if 0 <? v_position v
  then (mkVisitor (v_labelPositions v) (v_storage v) (v_position v - 1), true)
  else (v, false).
