(* ===== verification/NamesFacts.v ===== *)
(** * The class invariant of [DNSName] and what its operations do to labels

    The abstraction of a name is its list of labels.  [represents n ls] is the
    class invariant together with the abstraction: the storage of [n] is the
    wire form of the valid labels [ls] and takes at most 255 bytes. *)

From S2P Require Import Prelude Chars Names.

#[local] Open Scope Z_scope.

Definition valid_label (l : bytes) : Prop := 1 <= zlen l <= 63 /\ bytes_ok l.

#[export] Instance valid_label_dec l : Decision (valid_label l).
Proof. unfold valid_label. apply _. Defined.

Definition valid_labels (ls : list bytes) : Prop := Forall valid_label ls.

(** The wire form of some labels, without and with the final root label. *)
Definition enc_labels (ls : list bytes) : bytes := concat (map (fun l => zlen l :: l) ls).

Definition storage_of (ls : list bytes) : bytes := enc_labels ls ++ [0].

Definition represents (n : DNSName) (ls : list bytes) : Prop :=
  d_storage n = storage_of ls /\ valid_labels ls /\ zlen (storage_of ls) <= s_maxDNSNameLength.

#[export] Instance represents_dec n ls : Decision (represents n ls).
Proof. unfold represents, valid_labels. apply _. Defined.

Definition wf_name (n : DNSName) : Prop :=
  d_storage n = [] \/ exists ls, represents n ls.

(** Two labels, or two lists of labels, that differ only in case. *)
Definition ci_labels (ls : list bytes) : list bytes := map toLower ls.

Create HintDb names.

(** ** The wire form *)

Lemma enc_labels_cons l ls : enc_labels (l :: ls) = zlen l :: l ++ enc_labels ls.
Proof. done. Qed.

Lemma storage_of_nil : storage_of [] = [0].
Proof. done. Qed.

Lemma storage_of_cons l ls : storage_of (l :: ls) = zlen l :: l ++ storage_of ls.
Proof. unfold storage_of. rewrite enc_labels_cons. simpl. by rewrite <- app_assoc. Qed.

Lemma enc_labels_app a b : enc_labels (a ++ b) = enc_labels a ++ enc_labels b.
Proof. unfold enc_labels. by rewrite map_app, concat_app. Qed.

Lemma storage_of_app a b : storage_of (a ++ b) = enc_labels a ++ storage_of b.
Proof. unfold storage_of. by rewrite enc_labels_app, app_assoc. Qed.

Lemma zlen_storage_of ls : zlen (storage_of ls) = zlen (enc_labels ls) + 1.
Proof. unfold storage_of. by rewrite zlen_app. Qed.

Lemma zlen_enc_labels_cons l ls :
  zlen (enc_labels (l :: ls)) = 1 + zlen l + zlen (enc_labels ls).
Proof. rewrite enc_labels_cons, zlen_cons, zlen_app. lia. Qed.

Lemma storage_of_nonempty ls : storage_of ls <> [].
Proof. unfold storage_of. by destruct (enc_labels ls). Qed.

Lemma zlen_storage_of_cons l ls :
  zlen (storage_of (l :: ls)) = 1 + zlen l + zlen (storage_of ls).
Proof. rewrite !zlen_storage_of, zlen_enc_labels_cons. lia. Qed.

Lemma toLower_enc_labels ls :
  valid_labels ls -> toLower (enc_labels ls) = enc_labels (ci_labels ls).
Proof.
  induction 1 as [|l ls [Hl _] _ IH]; [done|].
  unfold ci_labels in *. cbn [map]. rewrite !enc_labels_cons. cbn [toLower map].
  rewrite map_app. fold (toLower l). rewrite zlen_toLower.
  f_equal; [apply dns_tolower_small; lia|]. by f_equal.
Qed.

Lemma toLower_storage_of ls :
  valid_labels ls -> toLower (storage_of ls) = storage_of (ci_labels ls).
Proof.
  intros. unfold storage_of. rewrite toLower_app, toLower_enc_labels by done. done.
Qed.

Lemma zlen_storage_of_ci ls : zlen (storage_of (ci_labels ls)) = zlen (storage_of ls).
Proof.
  rewrite !zlen_storage_of. f_equal. induction ls as [|l ls IH]; [done|].
  unfold ci_labels in *. cbn [map]. rewrite !zlen_enc_labels_cons, zlen_toLower. lia.
Qed.

Lemma valid_label_ci l : valid_label l -> valid_label (toLower l).
Proof. intros [??]. split; [by rewrite zlen_toLower|by apply toLower_bytes_ok]. Qed.

Lemma valid_labels_ci ls : valid_labels ls -> valid_labels (ci_labels ls).
Proof. induction 1; constructor; auto using valid_label_ci. Qed.

Lemma represents_root : represents g_rootdnsname [].
Proof. by_decide. Qed.

(** Reading the labels back. *)
Lemma getRawLabels_loop_storage ls fuel rest :
  valid_labels ls -> (length (storage_of ls) <= fuel)%nat ->
  getRawLabels_loop fuel (storage_of ls ++ rest) = ls.
Proof.
  intros Hv. revert fuel. induction Hv as [|l ls [Hl _] _ IH]; intros fuel Hf.
  - by destruct fuel.
  - rewrite storage_of_cons in *. destruct fuel as [|fuel]; [simpl in Hf; lia|].
    cbn [getRawLabels_loop app]. rewrite (proj2 (Z.eqb_neq _ _)) by lia.
    rewrite <- app_assoc, ztake_app, zdrop_app by done. f_equal. apply IH.
    simpl in Hf. rewrite length_app in Hf. lia.
Qed.

Lemma getRawLabels_storage ls :
  valid_labels ls -> getRawLabels (mkDNSName (storage_of ls)) = ls.
Proof.
  intros. unfold getRawLabels. simpl.
  rewrite <- (app_nil_r (storage_of ls)) at 2. by apply getRawLabels_loop_storage.
Qed.

Lemma storage_of_inj a b :
  valid_labels a -> valid_labels b -> storage_of a = storage_of b -> a = b.
Proof.
  intros Ha Hb Heq. by rewrite <- (getRawLabels_storage a), <- (getRawLabels_storage b), Heq.
Qed.

Lemma represents_det n a b : represents n a -> represents n b -> a = b.
Proof. intros (H1 & ? & _) (H2 & ? & _). apply storage_of_inj; congruence. Qed.

Lemma getRawLabels_represents n ls : represents n ls -> getRawLabels n = ls.
Proof.
  destruct n as [s]. intros (H & Hv & _). simpl in H. subst. by apply getRawLabels_storage.
Qed.

Lemma represents_not_empty n ls : represents n ls -> name_empty n = false.
Proof.
  intros (H & _). unfold name_empty. rewrite H. apply bool_decide_eq_false_2.
  apply storage_of_nonempty.
Qed.

Lemma represents_isRoot n ls : represents n ls -> isRoot n = bool_decide (ls = []).
Proof.
  intros (H & Hv & _). unfold isRoot. rewrite H. destruct Hv as [|l ls [Hl _] Hv]; [done|].
  rewrite storage_of_cons, zlen_cons, zlen_app, zlen_storage_of.
  pose proof (zlen_nonneg (enc_labels ls)).
  rewrite (proj2 (Z.eqb_neq _ _)) by lia. done.
Qed.

Lemma countLabels_loop_storage ls fuel :
  valid_labels ls -> (length (storage_of ls) <= fuel)%nat ->
  countLabels_loop fuel (storage_of ls) = zlen ls.
Proof.
  intros Hv. revert fuel. induction Hv as [|l ls [Hl _] _ IH]; intros fuel Hf.
  - by destruct fuel.
  - rewrite storage_of_cons, zlen_cons in *. destruct fuel as [|fuel]; [simpl in Hf; lia|].
    cbn [countLabels_loop]. rewrite (proj2 (Z.eqb_neq _ _)), zdrop_app by (done || lia).
    rewrite IH; [done|]. simpl in Hf. rewrite length_app in Hf. lia.
Qed.

Lemma countLabels_represents n ls : represents n ls -> countLabels n = zlen ls.
Proof.
  intros (H & Hv & _). unfold countLabels. rewrite H. by apply countLabels_loop_storage.
Qed.

(** ** Building and taking apart *)

Lemma checkLabelLength_ok k : 1 <= k <= 63 -> checkLabelLength k = Ok tt.
Proof.
  intros. unfold checkLabelLength, throw_if, s_maxDNSLabelLength. rewrite u8_small by lia.
  rewrite (proj2 (Z.eqb_neq _ _)), (proj2 (Z.ltb_ge _ _)) by lia. done.
Qed.

Lemma checkLabelLength_inv k : 0 <= k < 256 -> checkLabelLength k = Ok tt -> 1 <= k <= 63.
Proof.
  intros Hk. unfold checkLabelLength, throw_if, s_maxDNSLabelLength. rewrite u8_small by lia.
  simpl. destruct (Z.eqb_spec k 0), (Z.ltb_spec 63 k); simpl; try done. lia.
Qed.

Lemma zlen_storage_pos ls : 1 <= zlen (storage_of ls).
Proof. rewrite zlen_storage_of. pose proof (zlen_nonneg (enc_labels ls)). lia. Qed.

Lemma storage_of_init ls :
  ztake (zlen (storage_of ls) - 1) (storage_of ls) = enc_labels ls.
Proof.
  unfold storage_of. rewrite zlen_app. apply ztake_app. change (zlen [0]) with 1. lia.
Qed.

(** The exact outcome of appending a label: success exactly when the result is
    a legal name. *)
Lemma appendRawLabel_represents n ls l :
  represents n ls -> valid_label l -> zlen (storage_of (ls ++ [l])) <= 255 ->
  exists n', appendRawLabel n l = Ok n' /\ represents n' (ls ++ [l]).
Proof.
  intros Hr Hl Hlen. pose proof (represents_not_empty _ _ Hr) as Hne.
  destruct Hr as (Hs & Hv & Hle). pose proof Hl as [Hl1 Hl2].
  rewrite storage_of_app, zlen_app, zlen_storage_of_cons, storage_of_nil in Hlen.
  unfold appendRawLabel. rewrite checkLabelLength_ok by done. simpl.
  unfold throw_if, s_maxDNSNameLength in *. rewrite zlen_storage_of in Hle. rewrite Hs.
  rewrite zlen_storage_of. change (zlen [0]) with 1 in Hlen.
  rewrite (proj2 (Z.ltb_ge _ _)) by lia. rewrite Hne, <- zlen_storage_of, storage_of_init.
  simpl. eexists. split; [done|]. split_and!; simpl.
  - rewrite storage_of_app, storage_of_cons, storage_of_nil, u8_small by lia.
    rewrite <- app_assoc. done.
  - apply Forall_app. split; [done|]. by constructor.
  - rewrite storage_of_app, zlen_app, zlen_storage_of_cons, storage_of_nil.
    change (zlen [0]) with 1. unfold s_maxDNSNameLength. lia.
Qed.

Lemma appendRawLabel_empty n l :
  d_storage n = [] -> valid_label l ->
  exists n', appendRawLabel n l = Ok n' /\ represents n' [l].
Proof.
  intros Hs Hl. pose proof Hl as [Hl1 Hl2]. unfold appendRawLabel, name_empty.
  rewrite checkLabelLength_ok by done. simpl. rewrite Hs. unfold throw_if, s_maxDNSNameLength.
  change (zlen []) with 0. rewrite (proj2 (Z.ltb_ge _ _)) by lia. simpl.
  eexists. split; [done|]. split_and!; simpl.
  - by rewrite storage_of_cons, storage_of_nil, u8_small by lia.
  - by constructor.
  - rewrite zlen_storage_of_cons, storage_of_nil. change (zlen [0]) with 1.
    unfold s_maxDNSNameLength. lia.
Qed.

Lemma prependRawLabel_represents n ls l :
  represents n ls -> valid_label l -> zlen (storage_of (l :: ls)) <= 255 ->
  exists n', prependRawLabel n l = Ok n' /\ represents n' (l :: ls).
Proof.
  intros Hr Hl Hlen. pose proof (represents_not_empty _ _ Hr) as Hne.
  destruct Hr as (Hs & Hv & Hle). pose proof Hl as [Hl1 Hl2].
  pose proof Hlen as Hlen'. rewrite zlen_storage_of_cons in Hlen'.
  unfold prependRawLabel. rewrite checkLabelLength_ok by done. simpl.
  unfold throw_if, s_maxDNSNameLength in *. rewrite Hs, Hne.
  rewrite (proj2 (Z.ltb_ge _ _)) by lia. simpl. eexists. split; [done|]. split_and!; simpl.
  - by rewrite storage_of_cons, u8_small by lia.
  - by constructor.
  - done.
Qed.

Lemma chopOff_represents n l ls :
  represents n (l :: ls) -> exists n', chopOff n = (n', true) /\ represents n' ls.
Proof.
  intros (Hs & Hv & Hle). inversion_clear Hv as [|?? [Hl1 Hl2] Hv'].
  unfold chopOff. rewrite Hs, storage_of_cons. rewrite (proj2 (Z.eqb_neq _ _)) by lia.
  eexists. split; [done|]. rewrite zlen_storage_of_cons in Hle.
  split_and!; simpl; [by rewrite zdrop_app|done|]. unfold s_maxDNSNameLength in *. lia.
Qed.

Lemma chopOff_root n : represents n [] -> chopOff n = (n, false).
Proof. intros (Hs & _ & _). unfold chopOff. by rewrite Hs. Qed.

Lemma represents_init n l ls :
  represents n (l :: ls) -> represents (mkDNSName (storage_of ls)) ls.
Proof. intros (n' & _ & Hr)%chopOff_represents. destruct Hr as (_ & ? & ?). by split. Qed.

Lemma chopOff_times_represents k n ls :
  represents n ls -> represents (chopOff_times k n) (drop k ls).
Proof.
  revert n ls. induction k as [|k IH]; intros n ls Hr; [done|]. simpl.
  destruct ls as [|l ls].
  - rewrite (chopOff_root _ Hr). simpl. specialize (IH _ _ Hr). by rewrite drop_nil in IH.
  - destruct (chopOff_represents _ _ _ Hr) as (n' & -> & Hr'). simpl. by apply IH.
Qed.

Lemma trimToLabels_represents n ls k :
  represents n ls -> 0 <= k ->
  represents (trimToLabels n k) (drop (length ls - Z.to_nat k) ls).
Proof.
  intros Hr Hk. unfold trimToLabels. destruct (Z.eqb_spec k 0) as [->|Hne]; simpl.
  - rewrite (represents_not_empty _ _ Hr). simpl. rewrite drop_ge by lia.
    split_and!; [done|constructor|]. done.
  - rewrite (countLabels_represents _ _ Hr). unfold zlen.
    replace (length ls - Z.to_nat k)%nat with (Z.to_nat (Z.of_nat (length ls) - k)) by lia.
    by apply chopOff_times_represents.
Qed.

(** ** Equality *)

Lemma lower_eqb_spec us p :
  length us = length p -> lower_eqb us p = true <-> toLower us = toLower p.
Proof.
  revert p. induction us as [|x us IH]; intros [|y p] Hlen; simpl in *; try done.
  destruct (Z.eqb_spec (dns_tolower y) (dns_tolower x)) as [E|E]; simpl.
  - rewrite IH by lia. rewrite E. split; [by intros ->|by intros [= ->]].
  - split; [done|]. intros [= Heq _]. congruence.
Qed.

Lemma name_eqb_spec n m :
  name_eqb n m = true <-> toLower (d_storage n) = toLower (d_storage m).
Proof.
  unfold name_eqb, name_empty.
  destruct (Z.eqb_spec (zlen (d_storage m)) (zlen (d_storage n))) as [E|E]; simpl.
  - assert (bool_decide (d_storage m = []) = bool_decide (d_storage n = [])) as ->.
    { apply bool_decide_ext. split; intros Hnil; rewrite Hnil in E;
        apply zlen_zero_inv; rewrite zlen_nil in E; lia. }
    rewrite Bool.eqb_reflx. simpl. apply lower_eqb_spec. unfold zlen in E. lia.
  - rewrite orb_true_r. split; [done|]. intros Heq.
    by rewrite <- (zlen_toLower (d_storage n)), Heq, zlen_toLower in E.
Qed.

#[export] Instance name_eqb_equiv : Equivalence (fun n m => name_eqb n m = true).
Proof.
  split; red; intros *; rewrite !name_eqb_spec; congruence.
Qed.

Lemma name_eqb_represents n m ls ms :
  represents n ls -> represents m ms ->
  name_eqb n m = true <-> ci_labels ls = ci_labels ms.
Proof.
  intros (Hn & Hvn & _) (Hm & Hvm & _). rewrite name_eqb_spec, Hn, Hm.
  rewrite !toLower_storage_of by done. split; [|congruence].
  apply storage_of_inj; by apply valid_labels_ci.
Qed.

(** ** Being part of another name *)

Lemma suffix_storage_len a b :
  a `suffix_of` b -> zlen (storage_of a) <= zlen (storage_of b).
Proof.
  intros [k ->]. rewrite storage_of_app, zlen_app. pose proof (zlen_nonneg (enc_labels k)). lia.
Qed.

Lemma suffix_storage_eq a b :
  a `suffix_of` b -> zlen (storage_of a) = zlen (storage_of b) -> a = b.
Proof.
  intros [k ->]. rewrite storage_of_app, zlen_app. intros E.
  destruct k as [|l k]; [done|]. rewrite enc_labels_cons, zlen_cons, zlen_app in E.
  pose proof (zlen_nonneg l). pose proof (zlen_nonneg (enc_labels k)). lia.
Qed.

Lemma suffix_cons_ne {A} (x : A) a b :
  a `suffix_of` x :: b -> a <> x :: b -> a `suffix_of` b.
Proof.
  intros [[|y k] Heq] Hne; simpl in Heq; [congruence|]. injection Heq as -> ->. by exists k.
Qed.

Lemma isPartOf_loop_spec ls ps fuel :
  valid_labels ls -> valid_labels ps -> (length (storage_of ls) <= fuel)%nat ->
  isPartOf_loop fuel (storage_of ls) (storage_of ps)
  = Ok (bool_decide (ci_labels ps `suffix_of` ci_labels ls)).
Proof.
  intros Hv Hp. revert fuel. induction Hv as [|l ls Hl Hv IH]; intros fuel Hf.
  - destruct fuel as [|fuel]; [simpl in Hf; lia|]. cbn [isPartOf_loop storage_of enc_labels map concat app].
    pose proof (zlen_storage_pos ps). change (zlen [0]) with 1.
    destruct (Z.ltb_spec 1 (zlen (storage_of ps))) as [E|E].
    + rewrite bool_decide_eq_false_2; [done|]. intros Hs%suffix_storage_len.
      rewrite zlen_storage_of_ci in Hs. change (zlen (storage_of (ci_labels []))) with 1 in Hs. lia.
    + rewrite (proj2 (Z.eqb_eq _ _)) by lia. destruct Hp as [|p ps [Hp1 _] Hp].
      * done.
      * rewrite zlen_storage_of_cons in E. pose proof (zlen_storage_pos ps). lia.
  - rewrite storage_of_cons in Hf |- *. destruct fuel as [|fuel]; [simpl in Hf; lia|].
    cbn [isPartOf_loop]. rewrite <- storage_of_cons. destruct Hl as [Hl1 Hl2].
    destruct (Z.ltb_spec (zlen (storage_of (l :: ls))) (zlen (storage_of ps))) as [E|E].
    + rewrite bool_decide_eq_false_2; [done|]. intros Hs%suffix_storage_len.
      rewrite !zlen_storage_of_ci in Hs. lia.
    + destruct (Z.eqb_spec (zlen (storage_of (l :: ls))) (zlen (storage_of ps))) as [E2|E2].
      * f_equal. apply Bool.eq_iff_eq_true. rewrite bool_decide_eq_true.
        rewrite lower_eqb_spec by (unfold zlen in E2; lia).
        assert (valid_labels (l :: ls)) by by constructor.
        rewrite !toLower_storage_of by done. split.
        -- intros Heq%storage_of_inj; [by rewrite Heq|by apply valid_labels_ci..].
        -- intros Hs%suffix_storage_eq; [by rewrite Hs|]. by rewrite !zlen_storage_of_ci.
      * unfold s_maxDNSLabelLength. rewrite (proj2 (Z.ltb_ge _ _)) by lia.
        rewrite zdrop_app by done. rewrite IH by (simpl in Hf; rewrite length_app in Hf; lia).
        f_equal. apply bool_decide_ext. split.
        -- intros. by apply suffix_cons_r.
        -- intros Hs. apply suffix_cons_ne in Hs; [done|]. intros Heq. apply E2.
           rewrite <- (zlen_storage_of_ci ps), Heq. by rewrite <- (zlen_storage_of_ci (l :: ls)).
Qed.

Lemma isPartOf_represents n m ls ms :
  represents n ls -> represents m ms ->
  isPartOf n m = Ok (bool_decide (ci_labels ms `suffix_of` ci_labels ls)).
Proof.
  intros Hn Hm. unfold isPartOf.
  rewrite (represents_not_empty _ _ Hn), (represents_not_empty _ _ Hm). simpl.
  destruct Hn as (Hn & Hvn & _), Hm as (Hm & Hvm & _). rewrite Hn, Hm.
  destruct (Z.ltb_spec (zlen (storage_of ls)) (zlen (storage_of ms))) as [E|E].
  - rewrite bool_decide_eq_false_2; [done|]. intros Hs%suffix_storage_len.
    rewrite !zlen_storage_of_ci in Hs. lia.
  - by apply isPartOf_loop_spec.
Qed.

(** ** Relative names, concatenation *)

Lemma suffix_ci_split ls zs :
  ci_labels zs `suffix_of` ci_labels ls ->
  exists pre post, ls = pre ++ post /\ ci_labels post = ci_labels zs.
Proof.
  intros [k Hk]. exists (take (length k) ls), (drop (length k) ls).
  split; [by rewrite take_drop|]. unfold ci_labels in *.
  rewrite <- skipn_map, Hk. apply drop_app_length.
Qed.

Lemma represents_prefix n pre post :
  represents n (pre ++ post) -> represents (mkDNSName (storage_of pre)) pre.
Proof.
  intros (_ & Hv & Hle). apply Forall_app in Hv as [Hv _]. split_and!; [done..|].
  rewrite storage_of_app, zlen_app in Hle. rewrite zlen_storage_of.
  pose proof (zlen_storage_pos post). lia.
Qed.

Lemma represents_suffix n pre post :
  represents n (pre ++ post) -> represents (mkDNSName (storage_of post)) post.
Proof.
  intros (_ & Hv & Hle). apply Forall_app in Hv as [_ Hv]. split_and!; [done..|].
  rewrite storage_of_app, zlen_app in Hle. pose proof (zlen_nonneg (enc_labels pre)). lia.
Qed.

Lemma makeRelative_represents n zone pre post zs :
  represents n (pre ++ post) -> represents zone zs -> ci_labels post = ci_labels zs ->
  makeRelative n zone = Ok (mkDNSName (storage_of pre)).
Proof.
  intros Hn Hz Heq. unfold makeRelative. rewrite (isPartOf_represents _ _ _ _ Hn Hz).
  rewrite bool_decide_eq_true_2.
  2: { unfold ci_labels in *. rewrite map_app, Heq. by exists (map toLower pre). }
  simpl. destruct Hn as (Hs & _ & _), Hz as (Hz & _ & _). rewrite Hs, Hz.
  do 2 f_equal. rewrite storage_of_app, zlen_app, <- (zlen_storage_of_ci zs), <- Heq.
  rewrite zlen_storage_of_ci. rewrite ztake_app by lia. done.
Qed.

Lemma name_append_represents n rhs ls rs :
  represents n ls -> represents rhs rs -> zlen (storage_of (ls ++ rs)) <= 255 ->
  name_append n rhs = Ok (mkDNSName (storage_of (ls ++ rs))).
Proof.
  intros Hn Hr Hlen. unfold name_append.
  rewrite (represents_not_empty _ _ Hn), (represents_not_empty _ _ Hr).
  destruct Hn as (Hs & _ & _), Hr as (Hr & _ & _). rewrite Hs, Hr.
  rewrite storage_of_app, zlen_app in Hlen. pose proof (zlen_storage_pos rs).
  unfold throw_if, s_maxDNSNameLength. rewrite zlen_storage_of.
  rewrite (proj2 (Z.ltb_ge _ _)) by lia. simpl. rewrite <- zlen_storage_of, storage_of_init.
  rewrite zdrop_all by lia. rewrite app_nil_r, storage_of_app. done.
Qed.

(** ** Common labels *)

(** The length of the longest common case-insensitive suffix, on reversed label
    lists. *)
Fixpoint common_prefix_ci (a b : list bytes) : list bytes :=
  match a, b with
  | x :: a', y :: b' =>
      if bool_decide (toLower x = toLower y) then x :: common_prefix_ci a' b' else []
  | _, _ => []
  end.

Lemma getCommonLabels_loop_spec ours others res acc n ls :
  represents n ls -> ls = reverse ours ++ acc -> represents res acc ->
  exists r, getCommonLabels_loop ours others res = Ok r
            /\ represents r (reverse (common_prefix_ci ours others) ++ acc).
Proof.
  intros Hn. revert others res acc. induction ours as [|x ours IH]; intros others res acc Hls Hr.
  - exists res. split; [by destruct others|done].
  - destruct others as [|y others]; simpl; [by exists res|].
    destruct (pdns_iequals x y) eqn:E.
    + apply pdns_iequals_spec in E. rewrite bool_decide_eq_true_2 by done. simpl.
      rewrite reverse_cons, <- app_assoc in Hls. simpl in Hls.
      destruct Hn as (Hn1 & Hn2 & Hn3). rewrite Hls in Hn2, Hn3.
      apply Forall_app in Hn2 as [_ Hn2]. inversion_clear Hn2.
      rewrite storage_of_app, zlen_app in Hn3.
      pose proof (zlen_nonneg (enc_labels (reverse ours))). unfold s_maxDNSNameLength in Hn3.
      destruct (prependRawLabel_represents res acc x) as (r & -> & Hr'); [done..|lia|].
      simpl. rewrite reverse_cons, <- app_assoc. simpl. by apply IH.
    + rewrite bool_decide_eq_false_2.
      2: { intros Heq. by apply pdns_iequals_spec in Heq; rewrite Heq in E. }
      by exists res.
Qed.

Lemma common_prefix_ci_l a b : common_prefix_ci a b `prefix_of` a.
Proof.
  revert b. induction a as [|x a IH]; intros [|y b]; simpl; try apply prefix_nil.
  case_bool_decide; [|apply prefix_nil]. by apply prefix_cons.
Qed.

Lemma common_prefix_ci_r a b : ci_labels (common_prefix_ci a b) `prefix_of` ci_labels b.
Proof.
  revert b. induction a as [|x a IH]; intros [|y b]; simpl; try apply prefix_nil.
  case_bool_decide as E; [|apply prefix_nil]. unfold ci_labels in *. simpl. rewrite E.
  by apply prefix_cons.
Qed.

Lemma common_prefix_ci_max a b c :
  c `prefix_of` a -> ci_labels c `prefix_of` ci_labels b ->
  (length c <= length (common_prefix_ci a b))%nat.
Proof.
  revert b c. induction a as [|x a IH]; intros b c Ha Hb.
  { apply prefix_nil_inv in Ha as ->. simpl. lia. }
  destruct c as [|z c]; [simpl; lia|]. destruct b as [|y b].
  { by apply prefix_nil_inv in Hb. }
  unfold ci_labels in Hb. simpl in Hb.
  pose proof (prefix_cons_inv_1 _ _ _ _ Ha) as ->. apply prefix_cons_inv_2 in Ha.
  pose proof (prefix_cons_inv_1 _ _ _ _ Hb) as E. apply prefix_cons_inv_2 in Hb.
  simpl. rewrite bool_decide_eq_true_2 by done. simpl. specialize (IH b c Ha Hb). lia.
Qed.

(** ** Reversal *)

Lemma append_all_represents n ls rs :
  represents n ls -> valid_labels rs -> zlen (storage_of (ls ++ rs)) <= 255 ->
  append_all n rs = Ok (mkDNSName (storage_of (ls ++ rs))).
Proof.
  intros Hn Hv. revert n ls Hn. induction Hv as [|r rs Hr Hv IH]; intros n ls Hn Hlen; simpl.
  - rewrite app_nil_r. destruct n, Hn as (Hs & _). simpl in Hs. by rewrite Hs.
  - rewrite cons_middle, app_assoc in Hlen |- *.
    destruct (appendRawLabel_represents n ls r) as (n' & -> & Hn'); [done..| |].
    + rewrite (storage_of_app (ls ++ [r])), zlen_app in Hlen. rewrite zlen_storage_of.
      pose proof (zlen_storage_pos rs). lia.
    + simpl. by apply IH.
Qed.

Lemma append_all_empty ls :
  valid_labels ls -> ls <> [] -> zlen (storage_of ls) <= 255 ->
  append_all (mkDNSName []) ls = Ok (mkDNSName (storage_of ls)).
Proof.
  intros Hv Hne Hlen. destruct Hv as [|l ls Hl Hv]; [done|]. simpl.
  destruct (appendRawLabel_empty (mkDNSName []) l) as (n' & -> & Hn'); [done..|]. simpl.
  apply (append_all_represents n' [l] ls); done.
Qed.

Lemma zlen_enc_labels_perm a b : a ≡ₚ b -> zlen (enc_labels a) = zlen (enc_labels b).
Proof.
  induction 1; rewrite ?zlen_enc_labels_cons; lia.
Qed.

Lemma labelReverse_represents n ls :
  represents n ls -> labelReverse n = Ok (mkDNSName (storage_of (reverse ls))).
Proof.
  intros Hr. unfold labelReverse. rewrite (represents_isRoot _ _ Hr).
  case_bool_decide as E.
  - subst ls. destruct n, Hr as (Hs & _). simpl in Hs. by rewrite Hs.
  - rewrite (represents_not_empty _ _ Hr), (getRawLabels_represents _ _ Hr). simpl.
    destruct Hr as (_ & Hv & Hle). apply append_all_empty.
    + by apply Forall_reverse.
    + intros H%(f_equal reverse). rewrite reverse_involutive in H. done.
    + rewrite zlen_storage_of in *. rewrite (zlen_enc_labels_perm _ _ (reverse_Permutation ls)).
      unfold s_maxDNSNameLength in Hle. lia.
Qed.

(** ** One label *)

Lemma getRawLabel_loop_storage ls fuel cur pos :
  valid_labels ls -> (length (storage_of ls) <= fuel)%nat -> cur <= pos ->
  getRawLabel_loop fuel (storage_of ls) cur pos
  = match ls !! Z.to_nat (pos - cur) with Some l => Ok l | None => Throw (out_of_range "trying to get label at position") end.
Proof.
  intros Hv. revert fuel cur. induction Hv as [|l ls [Hl _] _ IH]; intros fuel cur Hf Hc.
  - by destruct fuel.
  - rewrite storage_of_cons in *. destruct fuel as [|fuel]; [cbn in Hf; lia|]. cbn [getRawLabel_loop length] in *.
    rewrite (proj2 (Z.eqb_neq _ _)) by lia. destruct (Z.eqb_spec cur pos) as [->|Hne].
    + rewrite Z.sub_diag. cbn. by rewrite ztake_app.
    + rewrite zdrop_app by done. rewrite IH by (rewrite ?length_app in Hf; lia).
      by replace (Z.to_nat (pos - cur)) with (S (Z.to_nat (pos - (cur + 1)))) by lia.
Qed.

Lemma getRawLabel_represents n ls pos l :
  represents n ls -> 0 <= pos -> getRawLabel n pos = Ok l -> ls !! Z.to_nat pos = Some l.
Proof.
  intros (Hs & Hv & _) Hp. unfold getRawLabel. rewrite Hs, getRawLabel_loop_storage by done.
  rewrite Z.sub_0_r. by destruct (ls !! Z.to_nat pos) eqn:E; [intros [= ->]|].
Qed.

(** ** The raw labels visitor

    What [RawLabelsVisitor] shows of a name: its labels, from the last to the
    first. *)

(** Where the labels of a name start. *)
Definition label_start (ls : list bytes) (i : nat) : Z := zlen (enc_labels (take i ls)).

Definition label_starts (ls : list bytes) (k : nat) : list Z := map (label_start ls) (seq 0 k).

Lemma label_starts_S ls k : label_starts ls (S k) = label_starts ls k ++ [label_start ls k].
Proof. unfold label_starts. by rewrite seq_S, map_app. Qed.

Lemma zlen_label_starts ls k : zlen (label_starts ls k) = Z.of_nat k.
Proof. unfold zlen, label_starts. by rewrite length_map, length_seq. Qed.

Lemma labels_bound ls : valid_labels ls -> 2 * zlen ls <= zlen (enc_labels ls).
Proof.
  induction 1 as [|l ls [Hl _] _ IH]; [done|]. rewrite zlen_enc_labels_cons, zlen_cons. lia.
Qed.

Lemma visitor_loop_spec dn rs ls fuel :
  valid_labels rs -> ls = dn ++ rs -> zlen (enc_labels ls) <= 254 -> zlen ls <= 127 ->
  (length (storage_of rs) <= fuel)%nat ->
  visitor_loop fuel (storage_of rs) (zlen (enc_labels dn)) (label_starts ls (length dn))
  = Ok (label_starts ls (length ls)).
Proof.
  intros Hv. revert dn fuel. induction Hv as [|r rs [Hr Hb] Hv IH]; intros dn fuel -> Hlen Hcnt Hf.
  - rewrite app_nil_r. by destruct fuel.
  - rewrite storage_of_cons in *. destruct fuel as [|fuel]; [simpl in Hf; lia|].
    cbn [visitor_loop]. rewrite (proj2 (Z.eqb_neq _ _)) by lia.
    rewrite zlen_label_starts.
    pose proof (zlen_app dn (r :: rs)) as Hd. rewrite zlen_cons in Hd. pose proof (zlen_nonneg rs).
    change (zlen dn) with (Z.of_nat (length dn)) in Hd.
    rewrite (proj2 (Z.leb_gt _ _)) by lia. rewrite zdrop_app by done.
    rewrite enc_labels_app, zlen_app, zlen_enc_labels_cons in Hlen.
    pose proof (zlen_nonneg (enc_labels rs)). pose proof (zlen_nonneg (enc_labels dn)).
    rewrite u8_small by lia.
    assert (label_start (dn ++ r :: rs) (length dn) = zlen (enc_labels dn)) as Hst.
    { unfold label_start. by rewrite take_app_length. }
    rewrite <- Hst at 2. rewrite <- label_starts_S.
    replace (zlen (enc_labels dn) + zlen r + 1) with (zlen (enc_labels (dn ++ [r])))
      by (rewrite enc_labels_app, zlen_app, zlen_enc_labels_cons;
          change (zlen (enc_labels [])) with 0; lia).
    replace (S (length dn)) with (length (dn ++ [r])) by (rewrite length_app; simpl; lia).
    apply IH; [by rewrite <- app_assoc| |done|].
    + rewrite enc_labels_app, zlen_app, zlen_enc_labels_cons. lia.
    + simpl in Hf. rewrite length_app in Hf. lia.
Qed.

(** [shows v ls]: the labels the visitor has still to show are [ls]. *)
Definition shows (v : RawLabelsVisitor) (ls : list bytes) : Prop :=
  exists rest, valid_labels (ls ++ rest) /\ zlen (storage_of (ls ++ rest)) <= s_maxDNSNameLength
    /\ v = mkVisitor (label_starts (ls ++ rest) (length (ls ++ rest))) (storage_of (ls ++ rest)) (zlen ls).

Lemma getRawLabelsVisitor_shows n ls :
  represents n ls -> exists v, getRawLabelsVisitor n = Ok v /\ shows v ls.
Proof.
  intros (Hs & Hv & Hle). unfold getRawLabelsVisitor. rewrite Hs.
  unfold s_maxDNSNameLength in *. rewrite zlen_storage_of in Hle.
  pose proof (labels_bound _ Hv). change 0 with (zlen (enc_labels [])) at 1.
  rewrite (visitor_loop_spec [] ls ls) by (done || lia). eexists. split; [done|].
  exists []. rewrite app_nil_r, zlen_label_starts. split_and!; [done| |done].
  rewrite zlen_storage_of. unfold s_maxDNSNameLength. lia.
Qed.

Lemma shows_position v ls : shows v ls -> v_position v = zlen ls.
Proof. by intros (rest & _ & _ & ->). Qed.

Lemma shows_empty v ls : shows v ls -> visitor_empty v = bool_decide (ls = []).
Proof.
  intros Hs. unfold visitor_empty. rewrite (shows_position _ _ Hs).
  destruct ls; [done|]. rewrite zlen_cons. pose proof (zlen_nonneg ls).
  rewrite (proj2 (Z.eqb_neq _ _)) by lia. done.
Qed.

Lemma shows_back v ls l : shows v (ls ++ [l]) -> visitor_back v = Ok l.
Proof.
  intros (rest & Hv & Hle & ->). unfold visitor_back. simpl.
  rewrite zlen_app. pose proof (zlen_nonneg ls). change (zlen [l]) with 1.
  rewrite (proj2 (Z.eqb_neq _ _)) by lia.
  replace (zlen ls + 1 - 1) with (zlen ls) by lia.
  assert (zat (label_starts ((ls ++ [l]) ++ rest) (length ((ls ++ [l]) ++ rest))) (zlen ls)
          = Some (zlen (enc_labels ls))) as ->.
  { unfold zat, zlen at 1. rewrite (proj2 (Z.ltb_ge _ _)) by lia.
    unfold zlen at 1. rewrite Nat2Z.id. unfold label_starts.
    rewrite list_lookup_fmap, lookup_seq_lt by (rewrite !length_app; simpl; lia). simpl.
    unfold label_start. by rewrite <- app_assoc, take_app_length. }
  cbn [of_option mbind result_bind]. unfold visitor_label_at. simpl.
  rewrite <- app_assoc. rewrite <- app_assoc in Hv. simpl in *.
  apply Forall_app in Hv as [_ Hv]. inversion_clear Hv as [|?? [Hl _] _].
  destruct l as [|x l]; [rewrite zlen_nil in Hl; lia|].
  rewrite storage_of_app, storage_of_cons. set (a := enc_labels ls).
  assert (zat (a ++ zlen (x :: l) :: (x :: l) ++ storage_of rest) (zlen a) = Some (zlen (x :: l))) as ->.
  { rewrite zat_app_r by lia. by rewrite Z.sub_diag. }
  cbn [of_option mbind result_bind]. rewrite (proj2 (Z.eqb_neq _ _)) by lia.
  rewrite zat_app_r by lia. replace (zlen a + 1 - zlen a) with 1 by lia.
  unfold zsub. rewrite zdrop_app_ge by lia. replace (zlen a + 1 - zlen a) with 1 by lia.
  change (zdrop 1 (zlen (x :: l) :: (x :: l) ++ storage_of rest)) with ((x :: l) ++ storage_of rest).
  cbn [of_option mbind result_bind]. by rewrite ztake_app.
Qed.

Lemma shows_pop v ls l : shows v (ls ++ [l]) -> shows (fst (visitor_pop_back v)) ls.
Proof.
  intros (rest & Hv & Hle & ->). unfold visitor_pop_back. simpl.
  rewrite zlen_app. pose proof (zlen_nonneg ls). change (zlen [l]) with 1.
  rewrite (proj2 (Z.ltb_lt _ _)) by lia. simpl. exists (l :: rest).
  rewrite <- app_assoc in *. split_and!; [done|done|]. simpl. f_equal. lia.
Qed.
