(* ===== verification/NamesOrder.v ===== *)
(** * Orders on names

    The three orders of [DNSName]: [operator<], which containers use, the
    canonical DNSSEC order ([canonCompare_three_way] with its label-position
    fast path and [slowCanonCompare_three_way]), and the "pretty" variant of
    the latter. *)

From S2P Require Import Prelude Chars Names NamesFacts.

#[local] Open Scope Z_scope.

(** ** Definitions *)

(** [std::lexicographical_compare] with [DNSNameCompare]. *)
Fixpoint lexicographical_compare_lower (a b : bytes) : bool :=
  match a, b with
  | _, [] => false
  | [], _ :: _ => true
  | x :: a', y :: b' =>
      if dns_tolower x <? dns_tolower y then true
      else if dns_tolower y <? dns_tolower x then false
      else lexicographical_compare_lower a' b'
  end.

(** [operator<], over the reversed storages. *)
Definition name_ltb (n rhs : DNSName) : bool :=
  lexicographical_compare_lower (reverse (d_storage n)) (reverse (d_storage rhs)).

(** The loop of [slowCanonCompare_three_way], on the reversed label vectors. *)
Fixpoint slowCanonCompare_loop (ours rhsLabels : list bytes) : Z :=
  match ours, rhsLabels with
  | [], [] => 0
  | [], _ :: _ => -1
  | _ :: _, [] => 1
  | x :: ours', y :: rhs' =>
      let res := pdns_ilexicographical_compare_three_way x y in
      if negb (res =? 0) then res else slowCanonCompare_loop ours' rhs'
  end.

Definition slowCanonCompare_three_way (n rhs : DNSName) : Z :=
  slowCanonCompare_loop (reverse (getRawLabels n)) (reverse (getRawLabels rhs)).

(** The [ourpos]/[rhspos] arrays: at most 64 positions, kept as [uint8_t]. *)
Fixpoint canonCompare_positions (fuel : nat) (p : bytes) (off count : Z) : list Z :=
  match fuel, p with
  | S fuel', len :: p' =>
      if (len =? 0) || negb (count <? 64) then []
      else u8 off :: canonCompare_positions fuel' (zdrop len p') (off + len + 1) (count + 1)
  | _, _ => []
  end.

Definition isdigit (c : Z) : bool := (48 <=? c) && (c <=? 57).

Definition label_at (s : bytes) (pos : Z) : bytes :=
  zsub s (pos + 1) (default 0 (zat s pos)).

(** The [for (;;)] loop; [ourpos] and [rhspos] are consumed from their ends. *)
Fixpoint canonCompare_loop (pretty : bool) (us rhs : bytes) (ourpos rhspos : list Z) : Z :=
  match ourpos, rhspos with
  | [], _ :: _ => -1
  | [], [] => 0
  | _ :: _, [] => 1
  | op :: ourpos', rp :: rhspos' =>
      let ourlen := default 0 (zat us op) in
      let rhslen := default 0 (zat rhs rp) in
      let ourstr := label_at us op in
      let rhsstr := label_at rhs rp in
      if pretty && negb (ourlen =? rhslen) && forallb isdigit ourstr && forallb isdigit rhsstr
      then if ourlen <? rhslen then -1 else 1
      else
        let res := pdns_ilexicographical_compare_three_way ourstr rhsstr in
        if negb (res =? 0) then res else canonCompare_loop pretty us rhs ourpos' rhspos'
  end.

Definition canonCompare_three_way (n rhs : DNSName) (pretty : bool) : Z :=
  let ourpos := canonCompare_positions (length (d_storage n)) (d_storage n) 0 0 in
  let rhspos := canonCompare_positions (length (d_storage rhs)) (d_storage rhs) 0 0 in
  if (zlen ourpos =? 64) || (zlen rhspos =? 64) then slowCanonCompare_three_way n rhs
  else canonCompare_loop pretty (d_storage n) (d_storage rhs) (reverse ourpos) (reverse rhspos).

Definition canonCompare (n rhs : DNSName) (pretty : bool) : bool :=
  canonCompare_three_way n rhs pretty <? 0.

(** ** [operator<] *)

Lemma lexicographical_compare_lower_spec a b :
  lexicographical_compare_lower a b = true
  <-> lex_compare Z.compare (toLower a) (toLower b) = Lt.
Proof.
  revert b. induction a as [|x a IH]; intros [|y b]; simpl; try done.
  destruct (Z.ltb_spec (dns_tolower x) (dns_tolower y)) as [E|E].
  { by rewrite (proj2 (Z.compare_lt_iff _ _)). }
  destruct (Z.ltb_spec (dns_tolower y) (dns_tolower x)) as [E2|E2].
  { by rewrite (proj2 (Z.compare_gt_iff _ _)). }
  rewrite (proj2 (Z.compare_eq_iff (dns_tolower x) (dns_tolower y))) by lia. apply IH.
Qed.

Lemma name_ltb_spec n m :
  name_ltb n m = true
  <-> lex_compare Z.compare (reverse (toLower (d_storage n))) (reverse (toLower (d_storage m))) = Lt.
Proof.
  unfold name_ltb. rewrite lexicographical_compare_lower_spec. unfold toLower.
  by rewrite !map_reverse.
Qed.

(** ** The canonical order *)

(** The canonical order of RFC 4034: compare the labels from the rightmost one
    on, each as a case-folded byte string, absent labels first. *)
Definition canonical_compare (ls ms : list bytes) : comparison :=
  lex_compare (lex_compare Z.compare) (reverse (ci_labels ls)) (reverse (ci_labels ms)).

Lemma slowCanonCompare_loop_spec a b :
  (slowCanonCompare_loop a b ?= 0)
  = lex_compare (lex_compare Z.compare) (ci_labels a) (ci_labels b).
Proof.
  revert b. induction a as [|x a IH]; intros [|y b]; simpl; try done.
  rewrite <- ilex_compare_spec.
  destruct (Z.eqb_spec (pdns_ilexicographical_compare_three_way x y) 0) as [->|E]; simpl.
  - apply IH.
  - by destruct (Z.compare_spec (pdns_ilexicographical_compare_three_way x y) 0).
Qed.

Lemma slowCanonCompare_spec n m ls ms :
  represents n ls -> represents m ms ->
  (slowCanonCompare_three_way n m ?= 0) = canonical_compare ls ms.
Proof.
  intros Hn Hm. unfold slowCanonCompare_three_way, canonical_compare.
  rewrite (getRawLabels_represents _ _ Hn), (getRawLabels_represents _ _ Hm).
  rewrite slowCanonCompare_loop_spec. unfold ci_labels. by rewrite !map_reverse.
Qed.

(** The positions array, from a position inside a storage. *)
Lemma canonCompare_positions_spec ls fuel pre off count :
  valid_labels ls -> (length (storage_of ls) <= fuel)%nat -> off = zlen pre ->
  zlen pre + zlen (storage_of ls) <= 255 -> 0 <= count -> count + zlen ls < 64 ->
  let ps := canonCompare_positions fuel (storage_of ls) off count in
  map (label_at (pre ++ storage_of ls)) ps = ls
  /\ zlen ps = zlen ls.
Proof.
  intros Hv. revert fuel pre off count.
  induction Hv as [|l ls [Hl _] Hv IH]; intros fuel pre off count Hf Hoff Hlen Hc Hcl.
  { by destruct fuel. }
  rewrite zlen_cons in Hcl. pose proof (zlen_nonneg ls).
  rewrite zlen_storage_of_cons in Hlen.
  rewrite storage_of_cons in *. destruct fuel as [|fuel]; [simpl in Hf; lia|].
  cbn [canonCompare_positions]. rewrite (proj2 (Z.eqb_neq _ _)) by lia.
  rewrite (proj2 (Z.ltb_lt _ _)) by lia. cbn [orb negb]. rewrite zdrop_app by done.
  destruct (IH fuel (pre ++ zlen l :: l) (off + zlen l + 1) (count + 1)) as [IH1 IH2].
  { simpl in Hf. rewrite length_app in Hf. lia. }
  { rewrite zlen_app, zlen_cons. lia. }
  { rewrite zlen_app, zlen_cons. lia. }
  { lia. } { lia. }
  rewrite <- app_assoc in IH1. simpl in IH1. simpl. rewrite IH1, !zlen_cons, IH2. split; [|done].
  f_equal. pose proof (zlen_storage_pos ls). pose proof (zlen_nonneg pre).
  rewrite u8_small by lia. subst off. unfold label_at.
  rewrite zat_app_r, Z.sub_diag by lia. simpl. unfold zsub.
  rewrite zdrop_app_ge by lia. replace (zlen pre + 1 - zlen pre) with (0 + 1) by lia.
  rewrite zdrop_cons_S by lia. rewrite zdrop_0. by apply ztake_app.
Qed.

Lemma canonCompare_positions_many ls fuel off count :
  valid_labels ls -> (length (storage_of ls) <= fuel)%nat ->
  0 <= count <= 64 -> 64 <= count + zlen ls ->
  zlen (canonCompare_positions fuel (storage_of ls) off count) = 64 - count.
Proof.
  intros Hv. revert fuel off count.
  induction Hv as [|l ls [Hl _] Hv IH]; intros fuel off count Hf Hc Hcl.
  { change (zlen []) with 0 in Hcl. destruct fuel; simpl; change (zlen []) with 0; lia. }
  rewrite zlen_cons in Hcl. rewrite storage_of_cons in *. destruct fuel as [|fuel]; [simpl in Hf; lia|].
  cbn [canonCompare_positions]. rewrite (proj2 (Z.eqb_neq _ _)) by lia. simpl.
  destruct (Z.ltb_spec count 64); simpl.
  - rewrite zlen_cons, zdrop_app by done. rewrite IH; [lia| |lia|lia].
    simpl in Hf. rewrite length_app in Hf. lia.
  - change (zlen []) with 0. lia.
Qed.

Lemma canonCompare_loop_spec us rhs ourpos rhspos :
  canonCompare_loop false us rhs ourpos rhspos
  = slowCanonCompare_loop (map (label_at us) ourpos) (map (label_at rhs) rhspos).
Proof.
  revert rhspos. induction ourpos as [|op ourpos IH]; intros [|rp rhspos]; simpl; try done.
  by rewrite IH.
Qed.

Lemma canonCompare_positions_whole n ls :
  represents n ls ->
  let ps := canonCompare_positions (length (d_storage n)) (d_storage n) 0 0 in
  (zlen ps =? 64) = (64 <=? zlen ls)
  /\ (zlen ls < 64 -> map (label_at (d_storage n)) ps = ls).
Proof.
  intros (Hs & Hv & Hle). simpl. rewrite Hs. unfold s_maxDNSNameLength in Hle.
  destruct (Z.leb_spec 64 (zlen ls)) as [E|E].
  - rewrite canonCompare_positions_many by (done || lia). split; [done|lia].
  - destruct (canonCompare_positions_spec ls (length (storage_of ls)) [] 0 0) as [H1 H2];
      try done; try (change (zlen []) with 0); try lia.
    rewrite H2. split; [|done]. apply Z.eqb_neq. lia.
Qed.

Lemma canonCompare_fast_slow n m ls ms :
  represents n ls -> represents m ms ->
  canonCompare_three_way n m false = slowCanonCompare_three_way n m.
Proof.
  intros Hn Hm. unfold canonCompare_three_way.
  destruct (canonCompare_positions_whole _ _ Hn) as [En Hpn].
  destruct (canonCompare_positions_whole _ _ Hm) as [Em Hpm].
  simpl in *. rewrite En, Em.
  destruct (Z.leb_spec 64 (zlen ls)) as [E1|E1]; [done|].
  destruct (Z.leb_spec 64 (zlen ms)) as [E2|E2]; [done|]. simpl.
  rewrite canonCompare_loop_spec, !map_reverse. rewrite Hpn, Hpm by done. unfold slowCanonCompare_three_way.
  by rewrite (getRawLabels_represents _ _ Hn), (getRawLabels_represents _ _ Hm).
Qed.
