(* ===== verification/NamesText.v ===== *)
(** * The text form of names

    Printing ([DNSName::toString] and [appendEscapedLabel]) and the two parsers
    behind the constructor [DNSName(std::string_view)]: the direct one, for text
    without a backslash, and the Ragel machine [dnsnameraw] of
    [pdns/dnslabeltext.rl], for text with escapes. *)

From S2P Require Import Prelude Chars Names NamesFacts.

#[local] Open Scope Z_scope.

(** ** Printing *)

Definition digit3 (p : Z) : bytes := [48 + p / 100; 48 + (p / 10) mod 10; 48 + p mod 10].

(** One step of [appendEscapedLabel]. *)
Definition escape_byte (p : Z) : bytes :=
  if p =? 46 then bs "\."
  else if p =? 92 then bs "\\"
  else if (32 <? p) && (p <? 127) then [p]
  else 92 :: digit3 p.

Definition appendEscapedLabel (appendTo label : bytes) : bytes :=
  appendTo ++ concat (map escape_byte label).

Fixpoint toString_loop (fuel : nat) (p output separator : bytes) : bytes :=
  match fuel, p with
  | S fuel', len :: p' =>
      if len =? 0 then output
      else toString_loop fuel' (zdrop len p')
             (appendEscapedLabel output (ztake len p') ++ separator) separator
  | _, _ => output
  end.

(** [toString(output, separator, trailing)], which appends to [output]. *)
Definition toString_to (n : DNSName) (output separator : bytes) (trailing : bool) : result bytes :=
  if name_empty n then Throw (out_of_range "Attempt to print an unset DNSName")
  else if isRoot n then Ok (output ++ if trailing then separator else [])
  else
    let out := toString_loop (length (d_storage n)) (d_storage n) output separator in
    Ok (if trailing then out else ztake (zlen out - zlen separator) out).

Definition toString (n : DNSName) (separator : bytes) (trailing : bool) : result bytes :=
  toString_to n [] separator trailing.

Definition toStringNoDot (n : DNSName) : result bytes := toString n (bs ".") false.

Definition toStringRootDot (n : DNSName) : result bytes :=
  if isRoot n then Ok (bs ".") else toString n (bs ".") false.

Definition toLogString (n : DNSName) : result bytes :=
  if name_empty n then Ok (bs "(empty)") else toStringRootDot n.

(** ** Parsing: the Ragel machine [dnsnameraw] *)

Inductive raw_state : Type :=
| RawBegin         (* nothing read yet: a label must start *)
| RawAfterDot      (* after a dot: a label may start, or the input ends *)
| RawInLabel       (* after a complete label element *)
| RawBackslash     (* after a backslash *)
| RawDigit1 | RawDigit2  (* inside a decimal escape *)
| RawDigit3.       (* after a decimal escape, its byte not yet reported *)

#[export] Instance raw_state_eq_dec : EqDecision raw_state.
Proof. solve_decision. Defined.

(** The variables of [segmentDNSNameRaw]; [val] and [labellen] are one byte. *)
Record raw_machine : Type := mkRaw {
  raw_cs : raw_state;
  raw_ret : bytes;
  raw_val : Z;
  raw_labellen : Z;
  raw_lenpos : Z;
}.

Definition raw_set_cs (cs : raw_state) (m : raw_machine) : raw_machine :=
  mkRaw cs (raw_ret m) (raw_val m) (raw_labellen m) (raw_lenpos m).

(** The actions of the machine. *)
Definition raw_labelEnd (m : raw_machine) : result raw_machine :=
  _ ← throw_if (63 <? raw_labellen m) (runtime_error "Unable to parse DNS name");
  Ok (mkRaw (raw_cs m) (<[Z.to_nat (raw_lenpos m) := raw_labellen m]> (raw_ret m))
        (raw_val m) 0 (raw_lenpos m)).

Definition raw_labelBegin (m : raw_machine) : raw_machine :=
  mkRaw (raw_cs m) (raw_ret m ++ [0]) (raw_val m) 0 (zlen (raw_ret m)).

(** [reportEscaped] and [reportPlain] do the same thing. *)
Definition raw_report (c : Z) (m : raw_machine) : raw_machine :=
  mkRaw (raw_cs m) (raw_ret m ++ [c]) (raw_val m) (u8 (raw_labellen m + 1)) (raw_lenpos m).

Definition raw_reportEscapedNumber (c : Z) (m : raw_machine) : raw_machine :=
  mkRaw (raw_cs m) (raw_ret m) (u8 (u8 (raw_val m * 10) + (c - 48))) (raw_labellen m) (raw_lenpos m).

Definition raw_doneEscapedNumber (m : raw_machine) : raw_machine :=
  mkRaw (raw_cs m) (raw_ret m ++ [raw_val m]) 0 (u8 (raw_labellen m + 1)) (raw_lenpos m).

(** The leaving action of the decimal escape. *)
Definition raw_leave (m : raw_machine) : raw_machine :=
  match raw_cs m with RawDigit3 => raw_doneEscapedNumber m | _ => m end.

Definition raw_reject : exn := runtime_error "Unable to parse DNS name".

(** A character that starts a label element. *)
Definition raw_element (c : Z) (m : raw_machine) : raw_machine :=
  if c =? 92 then raw_set_cs RawBackslash m else raw_set_cs RawInLabel (raw_report c m).

Definition raw_isdigit (c : Z) : bool := (48 <=? c) && (c <=? 57).

Definition raw_step (m : raw_machine) (c : Z) : result raw_machine :=
  match raw_cs m with
  | RawBegin | RawAfterDot =>
      if c =? 46 then Throw raw_reject else Ok (raw_element c (raw_labelBegin m))
  | RawInLabel | RawDigit3 =>
      let m := raw_leave m in
      if c =? 46 then m ← raw_labelEnd m; Ok (raw_set_cs RawAfterDot m)
      else Ok (raw_element c m)
  | RawBackslash =>
      if raw_isdigit c then Ok (raw_set_cs RawDigit1 (raw_reportEscapedNumber c m))
      else Ok (raw_set_cs RawInLabel (raw_report c m))
  | RawDigit1 =>
      if raw_isdigit c then Ok (raw_set_cs RawDigit2 (raw_reportEscapedNumber c m))
      else Throw raw_reject
  | RawDigit2 =>
      if raw_isdigit c then Ok (raw_set_cs RawDigit3 (raw_reportEscapedNumber c m))
      else Throw raw_reject
  end.

Fixpoint raw_run (m : raw_machine) (input : bytes) : result raw_machine :=
  match input with
  | [] => Ok m
  | c :: input' => m' ← raw_step m c; raw_run m' input'
  end.

(** The end-of-file actions and the check of the final state. *)
Definition raw_eof (m : raw_machine) : result raw_machine :=
  match raw_cs m with
  | RawAfterDot => Ok m
  | RawInLabel | RawDigit3 => raw_labelEnd (raw_leave m)
  | _ => Throw raw_reject
  end.

Definition segmentDNSNameRaw (input : bytes) : result bytes :=
  match input with
  | [] => Ok [0]
  | c :: _ =>
      if (c =? 0) || (c =? 46) then Ok [0]
      else
        m ← raw_run (mkRaw RawBegin [] 0 0 0) input;
        m ← raw_eof m;
        Ok (raw_ret m ++ [0])
  end.

(** ** Parsing: the constructor *)

Fixpoint span_dot (s : bytes) : bytes * bytes :=
  match s with
  | [] => ([], [])
  | c :: s' => if c =? 46 then ([], s) else let '(l, r) := span_dot s' in (c :: l, r)
  end.

(** The outer loop, on the part of the content from [position] on. *)
Fixpoint DNSName_text_loop (fuel : nat) (rest : bytes) (position : Z) (storage : bytes)
  : result bytes :=
  match fuel, rest with
  | S fuel', c :: _ =>
      let lenpos := u8 (zlen storage) in
      if c =? 46 then Throw (range_error "Found . in wrong position in DNSName: ")
      else
        let '(label, after) := span_dot rest in
        let labellen := u8 (zlen label) in
        let storage := storage ++ [0] ++ label in
        let position := position + zlen label + (if after then 0 else 1) in
        _ ← throw_if (s_maxDNSLabelLength <? labellen) (range_error "label too long to append: ");
        _ ← throw_if (s_maxDNSNameLength - 1 <? position) (range_error "name too long to append: ");
        DNSName_text_loop fuel' (tail after) position (<[Z.to_nat lenpos := labellen]> storage)
  | _, _ => Ok storage
  end.

Definition DNSName_from_text (content : bytes) : result DNSName :=
  if bool_decide (content = []) || bool_decide (content = [46]) then Ok (mkDNSName [0])
  else if bool_decide (92 ∈ content) then
    storage ← segmentDNSNameRaw content;
    _ ← throw_if (s_maxDNSNameLength <? zlen storage) (range_error "name too long: ");
    Ok (mkDNSName storage)
  else
    storage ← DNSName_text_loop (length content) content 0 [];
    _ ← throw_if (s_maxDNSNameLength - 1 <? zlen storage) (range_error "name too long: ");
    Ok (mkDNSName (storage ++ [0])).

(** ** Every name the constructor accepts satisfies the class invariant *)

(** Labels as the machine stores them: the length byte may have wrapped. *)
Definition enc8 (ls : list bytes) : bytes := concat (map (fun l => u8 (zlen l) :: l) ls).

Definition ok8 (l : bytes) : Prop := l <> [] /\ u8 (zlen l) <= 63 /\ bytes_ok l.

Lemma enc8_snoc ls l : enc8 (ls ++ [l]) = enc8 ls ++ u8 (zlen l) :: l.
Proof. unfold enc8. rewrite map_app, concat_app. simpl. by rewrite app_nil_r. Qed.

Definition raw_inv (m : raw_machine) : Prop :=
  is_byte (raw_val m) /\ exists ls, Forall ok8 ls /\
  match raw_cs m with
  | RawBegin => raw_ret m = [] /\ ls = []
  | RawAfterDot => raw_ret m = enc8 ls
  | cs => exists cur, raw_ret m = enc8 ls ++ 0 :: cur /\ raw_lenpos m = zlen (enc8 ls)
          /\ raw_labellen m = u8 (zlen cur) /\ bytes_ok cur /\ (cs = RawInLabel -> cur <> [])
  end.

(** A label has started, [cur] is what it holds so far. *)
Definition raw_open (m : raw_machine) (ls : list bytes) (cur : bytes) : Prop :=
  is_byte (raw_val m) /\ Forall ok8 ls /\ raw_ret m = enc8 ls ++ 0 :: cur
  /\ raw_lenpos m = zlen (enc8 ls) /\ raw_labellen m = u8 (zlen cur) /\ bytes_ok cur.

Lemma raw_open_report m ls cur c :
  raw_open m ls cur -> is_byte c -> raw_open (raw_report c m) ls (cur ++ [c]).
Proof.
  intros (? & ? & Hr & ? & Hl & ?) Hc. split_and!; simpl; try done.
  - rewrite Hr, <- app_assoc. done.
  - rewrite Hl, u8_add_l, zlen_app. done.
  - apply bytes_ok_app. split; [done|]. by constructor.
Qed.

Lemma raw_open_number m ls cur c :
  raw_open m ls cur -> raw_open (raw_reportEscapedNumber c m) ls cur.
Proof. intros (? & ? & Hr & ? & Hl & ?). split_and!; simpl; try done. apply u8_byte. Qed.

Lemma raw_open_done m ls cur :
  raw_open m ls cur -> raw_open (raw_doneEscapedNumber m) ls (cur ++ [raw_val m]).
Proof.
  intros Ho. destruct (raw_open_report _ _ _ (raw_val m) Ho) as (? & ? & ? & ? & ? & ?); [apply Ho|].
  split_and!; simpl; done.
Qed.

Lemma raw_open_element m ls cur c :
  raw_open m ls cur -> is_byte c -> raw_inv (raw_element c m).
Proof.
  intros Ho Hc. unfold raw_element. destruct (c =? 92).
  - destruct Ho as (? & ? & Hr & ? & Hl & ?). split; [done|]. exists ls. split; [done|].
    exists cur. done.
  - destruct (raw_open_report _ _ _ c Ho Hc) as (? & ? & ? & ? & ? & ?).
    split; [done|]. exists ls. split; [done|]. exists (cur ++ [c]).
    split_and!; try done. intros _. by destruct cur.
Qed.

Lemma raw_open_labelEnd m ls cur m' :
  raw_open m ls cur -> cur <> [] -> raw_labelEnd m = Ok m' ->
  is_byte (raw_val m') /\ Forall ok8 (ls ++ [cur]) /\ raw_ret m' = enc8 (ls ++ [cur]).
Proof.
  intros (? & ? & Hr & Hp & Hl & ?) Hne He. unfold raw_labelEnd in He. bind_inv He.
  apply throw_if_Ok, Z.ltb_ge in E. injection He as <-. simpl. split_and!; [done| |].
  - apply Forall_app. split; [done|]. constructor; [|done]. unfold ok8. rewrite <- Hl. done.
  - rewrite Hr, Hp, enc8_snoc, Hl. apply insert_middle. unfold zlen. lia.
Qed.

Lemma raw_inv_open m :
  raw_inv m -> raw_cs m <> RawBegin -> raw_cs m <> RawAfterDot ->
  exists ls cur, raw_open m ls cur /\ (raw_cs m = RawInLabel -> cur <> []).
Proof.
  intros (? & ls & Hls & Hm) ??.
  destruct (raw_cs m) eqn:E; try done; destruct Hm as (cur & ? & ? & ? & ? & ?);
    exists ls, cur; split; try done; by split_and!.
Qed.

Lemma raw_leave_open m :
  raw_inv m -> raw_cs m = RawInLabel \/ raw_cs m = RawDigit3 ->
  exists ls cur, raw_open (raw_leave m) ls cur /\ cur <> [].
Proof.
  intros Hi Hcs. destruct (raw_inv_open m Hi) as (ls & cur & Ho & Hne).
  { by destruct Hcs as [-> | ->]. } { by destruct Hcs as [-> | ->]. }
  unfold raw_leave. destruct Hcs as [Hcs|Hcs]; rewrite Hcs.
  - eauto.
  - exists ls, (cur ++ [raw_val m]). split; [by apply raw_open_done|]. by destruct cur.
Qed.

Lemma raw_open_set_cs cs m ls cur :
  raw_open m ls cur -> cs <> RawBegin -> cs <> RawAfterDot -> cs <> RawInLabel ->
  raw_inv (raw_set_cs cs m).
Proof.
  intros (? & ? & ? & ? & ? & ?) ???. split; [done|]. exists ls. split; [done|].
  destruct cs; try done; exists cur; by split_and!.
Qed.

Lemma raw_step_inv m c m' : raw_inv m -> is_byte c -> raw_step m c = Ok m' -> raw_inv m'.
Proof.
  intros Hi Hc. unfold raw_step.
  assert (forall ls, Forall ok8 ls -> is_byte (raw_val m) -> raw_ret m = enc8 ls ->
            raw_inv (raw_element c (raw_labelBegin m))) as Hbegin.
  { intros ls Hls Hv Hr. apply raw_open_element with (ls := ls) (cur := []); [|done].
    split_and!; simpl; rewrite ?Hr; try done. constructor. }
  destruct (raw_cs m) eqn:E.
  - destruct (c =? 46); [done|]. intros [= <-]. destruct Hi as (? & ls & ? & Hm).
    rewrite E in Hm. destruct Hm as [? ->]. by apply (Hbegin []).
  - destruct (c =? 46); [done|]. intros [= <-]. destruct Hi as (? & ls & ? & Hm).
    rewrite E in Hm. by apply (Hbegin ls).
  - destruct (raw_leave_open m) as (ls & cur & Ho & Hne); [done|by left|].
    destruct (c =? 46).
    + intros H. bind_inv H. injection H as <-.
      destruct (raw_open_labelEnd _ _ _ _ Ho Hne E0) as (? & ? & ?).
      split; [done|]. by exists (ls ++ [cur]).
    + intros [= <-]. by apply raw_open_element with ls cur.
  - destruct (raw_inv_open m) as (ls & cur & Ho & _); [done|by rewrite E..|].
    destruct (raw_isdigit c); intros [= <-].
    + by apply raw_open_set_cs with ls cur; [apply raw_open_number|..].
    + destruct (raw_open_report _ _ _ _ Ho Hc) as (? & ? & ? & ? & ? & ?).
      split; [done|]. exists ls. split; [done|]. exists (cur ++ [c]).
      split_and!; try done. by destruct cur.
  - destruct (raw_inv_open m) as (ls & cur & Ho & _); [done|by rewrite E..|].
    destruct (raw_isdigit c); [|done]. intros [= <-].
    by apply raw_open_set_cs with ls cur; [apply raw_open_number|..].
  - destruct (raw_inv_open m) as (ls & cur & Ho & _); [done|by rewrite E..|].
    destruct (raw_isdigit c); [|done]. intros [= <-].
    by apply raw_open_set_cs with ls cur; [apply raw_open_number|..].
  - destruct (raw_leave_open m) as (ls & cur & Ho & Hne); [done|by right|].
    destruct (c =? 46).
    + intros H. bind_inv H. injection H as <-.
      destruct (raw_open_labelEnd _ _ _ _ Ho Hne E0) as (? & ? & ?).
      split; [done|]. by exists (ls ++ [cur]).
    + intros [= <-]. by apply raw_open_element with ls cur.
Qed.

Lemma raw_run_inv input m m' :
  bytes_ok input -> raw_inv m -> raw_run m input = Ok m' -> raw_inv m'.
Proof.
  intros Hb. revert m. induction Hb as [|c input Hc Hb IH]; intros m Hi H; simpl in H.
  - by injection H as <-.
  - bind_inv H. eapply IH; [|exact H]. by eapply raw_step_inv.
Qed.

Lemma raw_eof_inv m m' :
  raw_inv m -> raw_eof m = Ok m' -> exists ls, Forall ok8 ls /\ raw_ret m' = enc8 ls.
Proof.
  intros Hi. unfold raw_eof. destruct (raw_cs m) eqn:E; try done.
  - intros [= <-]. destruct Hi as (? & ls & ? & Hm). rewrite E in Hm. by exists ls.
  - intros H. destruct (raw_leave_open m) as (ls & cur & Ho & Hne); [done|by left|].
    destruct (raw_open_labelEnd _ _ _ _ Ho Hne H) as (? & ? & ?). by exists (ls ++ [cur]).
  - intros H. destruct (raw_leave_open m) as (ls & cur & Ho & Hne); [done|by right|].
    destruct (raw_open_labelEnd _ _ _ _ Ho Hne H) as (? & ? & ?). by exists (ls ++ [cur]).
Qed.

(** Within 255 bytes no length byte has wrapped. *)
Lemma enc8_small ls :
  Forall ok8 ls -> zlen (enc8 ls) <= 255 -> enc8 ls = enc_labels ls /\ valid_labels ls.
Proof.
  induction 1 as [|l ls (Hne & H63 & Hb) _ IH]; [by repeat constructor|].
  unfold enc8, enc_labels in *. cbn [map concat]. rewrite <- app_comm_cons, zlen_cons, zlen_app.
  pose proof (zlen_nonneg l). pose proof (zlen_nonneg (concat (map (fun l => u8 (zlen l) :: l) ls))).
  intros Hle. destruct IH as [-> Hv]; [lia|]. rewrite u8_small in * by lia.
  split; [done|]. constructor; [|done]. split; [|done].
  destruct l; [done|]. rewrite zlen_cons in *. pose proof (zlen_nonneg l). lia.
Qed.

Lemma segmentDNSNameRaw_inv input s :
  bytes_ok input -> segmentDNSNameRaw input = Ok s -> zlen s <= 255 ->
  exists ls, represents (mkDNSName s) ls.
Proof.
  intros Hb H Hle. pose proof represents_root as Hroot. unfold g_rootdnsname in Hroot.
  unfold segmentDNSNameRaw in H. destruct input as [|c input]; [injection H as <-; eauto|].
  destruct (_ || _); [injection H as <-; eauto|]. bind_inv H. bind_inv H. injection H as <-.
  apply raw_run_inv in E; [|done|].
  2: { split; [done|]. exists []. split; [constructor|done]. }
  destruct (raw_eof_inv _ _ E E0) as (ls & Hls & Hr).
  rewrite Hr, zlen_app in *. change (zlen [0]) with 1 in Hle.
  destruct (enc8_small ls) as [Heq Hv]; [done|lia|]. exists ls. rewrite Heq in *.
  split_and!; [done..|]. rewrite zlen_storage_of. unfold s_maxDNSNameLength. lia.
Qed.

Lemma span_dot_spec s : span_dot s = (fst (span_dot s), snd (span_dot s))
  /\ s = fst (span_dot s) ++ snd (span_dot s) /\ 46 ∉ fst (span_dot s)
  /\ (snd (span_dot s) = [] \/ exists r, snd (span_dot s) = 46 :: r).
Proof.
  induction s as [|c s IH]; simpl.
  { split_and!; try done; [apply not_elem_of_nil|by left]. }
  destruct (Z.eqb_spec c 46) as [->|E].
  - split_and!; try done; [apply not_elem_of_nil|eauto].
  - destruct IH as (-> & IH1 & IH2 & IH3). simpl. split_and!; try done.
    + by f_equal.
    + by apply not_elem_of_cons.
Qed.

(** The direct parser, from a point where what is stored so far are the
    labels [ls] and takes at most [position] bytes. *)
Lemma text_loop_inv fuel rest position ls s :
  (length rest <= fuel)%nat -> bytes_ok rest -> valid_labels ls ->
  (rest <> [] -> zlen (enc_labels ls) <= position <= 254) ->
  DNSName_text_loop fuel rest position (enc_labels ls) = Ok s ->
  exists ls', s = enc_labels ls' /\ valid_labels ls'.
Proof.
  revert rest position ls. induction fuel as [|fuel IH]; intros rest position ls Hf Hb Hls Hpos H.
  { injection H as <-. eauto. }
  destruct rest as [|c rest]; [injection H as <-; eauto|].
  destruct Hpos as [Hp1 Hp2]; [done|].
  cbn [DNSName_text_loop] in H. destruct (Z.eqb_spec c 46) as [->|Hc]; [done|].
  destruct (span_dot_spec (c :: rest)) as (Heq & Hsp & Hnd & Hafter).
  rewrite Heq in H. clear Heq.
  destruct (span_dot (c :: rest)) as [label after]. cbn [fst snd app] in *.
  bind_inv H. bind_inv H.
  apply throw_if_Ok, Z.ltb_ge in E, E0. unfold s_maxDNSLabelLength, s_maxDNSNameLength in *.
  assert (label <> []) as Hlne.
  { destruct Hafter as [Ha|[r Ha]]; rewrite Ha in Hsp; destruct label; simplify_eq/=; done. }
  rewrite Hsp in Hb. apply bytes_ok_app in Hb as [Hbl Hba].
  pose proof (zlen_nonneg (enc_labels ls)). pose proof (zlen_nonneg label).
  assert (zlen label <= 254) by (destruct after; lia).
  rewrite u8_small in E by lia. rewrite !u8_small in H by lia.
  rewrite insert_middle in H by (unfold zlen; lia).
  assert (1 <= zlen label).
  { destruct label; [done|]. rewrite zlen_cons. pose proof (zlen_nonneg label). lia. }
  assert (enc_labels ls ++ zlen label :: label = enc_labels (ls ++ [label])) as Hcat.
  { rewrite enc_labels_app, enc_labels_cons. by rewrite app_nil_r. }
  rewrite Hcat in H. eapply IH; [| | | |exact H].
  - apply (f_equal length) in Hsp. rewrite length_app in Hsp. simpl in Hsp, Hf.
    assert (length label <> 0%nat) by (by destruct label). destruct after; simpl in *; lia.
  - destruct after; [done|]. by inversion_clear Hba.
  - apply Forall_app. split; [done|]. by repeat constructor.
  - rewrite <- Hcat, zlen_app, zlen_cons. destruct after; simpl; [done|]. lia.
Qed.

Lemma DNSName_from_text_inv content n :
  bytes_ok content -> DNSName_from_text content = Ok n -> exists ls, represents n ls.
Proof.
  intros Hb H. unfold DNSName_from_text in H.
  destruct (_ || _). { injection H as <-. exists []. apply represents_root. }
  case_bool_decide as Hbs.
  - bind_inv H. bind_inv H. injection H as <-. apply throw_if_Ok, Z.ltb_ge in E0.
    by eapply segmentDNSNameRaw_inv.
  - bind_inv H. bind_inv H. injection H as <-. apply throw_if_Ok, Z.ltb_ge in E0.
    unfold s_maxDNSNameLength in E0.
    destruct (text_loop_inv (length content) content 0 [] a) as (ls & -> & Hls); try done.
    { by constructor. }
    exists ls. split_and!; [done..|]. rewrite zlen_storage_of. unfold s_maxDNSNameLength. lia.
Qed.

(** ** Printing and parsing back *)

Definition esc_label (l : bytes) : bytes := concat (map escape_byte l).

Definition text_of (ls : list bytes) (separator : bytes) : bytes :=
  concat (map (fun l => esc_label l ++ separator) ls).

Lemma toString_loop_storage ls fuel out sep :
  valid_labels ls -> (length (storage_of ls) <= fuel)%nat ->
  toString_loop fuel (storage_of ls) out sep = out ++ text_of ls sep.
Proof.
  intros Hv. revert fuel out. induction Hv as [|l ls [Hl _] Hv IH]; intros fuel out Hf.
  - destruct fuel; simpl; by rewrite app_nil_r.
  - rewrite storage_of_cons in *. destruct fuel as [|fuel]; [simpl in Hf; lia|].
    cbn [toString_loop]. rewrite (proj2 (Z.eqb_neq _ _)) by lia.
    rewrite ztake_app, zdrop_app by done. rewrite IH.
    2: { simpl in Hf. rewrite length_app in Hf. lia. }
    unfold text_of, appendEscapedLabel, esc_label. simpl. by rewrite <- !app_assoc.
Qed.

Lemma toString_represents n ls :
  represents n ls ->
  toString n (bs ".") true = Ok (match ls with [] => [46] | _ => text_of ls [46] end).
Proof.
  intros Hr. unfold toString, toString_to.
  rewrite (represents_not_empty _ _ Hr), (represents_isRoot _ _ Hr).
  destruct Hr as (Hs & Hv & _). case_bool_decide as E; [by subst|].
  rewrite Hs, toString_loop_storage by done. by destruct ls.
Qed.

Lemma raw_run_app m a b : raw_run m (a ++ b) = (m' ← raw_run m a; raw_run m' b).
Proof.
  revert m. induction a as [|c a IH]; intros m; simpl; [done|].
  destruct (raw_step m c) as [m1|e]; simpl; [apply IH|done].
Qed.

(** Inside a label that holds [cur], after the labels [ls]. *)
Definition raw_at (m : raw_machine) (ls : list bytes) (cur : bytes) : Prop :=
  (raw_cs m = RawInLabel \/ raw_cs m = RawDigit3)
  /\ raw_ret (raw_leave m) = enc_labels ls ++ 0 :: cur
  /\ raw_labellen (raw_leave m) = zlen cur
  /\ raw_lenpos (raw_leave m) = zlen (enc_labels ls)
  /\ raw_val (raw_leave m) = 0.

(** Between labels. *)
Definition raw_between (m : raw_machine) (ls : list bytes) : Prop :=
  (raw_cs m = RawBegin \/ raw_cs m = RawAfterDot)
  /\ raw_ret m = enc_labels ls /\ raw_val m = 0.

Lemma raw_step_at m c :
  raw_cs m = RawInLabel \/ raw_cs m = RawDigit3 -> c <> 46 ->
  raw_step m c = Ok (raw_element c (raw_leave m)).
Proof.
  intros Hcs Hc. unfold raw_step.
  destruct Hcs as [-> | ->]; by rewrite (proj2 (Z.eqb_neq _ _)).
Qed.

Lemma raw_step_begin m c :
  raw_cs m = RawBegin \/ raw_cs m = RawAfterDot -> c <> 46 ->
  raw_step m c = raw_step (raw_set_cs RawInLabel (raw_labelBegin m)) c.
Proof.
  intros Hcs Hc. rewrite (raw_step_at (raw_set_cs _ _)) by (done || by left).
  unfold raw_step. destruct Hcs as [-> | ->]; by rewrite (proj2 (Z.eqb_neq _ _)).
Qed.

Lemma raw_step_begin_at m ls :
  raw_between m ls -> raw_at (raw_set_cs RawInLabel (raw_labelBegin m)) ls [].
Proof. intros (Hcs & Hr & Hv). split_and!; simpl; rewrite ?Hr; try done. by left. Qed.

(** The four steps of a decimal escape. *)
Lemma raw_run_number m p :
  raw_cs m = RawBackslash -> raw_val m = 0 -> is_byte p ->
  raw_run m (digit3 p) = Ok (mkRaw RawDigit3 (raw_ret m) p (raw_labellen m) (raw_lenpos m)).
Proof.
  intros Hcs Hv Hp. unfold is_byte in Hp. destruct m as [cs ret val ll lp]. simpl in *. subst.
  assert (0 <= p / 100 <= 2).
  { pose proof (Z.div_mod p 100 ltac:(lia)). pose proof (Z.mod_pos_bound p 100 ltac:(lia)). lia. }
  pose proof (Z.mod_pos_bound (p / 10) 10 ltac:(lia)).
  pose proof (Z.mod_pos_bound p 10 ltac:(lia)).
  unfold digit3, raw_run, raw_step; cbn [raw_cs].
  assert (forall d, 0 <= d <= 9 -> raw_isdigit (48 + d) = true) as Hd.
  { intros. unfold raw_isdigit. apply andb_true_iff. split; apply Z.leb_le; lia. }
  rewrite !Hd by lia. cbn [mbind result_bind raw_cs raw_set_cs raw_reportEscapedNumber
    raw_ret raw_val raw_labellen raw_lenpos]. f_equal.
  unfold raw_set_cs, raw_reportEscapedNumber; cbn [raw_ret raw_val raw_labellen raw_lenpos]. f_equal.
  assert (p / 10 / 10 = p / 100) as H100 by (rewrite Z.div_div by lia; done).
  pose proof (Z.div_mod (p / 10) 10 ltac:(lia)). pose proof (Z.div_mod p 10 ltac:(lia)).
  assert (u8 (u8 (0 * 10) + (48 + p / 100 - 48)) = p / 100) as ->.
  { rewrite (u8_small (0 * 10)) by lia. rewrite u8_small; lia. }
  assert (u8 (u8 (p / 100 * 10) + (48 + (p / 10) mod 10 - 48)) = p / 10) as ->.
  { rewrite (u8_small (p / 100 * 10)) by lia. rewrite u8_small; lia. }
  rewrite (u8_small (p / 10 * 10)) by lia. rewrite u8_small; lia.
Qed.

Lemma raw_run_byte m ls cur p :
  raw_at m ls cur -> is_byte p -> zlen cur < 63 ->
  exists m', raw_run m (escape_byte p) = Ok m' /\ raw_at m' ls (cur ++ [p]).
Proof.
  intros (Hcs & Hr & Hl & Hp & Hv) Hb Hlen. pose proof (zlen_nonneg cur).
  remember (raw_leave m) as m0 eqn:Hm0.
  assert (forall c, raw_at (raw_set_cs RawInLabel (raw_report c m0)) ls (cur ++ [c])) as Hrep.
  { intros c. split_and!; simpl; try done; [by left| | ].
    - rewrite Hr, <- app_assoc. done.
    - rewrite Hl, zlen_app. change (zlen [c]) with 1. apply u8_small. lia. }
  unfold escape_byte. destruct (Z.eqb_spec p 46) as [->|Hn46].
  { eexists. split; [|apply Hrep]. simpl.
    rewrite raw_step_at by done. rewrite <- Hm0. done. }
  destruct (Z.eqb_spec p 92) as [->|Hn92].
  { eexists. split; [|apply Hrep]. simpl.
    rewrite raw_step_at by done. rewrite <- Hm0. done. }
  destruct (_ && _).
  - eexists. split; [|apply Hrep]. simpl.
    rewrite raw_step_at by done. rewrite <- Hm0. unfold raw_element.
    by rewrite (proj2 (Z.eqb_neq p 92)).
  - cbn [raw_run]. rewrite raw_step_at by done. rewrite <- Hm0.
    cbn [mbind result_bind raw_element]. unfold raw_element. rewrite Z.eqb_refl.
    rewrite raw_run_number; [|done|done|done]. eexists. split; [done|].
    split_and!; simpl; try done; [by right| |].
    + rewrite Hr, <- app_assoc. done.
    + rewrite Hl, zlen_app. change (zlen [p]) with 1. apply u8_small. lia.
Qed.

Lemma raw_run_label_at m ls cur l :
  raw_at m ls cur -> bytes_ok l -> zlen cur + zlen l <= 63 ->
  exists m', raw_run m (esc_label l) = Ok m' /\ raw_at m' ls (cur ++ l).
Proof.
  intros Hm Hb. revert m cur Hm. induction Hb as [|p l Hp Hb IH]; intros m cur Hm Hlen.
  - exists m. by rewrite app_nil_r.
  - rewrite zlen_cons in Hlen. pose proof (zlen_nonneg l).
    destruct (raw_run_byte m ls cur p) as (m1 & H1 & Hm1); [done..|lia|].
    destruct (IH m1 (cur ++ [p])) as (m2 & H2 & Hm2); [done| |].
    { rewrite zlen_app. change (zlen [p]) with 1. lia. }
    exists m2. rewrite <- app_assoc in Hm2. split; [|done].
    unfold esc_label. simpl. rewrite raw_run_app, H1. done.
Qed.

Lemma escape_byte_head p :
  exists c r, escape_byte p = c :: r /\ c <> 46 /\ c <> 0.
Proof.
  unfold escape_byte. destruct (Z.eqb_spec p 46) as [->|]; [by eexists _, _|].
  destruct (Z.eqb_spec p 92) as [->|]; [by eexists _, _|].
  destruct (_ && _) eqn:E; [|by eexists _, _].
  eexists p, []. split_and!; [done..|]. lia.
Qed.

Lemma raw_run_label m ls l :
  raw_between m ls -> valid_label l ->
  exists m', raw_run m (esc_label l ++ [46]) = Ok m' /\ raw_between m' (ls ++ [l])
             /\ raw_cs m' = RawAfterDot.
Proof.
  intros Hm [Hl Hb].
  assert (raw_run m (esc_label l)
          = raw_run (raw_set_cs RawInLabel (raw_labelBegin m)) (esc_label l)) as Hbegin.
  { destruct Hb as [|p l Hp Hb]; [rewrite zlen_nil in Hl; lia|].
    destruct (escape_byte_head p) as (c & r & Hc & Hn & _). unfold esc_label. simpl. rewrite Hc.
    simpl. rewrite (raw_step_begin m) by (done || apply Hm). done. }
  destruct (raw_run_label_at (raw_set_cs RawInLabel (raw_labelBegin m)) ls [] l)
    as (m1 & H1 & Hm1); [by apply raw_step_begin_at|done|change (zlen []) with 0; lia|].
  simpl in Hm1. rewrite raw_run_app, Hbegin, H1. simpl.
  destruct Hm1 as (Hcs & Hr & Hll & Hlp & Hv).
  unfold raw_step. destruct Hcs as [Hcs|Hcs]; rewrite Hcs; simpl;
  unfold raw_labelEnd, throw_if; rewrite Hll; rewrite (proj2 (Z.ltb_ge _ _)) by lia; simpl;
  (eexists; split; [done|]); (split; [|done]); (split_and!; [by right| |done]);
  simpl; rewrite Hr, Hlp;
  rewrite insert_middle by (unfold zlen; lia);
  rewrite enc_labels_app, enc_labels_cons; by rewrite app_nil_r.
Qed.

Lemma raw_run_text m ls rs :
  raw_between m ls -> valid_labels rs ->
  exists m', raw_run m (text_of rs [46]) = Ok m' /\ raw_between m' (ls ++ rs)
             /\ (rs <> [] -> raw_cs m' = RawAfterDot).
Proof.
  intros Hm Hv. revert m ls Hm. induction Hv as [|l rs Hl Hv IH]; intros m ls Hm.
  - exists m. by rewrite app_nil_r.
  - destruct (raw_run_label m ls l) as (m1 & H1 & Hm1 & Hcs1); [done..|].
    destruct (IH m1 _ Hm1) as (m2 & H2 & Hm2 & Hcs2). exists m2.
    unfold text_of in *. cbn [map concat]. rewrite raw_run_app, H1. simpl.
    rewrite <- app_assoc in Hm2. split_and!; [done..|]. intros _.
    destruct rs; [|by apply Hcs2]. simpl in H2. congruence.
Qed.

(** The direct parser on the text of labels that need no escape. *)
Lemma span_dot_app l r : 46 ∉ l -> span_dot (l ++ 46 :: r) = (l, 46 :: r).
Proof.
  induction l as [|c l IH]; simpl; [done|]. intros [Hc Hl]%not_elem_of_cons.
  rewrite (proj2 (Z.eqb_neq _ _)) by done. by rewrite IH.
Qed.

Lemma escape_byte_plain p : 92 ∉ escape_byte p -> escape_byte p = [p] /\ p <> 46.
Proof.
  unfold escape_byte. destruct (Z.eqb_spec p 46) as [->|]; [set_solver|].
  destruct (Z.eqb_spec p 92) as [->|]; [set_solver|]. destruct (_ && _); [done|set_solver].
Qed.

Lemma esc_label_plain l : 92 ∉ esc_label l -> esc_label l = l /\ 46 ∉ l.
Proof.
  unfold esc_label. induction l as [|p l IH]; simpl; [set_solver|].
  intros [Hp Hl]%not_elem_of_app. destruct (escape_byte_plain p Hp) as [-> ?].
  destruct (IH Hl) as [-> ?]. split; [done|]. by apply not_elem_of_cons.
Qed.

Lemma text_loop_labels ls rs fuel position :
  valid_labels rs -> 92 ∉ text_of rs [46] -> (length (text_of rs [46%Z]) <= fuel)%nat ->
  position = zlen (enc_labels ls) -> position + zlen (enc_labels rs) <= 254 ->
  DNSName_text_loop fuel (text_of rs [46]) position (enc_labels ls) = Ok (enc_labels (ls ++ rs)).
Proof.
  intros Hv. revert ls fuel position.
  induction Hv as [|l rs [Hl Hb] Hv IH]; intros ls fuel position Hesc Hf Hpos Hlen.
  - rewrite app_nil_r. by destruct fuel.
  - unfold text_of in *. cbn [map concat] in *. apply not_elem_of_app in Hesc as [He1 He2].
    apply not_elem_of_app in He1 as [He1 _]. destruct (esc_label_plain l He1) as [-> Hdot].
    rewrite zlen_enc_labels_cons in Hlen. pose proof (zlen_nonneg (enc_labels rs)).
    pose proof (zlen_nonneg (enc_labels ls)).
    rewrite <- app_assoc in *. cbn [app] in *. rewrite length_app in Hf.
    destruct l as [|c l]; [rewrite zlen_nil in Hl; lia|].
    destruct fuel as [|fuel]; [simpl in Hf; lia|]. cbn [DNSName_text_loop app].
    pose proof Hdot as Hdot'. apply not_elem_of_cons in Hdot' as [Hc _].
    rewrite (proj2 (Z.eqb_neq _ _)) by done.
    rewrite app_comm_cons, span_dot_app by done. unfold throw_if, s_maxDNSLabelLength, s_maxDNSNameLength.
    rewrite !u8_small by lia. rewrite !(proj2 (Z.ltb_ge _ _)) by lia.
    cbn [mbind result_bind tail]. change ([0] ++ c :: l) with (0 :: c :: l).
    rewrite insert_middle by (unfold zlen; lia).
    assert (enc_labels ls ++ zlen (c :: l) :: c :: l = enc_labels (ls ++ [c :: l])) as Hcat.
    { rewrite enc_labels_app, enc_labels_cons. by rewrite app_nil_r. }
    rewrite Hcat, IH; [by rewrite <- app_assoc|done|simpl in Hf; lia| |lia].
    rewrite <- Hcat, zlen_app, !zlen_cons. lia.
Qed.

Lemma DNSName_from_text_toString n ls :
  represents n ls ->
  DNSName_from_text (match ls with [] => [46] | _ => text_of ls [46] end) = Ok n.
Proof.
  intros Hr. destruct Hr as (Hs & Hv & Hle). destruct n as [s]. simpl in Hs. subst s.
  rewrite zlen_storage_of in Hle. unfold s_maxDNSNameLength in Hle.
  destruct ls as [|l ls]; [done|]. set (rs := l :: ls) in *.
  assert (exists c r, text_of rs [46] = c :: r /\ c <> 46 /\ c <> 0) as (c & r & Htext & Hc46 & Hc0).
  { inversion_clear Hv as [|?? [Hl _] _]. destruct l as [|p l]; [rewrite zlen_nil in Hl; lia|].
    destruct (escape_byte_head p) as (c & r & Hc & ? & ?). unfold text_of, esc_label, rs. simpl.
    rewrite Hc. by eexists _, _. }
  unfold DNSName_from_text. rewrite (bool_decide_eq_false_2 (text_of rs [46] = [])) by congruence.
  rewrite (bool_decide_eq_false_2 (text_of rs [46] = [46])) by congruence. simpl.
  case_bool_decide as Hesc.
  - unfold segmentDNSNameRaw. rewrite Htext. rewrite !(proj2 (Z.eqb_neq _ _)) by done.
    cbn [orb]. rewrite <- Htext.
    destruct (raw_run_text (mkRaw RawBegin [] 0 0 0) [] rs) as (m & Hm & (_ & Hret & _) & Hcs);
      [split_and!; by try left|done|].
    rewrite Hm. simpl. unfold raw_eof. rewrite Hcs by done. simpl. rewrite Hret. unfold throw_if, s_maxDNSNameLength.
    rewrite zlen_app. change (zlen [0]) with 1. rewrite (proj2 (Z.ltb_ge _ _)) by (simpl; lia). done.
  - rewrite (text_loop_labels [] rs) by (done || (rewrite ?zlen_nil; simpl; lia)). simpl.
    unfold throw_if, s_maxDNSNameLength. rewrite (proj2 (Z.ltb_ge _ _)) by lia. done.
Qed.
