(* ===== verification/NamesWire.v ===== *)
(** * The wire parser of names

    [DNSName::packetParser] and [parsePacketUncompressed] of
    [pdns/dnsname.cc]: reading a possibly compressed name out of a packet. *)

From S2P Require Import Prelude Chars Names NamesFacts.

#[local] Open Scope Z_scope.

(** ** Definitions *)

(** The two static limits of the class; both are settings of the programs. *)
Record name_limits : Type := mkLimits {
  s_maxPointersToPointers : Z;
  s_maxPointersPerName : Z;
}.

Definition default_limits : name_limits := mkLimits 4 10.

(** [UnsignedCharView::at]. *)
Definition view_at (view : bytes) (pos : Z) : result Z :=
  of_option (out_of_range "string_view::at") (zat view pos).

(** Not an exception of the source: the fuel of a loop ran out.  The theorems
    below show that it is never the outcome. *)
Definition out_of_fuel : exn := runtime_error "out of fuel".

(** The [do ... while] loop of [parsePacketUncompressed]: the position it stops
    at and the length of the labels read. *)
Fixpoint parsePacketUncompressed_loop (fuel : nat) (view : bytes) (pos : Z) (uncompress : bool)
    (existingSize neededSizeForFinalLabel totalLength : Z) : result (Z * Z) :=
  match fuel with
  | O => Throw out_of_fuel
  | S fuel' =>
      labellen ← view_at view pos;
      if labellen =? 0 then Ok (pos, totalLength)
      else if 192 <=? labellen then
        if negb uncompress
        then Throw (range_error "Found compressed label, instructed not to follow")
        else Ok (pos, totalLength)
      else
        let pos := pos + 1 in
        _ ← throw_if (negb (Z.land labellen 192 =? 0))
              (range_error "Found an invalid label length in qname (only one of the first two bits is set)");
        _ ← checkLabelLength labellen;
        _ ← throw_if (s_maxDNSNameLength <?
                      existingSize + totalLength + labellen + 1 + neededSizeForFinalLabel)
              (range_error "name too long to append");
        _ ← throw_if (zlen view <=? pos + labellen)
              (range_error "Found an invalid label length in qname");
        let pos := pos + labellen in
        let totalLength := totalLength + (1 + labellen) in
        if pos <? zlen view
        then parsePacketUncompressed_loop fuel' view pos uncompress existingSize
               neededSizeForFinalLabel totalLength
        else Ok (pos, totalLength)
  end.

(** The new storage and the position parsing stopped at. *)
Definition parsePacketUncompressed (view : bytes) (pos : Z) (uncompress : bool) (storage : bytes)
  : result (bytes * Z) :=
  let initialPos := pos in
  let existingSize := zlen storage in
  let neededSizeForFinalLabel := if existingSize =? 0 then 1 else 0 in
  '(pos, totalLength) ← parsePacketUncompressed_loop (S (length view)) view pos uncompress
                          existingSize neededSizeForFinalLabel 0;
  if negb (totalLength =? 0) then
    let existingSize := if 0 <? existingSize then existingSize - 1 else existingSize in
    _ ← throw_if (s_maxDNSNameLength <? existingSize + totalLength + 1)
          (range_error "name too long to append");
    Ok (ztake existingSize storage ++ zsub view initialPos totalLength ++ [0], pos)
  else Ok (storage, pos).

(** What the parser leaves behind: the storage, the number of bytes consumed,
    the type and class that follow the name when asked for, and what is left of
    the pointer budget. *)
Record parsed_name : Type := mkParsed {
  p_storage : bytes;
  p_consumed : Z;
  p_qtype : Z;
  p_qclass : Z;
  p_budget : option Z;
}.

Definition read_u16 (view : bytes) (want : bool) (pos : Z) (msg : string) : result Z :=
  if want then
    _ ← throw_if (zlen view <? pos + 2) (range_error msg);
    hi ← view_at view pos; lo ← view_at view (pos + 1); Ok (hi * 256 + lo)
  else Ok 0.

(** [uncompress] is [true] in every recursive call, as in the source.  The
    recursion is on targets of pointers, each before the position it is read
    from. *)
Fixpoint packetParser (lim : name_limits) (fuel : nat) (view : bytes) (offset : Z)
    (uncompress want_qtype want_qclass : bool) (depth minOffset pointerChainLength : Z)
    (pointerBudget : option Z) (storage : bytes) : result parsed_name :=
  match fuel with
  | O => Throw out_of_fuel
  | S fuel' =>
      _ ← throw_if (zlen view <=? offset) (range_error "Trying to read past the end of the buffer");
      _ ← throw_if (offset <? minOffset)
            (range_error "Trying to read before the beginning of the buffer");
      '(storage, pos) ← parsePacketUncompressed view offset uncompress storage;
      labellen ← view_at view pos;
      '(pointerChainLength, pointerBudget) ←
         (if (pos =? offset) && negb (labellen =? 0) then
            pointerBudget ← (match pointerBudget with
                             | None => Ok None
                             | Some b =>
                                 if b =? 0
                                 then Throw (range_error "Too many compression pointers processed in packet")
                                 else Ok (Some (b - 1))
                             end);
            _ ← throw_if (s_maxPointersToPointers lim <? pointerChainLength)
                  (range_error "Too many pointer to pointers during decompression");
            Ok (u16 (pointerChainLength + 1), pointerBudget)
          else Ok (0, pointerBudget));
      let pos := pos + 1 in
      '(storage, pointerBudget, pos) ←
         (if negb (labellen =? 0) && (pos <? zlen view) then
            _ ← throw_if (labellen <? 192) (range_error "Invalid label byte during decompression");
            _ ← throw_if (negb uncompress)
                  (range_error "Found compressed label, instructed not to follow");
            lo ← view_at view pos;
            let newpos := Z.shiftl (Z.land labellen 63) 8 + lo in
            _ ← throw_if (offset <=? newpos)
                  (range_error "Found a forward reference during label decompression");
            _ ← throw_if (newpos <? minOffset)
                  (range_error "Invalid label position during decompression");
            _ ← throw_if (s_maxPointersPerName lim <? depth + 1)
                  (range_error "Abort label decompression after too many redirects");
            r ← packetParser lim fuel' view newpos true false false (depth + 1) minOffset
                  pointerChainLength pointerBudget storage;
            Ok (p_storage r, p_budget r, pos + 1)
          else Ok (storage, pointerBudget, pos));
      let storage := if bool_decide (storage = []) then [0] else storage in
      let consumed := pos - offset in
      qtype ← read_u16 view want_qtype pos "Trying to read qtype past the end of the buffer";
      let pos := pos + 2 in
      qclass ← read_u16 view want_qclass pos "Trying to read qclass past the end of the buffer";
      Ok (mkParsed storage consumed qtype qclass pointerBudget)
  end.

(** The constructor [DNSName(pos, len, offset, uncompress, ...)].  Since every
    pointer goes strictly backwards, [offset + 1] levels are enough. *)
Definition DNSName_from_wire (lim : name_limits) (view : bytes) (offset : Z) (uncompress : bool)
    (want_qtype want_qclass : bool) (minOffset : Z) (pointerBudget : option Z)
  : result parsed_name :=
  _ ← throw_if (zlen view <=? offset) (range_error "Trying to read past the end of the buffer");
  packetParser lim (S (Z.to_nat offset)) view offset uncompress want_qtype want_qclass
    0 minOffset 0 pointerBudget [].

(** ** Compressed names on the wire

    [wire_name view p ls k e] is the reading of RFC 1035 4.1.4: from position
    [p] up to [e] of the packet there are labels, ended by the root label or by
    a pointer to an earlier position where the remaining labels are found in the
    same way; [k] pointers are followed in all. *)
Inductive wire_name (view : bytes) : Z -> list bytes -> nat -> Z -> Prop :=
| wire_root p ls rest :
    0 <= p -> valid_labels ls -> zdrop p view = enc_labels ls ++ 0 :: rest ->
    wire_name view p ls 0 (p + zlen (enc_labels ls) + 1)
| wire_pointer p ls hi lo rest more k e :
    0 <= p -> valid_labels ls -> 0 <= hi < 64 -> 0 <= lo < 256 ->
    zdrop p view = enc_labels ls ++ 192 + hi :: lo :: rest ->
    hi * 256 + lo < p ->
    wire_name view (hi * 256 + lo) more k e ->
    wire_name view p (ls ++ more) (S k) (p + zlen (enc_labels ls) + 2).

(** What the code takes for a name besides, though no reading of RFC 1035: the
    packet ends after the first byte of a pointer, which then counts as the end
    of the name. *)
Inductive cut_name (view : bytes) : Z -> list bytes -> nat -> Z -> Prop :=
| cut_here p ls b :
    0 <= p -> valid_labels ls -> 192 <= b < 256 -> zdrop p view = enc_labels ls ++ [b] ->
    cut_name view p ls 0 (p + zlen (enc_labels ls) + 1)
| cut_pointer p ls hi lo rest more k e :
    0 <= p -> valid_labels ls -> 0 <= hi < 64 -> 0 <= lo < 256 ->
    zdrop p view = enc_labels ls ++ 192 + hi :: lo :: rest ->
    hi * 256 + lo < p ->
    cut_name view (hi * 256 + lo) more k e ->
    cut_name view p (ls ++ more) (S k) (p + zlen (enc_labels ls) + 2).

(** The readings of RFC 1035 within the limits of the code: none of the pointers
    points before [low], and nowhere do more than [most] pointers to pointers
    follow a pointer at once.  [run] is the number of pointers the name starts
    with before any label, [cost] the number of all pointers that no label
    precedes where they stand, which the budget of a packet is charged for. *)
Inductive chained_name (most low : Z) (view : bytes) : Z -> list bytes -> nat -> nat -> nat -> Z -> Prop :=
| chained_root p ls rest :
    low <= p -> valid_labels ls -> zdrop p view = enc_labels ls ++ 0 :: rest ->
    chained_name most low view p ls 0 0 0 (p + zlen (enc_labels ls) + 1)
| chained_labels p ls hi lo rest more k run cost e :
    low <= p -> valid_labels ls -> ls <> [] -> 0 <= hi < 64 -> 0 <= lo < 256 ->
    zdrop p view = enc_labels ls ++ 192 + hi :: lo :: rest ->
    hi * 256 + lo < p -> Z.of_nat run <= most + 1 ->
    chained_name most low view (hi * 256 + lo) more k run cost e ->
    chained_name most low view p (ls ++ more) (S k) 0 cost (p + zlen (enc_labels ls) + 2)
| chained_pointer p hi lo rest more k run cost e :
    low <= p -> 0 <= hi < 64 -> 0 <= lo < 256 ->
    zdrop p view = 192 + hi :: lo :: rest ->
    hi * 256 + lo < p ->
    chained_name most low view (hi * 256 + lo) more k run cost e ->
    chained_name most low view p more (S k) (S run) (S cost) (p + 2).

(** The names a careful writer produces: no pointer points at a pointer, none
    points before [low], and none is cut short. *)
Inductive written_name (low : Z) (view : bytes) : Z -> list bytes -> nat -> Z -> Prop :=
| written_root p ls rest :
    low <= p -> valid_labels ls -> zdrop p view = enc_labels ls ++ 0 :: rest ->
    written_name low view p ls 0 (p + zlen (enc_labels ls) + 1)
| written_pointer p ls hi lo rest more k e b :
    low <= p -> valid_labels ls -> 0 <= hi < 64 -> 0 <= lo < 256 ->
    zdrop p view = enc_labels ls ++ 192 + hi :: lo :: rest ->
    hi * 256 + lo < p -> zat view (hi * 256 + lo) = Some b -> b < 192 ->
    written_name low view (hi * 256 + lo) more k e ->
    written_name low view p (ls ++ more) (S k) (p + zlen (enc_labels ls) + 2).

Lemma written_name_valid low view p ls k e : written_name low view p ls k e -> valid_labels ls.
Proof. induction 1; [done|by apply Forall_app]. Qed.

Lemma chained_name_wire most low view p ls k run cost e :
  0 <= low -> chained_name most low view p ls k run cost e -> wire_name view p ls k e.
Proof.
  intros Hlow. induction 1 as [|p ls hi lo rest more k run cost e|p hi lo rest more k run cost e Hp Hhi Hlo Hd Hlt _ IH].
  - eapply wire_root; [lia|done..].
  - eapply wire_pointer; [lia|done..].
  - replace (p + 2) with (p + zlen (enc_labels []) + 2) by (change (zlen (enc_labels [])) with 0; lia).
    by apply (wire_pointer view p [] hi lo rest more k e); [lia|constructor|..].
Qed.

Lemma wire_name_end view p ls k e : wire_name view p ls k e -> p < e.
Proof. destruct 1; pose proof (zlen_nonneg (enc_labels ls)); lia. Qed.

Lemma cut_name_end view p ls k e : cut_name view p ls k e -> p < e.
Proof. destruct 1; pose proof (zlen_nonneg (enc_labels ls)); lia. Qed.

(** A name is only cut by a packet that ends in the first byte of a pointer. *)
Lemma cut_name_last view p ls k e :
  cut_name view p ls k e -> exists v b, view = v ++ [b] /\ 192 <= b < 256.
Proof.
  induction 1 as [p ls b Hp Hv Hb Hd|]; [|done]. exists (ztake p view ++ enc_labels ls), b.
  split; [|done]. rewrite <- app_assoc, <- Hd. symmetry. apply ztake_zdrop.
Qed.

Lemma chained_name_low most low view p ls k run cost e :
  chained_name most low view p ls k run cost e -> low <= p.
Proof. by destruct 1. Qed.

(** ** The uncompressed part *)

Lemma view_at_Ok view pos b : view_at view pos = Ok b <-> zat view pos = Some b.
Proof. unfold view_at. destruct (zat view pos); simpl; naive_solver. Qed.

Lemma zdrop_head (view : bytes) pos b rest :
  0 <= pos -> zdrop pos view = b :: rest ->
  zat view pos = Some b /\ zdrop (pos + 1) view = rest /\ pos < zlen view.
Proof.
  intros Hp E. pose proof (zat_zdrop view pos 0 Hp ltac:(lia)) as Hz.
  rewrite E, Z.add_0_r, zat_0 in Hz. split_and!; [done| |].
  - rewrite <- (zdrop_zdrop 1 pos), E by lia. done.
  - symmetry in Hz. apply zat_Some_range in Hz. lia.
Qed.

Lemma zdrop_prefix (view : bytes) pos (a rest : bytes) :
  0 <= pos -> zdrop pos view = a ++ rest -> zdrop (pos + zlen a) view = rest.
Proof.
  intros Hp E. pose proof (zlen_nonneg a).
  rewrite <- (zdrop_zdrop (zlen a) pos), E by lia. by apply zdrop_app.
Qed.

Lemma zdrop_len (view : bytes) pos (rest : bytes) :
  0 <= pos -> rest <> [] -> zdrop pos view = rest -> zlen view = pos + zlen rest.
Proof.
  intros Hp Hne E. pose proof (zlen_zdrop pos view Hp) as Hl. rewrite E in Hl.
  assert (0 < zlen rest); [|lia]. destruct rest; [done|].
  rewrite zlen_cons. pose proof (zlen_nonneg rest). lia.
Qed.

Lemma land_192 b : 0 <= b < 192 -> Z.land b 192 = 0 -> b < 64.
Proof.
  intros Hb. assert (Forall (fun k => Z.land (Z.of_nat k) 192 = 0 -> (k < 64)%nat) (seq 0 192)) as Hall
    by by_decide.
  rewrite Forall_seq in Hall. specialize (Hall (Z.to_nat b)).
  rewrite Z2Nat.id in Hall by lia. lia.
Qed.

Lemma land_192_small b : 0 <= b < 64 -> Z.land b 192 = 0.
Proof.
  intros Hb. assert (Forall (fun k => Z.land (Z.of_nat k) 192 = 0) (seq 0 64)) as Hall by by_decide.
  rewrite Forall_seq in Hall. specialize (Hall (Z.to_nat b)).
  rewrite Z2Nat.id in Hall by lia. apply Hall. lia.
Qed.

Lemma pointer_offset b lo :
  192 <= b < 256 -> Z.shiftl (Z.land b 63) 8 + lo = (b - 192) * 256 + lo.
Proof.
  intros Hb. assert (Forall (fun k => Z.shiftl (Z.land (Z.of_nat k) 63) 8 = (Z.of_nat k - 192) * 256)
    (seq 192 64)) as Hall by by_decide.
  rewrite Forall_seq in Hall. specialize (Hall (Z.to_nat b)).
  rewrite Z2Nat.id in Hall by lia. rewrite Hall; lia.
Qed.

Lemma uncompressed_loop_sound fuel view pos unc ex need tot pos' tot' :
  bytes_ok view -> 0 <= pos ->
  parsePacketUncompressed_loop fuel view pos unc ex need tot = Ok (pos', tot') ->
  exists ls b rest,
    valid_labels ls /\ zdrop pos view = enc_labels ls ++ b :: rest
    /\ pos' = pos + zlen (enc_labels ls) /\ tot' = tot + zlen (enc_labels ls)
    /\ (b = 0 \/ 192 <= b < 256 /\ unc = true)
    /\ (ls <> [] -> ex + tot' + need <= 255).
Proof.
  intros Hok. revert pos tot. induction fuel as [|fuel IH]; intros pos tot Hpos H; [done|].
  cbn [parsePacketUncompressed_loop] in H. bind_inv H. rename a into b. apply view_at_Ok in E.
  pose proof (bytes_ok_zat _ _ _ Hok E) as Hb. unfold is_byte in Hb.
  pose proof (zdrop_split _ _ _ E) as Hd.
  destruct (Z.eqb_spec b 0) as [->|Hb0].
  { injection H as <- <-. exists [], 0, (zdrop (pos + 1) view).
    change (zlen (enc_labels [])) with 0.
    split_and!; [constructor|done|lia|lia|by left|done]. }
  destruct (Z.leb_spec 192 b) as [Hb1|Hb1].
  { destruct unc; [|done]. injection H as <- <-. exists [], b, (zdrop (pos + 1) view).
    change (zlen (enc_labels [])) with 0.
    split_and!; [constructor|done|lia|lia|right; split; [lia|done]|done]. }
  cbv zeta in H. bind_inv H. apply throw_if_Ok, negb_false_iff, Z.eqb_eq in E0.
  apply land_192 in E0; [|lia]. bind_inv H. destruct a0. apply checkLabelLength_inv in E1; [|lia].
  bind_inv H. apply throw_if_Ok, Z.ltb_ge in E2. bind_inv H. apply throw_if_Ok, Z.leb_gt in E3.
  unfold s_maxDNSNameLength in E2.
  rewrite (proj2 (Z.ltb_lt _ _)) in H by lia.
  destruct (IH (pos + 1 + b) (tot + (1 + b)) ltac:(lia) H) as (ls & c & rest & Hv & Hd' & -> & -> & Hc & Hlen).
  assert (zlen (ztake b (zdrop (pos + 1) view)) = b) as Hlab.
  { rewrite zlen_ztake, zlen_zdrop by lia. lia. }
  exists (ztake b (zdrop (pos + 1) view) :: ls), c, rest.
  rewrite enc_labels_cons, zlen_cons, zlen_app, Hlab. split_and!; try done; try lia.
  - constructor; [|done]. split; [lia|]. by apply bytes_ok_ztake, bytes_ok_zdrop.
  - rewrite Hd. cbn [app]. f_equal. rewrite <- app_assoc, <- Hd', <- (zdrop_zdrop b (pos + 1)) by lia.
    symmetry. apply ztake_zdrop.
  - intros _. destruct (decide (ls = [])) as [->|Hne].
    + change (zlen (enc_labels [])) with 0. lia.
    + specialize (Hlen Hne). lia.
Qed.

Lemma uncompressed_loop_complete ls fuel view pos unc ex need tot b rest :
  0 <= pos -> valid_labels ls -> zdrop pos view = enc_labels ls ++ b :: rest ->
  b = 0 \/ 192 <= b < 256 /\ unc = true -> ex + tot + zlen (enc_labels ls) + need <= 255 ->
  (length ls < fuel)%nat ->
  parsePacketUncompressed_loop fuel view pos unc ex need tot
  = Ok (pos + zlen (enc_labels ls), tot + zlen (enc_labels ls)).
Proof.
  intros Hpos Hv. revert fuel pos tot Hpos. induction Hv as [|l ls Hl Hv IH];
    intros fuel pos tot Hpos Hd Hb Hlen Hfuel; (destruct fuel as [|fuel]; [simpl in Hfuel; lia|]).
  - destruct (zdrop_head _ _ _ _ Hpos Hd) as (Hat & _ & _).
    cbn [parsePacketUncompressed_loop]. rewrite (proj2 (view_at_Ok _ _ _) Hat).
    cbn [mbind result_bind]. change (zlen (enc_labels [])) with 0. rewrite !Z.add_0_r.
    destruct Hb as [->|[Hb ->]]; [done|].
    rewrite (proj2 (Z.eqb_neq _ _)), (proj2 (Z.leb_le _ _)) by lia. done.
  - rewrite enc_labels_cons in Hd. cbn [app] in Hd. rewrite <- app_assoc in Hd.
    destruct (zdrop_head _ _ _ _ Hpos Hd) as (Hat & Hd1 & Hlt).
    destruct Hl as [Hl Hlb]. pose proof (zlen_nonneg (enc_labels ls)).
    pose proof (zdrop_prefix view (pos + 1) _ _ ltac:(lia) Hd1) as Hd2.
    assert (zlen view = (pos + 1 + zlen l) + zlen (enc_labels ls ++ b :: rest)) as Hview.
    { apply zdrop_len; [lia| |done]. by destruct (enc_labels ls). }
    rewrite zlen_app, zlen_cons in Hview. pose proof (zlen_nonneg rest).
    rewrite zlen_enc_labels_cons in Hlen |- *.
    cbn [parsePacketUncompressed_loop]. rewrite (proj2 (view_at_Ok _ _ _) Hat).
    cbn [mbind result_bind]. rewrite (proj2 (Z.eqb_neq _ _)), (proj2 (Z.leb_gt _ _)) by lia.
    cbv zeta. rewrite land_192_small by lia. cbn [Z.eqb negb throw_if mbind result_bind].
    rewrite checkLabelLength_ok by lia. cbn [mbind result_bind].
    unfold throw_if, s_maxDNSNameLength.
    rewrite (proj2 (Z.ltb_ge 255 _)), (proj2 (Z.leb_gt (zlen view) _)) by lia.
    cbn [mbind result_bind]. rewrite (proj2 (Z.ltb_lt _ (zlen view))) by lia.
    rewrite IH; [f_equal; f_equal; lia|lia|done|done|lia|simpl in Hfuel; lia].
Qed.

Lemma bind_not_fuel {A B} (m : result A) (f : A -> result B) :
  m <> Throw out_of_fuel -> (forall a, m = Ok a -> f a <> Throw out_of_fuel) ->
  (m ≫= f) <> Throw out_of_fuel.
Proof. destruct m; simpl; [eauto|congruence]. Qed.

Lemma throw_if_not_fuel b msg : throw_if b (range_error msg) <> Throw out_of_fuel.
Proof. by destruct b. Qed.

Lemma view_at_not_fuel v p : view_at v p <> Throw out_of_fuel.
Proof. unfold view_at. by destruct (zat v p). Qed.

Lemma checkLabelLength_not_fuel k : checkLabelLength k <> Throw out_of_fuel.
Proof. apply bind_not_fuel; [apply throw_if_not_fuel|intros _ _; apply throw_if_not_fuel]. Qed.

Create HintDb fuel.
#[export] Hint Resolve throw_if_not_fuel view_at_not_fuel checkLabelLength_not_fuel : fuel.

Lemma uncompressed_loop_fuel fuel view pos unc ex need tot :
  0 <= pos -> (Z.to_nat (zlen view - pos) < fuel)%nat -> bytes_ok view ->
  parsePacketUncompressed_loop fuel view pos unc ex need tot <> Throw out_of_fuel.
Proof.
  intros Hpos Hf Hok. revert pos tot Hpos Hf. induction fuel as [|fuel IH]; intros pos tot Hpos Hf; [lia|].
  cbn [parsePacketUncompressed_loop]. apply bind_not_fuel; [auto with fuel|].
  intros b Hb%view_at_Ok. pose proof (zat_Some_range _ _ _ Hb).
  pose proof (bytes_ok_zat _ _ _ Hok Hb) as Hbb. unfold is_byte in Hbb.
  case_match; [done|]. case_match; [by case_match|]. cbv zeta.
  repeat (apply bind_not_fuel; [auto with fuel|intros _ _]).
  case_match; [|done]. apply IH; lia.
Qed.

(** The storage while a name is being read: unset until the first label. *)
Definition reading (s : bytes) (acc : list bytes) : Prop :=
  (s = [] /\ acc = []) \/ represents (mkDNSName s) acc.

Lemma reading_needed s acc :
  reading s acc ->
  zlen s + (if zlen s =? 0 then 1 else 0) = zlen (storage_of acc) /\ valid_labels acc
  /\ zlen (storage_of acc) <= 255
  /\ ztake (if 0 <? zlen s then zlen s - 1 else zlen s) s = enc_labels acc
  /\ (if 0 <? zlen s then zlen s - 1 else zlen s) = zlen (enc_labels acc).
Proof.
  intros [[-> ->]|(Hs & Hv & Hle)].
  - split_and!; try done. constructor.
  - simpl in Hs. subst s. pose proof (zlen_storage_pos acc).
    rewrite (proj2 (Z.eqb_neq _ _)), (proj2 (Z.ltb_lt _ _)) by lia.
    split_and!; [lia|done|done|apply storage_of_init|]. rewrite zlen_storage_of. lia.
Qed.

Lemma parsePacketUncompressed_complete view pos unc s acc ls b rest :
  0 <= pos -> reading s acc -> valid_labels ls ->
  zdrop pos view = enc_labels ls ++ b :: rest -> b = 0 \/ 192 <= b < 256 /\ unc = true ->
  zlen (storage_of (acc ++ ls)) <= 255 ->
  exists s', parsePacketUncompressed view pos unc s = Ok (s', pos + zlen (enc_labels ls))
             /\ reading s' (acc ++ ls).
Proof.
  intros Hpos Hr Hv Hd Hb Hlen. destruct (reading_needed _ _ Hr) as (Hn & Hva & _ & Htake & Hex).
  rewrite zlen_storage_of, enc_labels_app, zlen_app in Hlen. rewrite zlen_storage_of in Hn.
  unfold parsePacketUncompressed. rewrite (uncompressed_loop_complete ls _ _ _ _ _ _ _ b rest);
    [|done..|lia|].
  2: { apply (f_equal length) in Hd. unfold zdrop in Hd. rewrite length_drop, length_app in Hd.
       simpl in Hd. enough (length ls <= length (enc_labels ls))%nat by lia. clear -Hv.
       induction Hv as [|l ls Hl Hv IH]; [done|]. rewrite enc_labels_cons. simpl.
       rewrite length_app. lia. }
  cbn [mbind result_bind]. rewrite Z.add_0_l. destruct ls as [|l ls].
  - change (zlen (enc_labels [])) with 0. simpl. rewrite Z.add_0_r, app_nil_r. eauto.
  - destruct (Z.eqb_spec (zlen (enc_labels (l :: ls))) 0) as [E|E].
    { exfalso. rewrite zlen_enc_labels_cons in E. pose proof (zlen_nonneg l).
      pose proof (zlen_nonneg (enc_labels ls)). lia. }
    cbn [negb]. cbv zeta. rewrite Htake, Hex. unfold throw_if, s_maxDNSNameLength.
    rewrite (proj2 (Z.ltb_ge _ _)) by lia. cbn [mbind result_bind]. eexists. split; [done|]. right.
    split_and!; simpl.
    + unfold zsub. rewrite Hd, ztake_app by done. unfold storage_of.
      by rewrite enc_labels_app, <- app_assoc.
    + by apply Forall_app.
    + unfold s_maxDNSNameLength. rewrite zlen_storage_of, enc_labels_app, zlen_app. lia.
Qed.

Lemma parsePacketUncompressed_sound view pos unc s acc s' pos' :
  bytes_ok view -> 0 <= pos -> reading s acc ->
  parsePacketUncompressed view pos unc s = Ok (s', pos') ->
  exists ls b rest, valid_labels ls /\ zdrop pos view = enc_labels ls ++ b :: rest
    /\ pos' = pos + zlen (enc_labels ls) /\ (b = 0 \/ 192 <= b < 256 /\ unc = true)
    /\ reading s' (acc ++ ls).
Proof.
  intros Hok Hpos Hr H. pose proof H as H0. unfold parsePacketUncompressed in H. bind_inv H.
  destruct a as [p t]. apply uncompressed_loop_sound in E as (ls & b & rest & Hv & Hd & -> & -> & Hb & Hlen);
    [|done..].
  destruct (reading_needed _ _ Hr) as (Hn & _ & Hle & _ & Hex).
  assert (zlen (storage_of (acc ++ ls)) <= 255) as Hlen'.
  { destruct (decide (ls = [])) as [->|Hne]; [by rewrite app_nil_r|]. specialize (Hlen Hne).
    rewrite storage_of_app, zlen_app, zlen_storage_of. rewrite zlen_storage_of in Hn. lia. }
  destruct (parsePacketUncompressed_complete view pos unc s acc ls b rest) as (s2 & Heq & Hr2); try done.
  rewrite Heq in H0. injection H0 as <- <-. exists ls, b, rest. done.
Qed.

(** ** The parser *)

Lemma read_u16_not_fuel v w p msg : read_u16 v w p msg <> Throw out_of_fuel.
Proof.
  unfold read_u16. destruct w; [|done].
  repeat (apply bind_not_fuel; [auto with fuel|intros ? _]). done.
Qed.

#[export] Hint Resolve read_u16_not_fuel : fuel.

Lemma parsePacketUncompressed_fuel view pos unc s :
  0 <= pos -> bytes_ok view -> parsePacketUncompressed view pos unc s <> Throw out_of_fuel.
Proof.
  intros. apply bind_not_fuel.
  - apply uncompressed_loop_fuel; [done| |done]. unfold zlen. lia.
  - intros [p t] _. case_match; [|done]. apply bind_not_fuel; [auto with fuel|done].
Qed.

Lemma pointer_target_nonneg b lo : 0 <= b -> 0 <= lo -> 0 <= Z.shiftl (Z.land b 63) 8 + lo.
Proof.
  intros. enough (0 <= Z.shiftl (Z.land b 63) 8) by lia.
  apply Z.shiftl_nonneg, Z.land_nonneg. by left.
Qed.

Lemma packetParser_fuel lim fuel view offset unc wt wc depth low chain budget s :
  0 <= offset -> bytes_ok view -> (Z.to_nat offset < fuel)%nat ->
  packetParser lim fuel view offset unc wt wc depth low chain budget s <> Throw out_of_fuel.
Proof.
  revert offset unc wt wc depth chain budget s.
  induction fuel as [|fuel IH]; intros * Hoff Hok Hf; [lia|].
  cbn [packetParser]. do 2 (apply bind_not_fuel; [auto with fuel|intros _ _]).
  apply bind_not_fuel; [by apply parsePacketUncompressed_fuel|intros [s' pos] _].
  apply bind_not_fuel; [auto with fuel|intros b Hb%view_at_Ok].
  pose proof (bytes_ok_zat _ _ _ Hok Hb) as Hbb. unfold is_byte in Hbb.
  apply bind_not_fuel.
  { case_match; [|done]. apply bind_not_fuel; [by repeat case_match|intros ? _].
    apply bind_not_fuel; [auto with fuel|done]. }
  intros [ch bud] _. cbv zeta. apply bind_not_fuel.
  - case_match; [|done]. do 2 (apply bind_not_fuel; [auto with fuel|intros _ _]).
    apply bind_not_fuel; [auto with fuel|intros lo Hlo%view_at_Ok].
    pose proof (bytes_ok_zat _ _ _ Hok Hlo) as Hlb. unfold is_byte in Hlb.
    apply bind_not_fuel; [auto with fuel|intros ? Hlt%throw_if_Ok%Z.leb_gt].
    do 2 (apply bind_not_fuel; [auto with fuel|intros _ _]).
    pose proof (pointer_target_nonneg b lo ltac:(lia) ltac:(lia)).
    apply bind_not_fuel; [|done]. apply IH; [done|done|lia].
  - intros [[s2 bud2] pos2] _. do 2 (apply bind_not_fuel; [auto with fuel|intros ? _]). done.
Qed.

(** The last step of the parser: an unset storage is the root. *)
Lemma reading_final s acc :
  reading s acc ->
  represents (mkDNSName (if bool_decide (s = []) then [0] else s)) acc.
Proof.
  intros [[-> ->]|Hr]; [by_decide|]. rewrite bool_decide_eq_false_2; [done|].
  destruct Hr as (Hs & _). simpl in Hs. rewrite Hs. apply storage_of_nonempty.
Qed.

Lemma reading_represents s acc : represents (mkDNSName s) acc -> reading s acc.
Proof. by right. Qed.

Lemma packetParser_sound lim fuel view offset unc wt wc depth low chain budget s acc r :
  0 <= offset -> bytes_ok view -> reading s acc ->
  packetParser lim fuel view offset unc wt wc depth low chain budget s = Ok r ->
  exists ls k, (wire_name view offset ls k (offset + p_consumed r)
                \/ cut_name view offset ls k (offset + p_consumed r))
    /\ represents (mkDNSName (p_storage r)) (acc ++ ls)
    /\ offset + p_consumed r <= zlen view
    /\ (k = 0%nat \/ depth + Z.of_nat k <= s_maxPointersPerName lim).
Proof.
  revert offset unc wt wc depth chain budget s acc r.
  induction fuel as [|fuel IH]; intros * Hoff Hok Hr H; [done|].
  cbn [packetParser] in H. do 2 bind_inv H. bind_inv H. destruct a1 as [s' pos].
  apply throw_if_Ok, Z.leb_gt in E.
  apply (parsePacketUncompressed_sound _ _ _ _ acc) in E1
    as (ls & b & rest & Hv & Hd & -> & Hb & Hr'); [|done..].
  pose proof (zlen_nonneg (enc_labels ls)).
  pose proof (zdrop_prefix view _ _ _ Hoff Hd) as Hd'.
  destruct (zdrop_head view (offset + zlen (enc_labels ls)) b rest ltac:(lia) Hd') as (Hat & Hd1 & Hlt).
  bind_inv H. rewrite (proj2 (view_at_Ok _ _ _) Hat) in E1. injection E1 as <-.
  bind_inv H. destruct a1 as [ch bud]. cbv zeta in H. bind_inv H. destruct a1 as [[s2 bud2] pos2].
  assert (exists more k, (wire_name view offset (ls ++ more) k pos2 \/ cut_name view offset (ls ++ more) k pos2)
    /\ reading s2 (acc ++ ls ++ more) /\ pos2 <= zlen view
    /\ (k = 0%nat \/ depth + Z.of_nat k <= s_maxPointersPerName lim)) as (more & k & Hw & Hr2 & Hp2 & Hk).
  2: { do 2 bind_inv H. injection H as <-. exists (ls ++ more), k. simpl.
       replace (offset + (pos2 - offset)) with pos2 by lia.
       split_and!; [done|by apply reading_final|done|done]. }
  clear H. destruct Hb as [->|[Hb ->]].
  { (* the root label *)
    simpl in E2. injection E2 as <- <- <-. exists [], 0%nat. rewrite !app_nil_r.
    split_and!; [left; by eapply wire_root|done|lia|by left]. }
  rewrite (proj2 (Z.eqb_neq b 0)) in E2 by lia. cbn [negb andb] in E2.
  destruct (Z.ltb_spec (offset + zlen (enc_labels ls) + 1) (zlen view)) as [Hin|Hin]; cbn [andb] in E2.
  - (* a pointer *)
    bind_inv E2. cbn [negb throw_if mbind result_bind] in E2. bind_inv E2. rename a2 into lo.
    apply view_at_Ok in E4. pose proof (bytes_ok_zat _ _ _ Hok E4) as Hlo. unfold is_byte in Hlo.
    rewrite pointer_offset in E2 by done.
    bind_inv E2. apply throw_if_Ok, Z.leb_gt in E5. bind_inv E2. bind_inv E2.
    apply throw_if_Ok, Z.ltb_ge in E7. bind_inv E2. injection E2 as <- <- <-.
    apply (IH _ _ _ _ _ _ _ _ (acc ++ ls)) in E8 as (more & k & Hw & Hr2 & _ & Hk); [|lia|done|done].
    exists more, (S k). rewrite <- app_assoc in Hr2. split_and!.
    + replace (offset + zlen (enc_labels ls) + 1 + 1) with (offset + zlen (enc_labels ls) + 2) by lia.
      apply zdrop_split in E4. rewrite Hd1 in E4. subst rest.
      replace b with (192 + (b - 192)) in Hd by lia.
      destruct Hw as [Hw|Hw]; [left; by eapply (wire_pointer _ _ _ (b - 192) lo); try done; lia|].
      right. by eapply (cut_pointer _ _ _ (b - 192) lo); try done; lia.
    + by apply reading_represents.
    + lia.
    + right. destruct Hk as [->|Hk]; lia.
  - (* the packet ends in the middle of the pointer *)
    injection E2 as <- <- <-. exists [], 0%nat. rewrite !app_nil_r.
    assert (rest = []) as ->. { rewrite <- Hd1. apply zdrop_all. lia. }
    split_and!; [right; by eapply cut_here|done|lia|by left].
Qed.

(** A budget pays for a number of pointers. *)
Definition can_pay (cost : nat) (budget : option Z) : Prop :=
  match budget with None => True | Some b => Z.of_nat cost <= b end.

Definition pay (cost : nat) : option Z -> option Z := option_map (fun b => b - Z.of_nat cost).

Lemma pay_0 budget : pay 0 budget = budget.
Proof. destruct budget; simpl; [f_equal; lia|done]. Qed.

Lemma pay_S cost budget : pay cost (option_map Z.pred budget) = pay (S cost) budget.
Proof. destruct budget; simpl; [f_equal; lia|done]. Qed.

Lemma can_pay_S cost budget : can_pay (S cost) budget -> can_pay cost (option_map Z.pred budget).
Proof. destruct budget; simpl; [lia|done]. Qed.

Lemma u16_le x : 0 <= x -> u16 x <= x.
Proof. intros. apply Z.mod_le; lia. Qed.

Lemma zlen_enc_labels_pos ls : valid_labels ls -> ls <> [] -> 0 < zlen (enc_labels ls).
Proof.
  intros Hv Hne. destruct ls as [|l ls]; [done|].
  rewrite enc_labels_cons, zlen_cons, zlen_app. pose proof (zlen_nonneg l). pose proof (zlen_nonneg (enc_labels ls)). lia.
Qed.

(** The entry of the parser: the checks on the position pass, the labels up to
    the byte [b] that ends them are read. *)
Lemma packetParser_step lim fuel view p unc depth low chain budget s acc ls b rest :
  low <= p -> 0 <= low -> valid_labels ls -> zdrop p view = enc_labels ls ++ b :: rest ->
  (b = 0 \/ 192 <= b < 256 /\ unc = true) -> reading s acc -> zlen (storage_of (acc ++ ls)) <= 255 ->
  exists s', reading s' (acc ++ ls) /\
  packetParser lim (S fuel) view p unc false false depth low chain budget s
  = ('(ch, bud) ← (if (p + zlen (enc_labels ls) =? p) && negb (b =? 0) then
                     bud ← (match budget with
                            | None => Ok None
                            | Some x => if x =? 0
                                then Throw (range_error "Too many compression pointers processed in packet")
                                else Ok (Some (x - 1))
                            end);
                  _ ← throw_if (s_maxPointersToPointers lim <? chain)
                           (range_error "Too many pointer to pointers during decompression");
                     Ok (u16 (chain + 1), bud)
                   else Ok (0, budget));
     '(s2, bud, pos) ← (if negb (b =? 0) && (p + zlen (enc_labels ls) + 1 <? zlen view) then
         lo ← view_at view (p + zlen (enc_labels ls) + 1);
         let newpos := Z.shiftl (Z.land b 63) 8 + lo in
         _ ← throw_if (p <=? newpos)
                  (range_error "Found a forward reference during label decompression");
         _ ← throw_if (newpos <? low)
                  (range_error "Invalid label position during decompression");
         _ ← throw_if (s_maxPointersPerName lim <? depth + 1)
                  (range_error "Abort label decompression after too many redirects");
         r ← packetParser lim fuel view newpos true false false (depth + 1) low ch bud s';
         Ok (p_storage r, p_budget r, p + zlen (enc_labels ls) + 1 + 1)
          else Ok (s', bud, p + zlen (enc_labels ls) + 1));
     Ok (mkParsed (if bool_decide (s2 = []) then [0] else s2) (pos - p) 0 0 bud)).
Proof.
  intros Hp Hlow Hv Hd Hb Hr Hlen. pose proof (zlen_nonneg (enc_labels ls)).
  pose proof (zdrop_prefix view p _ _ ltac:(lia) Hd) as Hd'.
  destruct (zdrop_head view (p + zlen (enc_labels ls)) b rest ltac:(lia) Hd') as (Hat & _ & Hin).
  destruct (parsePacketUncompressed_complete view p unc s acc ls b rest) as (s' & Hpu & Hr'); [lia|done..|].
  exists s'. split; [done|]. cbn [packetParser]. unfold throw_if at 1 2.
  rewrite (proj2 (Z.leb_gt _ _)), (proj2 (Z.ltb_ge p low)) by lia. cbn [mbind result_bind].
  rewrite Hpu. cbn [mbind result_bind]. rewrite (proj2 (view_at_Ok _ _ _) Hat). cbn [mbind result_bind].
  destruct Hb as [->|[Hb ->]]; [done|]. rewrite (proj2 (Z.ltb_ge b 192)) by lia. done.
Qed.

Lemma packetParser_complete lim fuel view p ls k run cost e depth low chain budget unc s acc :
  chained_name (s_maxPointersToPointers lim) low view p ls k run cost e ->
  0 <= low -> depth + Z.of_nat k <= s_maxPointersPerName lim ->
  reading s acc -> zlen (storage_of (acc ++ ls)) <= 255 -> (Z.to_nat p < fuel)%nat ->
  unc = true \/ k = 0%nat -> can_pay cost budget ->
  0 <= chain -> chain + Z.of_nat run <= s_maxPointersToPointers lim + 1 \/ run = 0%nat ->
  packetParser lim fuel view p unc false false depth low chain budget s
    = Ok (mkParsed (storage_of (acc ++ ls)) (e - p) 0 0 (pay cost budget)).
Proof.
  intros Hw Hlow. revert fuel depth chain budget unc s acc.
  induction Hw as [p ls rest Hp Hv Hd|p ls hi lo rest more k run cost e Hp Hv Hne Hhi Hlo Hd Hlt Hrun Hw IH
                  |p hi lo rest more k run cost e Hp Hhi Hlo Hd Hlt Hw IH];
    intros fuel depth chain budget unc s acc Hk Hr Hlen Hf Hunc Hpay Hc0 Hch;
    (destruct fuel as [|fuel]; [lia|]).
  - destruct (packetParser_step lim fuel view p unc depth low chain budget s acc ls 0 rest) as (s' & Hr' & ->);
      [done..|by left|done|done|].
    cbn [Z.eqb negb andb]. rewrite andb_false_r. cbn [mbind result_bind].
    destruct (reading_final _ _ Hr') as (Hs & _). simpl in Hs. by rewrite Hs, pay_0.
  - destruct Hunc as [->|?]; [|done]. pose proof (zlen_enc_labels_pos ls Hv Hne).
    pose proof (chained_name_low _ _ _ _ _ _ _ _ _ Hw).
    pose proof (zdrop_prefix view p _ _ ltac:(lia) Hd) as Hd'.
    destruct (zdrop_head view (p + zlen (enc_labels ls)) _ _ ltac:(lia) Hd') as (_ & Hd2 & _).
    destruct (zdrop_head view (p + zlen (enc_labels ls) + 1) _ _ ltac:(lia) Hd2) as (Hat3 & _ & Hin).
    destruct (packetParser_step lim fuel view p true depth low chain budget s acc ls (192 + hi) (lo :: rest))
      as (s' & Hr' & ->); [done..|right; split; [lia|done]|done| |].
    { rewrite app_assoc, storage_of_app, zlen_app, (zlen_storage_of more) in Hlen.
      rewrite zlen_storage_of. pose proof (zlen_nonneg (enc_labels more)). lia. }
    rewrite (proj2 (Z.eqb_neq _ p)) by lia. rewrite (proj2 (Z.eqb_neq (192 + hi) 0)) by lia.
    cbn [andb negb mbind result_bind]. rewrite (proj2 (Z.ltb_lt _ (zlen view))) by lia.
    rewrite (proj2 (view_at_Ok _ _ _) Hat3). cbn [mbind result_bind]. cbv zeta.
    rewrite pointer_offset by lia. replace (192 + hi - 192) with hi by lia. unfold throw_if.
    rewrite (proj2 (Z.leb_gt p _)), (proj2 (Z.ltb_ge _ low)),
      (proj2 (Z.ltb_ge (s_maxPointersPerName lim) _)) by lia. cbn [mbind result_bind].
    rewrite (IH fuel (depth + 1) 0 budget true s' (acc ++ ls));
      [|lia|done|by rewrite <- app_assoc|lia|by left|done|lia|left; lia].
    cbn [mbind result_bind p_storage p_budget].
    rewrite bool_decide_eq_false_2 by apply storage_of_nonempty.
    rewrite <- app_assoc. do 2 f_equal. lia.
  - destruct Hunc as [->|?]; [|done]. destruct Hch as [Hch|?]; [|done].
    pose proof (chained_name_low _ _ _ _ _ _ _ _ _ Hw).
    destruct (zdrop_head view p _ _ ltac:(lia) Hd) as (_ & Hd2 & _).
    destruct (zdrop_head view (p + 1) _ _ ltac:(lia) Hd2) as (Hat3 & _ & Hin).
    destruct (packetParser_step lim fuel view p true depth low chain budget s acc [] (192 + hi) (lo :: rest))
      as (s' & Hr' & ->); [done|done|constructor|done|right; split; [lia|done]|done| |].
    { rewrite app_nil_r. rewrite storage_of_app, zlen_app in Hlen. rewrite zlen_storage_of.
      pose proof (zlen_nonneg (storage_of more)). rewrite zlen_storage_of in *.
      pose proof (zlen_nonneg (enc_labels more)). lia. }
    change (zlen (enc_labels [])) with 0. rewrite Z.add_0_r, Z.eqb_refl, app_nil_r in *.
    rewrite (proj2 (Z.eqb_neq (192 + hi) 0)) by lia. cbn [andb negb].
    assert (match budget with
            | None => Ok None
            | Some x => if x =? 0
                then Throw (range_error "Too many compression pointers processed in packet")
                else Ok (Some (x - 1))
            end = Ok (option_map Z.pred budget)) as ->.
    { destruct budget as [x|]; [|done]. simpl in Hpay. rewrite (proj2 (Z.eqb_neq x 0)) by lia. done. }
    unfold throw_if. rewrite (proj2 (Z.ltb_ge _ chain)) by lia. cbn [mbind result_bind].
    rewrite (proj2 (Z.ltb_lt _ (zlen view))) by lia.
    rewrite (proj2 (view_at_Ok _ _ _) Hat3). cbn [mbind result_bind]. cbv zeta.
    rewrite pointer_offset by lia. replace (192 + hi - 192) with hi by lia.
    rewrite (proj2 (Z.leb_gt p _)), (proj2 (Z.ltb_ge _ low)),
      (proj2 (Z.ltb_ge (s_maxPointersPerName lim) _)) by lia. cbn [mbind result_bind].
    rewrite (IH fuel (depth + 1) (u16 (chain + 1)) (option_map Z.pred budget) true s' acc);
      [|lia|done|done|lia|by left|by apply can_pay_S|apply Z.mod_pos_bound; lia|left; pose proof (u16_le (chain + 1)); lia].
    cbn [mbind result_bind p_storage p_budget].
    rewrite bool_decide_eq_false_2 by apply storage_of_nonempty. rewrite pay_S.
    do 2 f_equal. lia.
Qed.

Lemma chained_name_at most low view p ls k run cost e :
  0 <= low -> chained_name most low view p ls k run cost e -> p < zlen view.
Proof.
  intros Hlow [p' ls' rest Hp Hv Hd|p' ls' hi lo rest more k' run' cost' e' Hp Hv _ _ _ Hd _ _ _
              |p' hi lo rest more k' run' cost' e' Hp _ _ Hd _ _].
  1,2: pose proof (zdrop_prefix view p' _ _ ltac:(lia) Hd) as Hd'; pose proof (zlen_nonneg (enc_labels ls'));
    destruct (zdrop_head view (p' + zlen (enc_labels ls')) _ _ ltac:(lia) Hd') as (_ & _ & ?); lia.
  by destruct (zdrop_head view p' _ _ ltac:(lia) Hd) as (_ & _ & ?).
Qed.

(** The constructor of names, at a name within the limits. *)
Lemma from_wire_chained lim view p low ls k run cost e unc budget :
  chained_name (s_maxPointersToPointers lim) low view p ls k run cost e -> 0 <= low ->
  Z.of_nat run <= s_maxPointersToPointers lim + 1 \/ run = 0%nat ->
  Z.of_nat k <= s_maxPointersPerName lim ->
  zlen (storage_of ls) <= 255 -> unc = true \/ k = 0%nat -> can_pay cost budget ->
  DNSName_from_wire lim view p unc false false low budget
  = Ok (mkParsed (storage_of ls) (e - p) 0 0 (pay cost budget)).
Proof.
  intros Hw Hlow Hrun Hk Hlen Hunc Hpay. pose proof (chained_name_at _ _ _ _ _ _ _ _ _ Hlow Hw).
  pose proof (chained_name_low _ _ _ _ _ _ _ _ _ Hw).
  unfold DNSName_from_wire, throw_if. rewrite (proj2 (Z.leb_gt _ _)) by lia. cbn [mbind result_bind].
  apply (packetParser_complete lim _ view p ls k run cost e 0 low 0 budget unc [] []); try done; try lia.
  by left.
Qed.

(** What a careful writer produces is within any limits. *)
Lemma written_chained most low view p ls k e :
  written_name low view p ls k e -> 0 <= low -> 0 <= most ->
  exists run cost, chained_name most low view p ls k run cost e
    /\ (cost <= 1)%nat /\ (run <= 1)%nat
    /\ (forall b, zat view p = Some b -> b < 192 -> cost = 0%nat /\ run = 0%nat).
Proof.
  intros Hw Hlow Hmost.
  induction Hw as [p ls rest Hp Hv Hd|p ls hi lo rest more k e b Hp Hv Hhi Hlo Hd Hlt Hat Hb Hw IH].
  - exists 0%nat, 0%nat. split; [by eapply chained_root|]. naive_solver lia.
  - destruct IH as (run & cost & Hc & _ & _ & Hz). destruct (Hz b Hat Hb) as [-> ->].
    destruct (decide (ls = [])) as [->|Hne].
    + exists 1%nat, 1%nat. simpl in Hd. split; [|split; [done|split; [done|]]].
      * replace (p + zlen (enc_labels []) + 2) with (p + 2) by (change (zlen (enc_labels [])) with 0; lia).
        by eapply chained_pointer.
      * intros b' Hb' Hlt'. destruct (zdrop_head view p _ _ ltac:(lia) Hd) as (Hat' & _).
        assert (b' = 192 + hi) by congruence. lia.
    + exists 0%nat, 0%nat. split; [|by split; [lia|split; [lia|]]].
      eapply chained_labels; try done. lia.
Qed.

Lemma from_wire_written lim view p low ls k e :
  written_name low view p ls k e -> 0 <= low -> 0 <= s_maxPointersToPointers lim ->
  Z.of_nat k <= s_maxPointersPerName lim -> zlen (storage_of ls) <= 255 ->
  DNSName_from_wire lim view p true false false low None
  = Ok (mkParsed (storage_of ls) (e - p) 0 0 None).
Proof.
  intros Hw Hlow Hpp Hk Hlen.
  destruct (written_chained (s_maxPointersToPointers lim) _ _ _ _ _ _ Hw Hlow Hpp) as (run & cost & Hc & _ & Hrun & _).
  apply (from_wire_chained lim view p low ls k run cost e true None); try done; [left; lia|by left].
Qed.
