(* ===== verification/NamesSpec.v ===== *)
(** * What [DNSName] promises

    The theorems about the name type: the class invariant under every way of
    making a name, exactness of the length checks, the meaning of the
    relations between names, the orders, and the text and wire round trips. *)

From S2P Require Import Prelude Chars Names NamesFacts NamesOrder NamesText NamesWire.

#[local] Open Scope Z_scope.

(** Names the witnesses use. *)
Definition ex_www : list bytes := [bs "www"; bs "PowerDNS"; bs "com"].
Definition ex_zone : list bytes := [bs "powerdns"; bs "COM"].
Definition ex_name (ls : list bytes) : DNSName := mkDNSName (storage_of ls).

(** ** Building names *)

Lemma checkLabelLength_Ok k u : checkLabelLength k = Ok u -> 1 <= u8 k <= 63.
Proof.
  unfold checkLabelLength, s_maxDNSLabelLength. intros H. bind_inv H.
  apply throw_if_Ok, Z.eqb_neq in E. apply throw_if_Ok, Z.ltb_ge in H.
  pose proof (u8_byte k) as Hb. unfold is_byte in Hb. lia.
Qed.

Lemma u8_bounded k : 0 <= k < 256 -> 1 <= u8 k <= 63 -> 1 <= k <= 63.
Proof. intros. rewrite u8_small in * by lia. lia. Qed.

(** appending a label to a name succeeds exactly when the result is a legal
    name, and then is the name with the labels of the first and the new label
    last.  The length check is made on the label length truncated to 8 bits, and
    the theorem shows that no over-long label slips through it. *)
Theorem appendRawLabel_exact (n : DNSName) (ls : list bytes) (l : bytes) (n' : DNSName) :
  represents n ls -> bytes_ok l ->
  appendRawLabel n l = Ok n' <-> represents n' (ls ++ [l]).
Proof.
  intros Hr Hl. split.
  - intros H. pose proof H as H0. unfold appendRawLabel in H0. bind_inv H0. bind_inv H0.
    apply checkLabelLength_Ok in E. apply throw_if_Ok, Z.ltb_ge in E0. clear H0.
    pose proof (zlen_nonneg l). destruct Hr as (Hs & Hv & Hle) eqn:Er. rewrite Hs in E0.
    pose proof (zlen_storage_pos ls). unfold s_maxDNSNameLength in E0.
    assert (1 <= zlen l <= 63) by (apply u8_bounded; lia).
    destruct (appendRawLabel_represents n ls l Hr) as (n2 & Heq & Hr2); [by split| |congruence].
    rewrite storage_of_app, zlen_app, zlen_storage_of_cons, storage_of_nil.
    change (zlen [0]) with 1. rewrite zlen_storage_of in E0. lia.
  - intros Hr'. destruct Hr' as (Hs' & Hv' & Hle').
    destruct (appendRawLabel_represents n ls l Hr) as (n2 & -> & Hs2 & _); [|done|].
    + apply Forall_app in Hv' as [_ Hv']. by inversion Hv'.
    + f_equal. destruct n2, n'. simpl in *. congruence.
Qed.

Lemma appendRawLabel_exact_witness :
  appendRawLabel (ex_name ex_zone) (bs "net")
  = Ok (mkDNSName (storage_of (ex_zone ++ [bs "net"]))).
Proof. apply (appendRawLabel_exact (ex_name ex_zone) ex_zone); by_decide. Defined.

(** the same for prepending a label. *)
Theorem prependRawLabel_exact (n : DNSName) (ls : list bytes) (l : bytes) (n' : DNSName) :
  represents n ls -> bytes_ok l ->
  prependRawLabel n l = Ok n' <-> represents n' (l :: ls).
Proof.
  intros Hr Hl. split.
  - intros H. pose proof H as H0. unfold prependRawLabel in H0. bind_inv H0. bind_inv H0.
    apply checkLabelLength_Ok in E. apply throw_if_Ok, Z.ltb_ge in E0. clear H0.
    pose proof (zlen_nonneg l). pose proof Hr as (Hs & Hv & Hle). rewrite Hs in E0.
    pose proof (zlen_storage_pos ls). unfold s_maxDNSNameLength in E0.
    assert (1 <= zlen l <= 63) by (apply u8_bounded; lia).
    destruct (prependRawLabel_represents n ls l Hr) as (n2 & Heq & Hr2); [by split| |congruence].
    rewrite zlen_storage_of_cons. lia.
  - intros (Hs' & Hv' & Hle').
    destruct (prependRawLabel_represents n ls l Hr) as (n2 & -> & Hs2 & _); [|done|].
    + by inversion Hv'.
    + f_equal. destruct n2, n'. simpl in *. congruence.
Qed.

Lemma prependRawLabel_exact_witness :
  prependRawLabel (ex_name ex_zone) (bs "www")
  = Ok (mkDNSName (storage_of (bs "www" :: ex_zone))).
Proof. apply (prependRawLabel_exact (ex_name ex_zone) ex_zone); by_decide. Defined.

(** ** The class invariant *)

(** Every way the class offers of making a name. *)
Inductive made : DNSName -> Prop :=
| made_unset : made (mkDNSName [])
| made_root : made g_rootdnsname
| made_text content n : bytes_ok content -> DNSName_from_text content = Ok n -> made n
| made_wire lim view offset unc wt wc low budget r :
    bytes_ok view -> 0 <= offset ->
    DNSName_from_wire lim view offset unc wt wc low budget = Ok r ->
    made (mkDNSName (p_storage r))
| made_append n l n' : made n -> bytes_ok l -> appendRawLabel n l = Ok n' -> made n'
| made_prepend n l n' : made n -> bytes_ok l -> prependRawLabel n l = Ok n' -> made n'
| made_concat n m r : made n -> made m -> name_append n m = Ok r -> made r
| made_chop n : made n -> made (fst (chopOff n))
| made_trim n k : made n -> 0 <= k -> made (trimToLabels n k)
| made_relative n zone r : made n -> made zone -> makeRelative n zone = Ok r -> made r
| made_common n m r : made n -> made m -> getCommonLabels n m = Ok r -> made r
| made_reverse n r : made n -> labelReverse n = Ok r -> made r
| made_lower n : made n -> made (makeLowerCase n).

Lemma wf_of_represents n ls : represents n ls -> wf_name n.
Proof. intros. right. eauto. Qed.

Lemma wf_storage ls n : represents n ls -> wf_name (mkDNSName (storage_of ls)).
Proof. intros (_ & Hv & Hle). right. exists ls. by split. Qed.

#[export] Hint Resolve wf_of_represents wf_storage : names.

Lemma appendRawLabel_wf n l n' :
  wf_name n -> bytes_ok l -> appendRawLabel n l = Ok n' -> wf_name n'.
Proof.
  intros Hn Hl H. pose proof H as H0. unfold appendRawLabel in H0. do 2 bind_inv H0. clear H0.
  apply checkLabelLength_Ok in E. apply throw_if_Ok, Z.ltb_ge in E0. unfold s_maxDNSNameLength in E0.
  pose proof (zlen_nonneg l). pose proof (zlen_nonneg (d_storage n)).
  assert (valid_label l) as Hvl. { split; [apply u8_bounded; lia|done]. }
  destruct Hn as [Hn|[ls Hr]].
  - destruct (appendRawLabel_empty n l Hn Hvl) as (n2 & Heq & Hr2). rewrite H in Heq.
    injection Heq as <-. eauto with names.
  - destruct (appendRawLabel_represents n ls l Hr Hvl) as (n2 & Heq & Hr2).
    + destruct Hr as (Hs & _). rewrite Hs, zlen_storage_of in E0.
      rewrite storage_of_app, zlen_app, zlen_storage_of_cons, storage_of_nil.
      change (zlen [0]) with 1. lia.
    + rewrite H in Heq. injection Heq as <-. eauto with names.
Qed.

Lemma prependRawLabel_wf n l n' :
  wf_name n -> bytes_ok l -> prependRawLabel n l = Ok n' -> wf_name n'.
Proof.
  intros Hn Hl H. pose proof H as H0. unfold prependRawLabel in H0. do 2 bind_inv H0.
  injection H0 as <-.
  apply checkLabelLength_Ok in E. apply throw_if_Ok, Z.ltb_ge in E0. unfold s_maxDNSNameLength in E0.
  pose proof (zlen_nonneg l). pose proof (zlen_nonneg (d_storage n)).
  assert (valid_label l) as Hvl. { split; [apply u8_bounded; lia|done]. }
  destruct Hn as [Hn|[ls Hr]].
  - right. exists [l]. unfold name_empty. rewrite bool_decide_eq_true_2 by done.
    split_and!; simpl; [|by constructor|].
    + rewrite storage_of_cons, storage_of_nil, u8_small by (destruct Hvl; lia). done.
    + rewrite zlen_storage_of_cons, storage_of_nil. change (zlen [0]) with 1.
      destruct Hvl. unfold s_maxDNSNameLength. lia.
  - destruct (prependRawLabel_represents n ls l Hr Hvl) as (n2 & Heq & Hr2).
    + destruct Hr as (Hs & _). rewrite Hs in E0. rewrite zlen_storage_of_cons. lia.
    + rewrite H in Heq. injection Heq as <-. eauto with names.
Qed.

Lemma name_append_wf n m r : wf_name n -> wf_name m -> name_append n m = Ok r -> wf_name r.
Proof.
  intros Hn Hm H. pose proof H as H0. unfold name_append in H0. bind_inv H0.
  apply throw_if_Ok, Z.ltb_ge in E. unfold s_maxDNSNameLength in E.
  destruct Hm as [Hm|[ms Hm]].
  { unfold name_empty in H0. rewrite (bool_decide_eq_true_2 _ Hm) in H0. by injection H0 as <-. }
  rewrite (represents_not_empty _ _ Hm) in H0. destruct Hn as [Hn|[ls Hn]].
  - unfold name_empty in H0. rewrite (bool_decide_eq_true_2 _ Hn), Hn in H0. injection H0 as <-.
    destruct m. right. eauto.
  - clear H0. assert (zlen (storage_of (ls ++ ms)) <= 255) as Hlen.
    { destruct Hn as (Hn & _), Hm as (Hm & _). rewrite Hn, Hm, zlen_storage_of in E.
      rewrite storage_of_app, zlen_app. lia. }
    rewrite (name_append_represents n m ls ms Hn Hm Hlen) in H. injection H as <-.
    right. exists (ls ++ ms). destruct Hn as (_ & ? & _), Hm as (_ & ? & _).
    split_and!; [done|by apply Forall_app|done].
Qed.

Lemma chopOff_wf n : wf_name n -> wf_name (fst (chopOff n)).
Proof.
  intros [Hn|[[|l ls] Hr]].
  - unfold chopOff. rewrite Hn. by left.
  - rewrite (chopOff_root _ Hr). eauto with names.
  - destruct (chopOff_represents _ _ _ Hr) as (n' & -> & Hr'). simpl. eauto with names.
Qed.

Lemma trimToLabels_wf n k : 0 <= k -> wf_name n -> wf_name (trimToLabels n k).
Proof.
  intros Hk [Hn|[ls Hr]].
  - destruct n as [s]. simpl in Hn. subst s. unfold trimToLabels.
    destruct (k =? 0); [by left|]. change (countLabels (mkDNSName [])) with 0. simpl.
    replace (Z.to_nat (0 - k)) with 0%nat by lia. by left.
  - eapply wf_of_represents. by apply trimToLabels_represents.
Qed.

Lemma makeRelative_wf n zone r :
  wf_name n -> wf_name zone -> makeRelative n zone = Ok r -> wf_name r.
Proof.
  intros [Hn|[ls Hn]] [Hz|[zs Hz]] H;
    try (exfalso; unfold makeRelative, isPartOf, name_empty in H;
         rewrite ?(bool_decide_eq_true_2 _ Hn), ?(bool_decide_eq_true_2 _ Hz), ?orb_true_r in H; done).
  destruct (decide (ci_labels zs `suffix_of` ci_labels ls)) as [Hsuf|Hno].
  - destruct (suffix_ci_split _ _ Hsuf) as (pre & post & -> & Heq).
    rewrite (makeRelative_represents _ _ _ _ _ Hn Hz Heq) in H. injection H as <-.
    eauto using represents_prefix with names.
  - unfold makeRelative in H. rewrite (isPartOf_represents _ _ _ _ Hn Hz), bool_decide_eq_false_2 in H
      by done. simpl in H. injection H as <-. by left.
Qed.

Lemma getCommonLabels_represents n m ls ms :
  represents n ls -> represents m ms ->
  exists r, getCommonLabels n m = Ok r
            /\ represents r (reverse (common_prefix_ci (reverse ls) (reverse ms))).
Proof.
  intros Hn Hm. unfold getCommonLabels.
  rewrite (represents_not_empty _ _ Hn), (represents_not_empty _ _ Hm).
  rewrite (getRawLabels_represents _ _ Hn), (getRawLabels_represents _ _ Hm).
  destruct (getCommonLabels_loop_spec (reverse ls) (reverse ms) g_rootdnsname [] n ls)
    as (r & Heq & Hr); [done|by rewrite reverse_involutive, app_nil_r|by_decide|].
  rewrite app_nil_r in Hr. eauto.
Qed.

Lemma getCommonLabels_wf n m r :
  wf_name n -> wf_name m -> getCommonLabels n m = Ok r -> wf_name r.
Proof.
  intros [Hn|[ls Hn]] [Hm|[ms Hm]] H;
    try (unfold getCommonLabels, name_empty in H;
         rewrite ?(bool_decide_eq_true_2 _ Hn), ?(bool_decide_eq_true_2 _ Hm), ?orb_true_r in H;
         injection H as <-; by left).
  destruct (getCommonLabels_represents _ _ _ _ Hn Hm) as (r' & Heq & Hr).
  rewrite H in Heq. injection Heq as <-. eauto with names.
Qed.

Lemma labelReverse_wf n r : wf_name n -> labelReverse n = Ok r -> wf_name r.
Proof.
  intros [Hn|[ls Hn]] H.
  - destruct n as [s]. simpl in Hn. subst s. simpl in H. injection H as <-. by left.
  - rewrite (labelReverse_represents _ _ Hn) in H. injection H as <-. right. exists (reverse ls).
    destruct Hn as (_ & Hv & Hle). split_and!; [done|by apply Forall_reverse|].
    rewrite zlen_storage_of in *. by rewrite (zlen_enc_labels_perm _ _ (reverse_Permutation ls)).
Qed.

Lemma makeLowerCase_wf n : wf_name n -> wf_name (makeLowerCase n).
Proof.
  intros [Hn|[ls (Hs & Hv & Hle)]].
  - left. unfold makeLowerCase. simpl. by rewrite Hn.
  - right. exists (ci_labels ls). split_and!; simpl.
    + rewrite Hs. by apply toLower_storage_of.
    + by apply valid_labels_ci.
    + by rewrite zlen_storage_of_ci.
Qed.

Lemma DNSName_from_wire_wf lim view offset unc wt wc low budget r :
  bytes_ok view -> 0 <= offset ->
  DNSName_from_wire lim view offset unc wt wc low budget = Ok r ->
  wf_name (mkDNSName (p_storage r)).
Proof.
  intros Hok Hoff H. unfold DNSName_from_wire in H. bind_inv H.
  apply (packetParser_sound _ _ _ _ _ _ _ _ _ _ _ _ []) in H as (ls & k & _ & Hr & _);
    [|done|done|by left]. eauto with names.
Qed.

#[export] Hint Resolve appendRawLabel_wf prependRawLabel_wf name_append_wf chopOff_wf
  trimToLabels_wf makeRelative_wf getCommonLabels_wf labelReverse_wf makeLowerCase_wf
  DNSName_from_wire_wf : names.

(** C6: the class invariant.  However a name was made, from text, from the wire,
    or by the operations of the class from names made before, it is either unset
    or holds the wire form of labels of 1 to 63 bytes, 255 bytes in all at most. *)
Theorem made_wf (n : DNSName) : made n -> wf_name n.
Proof.
  induction 1; try solve [eauto 2 with names].
  - by left.
  - eauto using represents_root with names.
  - destruct (DNSName_from_text_inv content n) as [ls Hr]; eauto with names.
Qed.

Lemma made_wf_witness : wf_name (makeLowerCase (ex_name ex_www)).
Proof.
  apply made_wf. apply made_lower, (made_text (bs "www.PowerDNS.com.")); [by_decide|by vm_compute].
Defined.

(** ** Relations between names *)

(** a name is part of another exactly when the labels of the second are,
    case apart, the last labels of the first; no other outcome, no exception. *)
Theorem isPartOf_suffix (n m : DNSName) (ls ms : list bytes) :
  represents n ls -> represents m ms ->
  isPartOf n m = Ok (bool_decide (ci_labels ms `suffix_of` ci_labels ls)).
Proof. apply isPartOf_represents. Qed.

Lemma isPartOf_suffix_witness : isPartOf (ex_name ex_www) (ex_name ex_zone) = Ok true.
Proof.
  rewrite (isPartOf_suffix _ _ ex_www ex_zone); by_decide.
Defined.

(** what a name is relative to a zone it is part of, put in front of the zone
    again, is the name, case apart; the relative name is shorter by the labels of
    the zone. *)
Theorem makeRelative_append (n zone : DNSName) (ls zs : list bytes) :
  represents n ls -> represents zone zs -> isPartOf n zone = Ok true ->
  exists rel r pre, makeRelative n zone = Ok rel /\ represents rel pre
    /\ length ls = (length pre + length zs)%nat
    /\ name_append rel zone = Ok r /\ name_eqb r n = true.
Proof.
  intros Hn Hz H. rewrite (isPartOf_represents _ _ _ _ Hn Hz) in H. injection H as H.
  apply bool_decide_eq_true in H. destruct (suffix_ci_split _ _ H) as (pre & post & -> & Heq).
  pose proof (represents_prefix _ _ _ Hn) as Hpre. clear H.
  assert (zlen (storage_of (pre ++ zs)) <= 255) as Hlen.
  { destruct Hn as (_ & _ & Hle). unfold s_maxDNSNameLength in Hle.
    rewrite storage_of_app, zlen_app in *. rewrite <- (zlen_storage_of_ci zs), <- Heq, zlen_storage_of_ci.
    lia. }
  exists (mkDNSName (storage_of pre)), (mkDNSName (storage_of (pre ++ zs))), pre. split_and!.
  - by apply (makeRelative_represents _ _ _ _ _ Hn Hz).
  - done.
  - rewrite length_app. f_equal. apply (f_equal length) in Heq. unfold ci_labels in Heq.
    by rewrite !length_map in Heq.
  - by apply name_append_represents.
  - apply (name_eqb_represents _ _ (pre ++ zs) (pre ++ post)); [|done|].
    + destruct Hpre as (_ & ? & _), Hz as (_ & ? & _). split_and!; [done|by apply Forall_app|done].
    + unfold ci_labels in *. by rewrite !map_app, Heq.
Qed.

Lemma makeRelative_append_witness :
  exists rel r pre, makeRelative (ex_name ex_www) (ex_name ex_zone) = Ok rel /\ represents rel pre
    /\ length ex_www = (length pre + length ex_zone)%nat
    /\ name_append rel (ex_name ex_zone) = Ok r /\ name_eqb r (ex_name ex_www) = true.
Proof. apply makeRelative_append; [by_decide|by_decide|by vm_compute]. Defined.

(** the common labels of two names are the longest sequence of labels both
    end in: labels of the first, equal up to case to the last labels of the
    second, and no longer ending of the first has that property. *)
Theorem getCommonLabels_longest (n m : DNSName) (ls ms : list bytes) :
  represents n ls -> represents m ms ->
  exists r cs, getCommonLabels n m = Ok r /\ represents r cs
    /\ cs `suffix_of` ls /\ ci_labels cs `suffix_of` ci_labels ms
    /\ forall ds, ds `suffix_of` ls -> ci_labels ds `suffix_of` ci_labels ms ->
                  (length ds <= length cs)%nat.
Proof.
  intros Hn Hm. destruct (getCommonLabels_represents _ _ _ _ Hn Hm) as (r & Heq & Hr).
  exists r, (reverse (common_prefix_ci (reverse ls) (reverse ms))). split_and!; [done|done|..].
  - apply suffix_prefix_reverse. rewrite reverse_involutive. apply common_prefix_ci_l.
  - unfold ci_labels. apply suffix_prefix_reverse. rewrite map_reverse, reverse_involutive, <- map_reverse.
    apply common_prefix_ci_r.
  - intros ds Hds1 Hds2. rewrite length_reverse, <- (length_reverse ds). apply common_prefix_ci_max.
    + by apply suffix_prefix_reverse in Hds1.
    + unfold ci_labels in *. apply suffix_prefix_reverse in Hds2. by rewrite !map_reverse.
Qed.

Lemma getCommonLabels_longest_witness :
  exists r cs, getCommonLabels (ex_name ex_www) (ex_name ex_zone) = Ok r /\ represents r cs
    /\ cs `suffix_of` ex_www /\ ci_labels cs `suffix_of` ci_labels ex_zone
    /\ forall ds, ds `suffix_of` ex_www -> ci_labels ds `suffix_of` ci_labels ex_zone ->
                  (length ds <= length cs)%nat.
Proof. apply getCommonLabels_longest; by_decide. Defined.

(** reversing the labels of a name twice gives the name back. *)
Theorem labelReverse_involutive (n : DNSName) (ls : list bytes) :
  represents n ls ->
  exists r, labelReverse n = Ok r /\ represents r (reverse ls) /\ labelReverse r = Ok n.
Proof.
  intros Hr. exists (mkDNSName (storage_of (reverse ls))).
  pose proof (labelReverse_represents _ _ Hr) as H1.
  assert (represents (mkDNSName (storage_of (reverse ls))) (reverse ls)) as Hr2.
  { destruct Hr as (_ & Hv & Hle). split_and!; [done|by apply Forall_reverse|].
    rewrite zlen_storage_of in *. by rewrite (zlen_enc_labels_perm _ _ (reverse_Permutation ls)). }
  split_and!; [done|done|]. rewrite (labelReverse_represents _ _ Hr2), reverse_involutive.
  destruct n, Hr as (Hs & _). simpl in Hs. by rewrite Hs.
Qed.

Lemma labelReverse_involutive_witness :
  exists r, labelReverse (ex_name ex_www) = Ok r /\ represents r (reverse ex_www)
            /\ labelReverse r = Ok (ex_name ex_www).
Proof. apply labelReverse_involutive. by_decide. Defined.

(** ** Equality and hashing *)

Lemma burtle_byte_lower k i shift :
  bytes_ok k -> burtle_byte dns_tolower (toLower k) i shift = burtle_byte dns_tolower k i shift.
Proof.
  intros Hk. unfold burtle_byte, toLower. rewrite <- list_fmap_alt || idtac.
  change (map dns_tolower k) with (dns_tolower <$> k). rewrite list_lookup_fmap.
  destruct (k !! i) as [x|] eqn:E; [|done]. simpl.
  rewrite dns_tolower_idemp; [done|]. by eapply Forall_lookup_1.
Qed.

Lemma burtle_word_lower k i :
  bytes_ok k -> burtle_word dns_tolower (toLower k) i = burtle_word dns_tolower k i.
Proof. intros. unfold burtle_word. by rewrite !burtle_byte_lower. Qed.

Lemma burtle_loop_lower fuel k st :
  bytes_ok k ->
  burtle_loop dns_tolower fuel (toLower k) st
  = (toLower (fst (burtle_loop dns_tolower fuel k st)), snd (burtle_loop dns_tolower fuel k st))
  /\ bytes_ok (fst (burtle_loop dns_tolower fuel k st)).
Proof.
  revert k st. induction fuel as [|fuel IH]; intros k st Hk; [done|].
  cbn [burtle_loop]. rewrite zlen_toLower. case_match; [|done]. destruct st as [[a b] c].
  rewrite !burtle_word_lower by done. unfold toLower at 1. rewrite skipn_map.
  apply IH. by apply Forall_drop.
Qed.

Lemma burtleCI_lower k init : bytes_ok k -> burtleCI (toLower k) init = burtleCI k init.
Proof.
  intros Hk. unfold burtleCI, burtle_with.
  assert (length (toLower k) = length k) as -> by apply length_map.
  destruct (burtle_loop_lower (length k) k (2654435769, 2654435769, u32 init) Hk) as [-> Hok].
  destruct (burtle_loop dns_tolower (length k) k _) as [rest [[a b] c]]. simpl in Hok |- *.
  rewrite zlen_toLower. unfold burtle_tail.
  by rewrite !burtle_word_lower, !burtle_byte_lower.
Qed.

Lemma valid_labels_bytes_ok ls : valid_labels ls -> bytes_ok (storage_of ls).
Proof.
  induction 1 as [|l ls [Hl Hb] Hv IH].
  - rewrite storage_of_nil. by_decide.
  - rewrite storage_of_cons. constructor; [unfold is_byte; lia|]. by apply bytes_ok_app.
Qed.

(** names that compare equal have equal hashes, whatever the seed: the
    contract an unordered container keyed by names relies on. *)
Theorem equal_names_equal_hashes (n m : DNSName) (init : Z) :
  wf_name n -> wf_name m -> name_eqb n m = true -> hash n init = hash m init.
Proof.
  intros Hn Hm H. apply name_eqb_spec in H. unfold hash.
  assert (forall k, wf_name k -> bytes_ok (d_storage k)) as Hok.
  { intros k [->|[ls (-> & Hv & _)]]; [constructor|by apply valid_labels_bytes_ok]. }
  by rewrite <- (burtleCI_lower (d_storage n)), H, burtleCI_lower by auto.
Qed.

Lemma equal_names_equal_hashes_witness :
  hash (ex_name [bs "EXAMPLE"; bs "org"]) 7 = hash (ex_name [bs "example"; bs "ORG"]) 7.
Proof.
  apply equal_names_equal_hashes; [right; exists [bs "EXAMPLE"; bs "org"]; by_decide
                                  |right; exists [bs "example"; bs "ORG"]; by_decide|by vm_compute].
Defined.

(** ** Orders *)

Section ordered.
(** A boolean order read off a total comparison of keys. *)
Context {A K : Type} (key : A -> K) (cmp : K -> K -> comparison) `{!TotalCompare cmp}.
Context (ltb : A -> A -> bool) (Hltb : forall x y, ltb x y = true <-> cmp (key x) (key y) = Lt).

Lemma ordered_irrefl x : ltb x x = false.
Proof.
  destruct (ltb x x) eqn:E; [|done]. apply Hltb in E. by rewrite (cmp_refl cmp) in E.
Qed.

Lemma ordered_trans x y z : ltb x y = true -> ltb y z = true -> ltb x z = true.
Proof. rewrite !Hltb. apply cmp_trans. Qed.

Lemma ordered_incomparable x y : ltb x y = false /\ ltb y x = false <-> key x = key y.
Proof.
  rewrite <- !not_true_iff_false, !Hltb, <- (cmp_eq_iff (cmp := cmp) (key x) (key y)).
  rewrite (cmp_opp (key x) (key y)). destruct (cmp (key x) (key y)); simpl; naive_solver.
Qed.
End ordered.

(** [operator<] is a strict total order on names up to [operator==]: the
    ordering the maps and sets of names are built on. *)
Theorem name_ltb_order :
  (forall n, name_ltb n n = false)
  /\ (forall n m k, name_ltb n m = true -> name_ltb m k = true -> name_ltb n k = true)
  /\ (forall n m, name_ltb n m = false /\ name_ltb m n = false <-> name_eqb n m = true).
Proof.
  set (key n := reverse (toLower (d_storage n))). split_and!.
  - intros n. apply (ordered_irrefl key (lex_compare Z.compare)), name_ltb_spec.
  - intros n m k. apply (ordered_trans key (lex_compare Z.compare)), name_ltb_spec.
  - intros n m. rewrite name_eqb_spec.
    rewrite (ordered_incomparable key (lex_compare Z.compare) name_ltb name_ltb_spec).
    split; [apply (inj reverse)|]. unfold key. by intros ->.
Qed.

(** C38: the canonical comparison, which works on the raw storages through arrays
    of label positions and has a slow variant for names of 64 labels or more, is
    the canonical DNS name order of RFC 4034: the labels compared from the last
    to the first as case-folded byte strings. *)
Theorem canonCompare_canonical (n m : DNSName) (ls ms : list bytes) :
  represents n ls -> represents m ms ->
  (canonCompare_three_way n m false ?= 0) = canonical_compare ls ms
  /\ canonCompare_three_way n m false = slowCanonCompare_three_way n m.
Proof.
  intros Hn Hm. rewrite (canonCompare_fast_slow _ _ _ _ Hn Hm). split; [|done].
  by apply slowCanonCompare_spec.
Qed.

Lemma canonCompare_canonical_witness :
  (canonCompare_three_way (ex_name ex_www) (ex_name ex_zone) false ?= 0)
  = canonical_compare ex_www ex_zone
  /\ canonCompare_three_way (ex_name ex_www) (ex_name ex_zone) false
     = slowCanonCompare_three_way (ex_name ex_www) (ex_name ex_zone).
Proof. apply canonCompare_canonical; by_decide. Defined.

Definition named (n : DNSName) : Prop := exists ls, represents n ls.

Lemma canonCompare_lt n m ls ms :
  represents n ls -> represents m ms ->
  canonCompare n m false = true <-> canonical_compare ls ms = Lt.
Proof.
  intros Hn Hm. unfold canonCompare. rewrite Z.ltb_lt, <- Z.compare_lt_iff.
  by rewrite (canonCompare_fast_slow _ _ _ _ Hn Hm), (slowCanonCompare_spec _ _ _ _ Hn Hm).
Qed.

(** the canonical order is a strict total order on names up to equality, so
    that a zone can be sorted by it and the next name in it found. *)
Theorem canonCompare_order :
  (forall n, named n -> canonCompare n n false = false)
  /\ (forall n m k, named n -> named m -> named k ->
        canonCompare n m false = true -> canonCompare m k false = true ->
        canonCompare n k false = true)
  /\ (forall n m, named n -> named m ->
        canonCompare n m false = false /\ canonCompare m n false = false <-> name_eqb n m = true).
Proof.
  set (cmp := lex_compare (lex_compare Z.compare)).
  set (key ls := reverse (ci_labels ls)).
  set (ltb ls ms := bool_decide (cmp (key ls) (key ms) = Lt)).
  assert (forall ls ms, ltb ls ms = true <-> cmp (key ls) (key ms) = Lt) as Hltb
    by (intros; apply bool_decide_eq_true).
  assert (forall n m ls ms, represents n ls -> represents m ms -> canonCompare n m false = ltb ls ms) as Hc.
  { intros n m ls ms Hn Hm. apply Bool.eq_iff_eq_true.
    by rewrite Hltb, (canonCompare_lt _ _ _ _ Hn Hm). }
  split_and!.
  - intros n [ls Hn]. rewrite (Hc _ _ _ _ Hn Hn). by apply (ordered_irrefl key cmp ltb Hltb).
  - intros n m k [ls Hn] [ms Hm] [ks Hk].
    rewrite (Hc _ _ _ _ Hn Hm), (Hc _ _ _ _ Hm Hk), (Hc _ _ _ _ Hn Hk).
    by apply (ordered_trans key cmp ltb Hltb).
  - intros n m [ls Hn] [ms Hm]. rewrite (Hc _ _ _ _ Hn Hm), (Hc _ _ _ _ Hm Hn).
    rewrite (ordered_incomparable key cmp ltb Hltb), (name_eqb_represents _ _ _ _ Hn Hm).
    split; [apply (inj reverse)|]. unfold key. by intros ->.
Qed.

(** with [pretty] set, where labels that are numbers compare as numbers, the
    same comparison is not an order: three names each before the next in a
    cycle, so that sorting with it is undefined behaviour of [std::sort]. *)
Theorem canonCompare_pretty_cycle :
  exists a b c, named a /\ named b /\ named c
    /\ canonCompare a b true = true /\ canonCompare b c true = true
    /\ canonCompare c a true = true.
Proof.
  exists (ex_name [bs "2"]), (ex_name [bs "10"]), (ex_name [bs "1a"]). unfold named. split_and!.
  - exists [bs "2"]. by_decide.
  - exists [bs "10"]. by_decide.
  - exists [bs "1a"]. by_decide.
  - by vm_compute.
  - by vm_compute.
  - by vm_compute.
Qed.

(** ** Text *)

(** printing a name and reading the text back gives the name, for every
    byte a label can hold: dots, backslashes and unprintable bytes are escaped
    and unescaped faithfully. *)
Theorem text_round_trip (n : DNSName) (ls : list bytes) :
  represents n ls ->
  exists text, toString n (bs ".") true = Ok text /\ DNSName_from_text text = Ok n.
Proof.
  intros Hr. rewrite (toString_represents _ _ Hr). eexists. split; [done|].
  by apply DNSName_from_text_toString.
Qed.

Lemma text_round_trip_witness :
  exists text, toString (ex_name [[0; 46; 92; 200]; bs "com"]) (bs ".") true = Ok text
               /\ DNSName_from_text text = Ok (ex_name [[0; 46; 92; 200]; bs "com"]).
Proof. apply (text_round_trip _ [[0; 46; 92; 200]; bs "com"]). by_decide. Defined.

(** whatever text the constructor accepts, with or without escapes, the
    name it makes is a legal, non-empty name. *)
Theorem text_parser_invariant (content : bytes) (n : DNSName) :
  bytes_ok content -> DNSName_from_text content = Ok n -> exists ls, represents n ls.
Proof. apply DNSName_from_text_inv. Qed.

Lemma text_parser_invariant_witness :
  exists ls, represents (ex_name [bs "a.b"; bs "c"]) ls.
Proof. apply (text_parser_invariant (bs "a\.b.c")); [by_decide|by vm_compute]. Defined.

(** a text that starts with a dot and has an escape anywhere is read as the
    root, while the same text without the escape is refused: the two parsers
    behind the constructor disagree. *)
Theorem leading_dot_with_escape :
  DNSName_from_text (bs ".foo\.bar") = Ok g_rootdnsname
  /\ is_ok (DNSName_from_text (bs ".foo.bar")) = false.
Proof. split; by vm_compute. Qed.

(** ** Wire *)

(** C7: what the packet parser accepts.  The name read is legal, the bytes
    consumed lie within the packet, no more pointers were followed than the limit
    allows, and the name is the reading of RFC 1035 of the bytes at the position,
    with one exception: in a packet whose last byte is the first byte of a
    pointer, that byte alone also counts as the end of a name. *)
Theorem wire_parser_sound (lim : name_limits) (view : bytes) (offset low : Z) (unc wt wc : bool)
    (budget : option Z) (r : parsed_name) :
  bytes_ok view -> 0 <= offset ->
  DNSName_from_wire lim view offset unc wt wc low budget = Ok r ->
  exists ls k, represents (mkDNSName (p_storage r)) ls
    /\ (wire_name view offset ls k (offset + p_consumed r)
        \/ cut_name view offset ls k (offset + p_consumed r)
           /\ exists v b, view = v ++ [b] /\ 192 <= b < 256)
    /\ 0 < p_consumed r /\ offset + p_consumed r <= zlen view
    /\ Z.of_nat k <= Z.max 0 (s_maxPointersPerName lim).
Proof.
  intros Hok Hoff H. unfold DNSName_from_wire in H. bind_inv H.
  apply (packetParser_sound _ _ _ _ _ _ _ _ _ _ _ _ []) in H as (ls & k & Hw & Hr & He & Hk);
    [|done|done|by left].
  exists ls, k. destruct Hw as [Hw|Hw].
  - apply wire_name_end in Hw as Hend. split_and!; [done|by left|lia|done|lia].
  - apply cut_name_end in Hw as Hend. apply cut_name_last in Hw as Hlast.
    split_and!; [done|by right|lia|done|lia].
Qed.

(** A packet with [PowerDNS.com] at 0 and [www] followed by a pointer to it at 14. *)
Definition ex_packet : bytes := storage_of [bs "PowerDNS"; bs "com"] ++ [3; 119; 119; 119; 192; 0].

Lemma wire_parser_sound_witness :
  exists ls k, represents (ex_name ex_www) ls
    /\ (wire_name ex_packet 14 ls k (14 + 6)
        \/ cut_name ex_packet 14 ls k (14 + 6)
           /\ exists v b, ex_packet = v ++ [b] /\ 192 <= b < 256)
    /\ 0 < 6 /\ 14 + 6 <= zlen ex_packet
    /\ Z.of_nat k <= Z.max 0 10.
Proof.
  apply (wire_parser_sound default_limits ex_packet 14 0 true false false None
           (mkParsed (storage_of ex_www) 6 0 0 None)); [by_decide|done|by vm_compute].
Defined.

(** C8: the packet parser always comes to an end: every pointer goes strictly
    backwards, so the recursion is never cut by its fuel, whatever the packet,
    the position and the limits are. *)
Theorem wire_parser_terminates (lim : name_limits) (view : bytes) (offset low : Z)
    (unc wt wc : bool) (budget : option Z) :
  bytes_ok view -> 0 <= offset ->
  DNSName_from_wire lim view offset unc wt wc low budget <> Throw out_of_fuel.
Proof.
  intros. apply bind_not_fuel; [auto with fuel|intros _ _]. apply packetParser_fuel; [done|done|lia].
Qed.

Lemma wire_parser_terminates_witness :
  DNSName_from_wire default_limits [192; 0] 0 true false false 0 None <> Throw out_of_fuel.
Proof. apply wire_parser_terminates; [by_decide|done]. Defined.

(** A pointer of which only the first byte is in the packet: the name is taken
    to end there. *)
Example cut_pointer_accepted :
  DNSName_from_wire default_limits [3; 119; 119; 119; 192] 0 true false false 0 None
  = Ok (mkParsed (storage_of [bs "www"]) 5 0 0 None).
Proof. by vm_compute. Qed.

(** C9: a compressed name as RFC 1035 allows it, whose pointers stay within the
    limits of the code (on pointers in all, on pointers to pointers in a row, and
    on the budget of the packet), is read as exactly the labels it stands for,
    exactly its bytes are consumed, and the budget is charged for exactly the
    pointers that no label precedes. *)
Theorem wire_parser_complete (lim : name_limits) (view : bytes) (p low : Z) (ls : list bytes)
    (k run cost : nat) (e : Z) (budget : option Z) :
  chained_name (s_maxPointersToPointers lim) low view p ls k run cost e -> 0 <= low ->
  Z.of_nat run <= s_maxPointersToPointers lim + 1 ->
  Z.of_nat k <= s_maxPointersPerName lim -> zlen (storage_of ls) <= 255 -> can_pay cost budget ->
  DNSName_from_wire lim view p true false false low budget
  = Ok (mkParsed (storage_of ls) (e - p) 0 0 (pay cost budget)).
Proof. intros. eapply from_wire_chained; try done; by left. Qed.

(** [PowerDNS.com] at 0, a pointer to it at 14, a pointer to that pointer at 16,
    [www] and a pointer to that one at 18, a pointer to this name at 24. *)
Definition ex_chain : bytes :=
  storage_of [bs "PowerDNS"; bs "com"] ++ [192; 0; 192; 14; 3; 119; 119; 119; 192; 16; 192; 18].

Lemma wire_parser_complete_witness :
  DNSName_from_wire default_limits ex_chain 24 true false false 0 (Some 5)
  = Ok (mkParsed (storage_of ex_www) (26 - 24) 0 0 (Some 2)).
Proof.
  apply (wire_parser_complete default_limits ex_chain 24 0 ex_www 4 1 3 26 (Some 5)); try (done || by_decide).
  apply (chained_pointer 4 0 ex_chain 24 0 18 [] ex_www 3 0 2 24); try (done || by_decide).
  apply (chained_labels 4 0 ex_chain 18 [bs "www"] 0 16 [192; 18] [bs "PowerDNS"; bs "com"] 2 2 2 18);
    try (done || by_decide).
  apply (chained_pointer 4 0 ex_chain 16 0 14 [3; 119; 119; 119; 192; 16; 192; 18] [bs "PowerDNS"; bs "com"] 1 1 1 16);
    try (done || by_decide).
  apply (chained_pointer 4 0 ex_chain 14 0 0 [192; 14; 3; 119; 119; 119; 192; 16; 192; 18]
           [bs "PowerDNS"; bs "com"] 0 0 0 14); try (done || by_decide).
  apply (chained_root 4 0 ex_chain 0 [bs "PowerDNS"; bs "com"]
           [192; 0; 192; 14; 3; 119; 119; 119; 192; 16; 192; 18]); done || by_decide.
Defined.

(** the wire form of a name, found anywhere in a packet, is read back as the
    name, with or without leave to follow pointers. *)
Theorem wire_round_trip (n : DNSName) (ls : list bytes) (wire before after : bytes) (unc : bool) :
  represents n ls -> toDNSString n = Ok wire ->
  exists r, DNSName_from_wire default_limits (before ++ wire ++ after) (zlen before) unc false false 0 None
            = Ok r /\ mkDNSName (p_storage r) = n /\ p_consumed r = zlen wire.
Proof.
  intros Hr Hw. unfold toDNSString in Hw. rewrite (represents_not_empty _ _ Hr) in Hw.
  injection Hw as <-. destruct Hr as (Hs & Hv & Hle). pose proof (zlen_nonneg before).
  unfold s_maxDNSNameLength in Hle. rewrite Hs.
  assert (zdrop (zlen before) (before ++ storage_of ls ++ after) = enc_labels ls ++ 0 :: after) as Hd.
  { rewrite zdrop_app by done. unfold storage_of. by rewrite <- app_assoc. }
  set (view := before ++ storage_of ls ++ after) in *.
  assert (chained_name 4 0 view (zlen before) ls 0 0 0 (zlen before + zlen (enc_labels ls) + 1)) as Hwn
    by by eapply chained_root.
  rewrite (from_wire_chained default_limits view _ 0 ls 0 0 0 _ unc None Hwn);
    [|done|by right|done|done|by right|done].
  eexists. split; [done|]. simpl. split; [by destruct n; simpl in *; subst|].
  rewrite zlen_storage_of. lia.
Qed.

Lemma wire_round_trip_witness :
  exists r, DNSName_from_wire default_limits ([1; 2; 3] ++ storage_of ex_www ++ [0; 1]) (zlen [1; 2; 3])
              true false false 0 None = Ok r
            /\ mkDNSName (p_storage r) = ex_name ex_www /\ p_consumed r = zlen (storage_of ex_www).
Proof. apply (wire_round_trip (ex_name ex_www) ex_www); [by_decide|by vm_compute]. Defined.
