(* ===== verification/SuffixTree.v ===== *)
(** * Suffix matching: [SuffixMatchTree] and [SuffixMatchNode]

    [pdns/dnsname.hh].  A tree of labels, the last label of a name at the top,
    with a value at the nodes where a name was added.  A lookup finds the
    longest added name a name is part of; block lists and zone selections are
    built on it. *)

From S2P Require Import Prelude Chars Names NamesFacts NamesOrder NamesText StdSet.

#[local] Open Scope Z_scope.

Section tree.
Context {T : Type} (T_default : T).

(** The children are a [std::set] ordered by [operator<]. *)
Inductive SuffixMatchTree : Type := mkTree {
  t_name : bytes;
  t_children : list SuffixMatchTree;
  t_endNode : bool;
  t_value : T;
}.

(** [SuffixMatchTree(name, endNode_)]. *)
Definition tree_make (name : bytes) (endNode_ : bool) : SuffixMatchTree :=
  mkTree name [] endNode_ T_default.

(** [operator<(const SuffixMatchTree&)]. *)
Definition tree_ltb (a b : SuffixMatchTree) : bool :=
  pdns_ilexicographical_compare (t_name a) (t_name b).

(** [LightKey::operator<] and [operator<(const LightKey&)]: the common length
    first, then the lengths. *)
Definition light_ltb (a b : bytes) : bool :=
  let compareUpTo := Z.min (zlen a) (zlen b) in
  let ret := pdns_ilexicographical_compare_three_way (ztake compareUpTo a) (ztake compareUpTo b) in
  if negb (ret =? 0) then ret <? 0
  else if zlen a =? zlen b then false
  else zlen a <? zlen b.

(** The lookup by a string of [std::set::find(LightKey)], and by a node. *)
Definition light_probe (l : bytes) : SuffixMatchTree -> comparison :=
  probe_of (fun c => light_ltb (t_name c) l) (fun c => light_ltb l (t_name c)).

Definition node_probe (n : SuffixMatchTree) : SuffixMatchTree -> comparison :=
  probe_of (fun c => tree_ltb c n) (fun c => tree_ltb n c).

(** [children.emplace(node)] and what is then done to the node in the set:
    [f] gets it and whether it was inserted. *)
Definition emplace_then (n : SuffixMatchTree) (f : SuffixMatchTree -> bool -> SuffixMatchTree)
  : list SuffixMatchTree -> list SuffixMatchTree :=
  set_alter (node_probe n) (fun o => Some (match o with None => f n true | Some c => f c false end)).

(** [add(labels, value)], on the labels from the last to the first. *)
Fixpoint tree_add_labels (rlabels : list bytes) (value : T) (t : SuffixMatchTree) : SuffixMatchTree :=
  match rlabels with
  | [] => mkTree (t_name t) (t_children t) true value
  | [l] =>
      mkTree (t_name t)
        (emplace_then (tree_make l true)
           (fun c inserted =>
              mkTree (t_name c) (t_children c)
                (if inserted then t_endNode c
                 else if negb (t_endNode c) then true else t_endNode c) value)
           (t_children t))
        (t_endNode t) (t_value t)
  | l :: rl =>
      mkTree (t_name t)
        (emplace_then (tree_make l false) (fun c _ => tree_add_labels rl value c) (t_children t))
        (t_endNode t) (t_value t)
  end.

Definition tree_add (name : DNSName) (value : T) (t : SuffixMatchTree) : SuffixMatchTree :=
  tree_add_labels (reverse (getRawLabels name)) value t.

(** [remove(labels, subtree)]; the recursive call leaves [subtree] at its
    default. *)
Fixpoint tree_remove_labels (rlabels : list bytes) (subtree : bool) (t : SuffixMatchTree)
  : SuffixMatchTree :=
  match rlabels with
  | [] => mkTree (t_name t) (if subtree then [] else t_children t) false (t_value t)
  | l :: rl =>
      mkTree (t_name t)
        (set_alter (node_probe (tree_make l false))
           (fun o =>
              match o with
              | None => None
              | Some child =>
                  match rl with
                  | [] =>
                      let grandchildren := if subtree then [] else t_children child in
                      match grandchildren with
                      | [] => None
                      | _ => Some (mkTree (t_name child) grandchildren false (t_value child))
                      end
                  | _ => Some (tree_remove_labels rl false child)
                  end
              end)
           (t_children t))
        (t_endNode t) (t_value t)
  end.

Definition tree_remove (name : DNSName) (subtree : bool) (t : SuffixMatchTree) : SuffixMatchTree :=
  tree_remove_labels (reverse (getRawLabels name)) subtree t.

(** [getBestNode(visitor)]; the fuel is the number of labels left. *)
Fixpoint getBestNode_visitor (fuel : nat) (t : SuffixMatchTree) (visitor : RawLabelsVisitor)
  : result (option SuffixMatchTree) :=
  let here := if t_endNode t then Some t else None in
  match fuel with
  | O => Ok here
  | S fuel' =>
      if visitor_empty visitor then Ok here
      else
        lk ← visitor_back visitor;
        match set_find (light_probe lk) (t_children t) with
        | None => Ok here
        | Some child =>
            r ← getBestNode_visitor fuel' child (fst (visitor_pop_back visitor));
            Ok (match r with Some n => Some n | None => here end)
        end
  end.

Definition getBestNode (t : SuffixMatchTree) (name : DNSName) : result (option SuffixMatchTree) :=
  if bool_decide (zlen (t_children t) = 0) then Ok (if t_endNode t then Some t else None)
  else visitor ← getRawLabelsVisitor name;
       getBestNode_visitor (Z.to_nat (v_position visitor)) t visitor.

Definition tree_lookup (t : SuffixMatchTree) (name : DNSName) : result (option T) :=
  r ← getBestNode t name;
  Ok (match r with Some node => Some (t_value node) | None => None end).

(** [getBestMatch(visitor)].  The name of the node is given to the constructor
    of [DNSName] from text. *)
Fixpoint getBestMatch_visitor (fuel : nat) (t : SuffixMatchTree) (visitor : RawLabelsVisitor)
  : result (option DNSName) :=
  let here := if t_endNode t then n ← DNSName_from_text (t_name t); Ok (Some n) else Ok None in
  match fuel with
  | O => here
  | S fuel' =>
      if visitor_empty visitor then here
      else
        lk ← visitor_back visitor;
        match set_find (light_probe lk) (t_children t) with
        | None => here
        | Some child =>
            r ← getBestMatch_visitor fuel' child (fst (visitor_pop_back visitor));
            match r with
            | Some n =>
                if bool_decide (t_name t = []) then Ok (Some n)
                else n' ← appendRawLabel n (t_name t); Ok (Some n')
            | None => here
            end
        end
  end.

Definition getBestMatch (t : SuffixMatchTree) (name : DNSName) : result (option DNSName) :=
  if bool_decide (zlen (t_children t) = 0) then Ok (if t_endNode t then Some g_rootdnsname else None)
  else visitor ← getRawLabelsVisitor name;
       getBestMatch_visitor (Z.to_nat (v_position visitor)) t visitor.
End tree.

Arguments SuffixMatchTree : clear implicits.
Arguments mkTree {T} _ _ _ _.

(** ** SuffixMatchNode *)

Record SuffixMatchNode : Type := mkNode {
  d_tree : SuffixMatchTree bool;
  d_nodes : list DNSName;  (* a [std::set<DNSName>] *)
}.

Definition SuffixMatchNode_new : SuffixMatchNode := mkNode (tree_make false [] false) [].

Definition node_add (dnsname : DNSName) (n : SuffixMatchNode) : SuffixMatchNode :=
  mkNode (tree_add false dnsname true (d_tree n)) (set_insert name_ltb dnsname (d_nodes n)).

Definition node_remove (name : DNSName) (n : SuffixMatchNode) : SuffixMatchNode :=
  mkNode (tree_remove false name false (d_tree n)) (set_erase name_ltb name (d_nodes n)).

(** What [SuffixMatchTree::add(labels)] and [remove(labels)] leave of the
    vector they are given: [add] takes a label off at every level but the last,
    [remove] at every level it finds. *)
Definition labels_left_by_add (labels : list bytes) : list bytes := take 1 labels.

Fixpoint rlabels_left_by_remove (rlabels : list bytes) (t : SuffixMatchTree bool) : list bytes :=
  match rlabels with
  | [] => []
  | l :: rl =>
      match set_find (node_probe (tree_make false l false)) (t_children t) with
      | None => rlabels
      | Some child => rlabels_left_by_remove rl child
      end
  end.

Definition set_tree (t : SuffixMatchTree bool) (n : SuffixMatchNode) : SuffixMatchNode :=
  mkNode t (d_nodes n).

Definition set_nodes (s : list DNSName) (n : SuffixMatchNode) : SuffixMatchNode :=
  mkNode (d_tree n) s.

(** [add(std::vector<std::string>)] and [remove(std::vector<std::string>)]: the
    tree is given the vector itself, and the name for [d_nodes] is built from
    what is left of it. *)
Definition node_add_labels (labels : list bytes) : SM SuffixMatchNode unit :=
  _ ← sm_modify (fun n => set_tree (tree_add_labels false (reverse labels) true (d_tree n)) n);
  tmp ← sm_lift (append_all (mkDNSName []) (reverse (labels_left_by_add labels)));
  sm_modify (fun n => set_nodes (set_insert name_ltb tmp (d_nodes n)) n).

Definition node_remove_labels (labels : list bytes) : SM SuffixMatchNode unit :=
  left ← sm_get (fun n => rlabels_left_by_remove (reverse labels) (d_tree n));
  _ ← sm_modify (fun n => set_tree (tree_remove_labels false (reverse labels) false (d_tree n)) n);
  tmp ← sm_lift (append_all (mkDNSName []) left);
  sm_modify (fun n => set_nodes (set_erase name_ltb tmp (d_nodes n)) n).

Definition node_check (n : SuffixMatchNode) (dnsname : DNSName) : result bool :=
  r ← tree_lookup (d_tree n) dnsname;
  Ok (bool_decide (is_Some r)).

Definition node_getBestMatch (n : SuffixMatchNode) (name : DNSName) : result (option DNSName) :=
  getBestMatch (d_tree n) name.

Definition toVector (n : SuffixMatchNode) : list DNSName := d_nodes n.

(** ** The order of the children *)

Abbreviation bytes_compare := (lex_compare Z.compare).

Lemma ilex_compare_lt a b :
  pdns_ilexicographical_compare a b = true <-> bytes_compare (toLower a) (toLower b) = Lt.
Proof.
  unfold pdns_ilexicographical_compare. rewrite <- ilex_compare_spec, Z.ltb_lt.
  symmetry. apply Z.compare_lt_iff.
Qed.

Lemma light_ltb_take n a b :
  n = Nat.min (length a) (length b) ->
  let ret := pdns_ilexicographical_compare_three_way (take n a) (take n b) in
  pdns_ilexicographical_compare a b
  = if negb (ret =? 0) then ret <? 0
    else if (length a =? length b)%nat then false else (length a <? length b)%nat.
Proof.
  unfold pdns_ilexicographical_compare. intros ->. revert b.
  induction a as [|x a IH]; intros [|y b]; try done.
  cbn [length Nat.min take pdns_ilexicographical_compare_three_way]. cbv zeta in *.
  destruct (x =? y); [apply IH|].
  destruct (Z.eqb_spec (dns_tolower x - dns_tolower y) 0) as [E|E]; cbn [negb]; [apply IH|].
  by rewrite (proj2 (Z.eqb_neq _ _) E).
Qed.

(** The comparison written out for [LightKey] is the comparison of nodes. *)
Lemma light_ltb_spec a b : light_ltb a b = pdns_ilexicographical_compare a b.
Proof.
  rewrite (light_ltb_take (Nat.min (length a) (length b)) a b eq_refl).
  unfold light_ltb, ztake, zlen. cbv zeta.
  replace (Z.to_nat (Z.min (Z.of_nat (length a)) (Z.of_nat (length b))))
    with (Nat.min (length a) (length b)) by lia.
  destruct (negb _); [done|].
  destruct (Nat.eqb_spec (length a) (length b)) as [E|E].
  - by rewrite E, Z.eqb_refl.
  - rewrite (proj2 (Z.eqb_neq _ _)) by lia.
    destruct (Nat.ltb_spec (length a) (length b)); [by apply Z.ltb_lt; lia|by apply Z.ltb_ge; lia].
Qed.

Section facts.
Context {T : Type} (T_default : T).
Implicit Types (t c : SuffixMatchTree T) (l : bytes) (rl p : list bytes) (v : T).

Definition t_key (t : SuffixMatchTree T) : bytes := toLower (t_name t).

Lemma light_probe_key l c : light_probe l c = key_probe t_key bytes_compare (toLower l) c.
Proof.
  apply (probe_of_key t_key bytes_compare); rewrite light_ltb_spec; apply ilex_compare_lt.
Qed.

Lemma node_probe_key n c : node_probe n c = key_probe t_key bytes_compare (t_key n) c.
Proof. apply (probe_of_key t_key bytes_compare); apply ilex_compare_lt. Qed.

Definition child_get (k : bytes) (cs : list (SuffixMatchTree T)) : option (SuffixMatchTree T) :=
  set_get t_key bytes_compare k cs.

Lemma find_light l cs : set_find (light_probe l) cs = child_get (toLower l) cs.
Proof. apply set_find_ext, Forall_forall. intros c _. apply light_probe_key. Qed.

Lemma find_node n cs : set_find (node_probe n) cs = child_get (t_key n) cs.
Proof. apply set_find_ext, Forall_forall. intros c _. apply node_probe_key. Qed.

Lemma alter_node n f cs :
  set_alter (node_probe n) f cs = set_alter (key_probe t_key bytes_compare (t_key n)) f cs.
Proof. apply set_alter_ext, Forall_forall. intros c _. apply node_probe_key. Qed.

(** ** The invariant, and what a tree holds *)

Inductive wf_tree : SuffixMatchTree T -> Prop :=
| wf_node t :
    set_sorted t_key bytes_compare (t_children t) -> Forall wf_tree (t_children t) -> wf_tree t.

Definition value_here (t : SuffixMatchTree T) : option T :=
  if t_endNode t then Some (t_value t) else None.

(** The value at the end of a path of labels in lower case, top down. *)
Fixpoint value_at (p : list bytes) (t : SuffixMatchTree T) : option T :=
  match p with
  | [] => value_here t
  | k :: p' => match child_get k (t_children t) with Some c => value_at p' c | None => None end
  end.

Lemma value_at_leaf p l : value_at p (tree_make T_default l false) = None.
Proof. by destruct p. Qed.

Lemma child_wf t k c : wf_tree t -> child_get k (t_children t) = Some c -> wf_tree c /\ t_key c = k.
Proof.
  destruct 1 as [t _ Hc]. intros [Hk Hin]%(set_get_key t_key bytes_compare). split; [|done].
  rewrite Forall_forall in Hc. by apply Hc.
Qed.

(** An update of the child at a key: it keeps the invariant and is seen by the
    paths through that key only. *)
Lemma alter_wf t k f (b : bool) v :
  wf_tree t -> keeps_key t_key k f ->
  (forall o c, (forall c', o = Some c' -> wf_tree c') -> f o = Some c -> wf_tree c) ->
  wf_tree (mkTree (t_name t) (set_alter (key_probe t_key bytes_compare k) f (t_children t)) b v).
Proof.
  destruct 1 as [t Hs Hc]. intros Hk Hw. constructor; simpl.
  - by apply alter_sorted; [apply _| |].
  - apply (alter_Forall t_key bytes_compare k f); [|done].
    intros o c Ho Hf. apply (Hw o); [|done]. intros c' E. by apply Ho.
Qed.

Lemma alter_value_at t k f (b : bool) v k' p :
  wf_tree t -> keeps_key t_key k f ->
  value_at (k' :: p) (mkTree (t_name t) (set_alter (key_probe t_key bytes_compare k) f (t_children t)) b v)
  = if decide (k' = k)
    then match f (child_get k (t_children t)) with Some c => value_at p c | None => None end
    else value_at (k' :: p) t.
Proof.
  destruct 1 as [t Hs _]. intros Hk. cbn [value_at t_children]. unfold child_get.
  rewrite (alter_get t_key bytes_compare k f Hk) by done. by destruct (decide _) as [->|].
Qed.

Lemma emplace_keeps_key n f :
  (forall c b, t_key (f c b) = t_key c) ->
  keeps_key t_key (t_key n)
    (fun o => Some (match o with None => f n true | Some c => f c false end)).
Proof. intros Hf [c|] y Ho [= <-]; rewrite Hf; [by apply Ho|done]. Qed.

Lemma add_labels_name rl v t : t_name (tree_add_labels T_default rl v t) = t_name t.
Proof. by destruct rl as [|? [|]]. Qed.

Lemma remove_labels_name rl b t : t_name (tree_remove_labels T_default rl b t) = t_name t.
Proof. by destruct rl. Qed.

Lemma leaf_wf l b : wf_tree (tree_make T_default l b).
Proof. constructor; constructor. Qed.

Lemma set_value_wf t b v : wf_tree t -> wf_tree (mkTree (t_name t) (t_children t) b v).
Proof. destruct 1. by constructor. Qed.

(** [add], one level at a time: at the last label and above it. *)
Lemma add_labels_cons l rl v t :
  exists n f,
    t_key n = toLower l
    /\ (forall c b, t_key (f c b) = t_key c)
    /\ (forall c b, wf_tree c -> wf_tree (tree_add_labels T_default rl v c) -> wf_tree (f c b))
    /\ (forall c p, value_at p (f c false) = value_at p (tree_add_labels T_default rl v c))
    /\ wf_tree n
    /\ (forall p, value_at p (f n true) = value_at p (tree_add_labels T_default rl v (tree_make T_default l false)))
    /\ tree_add_labels T_default (l :: rl) v t
       = mkTree (t_name t)
           (set_alter (key_probe t_key bytes_compare (t_key n))
              (fun o => Some (match o with None => f n true | Some c => f c false end)) (t_children t))
           (t_endNode t) (t_value t).
Proof.
  destruct rl as [|l' rl].
  - exists (tree_make T_default l true),
      (fun c (inserted : bool) =>
         mkTree (t_name c) (t_children c)
           (if inserted then t_endNode c else if negb (t_endNode c) then true else t_endNode c) v).
    rewrite <- alter_node. split; [done|]. split; [done|].
    split_and!; [intros c b Hc _; by apply set_value_wf| |apply leaf_wf|by intros [|k p]|done].
    intros c [|k p]; simpl; unfold value_here; simpl; [by destruct (t_endNode c)|done].
  - exists (tree_make T_default l false), (fun c _ => tree_add_labels T_default (l' :: rl) v c).
    rewrite <- alter_node. split_and!; [done| |done|done|apply leaf_wf|done|done].
    intros c b. unfold t_key. by rewrite add_labels_name.
Qed.

Lemma add_labels_wf rl v t : wf_tree t -> wf_tree (tree_add_labels T_default rl v t).
Proof.
  revert t. induction rl as [|l rl IH]; intros t Hw; [by apply set_value_wf|].
  destruct (add_labels_cons l rl v t) as (n & f & Hn & Hf & Hfw & _ & Hnw & _ & ->).
  apply alter_wf; [done|by apply emplace_keeps_key|].
  intros [c|] c' Ho [= <-]; apply Hfw; auto.
Qed.

(** Adding a name gives it its value and changes no other. *)
Lemma add_labels_value rl v t p :
  wf_tree t ->
  value_at p (tree_add_labels T_default rl v t)
  = if decide (p = ci_labels rl) then Some v else value_at p t.
Proof.
  revert t p. induction rl as [|l rl IH]; intros t p Hw.
  - destruct p; [done|]. by rewrite decide_False by done.
  - destruct (add_labels_cons l rl v t) as (n & f & Hn & Hf & Hfw & Hfv & Hnw & Hnv & ->).
    destruct p as [|k p]; [done|].
    rewrite alter_value_at by (done || by apply emplace_keeps_key).
    unfold ci_labels. cbn [map]. fold (ci_labels rl). rewrite Hn.
    destruct (decide (k = toLower l)) as [->|Hne]; [|by rewrite decide_False by congruence].
    cbn [value_at]. destruct (child_get _ _) as [c|] eqn:E.
    + rewrite Hfv, IH by apply (child_wf _ _ _ Hw E). destruct (decide (p = ci_labels rl)) as [->|].
      * by rewrite decide_True.
      * by rewrite decide_False by congruence.
    + rewrite Hnv, IH by apply leaf_wf. rewrite value_at_leaf.
      destruct (decide (p = ci_labels rl)) as [->|]; [by rewrite decide_True|].
      by rewrite decide_False by congruence.
Qed.

Definition remove_child (rl : list bytes) (subtree : bool) (o : option (SuffixMatchTree T))
  : option (SuffixMatchTree T) :=
  match o with
  | None => None
  | Some child =>
      match rl with
      | [] =>
          let grandchildren := if subtree then [] else t_children child in
          match grandchildren with
          | [] => None
          | _ => Some (mkTree (t_name child) grandchildren false (t_value child))
          end
      | _ => Some (tree_remove_labels T_default rl false child)
      end
  end.

Lemma remove_labels_cons l rl subtree t :
  tree_remove_labels T_default (l :: rl) subtree t
  = mkTree (t_name t)
      (set_alter (key_probe t_key bytes_compare (toLower l)) (remove_child rl subtree) (t_children t))
      (t_endNode t) (t_value t).
Proof. cbn [tree_remove_labels]. by rewrite alter_node. Qed.

Lemma remove_child_key k rl subtree : keeps_key t_key k (remove_child rl subtree).
Proof.
  intros [c|] y Ho; simpl; [|done]. specialize (Ho c eq_refl).
  destruct rl; [destruct (if subtree then _ else _); [done|]|]; intros [= <-]; done.
Qed.

Lemma remove_labels_wf rl subtree t :
  wf_tree t -> wf_tree (tree_remove_labels T_default rl subtree t).
Proof.
  revert subtree t. induction rl as [|l rl IH]; intros subtree t Hw.
  - destruct Hw. destruct subtree; by repeat constructor.
  - rewrite remove_labels_cons. apply alter_wf; [done|apply remove_child_key|].
    intros [c|] c' Ho; cbn [remove_child]; [|done]. specialize (Ho c eq_refl).
    destruct rl as [|l' rl]; [|intros <-%(inj Some); by apply IH].
    destruct subtree; [done|]. destruct (t_children c) eqn:E; [done|].
    intros [= <-]. rewrite <- E. by apply set_value_wf.
Qed.

(** Removing a name takes its value away and changes no other. *)
Lemma remove_labels_value rl t p :
  wf_tree t ->
  value_at p (tree_remove_labels T_default rl false t)
  = if decide (p = ci_labels rl) then None else value_at p t.
Proof.
  revert t p. induction rl as [|l rl IH]; intros t p Hw.
  - destruct p; [done|]. by rewrite decide_False by done.
  - rewrite remove_labels_cons. destruct p as [|k p]; [done|].
    rewrite alter_value_at by (done || apply remove_child_key).
    unfold ci_labels. cbn [map]. fold (ci_labels rl).
    destruct (decide (k = toLower l)) as [->|Hne]; [|by rewrite decide_False by congruence].
    cbn [value_at]. destruct (child_get _ _) as [c|] eqn:E; cbn [remove_child]; [|by destruct (decide _)].
    assert (forall q : option T, (if decide (toLower l :: p = toLower l :: ci_labels rl) then None else q)
                     = if decide (p = ci_labels rl) then None else q) as ->.
    { intros q. destruct (decide (p = _)) as [->|]; [by rewrite decide_True|].
      by rewrite decide_False by congruence. }
    destruct rl as [|l' rl]; [|by rewrite IH by apply (child_wf _ _ _ Hw E)].
    destruct (t_children c) eqn:Ec.
    + destruct p; simpl; [done|]. by rewrite Ec.
    + rewrite <- Ec. by destruct p.
Qed.

(** ** Lookups *)

(** The deepest end node on a path. *)
Fixpoint best_node (p : list bytes) (t : SuffixMatchTree T) : option (SuffixMatchTree T) :=
  let here := if t_endNode t then Some t else None in
  match p with
  | [] => here
  | k :: p' =>
      match child_get k (t_children t) with
      | None => here
      | Some c => match best_node p' c with Some n => Some n | None => here end
      end
  end.

Lemma getBestNode_visitor_spec ls (vis : RawLabelsVisitor) t fuel :
  shows vis ls -> fuel = length ls ->
  getBestNode_visitor fuel t vis = Ok (best_node (reverse (ci_labels ls)) t).
Proof.
  revert vis t fuel. induction ls as [|l ls IH] using rev_ind; intros vis t fuel Hs ->; [done|].
  rewrite length_app, Nat.add_comm. cbn [length Nat.add getBestNode_visitor].
  rewrite (shows_empty _ _ Hs), bool_decide_eq_false_2 by by destruct ls.
  rewrite (shows_back _ _ _ Hs). cbn [mbind result_bind].
  unfold ci_labels. rewrite map_app, reverse_app. cbn [map reverse rev_append app best_node].
  rewrite find_light. destruct (child_get _ _) as [c|]; [|done].
  rewrite (IH _ c (length ls)) by (done || by eapply shows_pop). done.
Qed.

Lemma getBestNode_spec t n ls :
  represents n ls -> getBestNode t n = Ok (best_node (reverse (ci_labels ls)) t).
Proof.
  intros Hr. unfold getBestNode. case_bool_decide as E.
  - apply zlen_zero_inv in E. destruct (reverse _); simpl; [done|]. by rewrite E.
  - destruct (getRawLabelsVisitor_shows _ _ Hr) as (v & -> & Hv). cbn [mbind result_bind].
    apply getBestNode_visitor_spec; [done|]. rewrite (shows_position _ _ Hv). unfold zlen. lia.
Qed.

(** The node found is the one at the longest path with a value. *)
Lemma best_node_spec p t :
  match best_node p t with
  | Some n =>
      exists q r, p = q ++ r /\ value_at q t = Some (t_value n)
        /\ forall q' r', p = q' ++ r' -> (length q < length q')%nat -> value_at q' t = None
  | None => forall q r, p = q ++ r -> value_at q t = None
  end.
Proof.
  assert (forall p t n, (if t_endNode t then Some t else None) = Some n ->
    (forall k p' r', p = (k :: p') ++ r' -> value_at (k :: p') t = None) ->
    exists q r, p = q ++ r /\ value_at q t = Some (t_value n)
      /\ forall q' r', p = q' ++ r' -> (length q < length q')%nat -> value_at q' t = None) as Hhere.
  { intros p' t' n E Hno. exists [], p'. split; [done|]. simpl. unfold value_here.
    destruct (t_endNode t'); simplify_eq. split; [done|].
    intros [|k q'] r' Eq Hq; [simpl in Hq; lia|]. by apply (Hno k q' r'). }
  assert (forall p t, (if t_endNode t then Some t else None) = None ->
    (forall k p' r', p = (k :: p') ++ r' -> value_at (k :: p') t = None) ->
    forall q r, p = q ++ r -> value_at q t = None) as Hnone.
  { intros p' t' E Hno [|k q] r Eq; simpl; [unfold value_here; by destruct (t_endNode t')|].
    by apply (Hno k q r). }
  revert t. induction p as [|k p IH]; intros t; cbn [best_node].
  - destruct (if t_endNode t then _ else _) eqn:E; [by apply Hhere|by apply Hnone].
  - destruct (child_get k (t_children t)) as [c|] eqn:Ec.
    + specialize (IH c). destruct (best_node p c) as [n|].
      * destruct IH as (q & r & -> & Hq & Hmax). exists (k :: q), r. split; [done|].
        simpl. rewrite Ec. split; [done|]. intros [|k' q'] r' Eq Hl; simpl in *; [lia|].
        injection Eq as <- Eq. rewrite Ec. apply (Hmax q' r'); [done|lia].
      * assert (forall k' p' r', k :: p = (k' :: p') ++ r' -> value_at (k' :: p') t = None) as Hno.
        { intros k' p' r' [= <- ->]. simpl. rewrite Ec. by apply (IH p' r'). }
        destruct (if t_endNode t then _ else _) eqn:E; [by apply Hhere|by apply Hnone].
    + assert (forall k' p' r', k :: p = (k' :: p') ++ r' -> value_at (k' :: p') t = None) as Hno.
      { intros k' p' r' [= <- ->]. simpl. by rewrite Ec. }
      destruct (if t_endNode t then _ else _) eqn:E; [by apply Hhere|by apply Hnone].
Qed.
End facts.
