(* ===== verification/SuffixSpec.v ===== *)
(** * What suffix matching promises

    A [SuffixMatchTree] implements a map from names to values, whatever its
    history, and its lookup is the longest match in that map.  A
    [SuffixMatchNode] answers whether a name is part of one of the names it
    holds. *)

From S2P Require Import Prelude Chars Names NamesFacts NamesOrder NamesText StdSet SuffixTree.

#[local] Open Scope Z_scope.

(** ** The abstract map *)

Section refinement.
Context {T : Type} (T_default : T).

(** A history of a tree, and what it does to the tree and to the map from
    label sequences in lower case it stands for. *)
Inductive tree_op : Type :=
| AddName (name : DNSName) (v : T)
| RemoveName (name : DNSName).

Definition op_name (o : tree_op) : DNSName :=
  match o with AddName n _ => n | RemoveName n => n end.

Definition step_tree (t : SuffixMatchTree T) (o : tree_op) : SuffixMatchTree T :=
  match o with
  | AddName n v => tree_add T_default n v t
  | RemoveName n => tree_remove T_default n false t
  end.

Definition step_map (m : list bytes -> option T) (o : tree_op) : list bytes -> option T :=
  fun ls =>
    if decide (ls = ci_labels (getRawLabels (op_name o)))
    then match o with AddName _ v => Some v | RemoveName _ => None end
    else m ls.

Definition run_tree (ops : list tree_op) : SuffixMatchTree T :=
  foldl step_tree (tree_make T_default [] false) ops.

Definition run_map (ops : list tree_op) : list bytes -> option T :=
  foldl step_map (fun _ => None) ops.

(** The value of the longest ending of some labels the map has one for. *)
Fixpoint longest_match (m : list bytes -> option T) (ls : list bytes) : option T :=
  match m (ci_labels ls) with
  | Some v => Some v
  | None => match ls with [] => None | _ :: ls' => longest_match m ls' end
  end.

(** The map a tree stands for. *)
Definition map_of (t : SuffixMatchTree T) (ls : list bytes) : option T := value_at (reverse ls) t.

Lemma ci_reverse ls : ci_labels (reverse ls) = reverse (ci_labels ls).
Proof. apply map_reverse. Qed.

Lemma step_refines t o :
  wf_tree t ->
  wf_tree (step_tree t o) /\ forall ls, map_of (step_tree t o) ls = step_map (map_of t) o ls.
Proof.
  intros Hw. destruct o as [n v|n]; cbn [step_tree]; unfold tree_add, tree_remove, map_of, step_map;
    simpl; (split; [auto using add_labels_wf, remove_labels_wf|]); intros ls.
  - rewrite add_labels_value by done. rewrite ci_reverse.
    destruct (decide (ls = _)) as [->|Hne]; [by rewrite decide_True|].
    rewrite decide_False; [done|]. intros E%(inj reverse). done.
  - rewrite remove_labels_value by done. rewrite ci_reverse.
    destruct (decide (ls = _)) as [->|Hne]; [by rewrite decide_True|].
    rewrite decide_False; [done|]. intros E%(inj reverse). done.
Qed.

Lemma run_refines ops :
  wf_tree (run_tree ops) /\ forall ls, map_of (run_tree ops) ls = run_map ops ls.
Proof.
  unfold run_tree, run_map.
  assert (forall t m, wf_tree t -> (forall ls, map_of t ls = m ls) ->
    wf_tree (foldl step_tree t ops)
    /\ forall ls, map_of (foldl step_tree t ops) ls = foldl step_map m ops ls) as H.
  { induction ops as [|o ops IH]; intros t m Hw Hm; [done|]. simpl.
    destruct (step_refines t o Hw) as [Hw' Hs]. apply IH; [done|].
    intros ls. rewrite Hs. unfold step_map. case_decide; [done|]. apply Hm. }
  apply H; [apply leaf_wf|]. intros ls. apply value_at_leaf.
Qed.

Lemma best_node_snoc p k (t : SuffixMatchTree T) :
  option_map t_value (best_node (p ++ [k]) t)
  = match value_at (p ++ [k]) t with
    | Some v => Some v
    | None => option_map t_value (best_node p t)
    end.
Proof.
  revert t. induction p as [|x p IH]; intros t; simpl.
  - destruct (child_get k _) as [c|]; [|done]. unfold value_here. by destruct (t_endNode c).
  - destruct (child_get x _) as [c|]; [|done]. specialize (IH c).
    destruct (best_node (p ++ [k]) c), (value_at (p ++ [k]) c), (best_node p c); simpl in *; congruence.
Qed.

Lemma best_node_longest (t : SuffixMatchTree T) ls :
  option_map t_value (best_node (reverse (ci_labels ls)) t) = longest_match (map_of t) ls.
Proof.
  induction ls as [|l ls IH].
  - simpl. unfold map_of. simpl. unfold value_here. by destruct (t_endNode t).
  - cbn [longest_match]. unfold map_of at 1. unfold ci_labels at 1 2. cbn [map].
    rewrite reverse_cons, best_node_snoc. fold (ci_labels ls).
    destruct (value_at _ t); [done|]. apply IH.
Qed.

Lemma tree_lookup_spec (t : SuffixMatchTree T) n ls :
  represents n ls -> tree_lookup t n = Ok (longest_match (map_of t) ls).
Proof.
  intros Hr. unfold tree_lookup. rewrite (getBestNode_spec t n ls Hr), <- best_node_longest.
  cbn [mbind result_bind]. by destruct (best_node _ t).
Qed.

Lemma longest_match_ext m m' ls : (forall x, m x = m' x) -> longest_match m ls = longest_match m' ls.
Proof. intros E. induction ls as [|l ls IH]; cbn [longest_match]; rewrite E; [done|]. by rewrite IH. Qed.

Lemma longest_match_some m ls :
  is_Some (longest_match m ls) <-> exists s, s `suffix_of` ls /\ is_Some (m (ci_labels s)).
Proof.
  induction ls as [|l ls IH]; cbn [longest_match].
  - split.
    + intros H. exists []. split; [done|]. by destruct (m _).
    + intros (s & Hs%suffix_nil_inv & H). subst. by destruct (m _).
  - destruct (m (ci_labels (l :: ls))) eqn:E.
    + split; [|done]. intros _. exists (l :: ls). by rewrite E.
    + rewrite IH. split; intros (s & Hs & H); exists s; (split; [|done]).
      * by apply suffix_cons_r.
      * apply suffix_cons_ne in Hs; [done|]. intros ->. rewrite E in H. by destruct H.
Qed.

(** C15: a [SuffixMatchTree] refines a map from names to values.  After any
    history of additions and removals, the lookup of a name finds the value
    last given to the longest added name it is part of, case apart, and nothing
    when there is none; it never throws. *)
Theorem tree_lookup_refines (ops : list tree_op) (n : DNSName) (ls : list bytes) :
  represents n ls ->
  tree_lookup (run_tree ops) n = Ok (longest_match (run_map ops) ls).
Proof.
  intros Hr. rewrite (tree_lookup_spec _ n ls Hr). f_equal. apply longest_match_ext.
  intros x. apply run_refines.
Qed.
End refinement.

Definition ex_of (ls : list bytes) : DNSName := mkDNSName (storage_of ls).

Definition ex_ops : list (tree_op (T := Z)) :=
  [AddName (ex_of [bs "com"]) 1; AddName (ex_of [bs "PowerDNS"; bs "COM"]) 2;
   AddName (ex_of [bs "www"; bs "powerdns"; bs "com"]) 3; RemoveName (ex_of [bs "WWW"; bs "powerdns"; bs "com"])].

Lemma tree_lookup_refines_witness :
  tree_lookup (run_tree 0 ex_ops) (ex_of [bs "a"; bs "www"; bs "powerdns"; bs "com"]) = Ok (Some 2).
Proof.
  rewrite (tree_lookup_refines 0 ex_ops _ [bs "a"; bs "www"; bs "powerdns"; bs "com"]); [|by_decide].
  vm_compute. reflexivity.
Defined.

(** ** SuffixMatchNode *)

(** The nodes that can be made with legal names. *)
Inductive node_reach : SuffixMatchNode -> Prop :=
| reach_new : node_reach SuffixMatchNode_new
| reach_add n z zs : node_reach n -> represents z zs -> node_reach (node_add z n)
| reach_remove n z zs : node_reach n -> represents z zs -> node_reach (node_remove z n).

Definition name_key (n : DNSName) : bytes := reverse (toLower (d_storage n)).

Abbreviation name_get := (set_get name_key bytes_compare).

Lemma name_key_ci n m ls ms :
  represents n ls -> represents m ms -> name_key n = name_key m <-> ci_labels ls = ci_labels ms.
Proof.
  intros Hn Hm. rewrite <- (name_eqb_represents n m ls ms Hn Hm), name_eqb_spec. unfold name_key.
  split; [apply (inj reverse)|by intros ->].
Qed.

Record node_inv (n : SuffixMatchNode) : Prop := mkNodeInv {
  ni_tree : wf_tree (d_tree n);
  ni_sorted : set_sorted name_key bytes_compare (d_nodes n);
  ni_named : Forall (fun z => exists zs, represents z zs) (d_nodes n);
  ni_same : forall z zs, represents z zs ->
    is_Some (map_of (d_tree n) (ci_labels zs)) <-> is_Some (name_get (name_key z) (d_nodes n));
}.

Lemma set_insert_named z zs l :
  represents z zs -> Forall (fun z => exists zs, represents z zs) l ->
  Forall (fun z => exists zs, represents z zs) (set_insert name_ltb z l).
Proof.
  intros Hz Hl. rewrite (set_insert_alter name_key bytes_compare) by apply name_ltb_spec.
  apply (alter_Forall name_key bytes_compare); [|done].
  intros [y|] w Ho [= <-]; simpl; [by apply Ho|eauto].
Qed.

Lemma set_erase_named z l :
  Forall (fun z => exists zs, represents z zs) l ->
  Forall (fun z => exists zs, represents z zs) (set_erase name_ltb z l).
Proof.
  intros Hl. rewrite (set_erase_alter name_key bytes_compare) by apply name_ltb_spec.
  by apply (alter_Forall name_key bytes_compare).
Qed.

Lemma node_add_inv n z zs : node_inv n -> represents z zs -> node_inv (node_add z n).
Proof.
  intros [Ht Hs Hn Hm] Hz.
  destruct (step_refines false (d_tree n) (AddName z true) Ht) as [Hw Hmap].
  constructor; simpl; [done| |by eapply set_insert_named|].
  - by apply (set_insert_sorted name_key bytes_compare); [apply name_ltb_spec|].
  - intros y ys Hy. change (tree_add false z true (d_tree n)) with (step_tree false (d_tree n) (AddName z true)).
    rewrite Hmap. unfold step_map. simpl. rewrite (getRawLabels_represents z zs Hz).
    rewrite (set_insert_get name_key bytes_compare _ name_ltb_spec) by done.
    destruct (decide (ci_labels ys = ci_labels zs)) as [E|E].
    + rewrite decide_True by by apply (name_key_ci y z ys zs). split; by eexists.
    + rewrite decide_False by by rewrite (name_key_ci y z ys zs). by apply Hm.
Qed.

Lemma node_remove_inv n z zs : node_inv n -> represents z zs -> node_inv (node_remove z n).
Proof.
  intros [Ht Hs Hn Hm] Hz.
  destruct (step_refines false (d_tree n) (RemoveName z) Ht) as [Hw Hmap].
  constructor; simpl; [done| |by apply set_erase_named|].
  - by apply (set_erase_sorted name_key bytes_compare); [apply name_ltb_spec|].
  - intros y ys Hy. change (tree_remove false z false (d_tree n)) with (step_tree false (d_tree n) (RemoveName z)).
    rewrite Hmap. unfold step_map. simpl. rewrite (getRawLabels_represents z zs Hz).
    rewrite (set_erase_get name_key bytes_compare _ name_ltb_spec) by done.
    destruct (decide (ci_labels ys = ci_labels zs)) as [E|E].
    + rewrite decide_True by by apply (name_key_ci y z ys zs). split; by intros [? ?].
    + rewrite decide_False by by rewrite (name_key_ci y z ys zs). by apply Hm.
Qed.

Lemma node_reach_inv n : node_reach n -> node_inv n.
Proof.
  induction 1; [|by eapply node_add_inv|by eapply node_remove_inv].
  constructor; simpl; [apply leaf_wf|constructor..|].
  intros z zs _. unfold map_of. by rewrite value_at_leaf, !is_Some_alt.
Qed.

Definition is_part (n z : DNSName) : bool :=
  match isPartOf n z with Ok b => b | Throw _ => false end.

(** the block list works.  After any additions and removals of names,
    [check] says yes to a name exactly when it is part of one of the names of
    the set the node keeps beside its tree; in particular tree and set never
    disagree. *)
Theorem node_check_exact (n : SuffixMatchNode) (name : DNSName) (ls : list bytes) :
  node_reach n -> represents name ls ->
  node_check n name = Ok (existsb (is_part name) (d_nodes n)).
Proof.
  intros [Ht Hs Hn Hm]%node_reach_inv Hr. unfold node_check.
  rewrite (tree_lookup_spec _ name ls Hr). cbn [mbind result_bind]. f_equal.
  apply eq_true_iff_eq. rewrite bool_decide_eq_true, longest_match_some, existsb_exists.
  split.
  - intros (s & Hsuf & Hsome). pose proof Hsuf as [pre ->].
    apply represents_suffix in Hr as Hrs. apply (Hm _ _ Hrs) in Hsome as [z Hz].
    apply (set_get_key name_key bytes_compare) in Hz as [Hk Hin].
    exists z. split; [by apply list_elem_of_In|].
    rewrite Forall_forall in Hn. destruct (Hn z Hin) as [zs Hzs]. unfold is_part.
    rewrite (isPartOf_represents _ _ _ _ Hr Hzs). apply bool_decide_eq_true.
    apply (name_key_ci _ _ _ _ Hzs Hrs) in Hk as ->. unfold ci_labels. rewrite map_app. by eexists.
  - intros (z & Hin%list_elem_of_In & Hp). rewrite Forall_forall in Hn.
    destruct (Hn z Hin) as [zs Hzs]. unfold is_part in Hp.
    rewrite (isPartOf_represents _ _ _ _ Hr Hzs) in Hp. apply bool_decide_eq_true in Hp.
    apply suffix_ci_split in Hp as (pre & post & -> & E). exists post. split; [by eexists|].
    rewrite E. apply (Hm _ _ Hzs). rewrite (set_get_elem name_key bytes_compare) by done. done.
Qed.

Definition ex_node : SuffixMatchNode :=
  node_remove (ex_of [bs "net"])
    (node_add (ex_of [bs "net"]) (node_add (ex_of [bs "Example"; bs "com"]) SuffixMatchNode_new)).

Lemma node_check_exact_witness :
  node_check ex_node (ex_of [bs "www"; bs "example"; bs "COM"])
  = Ok (existsb (is_part (ex_of [bs "www"; bs "example"; bs "COM"])) (d_nodes ex_node))
  /\ node_check ex_node (ex_of [bs "www"; bs "example"; bs "COM"]) = Ok true
  /\ node_check ex_node (ex_of [bs "net"]) = Ok false.
Proof.
  split; [|by_decide].
  apply (node_check_exact ex_node _ [bs "www"; bs "example"; bs "COM"]); [|by_decide].
  apply (reach_remove _ _ [bs "net"]); [|by_decide]. apply (reach_add _ _ [bs "net"]); [|by_decide].
  apply (reach_add _ _ [bs "Example"; bs "com"]); [apply reach_new|by_decide].
Defined.

(** ** Where the tree does not do what it says *)

Definition ex_subtree : SuffixMatchTree Z :=
  run_tree 0 [AddName (ex_of [bs "example"; bs "com"]) 1; AddName (ex_of [bs "www"; bs "example"; bs "com"]) 2].

(** Removing a name with all below it works for a name of one label only: for
    a longer one the recursive call forgets [subtree], and the names below stay. *)
Theorem remove_subtree_incomplete :
  tree_lookup (tree_remove 0 (ex_of [bs "com"]) true ex_subtree) (ex_of [bs "www"; bs "example"; bs "com"])
  = Ok None
  /\ tree_lookup (tree_remove 0 (ex_of [bs "example"; bs "com"]) true ex_subtree)
       (ex_of [bs "www"; bs "example"; bs "com"])
     = Ok (Some 2).
Proof. by_decide. Qed.

(** The best match is built by reading the label of a node as the text of a
    name: a label with a dot in it comes back as two labels, and the best match
    of a name is not a name it is part of. *)
Theorem getBestMatch_splits_label :
  let n := ex_of [bs "www"; bs "a.b"; bs "com"] in
  let t := run_tree 0 [AddName (ex_of [bs "a.b"; bs "com"]) 1] in
  getBestMatch t n = Ok (Some (ex_of [bs "a"; bs "b"; bs "com"]))
  /\ isPartOf n (ex_of [bs "a"; bs "b"; bs "com"]) = Ok false.
Proof. cbv zeta. by_decide. Qed.

(** The variant of [add] that takes labels gives the tree its own copy of the
    vector, of which a single label is left afterwards: the set of names gets
    that label instead of the name. *)
Theorem node_add_labels_shows_wrong_name :
  toVector (fst (node_add_labels [bs "www"; bs "example"; bs "com"] SuffixMatchNode_new))
  = [ex_of [bs "www"]].
Proof. by_decide. Qed.
