(* ===== verification/Mangler.v ===== *)
(** * Walking and editing packets in place

    [DNSPacketMangler] of [pdns/dnsparser.hh] and the functions of
    [pdns/dnsparser.cc] built on it: ageing a cached packet, editing its TTLs,
    its smallest TTL, its real length, counting and looking for records, the
    EDNS parameters, shuffling the first record set.  All of them swallow
    exceptions, so what they have done before one is kept: the state survives
    it in the model too. *)

From S2P Require Import Prelude Chars Dns Names NamesWire.

#[local] Open Scope Z_scope.

(** ** DNSPacketMangler *)

Record DNSPacketMangler : Type := mkMangler {
  d_packet : bytes;
  d_offset : Z;
}.

Definition d_length (m : DNSPacketMangler) : Z := zlen (d_packet m).

Definition mangler (packet : bytes) : DNSPacketMangler := mkMangler packet 12.

(** The offset is advanced before the check, as in the source. *)
Definition moveOffset (by_ : Z) : SM DNSPacketMangler unit :=
  _ ← sm_modify (fun m => mkMangler (d_packet m) (d_offset m + by_));
  m ← sm_get (fun m => m);
  sm_throw_if (d_length m <? d_offset m) (out_of_range "dns packet out of range").

Definition rewindOffset (by_ : Z) : SM DNSPacketMangler unit :=
  m ← sm_get (fun m => m);
  _ ← sm_throw_if (d_offset m <? by_) (out_of_range "Rewinding dns packet out of range");
  _ ← sm_modify (fun m => mkMangler (d_packet m) (d_offset m - by_));
  sm_throw_if (d_offset m - by_ <? 12) (out_of_range "Rewinding dns packet out of range").

Definition skipBytes (bytes_ : Z) : SM DNSPacketMangler unit := moveOffset bytes_.

Definition rewindBytes (by_ : Z) : SM DNSPacketMangler unit := rewindOffset by_.

Definition get8BitInt : SM DNSPacketMangler Z :=
  p ← sm_get d_offset; _ ← moveOffset 1; sm_get (fun m => byte_at (d_packet m) p).

Definition get16BitInt : SM DNSPacketMangler Z :=
  p ← sm_get d_offset; _ ← moveOffset 2; sm_get (fun m => get16 (d_packet m) p).

Definition get32BitInt : SM DNSPacketMangler Z :=
  p ← sm_get d_offset; _ ← moveOffset 4; sm_get (fun m => get32 (d_packet m) p).

(** Every round of the loop consumes at least a byte. *)
Fixpoint skipDomainName_loop (fuel : nat) (isRoot : bool) : SM DNSPacketMangler bool :=
  match fuel with
  | O => sm_throw out_of_fuel
  | S fuel' =>
      len ← get8BitInt;
      if len =? 0 then mret isRoot
      else if 192 <=? len then (_ ← get8BitInt; mret false)
      else (_ ← skipBytes len; skipDomainName_loop fuel' false)
  end.

Definition skipDomainName : SM DNSPacketMangler bool :=
  m ← sm_get (fun m => m); skipDomainName_loop (S (length (d_packet m))) true.

Definition skipRData : SM DNSPacketMangler unit :=
  toskip ← get16BitInt; moveOffset toskip.

Definition skipRDataAndReturnOffsets : SM DNSPacketMangler (Z * Z) :=
  toskip ← get16BitInt;
  start ← sm_get d_offset;
  _ ← moveOffset toskip;
  end_ ← sm_get d_offset;
  mret (start, end_).

Definition write_back (at_ : Z) (v : Z) : SM DNSPacketMangler unit :=
  sm_modify (fun m => mkMangler (zwrite (d_packet m) at_ (be32 v)) (d_offset m)).

Definition decreaseAndSkip32BitInt (decrease : Z) : SM DNSPacketMangler unit :=
  p ← sm_get d_offset;
  _ ← moveOffset 4;
  tmp ← sm_get (fun m => get32 (d_packet m) p);
  let tmp := if decrease <? tmp then tmp - decrease else 0 in
  off ← sm_get d_offset;
  write_back (off - 4) tmp.

Definition setAndSkip32BitInt (value : Z) : SM DNSPacketMangler unit :=
  _ ← moveOffset 4;
  off ← sm_get d_offset;
  write_back (off - 4) value.

(** [std::swap_ranges] of two segments of equal length, the first one before the
    second. *)
Definition swap_segments (packet : bytes) (a b : Z * Z) : bytes :=
  let n := snd a - fst a in
  ztake (fst a) packet ++ zsub packet (fst b) n
  ++ zsub packet (snd a) (fst b - snd a) ++ zsub packet (fst a) n
  ++ zdrop (snd b) packet.

Definition swapInPlace (a b : Z * Z) : SM DNSPacketMangler unit :=
  let '(a, b) := if fst b <? fst a then (b, a) else (a, b) in
  m ← sm_get (fun m => m);
  _ ← sm_throw_if (negb (u32 (snd a - fst a) =? u32 (snd b - fst b)))
        (out_of_range "swap: segments have different lengths");
  _ ← sm_throw_if (snd a <=? fst a) (out_of_range "swap: ending of segment before start of segment");
  _ ← sm_throw_if (fst b <? snd a) (out_of_range "swap: overlapping segments");
  _ ← sm_throw_if (d_length m <? snd b) (out_of_range "swap: ending of segment after end of array");
  _ ← sm_throw_if (d_offset m <? snd b) (out_of_range "swap: ending of segment after current offset");
  sm_modify (fun m => mkMangler (swap_segments (d_packet m) a b) (d_offset m)).

(** ** The walks *)

(** The question section, skipped by every walk. *)
Definition skipQuestions (qdcount : Z) : SM DNSPacketMangler (option unit) :=
  loopM (Z.to_nat qdcount) (fun _ =>
    _ ← skipDomainName;
    (* type and class *)
    _ ← skipBytes 4;
    mret None) 0.

Definition numrecords (dh : dnsheader) : Z := dh_ancount dh + dh_nscount dh + dh_arcount dh.

Definition section_of (dh : dnsheader) (n : Z) : Z :=
  if n <? dh_ancount dh then 1 else if n <? dh_ancount dh + dh_nscount dh then 2 else 3.

(** [visitor section class type ttl] gives the new TTL, 0 to leave it. *)
Definition editDNSPacketTTL (packet : bytes) (visitor : Z -> Z -> Z -> Z -> Z) : bytes :=
  if zlen packet <? sizeof_dnsheader then packet
  else
    let dh := header_of packet in
    d_packet (fst ((
      _ ← skipQuestions (dh_qdcount dh);
      loopM (Z.to_nat (numrecords dh)) (fun n =>
        _ ← skipDomainName;
        let section := section_of dh n in
        dnstype ← get16BitInt;
        dnsclass ← get16BitInt;
        if dnstype =? QType.OPT then mret (Some tt)
        else
          dnsttl ← get32BitInt;
          let newttl := visitor section dnsclass dnstype dnsttl in
          _ ← (if negb (newttl =? 0) then (_ ← rewindBytes 4; setAndSkip32BitInt newttl)
               else mret tt);
          _ ← skipRData;
          mret None) 0) (mangler packet))).

Definition ageDNSPacket (packet : bytes) (seconds : Z) (dh : dnsheader) : bytes :=
  if zlen packet <? sizeof_dnsheader then packet
  else
    d_packet (fst ((
      _ ← skipQuestions (dh_qdcount dh);
      loopM (Z.to_nat (numrecords dh)) (fun rec =>
        _ ← skipDomainName;
        dnstype ← get16BitInt;
        (* class *)
        _ ← skipBytes 2;
        _ ← (if negb (dnstype =? QType.OPT) then decreaseAndSkip32BitInt seconds else skipBytes 4);
        _ ← skipRData;
        mret (None (A := unit))) 0) (mangler packet))).

Definition checkIfPacketContainsRecords (packet : bytes) (qtypes : list Z) : bool :=
  if zlen packet <? sizeof_dnsheader then false
  else
    let dh := header_of packet in
    match snd ((
      _ ← skipQuestions (dh_qdcount dh);
      loopM (Z.to_nat (numrecords dh)) (fun n =>
        _ ← skipDomainName;
        dnstype ← get16BitInt;
        dnsclass ← get16BitInt;
        if (dnsclass =? QClass.IN) && bool_decide (dnstype ∈ qtypes) then mret (Some tt)
        else
          (* ttl *)
          _ ← skipBytes 4;
          _ ← skipRData;
          mret None) 0) (mangler packet)) with
    | Ok (Some _) => true
    | _ => false
    end.

(** The result and [*seenAuthSOA], whose values at the time of an exception are
    the ones returned. *)
Definition getDNSPacketMinTTL (packet : bytes) (seenAuthSOA : bool) : Z * bool :=
  if zlen packet <? sizeof_dnsheader then (2 ^ 32 - 1, seenAuthSOA)
  else
    let dh := header_of packet in
    snd (fst ((
      _ ← on_fst (skipQuestions (dh_qdcount dh));
      loopM (Z.to_nat (numrecords dh)) (fun n =>
        _ ← on_fst skipDomainName;
        dnstype ← on_fst get16BitInt;
        dnsclass ← on_fst get16BitInt;
        if dnstype =? QType.OPT then mret (Some tt)
        else
          _ ← (if (dnstype =? QType.SOA) && (dnsclass =? QClass.IN) && (dh_ancount dh <=? n)
                  && (n <? dh_ancount dh + dh_nscount dh)
               then on_snd (fun '(r, _) => (r, true)) else mret tt);
          ttl ← on_fst get32BitInt;
          _ ← on_snd (fun '(r, seen) => (Z.min r ttl, seen));
          _ ← on_fst skipRData;
          mret None) 0) (mangler packet, (2 ^ 32 - 1, seenAuthSOA)))).

Definition getDNSPacketLength (packet : bytes) : Z :=
  if zlen packet <? sizeof_dnsheader then u32 (zlen packet)
  else
    let dh := header_of packet in
    match ((
      _ ← skipQuestions (dh_qdcount dh);
      _ ← loopM (Z.to_nat (numrecords dh)) (fun n =>
        _ ← skipDomainName;
        (* type (2), class (2) and ttl (4) *)
        _ ← skipBytes 8;
        _ ← skipRData;
        mret (None (A := unit))) 0;
      sm_get d_offset) (mangler packet)) with
    | (_, Ok off) => off
    | (_, Throw _) => u32 (zlen packet)
    end.

(** One of the three record loops of [getRecordsOfTypeCount]. *)
Definition count_section (count here : Z) (section type : Z)
  : SM (DNSPacketMangler * Z) (option unit) :=
  loopM (Z.to_nat count) (fun n =>
    _ ← on_fst skipDomainName;
    _ ← (if section =? here then
           dnstype ← on_fst get16BitInt;
           _ ← (if dnstype =? type then on_snd (fun r => u16 (r + 1)) else mret tt);
           (* class *)
           on_fst (skipBytes 2)
         else
           (* type and class *)
           on_fst (skipBytes 4));
    (* ttl *)
    _ ← on_fst (skipBytes 4);
    _ ← on_fst skipRData;
    mret None) 0.

Definition getRecordsOfTypeCount (packet : bytes) (section type : Z) : Z :=
  if zlen packet <? sizeof_dnsheader then 0
  else
    let dh := header_of packet in
    snd (fst ((
      _ ← loopM (Z.to_nat (dh_qdcount dh)) (fun n =>
        _ ← on_fst skipDomainName;
        _ ← (if section =? 0 then
               dnstype ← on_fst get16BitInt;
               _ ← (if dnstype =? type then on_snd (fun r => u16 (r + 1)) else mret tt);
               on_fst (skipBytes 2)
             else on_fst (skipBytes 4));
        mret (None (A := unit))) 0;
      _ ← count_section (dh_ancount dh) 1 section type;
      _ ← count_section (dh_nscount dh) 2 section type;
      count_section (dh_arcount dh) 3 section type) (mangler packet, 0))).

(** [*payloadSize] and [*z] of the first OPT record of the additional section
    that has the root as its owner; [None] for [false]. *)
Definition getEDNSUDPPayloadSizeAndZ (packet : bytes) : option (Z * Z) :=
  if zlen packet <? sizeof_dnsheader then None
  else
    let dh := header_of packet in
    if dh_arcount dh =? 0 then None
    else
      match snd ((
        _ ← skipQuestions (dh_qdcount dh);
        loopM (Z.to_nat (numrecords dh)) (fun index =>
          wasRoot ← skipDomainName;
          dnstype ← get16BitInt;
          let section := section_of dh index in
          if (section =? 3) && (dnstype =? QType.OPT) && wasRoot then
            dnsclass ← get16BitInt;
            (* skip extended rcode and version *)
            _ ← skipBytes 2;
            z ← get16BitInt;
            mret (Some (dnsclass, z))
          else
            (* skip class *)
            _ ← skipBytes 2;
            (* TTL *)
            _ ← skipBytes 4;
            _ ← skipRData;
            mret None) 0) (mangler packet)) with
      | Ok (Some r) => Some r
      | _ => None
      end.

(** ** Shuffling *)

(** The state of the collecting loop: the type and owner of the record set, and
    where its data is. *)
Record shuffle_state : Type := mkShuffle {
  rrset_type : Z;
  rrset_dnsname : DNSName;
  rrdata_indexes : list (Z * Z);
}.

Definition shuffle_body (lim : name_limits) (packet : bytes) (_iter : Z)
  : SM (DNSPacketMangler * shuffle_state) (option unit) :=
  domain_start ← on_fst (sm_get d_offset);
  _ ← on_fst skipDomainName;
  dnstype ← on_fst get16BitInt;
  st ← sm_get snd;
  if (dnstype =? QType.A) || (dnstype =? QType.AAAA) then
    stop ← (if bool_decide (rrdata_indexes st = []) then
              r ← sm_lift (DNSName_from_wire lim packet domain_start true false false 0 None);
              _ ← on_snd (fun st => mkShuffle dnstype (mkDNSName (p_storage r)) (rrdata_indexes st));
              mret false
            else if negb (dnstype =? rrset_type st) then mret true
            else
              r ← sm_lift (DNSName_from_wire lim packet domain_start true false false 0 None);
              mret (negb (name_eqb (mkDNSName (p_storage r)) (rrset_dnsname st))));
    if stop : bool then mret (Some tt)
    else
      (* class *)
      _ ← on_fst (skipBytes 2);
      (* ttl *)
      _ ← on_fst (skipBytes 4);
      off ← on_fst skipRDataAndReturnOffsets;
      _ ← on_snd (fun st => mkShuffle (rrset_type st) (rrset_dnsname st) (rrdata_indexes st ++ [off]));
      mret None
  else if negb (bool_decide (rrdata_indexes st = [])) then mret (Some tt)
  else
    _ ← on_fst (skipBytes 2);
    _ ← on_fst (skipBytes 4);
    _ ← on_fst skipRData;
    mret None.

(** The Fisher-Yates loop, from the last index down; [dist swapped] is what the
    random engine gives between 0 and [swapped]. *)
Fixpoint shuffle_swaps (dist : nat -> nat) (idx : list (Z * Z)) (swapped : nat)
  : SM DNSPacketMangler unit :=
  match swapped with
  | O => mret tt
  | S k =>
      let swapped_with := dist swapped in
      _ ← (if bool_decide (swapped = swapped_with) then mret tt
           else
             a ← sm_lift (of_option (out_of_range "vector::at") (idx !! swapped));
             b ← sm_lift (of_option (out_of_range "vector::at") (idx !! swapped_with));
             swapInPlace a b);
      shuffle_swaps dist idx k
  end.

Definition shuffleDNSPacket (lim : name_limits) (dist : nat -> nat) (packet : bytes) (dh : dnsheader)
  : bytes :=
  if zlen packet <? sizeof_dnsheader then packet
  else if dh_ancount dh =? 1 then packet
  else
    d_packet (fst (fst ((
      _ ← on_fst (skipQuestions (dh_qdcount dh));
      _ ← loopM (Z.to_nat (dh_ancount dh)) (shuffle_body lim packet) 0;
      st ← sm_get snd;
      let idx := rrdata_indexes st in
      if 2 <=? zlen idx then on_fst (shuffle_swaps dist idx (length idx - 1)) else mret tt)
      (mangler packet, mkShuffle 0 (mkDNSName []) [])))).
