(* ===== verification/PacketWalk.v ===== *)
(** * What the packet walks do to a message

    A message is described as the sections it is made of; the walks of
    [Mangler] over its wire form are shown to do on the description what they
    are meant to do.  For packets that are no message at all, what can still be
    said: nothing is written outside the fields, no byte is lost. *)

From S2P Require Import Prelude Chars Dns Names NamesFacts NamesWire Mangler.

#[local] Open Scope Z_scope.

(** ** Messages *)

(** The owner names [skipDomainName] skips: labels, then the root or a pointer. *)
Inductive owner : bytes -> Prop :=
| owner_root : owner [0]
| owner_pointer p q : 192 <= p < 256 -> owner [p; q]
| owner_label l o : 1 <= zlen l < 192 -> owner o -> owner (zlen l :: l ++ o).

Record question : Type := mkQuestion { q_owner : bytes; q_type : Z; q_class : Z }.

Record rr : Type := mkRR {
  rr_owner : bytes; rr_type : Z; rr_class : Z; rr_ttl : Z; rr_data : bytes;
}.

Record message : Type := mkMessage {
  msg_id_flags : bytes;
  msg_questions : list question;
  msg_answers : list rr;
  msg_authority : list rr;
  msg_additional : list rr;
  msg_trailing : bytes;
}.

Definition is_u16 (v : Z) : Prop := 0 <= v < 65536.

Definition question_ok (q : question) : Prop :=
  owner (q_owner q) /\ is_u16 (q_type q) /\ is_u16 (q_class q).

Definition rr_ok (r : rr) : Prop :=
  owner (rr_owner r) /\ is_u16 (rr_type r) /\ is_u16 (rr_class r)
  /\ 0 <= rr_ttl r < 2 ^ 32 /\ zlen (rr_data r) < 65536.

Definition all_records (m : message) : list rr :=
  msg_answers m ++ msg_authority m ++ msg_additional m.

Definition message_ok (m : message) : Prop :=
  zlen (msg_id_flags m) = 4
  /\ zlen (msg_questions m) < 65536 /\ zlen (msg_answers m) < 65536
  /\ zlen (msg_authority m) < 65536 /\ zlen (msg_additional m) < 65536
  /\ Forall question_ok (msg_questions m) /\ Forall rr_ok (all_records m).

Definition enc_question (q : question) : bytes := q_owner q ++ be16 (q_type q) ++ be16 (q_class q).

Definition enc_rr (r : rr) : bytes :=
  rr_owner r ++ be16 (rr_type r) ++ be16 (rr_class r) ++ be32 (rr_ttl r)
  ++ be16 (zlen (rr_data r)) ++ rr_data r.

Definition enc_rrs (rs : list rr) : bytes := concat (map enc_rr rs).

Definition enc_head (m : message) : bytes :=
  msg_id_flags m ++ be16 (zlen (msg_questions m)) ++ be16 (zlen (msg_answers m))
  ++ be16 (zlen (msg_authority m)) ++ be16 (zlen (msg_additional m)).

Definition enc_message (m : message) : bytes :=
  enc_head m ++ concat (map enc_question (msg_questions m)) ++ enc_rrs (all_records m)
  ++ msg_trailing m.

(** ** A focused mangler: what was walked over and what is ahead *)

Definition focus (before ahead : bytes) : DNSPacketMangler := mkMangler (before ++ ahead) (zlen before).

Lemma moveOffset_focus before x ahead :
  moveOffset (zlen x) (focus before (x ++ ahead)) = (focus (before ++ x) ahead, Ok tt).
Proof.
  unfold moveOffset, focus, mbind, SM_bind, sm_modify, sm_get, d_length. simpl.
  rewrite !zlen_app. rewrite (proj2 (Z.ltb_ge _ _)). 2: { pose proof (zlen_nonneg ahead). lia. }
  unfold sm_throw_if. by rewrite app_assoc.
Qed.

Lemma skipBytes_focus k before x ahead :
  zlen x = k -> skipBytes k (focus before (x ++ ahead)) = (focus (before ++ x) ahead, Ok tt).
Proof. intros <-. apply moveOffset_focus. Qed.

Lemma get8BitInt_focus before b ahead :
  get8BitInt (focus before (b :: ahead)) = (focus (before ++ [b]) ahead, Ok b).
Proof.
  unfold get8BitInt. rewrite !sm_bind_run. change (b :: ahead) with ([b] ++ ahead).
  cbn [sm_get]. rewrite sm_bind_run, (moveOffset_focus before [b]).
  unfold sm_get, focus. simpl. rewrite <- app_assoc. simpl. by rewrite byte_at_app.
Qed.

Lemma get16BitInt_focus before v ahead :
  is_u16 v -> get16BitInt (focus before (be16 v ++ ahead)) = (focus (before ++ be16 v) ahead, Ok v).
Proof.
  intros Hv. unfold get16BitInt. rewrite !sm_bind_run. cbn [sm_get].
  rewrite sm_bind_run, (moveOffset_focus before (be16 v)). unfold sm_get, focus. cbn [d_packet d_offset]. by rewrite <- app_assoc, get16_be16.
Qed.

Lemma get32BitInt_focus before v ahead :
  0 <= v < 2 ^ 32 -> get32BitInt (focus before (be32 v ++ ahead)) = (focus (before ++ be32 v) ahead, Ok v).
Proof.
  intros Hv. unfold get32BitInt. rewrite !sm_bind_run. cbn [sm_get].
  rewrite sm_bind_run, (moveOffset_focus before (be32 v)). unfold sm_get, focus. cbn [d_packet d_offset]. by rewrite <- app_assoc, get32_be32.
Qed.

Lemma zwrite_focus (before x y ahead : bytes) :
  zlen x = zlen y -> zwrite ((before ++ x) ++ ahead) (zlen before) y = (before ++ y) ++ ahead.
Proof.
  intros Hl. unfold zwrite. rewrite <- !app_assoc. rewrite ztake_app by done. do 2 f_equal.
  rewrite app_assoc. apply zdrop_app. rewrite zlen_app. lia.
Qed.

Lemma setAndSkip32BitInt_focus before x v ahead :
  zlen x = 4 -> setAndSkip32BitInt v (focus before (x ++ ahead)) = (focus (before ++ be32 v) ahead, Ok tt).
Proof.
  intros Hx. unfold setAndSkip32BitInt. rewrite sm_bind_run.
  pose proof (moveOffset_focus before x ahead) as Hm. rewrite Hx in Hm. rewrite Hm.
  rewrite sm_bind_run. unfold sm_get, write_back, sm_modify, focus. cbn [d_packet d_offset].
  do 2 f_equal.
  - rewrite zlen_app, Hx. replace (zlen before + 4 - 4) with (zlen before) by lia.
    by apply zwrite_focus.
  - by rewrite !zlen_app, Hx.
Qed.

Lemma decreaseAndSkip32BitInt_focus before v d ahead :
  0 <= v < 2 ^ 32 ->
  decreaseAndSkip32BitInt d (focus before (be32 v ++ ahead))
  = (focus (before ++ be32 (if d <? v then v - d else 0)) ahead, Ok tt).
Proof.
  intros Hv. unfold decreaseAndSkip32BitInt. rewrite sm_bind_run. cbn [sm_get].
  rewrite sm_bind_run. pose proof (moveOffset_focus before (be32 v) ahead) as Hm.
  rewrite zlen_be32 in Hm. rewrite Hm, sm_bind_run. unfold sm_get, write_back, sm_modify.
  rewrite sm_bind_run. unfold focus. cbn [d_packet d_offset].
  rewrite <- app_assoc, get32_be32 by done. do 2 f_equal.
  - rewrite zlen_app, zlen_be32. replace (zlen before + 4 - 4) with (zlen before) by lia.
    rewrite app_assoc. by apply zwrite_focus.
  - by rewrite !zlen_app, !zlen_be32.
Qed.

Lemma rewindBytes_focus before x ahead :
  12 <= zlen before -> rewindBytes (zlen x) (focus (before ++ x) ahead) = (focus before (x ++ ahead), Ok tt).
Proof.
  intros Hb. pose proof (zlen_nonneg x). unfold rewindBytes, rewindOffset. rewrite sm_bind_run.
  unfold sm_get. rewrite sm_bind_run. unfold sm_throw_if, focus. cbn [d_packet d_offset].
  rewrite zlen_app. rewrite (proj2 (Z.ltb_ge _ (zlen x))) by lia. simpl. unfold mret, SM_ret.
  rewrite sm_bind_run. unfold sm_modify. simpl.
  rewrite (proj2 (Z.ltb_ge _ 12)) by lia. rewrite <- app_assoc. do 2 f_equal. lia.
Qed.

Lemma skipRData_focus before x ahead :
  zlen x < 65536 ->
  skipRData (focus before (be16 (zlen x) ++ x ++ ahead)) = (focus (before ++ be16 (zlen x) ++ x) ahead, Ok tt).
Proof.
  intros Hx. unfold skipRData. rewrite sm_bind_run, get16BitInt_focus.
  2: { split; [apply zlen_nonneg|done]. }
  rewrite moveOffset_focus. by rewrite <- app_assoc.
Qed.

Lemma skipDomainName_loop_focus o fuel isRoot before ahead :
  owner o -> (length o <= fuel)%nat ->
  skipDomainName_loop fuel isRoot (focus before (o ++ ahead))
  = (focus (before ++ o) ahead, Ok (bool_decide (o = [0]) && isRoot)).
Proof.
  intros Ho. revert fuel isRoot before. induction Ho as [|p q Hp|l o Hl Ho IH];
    intros fuel isRoot before Hf; (destruct fuel as [|fuel]; [simpl in Hf; lia|]);
    cbn [skipDomainName_loop app]; rewrite sm_bind_run, get8BitInt_focus.
  - done.
  - rewrite (proj2 (Z.eqb_neq p 0)), (proj2 (Z.leb_le 192 p)) by lia.
    rewrite sm_bind_run, get8BitInt_focus. rewrite bool_decide_eq_false_2 by done.
    by rewrite <- app_assoc.
  - rewrite (proj2 (Z.eqb_neq (zlen l) 0)), (proj2 (Z.leb_gt 192 (zlen l))) by lia.
    rewrite sm_bind_run, <- app_assoc, skipBytes_focus by done. rewrite IH.
    2: { simpl in Hf. rewrite length_app in Hf. lia. }
    rewrite andb_false_r, <- !app_assoc. simpl. f_equal. f_equal.
    rewrite bool_decide_eq_false_2; [done|]. intros [= Hz _]. lia.
Qed.

Lemma skipDomainName_focus o before ahead :
  owner o ->
  skipDomainName (focus before (o ++ ahead)) = (focus (before ++ o) ahead, Ok (bool_decide (o = [0]))).
Proof.
  intros Ho. unfold skipDomainName. rewrite sm_bind_run. unfold sm_get.
  rewrite skipDomainName_loop_focus; [by rewrite andb_true_r|done|].
  unfold focus. cbn [d_packet]. rewrite !length_app. lia.
Qed.

(** ** Walking over records *)

Fixpoint map_from {A B} (f : Z -> A -> B) (i : Z) (l : list A) : list B :=
  match l with [] => [] | x :: l' => f i x :: map_from f (i + 1) l' end.

Fixpoint fold_from {A T} (g : Z -> A -> T -> T) (i : Z) (l : list A) (t : T) : T :=
  match l with [] => t | x :: l' => fold_from g (i + 1) l' (g i x t) end.

Lemma enc_rrs_cons r rs : enc_rrs (r :: rs) = enc_rr r ++ enc_rrs rs.
Proof. done. Qed.

Lemma enc_rrs_app a b : enc_rrs (a ++ b) = enc_rrs a ++ enc_rrs b.
Proof. unfold enc_rrs. by rewrite map_app, concat_app. Qed.

Lemma zlen_enc_rr_nonneg r : 0 <= zlen (enc_rr r).
Proof. apply zlen_nonneg. Qed.

Section walk.
(** One round of a walk rewrites the record it is at with [f], changes the
    local variables with [g], and goes on. *)
Context {S T A E : Type} (enc : E -> bytes) (good : E -> Prop)
  (state : bytes -> bytes -> T -> S) (body : Z -> SM S (option A))
  (f : Z -> E -> E) (g : Z -> E -> T -> T).
Context (Hstep : forall i before r ahead t, 12 <= zlen before -> good r ->
  body i (state before (enc r ++ ahead) t)
  = (state (before ++ enc (f i r)) ahead (g i r t), Ok None)).

Lemma walk_prefix rs k i before ahead t :
  12 <= zlen before -> Forall good rs ->
  loopM (length rs + k) body i (state before (concat (map enc rs) ++ ahead) t)
  = loopM k body (i + zlen rs) (state (before ++ concat (map enc (map_from f i rs))) ahead
                                  (fold_from g i rs t)).
Proof.
  intros Hb Hg. revert i before t Hb. induction Hg as [|r rs Hr Hrs IH]; intros i before t Hb.
  - simpl. by rewrite app_nil_r, Z.add_0_r.
  - cbn [length Nat.add loopM map concat map_from fold_from].
    rewrite sm_bind_run, <- app_assoc, Hstep by done.
    rewrite IH by (rewrite zlen_app; pose proof (zlen_nonneg (enc (f i r))); lia).
    rewrite zlen_cons, <- app_assoc. f_equal. lia.
Qed.

Lemma walk_all rs i before ahead t n :
  12 <= zlen before -> Forall good rs -> n = length rs ->
  loopM n body i (state before (concat (map enc rs) ++ ahead) t)
  = (state (before ++ concat (map enc (map_from f i rs))) ahead (fold_from g i rs t), Ok None).
Proof.
  intros Hb Hg ->. rewrite <- (Nat.add_0_r (length rs)). by rewrite walk_prefix.
Qed.
End walk.

Lemma map_from_id {A} i (l : list A) : map_from (fun _ x => x) i l = l.
Proof. revert i. induction l; intros; simpl; by f_equal. Qed.

Lemma map_from_const {A B} (f : A -> B) i (l : list A) : map_from (fun _ x => f x) i l = map f l.
Proof. revert i. induction l; intros; simpl; by f_equal. Qed.

(** The step of the walks: reads what is ahead of the focus. *)
Ltac walk_step :=
  rewrite sm_bind_run;
  first
    [ rewrite skipDomainName_focus by done
    | rewrite get16BitInt_focus by done
    | rewrite get32BitInt_focus by done
    | rewrite decreaseAndSkip32BitInt_focus by done
    | rewrite skipRData_focus by done
    | erewrite on_fst_run by (apply skipDomainName_focus; done)
    | erewrite on_fst_run by (apply get16BitInt_focus; done)
    | erewrite on_fst_run by (apply get32BitInt_focus; done)
    | erewrite on_fst_run by (apply skipRData_focus; done) ];
  cbn beta iota.

Lemma skipQuestions_focus qs before ahead :
  12 <= zlen before -> Forall question_ok qs ->
  skipQuestions (zlen qs) (focus before (concat (map enc_question qs) ++ ahead))
  = (focus (before ++ concat (map enc_question qs)) ahead, Ok None).
Proof.
  intros Hb Hq. unfold skipQuestions.
  rewrite (walk_all enc_question question_ok (fun b a (_ : unit) => focus b a) _
             (fun _ q => q) (fun _ _ t => t) ) with (t := tt); try done.
  - by rewrite map_from_id.
  - intros i b [o ty c] a _ _ (Ho & Hty & Hc). unfold enc_question. cbn [q_owner q_type q_class] in *.
    rewrite <- !app_assoc. walk_step. rewrite sm_bind_run.
    rewrite (app_assoc (be16 ty)), (skipBytes_focus 4) by done. by rewrite <- !app_assoc.
  - unfold zlen. lia.
Qed.

Lemma enc_message_split m :
  message_ok m ->
  12 = zlen (enc_head m)
  /\ mangler (enc_message m)
     = focus (enc_head m) (concat (map enc_question (msg_questions m))
                           ++ enc_rrs (all_records m) ++ msg_trailing m).
Proof.
  intros (Hh & _). assert (12 = zlen (enc_head m)) as Hl.
  { unfold enc_head. rewrite !zlen_app, !zlen_be16, Hh. done. }
  split; [done|]. unfold mangler, focus. by rewrite <- Hl.
Qed.

Lemma header_of_enc m :
  message_ok m ->
  dh_qdcount (header_of (enc_message m)) = zlen (msg_questions m)
  /\ dh_ancount (header_of (enc_message m)) = zlen (msg_answers m)
  /\ dh_nscount (header_of (enc_message m)) = zlen (msg_authority m)
  /\ dh_arcount (header_of (enc_message m)) = zlen (msg_additional m).
Proof.
  intros (Hh & Hq & Han & Hns & Har & _). unfold header_of, enc_message, enc_head.
  cbn [dh_qdcount dh_ancount dh_nscount dh_arcount].
  set (h := msg_id_flags m) in *. rewrite <- !app_assoc.
  pose proof (zlen_nonneg (msg_questions m)). pose proof (zlen_nonneg (msg_answers m)).
  pose proof (zlen_nonneg (msg_authority m)). pose proof (zlen_nonneg (msg_additional m)).
  assert (forall pre v post i, i = zlen pre -> 0 <= v < 65536 -> get16 (pre ++ be16 v ++ post) i = v) as Hget.
  { intros pre v post i ->. apply get16_be16. }
  split_and!.
  - by apply Hget.
  - rewrite (app_assoc h). apply Hget; [rewrite zlen_app, Hh; done|done].
  - rewrite (app_assoc h), (app_assoc (h ++ _)). apply Hget; [rewrite !zlen_app, Hh; done|done].
  - rewrite (app_assoc h), (app_assoc (h ++ _)), (app_assoc ((h ++ _) ++ _)).
    apply Hget; [rewrite !zlen_app, Hh; done|done].
Qed.

Lemma enc_message_long m : message_ok m -> (zlen (enc_message m) <? sizeof_dnsheader) = false.
Proof.
  intros Hm. destruct (enc_message_split m Hm) as [Hl _]. apply Z.ltb_ge. unfold enc_message.
  rewrite zlen_app, <- Hl. unfold sizeof_dnsheader.
  pose proof (zlen_nonneg (concat (map enc_question (msg_questions m)) ++ enc_rrs (all_records m)
                           ++ msg_trailing m)). lia.
Qed.

Lemma numrecords_enc m :
  message_ok m -> Z.to_nat (numrecords (header_of (enc_message m))) = length (all_records m).
Proof.
  intros Hm. destruct (header_of_enc m Hm) as (_ & H1 & H2 & H3). unfold numrecords, all_records.
  rewrite H1, H2, H3. rewrite !length_app. unfold zlen. lia.
Qed.

Definition enc_front (m : message) : bytes :=
  enc_head m ++ concat (map enc_question (msg_questions m)).

Lemma skipQuestions_message m :
  message_ok m ->
  12 <= zlen (enc_front m)
  /\ skipQuestions (zlen (msg_questions m)) (mangler (enc_message m))
     = (focus (enc_front m) (enc_rrs (all_records m) ++ msg_trailing m), Ok None).
Proof.
  intros Hm. destruct (enc_message_split m Hm) as [Hl ->]. unfold enc_front.
  destruct Hm as (_ & _ & _ & _ & _ & Hq & _).
  pose proof (zlen_nonneg (concat (map enc_question (msg_questions m)))).
  split; [rewrite zlen_app; lia|]. apply skipQuestions_focus; [lia|done].
Qed.

(** A walk over some of the records of a message. *)
Lemma walk_records {A} (body : Z -> SM DNSPacketMangler (option A)) f rs before ahead :
  12 <= zlen before -> Forall rr_ok rs ->
  (forall i before r ahead, 12 <= zlen before -> rr_ok r ->
     body i (focus before (enc_rr r ++ ahead)) = (focus (before ++ enc_rr (f i r)) ahead, Ok None)) ->
  loopM (length rs) body 0 (focus before (enc_rrs rs ++ ahead))
  = (focus (before ++ enc_rrs (map_from f 0 rs)) ahead, Ok None).
Proof.
  intros Hb Hr Hbody.
  apply (walk_all enc_rr rr_ok (fun b a (_ : unit) => focus b a) body f (fun _ _ t => t)) with (t := tt);
    [|done..].
  intros. by apply Hbody.
Qed.

Lemma message_records m : message_ok m -> Forall rr_ok (all_records m).
Proof. by intros (_ & _ & _ & _ & _ & _ & Hr). Qed.

(** A walk over the questions and all the records of a message. *)
Lemma walk_message {A} m (body : Z -> SM DNSPacketMangler (option A)) f :
  message_ok m ->
  (forall i before r ahead, 12 <= zlen before -> rr_ok r ->
     body i (focus before (enc_rr r ++ ahead)) = (focus (before ++ enc_rr (f i r)) ahead, Ok None)) ->
  (_ ← skipQuestions (zlen (msg_questions m)); loopM (length (all_records m)) body 0)
    (mangler (enc_message m))
  = (focus (enc_front m ++ enc_rrs (map_from f 0 (all_records m))) (msg_trailing m), Ok None).
Proof.
  intros Hm Hbody. destruct (skipQuestions_message m Hm) as [Hl Hq].
  rewrite sm_bind_run, Hq. apply walk_records; [done|by apply message_records|done].
Qed.

(** ** Ageing *)

Definition age_rr (seconds : Z) (r : rr) : rr :=
  if rr_type r =? QType.OPT then r
  else mkRR (rr_owner r) (rr_type r) (rr_class r) (Z.max 0 (rr_ttl r - seconds)) (rr_data r).

Definition map_records (f : rr -> rr) (m : message) : message :=
  mkMessage (msg_id_flags m) (msg_questions m) (map f (msg_answers m)) (map f (msg_authority m))
    (map f (msg_additional m)) (msg_trailing m).

Lemma all_records_map f m : all_records (map_records f m) = map f (all_records m).
Proof. unfold all_records. simpl. by rewrite !map_app. Qed.

Lemma enc_message_map f m :
  enc_message (map_records f m)
  = enc_head m ++ concat (map enc_question (msg_questions m)) ++ enc_rrs (map f (all_records m))
    ++ msg_trailing m.
Proof.
  unfold enc_message. rewrite all_records_map. f_equal. unfold enc_head, map_records, zlen.
  cbn [msg_id_flags msg_questions msg_answers msg_authority msg_additional]. by rewrite !length_map.
Qed.

Lemma ttl_decrease s t : 0 <= t -> (if s <? t then t - s else 0) = Z.max 0 (t - s).
Proof. intros. destruct (Z.ltb_spec s t); lia. Qed.

Lemma ageDNSPacket_enc m s :
  message_ok m -> 0 <= s ->
  ageDNSPacket (enc_message m) s (header_of (enc_message m)) = enc_message (map_records (age_rr s) m).
Proof.
  intros Hm Hs. unfold ageDNSPacket. rewrite (enc_message_long m Hm).
  destruct (header_of_enc m Hm) as (-> & _). rewrite (numrecords_enc m Hm).
  rewrite (walk_message m _ (fun _ => age_rr s) Hm).
  - unfold focus, enc_front. cbn [fst d_packet]. rewrite map_from_const, enc_message_map.
    by rewrite <- !app_assoc.
  - intros i b [o ty c ttl d] a _ (Ho & Hty & Hc & Httl & Hd). unfold enc_rr, age_rr.
    cbn [rr_owner rr_type rr_class rr_ttl rr_data] in *. rewrite <- !app_assoc.
    do 2 walk_step. rewrite sm_bind_run, skipBytes_focus by done.
    destruct (Z.eqb_spec ty QType.OPT) as [E|E]; cbn [negb rr_owner rr_type rr_class rr_ttl rr_data].
    + rewrite sm_bind_run, skipBytes_focus by done. walk_step. by rewrite <- !app_assoc.
    + do 2 walk_step. rewrite ttl_decrease by lia. by rewrite <- !app_assoc.
Qed.

(** C14: ageing a cached packet takes the given number of seconds off the TTL of
    every record of its three record sections, down to 0 at least, leaves OPT
    pseudo-records and everything else as it is, trailing bytes included. *)
Theorem ageDNSPacket_refines (m : message) (seconds : Z) :
  message_ok m -> 0 <= seconds ->
  ageDNSPacket (enc_message m) seconds (header_of (enc_message m))
  = enc_message (map_records (age_rr seconds) m).
Proof. apply ageDNSPacket_enc. Qed.

(** An answer with two records and an OPT record. *)
Definition ex_rr (ttl last : Z) : rr := mkRR [192; 12] QType.A QClass.IN ttl [192; 0; 2; last].

Definition ex_message (ttl1 ttl2 : Z) : message :=
  mkMessage [18; 52; 129; 128] [mkQuestion [3; 119; 119; 119; 0] QType.A QClass.IN]
    [ex_rr ttl1 1; ex_rr ttl2 2] [] [mkRR [0] QType.OPT 1232 32768 []] [7].

Lemma ex_message_ok t1 t2 : 0 <= t1 < 2 ^ 32 -> 0 <= t2 < 2 ^ 32 -> message_ok (ex_message t1 t2).
Proof.
  intros. split_and!; try done.
  - repeat constructor; try done. apply (owner_label [119; 119; 119]); [done|constructor].
  - repeat constructor; simpl; try (done || lia).
Qed.

Lemma ageDNSPacket_refines_witness :
  ageDNSPacket (enc_message (ex_message 300 10)) 60 (header_of (enc_message (ex_message 300 10)))
  = enc_message (ex_message 240 0).
Proof. apply (ageDNSPacket_refines (ex_message 300 10) 60); [by apply ex_message_ok|done]. Defined.

(** ageing twice is ageing once by the sum. *)
Theorem ageDNSPacket_twice (m : message) (a b : Z) :
  message_ok m -> 0 <= a -> 0 <= b ->
  let aged := ageDNSPacket (enc_message m) a (header_of (enc_message m)) in
  ageDNSPacket aged b (header_of aged)
  = ageDNSPacket (enc_message m) (a + b) (header_of (enc_message m)).
Proof.
  intros Hm Ha Hb. cbv zeta. rewrite !ageDNSPacket_enc; try done; try lia.
  - f_equal. unfold map_records. simpl. rewrite !map_map.
    assert (forall r, age_rr b (age_rr a r) = age_rr (a + b) r) as Hage.
    { intros [o ty c ttl d]. unfold age_rr. simpl.
      destruct (ty =? QType.OPT) eqn:E; simpl; rewrite E; [done|]. f_equal. lia. }
    f_equal; apply map_ext, Hage.
  - destruct Hm as (? & ? & ? & ? & ? & ? & Hr). unfold message_ok, map_records, zlen in *. simpl.
    rewrite !length_map. split_and!; try done. fold (map_records (age_rr a) m).
    rewrite all_records_map. apply Forall_map. eapply Forall_impl; [exact Hr|].
    intros [o ty c ttl d] (Ho & Hty & Hc & Httl & Hd). unfold age_rr, rr_ok. simpl in *.
    destruct (ty =? QType.OPT); simpl; split_and!; try done; lia.
Qed.

Lemma ageDNSPacket_twice_witness :
  let p := enc_message (ex_message 300 10) in
  let aged := ageDNSPacket p 20 (header_of p) in
  ageDNSPacket aged 5 (header_of aged) = ageDNSPacket p 25 (header_of p).
Proof. apply (ageDNSPacket_twice (ex_message 300 10) 20 5); [by apply ex_message_ok|done|done]. Defined.

(** ** Walks that stop at the OPT record *)

Fixpoint before_opt (rs : list rr) : list rr :=
  match rs with
  | [] => []
  | r :: rs' => if rr_type r =? QType.OPT then [] else r :: before_opt rs'
  end.

Fixpoint from_opt (rs : list rr) : list rr :=
  match rs with
  | [] => []
  | r :: rs' => if rr_type r =? QType.OPT then rs else from_opt rs'
  end.

Lemma before_from_opt rs : before_opt rs ++ from_opt rs = rs.
Proof. induction rs as [|r rs IH]; simpl; [done|]. case_match; simpl; by f_equal. Qed.

Lemma from_opt_head rs r rs' : from_opt rs = r :: rs' -> rr_type r = QType.OPT.
Proof.
  induction rs as [|x rs IH]; simpl; [done|].
  destruct (Z.eqb_spec (rr_type x) QType.OPT) as [E|E]; [by intros [= <- _]|done].
Qed.

Lemma before_opt_not rs : Forall (fun r => rr_type r <> QType.OPT) (before_opt rs).
Proof.
  induction rs as [|x rs IH]; simpl; [constructor|].
  destruct (Z.eqb_spec (rr_type x) QType.OPT); constructor; done.
Qed.

Section walk_opt.
Context {S T A X : Type} (state : bytes -> bytes -> T -> S) (body : Z -> SM S (option A))
  (f : Z -> rr -> rr) (g : Z -> rr -> T -> T) (obs : S -> X).
Context (Hstep : forall i before r ahead t, 12 <= zlen before -> rr_ok r -> rr_type r <> QType.OPT ->
  body i (state before (enc_rr r ++ ahead) t)
  = (state (before ++ enc_rr (f i r)) ahead (g i r t), Ok None)).
Context (Hstop : forall i before r ahead t, rr_ok r -> rr_type r = QType.OPT ->
  exists s' a, body i (state before (enc_rr r ++ ahead) t) = (s', Ok (Some a))
               /\ obs s' = obs (state before (enc_rr r ++ ahead) t)).

Lemma walk_until_opt rs i before ahead t :
  12 <= zlen before -> Forall rr_ok rs ->
  obs (fst (loopM (length rs) body i (state before (enc_rrs rs ++ ahead) t)))
  = obs (state (before ++ enc_rrs (map_from f i (before_opt rs))) (enc_rrs (from_opt rs) ++ ahead)
           (fold_from g i (before_opt rs) t)).
Proof.
  intros Hb Hr. pose proof (before_opt_not rs) as Hnot. rewrite <- (before_from_opt rs) in Hr.
  apply Forall_app in Hr as [Hr1 Hr2]. rewrite <- (before_from_opt rs) at 1 2.
  rewrite length_app, enc_rrs_app, <- app_assoc. unfold enc_rrs at 1.
  rewrite (walk_prefix enc_rr (fun r => rr_ok r /\ rr_type r <> QType.OPT) state body f g);
    [|intros; apply Hstep; naive_solver|done|by apply Forall_and].
  fold (enc_rrs (map_from f i (before_opt rs))). destruct (from_opt rs) as [|r rs'] eqn:E; [done|].
  cbn [length loopM]. rewrite sm_bind_run, enc_rrs_cons, <- app_assoc.
  destruct (Hstop (i + zlen (before_opt rs)) (before ++ enc_rrs (map_from f i (before_opt rs))) r
              (enc_rrs rs' ++ ahead) (fold_from g i (before_opt rs) t)) as (s' & a & -> & Hs').
  - by inversion Hr2.
  - by eapply from_opt_head.
  - done.
Qed.
End walk_opt.

Lemma walk_message_until_opt {T A X} m (body : Z -> SM (DNSPacketMangler * T) (option A)) f g
    (obs : DNSPacketMangler * T -> X) t :
  message_ok m ->
  (forall i before r ahead t, 12 <= zlen before -> rr_ok r -> rr_type r <> QType.OPT ->
    body i (focus before (enc_rr r ++ ahead), t)
    = ((focus (before ++ enc_rr (f i r)) ahead, g i r t), Ok None)) ->
  (forall i before r ahead t, rr_ok r -> rr_type r = QType.OPT ->
    exists s' a, body i (focus before (enc_rr r ++ ahead), t) = (s', Ok (Some a))
                 /\ obs s' = obs (focus before (enc_rr r ++ ahead), t)) ->
  obs (fst ((_ ← on_fst (skipQuestions (zlen (msg_questions m)));
             loopM (length (all_records m)) body 0) (mangler (enc_message m), t)))
  = obs (focus (enc_front m ++ enc_rrs (map_from f 0 (before_opt (all_records m))))
               (enc_rrs (from_opt (all_records m)) ++ msg_trailing m),
         fold_from g 0 (before_opt (all_records m)) t).
Proof.
  intros Hm Hstep Hstop. destruct (skipQuestions_message m Hm) as [Hl Hq].
  rewrite sm_bind_run. erewrite on_fst_run by exact Hq.
  apply (walk_until_opt (fun b a t => (focus b a, t)) body f g obs); [done|done|done|].
  by apply message_records.
Qed.

(** ** The smallest TTL *)

Definition min_ttl (rs : list rr) : Z := fold_right (fun r => Z.min (rr_ttl r)) (2 ^ 32 - 1) rs.

(** Is there a SOA record of class IN in the authority section, before any OPT? *)
Definition auth_soa (m : message) : bool :=
  existsb (fun '(i, r) => (rr_type r =? QType.SOA) && (rr_class r =? QClass.IN)
                          && (zlen (msg_answers m) <=? i)
                          && (i <? zlen (msg_answers m) + zlen (msg_authority m)))
    (map_from (fun i r => (i, r)) 0 (before_opt (all_records m))).

Lemma fold_min_ttl rs i r0 s0 c :
  fold_from (fun i r '(m, seen) => (Z.min m (rr_ttl r), if c i r : bool then true else seen)) i rs (r0, s0)
  = (Z.min r0 (fold_right (fun r => Z.min (rr_ttl r)) r0 rs),
     s0 || existsb (fun '(i, r) => c i r) (map_from (fun i r => (i, r)) i rs)).
Proof.
  revert i r0 s0. induction rs as [|r rs IH]; intros i r0 s0; simpl.
  - by rewrite Z.min_id, orb_false_r.
  - rewrite IH. f_equal.
    + assert (forall x y, Z.min y (fold_right (fun r => Z.min (rr_ttl r)) (Z.min y x) rs)
                          = Z.min y (fold_right (fun r => Z.min (rr_ttl r)) x rs)) as Hf.
      { clear. intros x y. induction rs as [|r rs IH]; simpl; lia. }
      specialize (Hf (rr_ttl r) r0). rewrite (Z.min_comm r0 (rr_ttl r)) in Hf |- *.
      assert (forall x y, Z.min y (fold_right (fun r => Z.min (rr_ttl r)) x rs)
                          = Z.min y (fold_right (fun r => Z.min (rr_ttl r)) (Z.min y x) rs)) as Hg.
      { clear. intros x y. induction rs as [|r' rs IH]; simpl; lia. }
      pose proof (Hg r0 (rr_ttl r)). pose proof (Hg (rr_ttl r) r0). lia.
    + destruct (c i r); simpl; [by rewrite orb_true_r|done].
Qed.

Lemma getDNSPacketMinTTL_enc m seen :
  message_ok m ->
  getDNSPacketMinTTL (enc_message m) seen
  = (min_ttl (before_opt (all_records m)), seen || auth_soa m).
Proof.
  intros Hm. unfold getDNSPacketMinTTL. rewrite (enc_message_long m Hm).
  destruct (header_of_enc m Hm) as (Hqd & Han & Hns & _). cbv zeta. rewrite (numrecords_enc m Hm), Hqd.
  rewrite (walk_message_until_opt m _ (fun _ r => r)
    (fun i r '(mi, se) => (Z.min mi (rr_ttl r),
       if (rr_type r =? QType.SOA) && (rr_class r =? QClass.IN)
          && (zlen (msg_answers m) <=? i) && (i <? zlen (msg_answers m) + zlen (msg_authority m))
       then true else se)) snd (2 ^ 32 - 1, seen) Hm).
  - cbn [snd]. rewrite fold_min_ttl. f_equal. unfold min_ttl.
    assert (forall rs x, fold_right (fun r => Z.min (rr_ttl r)) x rs <= x) as Hle.
    { intros rs x. induction rs as [|r rs IH]; simpl; lia. }
    pose proof (Hle (before_opt (all_records m)) (2 ^ 32 - 1)). lia.
  - intros i b [o ty c ttl d] a [mi se] _ (Ho & Hty & Hc & Httl & Hd) Hopt.
    cbn [rr_owner rr_type rr_class rr_ttl rr_data] in *. unfold enc_rr.
    cbn [rr_owner rr_type rr_class rr_ttl rr_data]. rewrite <- !app_assoc.
    do 3 walk_step. rewrite (proj2 (Z.eqb_neq _ _) Hopt), Han, Hns. rewrite sm_bind_run.
    destruct (_ && _); unfold on_snd, mret, SM_ret; cbn beta iota;
      (walk_step; rewrite sm_bind_run; cbn [on_snd]; walk_step; by rewrite <- !app_assoc).
  - intros i b [o ty c ttl d] a [mi se] (Ho & Hty & Hc & Httl & Hd) Hopt.
    cbn [rr_owner rr_type rr_class rr_ttl rr_data] in *. unfold enc_rr.
    cbn [rr_owner rr_type rr_class rr_ttl rr_data]. rewrite <- !app_assoc.
    do 3 walk_step. rewrite (proj2 (Z.eqb_eq _ _) Hopt). by do 2 eexists.
Qed.

(** the smallest TTL of a packet is the minimum over its records up to the
    first OPT record (2^32 - 1 when there is none), and a SOA record of the
    authority section is reported exactly when there is one among them. *)
Theorem getDNSPacketMinTTL_spec (m : message) (seen : bool) :
  message_ok m ->
  getDNSPacketMinTTL (enc_message m) seen
  = (min_ttl (before_opt (all_records m)), seen || auth_soa m).
Proof. apply getDNSPacketMinTTL_enc. Qed.

Lemma getDNSPacketMinTTL_spec_witness :
  getDNSPacketMinTTL (enc_message (ex_message 300 10)) false = (10, false).
Proof. apply (getDNSPacketMinTTL_spec (ex_message 300 10)). by apply ex_message_ok. Defined.

(** ** The length of a packet *)

(** the length of a message is found whatever bytes follow it. *)
Theorem getDNSPacketLength_spec (m : message) :
  message_ok m ->
  getDNSPacketLength (enc_message m) = zlen (enc_message m) - zlen (msg_trailing m).
Proof.
  intros Hm. unfold getDNSPacketLength. rewrite (enc_message_long m Hm).
  destruct (header_of_enc m Hm) as (Hqd & _). cbv zeta. rewrite (numrecords_enc m Hm), Hqd.
  destruct (skipQuestions_message m Hm) as [Hl Hq]. rewrite sm_bind_run, Hq, sm_bind_run.
  rewrite (walk_records _ (fun _ r => r)); [|done|by apply message_records|].
  - unfold sm_get, focus, enc_message, enc_front. cbn [d_offset]. rewrite map_from_id, !zlen_app. lia.
  - intros i b [o ty c ttl d] a _ (Ho & Hty & Hc & Httl & Hd). unfold enc_rr.
    cbn [rr_owner rr_type rr_class rr_ttl rr_data] in *. rewrite <- !app_assoc.
    walk_step. rewrite sm_bind_run.
    replace (be16 ty ++ be16 c ++ be32 ttl ++ be16 (zlen d) ++ d ++ a)
      with ((be16 ty ++ be16 c ++ be32 ttl) ++ be16 (zlen d) ++ d ++ a) by by rewrite <- !app_assoc.
    rewrite skipBytes_focus by done. walk_step. by rewrite <- !app_assoc.
Qed.

Lemma getDNSPacketLength_spec_witness :
  getDNSPacketLength (enc_message (ex_message 300 10))
  = zlen (enc_message (ex_message 300 10)) - zlen (msg_trailing (ex_message 300 10)).
Proof. apply getDNSPacketLength_spec. by apply ex_message_ok. Defined.

(** ** Counting records *)

Definition count_type (type : Z) (types : list Z) : Z := zlen (filter (fun t => t = type) types).

(** The types found in a section, by the number the code gives it. *)
Definition section_types (m : message) (section : Z) : list Z :=
  if section =? 0 then map q_type (msg_questions m)
  else if section =? 1 then map rr_type (msg_answers m)
  else if section =? 2 then map rr_type (msg_authority m)
  else if section =? 3 then map rr_type (msg_additional m)
  else [].

Definition bump (selected : bool) (type t r : Z) : Z :=
  if selected && (t =? type) then u16 (r + 1) else r.

Lemma fold_bump {E} (ty : E -> Z) selected type i (es : list E) r :
  0 <= r -> (selected = true -> r + zlen es < 65536) ->
  fold_from (fun _ e => bump selected type (ty e)) i es r
  = r + (if selected : bool then count_type type (map ty es) else 0).
Proof.
  revert i r. induction es as [|e es IH]; intros i r Hr Hlen; cbn [fold_from map].
  - destruct selected; [change (count_type type []) with 0|]; lia.
  - rewrite zlen_cons in Hlen. pose proof (zlen_nonneg es). unfold bump at 2.
    unfold count_type. rewrite filter_cons.
    destruct selected; cbn [andb].
    + specialize (Hlen eq_refl). destruct (Z.eqb_spec (ty e) type) as [E1|E1].
      * rewrite decide_True by done. rewrite zlen_cons. unfold u16. rewrite Z.mod_small by lia.
        rewrite IH by lia. unfold count_type. lia.
      * rewrite decide_False by done. rewrite IH by lia. done.
    + by rewrite IH.
Qed.

Lemma count_section_focus count here section type rs before ahead r :
  12 <= zlen before -> Forall rr_ok rs -> count = zlen rs -> 0 <= r ->
  (section = here -> r + zlen rs < 65536) ->
  count_section count here section type (focus before (enc_rrs rs ++ ahead), r)
  = ((focus (before ++ enc_rrs rs) ahead,
      r + (if section =? here then count_type type (map rr_type rs) else 0)), Ok None).
Proof.
  intros Hb Hr -> Hr0 Hlen. unfold count_section.
  rewrite <- (fold_bump rr_type _ _ 0) by (done || (intros ?%Z.eqb_eq; auto)).
  replace (Z.to_nat (zlen rs)) with (length rs) by (unfold zlen; lia). unfold enc_rrs.
  rewrite (walk_all enc_rr rr_ok (fun b a r => (focus b a, r)) _ (fun _ r => r)
    (fun _ e => bump (section =? here) type (rr_type e))); [by rewrite map_from_id| |done..].
  intros i b [o ty c ttl d] a t _ (Ho & Hty & Hc & Httl & Hd). unfold enc_rr.
  cbn [rr_owner rr_type rr_class rr_ttl rr_data] in *. rewrite <- !app_assoc. walk_step.
  rewrite sm_bind_run. destruct (section =? here); unfold bump; cbn [andb].
  - walk_step. rewrite sm_bind_run. destruct (ty =? type); unfold on_snd, mret, SM_ret; cbn beta iota;
      (erewrite on_fst_run by (by apply skipBytes_focus); rewrite sm_bind_run;
       erewrite on_fst_run by (by apply skipBytes_focus); walk_step; by rewrite <- !app_assoc).
  - rewrite (app_assoc (be16 ty)).
    erewrite on_fst_run by (by apply skipBytes_focus). rewrite sm_bind_run.
    erewrite on_fst_run by (by apply skipBytes_focus). walk_step. by rewrite <- !app_assoc.
Qed.

Lemma count_questions_focus section type qs before ahead :
  12 <= zlen before -> Forall question_ok qs -> zlen qs < 65536 ->
  loopM (Z.to_nat (zlen qs)) (fun n =>
        _ ← on_fst skipDomainName;
        _ ← (if section =? 0 then
               dnstype ← on_fst get16BitInt;
               _ ← (if dnstype =? type then on_snd (fun r => u16 (r + 1)) else mret tt);
               on_fst (skipBytes 2)
             else on_fst (skipBytes 4));
        mret (None (A := unit))) 0 (focus before (concat (map enc_question qs) ++ ahead), 0)
  = ((focus (before ++ concat (map enc_question qs)) ahead,
      if section =? 0 then count_type type (map q_type qs) else 0), Ok None).
Proof.
  intros Hb Hq Hlen.
  rewrite <- (Z.add_0_l (if section =? 0 then _ else _)). rewrite <- (fold_bump q_type _ _ 0) by lia.
  replace (Z.to_nat (zlen qs)) with (length qs) by (unfold zlen; lia).
  rewrite (walk_all enc_question question_ok (fun b a r => (focus b a, r)) _ (fun _ q => q)
    (fun _ e => bump (section =? 0) type (q_type e))); [by rewrite map_from_id| |done..].
  intros i b [o ty c] a t _ (Ho & Hty & Hc). unfold enc_question.
  cbn [q_owner q_type q_class] in *. rewrite <- !app_assoc. walk_step.
  rewrite sm_bind_run. destruct (section =? 0); unfold bump; cbn [andb].
  - walk_step. rewrite sm_bind_run. destruct (ty =? type); unfold on_snd, mret, SM_ret; cbn beta iota;
      (erewrite on_fst_run by (by apply skipBytes_focus); by rewrite <- !app_assoc).
  - rewrite (app_assoc (be16 ty)).
    erewrite on_fst_run by (by apply skipBytes_focus). by rewrite <- !app_assoc.
Qed.

(** counting the records of a type in a section gives exactly their number,
    for each of the four sections, and 0 for any other section number. *)
Theorem getRecordsOfTypeCount_spec (m : message) (section type : Z) :
  message_ok m ->
  getRecordsOfTypeCount (enc_message m) section type
  = count_type type (section_types m section).
Proof.
  intros Hm. unfold getRecordsOfTypeCount. rewrite (enc_message_long m Hm).
  destruct (header_of_enc m Hm) as (-> & -> & -> & ->). cbv zeta.
  destruct (enc_message_split m Hm) as [Hl ->].
  destruct Hm as (_ & Hq1 & Ha1 & Hn1 & Hr1 & Hq & Hr). unfold all_records in *.
  apply Forall_app in Hr as [Hra Hr]. apply Forall_app in Hr as [Hrn Hrr].
  rewrite !enc_rrs_app, <- !app_assoc. rewrite sm_bind_run, count_questions_focus by (done || lia).
  set (b1 := enc_head m ++ _). assert (12 <= zlen b1) as Hb1.
  { unfold b1. rewrite zlen_app. pose proof (zlen_nonneg (concat (map enc_question (msg_questions m)))). lia. }
  pose proof (zlen_nonneg (enc_rrs (msg_answers m))). pose proof (zlen_nonneg (enc_rrs (msg_authority m))).
  assert (forall x, 0 <= count_type type x) as Hct by (intros; apply zlen_nonneg).
  set (c0 := if section =? 0 then count_type type (map q_type (msg_questions m)) else 0).
  set (c1 := if section =? 1 then count_type type (map rr_type (msg_answers m)) else 0).
  set (c2 := if section =? 2 then count_type type (map rr_type (msg_authority m)) else 0).
  set (c3 := if section =? 3 then count_type type (map rr_type (msg_additional m)) else 0).
  assert (0 <= c0 /\ (section <> 0 -> c0 = 0)) as [Hc0 Hz0]
    by (unfold c0; destruct (Z.eqb_spec section 0); split; done || lia).
  assert (0 <= c1 /\ (section <> 1 -> c1 = 0)) as [Hc1 Hz1]
    by (unfold c1; destruct (Z.eqb_spec section 1); split; done || lia).
  assert (0 <= c2 /\ (section <> 2 -> c2 = 0)) as [Hc2 Hz2]
    by (unfold c2; destruct (Z.eqb_spec section 2); split; done || lia).
  rewrite sm_bind_run, (count_section_focus _ 1 section type) by (done || lia). fold c1.
  rewrite sm_bind_run, (count_section_focus _ 2 section type) by (done || rewrite ?zlen_app; lia). fold c2.
  rewrite (count_section_focus _ 3 section type) by (done || rewrite ?zlen_app; lia). fold c3.
  cbn [fst snd]. unfold section_types, c0, c1, c2, c3.
  destruct (Z.eqb_spec section 0) as [->|]; [simpl; lia|].
  destruct (Z.eqb_spec section 1) as [->|]; [simpl; lia|].
  destruct (Z.eqb_spec section 2) as [->|]; [simpl; lia|].
  destruct (Z.eqb_spec section 3) as [->|]; simpl; [lia|done].
Qed.

Lemma getRecordsOfTypeCount_spec_witness :
  getRecordsOfTypeCount (enc_message (ex_message 300 10)) 1 QType.A = 2.
Proof. apply (getRecordsOfTypeCount_spec (ex_message 300 10)). by apply ex_message_ok. Defined.

(** ** Looking for a record *)

Fixpoint find_from {A} (found : Z -> rr -> option A) (i : Z) (rs : list rr) : option A :=
  match rs with
  | [] => None
  | r :: rs' => match found i r with Some v => Some v | None => find_from found (i + 1) rs' end
  end.

Lemma walk_find {A} (body : Z -> SM DNSPacketMangler (option A)) found rs i before ahead :
  (forall i before r ahead, 12 <= zlen before -> rr_ok r ->
     match found i r with
     | None => body i (focus before (enc_rr r ++ ahead)) = (focus (before ++ enc_rr r) ahead, Ok None)
     | Some v => snd (body i (focus before (enc_rr r ++ ahead))) = Ok (Some v)
     end) ->
  12 <= zlen before -> Forall rr_ok rs ->
  snd (loopM (length rs) body i (focus before (enc_rrs rs ++ ahead))) = Ok (find_from found i rs).
Proof.
  intros Hbody Hb Hr. revert i before Hb. induction Hr as [|r rs Hr Hrs IH]; intros i before Hb; [done|].
  cbn [length loopM find_from]. rewrite enc_rrs_cons, <- app_assoc, sm_bind_run.
  specialize (Hbody i before r (enc_rrs rs ++ ahead) Hb Hr). destruct (found i r) as [v|].
  - destruct (body i _) as [s' r']. simpl in Hbody. by subst r'.
  - rewrite Hbody. apply IH. rewrite zlen_app. pose proof (zlen_nonneg (enc_rr r)). lia.
Qed.

Definition has_record (qtypes : list Z) (r : rr) : bool :=
  (rr_class r =? QClass.IN) && bool_decide (rr_type r ∈ qtypes).

Lemma find_from_exists qtypes i rs :
  find_from (fun _ r => if has_record qtypes r then Some tt else None) i rs
  = if existsb (has_record qtypes) rs then Some tt else None.
Proof. revert i. induction rs as [|r rs IH]; intros i; simpl; [done|]. by destruct (has_record qtypes r). Qed.

Lemma checkIfPacketContainsRecords_enc m qtypes :
  message_ok m ->
  checkIfPacketContainsRecords (enc_message m) qtypes = existsb (has_record qtypes) (all_records m).
Proof.
  intros Hm. unfold checkIfPacketContainsRecords. rewrite (enc_message_long m Hm).
  destruct (header_of_enc m Hm) as (Hqd & _). cbv zeta. rewrite (numrecords_enc m Hm), Hqd.
  destruct (skipQuestions_message m Hm) as [Hl Hq]. rewrite sm_bind_run, Hq.
  rewrite (walk_find _ (fun _ r => if has_record qtypes r then Some tt else None));
    [|..|done|by apply message_records].
  - rewrite find_from_exists. by destruct (existsb _ _).
  - intros i b [o ty c ttl d] a _ (Ho & Hty & Hc & Httl & Hd). unfold enc_rr, has_record.
    cbn [rr_owner rr_type rr_class rr_ttl rr_data] in *. rewrite <- !app_assoc. do 3 walk_step.
    destruct (_ && _); [done|].
    rewrite sm_bind_run, skipBytes_focus by done. walk_step. by rewrite <- !app_assoc.
Qed.

(** The EDNS parameters of a message: class and low half of the TTL of the first
    OPT record at the root in the additional section. *)
Definition opt_of (m : message) : option (Z * Z) :=
  match filter (fun r => rr_type r = QType.OPT /\ rr_owner r = [0]) (msg_additional m) with
  | r :: _ => Some (rr_class r, rr_ttl r mod 65536)
  | [] => None
  end.

Definition found_opt (m : message) (i : Z) (r : rr) : option (Z * Z) :=
  if (section_of (header_of (enc_message m)) i =? 3) && (rr_type r =? QType.OPT)
     && bool_decide (rr_owner r = [0])
  then Some (rr_class r, rr_ttl r mod 65536) else None.

Lemma find_from_app {A} (found : Z -> rr -> option A) i a b :
  find_from found i (a ++ b)
  = match find_from found i a with Some v => Some v | None => find_from found (i + zlen a) b end.
Proof.
  revert i. induction a as [|r a IH]; intros i; simpl; [by rewrite Z.add_0_r|].
  destruct (found i r); [done|]. rewrite IH, zlen_cons. by rewrite Z.add_assoc.
Qed.

Lemma find_from_None {A} (found : Z -> rr -> option A) i rs :
  (forall j r, i <= j < i + zlen rs -> found j r = None) -> find_from found i rs = None.
Proof.
  revert i. induction rs as [|r rs IH]; intros i Hf; simpl; [done|]. rewrite zlen_cons in Hf.
  pose proof (zlen_nonneg rs). rewrite Hf by lia. apply IH. intros. apply Hf. lia.
Qed.

Lemma find_opt_additional m i rs :
  (forall j, i <= j -> section_of (header_of (enc_message m)) j = 3) ->
  find_from (found_opt m) i rs
  = match filter (fun r => rr_type r = QType.OPT /\ rr_owner r = [0]) rs with
    | r :: _ => Some (rr_class r, rr_ttl r mod 65536)
    | [] => None
    end.
Proof.
  intros Hs. revert i Hs. induction rs as [|r rs IH]; intros i Hs; [done|]. cbn [find_from].
  rewrite filter_cons. unfold found_opt at 1. rewrite Hs by lia.
  destruct (Z.eqb_spec (rr_type r) QType.OPT) as [E|E]; cbn [andb Z.eqb Pos.eqb].
  - case_bool_decide as Ho.
    + by rewrite decide_True.
    + rewrite decide_False by naive_solver. apply IH. intros. apply Hs. lia.
  - rewrite decide_False by naive_solver. apply IH. intros. apply Hs. lia.
Qed.

Lemma find_opt_all m :
  message_ok m -> find_from (found_opt m) 0 (all_records m) = opt_of m.
Proof.
  intros Hm. destruct (header_of_enc m Hm) as (_ & Han & Hns & _).
  unfold all_records. rewrite app_assoc, find_from_app, find_from_None.
  - rewrite find_opt_additional; [done|]. intros j Hj. unfold section_of. rewrite Han, Hns.
    rewrite zlen_app in Hj. pose proof (zlen_nonneg (msg_authority m)).
    rewrite !(proj2 (Z.ltb_ge _ _)) by lia. done.
  - intros j r Hj. unfold found_opt, section_of. rewrite Han, Hns. rewrite zlen_app in Hj.
    destruct (Z.ltb_spec j (zlen (msg_answers m))); [done|].
    rewrite (proj2 (Z.ltb_lt _ _)) by lia. done.
Qed.

(** the UDP payload size and the flags a message announces are those of the
    first OPT record whose owner is the root in its additional section, and
    nothing is found exactly when there is no such record. *)
Theorem getEDNSUDPPayloadSizeAndZ_spec (m : message) :
  message_ok m -> getEDNSUDPPayloadSizeAndZ (enc_message m) = opt_of m.
Proof.
  intros Hm. unfold getEDNSUDPPayloadSizeAndZ. rewrite (enc_message_long m Hm). cbv zeta.
  pose proof (header_of_enc m Hm) as (Hqd & _ & _ & Har). rewrite Har.
  destruct (Z.eqb_spec (zlen (msg_additional m)) 0) as [E|E].
  { apply zlen_zero_inv in E. unfold opt_of. by rewrite E. }
  rewrite (numrecords_enc m Hm), Hqd. destruct (skipQuestions_message m Hm) as [Hl Hq].
  rewrite sm_bind_run, Hq. rewrite (walk_find _ (found_opt m)); [|..|done|by apply message_records].
  - rewrite find_opt_all by done. by destruct (opt_of m).
  - intros i b [o ty c ttl d] a _ (Ho & Hty & Hc & Httl & Hd). unfold enc_rr, found_opt.
    cbn [rr_owner rr_type rr_class rr_ttl rr_data] in *. rewrite <- !app_assoc. do 2 walk_step.
    destruct (_ && _).
    + walk_step. unfold be32. rewrite <- (app_assoc (be16 (ttl / 65536))), sm_bind_run, skipBytes_focus by done.
      pose proof (Z.mod_pos_bound ttl 65536 ltac:(lia)). walk_step. done.
    + rewrite sm_bind_run, skipBytes_focus by done. rewrite sm_bind_run, skipBytes_focus by done.
      walk_step. by rewrite <- !app_assoc.
Qed.

Lemma getEDNSUDPPayloadSizeAndZ_spec_witness :
  getEDNSUDPPayloadSizeAndZ (enc_message (ex_message 300 10)) = Some (1232, 32768).
Proof.
  rewrite (getEDNSUDPPayloadSizeAndZ_spec (ex_message 300 10)); [done|by apply ex_message_ok].
Defined.

(** ** Editing TTLs *)

Definition edit_rr (visitor : Z -> Z -> Z -> Z -> Z) (section : Z) (r : rr) : rr :=
  let newttl := visitor section (rr_class r) (rr_type r) (rr_ttl r) in
  if newttl =? 0 then r
  else mkRR (rr_owner r) (rr_type r) (rr_class r) newttl (rr_data r).

(** editing the TTLs of a packet asks the visitor, with the section, class,
    type and TTL, about every record up to the first OPT record, in order, and
    replaces the TTL by the answer unless it is 0; nothing else changes. *)
Theorem editDNSPacketTTL_refines (m : message) (visitor : Z -> Z -> Z -> Z -> Z) :
  message_ok m ->
  editDNSPacketTTL (enc_message m) visitor
  = enc_front m
    ++ enc_rrs (map_from (fun i => edit_rr visitor (section_of (header_of (enc_message m)) i)) 0
                  (before_opt (all_records m)))
    ++ enc_rrs (from_opt (all_records m)) ++ msg_trailing m.
Proof.
  intros Hm. unfold editDNSPacketTTL. rewrite (enc_message_long m Hm).
  pose proof (header_of_enc m Hm) as (Hqd & _). cbv zeta. rewrite (numrecords_enc m Hm), Hqd.
  destruct (skipQuestions_message m Hm) as [Hl Hq]. rewrite sm_bind_run, Hq.
  pose proof (message_records m Hm) as Hrecs.
  set (dh := header_of (enc_message m)).
  rewrite (walk_until_opt (fun b a (_ : unit) => focus b a) _
    (fun i => edit_rr visitor (section_of dh i)) (fun _ _ t => t) d_packet) with (t := tt);
    [unfold focus; simpl; by rewrite <- !app_assoc|..|done|done].
  - intros i b [o ty c ttl d] a _ Hb (Ho & Hty & Hc & Httl & Hd) Hopt. unfold edit_rr, enc_rr.
    cbn [rr_owner rr_type rr_class rr_ttl rr_data] in *. rewrite <- !app_assoc. do 3 walk_step.
    rewrite (proj2 (Z.eqb_neq _ _) Hopt). walk_step. rewrite sm_bind_run.
    destruct (visitor (section_of dh i) c ty ttl =? 0); cbn [negb rr_owner rr_type rr_class rr_ttl rr_data].
    + unfold mret, SM_ret. cbn beta iota. walk_step. by rewrite <- !app_assoc.
    + rewrite sm_bind_run, (rewindBytes_focus _ (be32 ttl)).
      2: { rewrite !zlen_app. pose proof (zlen_nonneg o). rewrite !zlen_be16. lia. }
      rewrite setAndSkip32BitInt_focus by done. walk_step. by rewrite <- !app_assoc.
  - intros i b [o ty c ttl d] a _ (Ho & Hty & Hc & Httl & Hd) Hopt. unfold enc_rr.
    cbn [rr_owner rr_type rr_class rr_ttl rr_data] in *. rewrite <- !app_assoc. do 3 walk_step.
    rewrite (proj2 (Z.eqb_eq _ _) Hopt). do 2 eexists. split; [done|].
    unfold focus. simpl. by rewrite <- !app_assoc.
Qed.

Lemma editDNSPacketTTL_refines_witness :
  editDNSPacketTTL (enc_message (ex_message 300 10)) (fun _ _ _ ttl => if ttl <? 60 then 60 else 0)
  = enc_message (ex_message 300 60).
Proof.
  rewrite (editDNSPacketTTL_refines (ex_message 300 10)); [by vm_compute|by apply ex_message_ok].
Defined.
