(* ===== verification/PacketSafety.v ===== *)
(** * The packet walks on arbitrary packets

    What holds of ageing and of shuffling when the packet is not a well-formed
    message: the walks stop at an exception, and whatever was done before keeps
    the packet's length, its header, and its bytes. *)

From S2P Require Import Prelude Chars Dns Names NamesWire Mangler.

#[local] Open Scope Z_scope.

Section invariant.
(** What is to be kept about the bytes of the packet. *)
Context (R : bytes -> Prop).

Definition walk_inv (m : DNSPacketMangler) : Prop :=
  R (d_packet m) /\ bytes_ok (d_packet m) /\ 12 <= d_offset m.

Lemma moveOffset_keeps k : 0 <= k -> keeps walk_inv (moveOffset k) (fun _ => True).
Proof.
  intros Hk. eapply keeps_bind; [apply keeps_modify|intros _ _].
  - intros m (HR & Hok & Hoff). split_and!; simpl; [done|done|lia].
  - eapply keeps_bind; [by apply (keeps_get _ _ (fun _ => True))|intros m' _].
    eapply keeps_weaken; [apply keeps_throw_if|done].
Qed.

Lemma get8BitInt_keeps : keeps walk_inv get8BitInt (fun b => 0 <= b < 256).
Proof.
  eapply keeps_bind; [by apply (keeps_get _ _ (fun _ => True))|intros p _].
  eapply keeps_bind; [by apply moveOffset_keeps|intros _ _].
  apply keeps_get. intros m (_ & Hok & _). by apply byte_at_range.
Qed.

Lemma get16BitInt_keeps : keeps walk_inv get16BitInt (fun v => 0 <= v < 65536).
Proof.
  eapply keeps_bind; [by apply (keeps_get _ _ (fun _ => True))|intros p _].
  eapply keeps_bind; [by apply moveOffset_keeps|intros _ _].
  apply keeps_get. intros m (_ & Hok & _). by apply get16_range.
Qed.

Lemma skipDomainName_loop_keeps fuel isRoot :
  keeps walk_inv (skipDomainName_loop fuel isRoot) (fun _ => True).
Proof.
  revert isRoot. induction fuel as [|fuel IH]; intros isRoot; [apply keeps_throw|].
  eapply keeps_bind; [apply get8BitInt_keeps|intros len [Hlen _]].
  apply keeps_if; [by apply keeps_ret|]. apply keeps_if.
  - eapply keeps_bind; [apply get8BitInt_keeps|intros _ _; by apply keeps_ret].
  - eapply keeps_bind; [apply moveOffset_keeps; lia|intros _ _; apply IH].
Qed.

Lemma skipDomainName_keeps : keeps walk_inv skipDomainName (fun _ => True).
Proof.
  eapply keeps_bind; [by apply (keeps_get _ _ (fun _ => True))|intros m _].
  apply skipDomainName_loop_keeps.
Qed.

Lemma skipRData_keeps : keeps walk_inv skipRData (fun _ => True).
Proof.
  eapply keeps_bind; [apply get16BitInt_keeps|intros n [Hn _]]. apply moveOffset_keeps. lia.
Qed.

Lemma skipBytes_keeps k : 0 <= k -> keeps walk_inv (skipBytes k) (fun _ => True).
Proof. apply moveOffset_keeps. Qed.

Lemma skipRDataAndReturnOffsets_keeps :
  keeps walk_inv skipRDataAndReturnOffsets (fun w => 0 <= fst w).
Proof.
  eapply keeps_bind; [apply get16BitInt_keeps|intros n [Hn _]].
  eapply keeps_bind; [apply (keeps_get _ _ (fun o => 0 <= o)); intros m (_ & _ & ?); lia|intros start Hs].
  eapply keeps_bind; [apply moveOffset_keeps; lia|intros _ _].
  eapply keeps_bind; [by apply (keeps_get _ _ (fun _ => True))|intros e _]. by apply keeps_ret.
Qed.

Lemma skipQuestions_keeps n : keeps walk_inv (skipQuestions n) (fun _ => True).
Proof.
  apply keeps_loopM. intros i. eapply keeps_bind; [apply skipDomainName_keeps|intros _ _].
  eapply keeps_bind; [by apply skipBytes_keeps|intros _ _]. by apply keeps_ret.
Qed.

Context (HR : forall p i v, R p -> bytes_ok p -> 12 <= i -> i + 4 <= zlen p -> 0 <= v < 2 ^ 32 ->
                            R (zwrite p i (be32 v))).

Lemma bytes_ok_be32 v : bytes_ok (be32 v).
Proof.
  assert (forall x, bytes_ok (be16 x)) as H16.
  { intros x. repeat constructor; unfold is_byte.
    - pose proof (Z.mod_pos_bound (x / 256) 256 ltac:(lia)). lia.
    - pose proof (Z.mod_pos_bound (x / 256) 256 ltac:(lia)). lia.
    - pose proof (Z.mod_pos_bound x 256 ltac:(lia)). lia.
    - pose proof (Z.mod_pos_bound x 256 ltac:(lia)). lia. }
  apply bytes_ok_app. done.
Qed.

Lemma decrease_keeps s : 0 <= s -> keeps walk_inv (decreaseAndSkip32BitInt s) (fun _ => True).
Proof.
  intros Hs [p off] (Hp & Hok & Hoff). simpl in *. split; [|done].
  unfold decreaseAndSkip32BitInt, moveOffset, mbind, SM_bind, sm_get, sm_modify, sm_throw_if, d_length.
  simpl. destruct (Z.ltb_spec (zlen p) (off + 4)) as [E|E]; simpl.
  - split_and!; simpl; [done|done|lia].
  - split_and!; simpl; [|by apply bytes_ok_zwrite, bytes_ok_be32|lia].
    apply HR; [done|done|lia|lia|]. pose proof (get32_range p off Hok). case_match; lia.
Qed.

Lemma age_body_keeps s : 0 <= s ->
  keeps walk_inv (_ ← skipDomainName;
      dnstype ← get16BitInt;
      _ ← skipBytes 2;
      _ ← (if negb (dnstype =? QType.OPT) then decreaseAndSkip32BitInt s else skipBytes 4);
      _ ← skipRData;
      mret (None (A := unit))) (fun _ => True).
Proof.
  intros Hs. eapply keeps_bind; [apply skipDomainName_keeps|intros _ _].
  eapply keeps_bind; [apply get16BitInt_keeps|intros ty _].
  eapply keeps_bind; [by apply skipBytes_keeps|intros _ _].
  eapply keeps_bind; [apply keeps_if; [by apply decrease_keeps|by apply skipBytes_keeps]|intros _ _].
  eapply keeps_bind; [apply skipRData_keeps|intros _ _]. by apply keeps_ret.
Qed.
End invariant.

Lemma header_kept p0 : forall p i v,
  (zlen p = zlen p0 /\ ztake 12 p = ztake 12 p0) -> bytes_ok p -> 12 <= i -> i + 4 <= zlen p ->
  0 <= v < 2 ^ 32 ->
  zlen (zwrite p i (be32 v)) = zlen p0 /\ ztake 12 (zwrite p i (be32 v)) = ztake 12 p0.
Proof.
  intros p i v [Hl Ht] _ Hi Hi4 _. split.
  - rewrite zlen_zwrite; [done|lia|]. by rewrite zlen_be32.
  - rewrite <- Ht. unfold zwrite, ztake. rewrite take_app_le; [|rewrite length_take; unfold zlen in *; lia].
    rewrite take_take. f_equal. lia.
Qed.

(** ageing never changes the length of a packet nor its 12 header bytes,
    whatever the packet holds and wherever the walk is cut by an exception. *)
Theorem ageDNSPacket_safe (packet : bytes) (seconds : Z) (dh : dnsheader) :
  bytes_ok packet -> 0 <= seconds ->
  zlen (ageDNSPacket packet seconds dh) = zlen packet
  /\ ztake 12 (ageDNSPacket packet seconds dh) = ztake 12 packet
  /\ bytes_ok (ageDNSPacket packet seconds dh).
Proof.
  intros Hok Hs. unfold ageDNSPacket. destruct (_ <? _); [done|].
  set (R p := zlen p = zlen packet /\ ztake 12 p = ztake 12 packet).
  match goal with |- context [fst (?m (mangler packet))] =>
    assert (keeps (walk_inv R) m (fun _ => True)) as Hk end.
  { eapply keeps_bind; [apply skipQuestions_keeps|intros _ _]. apply keeps_loopM. intros i.
    apply age_body_keeps; [|done]. intros p j v. apply header_kept. }
  destruct (Hk (mangler packet)) as [((Hl & Ht) & Hb & _) _]; [|done].
  split_and!; [by split|done|]. unfold mangler. simpl. lia.
Qed.

Lemma ageDNSPacket_safe_witness :
  zlen (ageDNSPacket [0; 1; 2; 3; 0; 9; 0; 9; 0; 9; 0; 9; 5; 6] 60 (header_of [0; 1; 2; 3; 0; 9; 0; 9; 0; 9; 0; 9; 5; 6])) = 14
  /\ ztake 12 (ageDNSPacket [0; 1; 2; 3; 0; 9; 0; 9; 0; 9; 0; 9; 5; 6] 60 (header_of [0; 1; 2; 3; 0; 9; 0; 9; 0; 9; 0; 9; 5; 6]))
     = [0; 1; 2; 3; 0; 9; 0; 9; 0; 9; 0; 9]
  /\ bytes_ok (ageDNSPacket [0; 1; 2; 3; 0; 9; 0; 9; 0; 9; 0; 9; 5; 6] 60 (header_of [0; 1; 2; 3; 0; 9; 0; 9; 0; 9; 0; 9; 5; 6])).
Proof. apply ageDNSPacket_safe; [by_decide|done]. Defined.

(** ** Shuffling *)

Lemma zsub_split (p : bytes) i n : 0 <= i -> 0 <= n -> zdrop i p = zsub p i n ++ zdrop (i + n) p.
Proof.
  intros. unfold zsub. rewrite <- (ztake_zdrop n (zdrop i p)) at 1. by rewrite zdrop_zdrop.
Qed.

Lemma swap_segments_perm p a b :
  0 <= fst a -> fst a < snd a -> snd a <= fst b -> snd a - fst a = snd b - fst b ->
  swap_segments p a b ≡ₚ p.
Proof.
  destruct a as [a1 a2], b as [b1 b2]. simpl. intros H1 H2 H3 H4. unfold swap_segments. simpl.
  assert (p = ztake a1 p ++ zsub p a1 (a2 - a1) ++ zsub p a2 (b1 - a2) ++ zsub p b1 (a2 - a1) ++ zdrop b2 p)
    as Hp.
  { rewrite <- (ztake_zdrop a1 p) at 1. f_equal.
    rewrite (zsub_split p a1 (a2 - a1)) by lia. f_equal. replace (a1 + (a2 - a1)) with a2 by lia.
    rewrite (zsub_split p a2 (b1 - a2)) by lia. f_equal. replace (a2 + (b1 - a2)) with b1 by lia.
    rewrite (zsub_split p b1 (a2 - a1)) by lia. do 2 f_equal. lia. }
  rewrite Hp at 6. apply Permutation_app_head.
  rewrite !(app_assoc (zsub p _ _)). rewrite !app_assoc. apply Permutation_app_tail.
  rewrite <- !app_assoc. rewrite (Permutation_app_comm (zsub p b1 _)), <- app_assoc.
  rewrite (Permutation_app_comm (zsub p a2 _)), <- app_assoc. apply Permutation_app_head.
  by rewrite Permutation_app_comm.
Qed.

Lemma swap_checks (a1 a2 b1 b2 : Z) :
  u32 (a2 - a1) = u32 (b2 - b1) -> 0 <= a1 < a2 -> a2 <= b1 -> b2 < 2 ^ 32 -> a2 - a1 = b2 - b1 \/ b2 < b1.
Proof.
  unfold u32. intros E H1 H2 H3. destruct (Z.le_gt_cases b1 b2); [|by right]. left.
  rewrite !Z.mod_small in E by lia. done.
Qed.

(** The segments of the second window end before it starts only for windows
    that were not made by the walk. *)
Definition window_ok (w : Z * Z) : Prop := 0 <= fst w <= snd w.

Lemma swapInPlace_perm p0 a b m :
  zlen p0 < 2 ^ 32 -> window_ok a -> window_ok b -> d_packet m ≡ₚ p0 ->
  d_packet (fst (swapInPlace a b m)) ≡ₚ p0.
Proof.
  intros Hlen Ha Hb Hm. unfold swapInPlace.
  assert (exists a' b', (if fst b <? fst a then (b, a) else (a, b)) = (a', b')
          /\ window_ok a' /\ window_ok b') as (a' & b' & -> & Ha' & Hb')
    by (destruct (fst b <? fst a); eauto).
  clear Ha Hb. unfold mbind, SM_bind, sm_get, sm_throw_if, sm_modify, d_length.
  destruct (Z.eqb_spec (u32 (snd a' - fst a')) (u32 (snd b' - fst b'))) as [E|]; [|done]. simpl.
  destruct (Z.leb_spec (snd a') (fst a')) as [|E1]; [done|]. simpl.
  destruct (Z.ltb_spec (fst b') (snd a')) as [|E2]; [done|]. simpl.
  destruct (Z.ltb_spec (zlen (d_packet m)) (snd b')) as [|E3]; [done|]. simpl.
  destruct (Z.ltb_spec (d_offset m) (snd b')) as [|E4]; [done|]. simpl.
  assert (zlen (d_packet m) = zlen p0) as Hl by (unfold zlen; by rewrite Hm).
  unfold window_ok in *. destruct (swap_checks _ _ _ _ E) as [Heq|?]; [lia|lia|lia| |lia].
  rewrite swap_segments_perm by lia. done.
Qed.

Lemma shuffle_swaps_perm p0 dist idx k m :
  zlen p0 < 2 ^ 32 -> Forall window_ok idx -> d_packet m ≡ₚ p0 ->
  d_packet (fst (shuffle_swaps dist idx k m)) ≡ₚ p0.
Proof.
  intros Hlen Hidx. revert m. induction k as [|k IH]; intros m Hm; [done|].
  cbn [shuffle_swaps]. unfold mbind, SM_bind. case_bool_decide; [by apply IH|].
  unfold sm_lift. destruct (idx !! S k) as [a|] eqn:Ea; [|done]. simpl.
  destruct (idx !! dist (S k)) as [b|] eqn:Eb; [|done]. simpl.
  pose proof (swapInPlace_perm p0 a b m Hlen) as Hs.
  destruct (swapInPlace a b m) as [m' [u|e]]; simpl in *;
    [apply IH|]; apply Hs; try done; by eapply Forall_lookup_1.
Qed.

(** The invariant of the collecting loop. *)
Definition shuffle_inv (packet : bytes) (m : DNSPacketMangler) (st : shuffle_state) : Prop :=
  walk_inv (fun p => p = packet) m /\ Forall window_ok (rrdata_indexes st).

Lemma skipRDataAndReturnOffsets_window R :
  keeps (walk_inv R) skipRDataAndReturnOffsets window_ok.
Proof.
  intros [p off] (HR & Hok & Hoff). destruct (skipRDataAndReturnOffsets_keeps R (mkMangler p off)) as [H1 _];
    [done|]. split; [done|]. intros w. simpl in *.
  unfold skipRDataAndReturnOffsets, get16BitInt, moveOffset, mbind, SM_bind, sm_get, sm_modify,
    sm_throw_if, d_length, mret, SM_ret. simpl.
  destruct (_ <? _); [done|]. simpl. destruct (_ <? _); [done|]. simpl. intros [= <-].
  pose proof (get16_range p off Hok). split; simpl; lia.
Qed.

Lemma keeps_shuffle {A} packet (m : SM DNSPacketMangler A) Q :
  keeps (walk_inv (fun p => p = packet)) m Q ->
  keeps (fun st => shuffle_inv packet (fst st) (snd st)) (on_fst m) Q.
Proof.
  intros Hm. apply keeps_on_fst. intros t s [Hs Ht]. destruct (Hm s Hs). by split.
Qed.

Lemma shuffle_body_keeps lim packet i :
  keeps (fun st => shuffle_inv packet (fst st) (snd st)) (shuffle_body lim packet i) (fun _ => True).
Proof.
  unfold shuffle_body.
  eapply keeps_bind; [apply keeps_shuffle; by apply (keeps_get _ _ (fun _ => True))|intros ds _].
  eapply keeps_bind; [apply keeps_shuffle, skipDomainName_keeps|intros _ _].
  eapply keeps_bind; [apply keeps_shuffle, get16BitInt_keeps|intros ty _].
  eapply keeps_bind; [by apply (keeps_get _ _ (fun _ => True))|intros st _].
  apply keeps_if.
  - eapply (keeps_bind _ _ _ (fun _ => True)).
    { apply keeps_if; [|apply keeps_if; [by apply keeps_ret|]].
      - eapply keeps_bind; [apply keeps_lift|intros r _].
        eapply keeps_bind; [apply keeps_on_snd; intros s t []; by split|intros _ _].
        by apply keeps_ret.
      - eapply keeps_bind; [apply keeps_lift|intros r _]. by apply keeps_ret. }
    intros stop _. apply keeps_if; [by apply keeps_ret|].
    eapply keeps_bind; [by apply keeps_shuffle, skipBytes_keeps|intros _ _].
    eapply keeps_bind; [by apply keeps_shuffle, skipBytes_keeps|intros _ _].
    eapply keeps_bind; [apply keeps_shuffle, skipRDataAndReturnOffsets_window|intros w Hw].
    eapply keeps_bind; [apply keeps_on_snd|intros _ _; by apply keeps_ret].
    intros s t [Hs Ht]. split; [done|]. simpl. apply Forall_app. split; [done|]. by apply Forall_singleton.
  - apply keeps_if; [by apply keeps_ret|].
    eapply keeps_bind; [by apply keeps_shuffle, skipBytes_keeps|intros _ _].
    eapply keeps_bind; [by apply keeps_shuffle, skipBytes_keeps|intros _ _].
    eapply keeps_bind; [apply keeps_shuffle, skipRData_keeps|intros _ _]. by apply keeps_ret.
Qed.

(** shuffling the answers of a packet only moves bytes around: the result is
    a permutation of the bytes of the packet, of the same length therefore,
    whatever the packet holds and whatever the random numbers are. *)
Theorem shuffleDNSPacket_permutes (lim : name_limits) (dist : nat -> nat) (packet : bytes) (dh : dnsheader) :
  bytes_ok packet -> zlen packet < 2 ^ 32 ->
  shuffleDNSPacket lim dist packet dh ≡ₚ packet.
Proof.
  intros Hok Hlen. unfold shuffleDNSPacket. destruct (_ <? _); [done|]. destruct (_ =? _); [done|].
  assert (keeps (fun st => shuffle_inv packet (fst st) (snd st))
            (_ ← on_fst (skipQuestions (dh_qdcount dh));
             loopM (Z.to_nat (dh_ancount dh)) (shuffle_body lim packet) 0) (fun _ => True)) as Hk.
  { eapply keeps_bind; [apply keeps_shuffle, skipQuestions_keeps|intros _ _].
    apply keeps_loopM. intros. apply shuffle_body_keeps. }
  destruct (Hk (mangler packet, mkShuffle 0 (mkDNSName []) [])) as [Hinv _].
  { split; [|constructor]. split_and!; simpl; [done|done|lia]. }
  unfold mbind, SM_bind in *.
  destruct (on_fst (skipQuestions (dh_qdcount dh)) _) as [[m1 st1] [u1|e1]].
  2: { destruct Hinv as [(Hp & _) _]. simpl in *. by rewrite Hp. }
  destruct (loopM _ _ _ _) as [[m2 st2] [u2|e2]]; destruct Hinv as [(Hp & _) Hw]; simpl in Hp, Hw.
  2: { simpl. by rewrite Hp. }
  unfold sm_get. cbn [fst snd]. case_match; [|simpl; by rewrite Hp].
  unfold on_fst. pose proof (shuffle_swaps_perm packet dist (rrdata_indexes st2)
    (length (rrdata_indexes st2) - 1) m2 Hlen Hw) as Hs. rewrite Hp in Hs. specialize (Hs (reflexivity _)).
  by destruct (shuffle_swaps _ _ _ _).
Qed.

Lemma shuffleDNSPacket_permutes_witness :
  shuffleDNSPacket default_limits (fun _ => O)
    ([0; 1; 129; 128; 0; 0; 0; 2; 0; 0; 0; 0] ++ [0; 0; 1; 0; 1; 0; 0; 0; 9; 0; 4; 1; 2; 3; 4]
     ++ [0; 0; 1; 0; 1; 0; 0; 0; 9; 0; 4; 5; 6; 7; 8])
    (header_of [0; 1; 129; 128; 0; 0; 0; 2; 0; 0; 0; 0])
  ≡ₚ [0; 1; 129; 128; 0; 0; 0; 2; 0; 0; 0; 0] ++ [0; 0; 1; 0; 1; 0; 0; 0; 9; 0; 4; 1; 2; 3; 4]
     ++ [0; 0; 1; 0; 1; 0; 0; 0; 9; 0; 4; 5; 6; 7; 8].
Proof. apply shuffleDNSPacket_permutes; [by_decide|done]. Defined.

(** The swap does happen. *)
Example shuffle_swaps_two :
  shuffleDNSPacket default_limits (fun _ => O)
    ([0; 1; 129; 128; 0; 0; 0; 2; 0; 0; 0; 0] ++ [0; 0; 1; 0; 1; 0; 0; 0; 9; 0; 4; 1; 2; 3; 4]
     ++ [0; 0; 1; 0; 1; 0; 0; 0; 9; 0; 4; 5; 6; 7; 8])
    (header_of [0; 1; 129; 128; 0; 0; 0; 2; 0; 0; 0; 0])
  = [0; 1; 129; 128; 0; 0; 0; 2; 0; 0; 0; 0] ++ [0; 0; 1; 0; 1; 0; 0; 0; 9; 0; 4; 5; 6; 7; 8]
    ++ [0; 0; 1; 0; 1; 0; 0; 0; 9; 0; 4; 1; 2; 3; 4].
Proof. by vm_compute. Qed.
