(* ===== verification/Reader.v ===== *)
(** * Reading packets

    [PacketReader] of [pdns/dnsparser.hh] and [pdns/dnsparser.cc], the record
    contents of unknown types, [MOADNSParser], and [visitDNSPacket]. *)

From S2P Require Import Prelude Chars Dns Names NamesWire.

#[local] Open Scope Z_scope.

(** ** PacketReader *)

(** Positions and lengths are 16 bits wide; sums of them are computed in [int]
    and wrap only where they are stored again. *)
Record PacketReader : Type := mkReader {
  r_content : bytes;
  r_pos : Z;
  r_startrecordpos : Z;
  r_recordlen : Z;
  r_internal : bool;
  r_standalone : bool;
  r_pointerBudget : Z;
}.

Definition s_MaxPointersPerByte : Z := 4.

Definition PacketReader_make (content : bytes) (initialPos : Z) (internal standalone : bool)
  : result PacketReader :=
  _ ← throw_if (65535 <? zlen content) (out_of_range "packet too large");
  Ok (mkReader content initialPos initialPos (u16 (zlen content)) internal standalone
        (zlen content * s_MaxPointersPerByte)).

Definition set_pos (p : Z) (r : PacketReader) : PacketReader :=
  mkReader (r_content r) (u16 p) (r_startrecordpos r) (r_recordlen r) (r_internal r) (r_standalone r)
    (r_pointerBudget r).

Definition setPointerBudget (maxPointers : Z) (r : PacketReader) : PacketReader :=
  mkReader (r_content r) (r_pos r) (r_startrecordpos r) (r_recordlen r) (r_internal r)
    (r_standalone r) maxPointers.

Definition set_record (start len : Z) (r : PacketReader) : PacketReader :=
  mkReader (r_content r) (r_pos r) start len (r_internal r) (r_standalone r) (r_pointerBudget r).

Definition record_end (r : PacketReader) : Z := r_startrecordpos r + r_recordlen r.

Definition isWithinRecordBoundaries (r : PacketReader) (initialPosition endPosition : Z)
    (canBeOutsideRecordContent : bool) : bool :=
  if endPosition <? initialPosition then false
  else if canBeOutsideRecordContent && (r_recordlen r =? 0) then true
  else
    let endOfRecordContent := record_end r in
    if canBeOutsideRecordContent && (endOfRecordContent <=? initialPosition) then true
    else (r_startrecordpos r <=? initialPosition) && (initialPosition <=? endOfRecordContent)
         && (endPosition <=? endOfRecordContent).

(** [d_content.at(d_pos++)]: the position is advanced even when the access throws. *)
Definition next_byte : SM PacketReader Z :=
  r ← sm_get (fun r => r);
  _ ← sm_modify (set_pos (r_pos r + 1));
  sm_lift (of_option (out_of_range "string_view::at") (zat (r_content r) (r_pos r))).

Definition check_record (n : Z) (msg : string) : SM PacketReader unit :=
  r ← sm_get (fun r => r);
  sm_throw_if (negb (isWithinRecordBoundaries r (r_pos r) (r_pos r + n) false)) (out_of_range msg).

Definition r_get8BitInt : SM PacketReader Z :=
  _ ← check_record 1 "Attempt to read 8 bit value outside of record"; next_byte.

Definition r_get16BitInt : SM PacketReader Z :=
  _ ← check_record 2 "Attempt to read 16 bit value outside of record";
  a ← next_byte; b ← next_byte; mret (a * 256 + b).

Definition r_get32BitInt : SM PacketReader Z :=
  _ ← check_record 4 "Attempt to read 32 bit value outside of record";
  a ← next_byte; b ← next_byte; c ← next_byte; d ← next_byte;
  mret (((a * 256 + b) * 256 + c) * 256 + d).

Definition r_xfr48BitInt : SM PacketReader Z :=
  _ ← check_record 6 "Attempt to read 48 bit value outside of record";
  a ← next_byte; b ← next_byte; c ← next_byte; d ← next_byte; e ← next_byte; f ← next_byte;
  mret (((((a * 256 + b) * 256 + c) * 256 + d) * 256 + e) * 256 + f).

Definition r_xfrNodeOrLocatorID : SM PacketReader bytes :=
  r ← sm_get (fun r => r);
  _ ← sm_throw_if (zlen (r_content r) <? r_pos r + 8)
        (out_of_range "Attempt to read 64 bit value outside of packet");
  _ ← check_record 8 "Attempt to read node or locator ID outside of record";
  _ ← sm_modify (set_pos (r_pos r + 8));
  mret (zsub (r_content r) (r_pos r) 8).

(** [ah], with its fields in host order. *)
Record dnsrecordheader : Type := mkRecordHeader {
  ah_type : Z; ah_class : Z; ah_ttl : Z; ah_clen : Z;
}.

Definition next_16 : SM PacketReader Z := a ← next_byte; b ← next_byte; mret (a * 256 + b).

Definition getDnsrecordheader : SM PacketReader dnsrecordheader :=
  ty ← next_16; cl ← next_16; hi ← next_16; lo ← next_16; len ← next_16;
  r ← sm_get (fun r => r);
  _ ← sm_modify (set_record (r_pos r) len);
  _ ← sm_throw_if ((zlen (r_content r) <? r_pos r) || (zlen (r_content r) - r_pos r <? len))
        (out_of_range "DNS record length goes beyond the packet's content");
  mret (mkRecordHeader ty cl (hi * 65536 + lo) len).

Definition copyRecord (len : Z) : SM PacketReader bytes :=
  if len =? 0 then mret []
  else
    r ← sm_get (fun r => r);
    _ ← sm_throw_if (zlen (r_content r) <? r_pos r + len)
          (out_of_range "Attempt to copy outside of packet");
    _ ← check_record len "Attempt to copy outside of record";
    _ ← sm_modify (set_pos (r_pos r + len));
    mret (zsub (r_content r) (r_pos r) len).

(** Every exception of the parsing of the name becomes a [std::out_of_range].
    The budget of pointers is the caller's: what is left of it is stored. *)
Definition getName (lim : name_limits) : SM PacketReader DNSName :=
  r ← sm_get (fun r => r);
  let minOffset := if r_standalone r then 0 else sizeof_dnsheader in
  let uncompress := negb (r_standalone r) in
  match DNSName_from_wire lim (r_content r) (r_pos r) uncompress false false minOffset
          (Some (r_pointerBudget r)) with
  | Throw _ => sm_throw (out_of_range "dnsname issue")
  | Ok p =>
      _ ← sm_modify (fun r => setPointerBudget (default 0 (p_budget p)) (set_pos (r_pos r + p_consumed p) r));
      r' ← sm_get (fun r => r);
      _ ← sm_throw_if (negb (isWithinRecordBoundaries r' (r_pos r) (r_pos r') true))
            (out_of_range "dnsname issue");
      mret (mkDNSName (p_storage p))
  end.

Definition eof : SM PacketReader bool :=
  r ← sm_get (fun r => r);
  _ ← sm_throw_if (record_end r <? r_pos r)
        (out_of_range "Looking for EOF in PacketReader but we are already beyond the record content's end");
  mret (r_pos r =? record_end r).

Definition consumeRemaining : SM PacketReader unit :=
  r ← sm_get (fun r => r); sm_modify (set_pos (record_end r)).

Definition skip (n : Z) : SM PacketReader unit :=
  r ← sm_get (fun r => r);
  _ ← check_record n "Attempt to skip bytes farther than the record's end";
  _ ← sm_throw_if (zlen (r_content r) <? r_pos r + n)
        (out_of_range "Attempt to skip bytes farther than the packet's end");
  sm_modify (set_pos (r_pos r + n)).

(** [string(&d_content.at(a), &d_content.at(b) + 1)]. *)
Definition content_range (r : PacketReader) (a b : Z) : result bytes :=
  _ ← of_option (out_of_range "string_view::at") (zat (r_content r) a);
  _ ← of_option (out_of_range "string_view::at") (zat (r_content r) b);
  Ok (zsub (r_content r) a (b - a + 1)).

(** ** Text fields *)

Definition txt_digit3 (p : Z) : bytes := [48 + p / 100; 48 + (p / 10) mod 10; 48 + p mod 10].

Definition txtEscape_byte (c : Z) : bytes :=
  if (127 <=? c) || (c <? 32) then 92 :: txt_digit3 c
  else if (c =? 34) || (c =? 92) then [92; c]
  else [c].

Definition txtEscape (name : bytes) : bytes := concat (map txtEscape_byte name).

(** Every round consumes at least the length byte, but for a last, empty one. *)
Fixpoint getText_loop (fuel : nat) (multi lenField : bool) (ret : bytes) : SM PacketReader bytes :=
  match fuel with
  | O => sm_throw out_of_fuel
  | S fuel' =>
      r ← sm_get (fun r => r);
      if r_pos r <? record_end r then
        let ret := if negb (bool_decide (ret = [])) then ret ++ [32] else ret in
        labellen ← (if lenField then next_byte
                    else mret (u16 (r_recordlen r - (r_pos r - r_startrecordpos r))));
        r ← sm_get (fun r => r);
        _ ← sm_throw_if (u16 (record_end r - r_pos r) <? labellen)
              (out_of_range "label length in text record exceeds record boundary");
        val ← (if negb (labellen =? 0)
               then sm_lift (content_range r (r_pos r) (r_pos r + labellen - 1))
               else mret []);
        let ret := ret ++ [34] ++ txtEscape val ++ [34] in
        _ ← sm_modify (set_pos (r_pos r + labellen));
        if negb multi then mret ret else getText_loop fuel' multi lenField ret
      else mret ret
  end.

Definition getText (multi lenField : bool) : SM PacketReader bytes :=
  r ← sm_get (fun r => r);
  ret ← getText_loop (S (length (r_content r))) multi lenField [];
  if bool_decide (ret = []) && negb lenField then mret [34; 34] else mret ret.

Definition getUnquotedText (lenField : bool) : SM PacketReader bytes :=
  r ← sm_get (fun r => r);
  stop_at ← (if lenField then
               b ← sm_lift (of_option (out_of_range "string_view::at") (zat (r_content r) (r_pos r)));
               mret (u16 (b + r_pos r + 1))
             else mret (r_recordlen r));
  _ ← sm_throw_if (stop_at <? r_pos r) (out_of_range "getUnquotedText out of record range");
  _ ← sm_throw_if (u16 (record_end r) <? stop_at)
        (out_of_range "getUnquotedText: length exceeds record boundary");
  if stop_at =? r_pos r then mret []
  else
    let p := u16 (r_pos r + 1) in
    _ ← sm_modify (set_pos p);
    _ ← sm_throw_if (zlen (r_content r) <? p) (out_of_range "string_view::substr");
    _ ← sm_modify (set_pos stop_at);
    mret (zsub (r_content r) p (stop_at - p)).

(** The rest of the record. *)
Definition xfrBlob_rest : SM PacketReader bytes :=
  r ← sm_get (fun r => r);
  blob ← (if negb (r_recordlen r =? 0) && negb (r_pos r =? record_end r) then
            _ ← sm_throw_if (record_end r <? r_pos r) (out_of_range "xfrBlob out of range");
            sm_lift (match content_range r (r_pos r) (record_end r - 1) with
                     | Ok b => Ok b
                     | Throw _ => Throw (out_of_range "xfrBlob out of range")
                     end)
          else mret []);
  _ ← sm_modify (set_pos (record_end r));
  mret blob.

Definition xfrBlob_len (length_ : Z) : SM PacketReader bytes :=
  if negb (length_ =? 0) then
    _ ← sm_throw_if (length_ <? 0) (out_of_range "xfrBlob out of range (negative length)");
    r ← sm_get (fun r => r);
    _ ← sm_throw_if (record_end r - r_pos r <? length_)
          (out_of_range "xfrBlob out of range (excessive length)");
    blob ← sm_lift (content_range r (r_pos r) (r_pos r + length_ - 1));
    _ ← sm_modify (set_pos (r_pos r + length_));
    mret blob
  else mret [].

(** [xfrHexBlob] ignores its argument. *)
Definition xfrHexBlob (keepReading : bool) : SM PacketReader bytes := xfrBlob_rest.

(** ** Records *)

Section parser.
(** The contents of the registered record types, and how they are read: the
    map filled by [DNSRecordContent::regist]. *)
Context {C : Type} (typemap : Z * Z -> option (SM PacketReader C)) (lim : name_limits).

Inductive DNSRecordContent : Type :=
| UnknownRecordContent (d_record : bytes)
| KnownRecordContent (c : C).

Record DNSRecord : Type := mkRecord {
  d_name : DNSName;
  d_type : Z;
  d_class : Z;
  d_ttl : Z;
  d_clen : Z;
  d_place : Place;
  d_content : DNSRecordContent;
}.

Definition make_unknown (clen : Z) : SM PacketReader DNSRecordContent :=
  b ← copyRecord clen; mret (UnknownRecordContent b).

(** [DNSRecordContent::make(dr, pr, oc)]. *)
Definition make_content (type class clen : Z) (place : Place) (oc : Z)
  : SM PacketReader DNSRecordContent :=
  if (oc =? 5) && bool_decide (place = ANSWER) && negb (class =? 1) then make_unknown clen
  else
    let searchclass := if type =? QType.OPT then 1 else class in
    match typemap (searchclass, type) with
    | None => make_unknown clen
    | Some maker => c ← maker; mret (KnownRecordContent c)
    end.

(** ** MOADNSParser *)

Record MOADNSParser : Type := mkParser {
  mp_qname : DNSName;
  mp_qclass : Z;
  mp_qtype : Z;
  mp_header : dnsheader;
  mp_answers : list DNSRecord;
  mp_tsigPos : Z;
  mp_seenTSIG : bool;
}.

Definition place_of (dh : dnsheader) (n : Z) : Place :=
  if n <? dh_ancount dh then ANSWER
  else if n <? dh_ancount dh + dh_nscount dh then AUTHORITY
  else ADDITIONAL.

(** The record of a query whose content is not looked at. *)
Definition discard_content (query : bool) (qtype : Z) (place : Place) (type class : Z) : bool :=
  query
  && negb ((qtype =? QType.IXFR) && bool_decide (place = AUTHORITY) && (type =? QType.SOA))
  && (bool_decide (place = ANSWER) || bool_decide (place = AUTHORITY)
      || (negb (type =? QType.OPT) && negb (type =? QType.TSIG) && negb (type =? QType.SIG)
          && negb (type =? QType.TKEY))
      || (((type =? QType.TSIG) || (type =? QType.SIG) || (type =? QType.TKEY))
          && negb (class =? QClass.ANY))).

(** The message of the first exception thrown here is built with
    [d_qname.toString()], which is a [std::out_of_range] itself when there was no
    question. *)
Definition parse_record (query : bool) (n : Z) : SM (PacketReader * MOADNSParser) (option unit) :=
  p ← sm_get snd;
  let place := place_of (mp_header p) n in
  recordStartPos ← on_fst (sm_get r_pos);
  name ← on_fst (getName lim);
  ah ← on_fst getDnsrecordheader;
  recordContentStartPos ← on_fst (sm_get r_pos);
  content ← on_fst (if discard_content query (mp_qtype p) place (ah_type ah) (ah_class ah)
                    then make_unknown (ah_clen ah)
                    else make_content (ah_type ah) (ah_class ah) (ah_clen ah) place
                           (dh_opcode (mp_header p)));
  _ ← sm_throw_if (bool_decide (place = ADDITIONAL) && mp_seenTSIG p)
        (if name_empty (mp_qname p) then out_of_range "Attempt to print an unset DNSName"
         else MOADNSException "has an unexpected record after a TSIG one");
  _ ← (if (ah_type ah =? QType.TSIG) && (ah_class ah =? QClass.ANY) then
         _ ← sm_throw_if (mp_seenTSIG p || negb (bool_decide (place = ADDITIONAL)))
               (MOADNSException "has a TSIG record in an invalid position");
         on_snd (fun p => mkParser (mp_qname p) (mp_qclass p) (mp_qtype p) (mp_header p)
                            (mp_answers p) recordStartPos true)
       else mret tt);
  pos ← on_fst (sm_get r_pos);
  _ ← sm_throw_if (negb (pos =? recordContentStartPos + ah_clen ah))
        (MOADNSException "has a record content that does not end on the record boundary");
  _ ← on_snd (fun p => mkParser (mp_qname p) (mp_qclass p) (mp_qtype p) (mp_header p)
         (mp_answers p ++ [mkRecord name (ah_type ah) (ah_class ah) (ah_ttl ah) (ah_clen ah) place content])
         (mp_tsigPos p) (mp_seenTSIG p));
  mret None.

Definition parse_question (_ : Z) : SM (PacketReader * MOADNSParser) (option unit) :=
  qname ← on_fst (getName lim);
  qtype ← on_fst r_get16BitInt;
  qclass ← on_fst r_get16BitInt;
  _ ← on_snd (fun p => mkParser qname qclass qtype (mp_header p) (mp_answers p) (mp_tsigPos p)
                         (mp_seenTSIG p));
  mret None.

Definition with_counts (an ns ar : Z) (dh : dnsheader) : dnsheader :=
  mkHeader (dh_id dh) (dh_qr dh) (dh_opcode dh) (dh_aa dh) (dh_tc dh) (dh_rd dh) (dh_ra dh)
    (dh_unused dh) (dh_ad dh) (dh_cd dh) (dh_rcode dh) (dh_qdcount dh) (u16 an) (u16 ns) (u16 ar).

(** The counts after the parsing of a truncated packet was cut at record [n]. *)
Definition adjust_counts (n : Z) (dh : dnsheader) : dnsheader :=
  if n <? dh_ancount dh then with_counts n 0 0 dh
  else if n <? dh_ancount dh + dh_nscount dh then with_counts (dh_ancount dh) (n - dh_ancount dh) 0 dh
  else with_counts (dh_ancount dh) (dh_nscount dh) (n - dh_ancount dh - dh_nscount dh) dh.

(** [MOADNSParser::init].  The record the parsing stopped at is the number of
    records parsed: [d_answers] gets one per finished round. *)
Definition MOADNSParser_init (query : bool) (packet : bytes) (pointerBudget : Z) : result MOADNSParser :=
  _ ← throw_if (zlen packet <? sizeof_dnsheader)
        (MOADNSException "Packet shorter than minimal header");
  let dh := header_of packet in
  _ ← throw_if (negb (dh_opcode dh =? 0) && negb (dh_opcode dh =? 4) && negb (dh_opcode dh =? 5))
        (MOADNSException "Can't parse non-query packet");
  _ ← throw_if (query && (1 <? dh_qdcount dh)) (MOADNSException "Query with QD > 1");
  pr ← PacketReader_make packet sizeof_dnsheader false false;
  let pr := if pointerBudget =? 0 then pr else setPointerBudget pointerBudget pr in
  let p0 := mkParser (mkDNSName []) 0 0 dh [] 0 false in
  match loopM (Z.to_nat (dh_qdcount dh)) parse_question 0 (pr, p0) with
  | (_, Throw (out_of_range _)) => Throw (MOADNSException "Error parsing packet, out of bounds")
  | (_, Throw e) => Throw e
  | (st, Ok _) =>
      match loopM (Z.to_nat (dh_ancount dh + dh_nscount dh + dh_arcount dh)) (parse_record query) 0 st with
      | ((_, p), Ok _) => Ok p
      | ((_, p), Throw (out_of_range _)) =>
          if dh_tc dh then
            Ok (mkParser (mp_qname p) (mp_qclass p) (mp_qtype p)
                  (adjust_counts (zlen (mp_answers p)) dh) (mp_answers p) (mp_tsigPos p) (mp_seenTSIG p))
          else Throw (MOADNSException "Error parsing packet, out of bounds")
      | (_, Throw e) => Throw e
      end
  end.

Definition hasEDNS (p : MOADNSParser) : bool :=
  if (dh_arcount (mp_header p) =? 0) || bool_decide (zlen (mp_answers p) = 0) then false
  else existsb (fun r => bool_decide (d_place r = ADDITIONAL) && (d_type r =? QType.OPT)
                         && isRoot (d_name r)) (mp_answers p).
End parser.

Arguments DNSRecordContent : clear implicits.
Arguments DNSRecord : clear implicits.
Arguments MOADNSParser : clear implicits.

(** ** Visiting the records of a packet *)

(** [visitor section class type ttl contentLength rdata] says whether to stop.
    The last argument of the source is a pointer into the packet; computing it
    is a checked access, which a record without content at the very end of the
    packet does not pass. *)
Definition visit_record (lim : name_limits) (packet : bytes) (dh : dnsheader)
    (visitor : Z -> Z -> Z -> Z -> Z -> bytes -> bool) (n : Z) : SM PacketReader (option bool) :=
  _ ← getName lim;
  let section := if n <? dh_ancount dh then 1
                 else if n <? dh_ancount dh + dh_nscount dh then 2 else 3 in
  dnstype ← r_get16BitInt;
  dnsclass ← r_get16BitInt;
  if dnstype =? QType.OPT then mret (Some true)
  else
    dnsttl ← r_get32BitInt;
    contentLength ← r_get16BitInt;
    pos ← sm_get r_pos;
    _ ← skip contentLength;
    _ ← sm_lift (of_option (out_of_range "string_view::at") (zat packet pos));
    if visitor section dnsclass dnstype dnsttl contentLength (zsub packet pos contentLength)
    then mret (Some true) else mret None.

Definition visitDNSPacket (lim : name_limits) (packet : bytes)
    (visitor : Z -> Z -> Z -> Z -> Z -> bytes -> bool) : bool :=
  if zlen packet <? sizeof_dnsheader then false
  else
    let dh := header_of packet in
    match PacketReader_make packet sizeof_dnsheader false false with
    | Throw _ => false
    | Ok reader =>
        match snd ((
          _ ← loopM (Z.to_nat (dh_qdcount dh)) (fun _ =>
                _ ← getName lim; _ ← skip 4; mret (None (A := bool))) 0;
          loopM (Z.to_nat (dh_ancount dh + dh_nscount dh + dh_arcount dh))
            (visit_record lim packet dh visitor) 0) reader) with
        | Ok (Some b) => b
        | Ok None => true
        | Throw _ => false
        end
    end.
