(* ===== verification/ReaderFacts.v ===== *)
(** * Reading what lies ahead

    What the operations of [PacketReader] do at a position whose following
    bytes are known. *)

From S2P Require Import Prelude Chars Dns Names NamesFacts NamesWire Reader.

#[local] Open Scope Z_scope.

(** The rest of a record is read as it is. *)
Lemma xfrBlob_rest_ahead r pre blob post :
  r_content r = pre ++ blob ++ post -> r_pos r = zlen pre -> record_end r = zlen pre + zlen blob ->
  r_startrecordpos r <= r_pos r ->
  xfrBlob_rest r = (set_pos (record_end r) r, Ok blob).
Proof.
  intros Hc Hp He Hs. unfold xfrBlob_rest. rewrite sm_bind_run. cbn [sm_get]. rewrite sm_bind_run.
  destruct blob as [|x blob].
  - change (zlen []) with 0 in He. assert (r_pos r =? record_end r = true) as E by (apply Z.eqb_eq; lia).
    by rewrite E, andb_false_r.
  - rewrite zlen_cons in He. pose proof (zlen_nonneg blob).
    rewrite (proj2 (Z.eqb_neq (r_recordlen r) 0)) by (unfold record_end in He; lia).
    rewrite (proj2 (Z.eqb_neq (r_pos r) _)) by lia. cbn [negb andb].
    rewrite (proj2 (Z.ltb_ge _ _)) by lia. cbn [sm_throw_if]. rewrite sm_bind_run. cbn [mret SM_ret].
    unfold content_range. rewrite Hc.
    assert (forall i, 0 <= i < zlen (x :: blob) -> is_Some (zat (pre ++ (x :: blob) ++ post) (zlen pre + i))) as Hin.
    { intros i Hi. apply zat_range. rewrite !zlen_app. pose proof (zlen_nonneg pre).
      pose proof (zlen_nonneg post). lia. }
    rewrite Hp, He. rewrite zlen_cons in Hin.
    destruct (Hin 0 ltac:(lia)) as [v Hv]. rewrite Z.add_0_r in Hv. rewrite Hv.
    destruct (Hin (zlen blob) ltac:(lia)) as [v' Hv'].
    replace (zlen pre + (1 + zlen blob) - 1) with (zlen pre + zlen blob) by lia. rewrite Hv'.
    cbn [of_option mbind result_bind sm_lift]. rewrite sm_bind_run. cbn.
    unfold zsub. rewrite zdrop_app by done.
    replace (zlen pre + zlen blob - zlen pre + 1) with (zlen (x :: blob)) by (rewrite zlen_cons; lia).
    change (x :: blob ++ post) with ((x :: blob) ++ post). rewrite ztake_app by done.
    by replace (zlen pre + (1 + zlen blob)) with (record_end r) by lia.
Qed.

(** A reader between what it has read and what lies ahead of it. *)
Definition rd (before ahead : bytes) (st len bu : Z) : PacketReader :=
  mkReader (before ++ ahead) (zlen before) st len false false bu.

Lemma set_pos_rd before x ahead st len bu :
  zlen (before ++ x) < 65536 ->
  set_pos (zlen before + zlen x) (rd before (x ++ ahead) st len bu) = rd (before ++ x) ahead st len bu.
Proof.
  intros Hlen. unfold set_pos, rd. simpl. rewrite app_assoc. f_equal.
  rewrite <- zlen_app. unfold u16. apply Z.mod_small. pose proof (zlen_nonneg (before ++ x)). lia.
Qed.

Lemma next_byte_rd before b ahead st len bu :
  zlen (before ++ [b]) < 65536 ->
  next_byte (rd before (b :: ahead) st len bu) = (rd (before ++ [b]) ahead st len bu, Ok b).
Proof.
  intros Hlen. unfold next_byte. rewrite sm_bind_run. cbn [sm_get]. rewrite sm_bind_run.
  unfold sm_modify, sm_lift. rewrite <- (set_pos_rd before [b]) by done. simpl.
  rewrite zat_app_r, Z.sub_diag by lia. done.
Qed.

Lemma next_16_rd before v ahead st len bu :
  0 <= v < 65536 -> zlen before + 2 < 65536 ->
  next_16 (rd before (be16 v ++ ahead) st len bu) = (rd (before ++ be16 v) ahead st len bu, Ok v).
Proof.
  intros Hv Hlen. unfold next_16. rewrite sm_bind_run.
  change (be16 v ++ ahead) with (v / 256 mod 256 :: v mod 256 :: ahead).
  rewrite next_byte_rd by (rewrite zlen_app; change (zlen [_]) with 1; lia). rewrite sm_bind_run.
  rewrite next_byte_rd by (rewrite !zlen_app; change (zlen [_]) with 1; lia).
  rewrite <- app_assoc. unfold mret, SM_ret. change (be16 v) with [v / 256 mod 256; v mod 256].
  cbn [app]. do 2 f_equal. Z.to_euclidean_division_equations; lia.
Qed.

Lemma check_record_rd n msg before ahead st len bu :
  0 <= n -> st <= zlen before -> zlen before + n <= st + len ->
  check_record n msg (rd before ahead st len bu) = (rd before ahead st len bu, Ok tt).
Proof.
  intros Hn Hst Hlen. unfold check_record. rewrite sm_bind_run. cbn [sm_get].
  unfold isWithinRecordBoundaries, record_end, rd. simpl.
  rewrite (proj2 (Z.ltb_ge _ _)), (proj2 (Z.leb_le st _)), !(proj2 (Z.leb_le _ (st + len))) by lia. done.
Qed.

Lemma r_get16BitInt_rd before v ahead st len bu :
  0 <= v < 65536 -> zlen before + 2 < 65536 -> st <= zlen before -> zlen before + 2 <= st + len ->
  r_get16BitInt (rd before (be16 v ++ ahead) st len bu) = (rd (before ++ be16 v) ahead st len bu, Ok v).
Proof.
  intros Hv Hlen Hst He. unfold r_get16BitInt. rewrite sm_bind_run, check_record_rd by lia.
  by apply next_16_rd.
Qed.

Lemma skip_rd before x ahead st len bu :
  zlen (before ++ x) < 65536 -> st <= zlen before -> zlen before + zlen x <= st + len ->
  skip (zlen x) (rd before (x ++ ahead) st len bu) = (rd (before ++ x) ahead st len bu, Ok tt).
Proof.
  intros Hlen Hst He. pose proof (zlen_nonneg x). unfold skip. rewrite sm_bind_run. cbn [sm_get].
  rewrite sm_bind_run, check_record_rd by lia. rewrite sm_bind_run. cbn [rd r_content r_pos].
  rewrite !zlen_app, (proj2 (Z.ltb_ge _ _)) by (pose proof (zlen_nonneg ahead); lia).
  cbn [sm_throw_if mret SM_ret]. unfold sm_modify. by rewrite set_pos_rd.
Qed.

(** The fixed part of a record. *)
Lemma getDnsrecordheader_rd before ty cl ttl clen ahead st len bu :
  0 <= ty < 65536 -> 0 <= cl < 65536 -> 0 <= ttl < 2 ^ 32 -> 0 <= clen < 65536 -> clen <= zlen ahead ->
  zlen before + 10 < 65536 ->
  let hdr := be16 ty ++ be16 cl ++ be32 ttl ++ be16 clen in
  getDnsrecordheader (rd before (hdr ++ ahead) st len bu)
  = (rd (before ++ hdr) ahead (zlen (before ++ hdr)) clen bu, Ok (mkRecordHeader ty cl ttl clen)).
Proof.
  intros Hty Hcl Httl Hclen Hah Hlen. cbv zeta. unfold getDnsrecordheader, be32.
  assert (0 <= ttl / 65536 < 65536) by (Z.to_euclidean_division_equations; lia).
  assert (0 <= ttl mod 65536 < 65536) by (apply Z.mod_pos_bound; lia).
  rewrite <- !app_assoc.
  do 5 (rewrite sm_bind_run, next_16_rd by (rewrite ?zlen_app; rewrite ?zlen_be16; lia)).
  rewrite sm_bind_run. cbn [sm_get]. rewrite sm_bind_run. unfold sm_modify. rewrite sm_bind_run.
  cbn [rd r_content r_pos]. set (bf := (before ++ be16 ty) ++ _).
  set (bf' := (((bf ++ _) ++ _) ++ be16 clen)). pose proof (zlen_nonneg ahead).
  rewrite (zlen_app bf' ahead), (proj2 (Z.ltb_ge (zlen bf' + zlen ahead) (zlen bf'))) by lia.
  rewrite (proj2 (Z.ltb_ge (zlen bf' + zlen ahead - zlen bf') clen)) by lia.
  cbn [orb sm_throw_if mret SM_ret]. subst bf bf'. unfold set_record, rd. simpl.
  rewrite <- !app_assoc.
  replace (ttl / 65536 * 65536 + ttl mod 65536) with ttl by (Z.to_euclidean_division_equations; lia).
  done.
Qed.

(** The content of the record just begun, as raw bytes. *)
Lemma copyRecord_rd before x ahead bu :
  zlen (before ++ x) < 65536 ->
  copyRecord (zlen x) (rd before (x ++ ahead) (zlen before) (zlen x) bu)
  = (rd (before ++ x) ahead (zlen before) (zlen x) bu, Ok x).
Proof.
  intros Hlen. unfold copyRecord. pose proof (zlen_nonneg x).
  destruct (Z.eqb_spec (zlen x) 0) as [E|E].
  - apply zlen_zero_inv in E as ->. by rewrite app_nil_r.
  - rewrite sm_bind_run. cbn [sm_get]. rewrite sm_bind_run. cbn [rd r_content r_pos].
    rewrite !zlen_app, (proj2 (Z.ltb_ge _ _)) by (pose proof (zlen_nonneg ahead); lia).
    cbn [sm_throw_if mret SM_ret]. rewrite sm_bind_run, check_record_rd by lia. rewrite sm_bind_run.
    unfold sm_modify. rewrite set_pos_rd by done. cbn. unfold zsub.
    by rewrite zdrop_app, ztake_app.
Qed.

(** Where a name may lie: outside of the record the reader knows of, or wholly
    within it. *)
Definition name_fits (st len pos e : Z) : Prop := len = 0 \/ st + len <= pos \/ (st <= pos /\ e <= st + len).

(** Where a record begins: nothing is known of its length, or the record before
    has ended, or the whole packet counts as one. *)
Definition between_records (st len pos size : Z) : Prop :=
  len = 0 \/ st + len <= pos \/ (st <= pos /\ size <= st + len).

Lemma between_records_fits st len pos size e : between_records st len pos size -> e <= size -> name_fits st len pos e.
Proof. unfold between_records, name_fits. lia. Qed.

Lemma getName_rd lim before x ahead ls k run cost st len bu :
  chained_name (s_maxPointersToPointers lim) 12 (before ++ x ++ ahead) (zlen before) ls k run cost
    (zlen before + zlen x) ->
  Z.of_nat run <= s_maxPointersToPointers lim + 1 -> Z.of_nat k <= s_maxPointersPerName lim ->
  zlen (storage_of ls) <= 255 -> Z.of_nat cost <= bu -> zlen (before ++ x) < 65536 ->
  name_fits st len (zlen before) (zlen (before ++ x)) ->
  getName lim (rd before (x ++ ahead) st len bu)
  = (rd (before ++ x) ahead st len (bu - Z.of_nat cost), Ok (mkDNSName (storage_of ls))).
Proof.
  intros Hw Hpp Hk Hls Hbu Hlen Hbet. pose proof (zlen_nonneg x). pose proof (zlen_nonneg ahead).
  pose proof (from_wire_chained lim _ _ 12 ls k run cost _ true (Some bu) Hw ltac:(lia) (or_introl Hpp) Hk Hls
                (or_introl eq_refl) Hbu) as Hfw.
  cbn [pay option_map] in Hfw. set (bu' := bu - Z.of_nat cost) in *.
  unfold getName. rewrite sm_bind_run. cbn [sm_get rd r_standalone r_content r_pos r_pointerBudget negb].
  change sizeof_dnsheader with 12. rewrite Hfw. rewrite sm_bind_run. unfold sm_modify.
  cbn [p_consumed p_budget default p_storage].
  change (r_pos (rd before (x ++ ahead) st len bu)) with (zlen before).
  replace (zlen before + (zlen before + zlen x - zlen before)) with (zlen before + zlen x) by lia.
  rewrite set_pos_rd by done. rewrite sm_bind_run. cbn [sm_get]. rewrite sm_bind_run.
  assert (isWithinRecordBoundaries (setPointerBudget bu' (rd (before ++ x) ahead st len bu)) (zlen before)
            (zlen (before ++ x)) true = true) as Hin.
  { unfold isWithinRecordBoundaries, record_end. cbn. rewrite !zlen_app in *.
    rewrite (proj2 (Z.ltb_ge _ _)) by lia.
    destruct (Z.eqb_spec len 0); [done|]. destruct (Z.leb_spec (st + len) (zlen before)); [done|].
    destruct Hbet as [?|[?|[? ?]]]; [lia..|].
    by rewrite !(proj2 (Z.leb_le _ _)) by lia. }
  change (id bu') with bu'.
  change (r_pos (setPointerBudget bu' (rd (before ++ x) ahead st len bu))) with (zlen (before ++ x)).
  rewrite Hin. done.
Qed.
