(* ===== verification/ParserSpec.v ===== *)
(** * What [MOADNSParser] promises

    For any bytes at all: the records found agree with the counts of the header
    kept, also when a truncated packet was cut short.  For a well-formed
    message: exactly its records are found. *)

From S2P Require Import Prelude Chars Dns Names NamesFacts NamesWire Mangler PacketWalk PacketSafety Reader ReaderFacts.

#[local] Open Scope Z_scope.

Section parser.
Context {C : Type} (typemap : Z * Z -> option (SM PacketReader C)) (lim : name_limits).
Implicit Types (p : MOADNSParser C) (pr : PacketReader).

Definition is_tsig (r : DNSRecord C) : bool := (d_type r =? QType.TSIG) && (d_class r =? QClass.ANY).

(** ** Any bytes *)

(** What a record that is parsed adds; a record that runs out of the packet
    leaves what was found before it alone. *)
Definition record_added (n : Z) (p p' : MOADNSParser C) : Prop :=
  exists r, mp_answers p' = mp_answers p ++ [r]
    /\ mp_header p' = mp_header p
    /\ d_place r = place_of (mp_header p) n
    /\ mp_seenTSIG p' = mp_seenTSIG p || is_tsig r
    /\ (is_tsig r = true -> mp_seenTSIG p = false /\ d_place r = ADDITIONAL)
    /\ (mp_seenTSIG p = true -> d_place r <> ADDITIONAL).

Ltac next_step :=
  rewrite sm_bind_run;
  lazymatch goal with
  | |- context [on_fst (sm_get ?f) (?pr, ?p)] =>
      change (on_fst (sm_get f) (pr, p)) with ((pr, p), Ok (f pr)); cbn beta iota
  | |- context [on_fst ?m (?pr, ?p)] =>
      let pr' := fresh "pr" in let e := fresh "e" in
      unfold on_fst at 1; destruct (m pr) as [pr' [?|e]]; cbn beta iota; [|by destruct e]
  | |- context [sm_throw_if ?b _] =>
      destruct b eqn:?; cbn [sm_throw_if sm_throw mret SM_ret]; [by repeat case_match|]
  end.

Lemma parse_record_cases query n pr p :
  match parse_record typemap lim query n (pr, p) with
  | ((_, p'), Ok None) => record_added n p p'
  | (_, Ok (Some _)) => False
  | ((_, p'), Throw (out_of_range _)) => p' = p
  | (_, Throw _) => True
  end.
Proof.
  unfold parse_record. rewrite sm_bind_run. cbn [sm_get snd].
  do 6 next_step.
  rewrite sm_bind_run.
  destruct ((ah_type _ =? QType.TSIG) && (ah_class _ =? QClass.ANY)) eqn:Etsig.
  - next_step. unfold on_snd at 1. cbn beta iota.
    next_step. next_step. rewrite sm_bind_run. unfold on_snd. cbn beta iota. unfold mret, SM_ret.
    eexists. cbn. split_and!; [done|done|done| | |].
    + unfold is_tsig. cbn. rewrite Etsig. by rewrite orb_true_r.
    + intros _. apply orb_false_iff in Heqb0 as [Hs Hp]. split; [done|].
      by apply negb_false_iff, bool_decide_eq_true in Hp.
    + intros Hs. rewrite Hs in Heqb0. done.
  - unfold mret at 1, SM_ret at 1. cbn beta iota. next_step. next_step.
    rewrite sm_bind_run. unfold on_snd. cbn beta iota. unfold mret, SM_ret.
    eexists. cbn. split_and!; [done|done|done| | |].
    + unfold is_tsig. cbn. rewrite Etsig. by rewrite orb_false_r.
    + unfold is_tsig. cbn. by rewrite Etsig.
    + intros Hs Hp. cbn in Hp. rewrite Hs, Hp in Heqb. done.
Qed.

(** The section the counts of a header put the record with an index in. *)
Definition section_at (h : dnsheader) (i : nat) : Place :=
  if decide (Z.of_nat i < dh_ancount h) then ANSWER
  else if decide (Z.of_nat i < dh_ancount h + dh_nscount h) then AUTHORITY
  else ADDITIONAL.

Lemma place_of_section h i : place_of h (Z.of_nat i) = section_at h i.
Proof.
  unfold place_of, section_at.
  destruct (Z.ltb_spec (Z.of_nat i) (dh_ancount h)); [by rewrite decide_True|rewrite decide_False by lia].
  destruct (Z.ltb_spec (Z.of_nat i) (dh_ancount h + dh_nscount h)); [by rewrite decide_True|].
  by rewrite decide_False by lia.
Qed.

(** The records found so far agree with the counts, and a signature is last. *)
Record parser_inv (dh : dnsheader) (n : Z) (p : MOADNSParser C) : Prop := mkParserInv {
  pi_header : mp_header p = dh;
  pi_count : zlen (mp_answers p) = n;
  pi_places : forall i r, mp_answers p !! i = Some r -> d_place r = place_of dh (Z.of_nat i);
  pi_tsig : forall i r, mp_answers p !! i = Some r -> is_tsig r = true ->
              S i = length (mp_answers p) /\ d_place r = ADDITIONAL;
  pi_seen : mp_seenTSIG p = existsb is_tsig (mp_answers p);
}.

Lemma place_of_additional dh i j :
  i <= j -> place_of dh i = ADDITIONAL -> place_of dh j = ADDITIONAL.
Proof.
  unfold place_of. intros Hij.
  destruct (Z.ltb_spec i (dh_ancount dh)), (Z.ltb_spec i (dh_ancount dh + dh_nscount dh)),
    (Z.ltb_spec j (dh_ancount dh)), (Z.ltb_spec j (dh_ancount dh + dh_nscount dh)); try done; lia.
Qed.

Lemma record_added_inv dh n p p' :
  parser_inv dh n p -> record_added n p p' -> parser_inv dh (n + 1) p'.
Proof.
  intros [Hh Hc Hpl Hts Hseen] (r & Hans & Hh' & Hp & Hs & Hr & Hno).
  assert (n = Z.of_nat (length (mp_answers p))) as Hn by (unfold zlen in Hc; lia).
  assert (mp_seenTSIG p = false) as Hfalse.
  { destruct (mp_seenTSIG p) eqn:E; [|done]. exfalso. apply Hno; [done|]. rewrite Hp, Hh.
    symmetry in Hseen. apply existsb_exists in Hseen as (t & Hin%list_elem_of_In & Ht).
    apply list_elem_of_lookup in Hin as [i Hi]. destruct (Hts i t Hi Ht) as [Hlast Hadd].
    apply (place_of_additional dh (Z.of_nat i)); [lia|]. rewrite <- (Hpl i t Hi). done. }
  assert (Forall (fun t => is_tsig t = false) (mp_answers p)) as Hnone.
  { apply Forall_forall. intros t Hin. rewrite Hfalse in Hseen. symmetry in Hseen.
    destruct (is_tsig t) eqn:E; [|done]. exfalso.
    apply not_true_iff_false in Hseen. apply Hseen, existsb_exists. exists t. by rewrite <- list_elem_of_In. }
  constructor.
  - congruence.
  - rewrite Hans, zlen_app. change (zlen [r]) with 1. lia.
  - intros i t Hi. rewrite Hans in Hi. apply lookup_app_Some in Hi as [Hi|[Hge Hi]]; [by eapply Hpl|].
    apply list_lookup_singleton_Some in Hi as [Hi ->]. rewrite Hp, Hh. f_equal. lia.
  - intros i t Hi Ht. rewrite Hans in *. apply lookup_app_Some in Hi as [Hi|[Hge Hi]].
    + apply list_elem_of_lookup_2 in Hi. rewrite Forall_forall in Hnone.
      by rewrite (Hnone t Hi) in Ht.
    + apply list_lookup_singleton_Some in Hi as [Hi ->]. rewrite length_app. simpl.
      split; [lia|]. by apply Hr.
  - rewrite Hs, Hans, existsb_app, Hseen. simpl. by rewrite orb_false_r.
Qed.

Lemma parse_records_inv query dh k n pr p :
  parser_inv dh n p ->
  match loopM k (parse_record typemap lim query) n (pr, p) with
  | ((_, p'), Ok _) => parser_inv dh (n + Z.of_nat k) p'
  | ((_, p'), Throw (out_of_range _)) => exists j, n <= j < n + Z.of_nat k /\ parser_inv dh j p'
  | (_, Throw _) => True
  end.
Proof.
  revert n pr p. induction k as [|k IH]; intros n pr p Hinv; cbn [loopM].
  - unfold mret, SM_ret. by rewrite Z.add_0_r.
  - rewrite sm_bind_run. pose proof (parse_record_cases query n pr p) as Hcase.
    destruct (parse_record typemap lim query n (pr, p)) as [[pr' p'] [[a|]|e]].
    + done.
    + specialize (IH (n + 1) pr' p' (record_added_inv _ _ _ _ Hinv Hcase)).
      destruct (loopM k _ (n + 1) (pr', p')) as [[pr2 p2] [|[]]]; [|done| |done..].
      * by replace (n + Z.of_nat (S k)) with (n + 1 + Z.of_nat k) by lia.
      * destruct IH as (j & Hj & Hinv'). exists j. split; [lia|done].
    + destruct e; [done| |done..]. subst p'. exists n. split; [lia|done].
Qed.

Lemma parse_questions_keep k n pr p dh :
  parser_inv dh 0 p ->
  match loopM k (parse_question lim) n (pr, p) with
  | ((_, p'), Ok _) => parser_inv dh 0 p'
  | _ => True
  end.
Proof.
  revert n pr p. induction k as [|k IH]; intros n pr p Hinv; cbn [loopM]; [done|].
  rewrite sm_bind_run. unfold parse_question at 1.
  do 3 (rewrite sm_bind_run; unfold on_fst at 1;
        match goal with |- context [let '(_, _) := ?m ?pr in _] =>
          destruct (m pr) as [? [?|?]]; cbn beta iota; [|done] end).
  rewrite sm_bind_run. unfold on_snd. cbn beta iota. unfold mret, SM_ret. cbn beta iota.
  apply IH. by destruct Hinv.
Qed.

Lemma adjust_counts_spec dh n :
  0 <= dh_ancount dh < 65536 -> 0 <= dh_nscount dh < 65536 -> 0 <= dh_arcount dh < 65536 ->
  0 <= n <= dh_ancount dh + dh_nscount dh + dh_arcount dh ->
  let h := adjust_counts n dh in
  n = dh_ancount h + dh_nscount h + dh_arcount h
  /\ forall i, i < n -> place_of h i = place_of dh i.
Proof.
  intros Han Hns Har Hn. cbv zeta. unfold adjust_counts, with_counts, place_of, u16.
  destruct (Z.ltb_spec n (dh_ancount dh)); [|destruct (Z.ltb_spec n (dh_ancount dh + dh_nscount dh))];
    cbn [dh_ancount dh_nscount dh_arcount]; rewrite !Z.mod_small by lia;
    (split; [lia|]); intros i Hi;
    destruct (Z.ltb_spec i n), (Z.ltb_spec i (dh_ancount dh)), (Z.ltb_spec i (dh_ancount dh + dh_nscount dh)),
      (Z.ltb_spec i (dh_ancount dh + (n - dh_ancount dh))); try done; lia.
Qed.

Lemma header_counts packet :
  bytes_ok packet -> let dh := header_of packet in
  0 <= dh_ancount dh < 65536 /\ 0 <= dh_nscount dh < 65536 /\ 0 <= dh_arcount dh < 65536.
Proof. intros H. cbv zeta. unfold header_of. cbn. split_and!; by apply get16_range. Qed.

(** C10: the parser of messages keeps its books, whatever bytes it is given.
    When it returns, the records found are exactly as many as the three counts
    of the header it keeps, each is in the section those counts put it in, and
    a transaction signature can only be the very last record, in the additional
    section.  A packet cut short with the truncation bit set is no exception:
    the counts are adjusted to what was found. *)
Theorem parser_consistent (query : bool) (packet : bytes) (pointerBudget : Z) (p : MOADNSParser C) :
  bytes_ok packet ->
  MOADNSParser_init typemap lim query packet pointerBudget = Ok p ->
  let h := mp_header p in
  zlen (mp_answers p) = dh_ancount h + dh_nscount h + dh_arcount h
  /\ (forall i r, mp_answers p !! i = Some r -> d_place r = section_at h i)
  /\ (forall i r, mp_answers p !! i = Some r -> is_tsig r = true ->
        S i = length (mp_answers p) /\ d_place r = ADDITIONAL)
  /\ (h = header_of packet \/ dh_tc (header_of packet) = true).
Proof.
  intros Hb. unfold MOADNSParser_init. intros H. do 4 bind_inv H. cbv zeta in H.
  destruct (header_counts packet Hb) as (Han & Hns & Har). set (dh := header_of packet) in *.
  set (pr := if pointerBudget =? 0 then _ else _) in H. set (p0 := mkParser _ _ _ _ _ _ _) in H.
  assert (parser_inv dh 0 p0) as Hinv0 by (by constructor).
  pose proof (parse_questions_keep (Z.to_nat (dh_qdcount dh)) 0 pr p0 dh Hinv0) as Hq.
  destruct (loopM _ (parse_question lim) 0 (pr, p0)) as [[pr1 p1] [?|e]]; [|by destruct e].
  pose proof (parse_records_inv query dh (Z.to_nat (dh_ancount dh + dh_nscount dh + dh_arcount dh)) 0
                pr1 p1 Hq) as Hr.
  destruct (loopM _ (parse_record _ _ _) 0 (pr1, p1)) as [[pr2 p2] [?|e]].
  - injection H as <-. destruct Hr as [Hh Hc Hpl Hts Hseen]. cbv zeta. rewrite Hh.
    split_and!; [lia| |done|by left]. intros i r Hi. rewrite <- place_of_section. by apply Hpl.
  - destruct e; [done| |done..]. destruct Hr as (j & Hj & [Hh Hc Hpl Hts Hseen]).
    destruct (dh_tc dh) eqn:Etc; [|done]. injection H as <-. cbv zeta. cbn [mp_header mp_answers].
    rewrite Hc. destruct (adjust_counts_spec dh j) as [Hsum Hplace]; [lia..|].
    split_and!; [done| |done|by right]. intros i r Hi. rewrite <- place_of_section, Hplace; [by apply Hpl|].
    apply lookup_lt_Some in Hi. unfold zlen in Hc. lia.
Qed.

(** ** Well-formed messages *)

(** The name at a position is a compressed name within the limits of the code,
    of the given labels. *)
Definition name_reads (view : bytes) (pos : Z) (x : bytes) (ls : list bytes) (cost : nat) : Prop :=
  zlen (storage_of ls) <= 255
  /\ exists k run, chained_name (s_maxPointersToPointers lim) 12 view pos ls k run cost (pos + zlen x)
                   /\ Z.of_nat k <= s_maxPointersPerName lim
                   /\ Z.of_nat run <= s_maxPointersToPointers lim + 1.

(** The types that are looked up for the content of a record. *)
Definition registered (r : rr) : option (SM PacketReader C) :=
  typemap (if rr_type r =? QType.OPT then 1 else rr_class r, rr_type r).

(** A content that is kept as it is: that of a query nobody looks at, that of a
    prerequisite of an update, that of a type nobody registered. *)
Definition kept_raw (query : bool) (qtype opcode : Z) (place : Place) (r : rr) : bool :=
  discard_content query qtype place (rr_type r) (rr_class r)
  || ((opcode =? 5) && bool_decide (place = ANSWER) && negb (rr_class r =? 1))
  || bool_decide (registered r = None).

(** The content of a record at a position: raw, or what the reader registered
    for the type makes of exactly the bytes of the record, some pointers of the
    budget spent on it. *)
Inductive content_reads (query : bool) (qtype opcode : Z) (view : bytes) (start : Z) (place : Place) (r : rr)
  : DNSRecordContent C -> nat -> Prop :=
| content_raw :
    kept_raw query qtype opcode place r = true ->
    content_reads query qtype opcode view start place r (UnknownRecordContent (rr_data r)) 0
| content_known maker c cost :
    kept_raw query qtype opcode place r = false -> registered r = Some maker ->
    (forall before after bu, before ++ rr_data r ++ after = view -> zlen before = start ->
       Z.of_nat cost <= bu ->
       maker (rd before (rr_data r ++ after) start (zlen (rr_data r)) bu)
       = (rd (before ++ rr_data r) after start (zlen (rr_data r)) (bu - Z.of_nat cost), Ok c)) ->
    content_reads query qtype opcode view start place r (KnownRecordContent c) cost.

Definition rr_is_tsig (r : rr) : bool := (rr_type r =? QType.TSIG) && (rr_class r =? QClass.ANY).

(** The record at a position, as the parser reports it. *)
Definition record_reads (query : bool) (qtype opcode : Z) (view : bytes) (pos : Z) (place : Place) (r : rr)
    (d : DNSRecord C) (cost : nat) : Prop :=
  exists ls content c1 c2,
    name_reads view pos (rr_owner r) ls c1
    /\ content_reads query qtype opcode view (pos + zlen (rr_owner r) + 10) place r content c2
    /\ cost = (c1 + c2)%nat
    /\ d = mkRecord (mkDNSName (storage_of ls)) (rr_type r) (rr_class r) (rr_ttl r) (zlen (rr_data r))
             place content.

(** The records from a position on; a signature is the last one of all, in the
    additional section, and its position is kept. *)
Inductive records_read (query : bool) (qtype opcode : Z) (view : bytes)
  : Z -> list (Place * rr) -> list (DNSRecord C) -> option Z -> nat -> Prop :=
| reads_nil pos : records_read query qtype opcode view pos [] [] None 0
| reads_tsig pos r d cost :
    rr_is_tsig r = true -> record_reads query qtype opcode view pos ADDITIONAL r d cost ->
    records_read query qtype opcode view pos [(ADDITIONAL, r)] [d] (Some pos) cost
| reads_cons pos place r d c rs ds tsig cost :
    rr_is_tsig r = false -> record_reads query qtype opcode view pos place r d c ->
    records_read query qtype opcode view (pos + zlen (enc_rr r)) rs ds tsig cost ->
    records_read query qtype opcode view pos ((place, r) :: rs) (d :: ds) tsig (c + cost).

(** The questions from a position on: names, classes and types. *)
Inductive questions_read (view : bytes) : Z -> list question -> list (DNSName * Z * Z) -> nat -> Prop :=
| asks_nil pos : questions_read view pos [] [] 0
| asks_cons pos q ls c qs asked cost :
    name_reads view pos (q_owner q) ls c ->
    questions_read view (pos + zlen (enc_question q)) qs asked cost ->
    questions_read view pos (q :: qs) ((mkDNSName (storage_of ls), q_class q, q_type q) :: asked) (c + cost).

(** The parser keeps the last question. *)
Definition kept_question (asked : list (DNSName * Z * Z)) : DNSName * Z * Z :=
  default (mkDNSName [], 0, 0) (last asked).

(** The records of a message with the sections they are in. *)
Definition placed (m : message) : list (Place * rr) :=
  map (pair ANSWER) (msg_answers m) ++ map (pair AUTHORITY) (msg_authority m)
  ++ map (pair ADDITIONAL) (msg_additional m).

Definition add_records (l : list (DNSRecord C)) (tsig : option Z) (p : MOADNSParser C) : MOADNSParser C :=
  mkParser (mp_qname p) (mp_qclass p) (mp_qtype p) (mp_header p) (mp_answers p ++ l)
    (default (mp_tsigPos p) tsig) (mp_seenTSIG p || bool_decide (is_Some tsig)).

Lemma make_unknown_rd before x ahead bu :
  zlen (before ++ x) < 65536 ->
  make_unknown (C := C) (zlen x) (rd before (x ++ ahead) (zlen before) (zlen x) bu)
  = (rd (before ++ x) ahead (zlen before) (zlen x) bu, Ok (UnknownRecordContent x)).
Proof. intros. unfold make_unknown. by rewrite sm_bind_run, copyRecord_rd. Qed.

(** The content of a record that was just begun. *)
Lemma content_rd query qtype opcode before r ahead place content cost bu :
  content_reads query qtype opcode (before ++ rr_data r ++ ahead) (zlen before) place r content cost ->
  Z.of_nat cost <= bu -> zlen (before ++ rr_data r) < 65536 ->
  (if discard_content query qtype place (rr_type r) (rr_class r) then make_unknown (zlen (rr_data r))
   else make_content typemap (rr_type r) (rr_class r) (zlen (rr_data r)) place opcode)
    (rd before (rr_data r ++ ahead) (zlen before) (zlen (rr_data r)) bu)
  = (rd (before ++ rr_data r) ahead (zlen before) (zlen (rr_data r)) (bu - Z.of_nat cost), Ok content).
Proof.
  intros Hc Hbu Hlen. destruct Hc as [Hraw|maker c cost Hraw Hreg Hmaker]; unfold kept_raw in Hraw.
  - rewrite Z.sub_0_r. rewrite <- make_unknown_rd by done. destruct (discard_content _ _ _ _ _); [done|].
    unfold make_content. destruct (_ && _ && _); [done|]. cbn [orb] in Hraw.
    apply bool_decide_eq_true in Hraw. unfold registered in Hraw. cbv zeta. by rewrite Hraw.
  - apply orb_false_iff in Hraw as [[Hd Hu]%orb_false_iff _]. rewrite Hd. unfold make_content. rewrite Hu.
    unfold registered in Hreg. cbv zeta. rewrite Hreg, sm_bind_run, Hmaker by done. done.
Qed.

Lemma parse_record_rd query n before r ahead st len bu p d cost :
  rr_ok r -> mp_seenTSIG p = false ->
  record_reads query (mp_qtype p) (dh_opcode (mp_header p)) (before ++ enc_rr r ++ ahead) (zlen before)
    (place_of (mp_header p) n) r d cost ->
  (rr_is_tsig r = true -> place_of (mp_header p) n = ADDITIONAL) ->
  Z.of_nat cost <= bu -> zlen (before ++ enc_rr r ++ ahead) < 65536 ->
  between_records st len (zlen before) (zlen (before ++ enc_rr r ++ ahead)) ->
  exists st' len',
    parse_record typemap lim query n (rd before (enc_rr r ++ ahead) st len bu, p)
    = ((rd (before ++ enc_rr r) ahead st' len' (bu - Z.of_nat cost),
        add_records [d] (if rr_is_tsig r then Some (zlen before) else None) p), Ok None)
    /\ st' + len' <= zlen (before ++ enc_rr r).
Proof.
  intros (_ & Hty & Hcl & Httl & Hdl) Hseen (ls & content & c1 & c2 & Hname & Hcont & -> & ->) Hts Hbu Hlen Hbet.
  destruct Hname as (Hls & k & run & Hw & Hk & Hrun). unfold is_u16 in *.
  pose proof (zlen_nonneg (rr_data r)). pose proof (zlen_nonneg (rr_owner r)).
  pose proof (zlen_nonneg before). pose proof (zlen_nonneg ahead).
  set (hdr := be16 (rr_type r) ++ be16 (rr_class r) ++ be32 (rr_ttl r) ++ be16 (zlen (rr_data r))).
  assert (enc_rr r = rr_owner r ++ hdr ++ rr_data r) as Henc by (unfold enc_rr, hdr; by rewrite <- !app_assoc).
  assert (zlen hdr = 10) as Hh by done.
  rewrite Henc in *. rewrite <- !app_assoc in *. rewrite !zlen_app in Hlen.
  pose proof (getName_rd lim before (rr_owner r) (hdr ++ rr_data r ++ ahead) ls k run c1 st len bu Hw Hrun Hk Hls
    ltac:(lia) ltac:(rewrite zlen_app; lia)
    ltac:(eapply between_records_fits; [exact Hbet|rewrite !zlen_app; lia])) as Hname.
  set (bf := (before ++ rr_owner r) ++ hdr).
  assert (zlen bf = zlen before + zlen (rr_owner r) + 10) as Hbf by (unfold bf; rewrite !zlen_app, Hh; lia).
  exists (zlen bf), (zlen (rr_data r)). split; [|unfold bf in *; rewrite !zlen_app in *; lia].
  unfold parse_record. rewrite sm_bind_run. cbn [sm_get snd]. rewrite sm_bind_run.
  change (on_fst (sm_get r_pos) ?s) with (s, Ok (r_pos (fst s))). cbn beta iota.
  rewrite sm_bind_run, (on_fst_run _ _ _ _ _ Hname). cbn beta iota.
  rewrite sm_bind_run.
  rewrite (on_fst_run _ _ _ _ _ (getDnsrecordheader_rd (before ++ rr_owner r) (rr_type r) (rr_class r)
             (rr_ttl r) (zlen (rr_data r)) (rr_data r ++ ahead) st len _ ltac:(done) ltac:(done) ltac:(done)
             ltac:(lia) ltac:(rewrite zlen_app; lia) ltac:(rewrite zlen_app; lia))).
  cbn beta iota. rewrite sm_bind_run.
  change (on_fst (sm_get r_pos) ?s) with (s, Ok (r_pos (fst s))). cbn beta iota zeta. fold hdr. fold bf.
  cbn [ah_type ah_class ah_clen ah_ttl]. rewrite sm_bind_run.
  rewrite (on_fst_run _ _ _ _ _ (content_rd query (mp_qtype p) (dh_opcode (mp_header p)) bf r ahead
             (place_of (mp_header p) n) content c2 (bu - Z.of_nat c1)
             ltac:(rewrite Hbf; unfold bf; rewrite <- !app_assoc; exact Hcont) ltac:(lia)
             ltac:(rewrite zlen_app; lia))). cbn beta iota.
  rewrite sm_bind_run, Hseen, andb_false_r. cbn [sm_throw_if mret SM_ret orb].
  rewrite sm_bind_run. fold (rr_is_tsig r).
  replace (bu - Z.of_nat c1 - Z.of_nat c2) with (bu - Z.of_nat (c1 + c2)) by lia.
  destruct (rr_is_tsig r).
  - rewrite sm_bind_run, (bool_decide_eq_true_2 _ (Hts eq_refl)). cbn [negb sm_throw_if mret SM_ret].
    unfold on_snd at 1. cbn beta iota. rewrite sm_bind_run.
    change (on_fst (sm_get r_pos) ?s) with (s, Ok (r_pos (fst s))). cbn beta iota.
    rewrite sm_bind_run. cbn [rd r_pos fst].
    rewrite (zlen_app _ (rr_data r)), Z.eqb_refl. cbn [negb sm_throw_if mret SM_ret].
    rewrite sm_bind_run. unfold on_snd. cbn beta iota. unfold mret, SM_ret, add_records, bf.
    rewrite <- !app_assoc. cbn. by rewrite orb_true_r.
  - cbn [mret SM_ret]. rewrite sm_bind_run.
    change (on_fst (sm_get r_pos) ?s) with (s, Ok (r_pos (fst s))). cbn beta iota.
    rewrite sm_bind_run. cbn [rd r_pos fst].
    rewrite (zlen_app _ (rr_data r)), Z.eqb_refl. cbn [negb sm_throw_if mret SM_ret].
    rewrite sm_bind_run. unfold on_snd. cbn beta iota. unfold mret, SM_ret, add_records, bf.
    rewrite <- !app_assoc. cbn. by rewrite orb_false_r.
Qed.

(** The sections agree with the counts of the header, from record [n] on. *)
Definition places_agree (dh : dnsheader) (n : Z) (rs : list (Place * rr)) : Prop :=
  forall i place r, rs !! i = Some (place, r) -> place_of dh (n + Z.of_nat i) = place.

Lemma places_agree_cons dh n place r rs :
  places_agree dh n ((place, r) :: rs) -> place_of dh n = place /\ places_agree dh (n + 1) rs.
Proof.
  intros H. split.
  - rewrite <- (H 0%nat place r eq_refl). f_equal. lia.
  - intros i pl r' Hi. rewrite <- (H (S i) pl r' Hi). f_equal. lia.
Qed.

Lemma parse_records_rd query rs ds tsig cost n before after st len bu p :
  Forall rr_ok (map snd rs) -> mp_seenTSIG p = false -> places_agree (mp_header p) n rs ->
  records_read query (mp_qtype p) (dh_opcode (mp_header p)) (before ++ enc_rrs (map snd rs) ++ after)
    (zlen before) rs ds tsig cost ->
  Z.of_nat cost <= bu -> zlen (before ++ enc_rrs (map snd rs) ++ after) < 65536 ->
  between_records st len (zlen before) (zlen (before ++ enc_rrs (map snd rs) ++ after)) ->
  exists pr', loopM (length rs) (parse_record typemap lim query) n
                (rd before (enc_rrs (map snd rs) ++ after) st len bu, p)
    = ((pr', add_records ds tsig p), Ok None).
Proof.
  revert ds tsig cost n before st len bu p.
  induction rs as [|[place r] rs IH]; intros ds tsig cost n before st len bu p Hok Hseen Hpl Hrd Hbu Hlen Hbet.
  - inversion Hrd; subst. eexists. cbn [length loopM]. unfold mret, SM_ret, add_records.
    rewrite app_nil_r. cbn. rewrite orb_false_r. by destruct p.
  - cbn [map snd] in *. inversion_clear Hok as [|?? Hr Hok'].
    change (enc_rrs (r :: map snd rs)) with (enc_rr r ++ enc_rrs (map snd rs)) in *. rewrite <- !app_assoc in *.
    destruct (places_agree_cons _ _ _ _ _ Hpl) as [Hplace%(f_equal Some) Hpl'].
    inversion Hrd as [|? ? d ? Hts Hrec|? ? ? d c ? ds' ? cost' Hts Hrec Hrest]; subst;
      injection Hplace as Hplace.
    + destruct (parse_record_rd query n before r (enc_rrs [] ++ after) st len bu p d cost)
        as (st' & len' & Hrun & _); try done; [by rewrite Hplace|].
      cbn [length loopM map]. rewrite sm_bind_run, Hrun, Hts. cbn beta iota. eexists. reflexivity.
    + destruct (parse_record_rd query n before r (enc_rrs (map snd rs) ++ after) st len bu p d c)
        as (st' & len' & Hrun & Hend); try done; [by rewrite Hplace|by rewrite Hts|lia|].
      cbn [length loopM]. rewrite sm_bind_run, Hrun, Hts. cbn beta iota.
      destruct (IH ds' tsig cost' (n + 1) (before ++ enc_rr r) st' len' (bu - Z.of_nat c) (add_records [d] None p))
        as [pr' Hrest']; rewrite <- ?app_assoc; try done.
      * cbn. by rewrite Hseen.
      * by rewrite zlen_app.
      * lia.
      * right. by left.
      * exists pr'. rewrite Hrest'. unfold add_records. cbn. rewrite <- app_assoc, orb_false_r. done.
Qed.

Lemma parse_question_rd q before ahead qls cost st len bu n p :
  is_u16 (q_type q) -> is_u16 (q_class q) ->
  name_reads (before ++ enc_question q ++ ahead) (zlen before) (q_owner q) qls cost ->
  Z.of_nat cost <= bu -> zlen (before ++ enc_question q ++ ahead) < 65536 ->
  st <= zlen before -> zlen (before ++ enc_question q ++ ahead) <= st + len ->
  parse_question lim n (rd before (enc_question q ++ ahead) st len bu, p)
  = ((rd (before ++ enc_question q) ahead st len (bu - Z.of_nat cost),
      mkParser (mkDNSName (storage_of qls)) (q_class q) (q_type q) (mp_header p) (mp_answers p)
        (mp_tsigPos p) (mp_seenTSIG p)), Ok None).
Proof.
  unfold is_u16, enc_question. intros Ht Hc (Hls & k & run & Hw & Hk & Hrun) Hbu Hlen Hst Hend.
  rewrite <- !app_assoc in *. rewrite !zlen_app, !zlen_be16 in Hlen, Hend.
  pose proof (zlen_nonneg (q_owner q)). pose proof (zlen_nonneg ahead). pose proof (zlen_nonneg before).
  pose proof (getName_rd lim before (q_owner q) (be16 (q_type q) ++ be16 (q_class q) ++ ahead) qls k run cost
    st len bu Hw Hrun Hk Hls Hbu ltac:(rewrite zlen_app; lia)
    ltac:(right; right; rewrite zlen_app; lia)) as Hname.
  unfold parse_question.
  rewrite sm_bind_run, (on_fst_run _ _ _ _ _ Hname). cbn beta iota. rewrite sm_bind_run.
  rewrite (on_fst_run _ _ _ _ _ (r_get16BitInt_rd (before ++ q_owner q) (q_type q) _ st len _ Ht
    ltac:(rewrite zlen_app; lia) ltac:(rewrite zlen_app; lia) ltac:(rewrite zlen_app; lia))).
  cbn beta iota. rewrite sm_bind_run.
  rewrite (on_fst_run _ _ _ _ _ (r_get16BitInt_rd ((before ++ q_owner q) ++ be16 (q_type q)) (q_class q) _ st len _ Hc
    ltac:(rewrite !zlen_app, zlen_be16; lia) ltac:(rewrite !zlen_app, zlen_be16; lia)
    ltac:(rewrite !zlen_app, zlen_be16; lia))).
  cbn beta iota. rewrite sm_bind_run. unfold on_snd. cbn beta iota. by rewrite <- !app_assoc.
Qed.

Definition asked_last (asked : list (DNSName * Z * Z)) (p : MOADNSParser C) : MOADNSParser C :=
  let '(qname, qclass, qtype) := default (mp_qname p, mp_qclass p, mp_qtype p) (last asked) in
  mkParser qname qclass qtype (mp_header p) (mp_answers p) (mp_tsigPos p) (mp_seenTSIG p).

Lemma parse_questions_rd qs asked cost before ahead st len bu n p :
  Forall question_ok qs ->
  questions_read (before ++ concat (map enc_question qs) ++ ahead) (zlen before) qs asked cost ->
  Z.of_nat cost <= bu -> zlen (before ++ concat (map enc_question qs) ++ ahead) < 65536 ->
  st <= zlen before -> zlen (before ++ concat (map enc_question qs) ++ ahead) <= st + len ->
  loopM (length qs) (parse_question lim) n (rd before (concat (map enc_question qs) ++ ahead) st len bu, p)
  = ((rd (before ++ concat (map enc_question qs)) ahead st len (bu - Z.of_nat cost), asked_last asked p), Ok None).
Proof.
  intros Hok. revert asked cost before bu n p.
  induction Hok as [|q qs (_ & Ht & Hc) Hok IH]; intros asked cost before bu n p Hrd Hbu Hlen Hst Hend.
  - inversion Hrd; subst. cbn [length loopM map concat app]. unfold mret, SM_ret, asked_last. cbn.
    rewrite Z.sub_0_r, app_nil_r. by destruct p.
  - inversion Hrd as [|? ? ls c ? asked' cost' Hname Hrest]; subst. cbn [map concat] in *. rewrite <- !app_assoc in *.
    pose proof (zlen_nonneg (enc_question q)).
    cbn [length loopM]. rewrite sm_bind_run.
    rewrite (parse_question_rd q before (concat (map enc_question qs) ++ ahead) ls c st len bu n p) by (done || lia).
    cbn beta iota. rewrite (IH asked' cost'); rewrite <- ?app_assoc; try done.
    + rewrite (app_assoc before). unfold asked_last. destruct asked' as [|a asked'] using rev_ind.
      * cbn. do 2 f_equal. f_equal. lia.
      * rewrite app_comm_cons, !last_snoc. cbn. destruct a as [[??]?]. do 2 f_equal. f_equal. lia.
    + by rewrite zlen_app.
    + lia.
    + rewrite zlen_app. lia.
Qed.

(** The sections of a message are found where its counts say. *)
Lemma placed_agree dh m :
  dh_ancount dh = zlen (msg_answers m) -> dh_nscount dh = zlen (msg_authority m) ->
  places_agree dh 0 (placed m).
Proof.
  intros Han Hns i place r Hi. unfold placed in Hi. unfold place_of. rewrite Han, Hns, Z.add_0_l.
  unfold zlen. apply lookup_app_Some in Hi as [Hi|[Hge Hi]].
  { apply list_lookup_fmap_Some in Hi as (x & [= -> ->] & Hx). apply lookup_lt_Some in Hx.
    by rewrite (proj2 (Z.ltb_lt _ _)) by lia. }
  rewrite length_map in *. rewrite (proj2 (Z.ltb_ge _ _)) by lia.
  apply lookup_app_Some in Hi as [Hi|[Hge' Hi]];
    apply list_lookup_fmap_Some in Hi as (x & [= -> ->] & Hx); apply lookup_lt_Some in Hx.
  - by rewrite (proj2 (Z.ltb_lt _ _)) by lia.
  - rewrite length_map in *. by rewrite (proj2 (Z.ltb_ge _ _)) by lia.
Qed.

Lemma map_snd_placed m : map snd (placed m) = all_records m.
Proof.
  unfold placed, all_records. rewrite !map_app, !map_map. cbn. by rewrite !map_id.
Qed.

Lemma length_placed m : length (placed m) = length (all_records m).
Proof. by rewrite <- map_snd_placed, length_map. Qed.

(** The reader the parser starts with. *)
Lemma init_reader m :
  message_ok m -> zlen (enc_message m) < 65536 ->
  let size := zlen (enc_message m) in
  PacketReader_make (enc_message m) sizeof_dnsheader false false
  = Ok (rd (enc_head m) (concat (map enc_question (msg_questions m)) ++ enc_rrs (all_records m) ++ msg_trailing m)
          12 size (size * 4))
  /\ 12 = zlen (enc_head m).
Proof.
  intros Hok Hlen. cbv zeta. destruct (enc_message_split m Hok) as [H12 _]. split; [|done].
  unfold PacketReader_make. rewrite (proj2 (Z.ltb_ge 65535 _)) by lia. cbn [throw_if mbind result_bind].
  unfold u16. rewrite Z.mod_small by (pose proof (zlen_nonneg (enc_message m)); lia).
  unfold rd. by rewrite <- H12.
Qed.

(** The budget of pointers a packet starts with. *)
Definition starting_budget (pointerBudget : Z) (packet : bytes) : Z :=
  if pointerBudget =? 0 then zlen packet * 4 else pointerBudget.

(** C5: a well-formed message is parsed into exactly what it holds: the last of
    its questions, if any, then the records of its three sections in order, with
    their owner names decompressed, their types, classes, TTLs and sections, and
    their contents: byte for byte where nobody registered the type or the content
    is not looked at, what the registered reader makes of the bytes of the record
    otherwise.  A signature at the end is noted with its position.  Well-formed
    means that the names are compressed within the limits, that a registered
    reader reads its record to the end, that a signature comes last, that a query
    has at most one question, and that the pointers followed are paid for by the
    budget. *)
Theorem parser_complete (query : bool) (m : message) (pointerBudget : Z)
    (asked : list (DNSName * Z * Z)) (ds : list (DNSRecord C)) (tsig : option Z) (qcost rcost : nat) :
  message_ok m -> zlen (enc_message m) < 65536 ->
  let h := header_of (enc_message m) in
  let '(qname, qclass, qtype) := kept_question asked in
  dh_opcode h ∈ [0; 4; 5] -> (query = true -> (length (msg_questions m) <= 1)%nat) ->
  questions_read (enc_message m) 12 (msg_questions m) asked qcost ->
  records_read query qtype (dh_opcode h) (enc_message m)
    (12 + zlen (concat (map enc_question (msg_questions m)))) (placed m) ds tsig rcost ->
  Z.of_nat (qcost + rcost) <= starting_budget pointerBudget (enc_message m) ->
  MOADNSParser_init typemap lim query (enc_message m) pointerBudget
  = Ok (mkParser qname qclass qtype h ds (default 0 tsig) (bool_decide (is_Some tsig))).
Proof.
  intros Hok Hlen. cbv zeta. destruct (kept_question asked) as [[qname qclass] qtype] eqn:Hkept.
  intros Hop Hone Hqs Hrs Hbu. pose proof Hok as (_ & _ & _ & _ & _ & Hqok & Hrok).
  destruct (header_of_enc m Hok) as (Eqd & Ean & Ens & Ear).
  unfold MOADNSParser_init. rewrite enc_message_long by done. cbn [throw_if mbind result_bind]. cbv zeta.
  set (dh := header_of (enc_message m)) in *.
  assert (negb (dh_opcode dh =? 0) && negb (dh_opcode dh =? 4) && negb (dh_opcode dh =? 5) = false) as ->
    by (set_unfold; destruct Hop as [->|[->|[->|[]]]]; done).
  assert (query && (1 <? dh_qdcount dh) = false) as ->.
  { rewrite Eqd. destruct query; [|done]. specialize (Hone eq_refl). apply Z.ltb_ge. unfold zlen. lia. }
  cbn [throw_if mbind result_bind].
  destruct (init_reader m Hok Hlen) as (-> & H12). cbn [mbind result_bind].
  set (bu := starting_budget pointerBudget (enc_message m)) in *. set (size := zlen (enc_message m)) in *.
  replace (if pointerBudget =? 0 then _ else _) with
    (rd (enc_head m) (concat (map enc_question (msg_questions m)) ++ enc_rrs (all_records m) ++ msg_trailing m)
       12 size bu) by (unfold bu, starting_budget; by destruct (pointerBudget =? 0)).
  rewrite Eqd. unfold zlen at 1. rewrite Nat2Z.id. change (enc_message m) with (enc_head m ++
    concat (map enc_question (msg_questions m)) ++ enc_rrs (all_records m) ++ msg_trailing m) in Hqs, Hrs.
  rewrite (parse_questions_rd (msg_questions m) asked qcost);
    [|done|by rewrite <- H12|lia|done|lia|unfold size, enc_message; lia].
  replace (Z.to_nat (dh_ancount dh + dh_nscount dh + dh_arcount dh)) with (length (placed m))
    by (rewrite length_placed, Ean, Ens, Ear; unfold all_records, zlen; rewrite !length_app; lia).
  assert (asked_last asked (mkParser (mkDNSName []) 0 0 dh [] 0 false) = mkParser qname qclass qtype dh [] 0 false)
    as -> by (unfold asked_last; cbn; unfold kept_question in Hkept; by rewrite Hkept).
  rewrite <- map_snd_placed in *.
  destruct (parse_records_rd query (placed m) ds tsig rcost 0
    (enc_head m ++ concat (map enc_question (msg_questions m))) (msg_trailing m) 12 size (bu - Z.of_nat qcost)
    (mkParser qname qclass qtype dh [] 0 false)) as [pr' Hrecs]; rewrite <- ?app_assoc; try done.
  - by apply placed_agree.
  - by rewrite zlen_app, <- H12.
  - lia.
  - unfold enc_message in Hlen. by rewrite map_snd_placed in *.
  - right. right. rewrite zlen_app, <- H12. pose proof (zlen_nonneg (concat (map enc_question (msg_questions m)))).
    unfold size, enc_message. rewrite map_snd_placed. lia.
  - rewrite Hrecs. done.
Qed.
End parser.

(** ** On a concrete message *)

Definition no_types (_ : Z * Z) : option (SM PacketReader unit) := None.

Definition ex_reply : bytes := enc_message (ex_message 300 60).

(** Cut in the second record, with the truncation bit. *)
Definition ex_cut : bytes := <[2%nat := 131]> (take 50 ex_reply).

Definition parsed_or {A} (d : A) (r : result A) : A := match r with Ok a => a | Throw _ => d end.

Definition ex_cut_parsed : MOADNSParser unit :=
  parsed_or (mkParser (mkDNSName []) 0 0 (header_of ex_cut) [] 0 false)
    (MOADNSParser_init no_types default_limits false ex_cut 0).

Lemma parser_consistent_witness :
  dh_ancount (mp_header ex_cut_parsed) = 1
  /\ zlen (mp_answers ex_cut_parsed)
     = dh_ancount (mp_header ex_cut_parsed) + dh_nscount (mp_header ex_cut_parsed)
       + dh_arcount (mp_header ex_cut_parsed).
Proof.
  split; [vm_compute; reflexivity|].
  refine (proj1 (parser_consistent no_types default_limits false ex_cut 0 ex_cut_parsed _ _));
    [by_decide|vm_compute; reflexivity].
Defined.

(** Two records in the additional section, a signature and another one after it,
    and no question. *)
Definition ex_after_tsig (tc : bool) : bytes :=
  [0; 1; if tc then 130 else 128; 0; 0; 0; 0; 0; 0; 0; 0; 2;
   0; 0; 250; 0; 255; 0; 0; 0; 0; 0; 0;
   0; 0; 1; 0; 1; 0; 0; 0; 0; 0; 0].

(** A record after the signature is an error; with the truncation bit, and without
    a question, the packet is accepted up to it. *)
Example tsig_not_last_accepted :
  MOADNSParser_init no_types default_limits false (ex_after_tsig false) 0
  = Throw (MOADNSException "Error parsing packet, out of bounds")
  /\ match MOADNSParser_init no_types default_limits false (ex_after_tsig true) 0 with
     | Ok p => map d_type (mp_answers p) = [QType.TSIG] /\ dh_arcount (mp_header p) = 1
     | Throw _ => False
     end.
Proof. by vm_compute. Qed.

Definition ex_www_label : list bytes := [bs "www"].

(** Two registered types: addresses, read as they are, and names. *)
Definition ex_types (t : Z * Z) : option (SM PacketReader (bytes + DNSName)) :=
  if bool_decide (t = (1, QType.A)) then Some (b ← xfrBlob_rest; mret (inl b))
  else if bool_decide (t = (1, QType.NS)) then Some (n ← getName default_limits; mret (inr n))
  else None.

(** An answer that is signed: an address for [www], the name server [ns.www], and
    a signature whose owner is a pointer to a pointer. *)
Definition ex_signed : message :=
  mkMessage [18; 52; 129; 128] [mkQuestion [3; 119; 119; 119; 0] QType.A QClass.IN]
    [ex_rr 300 1] [mkRR [192; 12] QType.NS QClass.IN 60 [2; 110; 115; 192; 12]]
    [mkRR [192; 21] QType.TSIG QClass.ANY 0 [1; 2; 3]] [].

Definition ex_signed_records : list (DNSRecord (bytes + DNSName)) :=
  let www := mkDNSName (storage_of ex_www_label) in
  [mkRecord www QType.A QClass.IN 300 4 ANSWER (KnownRecordContent (inl [192; 0; 2; 1]));
   mkRecord www QType.NS QClass.IN 60 5 AUTHORITY
     (KnownRecordContent (inr (mkDNSName (storage_of [bs "ns"; bs "www"]))));
   mkRecord www QType.TSIG QClass.ANY 0 3 ADDITIONAL (UnknownRecordContent [1; 2; 3])].

Lemma ex_www_chained : chained_name 4 12 (enc_message ex_signed) 12 ex_www_label 0 0 0 17.
Proof.
  apply (chained_root _ _ _ 12 ex_www_label (zdrop 17 (enc_message ex_signed))); [lia|by_decide|vm_compute; reflexivity].
Qed.

Lemma ex_pointer_chained pos target rest k run cost e :
  0 <= target < 256 -> 12 <= pos -> target < pos -> zdrop pos (enc_message ex_signed) = 192 :: target :: rest ->
  chained_name 4 12 (enc_message ex_signed) target ex_www_label k run cost e ->
  chained_name 4 12 (enc_message ex_signed) pos ex_www_label (S k) (S run) (S cost) (pos + 2).
Proof. intros Ht Hpos Hlt Hd Hc. by apply (chained_pointer _ _ _ pos 0 target rest ex_www_label k run cost e). Qed.

Lemma ex_ns_chained :
  chained_name 4 12 (enc_message ex_signed) 49 [bs "ns"; bs "www"] 1 0 0 (49 + 5).
Proof.
  apply (chained_labels 4 12 (enc_message ex_signed) 49 [bs "ns"] 0 12 (zdrop 54 (enc_message ex_signed)) ex_www_label
           0 0 0 17); try done; try (vm_compute; reflexivity); [by_decide|apply ex_www_chained].
Qed.

Lemma ex_signed_address :
  content_reads ex_types false QType.A 0 (enc_message ex_signed) 33 ANSWER (ex_rr 300 1)
    (KnownRecordContent (inl [192; 0; 2; 1])) 0.
Proof.
  eapply content_known; [done|done|]. intros before after bu Hv Hs Hbu. cbn [ex_rr rr_data] in *.
  rewrite sm_bind_run, (xfrBlob_rest_ahead _ before [192; 0; 2; 1] after) by (done || by rewrite <- Hs).
  unfold record_end, rd at 1. cbn [r_startrecordpos r_recordlen].
  rewrite <- Hs. rewrite (set_pos_rd before [192; 0; 2; 1] after) by (rewrite zlen_app, Hs; done).
  by rewrite Z.sub_0_r.
Qed.

Lemma ex_signed_ns :
  content_reads ex_types false QType.A 0 (enc_message ex_signed) 49 AUTHORITY
    (mkRR [192; 12] QType.NS QClass.IN 60 [2; 110; 115; 192; 12])
    (KnownRecordContent (inr (mkDNSName (storage_of [bs "ns"; bs "www"])))) 0.
Proof.
  eapply content_known; [done|done|]. intros before after bu Hv Hs Hbu. cbn [rr_data] in *.
  rewrite sm_bind_run, (getName_rd default_limits before [2; 110; 115; 192; 12] after [bs "ns"; bs "www"] 1 0 0);
    [done|rewrite Hv, Hs; apply ex_ns_chained|done|done|done|done|rewrite zlen_app, Hs; done|].
  right. right. rewrite zlen_app, Hs. done.
Qed.

Lemma ex_signed_reads :
  records_read ex_types default_limits false QType.A 0 (enc_message ex_signed) 21 (placed ex_signed)
    ex_signed_records (Some 54) 4.
Proof.
  apply (reads_cons _ _ _ _ _ _ 21 ANSWER _ _ 1 _ _ _ 3); [done| |].
  { eexists ex_www_label, _, 1%nat, 0%nat. split_and!; [|apply ex_signed_address|done|done].
    split; [done|]. exists 1%nat, 1%nat. split; [|done].
    by eapply (ex_pointer_chained 21 12); [..|vm_compute; reflexivity|apply ex_www_chained]. }
  apply (reads_cons _ _ _ _ _ _ 37 AUTHORITY _ _ 1 _ _ _ 2); [done| |].
  { eexists ex_www_label, _, 1%nat, 0%nat. split_and!; [|apply ex_signed_ns|done|done].
    split; [done|]. exists 1%nat, 1%nat. split; [|done].
    by eapply (ex_pointer_chained 37 12); [..|vm_compute; reflexivity|apply ex_www_chained]. }
  apply (reads_tsig _ _ _ _ _ _ 54); [done|].
  eexists ex_www_label, _, 2%nat, 0%nat. split_and!; [|by apply content_raw|done|done].
  split; [done|]. exists 2%nat, 2%nat. split; [|done].
  eapply (ex_pointer_chained 54 21); [done|done|done|vm_compute; reflexivity|].
  by eapply (ex_pointer_chained 21 12); [..|vm_compute; reflexivity|apply ex_www_chained].
Qed.

Lemma parser_complete_witness :
  MOADNSParser_init ex_types default_limits false (enc_message ex_signed) 0
  = Ok (mkParser (mkDNSName (storage_of ex_www_label)) 1 1 (header_of (enc_message ex_signed))
          ex_signed_records 54 true).
Proof.
  apply (parser_complete ex_types default_limits false ex_signed 0
           [(mkDNSName (storage_of ex_www_label), 1, 1)] ex_signed_records (Some 54) 0 4); try done.
  - split_and!; try done.
    + apply Forall_singleton. split; [|done]. by apply (owner_label [119; 119; 119] [0]); [|apply owner_root].
    + repeat (apply Forall_cons; split; [split; [by apply owner_pointer|done]|]). constructor.
  - by_decide.
  - apply (asks_cons _ _ 12 (mkQuestion [3; 119; 119; 119; 0] QType.A QClass.IN) ex_www_label 0 [] [] 0);
      [|constructor]. split; [done|].
    exists 0%nat, 0%nat. split; [apply ex_www_chained|done].
  - apply ex_signed_reads.
Defined.

(** ** The record visitor *)

(** [visitDNSPacket] reports a failure on some well-formed messages: when
    the last record has no content and nothing follows it, the address of its
    content lies at the end of the packet, and computing it throws.  The same
    message with a byte after it is fine. *)
Theorem visitDNSPacket_empty_last_record :
  let m trailing := mkMessage [18; 52; 129; 128] [mkQuestion [0] QType.A QClass.IN] []
                      [mkRR [0] QType.ENT QClass.IN 60 []] [] trailing in
  message_ok (m [])
  /\ visitDNSPacket default_limits (enc_message (m [])) (fun _ _ _ _ _ _ => false) = false
  /\ visitDNSPacket default_limits (enc_message (m [7])) (fun _ _ _ _ _ _ => false) = true.
Proof.
  cbv zeta. split; [|by_decide]. split_and!; try done.
  - constructor; [split; [apply owner_root|done]|constructor].
  - constructor; [split; [apply owner_root|done]|constructor].
Qed.
