(* ===== verification/Edns.v ===== *)
(** * EDNS options

    [pdns/ednsoptions.hh] and [pdns/ednsoptions.cc]: the options in the content
    of an OPT record, and finding that record in a packet.  A pointer and a
    length are the bytes from the pointer on. *)

From S2P Require Import Prelude StdSet Dns Names NamesWire Mangler PacketWalk PacketSafety Reader.

#[local] Open Scope Z_scope.

Definition EDNS_OPTION_CODE_SIZE : Z := 2.
Definition EDNS_OPTION_LENGTH_SIZE : Z := 2.
Definition DNS_RDLENGTH_SIZE : Z := 2.

Definition generateEDNSOption (optionCode : Z) (payload res : bytes) : bytes :=
  res ++ be16 optionCode ++ be16 (u16 (zlen payload)) ++ payload.

Definition getNextEDNSOption (data : bytes) : option (Z * Z) :=
  if zlen data <? 4 then None else Some (get16 data 0, get16 data 2).

(** The loop of [getEDNSOption]: the error code, and the position and the size
    of the option when it is 0. *)
Fixpoint getEDNSOption_loop (fuel : nat) (optRR : bytes) (wantedOption rdLen pos rdPos : Z)
  : Z * option (Z * Z) :=
  match fuel with
  | O => (ENOENT, None)
  | S fuel' =>
      if (pos + 4 <=? zlen optRR) && (rdPos + 4 <=? rdLen) then
        match getNextEDNSOption (zdrop pos optRR) with
        | None => (ENOENT, None)
        | Some (optionCode, optionLen) =>
            let pos := pos + EDNS_OPTION_CODE_SIZE + EDNS_OPTION_LENGTH_SIZE in
            let rdPos := rdPos + EDNS_OPTION_CODE_SIZE + EDNS_OPTION_LENGTH_SIZE in
            if (rdLen - rdPos <? optionLen) || (zlen optRR - pos <? optionLen) then (EINVAL, None)
            else if optionCode =? wantedOption then (0, Some (pos - 4, optionLen + 4))
            else getEDNSOption_loop fuel' optRR wantedOption rdLen (pos + optionLen) (rdPos + optionLen)
        end
      else (ENOENT, None)
  end.

Definition getEDNSOption (optRR : bytes) (wantedOption : Z) : Z * option (Z * Z) :=
  if zlen optRR <? DNS_RDLENGTH_SIZE then (EINVAL, None)
  else
    let rdLen := get16 optRR 0 in
    if zlen optRR <? DNS_RDLENGTH_SIZE + rdLen then (EINVAL, None)
    else getEDNSOption_loop (length optRR) optRR wantedOption rdLen DNS_RDLENGTH_SIZE 0.

(** A [std::map] from codes to the views of the values: position and size. *)
Abbreviation EDNSOptionViewMap := (list (Z * list (Z * Z))).

(** [options[optionCode].values.push_back(value)]. *)
Definition add_view (optionCode : Z) (value : Z * Z) (options : EDNSOptionViewMap) : EDNSOptionViewMap :=
  set_alter (probe_of (fun x => fst x <? optionCode) (fun x => optionCode <? fst x))
    (fun o => Some (match o with
                    | None => (optionCode, [value])
                    | Some (c, vs) => (c, vs ++ [value])
                    end)) options.

Fixpoint getEDNSOptions_loop (fuel : nat) (optRR : bytes) (rdLen pos rdPos : Z)
    (options : EDNSOptionViewMap) : Z * EDNSOptionViewMap :=
  match fuel with
  | O => (0, options)
  | S fuel' =>
      if (pos + 4 <=? zlen optRR) && (rdPos + 4 <=? rdLen) then
        let optionCode := get16 optRR pos in
        let optionLen := get16 optRR (pos + EDNS_OPTION_CODE_SIZE) in
        let pos := pos + EDNS_OPTION_CODE_SIZE + EDNS_OPTION_LENGTH_SIZE in
        let rdPos := rdPos + EDNS_OPTION_CODE_SIZE + EDNS_OPTION_LENGTH_SIZE in
        if (rdLen - rdPos <? optionLen) || (zlen optRR - pos <? optionLen) then (EINVAL, options)
        else getEDNSOptions_loop fuel' optRR rdLen (pos + optionLen) (rdPos + optionLen)
               (add_view optionCode (pos, optionLen) options)
      else (0, options)
  end.

Definition getEDNSOptions (optRR : bytes) (options : EDNSOptionViewMap) : Z * EDNSOptionViewMap :=
  if zlen optRR <? DNS_RDLENGTH_SIZE then (EINVAL, options)
  else
    let rdLen := get16 optRR 0 in
    if zlen optRR <? DNS_RDLENGTH_SIZE + rdLen then (EINVAL, options)
    else getEDNSOptions_loop (length optRR) optRR rdLen DNS_RDLENGTH_SIZE 0 options.

Fixpoint getEDNSOptionsFromContent_loop (fuel : nat) (content : bytes) (pos : Z)
    (options : list (Z * bytes)) : bool * list (Z * bytes) :=
  match fuel with
  | O => (true, options)
  | S fuel' =>
      if (pos <? zlen content) && (4 <=? zlen content - pos) then
        let code := get16 content pos in
        let len := get16 content (pos + EDNS_OPTION_CODE_SIZE) in
        let pos := pos + EDNS_OPTION_CODE_SIZE + EDNS_OPTION_LENGTH_SIZE in
        if (zlen content <? pos) || (zlen content - pos <? len) then (false, options)
        else getEDNSOptionsFromContent_loop fuel' content (pos + len)
               (options ++ [(code, zsub content pos len)])
      else (true, options)
  end.

Definition getEDNSOptionsFromContent (content : bytes) (options : list (Z * bytes))
  : bool * list (Z * bytes) :=
  getEDNSOptionsFromContent_loop (length content) content 0 options.

(** [slowParseEDNSOptions]: the options found so far are the caller's also when
    the result is [false]. *)
Definition slowParseEDNSOptions (packet : bytes) (options : EDNSOptionViewMap)
  : bool * EDNSOptionViewMap :=
  if zlen packet <? sizeof_dnsheader then (false, options)
  else
    let dh := header_of packet in
    if dh_qdcount dh =? 0 then (false, options)
    else if dh_arcount dh =? 0 then (false, options)
    else
      match snd ((
        _ ← skipQuestions (dh_qdcount dh);
        loopM (Z.to_nat (numrecords dh)) (fun index =>
          wasRoot ← skipDomainName;
          let section := section_of dh index in
          dnstype ← get16BitInt;
          _ ← get16BitInt;
          (* TTL *)
          _ ← skipBytes 4;
          if (section =? 3) && (dnstype =? QType.OPT) && wasRoot then
            offset ← sm_get d_offset;
            if zlen packet <=? offset then mret (Some None)
            else _ ← skipRData; mret (Some (Some offset))
          else
            _ ← skipRData;
            mret None) 0) (mangler packet)) with
      | Ok (Some (Some offset)) =>
          let '(rc, options) := getEDNSOptions (zdrop offset packet) options in (rc =? 0, options)
      | _ => (false, options)
      end.

(** ** Locating the OPT record *)

(** Where the OPT record starts, how long it is, and whether it is the last
    record; [None] for [ENOENT]. *)
Definition locate_skip (lim : name_limits) (_ : Z) : SM PacketReader (option unit) :=
  _ ← getName lim;
  ah ← getDnsrecordheader;
  _ ← skip (ah_clen ah);
  mret None.

Definition locate_opt (lim : name_limits) (packet : bytes) (arcount idx : Z)
  : SM PacketReader (option (Z * Z * bool)) :=
  start ← sm_get r_pos;
  rrname ← getName lim;
  ah ← getDnsrecordheader;
  if isRoot rrname && (ah_type ah =? QType.OPT) then
    pos ← sm_get r_pos;
    let optLen := pos - start + ah_clen ah in
    _ ← sm_throw_if (zlen packet <? start + optLen) (range_error "Opt record overflow");
    mret (Some (start, optLen, idx =? arcount - 1))
  else
    _ ← skip (ah_clen ah);
    mret None.

Definition locateEDNSOptRR (lim : name_limits) (packet : bytes) : result (option (Z * Z * bool)) :=
  _ ← throw_if (zlen packet <? sizeof_dnsheader)
        (runtime_error "Packet passed to locateEDNSOptRR was too small");
  let dh := header_of packet in
  if dh_arcount dh =? 0 then Ok None
  else
    _ ← throw_if (negb (dh_qdcount dh =? 1))
          (runtime_error "Packet passed to locateEDNSOptRR did not have QDCOUNT=1");
    pr ← PacketReader_make packet sizeof_dnsheader false false;
    snd ((
      _ ← getName lim;
      _ ← skip 4;
      _ ← loopM (Z.to_nat (dh_ancount dh + dh_nscount dh)) (locate_skip lim) 0;
      loopM (Z.to_nat (dh_arcount dh)) (locate_opt lim packet (dh_arcount dh)) 0) pr).

(** ** Options written are options read *)

Definition option_ok (o : Z * bytes) : Prop := is_u16 (fst o) /\ zlen (snd o) < 65536.

Definition enc_option (o : Z * bytes) : bytes := be16 (fst o) ++ be16 (zlen (snd o)) ++ snd o.

Definition enc_options (opts : list (Z * bytes)) : bytes := concat (map enc_option opts).

(** [generateEDNSOption] called for one option after the other. *)
Definition generate_all (opts : list (Z * bytes)) : bytes :=
  foldl (fun res o => generateEDNSOption (fst o) (snd o) res) [] opts.

Lemma generate_all_enc opts : Forall option_ok opts -> generate_all opts = enc_options opts.
Proof.
  intros Hok. unfold generate_all. rewrite <- (app_nil_l (enc_options opts)).
  generalize (@nil Z) as res. induction Hok as [|[c v] opts [Hc Hv] _ IH]; intros res; cbn [foldl].
  - by rewrite app_nil_r.
  - rewrite IH. unfold generateEDNSOption, enc_options, enc_option. cbn [fst snd map concat] in *.
    pose proof (zlen_nonneg v). unfold u16. rewrite Z.mod_small by lia. by rewrite <- !app_assoc.
Qed.

(** What the readers see where an option begins. *)
Lemma option_at before c v after :
  is_u16 c -> zlen v < 65536 ->
  let s := before ++ enc_option (c, v) ++ after in
  get16 s (zlen before) = c /\ get16 s (zlen before + 2) = zlen v
  /\ zlen s = zlen before + 4 + zlen v + zlen after
  /\ zsub s (zlen before + 4) (zlen v) = v.
Proof.
  intros Hc Hv. pose proof (zlen_nonneg v). unfold is_u16 in *. cbv zeta. unfold enc_option. cbn [fst snd].
  rewrite <- !app_assoc. split_and!.
  - by apply get16_be16.
  - replace (zlen before + 2) with (zlen (before ++ be16 c)) by by rewrite zlen_app.
    rewrite app_assoc. apply get16_be16. lia.
  - rewrite !zlen_app, !zlen_be16. lia.
  - unfold zsub. replace (zlen before + 4) with (zlen (before ++ be16 c ++ be16 (zlen v)))
      by (rewrite !zlen_app, !zlen_be16; lia).
    assert (before ++ be16 c ++ be16 (zlen v) ++ v ++ after
            = (before ++ be16 c ++ be16 (zlen v)) ++ v ++ after) as -> by by rewrite <- !app_assoc.
    rewrite zdrop_app by done. by apply ztake_app.
Qed.

Lemma from_content_loop before opts tail fuel acc :
  Forall option_ok opts -> zlen tail < 4 -> (length (enc_options opts ++ tail) <= fuel)%nat ->
  getEDNSOptionsFromContent_loop fuel (before ++ enc_options opts ++ tail) (zlen before) acc
  = (true, acc ++ opts).
Proof.
  intros Hok Ht. revert before fuel acc. induction Hok as [|[c v] opts [Hc Hv] Hok IH]; intros before fuel acc Hf.
  - rewrite app_nil_r. destruct fuel; [done|]. cbn [getEDNSOptionsFromContent_loop app enc_options map concat].
    rewrite zlen_app, (proj2 (Z.leb_gt 4 _)), andb_false_r by lia. done.
  - cbn [fst snd] in *. change (enc_options ((c, v) :: opts)) with (enc_option (c, v) ++ enc_options opts) in *.
    rewrite <- !app_assoc in *.
    destruct (option_at before c v (enc_options opts ++ tail) Hc Hv) as (Hcode & Hlen & Hsize & Hval).
    pose proof (zlen_nonneg v). pose proof (zlen_nonneg (enc_options opts ++ tail)).
    destruct fuel as [|fuel]; [by rewrite length_app in Hf; simpl in Hf; lia|].
    cbn [getEDNSOptionsFromContent_loop]. rewrite Hsize.
    rewrite (proj2 (Z.ltb_lt _ _)), (proj2 (Z.leb_le _ _)) by lia. cbn [andb]. cbv zeta.
    unfold EDNS_OPTION_CODE_SIZE, EDNS_OPTION_LENGTH_SIZE. rewrite Hlen, Hcode.
    replace (zlen before + 2 + 2) with (zlen before + 4) by lia.
    rewrite (proj2 (Z.ltb_ge _ (zlen before + 4))), (proj2 (Z.ltb_ge _ (zlen v))) by lia. cbn [orb].
    rewrite Hval.
    replace (zlen before + 4 + zlen v) with (zlen (before ++ enc_option (c, v)))
      by (unfold enc_option; rewrite !zlen_app, !zlen_be16; cbn [fst snd]; lia).
    rewrite (app_assoc before), IH; [by rewrite <- app_assoc|].
    rewrite length_app in Hf. unfold enc_option in Hf. simpl in Hf. lia.
Qed.

(** EDNS options survive the wire: options generated one after the other
    and read back from the content of the OPT record are the same codes and
    values in the same order; up to 3 stray bytes at the end are ignored. *)
Theorem edns_options_round_trip (opts : list (Z * bytes)) (tail : bytes) :
  Forall option_ok opts -> zlen tail < 4 ->
  getEDNSOptionsFromContent (generate_all opts ++ tail) [] = (true, opts).
Proof.
  intros Hok Ht. rewrite generate_all_enc by done. unfold getEDNSOptionsFromContent.
  change 0 with (zlen (@nil Z)) at 1. by rewrite (from_content_loop [] opts tail) by done.
Qed.

Definition ex_options : list (Z * bytes) := [(10, [1; 2; 3; 4; 5; 6; 7; 8]); (12, []); (8, [0; 1; 24; 0; 192; 0; 2])].

Lemma edns_options_round_trip_witness :
  getEDNSOptionsFromContent (generate_all ex_options ++ [0; 3]) [] = (true, ex_options).
Proof. apply (edns_options_round_trip ex_options [0; 3]); [repeat constructor; simpl; lia|done]. Defined.

(** ** Any bytes *)

(** looking for an option never leaves the OPT record.  Whatever bytes it is
    given, when the search succeeds the option found lies within the length the
    record announces, which lies within the bytes given, it carries the wanted
    code, and its own length is the size reported. *)
Theorem edns_option_in_bounds (optRR : bytes) (wanted pos size : Z) :
  bytes_ok optRR -> getEDNSOption optRR wanted = (0, Some (pos, size)) ->
  2 <= pos /\ 4 <= size /\ pos + size <= 2 + get16 optRR 0 <= zlen optRR
  /\ get16 optRR pos = wanted /\ get16 optRR (pos + 2) = size - 4.
Proof.
  intros Hb. unfold getEDNSOption, DNS_RDLENGTH_SIZE.
  destruct (Z.ltb_spec (zlen optRR) 2) as [|H2]; [done|].
  destruct (Z.ltb_spec (zlen optRR) (2 + get16 optRR 0)) as [|Hlen]; [done|].
  set (rdLen := get16 optRR 0) in *.
  assert (forall fuel p rp, 0 <= rp -> p = rp + 2 -> getEDNSOption_loop fuel optRR wanted rdLen p rp = (0, Some (pos, size)) ->
    2 <= pos /\ 4 <= size /\ pos + size <= 2 + rdLen
    /\ get16 optRR pos = wanted /\ get16 optRR (pos + 2) = size - 4) as Hloop.
  { induction fuel as [|fuel IH]; intros p rp Hrp -> H; cbn [getEDNSOption_loop] in H; [done|].
    destruct ((rp + 2 + 4 <=? zlen optRR) && (rp + 4 <=? rdLen)) eqn:E; [|done].
    apply andb_true_iff in E as [E1%Z.leb_le E2%Z.leb_le].
    unfold getNextEDNSOption in H. rewrite zlen_zdrop, (proj2 (Z.ltb_ge _ 4)) in H by lia.
    assert (forall i, 0 <= i -> get16 (zdrop (rp + 2) optRR) i = get16 optRR (rp + 2 + i)) as Hget.
    { intros i Hi. unfold get16, byte_at. rewrite !zat_zdrop by lia. by replace (rp + 2 + (i + 1)) with (rp + 2 + i + 1) by lia. }
    rewrite !Hget, Z.add_0_r in H by lia. cbv zeta in H.
    unfold EDNS_OPTION_CODE_SIZE, EDNS_OPTION_LENGTH_SIZE in H.
    pose proof (get16_range optRR (rp + 2 + 2) Hb).
    destruct (_ || _) eqn:E3 in H; [done|]. apply orb_false_iff in E3 as [E3%Z.ltb_ge E4%Z.ltb_ge].
    destruct (Z.eqb_spec (get16 optRR (rp + 2)) wanted) as [Ew|Ew].
    - injection H as <- <-. replace (rp + 2 + 2 + 2 - 4) with (rp + 2) by lia. split_and!; lia.
    - eapply IH; [|  |exact H]; lia. }
  intros H. destruct (Hloop _ 2 0 ltac:(lia) ltac:(lia) H) as (? & ? & ? & ? & ?). split_and!; lia.
Qed.

Definition ex_optRR : bytes := be16 (zlen (enc_options ex_options)) ++ enc_options ex_options ++ [99; 99].

Lemma edns_option_in_bounds_witness :
  getEDNSOption ex_optRR 8 = (0, Some (18, 11)) /\ 18 + 11 <= 2 + get16 ex_optRR 0 <= zlen ex_optRR.
Proof.
  split; [vm_compute; reflexivity|].
  apply (edns_option_in_bounds ex_optRR 8 18 11); [by_decide|vm_compute; reflexivity].
Defined.
