(* ===== verification/TxtText.v ===== *)
(** * Character strings and their quoted text form

    The Ragel machine [dnstext] of [pdns/dnslabeltext.rl], which cuts the quoted
    text of a TXT-like record into character strings; [txtEscape], its inverse,
    is in [Reader]. *)

From S2P Require Import Prelude Chars Dns Names NamesWire Reader.

#[local] Open Scope Z_scope.

Inductive txt_state : Type :=
| TxtStart       (* nothing read yet *)
| TxtInQuote     (* between the quotes *)
| TxtBackslash | TxtDigit1 | TxtDigit2  (* inside an escape *)
| TxtDigit3      (* after a decimal escape, its byte not yet reported *)
| TxtAfterQuote  (* after the closing quote *)
| TxtAfterSpace. (* after the space that may follow it *)

Record txt_machine : Type := mkTxt {
  txt_cs : txt_state;
  txt_val : Z;
  txt_segment : bytes;
  txt_ret : list bytes;
}.

(** A segment that is full is pushed before the byte is appended. *)
Definition appendSplit (c : Z) (m : txt_machine) : txt_machine :=
  if 254 <? zlen (txt_segment m)
  then mkTxt (txt_cs m) (txt_val m) [c] (txt_ret m ++ [txt_segment m])
  else mkTxt (txt_cs m) (txt_val m) (txt_segment m ++ [c]) (txt_ret m).

Definition txt_set_cs (cs : txt_state) (m : txt_machine) : txt_machine :=
  mkTxt cs (txt_val m) (txt_segment m) (txt_ret m).

Definition segmentEnd (m : txt_machine) : txt_machine :=
  mkTxt (txt_cs m) (txt_val m) [] (txt_ret m ++ [txt_segment m]).

Definition segmentBegin (m : txt_machine) : txt_machine :=
  mkTxt (txt_cs m) (txt_val m) [] (txt_ret m).

Definition txt_number (c : Z) (m : txt_machine) : txt_machine :=
  mkTxt (txt_cs m) (u8 (u8 (txt_val m * 10) + (c - 48))) (txt_segment m) (txt_ret m).

(** The leaving action of a decimal escape. *)
Definition txt_leave (m : txt_machine) : txt_machine :=
  match txt_cs m with
  | TxtDigit3 => let m := appendSplit (txt_val m) m in
                 mkTxt (txt_cs m) 0 (txt_segment m) (txt_ret m)
  | _ => m
  end.

Definition txt_reject : exn := runtime_error "Unable to parse DNS TXT".

Definition txt_step (m : txt_machine) (c : Z) : result txt_machine :=
  match txt_cs m with
  | TxtStart => if c =? 34 then Ok (txt_set_cs TxtInQuote (segmentBegin m)) else Throw txt_reject
  | TxtInQuote | TxtDigit3 =>
      let m := txt_leave m in
      if c =? 34 then Ok (txt_set_cs TxtAfterQuote m)
      else if c =? 92 then Ok (txt_set_cs TxtBackslash m)
      else Ok (txt_set_cs TxtInQuote (appendSplit c m))
  | TxtBackslash =>
      if c_isdigit c then Ok (txt_set_cs TxtDigit1 (txt_number c m))
      else Ok (txt_set_cs TxtInQuote (appendSplit c m))
  | TxtDigit1 => if c_isdigit c then Ok (txt_set_cs TxtDigit2 (txt_number c m)) else Throw txt_reject
  | TxtDigit2 => if c_isdigit c then Ok (txt_set_cs TxtDigit3 (txt_number c m)) else Throw txt_reject
  | TxtAfterQuote =>
      if c =? 34 then Ok (txt_set_cs TxtInQuote (segmentBegin (segmentEnd m)))
      else if c_isspace c then Ok (txt_set_cs TxtAfterSpace m)
      else Throw txt_reject
  | TxtAfterSpace =>
      if c =? 34 then Ok (txt_set_cs TxtInQuote (segmentBegin (segmentEnd m)))
      else Throw txt_reject
  end.

Fixpoint txt_run (m : txt_machine) (input : bytes) : result txt_machine :=
  match input with
  | [] => Ok m
  | c :: input' => m' ← txt_step m c; txt_run m' input'
  end.

Definition segmentDNSText (input : bytes) : result (list bytes) :=
  m ← txt_run (mkTxt TxtStart 0 [] []) input;
  match txt_cs m with
  | TxtAfterQuote | TxtAfterSpace => Ok (txt_ret (segmentEnd m))
  | _ => Throw txt_reject
  end.

(** ** Escaping and cutting *)

(** The text form of character strings, as [PacketReader::getText] builds it. *)
Definition quoted (s : bytes) : bytes := [34] ++ txtEscape s ++ [34].

Fixpoint quoted_strings (ss : list bytes) : bytes :=
  match ss with
  | [] => []
  | [s] => quoted s
  | s :: ss' => quoted s ++ [32] ++ quoted_strings ss'
  end.

Lemma quoted_strings_cons s s2 ss :
  quoted_strings (s :: s2 :: ss) = quoted s ++ [32] ++ quoted_strings (s2 :: ss).
Proof. done. Qed.

Lemma txt_run_app m a b : txt_run m (a ++ b) = (m' ← txt_run m a; txt_run m' b).
Proof.
  revert m. induction a as [|c a IH]; intros m; simpl; [done|].
  destruct (txt_step m c); simpl; [apply IH|done].
Qed.

(** Inside the quotes, with the bytes read so far; the last of them may still be
    in [val]. *)
Definition txt_at (m : txt_machine) (ret : list bytes) (cur : bytes) : Prop :=
  txt_ret (txt_leave m) = ret /\ txt_segment (txt_leave m) = cur /\ txt_val (txt_leave m) = 0
  /\ (txt_cs m = TxtInQuote \/ txt_cs m = TxtDigit3).

Lemma appendSplit_short c m :
  zlen (txt_segment m) <= 254 ->
  appendSplit c m = mkTxt (txt_cs m) (txt_val m) (txt_segment m ++ [c]) (txt_ret m).
Proof. intros. unfold appendSplit. by rewrite (proj2 (Z.ltb_ge _ _)) by lia. Qed.

Lemma txt_val_number p :
  0 <= p < 256 ->
  u8 (u8 (u8 (u8 (u8 (u8 (0 * 10) + (48 + p / 100 - 48)) * 10) + (48 + (p / 10) mod 10 - 48)) * 10)
      + (48 + p mod 10 - 48)) = p.
Proof.
  intros Hp.
  assert (Forall (fun k => let p := Z.of_nat k in
    u8 (u8 (u8 (u8 (u8 (u8 (0 * 10) + (48 + p / 100 - 48)) * 10) + (48 + (p / 10) mod 10 - 48)) * 10)
      + (48 + p mod 10 - 48)) = p) (seq 0 256)) as Hall by by_decide.
  rewrite Forall_seq in Hall. specialize (Hall (Z.to_nat p)). cbv zeta in Hall.
  rewrite Z2Nat.id in Hall by lia. apply Hall. lia.
Qed.

Lemma txt_digit3_digits p :
  0 <= p < 256 -> c_isdigit (48 + p / 100) = true /\ c_isdigit (48 + (p / 10) mod 10) = true
                  /\ c_isdigit (48 + p mod 10) = true.
Proof.
  intros Hp. unfold c_isdigit.
  pose proof (Z.mod_pos_bound (p / 10) 10 ltac:(lia)). pose proof (Z.mod_pos_bound p 10 ltac:(lia)).
  assert (0 <= p / 100 < 10) by (split; [apply Z.div_pos; lia|apply Z.div_lt_upper_bound; lia]). lia.
Qed.

Lemma txt_run_byte m ret cur p :
  txt_at m ret cur -> is_byte p -> zlen cur <= 254 ->
  exists m', txt_run m (txtEscape_byte p) = Ok m' /\ txt_at m' ret (cur ++ [p]).
Proof.
  intros (Hret & Hseg & Hval & Hcs) Hp Hlen. unfold is_byte in Hp.
  assert (forall c, txt_step m c = (let m := txt_leave m in
      if c =? 34 then Ok (txt_set_cs TxtAfterQuote m)
      else if c =? 92 then Ok (txt_set_cs TxtBackslash m)
      else Ok (txt_set_cs TxtInQuote (appendSplit c m)))) as Hstep.
  { intros c. unfold txt_step. by destruct Hcs as [-> | ->]. }
  set (m1 := txt_leave m) in *. unfold txtEscape_byte.
  destruct (_ || _) eqn:E.
  - (* a decimal escape *)
    cbn [txt_run]. rewrite Hstep. cbn [Z.eqb Pos.eqb mbind result_bind txt_digit3 txt_run].
    destruct (txt_digit3_digits p Hp) as (H1 & H2 & H3).
    unfold txt_step. cbn [txt_cs txt_set_cs]. rewrite H1. cbn [mbind result_bind].
    cbn [txt_cs txt_set_cs]. rewrite H2. cbn [mbind result_bind]. cbn [txt_cs txt_set_cs]. rewrite H3.
    cbn [mbind result_bind]. eexists. split; [done|].
    unfold txt_at, txt_leave. cbn [txt_cs txt_set_cs txt_val txt_number txt_segment txt_ret]. rewrite Hval.
    rewrite txt_val_number by done. rewrite appendSplit_short by (cbn [txt_segment txt_set_cs txt_number]; rewrite Hseg; lia).
    cbn [txt_ret txt_segment txt_val txt_cs txt_set_cs txt_number]. rewrite Hret, Hseg. split_and!; auto.
  - destruct ((p =? 34) || (p =? 92)) eqn:E2.
    + (* a backslash and the character *)
      cbn [txt_run]. rewrite Hstep. cbn [Z.eqb Pos.eqb mbind result_bind].
      unfold txt_step. cbn [txt_cs txt_set_cs].
      assert (c_isdigit p = false) as -> by (unfold c_isdigit; lia). cbn [mbind result_bind].
      rewrite appendSplit_short by (cbn [txt_set_cs txt_segment]; rewrite Hseg; lia).
      eexists. split; [done|]. cbn [txt_set_cs txt_ret txt_segment txt_val txt_cs]. rewrite Hseg.
      unfold txt_at, txt_leave. cbn [txt_set_cs txt_ret txt_segment txt_val txt_cs]. auto.
    + (* the character itself *)
      cbn [txt_run]. rewrite Hstep. rewrite (proj2 (Z.eqb_neq p 34)), (proj2 (Z.eqb_neq p 92)) by lia.
      cbn [mbind result_bind]. rewrite appendSplit_short by (rewrite Hseg; lia).
      eexists. split; [done|]. rewrite Hseg.
      unfold txt_at, txt_leave. cbn [txt_set_cs txt_ret txt_segment txt_val txt_cs]. auto.
Qed.

Lemma txt_run_escaped m ret cur s :
  txt_at m ret cur -> bytes_ok s -> zlen cur + zlen s <= 255 ->
  exists m', txt_run m (txtEscape s) = Ok m' /\ txt_at m' ret (cur ++ s).
Proof.
  intros Hm Hs. revert m cur Hm. induction Hs as [|p s Hp Hs IH]; intros m cur Hm Hlen.
  - exists m. by rewrite app_nil_r.
  - rewrite zlen_cons in Hlen. pose proof (zlen_nonneg s).
    destruct (txt_run_byte m ret cur p Hm Hp) as (m1 & H1 & Hm1); [lia|].
    destruct (IH m1 (cur ++ [p]) Hm1) as (m2 & H2 & Hm2).
    { rewrite zlen_app, zlen_cons, zlen_nil. lia. }
    exists m2. unfold txtEscape in *. cbn [map concat]. rewrite txt_run_app, H1. cbn [mbind result_bind].
    rewrite H2. by rewrite <- app_assoc in Hm2.
Qed.

Lemma txt_run_quoted m ret s :
  txt_cs m = TxtInQuote -> txt_ret m = ret -> txt_segment m = [] -> txt_val m = 0 ->
  bytes_ok s -> zlen s <= 255 ->
  exists m', txt_run m (txtEscape s ++ [34]) = Ok m' /\ txt_cs m' = TxtAfterQuote
    /\ txt_ret m' = ret /\ txt_segment m' = s /\ txt_val m' = 0.
Proof.
  intros Hcs Hret Hseg Hval Hs Hlen.
  destruct (txt_run_escaped m ret [] s) as (m1 & H1 & (Hr1 & Hs1 & Hv1 & Hc1)); [|done|done|].
  { unfold txt_at, txt_leave. rewrite Hcs. auto. }
  rewrite txt_run_app, H1. cbn [mbind result_bind txt_run]. unfold txt_step.
  destruct Hc1 as [-> | ->]; cbn [mbind result_bind Z.eqb Pos.eqb]; eexists; split; [done| |done|];
    cbn [txt_set_cs txt_cs txt_ret txt_segment txt_val]; auto.
Qed.

Lemma txt_run_strings m ret ss :
  txt_cs m = TxtInQuote -> txt_ret m = ret -> txt_segment m = [] -> txt_val m = 0 ->
  ss <> [] -> Forall (fun s => bytes_ok s /\ zlen s <= 255) ss ->
  exists m', txt_run m (zdrop 1 (quoted_strings ss)) = Ok m' /\ txt_cs m' = TxtAfterQuote
             /\ txt_ret (segmentEnd m') = ret ++ ss.
Proof.
  intros Hcs Hret Hseg Hval Hne Hss. revert m ret Hcs Hret Hseg Hval Hne.
  induction Hss as [|s ss [Hs Hl] Hss IH]; intros m ret Hcs Hret Hseg Hval Hne; [done|].
  destruct (txt_run_quoted m ret s) as (m1 & H1 & Hc1 & Hr1 & Hs1 & Hv1); try done.
  destruct ss as [|s2 ss].
  - exists m1. cbn [quoted_strings]. unfold quoted. change (zdrop 1 ([34] ++ ?x)) with x.
    split_and!; [exact H1|done|]. simpl. by rewrite Hr1, Hs1.
  - rewrite quoted_strings_cons. unfold quoted at 1.
    change (zdrop 1 (([34] ++ txtEscape s ++ [34]) ++ [32] ++ quoted_strings (s2 :: ss)))
      with ((txtEscape s ++ [34]) ++ [32] ++ quoted_strings (s2 :: ss)).
    rewrite txt_run_app, H1. cbn [mbind result_bind].
    assert (exists rest, quoted_strings (s2 :: ss) = 34 :: rest /\ rest = zdrop 1 (quoted_strings (s2 :: ss)))
      as (rest & Hq & Hrest) by (destruct ss; simpl; by eexists).
    assert (txt_step m1 32 = Ok (txt_set_cs TxtAfterSpace m1)) as Hsp by (unfold txt_step; by rewrite Hc1).
    rewrite Hq. cbn [app txt_run]. rewrite Hsp. cbn [mbind result_bind].
    change (txt_step (txt_set_cs TxtAfterSpace m1) 34)
      with (Ok (txt_set_cs TxtInQuote (segmentBegin (segmentEnd (txt_set_cs TxtAfterSpace m1))))).
    cbn [mbind result_bind].
    destruct (IH (txt_set_cs TxtInQuote (segmentBegin (segmentEnd (txt_set_cs TxtAfterSpace m1)))) (ret ++ [s]))
      as (m2 & H2 & Hc2 & Hr2); try done.
    { simpl. by rewrite Hr1, Hs1. }
    exists m2. rewrite Hrest. split_and!; [done|done|]. by rewrite Hr2, <- app_assoc.
Qed.

(** character strings of up to 255 bytes, written out with quotes and escapes
    and separated by spaces, are cut back into exactly the strings they were,
    whatever bytes they hold. *)
Theorem segmentDNSText_quoted (ss : list bytes) :
  ss <> [] -> Forall (fun s => bytes_ok s /\ zlen s <= 255) ss ->
  segmentDNSText (quoted_strings ss) = Ok ss.
Proof.
  intros Hne Hss. unfold segmentDNSText.
  assert (exists rest, quoted_strings ss = 34 :: rest /\ rest = zdrop 1 (quoted_strings ss))
    as (rest & Hq & Hrest) by (destruct ss as [|? [|]]; [done|simpl; by eexists..]).
  rewrite Hq. cbn [txt_run txt_step txt_cs Z.eqb Pos.eqb mbind result_bind].
  destruct (txt_run_strings (txt_set_cs TxtInQuote (segmentBegin (mkTxt TxtStart 0 [] []))) [] ss)
    as (m & Hm & Hc & Hr); try done.
  rewrite <- Hrest in Hm. rewrite Hm. cbn [mbind result_bind]. by rewrite Hc, Hr.
Qed.

Lemma segmentDNSText_quoted_witness :
  segmentDNSText (quoted_strings [[34; 92; 0; 200]; []; bs "v=spf1 -all"])
  = Ok [[34; 92; 0; 200]; []; bs "v=spf1 -all"].
Proof. apply segmentDNSText_quoted; [done|by_decide]. Defined.
