(* ===== verification/Writer.v ===== *)
(** * Writing packets

    [GenericDNSPacketWriter] of [pdns/dnswriter.hh] and [pdns/dnswriter.cc],
    name compression included, and the rewriting of packets of
    [pdns/dnsparser.cc] that is built on it. *)

From S2P Require Import Prelude Chars Dns Names NamesWire Mangler Reader TxtText.

#[local] Open Scope Z_scope.

(** ** The writer *)

Record GenericDNSPacketWriter : Type := mkWriter {
  w_content : bytes;
  w_namepositions : list Z;
  w_qname : DNSName;
  w_sor : Z;
  w_rollbackmarker : Z;
  w_truncatemarker : Z;
  w_recordplace : Place;
  w_canonic : bool;
  w_lowerCase : bool;
  w_compress : bool;
}.

Definition set_content (c : bytes) (w : GenericDNSPacketWriter) : GenericDNSPacketWriter :=
  mkWriter c (w_namepositions w) (w_qname w) (w_sor w) (w_rollbackmarker w) (w_truncatemarker w)
    (w_recordplace w) (w_canonic w) (w_lowerCase w) (w_compress w).

Definition set_sor (s : Z) (w : GenericDNSPacketWriter) : GenericDNSPacketWriter :=
  mkWriter (w_content w) (w_namepositions w) (w_qname w) s (w_rollbackmarker w) (w_truncatemarker w)
    (w_recordplace w) (w_canonic w) (w_lowerCase w) (w_compress w).

Definition add_nameposition (p : Z) (w : GenericDNSPacketWriter) : GenericDNSPacketWriter :=
  mkWriter (w_content w) (w_namepositions w ++ [p]) (w_qname w) (w_sor w) (w_rollbackmarker w)
    (w_truncatemarker w) (w_recordplace w) (w_canonic w) (w_lowerCase w) (w_compress w).

Definition set_compress (c : bool) (w : GenericDNSPacketWriter) : GenericDNSPacketWriter :=
  mkWriter (w_content w) (w_namepositions w) (w_qname w) (w_sor w) (w_rollbackmarker w)
    (w_truncatemarker w) (w_recordplace w) (w_canonic w) (w_lowerCase w) c.

Definition set_rollbackmarker (m : Z) (w : GenericDNSPacketWriter) : GenericDNSPacketWriter :=
  mkWriter (w_content w) (w_namepositions w) (w_qname w) (w_sor w) m (w_truncatemarker w)
    (w_recordplace w) (w_canonic w) (w_lowerCase w) (w_compress w).

Definition set_truncatemarker (m : Z) (w : GenericDNSPacketWriter) : GenericDNSPacketWriter :=
  mkWriter (w_content w) (w_namepositions w) (w_qname w) (w_sor w) (w_rollbackmarker w) m
    (w_recordplace w) (w_canonic w) (w_lowerCase w) (w_compress w).

Definition set_recordplace (p : Place) (w : GenericDNSPacketWriter) : GenericDNSPacketWriter :=
  mkWriter (w_content w) (w_namepositions w) (w_qname w) (w_sor w) (w_rollbackmarker w)
    (w_truncatemarker w) p (w_canonic w) (w_lowerCase w) (w_compress w).

Definition setCanonic (v : bool) (w : GenericDNSPacketWriter) : GenericDNSPacketWriter :=
  mkWriter (w_content w) (w_namepositions w) (w_qname w) (w_sor w) (w_rollbackmarker w)
    (w_truncatemarker w) (w_recordplace w) v (w_lowerCase w) (w_compress w).

Definition setLowercase (v : bool) (w : GenericDNSPacketWriter) : GenericDNSPacketWriter :=
  mkWriter (w_content w) (w_namepositions w) (w_qname w) (w_sor w) (w_rollbackmarker w)
    (w_truncatemarker w) (w_recordplace w) (w_canonic w) v (w_compress w).

Abbreviation W := (SM GenericDNSPacketWriter).

(** [d_content.insert(d_content.end(), ...)]. *)
Definition append (b : bytes) : W unit := sm_modify (fun w => set_content (w_content w ++ b) w).

(** ** Integers and blobs *)

Definition w_xfr48BitInt (val : Z) : W unit :=
  _ ← sm_throw_if (negb (Z.shiftr val 48 =? 0)) (runtime_error "Value too large to fit in 48 bits");
  append (be16 (Z.land (Z.shiftr val 32) 65535) ++ be32 (Z.land val 4294967295)).

Definition w_xfrNodeOrLocatorID (val : bytes) : W unit := append val.

Definition w_xfr32BitInt (val : Z) : W unit :=
  _ ← sm_throw_if (2 ^ 32 - 1 <? val) (runtime_error "Value too large to fit in 32 bits");
  append (be32 val).

Definition w_xfr16BitInt (val : Z) : W unit :=
  _ ← sm_throw_if (65535 <? val) (runtime_error "Value too large to fit in 16 bits");
  append (be16 val).

Definition w_xfr8BitInt (val : Z) : W unit :=
  _ ← sm_throw_if (255 <? val) (runtime_error "Value too large to fit in 8 bits");
  append [val].

Definition w_xfrBlob (blob : bytes) : W unit := append blob.

Fixpoint append_segments (lenField : bool) (segments : list bytes) : W unit :=
  match segments with
  | [] => mret tt
  | str :: segments' =>
      _ ← (if lenField then append [u8 (zlen str)] else mret tt);
      _ ← append str;
      append_segments lenField segments'
  end.

Definition w_xfrText (text : bytes) (lenField : bool) : W unit :=
  if bool_decide (text = []) then append [0]
  else segments ← sm_lift (segmentDNSText text); append_segments lenField segments.

Definition w_xfrUnquotedText (text : bytes) (lenField : bool) : W unit :=
  if bool_decide (text = []) then append [0]
  else
    _ ← (if lenField then
           _ ← sm_throw_if (255 <? zlen text) (runtime_error "invalid unquoted text length");
           append [zlen text]
         else mret tt);
    append text.

(** ** Name compression *)

Definition maxCompressionOffset : Z := 16384.

(** [push_back] on a [static_vector<uint16_t, 34>]: [None] is [std::bad_alloc]. *)
Definition push_position (l : list Z) (p : Z) : option (list Z) :=
  if 34 <=? zlen l then None else Some (l ++ [p]).

(** The positions of the labels in the storage of the name. *)
Fixpoint positions_in_name (fuel : nat) (raw : bytes) (pos : Z) (acc : list Z) : option (list Z) :=
  match fuel with
  | O => Some acc
  | S fuel' =>
      if pos <? zlen raw then
        let len := byte_at raw pos in
        if len =? 0 then Some acc
        else match push_position acc pos with
             | None => None
             | Some acc' => positions_in_name fuel' raw (pos + len + 1) acc'
             end
      else Some acc
  end.

(** The positions of the labels of the name written at [iter], pointers
    followed.  At most 34 labels are pushed and 50 pointers followed, so the
    fuel of [lookupName] is enough. *)
Fixpoint positions_in_packet (fuel : nat) (content : bytes) (iter : Z) (pointerQuota : Z) (acc : list Z)
  : option (list Z) :=
  match fuel with
  | O => Some acc
  | S fuel' =>
      if (iter <? zlen content) && (0 <? pointerQuota) then
        let labelLength := byte_at content iter in
        let currentPos := u16 iter in
        if negb (Z.land labelLength 192 =? 0) then
          let npos := u16 (256 * Z.land labelLength 63 + byte_at content (iter + 1)) in
          if (currentPos <=? npos) || (npos <? sizeof_dnsheader) then Some acc
          else positions_in_packet fuel' content npos (pointerQuota - 1) acc
        else if labelLength =? 0 then Some acc
        else if maxCompressionOffset <=? currentPos then Some acc
        else
          match push_position acc currentPos with
          | None => None
          | Some acc' => positions_in_packet fuel' content (iter + labelLength + 1) pointerQuota acc'
          end
      else Some acc
  end.

(** The comparison from the last label on.  The lists are the reversed
    positions; [inl p] when the whole name was matched, at [p], otherwise the
    length matched and the last position that matched, if any. *)
Fixpoint match_labels (raw content : bytes) (inName inPacket : list Z) (cmatchlen : Z) (last : option Z)
  : Z + (Z * option Z) :=
  match inName, inPacket with
  | n :: inName', p :: inPacket' =>
      let nlen := byte_at raw n in
      let plen := byte_at content p in
      if negb (nlen =? plen) then inr (cmatchlen, last)
      else if negb (pdns_ilexicographical_compare_three_way (zsub raw (n + 1) nlen)
                      (zsub content (p + 1) nlen) =? 0) then inr (cmatchlen, last)
      else
        let cmatchlen := cmatchlen + (nlen + 1) in
        if cmatchlen =? zlen raw then inl p
        else match_labels raw content inName' inPacket' cmatchlen (Some p)
  | _, _ => inr (cmatchlen, last)
  end.

(** The loop over the known names: the position found and the length matched. *)
Fixpoint lookup_loop (raw content : bytes) (positionsInName : list Z) (namepositions : list Z)
    (bestpos matchLen : Z) : Z * Z :=
  match namepositions with
  | [] => (bestpos, matchLen)
  | positionInPacket :: rest =>
      match positions_in_packet 100 content positionInPacket 50 [] with
      | None => lookup_loop raw content positionsInName rest bestpos matchLen
      | Some positionsInPacket =>
          match match_labels raw content (reverse positionsInName) (reverse positionsInPacket) 1 None with
          | inl p => (p, zlen raw)
          | inr (cmatchlen, Some p) =>
              if matchLen <? cmatchlen
              then lookup_loop raw content positionsInName rest p cmatchlen
              else lookup_loop raw content positionsInName rest bestpos matchLen
          | inr (_, None) => lookup_loop raw content positionsInName rest bestpos matchLen
          end
      end
  end.

Definition lookupName (w : GenericDNSPacketWriter) (name : DNSName) : Z * Z :=
  let raw := d_storage name in
  match positions_in_name (S (length raw)) raw 0 [] with
  | None => (0, 0)
  | Some positionsInName => lookup_loop raw (w_content w) positionsInName (w_namepositions w) 0 0
  end.

Definition note_position : W unit :=
  sm_modify (fun w => let pos := zlen (w_content w) in
                      if pos <? maxCompressionOffset then add_nameposition pos w else w).

Definition w_xfrName (name : DNSName) (compress : bool) : W unit :=
  w ← sm_get (fun w => w);
  let compress := if w_canonic w || w_lowerCase w then false else compress in
  if name_empty name || isRoot name then append [0]
  else
    let '(li, matchlen) := if w_compress w && compress then lookupName w name else (0, 0) in
    if w_compress w && compress && negb (li =? 0) && (li <? maxCompressionOffset) then
      let dns := d_storage name in
      _ ← (if negb (matchlen =? zlen dns) then note_position else mret tt);
      _ ← append (ztake (zlen dns - matchlen) dns);
      let offset := Z.lor li 49152 in
      append [Z.shiftr offset 8; Z.land offset 255]
    else
      _ ← note_position;
      append (if w_lowerCase w then d_storage (makeLowerCase name) else d_storage name).

(** ** Records *)

(** [htons(ntohs(count) + 1)] on the count at [at_] in the header. *)
Definition bump_count (at_ : Z) (content : bytes) : bytes :=
  zwrite content at_ (be16 (u16 (get16 content at_ + 1))).

Definition count_offset (p : Place) : Z :=
  match p with QUESTION => 4 | ANSWER => 6 | AUTHORITY => 8 | ADDITIONAL => 10 end.

Definition commit : W unit :=
  w ← sm_get (fun w => w);
  if w_sor w =? 0 then mret tt
  else
    _ ← sm_throw_if ((w_sor w <? 2) || (zlen (w_content w) <? w_sor w))
          (range_error "Invalid start of record when trying to build a packet");
    _ ← sm_throw_if (65535 <? zlen (w_content w)) (range_error "Trying to build a packet larger than 65535 bytes");
    let rlen := u16 (zlen (w_content w) - w_sor w) in
    sm_modify (fun w =>
      set_sor 0 (set_content (bump_count (count_offset (w_recordplace w))
                                (zwrite (w_content w) (w_sor w - 2) (be16 rlen))) w)).

Definition startRecord (name : DNSName) (qtype ttl qclass : Z) (place : Place) (compress : bool) : W unit :=
  _ ← sm_modify (set_compress compress);
  _ ← commit;
  w ← sm_get (fun w => w);
  _ ← sm_throw_if (65535 <? zlen (w_content w)) (range_error "Trying to build a packet larger than 65535 bytes");
  _ ← sm_modify (set_rollbackmarker (zlen (w_content w)));
  _ ← (if compress && negb (isRoot name) && name_eqb (w_qname w) name then append [192; 12]
       else w_xfrName name compress);
  _ ← w_xfr16BitInt qtype;
  _ ← w_xfr16BitInt qclass;
  _ ← w_xfr32BitInt ttl;
  _ ← w_xfr16BitInt 0;
  _ ← sm_modify (set_recordplace place);
  sm_modify (fun w => set_sor (zlen (w_content w)) w).

(** The constructor. *)
Definition writer_start (qname : DNSName) (qtype qclass opcode : Z) : result GenericDNSPacketWriter :=
  let header := header_bytes (mkHeader 0 false (Z.land opcode 15) false false false false false false false 0 1 0 0 0) in
  let w := mkWriter header [] qname 0 0 0 QUESTION false false false in
  match (_ ← w_xfrName qname false; _ ← w_xfr16BitInt qtype; w_xfr16BitInt qclass) w with
  | (_, Throw e) => Throw e
  | (w, Ok _) =>
      _ ← throw_if (65535 <? zlen (w_content w)) (range_error "Trying to build a packet larger than 65535 bytes");
      Ok (set_truncatemarker (zlen (w_content w)) w)
  end.

(** [getHeader()->rcode = extRCode], a four bit field. *)
Definition set_rcode (rcode : Z) : W unit :=
  sm_modify (fun w =>
    let b := byte_at (w_content w) 3 in
    set_content (zwrite (w_content w) 3 [Z.land b 240 + Z.land rcode 15]) w).

Fixpoint append_options (options : list (Z * bytes)) : W unit :=
  match options with
  | [] => mret tt
  | (code, val) :: options' =>
      _ ← w_xfr16BitInt code;
      _ ← w_xfr16BitInt (zlen val);
      _ ← w_xfrBlob val;
      append_options options'
  end.

Definition addOpt (udpsize extRCode ednsFlags : Z) (options : list (Z * bytes)) (version : Z) : W unit :=
  _ ← (if negb (extRCode =? 0) then set_rcode extRCode else mret tt);
  let ttl := (u8 (Z.shiftr extRCode 4) * 256 + version) * 65536 + ednsFlags in
  _ ← startRecord g_rootdnsname QType.OPT ttl udpsize ADDITIONAL false;
  append_options options.

Definition getRecordPayload (w : GenericDNSPacketWriter) : bytes := zdrop (w_sor w) (w_content w).

Definition getWireFormatContent (w : GenericDNSPacketWriter) : bytes :=
  zdrop (w_rollbackmarker w) (w_content w).

Definition w_size (w : GenericDNSPacketWriter) : Z := u32 (zlen (w_content w)).

(** [resize]: to a smaller or larger size, with zeros. *)
Definition resize (n : Z) (c : bytes) : bytes := ztake n c ++ replicate (Z.to_nat (n - zlen c)) 0.

(** The positions of names are not forgotten. *)
Definition rollback : W unit :=
  sm_modify (fun w => set_sor 0 (set_content (resize (w_rollbackmarker w) (w_content w)) w)).

Definition truncate : W unit :=
  sm_modify (fun w =>
    set_content (zwrite (resize (w_truncatemarker w) (w_content w)) 6 (be16 0 ++ be16 0 ++ be16 0)) w).

Definition getSizeWithOpts (w : GenericDNSPacketWriter) (options : list (Z * bytes)) : Z :=
  fold_left (fun r o => r + 4 + zlen (snd o)) options (w_size w + 1 + 2 + 2 + 4 + 2).

(** ** Rewriting a packet without some record types *)

Definition safeTypes : list Z :=
  [QType.A; QType.AAAA; QType.DHCID; QType.TXT; QType.OPT; QType.HINFO; QType.DNSKEY; QType.CDNSKEY;
   QType.DS; QType.CDS; QType.DLV; QType.SSHFP; QType.KEY; QType.CERT; QType.TLSA; QType.SMIMEA;
   QType.OPENPGPKEY; QType.SVCB; QType.HTTPS; QType.NSEC3; QType.CSYNC; QType.NSEC3PARAM; QType.LOC;
   QType.NID; QType.L32; QType.L64; QType.EUI48; QType.EUI64; QType.URI; QType.CAA].

(** Runs a method of the reader or of the writer inside the pair of both. *)
Definition on_reader {A} (m : SM PacketReader A) : SM (PacketReader * GenericDNSPacketWriter) A := on_fst m.

Definition on_writer {A} (m : W A) : SM (PacketReader * GenericDNSPacketWriter) A :=
  fun '(r, w) => let '(w', a) := m w in ((r, w'), a).

(** One of the three copying loops; [Some e] is an early return. *)
Definition copy_section (lim : name_limits) (qtypes : list Z) (count : Z) (place : Place)
  : SM (PacketReader * GenericDNSPacketWriter) (option Z) :=
  loopM (Z.to_nat count) (fun _ =>
    rrname ← on_reader (getName lim);
    ah ← on_reader getDnsrecordheader;
    blob ← on_reader xfrBlob_rest;
    if bool_decide (ah_type ah ∈ qtypes) then mret None
    else if negb (bool_decide (ah_type ah ∈ safeTypes)) then mret (Some EIO)
    else
      _ ← on_writer (startRecord rrname (ah_type ah) (ah_ttl ah) (ah_class ah) place true);
      _ ← on_writer (w_xfrBlob blob);
      mret None) 0.

(** The flags of the header, all but the opcode and the unused bit, are copied. *)
Definition copy_flags (from : bytes) (w : GenericDNSPacketWriter) : GenericDNSPacketWriter :=
  let b2 := byte_at from 2 in
  let b3 := byte_at from 3 in
  let c := w_content w in
  set_content (zwrite c 0 [byte_at from 0; byte_at from 1;
                           Z.land b2 135 + Z.land (byte_at c 2) 120;
                           Z.land b3 191 + Z.land (byte_at c 3) 64]) w.

(** The new content and the return code. *)
Definition rewritePacketWithoutRecordTypes (lim : name_limits) (initialPacket : bytes) (qtypes : list Z)
  : bytes * Z :=
  if zlen initialPacket <? sizeof_dnsheader then ([], EINVAL)
  else
    let dh := header_of initialPacket in
    if dh_qdcount dh =? 0 then ([], ENOENT)
    else
      let run : result bytes + Z :=
        match PacketReader_make initialPacket sizeof_dnsheader false false with
        | Throw e => inl (Throw e)
        | Ok pr =>
            match (rrname ← getName lim; rrtype ← r_get16BitInt; rrclass ← r_get16BitInt;
                   mret (rrname, rrtype, rrclass)) pr with
            | (_, Throw e) => inl (Throw e)
            | (pr, Ok (rrname, rrtype, rrclass)) =>
                match writer_start rrname rrtype rrclass (dh_opcode dh) with
                | Throw e => inl (Throw e)
                | Ok pw =>
                    match (
                      _ ← on_reader (loopM (Z.to_nat (dh_qdcount dh - 1)) (fun _ =>
                            _ ← getName lim; _ ← r_get16BitInt; _ ← r_get16BitInt; mret (None (A := unit))) 0);
                      an ← copy_section lim qtypes (dh_ancount dh) ANSWER;
                      match an with
                      | Some e => mret (Some e)
                      | None =>
                          ns ← copy_section lim qtypes (dh_nscount dh) AUTHORITY;
                          match ns with
                          | Some e => mret (Some e)
                          | None =>
                              ar ← copy_section lim qtypes (dh_arcount dh) ADDITIONAL;
                              match ar with
                              | Some e => mret (Some e)
                              | None => _ ← on_writer commit; mret None
                              end
                          end
                      end) (pr, copy_flags initialPacket pw) with
                    | (_, Throw e) => inl (Throw e)
                    | (_, Ok (Some e)) => inr e
                    | ((_, pw), Ok None) => inl (Ok (w_content pw))
                    end
                end
            end
        end in
      match run with
      | inl (Ok newContent) => (newContent, 0)
      | inl (Throw _) => ([], EIO)
      | inr e => ([], e)
      end.

Definition clearDNSPacketRecordTypes (lim : name_limits) (packet : bytes) (qtypes : list Z) : bytes :=
  if negb (checkIfPacketContainsRecords packet qtypes) then packet
  else
    let '(newContent, result_) := rewritePacketWithoutRecordTypes lim packet qtypes in
    if result_ =? 0 then newContent else packet.
