(* ===== verification/Compression.v ===== *)
(** * Name compression

    The invariant of the packet writer: every position it remembers is that of
    a name, whatever is still to be written over the header and over the length
    of the record under construction.  Names compressed against such positions
    are read back by the parser. *)

From S2P Require Import Prelude Chars Dns Names NamesFacts NamesWire Reader TxtText Writer.

#[local] Open Scope Z_scope.

(** ** Masked content

    A byte that may still change is masked by a value that is no byte; the
    content refines the masked content. *)

Definition masked : Z := 300.

Definition refines (mv content : bytes) : Prop := Forall2 (fun a b => a = masked \/ a = b) mv content.

Lemma refines_zlen mv c : refines mv c -> zlen mv = zlen c.
Proof. intros H. unfold zlen. by rewrite (Forall2_length _ _ _ H). Qed.

Lemma refines_app mv c mv' c' : refines mv c -> refines mv' c' -> refines (mv ++ mv') (c ++ c').
Proof. apply Forall2_app. Qed.

Lemma refines_refl c : refines c c.
Proof. induction c; constructor; auto. Qed.

Lemma refines_zdrop p mv c : refines mv c -> refines (zdrop p mv) (zdrop p c).
Proof. apply Forall2_drop. Qed.

(** Unmasked bytes at the front are there in the content. *)
Lemma refines_prefix a rest c :
  refines (a ++ rest) c -> Forall (fun x => x <> masked) a -> exists rest', c = a ++ rest' /\ refines rest rest'.
Proof.
  intros H Ha. revert c H. induction Ha as [|x a Hx Ha IH]; intros c H; [eauto|].
  inversion H as [|? y ? c' [Hm|Heq] H']; subst; [done|].
  destruct (IH c' H') as (rest' & -> & Hr). by exists rest'.
Qed.

Lemma not_masked_enc ls : valid_labels ls -> Forall (fun x => x <> masked) (enc_labels ls).
Proof.
  induction 1 as [|l ls [Hl Hb] Hv IH]; [constructor|]. rewrite enc_labels_cons. constructor.
  - unfold masked. lia.
  - apply Forall_app. split; [|done]. eapply Forall_impl; [exact Hb|]. unfold is_byte, masked. lia.
Qed.

Lemma refines_zat mv c p b : refines mv c -> zat mv p = Some b -> b <> masked -> zat c p = Some b.
Proof.
  intros H Hp Hb. unfold zat in *. destruct (p <? 0); [done|].
  destruct (Forall2_lookup_l _ _ _ _ _ H Hp) as (y & Hy & [Hm | <-]); [done|exact Hy].
Qed.

Lemma written_name_refines low mv c p ls k e :
  0 <= low -> refines mv c -> written_name low mv p ls k e -> written_name low c p ls k e.
Proof.
  intros Hlow Hr. induction 1 as [p ls rest Hp Hv Hd|p ls hi lo rest more k e b Hp Hv Hhi Hlo Hd Hlt Hat Hb Hw IH].
  - pose proof (refines_zdrop p _ _ Hr) as Hr'. rewrite Hd in Hr'. rewrite cons_middle, app_assoc in Hr'.
    apply refines_prefix in Hr' as (rest' & Hc & _).
    + rewrite <- app_assoc in Hc. by eapply written_root.
    + apply Forall_app. split; [by apply not_masked_enc|]. by repeat constructor.
  - pose proof (refines_zdrop p _ _ Hr) as Hr'. rewrite Hd in Hr'.
    change (192 + hi :: lo :: rest) with ([192 + hi; lo] ++ rest) in Hr'. rewrite app_assoc in Hr'.
    apply refines_prefix in Hr' as (rest' & Hc & _).
    + rewrite <- app_assoc in Hc. eapply (written_pointer _ _ _ _ hi lo rest'); try done.
      eapply refines_zat; [done|done|]. unfold masked. lia.
    + apply Forall_app. split; [by apply not_masked_enc|]. repeat constructor; unfold masked; lia.
Qed.

(** Writing more at the end changes no name. *)
Lemma written_name_app low v x p ls k e :
  0 <= low -> written_name low v p ls k e -> written_name low (v ++ x) p ls k e.
Proof.
  assert (forall p a b rest, 0 <= p -> zdrop p v = a ++ b :: rest -> zdrop p (v ++ x) = a ++ b :: rest ++ x) as Hz.
  { intros p' a b rest Hp' Hd. assert (p' <= zlen v).
    { destruct (Z.le_gt_cases p' (zlen v)); [done|]. rewrite zdrop_all in Hd by lia. by destruct a. }
    unfold zdrop in *. rewrite drop_app_le by (unfold zlen in *; lia). rewrite Hd.
    by rewrite <- app_assoc. }
  intros Hlow. induction 1 as [p ls rest Hp Hv Hd|p ls hi lo rest more k e b Hp Hv Hhi Hlo Hd Hlt Hat Hb Hw IH].
  - eapply written_root; [done|done|]. apply Hz; [lia|done].
  - eapply (written_pointer _ _ _ _ hi lo); try done.
    + rewrite (Hz p _ _ _ ltac:(lia) Hd). done.
    + rewrite zat_app_l; [done|]. apply zat_Some_range in Hat. lia.
Qed.

(** ** Names the writer remembers *)

(** As [written_name], with a label in front of every pointer. *)
Inductive compressed (mv : bytes) : Z -> list bytes -> nat -> Prop :=
| compressed_root p ls rest :
    12 <= p -> valid_labels ls -> zdrop p mv = enc_labels ls ++ 0 :: rest -> ls <> [] ->
    compressed mv p ls 0
| compressed_pointer p ls hi lo rest more k :
    12 <= p -> valid_labels ls -> 0 <= hi < 64 -> 0 <= lo < 256 -> ls <> [] ->
    zdrop p mv = enc_labels ls ++ 192 + hi :: lo :: rest -> hi * 256 + lo < p ->
    compressed mv (hi * 256 + lo) more k ->
    compressed mv p (ls ++ more) (S k).

Lemma compressed_valid mv p ls k : compressed mv p ls k -> valid_labels ls /\ ls <> [] /\ 12 <= p.
Proof.
  induction 1 as [|p ls hi lo rest more k Hp Hv _ _ Hne _ _ Hc (Hv2 & Hne2 & _)]; [done|].
  split_and!; [by apply Forall_app|by destruct ls|done].
Qed.

(** The first label of a remembered name. *)
Lemma compressed_head mv p ls k :
  compressed mv p ls k ->
  exists l ls' rest, ls = l :: ls' /\ zdrop p mv = zlen l :: l ++ rest.
Proof.
  destruct 1 as [p ls rest Hp Hv Hd Hne|p ls hi lo rest more k Hp Hv Hhi Hlo Hne Hd Hlt Hc];
    (destruct ls as [|l ls]; [done|]).
  - exists l, ls, (enc_labels ls ++ 0 :: rest). split; [done|]. rewrite Hd, enc_labels_cons. simpl.
    by rewrite <- app_assoc.
  - exists l, (ls ++ more), (enc_labels ls ++ 192 + hi :: lo :: rest). split; [done|].
    rewrite Hd, enc_labels_cons. simpl. by rewrite <- app_assoc.
Qed.

Lemma compressed_written mv p ls k :
  compressed mv p ls k -> exists e, written_name 12 mv p ls k e.
Proof.
  induction 1 as [p ls rest Hp Hv Hd Hne|p ls hi lo rest more k Hp Hv Hhi Hlo Hne Hd Hlt Hc [e IH]].
  - eexists. by eapply written_root.
  - destruct (compressed_head _ _ _ _ Hc) as (l & ls' & rest' & Hls & Hd').
    destruct (compressed_valid _ _ _ _ Hc) as (Hv' & _ & Hp').
    rewrite Hls in Hv'. inversion_clear Hv' as [|?? [Hl _] _].
    destruct (zdrop_head mv (hi * 256 + lo) _ _ ltac:(lia) Hd') as (Hat & _ & _).
    eexists. eapply (written_pointer _ _ _ _ hi lo); try done. lia.
Qed.

(** Dropping the first label of a remembered name. *)
Lemma compressed_tail mv p l ls k :
  compressed mv p (l :: ls) k -> ls <> [] ->
  (exists k', (k' <= k)%nat /\ compressed mv (p + 1 + zlen l) ls k')
  \/ (exists q k', (k' < k)%nat /\ compressed mv q ls k' /\ q < p
       /\ exists hi lo rest, zdrop (p + 1 + zlen l) mv = 192 + hi :: lo :: rest /\ q = hi * 256 + lo
                             /\ 0 <= hi < 64 /\ 0 <= lo < 256).
Proof.
  intros Hc Hne. inversion Hc as [? ? rest Hp Hv Hd ?|? ls1 hi lo rest more k' Hp Hv Hhi Hlo Hne1 Hd Hlt Hc' Heq1 Heq2 Heq3]; subst.
  - left. exists 0%nat. split; [done|]. inversion_clear Hv as [|?? [Hl _] Hv'].
    rewrite enc_labels_cons in Hd. simpl in Hd. rewrite <- app_assoc in Hd.
    destruct (zdrop_head mv p _ _ ltac:(lia) Hd) as (_ & Hd1 & _).
    apply (zdrop_prefix mv (p + 1)) in Hd1; [|lia]. by eapply compressed_root; [lia|..].
  - destruct ls1 as [|l1 ls1]; [done|]. injection Heq2 as -> <-.
    inversion_clear Hv as [|?? [Hl _] Hv']. rewrite enc_labels_cons in Hd. simpl in Hd. rewrite <- app_assoc in Hd.
    destruct (zdrop_head mv p _ _ ltac:(lia) Hd) as (_ & Hd1 & _).
    apply (zdrop_prefix mv (p + 1)) in Hd1; [|lia]. destruct ls1 as [|l2 ls1].
    + right. exists (hi * 256 + lo), k'. split_and!; [lia|done|done|]. exists hi, lo, rest. done.
    + left. exists (S k'). split; [done|]. eapply (compressed_pointer _ _ _ hi lo); try done; lia.
Qed.

(** ** Finding the labels of a remembered name *)

(** [ps] are the positions of the labels [ls] of a name, each the position of
    the rest of the name, at most [K] pointers away from its end. *)
Inductive spells (mv : bytes) (K : nat) : list Z -> list bytes -> Prop :=
| spells_nil : spells mv K [] []
| spells_cons p ps l ls k :
    compressed mv p (l :: ls) k -> (k <= K)%nat -> spells mv K ps ls -> spells mv K (p :: ps) (l :: ls).

Lemma u16_small x : 0 <= x < 65536 -> u16 x = x.
Proof. intros. unfold u16. apply Z.mod_small. lia. Qed.

Lemma zat_byte_at c p b : zat c p = Some b -> byte_at c p = b.
Proof. unfold byte_at. by intros ->. Qed.

Lemma land_192_pointer hi : 0 <= hi < 64 -> Z.land (192 + hi) 192 = 192 /\ Z.land (192 + hi) 63 = hi.
Proof.
  intros Hh. assert (Forall (fun k => Z.land (192 + Z.of_nat k) 192 = 192
    /\ Z.land (192 + Z.of_nat k) 63 = Z.of_nat k) (seq 0 64)) as Hall by by_decide.
  rewrite Forall_seq in Hall. specialize (Hall (Z.to_nat hi)).
  rewrite Z2Nat.id in Hall by lia. apply Hall. lia.
Qed.

(** One label of the walk. *)
Lemma walk_label fuel c p quota acc l rest :
  zlen c <= maxCompressionOffset -> 0 <= p -> 1 <= zlen l <= 63 -> 0 < quota ->
  zdrop p c = zlen l :: l ++ rest ->
  positions_in_packet (S fuel) c p quota acc
  = match push_position acc p with
    | None => None
    | Some acc' => positions_in_packet fuel c (p + 1 + zlen l) quota acc'
    end.
Proof.
  unfold maxCompressionOffset. intros Hc Hp Hl Hq Hd.
  destruct (zdrop_head c p _ _ Hp Hd) as (Hat & _ & Hlt). cbn [positions_in_packet].
  rewrite (proj2 (Z.ltb_lt p _)), (proj2 (Z.ltb_lt 0 quota)) by lia. cbn [andb].
  rewrite (zat_byte_at _ _ _ Hat), land_192_small by lia. cbn [Z.eqb negb].
  rewrite (proj2 (Z.eqb_neq _ _)) by lia. rewrite u16_small by lia. unfold maxCompressionOffset.
  rewrite (proj2 (Z.leb_gt _ _)) by lia.
  by replace (p + zlen l + 1) with (p + 1 + zlen l) by lia.
Qed.

Lemma walk_end fuel c p quota acc rest :
  zlen c <= maxCompressionOffset -> 0 <= p -> zdrop p c = 0 :: rest ->
  positions_in_packet (S fuel) c p quota acc = Some acc.
Proof.
  intros Hc Hp Hd. destruct (zdrop_head c p _ _ Hp Hd) as (Hat & _ & Hlt). cbn [positions_in_packet].
  destruct (_ && _); [|done]. by rewrite (zat_byte_at _ _ _ Hat).
Qed.

Lemma walk_pointer fuel c p quota acc hi lo rest :
  zlen c <= maxCompressionOffset -> 0 <= p -> 0 < quota -> 0 <= hi < 64 -> 0 <= lo < 256 ->
  zdrop p c = 192 + hi :: lo :: rest -> 12 <= hi * 256 + lo < p ->
  positions_in_packet (S fuel) c p quota acc
  = positions_in_packet fuel c (hi * 256 + lo) (quota - 1) acc.
Proof.
  unfold maxCompressionOffset. intros Hc Hp Hq Hhi Hlo Hd Hlt.
  destruct (zdrop_head c p _ _ Hp Hd) as (Hat & Hd1 & Hp1).
  destruct (zdrop_head c (p + 1) _ _ ltac:(lia) Hd1) as (Hat1 & _ & _). cbn [positions_in_packet].
  rewrite (proj2 (Z.ltb_lt p _)), (proj2 (Z.ltb_lt 0 quota)) by lia. cbn [andb].
  rewrite (zat_byte_at _ _ _ Hat), (zat_byte_at _ _ _ Hat1).
  destruct (land_192_pointer hi Hhi) as [-> ->]. cbn [Z.eqb negb].
  replace (256 * hi + lo) with (hi * 256 + lo) by lia.
  rewrite !u16_small by lia. unfold sizeof_dnsheader.
  by rewrite (proj2 (Z.leb_gt p _)), (proj2 (Z.ltb_ge _ 12)) by lia.
Qed.

Lemma refines_head mv c p x rest :
  refines mv c -> zdrop p mv = x ++ rest -> Forall (fun b => b <> masked) x ->
  exists rest', zdrop p c = x ++ rest'.
Proof.
  intros Hr Hd Hx. pose proof (refines_zdrop p _ _ Hr) as Hr'. rewrite Hd in Hr'.
  destruct (refines_prefix _ _ _ Hr' Hx) as (rest' & Hc & _). eauto.
Qed.

Lemma label_not_masked l : valid_label l -> Forall (fun b => b <> masked) (zlen l :: l).
Proof.
  intros [Hl Hb]. constructor; [unfold masked; lia|]. eapply Forall_impl; [exact Hb|].
  unfold is_byte, masked. lia.
Qed.

Lemma compressed_label mv c p l ls k :
  refines mv c -> compressed mv p (l :: ls) k ->
  valid_label l /\ 12 <= p /\ exists rest, zdrop p c = zlen l :: l ++ rest.
Proof.
  intros Hr Hc. destruct (compressed_head _ _ _ _ Hc) as (l' & ls' & rest & [= <- <-] & Hd).
  destruct (compressed_valid _ _ _ _ Hc) as (Hv & _ & Hp). inversion_clear Hv as [|?? Hl Hv'].
  split_and!; [done|done|]. apply (refines_head mv c p (zlen l :: l) rest Hr Hd).
  by apply label_not_masked.
Qed.

Lemma compressed_last mv c p l k :
  refines mv c -> compressed mv p [l] k -> exists rest, zdrop (p + 1 + zlen l) c = 0 :: rest.
Proof.
  intros Hr Hc. inversion Hc as [? ? rest Hp Hv Hd ?|? ls1 hi lo rest more k' Hp Hv Hhi Hlo Hne1 Hd Hlt Hc' Heq1 Heq2 Heq3]; subst.
  - inversion_clear Hv as [|?? [Hl Hb] Hv']. rewrite enc_labels_cons in Hd. simpl in Hd. rewrite app_nil_r in Hd.
    destruct (zdrop_head mv p _ _ ltac:(lia) Hd) as (_ & Hd1 & _).
    apply (zdrop_prefix mv (p + 1)) in Hd1; [|lia].
    apply (refines_head mv c (p + 1 + zlen l) [0] rest Hr Hd1). by repeat constructor.
  - exfalso. destruct (compressed_valid _ _ _ _ Hc') as (_ & Hne & _).
    destruct ls1 as [|? [|]]; [done|by destruct more|by destruct more].
Qed.

Lemma positions_in_packet_spells mv c ls p k K fuel quota acc :
  refines mv c -> zlen c <= maxCompressionOffset -> compressed mv p ls k -> (k <= K)%nat ->
  zlen acc <= 34 -> 35 - zlen acc <= quota -> 2 * (35 - zlen acc) + 2 <= Z.of_nat fuel ->
  positions_in_packet fuel c p quota acc = None
  \/ exists ps, positions_in_packet fuel c p quota acc = Some (acc ++ ps) /\ spells mv K ps ls.
Proof.
  intros Hr Hc. revert p k fuel quota acc.
  induction ls as [|l ls IH]; intros p k fuel quota acc Hcomp Hk Hacc Hq Hf.
  { by destruct (compressed_valid _ _ _ _ Hcomp) as (_ & ? & _). }
  destruct (compressed_label mv c p l ls k Hr Hcomp) as (Hl & Hp & rest & Hd). pose proof Hl as [Hl1 _].
  destruct fuel as [|fuel]; [lia|]. rewrite (walk_label fuel c p quota acc l rest) by (done || lia).
  unfold push_position. destruct (Z.leb_spec 34 (zlen acc)) as [E|E]; [by left|].
  pose proof (zlen_app acc [p]) as Hacc1. rewrite zlen_cons, zlen_nil in Hacc1.
  destruct (decide (ls = [])) as [->|Hne].
  { destruct (compressed_last mv c p l k Hr Hcomp) as (rest' & Hd').
    destruct fuel as [|fuel]; [lia|]. right. exists [p]. rewrite (walk_end _ _ _ _ _ rest') by (done || lia).
    split; [done|]. econstructor; [done|done|constructor]. }
  assert (positions_in_packet fuel c (p + 1 + zlen l) quota (acc ++ [p]) = None
    \/ exists ps, positions_in_packet fuel c (p + 1 + zlen l) quota (acc ++ [p]) = Some ((acc ++ [p]) ++ ps)
                  /\ spells mv K ps ls) as [?|(ps & Hps & Hsp)].
  { destruct (compressed_tail _ _ _ _ _ Hcomp Hne) as
      [(k' & Hk' & Hc')|(q & k' & Hk' & Hc' & Hlt & hi & lo & rest' & Hd' & -> & Hhi & Hlo)].
    - apply (IH _ k'); [done|lia|lia|lia|lia].
    - destruct (refines_head mv c _ [192 + hi; lo] rest' Hr Hd') as (rest2 & Hd2).
      { repeat constructor; unfold masked; lia. }
      destruct (compressed_valid _ _ _ _ Hc') as (_ & _ & Hq12).
      destruct fuel as [|fuel]; [lia|]. rewrite (walk_pointer fuel c _ quota _ hi lo rest2) by (done || lia).
      apply (IH _ k'); [done|lia|lia|lia|lia]. }
  - by left.
  - right. exists (p :: ps). rewrite Hps, <- app_assoc. split; [done|]. by econstructor.
Qed.

(** ** Matching *)

Definition at_label (s : bytes) (p : Z) (l : bytes) : Prop :=
  0 <= p /\ exists rest, zdrop p s = zlen l :: l ++ rest.

Lemma at_label_read s p l : at_label s p l -> byte_at s p = zlen l /\ zsub s (p + 1) (zlen l) = l.
Proof.
  intros (Hp & rest & Hd). destruct (zdrop_head s p _ _ Hp Hd) as (Hat & Hd1 & _).
  split; [by apply zat_byte_at|]. unfold zsub. rewrite Hd1. by apply ztake_app.
Qed.

Fixpoint label_positions (off : Z) (ls : list bytes) : list Z :=
  match ls with [] => [] | l :: ls' => off :: label_positions (off + zlen l + 1) ls' end.

Lemma positions_in_name_spec ls fuel before acc :
  valid_labels ls -> (length ls < fuel)%nat ->
  positions_in_name fuel (before ++ storage_of ls) (zlen before) acc = None
  \/ positions_in_name fuel (before ++ storage_of ls) (zlen before) acc
     = Some (acc ++ label_positions (zlen before) ls)
     /\ Forall2 (at_label (before ++ storage_of ls)) (label_positions (zlen before) ls) ls.
Proof.
  intros Hv. revert fuel before acc. induction Hv as [|l ls [Hl _] Hv IH]; intros fuel before acc Hf;
    (destruct fuel as [|fuel]; [lia|]); cbn [positions_in_name].
  - right. rewrite storage_of_nil, zlen_app. change (zlen [0]) with 1.
    rewrite (proj2 (Z.ltb_lt _ _)) by lia. rewrite byte_at_app. simpl. rewrite app_nil_r.
    split; [done|constructor].
  - rewrite storage_of_cons, zlen_app, zlen_cons, zlen_app. pose proof (zlen_storage_pos ls).
    rewrite (proj2 (Z.ltb_lt _ _)) by lia. rewrite byte_at_app. rewrite (proj2 (Z.eqb_neq _ _)) by lia.
    unfold push_position. destruct (34 <=? zlen acc); [by left|]. cbn [label_positions].
    replace (before ++ zlen l :: l ++ storage_of ls) with ((before ++ zlen l :: l) ++ storage_of ls)
      by by rewrite <- app_assoc.
    replace (zlen before + zlen l + 1) with (zlen (before ++ zlen l :: l))
      by (rewrite zlen_app, zlen_cons; lia).
    destruct (IH fuel (before ++ zlen l :: l) (acc ++ [zlen before])) as [?|[Hs Hall]];
      [simpl in Hf; lia|by left|].
    right. rewrite Hs, <- app_assoc. split; [done|]. constructor; [|done].
    split; [apply zlen_nonneg|]. exists (storage_of ls). rewrite <- app_assoc. by rewrite zdrop_app.
Qed.

Lemma spells_at_label mv c K ps ls :
  refines mv c -> spells mv K ps ls -> Forall2 (at_label c) ps ls.
Proof.
  intros Hr. induction 1 as [|p ps l ls k Hc Hk Hsp IH]; [constructor|]. constructor; [|done].
  destruct (compressed_label mv c p l ls k Hr Hc) as (_ & Hp & rest & Hd). split; [lia|eauto].
Qed.

Lemma match_labels_sound raw c nsA psn lsA psp cm last :
  Forall2 (at_label raw) psn nsA -> Forall2 (at_label c) psp lsA ->
  exists n1 n2 l1 l2 p1 p2,
    nsA = n1 ++ n2 /\ lsA = l1 ++ l2 /\ psp = p1 ++ p2 /\ length p2 = length l2
    /\ ci_labels n2 = ci_labels l2
    /\ match match_labels raw c (reverse psn) (reverse psp) cm last with
       | inl p => head p2 = Some p /\ cm + zlen (enc_labels n2) = zlen raw
       | inr (cm', last') => cm' = cm + zlen (enc_labels n2)
                             /\ last' = match p2 with [] => last | p :: _ => Some p end
       end.
Proof.
  intros Hn. revert lsA psp cm last. revert psn Hn.
  induction nsA as [|n nsA IH] using rev_ind; intros psn Hn lsA psp cm last Hp.
  { apply Forall2_nil_inv_r in Hn as ->. exists [], [], lsA, [], psp, []. rewrite !app_nil_r.
    change (zlen (enc_labels [])) with 0. simpl. split_and!; try done; lia. }
  apply Forall2_app_inv_r in Hn as (psn1 & psn2 & Hn1 & Hn2 & ->).
  apply Forall2_cons_inv_r in Hn2 as (pn & ? & Hpn & Hnil & ->). apply Forall2_nil_inv_r in Hnil as ->.
  rewrite reverse_app. cbn [reverse app].
  destruct lsA as [|l lsA] using rev_ind.
  { apply Forall2_nil_inv_r in Hp as ->. exists (nsA ++ [n]), [], [], [], [], []. rewrite !app_nil_r.
    change (zlen (enc_labels [])) with 0. simpl. split_and!; try done; lia. }
  clear IHlsA. apply Forall2_app_inv_r in Hp as (psp1 & psp2 & Hp1 & Hp2 & ->).
  apply Forall2_cons_inv_r in Hp2 as (pp & ? & Hpp & Hnil & ->). apply Forall2_nil_inv_r in Hnil as ->.
  assert (reverse (psp1 ++ [pp]) = pp :: reverse psp1) as -> by by rewrite reverse_app.
  assert (reverse [pn] ++ reverse psn1 = pn :: reverse psn1) as -> by done.
  cbn [match_labels].
  destruct (at_label_read _ _ _ Hpn) as [-> Hrn], (at_label_read _ _ _ Hpp) as [-> Hrp].
  assert (exists n1 n2 l1 l2 p1 p2,
    nsA ++ [n] = n1 ++ n2 /\ lsA ++ [l] = l1 ++ l2 /\ psp1 ++ [pp] = p1 ++ p2 /\ length p2 = length l2
    /\ ci_labels n2 = ci_labels l2 /\ cm = cm + zlen (enc_labels n2)
    /\ last = match p2 with [] => last | p :: _ => Some p end) as Hstop.
  { exists (nsA ++ [n]), [], (lsA ++ [l]), [], (psp1 ++ [pp]), []. rewrite !app_nil_r.
    change (zlen (enc_labels [])) with 0. split_and!; try done; lia. }
  destruct (Z.eqb_spec (zlen n) (zlen l)) as [Elen|Elen]; cbn [negb]; [|destruct Hstop as (?&?&?&?&?&?&?); naive_solver].
  rewrite Hrn. rewrite <- Elen in Hrp. rewrite Elen in Hrp at 1 || idtac.
  assert (zsub c (pp + 1) (zlen n) = l) as -> by (rewrite Elen; by apply (at_label_read c pp l)).
  destruct (Z.eqb_spec (pdns_ilexicographical_compare_three_way n l) 0) as [Ecmp|Ecmp]; cbn [negb];
    [|destruct Hstop as (?&?&?&?&?&?&?); naive_solver].
  apply ilex_compare_eq_iff in Ecmp.
  destruct (Z.eqb_spec (cm + (zlen n + 1)) (zlen raw)) as [Ew|Ew].
  - exists nsA, [n], lsA, [l], psp1, [pp]. unfold ci_labels. cbn [map]. rewrite Ecmp.
    rewrite zlen_enc_labels_cons. change (zlen (enc_labels [])) with 0. split_and!; try done. lia.
  - destruct (IH psn1 Hn1 lsA psp1 (cm + (zlen n + 1)) (Some pp) Hp1)
      as (n1 & n2 & l1 & l2 & p1 & p2 & -> & -> & -> & Hlen & Hci & Hres).
    exists n1, (n2 ++ [n]), l1, (l2 ++ [l]), p1, (p2 ++ [pp]). rewrite <- !app_assoc.
    split_and!; [done|done|done|by rewrite !length_app, Hlen| |].
    { unfold ci_labels in *. rewrite !map_app, Hci. cbn [map]. by rewrite Ecmp. }
    rewrite enc_labels_app, zlen_app, zlen_enc_labels_cons. change (zlen (enc_labels [])) with 0.
    destruct (match_labels _ _ _ _ _ _) as [p|[cm' last']].
    + destruct Hres as [Hh Hl]. split; [by destruct p2|lia].
    + destruct Hres as [-> ->]. split; [lia|]. by destruct p2.
Qed.

Lemma spells_suffix mv K p1 p2 l1 l2 :
  spells mv K (p1 ++ p2) (l1 ++ l2) -> length p2 = length l2 ->
  spells mv K p2 l2.
Proof.
  intros Hsp Hlen. remember (p1 ++ p2) as ps eqn:Eps. remember (l1 ++ l2) as ls eqn:Els.
  revert p1 l1 Eps Els. induction Hsp as [|p ps l ls k Hc Hk Hsp IH]; intros p1 l1 Eps Els.
  - symmetry in Eps, Els. apply app_eq_nil in Eps as [_ ->]. apply app_eq_nil in Els as [_ ->]. constructor.
  - assert (length (p1 ++ p2) = length (l1 ++ l2)) as Hl12.
    { rewrite <- Eps, <- Els. clear -Hsp. simpl. f_equal. induction Hsp; simpl; auto. }
    rewrite !length_app in Hl12. destruct p1 as [|q p1], l1 as [|l' l1]; simpl in Hl12; try lia.
    + simpl in Eps, Els. subst. by econstructor.
    + injection Eps as -> ->. injection Els as -> ->. by apply (IH p1 l1).
Qed.

Lemma spells_head mv K p ps ls :
  spells mv K (p :: ps) ls -> exists k, (k <= K)%nat /\ compressed mv p ls k.
Proof. inversion 1; subst. eauto. Qed.

(** What [lookupName] finds: a suffix of the name, at a position where the packet
    has the same suffix, case apart. *)
Definition found_suffix (mv : bytes) (K : nat) (ns : list bytes) (r : Z * Z) : Prop :=
  r = (0, 0)
  \/ exists pre suf suf' k, ns = pre ++ suf /\ suf <> [] /\ ci_labels suf = ci_labels suf'
       /\ compressed mv (fst r) suf' k /\ (k <= K)%nat /\ snd r = 1 + zlen (enc_labels suf).

Lemma lookup_loop_sound mv c K ns psn nps best :
  refines mv c -> zlen c <= maxCompressionOffset -> valid_labels ns ->
  Forall2 (at_label (storage_of ns)) psn ns ->
  Forall (fun p => exists ls k, compressed mv p ls k /\ (k <= K)%nat) nps ->
  found_suffix mv K ns best ->
  found_suffix mv K ns (lookup_loop (storage_of ns) c psn nps (fst best) (snd best)).
Proof.
  intros Hr Hc Hv Hpsn Hnps. revert best. induction Hnps as [|p nps (ls & k & Hcomp & Hk) Hnps IH];
    intros [bp bl] Hbest; [done|].
  cbn [lookup_loop fst snd]. change (zlen []) with 0 in *.
  destruct (positions_in_packet_spells mv c ls p k K 100 50 [] Hr Hc Hcomp Hk)
    as [->|(ps & -> & Hsp)]; [rewrite zlen_nil; lia..|by apply (IH (bp, bl))|]. cbn [app].
  pose proof (spells_at_label mv c K ps ls Hr Hsp) as Hat.
  destruct (match_labels_sound (storage_of ns) c ns psn ls ps 1 None Hpsn Hat)
    as (n1 & n2 & l1 & l2 & p1 & p2 & Hns & Hls & Hps & Hlen & Hci & Hres).
  subst ls ps. pose proof (spells_suffix mv K p1 p2 l1 l2 Hsp Hlen) as Hsp2.
  assert (forall q, head p2 = Some q -> n2 <> [] /\ exists k, (k <= K)%nat /\ compressed mv q l2 k) as Hq.
  { intros q Hq. destruct p2 as [|q' p2]; [done|]. injection Hq as ->.
    split; [|by eapply spells_head]. intros ->. destruct l2; [done|done]. }
  destruct (match_labels _ _ _ _ _ _) as [q|[cm' last']].
  - destruct Hres as [Hh Hl]. destruct (Hq q Hh) as (Hne & k2 & Hk2 & Hc2). right.
    exists n1, n2, l2, k2. cbn [fst snd]. split_and!; done || lia.
  - destruct Hres as [-> ->]. destruct p2 as [|q p2]; [by apply (IH (bp, bl))|].
    destruct (_ <? _); [|by apply (IH (bp, bl))].
    destruct (Hq q eq_refl) as (Hne & k2 & Hk2 & Hc2). apply (IH (q, _)). right.
    exists n1, n2, l2, k2. cbn [fst snd]. split_and!; try done.
Qed.

Lemma lookupName_sound mv w K name ns :
  refines mv (w_content w) -> zlen (w_content w) <= maxCompressionOffset -> represents name ns ->
  Forall (fun p => exists ls k, compressed mv p ls k /\ (k <= K)%nat) (w_namepositions w) ->
  found_suffix mv K ns (lookupName w name).
Proof.
  intros Hr Hc (Hs & Hv & _) Hnps. unfold lookupName. rewrite Hs.
  assert (length ns < S (length (storage_of ns)))%nat as Hf.
  { clear -Hv. induction Hv as [|l ls Hl Hv IH]; [simpl; lia|]. rewrite storage_of_cons. simpl.
    rewrite length_app. lia. }
  destruct (positions_in_name_spec ns (S (length (storage_of ns))) [] [] Hv Hf) as [Hnone|[Hsome Hall]];
    cbn [app] in *; change (zlen (@nil Z)) with 0 in *.
  - rewrite Hnone. by left.
  - rewrite Hsome. apply (lookup_loop_sound mv _ K ns _ _ (0, 0)); try done. by left.
Qed.

(** ** Holes: masked bytes that may be overwritten *)

Definition hole (mv : bytes) (i n : Z) : Prop := forall j, i <= j < i + n -> zat mv j = Some masked.

Lemma zat_zwrite_outside c i t j :
  0 <= i -> i + zlen t <= zlen c -> j < i \/ i + zlen t <= j -> zat (zwrite c i t) j = zat (A := Z) c j.
Proof.
  intros Hi Hl Hj. pose proof (zlen_nonneg t). unfold zwrite.
  assert (zlen (ztake i c) = i) as Ht by (rewrite zlen_ztake; lia).
  destruct Hj as [Hj|Hj].
  - rewrite zat_app_l by lia. rewrite <- (ztake_zdrop i c) at 2. by rewrite zat_app_l by lia.
  - rewrite zat_app_r by lia. rewrite zat_app_r by lia. rewrite zat_zdrop by lia. f_equal. lia.
Qed.

Lemma refines_zat_iff mv c :
  refines mv c <-> zlen mv = zlen c /\ forall j a, zat mv j = Some a -> a = masked \/ zat c j = Some a.
Proof.
  split.
  - intros H. split; [by apply refines_zlen|]. intros j a Ha. destruct (decide (a = masked)); [by left|].
    right. by eapply refines_zat.
  - intros [Hl H]. unfold zlen in Hl. apply Forall2_same_length_lookup_2; [lia|].
    intros i x y Hx Hy. specialize (H (Z.of_nat i) x). unfold zat in H.
    rewrite (proj2 (Z.ltb_ge _ _)), Nat2Z.id in H by lia. destruct (H Hx) as [?|Heq]; [by left|right; congruence].
Qed.

Lemma refines_zwrite mv c i t :
  refines mv c -> 0 <= i -> i + zlen t <= zlen c -> hole mv i (zlen t) -> refines mv (zwrite c i t).
Proof.
  intros [Hl H]%refines_zat_iff Hi Hlen Hh. apply refines_zat_iff.
  split; [by rewrite zlen_zwrite by lia|]. intros j a Ha.
  destruct (decide (i <= j < i + zlen t)) as [Hj|Hj].
  - rewrite (Hh j Hj) in Ha. injection Ha as <-. by left.
  - rewrite zat_zwrite_outside by lia. by apply H.
Qed.

Lemma hole_app mv x i n : hole mv i n -> hole (mv ++ x) i n.
Proof.
  intros Hh j Hj. pose proof (Hh j Hj) as Ha. apply zat_Some_range in Ha as Hr.
  rewrite zat_app_l by lia. done.
Qed.

(** ** The invariant of the writer *)

(** One entry per name written: where, its labels, where it ends.  All that makes it up
    lies before its end. *)
Abbreviation name_log := (list (Z * list bytes * Z)).

Definition logged (mv : bytes) (entry : Z * list bytes * Z) : Prop :=
  let '(p, ns, e) := entry in
  0 <= e <= zlen mv
  /\ exists ls k, written_name 12 (ztake e mv) p ls k e /\ ci_labels ls = ci_labels ns /\ (k <= length ns)%nat.

(** A name that ends where the packet ends. *)
Lemma logged_end mv p ns ls k :
  written_name 12 mv p ls k (zlen mv) -> ci_labels ls = ci_labels ns -> (k <= length ns)%nat -> logged mv (p, ns, zlen mv).
Proof. intros Hw Hci Hk. split; [pose proof (zlen_nonneg mv); lia|]. exists ls, k. by rewrite ztake_all by lia. Qed.

Definition remembered (mv : bytes) (p : Z) : Prop := exists ls k, compressed mv p ls k.

(** [stale] tells whether positions are remembered that were removed since. *)
Record writer_inv (stale : bool) (log : name_log) (w : GenericDNSPacketWriter) (mv : bytes) : Prop := mkInv {
  inv_refines : refines mv (w_content w);
  inv_header : hole mv 0 12;
  inv_truncate : 12 <= w_truncatemarker w <= zlen (w_content w);
  inv_rollback : w_rollbackmarker w <> 0 -> w_truncatemarker w <= w_rollbackmarker w;
  inv_pending : w_sor w <> 0 -> 14 <= w_sor w <= zlen (w_content w) /\ hole mv (w_sor w - 2) 2;
  inv_names : stale = false -> Forall (remembered mv) (w_namepositions w);
  inv_log : Forall (logged mv) log;
  inv_qname : exists qs, represents (w_qname w) qs /\ (qs <> [] -> compressed (ztake (w_truncatemarker w) mv) 12 qs 0);
}.

Lemma inv_length stale log w mv : writer_inv stale log w mv -> 12 <= zlen (w_content w).
Proof. intros []. lia. Qed.

Lemma ztake_app_le n (mv x : bytes) : n <= zlen mv -> ztake n (mv ++ x) = ztake n mv.
Proof. intros Hn. unfold ztake, zlen in *. apply take_app_le. lia. Qed.

Lemma compressed_app mv x p ls k : compressed mv p ls k -> compressed (mv ++ x) p ls k.
Proof.
  assert (forall p a b rest, 0 <= p -> zdrop p mv = a ++ b :: rest -> zdrop p (mv ++ x) = a ++ b :: rest ++ x) as Hz.
  { intros p' a b rest Hp' Hd. assert (p' <= zlen mv).
    { destruct (Z.le_gt_cases p' (zlen mv)); [done|]. rewrite zdrop_all in Hd by lia. by destruct a. }
    unfold zdrop in *. rewrite drop_app_le by (unfold zlen in *; lia). rewrite Hd.
    by rewrite <- app_assoc. }
  induction 1 as [p ls rest Hp Hv Hd Hne|p ls hi lo rest more k Hp Hv Hhi Hlo Hne Hd Hlt Hc IH].
  - eapply compressed_root; [done|done| |done]. apply Hz; [lia|done].
  - eapply (compressed_pointer _ _ _ hi lo); try done. rewrite (Hz p _ _ _ ltac:(lia) Hd). done.
Qed.

Lemma compressed_depth mv p ls k : compressed mv p ls k -> (k < length ls)%nat.
Proof.
  induction 1 as [p ls rest Hp Hv Hd Hne|p ls hi lo rest more k Hp Hv Hhi Hlo Hne Hd Hlt Hc IH].
  - destruct ls; [done|simpl; lia].
  - rewrite length_app. destruct ls; [done|simpl; lia].
Qed.

Lemma logged_app mv x entry : logged mv entry -> logged (mv ++ x) entry.
Proof.
  destruct entry as [[p ns] e]. intros [He (ls & k & Hw & Hci & Hk)]. split; [rewrite zlen_app; pose proof (zlen_nonneg x); lia|].
  exists ls, k. by rewrite ztake_app_le by lia.
Qed.

(** A log of what a prefix of the packet has. *)
Lemma logged_ztake mv n p ns e : logged mv (p, ns, e) -> e <= n -> logged (ztake n mv) (p, ns, e).
Proof.
  intros [He (ls & k & Hw & Hci & Hk)] Hn. split; [rewrite zlen_ztake by lia; lia|]. exists ls, k. split; [|done].
  replace (ztake e (ztake n mv)) with (ztake e mv); [done|]. unfold ztake. rewrite take_take. f_equal. lia.
Qed.

Lemma remembered_app mv x p : remembered mv p -> remembered (mv ++ x) p.
Proof. intros (ls & k & Hc). exists ls, k. by apply compressed_app. Qed.

#[export] Hint Resolve compressed_app logged_app remembered_app hole_app : names.

(** Appending bytes [b], of which [x] is what is to be kept. *)
Lemma inv_append stale log w mv x b :
  writer_inv stale log w mv -> refines x b ->
  writer_inv stale log (set_content (w_content w ++ b) w) (mv ++ x).
Proof.
  intros [Hr Hh Hl Hrb Hp Hn Hlog Hq] Hx. pose proof (zlen_nonneg b). split; simpl.
  - by apply refines_app.
  - by apply hole_app.
  - rewrite zlen_app. lia.
  - done.
  - intros Hs. destruct (Hp Hs) as [[H1 H2] H3]. rewrite zlen_app. pose proof (zlen_nonneg b).
    split; [lia|by apply hole_app].
  - intros Hs. eapply Forall_impl; [exact (Hn Hs)|]. eauto with names.
  - eapply Forall_impl; [exact Hlog|]. eauto with names.
  - rewrite ztake_app_le by (rewrite (refines_zlen _ _ Hr); lia). done.
Qed.

Lemma inv_commit stale log w mv w' :
  writer_inv stale log w mv -> commit w = (w', Ok tt) ->
  writer_inv stale log w' mv /\ zlen (w_content w') = zlen (w_content w) /\ w_sor w' = 0
  /\ w_namepositions w' = w_namepositions w /\ w_compress w' = w_compress w
  /\ w_qname w' = w_qname w.
Proof.
  intros Hinv. pose proof Hinv as [Hr Hh Hl Hrb Hp Hn Hlog Hq]. unfold commit, mbind, SM_bind, sm_get.
  destruct (Z.eqb_spec (w_sor w) 0) as [E|E].
  { intros [= <-]. done. }
  destruct (Hp E) as [[H1 H2] H3]. unfold sm_throw_if. destruct (_ || _); [done|]. simpl.
  destruct (_ <? _); [done|]. simpl. intros [= <-].
  set (c1 := zwrite (w_content w) (w_sor w - 2) _).
  assert (zlen c1 = zlen (w_content w)) as Hc1.
  { unfold c1. apply zlen_zwrite; [lia|]. rewrite zlen_be16. lia. }
  assert (refines mv c1) as Hr1.
  { apply refines_zwrite; [done|lia|rewrite zlen_be16; lia|by rewrite zlen_be16]. }
  assert (0 <= count_offset (w_recordplace w) /\ count_offset (w_recordplace w) + 2 <= 12) as Hco
    by by destruct (w_recordplace w).
  assert (zlen (bump_count (count_offset (w_recordplace w)) c1) = zlen (w_content w)) as Hc2.
  { unfold bump_count. rewrite zlen_zwrite; [done|lia|rewrite zlen_be16; lia]. }
  split; [|done]. split; simpl; try done.
  - apply refines_zwrite; [done|lia|rewrite zlen_be16; lia|].
    rewrite zlen_be16. intros j Hj. apply Hh. lia.
  - by rewrite Hc2.
Qed.

Lemma commit_mode w w' : commit w = (w', Ok tt) -> w_canonic w' || w_lowerCase w' = w_canonic w || w_lowerCase w.
Proof.
  unfold commit, mbind, SM_bind, sm_get, sm_throw_if. destruct (_ =? 0); [by intros [= <-]|]. destruct (_ || _); [done|]. cbn.
  destruct (_ <? _); [done|]. cbn. by intros [= <-].
Qed.

(** Appending the bytes of a name, and remembering where it is if asked to. *)
Lemma inv_name stale log w mv x ns nps :
  writer_inv stale log w mv ->
  logged (mv ++ x) (zlen (w_content w), ns, zlen (w_content w ++ x)) ->
  (nps = w_namepositions w
   \/ nps = w_namepositions w ++ [zlen (w_content w)] /\ remembered (mv ++ x) (zlen (w_content w))) ->
  writer_inv stale (log ++ [(zlen (w_content w), ns, zlen (w_content w ++ x))])
    (mkWriter (w_content w ++ x) nps (w_qname w) (w_sor w) (w_rollbackmarker w) (w_truncatemarker w)
       (w_recordplace w) (w_canonic w) (w_lowerCase w) (w_compress w)) (mv ++ x).
Proof.
  intros Hinv Hlog Hnps. destruct (inv_append stale log w mv x x Hinv (refines_refl x)) as [Hr Hh Hl Hrb Hp Hn Hlg Hq].
  split; simpl in *; try done.
  - intros Hs. specialize (Hn Hs). destruct Hnps as [->|[-> Hrem]]; [done|]. apply Forall_app. split; [done|]. by constructor.
  - apply Forall_app. split; [done|]. by constructor.
Qed.

Lemma zdrop_end (c x : bytes) : zdrop (zlen c) (c ++ x) = x.
Proof. by apply zdrop_app. Qed.

Lemma logged_plain (mv c : bytes) ns ls :
  zlen mv = zlen c -> 12 <= zlen c -> valid_labels ls -> ci_labels ls = ci_labels ns ->
  logged (mv ++ storage_of ls) (zlen c, ns, zlen (c ++ storage_of ls)).
Proof.
  intros Hl Hc Hv Hci. replace (zlen (c ++ storage_of ls)) with (zlen (mv ++ storage_of ls)) by (rewrite !zlen_app; lia).
  apply (logged_end _ _ _ ls 0); [|done|lia]. rewrite zlen_app, Hl, zlen_storage_of, Z.add_assoc. eapply (written_root _ _ _ _ []); [done|done|].
  rewrite <- Hl. rewrite zdrop_end. by unfold storage_of.
Qed.

Lemma remembered_plain (mv c : bytes) ls :
  zlen mv = zlen c -> 12 <= zlen c -> valid_labels ls -> ls <> [] ->
  compressed (mv ++ storage_of ls) (zlen c) ls 0.
Proof.
  intros Hl Hc Hv Hne. eapply (compressed_root _ _ _ []); [done|done| |done].
  rewrite <- Hl, zdrop_end. by unfold storage_of.
Qed.

Definition pointer_bytes (li : Z) : bytes := [Z.shiftr (Z.lor li 49152) 8; Z.land (Z.lor li 49152) 255].

Lemma pointer_bytes_spec li :
  0 <= li < 16384 -> pointer_bytes li = [192 + li / 256; li mod 256].
Proof.
  intros Hli. assert (Z.land li 49152 = 0) as Hland.
  { apply Z.bits_inj'. intros n Hn. rewrite Z.land_spec, Z.bits_0.
    destruct (Z.ltb_spec n 14) as [E|E].
    - change 49152 with (3 * 2 ^ 14). by rewrite (Z.mul_pow2_bits_low 3), andb_false_r by lia.
    - rewrite <- (Z.mod_small li (2 ^ 14)) by lia. by rewrite Z.mod_pow2_bits_high by lia. }
  unfold pointer_bytes. rewrite <- Z.lxor_lor, <- Z.add_nocarry_lxor by done.
  assert (0 <= li / 256 < 64) by (split; [apply Z.div_pos; lia|apply Z.div_lt_upper_bound; lia]).
  pose proof (Z.div_mod li 256 ltac:(lia)). pose proof (Z.mod_pos_bound li 256 ltac:(lia)).
  f_equal; [|f_equal].
  - rewrite Z.shiftr_div_pow2 by lia. change (2 ^ 8) with 256.
    replace (li + 49152) with (li mod 256 + (192 + li / 256) * 256) by lia.
    rewrite Z.div_add by lia. rewrite Z.div_small; lia.
  - change 255 with (Z.ones 8). rewrite Z.land_ones by lia. change (2 ^ 8) with 256.
    replace (li + 49152) with (li mod 256 + (192 + li / 256) * 256) by lia.
    rewrite Z.mod_add by lia. apply Z.mod_small. lia.
Qed.

Lemma ci_labels_length a b : ci_labels a = ci_labels b -> length a = length b.
Proof. intros H%(f_equal length). unfold ci_labels in H. by rewrite !length_map in H. Qed.

Lemma ci_labels_idemp ls : valid_labels ls -> ci_labels (ci_labels ls) = ci_labels ls.
Proof.
  induction 1 as [|l ls [_ Hb] _ IH]; [done|]. unfold ci_labels in *. cbn [map].
  by rewrite IH, toLower_idemp.
Qed.

Lemma compressed_suffix_entry (mv c : bytes) pre suf suf' k li :
  zlen mv = zlen c -> 12 <= zlen c -> valid_labels (pre ++ suf) -> suf <> [] ->
  ci_labels suf = ci_labels suf' -> compressed mv li suf' k -> li < 16384 ->
  logged (mv ++ enc_labels pre ++ pointer_bytes li)
    (zlen c, pre ++ suf, zlen (c ++ enc_labels pre ++ pointer_bytes li))
  /\ (pre <> [] -> remembered (mv ++ enc_labels pre ++ pointer_bytes li) (zlen c)).
Proof.
  intros Hl Hc Hv Hne Hci Hcomp Hli. destruct (compressed_valid _ _ _ _ Hcomp) as (Hv' & Hne' & Hli12).
  apply Forall_app in Hv as [Hvp Hvs].
  destruct (compressed_head _ _ _ _ Hcomp) as (l & ls' & rest & Hsuf & Hhd).
  assert (0 <= li / 256 < 64) as Hhi by (split; [apply Z.div_pos; lia|apply Z.div_lt_upper_bound; lia]).
  pose proof (Z.div_mod li 256 ltac:(lia)) as Hdm. pose proof (Z.mod_pos_bound li 256 ltac:(lia)) as Hmod.
  assert (li / 256 * 256 + li mod 256 = li) as Hli' by lia.
  rewrite pointer_bytes_spec by lia. set (x := enc_labels pre ++ [192 + li / 256; li mod 256]).
  pose proof (compressed_app mv x _ _ _ Hcomp) as Hcomp'.
  destruct (zdrop_head mv li _ _ ltac:(lia) Hhd) as (Hat & _ & Hlt).
  assert (zdrop (zlen c) (mv ++ x) = enc_labels pre ++ 192 + li / 256 :: li mod 256 :: []) as Hd.
  { rewrite <- Hl. by rewrite zdrop_end. }
  split.
  - destruct (compressed_written _ _ _ _ Hcomp') as [e Hw].
    replace (zlen (c ++ x)) with (zlen (mv ++ x)) by (rewrite !zlen_app; lia).
    apply (logged_end _ _ _ (pre ++ suf') (S k)).
    + unfold x at 2. rewrite !zlen_app, Hl, Z.add_assoc. change (zlen [_; _]) with 2.
      rewrite Hsuf in Hv'. inversion_clear Hv' as [|?? [Hlab _] _].
      eapply (written_pointer _ _ _ _ (li / 256) (li mod 256) [] suf' k e (zlen l)); rewrite ?Hli'; try done; try lia.
      rewrite zat_app_l by lia. done.
    + unfold ci_labels in *. by rewrite !map_app, Hci.
    + pose proof (compressed_depth _ _ _ _ Hcomp). apply ci_labels_length in Hci.
      rewrite length_app. lia.
  - intros Hpre. exists (pre ++ suf'), (S k).
    eapply (compressed_pointer _ _ _ (li / 256) (li mod 256)); rewrite ?Hli'; try done; try lia.
Qed.

Lemma depth_bound mv nps :
  Forall (remembered mv) nps ->
  exists K, Forall (fun p => exists ls k, compressed mv p ls k /\ (k <= K)%nat) nps.
Proof.
  induction 1 as [|p nps (ls & k & Hc) _ [K IH]]; [by exists O|]. exists (max k K). constructor.
  - exists ls, k. split; [done|lia].
  - eapply Forall_impl; [exact IH|]. intros q (ls' & k' & Hc' & Hk'). exists ls', k'. split; [done|lia].
Qed.

(** Whether the positions remembered are searched for a name. *)
Definition looks_up (w : GenericDNSPacketWriter) (name : DNSName) (compress : bool) : bool :=
  negb (isRoot name) && w_compress w && compress && negb (w_canonic w || w_lowerCase w).

Lemma inv_xfrName stale log w mv name ns compress w' :
  writer_inv stale log w mv -> represents name ns -> zlen (w_content w) <= maxCompressionOffset ->
  stale && looks_up w name compress = false -> w_xfrName name compress w = (w', Ok tt) ->
  exists x, w_content w' = w_content w ++ x
    /\ writer_inv stale (log ++ [(zlen (w_content w), ns, zlen (w_content w'))]) w' (mv ++ x)
    /\ w_sor w' = w_sor w.
Proof.
  intros Hinv Hname Hsmall Hlook H. pose proof Hinv as [Hr Hh _ Hrb Hp Hn Hlog Hq]. pose proof (inv_length _ _ _ _ Hinv) as Hl.
  pose proof (refines_zlen _ _ Hr) as Hzl. pose proof Hname as (Hs & Hv & Hle).
  unfold w_xfrName, mbind, SM_bind, sm_get in H. rewrite (represents_not_empty _ _ Hname) in H.
  rewrite (represents_isRoot _ _ Hname) in H. cbn [orb] in H. case_bool_decide as Hroot.
  { (* the root *)
    injection H as <-. exists [0]. split; [done|]. split; [|done].
    apply (inv_name stale log w mv [0] ns); [done| |by left]. subst ns.
    apply (logged_plain mv (w_content w) [] []); done. }
  set (cc := if w_canonic w || w_lowerCase w then false else compress) in *.
  assert (found_suffix mv 0 ns (0, 0)) as Hnone by by left.
  assert (exists K, found_suffix mv K ns (if w_compress w && cc then lookupName w name else (0, 0))) as [K Hfound].
  { destruct (w_compress w && cc) eqn:Ecc; [|by exists O; left]. assert (stale = false) as Hstale.
    { destruct stale; [|done]. rewrite <- Hlook. unfold looks_up. rewrite (represents_isRoot _ _ Hname), (bool_decide_eq_false_2 _ Hroot).
      unfold cc in Ecc. destruct (w_canonic w || w_lowerCase w), (w_compress w), compress; done. }
    destruct (depth_bound mv _ (Hn Hstale)) as [K HK]. exists K. by apply lookupName_sound. }
  destruct (if w_compress w && cc then lookupName w name else (0, 0)) as [li ml].
  destruct (w_compress w && cc && negb (li =? 0) && (li <? maxCompressionOffset)) eqn:Econd.
  - (* a suffix was found *)
    apply andb_true_iff in Econd as [Econd Eli]. apply andb_true_iff in Econd as [_ Ene].
    apply Z.ltb_lt in Eli. unfold maxCompressionOffset in Eli.
    destruct Hfound as [[= -> ->]|(pre & suf & suf' & k & -> & Hne & Hci & Hcomp & _ & Hml)]; [done|].
    cbn [fst snd] in Hcomp, Hml.
    assert (ztake (zlen (d_storage name) - ml) (d_storage name) = enc_labels pre) as Htake.
    { rewrite Hs, Hml, storage_of_app, zlen_app, zlen_storage_of. apply ztake_app. lia. }
    rewrite Htake in H. exists (enc_labels pre ++ pointer_bytes li).
    destruct (compressed_suffix_entry mv (w_content w) pre suf suf' k li Hzl Hl Hv Hne Hci Hcomp Eli)
      as [Hlg Hrem].
    assert (ml = zlen (d_storage name) <-> pre = []) as Hpre.
    { rewrite Hs, Hml, storage_of_app, zlen_app, zlen_storage_of. split.
      - intros E. destruct pre as [|l pre]; [done|]. rewrite zlen_enc_labels_cons in E.
        pose proof (zlen_nonneg l). pose proof (zlen_nonneg (enc_labels pre)). lia.
      - intros ->. change (zlen (enc_labels [])) with 0. lia. }
    destruct (Z.eqb_spec ml (zlen (d_storage name))) as [E|E]; cbn [negb] in H.
    + injection H as <-. simpl. rewrite <- app_assoc. split; [done|]. split; [|done].
      apply (inv_name stale log w mv _ (pre ++ suf) (w_namepositions w)); [done|done|by left].
    + unfold note_position, sm_modify in H. injection H as <-.
      destruct (_ <? _); simpl; rewrite <- app_assoc; (split; [done|split; [|done]]).
      * apply (inv_name stale log w mv _ (pre ++ suf) (w_namepositions w ++ [zlen (w_content w)])); [done|done|].
        right. split; [done|]. apply Hrem. intros Hnil. by apply E, Hpre.
      * apply (inv_name stale log w mv _ (pre ++ suf) (w_namepositions w)); [done|done|by left].
  - (* the whole name *)
    set (ls := if w_lowerCase w then ci_labels ns else ns).
    assert ((if w_lowerCase w then d_storage (makeLowerCase name) else d_storage name) = storage_of ls) as Hraw.
    { unfold ls. destruct (w_lowerCase w); [|done]. simpl. rewrite Hs. by apply toLower_storage_of. }
    assert (valid_labels ls /\ ls <> [] /\ ci_labels ls = ci_labels ns) as (Hvl & Hnel & Hcil).
    { unfold ls. destruct (w_lowerCase w); [|done]. split_and!; [by apply valid_labels_ci|by destruct ns|].
      by apply ci_labels_idemp. }
    rewrite Hraw in H. exists (storage_of ls).
    pose proof (logged_plain mv (w_content w) ns ls Hzl Hl Hvl Hcil) as Hlg.
    pose proof (remembered_plain mv (w_content w) ls Hzl Hl Hvl Hnel) as Hrem.
    unfold note_position, sm_modify in H. injection H as <-.
    destruct (zlen (w_content w) <? maxCompressionOffset); cbn [w_content set_content add_nameposition w_sor]; (split; [done|split; [|done]]).
    + apply (inv_name stale log w mv _ ns (w_namepositions w ++ [zlen (w_content w)])); [done|done|].
      right. split; [done|]. by exists ls, 0%nat.
    + apply (inv_name stale log w mv _ ns (w_namepositions w)); [done|done|by left].
Qed.

(** ** Records *)

Lemma inv_ext stale log w w' mv :
  writer_inv stale log w mv -> w_content w' = w_content w -> w_namepositions w' = w_namepositions w ->
  w_sor w' = w_sor w -> w_qname w' = w_qname w -> w_truncatemarker w' = w_truncatemarker w ->
  (w_rollbackmarker w' = w_rollbackmarker w \/ w_rollbackmarker w' = zlen (w_content w)) -> writer_inv stale log w' mv.
Proof.
  intros [] Hc Hn Hs Hq Ht Hrb. split; rewrite ?Hc, ?Hn, ?Hs, ?Hq, ?Ht; try done. destruct Hrb as [-> | ->]; [done|lia].
Qed.

Lemma xfr16_Ok v w w' :
  w_xfr16BitInt v w = (w', Ok tt) -> w' = set_content (w_content w ++ be16 v) w.
Proof.
  intros H. apply sm_bind_Ok in H as (w1 & u & H1 & H2). unfold sm_throw_if in H1.
  destruct (65535 <? v); [done|]. injection H1 as <- _. by injection H2 as <-.
Qed.

Lemma xfr32_Ok v w w' :
  w_xfr32BitInt v w = (w', Ok tt) -> w' = set_content (w_content w ++ be32 v) w.
Proof.
  intros H. apply sm_bind_Ok in H as (w1 & u & H1 & H2). unfold sm_throw_if in H1.
  destruct (2 ^ 32 - 1 <? v); [done|]. injection H1 as <- _. by injection H2 as <-.
Qed.

Lemma hole_end (mv : bytes) : hole (mv ++ [masked; masked]) (zlen mv) 2.
Proof.
  intros j Hj. pose proof (zlen_nonneg mv). rewrite zat_app_r by lia.
  assert (j - zlen mv = 0 \/ j - zlen mv = 1) as [-> | ->] by lia; done.
Qed.

(** The owner name of a record: a pointer to the question, or a name. *)
Lemma inv_owner stale log w mv name ns compress w' :
  writer_inv stale log w mv -> represents name ns -> zlen (w_content w) <= maxCompressionOffset ->
  stale && looks_up w name compress && negb (name_eqb (w_qname w) name) = false ->
  (if compress && negb (isRoot name) && name_eqb (w_qname w) name then append [192; 12]
   else w_xfrName name compress) w = (w', Ok tt) ->
  exists x, w_content w' = w_content w ++ x
    /\ writer_inv stale (log ++ [(zlen (w_content w), ns, zlen (w_content w'))]) w' (mv ++ x)
    /\ w_sor w' = w_sor w.
Proof.
  intros Hinv Hname Hsmall Hlook H. destruct (compress && _ && _) eqn:E.
  2: { eapply inv_xfrName; [done..| |exact H]. unfold looks_up in *.
       destruct stale, (isRoot name), compress, (name_eqb (w_qname w) name), (w_compress w), (w_canonic w || w_lowerCase w); done. }
  apply andb_true_iff in E as [E1 E2]. apply andb_true_iff in E1 as [_ E1].
  rewrite (represents_isRoot _ _ Hname), negb_true_iff in E1. apply bool_decide_eq_false in E1.
  injection H as <-. exists [192; 12]. split; [done|]. split; [|done].
  pose proof (inv_qname _ _ _ _ Hinv) as (qs & Hqs & Hcq).
  apply (name_eqb_represents _ _ _ _ Hqs Hname) in E2.
  assert (qs <> []) as Hqne by (intros ->; by destruct ns).
  destruct (compressed_suffix_entry mv (w_content w) [] ns qs 0 12) as [Hlg _].
  - apply refines_zlen, (inv_refines _ _ _ _ Hinv).
  - apply (inv_length _ _ _ _ Hinv).
  - apply Hname.
  - done.
  - done.
  - rewrite <- (ztake_zdrop (w_truncatemarker w) mv). by apply compressed_app, Hcq.
  - done.
  - rewrite (pointer_bytes_spec 12) in Hlg by lia. cbn [app enc_labels map concat] in Hlg.
    apply (inv_name stale log w mv [192; 12] ns (w_namepositions w)); [done|exact Hlg|by left].
Qed.

Lemma inv_startRecord stale log w mv name ns qtype ttl qclass place compress w' :
  writer_inv stale log w mv -> represents name ns -> zlen (w_content w) <= maxCompressionOffset ->
  stale && looks_up (set_compress compress w) name compress && negb (name_eqb (w_qname w) name) = false ->
  startRecord name qtype ttl qclass place compress w = (w', Ok tt) ->
  exists mv', writer_inv stale (log ++ [(zlen (w_content w), ns, zlen (w_content w') - 10)]) w' mv'.
Proof.
  intros Hinv Hname Hsmall Hlook H. unfold startRecord in H.
  apply sm_bind_Ok in H as (w1 & u1 & [= <- _] & H).
  apply sm_bind_Ok in H as (w2 & [] & Hcommit & H).
  pose proof Hcommit as Hmode. apply commit_mode in Hmode.
  apply (inv_commit stale log _ mv) in Hcommit as (Hinv2 & Hlen2 & Hsor2 & _ & Hcomp2 & Hq2);
    [|by apply (inv_ext stale log w); auto]. cbn [w_content set_compress] in Hlen2.
  apply sm_bind_Ok in H as (w3 & wg & [= <- <-] & H).
  apply sm_bind_Ok in H as (w3 & u3 & Hthrow & H). unfold sm_throw_if in Hthrow.
  destruct (65535 <? zlen (w_content w2)); [done|]. injection Hthrow as <- _.
  apply sm_bind_Ok in H as (w4 & u4 & [= <- _] & H).
  apply sm_bind_Ok in H as (w5 & [] & Howner & H).
  change (w_qname w2) with (w_qname (set_rollbackmarker (zlen (w_content w2)) w2)) in Howner.
  apply (inv_owner stale log _ mv name ns) in Howner as (x & Hx & Hinv5 & Hsor5); [|by apply (inv_ext stale log w2); auto|done|..].
  2: { cbn [w_content set_rollbackmarker]. by rewrite Hlen2. }
  2: { rewrite <- Hlook. unfold looks_up in *. cbn [w_compress w_canonic w_lowerCase w_qname set_rollbackmarker set_compress] in *.
       by rewrite Hcomp2, Hq2, Hmode. }
  cbn [w_content w_sor set_rollbackmarker] in Hx, Hinv5, Hsor5. rewrite Hlen2 in Hinv5. rewrite Hsor2 in Hsor5.
  apply sm_bind_Ok in H as (w6 & [] & ->%xfr16_Ok & H).
  apply sm_bind_Ok in H as (w7 & [] & ->%xfr16_Ok & H).
  apply sm_bind_Ok in H as (w8 & [] & ->%xfr32_Ok & H).
  apply sm_bind_Ok in H as (w9 & [] & ->%xfr16_Ok & H).
  apply sm_bind_Ok in H as (w10 & u10 & [= <- _] & H). injection H as <-.
  cbn [w_content set_content set_recordplace set_sor] in *.
  set (L := log ++ [(zlen (w_content w), ns, zlen (w_content w5))]) in *.
  pose proof (inv_append stale L w5 (mv ++ x) _ _ Hinv5 (refines_refl (be16 qtype))) as I6.
  pose proof (inv_append stale L _ _ _ _ I6 (refines_refl (be16 qclass))) as I7.
  pose proof (inv_append stale L _ _ _ _ I7 (refines_refl (be32 ttl))) as I8.
  pose proof (inv_append stale L _ _ [masked; masked] (be16 0) I8) as I9.
  cbn [w_content set_content] in *.
  assert (zlen (((((w_content w5 ++ be16 qtype) ++ be16 qclass) ++ be32 ttl) ++ be16 0)) - 10
          = zlen (w_content w5)) as Hend by (rewrite !zlen_app, !zlen_be16, zlen_be32; lia).
  rewrite Hend. fold L. eexists. specialize (I9 ltac:(repeat constructor; by left)).
  destruct I9 as [Hr Hh Hl Hrb Hp Hn Hlog Hq]. split; simpl in *; try done.
  intros _. pose proof (refines_zlen _ _ (inv_refines _ _ _ _ I8)) as Hz. cbn [w_content set_content] in Hz.
  pose proof (inv_length _ _ _ _ I8) as H12. cbn [w_content set_content] in H12.
  rewrite (zlen_app _ (be16 0)), zlen_be16. split; [lia|].
  replace (zlen (((w_content w5 ++ be16 qtype) ++ be16 qclass) ++ be32 ttl) + 2 - 2)
    with (zlen ((((mv ++ x) ++ be16 qtype) ++ be16 qclass) ++ be32 ttl)) by lia.
  apply hole_end.
Qed.

Lemma hole_replicate n : hole (replicate n masked) 0 (Z.of_nat n).
Proof.
  intros j Hj. unfold zat. rewrite (proj2 (Z.ltb_ge _ _)) by lia.
  apply lookup_replicate. split; [done|lia].
Qed.

Lemma refines_replicate c : refines (replicate (length c) masked) c.
Proof. induction c; constructor; auto. Qed.

Lemma inv_set_truncate stale log w mv :
  writer_inv stale log w mv -> w_rollbackmarker w = 0 -> writer_inv stale log (set_truncatemarker (zlen (w_content w)) w) mv.
Proof.
  intros Hinv Hrb. pose proof (inv_length _ _ _ _ Hinv). destruct Hinv as [Hr Hh Ht _ Hp Hn Hlog (qs & Hqs & Hcq)].
  split; cbn; try done; try lia. exists qs. split; [done|]. intros Hne. rewrite ztake_all by (rewrite (refines_zlen _ _ Hr); lia).
  rewrite <- (ztake_zdrop (w_truncatemarker w) mv). by apply compressed_app, Hcq.
Qed.

(** ** Taking back *)

(** The names that end within the first [n] bytes. *)
Definition kept (n : Z) (log : name_log) : name_log := List.filter (fun x => snd x <=? n) log.

Lemma kept_logged mv n log : Forall (logged mv) log -> Forall (logged (ztake n mv)) (kept n log).
Proof.
  rewrite !Forall_forall. intros H [[p ns] e] [Hin Hle%Z.leb_le]%list_elem_of_In%filter_In. apply list_elem_of_In in Hin.
  apply logged_ztake; [by apply H|done].
Qed.

Lemma refines_ztake n mv c : refines mv c -> refines (ztake n mv) (ztake n c).
Proof. apply Forall2_take. Qed.

Lemma hole_ztake mv n i k : hole mv i k -> i + k <= n -> 0 <= i -> hole (ztake n mv) i k.
Proof.
  intros Hh Hn Hi j Hj. rewrite <- (Hh j Hj). unfold zat, ztake. destruct (j <? 0); [done|]. rewrite lookup_take_lt by lia. done.
Qed.

Lemma resize_smaller n c : n <= zlen c -> resize n c = ztake n c.
Proof. intros Hn. unfold resize. replace (Z.to_nat (n - zlen c)) with O by lia. by rewrite app_nil_r. Qed.

(** A shorter packet, cut at [n], from the marker for truncation on. *)
Lemma inv_cut stale log w mv n w' :
  writer_inv stale log w mv -> w_truncatemarker w <= n <= zlen (w_content w) -> w_content w' = ztake n (w_content w) ->
  w_sor w' = 0 -> w_qname w' = w_qname w -> w_truncatemarker w' = w_truncatemarker w ->
  w_rollbackmarker w' = w_rollbackmarker w ->
  writer_inv true (kept n log) w' (ztake n mv).
Proof.
  intros [Hr Hh Ht Hrb Hp Hn Hlog (qs & Hqs & Hcq)] Hle Hc Hs Hq Htm Hrm.
  assert (zlen (ztake n (w_content w)) = n) as Hz by (rewrite zlen_ztake by lia; lia).
  split; rewrite ?Hc, ?Hs, ?Hq, ?Htm, ?Hrm, ?Hz; try done; try lia.
  - by apply refines_ztake.
  - apply hole_ztake; [done|lia|lia].
  - by apply kept_logged.
  - exists qs. split; [done|]. intros Hne. replace (ztake _ (ztake n mv)) with (ztake (w_truncatemarker w) mv); [by apply Hcq|].
    unfold ztake. rewrite take_take. f_equal. lia.
Qed.

Lemma inv_rollback_op stale log w mv w' :
  writer_inv stale log w mv -> w_rollbackmarker w <> 0 -> w_rollbackmarker w <= zlen (w_content w) -> rollback w = (w', Ok tt) ->
  writer_inv true (kept (w_rollbackmarker w) log) w' (ztake (w_rollbackmarker w) mv).
Proof.
  intros Hinv Hne Hle [= <-]. pose proof (inv_rollback _ _ _ _ Hinv Hne). eapply inv_cut; [exact Hinv|lia|by apply resize_smaller|done..].
Qed.

Lemma inv_truncate_op stale log w mv w' :
  writer_inv stale log w mv -> w_sor w = 0 -> truncate w = (w', Ok tt) ->
  writer_inv true (kept (w_truncatemarker w) log) w' (ztake (w_truncatemarker w) mv).
Proof.
  intros Hinv Hs. unfold truncate. set (zeros := be16 0 ++ be16 0 ++ be16 0). assert (zlen zeros = 6) as H6 by done. clearbody zeros.
  intros [= <-]. pose proof (inv_truncate _ _ _ _ Hinv) as Ht.
  assert (writer_inv true (kept (w_truncatemarker w) log) (set_content (ztake (w_truncatemarker w) (w_content w)) w)
            (ztake (w_truncatemarker w) mv)) as [Hr Hh Ht' Hrb Hp Hn Hlog Hq].
  { eapply inv_cut; [exact Hinv|lia|done..]. }
  cbn in *.
  assert (zlen (ztake (w_truncatemarker w) (w_content w)) = w_truncatemarker w) as Hz by (rewrite zlen_ztake by lia; lia).
  rewrite resize_smaller by lia. split; cbn; rewrite ?zlen_zwrite by lia; try done.
  apply refines_zwrite; [done|lia|lia|]. intros j Hj. apply Hh. lia.
Qed.

Lemma inv_start qname qs qtype qclass opcode w :
  represents qname qs -> writer_start qname qtype qclass opcode = Ok w ->
  exists mv, writer_inv false [(12, qs, zlen (w_content w) - 4)] w mv.
Proof.
  intros Hq. unfold writer_start. set (h := header_bytes _).
  assert (zlen h = 12) as Hh by done. assert (length h = 12%nat) as Hh' by done.
  clearbody h. set (w0 := mkWriter h [] qname 0 0 0 QUESTION false false false).
  destruct ((_ ← w_xfrName qname false; _ ← w_xfr16BitInt qtype; w_xfr16BitInt qclass) w0)
    as [w3 [u|e]] eqn:E; [|done]. intros H. bind_inv H. injection H as <-.
  apply sm_bind_Ok in E as (w1 & [] & E1 & E). apply sm_bind_Ok in E as (w2 & [] & E2 & E3).
  destruct u. apply xfr16_Ok in E2 as ->. apply xfr16_Ok in E3 as ->.
  set (mv0 := replicate 12 masked : bytes).
  assert (refines mv0 h) as Hr0. { unfold mv0. rewrite <- Hh'. apply refines_replicate. }
  assert (zlen mv0 = zlen h) as Hz0 by by apply refines_zlen.
  pose proof Hq as (Hs & Hv & Hle).
  assert (exists nps, w1 = mkWriter (h ++ storage_of qs) nps qname 0 0 0 QUESTION false false false
          /\ (nps = [] \/ nps = [12] /\ qs <> [])) as (nps & -> & Hnps).
  { unfold w_xfrName, mbind, SM_bind, sm_get in E1. cbn [w_canonic w_lowerCase w_compress orb andb w0] in E1.
    rewrite (represents_not_empty _ _ Hq), (represents_isRoot _ _ Hq) in E1. cbn [orb] in E1.
    case_bool_decide as Hroot.
    - injection E1 as <-. subst qs. exists []. split; [done|by left].
    - unfold note_position, sm_modify in E1. injection E1 as <-. cbn [w_content w0]. rewrite Hh.
      cbn [Z.ltb Z.compare]. exists [12]. rewrite Hs. split; [done|]. by right. }
  assert (writer_inv false [(12, qs, zlen (h ++ storage_of qs))]
            (mkWriter (h ++ storage_of qs) nps qname 0 0 (zlen (h ++ storage_of qs)) QUESTION false false false)
            (mv0 ++ storage_of qs)) as Hinv.
  { pose proof (logged_plain mv0 h qs qs Hz0 ltac:(lia) Hv eq_refl) as Hlg. rewrite Hh in Hlg.
    assert (qs <> [] -> compressed (mv0 ++ storage_of qs) 12 qs 0) as Hcomp.
    { intros Hne. rewrite <- Hh. by apply remembered_plain; [|lia|..]. }
    split; cbn [w_content w_namepositions w_sor w_qname w_truncatemarker w_rollbackmarker].
    - apply refines_app; [done|apply refines_refl].
    - apply hole_app. apply (hole_replicate 12).
    - rewrite zlen_app. pose proof (zlen_storage_pos qs). lia.
    - done.
    - done.
    - intros _. destruct Hnps as [->|[-> Hne]]; [constructor|]. constructor; [|constructor]. exists qs, 0%nat. auto.
    - by constructor.
    - exists qs. rewrite ztake_all by (rewrite !zlen_app; lia). done. }
  pose proof (inv_append _ _ _ _ _ _ Hinv (refines_refl (be16 qtype))) as I2.
  pose proof (inv_append _ _ _ _ _ _ I2 (refines_refl (be16 qclass))) as I3.
  pose proof (inv_set_truncate _ _ _ _ I3 eq_refl) as I4.
  cbn [w_content set_content set_truncatemarker] in *. eexists.
  assert (zlen (((h ++ storage_of qs) ++ be16 qtype) ++ be16 qclass) - 4 = zlen (h ++ storage_of qs)) as ->
    by (rewrite !(zlen_app _ (be16 _)), !zlen_be16; lia).
  exact I4.
Qed.

(** ** The names of a packet under construction *)

(** The histories of a writer: the question, records, names and bytes of their
    contents, commits, changes of mode, rollbacks of the record that was started and
    truncations when no record is under construction.
    The log has a name, its position and where it ends, for each name that is still in
    the packet.  Packets stay within the reach of pointers.  The positions of names
    that were taken back stay remembered: from then on ([stale]) the histories are those
    in which names are written that are not looked up among them, such as the root name
    of an OPT record, the name of the question as an owner, or names that are not
    compressed. *)
Inductive writes : bool -> name_log -> GenericDNSPacketWriter -> Prop :=
| writes_start qname qs qtype qclass opcode w :
    represents qname qs -> writer_start qname qtype qclass opcode = Ok w ->
    writes false [(12, qs, zlen (w_content w) - 4)] w
| writes_record stale log w name ns qtype ttl qclass place compress w' :
    writes stale log w -> represents name ns -> zlen (w_content w) <= maxCompressionOffset ->
    stale && looks_up (set_compress compress w) name compress && negb (name_eqb (w_qname w) name) = false ->
    startRecord name qtype ttl qclass place compress w = (w', Ok tt) ->
    writes stale (log ++ [(zlen (w_content w), ns, zlen (w_content w') - 10)]) w'
| writes_name stale log w name ns compress w' :
    writes stale log w -> represents name ns -> zlen (w_content w) <= maxCompressionOffset ->
    stale && looks_up w name compress = false ->
    w_xfrName name compress w = (w', Ok tt) ->
    writes stale (log ++ [(zlen (w_content w), ns, zlen (w_content w'))]) w'
| writes_bytes stale log w b w' : writes stale log w -> append b w = (w', Ok tt) -> writes stale log w'
| writes_commit stale log w w' : writes stale log w -> commit w = (w', Ok tt) -> writes stale log w'
| writes_mode stale log w canonic lower :
    writes stale log w -> writes stale log (setCanonic canonic (setLowercase lower w))
| writes_rollback stale log w w' :
    writes stale log w -> 0 < w_rollbackmarker w <= zlen (w_content w) -> rollback w = (w', Ok tt) ->
    writes true (kept (w_rollbackmarker w) log) w'
| writes_truncate stale log w w' :
    writes stale log w -> w_sor w = 0 -> truncate w = (w', Ok tt) -> writes true (kept (w_truncatemarker w) log) w'.

Lemma writes_inv stale log w : writes stale log w -> exists mv, writer_inv stale log w mv.
Proof.
  induction 1 as [qname qs qtype qclass opcode w Hq Hw
    |stale log w name ns qtype ttl qclass place compress w' _ [mv IH] Hn Hc Hl Hw
    |stale log w name ns compress w' _ [mv IH] Hn Hc Hl Hw
    |stale log w b w' _ [mv IH] Hw|stale log w w' _ [mv IH] Hw|stale log w canonic lower _ [mv IH]
    |stale log w w' _ [mv IH] Hm Hw|stale log w w' _ [mv IH] Hs Hw].
  - by eapply inv_start.
  - by eapply inv_startRecord.
  - destruct (inv_xfrName _ _ _ _ _ _ _ _ IH Hn Hc Hl Hw) as (x & _ & Hinv & _). eauto.
  - injection Hw as <-. exists (mv ++ b). apply inv_append; [done|apply refines_refl].
  - apply (inv_commit _ _ _ _ _ IH) in Hw as [Hw _]. eauto.
  - exists mv. eapply inv_ext; [exact IH|done..|by left].
  - eexists. eapply inv_rollback_op; [exact IH|lia|lia|done].
  - eexists. by eapply inv_truncate_op.
Qed.

(** C1: name compression is lossless.  Every name in a packet of up to 16 KB, as the
    owner of a record or inside its content, compressed or not, is read back from the
    packet at the place it was written, equal to the original up to case, provided it
    has at most 10 labels; and it is followed by what was written after it.  Records
    may be rolled back and packets truncated, which takes away none of the names before;
    after that, names written are ones that are not looked up among the positions of
    earlier names, which [rollback] does not forget ([compression_wrong_after_rollback]
    is what happens otherwise). *)
Theorem compression_round_trip (stale : bool) (log : name_log) (w : GenericDNSPacketWriter) (p e : Z) (name : DNSName)
    (ns : list bytes) :
  writes stale log w -> (p, ns, e) ∈ log -> represents name ns -> (length ns <= 10)%nat ->
  exists r, DNSName_from_wire default_limits (w_content w) p true false false 12 None = Ok r
            /\ name_eqb (mkDNSName (p_storage r)) name = true /\ p + p_consumed r = e.
Proof.
  intros Hw Hin Hname Hlen. destruct (writes_inv _ _ _ Hw) as [mv [Hr _ _ _ _ _ Hlog _]].
  rewrite Forall_forall in Hlog. destruct (Hlog _ Hin) as [_ (ls & k & Hwn & Hci & Hk)].
  apply (written_name_app 12 _ (zdrop e mv)) in Hwn; [|lia]. rewrite ztake_zdrop in Hwn.
  apply (written_name_refines 12 mv (w_content w)) in Hwn; [|lia|done].
  pose proof (written_name_valid _ _ _ _ _ _ Hwn) as Hv.
  assert (zlen (storage_of ls) <= 255) as Hsz.
  { rewrite <- zlen_storage_of_ci, Hci, zlen_storage_of_ci. apply Hname. }
  rewrite (from_wire_written default_limits _ _ _ _ _ _ Hwn); [|lia|done|simpl; lia|done].
  eexists. split; [done|]. cbn [p_storage p_consumed]. split; [|lia].
  apply (name_eqb_represents _ _ ls ns); [by split_and!|done|done].
Qed.

(** A response with two records whose names share the suffix of the question. *)
Definition ex_n (ls : list bytes) : DNSName := mkDNSName (storage_of ls).
Definition ex_question : list bytes := [bs "www"; bs "powerdns"; bs "com"].
Definition ex_owner : list bytes := [bs "mail"; bs "PowerDNS"; bs "com"].

Definition blank_writer : GenericDNSPacketWriter :=
  mkWriter [] [] (mkDNSName []) 0 0 0 QUESTION false false false.

Definition started (qs : list bytes) : GenericDNSPacketWriter :=
  match writer_start (ex_n qs) QType.A QClass.IN 0 with Ok w => w | Throw _ => blank_writer end.

Definition ex_writer1 : GenericDNSPacketWriter :=
  fst (startRecord (ex_n ex_owner) QType.MX 300 QClass.IN ANSWER true (started ex_question)).

Definition ex_writer2 : GenericDNSPacketWriter :=
  fst (w_xfrName (ex_n ex_question) true (fst (append [0; 10] ex_writer1))).

Definition ex_writer3 : GenericDNSPacketWriter := fst (commit ex_writer2).

(** A third record is rolled back, and the OPT record follows. *)
Definition ex_writer4 : GenericDNSPacketWriter :=
  fst (startRecord (ex_n (bs "ftp" :: ex_owner)) QType.A 300 QClass.IN ANSWER true ex_writer3).
Definition ex_writer5 : GenericDNSPacketWriter := fst (rollback ex_writer4).
Definition ex_writer6 : GenericDNSPacketWriter := fst (startRecord (ex_n []) QType.OPT 0 1232 ADDITIONAL false ex_writer5).

Definition ex_log : name_log := [(12, ex_question, 30); (34, ex_owner, 41); (53, ex_question, 55)].

Lemma ex_writer3_writes : writes false ex_log ex_writer3.
Proof.
  apply (writes_commit _ _ ex_writer2); [|by vm_compute].
  replace ex_log
    with (([(12, ex_question, zlen (w_content (started ex_question)) - 4)]
           ++ [(zlen (w_content (started ex_question)), ex_owner, zlen (w_content ex_writer1) - 10)])
          ++ [(zlen (w_content (fst (append [0; 10] ex_writer1))), ex_question, zlen (w_content ex_writer2))])
    by by vm_compute.
  apply (writes_name _ _ _ (ex_n ex_question) ex_question true); [|by_decide|by vm_compute|done|by vm_compute].
  apply (writes_bytes _ _ ex_writer1 [0; 10]); [|by vm_compute].
  apply (writes_record _ _ _ (ex_n ex_owner) ex_owner QType.MX 300 QClass.IN ANSWER true);
    [|by_decide|by vm_compute|done|by vm_compute].
  apply (writes_start (ex_n ex_question) ex_question QType.A QClass.IN 0); [by_decide|by vm_compute].
Qed.

Lemma ex_writer6_writes : writes true (ex_log ++ [(55, [], 56)]) ex_writer6.
Proof.
  replace (ex_log ++ [(55, [], 56)]) with (kept (w_rollbackmarker ex_writer4)
      (ex_log ++ [(zlen (w_content ex_writer3), bs "ftp" :: ex_owner, zlen (w_content ex_writer4) - 10)])
    ++ [(zlen (w_content ex_writer5), [], zlen (w_content ex_writer6) - 10)]) by by vm_compute.
  apply (writes_record _ _ _ (ex_n []) [] QType.OPT 0 1232 ADDITIONAL false); [|by_decide|by vm_compute|by vm_compute|by vm_compute].
  apply (writes_rollback false); [|by vm_compute|by vm_compute].
  apply (writes_record _ _ _ (ex_n (bs "ftp" :: ex_owner)) (bs "ftp" :: ex_owner) QType.A 300 QClass.IN ANSWER true);
    [exact ex_writer3_writes|by_decide|by vm_compute|done|by vm_compute].
Qed.

Lemma compression_round_trip_witness :
  exists r, DNSName_from_wire default_limits (w_content ex_writer6) 34 true false false 12 None = Ok r
            /\ name_eqb (mkDNSName (p_storage r)) (ex_n ex_owner) = true /\ 34 + p_consumed r = 41.
Proof.
  apply (compression_round_trip true (ex_log ++ [(55, [], 56)]) ex_writer6 34 41 (ex_n ex_owner) ex_owner);
    [exact ex_writer6_writes|by_decide|by_decide|by vm_compute; lia].
Defined.

(** ** Where it fails *)

(** A packet in which the first label of [aaa.bb.com] is written just before the
    offset pointers can reach, and its other labels at and after it. *)
Definition big_writer : GenericDNSPacketWriter :=
  fst ((_ ← startRecord (ex_n [bs "q"]) QType.TXT 60 QClass.IN ANSWER true;
        _ ← append (repeat 0 16349);
        _ ← startRecord (ex_n [bs "aaa"; bs "bb"; bs "com"]) QType.A 60 QClass.IN ANSWER true;
        _ ← append [192; 0; 2; 1];
        commit) (started [bs "q"])).

(** beyond 16 KB compression is not lossless: the labels of a known name that
    pointers cannot reach are ignored, and a name equal to the labels before them
    is taken for the whole of it.  [aaa.] is written as a pointer to
    [aaa.bb.com.]. *)
Theorem compression_wrong_beyond_16k :
  exists w', w_xfrName (ex_n [bs "aaa"]) true big_writer = (w', Ok tt)
    /\ match DNSName_from_wire default_limits (w_content w') (zlen (w_content big_writer))
             true false false 12 None with
       | Ok r => mkDNSName (p_storage r) = ex_n [bs "aaa"; bs "bb"; bs "com"]
       | Throw _ => False
       end.
Proof. eexists. split; [by vm_compute|by vm_compute]. Qed.

(** Owner names each of which is the one before with a label more in front. *)
Fixpoint growing_name (k : nat) : list bytes :=
  match k with O => [] | S k' => (bs "a" ++ to_string (Z.of_nat k)) :: growing_name k' end.

Fixpoint growing_records (ks : list nat) : W unit :=
  match ks with
  | [] => mret tt
  | k :: ks' =>
      _ ← startRecord (ex_n (growing_name k)) QType.A 60 QClass.IN ANSWER true;
      _ ← append [192; 0; 2; 1];
      growing_records ks'
  end.

Definition growing_packet : bytes :=
  w_content (fst ((_ ← growing_records (seq 1 12); commit) (started [bs "q"]))).

(** the bound on labels cannot be dropped: the writer follows 50 pointers when
    it looks for a name to point to, the parser gives up after 10.  A packet with
    twelve owner names, each the one before with a label more, is written without
    complaint and refused by the parser. *)
Theorem compression_too_deep_for_parser :
  snd ((_ ← growing_records (seq 1 12); commit) (started [bs "q"])) = Ok tt
  /\ is_ok (MOADNSParser_init (fun _ => None (A := SM PacketReader unit)) default_limits false
              growing_packet 0) = false.
Proof. split; by vm_compute. Qed.

(** A record with a name in its content is rolled back, and one with a text, at the
    same place, is written instead. *)
Definition rolled_back : GenericDNSPacketWriter :=
  fst ((_ ← startRecord (ex_n [bs "q"]) QType.NS 60 QClass.IN ANSWER true;
        _ ← w_xfrName (ex_n [bs "ns"; bs "q"]) true;
        _ ← rollback;
        _ ← startRecord (ex_n [bs "q"]) QType.TXT 60 QClass.IN ANSWER true;
        _ ← w_xfrText ([34] ++ bs "foo" ++ [34]) true;
        startRecord (ex_n [bs "foo"]) QType.A 60 QClass.IN ANSWER true) (started [bs "q"])).

(** after a rollback compression is not lossless either: the positions of the
    names that were removed are still known, and bytes written there since are
    taken for labels.  The owner [foo.] is written as a pointer into the text of
    the record before, and cannot be read back. *)
Theorem compression_wrong_after_rollback :
  w_sor rolled_back = 47
  /\ is_ok (DNSName_from_wire default_limits (w_content rolled_back) 35 true false false 12 None) = false.
Proof. split; by vm_compute. Qed.
