(* ===== verification/Base32.v ===== *)
(** * base32hex

    [pdns/base32.cc]: the encoding of the hashed owner names of NSEC3. *)

From S2P Require Import Prelude.

#[local] Open Scope Z_scope.

(** ** The model *)

(** [s] is a C string: the byte after its last one is 0. *)
Definition extract_bits (s : bytes) (start length_ : Z) : Z :=
  if length_ =? 0 then 0
  else
    let cl := byte_at s (start / 8) in
    let cc := if start / 8 <? (start + length_ - 1) / 8 then byte_at s (start / 8 + 1) else 0 in
    let x := u16 (Z.lor (Z.shiftl cl 8) cc) in
    let x := Z.shiftr x (16 - (length_ + start mod 8)) in
    u8 (Z.land x (Z.shiftr 65535 (16 - length_))).

(** [s[i] |= v]. *)
Definition or_at (s : bytes) (i v : Z) : bytes :=
  <[Z.to_nat i := Z.lor (byte_at s i) v]> s.

Definition set_bits (s : bytes) (x start length_ : Z) : bytes :=
  let shift := (8 - (start + length_) mod 8) mod 8 in
  let y := u32 (Z.shiftl x shift) in
  let cl := Z.land (Z.shiftr y 16) 255 in
  let cc := Z.land (Z.shiftr y 8) 255 in
  let cr := Z.land y 255 in
  if 16 <? shift + length_ then
    or_at (or_at (or_at s (start / 8) cl) (start / 8 + 1) cc) (start / 8 + 2) cr
  else if 8 <? shift + length_ then
    or_at (or_at s (start / 8) cc) (start / 8 + 1) cr
  else or_at s (start / 8) cr.

Definition unbase32hex (c : Z) : Z :=
  if (48 <=? c) && (c <=? 57) then c - 48
  else if (97 <=? c) && (c <=? 122) then 10 + (c - 97)
  else if (65 <=? c) && (c <=? 90) then 10 + (c - 65)
  else if c =? 61 then 61
  else -1.

Definition base32hex : bytes := bs "0123456789abcdefghijklmnopqrstuv=".

Definition stuffing (todo : Z) : Z :=
  if todo =? 1 then 6 else if todo =? 2 then 4 else if todo =? 3 then 3
  else if todo =? 4 then 1 else 0.

(** One round of the loop, on the input from the offset on. *)
Definition base32_group (s : bytes) : bytes :=
  let stuff := stuffing (zlen s) in
  map (fun n => byte_at base32hex (extract_bits s (n * 5) 5)) (seqZ 0 (8 - stuff))
  ++ replicate (Z.to_nat stuff) 61.

Fixpoint toBase32Hex_loop (fuel : nat) (s : bytes) : bytes :=
  match fuel, s with
  | S fuel', _ :: _ => base32_group s ++ toBase32Hex_loop fuel' (drop 5 s)
  | _, _ => []
  end.

Definition toBase32Hex (input : bytes) : bytes := toBase32Hex_loop (length input) input.

Definition zero_block : bytes := [0; 0; 0; 0; 0].

Fixpoint fromBase32Hex_loop (input : bytes) (n toWrite : Z) (block ret : bytes) : bytes :=
  match input with
  | [] => ret ++ ztake (toWrite * 5 / 8) block
  | ch :: input' =>
      let c := unbase32hex ch in
      if (c =? 61) || (c <? 0) then ret ++ ztake (toWrite * 5 / 8) block
      else
        let block := set_bits block c (n mod 8 * 5) 5 in
        if toWrite + 1 =? 8 then fromBase32Hex_loop input' (n + 1) 0 zero_block (ret ++ block)
        else fromBase32Hex_loop input' (n + 1) (toWrite + 1) block ret
  end.

Definition fromBase32Hex (input : bytes) : bytes := fromBase32Hex_loop input 0 0 zero_block [].

(** ** Five bits at a time *)

Lemma lor_low a b k : 0 <= k -> 0 <= b < 2 ^ k -> Z.lor (a * 2 ^ k) b = a * 2 ^ k + b.
Proof.
  intros Hk Hb. rewrite <- Z.lxor_lor, <- Z.add_nocarry_lxor; [done|..];
    apply Z.bits_inj_0; intros i; rewrite Z.land_spec;
    (destruct (Z.ltb_spec i k); [by rewrite Z.mul_pow2_bits_low|]);
    rewrite <- (Z.mod_small b (2 ^ k)) by done;
    by rewrite Z.mod_pow2_bits_high, andb_false_r by lia.
Qed.

(** The five bits from [start] on of a group of five bytes, as a number. *)
Definition five (s : bytes) (start : Z) : Z :=
  (byte_at s (start / 8) * 256 + byte_at s (start / 8 + 1)) / 2 ^ (11 - start mod 8) mod 32.

Lemma byte_at_ok s i : bytes_ok s -> 0 <= byte_at s i < 256.
Proof.
  intros Hs. unfold byte_at. destruct (zat s i) eqn:E; simpl; [|lia].
  by apply (bytes_ok_zat s i).
Qed.

Lemma extract_five s start :
  bytes_ok s -> 0 <= start -> extract_bits s start 5 = five s start.
Proof.
  intros Hs Hn. unfold extract_bits, five. cbn [Z.eqb].
  pose proof (byte_at_ok s (start / 8) Hs). pose proof (byte_at_ok s (start / 8 + 1) Hs).
  set (cl := byte_at s (start / 8)) in *. set (cc := byte_at s (start / 8 + 1)) in *.
  pose proof (Z.div_mod start 8 ltac:(lia)) as Hdm. pose proof (Z.mod_pos_bound start 8 ltac:(lia)).
  set (i := start / 8) in *. set (r := start mod 8) in *.
  change (Z.shiftr 65535 (16 - 5)) with (Z.ones 5).
  rewrite Z.shiftl_mul_pow2, Z.land_ones, Z.shiftr_div_pow2 by lia.
  assert (forall v, 0 <= v < 256 -> u16 (Z.lor (cl * 2 ^ 8) v) = cl * 256 + v) as Hlor.
  { intros v Hv. rewrite (lor_low cl v 8) by lia. unfold u16. apply Z.mod_small. lia. }
  replace (16 - (5 + r)) with (11 - r) by lia. unfold u8.
  rewrite (Z.mod_small (_ mod 2 ^ 5)) by (pose proof (Z.mod_pos_bound
    (u16 (Z.lor (cl * 2 ^ 8) (if i <? (start + 5 - 1) / 8 then cc else 0)) / 2 ^ (11 - r)) (2 ^ 5)); lia).
  destruct (Z.ltb_spec i ((start + 5 - 1) / 8)) as [Hlt|Hge]; [by rewrite Hlor|].
  rewrite Hlor by lia. assert (r <= 3) by (Z.to_euclidean_division_equations; lia).
  replace (11 - r) with (8 + (3 - r)) by lia. rewrite Z.pow_add_r by lia.
  rewrite <- !Z.div_div by lia. change (2 ^ 8) with 256. change (2 ^ 5) with 32.
  rewrite !Z.div_add_l by lia. rewrite (Z.div_small cc), (Z.div_small 0) by lia. done.
Qed.

Lemma five_range s start : 0 <= five s start < 32.
Proof. apply Z.mod_pos_bound. lia. Qed.

Lemma unbase32hex_digit v : 0 <= v < 32 -> unbase32hex (byte_at base32hex v) = v.
Proof.
  intros Hv.
  assert (Forall (fun v => unbase32hex (byte_at base32hex v) = v) (seqZ 0 32)) as H by by_decide.
  rewrite Forall_forall in H. apply H, elem_of_seqZ. lia.
Qed.

Lemma set_bits_five block x start shift :
  shift = (8 - (start + 5) mod 8) mod 8 -> 0 <= x < 32 ->
  set_bits block x start 5
  = if 8 <? shift + 5
    then or_at (or_at block (start / 8) (x * 2 ^ shift / 256)) (start / 8 + 1) (x * 2 ^ shift mod 256)
    else or_at block (start / 8) (x * 2 ^ shift).
Proof.
  intros Hs Hx. unfold set_bits. rewrite <- Hs.
  assert (0 <= shift < 8) by (subst shift; apply Z.mod_pos_bound; lia). clear Hs.
  rewrite Z.shiftl_mul_pow2 by lia.
  assert (0 < 2 ^ shift) by (apply Z.pow_pos_nonneg; lia).
  assert (2 ^ shift <= 2 ^ 7) by (apply Z.pow_le_mono_r; lia). change (2 ^ 7) with 128 in *.
  assert (u32 (x * 2 ^ shift) = x * 2 ^ shift) as ->
    by (unfold u32; apply Z.mod_small; change (2 ^ 32) with 4294967296; nia).
  change 255 with (Z.ones 8). rewrite !Z.land_ones, !Z.shiftr_div_pow2 by lia.
  change (2 ^ 8) with 256. change (2 ^ 16) with 65536.
  rewrite (proj2 (Z.ltb_ge 16 _)) by lia.
  rewrite (Z.mod_small (_ / 256)) by (split; [apply Z.div_pos; nia|apply Z.div_lt_upper_bound; nia]).
  destruct (Z.ltb_spec 8 (shift + 5)) as [|Hsm]; [done|].
  assert (2 ^ shift <= 2 ^ 3) by (apply Z.pow_le_mono_r; lia). change (2 ^ 3) with 8 in *.
  rewrite (Z.mod_small (x * 2 ^ shift)) by nia. done.
Qed.

Lemma or_at_app pre y post i v :
  i = zlen pre -> or_at (pre ++ y :: post) i v = pre ++ Z.lor y v :: post.
Proof.
  intros ->. unfold or_at, byte_at. rewrite zat_app_r, Z.sub_diag by lia. simpl.
  apply insert_middle. unfold zlen. lia.
Qed.

(** ** One group *)

Lemma from_step v rest n tw block ret :
  0 <= v < 32 -> n mod 8 = tw -> tw < 7 ->
  fromBase32Hex_loop (byte_at base32hex v :: rest) n tw block ret
  = fromBase32Hex_loop rest (n + 1) (tw + 1) (set_bits block v (tw * 5) 5) ret.
Proof.
  intros Hv Hn Ht. cbn [fromBase32Hex_loop]. rewrite unbase32hex_digit by done.
  rewrite (proj2 (Z.eqb_neq v 61)), (proj2 (Z.ltb_ge v 0)) by lia. simpl.
  by rewrite (proj2 (Z.eqb_neq (tw + 1) 8)), Hn by lia.
Qed.

Lemma from_step_last v rest n block ret :
  0 <= v < 32 -> n mod 8 = 7 ->
  fromBase32Hex_loop (byte_at base32hex v :: rest) n 7 block ret
  = fromBase32Hex_loop rest (n + 1) 0 zero_block (ret ++ set_bits block v 35 5).
Proof.
  intros Hv Hn. cbn [fromBase32Hex_loop]. rewrite unbase32hex_digit by done.
  rewrite (proj2 (Z.eqb_neq v 61)), (proj2 (Z.ltb_ge v 0)) by lia. simpl. by rewrite Hn.
Qed.

Lemma from_stuffing rest n tw block ret :
  fromBase32Hex_loop (61 :: rest) n tw block ret = ret ++ ztake (tw * 5 / 8) block.
Proof. done. Qed.

(** The blocks a group goes through. *)
Section group.
Context (s : bytes) (Hs : bytes_ok s).

Definition digits (k : Z) : bytes := map (fun n => byte_at base32hex (five s (n * 5))) (seqZ 0 k).

Fixpoint blocks (k : nat) : bytes :=
  match k with
  | O => zero_block
  | S k' => set_bits (blocks k') (five s (Z.of_nat k' * 5)) (Z.of_nat k' * 5) 5
  end.

Lemma from_digits k rest n ret :
  (k < 8)%nat -> n mod 8 = 0 ->
  fromBase32Hex_loop (digits (Z.of_nat k) ++ rest) n 0 zero_block ret
  = fromBase32Hex_loop rest (n + Z.of_nat k) (Z.of_nat k) (blocks k) ret.
Proof.
  revert rest. induction k as [|k IH]; intros rest Hk Hn.
  - by rewrite Z.add_0_r.
  - unfold digits. rewrite seqZ_S, map_app, <- app_assoc.
    fold (digits (Z.of_nat k)). rewrite IH by lia. cbn [map app].
    rewrite Z.add_0_l. rewrite from_step;
      [|apply five_range|Z.to_euclidean_division_equations; lia|lia].
    cbn [blocks]. f_equal; lia.
Qed.

Lemma from_group rest n ret :
  n mod 8 = 0 ->
  fromBase32Hex_loop (digits 8 ++ rest) n 0 zero_block ret
  = fromBase32Hex_loop rest (n + 8) 0 zero_block (ret ++ blocks 8).
Proof.
  intros Hn. unfold digits. change 8 with (Z.of_nat 8) at 1.
  rewrite seqZ_S, map_app, <- app_assoc. fold (digits (Z.of_nat 7)).
  rewrite from_digits by lia. cbn [map app]. change (Z.of_nat 7) with 7.
  rewrite from_step_last; [|apply five_range|Z.to_euclidean_division_equations; lia].
  cbn [blocks]. f_equal; lia.
Qed.

Lemma blocks_two k pre y post start shift x :
  blocks k = pre ++ y :: 0 :: post ->
  start = Z.of_nat k * 5 -> shift = (8 - (start + 5) mod 8) mod 8 -> start / 8 = zlen pre ->
  8 <? shift + 5 = true -> five s start = x ->
  blocks (S k) = pre ++ Z.lor y (x * 2 ^ shift / 256) :: x * 2 ^ shift mod 256 :: post.
Proof.
  intros Hk -> Hsh Hpre Hw <-. cbn [blocks]. rewrite Hk, (set_bits_five _ _ _ shift), Hw, Hpre
    by (done || apply five_range).
  rewrite or_at_app by done. rewrite <- (Z.lor_0_l (_ mod 256)).
  change (Z.lor y ?v :: 0 :: post) with ([Z.lor y v] ++ 0 :: post). rewrite app_assoc.
  rewrite or_at_app by (by rewrite zlen_app). by rewrite <- app_assoc.
Qed.

Lemma blocks_one k pre y post start shift x :
  blocks k = pre ++ y :: post ->
  start = Z.of_nat k * 5 -> shift = (8 - (start + 5) mod 8) mod 8 -> start / 8 = zlen pre ->
  8 <? shift + 5 = false -> five s start = x ->
  blocks (S k) = pre ++ Z.lor y (x * 2 ^ shift) :: post.
Proof.
  intros Hk -> Hsh Hpre Hw <-. cbn [blocks]. rewrite Hk, (set_bits_five _ _ _ shift), Hw, Hpre
    by (done || apply five_range).
  by apply or_at_app.
Qed.

(** A byte is finished by the bits that were missing. *)
Lemma lor_join a v k r : 0 <= k -> 0 <= v < 2 ^ k -> a mod 2 ^ k = 0 -> r = a + v -> Z.lor a v = r.
Proof.
  intros Hk Hv Ha ->. rewrite (Z.div_mod a (2 ^ k)), Ha, Z.add_0_r, Z.mul_comm by lia.
  by apply lor_low.
Qed.

(** The bytes of the group; a group cut short is filled up with 0. *)
#[local] Abbreviation b := (byte_at s).

Ltac bits k :=
  pose proof (byte_at_ok s 0 Hs); pose proof (byte_at_ok s 1 Hs); pose proof (byte_at_ok s 2 Hs);
  pose proof (byte_at_ok s 3 Hs); pose proof (byte_at_ok s 4 Hs); pose proof (byte_at_ok s 5 Hs);
  cbn [app]; repeat f_equal; try (apply (lor_join _ _ k); change (2 ^ k) with ltac:(let v := eval compute in (2 ^ k) in exact v));
  Z.to_euclidean_division_equations; lia.

Lemma block2 : blocks 2 = [b 0; b 1 / 64 * 64; 0; 0; 0].
Proof.
  rewrite (blocks_two 1 [] (b 0 / 8 * 8) [0; 0; 0] 5 6 ((b 0 * 256 + b 1) / 64 mod 32)); try reflexivity.
  - bits 3.
  - rewrite (blocks_one 0 [] 0 [0; 0; 0; 0] 0 3 ((b 0 * 256 + b 1) / 2048 mod 32)) by reflexivity.
    bits 8.
Qed.

Lemma block4 : blocks 4 = [b 0; b 1; b 2 / 16 * 16; 0; 0].
Proof.
  rewrite (blocks_two 3 [b 0] (b 1 / 2 * 2) [0; 0] 15 4 ((b 1 * 256 + b 2) / 16 mod 32)); try reflexivity.
  - bits 1.
  - rewrite (blocks_one 2 [b 0] (b 1 / 64 * 64) [0; 0; 0] 10 1 ((b 1 * 256 + b 2) / 512 mod 32));
      try reflexivity; [bits 6|apply block2].
Qed.

Lemma block5 : blocks 5 = [b 0; b 1; b 2; b 3 / 128 * 128; 0].
Proof.
  rewrite (blocks_two 4 [b 0; b 1] (b 2 / 16 * 16) [0] 20 7 ((b 2 * 256 + b 3) / 128 mod 32));
    try reflexivity; [bits 4|apply block4].
Qed.

Lemma block7 : blocks 7 = [b 0; b 1; b 2; b 3; b 4 / 32 * 32].
Proof.
  rewrite (blocks_two 6 [b 0; b 1; b 2] (b 3 / 4 * 4) [] 30 5 ((b 3 * 256 + b 4) / 32 mod 32)); try reflexivity.
  - bits 2.
  - rewrite (blocks_one 5 [b 0; b 1; b 2] (b 3 / 128 * 128) [0] 25 2 ((b 3 * 256 + b 4) / 1024 mod 32));
      try reflexivity; [bits 7|apply block5].
Qed.

Lemma block8 : blocks 8 = [b 0; b 1; b 2; b 3; b 4].
Proof.
  rewrite (blocks_one 7 [b 0; b 1; b 2; b 3] (b 4 / 32 * 32) [] 35 0 ((b 4 * 256 + b 5) / 256 mod 32));
    try reflexivity; [bits 5|apply block7].
Qed.
End group.

(** ** The whole string *)

Lemma base32_group_digits s :
  bytes_ok s ->
  base32_group s = digits s (8 - stuffing (zlen s)) ++ replicate (Z.to_nat (stuffing (zlen s))) 61.
Proof.
  intros Hs. unfold base32_group, digits. f_equal. apply map_ext_in.
  intros n Hn%list_elem_of_In%elem_of_seqZ. rewrite extract_five by (done || lia). done.
Qed.

Lemma loop_group s rest n ret :
  bytes_ok s -> (5 <= length s)%nat -> n mod 8 = 0 ->
  fromBase32Hex_loop (base32_group s ++ rest) n 0 zero_block ret
  = fromBase32Hex_loop rest (n + 8) 0 zero_block (ret ++ take 5 s).
Proof.
  intros Hs Hlen Hn. rewrite base32_group_digits by done.
  assert (stuffing (zlen s) = 0) as ->.
  { unfold stuffing, zlen. by rewrite !(proj2 (Z.eqb_neq _ _)) by lia. }
  cbn [Z.to_nat replicate]. rewrite app_nil_r, from_group, block8 by done. do 2 f_equal.
  destruct s as [|b0 [|b1 [|b2 [|b3 [|b4 s]]]]]; simpl in Hlen; try lia. done.
Qed.

Lemma loop_last s n ret :
  bytes_ok s -> (0 < length s < 5)%nat -> n mod 8 = 0 ->
  fromBase32Hex_loop (base32_group s) n 0 zero_block ret = ret ++ s.
Proof.
  intros Hs Hlen Hn. rewrite base32_group_digits by done.
  destruct s as [|b0 [|b1 [|b2 [|b3 [|b4 s]]]]]; simpl in Hlen; try lia.
  - change (digits _ _) with (digits [b0] (Z.of_nat 2)). rewrite from_digits, block2 by (done || lia). done.
  - change (digits _ _) with (digits [b0; b1] (Z.of_nat 4)). rewrite from_digits, block4 by (done || lia). done.
  - change (digits _ _) with (digits [b0; b1; b2] (Z.of_nat 5)). rewrite from_digits, block5 by (done || lia). done.
  - change (digits _ _) with (digits [b0; b1; b2; b3] (Z.of_nat 7)). rewrite from_digits, block7 by (done || lia). done.
Qed.

Lemma loop_all fuel s n ret :
  bytes_ok s -> (length s <= fuel)%nat -> n mod 8 = 0 ->
  fromBase32Hex_loop (toBase32Hex_loop fuel s) n 0 zero_block ret = ret ++ s.
Proof.
  revert s n ret. induction fuel as [|fuel IH]; intros s n ret Hs Hf Hn.
  - destruct s; [done|simpl in Hf; lia].
  - destruct s as [|x s]; [done|]. cbn [toBase32Hex_loop].
    destruct (decide (5 <= length (x :: s))%nat) as [Hl|Hl].
    + rewrite loop_group by done. rewrite IH.
      * by rewrite <- app_assoc, take_drop.
      * by apply Forall_drop.
      * rewrite length_drop. simpl in *. lia.
      * rewrite Z.add_mod, Hn by lia. done.
    + rewrite (drop_ge (x :: s)) by lia.
      assert (toBase32Hex_loop fuel [] = []) as -> by by destruct fuel.
      rewrite app_nil_r. apply loop_last; [done|simpl in *; lia|done].
Qed.

(** decoding what was encoded gives it back, whatever bytes it is made of
    and however long it is: the owner names of NSEC3 records determine the
    hashes they stand for. *)
Theorem base32_round_trip (input : bytes) :
  bytes_ok input -> fromBase32Hex (toBase32Hex input) = input.
Proof. intros. by apply loop_all. Qed.

Lemma base32_round_trip_witness :
  fromBase32Hex (toBase32Hex [0; 255; 16; 177; 99; 128; 7]) = [0; 255; 16; 177; 99; 128; 7]
  /\ toBase32Hex (bs "PowerDNS") = bs "a1nnepbi8h756===".
Proof.
  split; [|vm_compute; reflexivity].
  apply (base32_round_trip [0; 255; 16; 177; 99; 128; 7]). by_decide.
Defined.
