(* ===== verification/NsecBitmap.v ===== *)
(** * The type bitmaps of NSEC and NSEC3 records

    [NSECBitmap] of [pdns/dnsrecords.hh] and [NSECBitmapGenerator] and the wire
    format of [pdns/nsecrecords.cc]. *)

From S2P Require Import Prelude StdSet Dns Names Reader ReaderFacts Writer.

#[local] Open Scope Z_scope.

(** ** The set of types

    Few types are kept in a [std::set], many in a [std::bitset] of 65536 bits,
    here the function from positions to bits. *)

Record NSECBitmap : Type := mkBitmap {
  d_bitset : option (Z -> bool);
  d_set : list Z;
}.

Definition nbTypes : Z := 65536.

Definition NSECBitmap_new : NSECBitmap := mkBitmap None [].

Definition bitset_set (type : Z) (b : Z -> bool) : Z -> bool := fun i => (i =? type) || b i.

Definition bitset_count (b : Z -> bool) : Z := zlen (filter (fun i => b i = true) (seqZ 0 nbTypes)).

Definition isSet (nb : NSECBitmap) (type : Z) : bool :=
  match d_bitset nb with
  | Some b => b type
  | None => bool_decide (is_Some (set_find (probe_of (fun x => x <? type) (fun x => type <? x)) (d_set nb)))
  end.

Definition migrateToBitSet (nb : NSECBitmap) : NSECBitmap :=
  mkBitmap (Some (foldl (fun b t => bitset_set t b) (fun _ => false) (d_set nb))) [].

Definition bitmap_set (type : Z) (nb : NSECBitmap) : NSECBitmap :=
  let nb := match d_bitset nb with
            | None => if 200 <=? zlen (d_set nb) then migrateToBitSet nb else nb
            | Some _ => nb
            end in
  match d_bitset nb with
  | Some b => mkBitmap (Some (bitset_set type b)) (d_set nb)
  | None => mkBitmap None (set_insert Z.ltb type (d_set nb))
  end.

Definition bitmap_count (nb : NSECBitmap) : Z :=
  match d_bitset nb with Some b => bitset_count b | None => zlen (d_set nb) end.

(** [operator=]: without a bitset on the right, the one on the left stays. *)
Definition bitmap_assign (nb rhs : NSECBitmap) : NSECBitmap :=
  mkBitmap (match d_bitset rhs with Some b => Some b | None => d_bitset nb end) (d_set rhs).

(** ** Writing *)

Record NSECBitmapGenerator : Type := mkGen {
  g_pw : GenericDNSPacketWriter;
  g_res : bytes;
  g_oldWindow : Z;
  g_len : Z;
}.

Definition gen_new (pw : GenericDNSPacketWriter) : NSECBitmapGenerator :=
  mkGen pw (replicate 34 0) (-1) 0.

(** The window and the length go in front, and the used part is written. *)
Definition gen_flush (g : NSECBitmapGenerator) : NSECBitmapGenerator :=
  let res := <[1%nat := u8 (g_len g)]> (<[0%nat := u8 (g_oldWindow g)]> (g_res g)) in
  mkGen (fst (w_xfrBlob (ztake (g_len g + 2) res) (g_pw g))) res (g_oldWindow g) (g_len g).

Definition gen_set (type : Z) (g : NSECBitmapGenerator) : NSECBitmapGenerator :=
  let bit := type mod 256 in
  let window := type / 256 in
  let g :=
    if negb (window =? g_oldWindow g) then
      let g := if -1 <? g_oldWindow g then gen_flush g else g in
      mkGen (g_pw g) (replicate 34 0) window (g_len g)
    else g in
  let at_ := 2 + bit / 8 in
  mkGen (g_pw g)
    (<[Z.to_nat at_ := u8 (Z.lor (byte_at (g_res g) at_) (Z.shiftl 1 (7 - bit mod 8)))]> (g_res g))
    (g_oldWindow g) (1 + bit / 8).

Definition gen_finish (g : NSECBitmapGenerator) : NSECBitmapGenerator :=
  if negb (g_len g =? 0) then gen_flush g else g.

(** The types in a bitset, found one by one until there are no more. *)
Fixpoint bitset_types (fuel : nat) (b : Z -> bool) (idx found count : Z) : list Z :=
  match fuel with
  | O => []
  | S fuel' =>
      if (idx <? nbTypes) && (found <? count) then
        if b idx then idx :: bitset_types fuel' b (idx + 1) (found + 1) count
        else bitset_types fuel' b (idx + 1) found count
      else []
  end.

Definition bitmap_types (nb : NSECBitmap) : list Z :=
  match d_bitset nb with
  | Some b => bitset_types (Z.to_nat nbTypes) b 0 0 (bitset_count b)
  | None => d_set nb
  end.

Definition bitmap_toPacket (nb : NSECBitmap) (pw : GenericDNSPacketWriter) : GenericDNSPacketWriter :=
  g_pw (gen_finish (foldl (fun g t => gen_set t g) (gen_new pw) (bitmap_types nb))).

(** ** Reading *)

(** The bits of a byte, the lowest first. *)
Fixpoint parse_bits (fuel : nat) (bit val base : Z) (nb : NSECBitmap) : NSECBitmap :=
  match fuel with
  | O => nb
  | S fuel' =>
      parse_bits fuel' (bit + 1) (Z.shiftr val 1) base
        (if Z.land val 1 =? 1 then bitmap_set (u16 (7 - bit + base)) nb else nb)
  end.

(** The [blen] bytes of a window. *)
Fixpoint parse_window (block : bytes) (k window : Z) (nb : NSECBitmap) : NSECBitmap :=
  match block with
  | [] => nb
  | val :: block' => parse_window block' (k + 1) window (parse_bits 8 0 val (8 * k + 256 * window) nb)
  end.

(** The windows, on the bitmap from position [n] on. *)
Fixpoint parse_windows (fuel : nat) (bitmap : bytes) (nb : NSECBitmap) : NSECBitmap * result unit :=
  match fuel, bitmap with
  | S fuel', window :: blen :: rest =>
      if (window =? 0) && (blen =? 0) then (nb, Ok tt)
      else if 32 <? blen then (nb, Throw (MOADNSException "NSEC record with invalid bitmap length"))
      else if zlen rest <? blen then
        (nb, Throw (MOADNSException "NSEC record with bitmap length > packet length"))
      else parse_windows fuel' (zdrop blen rest) (parse_window (ztake blen rest) 0 window nb)
  | _, _ => (nb, Ok tt)
  end.

Definition bitmap_fromPacket : SM (PacketReader * NSECBitmap) unit :=
  bitmap ← on_fst xfrBlob_rest;
  if bool_decide (bitmap = []) then mret tt
  else if zlen bitmap <? 2 then sm_throw (MOADNSException "NSEC record with impossibly small bitmap")
  else fun '(pr, nb) => let '(nb, r) := parse_windows (length bitmap) bitmap nb in ((pr, nb), r).

(** ** The set of types is a set *)

Abbreviation zkey := (fun z : Z => z).

Definition bitmap_ok (nb : NSECBitmap) : Prop := set_sorted zkey Z.compare (d_set nb).

Lemma zltb_spec x y : (x <? y) = true <-> Z.compare x y = Lt.
Proof. by rewrite Z.ltb_lt, Z.compare_lt_iff. Qed.

Lemma isSet_set nb t :
  d_bitset nb = None -> isSet nb t = bool_decide (is_Some (set_get zkey Z.compare t (d_set nb))).
Proof.
  intros E. unfold isSet. rewrite E. unfold set_get.
  rewrite (set_find_ext _ (key_probe zkey Z.compare t)); [done|].
  apply Forall_forall. intros x _. apply (probe_of_key zkey Z.compare); apply zltb_spec.
Qed.

Lemma isSet_elem nb t :
  d_bitset nb = None -> bitmap_ok nb -> isSet nb t = true <-> t ∈ d_set nb.
Proof.
  intros E Hok. rewrite isSet_set by done. rewrite bool_decide_eq_true. split.
  - intros [x Hx]. by apply (set_get_key zkey Z.compare) in Hx as [<- ?].
  - intros Hin. rewrite (set_get_elem zkey Z.compare) by done. done.
Qed.

Lemma foldl_bitset l b x :
  foldl (fun b t => bitset_set t b) b l x = true <-> x ∈ l \/ b x = true.
Proof.
  revert b. induction l as [|y l IH]; intros b; simpl.
  - set_solver.
  - rewrite IH. unfold bitset_set. rewrite orb_true_iff, Z.eqb_eq. set_solver.
Qed.

Lemma migrate_isSet nb x :
  d_bitset nb = None -> bitmap_ok nb -> isSet (migrateToBitSet nb) x = isSet nb x.
Proof.
  intros E Hok. apply eq_true_iff_eq. rewrite (isSet_elem nb) by done.
  unfold isSet, migrateToBitSet. simpl. rewrite foldl_bitset. naive_solver.
Qed.

Lemma bitmap_set_ok t nb : bitmap_ok nb -> bitmap_ok (bitmap_set t nb).
Proof.
  intros Hok. unfold bitmap_set. destruct (d_bitset nb) eqn:E; [by rewrite E|].
  destruct (200 <=? _); simpl; [by constructor|]. rewrite E. unfold bitmap_ok. simpl.
  by apply (set_insert_sorted zkey Z.compare); [apply zltb_spec|].
Qed.

(** Adding a type adds it and no other, whichever the representation and also
    when it changes. *)
Lemma bitmap_set_isSet t nb x :
  bitmap_ok nb -> isSet (bitmap_set t nb) x = (x =? t) || isSet nb x.
Proof.
  intros Hok. unfold bitmap_set. destruct (d_bitset nb) as [b|] eqn:E.
  - rewrite E. unfold isSet. by rewrite E.
  - destruct (200 <=? _) eqn:E'.
    + rewrite <- (migrate_isSet nb) by done. done.
    + rewrite E, !isSet_set by done. simpl.
      rewrite (set_insert_get zkey Z.compare _ zltb_spec) by done.
      destruct (decide (x = t)) as [->|]; [by rewrite Z.eqb_refl|].
      by rewrite (proj2 (Z.eqb_neq _ _)) by done.
Qed.

(** ** The types in order *)

Inductive ascending : Z -> list Z -> Prop :=
| ascending_nil lo : ascending lo []
| ascending_cons lo t l : lo <= t < nbTypes -> ascending (t + 1) l -> ascending lo (t :: l).

Lemma ascending_weaken lo lo' l : lo' <= lo -> ascending lo l -> ascending lo' l.
Proof. intros Hle. destruct 1; constructor; [lia|done]. Qed.

Lemma ascending_sorted l lo :
  set_sorted zkey Z.compare l -> Forall (fun t => lo <= t < nbTypes) l -> ascending lo l.
Proof.
  intros Hs. revert lo. induction Hs as [|t l Ht Hl IH]; intros lo Hr; [constructor|].
  inversion_clear Hr as [|?? Hlt Hr']. constructor; [done|]. apply IH.
  rewrite Forall_forall in *. intros x Hx. specialize (Ht x Hx). specialize (Hr' x Hx).
  rewrite Z.compare_lt_iff in Ht. lia.
Qed.

(** Stopping when all bits were seen misses none. *)
Lemma bitset_types_filter fuel b idx found count :
  fuel = Z.to_nat (nbTypes - idx) -> 0 <= idx <= nbTypes ->
  count = found + zlen (filter (fun i => b i = true) (seqZ idx (nbTypes - idx))) ->
  bitset_types fuel b idx found count = filter (fun i => b i = true) (seqZ idx (nbTypes - idx)).
Proof.
  revert idx found. induction fuel as [|fuel IH]; intros idx found Hf Hi Hc.
  - rewrite seqZ_nil by lia. done.
  - rewrite seqZ_cons in * by lia. cbn [bitset_types].
    rewrite (proj2 (Z.ltb_lt idx nbTypes)) by lia. cbn [andb].
    replace (Z.pred (nbTypes - idx)) with (nbTypes - (idx + 1)) in * by lia.
    replace (Z.succ idx) with (idx + 1) in * by lia.
    set (tl := filter (fun i => b i = true) (seqZ (idx + 1) (nbTypes - (idx + 1)))) in *.
    destruct (b idx) eqn:Eb.
    + rewrite filter_cons_True in Hc |- * by done. fold tl in Hc |- *. rewrite zlen_cons in Hc.
      pose proof (zlen_nonneg tl). rewrite (proj2 (Z.ltb_lt _ _)) by lia. f_equal. apply IH; [lia|lia|fold tl; lia].
    + rewrite filter_cons_False in Hc |- * by congruence. fold tl in Hc |- *.
      destruct (Z.ltb_spec found count) as [|Hge]; [apply IH; [lia|lia|fold tl; lia]|].
      symmetry. apply zlen_zero_inv. pose proof (zlen_nonneg tl). lia.
Qed.

Lemma ascending_filter b idx n :
  n = Z.to_nat (nbTypes - idx) -> 0 <= idx <= nbTypes ->
  ascending idx (filter (fun i : Z => b i = true) (seqZ idx (nbTypes - idx))).
Proof.
  revert idx. induction n as [|n IH]; intros idx Hn Hi.
  - rewrite seqZ_nil by lia. constructor.
  - rewrite seqZ_cons by lia.
    replace (Z.pred (nbTypes - idx)) with (nbTypes - (idx + 1)) by lia.
    replace (Z.succ idx) with (idx + 1) by lia.
    specialize (IH (idx + 1) ltac:(lia) ltac:(lia)). destruct (b idx) eqn:Eb.
    + rewrite filter_cons_True by done. constructor; [lia|done].
    + rewrite filter_cons_False by congruence. eapply ascending_weaken; [|done]. lia.
Qed.

Definition types_in_range (nb : NSECBitmap) : Prop := forall t, isSet nb t = true -> 0 <= t < nbTypes.

Lemma bitmap_types_spec nb :
  bitmap_ok nb -> types_in_range nb ->
  ascending 0 (bitmap_types nb) /\ forall t, 0 <= t < nbTypes -> t ∈ bitmap_types nb <-> isSet nb t = true.
Proof.
  intros Hok Hr. unfold bitmap_types. destruct (d_bitset nb) as [b|] eqn:E.
  - rewrite (bitset_types_filter _ b 0 0); [|by rewrite Z.sub_0_r|unfold nbTypes; lia|];
      [|unfold bitset_count; rewrite Z.sub_0_r; lia].
    split; [eapply ascending_filter; [reflexivity|unfold nbTypes; lia]|]. intros t Ht. rewrite list_elem_of_filter, elem_of_seqZ.
    unfold isSet. rewrite E. naive_solver lia.
  - split; [apply ascending_sorted; [done|]|].
    + apply Forall_forall. intros t Ht. apply Hr. by apply isSet_elem.
    + intros t _. by rewrite isSet_elem.
Qed.

(** ** Windows *)

(** The bit of a type in the 32 bytes of its window. *)
Definition type_bit (m : bytes) (t : Z) : bool := Z.testbit (byte_at m (t mod 256 / 8)) (7 - t mod 8).

Definition enc_windows (ws : list (Z * bytes)) : bytes :=
  concat (map (fun '(w, m) => w :: zlen m :: m) ws).

Definition window_ok (x : Z * bytes) : Prop := 0 <= fst x < 256 /\ 1 <= zlen (snd x) <= 32.

(** Bytes past the end read as 0. *)
Definition in_windows (ws : list (Z * bytes)) (t : Z) : Prop :=
  exists w m, (w, m) ∈ ws /\ t / 256 = w /\ type_bit m t = true.

Lemma enc_windows_app a b : enc_windows (a ++ b) = enc_windows a ++ enc_windows b.
Proof. unfold enc_windows. by rewrite map_app, concat_app. Qed.

(** *** Decoding *)

Lemma parse_bits_spec fuel bit val base nb :
  bitmap_ok nb -> 0 <= bit -> bit + Z.of_nat fuel <= 8 -> 0 <= base -> base + 8 <= nbTypes ->
  bitmap_ok (parse_bits fuel bit val base nb)
  /\ forall x, isSet (parse_bits fuel bit val base nb) x = true
      <-> isSet nb x = true
          \/ exists i, 0 <= i < Z.of_nat fuel /\ Z.testbit val i = true /\ x = 7 - (bit + i) + base.
Proof.
  revert bit val nb. induction fuel as [|fuel IH]; intros bit val nb Hok Hb Hf Hba Hbt; cbn [parse_bits].
  { split; [done|]. intros x. split; [by left|]. intros [?|(i & ? & _)]; [done|lia]. }
  change (Z.land val 1) with (Z.land val (Z.ones 1)). rewrite Z.land_ones by lia.
  assert ((val mod 2 ^ 1 =? 1) = Z.testbit val 0) as ->.
  { change (2 ^ 1) with 2. rewrite <- Z.bit0_mod. by destruct (Z.testbit val 0). }
  set (nb' := if Z.testbit val 0 then _ else nb).
  assert (bitmap_ok nb') as Hok' by (unfold nb'; destruct (Z.testbit _ _); [by apply bitmap_set_ok|done]).
  destruct (IH (bit + 1) (Z.shiftr val 1) nb' Hok' ltac:(lia) ltac:(lia) Hba Hbt) as [Hok2 Hx].
  split; [done|]. intros x. rewrite Hx. clear Hx.
  assert (isSet nb' x = true <-> isSet nb x = true \/ (Z.testbit val 0 = true /\ x = 7 - bit + base)) as ->.
  { unfold nb'. destruct (Z.testbit val 0).
    - rewrite bitmap_set_isSet by done. unfold u16. rewrite Z.mod_small by (unfold nbTypes in *; lia).
      rewrite orb_true_iff, Z.eqb_eq. naive_solver.
    - naive_solver. }
  split.
  - intros [[?|[Ht ->]]|(i & Hi & Ht & ->)]; [by left|right; exists 0; split_and!; [lia|lia|done|lia]|].
    right. exists (i + 1). rewrite Z.shiftr_spec in Ht by lia. split_and!; [lia|lia|done|lia].
  - intros [?|(i & Hi & Ht & ->)]; [by left; left|].
    destruct (decide (i = 0)) as [->|Hne]; [left; right; split; [done|lia]|].
    right. exists (i - 1). rewrite Z.shiftr_spec by lia.
    replace (i - 1 + 1) with i by lia. split_and!; [lia|lia|done|lia].
Qed.

(** The place of a type: its window, its byte and its bit. *)
Lemma type_place k w i x :
  0 <= k < 32 -> 0 <= i < 8 ->
  x = 7 - (0 + i) + (8 * k + 256 * w) <-> x / 256 = w /\ x mod 256 / 8 = k /\ 7 - x mod 8 = i.
Proof.
  intros Hk Hi. split.
  - intros ->. split_and!; Z.to_euclidean_division_equations; lia.
  - intros (<- & <- & <-). Z.to_euclidean_division_equations; lia.
Qed.

Lemma type_place_range x : 0 <= x mod 256 / 8 < 32 /\ 0 <= 7 - x mod 8 < 8.
Proof. split; Z.to_euclidean_division_equations; lia. Qed.

Lemma parse_window_spec block k w nb :
  bitmap_ok nb -> 0 <= k -> k + zlen block <= 32 -> 0 <= w < 256 ->
  bitmap_ok (parse_window block k w nb)
  /\ forall x, isSet (parse_window block k w nb) x = true
      <-> isSet nb x = true
          \/ (x / 256 = w /\ k <= x mod 256 / 8
              /\ Z.testbit (byte_at block (x mod 256 / 8 - k)) (7 - x mod 8) = true).
Proof.
  revert k nb. induction block as [|v block IH]; intros k nb Hok Hk Hl Hw; cbn [parse_window].
  { split; [done|]. intros x. unfold byte_at, zat. rewrite lookup_nil.
    destruct (_ <? 0); simpl; rewrite Z.testbit_0_l; naive_solver. }
  rewrite zlen_cons in Hl. pose proof (zlen_nonneg block).
  destruct (parse_bits_spec 8 0 v (8 * k + 256 * w) nb) as [Hok' Hx]; [done|lia..|unfold nbTypes; lia|].
  destruct (IH (k + 1) _ Hok' ltac:(lia) ltac:(lia) Hw) as [Hok2 Hx2]. split; [done|].
  intros x. rewrite Hx2, Hx. clear Hx Hx2. pose proof (type_place_range x) as [Hp1 Hp2].
  assert ((exists i, 0 <= i < Z.of_nat 8 /\ Z.testbit v i = true /\ x = 7 - (0 + i) + (8 * k + 256 * w))
          <-> x / 256 = w /\ x mod 256 / 8 = k /\ Z.testbit v (7 - x mod 8) = true) as ->.
  { split.
    - intros (i & Hi & Ht & Hxi). apply type_place in Hxi as (? & ? & <-); [done|lia|lia].
    - intros (? & ? & Ht). exists (7 - x mod 8). split_and!; [lia|lia|done|].
      apply type_place; [lia|lia|done]. }
  unfold byte_at. destruct (decide (x mod 256 / 8 = k)) as [E|E].
  - rewrite E, Z.sub_diag. simpl. naive_solver lia.
  - assert (k <= x mod 256 / 8 -> zat (v :: block) (x mod 256 / 8 - k) = zat block (x mod 256 / 8 - (k + 1))) as Hz.
    { intros. rewrite (zat_cons v block) by lia. f_equal. lia. }
    split.
    + intros [[?|(? & ? & _)]|(? & ? & Ht)]; [by left|done|]. right. split_and!; [done|lia|].
      by rewrite Hz by lia.
    + intros [?|(? & ? & Ht)]; [by left; left|]. right. split_and!; [done|lia|].
      by rewrite <- Hz by lia.
Qed.

Lemma parse_windows_spec ws fuel nb :
  bitmap_ok nb -> Forall window_ok ws -> (length (enc_windows ws) <= fuel)%nat ->
  exists nb', parse_windows fuel (enc_windows ws) nb = (nb', Ok tt) /\ bitmap_ok nb'
    /\ forall x, isSet nb' x = true <-> isSet nb x = true \/ in_windows ws x.
Proof.
  intros Hok Hws. revert fuel nb Hok. induction Hws as [|[w m] ws [Hw Hm] Hws IH]; intros fuel nb Hok Hf.
  { exists nb. split; [by destruct fuel|]. split; [done|]. intros x. split; [by left|].
    intros [?|(w & m & Hin & _)]; [done|by apply elem_of_nil in Hin]. }
  cbn [fst snd] in *. unfold enc_windows in *. cbn [map concat] in *. fold (enc_windows ws) in *.
  destruct fuel as [|fuel]; [simpl in Hf; lia|]. cbn [app parse_windows].
  rewrite (proj2 (Z.eqb_neq (zlen m) 0)), andb_false_r by lia.
  rewrite (proj2 (Z.ltb_ge 32 _)) by lia.
  rewrite zlen_app, (proj2 (Z.ltb_ge _ (zlen m))) by (pose proof (zlen_nonneg (enc_windows ws)); lia).
  rewrite zdrop_app, ztake_app by done.
  destruct (parse_window_spec m 0 w nb Hok) as [Hok' Hx]; [lia..|].
  destruct (IH fuel (parse_window m 0 w nb) Hok') as (nb' & -> & Hok2 & Hx2).
  { simpl in Hf. rewrite length_app in Hf. lia. }
  exists nb'. split; [done|]. split; [done|]. intros x. rewrite Hx2, Hx.
  pose proof (type_place_range x) as [Hp _]. unfold in_windows, type_bit.
  setoid_rewrite elem_of_cons. rewrite Z.sub_0_r. naive_solver lia.
Qed.

(** *** Encoding *)

(** The generator after the types [P] with the last one [lt]: the windows before
    are written out, and the current one is in [res], 0 beyond what is used. *)
Record gen_inv (base : bytes) (P : Z -> Prop) (lt : Z) (g : NSECBitmapGenerator)
    (ws : list (Z * bytes)) (m : bytes) : Prop := mkGenInv {
  gi_res : g_res g = 0 :: 0 :: m;
  gi_size : zlen m = 32;
  gi_unused : forall j, g_len g <= j -> byte_at m j = 0;
  gi_out : w_content (g_pw g) = base ++ enc_windows ws;
  gi_ws : Forall window_ok ws;
  gi_last : 0 <= lt < nbTypes;
  gi_window : g_oldWindow g = lt / 256;
  gi_len : g_len g = 1 + lt mod 256 / 8;
  gi_types : forall x, P x <-> in_windows ws x \/ (x / 256 = lt / 256 /\ type_bit m x = true);
}.

Definition put_bit (m : bytes) (t : Z) : bytes :=
  let j := t mod 256 / 8 in
  <[Z.to_nat j := u8 (Z.lor (byte_at m j) (Z.shiftl 1 (7 - t mod 256 mod 8)))]> m.

Lemma byte_at_insert m j v i :
  0 <= j < zlen m -> 0 <= i -> byte_at (<[Z.to_nat j := v]> m) i = if i =? j then v else byte_at m i.
Proof.
  intros Hj Hi. unfold byte_at, zat, zlen in *. rewrite (proj2 (Z.ltb_ge i 0)) by lia.
  destruct (Z.eqb_spec i j) as [->|Hne].
  - rewrite list_lookup_insert_eq by lia. done.
  - rewrite list_lookup_insert_ne by lia. done.
Qed.

Lemma put_bit_type m t x :
  zlen m = 32 -> type_bit (put_bit m t) x = (x mod 256 =? t mod 256) || type_bit m x.
Proof.
  intros Hm. unfold type_bit, put_bit.
  pose proof (type_place_range t) as [Ht1 Ht2]. pose proof (type_place_range x) as [Hx1 Hx2].
  rewrite byte_at_insert by lia.
  replace (t mod 256 mod 8) with (t mod 8) by (Z.to_euclidean_division_equations; lia).
  destruct (Z.eqb_spec (x mod 256 / 8) (t mod 256 / 8)) as [E|E].
  - unfold u8. rewrite Z.mod_pow2_bits_low, Z.lor_spec, Z.shiftl_1_l, Z.pow2_bits_eqb, E by lia.
    rewrite orb_comm. f_equal. apply eq_true_iff_eq. rewrite !Z.eqb_eq.
    split; intros; Z.to_euclidean_division_equations; lia.
  - rewrite (proj2 (Z.eqb_neq (x mod 256) (t mod 256))); [done|]. congruence.
Qed.

Lemma gen_set_put t g m :
  g_res (if negb (t / 256 =? g_oldWindow g)
         then mkGen (g_pw (if -1 <? g_oldWindow g then gen_flush g else g)) (replicate 34 0) (t / 256)
                (g_len (if -1 <? g_oldWindow g then gen_flush g else g))
         else g) = 0 :: 0 :: m ->
  g_res (gen_set t g) = 0 :: 0 :: put_bit m t.
Proof.
  intros E. unfold gen_set. cbn [g_res]. rewrite E. pose proof (type_place_range t) as [Ht _].
  unfold put_bit. replace (Z.to_nat (2 + t mod 256 / 8)) with (S (S (Z.to_nat (t mod 256 / 8)))) by lia.
  cbn. do 2 f_equal. f_equal. f_equal. f_equal. unfold byte_at.
  rewrite !zat_cons by lia. do 2 f_equal. lia.
Qed.

Lemma type_bit_zeros x n : type_bit (replicate n 0) x = false.
Proof.
  unfold type_bit, byte_at, zat. destruct (_ <? 0); simpl; [by rewrite Z.testbit_0_l|].
  destruct (replicate n 0 !! _) eqn:E; simpl; [|by rewrite Z.testbit_0_l].
  apply lookup_replicate in E as [-> _]. by rewrite Z.testbit_0_l.
Qed.

Lemma flush_content base P lt g ws m :
  gen_inv base P lt g ws m ->
  let ws' := ws ++ [(lt / 256, ztake (g_len g) m)] in
  w_content (g_pw (gen_flush g)) = base ++ enc_windows ws'
  /\ Forall window_ok ws' /\ forall x, P x <-> in_windows ws' x.
Proof.
  intros [Hres Hsz Hun Hout Hws Hlt Hwin Hlen Hty]. cbv zeta.
  pose proof (type_place_range lt) as [Hp _].
  assert (0 <= lt / 256 < 256) by (unfold nbTypes in *; Z.to_euclidean_division_equations; lia).
  assert (zlen (ztake (g_len g) m) = g_len g) as Hz by (rewrite zlen_ztake by lia; lia).
  split_and!.
  - unfold gen_flush. cbn [g_pw]. unfold w_xfrBlob, append, sm_modify. cbn [fst w_content set_content].
    rewrite Hout, Hres, enc_windows_app, app_assoc. f_equal. unfold enc_windows. cbn [map concat].
    rewrite app_nil_r, Hz, Hwin. cbn.
    rewrite !u8_small by lia. unfold ztake.
    replace (Z.to_nat (g_len g + 2)) with (S (S (Z.to_nat (g_len g)))) by lia. done.
  - apply Forall_app. split; [done|]. constructor; [|done]. split; cbn [fst snd]; lia.
  - intros x. rewrite Hty. unfold in_windows. setoid_rewrite elem_of_app.
    setoid_rewrite list_elem_of_singleton.
    assert (type_bit (ztake (g_len g) m) x = type_bit m x) as Hb.
    { unfold type_bit. pose proof (type_place_range x) as [Hx _]. f_equal.
      destruct (decide (x mod 256 / 8 < g_len g)) as [Hin|Hout'].
      - rewrite <- (ztake_zdrop (g_len g) m) at 2. unfold byte_at. rewrite zat_app_l by lia. done.
      - rewrite (Hun (x mod 256 / 8)) by lia. unfold byte_at. rewrite zat_None by lia. done. }
    split.
    + intros [(w & m' & ? & ? & ?)|[? ?]]; [naive_solver|].
      exists (lt / 256), (ztake (g_len g) m). rewrite Hb. naive_solver.
    + intros (w & m' & [?|[= -> ->]] & ? & Ht); [naive_solver|]. rewrite Hb in Ht. by right.
Qed.

Lemma put_unused m t j :
  zlen m = 32 -> (forall j, 1 + t mod 256 / 8 <= j -> byte_at m j = 0) ->
  1 + t mod 256 / 8 <= j -> byte_at (put_bit m t) j = 0.
Proof.
  intros Hm Hun Hj. unfold put_bit. pose proof (type_place_range t) as [Ht _].
  rewrite byte_at_insert by lia. rewrite (proj2 (Z.eqb_neq _ _)) by lia. by apply Hun.
Qed.

Lemma zlen_put_bit m t : zlen (put_bit m t) = zlen m.
Proof. unfold put_bit, zlen. by rewrite length_insert. Qed.

(** A type of a new window starts it. *)
Lemma gen_set_fresh t g base ws (P : Z -> Prop) :
  0 <= t < nbTypes -> g_oldWindow g <> t / 256 ->
  w_content (g_pw (if -1 <? g_oldWindow g then gen_flush g else g)) = base ++ enc_windows ws ->
  Forall window_ok ws -> (forall x, P x <-> in_windows ws x) ->
  gen_inv base (fun x => x = t \/ P x) t (gen_set t g) ws (put_bit (replicate 32 0) t).
Proof.
  intros Ht Hne Hout Hws HP.
  assert (t / 256 =? g_oldWindow g = false) as E by (apply Z.eqb_neq; congruence).
  constructor; [| | |unfold gen_set; rewrite E; done|done|done|unfold gen_set; rewrite E; done|done|].
  - apply gen_set_put. by rewrite E.
  - by rewrite zlen_put_bit.
  - intros j Hj. apply put_unused; [done| |done]. intros. apply byte_at_zeros.
  - intros x. rewrite HP, put_bit_type, type_bit_zeros, orb_false_r, Z.eqb_eq by done.
    assert (x = t <-> x / 256 = t / 256 /\ x mod 256 = t mod 256) as ->; [|tauto].
    split; [by intros ->|]. intros [? ?]. Z.to_euclidean_division_equations; lia.
Qed.

Lemma gen_first t pw :
  0 <= t < nbTypes ->
  gen_inv (w_content pw) (fun x => x = t \/ False) t (gen_set t (gen_new pw)) [] (put_bit (replicate 32 0) t).
Proof.
  intros Ht. apply gen_set_fresh; [done| |by rewrite app_nil_r|done|].
  - simpl. pose proof (Z.div_pos t 256). lia.
  - intros x. split; [done|]. intros (w & m & Hin & _). by apply elem_of_nil in Hin.
Qed.

Lemma gen_next base P lt g ws m t :
  gen_inv base P lt g ws m -> lt < t < nbTypes ->
  exists ws' m', gen_inv base (fun x => x = t \/ P x) t (gen_set t g) ws' m'.
Proof.
  intros Hg Ht. pose proof (flush_content _ _ _ _ _ _ Hg) as (Hout & Hws & HP).
  destruct Hg as [Hres Hsz Hun Hout0 Hws0 Hlt Hwin Hlen Hty].
  destruct (decide (g_oldWindow g = t / 256)) as [E|E].
  - assert (t / 256 =? g_oldWindow g = true) as E' by (apply Z.eqb_eq; congruence).
    exists ws, (put_bit m t). constructor;
      [| | |unfold gen_set; rewrite E'; done|done|lia|unfold gen_set; rewrite E'; done|done|].
    + apply gen_set_put. by rewrite E'.
    + by rewrite zlen_put_bit.
    + intros j Hj. cbn in Hj. apply put_unused; [done| |done]. intros i Hi. apply Hun.
      rewrite Hlen. rewrite Hwin in E. Z.to_euclidean_division_equations; lia.
    + intros x. rewrite Hty, put_bit_type, orb_true_iff, Z.eqb_eq by done.
      rewrite <- Hwin, E.
      assert (x = t <-> x / 256 = t / 256 /\ x mod 256 = t mod 256) as ->; [|tauto].
      split; [by intros ->|]. intros [? ?]. Z.to_euclidean_division_equations; lia.
  - eexists _, _. apply gen_set_fresh; [lia|done| |done|done].
    rewrite (proj2 (Z.ltb_lt _ _)); [done|]. rewrite Hwin. pose proof (Z.div_pos lt 256). lia.
Qed.

Lemma gen_all ts base P lt g ws m :
  gen_inv base P lt g ws m -> ascending (lt + 1) ts ->
  exists lt' ws' m', gen_inv base (fun x => x ∈ ts \/ P x) lt' (foldl (fun g t => gen_set t g) g ts) ws' m'.
Proof.
  revert P lt g ws m. induction ts as [|t ts IH]; intros P lt g ws m Hg Hasc.
  - exists lt, ws, m. destruct Hg. constructor; try done. intros x. rewrite <- gi_types0. set_solver.
  - inversion_clear Hasc as [|??? Ht Hasc']. cbn [foldl].
    destruct (gen_next _ _ _ _ _ _ t Hg ltac:(lia)) as (ws1 & m1 & Hg1).
    destruct (IH _ _ _ _ _ Hg1 Hasc') as (lt' & ws' & m' & Hg'). exists lt', ws', m'.
    destruct Hg'. constructor; try done. intros x. rewrite <- gi_types0, elem_of_cons. tauto.
Qed.

(** What is written is a sequence of windows that holds exactly the types. *)
Lemma toPacket_windows nb pw :
  bitmap_ok nb -> types_in_range nb ->
  exists ws, w_content (bitmap_toPacket nb pw) = w_content pw ++ enc_windows ws
    /\ Forall window_ok ws /\ forall x, isSet nb x = true <-> in_windows ws x.
Proof.
  intros Hok Hr. destruct (bitmap_types_spec nb Hok Hr) as [Hasc Hty]. unfold bitmap_toPacket.
  assert (forall x, x ∈ bitmap_types nb -> 0 <= x < nbTypes) as Hrange.
  { clear -Hasc. assert (forall lo l, ascending lo l -> 0 <= lo -> forall x, x ∈ l -> 0 <= x < nbTypes) as H.
    { induction 1 as [|lo t l Ht _ IH]; intros Hlo x; [by intros ?%elem_of_nil|].
      intros [->|Hx]%elem_of_cons; [lia|]. apply IH; [lia|done]. }
    eapply H; [done|lia]. }
  assert (forall x, isSet nb x = true <-> x ∈ bitmap_types nb) as Hset.
  { intros x. split; intros H; [apply Hty; [by apply Hr|done]|apply Hty; [by apply Hrange|done]]. }
  setoid_rewrite Hset. clear Hset Hty Hr. destruct (bitmap_types nb) as [|t ts].
  - exists []. rewrite app_nil_r. split; [done|]. split; [done|]. intros x.
    split; [by intros ?%elem_of_nil|]. intros (? & ? & ?%elem_of_nil & _). done.
  - inversion_clear Hasc as [|??? Ht Hasc']. cbn [foldl].
    destruct (gen_all ts _ _ _ _ _ _ (gen_first t pw Ht) Hasc') as (lt & ws & m & Hg).
    unfold gen_finish. pose proof (type_place_range lt) as [Hp _].
    rewrite (gi_len _ _ _ _ _ _ Hg), (proj2 (Z.eqb_neq _ _)) by lia. cbn [negb].
    destruct (flush_content _ _ _ _ _ _ Hg) as (Hout & Hws & HP).
    eexists. split; [exact Hout|]. split; [done|]. intros x. rewrite <- HP, elem_of_cons. tauto.
Qed.

(** ** Round trip *)

Lemma built_bitmap ts :
  Forall (fun t => 0 <= t < nbTypes) ts ->
  let nb := foldr bitmap_set NSECBitmap_new ts in
  bitmap_ok nb /\ types_in_range nb /\ forall t, isSet nb t = bool_decide (t ∈ ts).
Proof.
  induction 1 as [|t ts Ht _ (Hok & Hr & Hx)]; cbn [foldr].
  - split_and!; [constructor| |]; [by intros t|intros t]. rewrite bool_decide_eq_false_2; [done|set_solver].
  - split_and!; [by apply bitmap_set_ok| |]; intros x; rewrite bitmap_set_isSet by done.
    + rewrite orb_true_iff, Z.eqb_eq. intros [->|H]; [done|by apply Hr].
    + rewrite Hx. apply eq_true_iff_eq. rewrite orb_true_iff, Z.eqb_eq, !bool_decide_eq_true. set_solver.
Qed.

(** the type bitmap of an NSEC record survives the wire.  Types set in any
    order, kept as a set or a bitset, written as windows at the end of a packet
    and read back from the record that ends there, are exactly the types found
    set afterwards. *)
Theorem bitmap_round_trip (ts : list Z) (pw : GenericDNSPacketWriter) (r : PacketReader) (post : bytes) :
  let out := w_content (bitmap_toPacket (foldr bitmap_set NSECBitmap_new ts) pw) in
  Forall (fun t => 0 <= t < nbTypes) ts ->
  r_content r = out ++ post -> r_pos r = zlen (w_content pw) ->
  r_startrecordpos r <= r_pos r -> record_end r = zlen out ->
  exists nb, bitmap_fromPacket (r, NSECBitmap_new) = ((set_pos (zlen out) r, nb), Ok tt)
    /\ forall t, isSet nb t = bool_decide (t ∈ ts).
Proof.
  intros out Hts Hc Hp Hs He. destruct (built_bitmap ts Hts) as (Hok & Hr & Hset).
  destruct (toPacket_windows _ pw Hok Hr) as (ws & Hout & Hws & Hin). fold out in Hout.
  unfold bitmap_fromPacket. rewrite sm_bind_run.
  rewrite (on_fst_run _ r (set_pos (record_end r) r) (Ok (enc_windows ws))).
  2:{ apply (xfrBlob_rest_ahead r (w_content pw) _ post); [|done| |done].
      - by rewrite Hc, Hout, <- app_assoc.
      - by rewrite He, Hout, zlen_app. }
  rewrite He.
  destruct (parse_windows_spec ws (length (enc_windows ws)) NSECBitmap_new) as (nb & Hparse & Hok' & Hx);
    [constructor|done|done|].
  exists nb. split.
  - case_bool_decide as E.
    + rewrite E in Hparse. simpl in Hparse. by simplify_eq.
    + rewrite (proj2 (Z.ltb_ge _ _)); [by rewrite Hparse|].
      destruct ws as [|[w m] ws]; [done|]. unfold enc_windows. cbn [map concat app].
      rewrite !zlen_cons. pose proof (zlen_nonneg (m ++ enc_windows ws)). unfold enc_windows in *. lia.
  - intros t. rewrite <- Hset. apply eq_true_iff_eq. rewrite Hx, Hin.
    assert (isSet NSECBitmap_new t = false) as -> by done. naive_solver.
Qed.

Definition ex_pw : GenericDNSPacketWriter :=
  mkWriter (bs "before") [] (mkDNSName []) 0 0 0 ANSWER false false false.

Definition ex_types : list Z := [QType.NSEC; QType.NS; QType.CAA; QType.RRSIG; QType.DLV; QType.NS].

Definition ex_bitmap_out : bytes :=
  w_content (bitmap_toPacket (foldr bitmap_set NSECBitmap_new ex_types) ex_pw).

Lemma bitmap_round_trip_witness :
  ex_bitmap_out = bs "before" ++ [0; 6; 32; 0; 0; 0; 0; 3; 1; 1; 64; 128; 1; 64]
  /\ exists nb,
    bitmap_fromPacket (mkReader (ex_bitmap_out ++ [1; 2]) 6 4 16 false false 0, NSECBitmap_new)
    = ((mkReader (ex_bitmap_out ++ [1; 2]) 20 4 16 false false 0, nb), Ok tt)
    /\ forall t, isSet nb t = bool_decide (t ∈ ex_types).
Proof.
  split; [vm_compute; reflexivity|].
  apply (bitmap_round_trip ex_types ex_pw (mkReader (ex_bitmap_out ++ [1; 2]) 6 4 16 false false 0) [1; 2]);
    try by_decide; try reflexivity.
Defined.

(** ** Assignment *)

(** assigning a bitmap with few types to one with many leaves the many: the
    bitset of the left side is not reset, and it is the one that is looked at. *)
Theorem bitmap_assign_keeps_old :
  let many := foldr bitmap_set NSECBitmap_new (seqZ 1 201) in
  let few := bitmap_set QType.MX NSECBitmap_new in
  isSet (bitmap_assign many few) QType.TXT = true /\ isSet few QType.TXT = false.
Proof. vm_compute. done. Qed.
