(* ===== verification/Denial.v ===== *)
(** * Denial of existence

    The part of the DNSSEC validator of [pdns/validate.cc] that decides what the
    NSEC and NSEC3 records of a response prove, with [hashQNameWithSalt] of
    [pdns/dnssecinfra.cc].  SHA-1 is a parameter.  Log lines are left out.
    Pointers to records and signatures are taken to be set. *)

From stdpp Require Import gmap.
From S2P Require Import Prelude Chars Dns StdSet Names NamesOrder NsecBitmap Base32.

#[local] Open Scope Z_scope.

(** ** Data *)

Record NSECRecordContent : Type := mkNSEC {
  nsec_next : DNSName;
  nsec_bitmap : NSECBitmap;
}.

Record NSEC3RecordContent : Type := mkNSEC3 {
  nsec3_flags : Z;
  nsec3_iterations : Z;
  nsec3_salt : bytes;
  nsec3_nexthash : bytes;
  nsec3_bitmap : NSECBitmap;
}.

Definition isOptOut (n : NSEC3RecordContent) : bool := negb (Z.land (nsec3_flags n) 1 =? 0).

Record RRSIGRecordContent : Type := mkRRSIG {
  sig_type : Z;
  sig_algorithm : Z;
  sig_labels : Z;
  sig_originalttl : Z;
  sig_expire : Z;
  sig_inception : Z;
  sig_tag : Z;
  sig_signer : DNSName;
  sig_signature : bytes;
}.

(** What the [dynamic_pointer_cast]s of the validator tell apart. *)
Inductive rr_content : Type :=
| RR_NSEC (n : NSECRecordContent)
| RR_NSEC3 (n : NSEC3RecordContent)
| RR_other.

Definition as_nsec (c : rr_content) : option NSECRecordContent :=
  match c with RR_NSEC n => Some n | _ => None end.
Definition as_nsec3 (c : rr_content) : option NSEC3RecordContent :=
  match c with RR_NSEC3 n => Some n | _ => None end.

Record ContentSigPair : Type := mkCSP {
  csp_records : list rr_content;
  csp_signatures : list RRSIGRecordContent;
}.

(** [cspmap_t], in the order of the map. *)
Definition cspmap_t : Type := list ((DNSName * Z) * ContentSigPair).

Inductive dState : Type := NODENIAL | INCONCLUSIVE | NXDOMAIN | NXQTYPE | ENT | INSECURE | OPTOUT.

#[export] Instance dState_eq_dec : EqDecision dState.
Proof. solve_decision. Defined.

(** [pdns::validation::ValidationContext]; the keys of the cache are compared
    with [DNSName::operator<], which ignores case. *)
Record ValidationContext : Type := mkContext {
  vc_nsec3Cache : gmap (bytes * bytes * Z) bytes;
  vc_validationsCounter : Z;
  vc_iterationsQuota : Z;
  vc_limitHit : bool;
}.

Definition hit_limit (c : ValidationContext) : ValidationContext :=
  mkContext (vc_nsec3Cache c) (vc_validationsCounter c) (vc_iterationsQuota c) true.

(** The settings of [validate.hh]. *)
Record validator_settings : Type := mkSettings {
  g_signatureInceptionSkew : Z;
  g_maxNSEC3Iterations : Z;
  g_maxRRSIGsPerRecordToConsider : Z;
  g_maxNSEC3sPerRecordToConsider : Z;
  g_maxDNSKEYsToConsider : Z;
  g_maxDSsToConsider : Z;
}.

Definition g_wildcarddnsname : DNSName := mkDNSName [1; 42; 0].

(** ** Intervals *)

(** The decision shared by the three functions below, from the three orders:
    begin/name, name/next and begin/next. *)
Definition covered (order_bh order_hn order_bn : comparison) : bool :=
  if bool_decide (order_bh = Lt) && bool_decide (order_hn = Lt) then true
  else if bool_decide (order_hn = Lt) && bool_decide (order_bn = Gt) then true
  else if bool_decide (order_bn = Gt) && bool_decide (order_bh = Lt) then true
  else if bool_decide (order_bn = Eq) && negb (bool_decide (order_bh = Eq)) then true
  else false.

(** [isCoveredByNSEC3Hash] on hashes, with [std::string::compare]. *)
Definition isCoveredByNSEC3Hash (hash beginHash nextHash : bytes) : bool :=
  covered (lex_compare Z.compare beginHash hash) (lex_compare Z.compare hash nextHash)
    (lex_compare Z.compare beginHash nextHash).

(** [isCoveredByNSEC], and [isCoveredByNSEC3Hash] on names. *)
Definition isCoveredByNSEC (name begin next : DNSName) : bool :=
  covered (canonCompare_three_way begin name false ?= 0) (canonCompare_three_way name next false ?= 0)
    (canonCompare_three_way begin next false ?= 0).

Definition nsecProvesENT (name begin next : DNSName) : result bool :=
  if canonCompare begin name false && negb (name_eqb next name) then isPartOf next name else Ok false.

(** ** Signatures *)

Definition isRRSIGLabelCountValid (sign : RRSIGRecordContent) : bool :=
  countLabels (sig_signer sign) <=? sig_labels sign.

Definition isWildcardExpanded_labels (labelCount : Z) (sign : RRSIGRecordContent) : bool :=
  (sig_labels sign <? labelCount) && isRRSIGLabelCountValid sign.

Definition isWildcardExpanded (owner : DNSName) (signatures : list RRSIGRecordContent) : bool :=
  match signatures with
  | [] => false
  | sign :: _ => isWildcardExpanded_labels (countLabels owner) sign
  end.

Definition isWildcardExpandedOntoItself_labels (owner : DNSName) (labelCount : Z)
    (sign : RRSIGRecordContent) : bool :=
  isWildcard owner && (u32 (labelCount - 1) =? sig_labels sign) && isRRSIGLabelCountValid sign.

Definition isWildcardExpandedOntoItself (owner : DNSName) (signatures : list RRSIGRecordContent) : bool :=
  match signatures with
  | [] => false
  | sign :: _ => isWildcardExpandedOntoItself_labels owner (countLabels owner) sign
  end.

(** [getSigner]: an unset name when there is no signature. *)
Definition getSigner (signatures : list RRSIGRecordContent) : DNSName :=
  match signatures with [] => mkDNSName [] | sig :: _ => sig_signer sig end.

Definition getNSECOwnerName (initialOwner : DNSName) (signatures : list RRSIGRecordContent) : result DNSName :=
  match signatures with
  | [] => Ok initialOwner
  | sign :: _ =>
      let labelsCount := countLabels initialOwner in
      if (sig_labels sign <? labelsCount) && isRRSIGLabelCountValid sign
      then name_append g_wildcarddnsname (chopOff_times (Z.to_nat (labelsCount - sig_labels sign)) initialOwner)
      else Ok initialOwner
  end.

(** ** Types *)

Definition isTypeDenied (bitmap : NSECBitmap) (type : Z) : bool :=
  if isSet bitmap type then false else if isSet bitmap QType.CNAME then false else true.

Definition isNSECAncestorDelegation (signer owner : DNSName) (bitmap : NSECBitmap) : bool :=
  isSet bitmap QType.NS && negb (isSet bitmap QType.SOA) && (countLabels signer <? countLabels owner).

(** ** NSEC *)

Definition getClosestEncloserFromNSEC (name owner next : DNSName) : result DNSName :=
  commonWithOwner ← getCommonLabels name owner;
  commonWithNext ← getCommonLabels name next;
  Ok (if countLabels commonWithNext <=? countLabels commonWithOwner then commonWithOwner else commonWithNext).

(** A loop over a vector that a [return] or a [break] may leave. *)
Fixpoint for_each {X A} (l : list X) (body : X -> result (option A)) : result (option A) :=
  match l with
  | [] => Ok None
  | x :: l => o ← body x; match o with Some a => Ok (Some a) | None => for_each l body end
  end.

(** The two nested loops over the NSEC records of the valid sets. *)
Definition for_nsec {A} (validrrsets : cspmap_t)
    (body : DNSName -> list RRSIGRecordContent -> NSECRecordContent -> result (option A)) : result (option A) :=
  for_each validrrsets (fun '((name, type), csp) =>
    if type =? QType.NSEC then
      for_each (csp_records csp) (fun record =>
        match as_nsec record with
        | None => Ok None
        | Some nsec => body name (csp_signatures csp) nsec
        end)
    else Ok None).

Definition provesNoDataWildCard (qtype : Z) (closestEncloser : DNSName) (validrrsets : cspmap_t) : result bool :=
  wildcard ← name_append g_wildcarddnsname closestEncloser;
  r ← for_nsec validrrsets (fun name signatures nsec =>
        owner ← getNSECOwnerName name signatures;
        if negb (name_eqb owner wildcard) then Ok None
        else Ok (Some ((qtype =? 0) || isTypeDenied (nsec_bitmap nsec) qtype)));
  Ok (default false r).

Definition provesNoWildCard (qname : DNSName) (closestEncloser : DNSName) (validrrsets : cspmap_t) : result bool :=
  wildcard ← name_append g_wildcarddnsname closestEncloser;
  r ← for_nsec validrrsets (fun name signatures nsec =>
        owner ← getNSECOwnerName name signatures;
        below ← (if negb (name_eqb qname owner) then isPartOf qname owner else Ok false);
        if below && isSet (nsec_bitmap nsec) QType.DNAME then Ok (Some false)
        else if negb (name_eqb wildcard owner) && isCoveredByNSEC wildcard owner (nsec_next nsec) then Ok (Some true)
        else Ok None);
  Ok (default false r).

(** [a.isPartOf(s) && ...] in the order of the source, stopping at the first
    that is false. *)
Fixpoint all_part_of (names : list DNSName) (signer : DNSName) : result bool :=
  match names with
  | [] => Ok true
  | n :: names => b ← isPartOf n signer; if b : bool then all_part_of names signer else Ok false
  end.

(** One NSEC record in the main loop of [getDenial]: [None] is [continue]. *)
Definition getDenial_nsec (validrrsets : cspmap_t) (qname : DNSName) (qtype : Z)
    (referralToUnsigned wantsNoDataProof needWildcardProof : bool) (wildcardLabelsCount : Z)
    (name : DNSName) (signatures : list RRSIGRecordContent) (nsec : NSECRecordContent) : result (option dState) :=
  if bool_decide (signatures = []) then Ok None
  else
    let bitmap := nsec_bitmap nsec in
    let nameToDeny := if negb needWildcardProof then trimToLabels qname (wildcardLabelsCount + 1) else qname in
    owner ← getNSECOwnerName name signatures;
    let signer := getSigner signatures in
    parts ← all_part_of [name; owner; nameToDeny; nsec_next nsec] signer;
    if negb parts then Ok None
    else
      let notApex := countLabels signer <? countLabels owner in
      if notApex && isSet bitmap QType.NS && isSet bitmap QType.SOA then Ok None
      else
        below ← isPartOf nameToDeny owner;
        if below && isNSECAncestorDelegation signer owner bitmap
           && (negb (qtype =? QType.DS) || negb (name_eqb nameToDeny owner)) then Ok (Some NODENIAL)
        else if (qtype =? QType.DS) && negb (isRoot nameToDeny) && name_eqb signer nameToDeny then Ok None
        else if name_eqb nameToDeny owner then
          if negb (isTypeDenied bitmap qtype) then Ok (Some NODENIAL)
          else if referralToUnsigned && (qtype =? QType.DS) && negb (isSet bitmap QType.NS) then Ok (Some NODENIAL)
          else
            let needWildcardProof :=
              if needWildcardProof
                 && (negb (isWildcardExpanded owner signatures) || isWildcardExpandedOntoItself owner signatures)
              then false else needWildcardProof in
            if negb needWildcardProof then Ok (Some NXQTYPE)
            else
              closestEncloser ← getClosestEncloserFromNSEC nameToDeny owner (nsec_next nsec);
              proven ← provesNoWildCard nameToDeny closestEncloser validrrsets;
              Ok (Some (if proven : bool then NXQTYPE else NODENIAL))
        else if below && isSet bitmap QType.DNAME then Ok (Some NODENIAL)
        else if isCoveredByNSEC nameToDeny owner (nsec_next nsec) then
          ent ← nsecProvesENT nameToDeny owner (nsec_next nsec);
          if ent : bool then Ok (Some (if wantsNoDataProof then NXQTYPE else NODENIAL))
          else if negb needWildcardProof then Ok (Some NXDOMAIN)
          else
            closestEncloser ← getClosestEncloserFromNSEC nameToDeny owner (nsec_next nsec);
            if wantsNoDataProof then
              proven ← provesNoDataWildCard qtype closestEncloser validrrsets;
              Ok (Some (if proven : bool then NXQTYPE else NODENIAL))
            else
              proven ← provesNoWildCard nameToDeny closestEncloser validrrsets;
              Ok (Some (if proven : bool then NXDOMAIN else NODENIAL))
        else Ok None.

Definition matchesNSEC (name : DNSName) (qtype : Z) (nsecOwner : DNSName) (nsec : NSECRecordContent)
    (signatures : list RRSIGRecordContent) : result dState :=
  let signer := getSigner signatures in
  parts ← all_part_of [name; nsecOwner] signer;
  if negb parts then Ok INCONCLUSIVE
  else
    owner ← getNSECOwnerName nsecOwner signatures;
    below ← isPartOf name owner;
    if below && isNSECAncestorDelegation signer owner (nsec_bitmap nsec)
       && (negb (qtype =? QType.DS) || negb (name_eqb name owner)) then Ok NODENIAL
    else if name_eqb name owner then
      if negb (isTypeDenied (nsec_bitmap nsec) qtype) then Ok NODENIAL
      else if (qtype =? QType.DS) && name_eqb signer name then Ok NODENIAL
      else Ok NXQTYPE
    else if below && isSet (nsec_bitmap nsec) QType.DNAME then Ok NODENIAL
    else if isCoveredByNSEC name owner (nsec_next nsec) then
      ent ← nsecProvesENT name owner (nsec_next nsec);
      Ok (if ent : bool then NXQTYPE else NXDOMAIN)
    else Ok INCONCLUSIVE.

(** ** NSEC3 *)

Section nsec3.
Context (SHA1 : bytes -> bytes) (cfg : validator_settings).

(** The loop of [hashQNameWithSalt]; [times] rounds are left after this one. *)
Fixpoint hash_loop (times : nat) (first : bool) (salt toHash : bytes) : bytes :=
  let hash := SHA1 toHash in
  match times with
  | O => hash
  | S times' => hash_loop times' false salt (if first then hash ++ salt else zwrite toHash 0 hash)
  end.

Definition hashQNameWithSalt (salt : bytes) (iterations : Z) (qname : DNSName) : result bytes :=
  name ← toDNSStringLC qname;
  Ok (hash_loop (Z.to_nat iterations) true salt (name ++ salt)).

Definition cache_key (qname : DNSName) (salt : bytes) (iterations : Z) : bytes * bytes * Z :=
  (toLower (d_storage qname), salt, iterations).

Definition tooManyNSEC3Iterations : exn := runtime_error "Too many NSEC3 hash computations per query".

Definition getHashFromNSEC3 (qname : DNSName) (iterations : Z) (salt : bytes) : SM ValidationContext bytes :=
  if negb (g_maxNSEC3Iterations cfg =? 0) && (g_maxNSEC3Iterations cfg <? iterations) then mret []
  else
    let key := cache_key qname salt iterations in
    c ← sm_get (fun c => c);
    match vc_nsec3Cache c !! key with
    | Some hash => mret hash
    | None =>
        _ ← sm_throw_if (vc_iterationsQuota c <? iterations) tooManyNSEC3Iterations;
        result ← sm_lift (hashQNameWithSalt salt iterations qname);
        _ ← sm_modify (fun c => mkContext (<[key := result]> (vc_nsec3Cache c)) (vc_validationsCounter c)
                                  (vc_iterationsQuota c - iterations) (vc_limitHit c));
        mret result
    end.

Definition nsec3_hash (qname : DNSName) (nsec3 : NSEC3RecordContent) : SM ValidationContext bytes :=
  getHashFromNSEC3 qname (nsec3_iterations nsec3) (nsec3_salt nsec3).

(** The hash in the first label of an owner name. *)
Definition owner_hash (name : DNSName) : result bytes := l ← getRawLabel name 0; Ok (fromBase32Hex l).

Fixpoint for_each_m {S X A} (l : list X) (body : X -> SM S (option A)) : SM S (option A) :=
  match l with
  | [] => mret None
  | x :: l => o ← body x; match o with Some a => mret (Some a) | None => for_each_m l body end
  end.

Definition for_nsec3 {S A} (validrrsets : cspmap_t)
    (body : DNSName -> list RRSIGRecordContent -> NSEC3RecordContent -> SM S (option A)) : SM S (option A) :=
  for_each_m validrrsets (fun '((name, type), csp) =>
    if type =? QType.NSEC3 then
      for_each_m (csp_records csp) (fun record =>
        match as_nsec3 record with
        | None => mret None
        | Some nsec3 => body name (csp_signatures csp) nsec3
        end)
    else mret None).

(** [provesNSEC3NoWildCard]: the answer and [*wildcardExists]. *)
Definition provesNSEC3NoWildCard (closestEncloser : DNSName) (qtype : Z) (validrrsets : cspmap_t)
  : SM ValidationContext (bool * bool) :=
  wildcard ← sm_lift (name_append g_wildcarddnsname closestEncloser);
  r ← for_nsec3 validrrsets (fun name signatures nsec3 =>
        let signer := getSigner signatures in
        parts ← sm_lift (all_part_of [name; closestEncloser] signer);
        if negb parts then mret None
        else
          hash ← nsec3_hash wildcard nsec3;
          if bool_decide (hash = []) then mret (Some (false, false))
          else
            beginHash ← sm_lift (owner_hash name);
            if bool_decide (beginHash = hash) then
              if negb (qtype =? QType.DS) && isNSECAncestorDelegation signer name (nsec3_bitmap nsec3)
              then mret (Some (false, true))
              else mret (Some ((qtype =? 0) || isTypeDenied (nsec3_bitmap nsec3) qtype, true))
            else if isCoveredByNSEC3Hash hash beginHash (nsec3_nexthash nsec3) then mret (Some (true, false))
            else mret None);
  mret (default (false, false) r).

(** The variables of [getDenial] that its loops change. *)
Record denial_vars : Type := mkVars {
  dv_context : ValidationContext;
  dv_nsec3Seen : bool;
  dv_numberOfLabelsOfParentZone : Z;
  dv_nsec3sConsidered : Z;
}.

Definition in_context {A} (m : SM ValidationContext A) : SM denial_vars A :=
  fun v => let '(c, r) := m (dv_context v) in
           (mkVars c (dv_nsec3Seen v) (dv_numberOfLabelsOfParentZone v) (dv_nsec3sConsidered v), r).

Definition set_considered (k : Z) (v : denial_vars) : denial_vars :=
  mkVars (dv_context v) (dv_nsec3Seen v) (dv_numberOfLabelsOfParentZone v) k.

(** The check of the number of NSEC3 records against the setting: [true] when
    there are too many. *)
Definition too_many_nsec3s : SM denial_vars bool :=
  v ← sm_get (fun v => v);
  if (0 <? g_maxNSEC3sPerRecordToConsider cfg)
     && (g_maxNSEC3sPerRecordToConsider cfg <=? dv_nsec3sConsidered v) then
    _ ← in_context (sm_modify hit_limit); mret true
  else
    _ ← sm_modify (set_considered (u16 (dv_nsec3sConsidered v + 1))); mret false.

(** One NSEC3 record in the main loop of [getDenial]. *)
Definition getDenial_nsec3 (qname : DNSName) (qtype : Z) (referralToUnsigned : bool)
    (hashedOwner : DNSName) (signatures : list RRSIGRecordContent) (nsec3 : NSEC3RecordContent)
  : SM denial_vars (option dState) :=
  let bitmap := nsec3_bitmap nsec3 in
  if bool_decide (signatures = []) then mret None
  else
    let signer := getSigner signatures in
    part ← sm_lift (isPartOf hashedOwner signer);
    if negb part then mret None
    else
      _ ← sm_modify (fun v => mkVars (dv_context v) (dv_nsec3Seen v)
            (Z.min (dv_numberOfLabelsOfParentZone v) (u8 (countLabels signer))) (dv_nsec3sConsidered v));
      part ← sm_lift (isPartOf qname signer);
      if negb part then mret None
      else if (qtype =? QType.DS) && negb (isRoot qname) && name_eqb signer qname then mret None
      else
        many ← too_many_nsec3s;
        if many : bool then mret (Some NODENIAL)
        else
          hash ← in_context (nsec3_hash qname nsec3);
          if bool_decide (hash = []) then mret (Some INSECURE)
          else
            _ ← sm_modify (fun v => mkVars (dv_context v) true (dv_numberOfLabelsOfParentZone v)
                  (dv_nsec3sConsidered v));
            beginHash ← sm_lift (owner_hash hashedOwner);
            if bool_decide (beginHash = hash) then
              let notApex := countLabels signer <? countLabels qname in
              if notApex && isSet bitmap QType.NS && isSet bitmap QType.SOA then mret None
              else if negb (qtype =? QType.DS) && isNSECAncestorDelegation signer qname bitmap
              then mret (Some NODENIAL)
              else if negb (isTypeDenied bitmap qtype) then mret (Some NODENIAL)
              else if referralToUnsigned && (qtype =? QType.DS) && negb (isSet bitmap QType.NS)
              then mret (Some NODENIAL)
              else mret (Some NXQTYPE)
            else mret None.

(** One NSEC3 record in the search for the closest encloser: a [return], or the
    encloser is found. *)
Definition closest_encloser_nsec3 (closestEncloser : DNSName) (name : DNSName)
    (signatures : list RRSIGRecordContent) (nsec3 : NSEC3RecordContent) : SM denial_vars (option (option dState)) :=
  let signer := getSigner signatures in
  parts ← sm_lift (all_part_of [name; closestEncloser] signer);
  if negb parts then mret None
  else
    many ← too_many_nsec3s;
    if many : bool then mret (Some (Some NODENIAL))
    else
      hash ← in_context (nsec3_hash closestEncloser nsec3);
      if bool_decide (hash = []) then mret (Some (Some INSECURE))
      else
        beginHash ← sm_lift (owner_hash name);
        if bool_decide (beginHash = hash) then
          if isNSECAncestorDelegation signer name (nsec3_bitmap nsec3) then mret None
          else if isSet (nsec3_bitmap nsec3) QType.DNAME then mret (Some (Some NODENIAL))
          else mret (Some None)
        else mret None.

(** The loop that looks for the closest encloser: a result of [getDenial], or
    whether it is found and where the loop stopped.  The fuel is the number of
    labels. *)
Fixpoint closest_encloser_loop (fuel : nat) (validrrsets : cspmap_t) (closestEncloser : DNSName)
  : SM denial_vars (dState + (bool * DNSName)) :=
  match fuel with
  | O => mret (inr (false, closestEncloser))
  | S fuel' =>
      let '(closestEncloser, chopped) := chopOff closestEncloser in
      v ← sm_get (fun v => v);
      if negb (chopped && (dv_numberOfLabelsOfParentZone v <=? countLabels closestEncloser))
      then mret (inr (false, closestEncloser))
      else
        _ ← sm_modify (set_considered 0);
        r ← for_nsec3 validrrsets (closest_encloser_nsec3 closestEncloser);
        match r with
        | Some (Some d) => mret (inl d)
        | Some None => mret (inr (true, closestEncloser))
        | None => closest_encloser_loop fuel' validrrsets closestEncloser
        end
  end.

(** One NSEC3 record in the search for one that covers the next closer name:
    whether it is opt-out. *)
Definition next_closer_nsec3 (nextCloser : DNSName) (name : DNSName)
    (signatures : list RRSIGRecordContent) (nsec3 : NSEC3RecordContent) : SM denial_vars (option (dState + bool)) :=
  many ← too_many_nsec3s;
  if many : bool then mret (Some (inl NODENIAL))
  else
    hash ← in_context (nsec3_hash nextCloser nsec3);
    if bool_decide (hash = []) then mret (Some (inl INSECURE))
    else
      let signer := getSigner signatures in
      parts ← sm_lift (all_part_of [name; nextCloser] signer);
      if negb parts then mret None
      else
        beginHash ← sm_lift (owner_hash name);
        if isCoveredByNSEC3Hash hash beginHash (nsec3_nexthash nsec3) then mret (Some (inr (isOptOut nsec3)))
        else mret None.

(** The part of [getDenial] after the main loop. *)
Definition getDenial_nsec3_proof (validrrsets : cspmap_t) (qname : DNSName) (qtype : Z)
    (needWildcardProof : bool) (wildcardLabelsCount : Z) : SM denial_vars dState :=
  encloser ← (if needWildcardProof then closest_encloser_loop (S (length (d_storage qname))) validrrsets qname
              else mret (inr (true, if 0 <? wildcardLabelsCount
                                    then chopOff_times (Z.to_nat (countLabels qname - wildcardLabelsCount)) qname
                                    else qname)));
  match encloser with
  | inl d => mret d
  | inr (found, closestEncloser) =>
      let labelIdx := countLabels qname - countLabels closestEncloser in
      covering ← (if found && (1 <=? labelIdx) then
                    label ← sm_lift (getRawLabel qname (labelIdx - 1));
                    nextCloser ← sm_lift (prependRawLabel closestEncloser label);
                    _ ← sm_modify (set_considered 0);
                    for_nsec3 validrrsets (next_closer_nsec3 nextCloser)
                  else mret None);
      match covering with
      | None => mret NODENIAL
      | Some (inl d) => mret d
      | Some (inr isOptOut) =>
          '(proven, wildcardExists) ←
             (if needWildcardProof then in_context (provesNSEC3NoWildCard closestEncloser qtype validrrsets)
              else mret (true, false));
          if needWildcardProof && negb proven && negb isOptOut then mret NODENIAL
          else if isOptOut : bool then mret OPTOUT
          else if wildcardExists : bool then mret NXQTYPE
          else mret NXDOMAIN
      end
  end.

(** The main loop of [getDenial]. *)
Definition getDenial_loop (validrrsets : cspmap_t) (qname : DNSName) (qtype : Z)
    (referralToUnsigned wantsNoDataProof needWildcardProof : bool) (wildcardLabelsCount : Z)
  : SM denial_vars (option dState) :=
  for_each_m validrrsets (fun '((name, type), csp) =>
    if type =? QType.NSEC then
      for_each_m (csp_records csp) (fun record =>
        match as_nsec record with
        | None => mret None
        | Some nsec => sm_lift (getDenial_nsec validrrsets qname qtype referralToUnsigned wantsNoDataProof
                                  needWildcardProof wildcardLabelsCount name (csp_signatures csp) nsec)
        end)
    else if type =? QType.NSEC3 then
      for_each_m (csp_records csp) (fun record =>
        match as_nsec3 record with
        | None => mret None
        | Some nsec3 => getDenial_nsec3 qname qtype referralToUnsigned name (csp_signatures csp) nsec3
        end)
    else mret None).

Definition getDenial (validrrsets : cspmap_t) (qname : DNSName) (qtype : Z)
    (referralToUnsigned wantsNoDataProof needWildcardProof : bool) (wildcardLabelsCount : Z)
  : SM ValidationContext dState := fun context =>
  if (negb needWildcardProof && (wildcardLabelsCount =? 0)) || (countLabels qname <? wildcardLabelsCount)
  then (context, Throw (PDNSException "Invalid wildcard labels count for the validation of a positive answer synthesized from a wildcard"))
  else
    let '(v, r) :=
      (o ← getDenial_loop validrrsets qname qtype referralToUnsigned wantsNoDataProof needWildcardProof
             wildcardLabelsCount;
       match o with
       | Some d => mret d
       | None =>
           v ← sm_get (fun v => v);
           if negb (dv_nsec3Seen v) then mret NODENIAL
           else getDenial_nsec3_proof validrrsets qname qtype needWildcardProof wildcardLabelsCount
       end) (mkVars context false 255 0) in
    (dv_context v, r).

(** A record of the answer to a query for DS. *)
Record denial_record : Type := mkDenialRecord {
  dr_name : DNSName;
  dr_type : Z;
  dr_content : rr_content;
}.

Definition denialProvesNoDelegation_record (zone : DNSName) (record : denial_record)
  : SM denial_vars (option bool) :=
  if dr_type record =? QType.NSEC then
    match as_nsec (dr_content record) with
    | None => mret None
    | Some nsec =>
        if name_eqb (dr_name record) zone then mret (Some (negb (isSet (nsec_bitmap nsec) QType.NS)))
        else
          part ← sm_lift (if isCoveredByNSEC zone (dr_name record) (nsec_next nsec)
                          then isPartOf (nsec_next nsec) zone else Ok false);
          mret (if part : bool then Some true else None)
    end
  else if dr_type record =? QType.NSEC3 then
    match as_nsec3 (dr_content record) with
    | None => mret None
    | Some nsec3 =>
        many ← too_many_nsec3s;
        if many : bool then mret (Some false)
        else
          hash ← in_context (nsec3_hash zone nsec3);
          if bool_decide (hash = []) then mret (Some false)
          else
            beginHash ← sm_lift (owner_hash (dr_name record));
            if bool_decide (beginHash = hash) then mret (Some (negb (isSet (nsec3_bitmap nsec3) QType.NS)))
            else if isCoveredByNSEC3Hash hash beginHash (nsec3_nexthash nsec3)
            then mret (Some (negb (isOptOut nsec3)))
            else mret None
    end
  else mret None.

Definition denialProvesNoDelegation (zone : DNSName) (dsrecords : list denial_record)
  : SM ValidationContext bool := fun context =>
  let '(v, r) := for_each_m dsrecords (denialProvesNoDelegation_record zone) (mkVars context false 255 0) in
  (dv_context v, default false <$> r).
End nsec3.
