(* ===== verification/DenialFacts.v ===== *)
(** * Canonical order and zones

    The order-theoretic side of denial of existence: names as keys in the
    canonical order, the gaps between neighbours, zones, and what it means for an
    NSEC record to be one of a zone. *)

From S2P Require Import Prelude Chars Dns Names NamesFacts NamesOrder NamesSpec NsecBitmap Denial.

#[local] Open Scope Z_scope.

(** ** Lexicographic order and prefixes *)

Section lex.
Context {A : Type} (cmp : A -> A -> comparison) `{!TotalCompare cmp}.
#[local] Notation lcmp := (lex_compare cmp).

Lemma lex_prefix_le p a : p `prefix_of` a -> lcmp p a <> Gt.
Proof.
  revert a. induction p as [|x p IH]; intros a [s ->]; [by destruct s|]. cbn. rewrite (cmp_refl cmp).
  apply IH. by apply prefix_app_r.
Qed.

Lemma lex_lt_irrefl a : lcmp a a <> Lt.
Proof. rewrite (cmp_refl lcmp). done. Qed.

(** The extensions of [p] are consecutive. *)
Lemma lex_convex p a b c :
  p `prefix_of` a -> p `prefix_of` c -> lcmp a b <> Gt -> lcmp b c <> Gt -> p `prefix_of` b.
Proof.
  revert a b c. induction p as [|x p IH]; intros a b c Ha Hc Hab Hbc; [apply prefix_nil|].
  destruct a as [|xa a]; [by apply prefix_nil_not in Ha|]. destruct c as [|xc c]; [by apply prefix_nil_not in Hc|].
  pose proof (prefix_cons_inv_1 _ _ _ _ Ha) as <-. pose proof (prefix_cons_inv_1 _ _ _ _ Hc) as <-.
  apply prefix_cons_inv_2 in Ha, Hc. destruct b as [|y b]; [done|]. cbn in Hab, Hbc.
  destruct (cmp x y) eqn:Exy; [|by rewrite cmp_opp, Exy in Hbc|done].
  apply cmp_eq_iff in Exy as <-. rewrite (cmp_refl cmp) in Hbc. apply prefix_cons. exact (IH a b c Ha Hc Hab Hbc).
Qed.
End lex.

(** ** Keys *)

(** A key is a list of case-folded labels from the root down. *)
Definition key : Type := list bytes.

Definition kcompare : key -> key -> comparison := lex_compare (lex_compare Z.compare).

#[export] Instance kcompare_total : TotalCompare kcompare.
Proof. unfold kcompare. apply _. Qed.

Definition klt (a b : key) : Prop := kcompare a b = Lt.
Definition kle (a b : key) : Prop := kcompare a b <> Gt.

Infix "<k" := klt (at level 70).
Infix "≤k" := kle (at level 70).

Lemma klt_trans a b c : a <k b -> b <k c -> a <k c.
Proof. apply (cmp_trans (cmp := kcompare)). Qed.

Lemma klt_irrefl a : ~ a <k a.
Proof. unfold klt. rewrite (cmp_refl kcompare). done. Qed.

Lemma kle_cases a b : a ≤k b <-> a <k b \/ a = b.
Proof.
  unfold kle, klt. destruct (kcompare a b) eqn:E; [apply cmp_eq_iff in E|..]; try naive_solver.
  split; [done|]. intros [?| ->]; [done|]. by rewrite (cmp_refl kcompare) in E.
Qed.

Lemma klt_nle a b : a <k b <-> ~ b ≤k a.
Proof.
  unfold klt, kle. rewrite (cmp_opp (cmp := kcompare) b a). destruct (kcompare b a); cbn; naive_solver.
Qed.

Lemma knlt_le a b : ~ a <k b <-> b ≤k a.
Proof. rewrite klt_nle. unfold kle. destruct (kcompare b a); naive_solver. Qed.

Lemma kle_lt_trans a b c : a ≤k b -> b <k c -> a <k c.
Proof. rewrite kle_cases. intros [?| ->]; [by eapply klt_trans|done]. Qed.

Lemma klt_le_trans a b c : a <k b -> b ≤k c -> a <k c.
Proof. rewrite kle_cases. intros ? [?| <-]; [by eapply klt_trans|done]. Qed.

Lemma kle_antisym a b : a ≤k b -> b ≤k a -> a = b.
Proof. rewrite !kle_cases. intros [H1|?] [H2|?]; try done. destruct (klt_irrefl a). by eapply klt_trans. Qed.

Lemma klt_total a b : a <k b \/ a = b \/ b <k a.
Proof. destruct (decide (kcompare a b = Gt)) as [E|E]; [|apply kle_cases in E; naive_solver].
  right; right. apply klt_nle. unfold kle. naive_solver.
Qed.

Lemma prefix_kle p a : p `prefix_of` a -> p ≤k a.
Proof. exact (lex_prefix_le (lex_compare Z.compare) p a). Qed.

Lemma prefix_klt p a : p `prefix_of` a -> p <> a -> p <k a.
Proof. intros [?| ?]%prefix_kle%kle_cases ?; done. Qed.

Lemma k_convex p a b c : p `prefix_of` a -> p `prefix_of` c -> a ≤k b -> b ≤k c -> p `prefix_of` b.
Proof. exact (lex_convex (lex_compare Z.compare) p a b c). Qed.

(** ** Gaps *)

(** [x] lies strictly between [b] and [n] on the circle of the keys; the whole
    circle but [b] when the two are equal. *)
Definition in_gap (b n x : key) : Prop := (b <k x /\ x <k n) \/ (n ≤k b /\ (b <k x \/ x <k n)).

Lemma covered_spec b n x :
  covered (kcompare b x) (kcompare x n) (kcompare b n) = true <-> in_gap b n x.
Proof.
  unfold covered, in_gap, klt, kle. rewrite (cmp_opp (cmp := kcompare) b n).
  destruct (kcompare b n) eqn:E.
  - apply cmp_eq_iff in E as <-. rewrite (cmp_opp (cmp := kcompare) b x). destruct (kcompare b x); cbn; naive_solver.
  - destruct (kcompare b x), (kcompare x n); cbn; naive_solver.
  - destruct (kcompare b x), (kcompare x n); cbn; naive_solver.
Qed.

(** ** The key of a name *)

Definition ckey (ls : list bytes) : key := reverse (ci_labels ls).

(** [n] is a legal name with key [k]. *)
Definition named_key (n : DNSName) (k : key) : Prop := exists ls, represents n ls /\ k = ckey ls.

Lemma length_ckey ls : length (ckey ls) = length ls.
Proof. unfold ckey, ci_labels. by rewrite length_reverse, length_map. Qed.

Lemma ckey_app a b : ckey (a ++ b) = ckey b ++ ckey a.
Proof. unfold ckey, ci_labels. by rewrite map_app, reverse_app. Qed.

Section names.
Context (n m : DNSName) (a b : key).
Context (Hn : named_key n a) (Hm : named_key m b).

Lemma key_name_eqb : name_eqb n m = true <-> a = b.
Proof.
  destruct Hn as (ls & Hl & ->), Hm as (ms & Hms & ->). rewrite (name_eqb_represents _ _ _ _ Hl Hms).
  unfold ckey. split; [by intros ->|]. apply (inj reverse).
Qed.

Lemma key_isPartOf : isPartOf n m = Ok (bool_decide (b `prefix_of` a)).
Proof.
  destruct Hn as (ls & Hl & ->), Hm as (ms & Hms & ->). rewrite (isPartOf_represents _ _ _ _ Hl Hms).
  f_equal. apply bool_decide_ext. unfold ckey. apply suffix_prefix_reverse.
Qed.

Lemma key_compare : (canonCompare_three_way n m false ?= 0) = kcompare a b.
Proof.
  destruct Hn as (ls & Hl & ->), Hm as (ms & Hms & ->). rewrite (canonCompare_fast_slow _ _ _ _ Hl Hms).
  by rewrite (slowCanonCompare_spec _ _ _ _ Hl Hms).
Qed.

Lemma key_canonCompare : canonCompare n m false = true <-> a <k b.
Proof. unfold canonCompare. rewrite Z.ltb_lt, <- Z.compare_lt_iff, key_compare. done. Qed.

Lemma key_countLabels : countLabels n = zlen a.
Proof.
  destruct Hn as (ls & Hl & ->). rewrite (countLabels_represents _ _ Hl). unfold zlen. by rewrite length_ckey.
Qed.

Lemma key_isRoot : isRoot n = true <-> a = [].
Proof.
  destruct Hn as (ls & Hl & ->). rewrite (represents_isRoot _ _ Hl), bool_decide_eq_true.
  rewrite <- (length_zero_iff_nil ls), <- (length_zero_iff_nil (ckey ls)), length_ckey. done.
Qed.

(** The longest key two names have in common. *)
Lemma key_getCommonLabels :
  exists r c, getCommonLabels n m = Ok r /\ named_key r c /\ c `prefix_of` a /\ c `prefix_of` b
    /\ forall p, p `prefix_of` a -> p `prefix_of` b -> (length p <= length c)%nat.
Proof.
  destruct Hn as (ls & Hl & ->), Hm as (ms & Hms & ->).
  destruct (getCommonLabels_represents _ _ _ _ Hl Hms) as (r & E & Hr).
  set (c := common_prefix_ci (reverse ls) (reverse ms)) in *.
  assert (ckey (reverse c) = ci_labels c) as Ec by (unfold ckey, ci_labels; by rewrite map_reverse, reverse_involutive).
  assert (forall l, ckey l = ci_labels (reverse l)) as Ek by (intros; unfold ckey, ci_labels; by rewrite map_reverse).
  exists r, (ci_labels c). split_and!; [done|exists (reverse c); by split|..].
  - rewrite Ek. destruct (common_prefix_ci_l (reverse ls) (reverse ms)) as [s Hs]. fold c in Hs.
    rewrite Hs. unfold ci_labels. rewrite map_app. by apply prefix_app_r.
  - rewrite Ek. apply common_prefix_ci_r.
  - intros p Hp1 Hp2. rewrite Ek in Hp1, Hp2. unfold ci_labels. rewrite length_map.
    destruct Hp1 as [s Hs]. assert (length p <= length (reverse ls))%nat as Hle.
    { apply (f_equal length) in Hs. unfold ci_labels in Hs. rewrite length_map, length_app in Hs. lia. }
    assert (p = ci_labels (take (length p) (reverse ls))) as Hp.
    { unfold ci_labels in *. rewrite <- firstn_map. rewrite Hs. by rewrite take_app_length. }
    assert (length p <= length (take (length p) (reverse ls)))%nat as Hl' by (rewrite length_take; lia).
    etrans; [apply Hl'|]. apply common_prefix_ci_max; [apply prefix_take|by rewrite <- Hp].
Qed.
End names.

Lemma key_covered name begin next a b c :
  named_key name a -> named_key begin b -> named_key next c ->
  isCoveredByNSEC name begin next = true <-> in_gap b c a.
Proof.
  intros Ha Hb Hc. unfold isCoveredByNSEC.
  rewrite (key_compare _ _ _ _ Hb Ha), (key_compare _ _ _ _ Ha Hc), (key_compare _ _ _ _ Hb Hc). apply covered_spec.
Qed.

Definition star : bytes := [42].

Lemma wildcard_represents : represents g_wildcarddnsname [star].
Proof. by_decide. Qed.

(** The wildcard below a name, when it is not too long. *)
Lemma wildcard_append n ls w : represents n ls -> name_append g_wildcarddnsname n = Ok w -> represents w (star :: ls).
Proof.
  intros Hl Hw. assert (zlen (storage_of ([star] ++ ls)) <= 255) as Hlen.
  { unfold name_append in Hw. bind_inv Hw. apply throw_if_Ok in E. apply Z.ltb_ge in E.
    destruct Hl as (Hs & _ & _). rewrite Hs in E. cbn [d_storage g_wildcarddnsname] in E.
    rewrite storage_of_app, zlen_app. change (zlen [1; 42; 0]) with 3 in E. change (zlen (enc_labels [star])) with 2.
    unfold s_maxDNSNameLength in E. lia. }
  rewrite (name_append_represents _ _ _ _ wildcard_represents Hl Hlen) in Hw. injection Hw as <-.
  split_and!; [done| |done]. constructor; [by_decide|apply Hl].
Qed.

Lemma key_wildcard n a w : named_key n a -> name_append g_wildcarddnsname n = Ok w -> named_key w (a ++ [star]).
Proof. intros (ls & Hl & ->) Hw. exists (star :: ls). split; [by eapply wildcard_append|symmetry; apply (ckey_app [star] ls)]. Qed.

(** ** Zones *)

(** A zone: its apex, and the types at the names that own records of it. *)
Record zone : Type := mkZone {
  z_apex : key;
  z_types : key -> option (Z -> bool);
}.

Definition z_node (z : zone) (k : key) : Prop := is_Some (z_types z k).

(** The type [t] is at [k]. *)
Definition z_has (z : zone) (k : key) (t : Z) : Prop := exists ts, z_types z k = Some ts /\ ts t = true.

(** A delegation to a child zone. *)
Definition z_cut (z : zone) (k : key) : Prop := k <> z_apex z /\ z_has z k QType.NS.

Record zone_ok (z : zone) : Prop := {
  zok_apex : z_node z (z_apex z);
  zok_below : forall k, z_node z k -> z_apex z `prefix_of` k;
  zok_soa : forall k, z_has z k QType.SOA -> k = z_apex z;
  zok_occluded : forall c k, z_cut z c \/ z_has z c QType.DNAME -> z_node z k -> c `prefix_of` k -> k = c;
}.

(** The name exists in the zone: it owns records or something below it does. *)
Definition z_exists (z : zone) (k : key) : Prop := z_apex z `prefix_of` k /\ exists n, z_node z n /\ k `prefix_of` n.

Lemma node_exists z k : zone_ok z -> z_node z k -> z_exists z k.
Proof. intros Hz Hk. split; [by apply (zok_below _ Hz)|by exists k]. Qed.

(** [b] and [n] are neighbours in the chain of the zone. *)
Definition neighbours (z : zone) (b n : key) : Prop :=
  z_node z b /\ z_node z n /\ forall k, z_node z k -> ~ in_gap b n k.

Section zones.
Context (z : zone) (Hz : zone_ok z) (b n q : key).
Context (Hnb : neighbours z b n) (Hq : z_apex z `prefix_of` q) (Hgap : in_gap b n q).

Lemma gap_not_node : ~ z_node z q.
Proof. intros Hnode. by apply (proj2 (proj2 Hnb)) in Hnode. Qed.

(** At the end of the chain the next name is the apex. *)
Lemma gap_last : n ≤k b -> n = z_apex z.
Proof.
  destruct Hnb as (Hb & Hn & Hno). intros Hle. pose proof (zok_apex _ Hz) as Ha.
  specialize (Hno _ Ha). apply kle_antisym; [|by apply prefix_kle, (zok_below _ Hz)].
  apply knlt_le. intros Hlt. apply Hno. right. auto.
Qed.

(** The two shapes of a gap around a name of the zone. *)
Lemma gap_shape : b <k q /\ (q <k n \/ n = z_apex z /\ forall k, z_node z k -> k ≤k b).
Proof.
  destruct Hgap as [[H1 H2]|[Hle H]]; [by auto|]. pose proof (gap_last Hle) as En.
  assert (~ q <k n) as Hnq. { rewrite knlt_le, En. by apply prefix_kle. }
  destruct H as [H|H]; [|done]. split; [done|]. right. split; [done|].
  intros k Hk. apply knlt_le. intros Hlt. apply (proj2 (proj2 Hnb) k Hk). right. auto.
Qed.

Lemma gap_node_cases k : z_node z k -> k ≤k b \/ (q <k n /\ n ≤k k).
Proof.
  intros Hk. destruct gap_shape as [Hb [Hn|[En Hmax]]]; [|left; by apply Hmax].
  destruct (klt_total b k) as [Hlt|[<-|Hlt]]; [|left; apply kle_cases; by right|left; apply kle_cases; by left].
  right. split; [done|]. apply knlt_le. intros Hkn. apply (proj2 (proj2 Hnb) k Hk). left. auto.
Qed.

(** A name in a gap with something below it has the next name below it. *)
Lemma gap_descendant k : z_node z k -> q `prefix_of` k -> b <k q /\ n <> q /\ q `prefix_of` n.
Proof.
  intros Hk Hp. destruct gap_shape as [Hb _]. destruct (gap_node_cases k Hk) as [Hle|[Hqn Hle]].
  - destruct (klt_irrefl q). eapply kle_lt_trans; [by apply prefix_kle|]. eapply kle_lt_trans; [done|done].
  - split_and!; [done|by intros ->; apply klt_irrefl in Hqn|].
    eapply (k_convex q q n k); [done|done|apply kle_cases; by left|done].
Qed.

(** A cut or a DNAME above a name in a gap owns the gap. *)
Lemma gap_occluding c : z_cut z c \/ z_has z c QType.DNAME -> c `prefix_of` q -> b = c.
Proof.
  intros Hc Hp.
  assert (z_node z c) as Hcn by (destruct Hc as [[_ (ts & E & _)]|(ts & E & _)]; by eexists).
  assert (c <> q) as Hne by (intros ->; by apply gap_not_node in Hcn).
  pose proof (prefix_klt _ _ Hp Hne) as Hcq. destruct gap_shape as [Hb _].
  assert (c ≤k b) as Hcb.
  { destruct (gap_node_cases c Hcn) as [?|[Hqn Hnc]]; [done|]. destruct (klt_irrefl c).
    eapply klt_le_trans; [|done]. by eapply klt_trans. }
  apply (zok_occluded _ Hz c); [done|apply Hnb|]. eapply (k_convex c c b q); [done|done|done|apply kle_cases; by left].
Qed.

(** The longest common ancestor with the zone is one with a neighbour. *)
Lemma gap_encloser k p :
  z_node z k -> p `prefix_of` q -> p `prefix_of` k -> p `prefix_of` b \/ p `prefix_of` n.
Proof.
  intros Hk Hpq Hpk. destruct gap_shape as [Hb _]. destruct (gap_node_cases k Hk) as [Hle|[Hqn Hle]].
  - left. eapply (k_convex p k b q); [done|done|done|apply kle_cases; by left].
  - right. eapply (k_convex p q n k); [done|done|apply kle_cases; by left|done].
Qed.
End zones.

(** [ce] is the closest encloser of [q]: the longest name above it that exists,
    as a node or with a node below it. *)
Definition closest_encloser (z : zone) (q ce : key) : Prop :=
  ce `prefix_of` q /\ ce <> q /\ z_exists z ce
  /\ forall k p, z_node z k -> p `prefix_of` q -> p `prefix_of` k -> (length p <= length ce)%nat.
