(* ===== verification/DenialSpec.v ===== *)
(** * What the validator accepts as denial is denial

    Soundness of [getDenial] for NSEC: when the NSEC records of the response are
    records of a zone, what the function concludes holds in the zone. *)

From S2P Require Import Prelude Chars Dns Names NamesFacts NamesOrder NsecBitmap Denial DenialFacts.

#[local] Open Scope Z_scope.

(** ** Genuine responses *)

(** The record is one of the zone, signed with the name of the zone: the name it
    was signed for and the next one are neighbours, and the bitmap is the set of
    types there. *)
Record genuine_nsec (z : zone) (name : DNSName) (signatures : list RRSIGRecordContent)
    (nsec : NSECRecordContent) (owner : DNSName) (b n : key) : Prop := {
  gn_signed : signatures <> [];
  gn_name : exists k, named_key name k;
  gn_signer : named_key (getSigner signatures) (z_apex z);
  gn_owner : getNSECOwnerName name signatures = Ok owner;
  gn_owner_key : named_key owner b;
  gn_next : named_key (nsec_next nsec) n;
  gn_neighbours : neighbours z b n;
  gn_types : exists ts, z_types z b = Some ts /\ forall t, isSet (nsec_bitmap nsec) t = ts t;
}.

(** All the NSEC records of a response are genuine, and it has no NSEC3. *)
Definition genuine_response (z : zone) (validrrsets : cspmap_t) : Prop :=
  forall name type csp, ((name, type), csp) ∈ validrrsets ->
    type <> QType.NSEC3
    /\ (type = QType.NSEC -> forall nsec, RR_NSEC nsec ∈ csp_records csp ->
          exists owner b n, genuine_nsec z name (csp_signatures csp) nsec owner b n).

Lemma for_each_inv {X A} (l : list X) (body : X -> result (option A)) a :
  for_each l body = Ok (Some a) -> exists x, x ∈ l /\ body x = Ok (Some a).
Proof.
  induction l as [|x l IH]; cbn; [done|]. intros H. bind_inv H. destruct a0 as [a'|].
  - injection H as ->. exists x. split; [left|done].
  - destruct (IH H) as (y & Hy & E'). exists y. split; [by right|done].
Qed.

(** An answer of a loop over NSEC records is the answer for a genuine one. *)
Lemma for_nsec_genuine {A} z validrrsets (body : DNSName -> list RRSIGRecordContent -> NSECRecordContent -> result (option A)) a :
  genuine_response z validrrsets -> for_nsec validrrsets body = Ok (Some a) ->
  exists name sigs nsec owner b n, genuine_nsec z name sigs nsec owner b n /\ body name sigs nsec = Ok (Some a).
Proof.
  intros Hg H. apply for_each_inv in H as ([[name type] csp] & Hin & H).
  destruct (Z.eqb_spec type QType.NSEC) as [->|]; [|done]. apply for_each_inv in H as (r & Hr & H).
  destruct r as [nsec| |]; cbn in H; [|done..].
  destruct (Hg _ _ _ Hin) as [_ Hg']. destruct (Hg' eq_refl nsec Hr) as (owner & b & n & Hgn).
  by exists name, (csp_signatures csp), nsec, owner, b, n.
Qed.

(** The main loop, when there are no NSEC3 records, does not touch its variables. *)
Lemma for_each_m_lift {S X A} (l : list X) (body : X -> SM S (option A)) (f : X -> result (option A)) s :
  (forall x, x ∈ l -> body x s = (s, f x)) -> for_each_m l body s = (s, for_each l f).
Proof.
  induction l as [|x l IH]; intros Hb; [done|]. cbn [for_each_m for_each]. rewrite sm_bind_run, Hb by left.
  destruct (f x) as [[a|]|e]; [done| |done]. cbn. apply IH. intros y Hy. apply Hb. by right.
Qed.

Lemma getDenial_loop_nsec SHA1 cfg z validrrsets qname qtype ref nodata need wlc v :
  genuine_response z validrrsets ->
  getDenial_loop SHA1 cfg validrrsets qname qtype ref nodata need wlc v
  = (v, for_nsec validrrsets (getDenial_nsec validrrsets qname qtype ref nodata need wlc)).
Proof.
  intros Hg. unfold getDenial_loop, for_nsec. apply for_each_m_lift. intros [[name type] csp] Hin.
  destruct (Hg _ _ _ Hin) as [Hn3 _].
  destruct (Z.eqb_spec type QType.NSEC); [|by destruct (Z.eqb_spec type QType.NSEC3)].
  apply for_each_m_lift. intros r _. by destruct r.
Qed.

(** A conclusion other than "no denial" is that of one genuine NSEC record. *)
Lemma getDenial_from_nsec SHA1 cfg z validrrsets qname qtype ref nodata need wlc ctx ctx' d :
  genuine_response z validrrsets -> d <> NODENIAL ->
  getDenial SHA1 cfg validrrsets qname qtype ref nodata need wlc ctx = (ctx', Ok d) ->
  exists name sigs nsec owner b n, genuine_nsec z name sigs nsec owner b n
    /\ getDenial_nsec validrrsets qname qtype ref nodata need wlc name sigs nsec = Ok (Some d).
Proof.
  intros Hg Hd. unfold getDenial. case_match; [done|]. rewrite sm_bind_run, (getDenial_loop_nsec _ _ z) by done.
  destruct (for_nsec _ _) as [[d'|]|e] eqn:E; cbn; [|intros [= <- <-]; done|done].
  intros [= <- <-]. by eapply for_nsec_genuine.
Qed.

(** ** The conclusions *)

(** The name owns no record of the zone, and no delegation or DNAME is above it. *)
Record name_absent (z : zone) (q : key) : Prop := {
  na_node : ~ z_node z q;
  na_above : forall c, z_cut z c \/ z_has z c QType.DNAME -> ~ c `prefix_of` q;
}.

(** Nothing of the zone is below the name. *)
Definition nothing_below (z : zone) (q : key) : Prop := forall k, z_node z k -> ~ q `prefix_of` k.

(** NXDOMAIN: the name does not exist, nor does the wildcard that would apply. *)
Definition name_denied (z : zone) (q : key) : Prop :=
  name_absent z q /\ nothing_below z q /\ exists ce, closest_encloser z q ce /\ ~ z_node z (ce ++ [star]).

(** The name [k] owns neither the type nor a CNAME. *)
Definition type_missing (z : zone) (k : key) (qtype : Z) : Prop :=
  ~ z_has z k qtype /\ ~ z_has z k QType.CNAME.

Lemma missing_from_types z k ts qtype :
  z_types z k = Some ts -> ts qtype = false -> ts QType.CNAME = false -> type_missing z k qtype.
Proof. intros E H1 H2. split; intros (ts' & E' & H'); congruence. Qed.

(** NODATA: the name owns records but not of the type, and is of the zone that
    answers for the type; or it is an empty non-terminal; or the wildcard that
    applies to it lacks the type. *)
Inductive type_denied (z : zone) (q : key) (qtype : Z) : Prop :=
| denied_at_node :
    z_node z q -> type_missing z q qtype -> (z_cut z q -> qtype = QType.DS) -> (qtype = QType.DS -> q = z_apex z -> q = []) ->
    type_denied z q qtype
| denied_at_empty k :
    name_absent z q -> z_node z k -> q `prefix_of` k -> type_denied z q qtype
| denied_at_wildcard ce :
    name_absent z q -> nothing_below z q -> closest_encloser z q ce ->
    z_exists z (ce ++ [star]) -> type_missing z (ce ++ [star]) qtype -> type_denied z q qtype.

Lemma provesNoWildCard_sound z validrrsets qname ce c :
  genuine_response z validrrsets -> named_key ce c ->
  provesNoWildCard qname ce validrrsets = Ok true -> ~ z_node z (c ++ [star]).
Proof.
  intros Hg Hc H. unfold provesNoWildCard in H. bind_inv H. pose proof (key_wildcard _ _ _ Hc E) as Hw.
  bind_inv H. injection H as H. destruct a0 as [[]|]; [|done..].
  apply (for_nsec_genuine z) in E0 as (name & sigs & nsec & owner & b & n & Hgn & E0); [|done].
  destruct Hgn as [G1 G2 G3 G4 G5 G6 G7 G8]. rewrite G4 in E0. cbn [mbind result_bind] in E0. bind_inv E0.
  case_match; [done|]. case_match; [|done]. apply andb_prop in H1 as [_ H1].
  apply (key_covered _ _ _ _ _ _ Hw G5 G6) in H1. intros Hnode. by apply G7 in Hnode.
Qed.

Lemma prefix_shorter (q a b : key) : a `prefix_of` q -> b `prefix_of` q -> (length a <= length b)%nat -> a `prefix_of` b.
Proof.
  intros Ha Hb Hl. destruct (prefix_weak_total a b q Ha Hb) as [?|Hba]; [done|].
  by rewrite (prefix_length_eq _ _ Hba Hl).
Qed.

Lemma encloser_from_nsec z q name owner next b n ce :
  zone_ok z -> named_key name q -> named_key owner b -> named_key next n ->
  neighbours z b n -> z_apex z `prefix_of` q -> in_gap b n q ->
  (forall k, z_node z k -> ~ q `prefix_of` k) ->
  getClosestEncloserFromNSEC name owner next = Ok ce ->
  exists c, named_key ce c /\ closest_encloser z q c.
Proof.
  intros Hz Hq Hb Hn Hnb Hap Hgap Hbelow H. unfold getClosestEncloserFromNSEC in H.
  destruct (key_getCommonLabels _ _ _ _ Hq Hb) as (r1 & c1 & E1 & K1 & P1 & P1' & M1).
  destruct (key_getCommonLabels _ _ _ _ Hq Hn) as (r2 & c2 & E2 & K2 & P2 & P2' & M2).
  rewrite E1, E2 in H. cbn [mbind result_bind] in H. injection H as <-.
  rewrite (key_countLabels _ _ K1), (key_countLabels _ _ K2).
  pose proof Hnb as (Hbn & Hnn & _).
  assert (z_apex z `prefix_of` b) as Hapb by (by apply (zok_below _ Hz)).
  assert (forall c, c `prefix_of` q -> (exists k, z_node z k /\ c `prefix_of` k) ->
            (length c1 <= length c)%nat -> (length c2 <= length c)%nat -> closest_encloser z q c) as Hce.
  { intros c Hc Hk L1 L2. split_and!; [done| |split; [|done]|].
    - intros ->. destruct Hk as (k & Hk & Hp). by apply (Hbelow k).
    - specialize (M1 _ Hap Hapb). apply (prefix_shorter q); [done..|lia].
    - intros k p Hnode Hpq Hpk. destruct (gap_encloser z Hz b n q Hnb Hap Hgap k p Hnode Hpq Hpk) as [Hp|Hp].
      + specialize (M1 p Hpq Hp). lia.
      + specialize (M2 p Hpq Hp). lia. }
  unfold zlen. destruct (Z.leb_spec (Z.of_nat (length c2)) (Z.of_nat (length c1))).
  - exists c1. split; [done|]. apply Hce; [done|by exists b|lia|lia].
  - exists c2. split; [done|]. apply Hce; [done|by exists n|lia|lia].
Qed.

Lemma genuine_delegation z name sigs nsec owner b n :
  zone_ok z -> genuine_nsec z name sigs nsec owner b n -> z_cut z b ->
  isNSECAncestorDelegation (getSigner sigs) owner (nsec_bitmap nsec) = true.
Proof.
  intros Hz [G1 G2 G3 G4 G5 G6 G7 (ts & Ets & Hts)] [Hne (ts' & Ets' & Hns)]. rewrite Ets in Ets'. injection Ets' as <-.
  unfold isNSECAncestorDelegation. rewrite !Hts, Hns. cbn [andb].
  assert (ts QType.SOA = false) as ->.
  { apply not_true_iff_false. intros Hsoa. apply Hne, (zok_soa _ Hz). by exists ts. }
  cbn [negb andb]. rewrite (key_countLabels _ _ G3), (key_countLabels _ _ G5). apply Z.ltb_lt.
  assert (z_apex z `prefix_of` b) as [u Hu] by (apply (zok_below _ Hz); by eexists).
  unfold zlen. rewrite Hu, length_app. destruct u; [|cbn; lia]. rewrite app_nil_r in Hu. by symmetry in Hu.
Qed.

(** ** The verdict of one record *)

Definition below_next (b n q : key) : Prop := b <k q /\ n <> q /\ q `prefix_of` n.

(** The ways to a conclusion of one NSEC record other than "no denial", in terms
    of keys. *)
Inductive nsec_verdict (validrrsets : cspmap_t) (name : DNSName) (qtype : Z) (nodata need : bool)
    (owner : DNSName) (nsec : NSECRecordContent) (b n q : key) : dState -> Prop :=
| verdict_match :
    q = b -> isTypeDenied (nsec_bitmap nsec) qtype = true ->
    nsec_verdict validrrsets name qtype nodata need owner nsec b n q NXQTYPE
| verdict_ent :
    in_gap b n q -> below_next b n q -> nodata = true ->
    nsec_verdict validrrsets name qtype nodata need owner nsec b n q NXQTYPE
| verdict_covered :
    in_gap b n q -> ~ below_next b n q -> need = false ->
    nsec_verdict validrrsets name qtype nodata need owner nsec b n q NXDOMAIN
| verdict_wildcard_nodata ce :
    in_gap b n q -> ~ below_next b n q -> getClosestEncloserFromNSEC name owner (nsec_next nsec) = Ok ce ->
    nodata = true -> provesNoDataWildCard qtype ce validrrsets = Ok true ->
    nsec_verdict validrrsets name qtype nodata need owner nsec b n q NXQTYPE
| verdict_no_wildcard ce :
    in_gap b n q -> ~ below_next b n q -> getClosestEncloserFromNSEC name owner (nsec_next nsec) = Ok ce ->
    nodata = false -> provesNoWildCard name ce validrrsets = Ok true ->
    nsec_verdict validrrsets name qtype nodata need owner nsec b n q NXDOMAIN.

Lemma key_nsecProvesENT name begin next q b n :
  named_key name q -> named_key begin b -> named_key next n ->
  exists e, nsecProvesENT name begin next = Ok e /\ (e = true <-> below_next b n q).
Proof.
  intros Hq Hb Hn. unfold nsecProvesENT, below_next.
  pose proof (key_canonCompare _ _ _ _ Hb Hq) as H1. pose proof (key_name_eqb _ _ _ _ Hn Hq) as H2.
  destruct (canonCompare begin name false), (name_eqb next name); cbn [andb negb];
    try (exists false; split; [done|]; naive_solver).
  rewrite (key_isPartOf _ _ _ _ Hn Hq). eexists. split; [done|]. rewrite bool_decide_eq_true. naive_solver.
Qed.

(** The checks before the verdict: the name is in the zone of the signer, a
    delegation denies only DS at itself, a DNAME denies nothing below it, and the
    parent side denies DS. *)
Record nsec_usable (z : zone) (qtype : Z) (b q : key) : Prop := {
  nu_apex : z_apex z `prefix_of` q;
  nu_cut : z_cut z b -> b `prefix_of` q -> qtype = QType.DS /\ q = b;
  nu_dname : z_has z b QType.DNAME -> b `prefix_of` q -> q = b;
  nu_ds : qtype = QType.DS -> q = z_apex z -> q = [];
}.

Lemma isPartOf_true_key name signer a b :
  named_key name a -> named_key signer b -> isPartOf name signer = Ok true -> b `prefix_of` a.
Proof. intros Ha Hb. rewrite (key_isPartOf _ _ _ _ Ha Hb). intros [= H]. by apply bool_decide_eq_true in H. Qed.

Lemma all_part_of_true names signer : all_part_of names signer = Ok true -> forall n, n ∈ names -> isPartOf n signer = Ok true.
Proof.
  induction names as [|m names IH]; cbn; intros H n Hn; [by apply elem_of_nil in Hn|].
  bind_inv H. destruct a; [|done]. apply elem_of_cons in Hn as [->|Hn]; [done|by apply IH].
Qed.

Lemma getDenial_nsec_verdict z validrrsets qname qtype ref nodata need wlc name sigs nsec owner b n q d :
  zone_ok z -> genuine_nsec z name sigs nsec owner b n ->
  let toDeny := if negb need then trimToLabels qname (wlc + 1) else qname in
  named_key toDeny q -> d <> NODENIAL ->
  getDenial_nsec validrrsets qname qtype ref nodata need wlc name sigs nsec = Ok (Some d) ->
  nsec_usable z qtype b q /\ nsec_verdict validrrsets toDeny qtype nodata need owner nsec b n q d.
Proof.
  intros Hz Hg toDeny Hq Hd H. pose proof Hg as [G1 _ G3 G4 G5 G6 G7 (ts & Ets & Hts)]. unfold getDenial_nsec in H.
  fold toDeny in H. case_match; [done|]. rewrite G4 in H. cbn [mbind result_bind] in H. bind_inv H.
  destruct a; cbn [negb] in H; [|done]. case_match; [done|].
  assert (z_apex z `prefix_of` q) as Hap.
  { apply (isPartOf_true_key toDeny (getSigner sigs)); [done|done|]. eapply all_part_of_true; [exact E|]. set_solver. }
  rewrite (key_isPartOf _ _ _ _ Hq G5) in H. cbn [mbind result_bind] in H.
  pose proof (key_name_eqb _ _ _ _ Hq G5) as Heq. pose proof (key_name_eqb _ _ _ _ G3 Hq) as Hsig.
  case_match eqn:Hanc; [congruence|]. case_match eqn:Hds; [done|].
  assert (z_cut z b -> b `prefix_of` q -> qtype = QType.DS /\ q = b) as Hcut.
  { intros Hc Hp. rewrite (genuine_delegation _ _ _ _ _ _ _ Hz Hg Hc), bool_decide_true in Hanc by done.
    cbn in Hanc. apply orb_false_elim in Hanc as [D1 D2]. apply negb_false_iff in D1, D2.
    split; [by apply Z.eqb_eq|by apply Heq]. }
  assert (qtype = QType.DS -> q = z_apex z -> q = []) as Hdsr.
  { intros -> Ea. rewrite Z.eqb_refl in Hds. cbn in Hds. symmetry in Ea. apply Hsig in Ea. rewrite Ea, andb_true_r in Hds.
    apply negb_false_iff in Hds. by apply (key_isRoot _ _ Hq). }
  case_match eqn:Hqb.
  { assert (q = b) as -> by naive_solver. case_match eqn:Htd; [congruence|]. apply negb_false_iff in Htd.
    assert (d = NXQTYPE) as ->; [|split; [by split|by constructor]].
    repeat case_match; try congruence; bind_inv H; bind_inv H; repeat case_match; congruence. }
  case_match eqn:Hdn; [congruence|].
  assert (q <> b) as Hne by naive_solver.
  assert (nsec_usable z qtype b q) as Hu.
  { split; [exact Hap|exact Hcut| |exact Hdsr]. intros (ts' & E1 & E2) Hp. rewrite Ets in E1. injection E1 as <-.
    rewrite Hts, E2, bool_decide_true in Hdn by done. done. }
  split; [done|]. case_match eqn:Hcov; [|done]. apply (key_covered _ _ _ _ _ _ Hq G5 G6) in Hcov.
  destruct (key_nsecProvesENT _ _ _ _ _ _ Hq G5 G6) as (e & Ee & He). rewrite Ee in H. cbn [mbind result_bind] in H.
  destruct e. { destruct nodata; [|congruence]. injection H as <-. apply verdict_ent; naive_solver. }
  assert (~ below_next b n q) as Hnb by naive_solver.
  destruct need; cbn [negb] in H; [|injection H as <-; by constructor].
  bind_inv H. destruct nodata; bind_inv H; destruct a0; try congruence; injection H as <-.
  - by eapply verdict_wildcard_nodata.
  - by eapply verdict_no_wildcard.
Qed.

(** ** Soundness *)

Section soundness.
Context (z : zone) (Hz : zone_ok z) (validrrsets : cspmap_t) (Hresp : genuine_response z validrrsets).

Lemma provesNoDataWildCard_sound qtype ce c :
  qtype <> 0 -> named_key ce c -> provesNoDataWildCard qtype ce validrrsets = Ok true ->
  z_exists z (c ++ [star]) /\ type_missing z (c ++ [star]) qtype.
Proof.
  intros Hqt Hc H. unfold provesNoDataWildCard in H. bind_inv H. pose proof (key_wildcard _ _ _ Hc E) as Hw.
  bind_inv H. injection H as H. destruct a0 as [[]|]; [|done..].
  apply (for_nsec_genuine z) in E0 as (name & sigs & nsec & owner & b & n & Hgn & E0); [|done].
  destruct Hgn as [_ _ _ G4 G5 _ _ (ts & Ets & Hts)]. rewrite G4 in E0. cbn [mbind result_bind] in E0.
  case_match eqn:Heq; [done|]. apply negb_false_iff, (key_name_eqb _ _ _ _ G5 Hw) in Heq as <-.
  rewrite (proj2 (Z.eqb_neq qtype 0) Hqt) in E0. unfold isTypeDenied in E0. rewrite !Hts in E0.
  split; [apply node_exists; [done|by eexists]|].
  apply (missing_from_types _ _ ts); [done|by destruct (ts qtype)|by destruct (ts qtype), (ts QType.CNAME)].
Qed.

Context (qtype : Z) (owner : DNSName) (nsec : NSECRecordContent) (b n q : key).
Context (Hnb : neighbours z b n) (Huse : nsec_usable z qtype b q).

Lemma covered_absent : in_gap b n q -> name_absent z q.
Proof.
  intros Hgap. pose proof (gap_not_node z b n q Hnb Hgap) as Hnode. split; [done|]. intros c Hc Hp.
  pose proof (gap_occluding z Hz b n q Hnb (nu_apex _ _ _ _ Huse) Hgap c Hc Hp) as <-.
  assert (q = b) as ->; [|by destruct Hnb]. destruct Hc; [by apply (nu_cut _ _ _ _ Huse)|by apply (nu_dname _ _ _ _ Huse)].
Qed.

Lemma covered_nothing_below : in_gap b n q -> ~ below_next b n q -> nothing_below z q.
Proof. intros Hgap Hbn k Hk Hp. apply Hbn. exact (gap_descendant z Hz b n q Hnb (nu_apex _ _ _ _ Huse) Hgap k Hk Hp). Qed.

Context (name : DNSName) (Hname : named_key name q) (Howner : named_key owner b) (Hnext : named_key (nsec_next nsec) n).
Context (Htypes : exists ts, z_types z b = Some ts /\ forall t, isSet (nsec_bitmap nsec) t = ts t).

Lemma verdict_nxdomain nodata :
  nsec_verdict validrrsets name qtype nodata true owner nsec b n q NXDOMAIN -> name_denied z q.
Proof.
  inversion 1 as [| | |ce Hgap Hbn Hce Hnd Hw|ce Hgap Hbn Hce Hnd Hw]; subst; [done|].
  pose proof (covered_nothing_below Hgap Hbn) as Hbelow.
  destruct (encloser_from_nsec z q name owner (nsec_next nsec) b n ce) as (c & Kc & Hc); try done; [apply Huse|].
  split_and!; [by apply covered_absent|done|]. exists c. split; [done|]. by eapply provesNoWildCard_sound.
Qed.

Lemma verdict_nxqtype nodata need :
  qtype <> 0 -> nsec_verdict validrrsets name qtype nodata need owner nsec b n q NXQTYPE -> type_denied z q qtype.
Proof.
  intros Hqt. inversion 1 as [-> Htd|Hgap Hbn Hnd| |ce Hgap Hbn Hce Hnd Hw|]; subst.
  - apply denied_at_node; [apply Hnb| |by intros Hc; apply (nu_cut _ _ _ _ Huse)|apply Huse].
    destruct Htypes as (ts & Ets & Hts). unfold isTypeDenied in Htd. rewrite !Hts in Htd.
    apply (missing_from_types _ _ ts); [done|by destruct (ts qtype)|by destruct (ts qtype), (ts QType.CNAME)].
  - destruct Hbn as (_ & _ & Hp). eapply denied_at_empty; [by apply covered_absent|apply Hnb|done].
  - pose proof (covered_nothing_below Hgap Hbn) as Hbelow.
    destruct (encloser_from_nsec z q name owner (nsec_next nsec) b n ce) as (c & Kc & Hc); try done; [apply Huse|].
    destruct (provesNoDataWildCard_sound qtype ce c) as [Hex Hm]; [done..|].
    eapply denied_at_wildcard; [by apply covered_absent|done..].
Qed.
End soundness.

Section main.
Context (SHA1 : bytes -> bytes) (cfg : validator_settings) (z : zone) (validrrsets : cspmap_t).
Context (qname : DNSName) (q : key) (ctx ctx' : ValidationContext).

(** C2: when the NSEC records of a response are those of a zone and [getDenial]
    concludes NXDOMAIN for the whole name, then in the zone the name owns no
    record, nothing is below it, no delegation or DNAME is above it, and there is
    no wildcard at its closest encloser. *)
Theorem getDenial_nxdomain_sound qtype ref nodata wlc :
  zone_ok z -> genuine_response z validrrsets -> named_key qname q ->
  getDenial SHA1 cfg validrrsets qname qtype ref nodata true wlc ctx = (ctx', Ok NXDOMAIN) -> name_denied z q.
Proof.
  intros Hz Hg Hq H. eapply getDenial_from_nsec in H as (name & sigs & nsec & owner & b & n & Hgn & H); [|done..].
  eapply getDenial_nsec_verdict in H as [Hu Hv]; [|done..].
  destruct Hgn. by eapply verdict_nxdomain.
Qed.

(** C12: when the NSEC records of a response are those of a zone and [getDenial]
    concludes NXQTYPE, then in the zone the name owns neither the type nor a CNAME
    and the zone is the one that answers for the type (a delegation only for DS,
    DS not at the apex); or it is an empty non-terminal; or it does not exist and
    the wildcard at its closest encloser owns neither.  In the last two cases no
    delegation or DNAME is above it. *)
Theorem getDenial_nxqtype_sound qtype ref nodata wlc :
  zone_ok z -> genuine_response z validrrsets -> named_key qname q -> qtype <> 0 ->
  getDenial SHA1 cfg validrrsets qname qtype ref nodata true wlc ctx = (ctx', Ok NXQTYPE) -> type_denied z q qtype.
Proof.
  intros Hz Hg Hq Hqt H. eapply getDenial_from_nsec in H as (name & sigs & nsec & owner & b & n & Hgn & H); [|done..].
  eapply getDenial_nsec_verdict in H as [Hu Hv]; [|done..].
  destruct Hgn. by eapply verdict_nxqtype.
Qed.

(** for an answer synthesized from a wildcard the conclusion NXDOMAIN is that
    the next closer name, the name cut to one label more than the signature
    counts, does not exist: nothing at it or below it, no delegation or DNAME
    above it, so that no closer match than the wildcard was hidden. *)
Theorem getDenial_wildcard_sound qtype ref nodata wlc nc :
  zone_ok z -> genuine_response z validrrsets -> named_key (trimToLabels qname (wlc + 1)) nc ->
  getDenial SHA1 cfg validrrsets qname qtype ref nodata false wlc ctx = (ctx', Ok NXDOMAIN) ->
  name_absent z nc /\ nothing_below z nc.
Proof.
  intros Hz Hg Hq H. eapply getDenial_from_nsec in H as (name & sigs & nsec & owner & b & n & Hgn & H); [|done..].
  eapply getDenial_nsec_verdict in H as [Hu Hv]; [|done..]. destruct Hgn.
  assert (in_gap b n nc /\ ~ below_next b n nc) as [Hgap Hbn] by (by inversion Hv).
  split; [by eapply covered_absent|by eapply covered_nothing_below].
Qed.
End main.

(** ** An example *)

(** A zone from a list of its names and their types. *)
Fixpoint types_at (l : list (key * list Z)) (k : key) : option (Z -> bool) :=
  match l with
  | [] => None
  | (k', ts) :: l => if decide (k = k') then Some (fun t => bool_decide (t ∈ ts)) else types_at l k
  end.

Definition zone_of (apex : key) (l : list (key * list Z)) : zone := mkZone apex (types_at l).

Lemma types_at_in l k ts : types_at l k = Some ts -> exists tl, (k, tl) ∈ l /\ forall t, ts t = bool_decide (t ∈ tl).
Proof.
  induction l as [|[k' tl] l IH]; cbn; [done|]. case_decide as E; [subst|].
  - intros [= <-]. exists tl. split; [left|done].
  - intros (tl' & ? & ?)%IH. exists tl'. split; [by right|done].
Qed.

Lemma node_in apex l k : z_node (zone_of apex l) k -> k ∈ l.*1.
Proof. intros [ts E]. apply types_at_in in E as (tl & Hin & _). apply list_elem_of_fmap. by exists (k, tl). Qed.

Lemma has_in apex l k t : z_has (zone_of apex l) k t -> exists tl, (k, tl) ∈ l /\ t ∈ tl.
Proof.
  intros (ts & E & Ht). apply types_at_in in E as (tl & Hin & Hts). exists tl. rewrite Hts in Ht.
  by apply bool_decide_eq_true in Ht.
Qed.

Lemma zone_of_node apex l k : k ∈ l.*1 -> z_node (zone_of apex l) k.
Proof.
  unfold z_node. cbn. induction l as [|[k' ts] l IH]; [by intros ?%elem_of_nil|]. cbn. case_decide; [done|].
  intros [?|?]%elem_of_cons; [done|by apply IH].
Qed.

(** What makes such a zone fine, as a check of its list. *)
Definition list_ok (apex : key) (l : list (key * list Z)) : bool :=
  bool_decide (apex ∈ l.*1)
  && forallb (fun '(k, ts) =>
       bool_decide (apex `prefix_of` k) && (negb (bool_decide (QType.SOA ∈ ts)) || bool_decide (k = apex))
       && (negb (bool_decide (QType.DNAME ∈ ts) || bool_decide (QType.NS ∈ ts) && negb (bool_decide (k = apex)))
           || forallb (fun '(k', _) => negb (bool_decide (k `prefix_of` k')) || bool_decide (k' = k)) l)) l.

Lemma list_ok_in apex l k ts :
  list_ok apex l = true -> (k, ts) ∈ l ->
  apex `prefix_of` k /\ (QType.SOA ∈ ts -> k = apex)
  /\ (QType.DNAME ∈ ts \/ (QType.NS ∈ ts /\ k <> apex) -> forall k' ts', (k', ts') ∈ l -> k `prefix_of` k' -> k' = k).
Proof.
  intros Hok Hin. apply andb_prop in Hok as [_ Hall]. rewrite forallb_forall in Hall. apply list_elem_of_In in Hin.
  specialize (Hall _ Hin). apply andb_prop in Hall as [Hall H3]. apply andb_prop in Hall as [H1 H2].
  apply bool_decide_eq_true in H1. split_and!; [done| |].
  - intros Hs. rewrite bool_decide_true in H2 by done. by apply bool_decide_eq_true in H2.
  - intros Hc k' ts' Hin' Hp. apply orb_prop in H3 as [H3|H3].
    + apply negb_true_iff, orb_false_iff in H3 as [D1 D2]. apply bool_decide_eq_false in D1.
      destruct Hc as [?|[Hns Hne]]; [done|]. rewrite bool_decide_true, bool_decide_false in D2 by done. done.
    + rewrite forallb_forall in H3. apply list_elem_of_In in Hin'. specialize (H3 _ Hin'). cbn in H3.
      rewrite bool_decide_true in H3 by done. by apply bool_decide_eq_true in H3.
Qed.

Lemma zone_of_ok apex l : list_ok apex l = true -> zone_ok (zone_of apex l).
Proof.
  intros Hok. split.
  - apply andb_prop in Hok as [H _]. apply bool_decide_eq_true in H. by apply zone_of_node.
  - intros k Hk. apply node_in, list_elem_of_fmap in Hk as ([k' ts] & -> & Hin).
    exact (proj1 (list_ok_in _ _ _ _ Hok Hin)).
  - intros k (tl & Hin & Ht)%has_in. exact (proj1 (proj2 (list_ok_in _ _ _ _ Hok Hin)) Ht).
  - intros c k Hc Hk Hp. apply node_in, list_elem_of_fmap in Hk as ([k' ts] & -> & Hin).
    destruct Hc as [[Hne (tl & Hc & Ht)%has_in]|(tl & Hc & Ht)%has_in];
      eapply (proj2 (proj2 (list_ok_in _ _ _ _ Hok Hc))); eauto.
Qed.

#[export] Instance klt_dec a b : Decision (a <k b).
Proof. unfold klt. apply _. Defined.
#[export] Instance kle_dec a b : Decision (a ≤k b).
Proof. unfold kle. apply _. Defined.
#[export] Instance in_gap_dec b n x : Decision (in_gap b n x).
Proof. unfold in_gap. apply _. Defined.

Lemma zone_of_neighbours apex l b n :
  b ∈ l.*1 -> n ∈ l.*1 ->
  forallb (fun k => negb (bool_decide (in_gap b n k))) l.*1 = true -> neighbours (zone_of apex l) b n.
Proof.
  intros Hb Hn H. split_and!; [by apply zone_of_node..|]. intros k Hk%node_in Hgap.
  rewrite forallb_forall in H. apply list_elem_of_In in Hk. specialize (H _ Hk).
  rewrite bool_decide_true in H by done. done.
Qed.

Module example.
Definition ex_labels : list bytes := [bs "ex"].
Definition ex_apex : key := ckey ex_labels.
Definition ex_types : list (list bytes * list Z) :=
  [(ex_labels, [QType.NS; QType.SOA; QType.NSEC]); (bs "a" :: ex_labels, [QType.A; QType.NSEC]);
   (bs "y" :: bs "e" :: ex_labels, [QType.A; QType.NSEC]);
   (bs "sub" :: ex_labels, [QType.NS; QType.NSEC])].
Definition ex_zone : zone := zone_of ex_apex (map (fun '(ls, ts) => (ckey ls, ts)) ex_types).

Definition ex_name (ls : list bytes) : DNSName := mkDNSName (storage_of ls).

(** The NSEC record set at [ls], with [next] and the types [ts]. *)
Definition ex_set (ls next : list bytes) (ts : list Z) : (DNSName * Z) * ContentSigPair :=
  ((ex_name ls, QType.NSEC),
   mkCSP [RR_NSEC (mkNSEC (ex_name next) (mkBitmap None ts))]
     [mkRRSIG QType.NSEC 13 (zlen ls) 3600 2000 1000 4711 (ex_name ex_labels) []]).

Definition ex_response : cspmap_t :=
  [ex_set ex_labels (bs "a" :: ex_labels) [QType.NS; QType.SOA; QType.NSEC];
   ex_set (bs "a" :: ex_labels) (bs "y" :: bs "e" :: ex_labels) [QType.A; QType.NSEC];
   ex_set (bs "sub" :: ex_labels) ex_labels [QType.NS; QType.NSEC]].

Lemma ex_zone_ok : zone_ok ex_zone.
Proof. apply zone_of_ok. by vm_compute. Qed.

Lemma ex_named ls :
  bool_decide (valid_labels ls /\ zlen (storage_of ls) <= s_maxDNSNameLength) = true -> named_key (ex_name ls) (ckey ls).
Proof. intros [??]%bool_decide_eq_true. exists ls. done. Qed.

Lemma ex_isSet ts t : bitmap_ok (mkBitmap None ts) -> isSet (mkBitmap None ts) t = bool_decide (t ∈ ts).
Proof.
  intros Hok. apply eq_true_iff_eq. rewrite bool_decide_eq_true. exact (isSet_elem (mkBitmap None ts) t eq_refl Hok).
Qed.

Definition ex_set_fine (x : (DNSName * Z) * ContentSigPair) : Prop :=
  x.1.2 = QType.NSEC /\ Forall (fun r => exists nsec owner b n,
    r = RR_NSEC nsec /\ genuine_nsec ex_zone x.1.1 (csp_signatures x.2) nsec owner b n) (csp_records x.2).

Lemma ex_set_genuine ls next ts :
  named_key (ex_name ls) (ckey ls) -> named_key (ex_name next) (ckey next) ->
  getNSECOwnerName (ex_name ls) (csp_signatures (snd (ex_set ls next ts))) = Ok (ex_name ls) ->
  neighbours ex_zone (ckey ls) (ckey next) -> bitmap_ok (mkBitmap None ts) ->
  z_types ex_zone (ckey ls) = Some (fun t => bool_decide (t ∈ ts)) -> ex_set_fine (ex_set ls next ts).
Proof.
  intros H1 H2 H3 H4 H5 H6. split; [done|]. constructor; [|constructor].
  eexists _, (ex_name ls), (ckey ls), (ckey next). split; [done|].
  split; [done|by eexists|by apply ex_named; vm_compute|done|done|done|done|].
  eexists. split; [done|]. intros t. by apply ex_isSet.
Qed.

Lemma ex_response_fine : Forall ex_set_fine ex_response.
Proof.
  apply Forall_cons_2, Forall_cons_2, Forall_cons_2, Forall_nil_2; apply ex_set_genuine;
    first [by apply ex_named; vm_compute|done|apply zone_of_neighbours; by_decide|repeat constructor].
Qed.

Lemma ex_response_genuine : genuine_response ex_zone ex_response.
Proof.
  intros name type csp Hin. pose proof ex_response_fine as Hf. rewrite Forall_forall in Hf.
  destruct (Hf _ Hin) as [Ht Hall]. cbn in Ht, Hall. split; [by rewrite Ht|]. intros _ nsec Hr.
  rewrite Forall_forall in Hall. destruct (Hall _ Hr) as (nsec' & owner & b & n & [= <-] & Hg). by exists owner, b, n.
Qed.

Definition ex_settings : validator_settings := mkSettings 60 50 10 10 20 20.
Definition ex_context : ValidationContext := mkContext ∅ 0 600 false.

(** [b.ex] does not exist: the second record covers it, the first one the wildcard. *)
Lemma getDenial_nxdomain_sound_witness : name_denied ex_zone (ckey (bs "b" :: ex_labels)).
Proof.
  apply (getDenial_nxdomain_sound (fun b => b) ex_settings ex_zone ex_response (ex_name (bs "b" :: ex_labels))
           (ckey (bs "b" :: ex_labels)) ex_context ex_context QType.A false false 0);
    [exact ex_zone_ok|exact ex_response_genuine|by apply ex_named; vm_compute|by vm_compute].
Defined.

(** [e.ex] is an empty non-terminal. *)
Lemma getDenial_nxqtype_sound_witness : type_denied ex_zone (ckey (bs "e" :: ex_labels)) QType.A.
Proof.
  apply (getDenial_nxqtype_sound (fun b => b) ex_settings ex_zone ex_response (ex_name (bs "e" :: ex_labels))
           (ckey (bs "e" :: ex_labels)) ex_context ex_context QType.A false true 0);
    [exact ex_zone_ok|exact ex_response_genuine|by apply ex_named; vm_compute|done|by vm_compute].
Defined.

(** The next closer name [b.ex] of [x.b.ex] under the wildcard of [ex]. *)
Lemma getDenial_wildcard_sound_witness :
  name_absent ex_zone (ckey (bs "b" :: ex_labels)) /\ nothing_below ex_zone (ckey (bs "b" :: ex_labels)).
Proof.
  apply (getDenial_wildcard_sound (fun b => b) ex_settings ex_zone ex_response
           (ex_name (bs "x" :: bs "b" :: ex_labels)) ex_context ex_context QType.A false false 1
           (ckey (bs "b" :: ex_labels)));
    [exact ex_zone_ok|exact ex_response_genuine
    |change (named_key (ex_name (bs "b" :: ex_labels)) (ckey (bs "b" :: ex_labels))); by apply ex_named; vm_compute
    |by vm_compute].
Defined.
End example.
