(* ===== verification/Nsec3Spec.v ===== *)
(** * What hashed denial proves

    Soundness of [getDenial] for NSEC3: when the NSEC3 records of the response
    are records of a zone, what the function concludes holds in the zone, as far
    as the hash does not confuse the names it was asked about with others. *)

From stdpp Require Import gmap.
From S2P Require Import Prelude Chars Dns Names NamesFacts NamesOrder Base32 NsecBitmap Denial DenialFacts DenialSpec.

#[local] Open Scope Z_scope.

(** ** Hashed names

    [hashQNameWithSalt] is the iterated hash of RFC 5155, and what
    [getHashFromNSEC3] keeps of its cache and of its budget. *)

Section hash.
Context (SHA1 : bytes -> bytes).

(** [IH(salt, x, k)] of RFC 5155, section 5. *)
Fixpoint IH (salt x : bytes) (k : nat) : bytes :=
  match k with O => SHA1 (x ++ salt) | S k' => SHA1 (IH salt x k' ++ salt) end.

Definition hash_of_key (salt : bytes) (iterations : Z) (k : key) : bytes :=
  IH salt (storage_of (reverse k)) (Z.to_nat iterations).

(** The output of SHA-1 has a fixed length. *)
Definition fixed_length : Prop := forall b, zlen (SHA1 b) = 20.

Context (Hlen : fixed_length).

Lemma hash_loop_later times salt h :
  zlen h = 20 ->
  hash_loop SHA1 times false salt (h ++ salt) = Nat.iter times (fun x => SHA1 (x ++ salt)) (SHA1 (h ++ salt)).
Proof.
  revert h. induction times as [|times IHt]; intros h Hh; [done|]. cbn [hash_loop].
  replace (zwrite (h ++ salt) 0 (SHA1 (h ++ salt))) with (SHA1 (h ++ salt) ++ salt).
  - rewrite IHt by done. by rewrite Nat.iter_succ_r.
  - unfold zwrite. change (ztake 0 (h ++ salt)) with (@nil Z). cbn [app]. f_equal. rewrite Hlen, Z.add_0_l, <- Hh.
    by rewrite zdrop_app.
Qed.

Lemma IH_iter salt x k : IH salt x k = Nat.iter k (fun y => SHA1 (y ++ salt)) (SHA1 (x ++ salt)).
Proof. induction k as [|k IHk]; [done|]. cbn. by rewrite IHk. Qed.

Lemma hash_loop_spec times salt x : hash_loop SHA1 times true salt (x ++ salt) = IH salt x times.
Proof.
  rewrite IH_iter. destruct times as [|times]; [done|]. cbn [hash_loop].
  rewrite hash_loop_later by done.
  exact (eq_sym (Nat.iter_succ_r times _ (fun y => SHA1 (y ++ salt)) _)).
Qed.

(** The hash of a legal name is that of its key. *)
Lemma hashQNameWithSalt_key salt iterations n k :
  named_key n k -> hashQNameWithSalt SHA1 salt iterations n = Ok (hash_of_key salt iterations k).
Proof.
  intros (ls & Hl & ->). unfold hashQNameWithSalt, toDNSStringLC.
  assert (toDNSString n = Ok (storage_of ls)) as ->.
  { unfold toDNSString. rewrite (represents_not_empty _ _ Hl). destruct Hl as (-> & _). done. }
  cbn [mbind result_bind]. rewrite hash_loop_spec. unfold hash_of_key, ckey. rewrite reverse_involutive.
  destruct Hl as (_ & Hv & _). by rewrite toLower_storage_of.
Qed.

(** [hashQNameWithSalt] is the hash of RFC 5155: the name in lower case and
    wire format with the salt, and then [iterations] times the hash of the last
    result with the salt; the reuse of the buffer from the second round on does
    not show. *)
Theorem hashQNameWithSalt_rfc5155 salt iterations n ls :
  represents n ls ->
  hashQNameWithSalt SHA1 salt iterations n
  = Ok (Nat.iter (Z.to_nat iterations) (fun h => SHA1 (h ++ salt)) (SHA1 (storage_of (ci_labels ls) ++ salt))).
Proof.
  intros Hl. rewrite (hashQNameWithSalt_key salt iterations n (ckey ls)) by (by exists ls).
  unfold hash_of_key, ckey. by rewrite reverse_involutive, IH_iter.
Qed.

(** *** The cache and the budget *)

(** The iterations that went into the entries of the cache. *)
Definition spent (m : gmap (bytes * bytes * Z) bytes) : Z := map_fold (fun key _ acc => snd key + acc) 0 m.

Lemma spent_insert m key h : m !! key = None -> spent (<[key := h]> m) = snd key + spent m.
Proof.
  intros Hm. unfold spent. apply (map_fold_insert_L (fun key _ acc => snd key + acc)); [|done].
  intros. lia.
Qed.

(** Every entry is the hash of a name, and what was spent on them and what is
    left is the budget of the query. *)
Record context_ok (budget : Z) (c : ValidationContext) : Prop := {
  co_cache : forall s salt iterations h, vc_nsec3Cache c !! (s, salt, iterations) = Some h ->
             h = IH salt s (Z.to_nat iterations);
  co_budget : vc_iterationsQuota c + spent (vc_nsec3Cache c) = budget;
  co_quota : 0 <= vc_iterationsQuota c;
}.

Lemma key_lower_storage n k : named_key n k -> toLower (d_storage n) = storage_of (reverse k).
Proof.
  intros (ls & (-> & Hv & _) & ->). unfold ckey. rewrite reverse_involutive. by apply toLower_storage_of.
Qed.

Lemma getHashFromNSEC3_ok cfg budget c n k iterations salt :
  context_ok budget c -> named_key n k -> 0 <= iterations ->
  exists c' r, getHashFromNSEC3 SHA1 cfg n iterations salt c = (c', r) /\ context_ok budget c'
    /\ if negb (g_maxNSEC3Iterations cfg =? 0) && (g_maxNSEC3Iterations cfg <? iterations)
       then c' = c /\ r = Ok []
       else r = Ok (hash_of_key salt iterations k) /\ vc_nsec3Cache c' !! cache_key n salt iterations = Some (hash_of_key salt iterations k)
            \/ r = Throw tooManyNSEC3Iterations /\ c' = c /\ vc_nsec3Cache c !! cache_key n salt iterations = None
               /\ vc_iterationsQuota c < iterations.
Proof.
  intros Hc Hn Hit. unfold getHashFromNSEC3. case_match; [by eexists _, _|]. rewrite sm_bind_run. cbn [sm_get].
  destruct (vc_nsec3Cache c !! cache_key n salt iterations) as [h|] eqn:Eh.
  - eexists _, _. split_and!; [done|done|]. left. unfold cache_key in Eh. rewrite (key_lower_storage _ _ Hn) in Eh.
    pose proof (co_cache _ _ Hc _ _ _ _ Eh) as ->. unfold cache_key. by rewrite (key_lower_storage _ _ Hn).
  - rewrite sm_bind_run. unfold sm_throw_if. destruct (Z.ltb_spec (vc_iterationsQuota c) iterations); cbn.
    { eexists _, _. split_and!; [done|done|]. right. done. }
    rewrite (hashQNameWithSalt_key _ _ _ _ Hn). cbn. eexists _, _. split_and!; [done| |left; split; [done|apply lookup_insert_eq]].
    destruct Hc as [Hcache Hbud Hq]. split; cbn [vc_nsec3Cache vc_iterationsQuota].
    + intros s salt' it' h. destruct (decide (cache_key n salt iterations = (s, salt', it'))) as [E|E].
      * rewrite E, lookup_insert_eq. intros [= <-]. unfold cache_key in E. injection E as <- <- <-.
        by rewrite (key_lower_storage _ _ Hn).
      * rewrite lookup_insert_ne by done. apply Hcache.
    + rewrite spent_insert by done. cbn. lia.
    + lia.
Qed.

(** for a legal name [getHashFromNSEC3] gives the empty string exactly when
    the record asks for more iterations than the setting allows; otherwise the
    hash of the name, from the cache or computed and entered there, or, with the
    budget of the query exhausted, the exception with nothing changed.  Entries of
    the cache are right, and iterations spent and left always add up to the
    budget, so a query never computes more than it. *)
Theorem getHashFromNSEC3_spec cfg budget c n k iterations salt :
  context_ok budget c -> named_key n k -> 0 <= iterations ->
  exists c' r, getHashFromNSEC3 SHA1 cfg n iterations salt c = (c', r) /\ context_ok budget c'
    /\ if negb (g_maxNSEC3Iterations cfg =? 0) && (g_maxNSEC3Iterations cfg <? iterations)
       then c' = c /\ r = Ok []
       else r = Ok (hash_of_key salt iterations k) /\ vc_nsec3Cache c' !! cache_key n salt iterations = Some (hash_of_key salt iterations k)
            \/ r = Throw tooManyNSEC3Iterations /\ c' = c /\ vc_nsec3Cache c !! cache_key n salt iterations = None
               /\ vc_iterationsQuota c < iterations.
Proof. apply getHashFromNSEC3_ok. Qed.
End hash.

(** ** Keys and labels *)

Lemma key_chopOff n k n' :
  named_key n k -> chopOff n = (n', true) -> exists c l, k = c ++ [l] /\ named_key n' c.
Proof.
  intros (ls & Hl & ->) H. destruct ls as [|l ls]; [by rewrite (chopOff_root _ Hl) in H|].
  destruct (chopOff_represents _ _ _ Hl) as (n'' & E & Hr). rewrite H in E. injection E as <-.
  exists (ckey ls), (toLower l). split; [apply (ckey_app [l] ls)|by exists ls].
Qed.

(** The label of a name just below an ancestor, put before the ancestor, is the
    next closer name. *)
Lemma key_next_closer n q ce c label nc :
  named_key n q -> named_key ce c -> c `prefix_of` q -> c <> q ->
  getRawLabel n (countLabels n - countLabels ce - 1) = Ok label -> prependRawLabel ce label = Ok nc ->
  exists l, named_key nc (c ++ [l]) /\ c ++ [l] `prefix_of` q.
Proof.
  intros (ls & Hl & ->) (cs & Hc & ->) Hp Hne Hlab Hnc.
  assert (length cs < length ls)%nat as Hlt.
  { rewrite <- (length_ckey cs), <- (length_ckey ls). destruct (decide (length (ckey cs) < length (ckey ls))%nat); [done|].
    destruct Hne. apply prefix_length_eq; [done|lia]. }
  rewrite (countLabels_represents _ _ Hl), (countLabels_represents _ _ Hc) in Hlab.
  apply (getRawLabel_represents _ _ _ _ Hl) in Hlab; [|unfold zlen; lia].
  replace (Z.to_nat (zlen ls - zlen cs - 1)) with (length ls - length cs - 1)%nat in Hlab by (unfold zlen; lia).
  apply list_elem_of_split_length in Hlab as (pre & post & -> & Hpre). rewrite length_app in Hpre, Hlt. cbn in Hpre, Hlt.
  replace (pre ++ label :: post) with ((pre ++ [label]) ++ post) in * by (by rewrite <- app_assoc).
  rewrite ckey_app in Hp. assert (ckey cs = ckey post) as Eck.
  { destruct Hp as [s Hs]. apply app_inj_1 in Hs as [-> _]; [done|]. rewrite !length_ckey. lia. }
  rewrite !ckey_app, Eck. exists (toLower label).
  destruct Hl as (_ & Hv & Hle). apply Forall_app in Hv as [Hv _]. apply Forall_app in Hv as [_ Hv]. apply Forall_cons in Hv as [Hv _].
  destruct (prependRawLabel_represents ce cs label) as (nc' & E & Hr); [done|done| |].
  - rewrite zlen_storage_of_cons. unfold ckey in Eck. apply (inj reverse) in Eck.
    rewrite <- (zlen_storage_of_ci cs), Eck, zlen_storage_of_ci. rewrite <- app_assoc, zlen_storage_of, enc_labels_app, zlen_app in Hle.
    unfold s_maxDNSNameLength in Hle. pose proof (zlen_nonneg (enc_labels pre)). rewrite zlen_storage_of.
    change ([label] ++ post) with (label :: post) in Hle. rewrite zlen_enc_labels_cons in Hle. lia.
  - rewrite Hnc in E. injection E as <-. split.
    + exists (label :: cs). split; [done|]. rewrite <- Eck. symmetry. apply (ckey_app [label] cs).
    + rewrite app_assoc. by apply prefix_app_r.
Qed.

(** ** Genuine responses *)

(** A hash strictly between two others on the circle of the hashes. *)
Definition hash_between (b n x : bytes) : Prop :=
  let lt u v := lex_compare Z.compare u v = Lt in
  (lt b x /\ lt x n) \/ (~ lt b n /\ (lt b x \/ lt x n)).

Lemma isCoveredByNSEC3Hash_spec b n x : isCoveredByNSEC3Hash x b n = true <-> hash_between b n x.
Proof.
  unfold isCoveredByNSEC3Hash, covered, hash_between. set (cmp := lex_compare Z.compare).
  destruct (cmp b n) eqn:E.
  - apply cmp_eq_iff in E as <-. rewrite (cmp_opp (cmp := cmp) b x). destruct (cmp b x); cbn; naive_solver.
  - destruct (cmp b x), (cmp x n); cbn; naive_solver.
  - destruct (cmp b x), (cmp x n); cbn; naive_solver.
Qed.

(** Everything at or below the name is an unsigned delegation. *)
Definition z_unsigned (z : zone) (x : key) : Prop :=
  forall k, z_node z k -> x `prefix_of` k -> z_cut z k /\ ~ z_has z k QType.DS.

Section soundness.
Context (SHA1 : bytes -> bytes) (cfg : validator_settings) (Hlen : fixed_length SHA1).
Context (z : zone) (Hz : zone_ok z).

#[local] Notation H3 nsec3 k := (hash_of_key SHA1 (nsec3_salt nsec3) (nsec3_iterations nsec3) k).

(** The record is one of the zone, signed with its name, for the existing name
    [k]: no name that exists has its hash strictly between the two of the record,
    save unsigned delegations, and what is only above them, with opt-out. *)
Record genuine_nsec3 (name : DNSName) (signatures : list RRSIGRecordContent)
    (nsec3 : NSEC3RecordContent) (k : key) : Prop := {
  g3_signed : signatures <> [];
  g3_signer : named_key (getSigner signatures) (z_apex z);
  g3_name : exists l, named_key name (z_apex z ++ [l]);
  g3_iterations : 0 <= nsec3_iterations nsec3;
  g3_exists : z_exists z k;
  g3_owner : owner_hash name = Ok (H3 nsec3 k);
  g3_types : forall t, isSet (nsec3_bitmap nsec3) t = true <-> z_has z k t;
  g3_gap : forall x, z_exists z x -> hash_between (H3 nsec3 k) (nsec3_nexthash nsec3) (H3 nsec3 x) ->
           isOptOut nsec3 = true /\ z_unsigned z x;
}.

(** All the NSEC3 records of a response are genuine, and it has no NSEC. *)
Definition genuine_response3 (validrrsets : cspmap_t) : Prop :=
  forall name type csp, ((name, type), csp) ∈ validrrsets ->
    type <> QType.NSEC
    /\ (type = QType.NSEC3 -> forall nsec3, RR_NSEC3 nsec3 ∈ csp_records csp ->
          exists k, genuine_nsec3 name (csp_signatures csp) nsec3 k).

(** The names whose hashes a proof for [q] looks at. *)
Definition candidate (q x : key) : Prop := exists p, p `prefix_of` q /\ (x = p \/ x = p ++ [star]).

(** No candidate has the hash of another name that exists, with the parameters of
    a record of the response. *)
Definition no_collision (validrrsets : cspmap_t) (q : key) : Prop :=
  forall name type csp nsec3, ((name, type), csp) ∈ validrrsets -> RR_NSEC3 nsec3 ∈ csp_records csp ->
    forall k x, z_exists z k -> candidate q x -> H3 nsec3 k = H3 nsec3 x -> k = x.

Context (validrrsets : cspmap_t) (Hresp : genuine_response3 validrrsets).
Context (q : key) (Hcol : no_collision validrrsets q) (budget : Z).

#[local] Notation inv := (fun v => context_ok SHA1 budget (dv_context v)).

Lemma keeps_lift_eq {S A} (I : S -> Prop) (r : result A) : keeps I (sm_lift r) (fun a => r = Ok a).
Proof. by intros s Hs. Qed.

Lemma keeps_for_each_m {S X A} (I : S -> Prop) (l : list X) (body : X -> SM S (option A)) (Q : A -> Prop) :
  (forall x, x ∈ l -> keeps I (body x) (fun o => forall a, o = Some a -> Q a)) ->
  keeps I (for_each_m l body) (fun o => forall a, o = Some a -> Q a).
Proof.
  induction l as [|x l IH]; intros Hb; [by apply keeps_ret|]. cbn [for_each_m].
  eapply keeps_bind; [apply Hb; left|]. intros [a|] Ha; cbn beta.
  - apply keeps_ret. intros ? [= <-]. by apply Ha.
  - apply IH. intros y Hy. apply Hb. by right.
Qed.

(** What holds of every record, when the record is genuine and collision free,
    holds of the answer of a loop over NSEC3 records. *)
Lemma keeps_for_nsec3 {S A} (I : S -> Prop)
    (body : DNSName -> list RRSIGRecordContent -> NSEC3RecordContent -> SM S (option A)) (Q : A -> Prop) :
  (forall name sigs nsec3 k, genuine_nsec3 name sigs nsec3 k ->
     (forall k x, z_exists z k -> candidate q x -> H3 nsec3 k = H3 nsec3 x -> k = x) ->
     keeps I (body name sigs nsec3) (fun o => forall a, o = Some a -> Q a)) ->
  keeps I (for_nsec3 validrrsets body) (fun o => forall a, o = Some a -> Q a).
Proof.
  intros Hb. apply keeps_for_each_m. intros [[name type] csp] Hin.
  destruct (Z.eqb_spec type QType.NSEC3) as [E|]; [|by apply keeps_ret].
  apply keeps_for_each_m. intros r Hr. destruct r as [|nsec3|]; cbn [as_nsec3]; [by apply keeps_ret| |by apply keeps_ret].
  destruct (proj2 (Hresp _ _ _ Hin) E nsec3 Hr) as (k & Hg). eapply Hb; [done|]. by eapply Hcol.
Qed.

Lemma keeps_in_context {A} (m : SM ValidationContext A) Q :
  keeps (context_ok SHA1 budget) m Q -> keeps inv (in_context m) Q.
Proof. intros Hm v Hv. specialize (Hm _ Hv). unfold in_context. by destruct (m (dv_context v)). Qed.

Lemma keeps_nsec3_hash n k nsec3 :
  named_key n k -> 0 <= nsec3_iterations nsec3 ->
  keeps (context_ok SHA1 budget) (nsec3_hash SHA1 cfg n nsec3) (fun h => h = [] \/ h = H3 nsec3 k).
Proof.
  intros Hn Hit c Hc.
  destruct (getHashFromNSEC3_ok SHA1 Hlen cfg budget c n k (nsec3_iterations nsec3) (nsec3_salt nsec3) Hc Hn Hit)
    as (c' & r & E & Hc' & Hr). unfold nsec3_hash. rewrite E. cbn. split; [done|]. intros h ->.
  case_match; [destruct Hr as [_ [= ->]]; by left|]. destruct Hr as [[[= ->] _]|[? _]]; [by right|done].
Qed.

Lemma keeps_too_many : keeps inv (too_many_nsec3s cfg) (fun _ => True).
Proof.
  intros v Hv. unfold too_many_nsec3s. rewrite sm_bind_run. cbn [sm_get]. case_match; [|done].
  split; [|done]. cbn. destruct Hv. by split.
Qed.

(** A conclusion that denies nothing. *)
Definition unproven (d : dState) : Prop := d = NODENIAL \/ d = INSECURE \/ d = OPTOUT.

(** A name that can be an encloser of others in the zone. *)
Definition encloser (c : key) : Prop := z_exists z c /\ ~ z_cut z c /\ ~ z_has z c QType.DNAME.

Lemma candidate_prefix p : p `prefix_of` q -> candidate q p.
Proof. exists p. auto. Qed.

(** A genuine record whose hash is that of a candidate is for the candidate. *)
Section record.
Context (name : DNSName) (sigs : list RRSIGRecordContent) (nsec3 : NSEC3RecordContent) (k : key).
Context (Hg : genuine_nsec3 name sigs nsec3 k).
Context (Hinj : forall k x, z_exists z k -> candidate q x -> H3 nsec3 k = H3 nsec3 x -> k = x).

Lemma hash_match n x h bh :
  named_key n x -> candidate q x -> h = [] \/ h = H3 nsec3 x -> h <> [] -> owner_hash name = Ok bh -> bh = h -> k = x.
Proof.
  intros Hn Hx [->| ->] Hne Hb ->; [done|]. rewrite (g3_owner _ _ _ _ Hg) in Hb. injection Hb as Hb.
  apply Hinj; [apply Hg|done|done].
Qed.

(** A name whose hash is covered does not exist, or is above unsigned delegations
    only. *)
Lemma hash_covered x h bh :
  h = [] \/ h = H3 nsec3 x -> h <> [] -> owner_hash name = Ok bh ->
  isCoveredByNSEC3Hash h bh (nsec3_nexthash nsec3) = true ->
  z_exists z x -> isOptOut nsec3 = true /\ z_unsigned z x.
Proof.
  intros [->| ->] Hne Hb Hcov Hx; [done|]. rewrite (g3_owner _ _ _ _ Hg) in Hb. injection Hb as <-.
  apply isCoveredByNSEC3Hash_spec in Hcov. by apply (g3_gap _ _ _ _ Hg).
Qed.

Lemma record_delegation owner :
  z_cut z k -> (exists c, named_key owner c /\ (length (z_apex z) < length c)%nat) ->
  isNSECAncestorDelegation (getSigner sigs) owner (nsec3_bitmap nsec3) = true.
Proof.
  intros [Hne Hns] (c & Hc & Hlt). unfold isNSECAncestorDelegation. rewrite (proj2 (g3_types _ _ _ _ Hg _) Hns).
  destruct (isSet (nsec3_bitmap nsec3) QType.SOA) eqn:E; cbn [andb negb].
  - apply (g3_types _ _ _ _ Hg) in E. destruct Hne. by apply (zok_soa _ Hz).
  - rewrite (key_countLabels _ _ (g3_signer _ _ _ _ Hg)), (key_countLabels _ _ Hc). apply Z.ltb_lt. unfold zlen. lia.
Qed.

Lemma record_denied qtype : isTypeDenied (nsec3_bitmap nsec3) qtype = true -> type_missing z k qtype.
Proof.
  unfold isTypeDenied. intros H. split; intros Hh; apply (g3_types _ _ _ _ Hg) in Hh; rewrite Hh in H; [done|].
  by destruct (isSet (nsec3_bitmap nsec3) qtype).
Qed.

Lemma keeps_closest_encloser_nsec3 ce c :
  named_key ce c -> c `prefix_of` q ->
  keeps inv (closest_encloser_nsec3 SHA1 cfg ce name sigs nsec3)
    (fun o => forall a, o = Some a -> match a with Some d => unproven d | None => encloser c end).
Proof.
  intros Hce Hp. unfold closest_encloser_nsec3.
  eapply keeps_bind; [apply keeps_lift_eq|]. intros parts _. apply keeps_if; [by apply keeps_ret|].
  eapply keeps_bind; [apply keeps_too_many|]. intros many _.
  apply keeps_if; [by apply keeps_ret; intros ? [= <-]; left|].
  eapply keeps_bind; [apply keeps_in_context, (keeps_nsec3_hash _ c); [done|apply Hg]|]. intros h Hh.
  case_bool_decide as Hnil; [by apply keeps_ret; intros ? [= <-]; right; left|].
  eapply keeps_bind; [apply keeps_lift_eq|]. intros bh Hb. case_bool_decide as Hm; [|by apply keeps_ret].
  pose proof (hash_match _ _ _ _ Hce (candidate_prefix _ Hp) Hh Hnil Hb Hm) as <-.
  case_match eqn:Hdel; [by apply keeps_ret|]. case_match eqn:Hdn; [by apply keeps_ret; intros ? [= <-]; left|].
  apply keeps_ret. intros ? [= <-]. split_and!; [apply Hg| |].
  - intros Hcut. rewrite record_delegation in Hdel; [done|done|]. destruct (g3_name _ _ _ _ Hg) as [l Hl].
    eexists. split; [done|]. rewrite length_app. cbn. lia.
  - intros Hh'%(g3_types _ _ _ _ Hg). congruence.
Qed.

Lemma keeps_next_closer_nsec3 nc c :
  named_key nc c ->
  keeps inv (next_closer_nsec3 SHA1 cfg nc name sigs nsec3)
    (fun o => forall a, o = Some a ->
       match a with inl d => unproven d | inr optout => z_exists z c -> optout = true end).
Proof.
  intros Hnc. unfold next_closer_nsec3. eapply keeps_bind; [apply keeps_too_many|]. intros many _.
  apply keeps_if; [by apply keeps_ret; intros ? [= <-]; left|].
  eapply keeps_bind; [apply keeps_in_context, (keeps_nsec3_hash _ c); [done|apply Hg]|]. intros h Hh.
  case_bool_decide as Hnil; [by apply keeps_ret; intros ? [= <-]; right; left|].
  eapply keeps_bind; [apply keeps_lift_eq|]. intros parts _. apply keeps_if; [by apply keeps_ret|].
  eapply keeps_bind; [apply keeps_lift_eq|]. intros bh Hb. case_match eqn:Hcov; [|by apply keeps_ret].
  apply keeps_ret. intros ? [= <-] Hex. by destruct (hash_covered c h bh).
Qed.

(** The wildcard: proven not to exist, or to exist without the type. *)
Definition wildcard_answer (w : key) (qtype : Z) (r : bool * bool) : Prop :=
  match r with
  | (true, false) => z_exists z w -> z_unsigned z w
  | (true, true) => z_exists z w /\ (qtype <> 0 -> type_missing z w qtype)
  | (false, _) => True
  end.

Lemma keeps_wildcard_nsec3 ce c w qtype :
  named_key w (c ++ [star]) -> c `prefix_of` q ->
  keeps (context_ok SHA1 budget)
    (let signer := getSigner sigs in
     parts ← sm_lift (all_part_of [name; ce] signer);
     if negb parts then mret None
     else
       hash ← nsec3_hash SHA1 cfg w nsec3;
       if bool_decide (hash = []) then mret (Some (false, false))
       else
         beginHash ← sm_lift (owner_hash name);
         if bool_decide (beginHash = hash) then
           if negb (qtype =? QType.DS) && isNSECAncestorDelegation signer name (nsec3_bitmap nsec3)
           then mret (Some (false, true))
           else mret (Some ((qtype =? 0) || isTypeDenied (nsec3_bitmap nsec3) qtype, true))
         else if isCoveredByNSEC3Hash hash beginHash (nsec3_nexthash nsec3) then mret (Some (true, false))
         else mret None)
    (fun o => forall a, o = Some a -> wildcard_answer (c ++ [star]) qtype a).
Proof.
  intros Hw Hp. cbv zeta. eapply keeps_bind; [apply keeps_lift_eq|]. intros parts _. apply keeps_if; [by apply keeps_ret|].
  eapply keeps_bind; [apply (keeps_nsec3_hash _ (c ++ [star])); [done|apply Hg]|]. intros h Hh.
  case_bool_decide as Hnil; [by apply keeps_ret; intros ? [= <-]|].
  eapply keeps_bind; [apply keeps_lift_eq|]. intros bh Hb. case_bool_decide as Hm.
  - apply keeps_if; apply keeps_ret; intros ? [= <-]; [done|].
    assert (k = c ++ [star]) as Hk by (apply (hash_match w _ h bh); [done|exists c; auto|done..]).
    destruct (Z.eqb_spec qtype 0) as [->|Hq]; cbn; [by rewrite <- Hk; split; [apply Hg|]|].
    case_match eqn:Htd; [|done]. cbn. rewrite <- Hk. split; [apply Hg|]. intros _. by apply record_denied.
  - case_match eqn:Hcov; apply keeps_ret; [|done]. intros ? [= <-]. cbn. intros Hex.
    by destruct (hash_covered (c ++ [star]) h bh).
Qed.
End record.

Lemma keeps_provesNSEC3NoWildCard ce c qtype :
  named_key ce c -> c `prefix_of` q ->
  keeps (context_ok SHA1 budget) (provesNSEC3NoWildCard SHA1 cfg ce qtype validrrsets) (wildcard_answer (c ++ [star]) qtype).
Proof.
  intros Hce Hp. unfold provesNSEC3NoWildCard. eapply keeps_bind; [apply keeps_lift_eq|]. intros w Hw.
  pose proof (key_wildcard _ _ _ Hce Hw) as Hwk. eapply keeps_bind.
  - apply (keeps_for_nsec3 _ _ (wildcard_answer (c ++ [star]) qtype)). intros name sigs nsec3 k Hg Hinj.
    by apply (keeps_wildcard_nsec3 name sigs nsec3 k Hg Hinj ce c w qtype).
  - intros [r|] Hr; apply keeps_ret; [by apply Hr|done].
Qed.

Definition encloser_found (r : dState + (bool * DNSName)) : Prop :=
  match r with
  | inl d => unproven d
  | inr (true, ce) => exists c, named_key ce c /\ c `prefix_of` q /\ c <> q /\ encloser c
  | inr (false, _) => True
  end.

Lemma keeps_closest_encloser_loop fuel n x :
  named_key n x -> x `prefix_of` q -> keeps inv (closest_encloser_loop SHA1 cfg fuel validrrsets n) encloser_found.
Proof.
  revert n x. induction fuel as [|fuel IH]; intros n x Hn Hx; [by apply keeps_ret|]. cbn [closest_encloser_loop].
  destruct (chopOff n) as [n' chopped] eqn:Ec. eapply keeps_bind; [by apply (keeps_get _ _ (fun _ => True))|]. intros v _.
  destruct chopped; cbn [andb negb]; [|by apply keeps_ret]. apply keeps_if; [by apply keeps_ret|].
  destruct (key_chopOff _ _ _ Hn Ec) as (c & l & -> & Hn').
  assert (c `prefix_of` q) as Hc by (etrans; [by apply prefix_app_r|done]).
  assert (c <> q) as Hne.
  { intros ->. apply prefix_length in Hx. rewrite length_app in Hx. cbn in Hx. lia. }
  eapply keeps_bind; [by apply keeps_modify|]. intros [] _. eapply keeps_bind.
  - apply (keeps_for_nsec3 _ _ (fun a => match a with Some d => unproven d | None => encloser c end)).
    intros name sigs nsec3 k Hg Hinj. by apply (keeps_closest_encloser_nsec3 name sigs nsec3 k Hg Hinj n' c).
  - intros [[d|]|] Hr; [apply keeps_ret; by apply (Hr (Some d))| |by apply (IH n' c)].
    apply keeps_ret. exists c. split_and!; [done..|by apply (Hr None)].
Qed.

(** ** From the encloser to the name *)

Lemma enclosed_absent c l :
  encloser c -> c `prefix_of` q -> c <> q -> c ++ [l] `prefix_of` q -> ~ z_exists z (c ++ [l]) ->
  name_absent z q /\ nothing_below z q /\ closest_encloser z q c.
Proof.
  intros (Hex & Hcut & Hdn) Hc Hne Hnc Hno.
  assert (forall p k, z_node z k -> p `prefix_of` q -> p `prefix_of` k -> (length p <= length c)%nat) as Hlong.
  { intros p k Hk Hp Hpk. destruct (decide (length p <= length c)%nat); [done|]. destruct Hno. split.
    - etrans; [apply Hex|by apply prefix_app_r].
    - exists k. split; [done|]. etrans; [|done]. apply (prefix_shorter q); [done..|]. rewrite length_app. cbn. lia. }
  assert (forall k, z_node z k -> ~ q `prefix_of` k) as Hbelow.
  { intros k Hk Hp. specialize (Hlong q k Hk (reflexivity q) Hp). destruct Hne. by apply prefix_length_eq. }
  split_and!; [split|..]; [by intros Hn%Hbelow| |done|].
  - intros d Hd Hdq. assert (z_node z d) as Hdn' by (destruct Hd as [[_ (ts & E & _)]|(ts & E & _)]; by eexists).
    assert (d `prefix_of` c) as Hdc by (apply (prefix_shorter q); [done..|by apply (Hlong d d)]).
    destruct Hex as (_ & k & Hk & Hck). assert (k = d) as -> by (apply (zok_occluded _ Hz); [done|done|by etrans]).
    assert (d = c) as -> by (by apply (anti_symm prefix)). by destruct Hd.
  - split_and!; [done..|]. intros k p Hk Hp Hpk. by apply (Hlong p k).
Qed.

(** NXDOMAIN with hashes: the wildcard may be an unsigned delegation. *)
Definition name_denied_hashed : Prop :=
  name_absent z q /\ nothing_below z q
  /\ exists ce, closest_encloser z q ce /\ (z_exists z (ce ++ [star]) -> z_unsigned z (ce ++ [star])).

Definition proven (qtype : Z) (d : dState) : Prop :=
  match d with
  | NXDOMAIN => name_denied_hashed
  | NXQTYPE => qtype <> 0 -> type_denied z q qtype
  | ENT => False
  | _ => True
  end.

Lemma unproven_proven qtype d : unproven d -> proven qtype d.
Proof. by intros [->|[->| ->]]. Qed.

Lemma keeps_getDenial_nsec3_proof qname qtype wlc :
  named_key qname q ->
  keeps inv (getDenial_nsec3_proof SHA1 cfg validrrsets qname qtype true wlc) (proven qtype).
Proof.
  intros Hq. unfold getDenial_nsec3_proof.
  eapply keeps_bind; [by apply (keeps_closest_encloser_loop _ qname q)|]. intros [d|[[] ce]] Henc.
  { by apply keeps_ret, unproven_proven. }
  2: { cbn [andb]. eapply keeps_bind; [by apply (keeps_ret _ _ (fun o => o = None))|]. intros ? ->. by apply keeps_ret. }
  destruct Henc as (c & Hce & Hc & Hne & Henc). cbn [andb].
  assert (1 <=? countLabels qname - countLabels ce = true) as ->.
  { rewrite (key_countLabels _ _ Hq), (key_countLabels _ _ Hce). apply Z.leb_le. unfold zlen.
    destruct (decide (length q <= length c)%nat) as [Hle|]; [|lia]. destruct Hne. by apply prefix_length_eq. }
  eapply (keeps_bind _ _ _ (fun o => forall a, o = Some a -> match a with
     | inl d => unproven d
     | inr optout => exists l, c ++ [l] `prefix_of` q /\ (z_exists z (c ++ [l]) -> optout = true) end)).
  - eapply keeps_bind; [apply keeps_lift_eq|]. intros label Hlab. eapply keeps_bind; [apply keeps_lift_eq|]. intros nc Hnc.
    destruct (key_next_closer _ _ _ _ _ _ Hq Hce Hc Hne Hlab Hnc) as (l & Hnk & Hp).
    eapply keeps_bind; [by apply keeps_modify|]. intros [] _. apply keeps_for_nsec3. intros name sigs nsec3 k Hg Hinj.
    eapply keeps_weaken; [by apply (keeps_next_closer_nsec3 name sigs nsec3 k Hg nc (c ++ [l]))|].
    intros o Ho a ->. specialize (Ho a eq_refl). destruct a; [done|]. by exists l.
  - intros [[d|optout]|] Ho; [by apply keeps_ret, unproven_proven, (Ho (inl d))| |by apply keeps_ret].
    destruct (Ho _ eq_refl) as (l & Hp & Hopt). eapply keeps_bind; [by apply keeps_in_context, (keeps_provesNSEC3NoWildCard ce c)|].
    intros [prov wex] Hw. cbn [andb]. case_match; [by apply keeps_ret|]. destruct optout; [by apply keeps_ret|].
    destruct prov; [|done]. destruct (enclosed_absent c l Henc Hc Hne Hp) as (Habs & Hbel & Hcl); [naive_solver|].
    destruct wex; apply keeps_ret; cbn.
    + destruct Hw as [Hwe Hwt]. intros Hqt. apply (denied_at_wildcard z q qtype c); auto.
    + split_and!; [done..|]. by exists c.
Qed.

(** ** The main loop *)

Lemma exists_cases k : z_exists z k -> z_node z k \/ ~ z_node z k.
Proof. intros _. unfold z_node. destruct (z_types z k); [by left|]. right. by intros []. Qed.

(** An exact match of the hash of the name. *)
Lemma match_denied qtype :
  z_exists z q -> type_missing z q qtype -> (z_cut z q -> qtype = QType.DS) ->
  (qtype = QType.DS -> q = z_apex z -> q = []) -> type_denied z q qtype.
Proof.
  intros Hex Hm Hcut Hds. destruct (exists_cases q Hex) as [Hn|Hn]; [by apply denied_at_node|].
  destruct Hex as (_ & k & Hk & Hp). apply (denied_at_empty z q qtype k); [|done..]. split; [done|].
  intros c Hc Hcq. assert (k = c) as -> by (apply (zok_occluded _ Hz); [done|done|by etrans]).
  assert (c = q) as -> by (by apply (anti_symm prefix)). done.
Qed.

Lemma keeps_getDenial_nsec3 qname qtype ref name sigs nsec3 k :
  named_key qname q -> genuine_nsec3 name sigs nsec3 k ->
  (forall k x, z_exists z k -> candidate q x -> H3 nsec3 k = H3 nsec3 x -> k = x) ->
  keeps inv (getDenial_nsec3 SHA1 cfg qname qtype ref name sigs nsec3) (fun o => forall d, o = Some d -> proven qtype d).
Proof.
  intros Hq Hg Hinj. unfold getDenial_nsec3. apply keeps_if; [by apply keeps_ret|].
  eapply keeps_bind; [apply keeps_lift_eq|]. intros part _. apply keeps_if; [by apply keeps_ret|].
  eapply keeps_bind; [by apply keeps_modify|]. intros [] _.
  eapply keeps_bind; [apply keeps_lift_eq|]. intros part' Hpart. destruct part'; cbn [negb]; [|by apply keeps_ret].
  pose proof (isPartOf_true_key _ _ _ _ Hq (g3_signer _ _ _ _ Hg) Hpart) as Hap.
  case_match eqn:Hds; [by apply keeps_ret|].
  eapply keeps_bind; [apply keeps_too_many|]. intros many _. apply keeps_if; [by apply keeps_ret; intros ? [= <-]|].
  eapply keeps_bind; [apply keeps_in_context, (keeps_nsec3_hash _ q); [done|apply Hg]|]. intros h Hh.
  case_bool_decide as Hnil; [by apply keeps_ret; intros ? [= <-]|].
  eapply keeps_bind; [by apply keeps_modify|]. intros [] _.
  eapply keeps_bind; [apply keeps_lift_eq|]. intros bh Hb. case_bool_decide as Hm; [|by apply keeps_ret].
  pose proof (hash_match name sigs nsec3 k Hg Hinj _ _ _ _ Hq (candidate_prefix q (reflexivity q)) Hh Hnil Hb Hm) as ->.
  case_match; [by apply keeps_ret|]. case_match eqn:Hdel; [by apply keeps_ret; intros ? [= <-]|].
  case_match eqn:Htd; [by apply keeps_ret; intros ? [= <-]|]. apply negb_false_iff in Htd.
  case_match; apply keeps_ret; intros ? [= <-]; [done|]. intros _. apply match_denied.
  - apply Hg.
  - by eapply record_denied.
  - intros Hcut. rewrite (record_delegation name sigs nsec3 q Hg qname Hcut) in Hdel.
    + rewrite andb_true_r in Hdel. apply negb_false_iff in Hdel. by apply Z.eqb_eq.
    + exists q. split; [done|]. destruct (decide (length q <= length (z_apex z))%nat) as [Hle|]; [|lia].
      destruct Hcut as [Hne _]. destruct Hne. symmetry. by apply prefix_length_eq.
  - intros -> Ea. rewrite Z.eqb_refl in Hds. cbn in Hds. symmetry in Ea.
    apply (key_name_eqb _ _ _ _ (g3_signer _ _ _ _ Hg) Hq) in Ea. rewrite Ea, andb_true_r in Hds.
    apply negb_false_iff in Hds. by apply (key_isRoot _ _ Hq).
Qed.

Lemma keeps_getDenial_loop qname qtype ref nodata wlc :
  named_key qname q ->
  keeps inv (getDenial_loop SHA1 cfg validrrsets qname qtype ref nodata true wlc)
    (fun o => forall d, o = Some d -> proven qtype d).
Proof.
  intros Hq. unfold getDenial_loop. apply keeps_for_each_m. intros [[name type] csp] Hin.
  destruct (Hresp _ _ _ Hin) as [Hn Hg]. destruct (Z.eqb_spec type QType.NSEC); [done|].
  destruct (Z.eqb_spec type QType.NSEC3) as [E|]; [|by apply keeps_ret].
  apply keeps_for_each_m. intros r Hr. destruct r as [|nsec3|]; cbn [as_nsec3]; [by apply keeps_ret| |by apply keeps_ret].
  destruct (Hg E nsec3 Hr) as (k & Hgk). eapply keeps_getDenial_nsec3; [done|done|]. by eapply Hcol.
Qed.

Lemma keeps_getDenial qname qtype ref nodata wlc :
  named_key qname q ->
  keeps (context_ok SHA1 budget) (getDenial SHA1 cfg validrrsets qname qtype ref nodata true wlc) (proven qtype).
Proof.
  intros Hq ctx Hctx. unfold getDenial. cbn [negb andb orb]. case_match; [done|].
  match goal with |- context [match ?m ?s with _ => _ end] =>
    assert (keeps inv m (proven qtype)) as Hk; [|specialize (Hk s Hctx); destruct (m s)] end.
  - eapply keeps_bind; [by apply keeps_getDenial_loop|]. intros [d|] Hd; [apply keeps_ret; by apply Hd|].
    eapply keeps_bind; [by apply (keeps_get _ _ (fun _ => True))|]. intros v _. apply keeps_if; [by apply keeps_ret|].
    by apply keeps_getDenial_nsec3_proof.
  - done.
Qed.
End soundness.

(** C11: when the NSEC3 records of a response are those of a zone, possibly with
    opt-out, and the hash confuses none of the names involved with another one of
    the zone, the conclusions of [getDenial] hold in the zone.  NXDOMAIN: the name
    owns nothing, nothing is below it, no delegation or DNAME is above it, and
    there is no wildcard at its closest encloser, except perhaps an unsigned
    delegation.  NXQTYPE: the name or the wildcard that applies to it exists
    without the type and without CNAME, in the zone that answers for the type.  The
    context stays within the budget of the query. *)
Theorem getDenial_nsec3_sound SHA1 cfg z validrrsets qname q qtype ref nodata wlc budget ctx ctx' r :
  fixed_length SHA1 -> zone_ok z -> genuine_response3 SHA1 z validrrsets -> named_key qname q ->
  no_collision SHA1 z validrrsets q -> context_ok SHA1 budget ctx ->
  getDenial SHA1 cfg validrrsets qname qtype ref nodata true wlc ctx = (ctx', r) ->
  context_ok SHA1 budget ctx'
  /\ (r = Ok NXDOMAIN -> name_denied_hashed z q)
  /\ (r = Ok NXQTYPE -> qtype <> 0 -> type_denied z q qtype).
Proof.
  intros Hl Hz Hresp Hq Hcol Hctx E.
  destruct (keeps_getDenial SHA1 cfg Hl z Hz validrrsets Hresp q Hcol budget qname qtype ref nodata wlc Hq ctx Hctx) as [Hc Hr].
  rewrite E in Hc, Hr. split_and!; [done| |]; intros ->; exact (Hr _ eq_refl).
Qed.

(** ** An example *)

Section finite.
Context (SHA1 : bytes -> bytes) (apex : key) (l : list (key * list Z)).
#[local] Notation z := (zone_of apex l).

(** The prefixes of a list. *)
Definition prefixes (k : key) : list key := map (fun i => take i k) (seq 0 (S (length k))).

Lemma prefixes_spec p k : p `prefix_of` k -> p ∈ prefixes k.
Proof.
  intros Hp. apply list_elem_of_In, in_map_iff. exists (length p). split; [|apply in_seq; apply prefix_length in Hp; lia].
  destruct Hp as [s ->]. by rewrite take_app_length.
Qed.

(** The names of the zone that exist. *)
Definition existing : list key :=
  List.filter (fun k => bool_decide (apex `prefix_of` k)) (flat_map prefixes l.*1).

Lemma existing_spec k : z_exists z k -> k ∈ existing.
Proof.
  intros (Ha & n & Hn & Hp). apply list_elem_of_In, filter_In. split; [|by apply bool_decide_eq_true].
  apply in_flat_map. exists n. split; [by apply list_elem_of_In, (node_in apex)|by apply list_elem_of_In, prefixes_spec].
Qed.

Lemma finite_gap salt it k next :
  forallb (fun x => negb (isCoveredByNSEC3Hash (hash_of_key SHA1 salt it x) (hash_of_key SHA1 salt it k) next)) existing = true ->
  forall x, z_exists z x -> ~ hash_between (hash_of_key SHA1 salt it k) next (hash_of_key SHA1 salt it x).
Proof.
  intros H x Hx%existing_spec Hb. rewrite forallb_forall in H. apply list_elem_of_In in Hx. specialize (H _ Hx).
  apply negb_true_iff in H. apply isCoveredByNSEC3Hash_spec in Hb. congruence.
Qed.

Definition candidates (q : key) : list key := flat_map (fun p => [p; p ++ [star]]) (prefixes q).

Lemma finite_collision salt it q :
  forallb (fun k => forallb (fun x => negb (bool_decide (hash_of_key SHA1 salt it k = hash_of_key SHA1 salt it x))
                                      || bool_decide (k = x)) (candidates q)) existing = true ->
  forall k x, z_exists z k -> candidate q x -> hash_of_key SHA1 salt it k = hash_of_key SHA1 salt it x -> k = x.
Proof.
  intros H k x Hk%existing_spec (p & Hp & Hx) Hh. rewrite forallb_forall in H. apply list_elem_of_In in Hk.
  specialize (H _ Hk). rewrite forallb_forall in H. assert (In x (candidates q)) as Hin.
  { apply in_flat_map. exists p. split; [by apply list_elem_of_In, prefixes_spec|cbn; naive_solver]. }
  specialize (H _ Hin). rewrite bool_decide_true in H by done. by apply bool_decide_eq_true in H.
Qed.
End finite.

Module example3.
Import example.

(** A function with outputs of 20 bytes that tells short names apart. *)
Definition toy_hash (b : bytes) : bytes := take 20 (b ++ repeat 0 20).

Lemma toy_hash_length : fixed_length toy_hash.
Proof. intros b. unfold toy_hash, zlen. rewrite length_take, length_app, repeat_length. lia. Qed.

Definition ex_salt : bytes := [171].
Definition ex_hash (ls : list bytes) : bytes := hash_of_key toy_hash ex_salt 1 (ckey ls).

Definition ex_set3 (ls next : list bytes) (ts : list Z) : (DNSName * Z) * ContentSigPair :=
  ((ex_name (toBase32Hex (ex_hash ls) :: ex_labels), QType.NSEC3),
   mkCSP [RR_NSEC3 (mkNSEC3 0 1 ex_salt (ex_hash next) (mkBitmap None ts))]
     [mkRRSIG QType.NSEC3 13 2 3600 2000 1000 4711 (ex_name ex_labels) []]).

Definition ex_response3 : cspmap_t :=
  [ex_set3 ex_labels (bs "sub" :: ex_labels) [QType.NS; QType.SOA; QType.NSEC];
   ex_set3 (bs "a" :: ex_labels) (bs "e" :: ex_labels) [QType.A; QType.NSEC];
   ex_set3 (bs "sub" :: ex_labels) (bs "a" :: ex_labels) [QType.NS; QType.NSEC]].

Definition ex_q : list bytes := bs "b" :: ex_labels.

Definition set3_fine (x : (DNSName * Z) * ContentSigPair) : Prop :=
  x.1.2 = QType.NSEC3 /\ Forall (fun r => exists nsec3 k,
    r = RR_NSEC3 nsec3 /\ nsec3_salt nsec3 = ex_salt /\ nsec3_iterations nsec3 = 1
    /\ genuine_nsec3 toy_hash ex_zone x.1.1 (csp_signatures x.2) nsec3 k) (csp_records x.2).

Lemma ex_set3_genuine ls next ts :
  named_key (ex_name (toBase32Hex (ex_hash ls) :: ex_labels)) (ckey (toBase32Hex (ex_hash ls) :: ex_labels)) ->
  z_exists ex_zone (ckey ls) -> owner_hash (ex_name (toBase32Hex (ex_hash ls) :: ex_labels)) = Ok (ex_hash ls) ->
  bitmap_ok (mkBitmap None ts) -> z_types ex_zone (ckey ls) = Some (fun t => bool_decide (t ∈ ts)) ->
  (forall x, z_exists ex_zone x -> ~ hash_between (ex_hash ls) (ex_hash next) (hash_of_key toy_hash ex_salt 1 x)) ->
  set3_fine (ex_set3 ls next ts).
Proof.
  intros H1 H2 H3 H4 H5 H6. split; [done|]. constructor; [|constructor]. eexists _, (ckey ls). split_and!; [done..|].
  split; [done|by apply ex_named; vm_compute| |done|done|done| |].
  - eexists. exact H1.
  - intros t. cbn [nsec3_bitmap]. rewrite ex_isSet by done. unfold z_has. rewrite H5. naive_solver.
  - intros x Hx Hb. by apply H6 in Hb.
Qed.

Lemma ex_exists ls : ex_apex `prefix_of` ckey ls -> ckey ls ∈ (map (fun '(ls, ts) => (ckey ls, ts)) ex_types).*1 ->
  z_exists ex_zone (ckey ls).
Proof. intros. apply node_exists; [exact ex_zone_ok|by apply zone_of_node]. Qed.

Lemma ex_response3_fine : Forall set3_fine ex_response3.
Proof.
  apply Forall_cons_2, Forall_cons_2, Forall_cons_2, Forall_nil_2; apply ex_set3_genuine;
    first [by apply ex_named; vm_compute|apply ex_exists; by_decide|by vm_compute|apply finite_gap; by vm_compute
          |repeat constructor|done].
Qed.

Lemma ex_response3_genuine : genuine_response3 toy_hash ex_zone ex_response3.
Proof.
  intros name type csp Hin. pose proof ex_response3_fine as Hf. rewrite Forall_forall in Hf.
  destruct (Hf _ Hin) as [Ht Hall]. cbn in Ht, Hall. split; [by rewrite Ht|]. intros _ nsec3 Hr.
  rewrite Forall_forall in Hall. destruct (Hall _ Hr) as (nsec3' & k & [= <-] & _ & _ & Hg). by exists k.
Qed.

Lemma ex_no_collision : no_collision toy_hash ex_zone ex_response3 (ckey ex_q).
Proof.
  intros name type csp nsec3 Hin Hr. pose proof ex_response3_fine as Hf. rewrite Forall_forall in Hf.
  destruct (Hf _ Hin) as [_ Hall]. cbn in Hall. rewrite Forall_forall in Hall.
  destruct (Hall _ Hr) as (nsec3' & _ & [= <-] & -> & -> & _). apply finite_collision. by vm_compute.
Qed.

Lemma ex_context_ok : context_ok toy_hash 600 ex_context.
Proof. by split. Qed.

(** [b.ex] does not exist, proved with hashes. *)
Lemma getDenial_nsec3_sound_witness : name_denied_hashed ex_zone (ckey ex_q).
Proof.
  apply (getDenial_nsec3_sound toy_hash ex_settings ex_zone ex_response3 (ex_name ex_q) (ckey ex_q) QType.A false false 0
           600 ex_context
           (fst (getDenial toy_hash ex_settings ex_response3 (ex_name ex_q) QType.A false false true 0 ex_context))
           (Ok NXDOMAIN));
    [exact toy_hash_length|exact ex_zone_ok|exact ex_response3_genuine|by apply ex_named; vm_compute
    |exact ex_no_collision|exact ex_context_ok|by vm_compute|done].
Defined.

Lemma getHashFromNSEC3_spec_witness :
  exists c' r, getHashFromNSEC3 toy_hash ex_settings (ex_name ex_q) 1 ex_salt ex_context = (c', r)
    /\ context_ok toy_hash 600 c' /\ r = Ok (ex_hash ex_q).
Proof.
  destruct (getHashFromNSEC3_spec toy_hash toy_hash_length ex_settings 600 ex_context (ex_name ex_q) (ckey ex_q) 1 ex_salt)
    as (c' & r & E & Hc & Hr); [exact ex_context_ok|by apply ex_named; vm_compute|done|].
  exists c', r. split_and!; [done..|]. cbn in Hr. by destruct Hr as [[-> _]|[_ [_ [_ ?]]]].
Defined.

Lemma hashQNameWithSalt_rfc5155_witness :
  hashQNameWithSalt toy_hash ex_salt 1 (ex_name ex_q)
  = Ok (toy_hash (toy_hash (storage_of (ci_labels ex_q) ++ ex_salt) ++ ex_salt)).
Proof. apply (hashQNameWithSalt_rfc5155 toy_hash toy_hash_length ex_salt 1 (ex_name ex_q) ex_q). by_decide. Defined.
End example3.
