(* ===== verification/Validate.v ===== *)
(** * Validation of signatures

    The rest of [pdns/validate.cc]: serial comparison of times, the choice of keys
    and signatures, [validateWithKeySet], [validateDNSKeysAgainstDS], trust
    anchors and the state of a validation; with [getMessageForRRSET] and
    [makeDSFromDNSKey] of [pdns/dnssecinfra.cc].  The cryptographic engines are
    parameters. *)

From S2P Require Import Prelude Chars Dns StdSet Names NamesOrder NsecBitmap Denial.

#[local] Open Scope Z_scope.

(** ** Serial numbers: [misc.hh], for [uint32_t] *)

Definition s32 (v : Z) : Z := if u32 v <? 2 ^ 31 then u32 v else u32 v - 2 ^ 32.

Definition rfc1982LessThan (lhs rhs : Z) : bool := s32 (lhs - rhs) <? 0.

Definition rfc1982LessThanOrEqual (lhs rhs : Z) : bool := s32 (lhs - rhs) <=? 0.

Lemma s32_neg v : s32 v < 0 <-> 2 ^ 31 <= v mod 2 ^ 32.
Proof.
  unfold s32, u32. pose proof (Z.mod_pos_bound v (2 ^ 32)). destruct (Z.ltb_spec (v mod 2 ^ 32) (2 ^ 31)); lia.
Qed.

(** ** States *)

Inductive vState : Type :=
| Indeterminate | Insecure | Secure | NTA | TA | BogusNoValidDNSKEY | BogusInvalidDenial
| BogusUnableToGetDSs | BogusUnableToGetDNSKEYs | BogusSelfSignedDS | BogusNoRRSIG | BogusNoValidRRSIG
| BogusMissingNegativeIndication | BogusSignatureNotYetValid | BogusSignatureExpired
| BogusUnsupportedDNSKEYAlgo | BogusUnsupportedDSDigestType | BogusNoZoneKeyBitSet | BogusRevokedDNSKEY
| BogusInvalidDNSKEYProtocol.

#[export] Instance vState_eq_dec : EqDecision vState.
Proof. solve_decision. Defined.

Definition vState_code (s : vState) : Z :=
  match s with
  | Indeterminate => 0 | Insecure => 1 | Secure => 2 | NTA => 3 | TA => 4 | BogusNoValidDNSKEY => 5
  | BogusInvalidDenial => 6 | BogusUnableToGetDSs => 7 | BogusUnableToGetDNSKEYs => 8 | BogusSelfSignedDS => 9
  | BogusNoRRSIG => 10 | BogusNoValidRRSIG => 11 | BogusMissingNegativeIndication => 12
  | BogusSignatureNotYetValid => 13 | BogusSignatureExpired => 14 | BogusUnsupportedDNSKEYAlgo => 15
  | BogusUnsupportedDSDigestType => 16 | BogusNoZoneKeyBitSet => 17 | BogusRevokedDNSKEY => 18
  | BogusInvalidDNSKEYProtocol => 19
  end.

Definition vStateIsBogus (s : vState) : bool := vState_code BogusNoValidDNSKEY <=? vState_code s.

Definition updateDNSSECValidationState (state stateUpdate : vState) : vState :=
  if bool_decide (stateUpdate = TA) then Secure
  else if bool_decide (stateUpdate = NTA) then Insecure
  else if vStateIsBogus stateUpdate || bool_decide (state = Indeterminate) then stateUpdate
  else if bool_decide (stateUpdate = Insecure) then (if negb (vStateIsBogus state) then Insecure else state)
  else state.

(** ** Records *)

Record DNSKEYRecordContent : Type := mkDNSKEY {
  key_flags : Z;
  key_protocol : Z;
  key_algorithm : Z;
  key_key : bytes;
}.

#[export] Instance DNSKEY_eq_dec : EqDecision DNSKEYRecordContent.
Proof. solve_decision. Defined.

Record DSRecordContent : Type := mkDS {
  ds_tag : Z;
  ds_algorithm : Z;
  ds_digesttype : Z;
  ds_digest : bytes;
}.

#[export] Instance DS_eq_dec : EqDecision DSRecordContent.
Proof. solve_decision. Defined.

(** [operator<] of DNSKEY, as a key and its order. *)
Definition dnskey_key (k : DNSKEYRecordContent) : list Z :=
  key_flags k :: key_protocol k :: key_algorithm k :: key_key k.

Definition dnskey_ltb (a b : DNSKEYRecordContent) : bool :=
  bool_decide (lex_compare Z.compare (dnskey_key a) (dnskey_key b) = Lt).

(** [skeyset_t] is a set of keys and [dsset_t] one of DS records, both in order. *)
Definition skeyset_t : Type := list DNSKEYRecordContent.
Definition dsset_t : Type := list DSRecordContent.

(** A record to sign: its type and its canonical wire format, with names in lower
    case and as they are. *)
Record sign_record : Type := mkSignRecord {
  sr_type : Z;
  sr_lower : bytes;
  sr_plain : bytes;
}.

(** [DNSKEYRecordContent::serialize]. *)
Definition dnskey_serialize (k : DNSKEYRecordContent) : bytes :=
  be16 (key_flags k) ++ [key_protocol k; key_algorithm k] ++ key_key k.

Fixpoint makeTag_loop (data : bytes) (i ac : Z) : Z :=
  match data with
  | [] => ac
  | b :: data => makeTag_loop data (i + 1) (ac + (if negb (Z.land i 1 =? 0) then b else Z.shiftl b 8))
  end.

Definition makeTag (data : bytes) : Z :=
  let ac := makeTag_loop data 0 0 in
  Z.land (ac + Z.land (Z.shiftr ac 16) 65535) 65535.

Definition getTag (k : DNSKEYRecordContent) : Z := makeTag (dnskey_serialize k).

(** The wire format of the RRSIG without the signature, the signer in lower case:
    [rrc.serialize(g_rootdnsname, true, true)] cut. *)
Definition rrsig_serialize (sig : RRSIGRecordContent) : result bytes :=
  signer ← toDNSStringLC (sig_signer sig);
  Ok (be16 (sig_type sig) ++ [sig_algorithm sig; sig_labels sig] ++ be32 (sig_originalttl sig)
      ++ be32 (sig_expire sig) ++ be32 (sig_inception sig) ++ be16 (sig_tag sig) ++ signer ++ sig_signature sig).

(** ** The engines *)

Record crypto : Type := mkCrypto {
  cr_makers : Z -> bool;                                  (* algorithms with an engine *)
  cr_switchedOff : Z -> bool;
  cr_verify : Z -> bytes -> bytes -> bytes -> option bool;  (* algorithm, key, message, signature; None: an exception *)
  cr_hash : Z -> bytes -> option bytes;                   (* algorithm, message *)
}.

Definition digestToAlgorithmNumber (digest : Z) : option Z :=
  match digest with 1 => Some 5 | 2 => Some 8 | 3 => Some 12 | 4 => Some 14 | _ => None end.

Section engines.
Context (cr : crypto) (cfg : validator_settings).

Definition isAlgorithmSupported (algo : Z) : bool :=
  if cr_switchedOff cr algo then false else cr_makers cr algo.

Definition isDigestSupported (digest : Z) : bool :=
  match digestToAlgorithmNumber digest with None => false | Some algo => cr_makers cr algo end.

Definition isSupportedDS (ds : DSRecordContent) : bool :=
  if negb (isAlgorithmSupported (ds_algorithm ds)) then false
  else if negb (isDigestSupported (ds_digesttype ds)) then false
  else true.

Definition makeDSFromDNSKey (qname : DNSName) (drc : DNSKEYRecordContent) (digest : Z) : result DSRecordContent :=
  name ← toDNSStringLC qname;
  match (algo ← digestToAlgorithmNumber digest; cr_hash cr algo (name ++ dnskey_serialize drc)) with
  | None => Throw (runtime_error "Asked to create (C)DS record of unknown digest type")
  | Some hash => Ok (mkDS (getTag drc) (key_algorithm drc) digest hash)
  end.

(** ** Keys *)

Definition isAZoneKey (k : DNSKEYRecordContent) : bool := negb (Z.land (key_flags k) 256 =? 0).
Definition isRevokedKey (k : DNSKEYRecordContent) : bool := negb (Z.land (key_flags k) 128 =? 0).

Definition getByTag (keys : skeyset_t) (tag algorithm : Z) : list DNSKEYRecordContent :=
  List.filter (fun k => isAZoneKey k && negb (isRevokedKey k)
                   && ((key_protocol k =? 3) && (getTag k =? tag) && (key_algorithm k =? algorithm))) keys.

(** ** Signatures *)

Definition isRRSIGNotExpired (now : Z) (sig : RRSIGRecordContent) : bool :=
  rfc1982LessThanOrEqual (u32 now) (sig_expire sig).

Definition isRRSIGIncepted (now : Z) (sig : RRSIGRecordContent) : bool :=
  rfc1982LessThanOrEqual (u32 (sig_inception sig - g_signatureInceptionSkew cfg)) (u32 now).

(** [checkSignatureInceptionAndExpiry]: what it stores in [ede], or it is fine. *)
Definition checkSignatureInceptionAndExpiry (now : Z) (sig : RRSIGRecordContent) : option vState :=
  if negb (isRRSIGIncepted now sig) then Some BogusSignatureNotYetValid
  else if negb (isRRSIGNotExpired now sig) then Some BogusSignatureExpired
  else None.

(** [checkSignatureWithKey]: the answer, and what it stores in [ede]. *)
Definition checkSignatureWithKey (sig : RRSIGRecordContent) (key : DNSKEYRecordContent) (msg : bytes)
  : bool * option vState :=
  match cr_verify cr (key_algorithm key) (key_key key) msg (sig_signature sig) with
  | Some true => (true, None)
  | Some false => (false, Some BogusNoValidRRSIG)
  | None => (false, Some BogusUnsupportedDNSKEYAlgo)
  end.

(** One record of the message. *)
Definition message_record (nameToHash : bytes) (rrc : RRSIGRecordContent) (add : sign_record) : bytes :=
  let rdata := if sr_type add =? QType.NSEC then sr_plain add else sr_lower add in
  nameToHash ++ be16 (sig_type rrc) ++ be16 1 ++ be32 (sig_originalttl rrc) ++ be16 (u16 (zlen rdata)) ++ rdata.

Definition getMessageForRRSET (qname : DNSName) (rrc : RRSIGRecordContent) (signRecords : list sign_record)
    (processRRSIGLabels includeRRSIG_RDATA : bool) : result bytes :=
  toHash ← (if includeRRSIG_RDATA then
              s ← rrsig_serialize rrc; Ok (ztake (zlen s - zlen (sig_signature rrc)) s)
            else Ok []);
  nameToHash ← toDNSStringLC qname;
  let rrsig_labels := sig_labels rrc in
  let fqdn_labels := countLabels qname in
  name ← (if processRRSIGLabels then
            if rrsig_labels <? fqdn_labels then
              if rrsig_labels <? countLabels (sig_signer rrc) then Ok None
              else
                chopped ← toDNSStringLC (chopOff_times (Z.to_nat (fqdn_labels - rrsig_labels)) qname);
                Ok (Some (1 :: 42 :: chopped))
            else if fqdn_labels <? rrsig_labels then Ok None
            else Ok (Some nameToHash)
          else Ok (Some nameToHash));
  match name with
  | None => Ok []
  | Some nameToHash => Ok (toHash ++ concat (map (message_record nameToHash rrc) signRecords))
  end.

(** ** [validateWithKeySet] *)

Record vks_vars : Type := mkVks {
  vk_missingKey : bool;
  vk_isValid : bool;
  vk_allExpired : bool;
  vk_allDiscarded : bool;
  vk_noneIncepted : bool;
  vk_signaturesConsidered : Z;
  vk_context : ValidationContext;
}.

Definition vks_missing (v : vks_vars) : vks_vars :=
  mkVks true (vk_isValid v) (vk_allExpired v) (vk_allDiscarded v) (vk_noneIncepted v)
    (vk_signaturesConsidered v) (vk_context v).
Definition vks_valid (v : vks_vars) : vks_vars :=
  mkVks (vk_missingKey v) true (vk_allExpired v) (vk_allDiscarded v) (vk_noneIncepted v)
    (vk_signaturesConsidered v) (vk_context v).
Definition vks_accepted (v : vks_vars) : vks_vars :=
  mkVks (vk_missingKey v) (vk_isValid v) (vk_allExpired v) false (vk_noneIncepted v)
    (vk_signaturesConsidered v) (vk_context v).

(** [if (isRRSIGIncepted(...)) noneIncepted = false; if (isRRSIGNotExpired(...)) allExpired = false;] *)
Definition vks_times (now : Z) (sig : RRSIGRecordContent) (v : vks_vars) : vks_vars :=
  mkVks (vk_missingKey v) (vk_isValid v) (if isRRSIGNotExpired now sig then false else vk_allExpired v)
    (vk_allDiscarded v) (if isRRSIGIncepted now sig then false else vk_noneIncepted v)
    (vk_signaturesConsidered v) (vk_context v).

Definition vks_set_context (c : ValidationContext) (v : vks_vars) : vks_vars :=
  mkVks (vk_missingKey v) (vk_isValid v) (vk_allExpired v) (vk_allDiscarded v) (vk_noneIncepted v)
    (vk_signaturesConsidered v) c.

Definition vks_limit (v : vks_vars) : vks_vars := vks_set_context (hit_limit (vk_context v)) v.

Definition count_validation (c : ValidationContext) : ValidationContext :=
  mkContext (vc_nsec3Cache c) (u32 (vc_validationsCounter c + 1)) (vc_iterationsQuota c) (vc_limitHit c).

(** [signaturesConsidered++; context.d_validationsCounter++] *)
Definition vks_consider (v : vks_vars) : vks_vars :=
  mkVks (vk_missingKey v) (vk_isValid v) (vk_allExpired v) (vk_allDiscarded v) (vk_noneIncepted v)
    (u16 (vk_signaturesConsidered v + 1)) (count_validation (vk_context v)).

(** The loop over the keys of one signature: [Some] is a [return]. *)
Fixpoint vks_keys (now : Z) (validateAllSigs : bool) (signature : RRSIGRecordContent) (msg : bytes)
    (keys : list DNSKEYRecordContent) (dnskeysConsidered : Z) (v : vks_vars) : vks_vars * option vState :=
  match keys with
  | [] => (v, None)
  | key :: keys =>
      if (0 <? g_maxDNSKEYsToConsider cfg) && (g_maxDNSKEYsToConsider cfg <=? dnskeysConsidered) then
        (if negb (vk_isValid v) then vks_limit v else v, Some (if vk_isValid v then Secure else BogusNoValidRRSIG))
      else
        let '(signIsValid, _) := checkSignatureWithKey signature key msg in
        let v := if signIsValid then vks_valid v else vks_times now signature v in
        if signIsValid && negb validateAllSigs then (v, Some Secure)
        else vks_keys now validateAllSigs signature msg keys (u16 (dnskeysConsidered + 1)) v
  end.

(** A loop that changes the variables and does not throw. *)
Definition sm_state {S A} (f : S -> S * A) : SM S A := fun s => let '(s, a) := f s in (s, Ok a).

(** One signature: [None] is [continue], [Some None] is [break]. *)
Definition vks_signature (now : Z) (name : DNSName) (toSign : list sign_record) (keys : skeyset_t)
    (validateAllSigs : bool) (signature : RRSIGRecordContent) : SM vks_vars (option (option vState)) :=
  if countLabels name <? sig_labels signature then mret None
  else if negb (isRRSIGLabelCountValid signature) then mret None
  else
    _ ← sm_modify vks_accepted;
    if negb (isAlgorithmSupported (sig_algorithm signature)) then mret None
    else if bool_decide (checkSignatureInceptionAndExpiry now signature <> None) then
      _ ← sm_modify (vks_times now signature); mret None
    else
      considered ← sm_get vk_signaturesConsidered;
      if (0 <? g_maxRRSIGsPerRecordToConsider cfg) && (g_maxRRSIGsPerRecordToConsider cfg <=? considered) then
        _ ← sm_modify vks_limit; mret (Some None)
      else
        _ ← sm_modify vks_consider;
        let keysMatchingTag := getByTag keys (sig_tag signature) (sig_algorithm signature) in
        if bool_decide (keysMatchingTag = []) then
          _ ← sm_modify vks_missing; mret None
        else
          msg ← sm_lift (getMessageForRRSET name signature toSign true true);
          r ← sm_state (vks_keys now validateAllSigs signature msg keysMatchingTag 0);
          mret (match r with Some s => Some (Some s) | None => None end).

(** The verdict after the loop. *)
Definition vks_verdict (v : vks_vars) : vState :=
  if vk_isValid v then Secure
  else if vk_missingKey v then BogusNoValidRRSIG
  else if vk_allDiscarded v then BogusNoValidRRSIG
  else if vk_noneIncepted v then BogusSignatureNotYetValid
  else if vk_allExpired v then BogusSignatureExpired
  else BogusNoValidRRSIG.

Definition validateWithKeySet (now : Z) (name : DNSName) (toSign : list sign_record)
    (signatures : list RRSIGRecordContent) (keys : skeyset_t) (validateAllSigs : bool)
  : SM ValidationContext vState := fun context =>
  let '(v, r) :=
    (o ← for_each_m signatures (vks_signature now name toSign keys validateAllSigs);
     match o with
     | Some (Some s) => mret s
     | _ => v ← sm_get (fun v => v); mret (vks_verdict v)
     end) (mkVks false false true true true 0 context) in
  (vk_context v, r).

(** ** Trust anchors: the first entry of the map for the name *)

Fixpoint anchor_find {A} (anchors : list (DNSName * A)) (zone : DNSName) : option A :=
  match anchors with
  | [] => None
  | (name, a) :: anchors => if name_eqb name zone then Some a else anchor_find anchors zone
  end.

Definition getTrustAnchor (anchors : list (DNSName * dsset_t)) (zone : DNSName) : option dsset_t :=
  anchor_find anchors zone.

Definition haveNegativeTrustAnchor (negAnchors : list (DNSName * bytes)) (zone : DNSName) : option bytes :=
  anchor_find negAnchors zone.

(** ** [validateDNSKeysAgainstDS] *)

Record vds_vars : Type := mkVds {
  vd_validkeys : skeyset_t;
  vd_ede : vState;
  vd_signaturesConsidered : Z;
  vd_context : ValidationContext;
}.

Definition vds_keys (f : skeyset_t -> skeyset_t) (v : vds_vars) : vds_vars :=
  mkVds (f (vd_validkeys v)) (vd_ede v) (vd_signaturesConsidered v) (vd_context v).
Definition vds_ede (e : option vState) (v : vds_vars) : vds_vars :=
  mkVds (vd_validkeys v) (default (vd_ede v) e) (vd_signaturesConsidered v) (vd_context v).
Definition vds_limit (v : vds_vars) : vds_vars :=
  mkVds (vd_validkeys v) (vd_ede v) (vd_signaturesConsidered v) (hit_limit (vd_context v)).
Definition vds_consider (v : vds_vars) : vds_vars :=
  mkVds (vd_validkeys v) (vd_ede v) (u16 (vd_signaturesConsidered v + 1)) (count_validation (vd_context v)).

(** Whether a key is the one of a DS record: an exception counts as no. *)
Definition ds_matches (zone : DNSName) (dsrc : DSRecordContent) (drc : DNSKEYRecordContent) : bool :=
  match makeDSFromDNSKey zone drc (ds_digesttype dsrc) with
  | Ok dsrc2 => bool_decide (dsrc = dsrc2)
  | Throw _ => false
  end.

(** The keys of one DS record. *)
Fixpoint vds_ds_keys (zone : DNSName) (dsrc : DSRecordContent) (record : list DNSKEYRecordContent)
    (dnskeysConsidered : Z) (v : vds_vars) : vds_vars :=
  match record with
  | [] => v
  | drc :: record =>
      if (0 <? g_maxDNSKEYsToConsider cfg) && (g_maxDNSKEYsToConsider cfg <=? dnskeysConsidered) then vds_limit v
      else
        let v := if ds_matches zone dsrc drc then vds_keys (set_insert dnskey_ltb drc) v else v in
        vds_ds_keys zone dsrc record (u16 (dnskeysConsidered + 1)) v
  end.

(** The first loop: [true] when it returns [BogusNoValidDNSKEY]. *)
Fixpoint vds_dss (zone : DNSName) (tkeys : skeyset_t) (dsset : dsset_t) (dssConsidered : Z) (v : vds_vars)
  : vds_vars * bool :=
  match dsset with
  | [] => (v, false)
  | dsrc :: dsset =>
      if (0 <? g_maxDSsToConsider cfg) && (g_maxDSsToConsider cfg <? dssConsidered) then (v, true)
      else vds_dss zone tkeys dsset (u16 (dssConsidered + 1))
             (vds_ds_keys zone dsrc (getByTag tkeys (ds_tag dsrc) (ds_algorithm dsrc)) 0 v)
  end.

(** The keys tried on one signature of the set: [true] when it returns
    [BogusNoValidDNSKEY]. *)
Fixpoint vds_sig_keys (tkeys : skeyset_t) (sig : RRSIGRecordContent) (msg : bytes)
    (bytag : list DNSKEYRecordContent) (dnskeysConsidered : Z) (v : vds_vars) : vds_vars * bool :=
  match bytag with
  | [] => (v, false)
  | key :: bytag =>
      if (0 <? g_maxDNSKEYsToConsider cfg) && (g_maxDNSKEYsToConsider cfg <=? dnskeysConsidered)
      then (vds_limit v, true)
      else if (0 <? g_maxRRSIGsPerRecordToConsider cfg)
              && (g_maxRRSIGsPerRecordToConsider cfg <=? vd_signaturesConsidered v)
      then (vds_limit v, true)
      else
        let '(signIsValid, e) := checkSignatureWithKey sig key msg in
        let v := vds_consider (vds_ede e v) in
        if signIsValid then (vds_keys (fun _ => tkeys) v, false)
        else vds_sig_keys tkeys sig msg bytag (u16 (dnskeysConsidered + 1)) v
  end.

(** One signature: [Some true] returns [BogusNoValidDNSKEY], [Some false] leaves
    the loop. *)
Definition vds_signature (now : Z) (zone : DNSName) (tkeys : skeyset_t) (toSign : list sign_record)
    (sig : RRSIGRecordContent) : SM vds_vars (option bool) :=
  if negb (isAlgorithmSupported (sig_algorithm sig)) then mret None
  else
    match checkSignatureInceptionAndExpiry now sig with
    | Some e => _ ← sm_modify (vds_ede (Some e)); mret None
    | None =>
        v ← sm_get (fun v => v);
        let bytag := getByTag (vd_validkeys v) (sig_tag sig) (sig_algorithm sig) in
        if bool_decide (bytag = []) then mret None
        else if (0 <? g_maxRRSIGsPerRecordToConsider cfg)
                && (g_maxRRSIGsPerRecordToConsider cfg <=? vd_signaturesConsidered v)
        then _ ← sm_modify vds_limit; mret (Some true)
        else
          msg ← sm_lift (getMessageForRRSET zone sig toSign false true);
          stop ← sm_state (vds_sig_keys tkeys sig msg bytag 0);
          if stop : bool then mret (Some true)
          else
            v ← sm_get (fun v => v);
            mret (if zlen (vd_validkeys v) =? zlen tkeys then Some false else None)
    end.

(** Why the whole set was not validated. *)
Definition vds_why (dsset : dsset_t) (tkeys : skeyset_t) (ede : vState) : vState :=
  let supported := List.filter (fun ds => isAlgorithmSupported (ds_algorithm ds)) dsset in
  let zoneKeys := List.filter isAZoneKey tkeys in
  let notRevoked := List.filter (fun k => negb (isRevokedKey k)) zoneKeys in
  if bool_decide (supported = []) then BogusUnsupportedDNSKEYAlgo
  else if negb (existsb (fun ds => isDigestSupported (ds_digesttype ds)) supported) then BogusUnsupportedDSDigestType
  else if bool_decide (zoneKeys = []) then BogusNoZoneKeyBitSet
  else if bool_decide (notRevoked = []) then BogusRevokedDNSKEY
  else if negb (existsb (fun k => key_protocol k =? 3) notRevoked) then BogusInvalidDNSKEYProtocol
  else ede.

(** The state and the set of valid keys, which the caller passes empty or not. *)
Definition validateDNSKeysAgainstDS (now : Z) (zone : DNSName) (dsset : dsset_t) (tkeys : skeyset_t)
    (toSign : list sign_record) (sigs : list RRSIGRecordContent)
  : SM (skeyset_t * ValidationContext) vState := fun '(validkeys, context) =>
  let '(v, stop) := vds_dss zone tkeys dsset 0 (mkVds validkeys BogusNoValidDNSKEY 0 context) in
  let '(v, r) :=
    (if stop then mret BogusNoValidDNSKEY
     else
       o ← (if negb (bool_decide (tkeys = [])) && (zlen (vd_validkeys v) <? zlen tkeys)
            then for_each_m sigs (vds_signature now zone tkeys toSign) else mret None);
       match o with
       | Some true => mret BogusNoValidDNSKEY
       | _ =>
           v ← sm_get (fun v => v);
           mret (if zlen (vd_validkeys v) <? zlen tkeys then vds_why dsset tkeys (vd_ede v) else Secure)
       end : SM vds_vars vState) v in
  ((vd_validkeys v, vd_context v), r).
End engines.
