(* ===== verification/ValidateSpec.v ===== *)
(** * What a validated signature means

    Theorems on [Validate]: serial comparison, the state of a validation, the
    message that is signed, and soundness of [validateWithKeySet] and
    [validateDNSKeysAgainstDS]. *)

From stdpp Require Import gmap.
From S2P Require Import Prelude Chars Dns StdSet Names NamesFacts NamesOrder NsecBitmap Denial DenialFacts DenialSpec Nsec3Spec Validate.

#[local] Open Scope Z_scope.

(** ** Serial numbers *)

Lemma serial_diff a b k : 0 <= k < 2 ^ 32 -> 0 <= b < 2 ^ 32 -> (b - a) mod 2 ^ 32 = k <-> b = (a + k) mod 2 ^ 32.
Proof.
  intros Hk Hb. split.
  - intros <-. rewrite Zplus_mod_idemp_r. replace (a + (b - a)) with b by lia. by rewrite Z.mod_small.
  - intros ->. rewrite Zminus_mod_idemp_l. replace (a + k - a) with k by lia. by apply Z.mod_small.
Qed.

Lemma neg_mod x : x mod 2 ^ 32 <> 0 -> (- x) mod 2 ^ 32 = 2 ^ 32 - x mod 2 ^ 32.
Proof. intros. by apply Z.mod_opp_l_nz. Qed.

(** [rfc1982LessThan] holds of two serial numbers exactly when the second is
    the first with 1 to 2^31 added, modulo 2^32: the order of RFC 1982, extended
    to the one distance that it leaves undefined. *)
Theorem rfc1982LessThan_spec a b :
  0 <= a < 2 ^ 32 -> 0 <= b < 2 ^ 32 ->
  rfc1982LessThan a b = true <-> exists k, 1 <= k <= 2 ^ 31 /\ b = (a + k) mod 2 ^ 32.
Proof.
  intros Ha Hb. unfold rfc1982LessThan. rewrite Z.ltb_lt, s32_neg. split.
  - intros H. exists ((b - a) mod 2 ^ 32). pose proof (Z.mod_pos_bound (b - a) (2 ^ 32) ltac:(lia)).
    split; [|by apply serial_diff]. pose proof (neg_mod (a - b) ltac:(lia)) as E.
    replace (- (a - b)) with (b - a) in E by lia. pose proof (Z.mod_pos_bound (a - b) (2 ^ 32)). lia.
  - intros (k & Hk & E). apply (serial_diff a b k ltac:(lia) Hb) in E. replace (a - b) with (- (b - a)) by lia.
    rewrite neg_mod by lia. lia.
Qed.

Lemma rfc1982LessThan_spec_witness :
  rfc1982LessThan 4294967295 3 = true <-> exists k, 1 <= k <= 2 ^ 31 /\ 3 = (4294967295 + k) mod 2 ^ 32.
Proof. apply (rfc1982LessThan_spec 4294967295 3); lia. Defined.

(** ** The state of a validation *)

(** the state of a validation after updates without trust anchors is bogus
    when one of them is, otherwise insecure when one is, otherwise secure when one
    is: a bogus or insecure part is never forgotten, whatever the order. *)
Theorem updateDNSSECValidationState_fold updates :
  Forall (fun u => u <> TA /\ u <> NTA) updates ->
  let final := foldl updateDNSSECValidationState Indeterminate updates in
  if existsb vStateIsBogus updates then vStateIsBogus final = true /\ final ∈ updates
  else if existsb (fun u => bool_decide (u = Insecure)) updates then final = Insecure
  else if existsb (fun u => bool_decide (u = Secure)) updates then final = Secure
  else final = Indeterminate.
Proof.
  induction updates as [|u updates IH] using rev_ind; [done|]. rewrite Forall_app, Forall_cons.
  intros [Hall [[Hta Hnta] _]]. specialize (IH Hall). cbv zeta in IH |- *. rewrite foldl_app. cbn [foldl].
  rewrite !existsb_app. cbn [existsb]. rewrite !orb_false_r. set (s := foldl _ _ updates) in *.
  destruct (existsb vStateIsBogus updates) eqn:Eb.
  - destruct IH as [Hb Hin]. cbn [orb]. assert (s <> Indeterminate) by (intros ->; done).
    unfold updateDNSSECValidationState. rewrite !(bool_decide_false _ Hta), !(bool_decide_false _ Hnta).
    destruct (vStateIsBogus u) eqn:Eu; cbn [orb]; [split; [done|set_solver]|].
    rewrite bool_decide_false by done. rewrite Hb. cbn [negb]. case_match; (split; [done|set_solver]).
  - cbn [orb]. destruct u; cbn; try done; try (split; [done|set_solver]);
      repeat (case_match; cbn in *; try done); rewrite ?IH; try done.
Qed.

Lemma updateDNSSECValidationState_fold_witness :
  foldl updateDNSSECValidationState Indeterminate [Secure; Insecure; Indeterminate; Secure] = Insecure.
Proof.
  apply (updateDNSSECValidationState_fold [Secure; Insecure; Indeterminate; Secure]). repeat constructor; done.
Defined.

(** ** Keys *)

(** What makes a key usable for a tag and an algorithm. *)
Record usable_key (keys : skeyset_t) (tag algorithm : Z) (k : DNSKEYRecordContent) : Prop := {
  uk_in : k ∈ keys;
  uk_zone : Z.testbit (key_flags k) 8 = true;
  uk_revoked : Z.testbit (key_flags k) 7 = false;
  uk_protocol : key_protocol k = 3;
  uk_tag : getTag k = tag;
  uk_algorithm : key_algorithm k = algorithm;
}.

Lemma getByTag_spec keys tag algorithm k : k ∈ getByTag keys tag algorithm <-> usable_key keys tag algorithm k.
Proof.
  unfold getByTag. rewrite list_elem_of_In, filter_In, <- list_elem_of_In, !andb_true_iff, !Z.eqb_eq.
  unfold isAZoneKey, isRevokedKey. rewrite !negb_true_iff, negb_false_iff, Z.eqb_eq, Z.eqb_neq.
  change 256 with (2 ^ 8). change 128 with (2 ^ 7). rewrite (land_pow2 _ 8), (land_pow2 _ 7), not_false_iff_true by lia.
  split; [intros (?&[[??][[??]?]]); by split|intros []; naive_solver].
Qed.

(** ** Signatures over a set *)

Section sound.
Context (cr : crypto) (cfg : validator_settings) (now : Z).

(** A signature made in time with a supported algorithm. *)
Record timely (sig : RRSIGRecordContent) : Prop := {
  tm_algorithm : isAlgorithmSupported cr (sig_algorithm sig) = true;
  tm_incepted : isRRSIGIncepted cfg now sig = true;
  tm_unexpired : isRRSIGNotExpired now sig = true;
}.

Lemma timely_check sig : checkSignatureInceptionAndExpiry cfg now sig = None <->
  isRRSIGIncepted cfg now sig = true /\ isRRSIGNotExpired now sig = true.
Proof.
  unfold checkSignatureInceptionAndExpiry. destruct (isRRSIGIncepted _ _ _), (isRRSIGNotExpired _ _); naive_solver.
Qed.

(** The engine accepts the signature of the message with the key. *)
Definition verified (sig : RRSIGRecordContent) (k : DNSKEYRecordContent) (msg : bytes) : Prop :=
  cr_verify cr (key_algorithm k) (key_key k) msg (sig_signature sig) = Some true.

Context (name : DNSName) (toSign : list sign_record) (keys : skeyset_t).

(** A signature that proves the set: its label count is between that of the
    signer and that of the name, it is timely, and one of the usable keys of the
    set verifies it over the message. *)
Record proves (sig : RRSIGRecordContent) (k : DNSKEYRecordContent) : Prop := {
  pv_labels : countLabels (sig_signer sig) <= sig_labels sig <= countLabels name;
  pv_timely : timely sig;
  pv_key : usable_key keys (sig_tag sig) (sig_algorithm sig) k;
  pv_verified : exists msg, getMessageForRRSET name sig toSign true true = Ok msg /\ verified sig k msg;
}.

Context (validateAllSigs : bool) (signatures : list RRSIGRecordContent).

Definition proven_by_one : Prop := exists sig k, sig ∈ signatures /\ proves sig k.

Lemma vks_keys_sound sig msg ks n v v' r :
  sig ∈ signatures -> countLabels (sig_signer sig) <= sig_labels sig <= countLabels name -> timely sig ->
  getMessageForRRSET name sig toSign true true = Ok msg ->
  (forall k, k ∈ ks -> usable_key keys (sig_tag sig) (sig_algorithm sig) k) ->
  vks_keys cr cfg now validateAllSigs sig msg ks n v = (v', r) ->
  (vk_isValid v = true -> proven_by_one) ->
  (vk_isValid v' = true -> proven_by_one) /\ (r = Some Secure -> proven_by_one).
Proof.
  intros Hin Hlab Htm Hmsg. revert n v. induction ks as [|k ks IH]; intros n v Hks H Hv; cbn [vks_keys] in H.
  { injection H as <- <-. done. }
  case_match. { injection H as <- <-. destruct (vk_isValid v) eqn:E; [naive_solver|]. cbn. rewrite E. naive_solver. }
  unfold checkSignatureWithKey in H.
  destruct (cr_verify cr (key_algorithm k) (key_key k) msg (sig_signature sig)) as [[]|] eqn:Ev; cbn [andb] in H.
  - assert (proven_by_one) as Hp.
    { exists sig, k. split; [done|]. split; [done|done|apply Hks; left|by exists msg]. }
    destruct validateAllSigs; cbn [negb] in H; [|by injection H as <- <-]. eapply IH; [|done|done]. intros; apply Hks; by right.
  - eapply IH; [|done|done]. intros; apply Hks; by right.
  - eapply IH; [|done|done]. intros; apply Hks; by right.
Qed.

#[local] Notation vinv := (fun v => vk_isValid v = true -> proven_by_one).

Lemma keeps_vks_signature sig :
  sig ∈ signatures ->
  keeps vinv (vks_signature cr cfg now name toSign keys validateAllSigs sig)
    (fun o => forall a, o = Some a -> a = Some Secure -> proven_by_one).
Proof.
  intros Hin. unfold vks_signature. destruct (Z.ltb_spec (countLabels name) (sig_labels sig)); [by apply keeps_ret|].
  destruct (isRRSIGLabelCountValid sig) eqn:Hl; cbn [negb]; [|by apply keeps_ret]. apply Z.leb_le in Hl.
  eapply keeps_bind; [by apply keeps_modify|]. intros [] _.
  destruct (isAlgorithmSupported cr (sig_algorithm sig)) eqn:Ha; cbn [negb]; [|by apply keeps_ret].
  case_bool_decide as Ht.
  { eapply keeps_bind; [by apply keeps_modify|]. intros [] _. by apply keeps_ret. }
  assert (timely sig) as Htm by (apply timely_check in Ht as [??]; by split).
  eapply keeps_bind; [by apply (keeps_get _ _ (fun _ => True))|]. intros cons _. apply keeps_if.
  { eapply keeps_bind; [by apply keeps_modify|]. intros [] _. apply keeps_ret. by intros ? [= <-]. }
  eapply keeps_bind; [by apply keeps_modify|]. intros [] _. cbv zeta. case_bool_decide.
  { eapply keeps_bind; [by apply keeps_modify|]. intros [] _. by apply keeps_ret. }
  eapply keeps_bind; [apply keeps_lift_eq|]. intros msg Hmsg.
  eapply (keeps_bind _ _ _ (fun r => r = Some Secure -> proven_by_one)).
  - intros v Hv. unfold sm_state. destruct (vks_keys _ _ _ _ _ _ _ _ _) as [v' r] eqn:E. cbn.
    eapply vks_keys_sound in E; [|done|lia|done|done|by intros k Hk%getByTag_spec|done].
    destruct E as [E1 E2]. split; [done|]. by intros ? [= <-].
  - intros [s|] Hs; apply keeps_ret; [|done]. intros ? [= <-] [= ->]. by apply Hs.
Qed.

(** Secure only when some signature proves the set. *)
Lemma validateWithKeySet_secure ctx ctx' :
  validateWithKeySet cr cfg now name toSign signatures keys validateAllSigs ctx = (ctx', Ok Secure) -> proven_by_one.
Proof.
  unfold validateWithKeySet. set (v0 := mkVks _ _ _ _ _ _ _). intros H.
  match type of H with (let '(_, _) := ?m v0 in _) = _ => assert (keeps vinv m (fun s => s = Secure -> proven_by_one)) as Hk end.
  - eapply keeps_bind.
    + apply (keeps_for_each_m _ _ _ (fun a => a = Some Secure -> proven_by_one)). apply keeps_vks_signature.
    + intros o Ho. destruct o as [[s|]|]; [apply keeps_ret; intros ->; by apply (Ho (Some Secure))|..];
        intros v Hv; cbn; (split; [done|]); intros s [= <-]; unfold vks_verdict; repeat case_match; naive_solver.
  - specialize (Hk v0 ltac:(done)). match type of H with (let '(_, _) := ?m v0 in _) = _ => destruct (m v0) as [v r] end.
    injection H as _ ->. by eapply Hk.
Qed.

(** ** Completeness *)

(** The message exists for legal names. *)
Lemma getMessageForRRSET_total sig process include k ks :
  named_key name k -> named_key (sig_signer sig) ks ->
  exists msg, getMessageForRRSET name sig toSign process include = Ok msg.
Proof.
  intros (ls & Hl & _) (ss & Hs & _).
  assert (forall n l, represents n l -> exists b, toDNSStringLC n = Ok b) as Htot.
  { intros n l Hn. unfold toDNSStringLC, toDNSString. rewrite (represents_not_empty _ _ Hn). by eexists. }
  unfold getMessageForRRSET, rrsig_serialize.
  destruct (Htot _ _ Hl) as [b1 E1], (Htot _ _ Hs) as [b2 E2]. rewrite E1, E2.
  destruct (Htot _ _ (chopOff_times_represents (Z.to_nat (countLabels name - sig_labels sig)) _ _ Hl)) as [b3 E3].
  rewrite E3. destruct include, process; cbn; repeat (case_match; cbn); by eexists.
Qed.

Context (Hsigs : g_maxRRSIGsPerRecordToConsider cfg = 0) (Hkeys : g_maxDNSKEYsToConsider cfg = 0).

Lemma vks_keys_unlimited sig msg ks n v :
  let '(v', r) := vks_keys cr cfg now validateAllSigs sig msg ks n v in
  (r = None \/ r = Some Secure) /\ (vk_isValid v = true -> vk_isValid v' = true)
  /\ ((exists k, k ∈ ks /\ verified sig k msg) -> vk_isValid v' = true).
Proof.
  revert n v. induction ks as [|k ks IH]; intros n v; cbn [vks_keys].
  { split_and!; [by left|done|]. by intros (k & ?%elem_of_nil & _). }
  rewrite Hkeys. cbn [Z.ltb Z.compare andb]. unfold checkSignatureWithKey, verified in *.
  destruct (cr_verify cr (key_algorithm k) (key_key k) msg (sig_signature sig)) as [[]|] eqn:Ev; cbn [andb].
  2,3: specialize (IH (u16 (n + 1)) (vks_times cfg now sig v));
    destruct (vks_keys _ _ _ _ _ _ _ _ _) as [v' r]; destruct IH as (IH1 & IH2 & IH3); split_and!; [done|done|];
    intros (k' & [->|Hk']%elem_of_cons & Hv); [congruence|apply IH3; by exists k'].
  destruct validateAllSigs; cbn [negb]; [|split_and!; [by right|done|done]].
  specialize (IH (u16 (n + 1)) (vks_valid v)). destruct (vks_keys _ _ _ _ _ _ _ _ _) as [v' r].
  destruct IH as (IH1 & IH2 & IH3). split_and!; [done|intros _; by apply IH2|intros _; by apply IH2].
Qed.

Lemma vks_signature_unlimited sig v :
  (exists msg, getMessageForRRSET name sig toSign true true = Ok msg) ->
  exists v' o, vks_signature cr cfg now name toSign keys validateAllSigs sig v = (v', Ok o)
    /\ (o = None \/ o = Some (Some Secure)) /\ (vk_isValid v = true -> vk_isValid v' = true)
    /\ ((exists k, proves sig k) -> vk_isValid v' = true).
Proof.
  intros (msg & Hmsg). unfold vks_signature. destruct (Z.ltb_spec (countLabels name) (sig_labels sig)).
  { eexists _, _. split_and!; [done|by left|done|]. intros (k & [Hl _ _ _]). lia. }
  destruct (isRRSIGLabelCountValid sig) eqn:Hl; cbn [negb].
  2: { eexists _, _. split_and!; [done|by left|done|]. intros (k & [Hl' _ _ _]). apply Z.leb_gt in Hl. lia. }
  rewrite sm_bind_run. cbn [sm_modify]. destruct (isAlgorithmSupported cr (sig_algorithm sig)) eqn:Ha; cbn [negb].
  2: { eexists _, _. split_and!; [done|by left|done|]. intros (k & [_ [Ha' _ _] _ _]). congruence. }
  case_bool_decide as Ht.
  { eexists _, _. split_and!; [done|by left|done|]. intros (k & [_ [_ H1 H2] _ _]). destruct Ht. by apply timely_check. }
  rewrite sm_bind_run. cbn [sm_get]. rewrite Hsigs. cbn [Z.ltb Z.compare andb]. rewrite sm_bind_run. cbn [sm_modify].
  cbv zeta. case_bool_decide as Hnil.
  { eexists _, _. split_and!; [done|by left|done|]. intros (k & [_ _ Hk%getByTag_spec _]).
    rewrite Hnil in Hk. by apply elem_of_nil in Hk. }
  rewrite sm_bind_run. cbn [sm_lift]. rewrite Hmsg, sm_bind_run. unfold sm_state.
  pose proof (vks_keys_unlimited sig msg (getByTag keys (sig_tag sig) (sig_algorithm sig)) 0 (vks_consider (vks_accepted v))) as Hk.
  destruct (vks_keys _ _ _ _ _ _ _ _ _) as [v' r]. destruct Hk as (H1 & H2 & H3).
  eexists _, _. split_and!; [done|by destruct H1 as [->| ->]; auto|done|].
  intros (k & [_ _ Hk%getByTag_spec (msg' & Hm & Hv)]). apply H3. exists k. split; [done|]. by rewrite Hmsg in Hm; injection Hm as ->.
Qed.

Lemma vks_loop_unlimited sigs v :
  (forall sig, sig ∈ sigs -> exists msg, getMessageForRRSET name sig toSign true true = Ok msg) ->
  exists v' o, for_each_m sigs (vks_signature cr cfg now name toSign keys validateAllSigs) v = (v', Ok o)
    /\ (o = None \/ o = Some (Some Secure)) /\ (vk_isValid v = true -> vk_isValid v' = true)
    /\ ((exists sig k, sig ∈ sigs /\ proves sig k) -> o = None -> vk_isValid v' = true).
Proof.
  revert v. induction sigs as [|sig sigs IH]; intros v Hm; cbn [for_each_m].
  { eexists _, _. split_and!; [done|by left|done|]. by intros (? & ? & ?%elem_of_nil & _). }
  rewrite sm_bind_run. destruct (vks_signature_unlimited sig v (Hm sig ltac:(by left))) as (v1 & o1 & -> & [->| ->] & H2 & H3).
  - destruct (IH v1) as (v2 & o2 & -> & I1 & I2 & I3); [intros; apply Hm; by right|].
    eexists _, _. split_and!; [done|done|auto|]. intros (sig' & k & [->|Hs]%elem_of_cons & Hp) Ho; [|apply I3; eauto].
    apply I2, H3. by exists k.
  - eexists _, _. split_and!; [done|by right|done|done].
Qed.
End sound.

(** C3: [validateWithKeySet] answers Secure only when one of the signatures proves
    the set: its label count lies between that of its signer and that of the
    name, its algorithm is supported, it is incepted and not expired, and a zone
    key of the set that is not revoked, of protocol 3 and with its tag and
    algorithm verifies it over the message of the set.  Without limits, and for
    legal names, it answers Secure whenever there is such a signature, whatever
    others come before. *)
Theorem validateWithKeySet_exact cr cfg now name toSign signatures keys all ctx :
  (forall ctx', validateWithKeySet cr cfg now name toSign signatures keys all ctx = (ctx', Ok Secure) ->
     exists sig k, sig ∈ signatures /\ proves cr cfg now name toSign keys sig k)
  /\ (g_maxRRSIGsPerRecordToConsider cfg = 0 -> g_maxDNSKEYsToConsider cfg = 0 ->
      (exists k, named_key name k) -> (forall sig, sig ∈ signatures -> exists k, named_key (sig_signer sig) k) ->
      (exists sig k, sig ∈ signatures /\ proves cr cfg now name toSign keys sig k) ->
      snd (validateWithKeySet cr cfg now name toSign signatures keys all ctx) = Ok Secure).
Proof.
  split; [intros ctx'; apply validateWithKeySet_secure|]. intros Hs Hk [nk Hn] Hsig Hp. unfold validateWithKeySet.
  rewrite sm_bind_run.
  destruct (vks_loop_unlimited cr cfg now name toSign keys all Hs Hk signatures (mkVks false false true true true 0 ctx))
    as (v & o & -> & [->| ->] & _ & Hv); [|..|done].
  - intros sig Hin. destruct (Hsig sig Hin) as [sk Hsk]. by eapply getMessageForRRSET_total.
  - rewrite sm_bind_run. cbn -[vks_verdict]. unfold vks_verdict. by rewrite (Hv Hp eq_refl).
Qed.

(** ** Keys against DS records *)

Lemma dnskey_key_inj a b : dnskey_key a = dnskey_key b -> a = b.
Proof. destruct a, b. unfold dnskey_key. cbn. by intros [= -> -> -> ->]. Qed.

Lemma dnskey_ltb_spec a b : dnskey_ltb a b = true <-> lex_compare Z.compare (dnskey_key a) (dnskey_key b) = Lt.
Proof. unfold dnskey_ltb. by rewrite bool_decide_eq_true. Qed.

Abbreviation keys_sorted := (set_sorted dnskey_key (lex_compare Z.compare)).

Lemma keys_sorted_NoDup l : keys_sorted l -> NoDup l.
Proof.
  induction 1 as [|x l Hx _ IH]; constructor; [|done]. intros Hin. rewrite Forall_forall in Hx.
  specialize (Hx _ Hin). by rewrite (cmp_refl (lex_compare Z.compare)) in Hx.
Qed.

Lemma key_insert_elem x y l : keys_sorted l -> y ∈ set_insert dnskey_ltb x l -> y = x \/ y ∈ l.
Proof.
  intros Hl Hy. pose proof (set_insert_sorted dnskey_key (lex_compare Z.compare) dnskey_ltb dnskey_ltb_spec x l Hl) as Hs.
  apply (set_get_elem dnskey_key (lex_compare Z.compare) _ _ Hs) in Hy.
  rewrite (set_insert_get dnskey_key (lex_compare Z.compare) dnskey_ltb dnskey_ltb_spec) in Hy by done.
  case_decide as E.
  - left. by apply dnskey_key_inj.
  - right. apply (set_get_key dnskey_key (lex_compare Z.compare)) in Hy. by destruct Hy.
Qed.

Section delegation.
Context (cr : crypto) (cfg : validator_settings) (now : Z) (zone : DNSName).
Context (dsset : dsset_t) (tkeys : skeyset_t) (toSign : list sign_record) (sigs : list RRSIGRecordContent).
Context (Htkeys : keys_sorted tkeys).

(** A key that a DS record of the parent stands for. *)
Definition ds_trusted (k : DNSKEYRecordContent) : Prop :=
  exists ds, ds ∈ dsset /\ usable_key tkeys (ds_tag ds) (ds_algorithm ds) k
    /\ makeDSFromDNSKey cr zone k (ds_digesttype ds) = Ok ds.

(** The whole set is signed with such a key. *)
Definition set_signed : Prop :=
  exists sig k msg, sig ∈ sigs /\ timely cr cfg now sig /\ ds_trusted k
    /\ getTag k = sig_tag sig /\ key_algorithm k = sig_algorithm sig
    /\ getMessageForRRSET zone sig toSign false true = Ok msg /\ verified cr sig k msg.

Definition authenticated (v : vds_vars) : Prop :=
  vd_ede v <> Secure /\ keys_sorted (vd_validkeys v)
  /\ (Forall ds_trusted (vd_validkeys v) \/ vd_validkeys v = tkeys /\ set_signed).

(** What the first loop gives. *)
Definition all_trusted (v : vds_vars) : Prop :=
  vd_ede v <> Secure /\ keys_sorted (vd_validkeys v) /\ Forall ds_trusted (vd_validkeys v).

Lemma vds_ds_keys_authenticated ds ks n v :
  ds ∈ dsset -> (forall k, k ∈ ks -> usable_key tkeys (ds_tag ds) (ds_algorithm ds) k) ->
  all_trusted v -> all_trusted (vds_ds_keys cr cfg zone ds ks n v).
Proof.
  intros Hds. revert n v. induction ks as [|k ks IH]; intros n v Hks (He & Hs & Hv); cbn [vds_ds_keys]; [done|].
  case_match; [done|]. apply IH; [intros; apply Hks; by right|]. unfold ds_matches.
  destruct (makeDSFromDNSKey cr zone k (ds_digesttype ds)) as [ds2|] eqn:E; [|done]. case_bool_decide as Heq; [|done].
  subst ds2. split; [done|]. cbn [vds_keys vd_validkeys]. split; [by apply set_insert_sorted; [apply _|apply dnskey_ltb_spec|]|].
  rewrite Forall_forall in Hv |- *. intros y [->|Hy]%key_insert_elem; [|by apply Hv|done].
  exists ds. split_and!; [done|apply Hks; left|done].
Qed.

Lemma vds_dss_authenticated dss n v :
  (forall ds, ds ∈ dss -> ds ∈ dsset) -> all_trusted v -> all_trusted (fst (vds_dss cr cfg zone tkeys dss n v)).
Proof.
  revert n v. induction dss as [|ds dss IH]; intros n v Hd Hv; cbn [vds_dss]; [done|]. case_match; [done|].
  apply IH; [intros; apply Hd; by right|]. apply vds_ds_keys_authenticated; [apply Hd; left| |done].
  by intros k Hk%getByTag_spec.
Qed.

Lemma vds_sig_keys_authenticated sig msg ks n v :
  sig ∈ sigs -> timely cr cfg now sig -> getMessageForRRSET zone sig toSign false true = Ok msg ->
  (forall k, k ∈ ks -> set_signed \/ (ds_trusted k /\ getTag k = sig_tag sig /\ key_algorithm k = sig_algorithm sig)) ->
  authenticated v -> authenticated (fst (vds_sig_keys cr cfg tkeys sig msg ks n v)).
Proof.
  intros Hin Htm Hmsg. revert n v. induction ks as [|k ks IH]; intros n v Hks Hv; cbn [vds_sig_keys]; [done|].
  do 2 (case_match; [done|]). unfold checkSignatureWithKey.
  destruct (cr_verify cr (key_algorithm k) (key_key k) msg (sig_signature sig)) as [[]|] eqn:Ev.
  2,3: apply IH; [intros; apply Hks; by right|by destruct Hv as (_ & ?)].
  split; [apply Hv|]. split; [done|]. right. split; [done|].
  destruct (Hks k ltac:(by left)) as [?|(Hk & Ht & Ha)]; [done|]. by exists sig, k, msg.
Qed.

Lemma keeps_vds_signature sig :
  sig ∈ sigs -> keeps authenticated (vds_signature cr cfg now zone tkeys toSign sig) (fun _ => True).
Proof.
  intros Hin. unfold vds_signature. destruct (isAlgorithmSupported cr (sig_algorithm sig)) eqn:Ha; cbn [negb]; [|by apply keeps_ret].
  destruct (checkSignatureInceptionAndExpiry cfg now sig) as [e|] eqn:Ht.
  { eapply keeps_bind; [apply keeps_modify|intros [] _; by apply keeps_ret]. intros v (_ & Hv). split; [|done]. cbn.
    unfold checkSignatureInceptionAndExpiry in Ht. repeat case_match; congruence. }
  assert (timely cr cfg now sig) as Htm by (apply timely_check in Ht as [??]; by split).
  intros v Hv. rewrite sm_bind_run. cbn [sm_get]. cbv zeta. revert v Hv.
  assert (forall w, authenticated w -> keeps authenticated
    (if bool_decide (getByTag (vd_validkeys w) (sig_tag sig) (sig_algorithm sig) = []) then mret None
     else if (0 <? g_maxRRSIGsPerRecordToConsider cfg) && (g_maxRRSIGsPerRecordToConsider cfg <=? vd_signaturesConsidered w)
     then _ ← sm_modify vds_limit; mret (Some true)
     else
       msg ← sm_lift (getMessageForRRSET zone sig toSign false true);
       stop ← sm_state (vds_sig_keys cr cfg tkeys sig msg (getByTag (vd_validkeys w) (sig_tag sig) (sig_algorithm sig)) 0);
       if stop : bool then mret (Some true)
       else v ← sm_get (fun v => v); mret (if zlen (vd_validkeys v) =? zlen tkeys then Some false else None)) (fun _ => True)) as Hk;
    [|intros v Hv; by apply (Hk v Hv)].
  intros w (_ & Hs & Hw). apply keeps_if; [by apply keeps_ret|]. apply keeps_if.
  { eapply keeps_bind; [by apply keeps_modify|]. intros [] _. by apply keeps_ret. }
  eapply keeps_bind; [apply keeps_lift_eq|]. intros msg Hmsg. eapply (keeps_bind _ _ _ (fun _ => True)).
  - intros v Hv. unfold sm_state.
    pose proof (vds_sig_keys_authenticated sig msg (getByTag (vd_validkeys w) (sig_tag sig) (sig_algorithm sig)) 0 v Hin Htm Hmsg) as Hp.
    destruct (vds_sig_keys _ _ _ _ _ _ _ _) as [v' r]. split; [|done]. apply Hp; [|done].
    intros k [Hk _ _ _ Htag Halg]%getByTag_spec. destruct Hw as [Hw|[_ ?]]; [right|by left].
    rewrite Forall_forall in Hw. auto.
  - intros [] _; [by apply keeps_ret|]. eapply keeps_bind; [by apply (keeps_get _ _ (fun _ => True))|]. intros v' _. by apply keeps_ret.
Qed.

Lemma validateDNSKeysAgainstDS_authenticated ctx validkeys' ctx' r :
  validateDNSKeysAgainstDS cr cfg now zone dsset tkeys toSign sigs ([], ctx) = ((validkeys', ctx'), r) ->
  (keys_sorted validkeys' /\ (Forall ds_trusted validkeys' \/ validkeys' = tkeys /\ set_signed))
  /\ (r = Ok Secure -> zlen tkeys <= zlen validkeys').
Proof.
  unfold validateDNSKeysAgainstDS.
  assert (all_trusted (fst (vds_dss cr cfg zone tkeys dsset 0 (mkVds [] BogusNoValidDNSKEY 0 ctx)))) as Hv.
  { apply vds_dss_authenticated; [done|]. split; [done|split; constructor]. }
  destruct (vds_dss _ _ _ _ _ _ _) as [v stop]. cbn [fst] in Hv. destruct stop.
  { intros [= <- <- <-]. destruct Hv as (_ & ? & ?). naive_solver. }
  set (m := (_ ≫= _ : SM vds_vars vState)). assert (authenticated v) as Hva by (destruct Hv as (? & ? & ?); split; naive_solver).
  assert (keeps authenticated m (fun _ => True)) as Hm.
  { eapply (keeps_bind _ _ _ (fun _ => True)).
    - apply keeps_if; [|by apply keeps_ret]. eapply keeps_weaken; [|done].
      apply (keeps_for_each_m _ _ _ (fun _ => True)). intros sig Hin. by eapply keeps_weaken; [apply keeps_vds_signature|].
    - intros [[]|] _; [by apply keeps_ret|..];
        (eapply keeps_bind; [by apply (keeps_get _ _ (fun _ => True))|]; intros w _; by apply keeps_ret). }
  specialize (Hm v Hva). destruct (m v) as [v' r'] eqn:E. intros [= <- <- <-]. split; [apply Hm|]. intros ->.
  unfold m in E. apply sm_bind_Ok in E as (s1 & o & _ & E). destruct Hm as [[He _] _].
  destruct o as [[]|]; [done|..];
    cbn in E; injection E as <- E; (destruct (Z.ltb_spec (zlen (vd_validkeys s1)) (zlen tkeys)); [|lia]);
    exfalso; revert E; unfold vds_why; repeat case_match; try done.
Qed.
End delegation.

(** C13: every key that [validateDNSKeysAgainstDS] hands back is one of the keys of
    the zone and is authenticated: a DS record of the parent is its digest and it
    is a usable zone key with the tag and algorithm of the DS record, or such a key
    made a timely signature over the whole set.  When the answer is Secure all keys
    of the zone are handed back. *)
Theorem validateDNSKeysAgainstDS_sound cr cfg now zone dsset tkeys toSign sigs ctx validkeys ctx' r :
  keys_sorted tkeys ->
  validateDNSKeysAgainstDS cr cfg now zone dsset tkeys toSign sigs ([], ctx) = ((validkeys, ctx'), r) ->
  (forall k, k ∈ validkeys -> k ∈ tkeys /\ (ds_trusted cr zone dsset tkeys k
                                          \/ set_signed cr cfg now zone dsset tkeys toSign sigs))
  /\ (r = Ok Secure -> forall k, k ∈ tkeys -> k ∈ validkeys).
Proof.
  intros Ht H. apply validateDNSKeysAgainstDS_authenticated in H as [[Hs Hv] Hr]; [|done].
  assert (forall k, k ∈ validkeys -> k ∈ tkeys /\ (ds_trusted cr zone dsset tkeys k
            \/ set_signed cr cfg now zone dsset tkeys toSign sigs)) as Hin.
  { intros k Hk. destruct Hv as [Hv|[-> Hv]]; [|by auto]. rewrite Forall_forall in Hv. specialize (Hv _ Hk).
    split; [|by left]. destruct Hv as (ds & _ & Hu & _). apply Hu. }
  split; [done|]. intros Hsec k. specialize (Hr Hsec). rewrite !list_elem_of_In. revert k. apply NoDup_length_incl.
  - by apply NoDup_ListNoDup, keys_sorted_NoDup.
  - unfold zlen in Hr. lia.
  - intros k Hk%list_elem_of_In. by apply list_elem_of_In, Hin.
Qed.

(** ** The message of a wildcard *)

(** for a name below the encloser of a wildcard, when the label count of the
    signature is that of the encloser, the message the validator checks is the
    one the signer made for the wildcard itself. *)
Theorem getMessageForRRSET_wildcard qname sig records wildcard ls encloser :
  represents qname (ls ++ encloser) -> ls <> [] -> represents wildcard ([42] :: encloser) ->
  sig_labels sig = zlen encloser -> countLabels (sig_signer sig) <= sig_labels sig ->
  getMessageForRRSET qname sig records true true = getMessageForRRSET wildcard sig records false true.
Proof.
  intros Hq Hls Hw Hlab Hsig. unfold getMessageForRRSET.
  assert (forall n l, represents n l -> toDNSStringLC n = Ok (toLower (storage_of l))) as Hlc.
  { intros n l Hn. unfold toDNSStringLC, toDNSString. rewrite (represents_not_empty _ _ Hn). by destruct Hn as (-> & _). }
  rewrite (Hlc _ _ Hq), (Hlc _ _ Hw), (countLabels_represents _ _ Hq), zlen_app, Hlab.
  assert (0 < zlen ls) by (destruct ls; [done|unfold zlen; cbn; lia]).
  rewrite (proj2 (Z.ltb_lt (zlen encloser) (zlen ls + zlen encloser))) by lia.
  rewrite (proj2 (Z.ltb_ge (zlen encloser) (countLabels (sig_signer sig)))) by lia.
  pose proof (chopOff_times_represents (Z.to_nat (zlen ls + zlen encloser - zlen encloser)) _ _ Hq) as Hc.
  replace (Z.to_nat (zlen ls + zlen encloser - zlen encloser)) with (length ls) in * by (unfold zlen; lia).
  rewrite drop_app_length in Hc. rewrite (Hlc _ _ Hc). destruct (rrsig_serialize sig); [|done]. done.
Qed.

(** ** An example *)

Module vexample.
Import example.

(** An engine whose signatures are the key and the length of the message. *)
Definition toy_crypto : crypto :=
  mkCrypto (fun a => (a =? 13) || (a =? 8)) (fun _ => false)
    (fun _ key msg sig => Some (bool_decide (sig = key ++ [zlen msg])))
    (fun _ msg => Some (take 4 (reverse msg))).

Definition unlimited : validator_settings := mkSettings 60 50 0 10 0 0.

Definition ksk : DNSKEYRecordContent := mkDNSKEY 257 3 13 [1; 2; 3; 4].
Definition zsk : DNSKEYRecordContent := mkDNSKEY 256 3 13 [9; 8; 7].
Definition ex_keys : skeyset_t := [zsk; ksk].
Definition ex_records : list sign_record := [mkSignRecord QType.A [10; 0; 0; 1] [10; 0; 0; 1]].

(** A signature by [k] over the records at [name], as the message requires. *)
Definition ex_sign (name : DNSName) (records : list sign_record) (process : bool) (k : DNSKEYRecordContent) : RRSIGRecordContent :=
  let sig s := mkRRSIG QType.A 13 1 3600 4000 1000 (getTag k) (ex_name ex_labels) s in
  let len := match getMessageForRRSET name (sig []) records process true with Ok m => zlen m | Throw _ => 0 end in
  sig (key_key k ++ [len]).

Definition ex_sig : RRSIGRecordContent := ex_sign (ex_name ex_labels) ex_records true zsk.

Lemma validateWithKeySet_exact_witness :
  snd (validateWithKeySet toy_crypto unlimited 2000 (ex_name ex_labels) ex_records [ex_sig] ex_keys true ex_context) = Ok Secure.
Proof.
  apply (validateWithKeySet_exact toy_crypto unlimited 2000 (ex_name ex_labels) ex_records [ex_sig] ex_keys true ex_context).
  - done.
  - done.
  - eexists. by apply ex_named; vm_compute.
  - intros sig ->%list_elem_of_singleton. eexists. by apply ex_named; vm_compute.
  - apply (proj1 (validateWithKeySet_exact toy_crypto unlimited 2000 (ex_name ex_labels) ex_records [ex_sig] ex_keys true ex_context)
             (mkContext ∅ 1 600 false)). by vm_compute.
Defined.

Definition ex_ds (k : DNSKEYRecordContent) : DSRecordContent :=
  match makeDSFromDNSKey toy_crypto (ex_name ex_labels) k 2 with Ok ds => ds | Throw _ => mkDS 0 0 0 [] end.

(** The key set, signed with the key the DS record is for. *)
Definition ex_keyset : list sign_record :=
  map (fun k => mkSignRecord QType.DNSKEY (dnskey_serialize k) (dnskey_serialize k)) ex_keys.
Definition ex_keysig : RRSIGRecordContent := ex_sign (ex_name ex_labels) ex_keyset false ksk.

Lemma validateDNSKeysAgainstDS_sound_witness :
  zsk ∈ ex_keys
  /\ (ds_trusted toy_crypto (ex_name ex_labels) [ex_ds ksk] ex_keys zsk
      \/ set_signed toy_crypto unlimited 2000 (ex_name ex_labels) [ex_ds ksk] ex_keys ex_keyset [ex_keysig]).
Proof.
  apply (validateDNSKeysAgainstDS_sound toy_crypto unlimited 2000 (ex_name ex_labels) [ex_ds ksk] ex_keys ex_keyset [ex_keysig]
           ex_context ex_keys (mkContext ∅ 1 600 false) (Ok Secure));
    [repeat constructor|by vm_compute|left].
Defined.

Lemma getMessageForRRSET_wildcard_witness :
  getMessageForRRSET (ex_name [bs "x"; bs "y"; bs "ex"]) ex_sig ex_records true true
  = getMessageForRRSET (ex_name [[42]; bs "ex"]) ex_sig ex_records false true.
Proof.
  apply (getMessageForRRSET_wildcard (ex_name [bs "x"; bs "y"; bs "ex"]) ex_sig ex_records (ex_name [[42]; bs "ex"])
           [bs "x"; bs "y"] ex_labels); by_decide.
Defined.

(** one DS record more than [max-ds-per-zone] is considered: with the limit at
    one, the keys are secure through the second DS record. *)
Theorem ds_limit_considers_one_more :
  let cfg := mkSettings 60 50 10 10 10 1 in
  let unrelated := mkDS 1 13 2 [] in
  snd (validateDNSKeysAgainstDS toy_crypto cfg 2000 (ex_name ex_labels) [unrelated; ex_ds ksk] ex_keys ex_keyset
         [ex_keysig] ([], ex_context)) = Ok Secure
  /\ g_maxDSsToConsider cfg = 1.
Proof. by vm_compute. Qed.
End vexample.
