(* ===== verification/IpUtils.v ===== *)
(** * Addresses and netmasks

    [ComboAddress], [Netmask] and [AddressAndPortRange] of [pdns/iputils.hh]
    and [ComboAddress::truncate] of [pdns/iputils.cc].  An address keeps the
    bytes of its address field in network order, four of them or sixteen
    according to its family; ports are kept in host order. *)

From S2P Require Import Prelude Chars.

#[local] Open Scope Z_scope.

(** ** Addresses *)

Definition AF_UNSPEC : Z := 0.
Definition AF_INET : Z := 2.
Definition AF_INET6 : Z := 10.

Record ComboAddress : Type := mkCA {
  sin_family : Z;
  sin_port : Z;
  sin_addr : bytes;
}.

#[export] Instance ComboAddress_eq_dec : EqDecision ComboAddress.
Proof. solve_decision. Defined.

Definition ca_isIPv4 (a : ComboAddress) : bool := sin_family a =? AF_INET.
Definition ca_isIPv6 (a : ComboAddress) : bool := sin_family a =? AF_INET6.

(** [ComboAddress::ComboAddress()]. *)
Definition ca_default : ComboAddress := mkCA AF_INET 0 [0; 0; 0; 0].

Definition ca_setPort (port : Z) (a : ComboAddress) : ComboAddress :=
  mkCA (sin_family a) port (sin_addr a).

(** [operator==]; the address fields have the length of the family. *)
Definition ca_eqb (a b : ComboAddress) : bool :=
  if negb ((sin_family a =? sin_family b) && (sin_port a =? sin_port b)) then false
  else if sin_family a =? AF_INET then get32 (sin_addr a) 0 =? get32 (sin_addr b) 0
  else bool_decide (sin_addr a = sin_addr b).

Definition addressOnlyEqual (a b : ComboAddress) : bool :=
  if negb (sin_family a =? sin_family b) then false
  else if sin_family a =? AF_INET then get32 (sin_addr a) 0 =? get32 (sin_addr b) 0
  else bool_decide (sin_addr a = sin_addr b).

Definition ca_getBits (a : ComboAddress) : Z :=
  if ca_isIPv4 a then 32 else if ca_isIPv6 a then 128 else 0.

(** [ComboAddress::getBit]. *)
Definition ca_getBit (a : ComboAddress) (index : Z) : bool :=
  if ca_isIPv4 a then
    if 32 <=? index then false
    else if (index <? 0) && (index <? -32) then false
    else
      let index := if index <? 0 then 32 + index else index in
      negb (Z.land (get32 (sin_addr a) 0) (Z.shiftl 1 index) =? 0)
  else if ca_isIPv6 a then
    if 128 <=? index then false
    else if (index <? 0) && (index <? -128) then false
    else
      let index := if index <? 0 then 128 + index else index in
      let byte_idx := index / 8 in
      let bit_idx := index mod 8 in
      negb (Z.land (byte_at (sin_addr a) (15 - byte_idx)) (Z.shiftl 1 bit_idx) =? 0)
  else false.

Definition isMappedIPv4 (a : ComboAddress) : bool :=
  if negb (sin_family a =? AF_INET6) then false
  else forallb (fun b => b =? 0) (ztake 10 (sin_addr a))
       && forallb (fun b => b =? 255) (zsub (sin_addr a) 10 2).

Definition mapToIPv4 (a : ComboAddress) : result ComboAddress :=
  if negb (isMappedIPv4 a)
  then Throw (PDNSException "ComboAddress can't map non-mapped IPv6 address back to IPv4")
  else Ok (mkCA AF_INET (sin_port a) (zsub (sin_addr a) (16 - 4) 4)).

Definition ca_toByteString (a : ComboAddress) : bytes := sin_addr a.

(** [ComboAddress::truncate]: whole bytes are cleared from the end, then the
    low bits of the byte before them. *)
Definition ca_truncate (bits : Z) (a : ComboAddress) : ComboAddress :=
  let len := if sin_family a =? AF_INET then 4 else 16 in
  if len * 8 <=? bits then a
  else
    let tozero := len * 8 - bits in
    let cleared := zwrite (sin_addr a) (len - tozero / 8) (replicate (Z.to_nat (tozero / 8)) 0) in
    let bitsleft := tozero mod 8 in
    if bitsleft =? 0 then mkCA (sin_family a) (sin_port a) cleared
    else
      let place := len - 1 - tozero / 8 in
      mkCA (sin_family a) (sin_port a)
        (zwrite cleared place
           [Z.land (byte_at cleared place) (Z.lnot (Z.shiftl 1 bitsleft - 1))]).

Definition makeComboAddressFromRaw (version : Z) (raw : bytes) : result ComboAddress :=
  if version =? 4 then
    if negb (zlen raw =? 4) then Throw (NetmaskException "invalid raw address length")
    else Ok (mkCA AF_INET 0 raw)
  else if version =? 6 then
    if negb (zlen raw =? 16) then Throw (NetmaskException "invalid raw address length")
    else Ok (mkCA AF_INET6 0 raw)
  else Throw (NetmaskException "invalid address family").

(** ** Netmasks *)

Record Netmask : Type := mkNetmask {
  d_network : ComboAddress;
  d_mask : Z;
  nm_bits : Z;
}.

#[export] Instance Netmask_eq_dec : EqDecision Netmask.
Proof. solve_decision. Defined.

(** [~(0xFFFFFFFF >> bits)] on 32 bits and [~(0xFF >> bits)] on 8. *)
Definition mask32 (bits : Z) : Z := Z.lxor (2 ^ 32 - 1) (Z.shiftr (2 ^ 32 - 1) bits).
Definition mask8 (bits : Z) : Z := Z.lxor 255 (Z.shiftr 255 bits).

(** The clearing of the host bits of an IPv6 address. *)
Definition clear_host6 (bits : Z) (addr : bytes) : bytes :=
  let n := bits / 8 in
  let mask := mask8 (bits mod 8) in
  let addr := if n <? 16 then zwrite addr n [Z.land (byte_at addr n) mask] else addr in
  zwrite addr (n + 1) (replicate (Z.to_nat (16 - (n + 1))) 0).

(** [Netmask::setBits], [value] being a byte. *)
Definition setBits (network : ComboAddress) (value : Z) : Netmask :=
  let bits := if ca_isIPv4 network then Z.min value 32 else Z.min value 128 in
  let mask := if bits <? 32 then mask32 bits else 2 ^ 32 - 1 in
  let addr :=
    if ca_isIPv4 network then be32 (Z.land (get32 (sin_addr network) 0) mask)
    else if ca_isIPv6 network then clear_host6 bits (sin_addr network)
    else sin_addr network in
  mkNetmask (mkCA (sin_family network) (sin_port network) addr) mask bits.

(** [Netmask::Netmask()]. *)
Definition nm_default : Netmask := mkNetmask (mkCA 0 0 [0; 0; 0; 0]) 0 0.

(** [Netmask(const ComboAddress&, uint8_t)]. *)
Definition nm_make (network : ComboAddress) (bits : Z) : Netmask :=
  setBits (ca_setPort 0 network) (u8 bits).

(** [Netmask(const string&, byteString)]. *)
Definition nm_of_bytes (mask : bytes) : result Netmask :=
  afi ← of_option (out_of_range "basic_string::at") (zat mask 0);
  let len := if afi =? 4 then 4 else 16 in
  bits ← of_option (out_of_range "basic_string::at") (zat mask (len + 1));
  network ← makeComboAddressFromRaw afi (zsub mask 1 len);
  Ok (setBits network bits).

Definition nm_isIPv4 (n : Netmask) : bool := ca_isIPv4 (d_network n).
Definition nm_isIPv6 (n : Netmask) : bool := ca_isIPv6 (d_network n).

Definition nm_toByteString (n : Netmask) : bytes :=
  (if nm_isIPv4 n then 4 else 6) :: ca_toByteString (d_network n) ++ [nm_bits n].

Definition match4 (n : Netmask) (arg : Z) : bool :=
  Z.land arg (d_mask n) =? get32 (sin_addr (d_network n)) 0.

(** [Netmask::match] of an address. *)
Definition nm_match (n : Netmask) (address : ComboAddress) : bool :=
  let network := d_network n in
  if negb (sin_family network =? sin_family address) then false
  else if sin_family network =? AF_INET then match4 n (get32 (sin_addr address) 0)
  else if sin_family network =? AF_INET6 then
    let len := nm_bits n / 8 in
    if negb (bool_decide (ztake len (sin_addr network) = ztake len (sin_addr address))) then false
    else
      let bits := nm_bits n mod 8 in
      if bits =? 0 then true
      else byte_at (sin_addr network) len =? Z.land (byte_at (sin_addr address) len) (mask8 bits)
  else false.

Definition nm_eqb (a b : Netmask) : bool :=
  ca_eqb (d_network a) (d_network b) && (nm_bits a =? nm_bits b).

Definition getNormalized (n : Netmask) : Netmask := nm_make (d_network n) (nm_bits n).

Definition getSuper (n : Netmask) (bits : Z) : Netmask :=
  nm_make (d_network n) (Z.min (nm_bits n) (u8 bits)).

Definition getFullBits (n : Netmask) : Z := ca_getBits (d_network n).

Definition nm_getBit (n : Netmask) (bit : Z) : bool :=
  if bit <? - nm_bits n then false
  else if (0 <=? bit) && nm_isIPv4 n && ((32 <=? bit) || (bit <? 32 - nm_bits n)) then false
  else if (0 <=? bit) && nm_isIPv6 n && ((128 <=? bit) || (bit <? 128 - nm_bits n)) then false
  else ca_getBit (d_network n) bit.

(** ** Ranges of addresses and ports *)

Record AddressAndPortRange : Type := mkRange {
  apr_addr : ComboAddress;
  apr_addrMask : Z;
  apr_portMask : Z;
}.

#[export] Instance AddressAndPortRange_eq_dec : EqDecision AddressAndPortRange.
Proof. solve_decision. Defined.

Definition apr_default : AddressAndPortRange := mkRange (mkCA 0 0 [0; 0; 0; 0]) 0 0.

(** [AddressAndPortRange(ComboAddress, uint8_t, uint8_t)]. *)
Definition apr_make (address : ComboAddress) (addrMask portMask : Z) : result AddressAndPortRange :=
  let portMask := if negb (ca_isIPv4 address) then 0 else portMask in
  let port := sin_port address in
  let port := if portMask <? 16 then Z.land port (Z.lxor 65535 (Z.shiftr 65535 portMask)) else port in
  address ← (if addrMask <? ca_getBits address then
               _ ← throw_if (0 <? portMask)
                     (runtime_error "Trying to create a AddressAndPortRange with a reduced address mask and a port range");
               Ok (d_network (nm_make address addrMask))
             else Ok address);
  Ok (mkRange (ca_setPort port address) addrMask portMask).

Definition apr_getFullBits (r : AddressAndPortRange) : Z := u8 (ca_getBits (apr_addr r) + 16).

Definition apr_getBits (r : AddressAndPortRange) : Z :=
  if apr_addrMask r <? ca_getBits (apr_addr r) then apr_addrMask r
  else u8 (ca_getBits (apr_addr r) + apr_portMask r).

Definition apr_getBit (r : AddressAndPortRange) (index : Z) : bool :=
  if apr_getFullBits r <=? index then false
  else
    let index := if index <? 0 then apr_getFullBits r + index else index in
    if index <? 16 then negb (Z.land (sin_port (apr_addr r)) (Z.shiftl 1 index) =? 0)
    else ca_getBit (apr_addr r) (index - 16).

Definition apr_getNormalized (r : AddressAndPortRange) : result AddressAndPortRange :=
  apr_make (apr_addr r) (apr_addrMask r) (apr_portMask r).

Definition apr_getSuper (r : AddressAndPortRange) (bits : Z) : result AddressAndPortRange :=
  if bits <=? apr_addrMask r then apr_make (apr_addr r) bits 0
  else if bits <=? apr_addrMask r + apr_portMask r then
    apr_make (apr_addr r) (apr_addrMask r) (u8 (apr_portMask r - (bits - apr_addrMask r)))
  else apr_make (apr_addr r) (apr_addrMask r) (apr_portMask r).

Definition apr_eqb (a b : AddressAndPortRange) : bool :=
  ca_eqb (apr_addr a) (apr_addr b) && (apr_addrMask a =? apr_addrMask b)
  && (apr_portMask a =? apr_portMask b).

(** ** The bits of an address

    Bit [i] of an address, from the most significant one: what the tests of the
    code on words and on bytes are reduced to. *)

Definition abit (s : bytes) (i : Z) : bool := Z.testbit (byte_at s (i / 8)) (7 - i mod 8).

(** An address of one of the two families. *)
Definition ca_ok (a : ComboAddress) : Prop :=
  (sin_family a = AF_INET /\ zlen (sin_addr a) = 4 \/ sin_family a = AF_INET6 /\ zlen (sin_addr a) = 16)
  /\ bytes_ok (sin_addr a).

#[export] Instance ca_ok_dec a : Decision (ca_ok a).
Proof. unfold ca_ok. apply _. Defined.

Lemma testbit_concat x y n i :
  0 <= n -> 0 <= y < 2 ^ n -> 0 <= i ->
  Z.testbit (x * 2 ^ n + y) i = if i <? n then Z.testbit y i else Z.testbit x (i - n).
Proof.
  intros Hn Hy Hi. destruct (Z.ltb_spec i n).
  - rewrite <- (Z.mod_pow2_bits_low (x * 2 ^ n + y) n i) by lia.
    by rewrite Z.add_comm, Z_mod_plus_full, Z.mod_small.
  - replace i with (i - n + n) at 1 by lia. rewrite <- Z.div_pow2_bits by lia.
    by rewrite Z.div_add_l, Z.div_small, Z.add_0_r by lia.
Qed.

Lemma land_bit x i : 0 <= i -> negb (Z.land x (Z.shiftl 1 i) =? 0) = Z.testbit x i.
Proof.
  intros Hi. rewrite Z.shiftl_mul_pow2, Z.mul_1_l by done. pose proof (land_pow2 x i Hi) as H.
  destruct (Z.testbit x i); [|by rewrite (proj2 H)]. apply negb_true_iff, Z.eqb_neq. by intros ?%H.
Qed.

Lemma get32_bytes s i : get32 s i = ((byte_at s i * 2 ^ 8 + byte_at s (i + 1)) * 2 ^ 8 + byte_at s (i + 2)) * 2 ^ 8
                                    + byte_at s (i + 3).
Proof. unfold get32, get16. replace (i + 2 + 1) with (i + 3) by lia. lia. Qed.

Lemma div8_mod8 i q r : 0 <= r < 8 -> i = 8 * q + r -> i / 8 = q /\ i mod 8 = r.
Proof. intros Hr ->. split; [symmetry; apply (Z.div_unique_pos _ _ _ r)|symmetry; apply (Z.mod_unique_pos _ _ q)]; lia. Qed.

Lemma get32_testbit s i : bytes_ok s -> 0 <= i < 32 -> Z.testbit (get32 s 0) (31 - i) = abit s i.
Proof.
  intros Hs Hi. rewrite get32_bytes. unfold abit.
  pose proof (byte_at_range s (0 + 1) Hs). pose proof (byte_at_range s (0 + 2) Hs).
  pose proof (byte_at_range s (0 + 3) Hs). pose proof (Z.div_mod i 8). pose proof (Z.mod_pos_bound i 8).
  unfold is_byte in *.
  assert (i / 8 = 0 \/ i / 8 = 1 \/ i / 8 = 2 \/ i / 8 = 3) as Hq by lia.
  do 3 (rewrite testbit_concat by lia; case_match;
    [match goal with |- Z.testbit (byte_at _ ?j) ?k = _ =>
       replace (i / 8) with j by lia; by replace (7 - i mod 8) with k by lia end|]).
  replace (i / 8) with 0 by lia. f_equal. lia.
Qed.

Lemma ca_getBit_abit a i :
  ca_ok a -> 0 <= i < ca_getBits a -> ca_getBit a (-1 - i) = abit (sin_addr a) i.
Proof.
  intros [Hf Hb]. unfold ca_getBits, ca_getBit, ca_isIPv4, ca_isIPv6.
  destruct Hf as [[-> Hl]|[-> Hl]]; cbn [Z.eqb AF_INET AF_INET6 Pos.eqb]; intros Hi.
  - destruct (Z.leb_spec 32 (-1 - i)); [lia|]. destruct (Z.ltb_spec (-1 - i) 0); [|lia].
    destruct (Z.ltb_spec (-1 - i) (-32)); [lia|]. cbn [andb]. rewrite land_bit by lia.
    rewrite <- get32_testbit by done. f_equal. lia.
  - destruct (Z.leb_spec 128 (-1 - i)); [lia|]. destruct (Z.ltb_spec (-1 - i) 0); [|lia].
    destruct (Z.ltb_spec (-1 - i) (-128)); [lia|]. cbn [andb]. rewrite land_bit by (apply Z.mod_pos_bound; lia).
    pose proof (Z.div_mod i 8). pose proof (Z.mod_pos_bound i 8).
    destruct (div8_mod8 (128 + (-1 - i)) (15 - i / 8) (7 - i mod 8)) as [-> ->]; [lia|lia|].
    unfold abit. do 2 f_equal. lia.
Qed.

Lemma ones_testbit n i : 0 <= n -> 0 <= i -> Z.testbit (2 ^ n - 1) i = (i <? n).
Proof.
  intros. replace (2 ^ n - 1) with (Z.ones n) by (rewrite Z.ones_equiv; lia).
  destruct (Z.ltb_spec i n); [by apply Z.ones_spec_low|by apply Z.ones_spec_high].
Qed.

(** The bits of a mask of [w] bits with the [b] upper ones set. *)
Lemma mask_testbit w b i :
  0 <= b <= w -> 0 <= i -> Z.testbit (Z.lxor (2 ^ w - 1) (Z.shiftr (2 ^ w - 1) b)) i = (w - b <=? i) && (i <? w).
Proof.
  intros. rewrite Z.lxor_spec, Z.shiftr_spec, !ones_testbit by lia.
  destruct (Z.ltb_spec i w), (Z.ltb_spec (i + b) w), (Z.leb_spec (w - b) i); try done; lia.
Qed.

Lemma byte_at_zwrite s i t j :
  0 <= i -> i + zlen t <= zlen s -> 0 <= j ->
  byte_at (zwrite s i t) j
  = if (i <=? j) && (j <? i + zlen t) then byte_at t (j - i) else byte_at s j.
Proof.
  intros Hi Hl Hj. unfold byte_at, zwrite. f_equal.
  assert (zlen (ztake i s) = i) as Ht by (rewrite zlen_ztake; pose proof (zlen_nonneg t); lia).
  destruct (Z.leb_spec i j); cbn [andb].
  - rewrite zat_app_r, Ht by lia. destruct (Z.ltb_spec j (i + zlen t)).
    + by rewrite zat_app_l by lia.
    + rewrite zat_app_r, zat_zdrop by (pose proof (zlen_nonneg t); lia). do 2 f_equal. lia.
  - rewrite zat_app_l by lia. rewrite <- (ztake_zdrop i s) at 2. by rewrite zat_app_l by lia.
Qed.

Lemma land_byte x m : is_byte x -> is_byte (Z.land x m).
Proof.
  unfold is_byte. intros Hx. replace (Z.land x m) with (Z.land x m mod 2 ^ 8); [apply Z.mod_pos_bound; lia|].
  rewrite <- Z.land_ones by lia. rewrite <- Z.land_assoc, (Z.land_comm m), Z.land_assoc.
  by rewrite Z.land_ones, Z.mod_small by lia.
Qed.

(** Clearing whole bytes after position [n] and the low bits of the byte there. *)
Lemma abit_mask_byte x (b : Z) i :
  0 <= b <= 8 -> 0 <= i < 8 -> Z.testbit (Z.land x (mask8 b)) (7 - i) = (i <? b) && Z.testbit x (7 - i).
Proof.
  intros. unfold mask8. change 255 with (2 ^ 8 - 1). rewrite Z.land_spec, mask_testbit by lia.
  destruct (Z.leb_spec (8 - b) (7 - i)), (Z.ltb_spec i b), (Z.ltb_spec (7 - i) 8), (Z.testbit x (7 - i)); try done; lia.
Qed.

Lemma clear_host6_spec bits s :
  zlen s = 16 -> bytes_ok s -> 0 <= bits <= 128 ->
  zlen (clear_host6 bits s) = 16 /\ bytes_ok (clear_host6 bits s)
  /\ forall i, 0 <= i < 128 -> abit (clear_host6 bits s) i = (i <? bits) && abit s i.
Proof.
  intros Hl Hs Hb. unfold clear_host6.
  pose proof (Z.div_mod bits 8). pose proof (Z.mod_pos_bound bits 8).
  set (n := bits / 8) in *. set (r := bits mod 8) in *.
  set (s1 := if n <? 16 then _ else s).
  assert (zlen s1 = 16 /\ bytes_ok s1 /\ forall j, 0 <= j -> byte_at s1 j
            = if (j =? n) && (n <? 16) then Z.land (byte_at s n) (mask8 r) else byte_at s j) as (Hl1 & Hs1 & Hb1).
  { unfold s1. destruct (Z.ltb_spec n 16).
    - rewrite zlen_zwrite by (try rewrite zlen_cons, zlen_nil; lia).
      split_and!; [lia|apply bytes_ok_zwrite; [done|]; constructor; [by apply land_byte, byte_at_range|constructor]|].
      intros j Hj. rewrite byte_at_zwrite by (try rewrite zlen_cons, zlen_nil; lia). rewrite zlen_cons, zlen_nil.
      destruct (Z.eqb_spec j n) as [->|].
      + destruct (Z.leb_spec n n), (Z.ltb_spec n (n + (1 + 0))); try lia. cbn [andb]. by rewrite Z.sub_diag.
      + destruct (Z.leb_spec n j), (Z.ltb_spec j (n + (1 + 0))); try done; lia.
    - split_and!; [done..|]. intros j Hj. by rewrite andb_false_r. }
  clearbody s1. assert (n <= 16) by lia.
  destruct (decide (n = 16)) as [->|].
  { replace (replicate _ _) with (@nil Z) by done.
    assert (zwrite s1 (16 + 1) [] = s1) as ->.
    { unfold zwrite. rewrite zlen_nil. by rewrite ztake_all, zdrop_all, !app_nil_r by lia. }
    split_and!; [done..|]. intros i Hi. unfold abit.
    pose proof (Z.div_mod i 8). pose proof (Z.mod_pos_bound i 8).
    rewrite Hb1 by lia. destruct (Z.ltb_spec i bits); [|lia].
    by destruct (Z.eqb_spec (i / 8) 16); [lia|]. }
  rewrite zlen_zwrite by (rewrite ?zlen_zeros; lia). split_and!; [done|by apply bytes_ok_zwrite, bytes_ok_zeros|].
  intros i Hi. unfold abit. pose proof (Z.div_mod i 8). pose proof (Z.mod_pos_bound i 8).
  rewrite byte_at_zwrite, zlen_zeros, byte_at_zeros, Hb1 by (rewrite ?zlen_zeros; lia).
  destruct (Z.leb_spec (n + 1) (i / 8)); cbn [andb].
  - destruct (Z.ltb_spec (i / 8) (n + 1 + Z.of_nat (Z.to_nat (16 - (n + 1))))); [|lia].
    rewrite Z.bits_0. by destruct (Z.ltb_spec i bits); [lia|].
  - destruct (Z.ltb_spec n 16); [|lia]. destruct (Z.eqb_spec (i / 8) n) as [Hin|]; cbn [andb].
    + rewrite abit_mask_byte, Hin by lia. by destruct (Z.ltb_spec (i mod 8) r), (Z.ltb_spec i bits); try lia.
    + destruct (Z.ltb_spec i bits); [done|lia].
Qed.

Lemma byte_ext x y : is_byte x -> is_byte y -> (forall r, 0 <= r < 8 -> Z.testbit x (7 - r) = Z.testbit y (7 - r)) -> x = y.
Proof.
  unfold is_byte. intros Hx Hy H. apply Z.bits_inj'. intros j Hj.
  destruct (Z.ltb_spec j 8).
  - specialize (H (7 - j)). replace (7 - (7 - j)) with j in H by lia. apply H. lia.
  - rewrite <- (Z.mod_small x (2 ^ 8)), <- (Z.mod_small y (2 ^ 8)) by lia.
    by rewrite !Z.mod_pow2_bits_high by lia.
Qed.

Lemma addr_ext s t :
  zlen s = zlen t -> bytes_ok s -> bytes_ok t -> (forall i, 0 <= i < 8 * zlen s -> abit s i = abit t i) -> s = t.
Proof.
  intros Hl Hs Ht H. apply list_eq_same_length with (n := length s); [unfold zlen in Hl; lia|done|].
  intros j x y Hj Hx Hy.
  assert (byte_at s (Z.of_nat j) = x /\ byte_at t (Z.of_nat j) = y) as [Ex Ey].
  { unfold byte_at, zat. destruct (Z.ltb_spec (Z.of_nat j) 0); [lia|]. by rewrite Nat2Z.id, Hx, Hy. }
  rewrite <- Ex, <- Ey. apply byte_ext; [by apply byte_at_range..|].
  intros r Hr. specialize (H (8 * Z.of_nat j + r)). unfold abit in H.
  destruct (div8_mod8 (8 * Z.of_nat j + r) (Z.of_nat j) r) as [E1 E2]; [lia|lia|].
  rewrite E1, E2 in H. apply H. unfold zlen. lia.
Qed.

Lemma word_ext x y :
  0 <= x < 2 ^ 32 -> 0 <= y < 2 ^ 32 -> (forall i, 0 <= i < 32 -> Z.testbit x (31 - i) = Z.testbit y (31 - i)) -> x = y.
Proof.
  intros Hx Hy H. apply Z.bits_inj'. intros j Hj. destruct (Z.ltb_spec j 32).
  - specialize (H (31 - j)). replace (31 - (31 - j)) with j in H by lia. apply H. lia.
  - rewrite <- (Z.mod_small x (2 ^ 32)), <- (Z.mod_small y (2 ^ 32)) by lia.
    by rewrite !Z.mod_pow2_bits_high by lia.
Qed.

Lemma be32_ok v : 0 <= v < 2 ^ 32 -> bytes_ok (be32 v).
Proof.
  intros. unfold be32, be16. repeat constructor; unfold is_byte; apply Z.mod_pos_bound; lia.
Qed.

Lemma abit_be32 v i : 0 <= v < 2 ^ 32 -> 0 <= i < 32 -> abit (be32 v) i = Z.testbit v (31 - i).
Proof.
  intros Hv Hi. rewrite <- get32_testbit by (done || by apply be32_ok).
  pose proof (get32_be32 [] v [] Hv) as H. rewrite app_nil_r in H. cbn [app] in H.
  change (zlen []) with 0 in H. by rewrite H.
Qed.

Lemma land_word x m : 0 <= x < 2 ^ 32 -> 0 <= Z.land x m < 2 ^ 32.
Proof.
  intros Hx. replace (Z.land x m) with (Z.land x m mod 2 ^ 32); [apply Z.mod_pos_bound; lia|].
  rewrite <- Z.land_ones by lia. rewrite <- Z.land_assoc, (Z.land_comm m), Z.land_assoc.
  by rewrite Z.land_ones, Z.mod_small by lia.
Qed.

(** A netmask as the constructors leave it: the host bits are cleared. *)
Record nm_ok (n : Netmask) : Prop := {
  nm_ok_network : ca_ok (d_network n);
  nm_ok_port : sin_port (d_network n) = 0;
  nm_ok_bits : 0 <= nm_bits n <= ca_getBits (d_network n);
  nm_ok_mask : d_mask n = if nm_bits n <? 32 then mask32 (nm_bits n) else 2 ^ 32 - 1;
  nm_ok_host : forall i, nm_bits n <= i < ca_getBits (d_network n) -> abit (sin_addr (d_network n)) i = false;
}.

Lemma land_mask x m i :
  0 <= i < 32 -> 0 <= m <= 32 ->
  Z.testbit (Z.land x (if m <? 32 then mask32 m else 2 ^ 32 - 1)) (31 - i) = (i <? m) && Z.testbit x (31 - i).
Proof.
  intros Hi Hm. rewrite Z.land_spec.
  destruct (Z.ltb_spec m 32); [unfold mask32; rewrite mask_testbit by lia|rewrite ones_testbit by lia].
  - destruct (Z.leb_spec (32 - m) (31 - i)), (Z.ltb_spec (31 - i) 32), (Z.ltb_spec i m), (Z.testbit x (31 - i)); done || lia.
  - destruct (Z.ltb_spec (31 - i) 32), (Z.ltb_spec i m), (Z.testbit x (31 - i)); done || lia.
Qed.

(** [setBits] keeps the upper bits and clears the others. *)
Lemma setBits_spec a v :
  ca_ok a -> 0 <= v ->
  let n := setBits a v in
  nm_bits n = Z.min v (ca_getBits a) /\ sin_family (d_network n) = sin_family a
  /\ sin_port (d_network n) = sin_port a /\ ca_ok (d_network n)
  /\ d_mask n = (if nm_bits n <? 32 then mask32 (nm_bits n) else 2 ^ 32 - 1)
  /\ forall i, 0 <= i < ca_getBits a ->
       abit (sin_addr (d_network n)) i = (i <? nm_bits n) && abit (sin_addr a) i.
Proof.
  intros [Hf Hb] Hv. unfold setBits, ca_getBits, ca_ok, ca_isIPv4, ca_isIPv6. cbn [d_network nm_bits sin_family sin_port sin_addr d_mask].
  destruct Hf as [[Hf Hl]|[Hf Hl]]; rewrite Hf; cbn [Z.eqb AF_INET AF_INET6 Pos.eqb].
  - pose proof (get32_range _ 0 Hb) as Hr.
    pose proof (land_word _ (if Z.min v 32 <? 32 then mask32 (Z.min v 32) else 2 ^ 32 - 1) Hr).
    split_and!; [done..|by left|by apply be32_ok|done|].
    intros i Hi. rewrite abit_be32, land_mask by lia. by rewrite get32_testbit.
  - destruct (clear_host6_spec (Z.min v 128) (sin_addr a)) as (Hl' & Hb' & Hbits); [done|done|lia|].
    split_and!; [done..|by right|done|done|done].
Qed.

Lemma u8_getBits n : 0 <= n <= 128 -> u8 n = n.
Proof. intros. apply u8_small. lia. Qed.

Lemma ca_getBits_range a : 0 <= ca_getBits a <= 128.
Proof. unfold ca_getBits. repeat case_match; lia. Qed.

Lemma nm_make_spec a v :
  ca_ok a -> 0 <= v < 256 ->
  nm_ok (nm_make a v) /\ nm_bits (nm_make a v) = Z.min v (ca_getBits a)
  /\ sin_family (d_network (nm_make a v)) = sin_family a
  /\ forall i, 0 <= i < ca_getBits a ->
       abit (sin_addr (d_network (nm_make a v))) i = (i <? Z.min v (ca_getBits a)) && abit (sin_addr a) i.
Proof.
  intros Ha Hv. unfold nm_make. rewrite u8_small by done.
  assert (ca_ok (ca_setPort 0 a)) as Ha' by done.
  destruct (setBits_spec (ca_setPort 0 a) v Ha') as (H1 & H2 & H3 & H4 & H5 & H6); [lia|].
  cbv zeta in *. change (ca_getBits (ca_setPort 0 a)) with (ca_getBits a) in *.
  pose proof (ca_getBits_range a). set (n := setBits _ v) in *.
  assert (ca_getBits (d_network n) = ca_getBits a) as E by (unfold ca_getBits, ca_isIPv4, ca_isIPv6; by rewrite H2).
  split_and!; [|done|done|intros i Hi; rewrite H6, H1; done].
  split; [done|done|rewrite E; lia|done|]. intros i Hi. rewrite E in Hi. rewrite H6 by lia.
  by destruct (Z.ltb_spec i (nm_bits n)); [lia|].
Qed.

(** The low bits of a byte cleared by [ca_truncate]. *)
Lemma land_lnot_testbit x b i :
  0 <= b <= 8 -> 0 <= i < 8 -> Z.testbit (Z.land x (Z.lnot (Z.shiftl 1 b - 1))) (7 - i) = (i <? 8 - b) && Z.testbit x (7 - i).
Proof.
  intros. rewrite Z.shiftl_mul_pow2, Z.mul_1_l, Z.land_spec, Z.lnot_spec, ones_testbit by lia.
  destruct (Z.ltb_spec (7 - i) b), (Z.ltb_spec i (8 - b)), (Z.testbit x (7 - i)); done || lia.
Qed.

Lemma truncate_spec bits a :
  ca_ok a -> 0 <= bits <= ca_getBits a ->
  ca_ok (ca_truncate bits a) /\ sin_family (ca_truncate bits a) = sin_family a /\ sin_port (ca_truncate bits a) = sin_port a
  /\ forall i, 0 <= i < ca_getBits a -> abit (sin_addr (ca_truncate bits a)) i = (i <? bits) && abit (sin_addr a) i.
Proof.
  intros [Hf Hb] Hbits. unfold ca_truncate.
  set (len := if sin_family a =? AF_INET then 4 else 16).
  assert (zlen (sin_addr a) = len /\ ca_getBits a = 8 * len) as [Hl Hg].
  { unfold len, ca_getBits, ca_isIPv4, ca_isIPv6. by destruct Hf as [[-> ?]|[-> ?]]. }
  rewrite Hg in *. assert (len = 4 \/ len = 16) as Hlen by (unfold len; case_match; lia).
  destruct (Z.leb_spec (len * 8) bits).
  { split_and!; [done..|]. intros i Hi. by destruct (Z.ltb_spec i bits); [|lia]. }
  pose proof (Z.div_mod (len * 8 - bits) 8). pose proof (Z.mod_pos_bound (len * 8 - bits) 8).
  set (q := (len * 8 - bits) / 8) in *. set (r := (len * 8 - bits) mod 8) in *.
  set (s := zwrite (sin_addr a) (len - q) _).
  assert (zlen s = len /\ bytes_ok s /\ forall j, 0 <= j < len -> byte_at s j
            = if len - q <=? j then 0 else byte_at (sin_addr a) j) as (Hl1 & Hs1 & Hb1).
  { unfold s. rewrite zlen_zwrite by (rewrite ?zlen_zeros; lia).
    split_and!; [done|by apply bytes_ok_zwrite, bytes_ok_zeros|]. intros j Hj.
    rewrite byte_at_zwrite, zlen_zeros, byte_at_zeros by (rewrite ?zlen_zeros; lia).
    destruct (Z.leb_spec (len - q) j); [|done]. by destruct (Z.ltb_spec j (len - q + Z.of_nat (Z.to_nat q))); [|lia]. }
  clearbody s. unfold abit. destruct (Z.eqb_spec r 0); cbn [sin_family sin_port sin_addr].
  - split_and!; [|done..|].
    { split; [|done]. cbn. rewrite Hl1. destruct Hf as [[? ?]|[? ?]]; [left|right]; split; done || lia. }
    intros i Hi. pose proof (Z.div_mod i 8). pose proof (Z.mod_pos_bound i 8). rewrite Hb1 by lia.
    destruct (Z.leb_spec (len - q) (i / 8)), (Z.ltb_spec i bits); rewrite ?Z.bits_0; done || lia.
  - split_and!; [|done..|].
    { split; [|apply bytes_ok_zwrite; [done|]; constructor; [by apply land_byte, byte_at_range|constructor]].
      cbn. rewrite zlen_zwrite by (rewrite ?zlen_cons, ?zlen_nil; lia). rewrite Hl1.
      destruct Hf as [[? ?]|[? ?]]; [left|right]; split; done || lia. }
    intros i Hi. pose proof (Z.div_mod i 8). pose proof (Z.mod_pos_bound i 8).
    rewrite byte_at_zwrite, zlen_cons, zlen_nil by (rewrite ?zlen_cons, ?zlen_nil; lia).
    destruct (Z.leb_spec (len - 1 - q) (i / 8)), (Z.ltb_spec (i / 8) (len - 1 - q + (1 + 0))); cbn [andb]; try lia.
    + replace (i / 8 - (len - 1 - q)) with 0 by lia.
      change (byte_at [Z.land (byte_at s (len - 1 - q)) (Z.lnot (Z.shiftl 1 r - 1))] 0)
        with (Z.land (byte_at s (len - 1 - q)) (Z.lnot (Z.shiftl 1 r - 1))).
      rewrite land_lnot_testbit, Hb1 by lia.
      destruct (Z.leb_spec (len - q) (len - 1 - q)); [lia|]. replace (len - 1 - q) with (i / 8) by lia.
      destruct (Z.ltb_spec (i mod 8) (8 - r)), (Z.ltb_spec i bits); done || lia.
    + rewrite Hb1 by lia. destruct (Z.leb_spec (len - q) (i / 8)); [|lia]. rewrite Z.bits_0.
      destruct (Z.ltb_spec i bits); done || lia.
    + rewrite Hb1 by lia. destruct (Z.leb_spec (len - q) (i / 8)); [lia|]. destruct (Z.ltb_spec i bits); done || lia.
Qed.

Lemma ca_ext a b :
  ca_ok a -> ca_ok b -> sin_family a = sin_family b -> sin_port a = sin_port b ->
  (forall i, 0 <= i < ca_getBits a -> abit (sin_addr a) i = abit (sin_addr b) i) -> a = b.
Proof.
  intros [Ha Hba] [Hb Hbb] Hf Hp H. destruct a as [fa pa sa], b as [fb pb sb]. cbn in *. subst fb pb. f_equal.
  apply addr_ext; [destruct Ha as [[? ?]|[? ?]], Hb as [[? ?]|[? ?]]; subst; done || lia|done|done|].
  intros i Hi. apply H. unfold ca_getBits, ca_isIPv4, ca_isIPv6. cbn.
  destruct Ha as [[-> E]|[-> E]]; cbn in *; rewrite E in Hi; lia.
Qed.

(** the two routines that cut an address down to its network agree: clearing
    the bits after the first [bits] in place, and building a netmask of that
    length and taking its network. *)
Theorem truncate_is_masked_network (bits : Z) (a : ComboAddress) :
  ca_ok a -> 0 <= bits <= ca_getBits a ->
  ca_truncate bits (ca_setPort 0 a) = d_network (nm_make a bits).
Proof.
  intros Ha Hb. pose proof (ca_getBits_range a). pose proof Ha as Hp. change (ca_ok (ca_setPort 0 a)) in Hp.
  destruct (truncate_spec bits _ Hp Hb) as (T1 & T2 & T3 & T4).
  destruct (nm_make_spec a bits Ha) as ([N1 N2 N3 N4 N5] & Nb & Nf & Nbits); [lia|].
  assert (ca_getBits (ca_truncate bits (ca_setPort 0 a)) = ca_getBits a) as E.
  { unfold ca_getBits, ca_isIPv4, ca_isIPv6. by rewrite T2. }
  apply ca_ext; [done|done|by rewrite T2, Nf|by rewrite T3, N2|].
  intros i Hi. rewrite E in Hi. rewrite T4, Nbits by done. by replace (Z.min bits (ca_getBits a)) with bits by lia.
Qed.

(** The prefix of an address a netmask stands for. *)
Definition nm_covers (n : Netmask) (a : ComboAddress) : Prop :=
  sin_family (d_network n) = sin_family a
  /\ forall i, 0 <= i < nm_bits n -> abit (sin_addr (d_network n)) i = abit (sin_addr a) i.

Lemma abit_split s t n r :
  0 <= n -> 0 <= r < 8 ->
  (forall i, 0 <= i < 8 * n + r -> abit s i = abit t i)
  <-> (forall j i, 0 <= j < n -> 0 <= i < 8 -> Z.testbit (byte_at s j) (7 - i) = Z.testbit (byte_at t j) (7 - i))
      /\ (forall i, 0 <= i < r -> Z.testbit (byte_at s n) (7 - i) = Z.testbit (byte_at t n) (7 - i)).
Proof.
  intros Hn Hr. split.
  - intros H. split.
    + intros j i Hj Hi. specialize (H (8 * j + i)). unfold abit in H.
      destruct (div8_mod8 (8 * j + i) j i) as [E1 E2]; [lia..|]. rewrite E1, E2 in H. apply H. lia.
    + intros i Hi. specialize (H (8 * n + i)). unfold abit in H.
      destruct (div8_mod8 (8 * n + i) n i) as [E1 E2]; [lia..|]. rewrite E1, E2 in H. apply H. lia.
  - intros [H1 H2] i Hi. unfold abit. pose proof (Z.div_mod i 8). pose proof (Z.mod_pos_bound i 8).
    destruct (decide (i / 8 = n)) as [Heq|]; [rewrite Heq; apply H2; lia|apply H1; lia].
Qed.

Lemma ztake_eq_bytes n s t :
  0 <= n <= zlen s -> zlen s = zlen t -> bytes_ok s -> bytes_ok t ->
  ztake n s = ztake n t
  <-> forall j i, 0 <= j < n -> 0 <= i < 8 -> Z.testbit (byte_at s j) (7 - i) = Z.testbit (byte_at t j) (7 - i).
Proof.
  intros Hn Hl Hs Ht. split.
  - intros E j i Hj Hi. by rewrite <- (byte_at_ztake n s j), E, byte_at_ztake.
  - intros H. apply addr_ext; [rewrite !zlen_ztake by lia; lia|by apply bytes_ok_ztake..|].
    intros i Hi. rewrite zlen_ztake in Hi by lia. unfold abit.
    pose proof (Z.div_mod i 8). pose proof (Z.mod_pos_bound i 8). rewrite !byte_at_ztake by lia. apply H; lia.
Qed.

(** The test of the last, partial byte. *)
Lemma mask_byte_eq x y r :
  is_byte x -> is_byte y -> 0 <= r < 8 -> (forall i, r <= i < 8 -> Z.testbit x (7 - i) = false) ->
  x = Z.land y (mask8 r) <-> forall i, 0 <= i < r -> Z.testbit x (7 - i) = Z.testbit y (7 - i).
Proof.
  intros Hx Hy Hr Hhost. split.
  - intros -> i Hi. rewrite abit_mask_byte by lia. by destruct (Z.ltb_spec i r); [|lia].
  - intros H. apply byte_ext; [done|by apply land_byte|]. intros i Hi. rewrite abit_mask_byte by lia.
    destruct (Z.ltb_spec i r); [apply H; lia|apply Hhost; lia].
Qed.

Lemma nm_match_spec n a : nm_ok n -> ca_ok a -> nm_match n a = true <-> nm_covers n a.
Proof.
  intros [[Hf Hb] Hp Hbits Hmask Hhost] [Hfa Hba]. unfold nm_match, nm_covers.
  destruct (Z.eqb_spec (sin_family (d_network n)) (sin_family a)) as [E|E]; cbn [negb]; [|split; [done|by intros []]].
  unfold ca_getBits, ca_isIPv4, ca_isIPv6 in *.
  destruct Hf as [[Hf Hl]|[Hf Hl]]; rewrite Hf in *; cbn [Z.eqb AF_INET AF_INET6 Pos.eqb] in *.
  - unfold match4. rewrite Z.eqb_eq, Hmask. split.
    + intros H. split; [done|]. intros i Hi. rewrite <- !get32_testbit by (done || lia).
      rewrite <- H, land_mask by lia. by destruct (Z.ltb_spec i (nm_bits n)); [|lia].
    + intros [_ H]. apply word_ext; [by apply land_word, get32_range|by apply get32_range|].
      intros i Hi. rewrite land_mask, !get32_testbit by (done || lia).
      destruct (Z.ltb_spec i (nm_bits n)); [by rewrite H by lia|by rewrite Hhost by lia].
  - assert (zlen (sin_addr a) = 16) as Hla by (destruct Hfa as [[Ha ?]|[Ha ?]]; [rewrite <- E in Ha; discriminate|done]).
    pose proof (Z.div_mod (nm_bits n) 8). pose proof (Z.mod_pos_bound (nm_bits n) 8).
    set (q := nm_bits n / 8) in *. set (r := nm_bits n mod 8) in *.
    pose proof (abit_split (sin_addr (d_network n)) (sin_addr a) q r ltac:(lia) ltac:(lia)) as Hsplit.
    replace (8 * q + r) with (nm_bits n) in Hsplit by lia. rewrite Hsplit.
    rewrite <- (ztake_eq_bytes q) by (done || lia).
    destruct (bool_decide_reflect (ztake q (sin_addr (d_network n)) = ztake q (sin_addr a))); cbn [negb]; [|naive_solver].
    destruct (Z.eqb_spec r 0) as [->|].
    + split; [|done]. intros _. split_and!; [done..|]. intros i Hi. lia.
    + rewrite Z.eqb_eq, mask_byte_eq; [naive_solver|by apply byte_at_range..|lia|].
      intros i Hi. specialize (Hhost (8 * q + i)). unfold abit in Hhost.
      destruct (div8_mod8 (8 * q + i) q i) as [E1 E2]; [lia..|]. rewrite E1, E2 in Hhost. apply Hhost. lia.
Qed.

(** A legal netmask is what its network and length build. *)
Lemma nm_ok_make n : nm_ok n -> nm_make (d_network n) (nm_bits n) = n.
Proof.
  intros [Ha Hp Hb Hm Hh]. pose proof (ca_getBits_range (d_network n)).
  destruct (nm_make_spec (d_network n) (nm_bits n) Ha) as ([N1 N2 N3 N4 N5] & Nb & Nf & Nbits); [lia|].
  replace (Z.min (nm_bits n) (ca_getBits (d_network n))) with (nm_bits n) in * by lia.
  set (m := nm_make (d_network n) (nm_bits n)) in *. clearbody m.
  assert (ca_getBits (d_network m) = ca_getBits (d_network n)) as E
    by (unfold ca_getBits, ca_isIPv4, ca_isIPv6; by rewrite Nf).
  enough (d_network m = d_network n) as Enet.
  { rewrite Nb in N4. rewrite <- Hm in N4. clear -Enet N4 Nb. destruct m, n. cbn in *. congruence. }
  apply ca_ext; [done|done|done|by rewrite N2|]. intros i Hi. rewrite E in Hi. rewrite Nbits by done.
  destruct (Z.ltb_spec i (nm_bits n)); [done|]. by rewrite Hh by lia.
Qed.

(** the binary form of a netmask is read back as it was. *)
Theorem netmask_bytes_round_trip (n : Netmask) :
  nm_ok n -> nm_of_bytes (nm_toByteString n) = Ok n.
Proof.
  intros Hn. pose proof (nm_ok_make n Hn) as Hmake. pose proof (ca_getBits_range (d_network n)).
  destruct Hn as [[Hf Hb] Hp Hbits _ _].
  assert (setBits (d_network n) (nm_bits n) = n) as Hset.
  { unfold nm_make in Hmake. rewrite u8_small in Hmake by lia. rewrite <- Hmake at 3. f_equal.
    destruct (d_network n). cbn in *. unfold ca_setPort. cbn. by subst. }
  unfold nm_of_bytes, nm_toByteString, nm_isIPv4, ca_isIPv4, ca_toByteString. rewrite zat_0.
  destruct (d_network n) as [fam port addr] eqn:En. cbn in Hf, Hb, Hp |- *. subst port.
  destruct Hf as [[-> Hl]|[-> Hl]]; cbn [Z.eqb AF_INET AF_INET6 Pos.eqb of_option mbind result_bind Z.add Pos.add];
    (rewrite zat_cons, zat_app_r by (rewrite ?Hl; lia)); rewrite Hl; cbn [Z.sub Z.add Z.opp Z.pos_sub Pos.pred_double Pos.add zat of_option];
    rewrite zat_0; cbn [of_option mbind result_bind]; unfold makeComboAddressFromRaw, zsub;
    cbn [Z.eqb Pos.eqb];
    (replace (zdrop 1 _) with (addr ++ [nm_bits n]) by done); rewrite ztake_app by done; rewrite Hl; cbn; by rewrite Hset.
Qed.

(** ** The orders of addresses and netmasks

    [ComboAddress::operator<] and [Netmask::operator<] of [pdns/iputils.hh], the keys
    of ordered containers.  What a container takes for the same key is what neither
    precedes: for addresses of a family, the same address and port. *)

(** [sin_addr.s_addr] as the integer a little-endian machine reads. *)
Fixpoint le_word (s : bytes) : Z := match s with [] => 0 | b :: s => b + 256 * le_word s end.

(** [memcmp(a, b) < 0]. *)
Definition memcmp_lt (a b : bytes) : bool := match lex_compare Z.compare a b with Lt => true | _ => false end.

(** [std::tie(family, port) <]. *)
Definition tie_lt (a1 a2 b1 b2 : Z) : bool := (a1 <? b1) || ((a1 =? b1) && (a2 <? b2)).

Definition ca_ltb (a b : ComboAddress) : bool :=
  if sin_family a =? 0 then false
  else if tie_lt (sin_family a) (sin_port a) (sin_family b) (sin_port b) then true
  else if tie_lt (sin_family b) (sin_port b) (sin_family a) (sin_port a) then false
  else if sin_family a =? AF_INET then le_word (sin_addr a) <? le_word (sin_addr b)
  else memcmp_lt (sin_addr a) (sin_addr b).

Definition nm_empty (n : Netmask) : bool := sin_family (d_network n) =? 0.

Definition nm_ltb (a b : Netmask) : bool :=
  if nm_empty a && negb (nm_empty b) then false
  else if negb (nm_empty a) && nm_empty b then true
  else if nm_bits b <? nm_bits a then true
  else if nm_bits a <? nm_bits b then false
  else ca_ltb (d_network a) (d_network b).

(** *** Incomparable is equal *)

(** Neither precedes the other: the equivalence of ordered containers. *)
Definition incomparable {A : Type} (ltb : A -> A -> bool) (a b : A) : bool := negb (ltb a b) && negb (ltb b a).

Lemma memcmp_incomparable a b : incomparable memcmp_lt a b = true <-> a = b.
Proof.
  unfold incomparable, memcmp_lt. rewrite (lex_compare_opp Z.compare a b). rewrite <- (lex_compare_eq_iff Z.compare a b).
  by destruct (lex_compare Z.compare a b).
Qed.

Lemma Z_incomparable a b : incomparable Z.ltb a b = true <-> a = b.
Proof. unfold incomparable. rewrite andb_true_iff, !negb_true_iff, !Z.ltb_ge. lia. Qed.

Lemma le_word_inj a b : bytes_ok a -> bytes_ok b -> zlen a = zlen b -> le_word a = le_word b -> a = b.
Proof.
  revert b. induction a as [|x a IH]; intros b Ha Hb Hl Heq; destruct b as [|y b];
    rewrite ?zlen_nil, ?zlen_cons in Hl; [done|pose proof (zlen_nonneg b); lia|pose proof (zlen_nonneg a); lia|].
  apply Forall_cons in Ha as [Hx Ha]. apply Forall_cons in Hb as [Hy Hb]. cbn [le_word] in Heq. unfold is_byte in Hx, Hy.
  assert (x = y) as -> by lia. f_equal. apply IH; [done..|lia|lia].
Qed.

Lemma ca_incomparable a b : ca_ok a -> ca_ok b -> incomparable ca_ltb a b = true <-> a = b.
Proof.
  intros [Ha Hab] [Hb Hbb]. split; [|intros ->].
  - unfold incomparable, ca_ltb, tie_lt. assert (sin_family a =? 0 = false) as -> by (destruct Ha as [[-> _]|[-> _]]; done).
    assert (sin_family b =? 0 = false) as -> by (destruct Hb as [[-> _]|[-> _]]; done).
    destruct a as [fa pa sa], b as [fb pb sb]. cbn [sin_family sin_port sin_addr] in *.
    destruct (Z.ltb_spec fa fb), (Z.ltb_spec fb fa), (Z.eqb_spec fa fb), (Z.eqb_spec fb fa); try lia; cbn [orb andb negb]; try done.
    subst fb. destruct (Z.ltb_spec pa pb), (Z.ltb_spec pb pa); try lia; cbn [negb andb]; try done. assert (pa = pb) as <- by lia.
    destruct (Z.eqb_spec fa AF_INET) as [->|Hf]; intros Hi.
    + apply (Z_incomparable (le_word sa)) in Hi. f_equal. destruct Ha as [[_ Ha]|[Ha _]], Hb as [[_ Hb]|[Hb _]]; try done.
      apply le_word_inj; [done..|lia|done].
    + apply memcmp_incomparable in Hi. by subst sb.
  - unfold incomparable, ca_ltb, tie_lt, memcmp_lt. rewrite !Z.ltb_irrefl, (cmp_refl (lex_compare Z.compare)).
    rewrite andb_false_r, orb_false_r. by repeat case_match.
Qed.

(** The key of a netmask in an ordered container. *)
Definition nm_key (n : Netmask) : option (ComboAddress * Z) := if nm_empty n then None else Some (d_network n, nm_bits n).

(** A netmask as the constructors make it: empty and without bits, or over an
    address. *)
Definition nm_valid (n : Netmask) : Prop := if nm_empty n then nm_bits n = 0 else ca_ok (d_network n).

#[export] Instance nm_valid_dec n : Decision (nm_valid n).
Proof. unfold nm_valid. destruct (nm_empty n); apply _. Defined.

Lemma nm_incomparable a b : nm_valid a -> nm_valid b -> incomparable nm_ltb a b = true <-> nm_key a = nm_key b.
Proof.
  unfold nm_valid, incomparable, nm_ltb, nm_key. destruct (nm_empty a) eqn:Ha, (nm_empty b) eqn:Hb; cbn [negb andb]; try done.
  - intros -> ->. rewrite !Z.ltb_irrefl. unfold nm_empty in *. unfold ca_ltb. by rewrite Ha, Hb.
  - intros Hoa Hob. pose proof (ca_incomparable _ _ Hoa Hob) as Hca. unfold incomparable in Hca.
    destruct (Z.ltb_spec (nm_bits a) (nm_bits b)), (Z.ltb_spec (nm_bits b) (nm_bits a)); cbn [negb andb]; try lia.
    + split; [done|]. intros [= _ Hbits]. lia.
    + split; [done|]. intros [= _ Hbits]. lia.
    + rewrite Hca. assert (nm_bits a = nm_bits b) as -> by lia. split; [by intros ->|]. by intros [= ->].
Qed.
