(* ===== verification/NetTree.v ===== *)
(** * Trees of network prefixes

    [NetmaskTree] of [pdns/iputils.hh]: a binary trie with path compression,
    keyed by netmasks (access lists, dnsdist's dynamic blocks, RPZ address
    triggers, views).  The template parameter [K] is an interface: a class with
    the member functions the tree calls.

    A [TreeNode*] is a zipper: the node with the chain of its parents, so that
    the code that climbs through [parent] is translated step by step.  The
    pointer [d_left] is kept as the key of the node it points to: no two nodes
    of a tree have the same key. *)

From S2P Require Import Prelude.

#[local] Open Scope Z_scope.

(** ** The interface of keys *)

Class NetKey (K : Type) : Type := {
  key_isIPv4 : K -> bool;
  key_isIPv6 : K -> bool;
  key_getBits : K -> Z;
  key_getFullBits : K -> Z;
  key_getBit : K -> Z -> bool;
  key_getNormalized : K -> result K;
  key_getSuper : K -> Z -> result K;
  key_eqb : K -> K -> bool;
  key_default : K;
}.

(** ** The tree *)

Section tree.
Context {K T : Type} `{NetKey K} `{EqDecision K} (value_type : T).

Record node_data : Type := mkData {
  n_key : K;
  n_value : T;
  n_assigned : bool;
  n_bits : Z;
}.

Inductive TreeNode : Type :=
| Null
| Node (d : node_data) (left right : TreeNode).

(** The parents of a node: it is the left child of one, or the right child. *)
Inductive Parent : Type :=
| NoParent
| LeftOf (d : node_data) (right : TreeNode) (parent : Parent)
| RightOf (d : node_data) (left : TreeNode) (parent : Parent).

Record Loc : Type := mkLoc {
  l_parent : Parent;
  l_data : node_data;
  l_left : TreeNode;
  l_right : TreeNode;
}.

Definition is_null (t : TreeNode) : bool := match t with Null => true | Node _ _ _ => false end.

Definition l_node (x : Loc) : TreeNode := Node (l_data x) (l_left x) (l_right x).

Definition loc_of (p : Parent) (t : TreeNode) : option Loc :=
  match t with Null => None | Node d l r => Some (mkLoc p d l r) end.

Definition down_left (x : Loc) : option Loc := loc_of (LeftOf (l_data x) (l_right x) (l_parent x)) (l_left x).
Definition down_right (x : Loc) : option Loc := loc_of (RightOf (l_data x) (l_left x) (l_parent x)) (l_right x).

(** The root of the tree a node hangs in. *)
Fixpoint plug (p : Parent) (t : TreeNode) : TreeNode :=
  match p with
  | NoParent => t
  | LeftOf d r up => plug up (Node d t r)
  | RightOf d l up => plug up (Node d l t)
  end.

Definition root_of (x : Loc) : TreeNode := plug (l_parent x) (l_node x).

Definition with_data (f : node_data -> node_data) (x : Loc) : Loc :=
  mkLoc (l_parent x) (f (l_data x)) (l_left x) (l_right x).

Definition put_bits (b : Z) (d : node_data) : node_data := mkData (n_key d) (n_value d) (n_assigned d) b.
Definition set_assigned (a : bool) (d : node_data) : node_data := mkData (n_key d) (n_value d) a (n_bits d).
Definition set_value (v : T) (d : node_data) : node_data := mkData (n_key d) v (n_assigned d) (n_bits d).

(** [TreeNode(const key_type&)]. *)
Definition make_data (key : K) : result node_data :=
  k ← key_getNormalized key;
  Ok (mkData k value_type false (key_getFullBits key)).

Definition make_left (key : K) (x : Loc) : result Loc :=
  d ← make_data key;
  let d' := put_bits (key_getBits (n_key (l_data x))) (l_data x) in
  Ok (mkLoc (LeftOf d' (l_right x) (l_parent x)) d Null Null).

Definition make_right (key : K) (x : Loc) : result Loc :=
  d ← make_data key;
  let d' := put_bits (key_getBits (n_key (l_data x))) (l_data x) in
  Ok (mkLoc (RightOf d' (l_left x) (l_parent x)) d Null Null).

Definition has_parent (x : Loc) : bool := match l_parent x with NoParent => false | _ => true end.

Definition split (key : K) (bits : Z) (x : Loc) : result Loc :=
  _ ← throw_if (negb (has_parent x))
        (logic_error "NetmaskTree::TreeNode::split(): must not be called on root node");
  d ← make_data key;
  let d := put_bits bits d in
  Ok (if key_getBit (n_key (l_data x)) (-1 - bits)
      then mkLoc (l_parent x) d Null (l_node x)
      else mkLoc (l_parent x) d (l_node x) Null).

Definition fork (key : K) (bits : Z) (x : Loc) : result Loc :=
  _ ← throw_if (negb (has_parent x))
        (logic_error "NetmaskTree::TreeNode::fork(): must not be called on root node");
  super ← key_getSuper (n_key (l_data x)) bits;
  branch ← make_data super;
  let branch := put_bits bits branch in
  d ← make_data key;
  Ok (if key_getBit (n_key (l_data x)) (-1 - bits)
      then mkLoc (LeftOf branch (l_node x) (l_parent x)) d Null Null
      else mkLoc (RightOf branch (l_node x) (l_parent x)) d Null Null).

(** ** Traversal *)

(** [traverse_l] of a node given by its data and its two children. *)
Fixpoint traverse_l (p : Parent) (d : node_data) (l r : TreeNode) : Loc :=
  match l with
  | Null => mkLoc p d l r
  | Node d' l' r' => traverse_l (LeftOf d r p) d' l' r'
  end.

(** The climb of [traverse_lnr]: [t] is the child it comes from. *)
Fixpoint ascend (p : Parent) (t : TreeNode) : option Loc :=
  match p with
  | NoParent => None
  | LeftOf d r up => Some (mkLoc up d t r)
  | RightOf d l up => ascend up (Node d l t)
  end.

Definition traverse_lnr (x : Loc) : option Loc :=
  match l_right x with
  | Node d l r => Some (traverse_l (RightOf (l_data x) (l_left x) (l_parent x)) d l r)
  | Null => ascend (l_parent x) (l_node x)
  end.

Fixpoint traverse_assigned_loop (fuel : nat) (o : option Loc) : option Loc :=
  match fuel, o with
  | S fuel', Some x => if n_assigned (l_data x) then Some x else traverse_assigned_loop fuel' (traverse_lnr x)
  | _, o => o
  end.

Fixpoint node_count (t : TreeNode) : nat :=
  match t with Null => 0 | Node _ l r => S (node_count l + node_count r) end.

(** The fuel is the number of nodes of the tree. *)
Definition traverse_lnr_assigned (x : Loc) : option Loc :=
  traverse_assigned_loop (node_count (root_of x)) (traverse_lnr x).

(** [cleanup_tree]: the node is reset from its parent when it has no children
    and is not assigned, then the parent is looked at.  The result is the root
    of the tree. *)
Fixpoint cleanup_tree (p : Parent) (d : node_data) (l r : TreeNode) : TreeNode :=
  if negb (negb (is_null l) || negb (is_null r) || n_assigned d) then
    match p with
    | NoParent => Node d l r
    | LeftOf d' r' up => cleanup_tree up d' Null r'
    | RightOf d' l' up => cleanup_tree up d' l' Null
    end
  else plug p (Node d l r).

(** ** The container *)

Record NetmaskTree : Type := mkNetmaskTree {
  d_root : TreeNode;
  d_left : option K;
  d_size : Z;
}.

Definition root_data : node_data := mkData key_default value_type false 0.

(** [NetmaskTree()] and [clear()]. *)
Definition tree_empty : NetmaskTree := mkNetmaskTree (Node root_data Null Null) None 0.

Definition root_loc (t : TreeNode) : Loc :=
  match t with Null => mkLoc NoParent root_data Null Null | Node d l r => mkLoc NoParent d l r end.

Fixpoint insert_loop (fuel : nat) (key : K) (bits : Z) (x : Loc) (is_left : bool) : result (Loc * bool) :=
  match fuel with
  | O => Ok (x, is_left)
  | S fuel' =>
      let vall := key_getBit key (-1 - bits) in
      let node := l_data x in
      if n_bits node <=? bits then
        if vall then
          let is_left := if negb (is_null (l_left x)) || n_assigned node then false else is_left in
          match down_right x with
          | None => y ← make_right key x; Ok (y, is_left)
          | Some y => insert_loop fuel' key (bits + 1) y is_left
          end
        else
          match down_left x with
          | None => y ← make_left key x; Ok (y, is_left)
          | Some y => insert_loop fuel' key (bits + 1) y is_left
          end
      else if key_getBits (n_key node) <=? bits then
        if vall then
          let is_left := if n_assigned node then false else is_left in
          y ← make_right key x; Ok (y, is_left)
        else
          y ← make_left key x; Ok (y, is_left)
      else
        let valr := key_getBit (n_key node) (-1 - bits) in
        if negb (eqb vall valr) then
          let is_left := if vall then false else is_left in
          y ← fork key bits x; Ok (y, is_left)
        else insert_loop fuel' key (bits + 1) x is_left
  end.

(** The end of [insert], from the node the loop stopped at. *)
Definition insert_finish (key : K) (t : NetmaskTree) (x : Loc) (is_left : bool) : result (NetmaskTree * Loc) :=
  x ← (if key_getBits key <? key_getBits (n_key (l_data x)) then split key (key_getBits key) x else Ok x);
  let is_left := if negb (is_null (l_left x)) then false else is_left in
  if negb (n_assigned (l_data x)) then
    let y := with_data (set_assigned true) x in
    Ok (mkNetmaskTree (root_of y) (if is_left then Some (n_key (l_data x)) else d_left t) (d_size t + 1), y)
  else
    _ ← throw_if (is_left && negb (bool_decide (d_left t = Some (n_key (l_data x)))))
          (logic_error "NetmaskTree::insert(): lost track of left-most node in tree");
    Ok (mkNetmaskTree (root_of x) (d_left t) (d_size t), x).

(** [insert(const key_type&)]: the tree and the node of the key. *)
Definition tree_insert (key : K) (t : NetmaskTree) : result (NetmaskTree * Loc) :=
  let root := root_loc (d_root t) in
  let first (p : Parent) (moves : bool) : result (NetmaskTree * Loc) :=
    d ← make_data key;
    let x := mkLoc p (set_assigned true d) Null Null in
    Ok (mkNetmaskTree (root_of x) (if moves then Some (n_key d) else d_left t) (d_size t + 1), x) in
  let loop (x : Loc) (is_left : bool) : result (NetmaskTree * Loc) :=
    '(x, is_left) ← insert_loop (Z.to_nat (key_getBits key)) key 0 x is_left;
    insert_finish key t x is_left in
  if key_isIPv4 key then
    match down_left root with
    | None => first (LeftOf (l_data root) (l_right root) NoParent) true
    | Some x => loop x true
    end
  else if key_isIPv6 key then
    match down_right root with
    | None => first (RightOf (l_data root) (l_left root) NoParent) (is_null (l_left root))
    | Some x => loop x (is_null (l_left root))
    end
  else Throw (NetmaskException "invalid address family").

(** [insert_or_assign]: [insert(mask).second = value]. *)
Definition insert_or_assign (key : K) (value : T) (t : NetmaskTree) : result NetmaskTree :=
  '(t, x) ← tree_insert key t;
  Ok (mkNetmaskTree (root_of (with_data (set_value value) x)) (d_left t) (d_size t)).

(** ** Lookup *)

Definition tree_is_empty (t : NetmaskTree) : bool := d_size t =? 0.

Definition entry_at (bits : Z) (d : node_data) (ret : option (K * T)) : option (K * T) :=
  if n_assigned d && (bits =? key_getBits (n_key d)) then Some (n_key d, n_value d) else ret.

Fixpoint lookupImpl_loop (fuel : nat) (value : K) (bits : Z) (d : node_data) (l r : TreeNode)
    (ret : option (K * T)) : option (K * T) :=
  match fuel with
  | O => entry_at bits d ret
  | S fuel' =>
      let vall := key_getBit value (-1 - bits) in
      if n_bits d <=? bits then
        let ret := entry_at bits d ret in
        match (if vall then r else l) with
        | Null => entry_at bits d ret
        | Node d' l' r' => lookupImpl_loop fuel' value (bits + 1) d' l' r' ret
        end
      else if key_getBits (n_key d) <=? bits then entry_at bits d ret
      else if negb (eqb vall (key_getBit (n_key d) (-1 - bits))) then entry_at bits d ret
      else lookupImpl_loop fuel' value (bits + 1) d l r ret
  end.

Definition lookupImpl (value : K) (max_bits : Z) (t : NetmaskTree) : result (option (K * T)) :=
  let root := root_loc (d_root t) in
  let go (n : TreeNode) :=
    match n with Null => None | Node d l r => lookupImpl_loop (Z.to_nat max_bits) value 0 d l r None end in
  if key_isIPv4 value then Ok (go (l_left root))
  else if key_isIPv6 value then Ok (go (l_right root))
  else Throw (NetmaskException "invalid address family").

(** [lookup(const key_type&)]. *)
Definition tree_lookup_key (value : K) (t : NetmaskTree) : result (option (K * T)) :=
  if tree_is_empty t then Ok None else lookupImpl value (key_getBits value) t.

Definition has_key (key : K) (t : NetmaskTree) : result bool :=
  o ← tree_lookup_key key t;
  Ok (match o with Some (k, _) => key_eqb k key | None => false end).

(** ** Removal *)

(** The loop of [erase]: the node it ends at, if any. *)
Fixpoint erase_loop (fuel : nat) (key : K) (bits : Z) (o : option Loc) : option Loc :=
  match fuel, o with
  | S fuel', Some x =>
      let vall := key_getBit key (-1 - bits) in
      let node := l_data x in
      if n_bits node <=? bits then
        erase_loop fuel' key (bits + 1) (if vall then down_right x else down_left x)
      else if key_getBits (n_key node) <=? bits then
        (if negb (key_getBits key =? key_getBits (n_key node)) then None else Some x)
      else if negb (eqb vall (key_getBit (n_key node) (-1 - bits))) then None
      else erase_loop fuel' key (bits + 1) (Some x)
  | _, o => o
  end.

Definition tree_erase (key : K) (t : NetmaskTree) : result NetmaskTree :=
  let root := root_loc (d_root t) in
  start ← (if key_isIPv4 key then Ok (down_left root)
           else if key_isIPv6 key then Ok (down_right root)
           else Throw (NetmaskException "invalid address family"));
  match erase_loop (Z.to_nat (key_getBits key)) key 0 start with
  | None => Ok t
  | Some x =>
      _ ← throw_if (d_size t =? 0) (logic_error "NetmaskTree::erase(): size of tree is zero before erase");
      let y := with_data (fun d => set_value value_type (set_assigned false d)) x in
      let left := if bool_decide (d_left t = Some (n_key (l_data x)))
                  then (fun z => n_key (l_data z)) <$> traverse_lnr_assigned y
                  else d_left t in
      Ok (mkNetmaskTree (cleanup_tree (l_parent y) (l_data y) (l_left y) (l_right y)) left (d_size t - 1))
  end.

(** ** Iteration *)

(** The node [d_left] points to. *)
Fixpoint find_node (k : K) (p : Parent) (t : TreeNode) : option Loc :=
  match t with
  | Null => None
  | Node d l r =>
      match find_node k (LeftOf d r p) l with
      | Some x => Some x
      | None => if bool_decide (n_key d = k) then Some (mkLoc p d l r)
                else find_node k (RightOf d l p) r
      end
  end.

(** The entries from a node on, by [operator++]. *)
Fixpoint iterate (fuel : nat) (o : option Loc) : list (K * T) :=
  match fuel, o with
  | S fuel', Some x => (n_key (l_data x), n_value (l_data x)) :: iterate fuel' (traverse_lnr_assigned x)
  | _, _ => []
  end.

(** [for (auto& entry : tree)]. *)
Definition tree_to_list (t : NetmaskTree) : list (K * T) :=
  iterate (node_count (d_root t)) (k ← d_left t; find_node k NoParent (d_root t)).

(** The loop of [copyTree]: every assigned node of the other tree is inserted. *)
Fixpoint copy_loop (fuel : nat) (o : option Loc) (t : NetmaskTree) : result NetmaskTree :=
  match fuel, o with
  | S fuel', Some x =>
      t ← (if n_assigned (l_data x) then insert_or_assign (n_key (l_data x)) (n_value (l_data x)) t else Ok t);
      copy_loop fuel' (traverse_lnr x) t
  | _, _ => Ok t
  end.

(** The copy constructor and [operator=]. *)
Definition copyTree (rhs : NetmaskTree) : result NetmaskTree :=
  match d_root rhs with
  | Null => Ok tree_empty
  | Node d l r => copy_loop (node_count (d_root rhs)) (Some (traverse_l NoParent d l r)) tree_empty
  end.
(** [clear] and [swap]. *)
Definition tree_clear (t : NetmaskTree) : NetmaskTree := tree_empty.

Definition tree_swap (t rhs : NetmaskTree) : NetmaskTree * NetmaskTree := (rhs, t).
End tree.

Arguments node_data : clear implicits.
Arguments TreeNode : clear implicits.
Arguments Parent : clear implicits.
Arguments Loc : clear implicits.
Arguments NetmaskTree : clear implicits.
