(* ===== verification/NetTreeFacts.v ===== *)
(** * Trees of network prefixes: invariant and refinement

    The trie of [NetTree] against the finite map of the prefixes stored in it,
    for any type of keys that keeps the laws of the interface. *)

From stdpp Require Import gmap.
From S2P Require Import Prelude NetTree.

#[local] Open Scope Z_scope.

(** ** The laws of keys *)

(** The bits of a key, from the most significant one. *)
Definition path {K} `{NetKey K} (k : K) : list bool :=
  (fun i => key_getBit k (-1 - Z.of_nat i)) <$> seq 0 (Z.to_nat (key_getBits k)).

Class NetKeyLaws (K : Type) `{NetKey K} : Type := {
  key_ok : K -> Prop;
  key_ok_family k : key_ok k -> key_isIPv6 k = negb (key_isIPv4 k);
  key_ok_bits k : key_ok k -> 0 <= key_getBits k <= key_getFullBits k;
  key_ok_normalized k : key_ok k -> key_getNormalized k = Ok k;
  key_ok_super k bits :
    key_ok k -> 0 <= bits <= key_getBits k ->
    exists k', key_getSuper k bits = Ok k' /\ key_ok k' /\ key_isIPv4 k' = key_isIPv4 k
      /\ path k' = take (Z.to_nat bits) (path k);
  key_ok_ext k k' : key_ok k -> key_ok k' -> key_isIPv4 k = key_isIPv4 k' -> path k = path k' -> k = k';
  key_ok_eqb k k' : key_ok k -> key_ok k' -> key_eqb k k' = true <-> k = k';
  key_default_bad : ~ key_ok key_default;
}.

(** ** The nodes of a tree in order *)

Section nodes.
Context {K T : Type}.
Implicit Types t l r : TreeNode K T.
Implicit Types p : Parent K T.

Fixpoint nodes t : list (node_data K T) :=
  match t with Null => [] | Node d l r => nodes l ++ d :: nodes r end.

Fixpoint nodes_before p : list (node_data K T) :=
  match p with
  | NoParent => []
  | LeftOf _ _ up => nodes_before up
  | RightOf d l up => nodes_before up ++ nodes l ++ [d]
  end.

Fixpoint nodes_after p : list (node_data K T) :=
  match p with
  | NoParent => []
  | LeftOf d r up => d :: nodes r ++ nodes_after up
  | RightOf _ _ up => nodes_after up
  end.

(** The entry of a node, when it is assigned. *)
Definition entry (d : node_data K T) : option (K * T) :=
  if n_assigned d then Some (n_key d, n_value d) else None.

Definition entries t : list (K * T) := omap entry (nodes t).

Lemma nodes_plug p t : nodes (plug p t) = nodes_before p ++ nodes t ++ nodes_after p.
Proof.
  revert t. induction p as [|d r p IH|d l p IH]; intros t; cbn; [by rewrite app_nil_r|..]; rewrite IH; cbn;
    by rewrite <- !app_assoc.
Qed.

Lemma entries_Node d l r : entries (Node d l r) = entries l ++ option_list (entry d) ++ entries r.
Proof. unfold entries. cbn. rewrite omap_app. cbn. by destruct (entry d). Qed.

Lemma entries_plug p t : entries (plug p t) = omap entry (nodes_before p) ++ entries t ++ omap entry (nodes_after p).
Proof. unfold entries. by rewrite nodes_plug, !omap_app. Qed.

Lemma node_count_nodes t : node_count t = length (nodes t).
Proof. induction t as [|d l IHl r IHr]; cbn; [done|]. rewrite length_app. cbn. lia. Qed.

(** ** Traversal *)

Lemma traverse_l_spec p d l r :
  let x := traverse_l p d l r in
  nodes l ++ d :: nodes r ++ nodes_after p = l_data x :: nodes (l_right x) ++ nodes_after (l_parent x)
  /\ root_of x = plug p (Node d l r).
Proof.
  revert p d r. induction l as [|d' l' IHl r' _]; intros p d r; cbn; [done|].
  destruct (IHl (LeftOf d r p) d' r') as (E & Er). split; [|done]. cbn in E. by rewrite <- app_assoc.
Qed.

Lemma ascend_spec p t :
  match ascend p t with
  | None => nodes_after p = []
  | Some x => nodes_after p = l_data x :: nodes (l_right x) ++ nodes_after (l_parent x)
              /\ root_of x = plug p t
  end.
Proof. revert t. induction p as [|d r p IH|d l p IH]; intros t; cbn; [done|done|apply IH]. Qed.

Definition following (x : Loc K T) : list (node_data K T) := nodes (l_right x) ++ nodes_after (l_parent x).

Lemma traverse_lnr_spec x :
  match traverse_lnr x with
  | None => following x = []
  | Some y => following x = l_data y :: following y /\ root_of y = root_of x
  end.
Proof.
  unfold traverse_lnr, following. destruct x as [p d l r]. cbn. destruct r as [|d' l' r'].
  - cbn. pose proof (ascend_spec p (Node d l Null)) as Ha. by destruct (ascend _ _).
  - destruct (traverse_l_spec (RightOf d l p) d' l' r') as (E & Er). cbn in *. split; [|done].
    by rewrite <- app_assoc.
Qed.

(** [z] is the first assigned node of [ds]. *)
Definition first_assigned (ds : list (node_data K T)) (z : Loc K T) : Prop :=
  exists skipped, ds = skipped ++ l_data z :: following z /\ omap entry skipped = []
    /\ n_assigned (l_data z) = true.

Lemma traverse_assigned_loop_spec fuel o ds :
  (match o with None => ds = [] | Some y => ds = l_data y :: following y end) ->
  (length ds <= fuel)%nat ->
  match traverse_assigned_loop fuel o with
  | None => omap entry ds = []
  | Some z => first_assigned ds z /\ forall y, o = Some y -> root_of z = root_of y
  end.
Proof.
  revert o ds. induction fuel as [|fuel IH]; intros o ds Ho Hlen.
  { destruct o as [y|]; [subst ds; cbn in Hlen; lia|]. by subst. }
  destruct o as [y|]; cbn [traverse_assigned_loop]; [|by subst]. subst ds.
  destruct (n_assigned (l_data y)) eqn:Ha.
  { split; [by exists []|by intros ? [= ->]]. }
  pose proof (traverse_lnr_spec y) as Hl. specialize (IH (traverse_lnr y) (following y)). cbn in Hlen.
  assert (entry (l_data y) = None) as He by (unfold entry; by rewrite Ha).
  destruct (traverse_lnr y) as [z|].
  - destruct Hl as [Hf Hr]. specialize (IH Hf ltac:(lia)). destruct (traverse_assigned_loop fuel (Some z)).
    + destruct IH as [(sk & E1 & E2 & E3) IH2]. split.
      * exists (l_data y :: sk). rewrite E1. split_and!; [done| |done]. cbn. by rewrite He.
      * intros ? [= <-]. by rewrite (IH2 z eq_refl).
    + cbn. by rewrite He.
  - specialize (IH Hl ltac:(lia)). rewrite Hl in *. destruct (traverse_assigned_loop fuel None).
    + destruct IH as [(sk & E1 & _) _]. by destruct sk.
    + cbn. by rewrite He.
Qed.

Lemma following_count x : (S (length (following x)) <= node_count (root_of x))%nat.
Proof.
  rewrite node_count_nodes. unfold root_of, l_node. rewrite nodes_plug. cbn. unfold following.
  rewrite !length_app. cbn. rewrite ?length_app. lia.
Qed.

Lemma traverse_lnr_assigned_spec x :
  match traverse_lnr_assigned x with
  | None => omap entry (following x) = []
  | Some z => first_assigned (following x) z /\ root_of z = root_of x
  end.
Proof.
  unfold traverse_lnr_assigned. pose proof (traverse_lnr_spec x) as Hl. pose proof (following_count x).
  pose proof (traverse_assigned_loop_spec (node_count (root_of x)) (traverse_lnr x) (following x)) as Hs.
  destruct (traverse_lnr x) as [y|].
  - destruct Hl as [Hf Hr]. specialize (Hs Hf ltac:(lia)).
    destruct (traverse_assigned_loop _ _); [|done]. destruct Hs as [H1 H2]. split; [done|]. by rewrite (H2 y eq_refl).
  - specialize (Hs Hl ltac:(lia)). destruct (traverse_assigned_loop _ _); [|done].
    destruct Hs as [(sk & E & _) _]. rewrite Hl in E. by destruct sk.
Qed.

Lemma first_assigned_entries ds z :
  first_assigned ds z -> omap entry ds = (n_key (l_data z), n_value (l_data z)) :: omap entry (following z).
Proof.
  intros (sk & -> & Hs & Ha). rewrite omap_app, Hs. cbn. unfold entry at 1. by rewrite Ha.
Qed.

Lemma iterate_spec fuel x :
  (S (length (following x)) <= fuel)%nat ->
  iterate fuel (Some x) = (n_key (l_data x), n_value (l_data x)) :: omap entry (following x).
Proof.
  revert x. induction fuel as [|fuel IH]; intros x Hf; [lia|]. cbn [iterate]. f_equal.
  pose proof (traverse_lnr_assigned_spec x) as Hs. destruct (traverse_lnr_assigned x) as [z|].
  - destruct Hs as [Hz _]. rewrite (first_assigned_entries _ _ Hz). apply IH.
    destruct Hz as (sk & E & _). rewrite E, length_app in Hf. cbn in Hf. lia.
  - rewrite Hs. by destruct fuel.
Qed.
End nodes.

(** ** Well-formed trees *)

Section wf.
Context {K T : Type} `{NetKeyLaws K} `{!EqDecision K} `{!Countable K} (value_type : T).
Implicit Types t l r : TreeNode K T.
Implicit Types p : Parent K T.
Implicit Types d : node_data K T.

Definition dpath d : list bool := path (n_key d).

(** The data of a node below the prefix [pre], of family [f]; [leaf] tells that
    it has no children. *)
Record data_ok (f : bool) (pre : list bool) (leaf : bool) d : Prop := {
  dok_key : key_ok (n_key d);
  dok_family : key_isIPv4 (n_key d) = f;
  dok_prefix : pre `prefix_of` dpath d;
  dok_bits : n_bits d = key_getBits (n_key d)
             \/ leaf = true /\ n_bits d = key_getFullBits (n_key d);
}.

Definition is_leaf l r : bool := is_null l && is_null r.

Fixpoint wf (f : bool) (pre : list bool) t : Prop :=
  match t with
  | Null => True
  | Node d l r =>
      data_ok f pre (is_leaf l r) d /\ (is_leaf l r = true -> n_assigned d = true)
      /\ wf f (dpath d ++ [false]) l /\ wf f (dpath d ++ [true]) r
  end.

(** The parents of a place where a tree below the prefix [pre] may hang. *)
Inductive parents_ok : bool -> list bool -> Parent K T -> Prop :=
| po_root4 d r :
    n_assigned d = false -> n_key d = key_default -> wf false [] r -> parents_ok true [] (LeftOf d r NoParent)
| po_root6 d l :
    n_assigned d = false -> n_key d = key_default -> wf true [] l -> parents_ok false [] (RightOf d l NoParent)
| po_left f pre d r up :
    data_ok f pre false d -> wf f (dpath d ++ [true]) r -> parents_ok f pre up ->
    parents_ok f (dpath d ++ [false]) (LeftOf d r up)
| po_right f pre d l up :
    data_ok f pre false d -> wf f (dpath d ++ [false]) l -> parents_ok f pre up ->
    parents_ok f (dpath d ++ [true]) (RightOf d l up).

Definition root_ok t : Prop :=
  match t with
  | Null => False
  | Node d l r => n_assigned d = false /\ n_key d = key_default /\ wf true [] l /\ wf false [] r
  end.

Lemma length_path k : length (path k) = Z.to_nat (key_getBits k).
Proof. unfold path. by rewrite length_fmap, length_seq. Qed.

Lemma zlen_path k : key_ok k -> Z.of_nat (length (path k)) = key_getBits k.
Proof. intros Hk. rewrite length_path. pose proof (key_ok_bits k Hk). lia. Qed.

Lemma path_lookup k i :
  0 <= i < key_getBits k -> path k !! Z.to_nat i = Some (key_getBit k (-1 - i)).
Proof.
  intros Hi. unfold path. rewrite list_lookup_fmap, lookup_seq_lt by lia. cbn. do 2 f_equal. lia.
Qed.

Lemma take_S_path k i :
  0 <= i < key_getBits k -> take (Z.to_nat (i + 1)) (path k) = take (Z.to_nat i) (path k) ++ [key_getBit k (-1 - i)].
Proof.
  intros Hi. replace (Z.to_nat (i + 1)) with (S (Z.to_nat i)) by lia.
  by apply take_S_r, path_lookup.
Qed.

Lemma wf_pre f pre pre' d l r :
  wf f pre (Node d l r) -> pre' `prefix_of` dpath d -> wf f pre' (Node d l r).
Proof. cbn. intros ([H1 H2 H3 H4] & Hrest) Hp. split; [by split|done]. Qed.

Lemma plug_ok f pre p t : parents_ok f pre p -> wf f pre t -> t <> Null -> root_ok (plug p t).
Proof.
  intros Hp. revert t. induction Hp as [d r|d l|f pre d r up Hd Hr Hup IH|f pre d l up Hd Hl Hup IH]; intros t Ht Hn.
  - done.
  - done.
  - cbn [plug]. apply IH; [|done]. cbn [wf]. assert (is_leaf t r = false) as -> by by destruct t. by split.
  - cbn [plug]. apply IH; [|done]. cbn [wf].
    assert (is_leaf l t = false) as -> by (unfold is_leaf; destruct t; [done|apply andb_false_r]). by split.
Qed.

Lemma make_data_ok k : key_ok k -> make_data value_type k = Ok (mkData k value_type false (key_getFullBits k)).
Proof. intros Hk. unfold make_data. by rewrite (key_ok_normalized k Hk). Qed.

(** [x] is the place of [key]: below parents that agree with it, at a node whose
    key extends it, and which may be assigned. *)
Record place_of (f : bool) (key : K) (x : Loc K T) (pre : list bool) : Prop := {
  pl_parents : parents_ok f pre (l_parent x);
  pl_prefix : pre `prefix_of` path key;
  pl_wf : wf f pre (l_node (with_data (set_assigned true) x));
  pl_below : path key `prefix_of` dpath (l_data x);
  pl_old : wf f pre (l_node x) \/ n_key (l_data x) = key;
}.

Lemma new_leaf_place f key pre p :
  key_ok key -> key_isIPv4 key = f -> parents_ok f pre p -> pre `prefix_of` path key ->
  place_of f key (mkLoc p (mkData key value_type false (key_getFullBits key)) Null Null) pre.
Proof.
  intros Hk Hf Hp Hpre. split; [done|done| |done|by right].
  cbn. split_and!; [|done..]. split; [done..|]. by right.
Qed.

Lemma entries_unassigned_leaf p d :
  n_assigned d = false -> entries (root_of (mkLoc p d Null Null)) = entries (plug p Null).
Proof.
  intros Hd. unfold root_of, l_node. rewrite !entries_plug, entries_Node. cbn. unfold entry. by rewrite Hd.
Qed.

(** No entry comes before a place. *)
Definition leftmost p : bool := bool_decide (omap entry (nodes_before p) = []).

Lemma leftmost_LeftOf d r p : leftmost (LeftOf d r p) = leftmost p.
Proof. done. Qed.

Lemma wf_entries_nil f pre t : wf f pre t -> entries t = [] -> t = Null.
Proof.
  revert pre. induction t as [|d l IHl r IHr]; intros pre; [done|]. rewrite entries_Node.
  intros (Hd & Hleaf & Hl & Hr) [El [Ed Er]%app_nil]%app_nil.
  rewrite (IHl _ Hl El), (IHr _ Hr Er) in Hleaf. unfold entry in Ed. by rewrite Hleaf in Ed.
Qed.

Lemma leftmost_RightOf f pre d l p :
  wf f pre l -> leftmost (RightOf d l p) = if negb (is_null l) || n_assigned d then false else leftmost p.
Proof.
  intros Hl. unfold leftmost. cbn. rewrite !omap_app. cbn.
  destruct (bool_decide_reflect (omap entry (nodes_before p) = [])) as [->|Hp].
  2: { rewrite bool_decide_false; [by case_match|]. by intros [? _]%app_nil. }
  cbn. destruct l as [|d' l' r']; cbn [is_null negb orb].
  - cbn. unfold entry. destruct (n_assigned d); [by apply bool_decide_false|by apply bool_decide_true].
  - apply bool_decide_false. intros [E _]%app_nil. by apply (wf_entries_nil _ _ _ Hl) in E.
Qed.

(** The state of the loops: a node, reached with the first [bits] bits of the key. *)
Record agrees (f : bool) (key : K) (bits : Z) (pre : list bool) (x : Loc K T) : Prop := {
  ag_key : key_ok key;
  ag_family : key_isIPv4 key = f;
  ag_bits : 0 <= bits <= key_getBits key;
  ag_parents : parents_ok f pre (l_parent x);
  ag_wf : wf f pre (l_node x);
  ag_prefix : pre `prefix_of` path key;
  ag_len : bits <= key_getBits (n_key (l_data x));
  ag_take : take (Z.to_nat bits) (path key) = take (Z.to_nat bits) (dpath (l_data x));
}.

Lemma take_all_path k bits : key_ok k -> key_getBits k <= bits -> take (Z.to_nat bits) (path k) = path k.
Proof. intros Hk Hb. apply take_ge. rewrite length_path. lia. Qed.

(** At the end of a node the next bit of the key tells the child. *)
Lemma agrees_child_prefix f key bits pre x :
  agrees f key bits pre x -> bits < key_getBits key -> key_getBits (n_key (l_data x)) <= bits ->
  take (Z.to_nat (bits + 1)) (path key) = dpath (l_data x) ++ [key_getBit key (-1 - bits)].
Proof.
  intros [Hk Hf Hb Hp Hw Hpre Hlen Ht] Hlt Hge. rewrite take_S_path by lia. f_equal. rewrite Ht.
  apply take_all_path; [apply Hw|done].
Qed.

Lemma agrees_child f key bits pre x y :
  agrees f key bits pre x -> bits < key_getBits key -> n_bits (l_data x) <= bits ->
  (if key_getBit key (-1 - bits) then down_right x else down_left x) = Some y ->
  agrees f key (bits + 1) (dpath (l_data x) ++ [key_getBit key (-1 - bits)]) y.
Proof.
  intros Hag Hlt Hn Hy. pose proof Hag as [Hk Hf Hb Hp (Hd & Hleaf & Hl & Hr) Hpre Hlen Ht].
  assert (n_bits (l_data x) = key_getBits (n_key (l_data x)) /\ is_leaf (l_left x) (l_right x) = false) as [Hnb Hnl].
  { assert (is_leaf (l_left x) (l_right x) = false) as E.
    { unfold is_leaf. destruct x as [p d l r]. unfold down_left, down_right in Hy. cbn in *.
      destruct (key_getBit _ _), l, r; try done; cbn in *; by rewrite ?andb_false_r. }
    destruct Hd as [_ _ _ [?|[E' _]]]; [done|]. by rewrite E in E'. }
  rewrite Hnl in Hd.
  pose proof (agrees_child_prefix _ _ _ _ _ Hag Hlt ltac:(lia)) as Hchild.
  assert (dpath (l_data x) ++ [key_getBit key (-1 - bits)] `prefix_of` path key) as Hpre'.
  { rewrite <- Hchild. apply prefix_take. }
  destruct x as [p d l r]. cbn in *. unfold down_left, down_right, loc_of in Hy. cbn in Hy.
  destruct (key_getBit key (-1 - bits)) eqn:Eb.
  - destruct r as [|d' l' r']; [done|]. injection Hy as <-. cbn in Hr. destruct Hr as (Hd' & Hrest).
    pose proof Hd' as [D1 D2 [rest D3] D4].
    assert (bits + 1 <= key_getBits (n_key d')).
    { rewrite <- (zlen_path (n_key d')) by done. unfold dpath in D3 at 1. rewrite D3, !length_app. cbn.
      unfold dpath. rewrite length_path. lia. }
    split; [done|done|lia|by eapply po_right|by split|done|done|].
    rewrite Hchild. cbn. rewrite D3, take_app_le by (rewrite length_app; unfold dpath; rewrite length_path; cbn; lia).
    symmetry. apply take_ge. rewrite length_app. unfold dpath. rewrite length_path. cbn. lia.
  - destruct l as [|d' l' r']; [done|]. injection Hy as <-. cbn in Hl. destruct Hl as (Hd' & Hrest).
    pose proof Hd' as [D1 D2 [rest D3] D4].
    assert (bits + 1 <= key_getBits (n_key d')).
    { rewrite <- (zlen_path (n_key d')) by done. unfold dpath in D3 at 1. rewrite D3, !length_app. cbn.
      unfold dpath. rewrite length_path. lia. }
    split; [done|done|lia|by eapply po_left|by split|done|done|].
    rewrite Hchild. cbn. rewrite D3, take_app_le by (rewrite length_app; unfold dpath; rewrite length_path; cbn; lia).
    symmetry. apply take_ge. rewrite length_app. unfold dpath. rewrite length_path. cbn. lia.
Qed.

Lemma data_ok_inner f pre leaf d : data_ok f pre leaf d -> data_ok f pre false (put_bits (key_getBits (n_key d)) d).
Proof. intros [H1 H2 H3 H4]. split; [done..|by left]. Qed.

Lemma n_bits_ge f pre leaf d : data_ok f pre leaf d -> key_getBits (n_key d) <= n_bits d.
Proof. intros [H1 H2 H3 [?|[? ?]]]; [lia|]. pose proof (key_ok_bits _ H1). lia. Qed.

Lemma wf_set_assigned f pre d l r : wf f pre (Node d l r) -> wf f pre (Node (set_assigned true d) l r).
Proof. cbn. intros ([H1 H2 H3 H4] & _ & Hl & Hr). by split_and!. Qed.

(** A leaf for the key, where the node has no child on its side. *)
Lemma make_child_spec f key bits pre x :
  agrees f key bits pre x -> bits < key_getBits key -> key_getBits (n_key (l_data x)) <= bits ->
  (if key_getBit key (-1 - bits) then l_right x else l_left x) = Null ->
  let b := key_getBit key (-1 - bits) in
  exists y, (if b then make_right value_type key x else make_left value_type key x) = Ok y
    /\ place_of f key y (dpath (l_data x) ++ [b])
    /\ entries (root_of y) = entries (root_of x)
    /\ leftmost (l_parent y) = if b then (if negb (is_null (l_left x)) || n_assigned (l_data x) then false
                                           else leftmost (l_parent x))
                                else leftmost (l_parent x).
Proof.
  intros Hag Hlt Hge Hnull b. pose proof (agrees_child_prefix _ _ _ _ _ Hag Hlt Hge) as Hchild. fold b in Hchild.
  destruct Hag as [Hk Hf Hb Hp (Hd & Hleaf & Hl & Hr) Hpre Hlen Ht].
  apply data_ok_inner in Hd. fold b in Hnull.
  assert (dpath (l_data x) ++ [b] `prefix_of` path key) as Hpre' by (rewrite <- Hchild; apply prefix_take).
  unfold make_right, make_left. rewrite make_data_ok by done. cbn [mbind result_bind].
  destruct b; eexists; (split_and!; [done|apply new_leaf_place; [done|done| |done]| |]).
  - by eapply (po_right _ _ (put_bits _ (l_data x))).
  - rewrite entries_unassigned_leaf by done. unfold root_of, l_node. cbn [plug].
    rewrite !entries_plug, !entries_Node, Hnull. done.
  - cbn. by erewrite leftmost_RightOf.
  - by eapply (po_left _ _ (put_bits _ (l_data x))).
  - rewrite entries_unassigned_leaf by done. unfold root_of, l_node. cbn [plug].
    rewrite !entries_plug, !entries_Node, Hnull. done.
  - done.
Qed.

Lemma prefix_differ (pre s u : list bool) i b b' :
  pre `prefix_of` s -> pre `prefix_of` u -> s !! i = Some b -> u !! i = Some b' -> b <> b' -> (length pre <= i)%nat.
Proof.
  intros Hs Hu Es Eu Hb. destruct (decide (length pre <= i)%nat); [done|].
  destruct (lookup_lt_is_Some_2 pre i) as [c Hc]; [lia|].
  apply (prefix_lookup_Some _ _ _ _ Hc) in Hs, Hu. congruence.
Qed.

Lemma prefix_take_prefix (pre s : list bool) n : pre `prefix_of` s -> (length pre <= n)%nat -> pre `prefix_of` take n s.
Proof.
  intros [rest ->] Hn. rewrite take_app_ge by done. by apply prefix_app_r.
Qed.

Lemma fork_spec f key bits pre x :
  agrees f key bits pre x -> bits < key_getBits key -> bits < key_getBits (n_key (l_data x)) ->
  key_getBit key (-1 - bits) <> key_getBit (n_key (l_data x)) (-1 - bits) ->
  exists y pre', fork value_type key bits x = Ok y /\ place_of f key y pre'
    /\ entries (root_of y) = entries (root_of x)
    /\ leftmost (l_parent y) = if key_getBit key (-1 - bits) then false else leftmost (l_parent x).
Proof.
  intros [Hk Hf Hb Hp Hw Hpre Hlen Ht] Hlt Hlt' Hne. pose proof Hw as (Hd & _). destruct Hd as [D1 D2 D3 D4].
  destruct (key_ok_super (n_key (l_data x)) bits D1) as (s & Es & Hs & Hsf & Hsp); [lia|].
  assert (key_getBits s = bits) as Hsb.
  { rewrite <- (zlen_path s Hs), Hsp, length_take, length_path. lia. }
  assert (path s ++ [key_getBit key (-1 - bits)] `prefix_of` path key) as Pk.
  { rewrite Hsp. unfold dpath in Ht. rewrite <- Ht, <- take_S_path by lia. apply prefix_take. }
  assert (path s ++ [key_getBit (n_key (l_data x)) (-1 - bits)] `prefix_of` dpath (l_data x)) as Pn.
  { rewrite Hsp, <- take_S_path by lia. apply prefix_take. }
  assert (length pre <= Z.to_nat bits)%nat as Hpl.
  { eapply (prefix_differ _ _ _ (Z.to_nat bits)); [apply Hpre|apply D3| | |apply Hne]; unfold dpath; by rewrite path_lookup by lia. }
  set (branch := mkData s value_type false bits).
  assert (data_ok f pre false branch) as Hbr.
  { split; [done|cbn; congruence| |left; cbn; done]. unfold dpath. cbn. rewrite Hsp. by apply prefix_take_prefix. }
  unfold fork. assert (has_parent x = true) as -> by (unfold has_parent; by inversion Hp).
  rewrite Es. cbn [throw_if negb mbind result_bind]. rewrite !make_data_ok by done. cbn [mbind result_bind].
  change (put_bits bits _) with branch.
  destruct (key_getBit key (-1 - bits)) eqn:Ek, (key_getBit (n_key (l_data x)) (-1 - bits)) eqn:En; try done;
    eexists _, _; (split_and!; [done|apply new_leaf_place; [done|done| |exact Pk]| |]).
  - eapply (po_right _ _ branch); [done| |done]. by eapply wf_pre.
  - rewrite entries_unassigned_leaf by done. unfold root_of. cbn [plug].
    rewrite !entries_plug, !entries_Node. cbn. by rewrite app_nil_r.
  - cbn. erewrite (leftmost_RightOf f pre); [done|]. exact Hw.
  - eapply (po_left _ _ branch); [done| |done]. by eapply wf_pre.
  - rewrite entries_unassigned_leaf by done. unfold root_of. cbn [plug].
    rewrite !entries_plug, !entries_Node. cbn. done.
  - done.
Qed.

Lemma agrees_next f key bits pre x :
  agrees f key bits pre x -> bits < key_getBits key -> bits < key_getBits (n_key (l_data x)) ->
  key_getBit key (-1 - bits) = key_getBit (n_key (l_data x)) (-1 - bits) -> agrees f key (bits + 1) pre x.
Proof.
  intros [Hk Hf Hb Hp Hw Hpre Hlen Ht] Hlt Hlt' Heq. split; [done|done|lia|done|done|done|lia|].
  unfold dpath in *. rewrite !take_S_path by lia. by rewrite Ht, Heq.
Qed.

Lemma agrees_end f key pre x :
  agrees f key (key_getBits key) pre x -> path key `prefix_of` dpath (l_data x).
Proof.
  intros [Hk Hf Hb Hp Hw Hpre Hlen Ht]. rewrite <- (take_all_path key (key_getBits key)) by (done || lia).
  rewrite Ht. apply prefix_take.
Qed.

Lemma insert_loop_spec fuel f key bits pre x il :
  agrees f key bits pre x -> fuel = Z.to_nat (key_getBits key - bits) -> il = leftmost (l_parent x) ->
  exists y pre', insert_loop value_type fuel key bits x il = Ok (y, leftmost (l_parent y))
    /\ place_of f key y pre' /\ entries (root_of y) = entries (root_of x).
Proof.
  revert bits pre x il. induction fuel as [|fuel IH]; intros bits pre x il Hag Hfuel ->.
  - assert (bits = key_getBits key) as -> by (destruct Hag; lia). exists x, pre. split_and!; [done| |done].
    apply agrees_end in Hag as Hend. destruct Hag as [Hk Hf Hb Hp Hw Hpre Hlen Ht].
    split; [done|done|by apply wf_set_assigned|done|by left].
  - assert (bits < key_getBits key) as Hlt by lia. cbn [insert_loop].
    pose proof (make_child_spec f key bits pre x Hag Hlt) as Hmake.
    pose proof Hag as [Hk Hf Hb Hp (Hd & Hleaf & Hl & Hr) Hpre Hlen Ht]. pose proof (n_bits_ge _ _ _ _ Hd) as Hge.
    destruct (Z.leb_spec (n_bits (l_data x)) bits) as [Hn|Hn].
    + specialize (Hmake ltac:(lia)). pose proof (agrees_child f key bits pre x) as Hchild.
      destruct (key_getBit key (-1 - bits)) eqn:Eb.
      * destruct (down_right x) as [y|] eqn:Ey.
        -- specialize (Hchild y Hag Hlt Hn eq_refl).
           destruct (IH _ _ _ (leftmost (l_parent y)) Hchild ltac:(lia) eq_refl) as (z & pre' & E & Hz & Hent).
           exists z, pre'. split_and!; [|done|].
           ++ rewrite <- E. f_equal. unfold down_right, loc_of in Ey. destruct (l_right x); [done|]. injection Ey as <-.
              cbn. by erewrite leftmost_RightOf.
           ++ rewrite Hent. unfold down_right, loc_of in Ey. unfold root_of, l_node at 2. destruct (l_right x); [done|]. by injection Ey as <-.
        -- destruct Hmake as (y & E & Hy & Hent & Hleft).
           { unfold down_right in Ey. by destruct (l_right x). }
           exists y. eexists. rewrite E. cbn. split_and!; [by rewrite Hleft|done|done].
      * destruct (down_left x) as [y|] eqn:Ey.
        -- specialize (Hchild y Hag Hlt Hn eq_refl).
           destruct (IH _ _ _ (leftmost (l_parent y)) Hchild ltac:(lia) eq_refl) as (z & pre' & E & Hz & Hent).
           exists z, pre'. split_and!; [|done|].
           ++ rewrite <- E. f_equal. unfold down_left, loc_of in Ey. destruct (l_left x); [done|]. by injection Ey as <-.
           ++ rewrite Hent. unfold down_left, loc_of in Ey. unfold root_of, l_node at 2. destruct (l_left x); [done|]. by injection Ey as <-.
        -- destruct Hmake as (y & E & Hy & Hent & Hleft).
           { unfold down_left in Ey. by destruct (l_left x). }
           exists y. eexists. rewrite E. cbn. split_and!; [by rewrite Hleft|done|done].
    + destruct (Z.leb_spec (key_getBits (n_key (l_data x))) bits) as [Hkb|Hkb].
      * assert (is_leaf (l_left x) (l_right x) = true) as Hlf by (destruct Hd as [_ _ _ [?|[? _]]]; [lia|done]).
        assert (l_left x = Null /\ l_right x = Null) as [Enl Enr].
        { unfold is_leaf in Hlf. by destruct (l_left x), (l_right x). }
        destruct Hmake as (y & E & Hy & Hent & Hleft); [done|by rewrite Enl, Enr; case_match|].
        exists y. rewrite Enl in Hleft. cbn [is_null negb orb] in Hleft.
        destruct (key_getBit key (-1 - bits)); eexists; rewrite E; cbn; (split_and!; [by rewrite Hleft|done|done]).
      * destruct (eqb_spec (key_getBit key (-1 - bits)) (key_getBit (n_key (l_data x)) (-1 - bits))) as [Heq|Heq]; cbn [negb].
        -- eapply IH; [by apply agrees_next|lia|done].
        -- destruct (fork_spec _ _ _ _ _ Hag Hlt Hkb Heq) as (y & pre' & E & Hy & Hent & Hleft).
           exists y, pre'. rewrite E. cbn. split_and!; [by rewrite Hleft|done|done].
Qed.

(** ** Keys are stored once *)

Definition keys t : list K := (entries t).*1.

Lemma keys_Node d l r : keys (Node d l r) = keys l ++ option_list (fst <$> entry d) ++ keys r.
Proof. unfold keys. rewrite entries_Node, !fmap_app. by destruct (entry d). Qed.

Lemma wf_keys f pre t k : wf f pre t -> k ∈ keys t -> key_ok k /\ key_isIPv4 k = f /\ pre `prefix_of` path k.
Proof.
  revert pre. induction t as [|d l IHl r IHr]; intros pre; [by intros _ ?%elem_of_nil|]. rewrite keys_Node.
  intros ([D1 D2 D3 D4] & _ & Hl & Hr). rewrite !elem_of_app. intros [Hk|[Hk|Hk]].
  - destruct (IHl _ Hl Hk) as (? & ? & Hp). split_and!; [done..|]. etrans; [apply D3|]. etrans; [|apply Hp]. by apply prefix_app_r.
  - unfold entry in Hk. destruct (n_assigned d); cbn in Hk; [|by apply elem_of_nil in Hk].
    apply list_elem_of_singleton in Hk as ->. by split_and!.
  - destruct (IHr _ Hr Hk) as (? & ? & Hp). split_and!; [done..|]. etrans; [apply D3|]. etrans; [|apply Hp]. by apply prefix_app_r.
Qed.

Lemma prefix_bit_ne (s : list bool) b u : s ++ [b] `prefix_of` u -> s ++ [negb b] `prefix_of` u -> False.
Proof.
  intros H1 H2. apply (prefix_lookup_Some _ _ (length s) b) in H1; [|by rewrite lookup_app_r, Nat.sub_diag].
  apply (prefix_lookup_Some _ _ (length s) (negb b)) in H2; [|by rewrite lookup_app_r, Nat.sub_diag].
  rewrite H1 in H2. by destruct b.
Qed.

Lemma prefix_snoc_self (s : list bool) b : s ++ [b] `prefix_of` s -> False.
Proof. intros Hs%prefix_length. rewrite length_app in Hs. cbn in Hs. lia. Qed.

Lemma wf_keys_NoDup f pre t : wf f pre t -> NoDup (keys t).
Proof.
  revert pre. induction t as [|d l IHl r IHr]; intros pre; [intros _; constructor|]. rewrite keys_Node.
  intros (Hd & _ & Hl & Hr). rewrite !NoDup_app. split_and!; [by eapply IHl| | | |by eapply IHr].
  - intros k Hk [Hk'|Hk']%elem_of_app; destruct (wf_keys _ _ _ _ Hl Hk) as (_ & _ & P1).
    + unfold entry in Hk'. destruct (n_assigned d); cbn in Hk'; [|by apply elem_of_nil in Hk'].
      apply list_elem_of_singleton in Hk' as ->. by apply prefix_snoc_self in P1.
    + destruct (wf_keys _ _ _ _ Hr Hk') as (_ & _ & P2). by eapply (prefix_bit_ne _ false).
  - unfold entry. destruct (n_assigned d); cbn; [apply NoDup_singleton|constructor].
  - intros k Hk Hk'. destruct (wf_keys _ _ _ _ Hr Hk') as (_ & _ & P1).
    unfold entry in Hk. destruct (n_assigned d); cbn in Hk; [|by apply elem_of_nil in Hk].
    apply list_elem_of_singleton in Hk as ->. by apply prefix_snoc_self in P1.
Qed.

Lemma root_keys_NoDup t : root_ok t -> NoDup (keys t).
Proof.
  destruct t as [|d l r]; [done|]. intros (Ha & _ & Hl & Hr). rewrite keys_Node. unfold entry. rewrite Ha. cbn.
  apply NoDup_app. split_and!; [by eapply wf_keys_NoDup| |by eapply wf_keys_NoDup].
  intros k H1 H2. destruct (wf_keys _ _ _ _ Hl H1) as (_ & E1 & _), (wf_keys _ _ _ _ Hr H2) as (_ & E2 & _). congruence.
Qed.

(** ** The container *)

Record tree_ok (t : NetmaskTree K T) : Prop := {
  tok_root : root_ok (d_root t);
  tok_left : d_left t = head (keys (d_root t));
  tok_size : d_size t = zlen (entries (d_root t));
}.

(** The finite map a tree stands for. *)
Definition tree_map (t : NetmaskTree K T) : gmap K T := list_to_map (entries (d_root t)).

Lemma split_spec f key x pre :
  key_ok key -> key_isIPv4 key = f -> place_of f key x pre ->
  exists y, (if key_getBits key <? key_getBits (n_key (l_data x)) then split value_type key (key_getBits key) x else Ok x) = Ok y
    /\ place_of f key y pre /\ n_key (l_data y) = key /\ l_parent y = l_parent x
    /\ entries (root_of y) = entries (root_of x).
Proof.
  intros Hk Hf Hpl. pose proof Hpl as [Hp Hpre Hw Hbelow Hold]. pose proof Hw as ([D1 D2 D3 D4] & _).
  change (key_ok (n_key (l_data x))) in D1. change (key_isIPv4 (n_key (l_data x)) = f) in D2.
  assert (key_getBits key <= key_getBits (n_key (l_data x))) as Hle.
  { apply prefix_length in Hbelow. unfold dpath in Hbelow. rewrite !length_path in Hbelow.
    pose proof (key_ok_bits _ Hk). pose proof (key_ok_bits _ D1). lia. }
  destruct (Z.ltb_spec (key_getBits key) (key_getBits (n_key (l_data x)))) as [Hlt|Hge].
  - assert (wf f pre (l_node x)) as Hwx by (destruct Hold as [?|E]; [done|rewrite E in Hlt; lia]).
    unfold split. assert (has_parent x = true) as -> by (unfold has_parent; by inversion Hp).
    cbn [negb throw_if mbind result_bind]. rewrite make_data_ok by done. cbn [mbind result_bind].
    pose proof (key_ok_bits _ Hk) as Hkb.
    assert (path key ++ [key_getBit (n_key (l_data x)) (-1 - key_getBits key)] `prefix_of` dpath (l_data x)) as Pn.
    { assert (path key = take (Z.to_nat (key_getBits key)) (path (n_key (l_data x)))) as ->.
      - destruct Hbelow as [rest E]. unfold dpath in E. rewrite E, take_app_le by (rewrite length_path; lia).
        by rewrite take_all_path.
      - rewrite <- take_S_path by lia. apply prefix_take. }
    eexists. split; [done|].
    destruct (key_getBit (n_key (l_data x)) (-1 - key_getBits key)); (split_and!; [|done|done|]).
    + split; [done|done| |done|by right]. cbn [l_node with_data l_data l_left l_right wf is_leaf is_null andb set_assigned put_bits n_assigned].
      split; [split; [done..|by left]|]. split; [done|]. split; [done|]. exact (wf_pre _ _ _ _ _ _ Hwx Pn).
    + unfold root_of. cbn [l_parent]. rewrite !entries_plug. unfold l_node at 1. cbn [l_data l_left l_right]. rewrite entries_Node. cbn. done.
    + split; [done|done| |done|by right]. cbn [l_node with_data l_data l_left l_right wf is_leaf is_null andb set_assigned put_bits n_assigned].
      split; [split; [done..|by left]|]. split; [done|]. split; [|done]. exact (wf_pre _ _ _ _ _ _ Hwx Pn).
    + unfold root_of. cbn [l_parent]. rewrite !entries_plug. unfold l_node at 1. cbn [l_data l_left l_right]. rewrite entries_Node. cbn. by rewrite app_nil_r.
  - exists x. split_and!; [done|done| |done|done]. apply key_ok_ext; [done|done|congruence|].
    destruct Hbelow as [rest E]. unfold dpath in E. rewrite E. destruct rest; [by rewrite app_nil_r|].
    apply (f_equal length) in E. rewrite length_app, !length_path in E. cbn in E. lia.
Qed.

(** The entries on the two sides of a node. *)
Definition entries_before (x : Loc K T) : list (K * T) := omap entry (nodes_before (l_parent x)) ++ entries (l_left x).
Definition entries_behind (x : Loc K T) : list (K * T) := entries (l_right x) ++ omap entry (nodes_after (l_parent x)).

Lemma entries_root_of x :
  entries (root_of x) = entries_before x ++ option_list (entry (l_data x)) ++ entries_behind x.
Proof.
  unfold root_of, l_node, entries_before, entries_behind. by rewrite entries_plug, entries_Node, <- !app_assoc.
Qed.

Lemma leftmost_place f key x pre :
  place_of f key x pre ->
  (if negb (is_null (l_left x)) then false else leftmost (l_parent x)) = bool_decide (entries_before x = []).
Proof.
  intros [Hp Hpre (_ & _ & Hl & _) Hbelow Hold]. unfold leftmost, entries_before. cbn in Hl.
  destruct (l_left x) as [|d l r] eqn:E; cbn [is_null negb].
  - by rewrite app_nil_r.
  - symmetry. apply bool_decide_false. intros [_ En]%app_nil. by apply (wf_entries_nil _ _ _ Hl) in En.
Qed.

Lemma insert_finish_spec f key (t : NetmaskTree K T) x pre :
  key_ok key -> key_isIPv4 key = f -> tree_ok t -> place_of f key x pre ->
  entries (root_of x) = entries (d_root t) ->
  exists (t' : NetmaskTree K T) (y : Loc K T), insert_finish value_type key t x (leftmost (l_parent x)) = Ok (t', y)
    /\ place_of f key y pre /\ n_key (l_data y) = key /\ n_assigned (l_data y) = true
    /\ tree_ok t' /\ d_root t' = root_of y
    /\ exists old, entries (d_root t) = entries_before y ++ old ++ entries_behind y /\ old.*1 ⊆ [key].
Proof.
  intros Hk Hf [Hroot Hleft Hsize] Hx Hent. unfold insert_finish.
  destruct (split_spec f key x pre Hk Hf Hx) as (y & -> & Hy & Hyk & Hyp & Hye). cbn [mbind result_bind].
  rewrite Hent in Hye. rewrite <- Hyp, (leftmost_place f key y pre Hy).
  pose proof (entries_root_of y) as He. rewrite Hye in He.
  assert (root_ok (root_of (with_data (set_assigned true) y))) as Hrok.
  { destruct Hy as [P1 P2 P3 P4 P5]. by eapply plug_ok. }
  destruct (n_assigned (l_data y)) eqn:Ha; cbn [negb].
  - assert (with_data (set_assigned true) y = y) as Ey.
    { destruct y as [p [k v a b] l r]. cbn in *. by subst. }
    rewrite Ey in Hrok. unfold entry in He. rewrite Ha in He. cbn in He.
    assert (bool_decide (entries_before y = []) && negb (bool_decide (d_left t = Some (n_key (l_data y)))) = false) as ->.
    { destruct (bool_decide_reflect (entries_before y = [])) as [E0|]; [|done]. cbn. rewrite Hleft. unfold keys.
      rewrite He, E0. cbn. by rewrite bool_decide_true. }
    cbn [throw_if mbind result_bind]. eexists _, y. split_and!; [done..| |done|].
    + split; cbn [d_root d_left d_size]; [done|unfold keys; by rewrite Hye|by rewrite Hye].
    + exists [(n_key (l_data y), n_value (l_data y))]. rewrite He, Hyk. by split.
  - set (z := with_data (set_assigned true) y) in *. unfold entry in He. rewrite Ha in He. cbn in He.
    assert (entries (root_of z) = entries_before y ++ (key, n_value (l_data y)) :: entries_behind y) as Hz.
    { rewrite entries_root_of. cbn. by rewrite Hyk. }
    eexists _, z. split_and!; [done| |done|done| |done|].
    + destruct Hy as [P1 P2 P3 P4 P5]. split; [done|done|done|done|by right].
    + split; cbn [d_root d_left d_size]; [done| |].
      * unfold keys. rewrite Hz. destruct (bool_decide_reflect (entries_before y = [])) as [E0|Hne]; [by rewrite E0, Hyk|].
        rewrite Hleft. unfold keys. rewrite He. by destruct (entries_before y).
      * rewrite Hz, Hsize, He, !zlen_app, zlen_cons. lia.
    + exists []. split; [exact He|set_solver].
Qed.
End wf.
