(* ===== verification/NetTreeSpec.v ===== *)
(** * Trees of network prefixes: the operations

    Insertion, lookup, removal and iteration of a [NetmaskTree] against the
    finite map it stands for. *)

From stdpp Require Import gmap.
From S2P Require Import Prelude NetTree NetTreeFacts.

#[local] Open Scope Z_scope.

Section spec.
Context {K T : Type} `{NetKeyLaws K} `{!EqDecision K} `{!Countable K} (value_type : T).
Implicit Types t : NetmaskTree K T.
Implicit Types x y : Loc K T.

(** ** Insertion *)

(** [y] is the node of [key] in the tree [t'] that [t] has become. *)
Record inserted (key : K) t t' y : Prop := {
  ins_place : exists pre, place_of (key_isIPv4 key) key y pre;
  ins_key : n_key (l_data y) = key;
  ins_assigned : n_assigned (l_data y) = true;
  ins_tree : tree_ok t';
  ins_root : d_root t' = root_of y;
  ins_entries : exists old, entries (d_root t) = entries_before y ++ old ++ entries_behind y /\ old.*1 ⊆ [key];
}.

Lemma agrees_start f key p (n : TreeNode K T) y :
  key_ok key -> key_isIPv4 key = f -> parents_ok f [] p -> wf f [] n -> loc_of p n = Some y -> agrees f key 0 [] y.
Proof.
  intros Hk Hf Hp Hn Hy. destruct n as [|d l r]; [done|]. injection Hy as <-. pose proof (key_ok_bits key Hk).
  pose proof Hn as ([D1 _ _ _] & _). pose proof (key_ok_bits _ D1).
  split; [done|done|lia|done|done|apply prefix_nil|cbn; lia|done].
Qed.

Lemma tree_insert_loop_spec key t p (n : TreeNode K T) x il :
  key_ok key -> tree_ok t -> parents_ok (key_isIPv4 key) [] p -> wf (key_isIPv4 key) [] n ->
  loc_of p n = Some x -> plug p n = d_root t -> il = leftmost p ->
  exists t' y, ('(x, is_left) ← insert_loop value_type (Z.to_nat (key_getBits key)) key 0 x il;
                insert_finish value_type key t x is_left) = Ok (t', y) /\ inserted key t t' y.
Proof.
  intros Hk Ht Hp Hn Hx Hroot Hil. pose proof (agrees_start _ _ _ _ _ Hk eq_refl Hp Hn Hx) as Hag.
  assert (l_parent x = p /\ root_of x = d_root t) as [Ep Er].
  { destruct n; [done|]. by injection Hx as <-. }
  destruct (insert_loop_spec value_type (Z.to_nat (key_getBits key)) _ _ _ _ x il Hag) as (y & pre & E & Hy & Hent);
    [f_equal; lia|by rewrite Ep|].
  rewrite E. cbn [mbind result_bind]. rewrite Er in Hent.
  destruct (insert_finish_spec value_type _ key t y pre Hk eq_refl Ht Hy Hent)
    as (t' & z & -> & Hz & Hzk & Hza & Ht' & Hr & He).
  exists t', z. split; [done|]. split; [by exists pre|done..].
Qed.

Lemma tree_insert_spec key t :
  tree_ok t -> key_ok key -> exists t' y, tree_insert value_type key t = Ok (t', y) /\ inserted key t t' y.
Proof.
  intros Ht Hk. pose proof Ht as [Hroot Hleft Hsize]. unfold tree_insert.
  rewrite (make_data_ok value_type key Hk). cbn [mbind result_bind n_key].
  destruct (d_root t) as [|d l r] eqn:Er; [done|]. cbn [root_loc l_data l_left l_right l_parent].
  pose proof Hroot as (Ha & Hd & Hl & Hr).
  assert (forall p (n : TreeNode K T) moves, n = Null -> parents_ok (key_isIPv4 key) [] p -> plug p n = Node d l r ->
    moves = leftmost p ->
    let x := mkLoc p (mkData key value_type true (key_getFullBits key)) Null Null in
    inserted key t (mkNetmaskTree (root_of x) (if moves then Some key else d_left t) (d_size t + 1)) x) as Hfirst.
  { intros p n moves -> Hp Hplug -> x. pose proof (new_leaf_place value_type _ key [] p Hk eq_refl Hp (prefix_nil _)) as Hpl.
    destruct Hpl as [P1 P2 P3 P4 P5].
    assert (entries (Node d l r) = entries_before x ++ entries_behind x) as He.
    { rewrite <- Hplug, entries_plug. unfold entries_before, entries_behind. cbn. by rewrite app_nil_r. }
    split; [exists []; by split; [..|by right]|done|done| |done|exists []; rewrite Er; split; [exact He|set_solver]].
    split; cbn [d_root d_left d_size]; [by eapply plug_ok| |].
    - unfold keys. rewrite entries_root_of, Hleft. unfold keys. rewrite He.
      unfold leftmost. change (omap entry (nodes_before p)) with (omap entry (nodes_before (l_parent x))).
      replace (omap entry (nodes_before (l_parent x))) with (entries_before x) by (unfold entries_before; cbn; by rewrite app_nil_r).
      destruct (bool_decide_reflect (entries_before x = [])) as [->|]; [done|]. by destruct (entries_before x).
    - rewrite entries_root_of, Hsize, He. change (option_list _) with [(key, value_type)].
      rewrite !zlen_app, zlen_cons, zlen_nil. lia. }
  destruct (key_isIPv4 key) eqn:E4.
  - unfold down_left, loc_of. cbn [l_left l_data l_right l_parent]. destruct l as [|dl ll lr] eqn:El.
    + eexists _, _. split; [done|]. by apply (Hfirst (LeftOf d r NoParent) Null true); [|constructor|..].
    + eapply (tree_insert_loop_spec key t _ (Node dl ll lr)); rewrite ?E4, ?Er; [done|done|by constructor|done|done|done|done].
  - assert (key_isIPv6 key = true) as -> by (rewrite key_ok_family by done; by rewrite E4).
    assert (is_null l = leftmost (RightOf d l NoParent)) as Hlm.
    { rewrite (leftmost_RightOf true []) by done. rewrite Ha. by destruct l. }
    unfold down_right, loc_of. cbn [l_left l_data l_right l_parent]. destruct r as [|dr rl rr] eqn:Err.
    + eexists _, _. split; [done|]. by apply (Hfirst (RightOf d l NoParent) Null (is_null l)); [|constructor|..].
    + eapply (tree_insert_loop_spec key t _ (Node dr rl rr)); rewrite ?E4, ?Er; [done|done|by constructor|done|done|done|done].
Qed.

Lemma entries_set_value v x :
  n_assigned (l_data x) = true ->
  entries (root_of (with_data (set_value v) x)) = entries_before x ++ (n_key (l_data x), v) :: entries_behind x.
Proof. intros Ha. rewrite entries_root_of. cbn. unfold entry. cbn. by rewrite Ha. Qed.

Lemma list_to_map_replace (l1 old l2 : list (K * T)) k v :
  old.*1 ⊆ [k] -> k ∉ l1.*1 -> 
  list_to_map (l1 ++ (k, v) :: l2) = <[k := v]> (list_to_map (l1 ++ old ++ l2) : gmap K T).
Proof.
  intros Hold Hk. rewrite !list_to_map_app. cbn.
  rewrite <- insert_union_r by (by apply not_elem_of_list_to_map_1).
  apply map_eq. intros k'. destruct (decide (k' = k)) as [->|Hne]; [by rewrite !lookup_insert_eq|].
  rewrite !lookup_insert_ne by done. rewrite !lookup_union.
  replace ((list_to_map old : gmap K T) !! k') with (@None T).
  - by rewrite (left_id_L None _).
  - symmetry. apply not_elem_of_list_to_map_1. set_solver.
Qed.

(** Inserting into a tree is inserting into the finite map it stands for,
    and the invariant is kept: the nodes are where their prefixes say, the
    pointer to the first entry is right and the size is the number of entries. *)
Theorem insert_or_assign_refines (key : K) (value : T) t :
  tree_ok t -> key_ok key ->
  exists t', insert_or_assign value_type key value t = Ok t' /\ tree_ok t'
    /\ tree_map t' = <[key := value]> (tree_map t).
Proof.
  intros Ht Hk. destruct (tree_insert_spec key t Ht Hk) as (t1 & y & E & [[pre Hpl] Hkey Has [Hr Hl Hs] Hroot (old & He & Hold)]).
  unfold insert_or_assign. rewrite E. cbn [mbind result_bind]. eexists. split; [done|].
  pose proof (entries_root_of y) as Hy. unfold entry in Hy. rewrite Has, Hkey in Hy. cbn in Hy. rewrite <- Hroot in Hy.
  pose proof (entries_set_value value y Has) as Hv. rewrite Hkey in Hv.
  destruct Hpl as [P1 P2 P3 P4 P5]. split; [split; cbn [d_root d_left d_size]|].
  - eapply plug_ok; [apply P1| |done]. destruct P3 as ([D1 D2 D3 D4] & L1 & L2 & L3).
    split; [by split|]. by split_and!.
  - rewrite Hl. unfold keys. rewrite Hv, Hy, !fmap_app. cbn. by destruct (entries_before y).
  - rewrite Hs, Hv, Hy, !zlen_app, !zlen_cons. done.
  - unfold tree_map. cbn [d_root]. rewrite Hv, He. apply list_to_map_replace; [done|].
    apply root_keys_NoDup in Hr. unfold keys in Hr. rewrite Hy, fmap_app in Hr. cbn in Hr.
    apply NoDup_app in Hr as (_ & Hd & _). set_solver.
Qed.

(** ** Lookup *)

(** The entries whose prefix is a prefix of [s]. *)
Definition matching (s : list bool) (es : list (K * T)) (kv : K * T) : Prop :=
  kv ∈ es /\ path kv.1 `prefix_of` s.

(** [o] is the longest match, or [ret] when there is none. *)
Definition longest (s : list bool) (es : list (K * T)) (ret o : option (K * T)) : Prop :=
  (o = ret /\ forall kv, ~ matching s es kv)
  \/ exists kv, o = Some kv /\ matching s es kv
       /\ forall kv', matching s es kv' -> (length (path kv'.1) <= length (path kv.1))%nat.

Lemma entries_keys (n : TreeNode K T) kv : kv ∈ entries n -> kv.1 ∈ keys n.
Proof. intros Hkv. unfold keys. by apply list_elem_of_fmap_2. Qed.

Lemma no_match_below f pre (n : TreeNode K T) s kv :
  wf f pre n -> (forall u, pre ++ u `prefix_of` s -> False) -> ~ matching s (entries n) kv.
Proof.
  intros Hn Hs [Hin Hp]. destruct (wf_keys _ _ _ _ Hn (entries_keys _ _ Hin)) as (_ & _ & [u E]).
  rewrite E in Hp. by eapply Hs.
Qed.

Lemma prefix_longer (a s : list bool) : a `prefix_of` s -> (length s < length a)%nat -> False.
Proof. intros Ha%prefix_length. lia. Qed.

Section walk.
Context (f : bool) (value : K) (Hv : key_ok value).

(** What the walk knows at a node: the first [bits] bits of the two agree. *)
Record walks (bits : Z) (pre : list bool) (d : node_data K T) (l r : TreeNode K T) : Prop := {
  wk_wf : wf f pre (Node d l r);
  wk_bits : 0 <= bits <= key_getBits value;
  wk_len : bits <= key_getBits (n_key d);
  wk_take : take (Z.to_nat bits) (path value) = take (Z.to_nat bits) (dpath d);
}.

Lemma walks_end bits pre d l r :
  walks bits pre d l r -> key_getBits (n_key d) <= bits -> take (Z.to_nat bits) (path value) = dpath d.
Proof. intros [([D1 _ _ _] & _) Hb Hl Ht] Hge. rewrite Ht. by apply take_all_path. Qed.

Lemma walks_child bits pre d l r d' l' r' :
  walks bits pre d l r -> n_bits d <= bits -> bits < key_getBits value ->
  (if key_getBit value (-1 - bits) then r else l) = Node d' l' r' ->
  walks (bits + 1) (dpath d ++ [key_getBit value (-1 - bits)]) d' l' r'.
Proof.
  intros Hw Hn Hlt Hc. pose proof Hw as [(Hd & _ & Hl & Hr) Hb Hlen Ht].
  pose proof (n_bits_ge _ _ _ _ Hd) as Hge. pose proof (walks_end _ _ _ _ _ Hw ltac:(lia)) as He.
  assert (wf f (dpath d ++ [key_getBit value (-1 - bits)]) (Node d' l' r')) as Hw'.
  { destruct (key_getBit value (-1 - bits)); by rewrite <- Hc. }
  pose proof Hw' as ([D1 D2 [u D3] D4] & _).
  assert (length (dpath d) = Z.to_nat bits) as Hdl by (unfold dpath; rewrite length_path; lia).
  assert (bits + 1 <= key_getBits (n_key d')).
  { rewrite <- (zlen_path (n_key d')) by done. unfold dpath in D3 at 1. rewrite D3, !length_app. cbn. lia. }
  split; [done|lia|done|]. rewrite take_S_path, He, D3 by lia.
  rewrite take_app_le by (rewrite length_app; cbn; lia). rewrite take_ge by (rewrite length_app; cbn; lia). done.
Qed.

Lemma walks_next bits pre d l r :
  walks bits pre d l r -> bits < key_getBits value -> bits < key_getBits (n_key d) ->
  key_getBit value (-1 - bits) = key_getBit (n_key d) (-1 - bits) -> walks (bits + 1) pre d l r.
Proof.
  intros [Hw Hb Hl Ht] Hlt Hlt' He. split; [done|lia|lia|]. unfold dpath in *. rewrite !take_S_path by lia.
  by rewrite Ht, He.
Qed.

(** The node itself, and nothing below it, when the bits end with it. *)
Lemma entry_at_spec bits pre d l r ret :
  walks bits pre d l r -> (bits = key_getBits value \/ entries l = [] /\ entries r = []) ->
  key_getBits (n_key d) <= bits \/ bits = key_getBits value ->
  longest (path value) (entries (Node d l r)) ret (entry_at bits d ret).
Proof.
  intros Hw Hbelow Hend. pose proof Hw as [(Hd & _ & Hl & Hr) Hb Hlen Ht].
  assert (forall b n kv, wf f (dpath d ++ [b]) n -> (bits = key_getBits value \/ entries n = []) ->
            ~ matching (path value) (entries n) kv) as Hno.
  { intros b n kv Hn [Hbv|E] Hm; [|destruct Hm as [Hin _]; rewrite E in Hin; by apply elem_of_nil in Hin].
    eapply (no_match_below _ _ _ _ _ Hn); [|done]. intros u Hp. apply prefix_longer in Hp; [done|].
    rewrite !length_app, length_path. unfold dpath. rewrite length_path. cbn. lia. }
  rewrite entries_Node. unfold entry_at, entry. destruct (n_assigned d) eqn:Ha; cbn [andb].
  - destruct (Z.eqb_spec bits (key_getBits (n_key d))) as [E|Hne].
    + pose proof (walks_end _ _ _ _ _ Hw ltac:(lia)) as He.
      right. exists (n_key d, n_value d). split_and!; [done|split; [set_solver|]|].
      * cbn. fold (dpath d). rewrite <- He. apply prefix_take.
      * intros kv [Hin Hp]. cbn in Hin. rewrite elem_of_app, elem_of_cons in Hin.
        destruct Hin as [Hin|[->|Hin]]; [|done|]; exfalso; (eapply Hno; [| |by split]); [done|naive_solver|done|naive_solver].
    + left. split; [done|]. intros kv [Hin Hp]. cbn in Hin. rewrite elem_of_app, elem_of_cons in Hin.
      destruct Hin as [Hin|[->|Hin]]; [| |]; [eapply Hno; [| |by split]; [done|naive_solver]| |eapply Hno; [| |by split]; [done|naive_solver]].
      cbn in Hp. apply prefix_longer in Hp; [done|]. rewrite !length_path. lia.
  - left. split; [done|]. intros kv [Hin Hp]. cbn in Hin. rewrite elem_of_app in Hin.
    destruct Hin as [Hin|Hin]; (eapply Hno; [| |by split]); [done|naive_solver|done|naive_solver].
Qed.

Lemma elem_of_entries_Node kv d (l r : TreeNode K T) :
  kv ∈ entries (Node d l r) <-> kv ∈ entries l \/ (n_assigned d = true /\ kv = (n_key d, n_value d)) \/ kv ∈ entries r.
Proof.
  rewrite entries_Node, !elem_of_app. unfold entry.
  destruct (n_assigned d); cbn; rewrite ?list_elem_of_singleton, ?elem_of_nil; naive_solver.
Qed.

(** Below the end of a node only the child on the side of the next bit counts. *)
Lemma longest_child bits pre d l r ret o :
  walks bits pre d l r -> n_bits d <= bits -> bits < key_getBits value ->
  longest (path value) (entries (if key_getBit value (-1 - bits) then r else l)) (entry_at bits d ret) o ->
  longest (path value) (entries (Node d l r)) ret o.
Proof.
  intros Hw Hn Hlt Ho. pose proof Hw as [(Hd & _ & Hl & Hr) Hb Hlen Ht].
  pose proof (n_bits_ge _ _ _ _ Hd) as Hge. pose proof (walks_end _ _ _ _ _ Hw ltac:(lia)) as He.
  assert (bits = key_getBits (n_key d)) as Hbd by lia.
  set (b := key_getBit value (-1 - bits)) in *.
  assert (dpath d ++ [b] `prefix_of` path value) as Hpb.
  { rewrite <- He. unfold b. rewrite <- take_S_path by lia. apply prefix_take. }
  assert (dpath d `prefix_of` path value) as Hpd by (rewrite <- He; apply prefix_take).
  assert (forall kv, ~ matching (path value) (entries (if b then l else r)) kv) as Hother.
  { intros kv. eapply (no_match_below f (dpath d ++ [negb b])); [by destruct b|].
    intros u Hu. eapply (prefix_bit_ne (dpath d) b); [done|]. etrans; [|apply Hu]. by apply prefix_app_r. }
  assert (forall kv, matching (path value) (entries (Node d l r)) kv <->
            matching (path value) (entries (if b then r else l)) kv \/ (n_assigned d = true /\ kv = (n_key d, n_value d))) as Hm.
  { intros kv. specialize (Hother kv). unfold matching in *. rewrite elem_of_entries_Node.
    destruct b; split; try naive_solver. }
  unfold entry_at in Ho. replace (bits =? key_getBits (n_key d)) with true in Ho by lia. rewrite andb_true_r in Ho.
  destruct Ho as [[-> Hno]|(kv & -> & Hkv & Hmax)].
  - destruct (n_assigned d).
    + right. exists (n_key d, n_value d). split_and!; [done|apply Hm; by right|].
      intros kv' [Hkv'|[_ ->]]%Hm; [by apply Hno in Hkv'|done].
    + left. split; [done|]. intros kv' [Hkv'|[? _]]%Hm; [by apply Hno in Hkv'|done].
  - right. exists kv. split_and!; [done|apply Hm; by left|]. intros kv' [Hkv'|[_ ->]]%Hm; [by apply Hmax|].
    destruct Hkv as [Hin _]. cbn.
    assert (dpath d ++ [b] `prefix_of` path kv.1) as Hp%prefix_length.
    { destruct b; [apply (wf_keys _ _ _ _ Hr), entries_keys, Hin|apply (wf_keys _ _ _ _ Hl), entries_keys, Hin]. }
    rewrite length_app in Hp. cbn in Hp. unfold dpath in Hp. lia.
Qed.

Lemma lookup_loop_spec fuel bits pre d l r ret :
  walks bits pre d l r -> fuel = Z.to_nat (key_getBits value - bits) ->
  longest (path value) (entries (Node d l r)) ret (lookupImpl_loop fuel value bits d l r ret).
Proof.
  revert bits pre d l r ret. induction fuel as [|fuel IH]; intros bits pre d l r ret Hw Hfuel.
  - assert (bits = key_getBits value) by (destruct Hw; lia). cbn. eapply entry_at_spec; [done|by left|by right].
  - assert (bits < key_getBits value) as Hlt by lia. cbn [lookupImpl_loop].
    pose proof Hw as [(Hd & _ & Hl & Hr) Hb Hlen Ht].
    destruct (Z.leb_spec (n_bits d) bits) as [Hn|Hn].
    + eapply longest_child; [done..|]. pose proof (walks_child bits pre d l r) as Hc.
      destruct (if key_getBit value (-1 - bits) then r else l) as [|d' l' r'] eqn:Ec.
      * left. split; [|intros kv [Hin _]; by apply elem_of_nil in Hin].
        unfold entry_at. by destruct (n_assigned d && _).
      * eapply IH; [by apply Hc|lia].
    + destruct (Z.leb_spec (key_getBits (n_key d)) bits) as [Hk|Hk].
      * eapply entry_at_spec; [done| |by left]. right.
        destruct Hd as [_ _ _ [?|[Hleaf _]]]; [lia|]. unfold is_leaf in Hleaf. by destruct l, r.
      * destruct (eqb_spec (key_getBit value (-1 - bits)) (key_getBit (n_key d) (-1 - bits))) as [E|Hne]; cbn [negb].
        -- eapply IH; [by apply walks_next|lia].
        -- left. split; [unfold entry_at; destruct (Z.eqb_spec bits (key_getBits (n_key d))); [lia|by rewrite andb_false_r]|].
           intros kv. eapply (no_match_below f (dpath d)).
           { eapply wf_pre; [exact (wk_wf _ _ _ _ _ Hw)|done]. }
           intros u Hu. apply (prefix_lookup_Some _ _ (Z.to_nat bits) (key_getBit (n_key d) (-1 - bits))) in Hu.
           ++ rewrite path_lookup in Hu by lia. congruence.
           ++ apply lookup_app_l_Some. unfold dpath. by rewrite path_lookup by lia.
Qed.
End walk.

Lemma lookup_subtree_spec f value (n : TreeNode K T) :
  key_ok value -> wf f [] n ->
  longest (path value) (entries n) None
    (match n with Null => None | Node d l r => lookupImpl_loop (Z.to_nat (key_getBits value)) value 0 d l r None end).
Proof.
  intros Hv Hn. destruct n as [|d l r]; [left; split; [done|intros kv [Hin _]; by apply elem_of_nil in Hin]|].
  pose proof (key_ok_bits value Hv). pose proof Hn as ([D1 _ _ _] & _). pose proof (key_ok_bits _ D1).
  apply (lookup_loop_spec f value Hv _ 0 [] d l r None); [by split; [|lia|lia|]|f_equal; lia].
Qed.

Lemma tree_map_entries t k v : tree_ok t -> tree_map t !! k = Some v <-> (k, v) ∈ entries (d_root t).
Proof. intros [Hr _ _]. unfold tree_map. symmetry. apply elem_of_list_to_map, root_keys_NoDup, Hr. Qed.

(** [o] is the entry of the map with the longest prefix of the bits of [value],
    among the keys of its family. *)
Definition best_match (m : gmap K T) (value : K) (o : option (K * T)) : Prop :=
  let candidate k := key_isIPv4 k = key_isIPv4 value /\ path k `prefix_of` path value in
  match o with
  | None => forall k, is_Some (m !! k) -> ~ candidate k
  | Some (k, v) => m !! k = Some v /\ candidate k
                   /\ forall k', is_Some (m !! k') -> candidate k' -> (length (path k') <= length (path k))%nat
  end.

(** A lookup finds the longest stored prefix of the key, of its family. *)
Lemma lookupImpl_best_match (value : K) t :
  tree_ok t -> key_ok value ->
  exists o, lookupImpl value_type value (key_getBits value) t = Ok o /\ best_match (tree_map t) value o.
Proof.
  intros Ht Hv. pose proof Ht as [Hroot Hleft Hsize].
  assert (forall k, is_Some (tree_map t !! k) <-> exists v, (k, v) ∈ entries (d_root t)) as Hdom.
  { intros k. unfold is_Some. by setoid_rewrite tree_map_entries. }
  unfold lookupImpl. destruct (d_root t) as [|d l r] eqn:Er; [done|]. cbn [root_loc l_left l_right].
  destruct Hroot as (Ha & _ & Hl & Hr).
  set (n := if key_isIPv4 value then l else r).
  assert (wf (key_isIPv4 value) [] n) as Hn by (unfold n; by destruct (key_isIPv4 value)).
  exists (match n with Null => None | Node d l r => lookupImpl_loop (Z.to_nat (key_getBits value)) value 0 d l r None end). split.
  { unfold n. pose proof (key_ok_family value Hv) as Hfam. destruct (key_isIPv4 value); [done|]. by rewrite Hfam. }
  assert (forall kv, kv ∈ entries n <-> kv ∈ entries (Node d l r) /\ key_isIPv4 kv.1 = key_isIPv4 value) as Hin.
  { intros kv. rewrite elem_of_entries_Node, Ha. unfold n. split.
    - intros Hkv. split; [destruct (key_isIPv4 value); auto|].
      apply entries_keys in Hkv. destruct (key_isIPv4 value); by eapply wf_keys.
    - intros [[Hkv|[[? _]|Hkv]] Hf]; [|done|]; pose proof (entries_keys _ _ Hkv) as Hk.
      + apply (wf_keys _ _ _ _ Hl) in Hk as (_ & E & _). by rewrite E in Hf; rewrite <- Hf.
      + apply (wf_keys _ _ _ _ Hr) in Hk as (_ & E & _). by rewrite E in Hf; rewrite <- Hf. }
  destruct (lookup_subtree_spec _ value n Hv Hn) as [[-> Hno]|([k v] & -> & Hkv & Hmax)].
  - intros k [v Hk]%Hdom [Hf Hp]. apply (Hno (k, v)). split; [by apply Hin|done].
  - destruct Hkv as [Hk Hp]. apply Hin in Hk as [Hk Hf]. cbn in Hp, Hf. split_and!; [|done|done|].
    + apply tree_map_entries; [done|by rewrite Er].
    + intros k' [v' Hk']%Hdom [Hf' Hp']. apply (Hmax (k', v')). split; [by apply Hin|done].
Qed.

Theorem tree_lookup_best_match (value : K) t :
  tree_ok t -> key_ok value ->
  exists o, tree_lookup_key value_type value t = Ok o /\ best_match (tree_map t) value o.
Proof.
  intros Ht Hv. unfold tree_lookup_key, tree_is_empty. destruct (Z.eqb_spec (d_size t) 0) as [E0|_]; [|by apply lookupImpl_best_match].
  exists None. split; [done|]. intros k [v Hk%(tree_map_entries t k v Ht)]. destruct Ht as [_ _ Hz]. rewrite Hz in E0.
  apply zlen_zero_inv in E0. rewrite E0 in Hk. by apply elem_of_nil in Hk.
Qed.

(** ** Removal *)

Definition below (key k : K) : Prop := path key `prefix_of` path k.

Lemma elem_of_keys_Node k d (l r : TreeNode K T) :
  k ∈ keys (Node d l r) <-> k ∈ keys l \/ (n_assigned d = true /\ k = n_key d) \/ k ∈ keys r.
Proof.
  rewrite keys_Node, !elem_of_app. unfold entry.
  destruct (n_assigned d); cbn; rewrite ?list_elem_of_singleton, ?elem_of_nil; naive_solver.
Qed.

(** The node of a tree that is about a key, and all the keys below it. *)
Definition found (f : bool) (key : K) x (o : option (Loc K T)) : Prop :=
  match o with
  | None => forall k, k ∈ keys (l_node x) -> ~ below key k
  | Some y => (exists pre, parents_ok f pre (l_parent y) /\ wf f pre (l_node y))
              /\ path key `prefix_of` dpath (l_data y) /\ root_of y = root_of x
              /\ forall k, k ∈ keys (l_node x) -> below key k -> k ∈ keys (l_node y)
  end.

Lemma agrees_keys_child f key bits pre x k :
  agrees f key bits pre x -> bits < key_getBits key -> key_getBits (n_key (l_data x)) <= bits ->
  k ∈ keys (l_node x) -> below key k ->
  k ∈ keys (if key_getBit key (-1 - bits) then l_right x else l_left x).
Proof.
  intros Hag Hlt Hge Hk Hb. pose proof (agrees_child_prefix _ _ _ _ _ Hag Hlt Hge) as Hc.
  destruct Hag as [Hkey Hf Hbits Hp (Hd & _ & Hl & Hr) Hpre Hlen Ht].
  assert (dpath (l_data x) ++ [key_getBit key (-1 - bits)] `prefix_of` path k) as Hpk.
  { rewrite <- Hc. etrans; [apply prefix_take|apply Hb]. }
  unfold l_node in Hk. apply elem_of_keys_Node in Hk as [Hk|[[_ ->]|Hk]].
  - apply (wf_keys _ _ _ _ Hl) in Hk as Hk'. destruct (key_getBit key (-1 - bits)); [|done].
    exfalso. eapply (prefix_bit_ne _ true); [done|apply Hk'].
  - by apply prefix_snoc_self in Hpk.
  - apply (wf_keys _ _ _ _ Hr) in Hk as Hk'. destruct (key_getBit key (-1 - bits)); [done|].
    exfalso. eapply (prefix_bit_ne _ false); [done|apply Hk'].
Qed.

Lemma erase_loop_spec fuel f key bits pre x :
  agrees f key bits pre x -> fuel = Z.to_nat (key_getBits key - bits) ->
  found f key x (erase_loop fuel key bits (Some x)).
Proof.
  revert bits pre x. induction fuel as [|fuel IH]; intros bits pre x Hag Hfuel.
  - assert (bits = key_getBits key) as -> by (destruct Hag; lia). cbn. apply agrees_end in Hag as Hend.
    destruct Hag. split_and!; [by exists pre|done..].
  - assert (bits < key_getBits key) as Hlt by lia. cbn [erase_loop].
    pose proof (agrees_keys_child f key bits pre x) as Hkeys.
    pose proof Hag as [Hkey Hf Hbits Hp (Hd & _ & Hl & Hr) Hpre Hlen Ht]. pose proof (n_bits_ge _ _ _ _ Hd) as Hge.
    destruct (Z.leb_spec (n_bits (l_data x)) bits) as [Hn|Hn].
    + destruct (if key_getBit key (-1 - bits) then down_right x else down_left x) as [y|] eqn:Ey.
      * specialize (IH _ _ _ (agrees_child _ _ _ _ _ _ Hag Hlt Hn Ey) ltac:(lia)).
        assert (root_of y = root_of x /\ l_node y = if key_getBit key (-1 - bits) then l_right x else l_left x) as [Er En].
        { unfold down_right, down_left, loc_of, root_of, l_node in *.
          destruct (key_getBit key (-1 - bits)); [destruct (l_right x)|destruct (l_left x)]; try done; by injection Ey as <-. }
        rewrite <- En in Hkeys. destruct (erase_loop fuel key (bits + 1) (Some y)) as [z|]; cbn in *.
        -- destruct IH as (IH1 & IH2 & IH3 & IH4). split_and!; [done|done|by rewrite IH3|].
           intros k Hk Hb. apply IH4; [|done]. apply Hkeys; [done|done|lia|done|done].
        -- intros k Hk Hb. apply (IH k); [|done]. apply Hkeys; [done|done|lia|done|done].
      * replace (erase_loop fuel key (bits + 1) None) with (@None (Loc K T)) by by destruct fuel.
        intros k Hk Hb. specialize (Hkeys k Hag Hlt ltac:(lia) Hk Hb).
        unfold down_right, down_left, loc_of in Ey.
        destruct (key_getBit key (-1 - bits)); [destruct (l_right x)|destruct (l_left x)]; try done; by apply elem_of_nil in Hkeys.
    + destruct (Z.leb_spec (key_getBits (n_key (l_data x))) bits) as [Hk|Hk].
      * destruct (Z.eqb_spec (key_getBits key) (key_getBits (n_key (l_data x)))); [lia|]. cbn.
        intros k Hin Hb. specialize (Hkeys k Hag Hlt ltac:(lia) Hin Hb).
        destruct Hd as [_ _ _ [?|[Hleaf _]]]; [lia|]. unfold is_leaf in Hleaf.
        destruct (l_left x), (l_right x), (key_getBit key (-1 - bits)); try done; by apply elem_of_nil in Hkeys.
      * destruct (eqb_spec (key_getBit key (-1 - bits)) (key_getBit (n_key (l_data x)) (-1 - bits))) as [E|Hne]; cbn [negb].
        -- eapply IH; [by apply agrees_next|lia].
        -- intros k Hin Hb.
           assert (wf f (dpath (l_data x)) (l_node x)) as Hw by (eapply wf_pre; [exact (ag_wf _ _ _ _ _ Hag)|done]).
           apply (wf_keys _ _ _ _ Hw) in Hin as (_ & _ & Hp').
           apply (prefix_lookup_Some _ _ (Z.to_nat bits) (key_getBit (n_key (l_data x)) (-1 - bits))) in Hp';
             [|unfold dpath; by rewrite path_lookup by lia].
           apply (prefix_lookup_Some _ _ (Z.to_nat bits) (key_getBit key (-1 - bits))) in Hb; [|by rewrite path_lookup by lia].
           congruence.
Qed.

Lemma data_ok_any f pre (d : node_data K T) : data_ok f pre false d -> forall leaf, data_ok f pre leaf d.
Proof. intros [H1 H2 H3 [?|[? _]]] leaf; [split; [done..|by left]|done]. Qed.

Lemma entries_plug_eq p (n n' : TreeNode K T) : entries n = entries n' -> entries (plug p n) = entries (plug p n').
Proof. intros E. by rewrite !entries_plug, E. Qed.

Lemma cleanup_tree_spec f pre p d (l r : TreeNode K T) :
  parents_ok f pre p -> data_ok f pre (is_leaf l r) d -> wf f (dpath d ++ [false]) l -> wf f (dpath d ++ [true]) r ->
  root_ok (cleanup_tree p d l r) /\ entries (cleanup_tree p d l r) = entries (plug p (Node d l r)).
Proof.
  intros Hp. revert d l r. induction Hp as [d' r' Ha' Hk' Hr'|d' l' Ha' Hk' Hl'|f pre d' r' up Hd' Hr' Hup IH|f pre d' l' up Hd' Hl' Hup IH];
    intros d l r Hd Hl Hr; cbn [cleanup_tree]; rewrite negb_orb, negb_orb, !negb_involutive;
    fold (is_leaf l r); (destruct (is_leaf l r && negb (n_assigned d)) eqn:Ec;
    [apply andb_prop in Ec as [Hlf Ha]|
     split; [|done]; eapply plug_ok; [by econstructor| |done]; cbn; split_and!;
     [done|intros E; rewrite E in Ec; cbn in Ec; by apply negb_false_iff in Ec|done|done]]);
    (assert (l = Null /\ r = Null) as [-> ->] by (unfold is_leaf in Hlf; by destruct l, r));
    apply negb_true_iff in Ha;
    (assert (entries (Node d Null Null) = entries (@Null K T)) as He by (rewrite entries_Node; unfold entry; by rewrite Ha)).
  - destruct (negb _); (split; [done|]); cbn [plug]; by rewrite !(entries_Node d'), He.
  - destruct (negb _); (split; [done|]); cbn [plug]; by rewrite !(entries_Node d'), He.
  - destruct (IH d' Null r') as [H1 H2]; [by apply data_ok_any|done|done|]. split; [done|]. rewrite H2. cbn [plug].
    apply entries_plug_eq. by rewrite !(entries_Node d'), He.
  - destruct (IH d' l' Null) as [H1 H2]; [by apply data_ok_any|done|done|]. split; [done|]. rewrite H2. cbn [plug].
    apply entries_plug_eq. by rewrite !(entries_Node d'), He.
Qed.

(** The start of the walk of [erase]. *)
Lemma erase_start key t :
  tree_ok t -> key_ok key ->
  let root := root_loc value_type (d_root t) in
  exists o, (if key_isIPv4 key then Ok (down_left root) else if key_isIPv6 key then Ok (down_right root)
             else Throw (NetmaskException "invalid address family")) = Ok o
    /\ match o with
       | None => forall k, k ∈ keys (d_root t) -> key_isIPv4 k <> key_isIPv4 key
       | Some x => agrees (key_isIPv4 key) key 0 [] x /\ root_of x = d_root t
                   /\ forall k, k ∈ keys (d_root t) -> key_isIPv4 k = key_isIPv4 key -> k ∈ keys (l_node x)
       end.
Proof.
  intros [Hroot _ _] Hk root. unfold root. destruct (d_root t) as [|d l r]; [done|]. cbn [root_loc].
  destruct Hroot as (Ha & Hd & Hl & Hr). pose proof (key_ok_family key Hk) as Hfam.
  assert (forall k, k ∈ keys (Node d l r) -> key_isIPv4 k = key_isIPv4 key -> k ∈ keys (if key_isIPv4 key then l else r)) as Hin.
  { intros k Hin Hf. apply elem_of_keys_Node in Hin as [Hin|[[? _]|Hin]]; [|congruence|].
    - pose proof (wf_keys _ _ _ _ Hl Hin) as (_ & E & _). rewrite Hf in E. by rewrite E.
    - pose proof (wf_keys _ _ _ _ Hr Hin) as (_ & E & _). rewrite Hf in E. by rewrite E. }
  destruct (key_isIPv4 key) eqn:E4; [|rewrite Hfam; cbn [negb]]; eexists; (split; [done|]).
  - unfold down_left, loc_of. cbn [l_left l_data l_right l_parent]. destruct l as [|dl ll lr] eqn:El.
    + intros k Hk1 Hf. apply (Hin k Hk1) in Hf. by apply elem_of_nil in Hf.
    + split_and!; [|done|done]. by apply (agrees_start _ _ (LeftOf d r NoParent) (Node dl ll lr)); [| |apply po_root4|..].
  - unfold down_right, loc_of. cbn [l_left l_data l_right l_parent]. destruct r as [|dr rl rr] eqn:Err.
    + intros k Hk1 Hf. apply (Hin k Hk1) in Hf. by apply elem_of_nil in Hf.
    + split_and!; [|done|done]. by apply (agrees_start _ _ (RightOf d l NoParent) (Node dr rl rr)); [| |apply po_root6|..].
Qed.

(** The node found for a stored key is the node of the key. *)
Lemma found_stored f key y pre :
  key_ok key -> wf f pre (l_node y) -> path key `prefix_of` dpath (l_data y) -> key ∈ keys (l_node y) ->
  n_key (l_data y) = key /\ n_assigned (l_data y) = true.
Proof.
  intros Hk (_ & _ & Hl & Hr) Hp Hin. apply elem_of_keys_Node in Hin as [Hin|[[? ->]|Hin]]; [|done|].
  - apply (wf_keys _ _ _ _ Hl) in Hin as (_ & _ & Hp'). exfalso. eapply prefix_snoc_self. by etrans.
  - apply (wf_keys _ _ _ _ Hr) in Hin as (_ & _ & Hp'). exfalso. eapply prefix_snoc_self. by etrans.
Qed.

Lemma delete_list_to_map (l1 l2 : list (K * T)) k v :
  NoDup (l1 ++ (k, v) :: l2).*1 ->
  list_to_map (l1 ++ l2) = delete k (list_to_map (l1 ++ (k, v) :: l2) : gmap K T).
Proof.
  rewrite fmap_app. cbn. intros (_ & Hd & [Hk _]%NoDup_cons)%NoDup_app.
  rewrite !list_to_map_app. cbn. rewrite delete_union, delete_insert_eq.
  rewrite !delete_id; [done|by apply not_elem_of_list_to_map_1|apply not_elem_of_list_to_map_1; set_solver].
Qed.

(** Erasing a key that is stored is deleting it from the finite map, and the
    invariant is kept. *)
Theorem tree_erase_refines (key : K) t :
  tree_ok t -> key_ok key -> is_Some (tree_map t !! key) ->
  exists t', tree_erase value_type key t = Ok t' /\ tree_ok t' /\ tree_map t' = delete key (tree_map t).
Proof.
  intros Ht Hk [v Hv%(tree_map_entries t key v Ht)]. pose proof (entries_keys _ _ Hv) as Hkin. cbn in Hkin.
  unfold tree_erase. destruct (erase_start key t Ht Hk) as (o & Eo & Ho). rewrite Eo. cbn [mbind result_bind].
  destruct o as [x|]; [|by apply Ho in Hkin]. destruct Ho as (Hag & Hrx & Hsub).
  pose proof (erase_loop_spec (Z.to_nat (key_getBits key)) _ _ _ _ x Hag ltac:(f_equal; lia)) as Hf.
  specialize (Hsub key Hkin eq_refl).
  assert (below key key) as Hself by (unfold below; reflexivity).
  destruct (erase_loop _ key 0 (Some x)) as [y|]; [|by destruct (Hf key)].
  destruct Hf as ((pre & Hp & Hw) & Hbelow & Hry & Hall). specialize (Hall key Hsub Hself).
  destruct (found_stored _ key y pre Hk Hw Hbelow Hall) as [Hyk Hya].
  destruct Ht as [Hroot Hleft Hsize]. pose proof (entries_root_of y) as He. unfold entry in He.
  rewrite Hry, Hrx, Hya, Hyk in He. cbn in He.
  assert (d_size t =? 0 = false) as ->.
  { apply Z.eqb_neq. rewrite Hsize, He, zlen_app, zlen_cons. pose proof (zlen_nonneg (entries_before y)).
    pose proof (zlen_nonneg (entries_behind y)). lia. }
  cbn [throw_if mbind result_bind]. set (z := with_data _ y). eexists. split; [done|].
  destruct (cleanup_tree_spec (key_isIPv4 key) pre (l_parent z) (l_data z) (l_left z) (l_right z)) as [Hcr Hce];
    [done|destruct Hw as ([D1 D2 D3 D4] & _); by split|apply Hw|apply Hw|].
  change (plug (l_parent z) (Node (l_data z) (l_left z) (l_right z))) with (root_of z) in Hce.
  rewrite entries_root_of in Hce. change (option_list (entry (l_data z))) with (@nil (K * T)) in Hce. cbn [app] in Hce.
  change (entries_before z) with (entries_before y) in Hce. change (entries_behind z) with (entries_behind y) in Hce.
  pose proof (root_keys_NoDup _ Hroot) as Hnd. unfold keys in Hnd. rewrite He in Hnd.
  split; [split; cbn [d_root d_left d_size]; [done| |]|].
  - unfold keys. rewrite Hce, Hleft, Hyk. unfold keys. rewrite He. clear He Hce.
    destruct (entries_before y) as [|[k1 v1] before]; cbn [app fmap list_fmap head fst].
    + rewrite bool_decide_true by done. pose proof (traverse_lnr_assigned_spec z) as Hz.
      assert (omap entry (following z) = entries_behind y) as Hfz by (unfold following, entries_behind, entries; by rewrite omap_app).
      destruct (traverse_lnr_assigned z) as [u|]; cbn.
      * destruct Hz as [Hz%first_assigned_entries _]. rewrite Hfz in Hz. by rewrite Hz.
      * rewrite Hfz in Hz. by rewrite Hz.
    + rewrite bool_decide_false; [done|]. intros [= ->]. cbn in Hnd. apply NoDup_cons in Hnd as [Hnd _]. apply Hnd. rewrite fmap_app. apply elem_of_app. right. left.
  - rewrite Hce, Hsize, He, !zlen_app, zlen_cons. lia.
  - unfold tree_map. cbn [d_root]. rewrite Hce, He. by apply delete_list_to_map.
Qed.

(** Erasing leaves the tree alone when nothing is stored at the key or below
    it. *)
Theorem tree_erase_nothing (key : K) t :
  tree_ok t -> key_ok key ->
  (forall k, is_Some (tree_map t !! k) -> key_isIPv4 k = key_isIPv4 key -> ~ below key k) ->
  tree_erase value_type key t = Ok t.
Proof.
  intros Ht Hk Hno. unfold tree_erase. destruct (erase_start key t Ht Hk) as (o & Eo & Ho). rewrite Eo. cbn [mbind result_bind].
  destruct o as [x|]; [|by destruct (Z.to_nat (key_getBits key))]. destruct Ho as (Hag & Hrx & _).
  pose proof (erase_loop_spec (Z.to_nat (key_getBits key)) _ _ _ _ x Hag ltac:(f_equal; lia)) as Hf.
  destruct (erase_loop _ key 0 (Some x)) as [y|]; [|done]. exfalso.
  destruct Hf as ((pre & Hp & Hw) & Hbelow & Hry & _).
  assert (wf (key_isIPv4 key) (dpath (l_data y)) (l_node y)) as Hw' by (by eapply wf_pre).
  destruct (entries (l_node y)) as [|[k v] es] eqn:Ee; [by apply (wf_entries_nil _ _ _ Hw) in Ee|].
  assert ((k, v) ∈ entries (l_node y)) as Hin by (rewrite Ee; set_solver).
  destruct (wf_keys _ _ _ _ Hw' (entries_keys _ _ Hin)) as (_ & Hf & Hpk). apply (Hno k); [|done|unfold below; by etrans].
  exists v. apply tree_map_entries; [done|]. rewrite <- Hrx, <- Hry, entries_root_of.
  unfold l_node in Hin. rewrite entries_Node, !elem_of_app in Hin. unfold entries_before, entries_behind.
  rewrite !elem_of_app. naive_solver.
Qed.

(** ** Iteration *)

Lemma tree_empty_ok : tree_ok (tree_empty value_type : NetmaskTree K T).
Proof. by split. Qed.

Lemma tree_empty_map : tree_map (tree_empty value_type : NetmaskTree K T) = ∅.
Proof. done. Qed.

Definition node_keys (n : TreeNode K T) : list K := n_key <$> nodes n.

Lemma node_keys_Node d (l r : TreeNode K T) : node_keys (Node d l r) = node_keys l ++ n_key d :: node_keys r.
Proof. unfold node_keys. cbn. by rewrite fmap_app. Qed.

Lemma wf_node_keys f pre (n : TreeNode K T) k :
  wf f pre n -> k ∈ node_keys n -> key_ok k /\ key_isIPv4 k = f /\ pre `prefix_of` path k.
Proof.
  revert pre. induction n as [|d l IHl r IHr]; intros pre; [by intros _ ?%elem_of_nil|]. rewrite node_keys_Node.
  intros ([D1 D2 D3 D4] & _ & Hl & Hr). rewrite elem_of_app, elem_of_cons. intros [Hk|[->|Hk]]; [| done |].
  - destruct (IHl _ Hl Hk) as (? & ? & Hp). split_and!; [done..|]. etrans; [apply D3|]. etrans; [|apply Hp]. by apply prefix_app_r.
  - destruct (IHr _ Hr Hk) as (? & ? & Hp). split_and!; [done..|]. etrans; [apply D3|]. etrans; [|apply Hp]. by apply prefix_app_r.
Qed.

Lemma wf_node_keys_NoDup f pre (n : TreeNode K T) : wf f pre n -> NoDup (node_keys n).
Proof.
  revert pre. induction n as [|d l IHl r IHr]; intros pre; [intros _; constructor|]. rewrite node_keys_Node.
  intros (Hd & _ & Hl & Hr). rewrite NoDup_app, NoDup_cons. split_and!; [by eapply IHl| | |by eapply IHr].
  - intros k Hk [->|Hk']%elem_of_cons; destruct (wf_node_keys _ _ _ _ Hl Hk) as (_ & _ & P1).
    + by apply prefix_snoc_self in P1.
    + destruct (wf_node_keys _ _ _ _ Hr Hk') as (_ & _ & P2). by eapply (prefix_bit_ne _ false).
  - intros Hk. destruct (wf_node_keys _ _ _ _ Hr Hk) as (_ & _ & P1). by apply prefix_snoc_self in P1.
Qed.

Lemma root_node_keys_NoDup (n : TreeNode K T) : root_ok n -> NoDup (node_keys n).
Proof.
  destruct n as [|d l r]; [done|]. intros (Ha & Hd & Hl & Hr). rewrite node_keys_Node, NoDup_app, NoDup_cons.
  assert (forall f m, wf f [] m -> n_key d ∉ node_keys m) as Hroot.
  { intros f m Hm Hin. apply (wf_node_keys _ _ _ _ Hm) in Hin as (Hok & _). rewrite Hd in Hok. by apply key_default_bad in Hok. }
  split_and!; [by eapply wf_node_keys_NoDup| |by eapply Hroot|by eapply wf_node_keys_NoDup].
  intros k H1 [->|H2]%elem_of_cons; [by apply (Hroot _ _ Hl) in H1|].
  destruct (wf_node_keys _ _ _ _ Hl H1) as (_ & E1 & _), (wf_node_keys _ _ _ _ Hr H2) as (_ & E2 & _). congruence.
Qed.

Lemma find_node_spec k p (n : TreeNode K T) :
  match find_node k p n with
  | None => k ∉ node_keys n
  | Some x => n_key (l_data x) = k /\ root_of x = plug p n
              /\ exists before, nodes n ++ nodes_after p = before ++ l_data x :: following x
  end.
Proof.
  revert p. induction n as [|d l IHl r IHr]; intros p; cbn [find_node]; [by intros ?%elem_of_nil|].
  specialize (IHl (LeftOf d r p)). specialize (IHr (RightOf d l p)). rewrite node_keys_Node. cbn [nodes nodes_after plug] in *.
  destruct (find_node k (LeftOf d r p) l) as [x|].
  { destruct IHl as (E1 & E2 & before & E3). split_and!; [done..|]. exists before. by rewrite <- app_assoc. }
  destruct (bool_decide_reflect (n_key d = k)) as [<-|Hne].
  { split_and!; [done..|]. exists (nodes l). by rewrite <- app_assoc. }
  destruct (find_node k (RightOf d l p) r) as [x|].
  - destruct IHr as (E1 & E2 & before & E3). split_and!; [done..|]. exists (nodes l ++ d :: before).
    rewrite <- !app_assoc. cbn. by rewrite E3.
  - rewrite not_elem_of_app, not_elem_of_cons. split_and!; done.
Qed.

Lemma entry_key (ds : list (node_data K T)) kv : kv ∈ omap entry ds -> kv.1 ∈ n_key <$> ds.
Proof.
  rewrite list_elem_of_omap. intros (d & Hd & He). unfold entry in He. destruct (n_assigned d); [|done].
  injection He as <-. change (n_key d ∈ n_key <$> ds). by apply list_elem_of_fmap_2.
Qed.

Lemma tree_to_list_entries t : tree_ok t -> tree_to_list t = entries (d_root t).
Proof.
  intros [Hroot Hleft Hsize]. unfold tree_to_list. rewrite Hleft. unfold keys.
  destruct (entries (d_root t)) as [|[k v] es] eqn:Ee; [by destruct (node_count (d_root t))|]. cbn [fmap list_fmap head fst mbind option_bind].
  pose proof (find_node_spec k NoParent (d_root t)) as Hfind. cbn [plug nodes_after] in Hfind. rewrite app_nil_r in Hfind.
  assert (k ∈ node_keys (d_root t)) as Hk.
  { apply (entry_key _ (k, v)). unfold entries in Ee. rewrite Ee. left. }
  destruct (find_node k NoParent (d_root t)) as [x|]; [|done]. destruct Hfind as (Ek & Er & before & En).
  pose proof (root_node_keys_NoDup _ Hroot) as Hnd. unfold node_keys in Hnd. rewrite En, fmap_app in Hnd. cbn in Hnd.
  apply NoDup_app in Hnd as (_ & Hd & [Hx _]%NoDup_cons). unfold entries in Ee. rewrite En, omap_app in Ee.
  rewrite iterate_spec by (rewrite <- Er; apply following_count).
  destruct (omap entry before) as [|kv bs] eqn:Eb.
  - cbn in Ee. unfold entry in Ee at 1. destruct (n_assigned (l_data x)); [cbn in Ee; congruence|].
    exfalso. apply Hx. rewrite Ek. apply (entry_key _ (k, v)). cbn in Ee. rewrite Ee. left.
  - exfalso. cbn in Ee. injection Ee as -> _. apply (Hd k).
    + apply (entry_key _ (k, v)). rewrite Eb. left.
    + rewrite Ek. left.
Qed.

(** The iteration over a tree visits every entry once. *)
Theorem tree_to_list_complete t : tree_ok t -> tree_to_list t ≡ₚ map_to_list (tree_map t).
Proof.
  intros Ht. rewrite tree_to_list_entries by done. unfold tree_map.
  symmetry. apply map_to_list_to_map, root_keys_NoDup, Ht.
Qed.

Lemma copy_loop_spec fuel o (ds : list (node_data K T)) t :
  (match o with None => ds = [] | Some y => ds = l_data y :: following y end) -> (length ds <= fuel)%nat ->
  NoDup (omap entry ds).*1 -> Forall key_ok (omap entry ds).*1 -> tree_ok t ->
  exists t', copy_loop value_type fuel o t = Ok t' /\ tree_ok t'
    /\ tree_map t' = list_to_map (omap entry ds) ∪ tree_map t.
Proof.
  revert o ds t. induction fuel as [|fuel IH]; intros o ds t Ho Hlen Hnd Hok Ht.
  { destruct o; subst; [cbn in Hlen; lia|]. exists t. split_and!; [done..|]. cbn. by rewrite (left_id_L ∅ (∪)). }
  destruct o as [x|]; subst ds.
  2: { exists t. split_and!; [done..|]. cbn. by rewrite (left_id_L ∅ (∪)). }
  cbn [copy_loop]. cbn in Hlen. pose proof (traverse_lnr_spec x) as Hx.
  assert (match traverse_lnr x with None => following x = [] | Some y => following x = l_data y :: following y end) as Hnext.
  { destruct (traverse_lnr x); [apply Hx|done]. }
  cbn [omap list_omap] in *. unfold entry in Hnd, Hok |- * at 1. destruct (n_assigned (l_data x)) eqn:Ha; cbn in Hnd, Hok |- *.
  - apply NoDup_cons in Hnd as [Hx1 Hnd]. apply Forall_cons in Hok as [Hk Hok].
    destruct (insert_or_assign_refines (n_key (l_data x)) (n_value (l_data x)) t Ht Hk) as (t1 & -> & Ht1 & Hm1).
    cbn [mbind result_bind]. destruct (IH _ (following x) t1 Hnext ltac:(lia) Hnd Hok Ht1) as (t2 & -> & Ht2 & Hm2).
    exists t2. split_and!; [done..|]. rewrite Hm2, Hm1. rewrite <- insert_union_r by (by apply not_elem_of_list_to_map_1).
    by rewrite insert_union_l.
  - apply (IH _ (following x) t Hnext ltac:(lia) Hnd Hok Ht).
Qed.

(** a copy of a tree stands for the same map. *)
Theorem copyTree_same_map t :
  tree_ok t -> exists t', copyTree value_type t = Ok t' /\ tree_ok t' /\ tree_map t' = tree_map t.
Proof.
  intros Ht. pose proof Ht as [Hroot _ _]. unfold copyTree.
  pose proof (root_keys_NoDup _ Hroot) as Hnd. pose proof Hroot as Hroot'.
  destruct (d_root t) as [|d l r] eqn:Er; [done|].
  destruct (traverse_l_spec NoParent d l r) as [Hn _]. cbn [nodes_after] in Hn. rewrite app_nil_r in Hn.
  assert (omap entry (l_data (traverse_l NoParent d l r) :: following (traverse_l NoParent d l r)) = entries (Node d l r)) as He.
  { unfold following. rewrite <- Hn. done. }
  destruct (copy_loop_spec (node_count (Node d l r)) (Some (traverse_l NoParent d l r)) _ (tree_empty value_type) eq_refl)
    as (t' & E & Ht' & Hm); rewrite ?He.
  - rewrite node_count_nodes. unfold following. rewrite <- Hn. done.
  - done.
  - apply Forall_forall. intros k Hk. destruct Hroot as (Ha & _ & Hl & Hr).
    apply elem_of_keys_Node in Hk as [Hk|[[? _]|Hk]]; [by destruct (wf_keys _ _ _ _ Hl Hk)|congruence|by destruct (wf_keys _ _ _ _ Hr Hk)].
  - apply tree_empty_ok.
  - exists t'. split_and!; [done..|]. rewrite Hm, He, tree_empty_map, (right_id_L ∅ (∪)). unfold tree_map. by rewrite Er.
Qed.

(** ** Membership *)

Lemma stored_key_ok t k : tree_ok t -> is_Some (tree_map t !! k) -> key_ok k.
Proof.
  intros Ht [v Hv%(tree_map_entries t k v Ht)]. apply entries_keys in Hv. destruct Ht as [Hroot _ _].
  destruct (d_root t) as [|d l r]; [done|]. destruct Hroot as (Ha & _ & Hl & Hr).
  apply elem_of_keys_Node in Hv as [Hk|[[? _]|Hk]]; [by destruct (wf_keys _ _ _ _ Hl Hk)|congruence|by destruct (wf_keys _ _ _ _ Hr Hk)].
Qed.

(** [has_key] looks up the best match: it is the key itself when that is stored. *)
Lemma has_key_map key t : tree_ok t -> key_ok key -> has_key value_type key t = Ok (bool_decide (is_Some (tree_map t !! key))).
Proof.
  intros Ht Hk. unfold has_key. destruct (tree_lookup_best_match key t Ht Hk) as (o & -> & Hb). cbn [mbind result_bind]. f_equal.
  destruct o as [[k v]|]; [destruct Hb as (Hv & [Hf Hp] & Hmax)|].
  - pose proof (stored_key_ok t k Ht ltac:(eauto)) as Hk'. destruct (decide (k = key)) as [->|Hne].
    { rewrite (proj2 (key_ok_eqb key key Hk Hk) eq_refl). by rewrite bool_decide_eq_true_2 by eauto. }
    assert (key_eqb k key = false) as -> by (apply not_true_iff_false; by rewrite key_ok_eqb).
    symmetry. apply bool_decide_eq_false. intros Hin. apply Hne, key_ok_ext; [done..|].
    apply prefix_length_eq; [done|]. by apply (Hmax key Hin).
  - symmetry. apply bool_decide_eq_false. intros Hin. by apply (Hb key Hin).
Qed.

(** ** Sequences of operations *)

Inductive tree_op : Type :=
| OpInsert (key : K) (value : T)
| OpErase (key : K).

(** The keys are legal ones. *)
Definition op_ok (op : tree_op) : Prop :=
  match op with OpInsert k _ => key_ok k | OpErase k => key_ok k end.

Definition tree_step t (op : tree_op) : result (NetmaskTree K T) :=
  match op with
  | OpInsert k v => insert_or_assign value_type k v t
  | OpErase k => tree_erase value_type k t
  end.

Definition map_step (m : gmap K T) (op : tree_op) : gmap K T :=
  match op with OpInsert k v => <[k := v]> m | OpErase k => delete k m end.

(** Only stored keys are erased. *)
Fixpoint erases_stored (m : gmap K T) (ops : list tree_op) : Prop :=
  match ops with
  | [] => True
  | op :: ops =>
      (match op with OpErase k => is_Some (m !! k) | OpInsert _ _ => True end) /\ erases_stored (map_step m op) ops
  end.

Fixpoint tree_run t (ops : list tree_op) : result (NetmaskTree K T) :=
  match ops with [] => Ok t | op :: ops => t ← tree_step t op; tree_run t ops end.

Lemma tree_run_spec ops t :
  tree_ok t -> Forall op_ok ops -> erases_stored (tree_map t) ops ->
  exists t', tree_run t ops = Ok t' /\ tree_ok t' /\ tree_map t' = foldl map_step (tree_map t) ops.
Proof.
  revert t. induction ops as [|op ops IH]; intros t Ht Hok He; [by exists t|].
  apply Forall_cons in Hok as [Hop Hok]. destruct He as [Hst He]. cbn [tree_run foldl].
  assert (exists t1, tree_step t op = Ok t1 /\ tree_ok t1 /\ tree_map t1 = map_step (tree_map t) op) as (t1 & -> & Ht1 & Hm1).
  { destruct op as [k v|k]; [by apply insert_or_assign_refines|by apply tree_erase_refines]. }
  cbn [mbind result_bind]. rewrite <- Hm1 in *. by apply IH.
Qed.

(** C4: a tree goes through any sequence of insertions and of removals of stored
    keys the way a finite map does: no operation fails, the trie keeps its
    invariant (every node under the prefix of its parent, the pointer to the
    first entry and the size up to date), the entries are those of the map, and
    iterating visits each of them once; a key is found exactly when the map has it, a
    lookup answers with the longest stored prefix, and a copy stands for the same
    map. *)
Theorem tree_operations_refine (ops : list tree_op) :
  Forall op_ok ops -> erases_stored ∅ ops ->
  exists t, tree_run (tree_empty value_type) ops = Ok t /\ tree_ok t
    /\ tree_map t = foldl map_step ∅ ops
    /\ d_size t = Z.of_nat (size (tree_map t))
    /\ tree_to_list t ≡ₚ map_to_list (foldl map_step ∅ ops)
    /\ (forall key, key_ok key -> has_key value_type key t = Ok (bool_decide (is_Some (foldl map_step ∅ ops !! key))))
    /\ (forall value, key_ok value ->
          exists o, lookupImpl value_type value (key_getBits value) t = Ok o /\ tree_lookup_key value_type value t = Ok o
                    /\ best_match (foldl map_step ∅ ops) value o)
    /\ (exists t', copyTree value_type t = Ok t' /\ tree_ok t' /\ tree_map t' = foldl map_step ∅ ops).
Proof.
  intros Hok He. destruct (tree_run_spec ops (tree_empty value_type) tree_empty_ok Hok He) as (t & Hrun & Ht & Hm).
  rewrite tree_empty_map in Hm. exists t. rewrite <- Hm.
  split_and!; [done..| | |by intros; apply has_key_map|intros value Hv|by apply copyTree_same_map].
  - pose proof (tree_to_list_complete t Ht) as Hp. rewrite tree_to_list_entries in Hp by done.
    destruct Ht as [_ _ ->]. unfold zlen. by rewrite Hp, length_map_to_list.
  - by apply tree_to_list_complete.
  - destruct (lookupImpl_best_match value t Ht Hv) as (o & E & Hb). exists o. split; [done|]. split; [|done].
    unfold tree_lookup_key, tree_is_empty. destruct (Z.eqb_spec (d_size t) 0) as [E0|_]; [|done].
    destruct o as [[k v]|]; [|done]. exfalso. destruct Hb as (Hkv & _). rewrite tree_map_entries in Hkv by done.
    destruct Ht as [_ _ Hz]. rewrite Hz in E0. apply zlen_zero_inv in E0. rewrite E0 in Hkv. by apply elem_of_nil in Hkv.
Qed.
End spec.

Arguments OpInsert {K T} key value.
Arguments OpErase {K T} key.
