(* ===== verification/NetGroups.v ===== *)
(** * Netmasks as keys, and groups of netmasks

    The two key types of [NetmaskTree] in [pdns/iputils.hh]: [Netmask], which
    keeps the laws the tree relies on, and [AddressAndPortRange], which does not;
    the lookup of an address; [NetmaskGroup], the access lists of the programs. *)

From stdpp Require Import gmap.
From S2P Require Import Prelude IpUtils NetTree NetTreeFacts NetTreeSpec.

#[local] Open Scope Z_scope.

(** ** Netmask as a key *)

#[export] Instance Netmask_key : NetKey Netmask := {
  key_isIPv4 := nm_isIPv4;
  key_isIPv6 := nm_isIPv6;
  key_getBits := nm_bits;
  key_getFullBits := getFullBits;
  key_getBit := nm_getBit;
  key_getNormalized n := Ok (getNormalized n);
  key_getSuper n bits := Ok (getSuper n bits);
  key_eqb := nm_eqb;
  key_default := nm_default;
}.

#[export] Instance AddressAndPortRange_key : NetKey AddressAndPortRange := {
  key_isIPv4 r := ca_isIPv4 (apr_addr r);
  key_isIPv6 r := ca_isIPv6 (apr_addr r);
  key_getBits := apr_getBits;
  key_getFullBits := apr_getFullBits;
  key_getBit := apr_getBit;
  key_getNormalized := apr_getNormalized;
  key_getSuper := apr_getSuper;
  key_eqb := apr_eqb;
  key_default := apr_default;
}.

#[export] Instance ComboAddress_countable : Countable ComboAddress.
Proof.
  apply (inj_countable' (fun a => (sin_family a, sin_port a, sin_addr a)) (fun '(f, p, a) => mkCA f p a)).
  by intros [].
Defined.

#[export] Instance Netmask_countable : Countable Netmask.
Proof.
  apply (inj_countable' (fun n => (d_network n, d_mask n, nm_bits n)) (fun '(a, m, b) => mkNetmask a m b)).
  by intros [].
Defined.

(** [lookup(const ComboAddress&, int max_bits)] of a tree of netmasks. *)
Definition tree_lookup_addr {T} (value_type : T) (value : ComboAddress) (max_bits : Z)
    (t : NetmaskTree Netmask T) : result (option (Netmask * T)) :=
  if tree_is_empty t then Ok None
  else
    let addr_bits := ca_getBits value in
    let max_bits := if (max_bits <? 0) || (addr_bits <? max_bits) then addr_bits else max_bits in
    lookupImpl value_type (nm_make value max_bits) max_bits t.

(** ** Groups of netmasks *)

Definition NetmaskGroup : Type := NetmaskTree Netmask bool.

Definition group_match (g : NetmaskGroup) (address : ComboAddress) : result bool :=
  ret ← tree_lookup_addr false address 128 g;
  Ok (match ret with Some (_, positive) => positive | None => false end).

(** [lookup(address, nmp)]: the answer and the netmask written to [nmp]. *)
Definition group_lookup (g : NetmaskGroup) (address : ComboAddress) : result (bool * option Netmask) :=
  ret ← tree_lookup_addr false address 128 g;
  Ok (match ret with Some (n, positive) => (positive, Some n) | None => (false, None) end).

Definition addMask (netmask : Netmask) (positive : bool) (g : NetmaskGroup) : result NetmaskGroup :=
  insert_or_assign false netmask positive g.

Definition addMasks (group : NetmaskGroup) (positive : option bool) (g : NetmaskGroup) : result NetmaskGroup :=
  foldl (fun acc '(n, v) => acc ≫= addMask n (default v positive)) (Ok g) (tree_to_list group).

Definition deleteMask (netmask : Netmask) (g : NetmaskGroup) : result NetmaskGroup :=
  tree_erase false netmask g.

Definition deleteMasks (group : NetmaskGroup) (g : NetmaskGroup) : result NetmaskGroup :=
  foldl (fun acc '(n, _) => acc ≫= deleteMask n) (Ok g) (tree_to_list group).

(** ** Netmask keeps the laws *)

Lemma nm_family n : nm_ok n -> nm_isIPv6 n = negb (nm_isIPv4 n).
Proof.
  intros [[Hf _] _ _ _ _]. unfold nm_isIPv6, nm_isIPv4, ca_isIPv6, ca_isIPv4. by destruct Hf as [[-> _]|[-> _]].
Qed.

Lemma nm_getBit_abit n i :
  nm_ok n -> 0 <= i < nm_bits n -> nm_getBit n (-1 - i) = abit (sin_addr (d_network n)) i.
Proof.
  intros [Ha _ Hb _ _] Hi. unfold nm_getBit. destruct (Z.ltb_spec (-1 - i) (- nm_bits n)); [lia|].
  destruct (Z.leb_spec 0 (-1 - i)); [lia|]. cbn [andb]. apply ca_getBit_abit; [done|lia].
Qed.

Lemma nm_path_bits n m :
  nm_ok n -> nm_ok m -> nm_bits n <= nm_bits m ->
  path n `prefix_of` path m
  <-> forall i, 0 <= i < nm_bits n -> abit (sin_addr (d_network n)) i = abit (sin_addr (d_network m)) i.
Proof.
  intros Hn Hm Hle. pose proof (nm_ok_bits _ Hn). split.
  - intros Hp i Hi. apply (prefix_lookup_Some _ _ (Z.to_nat i) (nm_getBit n (-1 - i))) in Hp; [|exact (path_lookup n i Hi)].
    rewrite (path_lookup m i) in Hp by (cbn; lia). injection Hp as Hp. cbn in Hp.
    rewrite !nm_getBit_abit in Hp by (done || lia). done.
  - intros He. enough (path n = take (length (path n)) (path m)) as -> by apply prefix_take.
    apply list_eq_same_length with (n := length (path n)); [by rewrite length_take, !length_path; cbn; lia|done|].
    intros j x y Hj Hx Hy. rewrite length_path in Hj. cbn in Hj.
    rewrite lookup_take_lt in Hy by (rewrite length_path; cbn; lia).
    replace j with (Z.to_nat (Z.of_nat j)) in Hx, Hy by lia.
    rewrite path_lookup in Hx, Hy by (cbn; lia). cbn in Hx, Hy. simplify_eq.
    rewrite !nm_getBit_abit by (done || lia). apply He. lia.
Qed.

Lemma nm_full n : nm_ok n -> getFullBits n = if nm_isIPv4 n then 32 else 128.
Proof.
  intros [[Hf _] _ _ _ _]. unfold getFullBits, ca_getBits, nm_isIPv4, ca_isIPv4, ca_isIPv6.
  by destruct Hf as [[-> _]|[-> _]].
Qed.

Lemma nm_same_family n m : nm_ok n -> nm_ok m -> nm_isIPv4 n = nm_isIPv4 m -> sin_family (d_network n) = sin_family (d_network m).
Proof.
  intros [[Hf _] _ _ _ _] [[Hf' _] _ _ _ _]. unfold nm_isIPv4, ca_isIPv4.
  by destruct Hf as [[-> _]|[-> _]], Hf' as [[-> _]|[-> _]].
Qed.

Lemma nm_ext n m : nm_ok n -> nm_ok m -> nm_isIPv4 n = nm_isIPv4 m -> path n = path m -> n = m.
Proof.
  intros Hn Hm Hf Hp. pose proof (nm_same_family _ _ Hn Hm Hf) as Hfam.
  assert (nm_bits n = nm_bits m) as Hb.
  { apply (f_equal length) in Hp. rewrite !length_path in Hp. cbn in Hp. destruct (nm_ok_bits _ Hn), (nm_ok_bits _ Hm). lia. }
  assert (path n `prefix_of` path m) as Hpre by by rewrite Hp. rewrite nm_path_bits in Hpre by (done || lia).
  enough (d_network n = d_network m) as E.
  { pose proof (nm_ok_mask _ Hn) as M1. pose proof (nm_ok_mask _ Hm) as M2. rewrite <- Hb, <- M1 in M2.
    destruct n, m. cbn in *. congruence. }
  apply ca_ext; [apply Hn|apply Hm|done|by rewrite (nm_ok_port _ Hn), (nm_ok_port _ Hm)|].
  intros i Hi. destruct (decide (i < nm_bits n)); [apply Hpre; lia|].
  assert (ca_getBits (d_network n) = ca_getBits (d_network m)) as E
    by (unfold ca_getBits, ca_isIPv4, ca_isIPv6; by rewrite Hfam).
  rewrite (nm_ok_host _ Hn), (nm_ok_host _ Hm) by lia. done.
Qed.

Lemma getSuper_spec n bits :
  nm_ok n -> 0 <= bits <= nm_bits n ->
  nm_ok (getSuper n bits) /\ nm_isIPv4 (getSuper n bits) = nm_isIPv4 n
  /\ path (getSuper n bits) = take (Z.to_nat bits) (path n).
Proof.
  intros Hn Hb. pose proof (nm_ok_bits _ Hn) as Hbits. pose proof (ca_getBits_range (d_network n)).
  unfold getSuper. rewrite u8_small by lia. replace (Z.min (nm_bits n) bits) with bits by lia.
  destruct (nm_make_spec (d_network n) bits (nm_ok_network _ Hn)) as (Hok & Hsb & Hf & Habit); [lia|].
  replace (Z.min bits _) with bits in * by lia. split_and!; [done|unfold nm_isIPv4, ca_isIPv4; by rewrite Hf|].
  set (s := nm_make (d_network n) bits) in *. clearbody s.
  assert (path s `prefix_of` path n) as [u Hu].
  { apply nm_path_bits; [done|done|lia|]. intros i Hi. rewrite Habit by lia. by destruct (Z.ltb_spec i bits); [|lia]. }
  rewrite Hu, take_app_le by (rewrite length_path; cbn; lia). symmetry. apply take_ge. rewrite length_path. cbn. lia.
Qed.

Lemma get32_inj s t : zlen s = 4 -> zlen t = 4 -> bytes_ok s -> bytes_ok t -> get32 s 0 = get32 t 0 -> s = t.
Proof.
  intros Hs Ht Bs Bt E. apply addr_ext; [lia|done|done|]. intros i Hi. rewrite <- !get32_testbit by (done || lia). by rewrite E.
Qed.

Lemma ca_eqb_spec a b : ca_ok a -> ca_ok b -> ca_eqb a b = true <-> a = b.
Proof.
  intros [Ha Ba] [Hb Bb]. unfold ca_eqb. split.
  - destruct (Z.eqb_spec (sin_family a) (sin_family b)) as [Ef|]; [|done].
    destruct (Z.eqb_spec (sin_port a) (sin_port b)) as [Ep|]; [|done]. cbn [andb negb].
    destruct a as [fa pa sa], b as [fb pb sb]. cbn in *. subst.
    destruct (Z.eqb_spec fb AF_INET) as [->|Hne].
    + intros E%Z.eqb_eq. f_equal. destruct Ha as [[_ ?]|[? _]], Hb as [[_ ?]|[? _]]; try done. by apply get32_inj.
    + intros E%bool_decide_eq_true. by subst.
  - intros <-. rewrite !Z.eqb_refl. cbn. case_match; [done|by apply bool_decide_eq_true].
Qed.

#[export] Instance Netmask_laws : NetKeyLaws Netmask.
Proof.
  refine {| key_ok := nm_ok : Netmask -> Prop |}; cbn.
  - apply nm_family.
  - intros k [_ _ Hb _ _]. done.
  - intros k Hk. f_equal. by apply nm_ok_make.
  - intros k bits Hk Hb. eexists. split; [done|]. by apply getSuper_spec.
  - apply nm_ext.
  - intros k k' Hk Hk'. unfold nm_eqb. rewrite andb_true_iff, ca_eqb_spec by (apply Hk || apply Hk'). rewrite Z.eqb_eq. split.
    + intros [E1 E2]. pose proof (nm_ok_mask _ Hk) as M1. pose proof (nm_ok_mask _ Hk') as M2.
      rewrite <- E2, <- M1 in M2. destruct k, k'. cbn in *. congruence.
    + by intros <-.
  - intros [[Hf _] _ _ _ _]. destruct Hf as [[? _]|[? _]]; done.
Defined.

(** ** The lookup of an address *)

(** The prefixes of the first [bits] bits of an address are the netmasks of at
    most that length that match it. *)
Lemma nm_make_prefix n a bits :
  nm_ok n -> ca_ok a -> 0 <= bits <= ca_getBits a ->
  (key_isIPv4 n = key_isIPv4 (nm_make a bits) /\ path n `prefix_of` path (nm_make a bits))
  <-> nm_match n a = true /\ nm_bits n <= bits.
Proof.
  intros Hn Ha Hb. pose proof (ca_getBits_range a). rewrite nm_match_spec by done. unfold nm_covers.
  destruct (nm_make_spec a bits Ha) as (Hok & Hbits & Hf & Habit); [lia|].
  replace (Z.min bits _) with bits in * by lia. set (m := nm_make a bits) in *. clearbody m. cbn [key_isIPv4 Netmask_key].
  assert (nm_isIPv4 n = nm_isIPv4 m <-> sin_family (d_network n) = sin_family a) as Hfam.
  { rewrite <- Hf. split; [by apply nm_same_family|]. unfold nm_isIPv4, ca_isIPv4. by intros ->. }
  assert (path n `prefix_of` path m -> nm_bits n <= bits) as Hle.
  { intros Hp%prefix_length. rewrite !length_path in Hp. cbn in Hp. destruct (nm_ok_bits _ Hn). lia. }
  rewrite Hfam. split.
  - intros [E Hp]. pose proof (Hle Hp). split_and!; [done| |done]. rewrite nm_path_bits in Hp by (done || lia).
    intros i Hi. rewrite Hp, Habit by lia. by destruct (Z.ltb_spec i bits); [|lia].
  - intros [[E Hi] Hlen]. split; [done|]. apply nm_path_bits; [done|done|lia|]. intros i Hi'.
    rewrite Hi, Habit by lia. by destruct (Z.ltb_spec i bits); [|lia].
Qed.

Section lookup.
Context {T : Type} (value_type : T).
Implicit Types t : NetmaskTree Netmask T.

Lemma tree_map_ok t n v : tree_ok t -> tree_map t !! n = Some v -> nm_ok n.
Proof.
  intros Ht Hn. apply (tree_map_entries t n v Ht) in Hn. apply entries_keys in Hn. cbn in Hn.
  destruct Ht as [Hroot _ _]. destruct (d_root t) as [|d l r]; [done|]. destruct Hroot as (Ha & _ & Hl & Hr).
  apply elem_of_keys_Node in Hn as [Hn|[[? _]|Hn]]; [by destruct (wf_keys _ _ _ _ Hl Hn)|congruence|by destruct (wf_keys _ _ _ _ Hr Hn)].
Qed.

(** The most specific of the stored netmasks of at most [max_bits] bits that
    match an address. *)
Definition most_specific (m : gmap Netmask T) (a : ComboAddress) (max_bits : Z) (o : option (Netmask * T)) : Prop :=
  match o with
  | None => forall n v, m !! n = Some v -> nm_match n a = true -> max_bits < nm_bits n
  | Some (n, v) => m !! n = Some v /\ nm_match n a = true /\ nm_bits n <= max_bits
                   /\ forall n' v', m !! n' = Some v' -> nm_match n' a = true -> nm_bits n' <= max_bits ->
                      nm_bits n' <= nm_bits n
  end.

(** Looking an address up in a tree of netmasks finds the longest one that
    matches it by [Netmask::match]: the walk of the trie agrees with a scan of
    all the entries, and an address of one family never finds a netmask of the
    other. *)
Lemma tree_lookup_addr_spec (a : ComboAddress) (max_bits : Z) t :
  tree_ok t -> ca_ok a -> 0 <= max_bits <= ca_getBits a ->
  exists o, tree_lookup_addr value_type a max_bits t = Ok o /\ most_specific (tree_map t) a max_bits o.
Proof.
  intros Ht Ha Hb. pose proof (ca_getBits_range a). destruct (nm_make_spec a max_bits Ha) as (Hok & Hbits & _ & _); [lia|].
  destruct (tree_lookup_best_match value_type (nm_make a max_bits) t Ht Hok) as (o & Ho & Hbest).
  exists o. split.
  - rewrite <- Ho. unfold tree_lookup_addr, tree_lookup_key. case_match; [done|].
    destruct (Z.ltb_spec max_bits 0), (Z.ltb_spec (ca_getBits a) max_bits); try lia. cbn [orb].
    f_equal. cbn [key_getBits Netmask_key]. lia.
  - destruct o as [[n v]|].
    + destruct Hbest as (Hn & Hc & Hmax). pose proof (tree_map_ok _ _ _ Ht Hn) as Hnok.
      rewrite nm_make_prefix in Hc by done. destruct Hc as [Hm Hl]. split_and!; [done..|].
      intros n' v' Hn' Hm' Hl'. pose proof (tree_map_ok _ _ _ Ht Hn') as Hnok'.
      specialize (Hmax n' ltac:(by eexists)). rewrite nm_make_prefix in Hmax by done.
      specialize (Hmax (conj Hm' Hl')). rewrite !length_path in Hmax. cbn in Hmax.
      destruct (nm_ok_bits _ Hnok). lia.
    + intros n v Hn Hm. pose proof (tree_map_ok _ _ _ Ht Hn) as Hnok.
      specialize (Hbest n ltac:(by eexists)). rewrite nm_make_prefix in Hbest by done.
      destruct (decide (nm_bits n <= max_bits)); [by destruct Hbest|lia].
Qed.
End lookup.

(** an access list decides by the most specific of its netmasks that match
    the address. *)
Theorem group_match_spec (g : NetmaskGroup) (a : ComboAddress) :
  tree_ok g -> ca_ok a ->
  exists b, group_match g a = Ok b
    /\ (b = true <-> exists n, tree_map g !! n = Some true /\ nm_match n a = true
          /\ forall n' v, tree_map g !! n' = Some v -> nm_match n' a = true -> nm_bits n' <= nm_bits n).
Proof.
  intros Hg Ha. pose proof (ca_getBits_range a) as Hr.
  destruct (tree_lookup_addr_spec false a (ca_getBits a) g Hg Ha) as (o & Ho & Hms); [lia|].
  assert (forall n v, tree_map g !! n = Some v -> nm_match n a = true -> nm_ok n /\ nm_bits n <= ca_getBits a) as Hfull.
  { intros n v Hn Hm. pose proof (tree_map_ok _ _ _ Hg Hn) as Hnok. split; [done|].
    rewrite nm_match_spec in Hm by done. destruct Hm as [Hf _]. pose proof (nm_ok_bits _ Hnok).
    replace (ca_getBits a) with (ca_getBits (d_network n)); [lia|]. unfold ca_getBits, ca_isIPv4, ca_isIPv6. by rewrite Hf. }
  assert (tree_lookup_addr false a 128 g = Ok o) as Ho'.
  { rewrite <- Ho. unfold tree_lookup_addr. case_match; [done|].
    destruct (Z.ltb_spec (ca_getBits a) (ca_getBits a)); [lia|]. destruct (Z.ltb_spec (ca_getBits a) 0); [lia|]. cbn [orb].
    destruct (Z.ltb_spec (ca_getBits a) 128); cbn [orb Z.ltb Z.compare]; [done|]. by replace (ca_getBits a) with 128 by lia. }
  unfold group_match. rewrite Ho'. cbn [mbind result_bind]. eexists. split; [done|].
  destruct o as [[n v]|].
  - destruct Hms as (Hn & Hm & Hl & Hmax). split.
    + intros ->. exists n. split_and!; [done..|]. intros n' v' Hn' Hm'. destruct (Hfull n' v' Hn' Hm'). by eapply Hmax.
    + intros (n' & Hn' & Hm' & Hmax'). destruct (Hfull _ _ Hn Hm) as [Hok _], (Hfull _ _ Hn' Hm') as [Hok' Hl'].
      pose proof (Hmax _ _ Hn' Hm' Hl') as L1. pose proof (Hmax' _ _ Hn Hm) as L2.
      assert (n = n') as <-; [|congruence].
      assert (forall m, nm_ok m -> nm_match m a = true -> nm_make a (nm_bits m) = m) as Hmake.
      { intros m Hmok Hmm. rewrite nm_match_spec in Hmm by done. destruct Hmm as [Hf Hi].
        pose proof (nm_ok_bits _ Hmok) as Hmb.
        assert (ca_getBits (d_network m) = ca_getBits a) as E by (unfold ca_getBits, ca_isIPv4, ca_isIPv6; by rewrite Hf).
        destruct (nm_make_spec a (nm_bits m) Ha) as (Hmk & Hb & Hf' & Habit); [lia|].
        apply nm_ext; [done|done|unfold nm_isIPv4, ca_isIPv4; by rewrite Hf', Hf|].
        rewrite E in Hmb. replace (Z.min _ _) with (nm_bits m) in * by lia.
        apply (anti_symm prefix); apply nm_path_bits; try done; try lia; intros i Hi'; rewrite Habit by lia;
          (destruct (Z.ltb_spec i (nm_bits m)); [|lia]); cbn [andb]; [symmetry|]; apply Hi; lia. }
      rewrite <- (Hmake n), <- (Hmake n') by done. f_equal. lia.
  - split; [done|]. intros (n & Hn & Hm & _). destruct (Hfull _ _ Hn Hm). specialize (Hms n true Hn Hm). lia.
Qed.

(** ** Examples *)

Definition v4 (a b c d : Z) : ComboAddress := mkCA AF_INET 0 [a; b; c; d].

Definition ex_ops : list (@tree_op Netmask bool) :=
  [OpInsert (nm_make (v4 10 0 0 0) 8) true; OpInsert (nm_make (v4 10 1 0 0) 16) false;
   OpErase (nm_make (v4 10 0 0 0) 8)].

Lemma v4_mask_ok a b c d bits :
  bytes_ok [a; b; c; d] -> 0 <= bits < 256 -> nm_ok (nm_make (v4 a b c d) bits).
Proof. intros Hb Hbits. apply nm_make_spec; [|done]. split; [by left|done]. Qed.

Lemma ex_ops_ok : Forall op_ok ex_ops.
Proof. do 3 (apply Forall_cons; split; [apply v4_mask_ok; [by_decide|lia]|]). constructor. Qed.

Lemma ex_ops_stored : erases_stored ∅ ex_ops.
Proof. cbn. split_and!; done. Qed.

Lemma tree_operations_refine_witness :
  exists t, tree_run false (tree_empty false) ex_ops = Ok t /\ tree_ok t
    /\ tree_map t = foldl map_step ∅ ex_ops /\ d_size t = Z.of_nat (size (tree_map t))
    /\ has_key false (nm_make (v4 10 1 0 0) 16) t = Ok true.
Proof.
  destruct (tree_operations_refine false ex_ops) as (t & Hrun & Ht & Hm & Hs & _ & Hk & _); [apply ex_ops_ok|apply ex_ops_stored|].
  exists t. split_and!; [done..|]. rewrite Hk; [done|]. apply v4_mask_ok; [by_decide|lia].
Defined.

Definition ok_or {A} (d : A) (r : result A) : A := match r with Ok a => a | Throw _ => d end.

Definition ex_group : NetmaskGroup := ok_or (tree_empty false) (tree_run false (tree_empty false) ex_ops).

Lemma ex_group_ok : tree_ok ex_group.
Proof.
  destruct (tree_run_spec false ex_ops (tree_empty false)) as (t & E & Ht & _);
    [apply tree_empty_ok|apply ex_ops_ok|apply ex_ops_stored|]. unfold ex_group. by rewrite E.
Qed.

Lemma group_match_spec_witness :
  exists b, group_match ex_group (v4 10 1 2 3) = Ok b
    /\ (b = true <-> exists n, tree_map ex_group !! n = Some true /\ nm_match n (v4 10 1 2 3) = true
          /\ forall n' v, tree_map ex_group !! n' = Some v -> nm_match n' (v4 10 1 2 3) = true -> nm_bits n' <= nm_bits n).
Proof. apply (group_match_spec ex_group (v4 10 1 2 3)); [apply ex_group_ok|by_decide]. Defined.

Lemma truncate_is_masked_network_witness :
  ca_truncate 20 (ca_setPort 0 (v4 192 168 255 1)) = d_network (nm_make (v4 192 168 255 1) 20)
  /\ sin_addr (ca_truncate 20 (v4 192 168 255 1)) = [192; 168; 240; 0].
Proof. split; [apply (truncate_is_masked_network 20 (v4 192 168 255 1)); [by_decide|by vm_compute]|by vm_compute]. Defined.

(** removing a netmask that is not in a group removes a narrower one that is:
    the walk of [erase] stops at the first node below the key and does not
    compare lengths.  Here [10.0.0.0/8] is removed from a group that only has
    [10.1.0.0/16]. *)
Theorem erase_takes_narrower :
  exists g g' : NetmaskGroup,
    addMask (nm_make (v4 10 1 0 0) 16) true (tree_empty false) = Ok g
    /\ tree_map g !! nm_make (v4 10 0 0 0) 8 = None
    /\ group_match g (v4 10 1 2 3) = Ok true
    /\ deleteMask (nm_make (v4 10 0 0 0) 8) g = Ok g'
    /\ group_match g' (v4 10 1 2 3) = Ok false.
Proof.
  set (g := ok_or (tree_empty false) (addMask (nm_make (v4 10 1 0 0) 16) true (tree_empty false))).
  exists g, (ok_or g (deleteMask (nm_make (v4 10 0 0 0) 8) g)). split_and!; vm_compute; reflexivity.
Qed.

(** Removing the inner node of two networks, which is not in the group, makes
    the size wrong; with two such removals the group counts as empty. *)
Lemma erase_miscounts :
  exists g : NetmaskGroup,
    tree_run false (tree_empty false)
      [OpInsert (nm_make (v4 10 0 0 0) 9) true; OpInsert (nm_make (v4 10 128 0 0) 9) true;
       OpErase (nm_make (v4 10 0 0 0) 8); OpErase (nm_make (v4 10 0 0 0) 8)] = Ok g
    /\ length (entries (d_root g)) = 2%nat /\ d_size g = 0 /\ group_match g (v4 10 1 2 3) = Ok false.
Proof.
  exists (ok_or (tree_empty false) (tree_run false (tree_empty false)
      [OpInsert (nm_make (v4 10 0 0 0) 9) true; OpInsert (nm_make (v4 10 128 0 0) 9) true;
       OpErase (nm_make (v4 10 0 0 0) 8); OpErase (nm_make (v4 10 0 0 0) 8)])).
  split_and!; vm_compute; reflexivity.
Qed.

(** ** Ranges of ports *)

(** The range of [bits] of the port of 192.0.2.1. *)
Definition ex_range (port bits : Z) : AddressAndPortRange :=
  ok_or apr_default (apr_make (mkCA AF_INET port [192; 0; 2; 1]) 32 bits).

Definition insert_ranges : list (AddressAndPortRange * Z) -> result (NetmaskTree AddressAndPortRange Z) :=
  foldl (fun acc '(r, v) => acc ≫= insert_or_assign 0 r v) (Ok (tree_empty 0)).

Definition ex_ranges : list (AddressAndPortRange * Z) := [(ex_range 0 4, 1); (ex_range 4096 4, 2); (ex_range 16384 4, 3)].

(** the super-range of a range of ports has the wrong length: it drops the
    bits it should keep.  The tree of dnsdist's dynamic blocks, keyed by such
    ranges, then loses entries: of three clients of one address that are blocked
    by the four upper bits of their port, only two are found again. *)
Theorem port_ranges_lose_entries :
  (exists s, apr_getSuper (ex_range 4096 4) 35 = Ok s /\ apr_getBits s = 33)
  /\ exists t, insert_ranges ex_ranges = Ok t /\ d_size t = 3
       /\ tree_lookup_key 0 (ex_range 0 4) t = Ok (Some (ex_range 0 4, 1))
       /\ tree_lookup_key 0 (ex_range 4096 4) t = Ok None
       /\ tree_lookup_key 0 (ex_range 16384 4) t = Ok (Some (ex_range 16384 4, 3)).
Proof.
  split; [exists (ok_or apr_default (apr_getSuper (ex_range 4096 4) 35))|exists (ok_or (tree_empty 0) (insert_ranges ex_ranges))];
    split_and!; vm_compute; reflexivity.
Qed.
