(* ===== verification/Ixfr.v ===== *)
(** * Incremental zone transfer

    [pdns/ixfr.cc]: the receiving side of an IXFR.  [processIXFRRecords] cuts the
    records of the answer into deltas; the loop of [getIXFRDeltas] collects the
    records of the messages and decides when the transfer is complete.  The
    network is a list of events.  The text of exceptions is shortened. *)

From S2P Require Import Prelude Chars Dns Names.

#[local] Open Scope Z_scope.

(** ** Records *)

(** What the transfer looks at of a [DNSRecord]; [xr_soa] is the serial when the
    content is an [SOARecordContent]. *)
Record xrecord : Type := mkXRecord {
  xr_name : DNSName;
  xr_type : Z;
  xr_place : Place;
  xr_soa : option Z;
  xr_data : bytes;
}.

Definition is_soa (r : xrecord) : bool := xr_type r =? QType.SOA.

(** Removals and additions. *)
Definition delta : Type := list xrecord * list xrecord.

Definition ixfr_error (s : string) : exn := runtime_error s.

(** ** [processIXFRRecords] *)

(** The records up to the next SOA record, and the rest. *)
Fixpoint until_soa (l : list xrecord) : list xrecord * list xrecord :=
  match l with
  | [] => ([], [])
  | r :: l' => if is_soa r then ([], l) else let '(a, b) := until_soa l' in (r :: a, b)
  end.

(** The loop; [rest] are the records from [pos] on, of which each round takes at
    least two. *)
Fixpoint ixfr_loop (fuel : nat) (records : list xrecord) (primarySerial : Z) (rest : list xrecord)
    (ret : list delta) : result (list delta) :=
  match fuel, rest with
  | S fuel', soa :: rest =>
      if negb (is_soa soa) then Ok [([], records)]
      else
        match xr_soa soa with
        | None => Throw (ixfr_error "Error getting the content of the first SOA record of this IXFR sequence")
        | Some serial =>
            if serial =? primarySerial then
              if zlen records =? 2 then Ok [([], records)] else Ok ret
            else
              let '(removals, rest) := until_soa rest in
              match rest with
              | [] => Throw (ixfr_error "No SOA record to finish the removals part of the IXFR sequence")
              | newSoa :: rest =>
                  match xr_soa newSoa with
                  | None => Throw (ixfr_error "Invalid SOA record to finish the removals part of the IXFR sequence")
                  | Some newSerial =>
                      let '(additions, rest) := until_soa rest in
                      match rest with
                      | [] => Throw (ixfr_error "No SOA record to finish the additions part of the IXFR sequence")
                      | endSoa :: after =>
                          match xr_soa endSoa with
                          | None => Throw (ixfr_error "Invalid SOA record to finish the additions part of the IXFR sequence")
                          | Some endSerial =>
                              if negb (endSerial =? newSerial)
                              then Throw (ixfr_error "Invalid serial in the SOA record finishing the additions part")
                              else if (newSerial =? primarySerial) && negb (bool_decide (after = []))
                              then Throw (ixfr_error "Trailing records after the last IXFR sequence")
                              else ixfr_loop fuel' records primarySerial rest
                                     (ret ++ [(soa :: removals, newSoa :: additions)])
                          end
                      end
                  end
              end
        end
  | _, _ => Ok ret
  end.

Definition processIXFRRecords (records : list xrecord) (primarySOA : option Z) : result (list delta) :=
  match records, primarySOA with
  | [], _ | _, None => Ok []
  | _ :: rest, Some primarySerial => ixfr_loop (length records) records primarySerial rest []
  end.

(** ** [getIXFRDeltas] *)

(** [size_t] arithmetic. *)
Definition u64 (x : Z) : Z := x mod 2 ^ 64.

Inductive TransferStyle : Type := XfrUnknown | XfrAXFR | XfrIXFR.

#[export] Instance TransferStyle_eq_dec : EqDecision TransferStyle.
Proof. solve_decision. Defined.

Record xfr_vars : Type := mkXfr {
  x_primarySOA : option Z;
  x_records : list xrecord;
  x_style : TransferStyle;
  x_primarySOACount : Z;
  x_receivedBytes : Z;
}.

Definition expectedSOAForAXFR : Z := 2.
Definition expectedSOAForIXFR : Z := 3.

(** What the next read gives: a message of [len] bytes that the parser and the
    TSIG verifier accept, with its response code and records; a failed read of
    the length, which ends the loop; or an exception. *)
Inductive xfr_event : Type :=
| XfrMessage (len rcode : Z) (answers : list xrecord)
| XfrReadError
| XfrThrow (e : exn).

Section receive.
Context (zone : DNSName) (ourSerial maxReceivedBytes : Z).

Definition set_primary (serial : Z) (v : xfr_vars) : xfr_vars :=
  mkXfr (Some serial) (x_records v) (x_style v) (u32 (x_primarySOACount v + 1)) (x_receivedBytes v).
Definition count_primary (v : xfr_vars) : xfr_vars :=
  mkXfr (x_primarySOA v) (x_records v) (x_style v) (u32 (x_primarySOACount v + 1)) (x_receivedBytes v).
Definition set_style (s : TransferStyle) (v : xfr_vars) : xfr_vars :=
  mkXfr (x_primarySOA v) (x_records v) s (x_primarySOACount v) (x_receivedBytes v).
Definition push_record (r : xrecord) (v : xfr_vars) : xfr_vars :=
  mkXfr (x_primarySOA v) (x_records v ++ [r]) (x_style v) (x_primarySOACount v) (x_receivedBytes v).
Definition add_received (len : Z) (v : xfr_vars) : xfr_vars :=
  mkXfr (x_primarySOA v) (x_records v) (x_style v) (x_primarySOACount v) (x_receivedBytes v + len).

(** The part of the loop body that looks for SOA records: [None] is the [return]
    of a secondary that is up to date. *)
Definition xfr_soa (record : xrecord) (v : xfr_vars) : result (option xfr_vars) :=
  match x_primarySOA v with
  | None =>
      if negb (is_soa record) then Throw (ixfr_error "The first record of the IXFR answer is not a SOA")
      else
        match xr_soa record with
        | None => Throw (ixfr_error "Error getting the content of the first SOA record of the IXFR answer")
        | Some serial =>
            if serial =? ourSerial then Ok None
            else if serial <? ourSerial then Throw (ixfr_error "Our serial is higher than remote one")
            else Ok (Some (set_primary serial v))
        end
  | Some primary =>
      if is_soa record then
        match xr_soa record with
        | None => Throw (ixfr_error "Error getting the content of SOA record of IXFR answer")
        | Some serial => Ok (Some (if primary =? serial then count_primary v else v))
        end
      else Ok (Some v)
  end.

(** The style is decided at the second record. *)
Definition xfr_decide_style (record : xrecord) (v : xfr_vars) : xfr_vars :=
  if (zlen (x_records v) =? 1) && bool_decide (x_style v = XfrUnknown) then
    if negb (is_soa record) || (x_primarySOACount v =? expectedSOAForAXFR) then set_style XfrAXFR v
    else set_style XfrIXFR v
  else v.

Definition relative (record : xrecord) (name : DNSName) : xrecord :=
  mkXRecord name (xr_type record) (xr_place record) (xr_soa record) (xr_data record).

(** One record of a message. *)
Definition xfr_record (record : xrecord) (v : xfr_vars) : result (option xfr_vars) :=
  o ← xfr_soa record v;
  match o with
  | None => Ok None
  | Some v =>
      let v := xfr_decide_style record v in
      if negb (bool_decide (xr_place record = ANSWER)) then
        if (xr_type record =? QType.TSIG) || (xr_type record =? QType.OPT) then Ok (Some v)
        else Throw (ixfr_error "Unexpected record in non-answer section in IXFR response")
      else
        part ← isPartOf (xr_name record) zone;
        if negb part then Ok (Some v)
        else
          name ← makeRelative (xr_name record) zone;
          Ok (Some (push_record (relative record name) v))
  end.

Fixpoint xfr_answers (answers : list xrecord) (v : xfr_vars) : result (option xfr_vars) :=
  match answers with
  | [] => Ok (Some v)
  | record :: answers =>
      o ← xfr_record record v;
      match o with None => Ok None | Some v => xfr_answers answers v end
  end.

Definition xfr_done (v : xfr_vars) : bool :=
  (bool_decide (x_style v = XfrAXFR) && (x_primarySOACount v =? expectedSOAForAXFR))
  || (bool_decide (x_style v = XfrIXFR) && (x_primarySOACount v =? expectedSOAForIXFR)).

(** The loop over the messages. *)
Fixpoint xfr_loop (events : list xfr_event) (v : xfr_vars) : result (option xfr_vars) :=
  if xfr_done v then Ok (Some v)
  else
    match events with
    | [] | XfrReadError :: _ => Ok (Some v)
    | XfrThrow e :: _ => Throw e
    | XfrMessage len rcode answers :: events =>
        if len =? 0 then Ok (Some v)
        else if (0 <? maxReceivedBytes) && (u64 (maxReceivedBytes - x_receivedBytes v) <? len)
        then Throw (ixfr_error "Reached the maximum number of received bytes in an IXFR delta")
        else if negb (rcode =? 0) then Throw (ixfr_error "Got an error trying to IXFR zone")
        else
          o ← xfr_answers answers (add_received len v);
          match o with None => Ok None | Some v => xfr_loop events v end
    end.

(** The checks after the loop. *)
Definition xfr_complete (v : xfr_vars) : bool :=
  match x_style v with
  | XfrIXFR => x_primarySOACount v =? expectedSOAForIXFR
  | XfrAXFR => x_primarySOACount v =? expectedSOAForAXFR
  | XfrUnknown => false
  end.

Definition xfr_start : xfr_vars := mkXfr None [] XfrUnknown 0 0.

Definition getIXFRDeltas (events : list xfr_event) : result (list delta) :=
  o ← xfr_loop events xfr_start;
  match o with
  | None => Ok []
  | Some v =>
      if negb (xfr_complete v) then Throw (ixfr_error "Incomplete transfer")
      else processIXFRRecords (x_records v) (x_primarySOA v)
  end.
End receive.
