(* ===== verification/IxfrSpec.v ===== *)
(** * What an incremental transfer delivers

    [processIXFRRecords] inverts the format of RFC 1995 exactly, and the receiving
    loop of [getIXFRDeltas] delivers the transfer whatever the messages it was cut
    into. *)

From S2P Require Import Prelude Chars Dns Names NamesFacts Ixfr Validate.

#[local] Open Scope Z_scope.

(** ** The format *)

Definition soa_serial (r : xrecord) (s : Z) : Prop := is_soa r = true /\ xr_soa r = Some s.

(** Deltas that lead from serial [s] to the primary serial [p]. *)
Inductive chain (p : Z) : Z -> list delta -> Prop :=
| chain_nil : chain p p []
| chain_cons s s' old removals new additions ds :
    soa_serial old s -> s <> p -> Forall (fun r => is_soa r = false) removals ->
    soa_serial new s' -> Forall (fun r => is_soa r = false) additions -> chain p s' ds ->
    chain p s ((old :: removals, new :: additions) :: ds).

(** The records of the deltas in order. *)
Definition flatten (ds : list delta) : list xrecord := concat (map (fun d => fst d ++ snd d) ds).

Lemma flatten_cons a b ds : flatten ((a, b) :: ds) = a ++ b ++ flatten ds.
Proof. unfold flatten. cbn. by rewrite <- app_assoc. Qed.

Lemma until_soa_app a r l : Forall (fun r => is_soa r = false) a -> is_soa r = true -> until_soa (a ++ r :: l) = (a, r :: l).
Proof. intros Ha Hr. induction Ha as [|x a Hx _ IH]; cbn; [by rewrite Hr|]. by rewrite Hx, IH. Qed.

Lemma until_soa_inv l a b :
  until_soa l = (a, b) ->
  l = a ++ b /\ Forall (fun r => is_soa r = false) a /\ match b with [] => True | r :: _ => is_soa r = true end.
Proof.
  revert a b. induction l as [|r l IH]; intros a b; cbn; [by intros [= <- <-]|].
  destruct (is_soa r) eqn:E; [by intros [= <- <-]|]. destruct (until_soa l) as [a' b'].
  intros [= <- <-]. destruct (IH _ _ eq_refl) as (-> & Ha & Hb). split_and!; [done|by constructor|done].
Qed.

(** The loop reads off a chain. *)
Lemma ixfr_loop_chain fuel all p s ds last ret :
  chain p s ds -> soa_serial last p -> (2 < length all)%nat -> (length (flatten ds ++ [last]) <= fuel)%nat ->
  ixfr_loop fuel all p (flatten ds ++ [last]) ret = Ok (ret ++ ds).
Proof.
  intros Hc [Hl1 Hl2] Hall. revert fuel ret.
  induction Hc as [|s s' old removals new additions ds [Ho1 Ho2] Hne Hrem [Hn1 Hn2] Hadd Hc IH]; intros fuel ret Hf.
  - destruct fuel as [|fuel]; [cbn in Hf; lia|]. cbn. rewrite Hl1, Hl2, Z.eqb_refl. cbn.
    rewrite (proj2 (Z.eqb_neq (zlen all) 2)) by (unfold zlen; lia). by rewrite app_nil_r.
  - destruct fuel as [|fuel]; [cbn in Hf; lia|].
    rewrite flatten_cons, <- !app_assoc in Hf |- *. cbn [app] in Hf |- *.
    cbn [ixfr_loop]. rewrite Ho1, Ho2. cbn [negb]. rewrite (proj2 (Z.eqb_neq _ _) Hne), until_soa_app by done. rewrite Hn2.
    assert (exists e after, flatten ds ++ [last] = e :: after /\ is_soa e = true /\ xr_soa e = Some s'
              /\ (s' = p -> after = [])) as (e & after & He & He1 & He2 & He3).
    { destruct Hc as [|s' s'' old' rem' new' add' ds' [??] ?]; [by exists last, []|].
      rewrite flatten_cons. cbn. eexists _, _. split_and!; [done..|]. congruence. }
    rewrite He, until_soa_app, He2, Z.eqb_refl by done. cbn [negb].
    assert ((s' =? p) && negb (bool_decide (after = [])) = false) as ->.
    { destruct (Z.eqb_spec s' p) as [E|]; [|done]. by rewrite (He3 E). }
    rewrite <- He, IH; [by rewrite <- app_assoc|]. cbn [length] in Hf. rewrite length_app in Hf. cbn [length] in Hf.
    rewrite length_app in Hf. lia.
Qed.

Lemma ixfr_loop_inv fuel all p s soa rest ret res :
  soa_serial soa s -> s <> p -> (2 < length all)%nat -> (length (soa :: rest) <= fuel)%nat ->
  ixfr_loop fuel all p (soa :: rest) ret = Ok res ->
  exists ds last, ds <> [] /\ chain p s ds /\ soa_serial last p /\ res = ret ++ ds /\ soa :: rest = flatten ds ++ [last].
Proof.
  revert s soa rest ret. induction fuel as [|fuel IH]; intros s soa rest ret [Hs1 Hs2] Hne Hall Hf H; [cbn in Hf; lia|].
  cbn [ixfr_loop] in H. rewrite Hs1, Hs2 in H. cbn [negb] in H. rewrite (proj2 (Z.eqb_neq _ _) Hne) in H.
  destruct (until_soa rest) as [removals rest2] eqn:E1. apply until_soa_inv in E1 as (-> & Hrem & Hn).
  destruct rest2 as [|new rest3]; [done|]. destruct (xr_soa new) as [s'|] eqn:En; [|done].
  destruct (until_soa rest3) as [additions rest4] eqn:E2. apply until_soa_inv in E2 as (-> & Hadd & He).
  destruct rest4 as [|e after]; [done|]. destruct (xr_soa e) as [s''|] eqn:Ee; [|done].
  destruct (Z.eqb_spec s'' s') as [->|]; [|done]. cbn [negb] in H. case_match eqn:Etrail; [done|].
  destruct (Z.eqb_spec s' p) as [->|Hne'].
  - cbn [andb] in Etrail. apply negb_false_iff, bool_decide_eq_true in Etrail as ->.
    assert (Ok res = Ok (ret ++ [(soa :: removals, new :: additions)])) as [= ->].
    { rewrite <- H. destruct fuel as [|fuel]; [done|]. cbn. rewrite He, Ee, Z.eqb_refl. cbn.
      rewrite (proj2 (Z.eqb_neq (zlen all) 2)) by (unfold zlen; lia). done. }
    exists [(soa :: removals, new :: additions)], e. split_and!; [done| |done|done|].
    + econstructor; [done|done|done|done|done|constructor].
    + rewrite flatten_cons. cbn. by rewrite app_nil_r, <- app_assoc.
  - apply (IH s' e) in H as (ds & last & Hds & Hc & Hl & -> & Hr); [|done|done|done|].
    + exists ((soa :: removals, new :: additions) :: ds), last. split_and!; [done|by econstructor|done|by rewrite <- app_assoc|].
      rewrite flatten_cons, <- !app_assoc. cbn. by rewrite <- Hr.
    + cbn in Hf |- *. rewrite length_app in Hf. cbn in Hf. rewrite length_app in Hf. cbn in Hf. lia.
Qed.

(** [processIXFRRecords] on an incremental answer is exactly the inverse of
    its format: it returns deltas if and only if the records after the first are
    those deltas in order, each from the serial the one before led to, the last
    one to the serial of the primary, closed by one SOA record of the primary; on
    everything else it throws. *)
Theorem processIXFRRecords_exact p first second rest s ds :
  soa_serial second s -> s <> p ->
  processIXFRRecords (first :: second :: rest) (Some p) = Ok ds
  <-> ds <> [] /\ chain p s ds /\ exists last, soa_serial last p /\ second :: rest = flatten ds ++ [last].
Proof.
  intros Hs Hne. cbn [processIXFRRecords]. destruct (decide (rest = [])) as [->|Hrest].
  - destruct Hs as [Hs1 Hs2]. cbn. rewrite Hs1, Hs2. cbn. rewrite (proj2 (Z.eqb_neq _ _) Hne). split; [done|].
    intros (Hds & Hc & last & _ & E). inversion Hc as [|? ? old rem new add ds' ? ? ? ? ? Hc']; subst; [done|].
    rewrite flatten_cons in E. apply (f_equal length) in E. cbn in E. rewrite !length_app in E. cbn in E. lia.
  - assert (2 < length (first :: second :: rest))%nat as Hall by (destruct rest; [done|cbn; lia]). split.
    + intros H. destruct (ixfr_loop_inv _ _ _ s _ _ _ _ Hs Hne Hall (Nat.le_succ_diag_r _) H)
        as (ds' & last & Hds & Hc & Hl & -> & E). cbn [app]. split_and!; [done|done|]. by exists last.
    + intros (Hds & Hc & last & Hl & E). rewrite E. apply (ixfr_loop_chain _ _ _ s); [done|done|by rewrite <- E|]. rewrite <- E. cbn. lia.
Qed.

(** ** Receiving *)

(** ** A transfer cut into messages *)

(** A message: its length, its answers, and what else it carries. *)
Record chunk : Type := mkChunk { c_len : Z; c_answers : list xrecord; c_extra : list xrecord }.

Definition messages (chunks : list chunk) : list xfr_event :=
  map (fun c => XfrMessage (c_len c) 0 (c_answers c ++ c_extra c)) chunks.

Definition received (chunks : list chunk) : Z := foldr (fun c n => c_len c + n) 0 chunks.

(** A signature or an OPT record outside of the answers. *)
Definition side_record (r : xrecord) : Prop :=
  xr_place r <> ANSWER /\ (xr_type r = QType.TSIG \/ xr_type r = QType.OPT).

(** Such records come only with or after the second record of the transfer; [n]
    records were in earlier messages. *)
Fixpoint chunks_ok (n : nat) (chunks : list chunk) : Prop :=
  match chunks with
  | [] => True
  | c :: chunks =>
      0 < c_len c /\ Forall side_record (c_extra c)
      /\ (c_extra c = [] \/ (2 <= n + length (c_answers c))%nat)
      /\ chunks_ok (n + length (c_answers c)) chunks
  end.

Lemma received_nonneg n chunks : chunks_ok n chunks -> 0 <= received chunks.
Proof.
  revert n. induction chunks as [|c chunks IH]; intros n; [done|]. intros (? & _ & _ & H%IH). unfold received in *. cbn [foldr]. lia.
Qed.

Section receive.
Context (zone : DNSName) (ours p maxBytes : Z).

(** A record as it is kept, its name relative to the zone. *)
Definition rel (r : xrecord) : xrecord :=
  match makeRelative (xr_name r) zone with Ok n => relative r n | Throw _ => r end.

Record ok_record (r : xrecord) : Prop := {
  okr_place : xr_place r = ANSWER;
  okr_zone : isPartOf (xr_name r) zone = Ok true;
  okr_soa : is_soa r = true -> is_Some (xr_soa r);
}.

Definition is_primary (r : xrecord) : bool := is_soa r && bool_decide (xr_soa r = Some p).
Definition primaries (l : list xrecord) : Z := zlen (List.filter is_primary l).

Lemma primaries_app a b : primaries (a ++ b) = primaries a + primaries b.
Proof. unfold primaries. by rewrite List.filter_app, zlen_app. Qed.

Lemma primaries_nonneg l : 0 <= primaries l.
Proof. apply zlen_nonneg. Qed.

(** The variables of the loop after the records [l]. *)
Definition after (style : TransferStyle) (l : list xrecord) (bytes : Z) : xfr_vars :=
  mkXfr (match l with [] => None | _ => Some p end) (map rel l)
    (match l with [] | [_] => XfrUnknown | _ => style end) (primaries l) bytes.

(** The style that the second record shows. *)
Definition style_of (second : xrecord) : TransferStyle :=
  if negb (is_soa second) || is_primary second then XfrAXFR else XfrIXFR.

Lemma primaries_one r : primaries [r] = if is_primary r then 1 else 0.
Proof. unfold primaries. cbn. by destruct (is_primary r). Qed.

Lemma is_primary_soa r : soa_serial r p -> is_primary r = true.
Proof. intros [H1 H2]. unfold is_primary. by rewrite H1, H2, bool_decide_true. Qed.

(** The count after a record, and the SOA record of the primary that is known. *)
Lemma xfr_soa_after style l r b :
  l <> [] -> ok_record r -> primaries l + 1 < 2 ^ 32 ->
  xfr_soa ours r (after style l b)
  = Ok (Some (mkXfr (Some p) (map rel l) (x_style (after style l b)) (primaries (l ++ [r])) b)).
Proof.
  intros Hl [_ _ Hs] Hc. unfold xfr_soa. replace (x_primarySOA (after style l b)) with (Some p) by (by destruct l).
  rewrite primaries_app, primaries_one. pose proof (primaries_nonneg l). unfold is_primary.
  destruct (is_soa r) eqn:Er; cbn [andb].
  - destruct (Hs eq_refl) as [serial Es]. rewrite Es. destruct (Z.eqb_spec p serial) as [<-|Hne].
    + rewrite bool_decide_true by done. unfold count_primary, after. cbn. unfold u32. rewrite Z.mod_small by lia. by destruct l.
    + rewrite bool_decide_false by congruence. rewrite Z.add_0_r. by destruct l.
  - rewrite Z.add_0_r. by destruct l.
Qed.

Lemma xfr_record_after style l r b :
  ours < p -> ok_record r -> (l = [] -> soa_serial r p) ->
  (forall first, l = [first] -> soa_serial first p /\ style = style_of r) -> primaries l + 1 < 2 ^ 32 ->
  xfr_record zone ours r (after style l b) = Ok (Some (after style (l ++ [r]) b)).
Proof.
  intros Hlt Hok Hfirst Hstyle Hcount. pose proof Hok as [Hpl Hz Hs]. unfold xfr_record.
  assert (makeRelative (xr_name r) zone = Ok (xr_name (rel r)) /\ relative r (xr_name (rel r)) = rel r) as [Hmk Hrel].
  { unfold rel, makeRelative. rewrite Hz. by cbn. }
  destruct l as [|first l].
  - destruct (Hfirst eq_refl) as [Hr1 Hr2]. unfold xfr_soa. cbn [x_primarySOA after]. rewrite Hr1, Hr2. cbn [negb].
    rewrite (proj2 (Z.eqb_neq p ours)), (proj2 (Z.ltb_ge p ours)) by lia. cbn [mbind result_bind].
    rewrite Hpl, bool_decide_true by done. cbn [negb]. rewrite Hz. cbn [mbind result_bind negb]. rewrite Hmk. cbn [mbind result_bind].
    rewrite Hrel. unfold after. cbn. by rewrite primaries_one, is_primary_soa.
  - rewrite xfr_soa_after by done. cbn [mbind result_bind]. set (v := mkXfr _ _ _ _ _).
    assert (xfr_decide_style r v
      = mkXfr (Some p) (map rel (first :: l)) style (primaries ((first :: l) ++ [r])) b) as ->.
    { unfold xfr_decide_style, v. destruct l as [|second l].
      - destruct (Hstyle first eq_refl) as [Hf ->]. cbn [x_records x_style x_primarySOACount after map].
        change (zlen [rel first] =? 1) with true. rewrite bool_decide_true by done. cbn [andb].
        rewrite primaries_app, !primaries_one, (is_primary_soa first) by done. unfold style_of, expectedSOAForAXFR.
        by destruct (is_primary r), (is_soa r).
      - cbn [x_records map]. rewrite (proj2 (Z.eqb_neq (zlen (rel first :: rel second :: map rel l)) 1)) by (rewrite !zlen_cons; pose proof (zlen_nonneg (map rel l)); lia).
        done. }
    rewrite Hpl, bool_decide_true by done. cbn [negb]. rewrite Hz. cbn [mbind result_bind negb]. rewrite Hmk. cbn [mbind result_bind].
    rewrite Hrel. unfold push_record, after. cbn [x_primarySOA x_records x_style x_primarySOACount x_receivedBytes].
    do 2 f_equal. rewrite map_app. destruct l; done.
Qed.

(** A stream of records that one transfer consists of. *)
Record stream (style : TransferStyle) (l : list xrecord) : Prop := {
  sm_ok : Forall ok_record l;
  sm_shape : exists first second rest, l = first :: second :: rest /\ soa_serial first p /\ style = style_of second;
  sm_last : exists l' last, l = l' ++ [last] /\ is_primary last = true;
  sm_count : primaries l = match style with XfrAXFR => 2 | _ => 3 end;
}.

Section one.
Context (style : TransferStyle) (whole : list xrecord) (Hw : stream style whole) (Hours : ours < p).

Lemma stream_count l rest : whole = l ++ rest -> primaries l <= primaries whole.
Proof. intros ->. rewrite primaries_app. pose proof (primaries_nonneg rest). lia. Qed.

Lemma xfr_answers_after ans l rest b :
  whole = l ++ ans ++ rest -> xfr_answers zone ours ans (after style l b) = Ok (Some (after style (l ++ ans) b)).
Proof.
  revert l. induction ans as [|r ans IH]; intros l E; cbn [xfr_answers]; [by rewrite app_nil_r|].
  pose proof Hw as [Hok (first & second & rest' & E' & Hf & Hst) _ Hcnt].
  rewrite xfr_record_after.
  - cbn [mbind result_bind]. rewrite IH; rewrite <- app_assoc; done.
  - done.
  - rewrite E in Hok. apply Forall_app in Hok as [_ Hok]. by apply Forall_cons in Hok as [? _].
  - intros ->. rewrite E in E'. cbn in E'. by injection E' as -> _.
  - intros first' ->. rewrite E in E'. cbn in E'. injection E' as -> -> _. done.
  - pose proof (stream_count l _ E) as Hle. rewrite Hcnt in Hle. destruct style; lia.
Qed.

Lemma not_done l rest b : whole = l ++ rest -> rest <> [] -> xfr_done (after style l b) = false.
Proof.
  intros E Hr. pose proof Hw as [_ _ (l' & last & El & Hlast) Hcnt].
  assert (primaries l < primaries whole) as Hlt.
  { destruct rest as [|x rest] using rev_ind; [done|]. rewrite app_assoc in E. rewrite E in El.
    apply app_inj_tail in El as [_ ->]. rewrite E, !primaries_app, primaries_one, Hlast. pose proof (primaries_nonneg rest). lia. }
  rewrite Hcnt in Hlt. unfold xfr_done, after. cbn [x_style x_primarySOACount]. unfold expectedSOAForAXFR, expectedSOAForIXFR.
  destruct l as [|a [|b' l]]; [done..|]. destruct style; cbn; [done| |]; apply Z.eqb_neq in Hlt || idtac;
    rewrite ?orb_false_r; apply Z.eqb_neq; lia.
Qed.

Lemma done_whole b : xfr_done (after style whole b) = true /\ xfr_complete (after style whole b) = true.
Proof.
  pose proof Hw as [_ (first & second & rest & E & _ & Hst) _ Hcnt]. unfold xfr_done, xfr_complete, after.
  rewrite Hcnt. rewrite E. cbn [x_style x_primarySOACount]. unfold style_of in Hst.
  destruct (negb (is_soa second) || is_primary second); by rewrite Hst.
Qed.

(** The records outside of the answers leave the variables alone once two
    records have arrived. *)
Lemma xfr_answers_extra extra l b :
  (2 <= length l)%nat -> Forall side_record extra ->
  xfr_answers zone ours extra (after style l b) = Ok (Some (after style l b)).
Proof.
  intros Hl. induction 1 as [|r extra [Hpl Hty] _ IH]; [done|]. cbn [xfr_answers].
  assert (xfr_record zone ours r (after style l b) = Ok (Some (after style l b))) as ->; [|done].
  destruct l as [|x [|y l]]; [simpl in Hl; lia..|]. unfold xfr_record, xfr_soa. cbn [x_primarySOA after].
  replace (is_soa r) with false by (unfold is_soa; destruct Hty as [->| ->]; done). cbn [mbind result_bind].
  unfold xfr_decide_style. cbn [x_records after map].
  rewrite (proj2 (Z.eqb_neq (zlen (rel x :: rel y :: map rel l)) 1))
    by (rewrite !zlen_cons; pose proof (zlen_nonneg (map rel l)); lia).
  cbn [andb]. rewrite bool_decide_false by done. cbn [negb]. destruct Hty as [->| ->]; done.
Qed.

Lemma xfr_answers_app a b v :
  xfr_answers zone ours (a ++ b) v
  = (o ← xfr_answers zone ours a v; match o with None => Ok None | Some v => xfr_answers zone ours b v end).
Proof.
  revert v. induction a as [|r a IH]; intros v; cbn [app xfr_answers]; [done|].
  destruct (xfr_record zone ours r v) as [[v'|]|e]; cbn [mbind result_bind]; [apply IH|done|done].
Qed.

Lemma xfr_loop_whole chunks tail l b :
  whole = l ++ concat (map c_answers chunks) -> chunks_ok (length l) chunks -> 0 <= b ->
  maxBytes = 0 \/ b + received chunks <= maxBytes < 2 ^ 64 ->
  exists b', xfr_loop zone ours maxBytes (messages chunks ++ tail) (after style l b) = Ok (Some (after style whole b')).
Proof.
  revert l b. induction chunks as [|[len ans extra] chunks IH]; intros l b E Hok Hb Hmax.
  - cbn in E. rewrite app_nil_r in E. subst l. exists b. cbn. destruct tail as [|[]]; cbn; by rewrite (proj1 (done_whole b)).
  - destruct Hok as (Hl & Hside & Htwo & Hok). change (received (mkChunk len ans extra :: chunks)) with (len + received chunks) in Hmax.
    cbn in E, Hl, Hside, Htwo. cbn [messages map app xfr_loop c_len c_answers c_extra].
    destruct (decide (ans ++ concat (map c_answers chunks) = [])) as [Hnil|Hne].
    { exists b. rewrite Hnil, app_nil_r in E. rewrite <- E. by rewrite (proj1 (done_whole b)). }
    rewrite (not_done l _ b E Hne), (proj2 (Z.eqb_neq len 0)) by lia.
    pose proof (received_nonneg _ _ Hok) as Hsum.
    assert ((0 <? maxBytes) && (u64 (maxBytes - x_receivedBytes (after style l b)) <? len) = false) as ->.
    { cbn. destruct Hmax as [->|Hmax]; [done|]. unfold u64. rewrite Z.mod_small by lia. apply andb_false_iff. right. apply Z.ltb_ge. lia. }
    rewrite Z.eqb_refl. cbn [negb]. change (add_received len (after style l b)) with (after style l (b + len)).
    rewrite xfr_answers_app, (xfr_answers_after ans l (concat (map c_answers chunks))) by done. cbn [mbind result_bind].
    assert (xfr_answers zone ours extra (after style (l ++ ans) (b + len)) = Ok (Some (after style (l ++ ans) (b + len)))) as ->.
    { destruct Htwo as [->|Htwo]; [done|]. apply xfr_answers_extra; [by rewrite length_app|done]. }
    cbn [mbind result_bind].
    apply IH; [by rewrite <- app_assoc|by rewrite length_app|lia|]. destruct Hmax; [by left|right; lia].
Qed.

Lemma getIXFRDeltas_whole chunks tail :
  whole = concat (map c_answers chunks) -> chunks_ok 0 chunks ->
  maxBytes = 0 \/ received chunks <= maxBytes < 2 ^ 64 ->
  getIXFRDeltas zone ours maxBytes (messages chunks ++ tail) = processIXFRRecords (map rel whole) (Some p).
Proof.
  intros E Hok Hmax. unfold getIXFRDeltas. change xfr_start with (after style [] 0).
  destruct (xfr_loop_whole chunks tail [] 0) as (b' & ->); [done..|]. cbn [mbind result_bind].
  rewrite (proj2 (done_whole b')). cbn [negb]. unfold after. cbn [x_records x_primarySOA].
  destruct Hw as [_ (first & second & rest & -> & _) _ _]. done.
Qed.
End one.
End receive.

(** ** Deltas as they are delivered *)

Definition rel_delta (zone : DNSName) (d : delta) : delta := (map (rel zone) (fst d), map (rel zone) (snd d)).

Lemma rel_soa zone r : is_soa (rel zone r) = is_soa r /\ xr_soa (rel zone r) = xr_soa r.
Proof. unfold rel, is_soa. by destruct (makeRelative (xr_name r) zone). Qed.

Lemma rel_serial zone r s : soa_serial r s -> soa_serial (rel zone r) s.
Proof. unfold soa_serial. by rewrite !(proj1 (rel_soa zone r)), !(proj2 (rel_soa zone r)). Qed.

Lemma rel_plain zone l : Forall (fun r => is_soa r = false) l -> Forall (fun r => is_soa r = false) (map (rel zone) l).
Proof. induction 1; constructor; [by rewrite (proj1 (rel_soa zone x))|done]. Qed.

Lemma rel_chain zone p s ds : chain p s ds -> chain p s (map (rel_delta zone) ds).
Proof. induction 1; cbn; [constructor|]. econstructor; eauto using rel_serial, rel_plain. Qed.

Lemma rel_flatten zone ds : map (rel zone) (flatten ds) = flatten (map (rel_delta zone) ds).
Proof.
  induction ds as [|[a b] ds IH]; [done|]. cbn [map]. unfold rel_delta at 1. rewrite !flatten_cons, !map_app, IH. done.
Qed.

Lemma primaries_plain p l : Forall (fun r => is_soa r = false) l -> primaries p l = 0.
Proof.
  unfold primaries. induction 1 as [|r l Hr _ IH]; [done|]. cbn [List.filter].
  replace (is_primary p r) with false by (unfold is_primary; by rewrite Hr). done.
Qed.

Lemma is_primary_other p r s : soa_serial r s -> s <> p -> is_primary p r = false.
Proof. intros [H1 H2] Hne. unfold is_primary. rewrite H1, H2, bool_decide_false by congruence. done. Qed.

Lemma primaries_chain p s ds : chain p s ds -> primaries p (flatten ds) = if decide (ds = []) then 0 else 1.
Proof.
  induction 1 as [|s s' old removals new additions ds Hold Hne Hrem Hnew Hadd Hc IH]; [done|]. rewrite decide_False by done.
  rewrite flatten_cons, !primaries_app, IH. change (old :: removals) with ([old] ++ removals). change (new :: additions) with ([new] ++ additions).
  rewrite !primaries_app, (primaries_plain p removals Hrem), (primaries_plain p additions Hadd), !primaries_one,
    (is_primary_other p old s Hold Hne).
  inversion Hc; subst.
  - rewrite decide_True by done. by rewrite is_primary_soa.
  - rewrite decide_False by done. by rewrite (is_primary_other p new s').
Qed.

(** C16: however an incremental answer is cut into messages, and whatever comes
    after it, [getIXFRDeltas] delivers exactly its deltas, names made relative to
    the zone: the end of the transfer is recognized at the closing SOA record and
    not before.  The answer is the SOA record of the primary, of a serial above
    ours as a number, the deltas and the SOA record again, all of the zone.  The
    messages may carry OPT and TSIG records, but for a first message with nothing
    but the first SOA record ([tsig_decides_style] shows what happens there). *)
Theorem getIXFRDeltas_delivers zone ours p maxBytes first ds last s chunks tail :
  ours < p -> soa_serial first p -> soa_serial last p -> chain p s ds -> ds <> [] ->
  concat (map c_answers chunks) = first :: flatten ds ++ [last] -> Forall (ok_record zone) (first :: flatten ds ++ [last]) ->
  chunks_ok 0 chunks -> maxBytes = 0 \/ received chunks <= maxBytes < 2 ^ 64 ->
  getIXFRDeltas zone ours maxBytes (messages chunks ++ tail) = Ok (map (rel_delta zone) ds).
Proof.
  intros Hlt Hf Hl Hc Hds Hcat Hok Hchunks Hmax. pose proof (primaries_chain p s ds Hc) as Hcount. rewrite decide_False in Hcount by done.
  destruct Hc as [|s s' old removals new additions ds' Hold Hne Hrem Hnew Hadd Hc]; [done|].
  assert (flatten ((old :: removals, new :: additions) :: ds') ++ [last]
    = old :: removals ++ (new :: additions) ++ flatten ds' ++ [last]) as Efl by (by rewrite flatten_cons, <- !app_assoc).
  rewrite (getIXFRDeltas_whole zone ours p maxBytes XfrIXFR (first :: flatten ((old :: removals, new :: additions) :: ds') ++ [last]));
    [|split|done|done|done|done].
  - rewrite map_cons, map_app, rel_flatten. apply (ixfr_loop_chain _ _ _ s).
    + apply rel_chain. by econstructor.
    + by apply rel_serial.
    + rewrite <- rel_flatten, <- map_app, Efl. cbn. rewrite length_map, length_app. cbn. lia.
    + apply Nat.le_succ_diag_r.
  - done.
  - eexists first, old, _. rewrite Efl. split_and!; [done|done|]. unfold style_of.
    rewrite (proj1 Hold), (is_primary_other p old s) by done. done.
  - eexists (first :: _), last. split; [done|]. by apply is_primary_soa.
  - change (first :: flatten ((old :: removals, new :: additions) :: ds') ++ [last])
      with ([first] ++ flatten ((old :: removals, new :: additions) :: ds') ++ [last]).
    rewrite !primaries_app, Hcount, !primaries_one, !is_primary_soa by done. done.
Qed.

(** an answer in the style of a full transfer, the SOA record, other records
    and the SOA record again, is delivered whole as the additions of one delta
    without removals, however it is cut into messages. *)
Theorem getIXFRDeltas_full zone ours p maxBytes first body last chunks tail :
  ours < p -> soa_serial first p -> soa_serial last p -> Forall (fun r => is_soa r = false) body ->
  concat (map c_answers chunks) = first :: body ++ [last] -> Forall (ok_record zone) (first :: body ++ [last]) ->
  chunks_ok 0 chunks -> maxBytes = 0 \/ received chunks <= maxBytes < 2 ^ 64 ->
  getIXFRDeltas zone ours maxBytes (messages chunks ++ tail) = Ok [([], map (rel zone) (first :: body ++ [last]))].
Proof.
  intros Hlt Hf Hl Hbody Hcat Hok Hchunks Hmax.
  rewrite (getIXFRDeltas_whole zone ours p maxBytes XfrAXFR (first :: body ++ [last])); [|split|done|done|done|done].
  - destruct Hbody as [|r body Hr Hbody]; cbn.
    + rewrite (proj1 (rel_serial zone _ _ Hl)), (proj2 (rel_serial zone _ _ Hl)), Z.eqb_refl. done.
    + by rewrite (proj1 (rel_soa zone r)), Hr.
  - done.
  - destruct Hbody as [|r body Hr Hbody]; eexists first, _, _; (split_and!; [done|done|]); unfold style_of.
    + by rewrite (is_primary_soa p last), orb_true_r.
    + by rewrite Hr.
  - exists (first :: body), last. split; [done|]. by apply is_primary_soa.
  - change (first :: body ++ [last]) with ([first] ++ body ++ [last]).
    rewrite !primaries_app, (primaries_plain p body Hbody), !primaries_one, !is_primary_soa by done. done.
Qed.

(** ** Examples and oddities *)

Module ixfr_example.
Definition ex_zone_name : DNSName := mkDNSName (storage_of [bs "ex"]).
Definition soa (serial : Z) : xrecord := mkXRecord ex_zone_name QType.SOA ANSWER (Some serial) [].
Definition a_record (x : Z) : xrecord := mkXRecord (mkDNSName (storage_of [[x]; bs "ex"])) QType.A ANSWER None [x].

Definition ex_deltas : list delta := [([soa 1; a_record 97], [soa 2]); ([soa 2], [soa 3; a_record 98; a_record 99])].
Definition ex_answer : list xrecord := soa 3 :: flatten ex_deltas ++ [soa 3].

Lemma ex_chain : chain 3 1 ex_deltas.
Proof.
  repeat (eapply chain_cons; [done|done|by repeat constructor|done|by repeat constructor|]). constructor.
Qed.

Lemma a_record_ok l : Forall (ok_record ex_zone_name) l <->
  Forall (fun r => xr_place r = ANSWER /\ isPartOf (xr_name r) ex_zone_name = Ok true /\ (is_soa r = true -> is_Some (xr_soa r))) l.
Proof. split; intros H; eapply Forall_impl; [exact H|by intros r []|exact H|by intros r (?&?&?)]. Qed.

Lemma ex_answer_ok : Forall (ok_record ex_zone_name) ex_answer.
Proof. apply a_record_ok. repeat constructor; done. Qed.

Definition tsig : xrecord := mkXRecord (mkDNSName (storage_of [bs "key"])) QType.TSIG ADDITIONAL None [].

(** The answer in three messages, the SOA record of the primary alone in the
    first, the others signed. *)
Definition ex_chunks : list chunk :=
  [mkChunk 40 [soa 3] []; mkChunk 80 [soa 1; a_record 97; soa 2] [tsig];
   mkChunk 120 [soa 2; soa 3; a_record 98; a_record 99; soa 3] [tsig]].

Lemma tsig_side : side_record tsig.
Proof. split; [done|by left]. Qed.

Lemma ex_chunks_ok : chunks_ok 0 ex_chunks.
Proof. cbn. split_and!; try done; first [by left|right; lia|by repeat constructor; apply tsig_side|idtac]. Qed.

Lemma processIXFRRecords_exact_witness :
  processIXFRRecords ex_answer (Some 3) = Ok ex_deltas
  <-> ex_deltas <> [] /\ chain 3 1 ex_deltas /\ exists last, soa_serial last 3 /\ tl ex_answer = flatten ex_deltas ++ [last].
Proof. apply (processIXFRRecords_exact 3 (soa 3) (soa 1) (tl (tl ex_answer)) 1 ex_deltas); done. Defined.

Lemma getIXFRDeltas_delivers_witness :
  getIXFRDeltas ex_zone_name 1 1000 (messages ex_chunks ++ []) = Ok (map (rel_delta ex_zone_name) ex_deltas).
Proof.
  apply (getIXFRDeltas_delivers ex_zone_name 1 3 1000 (soa 3) ex_deltas (soa 3) 1 ex_chunks []);
    [done|done|done|exact ex_chain|done|done|exact ex_answer_ok|exact ex_chunks_ok|by right].
Defined.

Lemma getIXFRDeltas_full_witness :
  getIXFRDeltas ex_zone_name 1 0 (messages [mkChunk 40 [soa 3; a_record 97] [tsig]; mkChunk 20 [soa 3] []] ++ [XfrThrow (runtime_error "never read")])
  = Ok [([], map (rel ex_zone_name) [soa 3; a_record 97; soa 3])].
Proof.
  apply (getIXFRDeltas_full ex_zone_name 1 3 0 (soa 3) [a_record 97] (soa 3)
           [mkChunk 40 [soa 3; a_record 97] [tsig]; mkChunk 20 [soa 3] []]);
    [done|done|done|by repeat constructor|done| | |by left].
  - apply a_record_ok. repeat constructor; done.
  - cbn. split_and!; try done; first [by left|right; lia|by repeat constructor; apply tsig_side].
Defined.

(** a TSIG or OPT record in the first message, when that message has one
    answer only, is taken for the second record of the transfer, and an
    incremental transfer for a full one: the same answer is delivered without the
    TSIG record and refused with it. *)
Theorem tsig_decides_style :
  let chunks extra := mkChunk 40 [soa 3] extra :: tl ex_chunks in
  getIXFRDeltas ex_zone_name 1 0 (messages (chunks [])) = Ok (map (rel_delta ex_zone_name) ex_deltas)
  /\ getIXFRDeltas ex_zone_name 1 0 (messages (chunks [tsig])) = Throw (ixfr_error "Incomplete transfer").
Proof. by vm_compute. Qed.

(** serials are compared as numbers: an update across the wrap of the serial,
    newer by RFC 1982, is refused as older than ours. *)
Theorem ixfr_ignores_serial_arithmetic :
  rfc1982LessThan 4294967295 1 = true
  /\ getIXFRDeltas ex_zone_name 4294967295 0 (messages [mkChunk 40 [soa 1; soa 4294967295; soa 1; soa 1] []])
     = Throw (ixfr_error "Our serial is higher than remote one").
Proof. by vm_compute. Qed.
End ixfr_example.
