(* ===== verification/EdnsPayloads.v ===== *)
(** * The contents of EDNS options

    Client subnet ([pdns/ednssubnet.cc]), cookies ([pdns/ednscookies.cc]) and
    extended errors ([pdns/ednsextendederror.cc]).  The keyed hash of the cookies
    is a parameter, the clock an argument. *)

From S2P Require Import Prelude Chars Dns IpUtils Validate.

#[local] Open Scope Z_scope.

(** ** Client subnet *)

Record EDNSSubnetOpts : Type := mkECS {
  ecs_source : Netmask;
  ecs_scopeBits : Z;
}.

(** Bytes for a number of bits: [((n - 1) >> 3) + 1], and none for 0. *)
Definition octets (prefixLength : Z) : Z := if 0 <? prefixLength then Z.shiftr (prefixLength - 1) 3 + 1 else 0.

(** [getFromString]: [None] is [false]. *)
Definition ecs_getFromString (options : bytes) : option EDNSSubnetOpts :=
  if zlen options <? 4 then None
  else
    let family := get16 options 0 in
    let sourcePrefixLength := byte_at options 2 in
    let scopePrefixLength := byte_at options 3 in
    let octetsin := octets sourcePrefixLength in
    let finish af size :=
      let address := mkCA af 0 (ztake octetsin (zdrop 4 options) ++ replicate (Z.to_nat (size - octetsin)) 0) in
      Some (mkECS (nm_make address sourcePrefixLength) scopePrefixLength) in
    if family =? 1 then
      if negb (zlen options =? 4 + octetsin) then None
      else if 4 <? octetsin then None
      else finish AF_INET 4
    else if family =? 2 then
      if negb (zlen options =? 4 + octetsin) then None
      else if 16 <? octetsin then None
      else finish AF_INET6 16
    else None.

Definition ecs_makeOptString (eso : EDNSSubnetOpts) : result bytes :=
  let source := ecs_source eso in
  let sourcePrefixLength := nm_bits source in
  let header := be16 (if nm_isIPv4 source then 1 else 2) ++ [sourcePrefixLength; ecs_scopeBits eso] in
  let octetsout := octets sourcePrefixLength in
  let src := ca_truncate sourcePrefixLength (d_network source) in
  _ ← throw_if ((if nm_isIPv4 source then 4 else 16) <? octetsout)
        (runtime_error "Trying to copy too many bytes while generating an EDNS Client Subnet option");
  Ok (header ++ ztake octetsout (sin_addr src)).

(** ** Extended errors *)

Record EDNSExtendedError : Type := mkEDE {
  ede_infoCode : Z;
  ede_extraText : bytes;
}.

(** [getEDNSExtendedErrorOptFromString] into [eee]: the text is only set when
    there is one. *)
Definition getEDNSExtendedErrorOptFromString (option : bytes) (eee : EDNSExtendedError) : EDNSExtendedError * bool :=
  if zlen option <? 2 then (eee, false)
  else (mkEDE (get16 option 0) (if 2 <? zlen option then zdrop 2 option else ede_extraText eee), true).

Definition makeEDNSExtendedErrorOptString (eee : EDNSExtendedError) : result bytes :=
  _ ← throw_if (65533 <? zlen (ede_extraText eee)) (runtime_error "Trying to create an EDNS Extended Error option with an extra text of size");
  Ok (be16 (ede_infoCode eee) ++ ede_extraText eee).

(** ** Cookies *)

Record EDNSCookiesOpt : Type := mkCookies {
  ck_client : bytes;
  ck_server : bytes;
}.

Definition getEDNSCookiesOptFromString (option : bytes) : EDNSCookiesOpt :=
  if zlen option <? 8 then mkCookies [] [] else mkCookies (ztake 8 option) (if 8 <? zlen option then zdrop 8 option else []).

Definition isWellFormed (c : EDNSCookiesOpt) : bool :=
  (zlen (ck_client c) =? 8)
  && ((zlen (ck_server c) =? 0) || ((8 <=? zlen (ck_server c)) && (zlen (ck_server c) <=? 32))).

Definition cookies_makeFromString (option : bytes) : EDNSCookiesOpt * bool :=
  let c := getEDNSCookiesOptFromString option in (c, isWellFormed c).

Definition cookies_makeOptString (c : EDNSCookiesOpt) : bytes :=
  if negb (isWellFormed c) then [] else ck_client c ++ ck_server c.

Definition cookieTSIsValid (timestamp now : Z) : bool :=
  rfc1982LessThan (u32 (now - 3600)) timestamp && rfc1982LessThan timestamp (u32 (now + 300)).

Definition crypto_shorthash_KEYBYTES : Z := 16.

Section cookies.
(** [crypto_shorthash]: message, key. *)
Context (shorthash : bytes -> bytes -> bytes).

Definition cookie_timestamp (c : EDNSCookiesOpt) : Z := get32 (ck_server c) 4.

Definition cookie_hash (c : EDNSCookiesOpt) (source : ComboAddress) (secret : bytes) : bytes :=
  shorthash (ck_client c ++ ztake 8 (ck_server c) ++ ca_toByteString source) secret.

Definition cookie_isValid (now : Z) (secret : bytes) (source : ComboAddress) (oldSecrets : list bytes)
    (c : EDNSCookiesOpt) : bool :=
  if negb (zlen (ck_server c) =? 16) || negb (zlen (ck_client c) =? 8) then false
  else if negb (byte_at (ck_server c) 0 =? 1) then false
  else if negb (cookieTSIsValid (cookie_timestamp c) (u32 now)) then false
  else if negb (zlen secret =? crypto_shorthash_KEYBYTES) then false
  else if bool_decide (zdrop 8 (ck_server c) = cookie_hash c source secret) then true
  else existsb (fun oldSecret => (zlen oldSecret =? crypto_shorthash_KEYBYTES)
                   && bool_decide (zdrop 8 (ck_server c) = cookie_hash c source oldSecret)) oldSecrets.

Definition shouldRefresh (now : Z) (c : EDNSCookiesOpt) : bool :=
  if zlen (ck_server c) <? 16 then true
  else if negb (cookieTSIsValid (cookie_timestamp c) (u32 now)) then true
  else rfc1982LessThan (u32 (cookie_timestamp c + 1800)) (u32 now).

(** [makeClientCookie], with the 8 random bytes. *)
Definition makeClientCookie (random : bytes) (c : EDNSCookiesOpt) : EDNSCookiesOpt := mkCookies random (ck_server c).

(** [makeServerCookie]: the hash fills the last 8 bytes. *)
Definition makeServerCookie (now : Z) (secret : bytes) (source : ComboAddress) (c : EDNSCookiesOpt)
  : EDNSCookiesOpt * bool :=
  if cookie_isValid now secret source [] c && negb (shouldRefresh now c) then (c, true)
  else if negb (zlen secret =? crypto_shorthash_KEYBYTES) then (c, false)
  else
    let server := [1; 0; 0; 0] ++ be32 (u32 now) in
    let toHash := ck_client c ++ server ++ ca_toByteString source in
    (mkCookies (ck_client c) (server ++ shorthash toHash secret), true).
End cookies.

(** ** Round trips *)

Lemma octets_spec n : 0 <= n -> 8 * octets n - 7 <= n <= 8 * octets n /\ 0 <= octets n \/ n = 0 /\ octets n = 0.
Proof.
  intros Hn. unfold octets. destruct (Z.ltb_spec 0 n); [left|right; lia]. rewrite Z.shiftr_div_pow2 by lia.
  change (2 ^ 3) with 8. pose proof (Z.div_mod (n - 1) 8). pose proof (Z.mod_pos_bound (n - 1) 8). lia.
Qed.

(** A netmask keeps nothing beyond its bytes. *)
Lemma masked_tail n :
  nm_ok n ->
  let addr := sin_addr (d_network n) in
  octets (nm_bits n) <= zlen addr
  /\ ztake (octets (nm_bits n)) addr ++ replicate (Z.to_nat (zlen addr - octets (nm_bits n))) 0 = addr.
Proof.
  intros [[Hf Hb] Hp Hbits Hmask Hhost] addr.
  assert (ca_getBits (d_network n) = 8 * zlen addr) as Hg.
  { unfold addr, ca_getBits, ca_isIPv4, ca_isIPv6. by destruct Hf as [[-> ->]|[-> ->]]. }
  rewrite Hg in *. pose proof (octets_spec (nm_bits n) ltac:(lia)) as Ho. set (o := octets (nm_bits n)) in *.
  assert (0 <= o <= zlen addr) as Hoz by lia. split; [lia|].
  apply addr_ext.
  - rewrite zlen_app, zlen_ztake, zlen_zeros by lia. lia.
  - apply bytes_ok_app. split; [by apply bytes_ok_ztake|apply bytes_ok_zeros].
  - done.
  - intros i Hi. rewrite zlen_app, zlen_ztake, zlen_zeros in Hi by lia. unfold abit, byte_at.
    pose proof (Z.div_mod i 8). pose proof (Z.mod_pos_bound i 8).
    destruct (decide (i / 8 < o)).
    + rewrite zat_app_l by (rewrite zlen_ztake by lia; lia). fold (byte_at (ztake o addr) (i / 8)).
      rewrite byte_at_ztake by lia. done.
    + rewrite zat_app_r by (rewrite zlen_ztake by lia; lia).
      fold (byte_at (replicate (Z.to_nat (zlen addr - o)) 0) (i / 8 - zlen (ztake o addr))). rewrite byte_at_zeros, Z.bits_0.
      symmetry. apply Hhost. lia.
Qed.

Lemma truncate_masked n : nm_ok n -> ca_truncate (nm_bits n) (d_network n) = d_network n.
Proof.
  intros [Ha Hp Hbits Hmask Hhost]. destruct (truncate_spec _ _ Ha Hbits) as (T1 & T2 & T3 & T4).
  apply ca_ext; [done..|]. intros i Hi. unfold ca_getBits, ca_isIPv4, ca_isIPv6 in Hi. rewrite T2 in Hi.
  fold (ca_isIPv4 (d_network n)) (ca_isIPv6 (d_network n)) in Hi. fold (ca_getBits (d_network n)) in Hi. rewrite T4 by done.
  destruct (Z.ltb_spec i (nm_bits n)); [done|]. by rewrite Hhost by lia.
Qed.

(** Reading what follows a four-byte header of two bytes of family. *)
Lemma ecs_read_header family sourcePrefixLength scope (rest : bytes) :
  0 <= family < 2 ^ 16 ->
  let s := be16 family ++ [sourcePrefixLength; scope] ++ rest in
  zlen s = 4 + zlen rest /\ get16 s 0 = family /\ byte_at s 2 = sourcePrefixLength /\ byte_at s 3 = scope /\ zdrop 4 s = rest.
Proof.
  intros Hf s. split_and!; [| |done..].
  - unfold s. rewrite !zlen_app, zlen_be16. change (zlen [sourcePrefixLength; scope]) with 2. lia.
  - apply (get16_be16 [] family). done.
Qed.

(** a client subnet option is read back as it was written: the source netmask
    of either family, of any length, and the scope. *)
Theorem ecs_round_trip eso :
  nm_ok (ecs_source eso) -> is_byte (ecs_scopeBits eso) ->
  exists s, ecs_makeOptString eso = Ok s /\ ecs_getFromString s = Some eso.
Proof.
  intros Hn Hs. destruct eso as [n scope]. cbn in Hn, Hs. unfold ecs_makeOptString. cbn [ecs_source ecs_scopeBits].
  destruct (masked_tail n Hn) as [Hle Htail]. pose proof (nm_ok_make n Hn) as Hmk.
  pose proof Hn as [[Hf Hb] Hp Hbits _ _]. set (o := octets (nm_bits n)) in *.
  assert (0 <= o) as Ho by (pose proof (octets_spec (nm_bits n)); lia).
  rewrite (truncate_masked n Hn). unfold nm_isIPv4, ca_isIPv4 in *.
  set (addr := sin_addr (d_network n)) in *.
  assert (zlen (ztake o addr) = o) as Hzt by (rewrite zlen_ztake; lia).
  assert (d_network n = mkCA (sin_family (d_network n)) 0 addr) as Hnet
    by (unfold addr; destruct (d_network n); cbn in *; congruence).
  destruct Hf as [[Hf Hl]|[Hf Hl]]; rewrite Hf in *; cbn [Z.eqb AF_INET AF_INET6 Pos.eqb] in *;
    fold addr in Hl; rewrite Hl in *; rewrite (proj2 (Z.ltb_ge _ o)) by lia; cbn [throw_if mbind result_bind];
    (eexists; split; [done|]); unfold ecs_getFromString; rewrite <- app_assoc.
  - destruct (ecs_read_header 1 (nm_bits n) scope (ztake o addr)) as (-> & -> & -> & -> & ->); [lia|].
    fold o. rewrite Hzt, (proj2 (Z.ltb_ge (4 + o) 4)), !Z.eqb_refl, (proj2 (Z.ltb_ge 4 o)) by lia.
    rewrite (ztake_all o) by lia. rewrite Htail. cbn [Z.eqb Pos.eqb negb]. rewrite <- Hnet, Hmk. done.
  - destruct (ecs_read_header 2 (nm_bits n) scope (ztake o addr)) as (-> & -> & -> & -> & ->); [lia|].
    fold o. rewrite Hzt, (proj2 (Z.ltb_ge (4 + o) 4)), !Z.eqb_refl, (proj2 (Z.ltb_ge 16 o)) by lia.
    rewrite (ztake_all o) by lia. rewrite Htail. cbn [Z.eqb Pos.eqb negb]. rewrite <- Hnet, Hmk. done.
Qed.

(** an extended error is read back as it was written; only when its text is
    empty does the reader keep the text it had. *)
Theorem ede_round_trip eee before :
  0 <= ede_infoCode eee < 2 ^ 16 ->
  (zlen (ede_extraText eee) <= 65533 ->
   exists s, makeEDNSExtendedErrorOptString eee = Ok s
     /\ getEDNSExtendedErrorOptFromString s before
        = (mkEDE (ede_infoCode eee) (if 0 <? zlen (ede_extraText eee) then ede_extraText eee else ede_extraText before), true))
  /\ (65533 < zlen (ede_extraText eee) -> exists e, makeEDNSExtendedErrorOptString eee = Throw e).
Proof.
  destruct eee as [code text]. cbn [ede_infoCode ede_extraText]. intros Hc. split; intros Hl.
  - exists (be16 code ++ text). unfold makeEDNSExtendedErrorOptString, getEDNSExtendedErrorOptFromString.
    cbn [ede_infoCode ede_extraText]. rewrite (proj2 (Z.ltb_ge 65533 _)) by lia. split; [done|].
    pose proof (zlen_nonneg text). rewrite zlen_app, zlen_be16, (proj2 (Z.ltb_ge _ 2)) by lia.
    rewrite (zdrop_app (be16 code)) by (by rewrite zlen_be16).
    change (get16 (be16 code ++ text) 0) with (get16 ([] ++ be16 code ++ text) (zlen (@nil Z))). rewrite get16_be16 by lia.
    destruct (Z.ltb_spec 0 (zlen text)); [rewrite (proj2 (Z.ltb_lt _ _)) by lia|rewrite (proj2 (Z.ltb_ge _ _)) by lia]; done.
  - unfold makeEDNSExtendedErrorOptString. cbn [ede_extraText]. rewrite (proj2 (Z.ltb_lt 65533 _)) by lia. by eexists.
Qed.

(** the string of a well-formed cookie is parsed back to it. *)
Theorem cookie_round_trip c : isWellFormed c = true -> cookies_makeFromString (cookies_makeOptString c) = (c, true).
Proof.
  intros Hw. unfold cookies_makeFromString, cookies_makeOptString. rewrite Hw. cbn [negb].
  enough (getEDNSCookiesOptFromString (ck_client c ++ ck_server c) = c) as -> by by rewrite Hw.
  destruct c as [cl sv]. unfold isWellFormed in Hw. cbn in Hw |- *. apply andb_true_iff in Hw as [Hcl _]. apply Z.eqb_eq in Hcl.
  unfold getEDNSCookiesOptFromString. pose proof (zlen_nonneg sv). rewrite zlen_app, Hcl, (proj2 (Z.ltb_ge _ 8)) by lia.
  rewrite ztake_app, zdrop_app by done. f_equal. destruct (Z.ltb_spec 8 (8 + zlen sv)); [done|].
  symmetry. apply zlen_zero_inv. lia.
Qed.

(** ** Validity of cookies in time *)

Lemma rfc1982LessThan_mod a b : rfc1982LessThan a b = true <-> 2 ^ 31 <= (a - b) mod 2 ^ 32.
Proof. unfold rfc1982LessThan. by rewrite Z.ltb_lt, s32_neg. Qed.

(** A timestamp is accepted when it is less than an hour old or less than five
    minutes ahead. *)
Lemma cookieTSIsValid_age timestamp now :
  cookieTSIsValid timestamp (u32 now) = true
  <-> (now - timestamp) mod 2 ^ 32 < 3600 \/ 2 ^ 32 - 300 < (now - timestamp) mod 2 ^ 32.
Proof.
  unfold cookieTSIsValid. rewrite andb_true_iff, !rfc1982LessThan_mod. unfold u32.
  rewrite Zminus_mod_idemp_l. Z.div_mod_to_equations. lia.
Qed.

Section cookie_facts.
Context (shorthash : bytes -> bytes -> bytes) (source : ComboAddress).

(** What [isValid] demands: a version 1 server cookie of an acceptable age whose
    last eight bytes are the hash of the rest under the current secret or a
    usable old one. *)
Lemma cookie_isValid_iff now secret oldSecrets c :
  cookie_isValid shorthash now secret source oldSecrets c = true
  <-> zlen (ck_server c) = 16 /\ zlen (ck_client c) = 8 /\ byte_at (ck_server c) 0 = 1
      /\ cookieTSIsValid (cookie_timestamp c) (u32 now) = true /\ zlen secret = crypto_shorthash_KEYBYTES
      /\ exists key, (key = secret \/ In key oldSecrets) /\ zlen key = crypto_shorthash_KEYBYTES
           /\ zdrop 8 (ck_server c) = cookie_hash shorthash c source key.
Proof.
  unfold cookie_isValid. destruct (Z.eqb_spec (zlen (ck_server c)) 16); [|naive_solver].
  destruct (Z.eqb_spec (zlen (ck_client c)) 8); [|naive_solver].
  destruct (Z.eqb_spec (byte_at (ck_server c) 0) 1); [|naive_solver].
  destruct (cookieTSIsValid (cookie_timestamp c) (u32 now)); [|naive_solver].
  destruct (Z.eqb_spec (zlen secret) crypto_shorthash_KEYBYTES); [|naive_solver]. cbn [negb orb].
  case_bool_decide; [naive_solver|]. rewrite existsb_exists. split.
  - intros (key & Hin & Hk). apply andb_true_iff in Hk as [Hl Hk]. apply bool_decide_eq_true in Hk. apply Z.eqb_eq in Hl.
    split_and!; [done..|]. eauto.
  - intros (_ & _ & _ & _ & _ & key & [->|Hin] & Hl & Hk); [done|]. exists key. split; [done|].
    apply andb_true_iff. split; [by apply Z.eqb_eq|by apply bool_decide_eq_true].
Qed.

Lemma cookie_kept_age timestamp now :
  cookieTSIsValid timestamp (u32 now) = true -> rfc1982LessThan (u32 (timestamp + 1800)) (u32 now) = false ->
  (now - timestamp) mod 2 ^ 32 <= 1800 \/ 2 ^ 32 - 300 < (now - timestamp) mod 2 ^ 32.
Proof.
  rewrite cookieTSIsValid_age. intros Hage Href. apply not_true_iff_false in Href. rewrite rfc1982LessThan_mod in Href.
  revert Hage Href. unfold u32. rewrite <- Zminus_mod. Z.div_mod_to_equations. lia.
Qed.

Lemma cookie_age_later timestamp now later :
  (now - timestamp) mod 2 ^ 32 <= 1800 \/ 2 ^ 32 - 300 < (now - timestamp) mod 2 ^ 32 ->
  now <= later < now + 1800 -> cookieTSIsValid timestamp (u32 later) = true.
Proof. rewrite cookieTSIsValid_age. Z.div_mod_to_equations. lia. Qed.

(** a server cookie made, or kept, by [makeServerCookie] leaves the client's
    part alone and is accepted during the next half hour from the same address,
    also after the secret has become an old one. *)
Theorem server_cookie_accepted now secret c :
  (forall message key, zlen (shorthash message key) = 8) ->
  zlen (ck_client c) = 8 -> zlen secret = crypto_shorthash_KEYBYTES ->
  let '(made, ok) := makeServerCookie shorthash now secret source c in
  ok = true /\ ck_client made = ck_client c /\ isWellFormed made = true
  /\ forall later current oldSecrets,
       now <= later < now + 1800 -> zlen current = crypto_shorthash_KEYBYTES -> current = secret \/ In secret oldSecrets ->
       cookie_isValid shorthash later current source oldSecrets made = true.
Proof.
  intros Hlen Hcl Hsec. unfold makeServerCookie.
  destruct (cookie_isValid shorthash now secret source [] c && negb (shouldRefresh now c)) eqn:Hkeep.
  - apply andb_true_iff in Hkeep as [Hv Hr]. apply cookie_isValid_iff in Hv as (H16 & H8 & Hver & Hts & _ & key & Hk & Hkl & Hh).
    destruct Hk as [->|[]]. split_and!; [done..| |].
    + unfold isWellFormed. by rewrite H8, H16.
    + intros later current oldSecrets Hlater Hcur Hin. apply cookie_isValid_iff. split_and!; [done..| |done|naive_solver].
      unfold shouldRefresh in Hr. rewrite H16, Hts in Hr. cbn in Hr. apply negb_true_iff in Hr.
      eapply cookie_age_later; [|done]. by apply cookie_kept_age.
  - rewrite Hsec, Z.eqb_refl. cbn [negb]. set (server := [1; 0; 0; 0] ++ be32 (u32 now)).
    set (h := shorthash _ _). assert (zlen server = 8) as Hs8 by done.
    assert (zlen (server ++ h) = 16) as H16 by (rewrite zlen_app; unfold h; rewrite Hlen; lia).
    split_and!; [done..| |].
    + unfold isWellFormed. cbn [ck_server ck_client]. by rewrite Hcl, H16.
    + intros later current oldSecrets Hlater Hcur Hin. apply cookie_isValid_iff. cbn [ck_server ck_client].
      split_and!; [done..| |done|].
      * unfold cookie_timestamp. cbn [ck_server]. unfold server. rewrite <- app_assoc.
        change 4 with (zlen [1; 0; 0; 0]). rewrite get32_be32 by (apply Z.mod_pos_bound; lia).
        apply (cookie_age_later _ now); [|done]. left. unfold u32. rewrite Zminus_mod_idemp_r, Z.sub_diag. done.
      * exists secret. split_and!; [naive_solver|done|]. unfold cookie_hash. cbn [ck_server ck_client].
        rewrite zdrop_app, ztake_app by done. done.
Qed.
End cookie_facts.

Module payload_example.
Definition v6net : Netmask := nm_make (mkCA AF_INET6 0 ([32; 1; 13; 184; 255; 255] ++ replicate 10 7)) 45.
Definition eso : EDNSSubnetOpts := mkECS v6net 24.
Definition ede : EDNSExtendedError := mkEDE 23 [110; 111].
Definition client : bytes := [1; 2; 3; 4; 5; 6; 7; 8].
Definition secret : bytes := replicate 16 9.
Definition rotated : bytes := replicate 16 10.
Definition here : ComboAddress := mkCA AF_INET 53 [192; 0; 2; 1].
(** A stand-in for the keyed hash. *)
Definition checksum (message key : bytes) : bytes := replicate 8 (foldr Z.add 0 (message ++ key) mod 256).

Lemma ecs_round_trip_witness :
  exists s, ecs_makeOptString eso = Ok s /\ ecs_getFromString s = Some eso.
Proof.
  apply (ecs_round_trip eso).
  - cbn [ecs_source eso]. apply nm_make_spec; [|lia]. split; [by right|]. repeat constructor; lia.
  - cbn. unfold is_byte. lia.
Defined.

Lemma ede_round_trip_witness :
  exists s, makeEDNSExtendedErrorOptString ede = Ok s /\ getEDNSExtendedErrorOptFromString s (mkEDE 0 [1]) = (ede, true).
Proof. destruct (ede_round_trip ede (mkEDE 0 [1])) as [H _]; [cbn; lia|]. apply H. by vm_compute. Defined.

Lemma cookie_round_trip_witness : cookies_makeFromString (cookies_makeOptString (mkCookies client [])) = (mkCookies client [], true).
Proof. apply (cookie_round_trip (mkCookies client [])). reflexivity. Defined.

Lemma server_cookie_accepted_witness :
  let '(made, ok) := makeServerCookie checksum 1700000000 secret here (mkCookies client []) in
  ok = true /\ cookie_isValid checksum 1700001799 rotated here [secret] made = true.
Proof.
  pose proof (server_cookie_accepted checksum here 1700000000 secret (mkCookies client [])) as H.
  destruct (makeServerCookie checksum 1700000000 secret here (mkCookies client [])) as [made ok].
  destruct H as (Hok & _ & _ & H); [done..|]. split; [exact Hok|]. apply H; [lia|done|right; by left].
Defined.

(** An hour later the cookie is not good any more. *)
Example cookie_expires :
  cookie_isValid checksum 1700003600 secret here [] (fst (makeServerCookie checksum 1700000000 secret here (mkCookies client []))) = false.
Proof. vm_compute. reflexivity. Qed.

(** An option with a code only leaves the text of the previous one in place. *)
Example ede_keeps_text : getEDNSExtendedErrorOptFromString [0; 22] ede = (mkEDE 22 [110; 111], true).
Proof. reflexivity. Qed.
End payload_example.
