(* ===== verification/ProxyProtocol.v ===== *)
(** * The proxy protocol

    [pdns/proxy-protocol.cc]: the header that carries the addresses of a
    connection in front of its payload, made by [makeProxyHeader] and read by
    [isProxyHeaderComplete] and [parseProxyHeader], which answer with the bytes
    consumed, the negated number of bytes missing, or 0 for an error. *)

From S2P Require Import Prelude IpUtils.

#[local] Open Scope Z_scope.

Record ProxyProtocolValue : Type := mkPPV {
  ppv_content : bytes;
  ppv_type : Z;
}.

#[export] Instance ProxyProtocolValue_eq_dec : EqDecision ProxyProtocolValue.
Proof. solve_decision. Defined.

Definition proxymagic : bytes := [13; 10; 13; 10; 0; 13; 10; 81; 85; 73; 84; 10].
Definition s_proxyProtocolMinimumHeaderSize : Z := 16.

(** [makeSimpleHeader], with the content length in host order. *)
Definition makeSimpleHeader (command protocol contentLen : Z) (out : bytes) : bytes :=
  out ++ proxymagic ++ [Z.lor 32 command; protocol] ++ be16 contentLen.

Definition makeLocalProxyHeader : bytes := makeSimpleHeader 0 0 0 [].

Definition uint16_max : Z := 65535.

(** The loop over the sizes of the values. *)
Fixpoint values_size (valuesSize : Z) (values : list ProxyProtocolValue) : result Z :=
  match values with
  | [] => Ok valuesSize
  | value :: values =>
      _ ← throw_if (uint16_max <? zlen (ppv_content value)) (runtime_error "The size of proxy protocol values is limited");
      let valuesSize := valuesSize + 1 + 2 + zlen (ppv_content value) in
      _ ← throw_if (uint16_max <? valuesSize) (runtime_error "The total size of proxy protocol values is limited");
      values_size valuesSize values
  end.

Definition value_bytes (value : ProxyProtocolValue) : bytes :=
  [ppv_type value] ++ be16 (u16 (zlen (ppv_content value))) ++ ppv_content value.

Definition makeProxyHeader (tcp : bool) (source destination : ComboAddress) (values : list ProxyProtocolValue) : result bytes :=
  _ ← throw_if (negb (sin_family source =? sin_family destination))
        (runtime_error "The PROXY destination and source addresses must be of the same family");
  let command := 1 in
  let protocol := Z.lor (if ca_isIPv4 source then 16 else 32) (if tcp then 1 else 2) in
  let addrSize := if ca_isIPv4 source then 4 else 16 in
  valuesSize ← values_size 0 values;
  let additionalDataSize := addrSize * 2 + 2 + 2 + valuesSize in
  _ ← throw_if (uint16_max <? additionalDataSize) (runtime_error "The size of a proxy protocol header is limited");
  Ok (makeSimpleHeader command protocol (u16 additionalDataSize) []
      ++ sin_addr source ++ sin_addr destination ++ be16 (sin_port source) ++ be16 (sin_port destination)
      ++ concat (map value_bytes values)).

(** [header.at(i)], and two of them as a 16-bit number. *)
Definition header_at (header : bytes) (i : Z) : result Z := of_option (out_of_range "at") (zat header i).

Definition header_at16 (header : bytes) (i : Z) : result Z :=
  high ← header_at header i; low ← header_at header (i + 1); Ok (u16 (Z.shiftl high 8 + low)).

(** The variables [isProxyHeaderComplete] sets through its pointers. *)
Record header_vars : Type := mkHeaderVars {
  hv_proxy : bool;
  hv_tcp : bool;
  hv_addrSize : Z;
  hv_protocol : Z;
}.

(** The part for the command PROXY, the protocol byte: whether to go on. *)
Definition header_protocol (byte : Z) (vars : header_vars) : bool * header_vars :=
  match (if Z.land byte 15 =? 1 then Some true else if Z.land byte 15 =? 2 then Some false else None) with
  | None => (false, vars)
  | Some tcp =>
      let protocol := Z.shiftr byte 4 in
      if protocol =? 1 then (true, mkHeaderVars true tcp 4 4)
      else if protocol =? 2 then (true, mkHeaderVars true tcp 16 6)
      else (false, mkHeaderVars (hv_proxy vars) tcp (hv_addrSize vars) (hv_protocol vars))
  end.

Definition isProxyHeaderComplete (header : bytes) (vars : header_vars) : result (Z * header_vars) :=
  if zlen header <? s_proxyProtocolMinimumHeaderSize then Ok (- (s_proxyProtocolMinimumHeaderSize - zlen header), vars)
  else if negb (bool_decide (zsub header 0 (zlen proxymagic) = proxymagic)) then Ok (0, vars)
  else
    versioncommand ← header_at header 12;
    if Z.land versioncommand 32 =? 0 then Ok (0, vars)
    else
      let command := Z.land versioncommand (Z.lnot 32) in
      outcome ← (if command =? 1 then byte ← header_at header 13; Ok (header_protocol byte vars)
                 else if command =? 0 then Ok (true, mkHeaderVars false (hv_tcp vars) (hv_addrSize vars) (hv_protocol vars))
                 else Ok (false, vars));
      match outcome with
      | (false, vars) => Ok (0, vars)
      | (true, vars) =>
          contentlen ← header_at16 header 14;
          let expectedlen := if command =? 0 then 0 else hv_addrSize vars * 2 + 2 + 2 in
          if contentlen <? expectedlen then Ok (0, vars)
          else if zlen header <? s_proxyProtocolMinimumHeaderSize + contentlen then
            Ok (- (s_proxyProtocolMinimumHeaderSize + contentlen - zlen header), vars)
          else Ok (s_proxyProtocolMinimumHeaderSize + contentlen, vars)
      end.

(** The loop over the type-length-values: the position reached, or 0. *)
Fixpoint values_loop (fuel : nat) (header : bytes) (got pos : Z) (values : list ProxyProtocolValue)
  : result (Z * list ProxyProtocolValue) :=
  if negb (3 <=? got - pos) then Ok (pos, values)
  else
    match fuel with
    | O => Throw (runtime_error "out of fuel")
    | S fuel =>
        type ← header_at header pos;
        let pos := pos + 1 in
        len ← header_at16 header pos;
        let pos := pos + 2 in
        if 0 <? len then
          if got - pos <? len then Ok (0, values)
          else
            _ ← header_at header pos;
            values_loop fuel header got (pos + len) (values ++ [mkPPV (zsub header pos len) type])
        else values_loop fuel header got pos (values ++ [mkPPV [] type])
    end.

(** The arguments [parseProxyHeader] takes by reference. *)
Record proxy_vars : Type := mkProxyVars {
  px_proxy : bool;
  px_source : ComboAddress;
  px_destination : ComboAddress;
  px_tcp : bool;
  px_values : list ProxyProtocolValue;
}.

(** The addresses and ports, from the position after the fixed part. *)
Definition header_addresses (header : bytes) (vars : header_vars) : result (ComboAddress * ComboAddress * Z) :=
  let pos := s_proxyProtocolMinimumHeaderSize in
  _ ← header_at header pos;
  source ← makeComboAddressFromRaw (hv_protocol vars) (zsub header pos (hv_addrSize vars));
  let pos := pos + hv_addrSize vars in
  _ ← header_at header pos;
  destination ← makeComboAddressFromRaw (hv_protocol vars) (zsub header pos (hv_addrSize vars));
  let pos := pos + hv_addrSize vars in
  sourcePort ← header_at16 header pos;
  let pos := pos + 2 in
  destinationPort ← header_at16 header pos;
  Ok (ca_setPort sourcePort source, ca_setPort destinationPort destination, pos + 2).

Definition parseProxyHeader (header : bytes) (vars : proxy_vars) : result (Z * proxy_vars) :=
  complete ← isProxyHeaderComplete header (mkHeaderVars (px_proxy vars) (px_tcp vars) 0 0);
  let '(got, hv) := complete in
  let vars := mkProxyVars (hv_proxy hv) (px_source vars) (px_destination vars) (hv_tcp hv) (px_values vars) in
  if got <=? 0 then Ok (got, vars)
  else
    addresses ← (if hv_proxy hv then header_addresses header hv
                 else Ok (px_source vars, px_destination vars, s_proxyProtocolMinimumHeaderSize));
    let '(source, destination, pos) := addresses in
    outcome ← values_loop (Z.to_nat got) header got pos (px_values vars);
    let '(consumed, values) := outcome in
    Ok (consumed, mkProxyVars (hv_proxy hv) source destination (hv_tcp hv) values).
