(* ===== verification/ProxyProtocolSpec.v ===== *)
(** * What the proxy protocol codec guarantees

    Reading stays inside the header whatever the bytes, a header that was made is
    read back in front of any payload, and a part of it tells how many bytes are
    missing. *)

From S2P Require Import Prelude IpUtils ProxyProtocol.

#[local] Open Scope Z_scope.

(** ** Reading never leaves the header *)

Lemma header_at_ok header i : 0 <= i < zlen header -> header_at header i = Ok (byte_at header i).
Proof. intros Hi. unfold header_at, byte_at. by destruct (zat_range header i Hi) as [x ->]. Qed.

Lemma header_at16_ok header i : bytes_ok header -> 0 <= i -> i + 1 < zlen header -> header_at16 header i = Ok (get16 header i).
Proof.
  intros Hb Hi Hl. unfold header_at16. rewrite !header_at_ok by lia. cbn [mbind result_bind].
  pose proof (get16_range header i Hb). rewrite Z.shiftl_mul_pow2 by lia. change (2 ^ 8) with 256.
  unfold u16. rewrite Z.mod_small by (exact H). done.
Qed.

(** The address of the sizes that the protocol byte stands for. *)
Definition protocol_ok (vars : header_vars) : Prop :=
  hv_protocol vars = 4 /\ hv_addrSize vars = 4 \/ hv_protocol vars = 6 /\ hv_addrSize vars = 16.

Lemma header_protocol_ok byte vars vars' : header_protocol byte vars = (true, vars') -> hv_proxy vars' = true /\ protocol_ok vars'.
Proof. unfold header_protocol, protocol_ok. intros H. repeat case_match; simplify_eq/=; auto. Qed.

Lemma complete_total header vars :
  bytes_ok header ->
  exists r vars', isProxyHeaderComplete header vars = Ok (r, vars')
    /\ (0 < r -> r = 16 + get16 header 14 /\ r <= zlen header
         /\ (hv_proxy vars' = true -> protocol_ok vars' /\ 16 + (hv_addrSize vars' * 2 + 4) <= r)).
Proof.
  intros Hb. unfold isProxyHeaderComplete, s_proxyProtocolMinimumHeaderSize.
  destruct (Z.ltb_spec (zlen header) 16); [do 2 eexists; split; [done|lia]|].
  case_bool_decide; cbn [negb]; [|do 2 eexists; split; [done|lia]].
  rewrite !header_at_ok, header_at16_ok by (done || lia). cbn [mbind result_bind].
  destruct (Z.eqb_spec (Z.land (byte_at header 12) 32) 0); [do 2 eexists; split; [done|lia]|].
  set (command := Z.land (byte_at header 12) (Z.lnot 32)).
  pose proof (get16_range header 14 Hb). set (len := get16 header 14) in *.
  destruct (Z.eqb_spec command 1) as [->|].
  - destruct (header_protocol (byte_at header 13) vars) as [[] vars'] eqn:Hp; cbn [mbind result_bind Z.eqb];
      [|do 2 eexists; split; [done|lia]]. apply header_protocol_ok in Hp as [Hx Hp].
    destruct (Z.ltb_spec len (hv_addrSize vars' * 2 + 2 + 2)); [do 2 eexists; split; [done|lia]|].
    destruct (Z.ltb_spec (zlen header) (16 + len)); do 2 eexists; (split; [done|]); intros; [lia|].
    split_and!; [done|lia|]. intros _. split; [done|lia].
  - destruct (Z.eqb_spec command 0); cbn [mbind result_bind]; [|do 2 eexists; split; [done|lia]].
    destruct (Z.ltb_spec len 0); [lia|]. destruct (Z.ltb_spec (zlen header) (16 + len)); do 2 eexists; (split; [done|]); intros; [lia|].
    split_and!; [done|lia|]. done.
Qed.

Lemma values_loop_total fuel header got pos values :
  bytes_ok header -> 0 <= pos <= got -> got <= zlen header -> got - pos < 3 * Z.of_nat fuel + 3 ->
  exists r values', values_loop fuel header got pos values = Ok (r, values') /\ (r = 0 \/ pos <= r <= got /\ got - r < 3).
Proof.
  intros Hb. revert pos values. induction fuel as [|fuel IH]; intros pos values Hpos Hgot Hfuel; cbn [values_loop];
    (destruct (Z.leb_spec 3 (got - pos)); cbn [negb]; [|do 2 eexists; split; [done|right; lia]]); [lia|].
  rewrite (header_at_ok header pos) by lia. cbn [mbind result_bind]. rewrite header_at16_ok by (done || lia). cbn [mbind result_bind].
  pose proof (get16_range header (pos + 1) Hb). set (len := get16 header (pos + 1)) in *.
  destruct (Z.ltb_spec 0 len).
  - destruct (Z.ltb_spec (got - (pos + 1 + 2)) len); [do 2 eexists; split; [done|by left]|].
    rewrite header_at_ok by lia. cbn [mbind result_bind].
    destruct (IH (pos + 1 + 2 + len) (values ++ [mkPPV (zsub header (pos + 1 + 2) len) (byte_at header pos)]))
      as (r & v & -> & Hr); [lia..|]. do 2 eexists. split; [done|]. lia.
  - destruct (IH (pos + 1 + 2) (values ++ [mkPPV [] (byte_at header pos)])) as (r & v & -> & Hr); [lia..|].
    do 2 eexists. split; [done|]. lia.
Qed.

Lemma header_addresses_total header vars :
  bytes_ok header -> protocol_ok vars -> 16 + (hv_addrSize vars * 2 + 4) <= zlen header ->
  exists source destination,
    header_addresses header vars = Ok (source, destination, 16 + (hv_addrSize vars * 2 + 4)) /\ ca_ok source /\ ca_ok destination.
Proof.
  intros Hb Hp Hl. unfold header_addresses, s_proxyProtocolMinimumHeaderSize.
  assert (forall i, 0 <= i -> i + hv_addrSize vars <= zlen header ->
            exists a, makeComboAddressFromRaw (hv_protocol vars) (zsub header i (hv_addrSize vars)) = Ok a /\ ca_ok a) as Hmake.
  { intros i Hi Hil. assert (zlen (zsub header i (hv_addrSize vars)) = hv_addrSize vars) as Hz.
    { unfold zsub. rewrite zlen_ztake by (unfold protocol_ok in Hp; lia). rewrite zlen_zdrop; lia. }
    assert (bytes_ok (zsub header i (hv_addrSize vars))) as Hbz by (by apply bytes_ok_ztake, bytes_ok_zdrop).
    unfold makeComboAddressFromRaw. destruct Hp as [[-> Hs]|[-> Hs]]; rewrite Hz, Hs in *; cbn [Z.eqb Pos.eqb negb];
      eexists; (split; [done|]); split; [left|done|right|done]; done. }
  assert (4 <= hv_addrSize vars) by (unfold protocol_ok in Hp; lia).
  destruct (Hmake 16) as (source & -> & Hsrc); [lia..|].
  destruct (Hmake (16 + hv_addrSize vars)) as (destination & -> & Hdst); [lia..|].
  rewrite !header_at_ok by lia. cbn [mbind result_bind]. rewrite !header_at16_ok by (done || lia). cbn [mbind result_bind].
  replace (16 + (hv_addrSize vars * 2 + 4)) with (16 + hv_addrSize vars + hv_addrSize vars + 2 + 2) by lia.
  do 2 eexists. split; [done|]. done.
Qed.

(** [parseProxyHeader] on any bytes at all never reads outside them and always
    comes back with an answer: what it consumes ends within two bytes of the
    announced end of the header, inside of what was received, and the addresses of
    a proxied connection are proper ones. *)
Theorem parseProxyHeader_safe header vars :
  bytes_ok header ->
  exists r vars', parseProxyHeader header vars = Ok (r, vars')
    /\ (0 < r -> let announced := 16 + get16 header 14 in
          announced - 2 <= r <= announced /\ announced <= zlen header
          /\ (px_proxy vars' = true -> ca_ok (px_source vars') /\ ca_ok (px_destination vars'))).
Proof.
  intros Hb. unfold parseProxyHeader.
  destruct (complete_total header (mkHeaderVars (px_proxy vars) (px_tcp vars) 0 0) Hb) as (got & hv & -> & Hgot).
  cbn [mbind result_bind]. destruct (Z.leb_spec got 0); [do 2 eexists; split; [done|lia]|].
  destruct Hgot as (Hann & Hle & Haddr); [done|]. pose proof (get16_range header 14 Hb).
  destruct (hv_proxy hv) eqn:Hproxy.
  - destruct (Haddr eq_refl) as [Hp Hsize].
    destruct (header_addresses_total header hv Hb Hp) as (source & destination & -> & Hs & Hd); [lia|]. cbn [mbind result_bind px_values].
    destruct (values_loop_total (Z.to_nat got) header got (16 + (hv_addrSize hv * 2 + 4)) (px_values vars)) as (r & v & -> & Hr);
      [done|unfold protocol_ok in Hp; lia|done|unfold protocol_ok in Hp; lia|].
    do 2 eexists. split; [done|]. intros Hpos. cbv zeta. cbn [px_proxy px_source px_destination]. split_and!; [lia..|done].
  - cbn [mbind result_bind px_values]. unfold s_proxyProtocolMinimumHeaderSize.
    destruct (values_loop_total (Z.to_nat got) header got 16 (px_values vars)) as (r & v & -> & Hr); [done|lia..|].
    do 2 eexists. split; [done|]. intros Hpos. cbv zeta. cbn [px_proxy px_source px_destination]. split_and!; [lia..|done].
Qed.

(** ** Round trip *)

Definition value_size (value : ProxyProtocolValue) : Z := 3 + zlen (ppv_content value).

Fixpoint values_total (values : list ProxyProtocolValue) : Z :=
  match values with [] => 0 | value :: values => value_size value + values_total values end.

Lemma values_total_nonneg values : 0 <= values_total values.
Proof.
  induction values as [|v values IH]; cbn; [done|]. unfold value_size. pose proof (zlen_nonneg (ppv_content v)). lia.
Qed.

Lemma values_size_Ok s values t : 0 <= s <= uint16_max -> values_size s values = Ok t <-> t = s + values_total values /\ t <= uint16_max.
Proof.
  revert s. induction values as [|v values IH]; intros s Hs; cbn [values_size values_total].
  { split; [intros [= ->]; lia|]. intros [-> _]. f_equal. lia. }
 pose proof (values_total_nonneg values). pose proof (zlen_nonneg (ppv_content v)). unfold value_size.
  destruct (Z.ltb_spec uint16_max (zlen (ppv_content v))); cbn [throw_if mbind result_bind]; [split; [done|lia]|].
  destruct (Z.ltb_spec uint16_max (s + 1 + 2 + zlen (ppv_content v))); cbn [throw_if mbind result_bind]; [split; [done|lia]|].
  rewrite IH by lia. split; lia.
Qed.

Lemma zlen_values values : zlen (concat (map value_bytes values)) = values_total values.
Proof.
  induction values as [|v values IH]; [done|]. cbn [map concat values_total].
  rewrite zlen_app, IH. unfold value_bytes, value_size. rewrite !zlen_app, zlen_be16. change (zlen [ppv_type v]) with 1. lia.
Qed.

(** The announced content: addresses, ports and values. *)
Definition header_content (source destination : ComboAddress) (values : list ProxyProtocolValue) : bytes :=
  sin_addr source ++ sin_addr destination ++ be16 (sin_port source) ++ be16 (sin_port destination) ++ concat (map value_bytes values).

Definition protocol_byte (v4 tcp : bool) : Z := Z.lor (if v4 then 16 else 32) (if tcp then 1 else 2).

(** [makeProxyHeader] succeeds when the families agree and the content fits. *)
Lemma makeProxyHeader_Ok tcp source destination values h :
  ca_ok source -> ca_ok destination ->
  makeProxyHeader tcp source destination values = Ok h
  <-> sin_family source = sin_family destination /\ zlen (header_content source destination values) <= uint16_max
      /\ h = makeSimpleHeader 1 (protocol_byte (ca_isIPv4 source) tcp) (zlen (header_content source destination values)) []
             ++ header_content source destination values.
Proof.
  intros Hs Hd. unfold makeProxyHeader. destruct (Z.eqb_spec (sin_family source) (sin_family destination)) as [Hf|]; [|naive_solver].
  cbn [negb throw_if mbind result_bind]. set (v4 := ca_isIPv4 source).
  assert (zlen (header_content source destination values) = (if v4 then 4 else 16) * 2 + 4 + values_total values) as Hlen.
  { unfold header_content. rewrite !zlen_app, !zlen_be16, zlen_values. unfold v4, ca_isIPv4.
    destruct Hs as [[[Hs Hsl]|[Hs Hsl]] _], Hd as [[[Hd Hdl]|[Hd Hdl]] _]; rewrite Hs in *; rewrite Hd in *; try discriminate;
      rewrite Hsl, Hdl; cbn; lia. }
  pose proof (values_total_nonneg values) as Hnn.
  destruct (values_size 0 values) as [t|e] eqn:Ht.
  - apply values_size_Ok in Ht as [-> Ht]; [|done]. cbn [mbind result_bind].
    assert ((if v4 then 4 else 16) * 2 + 2 + 2 + (0 + values_total values) = zlen (header_content source destination values)) as -> by lia.
    destruct (Z.ltb_spec uint16_max (zlen (header_content source destination values))) as [Hlt|Hge]; cbn [throw_if mbind result_bind]; [split; [done|lia]|].
    pose proof (zlen_nonneg (header_content source destination values)). fold (header_content source destination values).
    unfold u16. rewrite Z.mod_small by (unfold uint16_max in Hge; lia). split; [intros [= <-]; done|].
    intros (_ & _ & ->). done.
  - cbn [mbind result_bind]. split; [done|]. intros (_ & Hle & _).
    assert (values_size 0 values = Ok (values_total values)) as E by (apply values_size_Ok; unfold uint16_max in *; [lia|split; [lia|]; destruct v4; lia]).
    congruence.
Qed.

Lemma header_at_app pre x post i : i = zlen pre -> header_at (pre ++ x :: post) i = Ok x.
Proof. intros ->. unfold header_at. rewrite zat_app_r by lia. by rewrite Z.sub_diag, zat_0. Qed.

Lemma header_at16_app pre v post i : i = zlen pre -> 0 <= v < 65536 -> header_at16 (pre ++ be16 v ++ post) i = Ok v.
Proof.
  intros -> Hv. unfold header_at16, be16. cbn [app]. rewrite (header_at_app pre _ _ (zlen pre)) by done. cbn [mbind result_bind].
  change (v / 256 mod 256 :: v mod 256 :: post) with ([v / 256 mod 256] ++ v mod 256 :: post). rewrite app_assoc.
  rewrite header_at_app by (by rewrite zlen_app). cbn [mbind result_bind]. rewrite Z.shiftl_mul_pow2 by lia. change (2 ^ 8) with 256.
  unfold u16. rewrite div_mod_256, Z.mod_small by lia. done.
Qed.

(** The fixed part, with anything behind it. *)
Lemma complete_simple (v4 tcp : bool) len q vars :
  (if v4 then 12 else 36) <= len < 65536 ->
  isProxyHeaderComplete (makeSimpleHeader 1 (protocol_byte v4 tcp) len [] ++ q) vars
  = Ok (if zlen q <? len then zlen q - len else 16 + len, mkHeaderVars true tcp (if v4 then 4 else 16) (if v4 then 4 else 6)).
Proof.
  intros Hlen. unfold isProxyHeaderComplete, s_proxyProtocolMinimumHeaderSize, makeSimpleHeader. cbn [app].
  set (fixed := proxymagic ++ Z.lor 32 1 :: protocol_byte v4 tcp :: []).
  assert ((proxymagic ++ Z.lor 32 1 :: protocol_byte v4 tcp :: be16 len) ++ q = fixed ++ be16 len ++ q) as ->
    by (unfold fixed; by rewrite <- !app_assoc).
  pose proof (zlen_nonneg q). assert (zlen (fixed ++ be16 len ++ q) = 16 + zlen q) as -> by (rewrite !zlen_app, zlen_be16; change (zlen fixed) with 14; lia).
  rewrite (proj2 (Z.ltb_ge _ _)), bool_decide_eq_true_2 by (lia || done). cbn [negb].
  change (header_at (fixed ++ be16 len ++ q) 12) with (Ok 33). change (header_at (fixed ++ be16 len ++ q) 13) with (Ok (protocol_byte v4 tcp)).
  rewrite (header_at16_app fixed) by (done || (destruct v4; lia)). cbn [mbind result_bind]. change (Z.land 33 32 =? 0) with false.
  change (Z.land 33 (Z.lnot 32)) with 1.
  assert (header_protocol (protocol_byte v4 tcp) vars = (true, mkHeaderVars true tcp (if v4 then 4 else 16) (if v4 then 4 else 6))) as E
    by (by destruct v4, tcp). cbn [Z.eqb Pos.eqb mbind result_bind]. rewrite E. cbn [hv_addrSize].
  rewrite (proj2 (Z.ltb_ge len _)) by (destruct v4; lia). destruct (Z.ltb_spec (zlen q) len).
  - rewrite (proj2 (Z.ltb_lt _ _)) by lia. do 2 f_equal. lia.
  - rewrite (proj2 (Z.ltb_ge _ _)) by lia. done.
Qed.

(** The loop over the values reads what was written, behind [before]. *)
Lemma values_loop_reads fuel before values rest read :
  zlen (concat (map value_bytes values)) <= 3 * Z.of_nat fuel -> values_total values <= uint16_max ->
  values_loop fuel (before ++ concat (map value_bytes values) ++ rest) (zlen before + values_total values) (zlen before) read
  = Ok (zlen before + values_total values, read ++ values).
Proof.
  rewrite zlen_values. revert fuel before read. induction values as [|v values IH]; intros fuel before read Hfuel Hmax.
  { cbn [values_total map concat app]. rewrite Z.add_0_r, app_nil_r.
    destruct fuel; cbn [values_loop]; rewrite Z.sub_diag; done. }
  cbn [values_total map concat] in *. pose proof (values_total_nonneg values).
  destruct v as [content type]. unfold value_size in *. cbn [ppv_content] in *. pose proof (zlen_nonneg content).
  destruct fuel as [|fuel]; [lia|]. cbn [values_loop].
  rewrite (proj2 (Z.leb_le 3 _)) by lia. cbn [negb].
  assert (value_bytes (mkPPV content type) = [type] ++ be16 (zlen content) ++ content) as ->
    by (unfold value_bytes, u16; cbn [ppv_content ppv_type]; rewrite Z.mod_small by (unfold uint16_max in Hmax; lia); done).
  set (tail := concat (map value_bytes values) ++ rest).
  assert (before ++ (([type] ++ be16 (zlen content) ++ content) ++ concat (map value_bytes values)) ++ rest
          = before ++ type :: be16 (zlen content) ++ content ++ tail) as -> by (unfold tail; by rewrite <- !app_assoc).
  rewrite (header_at_app before _ _ (zlen before)) by done. cbn [mbind result_bind].
  assert (before ++ type :: be16 (zlen content) ++ content ++ tail = (before ++ [type]) ++ be16 (zlen content) ++ content ++ tail) as E
    by (by rewrite <- !app_assoc).
  rewrite E, (header_at16_app (before ++ [type])) by (unfold uint16_max in Hmax; rewrite ?zlen_app; done || lia). cbn [mbind result_bind]. rewrite <- E.
  set (before' := before ++ [type] ++ be16 (zlen content)).
  assert (zlen before' = zlen before + 1 + 2) as Hb' by (unfold before'; rewrite !zlen_app, zlen_be16; change (zlen [type]) with 1; lia).
  assert (before ++ type :: be16 (zlen content) ++ content ++ tail = before' ++ content ++ tail) as -> by (unfold before'; by rewrite <- !app_assoc).
  rewrite <- Hb'. set (vl := mkPPV content type).
  assert (values_loop fuel ((before' ++ content) ++ concat (map value_bytes values) ++ rest) (zlen (before' ++ content) + values_total values)
            (zlen (before' ++ content)) (read ++ [vl]) = Ok (zlen (before' ++ content) + values_total values, (read ++ [vl]) ++ values)) as Hnext
    by (apply IH; lia).
  rewrite <- !app_assoc in Hnext. rewrite zlen_app in Hnext. fold tail in Hnext.
  replace (zlen before + (3 + zlen content + values_total values)) with (zlen before' + zlen content + values_total values) by lia.
  destruct (Z.ltb_spec 0 (zlen content)).
  - rewrite (proj2 (Z.ltb_ge _ _)) by lia. destruct content as [|x content]; [done|].
    assert (header_at (before' ++ (x :: content) ++ tail) (zlen before') = Ok x) as -> by (by apply (header_at_app before' x (content ++ tail))).
    cbn [mbind result_bind]. unfold zsub. rewrite zdrop_app, ztake_app by done. exact Hnext.
  - assert (content = []) as -> by (apply zlen_zero_inv; lia). rewrite zlen_nil, Z.add_0_r in *. exact Hnext.
Qed.

Lemma header_addresses_reads fixed source destination rest (tcp : bool) :
  ca_ok source -> ca_ok destination -> sin_family source = sin_family destination ->
  0 <= sin_port source < 65536 -> 0 <= sin_port destination < 65536 -> zlen fixed = 16 ->
  let v4 := ca_isIPv4 source in
  let a := if v4 then 4 else 16 in
  header_addresses (fixed ++ sin_addr source ++ sin_addr destination ++ be16 (sin_port source) ++ be16 (sin_port destination) ++ rest)
    (mkHeaderVars true tcp a (if v4 then 4 else 6))
  = Ok (source, destination, 16 + (a * 2 + 4)).
Proof.
  intros [Hs _] [Hd _] Hf Hsp Hdp Hfix v4 a. destruct source as [fs ps s], destination as [fd pd d]. cbn in *.
  assert (zlen s = a /\ zlen d = a /\ fd = (if v4 then AF_INET else AF_INET6)) as (Hsl & Hdl & Hfd).
  { unfold v4, a, ca_isIPv4. cbn. subst fd. destruct Hs as [[-> Hs]|[-> Hs]], Hd as [[? Hd]|[? Hd]]; try discriminate; done. }
  assert (forall r, zlen r = a -> makeComboAddressFromRaw (if v4 then 4 else 6) r = Ok (mkCA (if v4 then AF_INET else AF_INET6) 0 r)) as Hraw.
  { intros r Hr. unfold makeComboAddressFromRaw. rewrite Hr. unfold a. by destruct v4. }
  assert (0 < a) as Ha by (unfold a; by destruct v4).
  unfold header_addresses, s_proxyProtocolMinimumHeaderSize. cbn [hv_addrSize hv_protocol].
  set (header := fixed ++ s ++ d ++ be16 ps ++ be16 pd ++ rest).
  assert (zlen header = 16 + a + a + 4 + zlen rest) as Hlen by (unfold header; rewrite !zlen_app, !zlen_be16; lia).
  pose proof (zlen_nonneg rest). rewrite !header_at_ok by lia. cbn [mbind result_bind].
  assert (zsub header 16 a = s) as -> by (unfold zsub, header; by rewrite zdrop_app, ztake_app).
  assert (zsub header (16 + a) a = d) as ->
    by (unfold zsub, header; rewrite app_assoc, zdrop_app, ztake_app by (rewrite ?zlen_app; lia); done).
  rewrite !Hraw by done. cbn [mbind result_bind].
  assert (header_at16 header (16 + a + a) = Ok ps) as ->.
  { unfold header. rewrite !(app_assoc _ _ (be16 ps ++ _)). apply header_at16_app; [rewrite !zlen_app|]; lia. }
  assert (header_at16 header (16 + a + a + 2) = Ok pd) as ->.
  { unfold header. rewrite !(app_assoc _ _ (be16 pd ++ _)). apply header_at16_app; [rewrite !zlen_app, zlen_be16|]; lia. }
  cbn [mbind result_bind]. unfold ca_setPort. cbn [sin_family sin_addr]. rewrite Hf, Hfd. 
  replace (16 + a + a + 2 + 2) with (16 + (a * 2 + 4)) by lia. done.
Qed.

(** C17: the header [makeProxyHeader] makes, in front of any payload, is read back
    by [parseProxyHeader]: addresses, ports, transport and values, and exactly the
    header is consumed.  On a part of the header only, the answer is the number of
    bytes to wait for: up to the fixed part first, to the end of the header then. *)
Theorem proxy_header_round_trip tcp source destination values h payload vars :
  ca_ok source -> ca_ok destination -> 0 <= sin_port source < 65536 -> 0 <= sin_port destination < 65536 ->
  makeProxyHeader tcp source destination values = Ok h ->
  parseProxyHeader (h ++ payload) vars
  = Ok (zlen h, mkProxyVars true source destination tcp (px_values vars ++ values))
  /\ forall n, 0 <= n < zlen h ->
       exists vars', parseProxyHeader (ztake n h) vars = Ok (n - (if n <? 16 then 16 else zlen h), vars').
Proof.
  intros Hs Hd Hsp Hdp (Hf & Hmax & ->)%makeProxyHeader_Ok; [|done..].
  set (v4 := ca_isIPv4 source). set (content := header_content source destination values) in *.
  set (fixed := makeSimpleHeader 1 (protocol_byte v4 tcp) (zlen content) []).
  assert (zlen fixed = 16) as Hfix by (unfold fixed, makeSimpleHeader; by rewrite !zlen_app, zlen_be16).
  pose proof (values_total_nonneg values). set (a := if v4 then 4 else 16).
  assert (zlen content = a * 2 + 4 + values_total values) as Hlen.
  { unfold content, header_content. rewrite !zlen_app, !zlen_be16, zlen_values. unfold a, v4, ca_isIPv4.
    destruct Hs as [[[Hs Hsl]|[Hs Hsl]] _], Hd as [[[Hd Hdl]|[Hd Hdl]] _]; rewrite Hs in *; rewrite Hd in *; try discriminate;
      rewrite Hsl, Hdl; cbn; lia. }
  assert ((if v4 then 12 else 36) <= zlen content < 65536) as Hrange by (unfold uint16_max in Hmax; unfold a in Hlen; destruct v4; lia).
  unfold parseProxyHeader. split.
  - rewrite <- app_assoc. unfold fixed. rewrite complete_simple by done. fold fixed a. cbn [mbind result_bind].
    pose proof (zlen_nonneg payload). rewrite (proj2 (Z.ltb_ge _ _)), (proj2 (Z.leb_gt _ _)) by (rewrite ?zlen_app; destruct v4; lia).
    cbn [hv_proxy hv_tcp px_values px_source px_destination].
    assert (header_addresses (fixed ++ content ++ payload) (mkHeaderVars true tcp a (if v4 then 4 else 6)) = Ok (source, destination, 16 + (a * 2 + 4))) as ->
      by (unfold content, header_content; rewrite <- !app_assoc; by apply header_addresses_reads).
    cbn [mbind result_bind].
    set (before := fixed ++ sin_addr source ++ sin_addr destination ++ be16 (sin_port source) ++ be16 (sin_port destination)).
    assert (zlen before = 16 + (a * 2 + 4)) as Hb.
    { assert (zlen (before ++ concat (map value_bytes values)) = zlen (fixed ++ content)) as E
        by (unfold before, content, header_content; by rewrite <- !app_assoc).
      rewrite !zlen_app, zlen_values in E. lia. }
    replace (16 + zlen content) with (zlen before + values_total values) by lia. rewrite <- Hb.
    assert (fixed ++ content ++ payload = before ++ concat (map value_bytes values) ++ payload) as ->
      by (unfold before, content, header_content; by rewrite <- !app_assoc).
    rewrite values_loop_reads by (rewrite ?zlen_values; unfold uint16_max, a in *; destruct v4; lia).
    cbn [mbind result_bind]. replace (zlen (fixed ++ content)) with (zlen before + values_total values) by (rewrite zlen_app; lia). done.
  - intros n Hn. rewrite zlen_app, Hfix in *. destruct (Z.ltb_spec n 16).
    + unfold isProxyHeaderComplete, s_proxyProtocolMinimumHeaderSize. rewrite zlen_ztake by lia. rewrite zlen_app, Hfix.
      rewrite (proj2 (Z.ltb_lt _ 16)) by lia. cbn [mbind result_bind]. rewrite (proj2 (Z.leb_le _ 0)) by lia.
      eexists. do 2 f_equal. lia.
    + assert (ztake n (fixed ++ content) = fixed ++ ztake (n - 16) content) as ->.
      { unfold ztake. rewrite take_app_ge by (unfold zlen in Hfix; lia). do 2 f_equal. unfold zlen in Hfix. lia. }
      unfold fixed. rewrite complete_simple by done. rewrite zlen_ztake, (proj2 (Z.ltb_lt _ _)) by lia. cbn [mbind result_bind].
      rewrite (proj2 (Z.leb_le _ 0)) by lia. eexists. do 2 f_equal. lia.
Qed.

(** A header for the local command announces nothing and carries no addresses. *)
Theorem local_header_round_trip payload vars :
  parseProxyHeader (makeLocalProxyHeader ++ payload) vars
  = Ok (16, mkProxyVars false (px_source vars) (px_destination vars) (px_tcp vars) (px_values vars)).
Proof.
  unfold parseProxyHeader.
  assert (isProxyHeaderComplete (makeLocalProxyHeader ++ payload) (mkHeaderVars (px_proxy vars) (px_tcp vars) 0 0)
          = Ok (16, mkHeaderVars false (px_tcp vars) 0 0)) as ->; [|done].
  unfold isProxyHeaderComplete, s_proxyProtocolMinimumHeaderSize. pose proof (zlen_nonneg payload).
  assert (zlen (makeLocalProxyHeader ++ payload) = 16 + zlen payload) as -> by (by rewrite zlen_app).
  rewrite (proj2 (Z.ltb_ge _ 16)), bool_decide_eq_true_2 by (lia || done). cbn [negb].
  change (header_at16 (makeLocalProxyHeader ++ payload) 14) with (Ok 0).
  change (header_at (makeLocalProxyHeader ++ payload) 12) with (Ok 32). cbn -[Z.add Z.ltb].
  by rewrite (proj2 (Z.ltb_ge (16 + zlen payload) _)) by lia.
Qed.

Module proxy_example.
Definition source : ComboAddress := mkCA AF_INET6 4242 ([32; 1; 13; 184] ++ replicate 11 0 ++ [1]).
Definition destination : ComboAddress := mkCA AF_INET6 53 ([32; 1; 13; 184] ++ replicate 11 0 ++ [2]).
Definition values : list ProxyProtocolValue := [mkPPV [100; 111; 116] 1; mkPPV [] 2].
Definition nothing : proxy_vars := mkProxyVars false ca_default ca_default false [].
Definition made : bytes := match makeProxyHeader true source destination values with Ok h => h | Throw _ => [] end.

Lemma proxy_header_round_trip_witness :
  parseProxyHeader (made ++ [7; 7]) nothing = Ok (61, mkProxyVars true source destination true values)
  /\ exists vars', parseProxyHeader (ztake 20 made) nothing = Ok (-41, vars').
Proof.
  destruct (proxy_header_round_trip true source destination values made [7; 7] nothing) as [H1 H2];
    [apply (bool_decide_unpack _); vm_compute; exact I..|cbn; lia|cbn; lia|vm_compute; reflexivity|].
  split; [exact H1|]. apply (H2 20). vm_compute. split; congruence.
Defined.

Lemma parseProxyHeader_safe_witness :
  exists r vars', parseProxyHeader (made ++ [7; 7]) nothing = Ok (r, vars')
    /\ (0 < r -> let announced := 16 + get16 (made ++ [7; 7]) 14 in
          announced - 2 <= r <= announced /\ announced <= zlen (made ++ [7; 7])
          /\ (px_proxy vars' = true -> ca_ok (px_source vars') /\ ca_ok (px_destination vars'))).
Proof. apply (parseProxyHeader_safe (made ++ [7; 7]) nothing). apply (bool_decide_unpack _). vm_compute. exact I. Defined.

(** A header that announces 38 bytes: the addresses and two bytes that are too
    few for a value. *)
Definition announces_more : bytes := makeSimpleHeader 1 (protocol_byte false true) 38 [] ++ header_content source destination [] ++ [5; 6].

(** bytes of the header that are too few for a value are not consumed:
    [isProxyHeaderComplete] says 54 bytes and [parseProxyHeader] 52, so that the two
    bytes become the beginning of the payload. *)
Theorem proxy_leftover_is_payload :
  (exists vars', isProxyHeaderComplete announces_more (mkHeaderVars false false 0 0) = Ok (54, vars'))
  /\ parseProxyHeader announces_more nothing = Ok (52, mkProxyVars true source destination true []).
Proof. split; [eexists|]; vm_compute; reflexivity. Qed.
End proxy_example.
