(* ===== verification/NameIndex.v ===== *)
(** * Indices ordered by name

    The caches keep their entries in an index ordered by name in the canonical
    order ([CanonDNSNameCompare]), which puts the names of a subtree next to each
    other.  The index of a collection is the sorted list of its entries; a wipe walks
    it from the lower bound of a name until it leaves the range, and erases what it
    is to erase.  Proved here once for all caches: such a walk misses nothing. *)

From Stdlib Require Import Sorted.
From S2P Require Import Prelude Chars Dns Names NamesFacts NamesOrder NamesSpec Denial DenialFacts.

#[local] Open Scope Z_scope.

(** ** The key of a name *)

(** The labels of a name, case folded, from the last: [named_key n (nkey n)] for
    legal names. *)
Definition nkey (n : DNSName) : key := ckey (getRawLabels n).

Lemma nkey_named n : named n -> named_key n (nkey n).
Proof. intros [ls Hl]. exists ls. split; [done|]. unfold nkey. by rewrite (getRawLabels_represents n ls). Qed.

Lemma canonCompare_key a b : named a -> named b -> canonCompare a b false = true <-> nkey a <k nkey b.
Proof. intros Ha Hb. apply key_canonCompare; by apply nkey_named. Qed.

Lemma name_eqb_key a b : named a -> named b -> name_eqb a b = true <-> nkey a = nkey b.
Proof. intros Ha Hb. apply key_name_eqb; by apply nkey_named. Qed.

Lemma isPartOf_key a b : named a -> named b -> isPartOf a b = Ok (bool_decide (nkey b `prefix_of` nkey a)).
Proof. intros Ha Hb. apply key_isPartOf; by apply nkey_named. Qed.

Lemma named_wf n : named n -> wf_name n.
Proof. intros [ls Hl]. by apply (wf_of_represents n ls). Qed.

(** ** The index *)

Section index.
Context {E : Type} (name_of : E -> DNSName).

(** Insertion into the sorted list, [leb] being the order of the index. *)
Fixpoint ordered_insert (leb : E -> E -> bool) (e : E) (l : list E) : list E :=
  match l with
  | [] => [e]
  | x :: l' => if leb e x then e :: l else x :: ordered_insert leb e l'
  end.

Definition ordered_index (leb : E -> E -> bool) (l : list E) : list E := foldr (ordered_insert leb) [] l.

(** [lower_bound(name)]: the index from the first name that is not before [name]. *)
Fixpoint lower_bound (name : DNSName) (l : list E) : list E :=
  match l with
  | [] => []
  | x :: l' => if canonCompare (name_of x) name false then lower_bound name l' else l
  end.

(** Erasing one entry, told by [same]. *)
Definition erase_entry (same : E -> E -> bool) (e : E) (l : list E) : list E := List.filter (fun x => negb (same e x)) l.

(** A walk over the index: it stops where [inside] is false, and erases from [l] the
    entries that [which] tells; with the number erased. *)
Fixpoint erase_range (inside : E -> result bool) (which : E -> bool) (same : E -> E -> bool) (index l : list E) (ret : Z)
  : result (list E * Z) :=
  match index with
  | [] => Ok (l, ret)
  | e :: index =>
      go_on ← inside e;
      if negb go_on then Ok (l, ret)
      else if which e then erase_range inside which same index (erase_entry same e l) (ret + 1)
      else erase_range inside which same index l ret
  end.
End index.

(** ** Walks miss nothing *)

Section walk.
Context {E : Type} (name_of : E -> DNSName).
Context (leb : E -> E -> bool).

Definition name_le (a b : E) : Prop := nkey (name_of a) ≤k nkey (name_of b).
Definition all_named (l : list E) : Prop := Forall (fun e => named (name_of e)) l.

(** The order of the index is one by name first. *)
Context (Hleb : forall a b, named (name_of a) -> named (name_of b) -> if leb a b then name_le a b else name_le b a).

Lemma ordered_insert_perm e l : ordered_insert leb e l ≡ₚ e :: l.
Proof. induction l as [|x l IH]; cbn; [done|]. destruct (leb e x); [done|]. rewrite IH. apply perm_swap. Qed.

Lemma ordered_perm l : ordered_index leb l ≡ₚ l.
Proof. induction l as [|x l IH]; cbn; [done|]. by rewrite ordered_insert_perm, IH. Qed.

Lemma name_le_trans a b c : name_le a b -> name_le b c -> name_le a c.
Proof. unfold name_le. rewrite (kle_cases (nkey (name_of a))). intros [H| ->] H2; [|done]. apply kle_cases. left. by eapply klt_le_trans. Qed.

Lemma ordered_insert_sorted e l :
  named (name_of e) -> all_named l -> StronglySorted name_le l -> StronglySorted name_le (ordered_insert leb e l).
Proof.
  intros He Hl Hs. induction Hs as [|x l Hs IH Hx]; cbn; [by repeat constructor|].
  apply Forall_cons in Hl as [Hxn Hl]. pose proof (Hleb e x He Hxn) as Hle. destruct (leb e x).
  - constructor; [by constructor|]. constructor; [done|]. eapply Forall_impl; [exact Hx|]. intros y Hy. by eapply name_le_trans.
  - constructor; [auto|]. rewrite ordered_insert_perm. by constructor.
Qed.

Lemma ordered_sorted l : all_named l -> StronglySorted name_le (ordered_index leb l).
Proof.
  induction 1 as [|x l Hx Hl IH]; cbn; [constructor|]. apply ordered_insert_sorted; [done| |done].
  change (all_named (ordered_index leb l)). unfold all_named. by rewrite ordered_perm.
Qed.

Context (name : DNSName) (Hname : named name).

(** A range of the index that begins at [name]: nothing before the name is in it,
    and nothing after an entry outside. *)
Record is_range (inside : E -> bool) : Prop := {
  range_above : forall e, named (name_of e) -> inside e = true -> nkey name ≤k nkey (name_of e);
  range_convex : forall a b, named (name_of a) -> named (name_of b) ->
    nkey name ≤k nkey (name_of a) -> name_le a b -> inside a = false -> inside b = false;
}.

Context (inside : E -> bool) (which : E -> bool) (same : E -> E -> bool) (Hrange : is_range inside).
Context (test : E -> result bool) (Htest : forall e, named (name_of e) -> test e = Ok (inside e)).

#[local] Notation chosen := (fun e => inside e && which e).

Lemma lower_bound_sorted l :
  all_named l -> StronglySorted name_le l ->
  StronglySorted name_le (lower_bound name_of name l)
  /\ Forall (fun e => named (name_of e) /\ nkey name ≤k nkey (name_of e)) (lower_bound name_of name l)
  /\ List.filter chosen (lower_bound name_of name l) = List.filter chosen l.
Proof.
  intros Hn Hs. induction Hs as [|x l Hs IH Hx]; cbn; [by repeat constructor|]. apply Forall_cons in Hn as [Hxn Hn].
  destruct (canonCompare (name_of x) name false) eqn:Hc.
  - apply canonCompare_key in Hc; [|done..]. destruct (IH Hn) as (H1 & H2 & H3). split_and!; [done..|]. rewrite H3.
    destruct (inside x) eqn:Hp; [|done]. apply (range_above _ Hrange) in Hp; [|done]. apply klt_nle in Hc. done.
  - apply not_true_iff_false in Hc. rewrite canonCompare_key in Hc by done. apply knlt_le in Hc.
    split_and!; [by constructor| |done]. constructor; [done|]. rewrite Forall_forall in *. intros y Hy. split; [by apply Hn|].
    pose proof (Hx y Hy) as Hxy. unfold name_le in Hxy. apply kle_cases in Hc as [Hc| ->]; [|done]. apply kle_cases. left. by eapply klt_le_trans.
Qed.

Lemma erase_range_loop index l ret :
  StronglySorted name_le index -> Forall (fun e => named (name_of e) /\ nkey name ≤k nkey (name_of e)) index ->
  erase_range test which same index l ret
  = Ok (fold_left (fun l e => erase_entry same e l) (List.filter chosen index) l, ret + zlen (List.filter chosen index)).
Proof.
  intros Hs Hn. revert l ret. induction Hs as [|x index Hs IH Hx]; intros l ret; cbn [erase_range List.filter].
  { cbn. by rewrite Z.add_0_r. }
  apply Forall_cons in Hn as [[Hxn Hxa] Hn]. rewrite Htest by done. cbn [mbind result_bind].
  destruct (inside x) eqn:Hp; cbn [negb andb].
  - destruct (which x); rewrite IH by done; [|done]. cbn [fold_left]. rewrite zlen_cons. do 2 f_equal. lia.
  - assert (List.filter chosen index = []) as ->; [|cbn; by rewrite Z.add_0_r].
    clear IH Hs. induction Hx as [|y index Hy Hx IH]; [done|]. cbn. apply Forall_cons in Hn as [[Hyn Hya] Hn].
    rewrite (range_convex _ Hrange x y) by done. auto.
Qed.

Lemma erase_all es l :
  fold_left (fun l e => erase_entry same e l) es l = List.filter (fun x => negb (existsb (fun e => same e x) es)) l.
Proof.
  revert l. induction es as [|e es IH]; intros l; cbn [fold_left existsb].
  - induction l as [|x l IHl]; [done|]. cbn. by f_equal.
  - rewrite IH. unfold erase_entry. induction l as [|x l IHl]; [done|]. cbn [List.filter]. rewrite negb_orb.
    destruct (same e x); cbn [negb andb List.filter]; [done|]. by destruct (existsb _ _); cbn [negb]; rewrite IHl.
Qed.

(** A walk from the lower bound of the name erases exactly the entries inside of the
    range that are to be erased. *)
Lemma erase_range_exact l ret :
  all_named l ->
  (forall e x, e ∈ l -> x ∈ l -> same e x = true -> inside e = inside x /\ which e = which x) ->
  (forall e, e ∈ l -> same e e = true) ->
  erase_range test which same (lower_bound name_of name (ordered_index leb l)) l ret
  = Ok (List.filter (fun e => negb (chosen e)) l, ret + zlen (List.filter chosen l)).
Proof.
  intros Hn Hsame Hrefl. assert (all_named (ordered_index leb l)) as Hno by (unfold all_named; by rewrite ordered_perm).
  destruct (lower_bound_sorted _ Hno (ordered_sorted l Hn)) as (Hs & Hb & Hf). rewrite erase_range_loop by done. rewrite Hf.
  pose proof (filter_perm chosen _ _ (ordered_perm l)) as Hperm.
  f_equal. f_equal; [|unfold zlen; by rewrite Hperm]. rewrite erase_all. apply filter_ext_in. intros x Hx. f_equal.
  apply eq_true_iff_eq. rewrite existsb_exists. split.
  - intros (e & He & Hk). apply list_elem_of_In in He. rewrite Hperm in He. apply list_elem_of_In, filter_In in He as [Hel Hep].
    destruct (Hsame e x) as [<- <-]; [by apply list_elem_of_In..|done|done].
  - intros Hp. exists x. split; [apply list_elem_of_In; rewrite Hperm; by apply list_elem_of_In, filter_In|by apply Hrefl, list_elem_of_In].
Qed.
End walk.

(** Orders that compare names first. *)
Lemma leb_by_name {E} (name_of : E -> DNSName) (leb rest : E -> E -> bool) :
  (forall a b, leb a b = if canonCompare (name_of a) (name_of b) false then true
                         else if canonCompare (name_of b) (name_of a) false then false else rest a b) ->
  forall a b, named (name_of a) -> named (name_of b) -> if leb a b then name_le name_of a b else name_le name_of b a.
Proof.
  intros Hleb a b Ha Hb. rewrite Hleb. unfold name_le.
  destruct (canonCompare (name_of a) (name_of b) false) eqn:H1; [apply canonCompare_key in H1; [|done..]; apply kle_cases; by left|].
  destruct (canonCompare (name_of b) (name_of a) false) eqn:H2; [apply canonCompare_key in H2; [|done..]; apply kle_cases; by left|].
  assert (nkey (name_of a) = nkey (name_of b)) as ->.
  { apply not_true_iff_false in H1. apply not_true_iff_false in H2. rewrite canonCompare_key in H1 by done.
    rewrite canonCompare_key in H2 by done. apply knlt_le in H1. apply knlt_le in H2. by apply kle_antisym. }
  assert (nkey (name_of b) ≤k nkey (name_of b)) by (apply kle_cases; by right). by destruct (rest a b).
Qed.

(** ** The two ranges of a name *)

Section ranges.
Context {E : Type} (name_of : E -> DNSName) (name : DNSName) (Hname : named name).

Definition in_subtree (e : E) : bool := bool_decide (nkey name `prefix_of` nkey (name_of e)).
Definition at_name (e : E) : bool := bool_decide (nkey (name_of e) = nkey name).

Lemma subtree_range : is_range name_of name in_subtree.
Proof.
  split.
  - intros e He Hp%bool_decide_eq_true. by apply prefix_kle.
  - intros a b Ha Hb Habove Hab Hout%bool_decide_eq_false. apply bool_decide_eq_false. intros Hpb. apply Hout.
    by apply (k_convex (nkey name) (nkey name) (nkey (name_of a)) (nkey (name_of b))).
Qed.

Lemma name_range : is_range name_of name at_name.
Proof.
  split.
  - intros e He Hp%bool_decide_eq_true. rewrite Hp. apply kle_cases. by right.
  - intros a b Ha Hb Habove Hab Hout%bool_decide_eq_false. apply bool_decide_eq_false. intros Hpb. apply Hout.
    unfold name_le in Hab. rewrite Hpb in Hab. by apply kle_antisym.
Qed.
End ranges.
