(* ===== verification/CacheCleaner.v ===== *)
(** * Pruning of caches

    [pdns/cachecleaner.hh]: the helpers shared by the caches, over collections with
    a sequence index whose front holds what is to go first.  A collection is the
    list of its entries in the order of that index; a shard of a cache comes with
    its count of entries.  The quotas computed in floating point are fields of a
    class, with the one property of rounding that the pruning relies on. *)

From S2P Require Import Prelude.

#[local] Open Scope Z_scope.

(** A shard: [MapCombo] of the caches. *)
Record MapCombo (E : Type) : Type := mkMap {
  d_map : list E;
  d_entriesCount : Z;
}.
Arguments mkMap {E} _ _.
Arguments d_map {E} _.
Arguments d_entriesCount {E} _.

(** [scan_quota] is [ceil(lookAt * (shardSize / cacheSize))], [trim_quota] is
    [round(toTrim * shardSize / cacheSize)], in double precision.  For products
    below 2^52 the second is a nearest integer of the quotient; nothing is assumed
    of the first. *)
Class Quotas : Type := {
  scan_quota : Z -> Z -> Z -> Z;
  trim_quota : Z -> Z -> Z -> Z;
  trim_quota_nearest : forall toTrim shardSize cacheSize,
    0 <= toTrim -> 0 <= shardSize <= cacheSize -> 0 < cacheSize -> toTrim * shardSize < 2 ^ 52 ->
    2 * toTrim * shardSize - cacheSize <= 2 * cacheSize * trim_quota toTrim shardSize cacheSize <= 2 * toTrim * shardSize + cacheSize;
}.

Section cleaner.
Context {E : Type}.

(** ** One collection *)

(** The scan of [pruneCollection]: at most [lookAt] entries are looked at and, when
    trimming, at most [toTrim] erased; the result is what is left and the number
    erased. *)
Fixpoint prune_scan (isStale : E -> bool) (toTrim lookAt tried erased : Z) (sidx : list E) : list E * Z :=
  match sidx with
  | [] => ([], erased)
  | e :: rest =>
      if negb (tried <? lookAt) then (sidx, erased)
      else
        let stale := isStale e in
        let erased := if stale then erased + 1 else erased in
        let keep l := if stale then l else e :: l in
        if negb (toTrim =? 0) && (toTrim <=? erased) then (keep rest, erased)
        else let '(l, n) := prune_scan isStale toTrim lookAt (tried + 1) erased rest in (keep l, n)
  end.

Definition pruneCollection (isStale : E -> bool) (collection : list E) (maxCached scanFraction : Z) : list E :=
  let cacheSize := zlen collection in
  let toTrim := if maxCached <? cacheSize then cacheSize - maxCached else 0 in
  let lookAt := if toTrim =? 0 then cacheSize / scanFraction else 5 * toTrim in
  let '(remaining, erased) := prune_scan isStale toTrim lookAt 0 0 collection in
  if toTrim <=? erased then remaining else zdrop (toTrim - erased) remaining.

(** [moveCacheItemToFront] and [moveCacheItemToBack], of the entry that [is_it]
    tells. *)
Definition moveCacheItemToFront (is_it : E -> bool) (l : list E) : list E :=
  List.filter is_it l ++ List.filter (fun e => negb (is_it e)) l.

Definition moveCacheItemToBack (is_it : E -> bool) (l : list E) : list E :=
  List.filter (fun e => negb (is_it e)) l ++ List.filter is_it l.

(** [lruReplacingInsert] into a collection with a unique key. *)
Definition lruReplacingInsert (same : E -> E -> bool) (l : list E) (value : E) : list E * bool :=
  if existsb (same value) l then (map (fun e => if same value e then value else e) (moveCacheItemToBack (same value) l), false)
  else (l ++ [value], true).

(** ** The shards of a cache *)

(** The scan of one shard: it looks at one entry more than [toScan]. *)
Fixpoint shard_scan (isStale : E -> bool) (toScan lookedAt : Z) (sidx : list E) : list E * Z :=
  match sidx with
  | [] => ([], 0)
  | e :: rest =>
      let stale := isStale e in
      let keep l := if stale then l else e :: l in
      let erased := if stale then 1 else 0 in
      if toScan <=? lookedAt then (keep rest, erased)
      else let '(l, n) := shard_scan isStale toScan (lookedAt + 1) rest in (keep l, erased + n)
  end.

(** Taking entries off a shard, with its count. *)
Definition shard_left (content : MapCombo E) (remaining : list E) (erased : Z) : MapCombo E :=
  mkMap remaining (d_entriesCount content - erased).

Context `{!Quotas}.

Definition scan_shard (isStale : E -> bool) (lookAt cacheSize : Z) (content : MapCombo E) : MapCombo E * Z :=
  let toScan := scan_quota lookAt (zlen (d_map content)) cacheSize in
  let '(remaining, erased) := shard_scan isStale toScan 0 (d_map content) in
  (shard_left content remaining erased, erased).

Fixpoint scan_shards (isStale : E -> bool) (lookAt cacheSize : Z) (maps : list (MapCombo E)) : list (MapCombo E) * Z :=
  match maps with
  | [] => ([], 0)
  | content :: maps =>
      let '(content, erased) := scan_shard isStale lookAt cacheSize content in
      let '(maps, n) := scan_shards isStale lookAt cacheSize maps in
      (content :: maps, erased + n)
  end.

(** The second pass, from the front of each shard: it ends when enough is gone. *)
Fixpoint trim_shards (toTrim cacheSize totErased : Z) (maps : list (MapCombo E)) : list (MapCombo E) * Z :=
  match maps with
  | [] => ([], totErased)
  | content :: maps =>
      let shardSize := zlen (d_map content) in
      let toTrimForThisShard := trim_quota toTrim shardSize cacheSize in
      let cacheSize := cacheSize - shardSize in
      if toTrimForThisShard =? 0 then
        let '(maps, n) := trim_shards toTrim cacheSize totErased maps in (content :: maps, n)
      else
        let removed := Z.min (Z.min toTrimForThisShard shardSize) toTrim in
        let content := shard_left content (zdrop removed (d_map content)) removed in
        if toTrim - removed =? 0 then (content :: maps, totErased + removed)
        else let '(maps, n) := trim_shards (toTrim - removed) cacheSize (totErased + removed) maps in (content :: maps, n)
  end.

Definition pruneMutexCollectionsVector (isStale : E -> bool) (maps : list (MapCombo E)) (maxCached cacheSize : Z)
  : list (MapCombo E) * Z :=
  let toTrim := if maxCached <? cacheSize then cacheSize - maxCached else 0 in
  let lookAt := if maxCached <? cacheSize then Z.max (5 * toTrim) (cacheSize / 10) else cacheSize / 10 in
  if (zlen maps =? 0) || (cacheSize =? 0) then (maps, 0)
  else
    let '(maps, totErased) := scan_shards isStale lookAt cacheSize maps in
    if toTrim <=? totErased then (maps, totErased)
    else trim_shards (toTrim - totErased) (cacheSize - totErased) totErased maps.

(** The shards after the scan and at the end, for collections that are told of each
    entry removed. *)
Definition prune_phases (isStale : E -> bool) (maps : list (MapCombo E)) (maxCached cacheSize : Z)
  : list (MapCombo E) * list (MapCombo E) :=
  let toTrim := if maxCached <? cacheSize then cacheSize - maxCached else 0 in
  let lookAt := if maxCached <? cacheSize then Z.max (5 * toTrim) (cacheSize / 10) else cacheSize / 10 in
  let '(scanned, totErased) := scan_shards isStale lookAt cacheSize maps in
  (scanned, if toTrim <=? totErased then scanned else fst (trim_shards (toTrim - totErased) (cacheSize - totErased) totErased scanned)).

Lemma prune_phases_end isStale maps maxCached cacheSize :
  (zlen maps =? 0) || (cacheSize =? 0) = false ->
  fst (pruneMutexCollectionsVector isStale maps maxCached cacheSize) = snd (prune_phases isStale maps maxCached cacheSize).
Proof.
  unfold pruneMutexCollectionsVector, prune_phases. intros ->. destruct (scan_shards _ _ _ _) as [scanned n]. by destruct (_ <=? n).
Qed.
End cleaner.

(** ** Facts *)

Section cleaner_facts.
Context {E : Type}.

(** A shard whose count is right. *)
Definition counted (m : MapCombo E) : Prop := d_entriesCount m = zlen (d_map m).

Fixpoint total_size (maps : list (MapCombo E)) : Z :=
  match maps with [] => 0 | m :: maps => zlen (d_map m) + total_size maps end.
Fixpoint total_count (maps : list (MapCombo E)) : Z :=
  match maps with [] => 0 | m :: maps => d_entriesCount m + total_count maps end.

Lemma total_size_nonneg maps : 0 <= total_size maps.
Proof. induction maps as [|m maps IH]; cbn [total_size]; [done|]. pose proof (zlen_nonneg (d_map m)). lia. Qed.

Lemma counted_total maps : Forall counted maps -> total_count maps = total_size maps.
Proof. induction 1 as [|m maps Hm _ IH]; [done|]. cbn [total_count total_size]. rewrite Hm. lia. Qed.

Lemma move_front_perm (p : E -> bool) l : moveCacheItemToFront p l ≡ₚ l.
Proof. apply filter_split. Qed.

Lemma move_back_perm (p : E -> bool) l : moveCacheItemToBack p l ≡ₚ l.
Proof. unfold moveCacheItemToBack. rewrite Permutation_app_comm. apply filter_split. Qed.

(** [m'] is what is left of the shard [m]: entries may be missing, those that
    [may_go] forbids are not. *)
Definition left_of (may_go : E -> Prop) (m m' : MapCombo E) : Prop :=
  counted m' /\ d_map m' `sublist_of` d_map m /\ forall e, e ∈ d_map m -> ~ may_go e -> e ∈ d_map m'.

Lemma shard_scan_spec isStale toScan lookedAt (l remaining : list E) n :
  shard_scan isStale toScan lookedAt l = (remaining, n) ->
  zlen remaining = zlen l - n /\ 0 <= n /\ remaining `sublist_of` l /\ forall e, e ∈ l -> isStale e = false -> e ∈ remaining.
Proof.
  revert lookedAt remaining n. induction l as [|x l IH]; intros lookedAt remaining n; cbn [shard_scan].
  { intros [= <- <-]. split_and!; [done..| set_solver]. }
  destruct (toScan <=? lookedAt).
  - intros [= <- <-]. destruct (isStale x) eqn:Hx; rewrite !zlen_cons.
    + split_and!; [lia|lia|by apply sublist_cons|]. intros e [->|He]%elem_of_cons Hs; [congruence|done].
    + split_and!; [lia|lia|done|done].
  - destruct (shard_scan isStale toScan (lookedAt + 1) l) as [r k] eqn:Hr. destruct (IH _ _ _ Hr) as (Hl & Hk & Hsub & Hkeep).
    intros [= <- <-]. destruct (isStale x) eqn:Hx; rewrite !zlen_cons.
    + split_and!; [lia|lia|by apply sublist_cons|]. intros e [->|He]%elem_of_cons Hs; [congruence|auto].
    + split_and!; [lia|lia|by apply sublist_skip|]. intros e [->|He]%elem_of_cons Hs; [left|right; auto].
Qed.

Context `{!Quotas}.

Lemma scan_shards_spec isStale lookAt cacheSize maps maps' n :
  Forall counted maps -> scan_shards isStale lookAt cacheSize maps = (maps', n) ->
  Forall2 (left_of (fun e => isStale e = true)) maps maps' /\ total_size maps' = total_size maps - n /\ 0 <= n.
Proof.
  revert maps' n. induction maps as [|m maps IH]; intros maps' n Hc; cbn [scan_shards].
  { intros [= <- <-]. split_and!; [constructor|done|done]. }
  apply Forall_cons in Hc as [Hm Hc]. unfold scan_shard.
  destruct (shard_scan isStale _ 0 (d_map m)) as [r k] eqn:Hr.
  destruct (scan_shards isStale lookAt cacheSize maps) as [ms k'] eqn:Hms. intros [= <- <-].
  destruct (shard_scan_spec _ _ _ _ _ _ Hr) as (Hl & Hk & Hsub & Hkeep). destruct (IH _ _ Hc eq_refl) as (H1 & H2 & H3).
  split_and!; [|cbn [total_size d_map shard_left]; lia|lia]. constructor; [|done]. split_and!.
  - unfold counted in *. cbn [d_map d_entriesCount shard_left]. lia.
  - done.
  - intros e He Hs. apply Hkeep; [done|]. by destruct (isStale e).
Qed.

(** The quota of a shard never leaves more to trim than the later shards hold. *)
Lemma trim_quota_fits toTrim shardSize cacheSize :
  0 < toTrim <= cacheSize -> 0 <= shardSize <= cacheSize -> toTrim * shardSize < 2 ^ 52 ->
  let q := trim_quota toTrim shardSize cacheSize in
  0 <= q <= shardSize /\ q <= toTrim /\ toTrim - q <= cacheSize - shardSize.
Proof.
  intros Ht Hs Hp q. pose proof (trim_quota_nearest toTrim shardSize cacheSize) as Hq.
  assert (2 * toTrim * shardSize - cacheSize <= 2 * cacheSize * q <= 2 * toTrim * shardSize + cacheSize) as Hn by (apply Hq; lia).
  clearbody q. clear Hq Hp.
  assert (toTrim * shardSize <= cacheSize * shardSize) by nia. assert (toTrim * shardSize <= toTrim * cacheSize) by nia.
  assert (toTrim * (cacheSize - shardSize) <= cacheSize * (cacheSize - shardSize)) by nia.
  assert (0 <= toTrim * shardSize) by nia. split_and!; nia.
Qed.

Lemma left_of_refl P m : counted m -> left_of P m m.
Proof. intros Hm. split_and!; [done|done|auto]. Qed.

Lemma left_of_trans (P Q : E -> Prop) a b c : left_of P a b -> left_of Q b c -> left_of (fun e => P e \/ Q e) a c.
Proof.
  intros (_ & Hs1 & Hk1) (Hc & Hs2 & Hk2). split_and!; [done|by etrans|]. intros e He Hn. apply Hk2; [apply Hk1|]; tauto.
Qed.

Lemma left_of_impl (P Q : E -> Prop) a b : (forall e, P e -> Q e) -> left_of P a b -> left_of Q a b.
Proof. intros HPQ (Hc & Hs & Hk). split_and!; [done|done|]. intros e He Hn. apply Hk; auto. Qed.

Lemma shard_trimmed m k :
  counted m -> 0 <= k <= zlen (d_map m) -> left_of (fun _ => True) m (shard_left m (zdrop k (d_map m)) k).
Proof.
  intros Hm Hk. split_and!; [|apply sublist_drop|tauto]. unfold counted in *. cbn [d_map d_entriesCount shard_left].
  rewrite zlen_zdrop by lia. lia.
Qed.

Lemma trim_shards_spec toTrim cacheSize totErased maps maps' n :
  Forall counted maps -> cacheSize = total_size maps -> 0 < toTrim <= cacheSize -> cacheSize < 2 ^ 26 ->
  trim_shards toTrim cacheSize totErased maps = (maps', n) ->
  n = totErased + toTrim /\ total_size maps' = total_size maps - toTrim /\ Forall2 (left_of (fun _ => True)) maps maps'.
Proof.
  intros Hc. revert toTrim cacheSize totErased maps' n.
  induction Hc as [|m maps Hm Hc IH]; intros toTrim cacheSize totErased maps' n Hsize Ht Hbig; cbn [trim_shards total_size] in *; [lia|].
  pose proof (zlen_nonneg (d_map m)). pose proof (total_size_nonneg maps).
  destruct (trim_quota_fits toTrim (zlen (d_map m)) cacheSize) as (Hq1 & Hq2 & Hq3); [lia|lia| nia|].
  set (q := trim_quota toTrim (zlen (d_map m)) cacheSize) in *.
  destruct (Z.eqb_spec q 0) as [Hq|Hq].
  - destruct (trim_shards toTrim (cacheSize - zlen (d_map m)) totErased maps) as [ms k] eqn:Hms. intros [= <- <-].
    apply IH in Hms as (Hn1 & Hn2 & Hn3); [|lia..]. cbn [total_size].
    split_and!; [lia|lia|]. constructor; [by apply left_of_refl|done].
  - replace (Z.min (Z.min q (zlen (d_map m))) toTrim) with q by lia.
    assert (left_of (fun _ => True) m (shard_left m (zdrop q (d_map m)) q)) as Hleft by (apply shard_trimmed; [done|lia]).
    destruct (Z.eqb_spec (toTrim - q) 0).
    + intros [= <- <-]. cbn [total_size d_map shard_left]. rewrite zlen_zdrop by lia. split_and!; [lia|lia|].
      constructor; [done|]. clear -Hc. induction Hc; constructor; [by apply left_of_refl|done].
    + destruct (trim_shards (toTrim - q) (cacheSize - zlen (d_map m)) (totErased + q) maps) as [ms k] eqn:Hms. intros [= <- <-].
      apply IH in Hms as (Hn1 & Hn2 & Hn3); [|lia..]. cbn [total_size d_map shard_left].
      rewrite zlen_zdrop by lia. split_and!; [lia|lia|]. by constructor.
Qed.

Lemma all_left maps P : Forall counted maps -> Forall2 (left_of P) maps maps.
Proof. induction 1; constructor; [by apply left_of_refl|done]. Qed.

Lemma left_counted P maps maps' : Forall2 (left_of P) maps maps' -> Forall counted maps'.
Proof. induction 1 as [|m m' maps maps' [Hm _]]; by constructor. Qed.

Lemma left_trans (P Q R : E -> Prop) a b c :
  (forall e, P e -> R e) -> (forall e, Q e -> R e) -> Forall2 (left_of P) a b -> Forall2 (left_of Q) b c -> Forall2 (left_of R) a c.
Proof.
  intros HP HQ Hab. revert c. induction Hab as [|x y a b Hxy Hab IH]; intros c Hbc.
  - apply Forall2_nil_inv_l in Hbc as ->. constructor.
  - apply Forall2_cons_inv_l in Hbc as (z & c' & Hyz & Hbc & ->). constructor; [|auto].
    eapply left_of_impl; [|by eapply left_of_trans]. intros e [?|?]; auto.
Qed.

(** Pruning brings a cache of fewer than 2^26 entries within its limit.  Stale
    entries may go at any time, others only when the cache was over its limit, and
    then exactly down to the limit.  What is left of a shard is in the old order,
    and the counts stay right. *)
Lemma prune_bounded (isStale : E -> bool) maps maxCached maps' n :
  Forall counted maps -> 0 <= maxCached -> total_count maps < 2 ^ 26 ->
  pruneMutexCollectionsVector isStale maps maxCached (total_count maps) = (maps', n) ->
  Forall2 (left_of (fun e => isStale e = true \/ (total_count maps' = maxCached /\ maxCached < total_count maps))) maps maps'
  /\ total_count maps' = total_count maps - n /\ total_count maps' <= maxCached.
Proof.
  intros Hc Hmax Hbig. rewrite (counted_total maps Hc) in *. unfold pruneMutexCollectionsVector.
  pose proof (total_size_nonneg maps).
  set (toTrim := if maxCached <? total_size maps then total_size maps - maxCached else 0).
  set (lookAt := if maxCached <? total_size maps then _ else _).
  destruct ((zlen maps =? 0) || (total_size maps =? 0)) eqn:Hempty.
  { intros [= <- <-]. assert (total_size maps = 0) as Hz.
    { apply orb_true_iff in Hempty as [?%Z.eqb_eq|?%Z.eqb_eq]; [|done]. by rewrite (zlen_zero_inv maps). }
    rewrite (counted_total maps Hc). split_and!; [by apply all_left|lia|lia]. }
  destruct (scan_shards isStale lookAt (total_size maps) maps) as [ms k] eqn:Hscan.
  apply scan_shards_spec in Hscan as (Hleft & Hsize & Hk); [|done]. pose proof (left_counted _ _ _ Hleft) as Hc'.
  destruct (Z.leb_spec toTrim k) as [Hle|Hgt].
  - intros [= <- <-]. rewrite (counted_total ms Hc'). split_and!; [|lia|].
    + apply (left_trans (fun e => isStale e = true) (fun _ => False) _ maps ms ms); [intros e He; by left|done|exact Hleft|by apply all_left].
    + unfold toTrim in Hle. destruct (Z.ltb_spec maxCached (total_size maps)); lia.
  - assert (maxCached < total_size maps /\ toTrim = total_size maps - maxCached) as [Hover Htt]
      by (unfold toTrim in *; destruct (Z.ltb_spec maxCached (total_size maps)); lia).
    pose proof (total_size_nonneg ms). intros Htrim. apply trim_shards_spec in Htrim as (Hn & Hsz & Hl2); [|done|lia..].
    rewrite (counted_total maps' (left_counted _ _ _ Hl2)). split_and!; [|lia|lia].
    apply (left_trans (fun e => isStale e = true) (fun _ => True) _ maps ms maps'); [intros e He; by left| |exact Hleft|exact Hl2]. intros e _. right. lia.
Qed.
End cleaner_facts.

(** The quotas rounded in exact arithmetic. *)
#[export] Instance exact_quotas : Quotas.
Proof.
  refine {| scan_quota := fun lookAt shardSize cacheSize => (lookAt * shardSize + cacheSize - 1) / cacheSize;
            trim_quota := fun toTrim shardSize cacheSize => (2 * toTrim * shardSize + cacheSize) / (2 * cacheSize) |}.
  intros t s c Ht Hs Hc _. pose proof (Z.div_mod (2 * t * s + c) (2 * c)). pose proof (Z.mod_pos_bound (2 * t * s + c) (2 * c)). nia.
Defined.
