(* ===== verification/NegCache.v ===== *)
(** * The negative cache of the recursor

    [pdns/recursordist/negcache.cc], [negcache.hh]: entries that deny a type of a
    name, or a whole name, in shards chosen by the hash of the name.  A shard is a
    multi-index container; it is modelled by the list of its sequence index, and the
    ordered index is that list sorted.  The order in which the hashed index lists the
    entries of one name is a parameter.  The refresh tasks a lookup pushes are part of
    its result. *)

From S2P Require Import Prelude Chars Dns Names NamesOrder Validate NameIndex CacheCleaner.

#[local] Open Scope Z_scope.

(** [R] are the [DNSRecord]s that entries carry. *)
Record recordsAndSignatures (R : Type) : Type := mkRAS {
  ras_records : list R;
  ras_signatures : list R;
}.
Arguments mkRAS {R} _ _.
Arguments ras_records {R} _.
Arguments ras_signatures {R} _.

Record NegCacheEntry (R : Type) : Type := mkNegEntry {
  authoritySOA : recordsAndSignatures R;
  DNSSECRecords : recordsAndSignatures R;
  ne_name : DNSName;
  ne_auth : DNSName;
  ne_ttd : Z;
  ne_orig_ttl : Z;
  ne_servedStale : Z;
  ne_validationState : vState;
  ne_qtype : Z;
}.
Arguments mkNegEntry {R} _ _ _ _ _ _ _ _ _.
Arguments authoritySOA {R} _.
Arguments DNSSECRecords {R} _.
Arguments ne_name {R} _.
Arguments ne_auth {R} _.
Arguments ne_ttd {R} _.
Arguments ne_orig_ttl {R} _.
Arguments ne_servedStale {R} _.
Arguments ne_validationState {R} _.
Arguments ne_qtype {R} _.

Definition s_serveStaleExtensionPeriod : Z := 30.

(** The static settings of the class, and the sizes of its parts. *)
Record negcache_settings (R : Type) : Type := {
  s_maxServedStaleExtensions : Z;
  s_maxEntrySize : Z;
  ns_sizeof_entry : Z;
  ns_sizeof_ras : Z;
  ns_record_size : R -> Z;
}.
Arguments s_maxServedStaleExtensions {R} _.
Arguments s_maxEntrySize {R} _.
Arguments ns_sizeof_entry {R} _.
Arguments ns_sizeof_ras {R} _.
Arguments ns_record_size {R} _.

(** A task of [pushAlmostExpiredTask]: name, type and deadline. *)
Definition refresh_task : Type := DNSName * Z * Z.

Section negcache.
Context {R : Type} (cfg : negcache_settings R).
#[local] Abbreviation entry := (NegCacheEntry R).
#[local] Abbreviation negcache := (list (MapCombo (NegCacheEntry R))).

Definition ras_sizeEstimate (r : recordsAndSignatures R) : Z :=
  ns_sizeof_ras cfg + foldr Z.add 0 (map (ns_record_size cfg) (ras_records r))
  + foldr Z.add 0 (map (ns_record_size cfg) (ras_signatures r)).

(** [DNSName::sizeEstimate] is the length of the storage. *)
Definition ne_sizeEstimate (e : entry) : Z :=
  ns_sizeof_entry cfg + ras_sizeEstimate (authoritySOA e) + ras_sizeEstimate (DNSSECRecords e)
  + zlen (d_storage (ne_name e)) + zlen (d_storage (ne_auth e)).

Definition isStale (now : Z) (e : entry) : bool :=
  if 0 <? s_maxServedStaleExtensions cfg
  then ne_ttd e + s_maxServedStaleExtensions cfg * Z.min s_serveStaleExtensionPeriod (ne_orig_ttl e) <? now
  else ne_ttd e <? now.

Definition isEntryUsable (now : Z) (serveStale : bool) (e : entry) : bool :=
  (now <? ne_ttd e) || serveStale || negb (ne_servedStale e =? 0).

(** ** Shards and indices *)

Definition negcache_make (mapsCount : Z) : negcache :=
  replicate (Z.to_nat (if mapsCount =? 0 then 1 else mapsCount)) (mkMap [] 0).

Definition nc_size (maps : negcache) : Z := foldr (fun m n => d_entriesCount m + n) 0 maps.

(** [d_maps.at(qname.hash() % d_maps.size())]. *)
Definition getMap (maps : negcache) (qname : DNSName) : nat := Z.to_nat (hash qname 0 mod zlen maps).

Definition shard_at (maps : negcache) (i : nat) : MapCombo entry := default (mkMap [] 0) (maps !! i).

(** The composite key: name and type. *)
Definition key_of (name : DNSName) (qtype : Z) (e : entry) : bool := name_eqb (ne_name e) name && (ne_qtype e =? qtype).
Definition same_key (a b : entry) : bool := key_of (ne_name a) (ne_qtype a) b.

(** The ordered index: by name in canonical order, then by type. *)
Definition entry_leb (a b : entry) : bool :=
  if canonCompare (ne_name a) (ne_name b) false then true
  else if canonCompare (ne_name b) (ne_name a) false then false
  else ne_qtype a <=? ne_qtype b.

(** Changing the mutable fields of one entry in place. *)
Definition modify (is_it : entry -> bool) (f : entry -> entry) (l : list entry) : list entry :=
  map (fun e => if is_it e then f e else e) l.

(** ** Lookups *)

(** [updateStaleEntry], without the task. *)
Definition updateStaleEntry (now : Z) (e : entry) : entry :=
  let howlong := Z.max 1 (now - ne_ttd e) in
  let extension := Z.max 1 (Z.min (ne_orig_ttl e) s_serveStaleExtensionPeriod) in
  mkNegEntry (authoritySOA e) (DNSSECRecords e) (ne_name e) (ne_auth e)
    (now + Z.min (ne_orig_ttl e) s_serveStaleExtensionPeriod) (ne_orig_ttl e)
    (Z.min (ne_servedStale e + 1 + howlong / extension) (s_maxServedStaleExtensions cfg))
    (ne_validationState e) (ne_qtype e).

Definition stale_task (qtype : Z) (e : entry) : refresh_task :=
  (ne_name e, if qtype =? QType.ENT then QType.A else qtype, ne_ttd e).

Record get_vars : Type := mkGet {
  g_map : list entry;
  g_tasks : list refresh_task;
  g_negEntry : option entry;
}.

(** One entry that matches: [None] goes on with the next. *)
Definition get_entry (qname : DNSName) (qtype now : Z) (serveStale refresh : bool) (type : Z) (v : get_vars)
  : get_vars * option bool :=
  let is_it := key_of qname type in
  match List.find is_it (g_map v) with
  | None => (v, None)
  | Some e =>
      if negb (isEntryUsable now serveStale e) then
        (mkGet (moveCacheItemToFront is_it (g_map v)) (g_tasks v) (g_negEntry v), None)
      else
        let '(e, v) :=
          if (serveStale || (0 <? ne_servedStale e)) && (ne_ttd e <=? now) && (ne_servedStale e <? s_maxServedStaleExtensions cfg)
          then let e' := updateStaleEntry now e in
               (e', mkGet (modify is_it (fun _ => e') (g_map v)) (g_tasks v ++ [stale_task qtype e']) (g_negEntry v))
          else (e, v) in
        if now <? ne_ttd e then
          (mkGet (moveCacheItemToBack is_it (g_map v)) (g_tasks v) (Some e), Some (negb refresh || (ne_servedStale e <=? 0)))
        else (v, None)
  end.

(** The loop over the types that the hashed index lists for the name. *)
Fixpoint get_loop (qname : DNSName) (qtype now : Z) (typeMustMatch serveStale refresh : bool) (types : list Z)
    (v : get_vars) : get_vars * bool :=
  match types with
  | [] => (v, false)
  | type :: types =>
      if (negb typeMustMatch && (type =? QType.ENT)) || (type =? qtype) then
        let '(v, o) := get_entry qname qtype now serveStale refresh type v in
        match o with
        | Some b => (v, b)
        | None => get_loop qname qtype now typeMustMatch serveStale refresh types v
        end
      else get_loop qname qtype now typeMustMatch serveStale refresh types v
  end.

(** The types listed by [get<NegCacheEntry>().equal_range(qname)]: those of the
    entries of the name, in some order. *)
Class HashedIndex : Type := {
  hashed_types : list entry -> DNSName -> list Z;
  hashed_types_spec : forall l qname,
    hashed_types l qname ≡ₚ map ne_qtype (List.filter (fun e => name_eqb (ne_name e) qname) l);
}.

Record get_result : Type := mkGetResult {
  gr_maps : negcache;
  gr_tasks : list refresh_task;
  gr_negEntry : option entry;
  gr_found : bool;
}.

(** [get]; [gr_negEntry] is what it assigns to [negEntry]. *)
Definition nc_get `{!HashedIndex} (maps : negcache) (qname : DNSName) (qtype now : Z) (typeMustMatch serveStale refresh : bool) : get_result :=
  let i := getMap maps qname in
  let content := shard_at maps i in
  let '(v, found) := get_loop qname qtype now typeMustMatch serveStale refresh (hashed_types (d_map content) qname)
                       (mkGet (d_map content) [] None) in
  mkGetResult (<[i := mkMap (g_map v) (d_entriesCount content)]> maps) (g_tasks v) (g_negEntry v) found.

Definition getRootNXTrust `{!HashedIndex} (maps : negcache) (qname : DNSName) (now : Z) (serveStale refresh : bool) : get_result :=
  if isRoot qname then mkGetResult maps [] None false
  else
    let lastLabel := getLastLabel qname in
    let r := nc_get maps lastLabel QType.ENT now true serveStale refresh in
    match gr_negEntry r with
    | Some found => if gr_found r && isRoot (ne_auth found) then r
                    else mkGetResult (gr_maps r) (gr_tasks r) None false
    | None => mkGetResult (gr_maps r) (gr_tasks r) None false
    end.

(** ** Changes *)

Definition nc_add (negEntry : entry) (maps : negcache) : negcache :=
  if (0 <? s_maxEntrySize cfg) && (s_maxEntrySize cfg <? ne_sizeEstimate negEntry) then maps
  else
    let i := getMap maps (ne_name negEntry) in
    let content := shard_at maps i in
    let '(l, inserted) := lruReplacingInsert same_key (d_map content) negEntry in
    <[i := mkMap l (if inserted then d_entriesCount content + 1 else d_entriesCount content)]> maps.

Definition set_validation (newState : vState) (capTTD : option Z) (e : entry) : entry :=
  mkNegEntry (authoritySOA e) (DNSSECRecords e) (ne_name e) (ne_auth e)
    (match capTTD with Some cap => Z.min (ne_ttd e) cap | None => ne_ttd e end)
    (ne_orig_ttl e) (ne_servedStale e) newState (ne_qtype e).

Definition updateValidationStatus (qname : DNSName) (qtype : Z) (newState : vState) (capTTD : option Z) (maps : negcache) : negcache :=
  let i := getMap maps qname in
  let content := shard_at maps i in
  <[i := mkMap (modify (key_of qname qtype) (set_validation newState capTTD) (d_map content)) (d_entriesCount content)]> maps.

Definition nc_count (maps : negcache) (qname : DNSName) : Z :=
  zlen (List.filter (fun e => name_eqb (ne_name e) qname) (d_map (shard_at maps (getMap maps qname)))).

Definition nc_count_type (maps : negcache) (qname : DNSName) (qtype : Z) : Z :=
  zlen (List.filter (key_of qname qtype) (d_map (shard_at maps (getMap maps qname)))).

(** The loop of a wipe of a subtree over one shard, from the lower bound on in the
    ordered index. *)
Definition wipe_subtree (name : DNSName) (l : list entry) : result (list entry * Z) :=
  erase_range (fun e => isPartOf (ne_name e) name) (fun _ => true) same_key
    (lower_bound ne_name name (ordered_index entry_leb l)) l 0.

Fixpoint wipe_subtrees (name : DNSName) (maps : negcache) (ret : Z) : result (negcache * Z) :=
  match maps with
  | [] => Ok ([], ret)
  | content :: maps =>
      o ← wipe_subtree name (d_map content);
      let '(l, n) := o in
      o ← wipe_subtrees name maps (ret + n);
      let '(maps, ret) := o in
      Ok (mkMap l (d_entriesCount content - n) :: maps, ret)
  end.

(** Erasing the entries of one shard that [which] tells, and their number. *)
Definition wipe_entries (which : entry -> bool) (name : DNSName) (maps : negcache) : negcache * Z :=
  let i := getMap maps name in
  let content := shard_at maps i in
  let n := zlen (List.filter which (d_map content)) in
  (<[i := mkMap (List.filter (fun e => negb (which e)) (d_map content)) (d_entriesCount content - n)]> maps, n).

Definition wipe (name : DNSName) (subtree : bool) (maps : negcache) : result (negcache * Z) :=
  if subtree then wipe_subtrees name maps 0 else Ok (wipe_entries (fun e => name_eqb (ne_name e) name) name maps).

Definition wipeTyped (qname : DNSName) (qtype : Z) (maps : negcache) : negcache * Z :=
  wipe_entries (fun e => name_eqb (ne_name e) qname && ((ne_qtype e =? QType.ENT) || (ne_qtype e =? qtype))) qname maps.

Definition clear (maps : negcache) : negcache := map (fun _ => mkMap [] 0) maps.

Definition prune `{!Quotas} (now maxEntries : Z) (maps : negcache) : negcache :=
  fst (pruneMutexCollectionsVector (isStale now) maps maxEntries (nc_size maps)).
End negcache.
Arguments HashedIndex R : clear implicits.
