(* ===== verification/NegCacheSpec.v ===== *)
(** * What the negative cache guarantees

    The invariant of the shards and its preservation, lookups against the set of
    entries, wiping of subtrees through the canonical order, pruning, and how far
    serving stale entries goes. *)

From S2P Require Import Prelude Chars Dns Names NamesFacts NamesOrder NamesSpec Denial DenialFacts Validate NameIndex CacheCleaner NegCache.

#[local] Open Scope Z_scope.

Section spec.
Context {R : Type} (cfg : negcache_settings R).
#[local] Abbreviation entry := (NegCacheEntry R).
#[local] Abbreviation negcache := (list (MapCombo (NegCacheEntry R))).
Implicit Types (maps : list (MapCombo (NegCacheEntry R))) (l : list (NegCacheEntry R)) (e : NegCacheEntry R).

Definition raw_key (e : entry) : DNSName * Z := (ne_name e, ne_qtype e).
Definition entry_key (e : entry) : key * Z := (nkey (ne_name e), ne_qtype e).

Lemma key_of_spec name qtype e :
  named name -> named (ne_name e) -> key_of name qtype e = true <-> entry_key e = (nkey name, qtype).
Proof.
  intros Hn He. unfold key_of, entry_key.
  rewrite andb_true_iff, (key_name_eqb _ _ _ _ (nkey_named _ He) (nkey_named _ Hn)), Z.eqb_eq.
  split; [intros [-> ->]; done|]. intros [= -> ->]. done.
Qed.

Lemma same_key_spec a b : named (ne_name a) -> named (ne_name b) -> same_key a b = true <-> entry_key a = entry_key b.
Proof. intros Ha Hb. unfold same_key. rewrite key_of_spec by done. split; intros H; unfold entry_key in *; congruence. Qed.

(** ** The invariant *)

(** The entries of a shard: legal names of this shard, no key twice. *)
Record entries_ok (count i : Z) (l : list entry) : Prop := {
  eo_names : Forall (fun e => named (ne_name e) /\ hash (ne_name e) 0 mod count = i) l;
  eo_keys : NoDup (map entry_key l);
}.

Definition shard_ok (count i : Z) (m : MapCombo entry) : Prop := counted m /\ entries_ok count i (d_map m).

(** [negcache_t] and [MapCombo] are consistent in every shard. *)
Definition nc_ok (maps : negcache) : Prop :=
  maps <> [] /\ forall i m, maps !! i = Some m -> shard_ok (zlen maps) (Z.of_nat i) m.

Lemma one_of_key count i l name qtype : entries_ok count i l -> named name -> one_of (key_of name qtype) l.
Proof.
  intros [Hn Hk] Hname x y Hx Hy Hpx Hpy. rewrite Forall_forall in Hn. destruct (Hn x Hx) as [Hxn _], (Hn y Hy) as [Hyn _].
  apply key_of_spec in Hpx; [|done..]. apply key_of_spec in Hpy; [|done..].
  apply (nodup_map_inj entry_key l); [done..|congruence].
Qed.

(** What only the keys matter for. *)
Lemma entries_ok_keys count i l l' : map raw_key l' ≡ₚ map raw_key l -> entries_ok count i l -> entries_ok count i l'.
Proof.
  intros Hp [Hn Hk].
  assert (forall x, Forall (fun e => named (ne_name e) /\ hash (ne_name e) 0 mod count = i) x
            <-> Forall (fun k => named (fst k) /\ hash (fst k) 0 mod count = i) (map raw_key x)) as Hf
    by (intros x; rewrite Forall_fmap; done).
  assert (forall x, map entry_key x = map (fun k => (nkey (fst k), snd k)) (map raw_key x)) as Hm by (intros x; by rewrite map_map).
  split.
  - rewrite Hf, Hp, <- Hf. done.
  - rewrite Hm, Hp, <- Hm. done.
Qed.

Lemma entries_ok_sublist count i l l' : l' `sublist_of` l -> entries_ok count i l -> entries_ok count i l'.
Proof.
  intros Hs [Hn Hk]. split; [by eapply forall_sublist|]. eapply sublist_NoDup; [exact Hk|]. by apply fmap_sublist.
Qed.

(** ** Shards *)

Lemma getMap_lookup maps name : maps <> [] -> is_Some (maps !! getMap maps name).
Proof.
  intros Hne. apply lookup_lt_is_Some. unfold getMap. pose proof (zlen_nonneg maps).
  assert (zlen maps <> 0) by (intros E; by apply zlen_zero_inv in E).
  pose proof (Z.mod_pos_bound (hash name 0) (zlen maps)). unfold zlen in *. lia.
Qed.

Lemma getMap_index maps name : maps <> [] -> Z.of_nat (getMap maps name) = hash name 0 mod zlen maps.
Proof.
  intros Hne. unfold getMap. assert (zlen maps <> 0) by (intros E; by apply zlen_zero_inv in E).
  pose proof (zlen_nonneg maps). pose proof (Z.mod_pos_bound (hash name 0) (zlen maps)). lia.
Qed.

Lemma shard_at_ok maps name : nc_ok maps -> shard_ok (zlen maps) (hash name 0 mod zlen maps) (shard_at maps (getMap maps name)).
Proof.
  intros [Hne Hok]. destruct (getMap_lookup maps name Hne) as [m Hm]. unfold shard_at. rewrite Hm. cbn.
  rewrite <- getMap_index by done. by apply Hok.
Qed.

(** Replacing the shard of a name by a consistent one. *)
Lemma nc_ok_insert maps name m :
  nc_ok maps -> shard_ok (zlen maps) (hash name 0 mod zlen maps) m -> nc_ok (<[getMap maps name := m]> maps).
Proof.
  intros [Hne Hok] Hm. split.
  - intros E. apply (f_equal length) in E. rewrite length_insert in E. by destruct maps.
  - intros j x Hj. replace (zlen (<[getMap maps name := m]> maps)) with (zlen maps) by (unfold zlen; by rewrite length_insert).
    apply list_lookup_insert_Some in Hj as [(<- & -> & _)|[_ Hj]]; [|by apply Hok]. by rewrite getMap_index.
Qed.

(** A new list with the same keys, in any order. *)
Lemma nc_ok_rekey maps name l n :
  nc_ok maps -> let old := shard_at maps (getMap maps name) in
  map raw_key l ≡ₚ map raw_key (d_map old) -> n = d_entriesCount old -> nc_ok (<[getMap maps name := mkMap l n]> maps).
Proof.
  intros Hok old Hkeys ->. apply nc_ok_insert; [done|]. destruct (shard_at_ok maps name Hok) as [Hc He]. fold old in Hc, He. split.
  - unfold counted in *. cbn. rewrite Hc. unfold zlen. f_equal. apply Permutation_length in Hkeys. rewrite !length_map in Hkeys. done.
  - by eapply entries_ok_keys.
Qed.

(** Fewer entries, with the number taken off the count. *)
Lemma nc_ok_fewer maps name l n :
  nc_ok maps -> let old := shard_at maps (getMap maps name) in
  l `sublist_of` d_map old -> n = d_entriesCount old - (zlen (d_map old) - zlen l) -> nc_ok (<[getMap maps name := mkMap l n]> maps).
Proof.
  intros Hok old Hsub ->. apply nc_ok_insert; [done|]. destruct (shard_at_ok maps name Hok) as [Hc He]. fold old in Hc, He. split.
  - unfold counted in *. cbn [d_map d_entriesCount]. lia.
  - by eapply entries_ok_sublist.
Qed.

(** ** Lookups *)

(** What a lookup makes of an entry that it looks at. *)
Definition touched (now : Z) (serveStale : bool) (e : entry) : entry :=
  if (serveStale || (0 <? ne_servedStale e)) && (ne_ttd e <=? now) && (ne_servedStale e <? s_maxServedStaleExtensions cfg)
  then updateStaleEntry cfg now e else e.

(** The entry can be the answer. *)
Definition answers (now : Z) (serveStale : bool) (e : entry) : bool := now <? ne_ttd (touched now serveStale e).

Lemma touched_key now serveStale e : raw_key (touched now serveStale e) = raw_key e.
Proof. unfold touched. by case_match. Qed.

Lemma touched_entry_key now serveStale e : entry_key (touched now serveStale e) = entry_key e.
Proof. unfold touched. by case_match. Qed.

Lemma unusable_touched now serveStale e :
  isEntryUsable now serveStale e = false -> touched now serveStale e = e /\ answers now serveStale e = false.
Proof.
  unfold isEntryUsable. intros [[Hn ->]%orb_false_iff Hs]%orb_false_iff. apply negb_false_iff, Z.eqb_eq in Hs.
  assert (touched now false e = e) as E by (unfold touched; by rewrite Hs). split; [done|]. unfold answers. by rewrite E.
Qed.

Lemma modify_perm (is_it : entry -> bool) f l l' : l ≡ₚ l' -> modify is_it f l ≡ₚ modify is_it f l'.
Proof. apply Permutation_map. Qed.

Lemma modify_id (is_it : entry -> bool) e l : one_of is_it l -> e ∈ l -> is_it e = true -> modify is_it (fun _ => e) l = l.
Proof.
  intros Ho He Hp. unfold modify. rewrite <- (map_id l) at 2. apply map_ext_in. intros x Hx%list_elem_of_In.
  destruct (is_it x) eqn:Hpx; [|done]. by apply Ho.
Qed.

(** One matching entry: it is looked at, and when it can be the answer it is. *)
Lemma get_entry_spec count i qname qtype now serveStale refresh type v v' o :
  entries_ok count i (g_map v) -> named qname ->
  get_entry cfg qname qtype now serveStale refresh type v = (v', o) ->
  match List.find (key_of qname type) (g_map v) with
  | None => v' = v /\ o = None
  | Some e =>
      let e' := touched now serveStale e in
      g_map v' ≡ₚ modify (key_of qname type) (fun _ => e') (g_map v)
      /\ o = (if answers now serveStale e then Some (negb refresh || (ne_servedStale e' <=? 0)) else None)
      /\ g_negEntry v' = (if answers now serveStale e then Some e' else g_negEntry v)
  end.
Proof.
  intros Hok Hq. unfold get_entry. destruct (List.find (key_of qname type) (g_map v)) as [e|] eqn:Hf; [|by intros [= <- <-]].
  pose proof (one_of_key _ _ _ qname type Hok Hq) as Hone. destruct (find_spec _ _ _ Hf) as [He Hp].
  destruct (isEntryUsable now serveStale e) eqn:Hu; cbn [negb].
  - unfold answers, touched. destruct (_ && _ && _); cbn [g_map g_tasks g_negEntry].
    + set (e' := updateStaleEntry cfg now e). destruct (Z.ltb_spec now (ne_ttd e')); intros [= <- <-]; cbn [g_map g_negEntry];
        (split_and!; [|done|done]); [by rewrite move_back_perm|done].
    + rewrite (modify_id _ e) by done. destruct (Z.ltb_spec now (ne_ttd e)); intros [= <- <-]; cbn [g_map g_negEntry];
        (split_and!; [|done|done]); [by rewrite move_back_perm|done].
  - destruct (unusable_touched _ _ _ Hu) as [-> ->]. intros [= <- <-]. cbn [g_map g_negEntry]. split_and!; [|done|done].
    by rewrite modify_id, move_front_perm.
Qed.

Lemma modify_raw_keys (is_it : entry -> bool) e e' l :
  one_of is_it l -> e ∈ l -> is_it e = true -> raw_key e' = raw_key e -> map raw_key (modify is_it (fun _ => e') l) = map raw_key l.
Proof.
  intros Ho He Hp Hk. unfold modify. rewrite map_map. apply map_ext_in. intros x Hx%list_elem_of_In.
  destruct (is_it x) eqn:Hpx; [|done]. by rewrite (Ho x e).
Qed.

Lemma key_of_type name type e : key_of name type e = true -> ne_qtype e = type.
Proof. intros [_ H%Z.eqb_eq]%andb_true_iff. done. Qed.

Lemma find_modify_other name type type' e' l :
  type' <> type -> ne_qtype e' = type ->
  List.find (key_of name type') (modify (key_of name type) (fun _ => e') l) = List.find (key_of name type') l.
Proof.
  intros Hne Ht. assert (forall x : entry, ne_qtype x = type -> key_of name type' x = false) as Hno.
  { intros x Hx. apply not_true_iff_false. intros H%key_of_type. congruence. }
  induction l as [|x l IH]; [done|]. cbn. destruct (key_of name type x) eqn:Hx.
  - by rewrite (Hno e' Ht), (Hno x (key_of_type _ _ _ Hx)).
  - destruct (key_of name type' x); done.
Qed.

(** Types that a lookup considers. *)
Definition considered (typeMustMatch : bool) (qtype type : Z) : bool := (negb typeMustMatch && (type =? QType.ENT)) || (type =? qtype).

Section loop.
Context (count i : Z) (qname : DNSName) (qtype now : Z) (typeMustMatch serveStale refresh : bool).
Context (Hq : named qname).

(** An entry of the list that can be the answer. *)
Definition candidate (l : list entry) (types : list Z) (e : entry) : Prop :=
  exists type, type ∈ types /\ considered typeMustMatch qtype type = true
    /\ List.find (key_of qname type) l = Some e /\ answers now serveStale e = true.

Lemma get_loop_spec types v v' b :
  NoDup types -> entries_ok count i (g_map v) ->
  get_loop cfg qname qtype now typeMustMatch serveStale refresh types v = (v', b) ->
  map raw_key (g_map v') ≡ₚ map raw_key (g_map v)
  /\ (b = true -> exists e, candidate (g_map v) types e /\ g_negEntry v' = Some (touched now serveStale e)
                   /\ (refresh = true -> ne_servedStale (touched now serveStale e) <= 0))
  /\ (refresh = false -> (exists e, candidate (g_map v) types e) -> b = true).
Proof.
  revert v. induction types as [|t types IH]; intros v Hnd Hok; cbn [get_loop].
  { intros [= <- <-]. split_and!; [done|done|]. intros _ (e & t & Ht & _). by apply not_elem_of_nil in Ht. }
  apply NoDup_cons in Hnd as [Hnt Hnd]. fold (considered typeMustMatch qtype t).
  destruct (considered typeMustMatch qtype t) eqn:Hcons.
  2: { intros Hl. destruct (IH _ Hnd Hok Hl) as (H1 & H2 & H3). split_and!; [done| |].
    - intros Hb. destruct (H2 Hb) as (e & (t' & Ht' & Hrest) & He). exists e. split; [|done]. exists t'. split; [by right|done].
    - intros Hr (e & t' & [->|Ht']%elem_of_cons & Hc & Hrest); [congruence|]. apply H3; [done|]. exists e, t'. done. }
  destruct (get_entry cfg qname qtype now serveStale refresh t v) as [v1 o] eqn:Hg.
  pose proof (get_entry_spec _ _ _ _ _ _ _ _ _ _ _ Hok Hq Hg) as Hspec.
  destruct (List.find (key_of qname t) (g_map v)) as [e|] eqn:Hf.
  - destruct Hspec as (Hmap & Ho & Hneg). destruct (find_spec _ _ _ Hf) as [He Hp].
    assert (map raw_key (g_map v1) ≡ₚ map raw_key (g_map v)) as Hkeys.
    { rewrite Hmap, (modify_raw_keys _ e) by (done || (by eapply one_of_key) || apply touched_key). done. }
    rewrite Ho. destruct (answers now serveStale e) eqn:Hans.
    + intros [= <- <-]. split_and!; [done| |by intros ->].
      intros Hb. exists e. split_and!; [|done|].
      * exists t. split_and!; [by left|done..].
      * intros ->. by apply Z.leb_le in Hb.
    + intros Hl. assert (entries_ok count i (g_map v1)) as Hok1 by (by eapply entries_ok_keys).
      assert (forall t', t' <> t -> List.find (key_of qname t') (g_map v1) = List.find (key_of qname t') (g_map v)) as Hother.
      { intros t' Hne. rewrite (find_perm _ _ _ (one_of_key _ _ _ _ _ Hok1 Hq) Hmap). apply find_modify_other; [done|].
        pose proof (touched_key now serveStale e) as [= _ ->]. by eapply key_of_type. }
      destruct (IH _ Hnd Hok1 Hl) as (H1 & H2 & H3). split_and!; [by rewrite H1| |].
      * intros Hb. destruct (H2 Hb) as (e1 & (t' & Ht' & Hc & Hfind & Ha) & Hrest). exists e1. split; [|done].
        exists t'. rewrite <- Hother by (by intros ->). split_and!; [by right|done..].
      * intros Hr (e1 & t' & [->|Ht']%elem_of_cons & Hc & Hfind & Ha); [congruence|]. apply H3; [done|].
        exists e1, t'. rewrite Hother by (by intros ->). done.
  - destruct Hspec as [-> ->]. intros Hl. destruct (IH _ Hnd Hok Hl) as (H1 & H2 & H3). split_and!; [done| |].
    + intros Hb. destruct (H2 Hb) as (e & (t' & Ht' & Hrest) & He). exists e. split; [|done]. exists t'. split; [by right|done].
    + intros Hr (e & t' & [->|Ht']%elem_of_cons & Hc & Hrest); [destruct Hrest; congruence|]. apply H3; [done|]. exists e, t'. done.
Qed.
End loop.

Definition all_entries (maps : negcache) : list entry := concat (map d_map maps).

Lemma elem_of_all maps e : e ∈ all_entries maps <-> exists i m, maps !! i = Some m /\ e ∈ d_map m.
Proof. apply elem_of_concat_map. Qed.

(** The entries of a name are in the shard of the name. *)
Lemma entry_in_shard maps qname e :
  nc_ok maps -> named qname ->
  e ∈ all_entries maps /\ name_eqb (ne_name e) qname = true
  <-> e ∈ d_map (shard_at maps (getMap maps qname)) /\ name_eqb (ne_name e) qname = true.
Proof.
  intros [Hne Hok] Hq. rewrite elem_of_all. destruct (getMap_lookup maps qname Hne) as [s Hs]. unfold shard_at. rewrite Hs. cbn.
  split; intros [He Heq]; (split; [|done]); [|by eauto]. destruct He as (i & m & Hi & He).
  destruct (Hok i m Hi) as [_ [Hn _]]. rewrite Forall_forall in Hn. destruct (Hn e He) as [Hen Hidx].
  assert (hash (ne_name e) 0 = hash qname 0) as Hh by (apply equal_names_equal_hashes; [by apply named_wf..|done]).
  rewrite Hh in Hidx. rewrite <- (getMap_index maps qname Hne) in Hidx. apply Nat2Z.inj in Hidx. congruence.
Qed.

Lemma hashed_types_nodup `{!HashedIndex R} count i l qname :
  entries_ok count i l -> named qname -> NoDup (hashed_types l qname).
Proof.
  intros Hok Hq. rewrite hashed_types_spec.
  pose proof (entries_ok_sublist _ _ _ _ (filter_sublist (fun e => name_eqb (ne_name e) qname) l) Hok) as [Hn Hk].
  assert (Forall (fun e => nkey (ne_name e) = nkey qname) (List.filter (fun e => name_eqb (ne_name e) qname) l)) as Hsame.
  { apply Forall_forall. intros e He. rewrite Forall_forall in Hn. destruct (Hn e He) as [Hen _].
    apply list_elem_of_In, filter_In in He as [_ He]. by apply (key_name_eqb _ _ _ _ (nkey_named _ Hen) (nkey_named _ Hq)) in He. }
  clear Hn Hok. induction Hsame as [|e l' He Hsame IH]; [constructor|]. cbn in *. apply NoDup_cons in Hk as [Hnot Hk].
  constructor; [|auto]. intros (x & Hx & Hin)%list_elem_of_fmap. apply Hnot. unfold entry_key at 1. rewrite He, Hx.
  rewrite Forall_forall in Hsame. rewrite <- (Hsame x Hin). by apply (list_elem_of_fmap_2 entry_key).
Qed.

Lemma candidate_iff `{!HashedIndex R} count i l qname qtype now typeMustMatch serveStale e :
  entries_ok count i l -> named qname ->
  candidate qname qtype now typeMustMatch serveStale l (hashed_types l qname) e
  <-> e ∈ l /\ name_eqb (ne_name e) qname = true /\ considered typeMustMatch qtype (ne_qtype e) = true /\ answers now serveStale e = true.
Proof.
  intros Hok Hq. unfold candidate. setoid_rewrite hashed_types_spec. split.
  - intros (t & _ & Hc & Hf & Ha). destruct (find_spec _ _ _ Hf) as [He Hk]. pose proof (key_of_type _ _ _ Hk) as <-.
    apply andb_true_iff in Hk as [Hk _]. done.
  - intros (He & Hk & Hc & Ha). exists (ne_qtype e). split_and!; [|done| |done].
    + apply list_elem_of_fmap_2, list_elem_of_In, filter_In. split; [by apply list_elem_of_In|done].
    + apply find_unique; [by eapply one_of_key|done|]. apply andb_true_iff. split; [done|apply Z.eqb_refl].
Qed.

(** a lookup answers with an entry of the cache for the name, and the type or
    the whole name, that has not expired, or with an expired one whose life is
    extended when stale entries are to be served; when no refresh is asked for it
    finds an answer whenever there is one. *)
Theorem nc_get_spec `{!HashedIndex R} maps qname qtype now typeMustMatch serveStale refresh :
  nc_ok maps -> named qname ->
  let r := nc_get cfg maps qname qtype now typeMustMatch serveStale refresh in
  let matching e := e ∈ all_entries maps /\ name_eqb (ne_name e) qname = true /\ considered typeMustMatch qtype (ne_qtype e) = true in
  (gr_found r = true ->
   exists e answer, matching e /\ gr_negEntry r = Some answer /\ now < ne_ttd answer
     /\ (refresh = true -> ne_servedStale answer <= 0)
     /\ (answer = e \/ ne_ttd e <= now /\ (serveStale = true \/ 0 < ne_servedStale e)
           /\ ne_servedStale e < s_maxServedStaleExtensions cfg /\ answer = updateStaleEntry cfg now e))
  /\ (refresh = false -> (exists e, matching e /\ answers now serveStale e = true) -> gr_found r = true).
Proof.
  intros Hok Hq r matching. unfold r, nc_get. set (content := shard_at maps (getMap maps qname)).
  destruct (shard_at_ok maps qname Hok) as [_ Heok]. fold content in Heok.
  destruct (get_loop _ _ _ _ _ _ _ _ _) as [v b] eqn:Hl. cbn [gr_found gr_negEntry].
  apply (get_loop_spec (zlen maps) (hash qname 0 mod zlen maps)) in Hl as (_ & Hsound & Hcompl);
    [|done|by eapply hashed_types_nodup|done].
  cbn [g_map] in *. split.
  - intros Hb. destruct (Hsound Hb) as (e & Hc & Hneg & Href). apply (candidate_iff _ _ _ _ _ _ _ _ _ Heok Hq) in Hc as (He & Hk & Hcons & Ha).
    exists e, (touched now serveStale e). split_and!; [|done|by apply Z.ltb_lt|done|].
    + destruct (proj2 (entry_in_shard maps qname e Hok Hq)) as [Hall _]; [done|]. done.
    + unfold touched. destruct (_ && _ && _) eqn:Hcond; [right|by left].
      apply andb_true_iff in Hcond as [[H1 H2%Z.leb_le]%andb_true_iff H3%Z.ltb_lt]. apply orb_true_iff in H1. rewrite Z.ltb_lt in H1. done.
  - intros Hr (e & (He & Hk & Hcons) & Ha). apply Hcompl; [done|]. exists e. apply (candidate_iff _ _ _ _ _ _ _ _ _ Heok Hq).
    destruct (proj1 (entry_in_shard maps qname e Hok Hq)) as [Hin _]; done.
Qed.

(** ** Wiping a subtree *)

#[local] Abbreviation part_of := (in_subtree (@ne_name R)).
#[local] Abbreviation named_entries := (all_named (@ne_name R)).

Lemma entry_leb_le a b : named (ne_name a) -> named (ne_name b) -> if entry_leb a b then name_le (@ne_name R) a b else name_le (@ne_name R) b a.
Proof. by apply (leb_by_name _ _ (fun a b => ne_qtype a <=? ne_qtype b)). Qed.

Lemma wipe_subtree_exact name l :
  named name -> named_entries l ->
  wipe_subtree name l = Ok (List.filter (fun e => negb (part_of name e)) l, zlen (List.filter (part_of name) l)).
Proof.
  intros Hname Hn. unfold wipe_subtree. pose proof Hn as Hn'. unfold all_named in Hn'. rewrite Forall_forall in Hn'.
  rewrite (erase_range_exact _ _ entry_leb_le name Hname (part_of name)); [| |..].
  - rewrite Z.add_0_l. do 2 f_equal; [|f_equal]; apply filter_ext; intros e; by rewrite andb_true_r.
  - by apply subtree_range.
  - intros e He. by apply isPartOf_key.
  - done.
  - intros e x He Hx Hk. apply same_key_spec in Hk; [|auto..]. injection Hk as Hk _. unfold in_subtree. by rewrite Hk.
  - intros e He. apply same_key_spec; auto.
Qed.

Lemma nc_ok_named maps i m : nc_ok maps -> maps !! i = Some m -> named_entries (d_map m).
Proof. intros [_ Hok] Hm. destruct (Hok i m Hm) as [_ [Hn _]]. eapply Forall_impl; [exact Hn|]. by intros e []. Qed.

(** A shard without the subtree of the name. *)
Definition shard_wiped (name : DNSName) (m : MapCombo entry) : MapCombo entry :=
  mkMap (List.filter (fun e => negb (part_of name e)) (d_map m)) (d_entriesCount m - zlen (List.filter (part_of name) (d_map m))).

Lemma wipe_subtrees_spec name maps ret :
  named name -> Forall (fun m => named_entries (d_map m)) maps ->
  wipe_subtrees name maps ret = Ok (map (shard_wiped name) maps, ret + zlen (List.filter (part_of name) (all_entries maps))).
Proof.
  intros Hname Hn. revert ret. induction Hn as [|m maps Hm Hn IH]; intros ret; cbn [wipe_subtrees].
  { cbn. by rewrite Z.add_0_r. }
  rewrite wipe_subtree_exact by done. cbn [mbind result_bind]. rewrite IH. cbn [mbind result_bind].
  change (all_entries (m :: maps)) with (d_map m ++ all_entries maps). rewrite List.filter_app, zlen_app. cbn [map]. do 2 f_equal. lia.
Qed.

Lemma shards_ok_map maps (f : MapCombo entry -> MapCombo entry) :
  nc_ok maps -> (forall m, counted m -> counted (f m) /\ d_map (f m) `sublist_of` d_map m) -> nc_ok (map f maps).
Proof.
  intros [Hne Hok] Hf. split; [by destruct maps|]. intros i m' (m & -> & Hm)%list_lookup_fmap_Some.
  destruct (Hok i m Hm) as [Hc He]. destruct (Hf m Hc) as [Hc' Hsub]. unfold zlen. rewrite length_map. split; [done|].
  by eapply entries_ok_sublist.
Qed.

Lemma shard_wiped_ok name m : counted m -> counted (shard_wiped name m) /\ d_map (shard_wiped name m) `sublist_of` d_map m.
Proof.
  intros Hm. split; [|apply filter_sublist]. unfold counted in *. cbn [shard_wiped d_map d_entriesCount]. rewrite filter_both_zlen. lia.
Qed.

Lemma all_named_maps maps : nc_ok maps -> Forall (fun m => named_entries (d_map m)) maps.
Proof. intros Hok. apply Forall_forall. intros m [i Hi]%list_elem_of_lookup. by eapply nc_ok_named. Qed.

Lemma nc_size_total maps : nc_size maps = total_count maps.
Proof. induction maps as [|m maps IH]; [done|]. cbn [nc_size foldr total_count]. by rewrite <- IH. Qed.

Lemma total_size_entries maps : total_size maps = zlen (all_entries maps).
Proof.
  induction maps as [|m maps IH]; [done|]. change (all_entries (m :: maps)) with (d_map m ++ all_entries maps).
  rewrite zlen_app. cbn [total_size]. by rewrite IH.
Qed.

Lemma nc_ok_counted maps : nc_ok maps -> Forall counted maps.
Proof. intros [_ Hok]. apply Forall_forall. intros m [i Hi]%list_elem_of_lookup. by destruct (Hok i m Hi). Qed.

(** [size()] is the number of entries. *)
Lemma nc_size_entries maps : nc_ok maps -> nc_size maps = zlen (all_entries maps).
Proof. intros Hok. by rewrite nc_size_total, counted_total, total_size_entries by by apply nc_ok_counted. Qed.

Definition is_part (name : DNSName) (e : entry) : bool := match isPartOf (ne_name e) name with Ok b => b | Throw _ => false end.

(** wiping a subtree, which walks the ordered index from the name to the first
    entry outside, removes from all shards exactly the entries whose name is part
    of the name, reports their number and keeps the counts right. *)
Theorem wipe_subtree_spec maps name :
  nc_ok maps -> named name ->
  exists maps' n, wipe name true maps = Ok (maps', n)
    /\ all_entries maps' = List.filter (fun e => negb (is_part name e)) (all_entries maps)
    /\ n = zlen (List.filter (is_part name) (all_entries maps)) /\ nc_ok maps' /\ nc_size maps' = zlen (all_entries maps').
Proof.
  intros Hok Hname. unfold wipe. rewrite wipe_subtrees_spec by (done || by apply all_named_maps).
  do 2 eexists. split; [done|].
  assert (forall e, e ∈ all_entries maps -> is_part name e = part_of name e) as Hpart.
  { intros e (i & m & Hi & He)%elem_of_all. unfold is_part. rewrite isPartOf_key; [done| |done].
    pose proof (nc_ok_named maps i m Hok Hi) as Hn. unfold all_named in Hn. rewrite Forall_forall in Hn. by apply Hn. }
  assert (nc_ok (map (shard_wiped name) maps)) as Hok' by (apply shards_ok_map; [done|by apply shard_wiped_ok]).
  split_and!; [|rewrite Z.add_0_l; f_equal; apply filter_ext_in; intros e He; symmetry; by apply Hpart, list_elem_of_In|done|by apply nc_size_entries].
  transitivity (List.filter (fun e => negb (part_of name e)) (all_entries maps)).
  - clear. induction maps as [|m maps IH]; [done|]. change (all_entries (m :: maps)) with (d_map m ++ all_entries maps).
    rewrite List.filter_app, <- IH. done.
  - apply filter_ext_in. intros e He. f_equal. symmetry. by apply Hpart, list_elem_of_In.
Qed.

(** ** Additions *)

Lemma insert_spec count i l value l' inserted :
  entries_ok count i l -> named (ne_name value) -> hash (ne_name value) 0 mod count = i ->
  lruReplacingInsert same_key l value = (l', inserted) ->
  entries_ok count i l' /\ zlen l' = zlen l + (if inserted then 1 else 0)
  /\ forall e, e ∈ l' <-> e = value \/ (e ∈ l /\ same_key value e = false).
Proof.
  intros [Hn Hk] Hv Hi. unfold lruReplacingInsert. destruct (existsb (same_key value) l) eqn:Hex.
  - set (l2 := moveCacheItemToBack (same_key value) l). assert (l2 ≡ₚ l) as Hp by apply move_back_perm. intros [= <- <-].
    assert (Forall (fun e => named (ne_name e) /\ hash (ne_name e) 0 mod count = i) l2) as Hn2 by (by rewrite Hp).
    split_and!; [split| |].
    + apply Forall_fmap. eapply Forall_impl; [exact Hn2|]. intros e He. cbn. by destruct (same_key value e).
    + rewrite map_map. rewrite (map_ext_in _ entry_key); [by rewrite Hp|]. intros e He%list_elem_of_In.
      rewrite Forall_forall in Hn2. destruct (Hn2 e He) as [Hen _].
      destruct (same_key value e) eqn:Hs; [|done]. by apply same_key_spec in Hs.
    + unfold zlen. rewrite length_map, Hp. lia.
    + intros e. rewrite list_elem_of_fmap. apply existsb_exists in Hex as (x & Hx%list_elem_of_In & Hxs). split.
      * intros (y & -> & Hy). rewrite Hp in Hy. destruct (same_key value y) eqn:Hs; [by left|by right].
      * intros [->|[He Hs]]; [exists x|exists e]; rewrite Hp; [by rewrite Hxs|by rewrite Hs].
  - intros [= <- <-]. assert (forall e, e ∈ l -> same_key value e = false) as Hno.
    { intros e He. apply not_true_iff_false. intros Hs. apply not_true_iff_false in Hex. apply Hex, existsb_exists.
      exists e. split; [by apply list_elem_of_In|done]. }
    split_and!; [split| |].
    + apply Forall_app. split; [done|by constructor].
    + rewrite map_app. apply NoDup_app. split_and!; [done| |apply NoDup_singleton].
      intros k (e & -> & He)%list_elem_of_fmap Heq%list_elem_of_singleton. rewrite Forall_forall in Hn. destruct (Hn e He) as [Hen _].
      apply (not_true_iff_false (same_key value e)); [by apply Hno|]. by apply same_key_spec.
    + rewrite zlen_app. done.
    + intros e. rewrite elem_of_app, list_elem_of_singleton. split; [|tauto]. intros [He| ->]; [right; auto|by left].
Qed.

Lemma add_shard value maps :
  nc_ok maps -> named (ne_name value) -> (0 <? s_maxEntrySize cfg) && (s_maxEntrySize cfg <? ne_sizeEstimate cfg value) = false ->
  exists m, nc_add cfg value maps = <[getMap maps (ne_name value) := m]> maps
    /\ shard_ok (zlen maps) (hash (ne_name value) 0 mod zlen maps) m
    /\ forall e, e ∈ d_map m <-> e = value \/ (e ∈ d_map (shard_at maps (getMap maps (ne_name value))) /\ same_key value e = false).
Proof.
  intros Hok Hv Hsize. unfold nc_add. rewrite Hsize. set (content := shard_at maps (getMap maps (ne_name value))).
  destruct (shard_at_ok maps (ne_name value) Hok) as [Hc He]. fold content in Hc, He.
  destruct (lruReplacingInsert same_key (d_map content) value) as [l' inserted] eqn:Hl.
  destruct (insert_spec _ _ _ _ _ _ He Hv eq_refl Hl) as (Hok' & Hlen & Helem). eexists. split; [done|]. split; [|done].
  split; [|done]. unfold counted in *. cbn [d_map d_entriesCount]. destruct inserted; lia.
Qed.

Lemma add_ok value maps : nc_ok maps -> named (ne_name value) -> nc_ok (nc_add cfg value maps).
Proof.
  intros Hok Hv. destruct ((0 <? s_maxEntrySize cfg) && (s_maxEntrySize cfg <? ne_sizeEstimate cfg value)) eqn:Hs.
  - unfold nc_add. by rewrite Hs.
  - destruct (add_shard value maps Hok Hv Hs) as (m & -> & Hm & _). by apply nc_ok_insert.
Qed.

Lemma elem_of_insert_shard maps name m e :
  nc_ok maps -> e ∈ all_entries (<[getMap maps name := m]> maps)
  <-> e ∈ d_map m \/ exists j x, j <> getMap maps name /\ maps !! j = Some x /\ e ∈ d_map x.
Proof.
  intros [Hne _]. rewrite elem_of_all. destruct (getMap_lookup maps name Hne) as [s Hs]. split.
  - intros (j & x & Hj & He). apply list_lookup_insert_Some in Hj as [(-> & <- & _)|[Hj Hx]]; [by left|right]. eauto.
  - intros [He|(j & x & Hj & Hx & He)].
    + exists (getMap maps name), m. split; [|done]. apply list_lookup_insert_eq. by eapply lookup_lt_Some.
    + exists j, x. split; [|done]. by rewrite list_lookup_insert_ne.
Qed.

(** after an addition within the size limit the cache holds the new entry, no
    other with its name and type, and of other names and types what it held. *)
Theorem nc_add_spec value maps e :
  nc_ok maps -> named (ne_name value) -> s_maxEntrySize cfg = 0 \/ ne_sizeEstimate cfg value <= s_maxEntrySize cfg ->
  e ∈ all_entries (nc_add cfg value maps) <-> e = value \/ (e ∈ all_entries maps /\ same_key value e = false).
Proof.
  intros Hok Hv Hsize. destruct (add_shard value maps Hok Hv) as (m & -> & Hm & Helem).
  { apply not_true_iff_false. intros [H1%Z.ltb_lt H2%Z.ltb_lt]%andb_true_iff. lia. }
  rewrite elem_of_insert_shard, Helem by done. destruct Hok as [Hne Hok].
  destruct (getMap_lookup maps (ne_name value) Hne) as [s Hs]. unfold shard_at. rewrite Hs. cbn. rewrite elem_of_all. split.
  - intros [[->|[He Hk]]|(j & x & Hj & Hx & He)]; [by left|right; split; eauto|right]. split; [eauto|].
    apply not_true_iff_false. intros Hk. apply Hj. destruct (Hok j x Hx) as [_ [Hn _]]. rewrite Forall_forall in Hn.
    destruct (Hn e He) as [Hen Hidx]. apply andb_true_iff in Hk as [Hk _].
    assert (hash (ne_name e) 0 = hash (ne_name value) 0) as Hh by (apply equal_names_equal_hashes; [by apply named_wf..|done]).
    apply Nat2Z.inj. rewrite <- Hidx, Hh, getMap_index by done. done.
  - intros [->|[(j & x & Hx & He) Hk]]; [by left; left|]. destruct (decide (j = getMap maps (ne_name value))) as [->|Hj].
    + left. right. split; [congruence|done].
    + right. eauto.
Qed.

(** ** The other operations keep the invariant *)

Context `{!HashedIndex R, !Quotas}.

Lemma get_ok maps qname qtype now typeMustMatch serveStale refresh :
  nc_ok maps -> named qname -> nc_ok (gr_maps (nc_get cfg maps qname qtype now typeMustMatch serveStale refresh)).
Proof.
  intros Hok Hq. unfold nc_get. destruct (shard_at_ok maps qname Hok) as [_ Heok].
  destruct (get_loop _ _ _ _ _ _ _ _ _) as [v b] eqn:Hl. cbn [gr_maps].
  apply (get_loop_spec (zlen maps) (hash qname 0 mod zlen maps)) in Hl as (Hkeys & _);
    [|done|by eapply hashed_types_nodup|done]. by apply nc_ok_rekey.
Qed.

Lemma getLastLabel_named n : named n -> named (getLastLabel n).
Proof. intros [ls Hl]. eexists. unfold getLastLabel. apply trimToLabels_represents; [done|lia]. Qed.

Lemma root_ok maps qname now serveStale refresh :
  nc_ok maps -> named qname -> nc_ok (gr_maps (getRootNXTrust cfg maps qname now serveStale refresh)).
Proof.
  intros Hok Hq. unfold getRootNXTrust. destruct (isRoot qname); [done|].
  pose proof (get_ok maps (getLastLabel qname) QType.ENT now true serveStale refresh Hok (getLastLabel_named _ Hq)).
  by repeat case_match.
Qed.

Lemma validation_ok maps qname qtype newState capTTD : nc_ok maps -> nc_ok (updateValidationStatus qname qtype newState capTTD maps).
Proof.
  intros Hok. apply nc_ok_rekey; [done| |done]. unfold modify. rewrite map_map. erewrite map_ext; [done|].
  intros e. cbn. by destruct (key_of qname qtype e).
Qed.

Lemma wipe_entries_ok which name maps : nc_ok maps -> nc_ok (fst (wipe_entries which name maps)).
Proof. intros Hok. apply nc_ok_fewer; [done|apply filter_sublist|]. rewrite filter_both_zlen. lia. Qed.

Lemma wipe_ok name subtree maps maps' n : nc_ok maps -> named name -> wipe name subtree maps = Ok (maps', n) -> nc_ok maps'.
Proof.
  intros Hok Hname. unfold wipe. destruct subtree.
  - rewrite wipe_subtrees_spec by (done || by apply all_named_maps). intros [= <- _]. apply shards_ok_map; [done|by apply shard_wiped_ok].
  - intros E. injection E as <- _. by apply (wipe_entries_ok (fun e => name_eqb (ne_name e) name)).
Qed.

Lemma clear_ok maps : nc_ok maps -> nc_ok (clear maps).
Proof. intros Hok. apply shards_ok_map; [done|]. intros m _. split; [done|apply sublist_nil_l]. Qed.

Lemma left_ok P maps maps' : nc_ok maps -> Forall2 (left_of P) maps maps' -> nc_ok maps'.
Proof.
  intros [Hne Hok] Hl. pose proof (Forall2_length _ _ _ Hl) as Hlen. split; [by destruct maps, maps'|].
  intros i m' Hm'. destruct (Forall2_lookup_r _ _ _ _ _ Hl Hm') as (m & Hm & Hc & Hsub & _). destruct (Hok i m Hm) as [_ He].
  unfold zlen. rewrite <- Hlen. split; [done|]. by eapply entries_ok_sublist.
Qed.

Lemma prune_bounds now maxEntries maps :
  nc_ok maps -> 0 <= maxEntries -> nc_size maps < 2 ^ 26 ->
  let maps' := prune cfg now maxEntries maps in
  Forall2 (left_of (fun e => isStale cfg now e = true \/ (total_count maps' = maxEntries /\ maxEntries < total_count maps))) maps maps'
  /\ total_count maps' <= maxEntries.
Proof.
  intros Hok Hmax Hbig maps'. unfold maps', prune. rewrite nc_size_total in *.
  destruct (pruneMutexCollectionsVector _ _ _ _) as [ms n] eqn:Hp. cbn [fst].
  apply prune_bounded in Hp as (H1 & _ & H3); [done|by apply nc_ok_counted|done..].
Qed.

(** One call of an operation. *)
Inductive nc_step (maps : negcache) : negcache -> Prop :=
| step_add value : named (ne_name value) -> nc_step maps (nc_add cfg value maps)
| step_get qname qtype now typeMustMatch serveStale refresh :
    named qname -> nc_step maps (gr_maps (nc_get cfg maps qname qtype now typeMustMatch serveStale refresh))
| step_root qname now serveStale refresh :
    named qname -> nc_step maps (gr_maps (getRootNXTrust cfg maps qname now serveStale refresh))
| step_validation qname qtype newState capTTD : nc_step maps (updateValidationStatus qname qtype newState capTTD maps)
| step_wipe name subtree maps' n : named name -> wipe name subtree maps = Ok (maps', n) -> nc_step maps maps'
| step_wipeTyped qname qtype : nc_step maps (fst (wipeTyped qname qtype maps))
| step_clear : nc_step maps (clear maps)
| step_prune now maxEntries : 0 <= maxEntries -> nc_size maps < 2 ^ 26 -> nc_step maps (prune cfg now maxEntries maps).

Lemma nc_step_ok maps maps' : nc_step maps maps' -> nc_ok maps -> nc_ok maps'.
Proof.
  intros Hstep Hok. destruct Hstep.
  - by apply add_ok.
  - by apply get_ok.
  - by apply root_ok.
  - by apply validation_ok.
  - by eapply wipe_ok.
  - by apply wipe_entries_ok.
  - by apply clear_ok.
  - by eapply left_ok, prune_bounds.
Qed.

Lemma make_ok mapsCount : 0 <= mapsCount -> nc_ok (@negcache_make R mapsCount).
Proof.
  intros Hc. unfold negcache_make. set (k := Z.to_nat _). assert (0 < k)%nat as Hk by (unfold k; destruct (Z.eqb_spec mapsCount 0); lia).
  split; [by destruct k; [lia|]|]. intros i m [-> _]%lookup_replicate. split; [done|]. split; constructor.
Qed.

(** C37: after any history of additions, lookups, updates, wipes and prunings of a
    new cache, each name and type has at most one entry, [size()] counts the
    entries, and the shards are consistent. *)
Theorem negcache_invariant mapsCount maps :
  0 <= mapsCount -> rtc nc_step (negcache_make mapsCount) maps ->
  nc_ok maps /\ nc_size maps = zlen (all_entries maps)
  /\ forall e e', e ∈ all_entries maps -> e' ∈ all_entries maps -> same_key e e' = true -> e = e'.
Proof.
  intros Hc Hr. assert (nc_ok maps) as Hok.
  { pose proof (make_ok mapsCount Hc) as Hm. induction Hr as [|a b c Hab _ IH]; [done|]. apply IH. by eapply nc_step_ok. }
  split_and!; [done|by apply nc_size_entries|]. intros e e' He He' Hk.
  assert (named (ne_name e)) as Hen.
  { apply elem_of_all in He as (i & m & Hi & He). pose proof (nc_ok_named maps i m Hok Hi) as Hn. unfold all_named in Hn. rewrite Forall_forall in Hn. auto. }
  destruct (shard_at_ok maps (ne_name e) Hok) as [_ Heok].
  apply (one_of_key _ _ _ (ne_name e) (ne_qtype e) Heok Hen).
  - apply (entry_in_shard maps (ne_name e) e Hok Hen). split; [done|]. by apply (key_name_eqb _ _ _ _ (nkey_named _ Hen) (nkey_named _ Hen)).
  - apply (entry_in_shard maps (ne_name e) e' Hok Hen). split; [done|]. by apply andb_true_iff in Hk as [? _].
  - apply key_of_spec; done.
  - done.
Qed.

(** pruning leaves at most [maxEntries] entries.  Entries that are not stale go
    only when the cache was over the limit, and then the cache ends exactly at the
    limit. *)
Theorem nc_prune_spec now maxEntries maps :
  nc_ok maps -> 0 <= maxEntries -> nc_size maps < 2 ^ 26 ->
  let maps' := prune cfg now maxEntries maps in
  nc_size maps' <= maxEntries
  /\ (forall e, e ∈ all_entries maps' -> e ∈ all_entries maps)
  /\ forall e, e ∈ all_entries maps -> isStale cfg now e = false -> e ∈ all_entries maps' \/ (nc_size maps' = maxEntries /\ maxEntries < nc_size maps).
Proof.
  intros Hok Hmax Hbig maps'. destruct (prune_bounds now maxEntries maps Hok Hmax Hbig) as [Hl Hle]. fold maps' in Hl, Hle.
  rewrite !nc_size_total in *. split_and!; [done| |].
  - intros e (i & m & Hi & He)%elem_of_all. destruct (Forall2_lookup_r _ _ _ _ _ Hl Hi) as (m0 & Hm0 & _ & Hsub & _).
    apply elem_of_all. exists i, m0. split; [done|]. by eapply elem_of_sublist.
  - intros e (i & m & Hi & He)%elem_of_all Hs. destruct (Forall2_lookup_l _ _ _ _ _ Hl Hi) as (m' & Hm' & _ & _ & Hkeep).
    destruct (decide (total_count maps' = maxEntries /\ maxEntries < total_count maps)) as [Hfull|Hnot]; [by right|left].
    apply elem_of_all. exists i, m'. split; [done|]. apply Hkeep; [done|]. intros [Hst|Hfl]; [congruence|done].
Qed.

(** an expired entry is served on request exactly while its count of extensions
    is below the limit, however long ago it expired; each extension raises the
    count, up to the limit, and lasts at most 30 seconds from now. *)
Theorem serve_stale_spec now e :
  ne_ttd e <= now -> 0 < ne_orig_ttl e -> 0 <= ne_servedStale e ->
  answers now true e = (ne_servedStale e <? s_maxServedStaleExtensions cfg)
  /\ (ne_servedStale e < s_maxServedStaleExtensions cfg ->
      let e' := updateStaleEntry cfg now e in
      ne_servedStale e < ne_servedStale e' <= s_maxServedStaleExtensions cfg /\ now < ne_ttd e' <= now + 30).
Proof.
  intros Ht Ho Hs. unfold answers, touched. cbn [orb]. rewrite (proj2 (Z.leb_le _ _)) by done. cbn [andb].
  assert (forall k d, 0 <= k -> 0 < d -> 0 <= k / d) as Hdiv by (intros; by apply Z.div_pos).
  destruct (Z.ltb_spec (ne_servedStale e) (s_maxServedStaleExtensions cfg)) as [Hlt|Hge].
  - cbn [updateStaleEntry ne_ttd ne_servedStale]. unfold s_serveStaleExtensionPeriod. split; [apply Z.ltb_lt; lia|]. intros _.
    pose proof (Hdiv (Z.max 1 (now - ne_ttd e)) (Z.max 1 (Z.min (ne_orig_ttl e) 30)) ltac:(lia) ltac:(lia)). lia.
  - split; [apply Z.ltb_ge; lia|lia].
Qed.
End spec.

(** ** Examples *)

Module negcache_example.

(** The hashed index in the order of the sequence. *)
#[local] Instance in_sequence : HashedIndex Z.
Proof. refine {| hashed_types := fun l qname => map ne_qtype (List.filter (fun e => name_eqb (ne_name e) qname) l) |}. done. Defined.

Definition cfg : negcache_settings Z :=
  {| s_maxServedStaleExtensions := 1440; s_maxEntrySize := 8192; ns_sizeof_entry := 160; ns_sizeof_ras := 48; ns_record_size := fun _ => 100 |}.

Definition ras : recordsAndSignatures Z := mkRAS [7] [].
Definition deny (ls : list bytes) (qtype ttd : Z) : NegCacheEntry Z :=
  mkNegEntry ras ras (ex_name ls) (ex_name (drop 1 ls)) ttd 3600 0 Indeterminate qtype.

Definition e_www : NegCacheEntry Z := deny [bs "www"; bs "Example"; bs "com"] QType.ENT 1000.
Definition e_mx : NegCacheEntry Z := deny [bs "example"; bs "com"] QType.MX 900.
Definition e_org : NegCacheEntry Z := deny [bs "org"] QType.ENT 1100.

Definition history : list (MapCombo (NegCacheEntry Z)) := nc_add cfg e_org (nc_add cfg e_mx (nc_add cfg e_www (negcache_make 4))).

Lemma neg_named ls : represents (ex_name ls) ls -> named (ex_name ls).
Proof. by exists ls. Qed.

Lemma e_www_named : named (ne_name e_www).
Proof. apply neg_named. by_decide. Qed.
Lemma e_mx_named : named (ne_name e_mx).
Proof. apply neg_named. by_decide. Qed.
Lemma e_org_named : named (ne_name e_org).
Proof. apply neg_named. by_decide. Qed.

Lemma history_steps : rtc (nc_step cfg) (negcache_make 4) history.
Proof.
  eapply rtc_l; [apply step_add, e_www_named|]. eapply rtc_l; [apply step_add, e_mx_named|]. eapply rtc_l; [apply step_add, e_org_named|].
  apply rtc_refl.
Qed.

Lemma history_ok : nc_ok history.
Proof. unfold history. do 3 (apply add_ok; [|done || apply e_www_named || apply e_mx_named || apply e_org_named]). by apply make_ok. Qed.

Lemma negcache_invariant_witness : nc_ok history /\ nc_size history = zlen (all_entries history).
Proof. destruct (negcache_invariant cfg 4 history) as (H1 & H2 & _); [lia|exact history_steps|]. split; [exact H1|exact H2]. Defined.

Lemma nc_add_spec_witness : e_mx ∈ all_entries history <-> e_mx = e_org \/ (e_mx ∈ all_entries (nc_add cfg e_mx (nc_add cfg e_www (negcache_make 4))) /\ same_key e_org e_mx = false).
Proof.
  apply (nc_add_spec cfg e_org); [|exact e_org_named|right; vm_compute; congruence].
  apply add_ok; [apply add_ok; [by apply make_ok|exact e_www_named]|exact e_mx_named].
Defined.

(** The type A of the name, in other case, is denied by the entry of the whole name. *)
Definition lookup_www : get_result := nc_get cfg history (ex_name [bs "WWW"; bs "example"; bs "com"]) QType.A 990 false false false.

Lemma history_entries : all_entries history = [e_www; e_mx; e_org].
Proof. vm_compute. reflexivity. Qed.

Lemma nc_get_spec_witness : gr_found lookup_www = true.
Proof.
  apply (nc_get_spec cfg history (ex_name [bs "WWW"; bs "example"; bs "com"]) QType.A 990 false false false);
    [exact history_ok|apply neg_named; by_decide|reflexivity|].
  exists e_www. rewrite history_entries. split_and!; [left|vm_compute; reflexivity..].
Defined.

Lemma wipe_subtree_spec_witness :
  exists maps' n, wipe (ex_name [bs "com"]) true history = Ok (maps', n)
    /\ all_entries maps' = [e_org] /\ n = 2 /\ nc_size maps' = 1.
Proof.
  destruct (wipe_subtree_spec history (ex_name [bs "com"])) as (maps' & n & Hw & He & Hn & _ & Hs);
    [exact history_ok|apply neg_named; by_decide|].
  rewrite history_entries in He, Hn. exists maps', n. rewrite He in Hs. split_and!; [exact Hw|exact He|exact Hn|exact Hs].
Defined.

Lemma nc_prune_spec_witness :
  let maps' := prune cfg 950 1 history in
  nc_size maps' <= 1 /\ forall e, e ∈ all_entries maps' -> e ∈ all_entries history.
Proof. destruct (nc_prune_spec cfg 950 1 history) as (H1 & H2 & _); [exact history_ok|lia|vm_compute; reflexivity|]. split; [exact H1|exact H2]. Defined.

(** An entry that expired eleven days ago. *)
Lemma serve_stale_spec_witness : answers cfg 1000000 true e_www = true.
Proof. apply (serve_stale_spec cfg 1000000 e_www); vm_compute; congruence. Defined.
End negcache_example.
