(* ===== verification/PacketCache.v ===== *)
(** * Hashing and matching of queries

    [pdns/packetcache.hh]: the base of the packet caches.  A query is hashed without
    its id and without the contents of some EDNS options, and a cached query matches
    a new one on the same terms.  Whether [char] is signed is implementation-defined
    in C++ and a parameter here, because one conversion depends on it. *)

From S2P Require Import Prelude Chars Dns Names Edns.

#[local] Open Scope Z_scope.

Definition sizeof_header : Z := 12.

(** [EDNSOptionCode]. *)
Definition EDNS_ECS : Z := 8.
Definition EDNS_COOKIE : Z := 10.
Definition EDNS_TRACEPARENT : Z := 65500.

(** One question, one record in the additional section and nothing else. *)
Definition one_question_one_additional (packet : bytes) : bool :=
  (get16 packet 4 =? 1) && (get16 packet 6 =? 0) && (get16 packet 8 =? 0) && (get16 packet 10 =? 1).

Definition skipped (options : list Z) (code : Z) : bool := existsb (Z.eqb code) options.

Section platform.
Context (char_signed : bool).

(** [static_cast<uint16_t>] of a [char]. *)
Definition uint16_of_char (c : Z) : Z := if char_signed && (128 <=? c) then c + 65280 else c.

(** [std::upper_bound] less one: the largest rank that is not above the size. *)
Definition payload_rank (payloadRanks : list Z) (bufSize : Z) : option Z :=
  last ((fix until (l : list Z) := match l with [] => [] | x :: l => if bufSize <? x then [] else x :: until l end) payloadRanks).

(** The bytes of type, class and fixed part of the OPT record, with the payload
    size lowered to its rank. *)
Definition ranked_opt (payloadRanks : list Z) (optrr : bytes) : bytes :=
  match payload_rank payloadRanks (u16 (byte_at optrr 7 * 256 + byte_at optrr 8)) with
  | None => optrr
  | Some rank => zwrite optrr 7 [Z.shiftr rank 8; Z.land rank 255]
  end.

Definition hash_rest (packet : bytes) (pos currentHash : Z) : Z :=
  if pos <? zlen packet then burtle (zdrop pos packet) currentHash else currentHash.

(** The loop over the options. *)
Fixpoint hash_options (fuel : nat) (packet : bytes) (optionsToSkip : list Z) (rdLen pos rdataRead currentHash : Z) : Z :=
  match fuel with
  | O => hash_rest packet pos currentHash
  | S fuel =>
      if (pos <? zlen packet) && (rdataRead <? rdLen) then
        match getNextEDNSOption (zsub packet pos (rdLen - rdataRead)) with
        | None => hash_rest packet pos currentHash
        | Some (optionCode, optionLen) =>
            if rdLen - rdataRead - 4 <? optionLen then hash_rest packet pos currentHash
            else
              let hashed := if skipped optionsToSkip optionCode then 4 else 4 + optionLen in
              hash_options fuel packet optionsToSkip rdLen (pos + 4 + optionLen) (rdataRead + 4 + optionLen)
                (burtle (zsub packet pos hashed) currentHash)
        end
      else hash_rest packet pos currentHash
  end.

Definition hashAfterQname (packet : bytes) (currentHash pos : Z) (optionsToSkip payloadRanks : list Z) : Z :=
  let packetSize := zlen packet in
  if negb (one_question_one_additional packet) || (packetSize <? pos + 15) then hash_rest packet pos currentHash
  else
    let fixed := zsub packet pos 15 in
    let currentHash := burtle (if bool_decide (payloadRanks = []) then fixed else ranked_opt payloadRanks fixed) currentHash in
    if pos + 15 =? packetSize then currentHash
    else
      let rdLen := u16 (uint16_of_char (byte_at packet (pos + 13)) * 256 + uint16_of_char (byte_at packet (pos + 14))) in
      let pos := pos + 15 in
      if packetSize - pos <? rdLen then hash_rest packet pos currentHash
      else hash_options (length packet) packet optionsToSkip rdLen pos 0 currentHash.

(** The walk over the labels of the question. *)
Fixpoint qname_end (fuel : nat) (packet : bytes) (pos : Z) : Z :=
  match fuel with
  | O => pos
  | S fuel =>
      if negb (pos <? zlen packet) then pos
      else
        let labelLen := byte_at packet pos in
        let pos := pos + 1 in
        if labelLen =? 0 then pos else qname_end fuel packet (Z.min (pos + labelLen) (zlen packet))
  end.

(** [hashHeaderAndQName]: the hash and the position after the name. *)
Definition hashHeaderAndQName (packet : bytes) : result (Z * Z) :=
  let currentHash := burtle (zsub packet 2 (sizeof_header - 2)) 0 in
  let pos := qname_end (length packet) packet sizeof_header in
  _ ← of_option (out_of_range "basic_string::at") (zat packet sizeof_header);
  Ok (burtleCI (zsub packet sizeof_header (pos - sizeof_header)) currentHash, pos).

Definition canHashPacket (packet : bytes) (optionsToSkip : list Z) : result Z :=
  r ← hashHeaderAndQName packet;
  let '(currentHash, pos) := r in
  if zlen packet <=? pos then Ok currentHash else Ok (hashAfterQname packet currentHash pos optionsToSkip []).
End platform.

(** ** Matching *)

(** [a.compare(pos, n, b, pos, n) == 0]. *)
Definition compare_at (a b : bytes) (pos n : Z) : result bool :=
  _ ← throw_if ((zlen a <? pos) || (zlen b <? pos)) (out_of_range "basic_string::compare");
  Ok (bool_decide (zsub a pos n = zsub b pos n)).

Definition compare_rest (a b : bytes) (pos : Z) : result bool := compare_at a b pos (zlen a - pos).

Definition queryHeaderMatches (cachedQuery query : bytes) : result bool :=
  if negb (zlen cachedQuery =? zlen query) then Ok false else compare_at cachedQuery query 2 (sizeof_header - 2).

Fixpoint match_options (fuel : nat) (cachedQuery query : bytes) (optionsToIgnore : list Z) (rdLen pos rdataRead : Z) : result bool :=
  let finish := if zlen query <=? pos then Ok true else compare_rest cachedQuery query pos in
  match fuel with
  | O => finish
  | S fuel =>
      if (pos <? zlen query) && (rdataRead <? rdLen) then
        match getNextEDNSOption (zsub query pos (rdLen - rdataRead)) with
        | None => finish
        | Some (optionCode, optionLen) =>
            if rdLen - rdataRead - 4 <? optionLen then compare_rest cachedQuery query pos
            else
              same ← compare_at cachedQuery query pos 4;
              if negb same then Ok false
              else
                same ← (if (0 <? optionLen) && negb (skipped optionsToIgnore optionCode)
                        then compare_at cachedQuery query (pos + 4) optionLen else Ok true);
                if negb same then Ok false
                else match_options fuel cachedQuery query optionsToIgnore rdLen (pos + 4 + optionLen) (rdataRead + 4 + optionLen)
        end
      else finish
  end.

Definition queryMatches (cachedQuery query : bytes) (qname : DNSName) (optionsToIgnore : list Z) : result bool :=
  if negb (zlen query =? zlen cachedQuery) then Ok false
  else
    header ← queryHeaderMatches cachedQuery query;
    if negb header then Ok false
    else
      let pos := sizeof_header + wirelength qname in
      if negb (one_question_one_additional query) || (zlen query <=? pos + 15) || bool_decide (optionsToIgnore = [])
      then compare_rest cachedQuery query pos
      else
        same ← compare_at cachedQuery query pos 15;
        if negb same then Ok false
        else
          let rdLen := get16 query (pos + 13) in
          let pos := pos + 15 in
          if zlen query - pos <? rdLen then compare_rest cachedQuery query pos
          else match_options (length query) cachedQuery query optionsToIgnore rdLen pos 0.
