(* ===== verification/PacketCacheSpec.v ===== *)
(** * What matching of queries means

    A cached query matches a new one exactly when the two are the same once the id,
    the case of the name and the contents of the ignored options are masked; and
    queries that match have the same hash, which is what makes the hash usable as
    the key of the cache. *)

From S2P Require Import Prelude Chars Dns Names NamesFacts NamesSpec Edns PacketCache.

#[local] Open Scope Z_scope.

(** ** Masked queries *)

(** The options, from [data] on with [remaining] bytes of record data, with the
    contents of the ignored ones zeroed. *)
Fixpoint masked_options (fuel : nat) (ignore : list Z) (data : bytes) (remaining : Z) : bytes :=
  match fuel with
  | O => data
  | S fuel =>
      if (0 <? zlen data) && (0 <? remaining) then
        match getNextEDNSOption (ztake remaining data) with
        | None => data
        | Some (code, len) =>
            if remaining - 4 <? len then data
            else ztake 4 data ++ (if skipped ignore code then replicate (Z.to_nat len) 0 else zsub data 4 len)
                 ++ masked_options fuel ignore (zdrop (4 + len) data) (remaining - 4 - len)
        end
      else data
  end.

(** A query after its name. *)
Definition masked_after (ignore : list Z) (query : bytes) (pos : Z) : bytes :=
  if negb (one_question_one_additional query) || (zlen query <=? pos + 15) || bool_decide (ignore = []) then zdrop pos query
  else
    let rdLen := get16 query (pos + 13) in
    zsub query pos 15
    ++ (if zlen query - (pos + 15) <? rdLen then zdrop (pos + 15) query
        else masked_options (length query) ignore (zdrop (pos + 15) query) rdLen).

(** ** One option *)

Lemma next_option data : 4 <= zlen data -> getNextEDNSOption data = Some (get16 data 0, get16 data 2).
Proof. intros H. unfold getNextEDNSOption. by rewrite (proj2 (Z.ltb_ge _ 4)). Qed.

Lemma get16_ztake n s i : 0 <= i -> i + 1 < n -> get16 (ztake n s) i = get16 s i.
Proof.
  intros Hi Hn. unfold get16. by rewrite !byte_at_ztake by lia.
Qed.

(** What the loops look at: the option at the head of the data. *)
Lemma head_option data remaining :
  0 < remaining <= zlen data ->
  getNextEDNSOption (ztake remaining data) = if 4 <=? remaining then Some (get16 data 0, get16 data 2) else None.
Proof.
  intros Hr. destruct (Z.leb_spec 4 remaining).
  - rewrite next_option by (rewrite zlen_ztake by lia; lia). by rewrite !get16_ztake by lia.
  - unfold getNextEDNSOption. rewrite zlen_ztake by lia. by rewrite (proj2 (Z.ltb_lt _ _)) by lia.
Qed.

(** One round of masking. *)
Lemma masked_step fuel ignore d remaining :
  0 < remaining <= zlen d ->
  masked_options (S fuel) ignore d remaining
  = if 4 <=? remaining then
      if remaining - 4 <? get16 d 2 then d
      else ztake 4 d ++ (if skipped ignore (get16 d 0) then replicate (Z.to_nat (get16 d 2)) 0 else ztake (get16 d 2) (zdrop 4 d))
           ++ masked_options fuel ignore (zdrop (4 + get16 d 2) d) (remaining - 4 - get16 d 2)
    else d.
Proof.
  intros Hr. cbn [masked_options]. rewrite (proj2 (Z.ltb_lt 0 (zlen d))), (proj2 (Z.ltb_lt 0 remaining)) by lia. cbn [andb].
  rewrite head_option by lia. by destruct (4 <=? remaining).
Qed.

Lemma masked_done fuel ignore d remaining : zlen d <= 0 \/ remaining <= 0 -> masked_options fuel ignore d remaining = d.
Proof.
  intros H. destruct fuel; [done|]. cbn [masked_options]. destruct (Z.ltb_spec 0 (zlen d)), (Z.ltb_spec 0 remaining); done || lia.
Qed.

Lemma get16_head s t i : ztake 4 s = ztake 4 t -> 0 <= i <= 2 -> get16 s i = get16 t i.
Proof. intros H Hi. rewrite <- (get16_ztake 4 s), H, get16_ztake by lia. done. Qed.

Lemma get16_nonneg p i : bytes_ok p -> 0 <= get16 p i.
Proof. intros Hp. pose proof (get16_range p i Hp). lia. Qed.

Lemma masked_head fuel ignore data remaining :
  bytes_ok data -> 0 <= remaining <= zlen data -> 4 <= zlen data -> ztake 4 (masked_options fuel ignore data remaining) = ztake 4 data.
Proof.
  intros Hb Hr H4. destruct fuel as [|fuel]; [done|]. destruct (decide (remaining = 0)); [by rewrite masked_done by lia|].
  rewrite masked_step by lia. destruct (Z.leb_spec 4 remaining); [|done].
  destruct (Z.ltb_spec (remaining - 4) (get16 data 2)); [done|]. rewrite ztake_app; [done|]. rewrite zlen_ztake; lia.
Qed.

Lemma zlen_masked fuel ignore data remaining :
  bytes_ok data -> 0 <= remaining <= zlen data -> zlen (masked_options fuel ignore data remaining) = zlen data.
Proof.
  revert data remaining. induction fuel as [|fuel IH]; intros data remaining Hb Hr; [done|].
  destruct (decide (remaining = 0)); [by rewrite masked_done by lia|]. rewrite masked_step by lia. destruct (Z.leb_spec 4 remaining); [|done].
  destruct (Z.ltb_spec (remaining - 4) (get16 data 2)); [done|]. pose proof (get16_nonneg data 2 Hb).
  rewrite !zlen_app, IH by (try apply bytes_ok_zdrop; try rewrite zlen_zdrop by lia; done || lia).
  rewrite zlen_ztake, zlen_zdrop by lia. destruct (skipped ignore (get16 data 0)).
  - rewrite zlen_zeros by lia. lia.
  - rewrite zlen_ztake, zlen_zdrop by lia. lia.
Qed.

(** ** Comparisons at a position *)

Lemma compare_at_Ok a b pos n :
  0 <= pos <= zlen a -> zlen a = zlen b -> compare_at a b pos n = Ok (bool_decide (ztake n (zdrop pos a) = ztake n (zdrop pos b))).
Proof.
  intros Hp Hl. unfold compare_at, zsub. rewrite (proj2 (Z.ltb_ge (zlen a) pos)), (proj2 (Z.ltb_ge (zlen b) pos)) by lia. done.
Qed.

Lemma compare_rest_Ok a b pos :
  0 <= pos <= zlen a -> zlen a = zlen b -> compare_rest a b pos = Ok (bool_decide (zdrop pos a = zdrop pos b)).
Proof.
  intros Hp Hl. unfold compare_rest. rewrite compare_at_Ok by done. f_equal. apply bool_decide_ext.
  rewrite !ztake_all by (rewrite zlen_zdrop by lia; lia). done.
Qed.

Lemma app_eq_iff (a b x y : bytes) : zlen a = zlen b -> a ++ x = b ++ y <-> a = b /\ x = y.
Proof.
  intros Hl. split; [|by intros [-> ->]]. intros H. apply app_inj_1 in H; [done|]. unfold zlen in Hl. lia.
Qed.

Section match_loop.
Context (c q : bytes) (ignore : list Z).
Context (Hc : bytes_ok c) (Hq : bytes_ok q) (Hlen : zlen c = zlen q).

(** The loop says whether what is left is the same once masked. *)
Lemma match_options_spec fuel rdLen pos rdataRead :
  0 <= pos <= zlen q -> 0 <= rdLen - rdataRead <= zlen q - pos -> zlen q - pos <= Z.of_nat fuel ->
  match_options fuel c q ignore rdLen pos rdataRead
  = Ok (bool_decide (masked_options fuel ignore (zdrop pos c) (rdLen - rdataRead) = masked_options fuel ignore (zdrop pos q) (rdLen - rdataRead))).
Proof.
  revert pos rdataRead. induction fuel as [|fuel IH]; intros pos rdataRead Hp Hr Hf.
  { cbn [match_options masked_options]. rewrite (proj2 (Z.leb_le _ _)) by lia. rewrite !zdrop_all by lia. done. }
  assert (zlen (zdrop pos q) = zlen q - pos) as HQ by (rewrite zlen_zdrop by lia; lia).
  assert (zlen (zdrop pos c) = zlen q - pos) as HC by (rewrite zlen_zdrop by lia; lia).
  assert ((if zlen q <=? pos then Ok true else compare_rest c q pos) = Ok (bool_decide (zdrop pos c = zdrop pos q))) as Hfinish.
  { destruct (Z.leb_spec (zlen q) pos); [rewrite !zdrop_all by lia; done|]. apply compare_rest_Ok; lia. }
  cbn [match_options]. rewrite Hfinish. unfold zsub.
  destruct ((pos <? zlen q) && (rdataRead <? rdLen)) eqn:Hgo.
  2: { rewrite !masked_done; [done|..]; apply not_true_iff_false in Hgo; rewrite andb_true_iff, !Z.ltb_lt in Hgo; lia. }
  apply andb_true_iff in Hgo as [Hpos%Z.ltb_lt Hrd%Z.ltb_lt]. set (rem := rdLen - rdataRead) in *.
  set (C := zdrop pos c) in *. set (Q := zdrop pos q) in *.
  assert (bytes_ok C /\ bytes_ok Q) as [HbC HbQ] by (split; by apply bytes_ok_zdrop).
  rewrite head_option by lia. destruct (Z.leb_spec 4 rem) as [H4|].
  2: { rewrite !masked_step, (proj2 (Z.leb_gt 4 rem)) by lia. done. }
  destruct (decide (ztake 4 C = ztake 4 Q)) as [Heq|Hne].
  - rewrite !masked_step, (proj2 (Z.leb_le 4 rem)) by lia. rewrite (get16_head C Q 0 Heq), (get16_head C Q 2 Heq) by lia. set (len := get16 Q 2) in *. set (code := get16 Q 0) in *.
    assert (0 <= len) by (by apply get16_nonneg).
    destruct (Z.ltb_spec (rem - 4) len) as [Hbig|Hok]; [apply compare_rest_Ok; lia|].
    rewrite (compare_at_Ok c q pos 4) by lia. fold C Q. rewrite (bool_decide_eq_true_2 (ztake 4 C = _)) by done. cbn [mbind result_bind negb].
    assert (match_options fuel c q ignore rdLen (pos + 4 + len) (rdataRead + 4 + len)
            = Ok (bool_decide (masked_options fuel ignore (zdrop (4 + len) C) (rem - 4 - len) = masked_options fuel ignore (zdrop (4 + len) Q) (rem - 4 - len)))) as Hnext.
    { rewrite IH by lia. unfold C, Q. rewrite !zdrop_zdrop by lia. unfold rem.
      replace (pos + 4 + len) with (pos + (4 + len)) by lia. replace (rdLen - (rdataRead + 4 + len)) with (rdLen - rdataRead - 4 - len) by lia. done. }
    assert (forall x y : bytes, zlen x = zlen y ->
      bool_decide (ztake 4 C ++ x ++ masked_options fuel ignore (zdrop (4 + len) C) (rem - 4 - len)
                   = ztake 4 Q ++ y ++ masked_options fuel ignore (zdrop (4 + len) Q) (rem - 4 - len))
      = bool_decide (x = y) && bool_decide (masked_options fuel ignore (zdrop (4 + len) C) (rem - 4 - len) = masked_options fuel ignore (zdrop (4 + len) Q) (rem - 4 - len))) as Hsplit.
    { intros x y Hxy. rewrite <- bool_decide_and. apply bool_decide_ext. rewrite !app_eq_iff by (rewrite ?zlen_ztake; lia). naive_solver. }
    destruct (skipped ignore code) eqn:Hskip.
    + rewrite andb_false_r. cbn [mbind result_bind negb]. rewrite Hnext, Hsplit by done. rewrite (bool_decide_eq_true_2 (replicate _ _ = _)) by done. done.
    + rewrite andb_true_r. rewrite Hsplit by (rewrite !zlen_ztake, !zlen_zdrop by lia; lia).
      assert ((if 0 <? len then compare_at c q (pos + 4) len else Ok true)
              = Ok (bool_decide (ztake len (zdrop 4 C) = ztake len (zdrop 4 Q)))) as ->.
      { destruct (Z.ltb_spec 0 len); [|replace len with 0 by lia; by rewrite !ztake_0].
        rewrite compare_at_Ok by lia. unfold C, Q. by rewrite !zdrop_zdrop by lia. }
      cbn [mbind result_bind]. destruct (bool_decide (ztake len (zdrop 4 C) = ztake len (zdrop 4 Q))); [|done]. cbn [negb andb]. exact Hnext.
  - (* the masked data begin with different options *)
    assert (bool_decide (masked_options (S fuel) ignore C rem = masked_options (S fuel) ignore Q rem) = false) as ->.
    { apply bool_decide_eq_false. intros E. apply Hne.
      rewrite <- (masked_head (S fuel) ignore C rem), E, masked_head by (done || lia). done. }
    destruct (Z.ltb_spec (rem - 4) (get16 Q 2)).
    + rewrite compare_rest_Ok by lia. fold C Q. f_equal. apply bool_decide_eq_false. by intros ->.
    + rewrite (compare_at_Ok c q pos 4) by lia. fold C Q. rewrite (bool_decide_eq_false_2 (ztake 4 C = _)) by done. done.
Qed.
End match_loop.

Lemma zsub_get16 c q pos n i : zsub c pos n = zsub q pos n -> 0 <= pos -> 0 <= i -> i + 1 < n -> get16 c (pos + i) = get16 q (pos + i).
Proof. intros H Hp Hi Hn. unfold get16. rewrite <- Z.add_assoc. rewrite <- !(byte_at_zsub _ pos n), H by lia. done. Qed.

Lemma one_question_header c q : zsub c 2 10 = zsub q 2 10 -> one_question_one_additional c = one_question_one_additional q.
Proof.
  intros H. assert (forall i, 4 <= i <= 10 -> get16 c i = get16 q i) as Hi.
  { intros i Hi. replace i with (2 + (i - 2)) by lia. apply (zsub_get16 c q 2 10); [done|lia..]. }
  unfold one_question_one_additional. by rewrite !Hi by lia.
Qed.

Section queries.
Context (c q : bytes) (ignore : list Z) (Hc : bytes_ok c) (Hq : bytes_ok q).

(** What matches a query whose name ends inside of it. *)
Lemma queryMatches_masked qname :
  12 + wirelength qname <= zlen q ->
  queryMatches c q qname ignore
  = Ok (bool_decide (zlen c = zlen q /\ zsub c 2 10 = zsub q 2 10
                     /\ masked_after ignore c (12 + wirelength qname) = masked_after ignore q (12 + wirelength qname))).
Proof.
  intros Hpos. pose proof (zlen_nonneg (d_storage qname)). unfold queryMatches, sizeof_header. unfold wirelength in *.
  set (pos := 12 + zlen (d_storage qname)) in *.
  destruct (Z.eqb_spec (zlen q) (zlen c)) as [Hlen|Hne]; cbn [negb]; [|by rewrite bool_decide_eq_false_2 by (intros [? _]; lia)].
  unfold queryHeaderMatches. rewrite Hlen, Z.eqb_refl. cbn [negb]. unfold sizeof_header.
  rewrite (compare_at_Ok c q 2) by lia. cbn [mbind result_bind]. change (ztake (12 - 2) (zdrop 2 c)) with (zsub c 2 10).
  change (ztake (12 - 2) (zdrop 2 q)) with (zsub q 2 10).
  destruct (decide (zsub c 2 10 = zsub q 2 10)) as [Hh|Hh].
  2: { rewrite (bool_decide_eq_false_2 (zsub c 2 10 = zsub q 2 10)) by done. cbn [negb]. rewrite bool_decide_eq_false_2 by tauto. done. }
  rewrite (bool_decide_eq_true_2 (zsub c 2 10 = _)) by done. cbn [negb]. unfold masked_after. rewrite (one_question_header c q Hh), Hlen.
  transitivity (@Ok bool (bool_decide (masked_after ignore c pos = masked_after ignore q pos))).
  2: { unfold masked_after. rewrite (one_question_header c q Hh), Hlen. f_equal. apply bool_decide_ext. tauto. }
  unfold masked_after. rewrite (one_question_header c q Hh), Hlen.
  destruct (negb (one_question_one_additional q) || (zlen c <=? pos + 15) || bool_decide (ignore = [])) eqn:Hplain.
  { apply compare_rest_Ok; lia. }
  apply orb_false_iff in Hplain as [[_ Hlong%Z.leb_gt]%orb_false_iff _].
  rewrite (compare_at_Ok c q pos) by lia. cbn [mbind result_bind]. fold (zsub c pos 15) (zsub q pos 15).
  assert (zlen (zsub c pos 15) = zlen (zsub q pos 15)) as H15 by (unfold zsub; rewrite !zlen_ztake, !zlen_zdrop by lia; lia).
  destruct (decide (zsub c pos 15 = zsub q pos 15)) as [H15e|H15e].
  2: { rewrite (bool_decide_eq_false_2 (zsub c pos 15 = zsub q pos 15)) by done. cbn [negb]. symmetry. f_equal. apply bool_decide_eq_false. rewrite app_eq_iff by done. tauto. }
  rewrite (bool_decide_eq_true_2 (zsub c pos 15 = _)) by done. cbn [negb].
  rewrite (zsub_get16 c q pos 15 13 H15e) by lia. set (rdLen := get16 q (pos + 13)).
  assert (0 <= rdLen) by (by apply get16_nonneg).
  transitivity (@Ok bool (bool_decide
     ((if zlen c - (pos + 15) <? rdLen then zdrop (pos + 15) c else masked_options (length c) ignore (zdrop (pos + 15) c) rdLen)
      = (if zlen c - (pos + 15) <? rdLen then zdrop (pos + 15) q else masked_options (length q) ignore (zdrop (pos + 15) q) rdLen)))).
  2: { f_equal. apply bool_decide_ext. rewrite app_eq_iff by done. tauto. }
  destruct (Z.ltb_spec (zlen c - (pos + 15)) rdLen); [apply compare_rest_Ok; lia|].
  replace (length c) with (length q) by (unfold zlen in Hlen; lia).
  rewrite match_options_spec by (done || unfold zlen in *; lia). by rewrite Z.sub_0_r.
Qed.
End queries.

(** ** Hashes *)

Section hash_loop.
Context (c q : bytes) (ignore : list Z) (Hc : bytes_ok c) (Hq : bytes_ok q) (Hlen : zlen c = zlen q).

Lemma hash_rest_same pos h : zdrop pos c = zdrop pos q -> hash_rest c pos h = hash_rest q pos h.
Proof. intros H. unfold hash_rest. by rewrite Hlen, H. Qed.

(** The loop over the options sees only what masking leaves. *)
Lemma hash_options_same fuel rdLen pos rdataRead h :
  0 <= pos <= zlen q -> 0 <= rdLen - rdataRead <= zlen q - pos ->
  masked_options fuel ignore (zdrop pos c) (rdLen - rdataRead) = masked_options fuel ignore (zdrop pos q) (rdLen - rdataRead) ->
  hash_options fuel c ignore rdLen pos rdataRead h = hash_options fuel q ignore rdLen pos rdataRead h.
Proof.
  revert pos rdataRead h. induction fuel as [|fuel IH]; intros pos rdataRead h Hp Hr Hm; [by apply hash_rest_same|].
  assert (zlen (zdrop pos q) = zlen q - pos) as HQ by (rewrite zlen_zdrop by lia; lia).
  assert (zlen (zdrop pos c) = zlen q - pos) as HC by (rewrite zlen_zdrop by lia; lia).
  assert (bytes_ok (zdrop pos c) /\ bytes_ok (zdrop pos q)) as [HbC HbQ] by (split; by apply bytes_ok_zdrop).
  cbn [hash_options]. rewrite Hlen. unfold zsub.
  destruct ((pos <? zlen q) && (rdataRead <? rdLen)) eqn:Hgo.
  2: { apply hash_rest_same. rewrite !masked_done in Hm; [done|..];
       apply not_true_iff_false in Hgo; rewrite andb_true_iff, !Z.ltb_lt in Hgo; lia. }
  apply andb_true_iff in Hgo as [Hpos%Z.ltb_lt Hrd%Z.ltb_lt]. set (rem := rdLen - rdataRead) in *.
  rewrite !head_option by lia.
  destruct (Z.leb_spec 4 rem) as [H4|H4].
  2: { apply hash_rest_same. rewrite !masked_step, (proj2 (Z.leb_gt 4 rem)) in Hm by lia. done. }
  assert (ztake 4 (zdrop pos c) = ztake 4 (zdrop pos q)) as Heq.
  { rewrite <- (masked_head (S fuel) ignore (zdrop pos c) rem), Hm, masked_head by (done || lia). done. }
  rewrite !masked_step, (proj2 (Z.leb_le 4 rem)) in Hm by lia.
  rewrite (get16_head _ _ 0 Heq), (get16_head _ _ 2 Heq) in * by lia.
  set (len := get16 (zdrop pos q) 2) in *. set (code := get16 (zdrop pos q) 0) in *. assert (0 <= len) by (by apply get16_nonneg).
  destruct (Z.ltb_spec (rem - 4) len); [by apply hash_rest_same|].
  apply app_eq_iff in Hm as [_ Hm]; [|rewrite !zlen_ztake; lia].
  assert (zlen (ztake len (zdrop 4 (zdrop pos c))) = len /\ zlen (ztake len (zdrop 4 (zdrop pos q))) = len) as [HlC HlQ]
    by (rewrite !zlen_ztake, !zlen_zdrop by lia; lia).
  apply app_eq_iff in Hm as [Hcont Hm]; [|by destruct (skipped ignore code); rewrite ?HlC, ?HlQ].
  rewrite !zdrop_zdrop in Hm by lia.
  assert (ztake (if skipped ignore code then 4 else 4 + len) (zdrop pos c) = ztake (if skipped ignore code then 4 else 4 + len) (zdrop pos q)) as ->.
  { destruct (skipped ignore code); [done|]. rewrite <- (ztake_zdrop 4 (zdrop pos c)), <- (ztake_zdrop 4 (zdrop pos q)), Heq.
    assert (forall p : bytes, 4 <= zlen p -> forall x, ztake (4 + len) (ztake 4 p ++ x) = ztake 4 p ++ ztake len x) as Happ.
    { intros p Hp4 x. unfold ztake. rewrite take_app_ge by (rewrite length_take; unfold zlen in Hp4; lia). do 2 f_equal.
      rewrite length_take. unfold zlen in Hp4. lia. }
    rewrite !Happ by lia. by rewrite Hcont. }
  apply IH; [lia|lia|]. replace (pos + 4 + len) with (pos + (4 + len)) by lia.
  replace (rdLen - (rdataRead + 4 + len)) with (rem - 4 - len) by lia. done.
Qed.
End hash_loop.

(** The length of the record data as the hash reads it: the right one unless
    [char] is signed and its low byte is 128 or more. *)
Definition rdlen_read (char_signed : bool) (packet : bytes) (i : Z) : Z :=
  u16 (uint16_of_char char_signed (byte_at packet i) * 256 + uint16_of_char char_signed (byte_at packet (i + 1))).

Lemma rdlen_read_right char_signed packet i :
  bytes_ok packet -> char_signed = false \/ byte_at packet (i + 1) < 128 -> rdlen_read char_signed packet i = get16 packet i.
Proof.
  intros Hb Hs. pose proof (byte_at_range packet i Hb). pose proof (byte_at_range packet (i + 1) Hb).
  unfold rdlen_read, get16. assert (uint16_of_char char_signed (byte_at packet (i + 1)) = byte_at packet (i + 1)) as ->.
  { unfold uint16_of_char. destruct char_signed; [|done]. destruct (Z.leb_spec 128 (byte_at packet (i + 1))); [|done]. destruct Hs; [done|lia]. }
  unfold u16, uint16_of_char. destruct (char_signed && (128 <=? byte_at packet i)).
  - replace ((byte_at packet i + 65280) * 256 + byte_at packet (i + 1))
      with (byte_at packet i * 256 + byte_at packet (i + 1) + 255 * 2 ^ 16) by lia. rewrite Z_mod_plus_full. apply Z.mod_small. lia.
  - apply Z.mod_small. lia.
Qed.

Section hash_after.
Context (char_signed : bool) (c q : bytes) (ignore : list Z).
Context (Hc : bytes_ok c) (Hq : bytes_ok q) (Hlen : zlen c = zlen q).

Lemma rdlen_read_same pos : zsub c pos 15 = zsub q pos 15 -> 0 <= pos -> rdlen_read char_signed c (pos + 13) = rdlen_read char_signed q (pos + 13).
Proof.
  intros H Hp. unfold rdlen_read. rewrite <- Z.add_assoc. by rewrite <- !(byte_at_zsub _ pos 15), H by lia.
Qed.

(** What the hash needs: the fixed part, and the options with their length as the
    hash reads it. *)
Lemma hashAfterQname_parts pos h :
  0 <= pos <= zlen q -> one_question_one_additional c = one_question_one_additional q ->
  (negb (one_question_one_additional q) || (zlen q <? pos + 15) = true -> zdrop pos c = zdrop pos q) ->
  (negb (one_question_one_additional q) || (zlen q <? pos + 15) = false ->
   zsub c pos 15 = zsub q pos 15
   /\ let rdLen := rdlen_read char_signed q (pos + 13) in
      if zlen q - (pos + 15) <? rdLen then zdrop (pos + 15) c = zdrop (pos + 15) q
      else masked_options (length q) ignore (zdrop (pos + 15) c) rdLen = masked_options (length q) ignore (zdrop (pos + 15) q) rdLen) ->
  hashAfterQname char_signed c h pos ignore [] = hashAfterQname char_signed q h pos ignore [].
Proof.
  intros Hp Hone Hshort Hlong. unfold hashAfterQname. rewrite Hone, Hlen.
  destruct (negb (one_question_one_additional q) || (zlen q <? pos + 15)) eqn:Hs; [apply hash_rest_same; auto|].
  destruct (Hlong eq_refl) as [H15 Hopts]. rewrite H15. destruct (pos + 15 =? zlen q); [done|].
  pose proof (rdlen_read_same pos H15 ltac:(lia)) as Hrd. unfold rdlen_read in Hrd, Hopts.
  replace (pos + 13 + 1) with (pos + 14) in Hrd, Hopts by lia. rewrite Hrd. set (rdLen := u16 _) in *.
  apply orb_false_iff in Hs as [_ Hs%Z.ltb_ge]. assert (0 <= rdLen) by (apply Z.mod_pos_bound; lia).
  destruct (Z.ltb_spec (zlen q - (pos + 15)) rdLen); [by apply hash_rest_same|].
  replace (length c) with (length q) by (unfold zlen in Hlen; lia). apply hash_options_same; [done..|lia|lia|].
  by rewrite Z.sub_0_r.
Qed.

Lemma hashAfterQname_same pos h :
  0 <= pos <= zlen q -> one_question_one_additional c = one_question_one_additional q ->
  char_signed = false \/ byte_at q (pos + 14) < 128 \/ ignore = [] ->
  masked_after ignore c pos = masked_after ignore q pos ->
  hashAfterQname char_signed c h pos ignore [] = hashAfterQname char_signed q h pos ignore [].
Proof.
  intros Hp Hone Hchar Hm. unfold masked_after in Hm. rewrite Hone, Hlen in Hm.
  apply hashAfterQname_parts; [done|done|..].
  - intros Hs. rewrite orb_true_iff, negb_true_iff, Z.ltb_lt in Hs.
    replace (negb (one_question_one_additional q) || (zlen q <=? pos + 15)) with true in Hm; [done|]. symmetry.
    rewrite orb_true_iff, negb_true_iff, Z.leb_le. destruct Hs; [by left|right; lia].
  - intros Hs. rewrite orb_false_iff, Z.ltb_ge in Hs. destruct Hs as [Hn Hs].
    destruct (_ || bool_decide (ignore = [])) eqn:Hplain in Hm.
    + unfold zsub. rewrite Hm. split; [done|]. cbv zeta. rewrite <- (zdrop_zdrop 15 pos c), <- (zdrop_zdrop 15 pos q), Hm by lia. by case_match.
    + apply orb_false_iff in Hplain as [_ Hig%bool_decide_eq_false].
      apply app_eq_iff in Hm as [H15 Hm]; [|unfold zsub; rewrite !zlen_ztake, !zlen_zdrop by lia; lia]. split; [done|].
      rewrite rdlen_read_right; [|done|replace (pos + 13 + 1) with (pos + 14) by lia; tauto].
      rewrite (zsub_get16 c q pos 15 13 H15) in Hm by lia. replace (length c) with (length q) in Hm by (unfold zlen in Hlen; lia).
      cbv zeta. by destruct (_ <? _).
Qed.
End hash_after.

(** ** The name of the question *)

Lemma qname_end_labels ls fuel before after :
  valid_labels ls -> (length ls < fuel)%nat ->
  qname_end fuel (before ++ storage_of ls ++ after) (zlen before) = zlen before + zlen (storage_of ls).
Proof.
  intros Hv. revert fuel before. induction Hv as [|l ls [Hl Hb] Hv IH]; intros fuel before Hf;
    (destruct fuel as [|fuel]; [cbn in Hf; lia|]); cbn [qname_end].
  - rewrite storage_of_nil. cbn [app]. rewrite !zlen_app, zlen_cons. pose proof (zlen_nonneg after).
    rewrite (proj2 (Z.ltb_lt _ _)) by lia. cbn [negb]. rewrite byte_at_app. done.
  - rewrite storage_of_cons. change (before ++ (zlen l :: l ++ storage_of ls) ++ after) with (before ++ zlen l :: (l ++ storage_of ls) ++ after).
    rewrite byte_at_app. pose proof (zlen_nonneg after). pose proof (zlen_storage_pos ls).
    assert (zlen (before ++ zlen l :: (l ++ storage_of ls) ++ after) = zlen before + 1 + zlen l + zlen (storage_of ls) + zlen after) as Hz
      by (rewrite !zlen_app, zlen_cons, !zlen_app; lia).
    rewrite (proj2 (Z.ltb_lt _ _)) by lia. cbn [negb]. rewrite (proj2 (Z.eqb_neq _ 0)) by lia. rewrite Z.min_l by lia.
    assert (before ++ zlen l :: (l ++ storage_of ls) ++ after = (before ++ zlen l :: l) ++ storage_of ls ++ after) as ->
      by (rewrite <- !app_assoc; done).
    replace (zlen before + 1 + zlen l) with (zlen (before ++ zlen l :: l)) by (rewrite zlen_app, zlen_cons; lia).
    rewrite IH by (cbn in Hf; lia). rewrite zlen_app, !zlen_cons, zlen_app. lia.
Qed.

(** A query packet that asks for a name: its name follows the header, as it is. *)
Record asks (packet : bytes) (n : DNSName) : Prop := {
  ask_name : named n;
  ask_header : 12 <= zlen packet;
  ask_packet : zdrop 12 packet = d_storage n ++ zdrop (12 + wirelength n) packet;
}.

Lemma asks_split packet n : asks packet n -> packet = ztake 12 packet ++ d_storage n ++ zdrop (12 + wirelength n) packet /\ zlen (ztake 12 packet) = 12.
Proof. intros [_ Hh Hp]. split; [by rewrite <- Hp, ztake_zdrop|]. rewrite zlen_ztake; lia. Qed.

Lemma hashHeaderAndQName_asks packet n :
  asks packet n ->
  hashHeaderAndQName packet = Ok (burtleCI (d_storage n) (burtle (zsub packet 2 10) 0), 12 + wirelength n) /\ 12 + wirelength n <= zlen packet.
Proof.
  intros Ha. destruct (asks_split packet n Ha) as [Hp H12]. destruct (ask_name _ _ Ha) as [ls (Hst & Hv & Hmax)].
  assert (wirelength n = zlen (storage_of ls)) as Hw by (unfold wirelength; by rewrite Hst).
  pose proof (zlen_storage_pos ls).
  assert (12 + wirelength n <= zlen packet) as Hle.
  { rewrite Hp, !zlen_app, H12, Hw, Hst. pose proof (zlen_nonneg (zdrop (12 + zlen (storage_of ls)) packet)). lia. }
  split; [|done]. unfold hashHeaderAndQName, sizeof_header.
  assert (qname_end (length packet) packet 12 = 12 + wirelength n) as ->.
  { transitivity (qname_end (length packet) (ztake 12 packet ++ d_storage n ++ zdrop (12 + wirelength n) packet) (zlen (ztake 12 packet)));
      [by rewrite <- Hp, H12|]. rewrite Hst, qname_end_labels; [by rewrite H12, Hw|done|].
    assert (length ls < length (storage_of ls))%nat as Hll.
    { clear. induction ls as [|l ls IH]; [cbn; lia|]. rewrite storage_of_cons. cbn. rewrite length_app. lia. }
    unfold zlen in *. rewrite Hw in Hle. lia. }
  destruct (zat_range packet 12) as [x Hx]; [lia|]. rewrite Hx. cbn [of_option mbind result_bind]. do 2 f_equal.
  unfold zsub. rewrite (ask_packet _ _ Ha), ztake_app; [done|]. unfold wirelength. lia.
Qed.

(** a cached query matches a new query for the same name exactly when the two
    have the same length, the same header but for the id, and the same bytes after
    the name once the contents of the ignored options are masked. *)
Theorem queryMatches_spec c q n ignore :
  bytes_ok c -> bytes_ok q -> asks q n ->
  exists b, queryMatches c q n ignore = Ok b
    /\ (b = true <-> zlen c = zlen q /\ zsub c 2 10 = zsub q 2 10
                     /\ masked_after ignore c (12 + wirelength n) = masked_after ignore q (12 + wirelength n)).
Proof.
  intros Hc Hq Ha. destruct (hashHeaderAndQName_asks q n Ha) as [_ Hle]. rewrite queryMatches_masked by done.
  eexists. split; [done|]. apply bool_decide_eq_true.
Qed.

(** queries that match have the same hash: two queries for names that are equal
    up to case, one of which matches the other, are found under the same key.  When
    [char] is signed this needs a record length whose low byte is below 128, or that
    no option is ignored. *)
Theorem matching_queries_same_hash char_signed c q n n' ignore :
  bytes_ok c -> bytes_ok q -> asks q n -> asks c n' -> name_eqb n' n = true ->
  char_signed = false \/ byte_at q (12 + wirelength n + 14) < 128 \/ ignore = [] ->
  queryMatches c q n ignore = Ok true -> canHashPacket char_signed c ignore = canHashPacket char_signed q ignore.
Proof.
  intros Hc Hq Ha Ha' Heq Hchar Hm. destruct (hashHeaderAndQName_asks q n Ha) as [Hhq Hle].
  destruct (hashHeaderAndQName_asks c n' Ha') as [Hhc _].
  rewrite queryMatches_masked in Hm by done. injection Hm as (Hlen & Hhead & Hmask)%bool_decide_eq_true.
  assert (hash n' (burtle (zsub q 2 10) 0) = hash n (burtle (zsub q 2 10) 0)) as Hhash.
  { destruct (ask_name _ _ Ha) as [ls Hl], (ask_name _ _ Ha') as [ls' Hl']. apply equal_names_equal_hashes; [by eapply wf_of_represents..|done]. }
  assert (wirelength n' = wirelength n) as Hwl.
  { apply name_eqb_spec in Heq. unfold wirelength. rewrite <- (zlen_toLower (d_storage n')), Heq. apply zlen_toLower. }
  unfold canHashPacket. rewrite Hhq, Hhc, Hwl, Hhead, Hlen. cbn [mbind result_bind]. unfold hash in Hhash. rewrite Hhash.
  destruct (zlen q <=? 12 + wirelength n); [done|]. f_equal. pose proof (zlen_nonneg (d_storage n)).
  apply hashAfterQname_same; [done..|unfold wirelength in *; lia|by apply one_question_header|done|done].
Qed.

Module packetcache_example.
Definition question (id : Z) (name : bytes) (options : bytes) : bytes :=
  be16 id ++ [1; 0; 0; 1; 0; 0; 0; 0; 0; 1] ++ name ++ [0; 1; 0; 1] ++ [0; 0; 41; 4; 208; 0; 0; 0; 0] ++ be16 (zlen options) ++ options.
Definition cookie (x : Z) : bytes := be16 EDNS_COOKIE ++ be16 8 ++ replicate 8 x.
Definition padding (n : nat) : bytes := be16 12 ++ be16 (Z.of_nat n) ++ replicate n 0.

Definition lower : DNSName := ex_name [bs "www"; bs "example"].
Definition upper : DNSName := ex_name [bs "WWW"; bs "example"].
Definition cached : bytes := question 7 (d_storage upper) (cookie 1 ++ padding 5).
Definition query : bytes := question 9 (d_storage lower) (cookie 2 ++ padding 5).

Lemma query_asks : asks query lower.
Proof. split; [exists [bs "www"; bs "example"]; by_decide|by vm_compute|by vm_compute]. Qed.
Lemma cached_asks : asks cached upper.
Proof. split; [exists [bs "WWW"; bs "example"]; by_decide|by vm_compute|by vm_compute]. Qed.

Lemma queryMatches_spec_witness :
  exists b, queryMatches cached query lower [EDNS_COOKIE] = Ok b
    /\ (b = true <-> zlen cached = zlen query /\ zsub cached 2 10 = zsub query 2 10
                     /\ masked_after [EDNS_COOKIE] cached (12 + wirelength lower) = masked_after [EDNS_COOKIE] query (12 + wirelength lower)).
Proof. apply (queryMatches_spec cached query lower [EDNS_COOKIE]); [by_decide|by_decide|exact query_asks]. Defined.

Lemma matching_queries_same_hash_witness : canHashPacket true cached [EDNS_COOKIE] = canHashPacket true query [EDNS_COOKIE].
Proof.
  apply (matching_queries_same_hash true cached query lower upper [EDNS_COOKIE]);
    [by_decide|by_decide|exact query_asks|exact cached_asks|vm_compute; reflexivity|right; left; vm_compute; reflexivity|vm_compute; reflexivity].
Defined.

(** The same queries padded to 200 bytes of options. *)
Definition cached_padded : bytes := question 7 (d_storage upper) (cookie 1 ++ padding 184).
Definition query_padded : bytes := question 9 (d_storage lower) (cookie 2 ++ padding 184).

(** where [char] is signed, two queries that match, differing in their cookies
    only, have different hashes when the low byte of their record length is 128 or
    more: the hash reads that byte as a negative number and then hashes everything.
    Where [char] is unsigned the hashes are the same. *)
Theorem signed_char_breaks_hash :
  queryMatches cached_padded query_padded lower [EDNS_COOKIE] = Ok true
  /\ canHashPacket true cached_padded [EDNS_COOKIE] <> canHashPacket true query_padded [EDNS_COOKIE]
  /\ canHashPacket false cached_padded [EDNS_COOKIE] = canHashPacket false query_padded [EDNS_COOKIE].
Proof. split_and!; [by vm_compute| |by vm_compute]. vm_compute. congruence. Qed.
End packetcache_example.
