(* ===== verification/TaskQueue.v ===== *)
(** * The task queue of the recursor

    [pdns/recursordist/taskqueue.hh], [taskqueue.cc] and [rec-taskqueue.cc]: tasks that
    refresh entries of the caches or probe servers, kept in a queue without
    duplicates, and the limit on how often the same name is queued.  What the resolver
    does when a task runs is an argument of the run: it answers whether it threw, and
    the pushes it made meanwhile. *)

From S2P Require Import Prelude Chars Dns Names NamesOrder IpUtils.

#[local] Open Scope Z_scope.

(** ** Tasks *)

Inductive RefreshMode : Type := RM_None | RM_Refresh | RM_Forced.

(** The functions a task can point to. *)
Inductive TaskFunction : Type := resolve | resolveForceNoQM | tryDoT.

#[export] Instance RefreshMode_eq_dec : EqDecision RefreshMode.
Proof. solve_decision. Defined.
#[export] Instance TaskFunction_eq_dec : EqDecision TaskFunction.
Proof. solve_decision. Defined.

Definition RefreshMode_code (m : RefreshMode) : Z := match m with RM_None => 0 | RM_Refresh => 1 | RM_Forced => 2 end.

(** [d_func] is [None] for a null pointer. *)
Record ResolveTask : Type := mkTask {
  t_qname : DNSName;
  t_qtype : Z;
  t_deadline : Z;
  t_refreshMode : RefreshMode;
  t_func : option TaskFunction;
  t_ip : ComboAddress;
  t_nsname : DNSName;
  t_netmask : Netmask;
}.

(** The addresses of the functions, which order the pointers. *)
Class FunctionAddresses : Type := {
  address_of : option TaskFunction -> Z;
  address_of_inj : Inj (=) (=) address_of;
}.

(** One component of a comparison of tuples. *)
Definition tie {A : Type} (ltb : A -> A -> bool) (a b : A) (rest : bool) : bool :=
  if ltb a b then true else if ltb b a then false else rest.

(** [SyncRes::isUnsupported]. *)
Definition isUnsupported (qcode : Z) : bool :=
  if (QType.rfc6895MetaLowerBound <=? qcode) && (qcode <=? QType.rfc6895MetaUpperBound) then true
  else existsb (Z.eqb qcode) [QType.ENT; QType.ADDR; QType.rfc6895Reserved; QType.RRSIG; QType.NSEC3; QType.OPT].

Definition taskQTypeIsSupported (qtype : Z) : bool := negb (isUnsupported qtype).

Section tasks.
Context `{!FunctionAddresses}.

(** [ResolveTask::operator<], and the composite key of the queue. *)
Definition task_ltb (a b : ResolveTask) : bool :=
  tie name_ltb (t_qname a) (t_qname b)
    (tie Z.ltb (t_qtype a) (t_qtype b)
      (tie Z.ltb (RefreshMode_code (t_refreshMode a)) (RefreshMode_code (t_refreshMode b))
        (tie Z.ltb (address_of (t_func a)) (address_of (t_func b))
          (tie ca_ltb (t_ip a) (t_ip b) (nm_ltb (t_netmask a) (t_netmask b)))))).

(** Tasks that an ordered container takes for the same. *)
Definition same_task : ResolveTask -> ResolveTask -> bool := incomparable task_ltb.

(** ** The queue *)

(** The container in the order of its sequence index. *)
Record TaskQueue : Type := mkQueue {
  d_queue : list ResolveTask;
  d_pushes : Z;
  d_expired : Z;
}.

Definition push (task : ResolveTask) (q : TaskQueue) : TaskQueue * bool :=
  if existsb (same_task task) (d_queue q) then (q, false)
  else (mkQueue (d_queue q ++ [task]) (d_pushes q + 1) (d_expired q), true).

(** [pop] of a queue that is not empty. *)
Definition pop (q : TaskQueue) : option (ResolveTask * TaskQueue) :=
  match d_queue q with
  | [] => None
  | task :: rest => Some (task, mkQueue rest (d_pushes q) (d_expired q))
  end.

Definition incExpired (q : TaskQueue) : TaskQueue := mkQueue (d_queue q) (d_pushes q) (d_expired q + 1).
Definition queue_clear (q : TaskQueue) : TaskQueue := mkQueue [] (d_pushes q) (d_expired q).

(** ** The rate limit *)

Record TimedEntry : Type := mkTimed { te_task : ResolveTask; te_ttd : Z }.

(** The container in the order of its index by time. *)
Record TimedSet : Type := mkTimedSet {
  d_set : list TimedEntry;
  d_expiry_seconds : Z;
  d_count : Z;
}.

Definition timedset_make (time : Z) : TimedSet := mkTimedSet [] time 0.

(** [purge]: the set and the number of entries erased. *)
Fixpoint purge_loop (now : Z) (l : list TimedEntry) (erased : Z) : list TimedEntry * Z :=
  match l with
  | [] => ([], erased)
  | e :: l' => if te_ttd e <? now then purge_loop now l' (erased + 1) else (l, erased)
  end.

Definition purge (now : Z) (s : TimedSet) : TimedSet * Z :=
  let '(l, erased) := purge_loop now (d_set s) 0 in (mkTimedSet l (d_expiry_seconds s) (d_count s), erased).

(** A new entry goes behind those with the same time. *)
Fixpoint insert_by_time (e : TimedEntry) (l : list TimedEntry) : list TimedEntry :=
  match l with
  | [] => [e]
  | x :: l' => if te_ttd e <? te_ttd x then e :: l else x :: insert_by_time e l'
  end.

(** [d_set.emplace(task, ttd)]. *)
Definition emplace (task : ResolveTask) (ttd : Z) (s : TimedSet) : TimedSet * bool :=
  if existsb (fun e => same_task task (te_task e)) (d_set s) then (s, false)
  else (mkTimedSet (insert_by_time (mkTimed task ttd) (d_set s)) (d_expiry_seconds s) (d_count s), true).

Definition timedset_insert (now : Z) (task : ResolveTask) (s : TimedSet) : TimedSet * bool :=
  let count := u32 (d_count s + 1) in
  let s := mkTimedSet (d_set s) (d_expiry_seconds s) count in
  let s := if count mod 1024 =? 0 then fst (purge now s) else s in
  let ttd := now + d_expiry_seconds s in
  let '(s, inserted) := emplace task ttd s in
  if inserted then (s, true)
  else
    let '(s, erased) := purge now s in
    if 0 <? erased then emplace task ttd s else (s, false).

Definition timedset_clear (s : TimedSet) : TimedSet := mkTimedSet [] (d_expiry_seconds s) (d_count s).

(** ** The queue of the recursor *)

Record taskstats : Type := mkStats { st_pushed : Z; st_run : Z; st_exceptions : Z }.

Definition stats_pushed (s : taskstats) : taskstats := mkStats (st_pushed s + 1) (st_run s) (st_exceptions s).
Definition stats_done (exceptionOccurred : bool) (s : taskstats) : taskstats :=
  if exceptionOccurred then mkStats (st_pushed s) (st_run s) (st_exceptions s + 1)
  else mkStats (st_pushed s) (st_run s + 1) (st_exceptions s).

(** [s_taskQueue] with its rate limit, and the two sets of counters. *)
Record TaskState : Type := mkState {
  queue : TaskQueue;
  rateLimitSet : TimedSet;
  s_almost_expired_tasks : taskstats;
  s_resolve_tasks : taskstats;
}.

Definition state_initial : TaskState := mkState (mkQueue [] 0 0) (timedset_make 60) (mkStats 0 0 0) (mkStats 0 0 0).

(** Pushing to the queue; a push that succeeds is counted among the tasks that
    refresh ([true]) or among the others. *)
Definition push_counted (almost_expired : bool) (task : ResolveTask) (s : TaskState) : TaskState * bool :=
  let '(q, pushed) := push task (queue s) in
  (mkState q (rateLimitSet s)
     (if pushed && almost_expired then stats_pushed (s_almost_expired_tasks s) else s_almost_expired_tasks s)
     (if pushed && negb almost_expired then stats_pushed (s_resolve_tasks s) else s_resolve_tasks s), pushed).

Definition almostExpiredTask (qname : DNSName) (qtype deadline : Z) (netmask : Netmask) (force : bool) : ResolveTask :=
  mkTask qname qtype deadline (if force then RM_Forced else RM_Refresh) (Some resolve) ca_default (mkDNSName []) netmask.

Definition pushAlmostExpiredTask (qname : DNSName) (qtype deadline : Z) (netmask : Netmask) (force : bool) (s : TaskState) : TaskState :=
  if isUnsupported qtype then s else fst (push_counted true (almostExpiredTask qname qtype deadline netmask force) s).

Definition resolveTask (qname : DNSName) (qtype deadline : Z) (forceQMOff : bool) : ResolveTask :=
  mkTask qname qtype deadline RM_None (Some (if forceQMOff then resolveForceNoQM else resolve)) ca_default (mkDNSName []) nm_default.

Definition pushResolveTask (qname : DNSName) (qtype now deadline : Z) (forceQMOff : bool) (s : TaskState) : TaskState :=
  if isUnsupported qtype then s
  else
    let task := resolveTask qname qtype deadline forceQMOff in
    let '(limit, inserted) := timedset_insert now task (rateLimitSet s) in
    let s := mkState (queue s) limit (s_almost_expired_tasks s) (s_resolve_tasks s) in
    if inserted then fst (push_counted false task s) else s.

Definition tryDoTTask (qname : DNSName) (qtype : Z) (ipAddress : ComboAddress) (deadline : Z) (nsname : DNSName) : ResolveTask :=
  mkTask qname qtype deadline RM_None (Some tryDoT) ipAddress nsname nm_default.

Definition pushTryDoTTask (qname : DNSName) (qtype : Z) (ipAddress : ComboAddress) (deadline : Z) (nsname : DNSName) (s : TaskState)
  : TaskState * bool :=
  if isUnsupported qtype then (s, false) else push_counted true (tryDoTTask qname qtype ipAddress deadline nsname) s.

(** ** Running tasks *)

(** A push made by other parts of the recursor. *)
Inductive push_op : Type :=
  | PushAlmostExpired (qname : DNSName) (qtype deadline : Z) (netmask : Netmask) (force : bool)
  | PushResolve (qname : DNSName) (qtype now deadline : Z) (forceQMOff : bool)
  | PushTryDoT (qname : DNSName) (qtype : Z) (ipAddress : ComboAddress) (deadline : Z) (nsname : DNSName).

Definition do_push (op : push_op) (s : TaskState) : TaskState :=
  match op with
  | PushAlmostExpired qname qtype deadline netmask force => pushAlmostExpiredTask qname qtype deadline netmask force s
  | PushResolve qname qtype now deadline forceQMOff => pushResolveTask qname qtype now deadline forceQMOff s
  | PushTryDoT qname qtype ip deadline nsname => fst (pushTryDoTTask qname qtype ip deadline nsname s)
  end.

(** What a task asks of the resolver, with the settings made on it. *)
Inductive resolver_call : Type :=
  | BeginResolve (now : Z) (refreshAlmostExpired forcedRefresh : bool) (querySource : Netmask) (qnameMinimizationOff : bool)
      (qname : DNSName) (qtype : Z)
  | TryDoT (now : Z) (qname : DNSName) (qtype : Z) (nsname : DNSName) (ip : ComboAddress).

(** The resolver: whether it threw, and the pushes made while it worked. *)
Definition resolver : Type := resolver_call -> list push_op * bool.

Definition do_pushes (ops : list push_op) (s : TaskState) : TaskState := fold_left (fun s op => do_push op s) ops s.

Definition count_almost (exceptionOccurred : bool) (s : TaskState) : TaskState :=
  mkState (queue s) (rateLimitSet s) (stats_done exceptionOccurred (s_almost_expired_tasks s)) (s_resolve_tasks s).
Definition count_resolve (exceptionOccurred : bool) (s : TaskState) : TaskState :=
  mkState (queue s) (rateLimitSet s) (s_almost_expired_tasks s) (stats_done exceptionOccurred (s_resolve_tasks s)).

Definition resolveInternal (world : resolver) (now : Z) (task : ResolveTask) (forceNoQM : bool) (s : TaskState) : TaskState :=
  let mode := t_refreshMode task in
  let '(pushes, exceptionOccurred) :=
    world (BeginResolve now (negb (RefreshMode_code mode =? 0)) (bool_decide (mode = RM_Forced)) (t_netmask task) forceNoQM
             (t_qname task) (t_qtype task)) in
  let s := do_pushes pushes s in
  if negb (RefreshMode_code mode =? 0) then count_almost exceptionOccurred s else count_resolve exceptionOccurred s.

Definition tryDoT_function (world : resolver) (now : Z) (task : ResolveTask) (s : TaskState) : TaskState :=
  let '(pushes, exceptionOccurred) := world (TryDoT now (t_qname task) (t_qtype task) (t_nsname task) (t_ip task)) in
  count_resolve exceptionOccurred (do_pushes pushes s).

Definition call_function (f : TaskFunction) : resolver -> Z -> ResolveTask -> TaskState -> TaskState :=
  match f with
  | resolve => fun world now task => resolveInternal world now task false
  | resolveForceNoQM => fun world now task => resolveInternal world now task true
  | tryDoT => tryDoT_function
  end.

(** [ResolveTask::run], at time [now]: whether the task had expired. *)
Definition run (world : resolver) (now : Z) (task : ResolveTask) (s : TaskState) : TaskState * bool :=
  match t_func task with
  | None => (s, false)
  | Some f => if now <=? t_deadline task then (call_function f world now task s, false) else (s, true)
  end.

Definition set_queue (q : TaskQueue) (s : TaskState) : TaskState :=
  mkState q (rateLimitSet s) (s_almost_expired_tasks s) (s_resolve_tasks s).

Definition runTaskOnce (world : resolver) (now : Z) (s : TaskState) : TaskState * bool :=
  match pop (queue s) with
  | None => (s, false)
  | Some (task, q) =>
      let '(s, expired) := run world now task (set_queue q s) in
      (if expired then set_queue (incExpired (queue s)) s else s, true)
  end.

(** [runTasks(max)]; one resolver and one reading of the clock for each turn. *)
Fixpoint runTasks (turns : list (resolver * Z)) (s : TaskState) : TaskState :=
  match turns with
  | [] => s
  | (world, now) :: turns => let '(s, more) := runTaskOnce world now s in if more then runTasks turns s else s
  end.

Definition taskQueueClear (s : TaskState) : TaskState :=
  mkState (queue_clear (queue s)) (timedset_clear (rateLimitSet s)) (s_almost_expired_tasks s) (s_resolve_tasks s).

(** ** Counters *)

Definition getTaskPushes (s : TaskState) : Z := d_pushes (queue s).
Definition getTaskExpired (s : TaskState) : Z := d_expired (queue s).
Definition getTaskSize (s : TaskState) : Z := zlen (d_queue (queue s)).
Definition getAlmostExpiredTasksPushed (s : TaskState) : Z := st_pushed (s_almost_expired_tasks s).
Definition getAlmostExpiredTasksRun (s : TaskState) : Z := st_run (s_almost_expired_tasks s).
Definition getAlmostExpiredTaskExceptions (s : TaskState) : Z := st_exceptions (s_almost_expired_tasks s).
Definition getResolveTasksPushed (s : TaskState) : Z := st_pushed (s_almost_expired_tasks s).
Definition getResolveTasksRun (s : TaskState) : Z := st_run (s_almost_expired_tasks s).
Definition getResolveTaskExceptions (s : TaskState) : Z := st_exceptions (s_almost_expired_tasks s).
End tasks.
