(* ===== verification/TaskQueueSpec.v ===== *)
(** * Specification of the task queue

    What the container takes for the same task, the accounting of tasks over any
    sequence of operations, the order in which tasks are run, and the rate limit
    against one that remembers everything. *)

From Stdlib Require Import Sorted.
From S2P Require Import Prelude Chars Dns Names NamesFacts NamesOrder NamesSpec IpUtils TaskQueue.

#[local] Open Scope Z_scope.

(** ** The key of a task *)

Definition task_key (t : ResolveTask) : bytes * Z * RefreshMode * option TaskFunction * ComboAddress * option (ComboAddress * Z) :=
  (toLower (d_storage (t_qname t)), t_qtype t, t_refreshMode t, t_func t, t_ip t, nm_key (t_netmask t)).

Definition wf_task (t : ResolveTask) : Prop := ca_ok (t_ip t) /\ nm_valid (t_netmask t).

#[export] Instance wf_task_dec t : Decision (wf_task t).
Proof. unfold wf_task. apply _. Defined.

Lemma tie_incomparable {A} (ltb : A -> A -> bool) a b r r' :
  negb (tie ltb a b r) && negb (tie ltb b a r') = incomparable ltb a b && (negb r && negb r').
Proof. unfold tie, incomparable. by destruct (ltb a b), (ltb b a). Qed.

Lemma name_incomparable a b : incomparable name_ltb a b = true <-> toLower (d_storage a) = toLower (d_storage b).
Proof.
  unfold incomparable. rewrite andb_true_iff, !negb_true_iff.
  rewrite (ordered_incomparable (fun n => reverse (toLower (d_storage n))) (lex_compare Z.compare) name_ltb name_ltb_spec).
  split; [apply (inj reverse)|by intros ->].
Qed.

Section tasks.
Context `{!FunctionAddresses}.

Lemma same_task_key a b : wf_task a -> wf_task b -> same_task a b = true <-> task_key a = task_key b.
Proof.
  intros [Hai Han] [Hbi Hbn]. unfold same_task, incomparable, task_ltb. rewrite !tie_incomparable, !andb_true_iff.
  fold (incomparable nm_ltb (t_netmask a) (t_netmask b)). rewrite <- andb_true_iff. fold (incomparable nm_ltb (t_netmask a) (t_netmask b)).
  rewrite name_incomparable, !Z_incomparable, ca_incomparable, nm_incomparable by done. unfold task_key. split.
  - intros (-> & -> & Hm & Hf & -> & ->). pose proof address_of_inj as Hinj. apply Hinj in Hf as ->.
    assert (t_refreshMode a = t_refreshMode b) as -> by (by destruct (t_refreshMode a), (t_refreshMode b)). done.
  - by intros [= -> -> -> -> -> ->].
Qed.

Lemma same_task_decide a b : wf_task a -> wf_task b -> same_task a b = bool_decide (task_key a = task_key b).
Proof. intros Ha Hb. apply eq_true_iff_eq. rewrite bool_decide_eq_true. by apply same_task_key. Qed.

(** ** Sequences of operations *)

Inductive task_op : Type :=
  | Push (op : push_op)
  | RunOnce (world : resolver) (now : Z)
  | Clear.

Definition do_op (op : task_op) (s : TaskState) : TaskState :=
  match op with
  | Push op => do_push op s
  | RunOnce world now => fst (runTaskOnce world now s)
  | Clear => taskQueueClear s
  end.

Definition do_ops (ops : list task_op) (s : TaskState) : TaskState := fold_left (fun s op => do_op op s) ops s.

(** Tasks that ran, with or without an exception. *)
Definition tasks_done (s : TaskState) : Z :=
  st_run (s_almost_expired_tasks s) + st_exceptions (s_almost_expired_tasks s)
  + (st_run (s_resolve_tasks s) + st_exceptions (s_resolve_tasks s)).

(** Tasks that were pushed and are neither in the queue, nor done, nor expired. *)
Definition tasks_lost (s : TaskState) : Z := getTaskPushes s - (getTaskSize s + tasks_done s + getTaskExpired s).

Record accounted (s : TaskState) : Prop := {
  acc_pushed : st_pushed (s_almost_expired_tasks s) + st_pushed (s_resolve_tasks s) = getTaskPushes s;
  acc_functions : Forall (fun t => is_Some (t_func t)) (d_queue (queue s));
}.

(** A push: it appends at most the given task, which is then counted. *)
Inductive pushes_to (s s' : TaskState) : Prop :=
  | pushes_nothing :
      queue s' = queue s -> s_almost_expired_tasks s' = s_almost_expired_tasks s -> s_resolve_tasks s' = s_resolve_tasks s ->
      pushes_to s s'
  | pushes_one (task : ResolveTask) (b : bool) :
      is_Some (t_func task) -> Forall (fun t => same_task task t = false) (d_queue (queue s)) ->
      queue s' = mkQueue (d_queue (queue s) ++ [task]) (d_pushes (queue s) + 1) (d_expired (queue s)) ->
      s_almost_expired_tasks s' = (if b then stats_pushed else id) (s_almost_expired_tasks s) ->
      s_resolve_tasks s' = (if b then id else stats_pushed) (s_resolve_tasks s) ->
      pushes_to s s'.

Lemma push_counted_pushes b task s : is_Some (t_func task) -> pushes_to s (fst (push_counted b task s)).
Proof.
  intros Hf. unfold push_counted, push. destruct (existsb (same_task task) (d_queue (queue s))) eqn:He; cbn [fst andb].
  - by constructor 1.
  - apply (pushes_one _ _ task b); [done| |done|by destruct b|by destruct b]. apply Forall_forall. intros t Ht.
    apply not_true_iff_false. intros Hs. apply not_true_iff_false in He. apply He, existsb_exists. exists t.
    split; [by apply list_elem_of_In|done].
Qed.

Lemma do_push_pushes op s : pushes_to s (do_push op s).
Proof.
  destruct op as [qn qt dl nm force|qn qt now dl noqm|qn qt ip dl ns];
    cbn [do_push]; unfold pushAlmostExpiredTask, pushResolveTask, pushTryDoTTask; destruct (isUnsupported qt); cbn [fst]; try by constructor 1.
  - apply push_counted_pushes. eauto.
  - destruct (timedset_insert now _ _) as [limit inserted]. destruct inserted; [|by constructor 1].
    destruct (push_counted_pushes false (resolveTask qn qt dl noqm)
                (mkState (queue s) limit (s_almost_expired_tasks s) (s_resolve_tasks s))) as [H1 H2 H3|task b H1 H2 H3 H4 H5]; [eauto| |].
    + by constructor 1.
    + by apply (pushes_one _ _ task b).
  - apply push_counted_pushes. eauto.
Qed.

Lemma pushes_account s s' : pushes_to s s' -> accounted s -> accounted s' /\ tasks_lost s' = tasks_lost s /\ d_queue (queue s) `prefix_of` d_queue (queue s').
Proof.
  intros Hp [Hc Hf]. unfold tasks_lost, tasks_done, getTaskPushes, getTaskSize, getTaskExpired in *.
  destruct Hp as [Hq Ha Hr|task b Hs Hall Hq Ha Hr]; (split; [split|]); unfold getTaskPushes; rewrite ?Hq, ?Ha, ?Hr; try done.
  - cbn [d_pushes]. destruct b; cbn [stats_pushed id st_pushed]; lia.
  - apply Forall_app. by repeat constructor.
  - cbn [d_queue d_pushes d_expired]. split; [|by apply prefix_app_r]. rewrite zlen_app. change (zlen [task]) with 1.
    destruct b; cbn [stats_pushed id st_run st_exceptions]; lia.
Qed.

Lemma do_pushes_account ops s :
  accounted s ->
  accounted (do_pushes ops s) /\ tasks_lost (do_pushes ops s) = tasks_lost s /\ d_queue (queue s) `prefix_of` d_queue (queue (do_pushes ops s)).
Proof.
  unfold do_pushes. revert s. induction ops as [|op ops IH]; intros s Hs; cbn [fold_left]; [done|].
  destruct (pushes_account _ _ (do_push_pushes op s) Hs) as (Hs' & Hl & Hp). destruct (IH _ Hs') as (H1 & H2 & H3).
  split_and!; [done|lia|by etrans].
Qed.

Lemma count_account b (s : TaskState) (count : bool -> TaskState -> TaskState) :
  count = count_almost \/ count = count_resolve -> accounted s ->
  accounted (count b s) /\ tasks_lost (count b s) = tasks_lost s - 1 /\ d_queue (queue (count b s)) = d_queue (queue s).
Proof.
  intros [-> | ->] [Hc Hf]; (split; [split; [|done]|]); unfold tasks_lost, tasks_done, getTaskPushes, getTaskSize, getTaskExpired in *;
    destruct b; cbn; try done; (split; [lia|done]).
Qed.

(** A turn on a queue that is not empty takes its first task, and accounts for it. *)
Lemma runTaskOnce_account world now s task rest :
  accounted s -> d_queue (queue s) = task :: rest ->
  let s' := fst (runTaskOnce world now s) in
  accounted s' /\ tasks_lost s' = tasks_lost s /\ rest `prefix_of` d_queue (queue s') /\ snd (runTaskOnce world now s) = true.
Proof.
  intros Hs Hq. unfold runTaskOnce, pop. rewrite Hq.
  set (s1 := set_queue _ s). assert (accounted s1 /\ tasks_lost s1 = tasks_lost s + 1 /\ d_queue (queue s1) = rest /\ is_Some (t_func task)) as (H1 & H2 & H3 & [f Hf]).
  { destruct Hs as [Hc Hfs]. rewrite Hq in Hfs. apply Forall_cons in Hfs as [Hf Hfs]. split_and!; [by split| |done|done].
    unfold tasks_lost, tasks_done, getTaskPushes, getTaskSize, getTaskExpired. subst s1. cbn. rewrite Hq, zlen_cons. lia. }
  clearbody s1. unfold run. rewrite Hf. destruct (now <=? t_deadline task).
  - cbn [fst snd]. assert (exists world' count b, (count = count_almost \/ count = count_resolve)
      /\ call_function f world now task s1 = count b (do_pushes world' s1)) as (ops & count & b & Hcount & ->).
    { destruct f; cbn [call_function]; unfold resolveInternal, tryDoT_function; destruct (world _) as [ops b];
        [destruct (negb _)|destruct (negb _)|]; eauto 10. }
    destruct (do_pushes_account ops s1 H1) as (H4 & H5 & H6). destruct (count_account b _ count Hcount H4) as (H7 & H8 & H9).
    rewrite H9. split_and!; [done|lia|by rewrite <- H3|done].
  - cbn [fst snd]. split_and!; [|unfold tasks_lost, tasks_done, getTaskPushes, getTaskSize, getTaskExpired in *; cbn in *; lia|cbn; by rewrite H3|done].
    destruct H1 as [H4 H5]. by split.
Qed.

Lemma state_initial_accounted : accounted state_initial.
Proof. split; [done|constructor]. Qed.

Lemma do_op_account op s :
  accounted s ->
  accounted (do_op op s) /\ tasks_lost s <= tasks_lost (do_op op s) /\ (op <> Clear -> tasks_lost (do_op op s) = tasks_lost s).
Proof.
  intros Hs. destruct op as [op|world now|]; cbn [do_op].
  - destruct (pushes_account _ _ (do_push_pushes op s) Hs) as (H1 & H2 & _). split_and!; [done|lia|done].
  - destruct (d_queue (queue s)) as [|task rest] eqn:Hq.
    + unfold runTaskOnce, pop. rewrite Hq. split_and!; [done|cbn; lia|done].
    + destruct (runTaskOnce_account world now s task rest Hs Hq) as (H1 & H2 & _). split_and!; [done|lia|done].
  - destruct Hs as [Hc Hf]. split_and!; [split; [done|constructor]| |done].
    unfold tasks_lost, tasks_done, getTaskPushes, getTaskSize, getTaskExpired. cbn [taskQueueClear queue queue_clear d_queue d_pushes d_expired s_almost_expired_tasks s_resolve_tasks]. rewrite zlen_nil. pose proof (zlen_nonneg (d_queue (queue s))). lia.
Qed.

Lemma do_ops_account ops s :
  accounted s ->
  accounted (do_ops ops s) /\ tasks_lost s <= tasks_lost (do_ops ops s) /\ (Clear ∉ ops -> tasks_lost (do_ops ops s) = tasks_lost s).
Proof.
  unfold do_ops. revert s. induction ops as [|op ops IH]; intros s Hs; cbn [fold_left]; [done|].
  destruct (do_op_account op s Hs) as (H1 & H2 & H3). destruct (IH _ H1) as (H4 & H5 & H6). split_and!; [done|lia|].
  intros Hn. apply not_elem_of_cons in Hn as [Hop Hn]. rewrite H6 by done. apply H3. congruence.
Qed.

(** ** A ledger of the tasks *)

(** The task a push makes, and whether it is to be accepted: its type is supported,
    the rate limit lets it pass, and no such task is in the queue. *)
Definition op_task (op : push_op) : ResolveTask :=
  match op with
  | PushAlmostExpired qname qtype deadline netmask force => almostExpiredTask qname qtype deadline netmask force
  | PushResolve qname qtype now deadline forceQMOff => resolveTask qname qtype deadline forceQMOff
  | PushTryDoT qname qtype ip deadline nsname => tryDoTTask qname qtype ip deadline nsname
  end.

Definition op_accepted (op : push_op) (s : TaskState) : bool :=
  taskQTypeIsSupported (t_qtype (op_task op))
  && (match op with PushResolve _ _ now _ _ => snd (timedset_insert now (op_task op) (rateLimitSet s)) | _ => true end)
  && negb (existsb (same_task (op_task op)) (d_queue (queue s))).

Fixpoint accepted_of (ops : list push_op) (s : TaskState) : list ResolveTask :=
  match ops with
  | [] => []
  | op :: ops => (if op_accepted op s then [op_task op] else []) ++ accepted_of ops (do_push op s)
  end.

(** What a task is to ask of the resolver. *)
Definition task_call (now : Z) (t : ResolveTask) : option resolver_call :=
  let refresh := negb (bool_decide (t_refreshMode t = RM_None)) in
  let forced := bool_decide (t_refreshMode t = RM_Forced) in
  match t_func t with
  | None => None
  | Some tryDoT => Some (TryDoT now (t_qname t) (t_qtype t) (t_nsname t) (t_ip t))
  | Some f => Some (BeginResolve now refresh forced (t_netmask t) (bool_decide (f = resolveForceNoQM)) (t_qname t) (t_qtype t))
  end.

(** What became of a task that left the queue. *)
Inductive Fate : Type := Ran (exceptionOccurred : bool) | Expired | Cleared | NullTask.

#[export] Instance Fate_eq_dec : EqDecision Fate.
Proof. solve_decision. Defined.

Record Ledger : Type := mkLedger { accepted : list ResolveTask; gone : list (ResolveTask * Fate) }.

Definition note (op : task_op) (s : TaskState) (l : Ledger) : Ledger :=
  match op with
  | Push op => mkLedger (accepted l ++ accepted_of [op] s) (gone l)
  | RunOnce world now =>
      match pop (queue s) with
      | None => l
      | Some (task, q) =>
          if now <=? t_deadline task then
            match task_call now task with
            | Some call => let '(pushes, exceptionOccurred) := world call in
                mkLedger (accepted l ++ accepted_of pushes (set_queue q s)) (gone l ++ [(task, Ran exceptionOccurred)])
            | None => mkLedger (accepted l) (gone l ++ [(task, NullTask)])
            end
          else mkLedger (accepted l) (gone l ++ [(task, Expired)])
      end
  | Clear => mkLedger (accepted l) (gone l ++ map (fun t => (t, Cleared)) (d_queue (queue s)))
  end.

Fixpoint ledger (ops : list task_op) (s : TaskState) (l : Ledger) : Ledger :=
  match ops with [] => l | op :: ops => ledger ops (do_op op s) (note op s l) end.

Definition with_fate (f : Fate) (l : Ledger) : list (ResolveTask * Fate) := List.filter (fun x => bool_decide (snd x = f)) (gone l).

Definition runs (s : TaskState) : Z := st_run (s_almost_expired_tasks s) + st_run (s_resolve_tasks s).
Definition exceptions (s : TaskState) : Z := st_exceptions (s_almost_expired_tasks s) + st_exceptions (s_resolve_tasks s).
Definition pushed (s : TaskState) : Z := st_pushed (s_almost_expired_tasks s) + st_pushed (s_resolve_tasks s).

(** The tasks [l] were put into the queue, and nothing else happened. *)
Record grown (l : list ResolveTask) (s s' : TaskState) : Prop := {
  gr_queue : d_queue (queue s') = d_queue (queue s) ++ l;
  gr_pushes : getTaskPushes s' = getTaskPushes s + zlen l;
  gr_pushed : pushed s' = pushed s + zlen l;
  gr_expired : getTaskExpired s' = getTaskExpired s;
  gr_runs : runs s' = runs s;
  gr_exceptions : exceptions s' = exceptions s;
  gr_functions : Forall (fun t => is_Some (t_func t)) l;
}.

Lemma grown_nil s : grown [] s s.
Proof. constructor; rewrite ?app_nil_r, ?Z.add_0_r; done. Qed.

Lemma grown_trans l l' s s' s'' : grown l s s' -> grown l' s' s'' -> grown (l ++ l') s s''.
Proof.
  intros [A1 A2 A3 A4 A5 A6 A7] [B1 B2 B3 B4 B5 B6 B7]. constructor; rewrite ?zlen_app; try congruence; try lia.
  - by rewrite B1, A1, app_assoc.
  - by apply Forall_app.
Qed.

Lemma push_counted_grown b task s :
  is_Some (t_func task) ->
  grown (if existsb (same_task task) (d_queue (queue s)) then [] else [task]) s (fst (push_counted b task s)).
Proof.
  intros Hf. unfold push_counted, push. destruct (existsb (same_task task) (d_queue (queue s))); cbn [fst andb].
  - by destruct s; apply grown_nil.
  - constructor; unfold getTaskPushes, pushed, getTaskExpired, runs, exceptions; cbn; change (zlen [task]) with 1; destruct b; cbn; try done; try lia;
      by apply Forall_singleton.
Qed.

Lemma do_push_grown op s : grown (accepted_of [op] s) s (do_push op s).
Proof.
  cbn [accepted_of]. rewrite app_nil_r. unfold op_accepted.
  destruct op as [qn qt dl nm force|qn qt now dl noqm|qn qt ip dl ns]; cbn [do_push op_task];
    unfold pushAlmostExpiredTask, pushResolveTask, pushTryDoTTask, taskQTypeIsSupported; cbn [t_qtype almostExpiredTask resolveTask tryDoTTask];
    destruct (isUnsupported qt); cbn [negb andb fst]; try apply grown_nil.
  - pose proof (push_counted_grown true (almostExpiredTask qn qt dl nm force) s) as Hg. destruct (existsb _ _); cbn [negb]; apply Hg; eauto.
  - destruct (timedset_insert now _ _) as [limit inserted]. cbn [snd]. set (s' := mkState (queue s) limit _ _).
    assert (forall l s2, grown l s' s2 -> grown l s s2) as Hw by (intros l s2 [? ? ? ? ? ? ?]; by constructor).
    destruct inserted; cbn [andb]; [|apply Hw, grown_nil].
    pose proof (push_counted_grown false (resolveTask qn qt dl noqm) s') as Hg. change (d_queue (queue s')) with (d_queue (queue s)) in Hg.
    apply Hw. destruct (existsb _ _); cbn [negb]; apply Hg; eauto.
  - pose proof (push_counted_grown true (tryDoTTask qn qt ip dl ns) s) as Hg. destruct (existsb _ _); cbn [negb]; apply Hg; eauto.
Qed.

Lemma do_pushes_grown ops s : grown (accepted_of ops s) s (do_pushes ops s).
Proof.
  unfold do_pushes. revert s. induction ops as [|op ops IH]; intros s; cbn [fold_left accepted_of]; [apply grown_nil|].
  eapply grown_trans; [|apply IH]. pose proof (do_push_grown op s) as Hg. cbn [accepted_of] in Hg. by rewrite app_nil_r in Hg.
Qed.

(** The ledger agrees with the queue and its counters. *)
Record ledger_ok (s : TaskState) (l : Ledger) : Prop := {
  lo_fifo : map fst (gone l) ++ d_queue (queue s) = accepted l;
  lo_pushes : getTaskPushes s = zlen (accepted l);
  lo_pushed : pushed s = zlen (accepted l);
  lo_runs : runs s = zlen (with_fate (Ran false) l);
  lo_exceptions : exceptions s = zlen (with_fate (Ran true) l);
  lo_expired : getTaskExpired s = zlen (with_fate Expired l);
  lo_functions : Forall (fun t => is_Some (t_func t)) (d_queue (queue s));
  lo_null : Forall (fun x => snd x <> NullTask) (gone l);
}.

Lemma with_fate_snoc f a l x : with_fate f (mkLedger a (l ++ [x])) = with_fate f (mkLedger a l) ++ (if bool_decide (snd x = f) then [x] else []).
Proof. unfold with_fate. cbn. rewrite List.filter_app. cbn. by case_bool_decide. Qed.

Lemma with_fate_cleared f a l q : f <> Cleared -> with_fate f (mkLedger a (l ++ map (fun t => (t, Cleared)) q)) = with_fate f (mkLedger a l).
Proof.
  intros Hf. unfold with_fate. cbn. rewrite List.filter_app.
  assert (List.filter (fun x => bool_decide (snd x = f)) (map (fun t : ResolveTask => (t, Cleared)) q) = []) as ->; [|apply app_nil_r].
  induction q as [|t q IH]; [done|]. cbn. by rewrite bool_decide_eq_false_2.
Qed.

(** A task that is run asks what it is to ask, its pushes are made, and its end is
    counted once. *)
Lemma run_task world now task s call :
  task_call now task = Some call -> now <= t_deadline task ->
  exists s', run world now task s = (s', false) /\ queue s' = queue (do_pushes (fst (world call)) s)
    /\ pushed s' = pushed (do_pushes (fst (world call)) s)
    /\ runs s' = runs (do_pushes (fst (world call)) s) + (if snd (world call) then 0 else 1)
    /\ exceptions s' = exceptions (do_pushes (fst (world call)) s) + (if snd (world call) then 1 else 0).
Proof.
  unfold task_call, run. intros Hc Hle. destruct (t_func task) as [f|]; [|done]. rewrite (proj2 (Z.leb_le _ _)) by done.
  eexists. split; [done|].
  destruct f; injection Hc as <-; cbn [call_function]; unfold resolveInternal, tryDoT_function; cbn [bool_decide];
    try replace (negb (RefreshMode_code (t_refreshMode task) =? 0)) with (negb (bool_decide (t_refreshMode task = RM_None))) by (by destruct (t_refreshMode task));
    rewrite ?(bool_decide_eq_false_2 (resolve = resolveForceNoQM)), ?(bool_decide_eq_true_2 (resolveForceNoQM = resolveForceNoQM)) by done;
    destruct (world _) as [ops b]; cbn [fst snd]; try destruct (negb _); unfold pushed, runs, exceptions; destruct b; cbn; split_and!; done || lia.
Qed.

Lemma note_ok op s l : ledger_ok s l -> ledger_ok (do_op op s) (note op s l).
Proof.
  intros [Hf Hp Hpd Hr He Hx Hfn Hnl]. destruct l as [acc gn]. cbn [accepted gone] in *. destruct op as [op|world now|]; cbn [do_op note accepted gone].
  - destruct (do_push_grown op s) as [G1 G2 G3 G4 G5 G6 G7]. constructor; cbn [accepted gone]; rewrite ?zlen_app.
    + by rewrite G1, <- Hf, app_assoc.
    + by rewrite G2, Hp.
    + by rewrite G3, Hpd.
    + rewrite G5. exact Hr.
    + rewrite G6. exact He.
    + rewrite G4. exact Hx.
    + rewrite G1. by apply Forall_app.
    + done.
  - unfold runTaskOnce, pop. destruct (d_queue (queue s)) as [|task rest] eqn:Hq; [cbn; constructor; cbn; try done; by rewrite Hq|].
    apply Forall_cons in Hfn as [Hft Hfn]. set (s1 := set_queue _ s).
    assert (map fst (gn ++ [(task, NullTask)]) ++ d_queue (queue s1) = acc) as Hf1 by (rewrite map_app, <- app_assoc; exact Hf).
    destruct (Z.leb_spec now (t_deadline task)) as [Hle|Hgt].
    + destruct (task_call now task) as [call|] eqn:Hcall.
      2: { exfalso. unfold task_call in Hcall. destruct Hft as [[] Hft]; by rewrite Hft in Hcall. }
      destruct (run_task world now task s1 call Hcall Hle) as (s' & -> & Hq' & Hpd' & Hr' & He').
      destruct (world call) as [ops b]. cbn [fst snd] in *. destruct (do_pushes_grown ops s1) as [G1 G2 G3 G4 G5 G6 G7].
      constructor; cbn [accepted gone]; rewrite ?with_fate_snoc, ?zlen_app; unfold getTaskPushes, getTaskExpired in *; rewrite ?Hq', ?Hpd', ?Hr', ?He'; cbn [snd].
      * rewrite G1. rewrite map_app in *. rewrite app_assoc. f_equal. exact Hf1.
      * rewrite G2. cbn. by rewrite Hp.
      * rewrite G3. subst s1. unfold pushed in *. cbn. by rewrite Hpd.
      * rewrite G5. change (runs s1) with (runs s). rewrite Hr. by destruct b.
      * rewrite G6. change (exceptions s1) with (exceptions s). rewrite He. by destruct b.
      * rewrite G4. cbn. rewrite Hx, Z.add_0_r. done.
      * rewrite G1. by apply Forall_app.
      * apply Forall_app. by repeat constructor.
    + unfold run. destruct Hft as [f Hft]. rewrite Hft, (proj2 (Z.leb_gt _ _)) by done. cbn [fst].
      constructor; cbn [accepted gone]; rewrite ?with_fate_snoc, ?zlen_app; cbn [snd]; try (rewrite ?bool_decide_eq_false_2, ?Z.add_0_r by done); try done.
      * rewrite map_app in *. exact Hf1.
      * rewrite bool_decide_eq_true_2 by done. unfold getTaskExpired in *. cbn. rewrite Hx. done.
      * apply Forall_app. by repeat constructor.
  - constructor; rewrite ?with_fate_cleared by done; cbn; try done.
    + rewrite map_app, map_map. cbn. rewrite map_id, app_nil_r. exact Hf.
    + apply Forall_app. split; [done|]. apply Forall_fmap, Forall_forall. by intros t _.
Qed.

Lemma ledger_history ops : forall s l, ledger_ok s l -> ledger_ok (do_ops ops s) (ledger ops s l).
Proof.
  unfold do_ops. induction ops as [|op ops IH]; intros s l Hl; [done|]. cbn [fold_left ledger]. by apply IH, note_ok.
Qed.

Lemma note_not_cleared op s l : op <> Clear -> Forall (fun x => snd x <> Cleared) (gone l) -> Forall (fun x => snd x <> Cleared) (gone (note op s l)).
Proof.
  intros Ho Hl. destruct op as [op|world now|]; cbn [note]; [done| |done]. repeat case_match; cbn [gone]; try done; apply Forall_app; by repeat constructor.
Qed.

Lemma ledger_not_cleared ops : forall s l, Clear ∉ ops -> Forall (fun x => snd x <> Cleared) (gone l) -> Forall (fun x => snd x <> Cleared) (gone (ledger ops s l)).
Proof.
  induction ops as [|op ops IH]; intros s l Hn Hl; [done|]. apply not_elem_of_cons in Hn as [Hop Hn]. cbn [ledger]. apply IH; [done|].
  apply note_not_cleared; [congruence|done].
Qed.

(** C36: every task is accounted for.  Over any sequence of pushes, turns and
    clearings, and whatever the resolver pushes while it runs, the tasks that were
    accepted are, in their order, those that left the queue followed by those in it:
    tasks are taken first in, first out, none is lost and none is taken twice.  A
    task is accepted when its type is supported, the rate limit lets it pass and none
    like it is in the queue; a turn takes the first one and asks the resolver for
    what it stands for, unless its deadline has passed.  The counters say how many
    were accepted, ran, threw and expired. *)
Theorem tasks_are_accounted (ops : list task_op) :
  let s := do_ops ops state_initial in
  let l := ledger ops state_initial (mkLedger [] []) in
  map fst (gone l) ++ d_queue (queue s) = accepted l
  /\ getTaskPushes s = zlen (accepted l) /\ pushed s = zlen (accepted l)
  /\ runs s = zlen (with_fate (Ran false) l) /\ exceptions s = zlen (with_fate (Ran true) l)
  /\ getTaskExpired s = zlen (with_fate Expired l)
  /\ (Clear ∉ ops -> Forall (fun x => snd x <> Cleared) (gone l))
  /\ Forall (fun x => snd x <> NullTask) (gone l).
Proof.
  intros s l. destruct (ledger_history ops state_initial (mkLedger [] [])) as [H1 H2 H3 H4 H5 H6 _ H7]; [by constructor|].
  split_and!; try done. intros Hn. by apply ledger_not_cleared.
Qed.

(** ** Order *)

Definition is_turn (op : task_op) : bool := match op with RunOnce _ _ => true | _ => false end.

Lemma queued_stays ops : forall s i t,
  accounted s -> d_queue (queue s) !! i = Some t -> Clear ∉ ops -> (length (List.filter is_turn ops) <= i)%nat ->
  d_queue (queue (do_ops ops s)) !! (i - length (List.filter is_turn ops))%nat = Some t.
Proof.
  induction ops as [|op ops IH]; intros s i t Hs Hi Hn Hl; cbn [do_ops fold_left List.filter length].
  { by rewrite Nat.sub_0_r. }
  apply not_elem_of_cons in Hn as [Hop Hn]. fold (do_ops ops (do_op op s)). pose proof (do_op_account op s Hs) as (Hs' & _).
  destruct op as [op|world now|]; [| |congruence]; cbn [is_turn List.filter] in *.
  - apply IH; [done| |done|done]. destruct (pushes_account _ _ (do_push_pushes op s) Hs) as (_ & _ & Hp).
    by eapply prefix_lookup_Some.
  - cbn [length] in *. destruct i as [|i]; [lia|]. destruct (d_queue (queue s)) as [|task rest] eqn:Hq; [done|].
    destruct (runTaskOnce_account world now s task rest Hs Hq) as (_ & _ & Hp & _). rewrite Nat.sub_succ. apply IH; [done| |done|lia].
    by eapply prefix_lookup_Some.
Qed.

(** tasks are run in the order in which they were accepted, and none waits for
    more turns than there are tasks before it: a task at position [i] of the queue is
    the one the next turn takes after [i] turns, whatever else is pushed in between. *)
Theorem queued_task_is_next (before after : list task_op) (i : nat) (t : ResolveTask) :
  let s := do_ops before state_initial in
  d_queue (queue s) !! i = Some t -> Clear ∉ after -> length (List.filter is_turn after) = i ->
  exists q, pop (queue (do_ops after s)) = Some (t, q).
Proof.
  intros s Hi Hn Hl. pose proof (do_ops_account before state_initial state_initial_accounted) as (Hs & _). fold s in Hs.
  pose proof (queued_stays after s i t Hs Hi Hn) as Hq. rewrite Hl, Nat.sub_diag in Hq. specialize (Hq (le_n _)).
  unfold pop. destruct (d_queue (queue (do_ops after s))) as [|x rest]; [done|]. injection Hq as ->. eauto.
Qed.
(** ** The rate limit *)

Definition time_le (a b : TimedEntry) : Prop := te_ttd a <= te_ttd b.

Lemma purge_loop_spec now l n :
  StronglySorted time_le l ->
  purge_loop now l n = (List.filter (fun e => now <=? te_ttd e) l, n + zlen (List.filter (fun e => te_ttd e <? now) l)).
Proof.
  intros Hs. revert n. induction Hs as [|e l Hs IH He]; intros n; cbn [purge_loop List.filter]; [by rewrite Z.add_0_r|].
  destruct (Z.ltb_spec (te_ttd e) now) as [Hlt|Hge].
  - rewrite IH, zlen_cons. destruct (Z.leb_spec now (te_ttd e)); [lia|]. f_equal. lia.
  - destruct (Z.leb_spec now (te_ttd e)) as [_|]; [|lia]. clear IH.
    assert (Forall (fun x => now <= te_ttd x) l) as Hl by (eapply Forall_impl; [exact He|]; unfold time_le; cbn; lia).
    assert (List.filter (fun x => te_ttd x <? now) l = [] /\ List.filter (fun x => now <=? te_ttd x) l = l) as [-> ->].
    { clear -Hl. induction Hl as [|x l Hx Hl [IH1 IH2]]; [done|]. cbn.
      destruct (Z.ltb_spec (te_ttd x) now); [lia|]. destruct (Z.leb_spec now (te_ttd x)); [|lia]. by rewrite IH1, IH2. }
    by rewrite Z.add_0_r.
Qed.

Lemma insert_by_time_perm e l : insert_by_time e l ≡ₚ e :: l.
Proof. induction l as [|x l IH]; cbn; [done|]. destruct (_ <? _); [done|]. rewrite IH. apply perm_swap. Qed.

Lemma insert_by_time_sorted e l : StronglySorted time_le l -> StronglySorted time_le (insert_by_time e l).
Proof.
  induction 1 as [|x l Hs IH Hx]; cbn; [by repeat constructor|]. destruct (Z.ltb_spec (te_ttd e) (te_ttd x)).
  - constructor; [by constructor|]. constructor; [unfold time_le; lia|]. eapply Forall_impl; [exact Hx|]. unfold time_le. cbn. lia.
  - constructor; [done|]. rewrite insert_by_time_perm. constructor; [done|done].
Qed.

Lemma filter_sorted (p : TimedEntry -> bool) l : StronglySorted time_le l -> StronglySorted time_le (List.filter p l).
Proof.
  induction 1 as [|x l Hs IH Hx]; cbn; [constructor|]. destruct (p x); [|done]. constructor; [done|].
  by eapply forall_sublist; [apply filter_sublist|].
Qed.

(** A set of the rate limit between insertions: [s'] is [s] without some entries that
    expired before [now]. *)
Record purged (now : Z) (s s' : list TimedEntry) : Prop := {
  pg_sorted : StronglySorted time_le s';
  pg_subset : forall e, e ∈ s' -> e ∈ s;
  pg_live : forall e, e ∈ s -> now <= te_ttd e -> e ∈ s';
}.

Lemma purged_refl now s : StronglySorted time_le s -> purged now s s.
Proof. by split. Qed.

Lemma purged_trans now a b c : purged now a b -> purged now b c -> purged now a c.
Proof. intros [? ? ?] [? ? ?]. split; eauto. Qed.

Lemma purge_purged now s : StronglySorted time_le (d_set s) -> purged now (d_set s) (d_set (fst (purge now s))).
Proof.
  intros Hs. unfold purge. rewrite purge_loop_spec by done. cbn [fst d_set]. split; [by apply filter_sorted| |].
  - intros e He. apply list_elem_of_In, filter_In in He as [He _]. by apply list_elem_of_In.
  - intros e He Hn. apply list_elem_of_In, filter_In. split; [by apply list_elem_of_In|lia].
Qed.

(** Insertion succeeds exactly when no equivalent entry is alive. *)
Lemma timedset_insert_spec now task s s' inserted :
  StronglySorted time_le (d_set s) -> timedset_insert now task s = (s', inserted) ->
  d_expiry_seconds s' = d_expiry_seconds s
  /\ exists base, purged now (d_set s) base
  /\ if inserted then
       Forall (fun e => same_task task (te_task e) = false) base
       /\ d_set s' = insert_by_time (mkTimed task (now + d_expiry_seconds s)) base
     else d_set s' = base /\ exists e, e ∈ d_set s /\ now <= te_ttd e /\ same_task task (te_task e) = true.
Proof.
  intros Hs. unfold timedset_insert. set (s0 := mkTimedSet (d_set s) (d_expiry_seconds s) (u32 (d_count s + 1))).
  set (s1 := if _ =? 0 then fst (purge now s0) else s0).
  assert (purged now (d_set s) (d_set s1) /\ d_expiry_seconds s1 = d_expiry_seconds s) as [Hp Hd].
  { subst s1. destruct (_ =? 0); [|by split; [apply purged_refl|]]. split; [by apply (purge_purged now s0)|].
    unfold purge. by destruct (purge_loop _ _ _). }
  clearbody s1. clear s0. pose proof (pg_sorted _ _ _ Hp) as Hs1.
  assert (forall s2, existsb (fun e => same_task task (te_task e)) (d_set s2) = false ->
    Forall (fun e => same_task task (te_task e) = false) (d_set s2)) as Hnone.
  { intros s2 He. apply Forall_forall. intros e Hin. apply not_true_iff_false. intros Hsame. apply not_true_iff_false in He.
    apply He, existsb_exists. exists e. split; [by apply list_elem_of_In|done]. }
  unfold emplace at 1. destruct (existsb _ (d_set s1)) eqn:He.
  2:{ intros [= <- <-]. split; [done|]. exists (d_set s1). split_and!; [done|by apply Hnone|by rewrite Hd]. }
  pose proof (purge_purged now s1 Hs1) as Hp2. unfold purge in *. rewrite purge_loop_spec in * by done. cbn [fst d_set] in Hp2.
  set (live := List.filter (fun e => now <=? te_ttd e) (d_set s1)) in *.
  assert (purged now (d_set s) live) as Hpl by (by eapply purged_trans).
  assert (forall e, e ∈ live -> now <= te_ttd e) as Hlive.
  { intros e Hin. apply list_elem_of_In, filter_In in Hin as [_ ?]. lia. }
  destruct (Z.ltb_spec 0 (0 + zlen (List.filter (fun e => te_ttd e <? now) (d_set s1)))) as [Hsome|Hzero].
  - unfold emplace. cbn [d_set d_expiry_seconds]. destruct (existsb _ live) eqn:He2; intros [= <- <-]; (split; [done|]); exists live; (split; [done|]).
    + split; [done|]. apply existsb_exists in He2 as (e & Hin & Hsame). apply list_elem_of_In in Hin.
      exists e. split_and!; [by apply (pg_subset _ _ _ Hpl)|by apply Hlive|done].
    + split; [by apply (Hnone (mkTimedSet live 0 0))|cbn [d_set]; by rewrite Hd].
  - intros [= <- <-]. cbn [d_set d_expiry_seconds]. split; [done|]. exists live. split; [done|]. split; [done|].
    apply existsb_exists in He as (e & Hin & Hsame). apply list_elem_of_In in Hin. exists e.
    split_and!; [by apply (pg_subset _ _ _ Hp)| |done]. destruct (Z.le_gt_cases now (te_ttd e)) as [?|Hgt]; [done|].
    assert (e ∈ List.filter (fun e => te_ttd e <? now) (d_set s1)) as Hf by (apply list_elem_of_In, filter_In; split; [by apply list_elem_of_In|lia]).
    destruct (List.filter (fun e => te_ttd e <? now) (d_set s1)) as [|x l]; [by apply elem_of_nil in Hf|].
    rewrite zlen_cons in Hzero. pose proof (zlen_nonneg l). lia.
Qed.

(** The decisions of the rate limit on requests with their times. *)
Fixpoint limit_decisions (requests : list (Z * ResolveTask)) (s : TimedSet) : list bool :=
  match requests with
  | [] => []
  | (now, task) :: requests => let '(s, inserted) := timedset_insert now task s in inserted :: limit_decisions requests s
  end.

(** A rate limit that never forgets: the time each task was last let through. *)
Definition task_log : Type := bytes * Z * RefreshMode * option TaskFunction * ComboAddress * option (ComboAddress * Z) -> option Z.

Definition let_through (seconds now : Z) (task : ResolveTask) (last : task_log) : bool :=
  match last (task_key task) with None => true | Some t => t + seconds <? now end.

Definition record_task (now : Z) (task : ResolveTask) (last : task_log) : task_log :=
  fun k => if decide (k = task_key task) then Some now else last k.

Fixpoint spec_decisions (seconds : Z) (requests : list (Z * ResolveTask)) (last : task_log) : list bool :=
  match requests with
  | [] => []
  | (now, task) :: requests =>
      if let_through seconds now task last then true :: spec_decisions seconds requests (record_task now task last)
      else false :: spec_decisions seconds requests last
  end.

Record limits (now : Z) (s : TimedSet) (last : task_log) : Prop := {
  lim_sorted : StronglySorted time_le (d_set s);
  lim_wf : forall e, e ∈ d_set s -> wf_task (te_task e);
  lim_sound : forall e, e ∈ d_set s -> last (task_key (te_task e)) = Some (te_ttd e - d_expiry_seconds s);
  lim_complete : forall k t, last k = Some t -> now <= t + d_expiry_seconds s ->
    exists e, e ∈ d_set s /\ task_key (te_task e) = k /\ te_ttd e = t + d_expiry_seconds s;
}.

Lemma limit_step before now task s s' inserted last :
  limits before s last -> before <= now -> wf_task task -> timedset_insert now task s = (s', inserted) ->
  inserted = let_through (d_expiry_seconds s) now task last
  /\ limits now s' (if inserted then record_task now task last else last).
Proof.
  intros [Hsort Hwf Hsound Hcomp] Hnow Ht Hi. apply timedset_insert_spec in Hi as (Hd & base & [Hbs Hsub Hlive] & Hi); [|done].
  unfold let_through. destruct inserted.
  - destruct Hi as [Hnone Hset]. rewrite Forall_forall in Hnone. split.
    + destruct (last (task_key task)) as [t|] eqn:Hl; [|done]. symmetry. apply Z.ltb_lt. apply Z.nle_gt. intros Hle.
      destruct (Hcomp _ _ Hl) as (e & He & Hk & Httd); [lia|]. assert (e ∈ base) as Hb by (apply Hlive; [done|lia]).
      specialize (Hnone e Hb). rewrite same_task_decide, bool_decide_eq_false in Hnone by auto. congruence.
    + unfold record_task. split; rewrite ?Hset, ?Hd.
      * by apply insert_by_time_sorted.
      * intros e. rewrite insert_by_time_perm. intros [->|He]%elem_of_cons; [done|auto].
      * intros e. rewrite insert_by_time_perm. intros [->|He]%elem_of_cons; cbn [te_task te_ttd].
        -- rewrite decide_True by done. f_equal. lia.
        -- rewrite decide_False; [auto|]. specialize (Hnone e He). rewrite same_task_decide, bool_decide_eq_false in Hnone by auto. congruence.
      * intros k t. case_decide as Hk; [intros [= <-] _|intros Hl Hle].
        -- exists (mkTimed task (now + d_expiry_seconds s)). rewrite insert_by_time_perm. subst k. split_and!; [left|done|done].
        -- destruct (Hcomp _ _ Hl) as (e & He & Hke & Httd); [lia|]. exists e. rewrite insert_by_time_perm.
           split_and!; [right; apply Hlive; [done|lia]|done|done].
  - destruct Hi as [Hset (e & He & Hle & Hsame)]. rewrite same_task_key in Hsame by auto. split.
    + rewrite Hsame, Hsound by done. symmetry. apply Z.ltb_ge. lia.
    + split; rewrite ?Hset, ?Hd; [done|auto|auto|]. intros k t Hl Hlt. destruct (Hcomp _ _ Hl) as (x & Hx & Hkx & Httd); [lia|].
      exists x. split_and!; [apply Hlive; [done|lia]|done|done].
Qed.

Lemma limit_decisions_refine requests : forall before s last,
  limits before s last -> StronglySorted Z.le (before :: map fst requests) -> Forall (fun r => wf_task (snd r)) requests ->
  limit_decisions requests s = spec_decisions (d_expiry_seconds s) requests last.
Proof.
  induction requests as [|[now task] requests IH]; intros before s last Hl Hsort Hwf; [done|]. cbn [limit_decisions spec_decisions map fst] in *.
  apply StronglySorted_inv in Hsort as [Hsort Hb]. apply Forall_cons in Hb as [Hnow _]. apply Forall_cons in Hwf as [Ht Hwf].
  destruct (timedset_insert now task s) as [s' inserted] eqn:Hi.
  destruct (limit_step _ _ _ _ _ _ _ Hl Hnow Ht Hi) as [-> Hl']. pose proof (proj1 (timedset_insert_spec _ _ _ _ _ (lim_sorted _ _ _ Hl) Hi)) as Hd.
  rewrite (IH now s' _ Hl' Hsort Hwf), Hd. by destruct (let_through _ _ _ _).
Qed.

(** the rate limit, which purges its entries now and then, decides as one that
    remembers every task it ever let through: a task is let through exactly when the
    same task was not let through in the last [seconds] seconds, the names compared
    without case.  The times of the requests do not decrease. *)
Theorem rate_limit_refines (seconds : Z) (requests : list (Z * ResolveTask)) :
  StronglySorted Z.le (map fst requests) -> Forall (fun r => wf_task (snd r)) requests ->
  limit_decisions requests (timedset_make seconds) = spec_decisions seconds requests (fun _ => None).
Proof.
  intros Hsort Hwf. destruct requests as [|[now task] requests]; [done|].
  apply (limit_decisions_refine ((now, task) :: requests) now (timedset_make seconds) (fun _ => None)); [| |done].
  - split; cbn; [constructor|by intros e He%elem_of_nil|by intros e He%elem_of_nil|done].
  - constructor; [done|]. cbn. apply StronglySorted_inv in Hsort as [_ Hle]. constructor; [lia|done].
Qed.
End tasks.

(** ** Examples *)

Module taskqueue_example.
#[local] Instance some_addresses : FunctionAddresses.
Proof.
  refine {| address_of f := match f with None => 0 | Some resolve => 4096 | Some resolveForceNoQM => 8192 | Some tryDoT => 12288 end |}.
  intros [[]|] [[]|]; done.
Defined.

Definition com : DNSName := ex_name [[99; 111; 109]].
Definition COM : DNSName := ex_name [[67; 79; 77]].
Definition quiet : resolver := fun _ => ([], false).
(** A resolver that pushes a task of its own. *)
Definition busy : resolver := fun _ => ([PushResolve COM QType.AAAA 5 100 false], true).

Definition three_pushes : list task_op :=
  [Push (PushAlmostExpired com QType.A 100 nm_default false); Push (PushAlmostExpired COM QType.A 200 nm_default false);
   Push (PushResolve com QType.AAAA 1 100 false); Push (PushResolve com QType.NS 2 100 true)].

Example three_pushes_runs :
  let s := do_ops (three_pushes ++ [RunOnce busy 5; RunOnce quiet 101; Push (PushResolve COM QType.AAAA 62 200 false)]) state_initial in
  map t_qtype (d_queue (queue s)) = [QType.NS; QType.AAAA] /\ getTaskPushes s = 4 /\ getTaskExpired s = 1 /\ tasks_done s = 1.
Proof. by vm_compute. Qed.

Lemma queued_task_is_next_witness :
  let s := do_ops three_pushes state_initial in
  let t := resolveTask com QType.NS 100 true in
  d_queue (queue s) !! 2%nat = Some t
  /\ exists q, pop (queue (do_ops [RunOnce busy 5; Push (PushResolve com QType.MX 9 100 false); RunOnce quiet 7] s)) = Some (t, q).
Proof.
  intros s t. split; [vm_compute; reflexivity|].
  apply (queued_task_is_next three_pushes [RunOnce busy 5; Push (PushResolve com QType.MX 9 100 false); RunOnce quiet 7] 2 t).
  - vm_compute. reflexivity.
  - intros H. repeat (apply elem_of_cons in H as [H|H]; [discriminate H|]). by apply elem_of_nil in H.
  - reflexivity.
Defined.

Definition requests : list (Z * ResolveTask) :=
  [(1, resolveTask com QType.A 100 false); (1, resolveTask COM QType.A 200 false); (61, resolveTask com QType.A 300 false);
   (62, resolveTask com QType.A 300 false)].

Lemma rate_limit_refines_witness :
  limit_decisions requests (timedset_make 60) = spec_decisions 60 requests (fun _ => None)
  /\ limit_decisions requests (timedset_make 60) = [true; false; false; true].
Proof.
  split; [|vm_compute; reflexivity]. apply (rate_limit_refines 60 requests).
  - repeat (constructor; [|repeat constructor; vm_compute; discriminate]). constructor.
  - repeat constructor; vm_compute; intuition discriminate.
Defined.

(** the counters of the resolve tasks read the counters of the tasks that
    refresh almost expired entries: after one resolve task was pushed and run, they
    report none, and after one refresh task they report one. *)
Theorem resolve_counters_read_others :
  (let s := do_ops [Push (PushResolve com QType.A 1 100 false); RunOnce quiet 2] state_initial in
   st_pushed (s_resolve_tasks s) = 1 /\ st_run (s_resolve_tasks s) = 1 /\ getResolveTasksPushed s = 0 /\ getResolveTasksRun s = 0)
  /\ (let s := do_ops [Push (PushAlmostExpired com QType.A 100 nm_default false); RunOnce quiet 2] state_initial in
      getResolveTasksPushed s = 1 /\ getResolveTasksRun s = 1 /\ st_pushed (s_resolve_tasks s) = 0).
Proof. by vm_compute. Qed.
End taskqueue_example.
