(* ===== verification/RecPacketCache.v ===== *)
(** * The packet cache of the recursor

    [pdns/recursordist/recpacketcache.cc], [recpacketcache.hh]: responses by tag, hash of
    the query and transport, in shards of bounded size.  A shard is a multi-index
    container, modelled by the list of its sequence index; the order in which the
    hashed index lists the entries of one key is a parameter, as is the function of
    the Boost library that mixes hashes.  The refresh tasks a lookup pushes are part of
    its result, as pushes to the task queue. *)

From S2P Require Import Prelude Chars Dns Names NamesOrder NamesWire Validate IpUtils NameIndex CacheCleaner PacketCache TaskQueue.

#[local] Open Scope Z_scope.

Record PBData : Type := mkPB {
  pb_message : bytes;
  pb_response : bytes;
  pb_tagged : bool;
}.

Record Entry : Type := mkEntry {
  e_name : DNSName;
  e_packet : bytes;
  e_query : bytes;
  e_pbdata : option PBData;
  e_ttd : Z;
  e_creation : Z;
  e_qhash : Z;
  e_tag : Z;
  e_ecsInfo : Z * Z;
  e_type : Z;
  e_class : Z;
  e_vstate : vState;
  e_submitted : bool;
  e_tcp : bool;
}.

Definition e_isStale (now : Z) (e : Entry) : bool := e_ttd e <? now.

(** [uint32_t getOrigTTL()]. *)
Definition getOrigTTL (e : Entry) : Z := u32 (e_ttd e - e_creation e).

(** [MapCombo] with its [LockedContent]. *)
Record Shard : Type := mkShard {
  sh_content : MapCombo Entry;
  sh_shardSize : Z;
  sh_hits : Z;
  sh_misses : Z;
}.

Definition sh_map (s : Shard) : list Entry := d_map (sh_content s).

(** [s_skipOptions]. *)
Definition s_skipOptions : list Z := [EDNS_ECS; EDNS_COOKIE; EDNS_TRACEPARENT].

(** The container orders by name only. *)
Definition e_leb (a b : Entry) : bool := negb (canonCompare (e_name b) (e_name a) false).

(** What a lookup finds: [getResponsePacket] fills these when it returns true. *)
Record Response : Type := mkResponse {
  r_packet : bytes;
  r_age : Z;
  r_valState : vState;
  r_pbdata : option PBData;
  r_ecsInfo : Z * Z;
}.

(** [combine] mixes tag, hash and transport with [boost::hash_combine] to a
    [size_t]; [hashed_range] is [equal_range] of the hashed index. *)
Class PacketCacheIndex : Type := {
  combine : Z -> Z -> bool -> Z;
  combine_nonneg : forall tag hash tcp, 0 <= combine tag hash tcp;
  hashed_range : list Entry -> Z -> Z -> bool -> list Entry;
  hashed_range_spec : forall l tag hash tcp,
    hashed_range l tag hash tcp
    ≡ₚ List.filter (fun e => (e_tag e =? tag) && (e_qhash e =? hash) && Bool.eqb (e_tcp e) tcp) l;
}.

Section cache.
Context (char_signed : bool) (s_refresh_ttlperc : Z) (sizeof_entry : Z).
Context `{!PacketCacheIndex}.
#[local] Abbreviation cache := (list Shard).

Definition empty_shard : Shard := mkShard (mkMap [] 0) 0 0 0.

Definition set_shardSize (shardSize : Z) (s : Shard) : Shard := mkShard (sh_content s) shardSize (sh_hits s) (sh_misses s).
Definition put_content (content : MapCombo Entry) (s : Shard) : Shard := mkShard content (sh_shardSize s) (sh_hits s) (sh_misses s).

Definition setShardSizes (shardSize : Z) (c : cache) : cache := map (set_shardSize shardSize) c.

Definition setMaxSize (size : Z) (c : cache) : cache :=
  let size := if size <? zlen c then zlen c else size in setShardSizes (size / zlen c) c.

Definition rpc_make (maxsize shards : Z) : cache := setMaxSize maxsize (replicate (Z.to_nat shards) empty_shard).

Definition rpc_size (c : cache) : Z := foldr (fun s n => d_entriesCount (sh_content s) + n) 0 c.
Definition rpc_bytes (c : cache) : Z :=
  foldr (fun s n => foldr (fun e n => sizeof_entry + zlen (e_packet e) + 4 + n) 0 (sh_map s) + n) 0 c.
Definition getHits (c : cache) : Z := foldr (fun s n => sh_hits s + n) 0 c.
Definition getMisses (c : cache) : Z := foldr (fun s n => sh_misses s + n) 0 c.

(** The index of [d_maps.at(combine(tag, hash, tcp) % d_maps.size())]. *)
Definition rpc_getMap (c : cache) (tag hash : Z) (tcp : bool) : nat := Z.to_nat (combine tag hash tcp mod zlen c).
Definition rpc_shard (c : cache) (i : nat) : Shard := default empty_shard (c !! i).

(** ** Lookups *)

(** The entry itself, told by what insertion keeps unique. *)
Definition same_entry (a b : Entry) : bool :=
  (e_tag a =? e_tag b) && (e_qhash a =? e_qhash b) && Bool.eqb (e_tcp a) (e_tcp b)
  && name_eqb (e_name a) (e_name b) && (e_type a =? e_type b) && (e_class a =? e_class b).

Definition qrMatch (e : Entry) (queryPacket : bytes) (qname : DNSName) (qtype qclass : Z) : result bool :=
  if negb (name_eqb qname (e_name e)) || negb (e_type e =? qtype) || negb (e_class e =? qclass) then Ok false
  else queryMatches (e_query e) queryPacket qname s_skipOptions.

(** The response with the id and the name of the query. *)
Definition patch_response (queryPacket : bytes) (qname : DNSName) (packet : bytes) : bytes :=
  let packet := ztake 2 queryPacket ++ zdrop 2 packet in
  let wl := wirelength qname in
  if sizeof_header + wl <? zlen packet
  then ztake sizeof_header packet ++ zsub queryPacket sizeof_header wl ++ zdrop (sizeof_header + wl) packet
  else packet.

(** A fresh entry is to be refreshed: not yet submitted, and almost expired. *)
Definition almost_expired (qtype now : Z) (e : Entry) : bool :=
  (0 <? s_refresh_ttlperc) && negb (e_submitted e) && taskQTypeIsSupported qtype && negb (qtype =? QType.NS)
  && (Z.land (byte_at (e_packet e) 3) 15 =? 0)
  && (u32 (e_ttd e - now) <=? u32 (getOrigTTL e * s_refresh_ttlperc) / 100).

Definition set_submitted (e : Entry) : Entry :=
  mkEntry (e_name e) (e_packet e) (e_query e) (e_pbdata e) (e_ttd e) (e_creation e) (e_qhash e) (e_tag e) (e_ecsInfo e)
    (e_type e) (e_class e) (e_vstate e) true (e_tcp e).

Record lookup_result : Type := mkLookup {
  l_shard : Shard;
  l_tasks : list push_op;
  l_response : option Response;
}.

Definition modify_entry (e e' : Entry) (l : list Entry) : list Entry := map (fun x => if same_entry e x then e' else x) l.

(** The loop of [checkResponseMatches] over the range. *)
Fixpoint checkResponseMatches (shard : Shard) (range : list Entry) (queryPacket : bytes) (qname : DNSName) (qtype qclass now : Z)
  : result lookup_result :=
  match range with
  | [] => Ok (mkLookup shard [] None)
  | e :: range =>
      matches ← qrMatch e queryPacket qname qtype qclass;
      if negb matches then checkResponseMatches shard range queryPacket qname qtype qclass now
      else if now <? e_ttd e then
        let refresh := almost_expired qtype now e in
        let e' := if refresh then set_submitted e else e in
        let l := moveCacheItemToBack (same_entry e) (modify_entry e e' (sh_map shard)) in
        Ok (mkLookup (mkShard (mkMap l (d_entriesCount (sh_content shard))) (sh_shardSize shard) (sh_hits shard + 1) (sh_misses shard))
              (if refresh then [PushAlmostExpired qname qtype (e_ttd e) nm_default false] else [])
              (Some (mkResponse (patch_response queryPacket qname (e_packet e)) (u32 (now - e_creation e)) (e_vstate e)
                       (e_pbdata e) (e_ecsInfo e))))
      else Ok (mkLookup (mkShard (sh_content shard) (sh_shardSize shard) (sh_hits shard) (sh_misses shard + 1)) [] None)
  end.

Definition count_miss (s : Shard) : Shard := mkShard (sh_content s) (sh_shardSize s) (sh_hits s) (sh_misses s + 1).

(** The cache after a lookup, the hash, the tasks and the response. *)
Record get_response : Type := mkGetResponse {
  gp_cache : cache;
  gp_qhash : Z;
  gp_tasks : list push_op;
  gp_response : option Response;
}.

Definition after_lookup (c : cache) (i : nat) (qhash : Z) (r : lookup_result) : get_response :=
  mkGetResponse (<[i := l_shard r]> c) qhash (l_tasks r) (l_response r).

(** [getResponsePacket] for a question already parsed. *)
Definition getResponsePacket (c : cache) (tag : Z) (queryPacket : bytes) (qname : DNSName) (qtype qclass now : Z) (tcp : bool)
  : result get_response :=
  qhash ← canHashPacket char_signed queryPacket s_skipOptions;
  let i := rpc_getMap c tag qhash tcp in
  let shard := rpc_shard c i in
  match hashed_range (sh_map shard) tag qhash tcp with
  | [] => Ok (mkGetResponse (<[i := count_miss shard]> c) qhash [] None)
  | range =>
      r ← checkResponseMatches shard range queryPacket qname qtype qclass now;
      Ok (after_lookup c i qhash r)
  end.

(** [getResponsePacket] that parses the question, once something has the hash. *)
Definition getResponsePacket_parse (c : cache) (tag : Z) (queryPacket : bytes) (now : Z) (tcp : bool)
  : result (get_response * option (DNSName * Z * Z)) :=
  qhash ← canHashPacket char_signed queryPacket s_skipOptions;
  let i := rpc_getMap c tag qhash tcp in
  let shard := rpc_shard c i in
  match hashed_range (sh_map shard) tag qhash tcp with
  | [] => Ok (mkGetResponse (<[i := count_miss shard]> c) qhash [] None, None)
  | range =>
      w ← DNSName_from_wire default_limits queryPacket sizeof_header false true true 0 None;
      let qname := mkDNSName (p_storage w) in
      r ← checkResponseMatches shard range queryPacket qname (p_qtype w) (p_qclass w) now;
      Ok (after_lookup c i qhash r, Some (qname, p_qtype w, p_qclass w))
  end.

(** ** Changes *)

Definition replace_entry (e : Entry) (query response : bytes) (now ttl : Z) (valState : vState) (pbdata : option PBData) (ecsInfo : Z * Z) : Entry :=
  mkEntry (e_name e) response query (match pbdata with Some _ => pbdata | None => e_pbdata e end) (now + ttl) now
    (e_qhash e) (e_tag e) ecsInfo (e_type e) (e_class e) valState false (e_tcp e).

Definition insertResponsePacket (c : cache) (tag qhash : Z) (query : bytes) (qname : DNSName) (qtype qclass : Z) (responsePacket : bytes)
    (now ttl : Z) (valState : vState) (pbdata : option PBData) (tcp : bool) (ecsInfo : Z * Z) : cache :=
  let i := rpc_getMap c tag qhash tcp in
  let shard := rpc_shard c i in
  let l := sh_map shard in
  let count := d_entriesCount (sh_content shard) in
  match List.find (fun e => (e_type e =? qtype) && (e_class e =? qclass) && name_eqb (e_name e) qname) (hashed_range l tag qhash tcp) with
  | Some e =>
      let e' := replace_entry e query responsePacket now ttl valState pbdata ecsInfo in
      <[i := put_content (mkMap (modify_entry e e' (moveCacheItemToBack (same_entry e) l)) count) shard]> c
  | None =>
      let entry := mkEntry qname responsePacket query pbdata (now + ttl) now qhash tag ecsInfo qtype qclass valState false tcp in
      let l := l ++ [entry] in
      let '(l, count) := if sh_shardSize shard <? zlen l then (zdrop 1 l, count + 1 - 1) else (l, count + 1) in
      <[i := put_content (mkMap l count) shard]> c
  end.

(** The walk of a wipe over one shard. *)
Definition wipe_shard (name : DNSName) (qtype : Z) (subtree : bool) (s : Shard) : result (Shard * Z) :=
  let l := sh_map s in
  r ← erase_range (fun e => if subtree then isPartOf (e_name e) name else Ok (name_eqb (e_name e) name))
        (fun e => (qtype =? 65535) || (e_type e =? qtype)) same_entry
        (lower_bound e_name name (ordered_index e_leb l)) l 0;
  let '(l, n) := r in
  Ok (put_content (mkMap l (d_entriesCount (sh_content s) - n)) s, n).

Fixpoint doWipePacketCache (name : DNSName) (qtype : Z) (subtree : bool) (c : cache) (count : Z) : result (cache * Z) :=
  match c with
  | [] => Ok ([], count)
  | s :: c =>
      r ← wipe_shard name qtype subtree s;
      let '(s, n) := r in
      r ← doWipePacketCache name qtype subtree c (count + n);
      let '(c, count) := r in
      Ok (s :: c, count)
  end.

(** [doWipePacketCache(names)], the names in the order of the set. *)
Fixpoint doWipePacketCache_names (names : list DNSName) (c : cache) (count : Z) : result (cache * Z) :=
  match names with
  | [] => Ok (c, count)
  | name :: names =>
      r ← (if isWildcard name then
             let '(base, chopped) := chopOff name in
             if chopped then doWipePacketCache base 65535 true c count else Ok (c, count)
           else doWipePacketCache name 65535 false c count);
      let '(c, count) := r in
      doWipePacketCache_names names c count
  end.

Definition doPruneTo `{!Quotas} (now maxSize : Z) (c : cache) : cache :=
  zip_with put_content (fst (pruneMutexCollectionsVector (e_isStale now) (map sh_content c) maxSize (rpc_size c))) c.
End cache.
