(* ===== verification/RecPacketCacheSpec.v ===== *)
(** * What the packet cache of the recursor guarantees

    The invariant of the shards under every operation and the bound on their size,
    lookups against the set of entries, insertion followed by lookup, and wiping. *)

From S2P Require Import Prelude Chars Dns Names NamesFacts NamesOrder NamesSpec NamesWire Denial DenialFacts Validate IpUtils.
From S2P Require Import NameIndex CacheCleaner PacketCache PacketCacheSpec TaskQueue RecPacketCache.

#[local] Open Scope Z_scope.

(** ** Keys *)

Definition pkey : Type := Z * Z * bool * key * Z * Z.
Definition e_key (e : Entry) : pkey := (e_tag e, e_qhash e, e_tcp e, nkey (e_name e), e_type e, e_class e).

Lemma same_entry_spec a b : named (e_name a) -> named (e_name b) -> same_entry a b = true <-> e_key a = e_key b.
Proof.
  intros Ha Hb. unfold same_entry, e_key. rewrite !andb_true_iff, !Z.eqb_eq, Bool.eqb_true_iff, name_eqb_key by done.
  split; [by intros [[[[[-> ->] ->] ->] ->] ->]|by intros [= -> -> -> -> -> ->]].
Qed.

Section spec.
Context (char_signed : bool) (ttlperc : Z) `{HI : !PacketCacheIndex}.
Implicit Types (c : list Shard) (l : list Entry) (e : Entry) (s : Shard).

(** ** The invariant *)

(** The entries of shard [i] of [count]: legal names, in the shard of their key, no key
    twice. *)
Record entries_fine (count i : Z) (l : list Entry) : Prop := {
  ef_each : Forall (fun e => (named (e_name e) /\ bytes_ok (e_query e)) /\ combine (e_tag e) (e_qhash e) (e_tcp e) mod count = i) l;
  ef_keys : NoDup (map e_key l);
}.

Definition shard_fine (count i : Z) (s : Shard) : Prop := counted (sh_content s) /\ entries_fine count i (sh_map s).

Definition rpc_ok c : Prop := c <> [] /\ forall i s, c !! i = Some s -> shard_fine (zlen c) (Z.of_nat i) s.

Lemma fine_entry count i l e : entries_fine count i l -> e ∈ l ->
  named (e_name e) /\ bytes_ok (e_query e) /\ combine (e_tag e) (e_qhash e) (e_tcp e) mod count = i.
Proof. intros [H _] He. rewrite Forall_forall in H. by destruct (H e He) as [[? ?] ?]. Qed.

Lemma fine_same count i l a b : entries_fine count i l -> a ∈ l -> b ∈ l -> same_entry a b = true <-> a = b.
Proof.
  intros Hf Ha Hb. destruct (fine_entry _ _ _ a Hf Ha) as [Hna _], (fine_entry _ _ _ b Hf Hb) as [Hnb _].
  rewrite same_entry_spec by done. split; [|by intros ->]. intros Hk. by apply (nodup_map_inj e_key l); [apply Hf|..].
Qed.

Lemma fine_sublist count i l l' : l' `sublist_of` l -> entries_fine count i l -> entries_fine count i l'.
Proof. intros Hs [H1 H2]. split; [by eapply forall_sublist|]. eapply sublist_NoDup; [exact H2|by apply fmap_sublist]. Qed.

Lemma fine_perm count i l l' : l' ≡ₚ l -> entries_fine count i l -> entries_fine count i l'.
Proof. intros Hp [H1 H2]. split; [by rewrite Hp|]. by rewrite (Permutation_map e_key Hp). Qed.

Lemma append_fine count i l e :
  entries_fine count i l -> named (e_name e) /\ bytes_ok (e_query e) -> combine (e_tag e) (e_qhash e) (e_tcp e) mod count = i ->
  (forall x, x ∈ l -> e_key x <> e_key e) -> entries_fine count i (l ++ [e]).
Proof.
  intros [H1 H2] Hn Hc Hnew. split; [apply Forall_app; split; [done|by apply Forall_singleton]|]. rewrite map_app. apply NoDup_app.
  split_and!; [done| |apply NoDup_singleton]. intros k Hk ->%list_elem_of_singleton. apply list_elem_of_fmap in Hk as (x & Hx & Hin).
  by apply (Hnew x).
Qed.

(** Replacing an entry by one with its key. *)
Lemma modify_entry_perm e e' l l' : l' ≡ₚ l -> modify_entry e e' l' ≡ₚ modify_entry e e' l.
Proof. apply Permutation_map. Qed.

Lemma modify_fine count i l e e' :
  entries_fine count i l -> e ∈ l -> e_key e' = e_key e -> e_name e' = e_name e -> bytes_ok (e_query e') ->
  entries_fine count i (modify_entry e e' l).
Proof.
  intros Hf He Hk Hn Hq. assert (map e_key (modify_entry e e' l) = map e_key l) as Hkeys.
  { unfold modify_entry. rewrite map_map. apply map_ext_in. intros x Hx%list_elem_of_In. destruct (same_entry e x) eqn:Hs; [|done].
    apply (fine_same _ _ _ _ _ Hf He Hx) in Hs as <-. done. }
  split; [|rewrite Hkeys; by apply Hf]. apply Forall_forall. intros x Hx. apply list_elem_of_fmap in Hx as (y & -> & Hy).
  destruct (fine_entry _ _ _ y Hf Hy) as (Hny & Hqy & Hcy). destruct (same_entry e y) eqn:Hs; [|done].
  apply (fine_same _ _ _ _ _ Hf He Hy) in Hs as <-. unfold e_key in Hk. injection Hk as -> -> -> _ _ _. rewrite Hn. done.
Qed.

Lemma elem_of_modify count i l e e' x :
  entries_fine count i l -> e ∈ l -> x ∈ modify_entry e e' l <-> x = e' \/ (x ∈ l /\ x <> e).
Proof.
  intros Hf He. unfold modify_entry. rewrite list_elem_of_fmap. split.
  - intros (y & -> & Hy). destruct (same_entry e y) eqn:Hs; [by left|right]. split; [done|]. intros ->.
    apply not_true_iff_false in Hs. by apply Hs, (fine_same _ _ _ _ _ Hf).
  - intros [->|[Hx Hne]].
    + exists e. split; [|done]. by rewrite (proj2 (fine_same _ _ _ _ _ Hf He He)).
    + exists x. split; [|done]. destruct (same_entry e x) eqn:Hs; [|done]. by apply (fine_same _ _ _ _ _ Hf He Hx) in Hs as <-.
Qed.

(** ** Shards *)

Lemma rpc_index c tag h tcp : c <> [] -> Z.of_nat (rpc_getMap c tag h tcp) = combine tag h tcp mod zlen c /\ is_Some (c !! rpc_getMap c tag h tcp).
Proof.
  intros Hne. assert (zlen c <> 0) by (intros E; by apply zlen_zero_inv in E). pose proof (zlen_nonneg c).
  pose proof (Z.mod_pos_bound (combine tag h tcp) (zlen c)). unfold rpc_getMap. split; [lia|].
  apply lookup_lt_is_Some. unfold zlen in *. lia.
Qed.

Lemma rpc_shard_fine c tag h tcp : rpc_ok c -> shard_fine (zlen c) (combine tag h tcp mod zlen c) (rpc_shard c (rpc_getMap c tag h tcp)).
Proof.
  intros [Hne Hok]. destruct (rpc_index c tag h tcp Hne) as [Hi [s Hs]]. unfold rpc_shard. rewrite Hs, <- Hi. by apply Hok.
Qed.

Lemma rpc_ok_insert c tag h tcp s :
  rpc_ok c -> shard_fine (zlen c) (combine tag h tcp mod zlen c) s -> rpc_ok (<[rpc_getMap c tag h tcp := s]> c).
Proof.
  intros [Hne Hok] Hs. split.
  - intros E. apply (f_equal length) in E. rewrite length_insert in E. by destruct c.
  - intros j x Hj. replace (zlen (<[rpc_getMap c tag h tcp := s]> c)) with (zlen c) by (unfold zlen; by rewrite length_insert).
    apply list_lookup_insert_Some in Hj as [(<- & -> & _)|[_ Hj]]; [|by apply Hok]. by rewrite (proj1 (rpc_index c tag h tcp Hne)).
Qed.

Definition rpc_entries c : list Entry := concat (map sh_map c).

Lemma elem_of_entries c e : e ∈ rpc_entries c <-> exists i s, c !! i = Some s /\ e ∈ sh_map s.
Proof. apply elem_of_concat_map. Qed.

(** What is filed under a key is in the shard of the key. *)
Definition filed (tag h : Z) (tcp : bool) e : Prop := e_tag e = tag /\ e_qhash e = h /\ e_tcp e = tcp.

Lemma filed_in_shard c tag h tcp e :
  rpc_ok c -> filed tag h tcp e -> e ∈ rpc_entries c <-> e ∈ sh_map (rpc_shard c (rpc_getMap c tag h tcp)).
Proof.
  intros [Hne Hok] (<- & <- & <-). rewrite elem_of_entries. set (j := rpc_getMap c _ _ _).
  destruct (rpc_index c (e_tag e) (e_qhash e) (e_tcp e) Hne) as [Hi [s Hs]]. fold j in Hi, Hs. unfold rpc_shard. rewrite Hs. cbn. split.
  - intros (i & s' & Hs' & He). destruct (Hok i s' Hs') as [_ Hf]. destruct (fine_entry _ _ _ e Hf He) as (_ & _ & Hc).
    assert (i = j) as -> by lia. congruence.
  - eauto.
Qed.

Lemma elem_of_range l tag h tcp e : e ∈ hashed_range l tag h tcp <-> e ∈ l /\ filed tag h tcp e.
Proof.
  rewrite hashed_range_spec, list_elem_of_In, filter_In, <- list_elem_of_In, !andb_true_iff, !Z.eqb_eq, Bool.eqb_true_iff.
  unfold filed. tauto.
Qed.

(** ** Lookups *)

(** The entry is one for this question. *)
Definition matches_query (q : bytes) (n : DNSName) (qtype qclass : Z) e : bool :=
  name_eqb n (e_name e) && (e_type e =? qtype) && (e_class e =? qclass)
  && bool_decide (queryMatches (e_query e) q n s_skipOptions = Ok true).

Lemma matches_query_key q n qtype qclass e :
  named n -> named (e_name e) ->
  matches_query q n qtype qclass e = true
  <-> nkey n = nkey (e_name e) /\ e_type e = qtype /\ e_class e = qclass /\ queryMatches (e_query e) q n s_skipOptions = Ok true.
Proof.
  intros Hn He. unfold matches_query. rewrite !andb_true_iff, name_eqb_key, !Z.eqb_eq, bool_decide_eq_true by done. tauto.
Qed.

Lemma qrMatch_decides q n qtype qclass e :
  bytes_ok q -> bytes_ok (e_query e) -> asks q n -> qrMatch e q n qtype qclass = Ok (matches_query q n qtype qclass e).
Proof.
  intros Hq He Ha. unfold qrMatch, matches_query.
  destruct (name_eqb n (e_name e)), (e_type e =? qtype), (e_class e =? qclass); cbn [negb orb andb]; try done.
  pose proof (proj2 (hashHeaderAndQName_asks q n Ha)) as Hle. rewrite (queryMatches_masked _ _ _ He Hq n Hle).
  case_bool_decide as Hb; [by rewrite bool_decide_eq_true_2|]. by rewrite bool_decide_eq_false_2.
Qed.

Definition response_of (q : bytes) (n : DNSName) (now : Z) e : Response :=
  mkResponse (patch_response q n (e_packet e)) (u32 (now - e_creation e)) (e_vstate e) (e_pbdata e) (e_ecsInfo e).

Definition hit_shard (qtype now : Z) s e : Shard :=
  let e' := if almost_expired ttlperc qtype now e then set_submitted e else e in
  mkShard (mkMap (moveCacheItemToBack (same_entry e) (modify_entry e e' (sh_map s))) (d_entriesCount (sh_content s)))
    (sh_shardSize s) (sh_hits s + 1) (sh_misses s).

(** The loop decides on the first entry that matches. *)
Lemma checkResponseMatches_find s range q n qtype qclass now :
  bytes_ok q -> asks q n -> Forall (fun e => bytes_ok (e_query e)) range ->
  checkResponseMatches ttlperc s range q n qtype qclass now
  = Ok (match List.find (matches_query q n qtype qclass) range with
        | None => mkLookup s [] None
        | Some e =>
            if now <? e_ttd e then
              mkLookup (hit_shard qtype now s e)
                (if almost_expired ttlperc qtype now e then [PushAlmostExpired n qtype (e_ttd e) nm_default false] else [])
                (Some (response_of q n now e))
            else mkLookup (count_miss s) [] None
        end).
Proof.
  intros Hq Ha. induction 1 as [|e range He Hr IH]; [done|]. cbn [checkResponseMatches List.find].
  rewrite qrMatch_decides by done. cbn [mbind result_bind]. destruct (matches_query q n qtype qclass e); cbn [negb]; [|done].
  by destruct (now <? e_ttd e).
Qed.

Lemma hit_shard_fine count i s e qtype now : shard_fine count i s -> e ∈ sh_map s -> shard_fine count i (hit_shard qtype now s e).
Proof.
  intros [Hc Hf] He. unfold hit_shard. set (e' := if almost_expired _ _ _ _ then _ else _).
  assert (e_key e' = e_key e /\ e_name e' = e_name e /\ e_query e' = e_query e) as (Hk & Hn & Hqe) by (subst e'; by destruct (almost_expired _ _ _ _)).
  destruct (fine_entry _ _ _ e Hf He) as (_ & Hqb & _). split.
  - unfold counted in *. cbn [sh_content d_map d_entriesCount]. rewrite Hc. unfold zlen. rewrite move_back_perm.
    unfold modify_entry. by rewrite length_map.
  - eapply fine_perm; [apply move_back_perm|]. apply modify_fine; [done..|]. by rewrite Hqe.
Qed.

Definition lookup_found c tag h tcp q n qtype qclass : option Entry :=
  List.find (matches_query q n qtype qclass) (hashed_range (sh_map (rpc_shard c (rpc_getMap c tag h tcp))) tag h tcp).

Definition lookup_shard c tag h tcp q n qtype qclass now : Shard :=
  let s := rpc_shard c (rpc_getMap c tag h tcp) in
  match lookup_found c tag h tcp q n qtype qclass with
  | Some e => if now <? e_ttd e then hit_shard qtype now s e else count_miss s
  | None => if bool_decide (hashed_range (sh_map s) tag h tcp = []) then count_miss s else s
  end.

(** The whole of a lookup for a question, with its hash. *)
Lemma getResponsePacket_eval c tag q n qtype qclass now tcp h :
  rpc_ok c -> bytes_ok q -> asks q n -> canHashPacket char_signed q s_skipOptions = Ok h ->
  exists tasks, getResponsePacket char_signed ttlperc c tag q n qtype qclass now tcp
    = Ok (mkGetResponse (<[rpc_getMap c tag h tcp := lookup_shard c tag h tcp q n qtype qclass now]> c) h tasks
            (match lookup_found c tag h tcp q n qtype qclass with
             | Some e => if now <? e_ttd e then Some (response_of q n now e) else None
             | None => None
             end)).
Proof.
  intros Hok Hq Ha Hh. unfold getResponsePacket, lookup_shard, lookup_found. rewrite Hh. cbn [mbind result_bind].
  set (s := rpc_shard c _). destruct (rpc_shard_fine c tag h tcp Hok) as [_ Hf]. fold s in Hf.
  assert (Forall (fun e => bytes_ok (e_query e)) (hashed_range (sh_map s) tag h tcp)) as Hqs.
  { apply Forall_forall. intros e [He _]%elem_of_range. by destruct (fine_entry _ _ _ e Hf He) as (_ & ? & _). }
  destruct (hashed_range (sh_map s) tag h tcp) as [|x range] eqn:Hr; [by eexists|].
  rewrite checkResponseMatches_find by done. cbn [mbind result_bind]. eexists. unfold after_lookup. do 2 f_equal.
  - destruct (List.find _ _) as [e|]; [by destruct (now <? e_ttd e)|done].
  - destruct (List.find _ _) as [e|]; [by destruct (now <? e_ttd e)|done].
Qed.

Lemma lookup_found_spec c tag h tcp q n qtype qclass e :
  rpc_ok c -> named n ->
  lookup_found c tag h tcp q n qtype qclass = Some e
  <-> (e ∈ rpc_entries c /\ filed tag h tcp e) /\ matches_query q n qtype qclass e = true.
Proof.
  intros Hok Hn. unfold lookup_found. set (s := rpc_shard c _). destruct (rpc_shard_fine c tag h tcp Hok) as [_ Hf]. fold s in Hf.
  split.
  - intros [Hin Hm]%find_spec. apply elem_of_range in Hin as [Hin Hfd]. by rewrite (filed_in_shard c tag h tcp e Hok Hfd).
  - intros [[He Hfd] Hm]. rewrite (filed_in_shard c tag h tcp e Hok Hfd) in He. fold s in He.
    apply find_unique; [|by apply elem_of_range|done]. intros x y [Hx Hfx]%elem_of_range [Hy Hfy]%elem_of_range Hmx Hmy.
    apply (nodup_map_inj e_key (sh_map s)); [by apply Hf|done|done|].
    destruct (fine_entry _ _ _ x Hf Hx) as [Hnx _], (fine_entry _ _ _ y Hf Hy) as [Hny _].
    apply matches_query_key in Hmx as (Hmx & Htx & Hcx & _); [|done..]. apply matches_query_key in Hmy as (Hmy & Hty & Hcy & _); [|done..].
    unfold e_key. destruct Hfx as (-> & -> & ->), Hfy as (-> & -> & ->). congruence.
Qed.

Lemma canHash_Ok q n skip : asks q n -> exists h, canHashPacket char_signed q skip = Ok h.
Proof.
  intros Ha. unfold canHashPacket. rewrite (proj1 (hashHeaderAndQName_asks q n Ha)). cbn [mbind result_bind]. destruct (_ <=? _); eauto.
Qed.

Lemma lookup_shard_ok c tag h tcp q n qtype qclass now :
  rpc_ok c -> named n -> rpc_ok (<[rpc_getMap c tag h tcp := lookup_shard c tag h tcp q n qtype qclass now]> c).
Proof.
  intros Hok Hn. apply rpc_ok_insert; [done|]. pose proof (rpc_shard_fine c tag h tcp Hok) as Hs. unfold lookup_shard.
  destruct (lookup_found c tag h tcp q n qtype qclass) as [e|] eqn:Hl; [|by case_bool_decide].
  destruct (now <? e_ttd e); [|done]. apply hit_shard_fine; [done|]. apply lookup_found_spec in Hl as [[He Hf] _]; [|done..].
  by apply (filed_in_shard c tag h tcp e Hok Hf).
Qed.

(** a lookup answers exactly from the entries for the question: it returns the
    response of an entry filed under the tag, transport and hash of the query whose
    name, type and class are those asked for, whose query matches and which has not
    expired, with the id and the spelling of the name of the new query; and it returns
    one whenever there is such an entry.  The cache stays consistent. *)
Theorem getResponsePacket_exact c tag q n qtype qclass now tcp :
  rpc_ok c -> bytes_ok q -> asks q n ->
  exists r, getResponsePacket char_signed ttlperc c tag q n qtype qclass now tcp = Ok r
    /\ canHashPacket char_signed q s_skipOptions = Ok (gp_qhash r)
    /\ rpc_ok (gp_cache r)
    /\ forall response, gp_response r = Some response <->
         exists e, e ∈ rpc_entries c /\ filed tag (gp_qhash r) tcp e /\ name_eqb n (e_name e) = true /\ e_type e = qtype /\ e_class e = qclass
           /\ queryMatches (e_query e) q n s_skipOptions = Ok true /\ now < e_ttd e /\ response = response_of q n now e.
Proof.
  intros Hok Hq Ha. destruct (canHash_Ok q n s_skipOptions Ha) as [h Hh].
  destruct (getResponsePacket_eval c tag q n qtype qclass now tcp h Hok Hq Ha Hh) as [tasks Hg]. eexists. split; [exact Hg|].
  cbn [gp_qhash gp_cache gp_response].
  pose proof (ask_name _ _ Ha) as Hn. split_and!; [done|by apply lookup_shard_ok|]. intros response.
  assert (forall e, e ∈ rpc_entries c -> matches_query q n qtype qclass e = true
    <-> name_eqb n (e_name e) = true /\ e_type e = qtype /\ e_class e = qclass /\ queryMatches (e_query e) q n s_skipOptions = Ok true) as Hm.
  { intros e _. unfold matches_query. rewrite !andb_true_iff, !Z.eqb_eq, bool_decide_eq_true. tauto. }
  split.
  - destruct (lookup_found c tag h tcp q n qtype qclass) as [e|] eqn:Hl; [|done]. destruct (Z.ltb_spec now (e_ttd e)); [|done].
    intros [= <-]. apply lookup_found_spec in Hl as [[He Hfd] Hmq]; [|done..]. apply (Hm e He) in Hmq. exists e. tauto.
  - intros (e & He & Hfd & H1 & H2 & H3 & H4 & H5 & ->). assert (lookup_found c tag h tcp q n qtype qclass = Some e) as ->.
    { apply lookup_found_spec; [done..|]. split; [done|]. by apply Hm. }
    by rewrite (proj2 (Z.ltb_lt _ _)).
Qed.

(** ** Insertion *)

Section insertion.
Context c (tag h : Z) (query : bytes) (n : DNSName) (qtype qclass : Z) (response : bytes) (now ttl : Z) (valState : vState)
  (pbdata : option PBData) (tcp : bool) (ecsInfo : Z * Z).
Context (Hok : rpc_ok c) (Hn : named n) (Hquery : bytes_ok query).
#[local] Abbreviation index := (rpc_getMap c tag h tcp).
#[local] Abbreviation inserted := (insertResponsePacket c tag h query n qtype qclass response now ttl valState pbdata tcp ecsInfo).

(** The protobuf data stored with an entry for the question: what came with the
    response, or, when nothing came, what an entry it replaced had. *)
Definition stored_pbdata (pb : option PBData) : Prop :=
  pb = pbdata
  \/ pbdata = None /\ exists old, old ∈ rpc_entries c /\ filed tag h tcp old /\ name_eqb n (e_name old) = true
     /\ e_type old = qtype /\ e_class old = qclass /\ pb = e_pbdata old.

(** The entry is the one inserted, up to the protobuf data of one it replaced. *)
Definition is_inserted e : Prop :=
  filed tag h tcp e /\ (name_eqb n (e_name e) = true /\ e_type e = qtype /\ e_class e = qclass)
  /\ e_query e = query /\ e_packet e = response /\ e_ttd e = now + ttl /\ e_creation e = now /\ e_vstate e = valState /\ e_ecsInfo e = ecsInfo
  /\ stored_pbdata (e_pbdata e).

Lemma insert_put : exists s',
  inserted = <[index := s']> c /\ sh_shardSize s' = sh_shardSize (rpc_shard c index)
  /\ shard_fine (zlen c) (combine tag h tcp mod zlen c) s'
  /\ zlen (sh_map s') <= Z.max (zlen (sh_map (rpc_shard c index))) (sh_shardSize (rpc_shard c index))
  /\ (1 <= sh_shardSize (rpc_shard c index) -> exists e, is_inserted e /\ e ∈ sh_map s').
Proof.
  unfold insertResponsePacket. set (s := rpc_shard c index). destruct (rpc_shard_fine c tag h tcp Hok) as [Hc Hf]. fold s in Hc, Hf.
  destruct (List.find _ (hashed_range (sh_map s) tag h tcp)) as [e|] eqn:Hfind.
  - apply find_spec in Hfind as [[He Hfd]%elem_of_range [[Ht%Z.eqb_eq Hcl%Z.eqb_eq]%andb_true_iff Hne]%andb_true_iff].
    set (e' := replace_entry e query response now ttl valState pbdata ecsInfo).
    assert (modify_entry e e' (moveCacheItemToBack (same_entry e) (sh_map s)) ≡ₚ modify_entry e e' (sh_map s)) as Hperm
      by apply modify_entry_perm, move_back_perm.
    eexists. split; [done|]. cbn [put_content sh_shardSize]. split; [done|]. split; [|split].
    + split; [unfold counted in *; cbn; rewrite Hc; unfold zlen; rewrite Hperm; unfold modify_entry; by rewrite length_map|].
      cbn. eapply fine_perm; [exact Hperm|]. by apply modify_fine.
    + cbn. unfold zlen. rewrite Hperm. unfold modify_entry. rewrite length_map. lia.
    + intros _. exists e'. split; [|cbn; rewrite Hperm; apply (elem_of_modify _ _ _ _ _ _ Hf He); by left].
      assert (name_eqb n (e_name e) = true) as Hne'.
      { apply name_eqb_key; [done| |symmetry; apply name_eqb_key; [|done|done]]; by apply (fine_entry _ _ _ e Hf). }
      unfold is_inserted. destruct Hfd as (Hfd1 & Hfd2 & Hfd3). split; [by split_and!|]. split; [by split_and!|].
      do 6 (split; [done|]). unfold stored_pbdata. cbn. destruct pbdata; [by left|]. right. split; [done|]. exists e.
      split_and!; try done. apply (filed_in_shard c tag h tcp e Hok); done.
  - set (entry := mkEntry n _ _ _ _ _ _ _ _ _ _ _ _ _).
    assert (is_inserted entry) as Hnew by (unfold is_inserted, filed, stored_pbdata; cbn; split_and!; try done; [by apply name_eqb_key|by left]).
    assert (entries_fine (zlen c) (combine tag h tcp mod zlen c) (sh_map s ++ [entry])) as Hf'.
    { apply append_fine; [done|done|done|]. intros x Hin Hx. destruct (fine_entry _ _ _ x Hf Hin) as [Hxn _].
      assert (x ∈ hashed_range (sh_map s) tag h tcp) as Hr by (apply elem_of_range; split; [done|]; unfold e_key, filed in *; cbn in Hx; by simplify_eq).
      apply list_elem_of_In in Hr. pose proof (find_none _ _ Hfind x Hr) as Hno. cbn in Hno. unfold e_key in Hx. injection Hx as _ _ _ Hnk Htk Hck.
      apply not_true_iff_false in Hno. apply Hno. rewrite Htk, Hck, !Z.eqb_refl. by apply name_eqb_key. }
    assert (zlen (sh_map s ++ [entry]) = zlen (sh_map s) + 1) as Hlen by (rewrite zlen_app; done). pose proof (zlen_nonneg (sh_map s)).
    unfold counted in Hc. destruct (Z.ltb_spec (sh_shardSize s) (zlen (sh_map s ++ [entry]))) as [Hlt|Hge]; rewrite Hlen in *.
    + eexists. split; [done|]. cbn [put_content sh_shardSize sh_map sh_content d_map]. split; [done|]. split; [|split].
      * split; [unfold counted; cbn [d_map d_entriesCount put_content sh_content]; rewrite zlen_zdrop by lia; unfold sh_map in *; lia|].
        cbn [put_content sh_shardSize sh_map sh_content d_map]. eapply fine_sublist; [|exact Hf']. apply sublist_drop.
      * rewrite zlen_zdrop, Hlen by lia. lia.
      * intros Hsize. exists entry. split; [done|].
        destruct (sh_map s) as [|x l]; [rewrite zlen_nil in *; lia|]. cbn. set_solver.
    + eexists. split; [done|]. cbn [put_content sh_shardSize sh_map sh_content d_map]. split; [done|]. split; [|split].
      * split; [unfold counted; cbn [d_map d_entriesCount put_content sh_content]; unfold sh_map in *; lia|done].
      * lia.
      * intros _. exists entry. split; [done|]. set_solver.
Qed.
End insertion.

Lemma put_shard c tag h tcp s : c <> [] ->
  let c' := <[rpc_getMap c tag h tcp := s]> c in rpc_shard c' (rpc_getMap c' tag h tcp) = s /\ zlen c' = zlen c.
Proof.
  intros Hne c'. assert (zlen c' = zlen c) as Hl by (unfold zlen, c'; by rewrite length_insert). split; [|done].
  unfold rpc_shard, rpc_getMap at 1. rewrite Hl. fold (rpc_getMap c tag h tcp). unfold c'.
  destruct (rpc_index c tag h tcp Hne) as [_ [x Hx]]. apply lookup_lt_Some in Hx. by rewrite list_lookup_insert_eq.
Qed.

Lemma ztake_app_ge (s t : bytes) n : zlen s <= n -> ztake n (s ++ t) = s ++ ztake (n - zlen s) t.
Proof. unfold ztake, zlen. intros Hn. rewrite take_app_ge by lia. do 2 f_equal. lia. Qed.

(** The response as it leaves: id and name are those of the query, the rest is that
    of the packet. *)
Lemma patch_response_spec q n packet :
  asks q n -> 12 + wirelength n < zlen packet ->
  patch_response q n packet = ztake 2 q ++ zsub packet 2 10 ++ d_storage n ++ zdrop (12 + wirelength n) packet.
Proof.
  intros Ha Hl. pose proof (ask_header _ _ Ha). assert (0 <= wirelength n) by (unfold wirelength; apply zlen_nonneg).
  unfold patch_response, sizeof_header.
  assert (zlen (ztake 2 q) = 2) as H2 by (rewrite zlen_ztake; lia).
  rewrite (proj2 (Z.ltb_lt _ _)) by (rewrite zlen_app, zlen_zdrop, H2 by lia; lia).
  assert (ztake 12 (ztake 2 q ++ zdrop 2 packet) = ztake 2 q ++ zsub packet 2 10) as ->.
  { rewrite ztake_app_ge by lia. by rewrite H2. }
  assert (zsub q 12 (wirelength n) = d_storage n) as ->.
  { unfold zsub. rewrite (ask_packet _ _ Ha), ztake_app; [done|by unfold wirelength]. }
  assert (zdrop (12 + wirelength n) (ztake 2 q ++ zdrop 2 packet) = zdrop (12 + wirelength n) packet) as ->.
  { rewrite zdrop_app_ge, zdrop_zdrop by lia. f_equal. lia. }
  by rewrite <- !app_assoc.
Qed.

(** C34: what was put into the cache is found by the queries that match: after a
    response was inserted for a query, a query for the same question that matches it
    gets, until the response expires, that response with its own id and name, its age
    and the data stored with it; when no protobuf data came with the response, the
    data of an entry that it replaced may be there still.  Shards hold one entry at
    least; where [char] is signed, the record length of the query has a low byte below
    128, since [hashAfterQname] misreads the others. *)
Theorem insert_then_lookup c tag query q n n' qtype qclass response now now' ttl valState pbdata tcp ecsInfo h :
  rpc_ok c -> Forall (fun s => 1 <= sh_shardSize s) c ->
  bytes_ok query -> bytes_ok q -> asks query n' -> asks q n -> name_eqb n' n = true ->
  char_signed = false \/ byte_at q (12 + wirelength n + 14) < 128 ->
  queryMatches query q n s_skipOptions = Ok true -> canHashPacket char_signed query s_skipOptions = Ok h ->
  now' < now + ttl -> 12 + wirelength n < zlen response ->
  let c' := insertResponsePacket c tag h query n' qtype qclass response now ttl valState pbdata tcp ecsInfo in
  exists r pb, getResponsePacket char_signed ttlperc c' tag q n qtype qclass now' tcp = Ok r
    /\ gp_response r = Some (mkResponse (ztake 2 q ++ zsub response 2 10 ++ d_storage n ++ zdrop (12 + wirelength n) response)
                              (u32 (now' - now)) valState pb ecsInfo)
    /\ stored_pbdata c tag h n' qtype qclass pbdata tcp pb.
Proof.
  intros Hok Hsizes Hqb Hq Ha' Ha Hnn Hchar Hm Hh Hnow Hlong c'. rewrite <- patch_response_spec by done.
  destruct (insert_put c tag h query n' qtype qclass response now ttl valState pbdata tcp ecsInfo Hok (ask_name _ _ Ha') Hqb)
    as (s' & Hc' & _ & Hfine & _ & Hin). fold c' in Hc'.
  assert (rpc_ok c') as Hok' by (rewrite Hc'; by apply rpc_ok_insert).
  destruct Hin as (e & (Hfd & (Hne & Ht & Hcl) & He & Hpk & Httd & Hcr & Hv & Hecs & Hpb) & Hin).
  { destruct (rpc_index c tag h tcp (proj1 Hok)) as [_ [s Hs]]. unfold rpc_shard. rewrite Hs. rewrite Forall_forall in Hsizes.
    apply Hsizes. by eapply list_elem_of_lookup_2. }
  assert (e ∈ rpc_entries c') as Hall.
  { apply (filed_in_shard c' tag h tcp e Hok' Hfd). rewrite Hc', (proj1 (put_shard c tag h tcp s' (proj1 Hok))). done. }
  assert (canHashPacket char_signed q s_skipOptions = Ok h) as Hhq.
  { rewrite <- Hh. symmetry. apply (matching_queries_same_hash char_signed query q n n'); [done..|destruct Hchar; auto|done]. }
  destruct (getResponsePacket_eval c' tag q n qtype qclass now' tcp h Hok' Hq Ha Hhq) as [tasks Hg]. eexists _, (e_pbdata e). split; [exact Hg|]. split; [|exact Hpb].
  cbn [gp_response]. assert (lookup_found c' tag h tcp q n qtype qclass = Some e) as ->.
  { apply lookup_found_spec; [done|by apply Ha|]. split; [done|]. unfold matches_query. rewrite He, Ht, Hcl, !Z.eqb_refl, Hm.
    rewrite bool_decide_eq_true_2 by done. apply name_eqb_spec in Hnn, Hne.
    rewrite (proj2 (name_eqb_spec n (e_name e))) by congruence. done. }
  rewrite (proj2 (Z.ltb_lt _ _)) by lia. unfold response_of. rewrite Hpk, Hcr, Hv, Hecs by done. done.
Qed.

(** ** Wiping *)

(** The entries a wipe is to remove. *)
Definition wiped (name : DNSName) (qtype : Z) (subtree : bool) e : bool :=
  (if subtree then in_subtree e_name name e else at_name e_name name e) && ((qtype =? 65535) || (e_type e =? qtype)).

Lemma e_leb_le a b : named (e_name a) -> named (e_name b) -> if e_leb a b then name_le e_name a b else name_le e_name b a.
Proof.
  intros Ha Hb. unfold e_leb, name_le. destruct (canonCompare (e_name b) (e_name a) false) eqn:Hc; cbn [negb].
  - apply canonCompare_key in Hc; [|done..]. apply kle_cases. by left.
  - apply not_true_iff_false in Hc. rewrite canonCompare_key in Hc by done. by apply knlt_le.
Qed.

Definition shard_without (which : Entry -> bool) s : Shard :=
  put_content (mkMap (List.filter (fun e => negb (which e)) (sh_map s)) (d_entriesCount (sh_content s) - zlen (List.filter which (sh_map s)))) s.

Lemma wipe_shard_exact count i name qtype subtree s :
  named name -> shard_fine count i s ->
  wipe_shard name qtype subtree s = Ok (shard_without (wiped name qtype subtree) s, zlen (List.filter (wiped name qtype subtree) (sh_map s))).
Proof.
  intros Hname [_ Hf]. unfold wipe_shard. assert (all_named e_name (sh_map s)) as Hn.
  { apply Forall_forall. intros e He. by destruct (fine_entry _ _ _ e Hf He). }
  rewrite (erase_range_exact e_name _ e_leb_le name Hname (if subtree then in_subtree e_name name else at_name e_name name)); [| | |done| |].
  - cbn [mbind result_bind]. rewrite Z.add_0_l. by destruct subtree.
  - destruct subtree; [by apply subtree_range|by apply name_range].
  - intros e He. destruct subtree; [by apply isPartOf_key|]. f_equal. apply eq_true_iff_eq. rewrite name_eqb_key by done.
    unfold at_name. by rewrite bool_decide_eq_true.
  - intros e x He Hx Hs. by apply (fine_same _ _ _ _ _ Hf He Hx) in Hs as <-.
  - intros e He. by apply (fine_same _ _ _ _ _ Hf He He).
Qed.

(** What fewer entries leave of a shard. *)
Lemma without_fine count i which s : shard_fine count i s -> shard_fine count i (shard_without which s).
Proof.
  intros [Hc Hf]. split; [|eapply fine_sublist; [apply filter_sublist|exact Hf]]. unfold counted in *.
  cbn [shard_without put_content sh_content d_map d_entriesCount]. rewrite filter_both_zlen. unfold sh_map. lia.
Qed.

Lemma rpc_ok_map c (f : Shard -> Shard) :
  rpc_ok c -> (forall count i s, shard_fine count i s -> shard_fine count i (f s)) -> rpc_ok (map f c).
Proof.
  intros [Hne Hok] Hf. split; [by destruct c|]. intros i s' (s & -> & Hs)%list_lookup_fmap_Some. unfold zlen. rewrite length_map. by apply Hf, Hok.
Qed.

Lemma doWipe_loop name qtype subtree c count0 : named name -> Forall (fun s => exists count i, shard_fine count i s) c ->
  doWipePacketCache name qtype subtree c count0
  = Ok (map (shard_without (wiped name qtype subtree)) c, count0 + zlen (List.filter (wiped name qtype subtree) (rpc_entries c))).
Proof.
  intros Hname Hf. revert count0. induction Hf as [|s c (count & i & Hs) Hf IH]; intros count0; cbn [doWipePacketCache].
  { cbn. by rewrite Z.add_0_r. }
  rewrite (wipe_shard_exact count i) by done. cbn [mbind result_bind]. rewrite IH. cbn [mbind result_bind map].
  change (rpc_entries (s :: c)) with (sh_map s ++ rpc_entries c). rewrite List.filter_app, zlen_app. do 2 f_equal. lia.
Qed.

Lemma rpc_ok_each c : rpc_ok c -> Forall (fun s => exists count i, shard_fine count i s) c.
Proof. intros [_ Hok]. apply Forall_forall. intros s [i Hi]%list_elem_of_lookup. eauto. Qed.

Lemma without_entries which c : rpc_entries (map (shard_without which) c) = List.filter (fun e => negb (which e)) (rpc_entries c).
Proof.
  induction c as [|s c IH]; [done|]. change (rpc_entries (s :: c)) with (sh_map s ++ rpc_entries c). by rewrite List.filter_app, <- IH.
Qed.

Lemma rpc_size_entries c : rpc_ok c -> rpc_size c = zlen (rpc_entries c).
Proof.
  intros [_ Hok]. assert (Forall (fun s => counted (sh_content s)) c) as Hc.
  { apply Forall_forall. intros s [i Hi]%list_elem_of_lookup. by destruct (Hok i s Hi). }
  clear Hok. induction Hc as [|s c Hs Hc IH]; [done|]. change (rpc_entries (s :: c)) with (sh_map s ++ rpc_entries c).
  rewrite zlen_app, <- IH. cbn [rpc_size foldr]. rewrite Hs. done.
Qed.

(** wiping a name, or a subtree, of one type or of all, removes exactly the
    entries meant from all shards and reports their number: with [subtree] those whose
    name is the name or below it, else those of the name, without regard to case. *)
Theorem doWipePacketCache_exact c name qtype subtree :
  rpc_ok c -> named name ->
  exists c' count, doWipePacketCache name qtype subtree c 0 = Ok (c', count)
    /\ rpc_ok c' /\ rpc_size c' = rpc_size c - count
    /\ rpc_entries c' = List.filter (fun e => negb (wiped name qtype subtree e)) (rpc_entries c)
    /\ count = zlen (List.filter (wiped name qtype subtree) (rpc_entries c)).
Proof.
  intros Hok Hname. rewrite doWipe_loop by (done || by apply rpc_ok_each). do 2 eexists. split; [done|].
  assert (rpc_ok (map (shard_without (wiped name qtype subtree)) c)) as Hok' by (apply rpc_ok_map; [done|intros; by apply without_fine]).
  split_and!; [done| |apply without_entries|lia]. rewrite !rpc_size_entries, without_entries, filter_both_zlen by done. lia.
Qed.

(** ** Every history *)

(** A lookup that returns leaves the shard with the entries it had. *)
Lemma checkResponseMatches_fine count i s range q n qtype qclass now r :
  shard_fine count i s -> (forall e, e ∈ range -> e ∈ sh_map s) ->
  checkResponseMatches ttlperc s range q n qtype qclass now = Ok r ->
  shard_fine count i (l_shard r) /\ zlen (sh_map (l_shard r)) = zlen (sh_map s) /\ sh_shardSize (l_shard r) = sh_shardSize s.
Proof.
  intros Hs. induction range as [|e range IH]; intros Hin; cbn [checkResponseMatches]; [by intros [= <-]|].
  destruct (qrMatch e q n qtype qclass) as [b|x]; cbn [mbind result_bind]; [|done]. destruct b; cbn [negb].
  - destruct (now <? e_ttd e); intros [= <-]; [|done]. cbn [l_shard]. pose proof (hit_shard_fine _ _ s e qtype now Hs (Hin e (list_elem_of_here _ _))) as Hh.
    split; [exact Hh|]. split; [|done]. unfold sh_map at 1. cbn [sh_content d_map]. unfold zlen. rewrite move_back_perm. unfold modify_entry. by rewrite length_map.
  - intros Hr. apply IH; [|done]. intros x Hx. apply Hin. by right.
Qed.

(** Every shard is within [limit], and configured to be. *)
Definition within (limit : Z) c : Prop := Forall (fun s => zlen (sh_map s) <= limit /\ sh_shardSize s <= limit) c.

Context `{HQ : !Quotas}.

(** One call of an operation, other than changing the size. *)
Inductive rpc_step c : list Shard -> Prop :=
| step_insert tag h query n qtype qclass response now ttl valState pbdata tcp ecsInfo :
    named n -> bytes_ok query ->
    rpc_step c (insertResponsePacket c tag h query n qtype qclass response now ttl valState pbdata tcp ecsInfo)
| step_lookup tag q n qtype qclass now tcp r :
    getResponsePacket char_signed ttlperc c tag q n qtype qclass now tcp = Ok r -> rpc_step c (gp_cache r)
| step_lookup_parse tag q now tcp r :
    getResponsePacket_parse char_signed ttlperc c tag q now tcp = Ok r -> rpc_step c (gp_cache (fst r))
| step_wipe_name name qtype subtree c' count :
    named name -> doWipePacketCache name qtype subtree c 0 = Ok (c', count) -> rpc_step c c'
| step_wipe_names names c' count :
    Forall named names -> doWipePacketCache_names names c 0 = Ok (c', count) -> rpc_step c c'
| step_prune_to now maxSize : 0 <= maxSize -> rpc_size c < 2 ^ 26 -> rpc_step c (doPruneTo now maxSize c).

(** Histories from the construction of a cache, with the largest size it was ever
    given. *)
Inductive rpc_reach (shards : Z) : Z -> list Shard -> Prop :=
| reach_make maxsize : 0 <= maxsize -> rpc_reach shards maxsize (rpc_make maxsize shards)
| reach_step limit c c' : rpc_reach shards limit c -> rpc_step c c' -> rpc_reach shards limit c'
| reach_resize limit c size : rpc_reach shards limit c -> 0 <= size -> rpc_reach shards (Z.max limit size) (setMaxSize size c).

(** What a step keeps. *)
Definition kept (limit : Z) c c' : Prop := rpc_ok c' /\ within limit c' /\ zlen c' = zlen c.

Lemma put_kept limit c tag h tcp s :
  rpc_ok c -> within limit c -> shard_fine (zlen c) (combine tag h tcp mod zlen c) s ->
  zlen (sh_map s) <= limit -> sh_shardSize s <= limit -> kept limit c (<[rpc_getMap c tag h tcp := s]> c).
Proof.
  intros Hok Hw Hs H1 H2. split_and!; [by apply rpc_ok_insert|by apply Forall_insert|unfold zlen; by rewrite length_insert].
Qed.

Lemma shard_within limit c tag h tcp : rpc_ok c -> within limit c ->
  zlen (sh_map (rpc_shard c (rpc_getMap c tag h tcp))) <= limit /\ sh_shardSize (rpc_shard c (rpc_getMap c tag h tcp)) <= limit.
Proof.
  intros [Hne _] Hw. destruct (rpc_index c tag h tcp Hne) as [_ [s Hs]]. unfold rpc_shard. rewrite Hs. unfold within in Hw.
  rewrite Forall_forall in Hw. apply Hw. by eapply list_elem_of_lookup_2.
Qed.

Lemma insert_kept limit c tag h query n qtype qclass response now ttl valState pbdata tcp ecsInfo :
  rpc_ok c -> within limit c -> named n -> bytes_ok query ->
  kept limit c (insertResponsePacket c tag h query n qtype qclass response now ttl valState pbdata tcp ecsInfo).
Proof.
  intros Hok Hw Hn Hq. destruct (shard_within limit c tag h tcp Hok Hw) as [H1 H2].
  destruct (insert_put c tag h query n qtype qclass response now ttl valState pbdata tcp ecsInfo Hok Hn Hq) as (s & -> & Hsz & Hs & Hl & _).
  apply put_kept; [done..|lia|lia].
Qed.

Lemma range_kept limit c tag h tcp q n qtype qclass now r :
  rpc_ok c -> within limit c ->
  let s := rpc_shard c (rpc_getMap c tag h tcp) in
  checkResponseMatches ttlperc s (hashed_range (sh_map s) tag h tcp) q n qtype qclass now = Ok r ->
  kept limit c (<[rpc_getMap c tag h tcp := l_shard r]> c).
Proof.
  intros Hok Hw s Hr. destruct (shard_within limit c tag h tcp Hok Hw) as [H1 H2]. fold s in H1, H2.
  apply (checkResponseMatches_fine _ _ s _ _ _ _ _ _ _ (rpc_shard_fine c tag h tcp Hok)) in Hr as (H3 & H4 & H5);
    [|by intros e [? _]%elem_of_range]. apply put_kept; [done..|lia|lia].
Qed.

Lemma miss_kept limit c tag h tcp :
  rpc_ok c -> within limit c -> kept limit c (<[rpc_getMap c tag h tcp := count_miss (rpc_shard c (rpc_getMap c tag h tcp))]> c).
Proof.
  intros Hok Hw. destruct (shard_within limit c tag h tcp Hok Hw) as [H1 H2]. apply put_kept; [done..| |done|done].
  exact (rpc_shard_fine c tag h tcp Hok).
Qed.

Lemma lookup_kept limit c tag q n qtype qclass now tcp r :
  rpc_ok c -> within limit c -> getResponsePacket char_signed ttlperc c tag q n qtype qclass now tcp = Ok r -> kept limit c (gp_cache r).
Proof.
  intros Hok Hw. unfold getResponsePacket. destruct (canHashPacket _ _ _) as [h|x]; cbn [mbind result_bind]; [|done].
  pose proof (range_kept limit c tag h tcp q n qtype qclass now) as Hk. cbn zeta in Hk.
  destruct (hashed_range _ _ _ _) as [|e range]; [intros [= <-]; by apply miss_kept|].
  destruct (checkResponseMatches _ _ _ _ _ _ _ _) as [l|x]; cbn [mbind result_bind]; [|done]. intros [= <-]. by apply Hk.
Qed.

Lemma lookup_parse_kept limit c tag q now tcp r :
  rpc_ok c -> within limit c -> getResponsePacket_parse char_signed ttlperc c tag q now tcp = Ok r -> kept limit c (gp_cache (fst r)).
Proof.
  intros Hok Hw. unfold getResponsePacket_parse. destruct (canHashPacket _ _ _) as [h|x]; cbn [mbind result_bind]; [|done].
  pose proof (fun n qtype qclass => range_kept limit c tag h tcp q n qtype qclass now) as Hk. cbn zeta in Hk.
  destruct (hashed_range _ _ _ _) as [|e range]; [intros [= <-]; by apply miss_kept|].
  destruct (DNSName_from_wire _ _ _ _ _ _ _ _) as [w|x]; cbn [mbind result_bind]; [|done].
  destruct (checkResponseMatches _ _ _ _ _ _ _ _) as [l|x] eqn:Hl; cbn [mbind result_bind]; [|done]. intros [= <-]. by eapply Hk.
Qed.

Lemma without_kept limit c which : rpc_ok c -> within limit c -> kept limit c (map (shard_without which) c).
Proof.
  intros Hok Hw. split_and!; [apply rpc_ok_map; [done|]; intros; by apply without_fine| |unfold zlen; by rewrite length_map].
  apply Forall_fmap. eapply Forall_impl; [exact Hw|]. intros s [H1 H2]. split; [|done]. cbn.
  pose proof (sublist_length _ _ (filter_sublist (fun e => negb (which e)) (sh_map s))). unfold zlen in *. unfold sh_map in *. cbn. lia.
Qed.

Lemma wipe_kept limit c name qtype subtree count0 c' count :
  rpc_ok c -> within limit c -> named name -> doWipePacketCache name qtype subtree c count0 = Ok (c', count) -> kept limit c c'.
Proof. intros Hok Hw Hn. rewrite doWipe_loop by (done || by apply rpc_ok_each). intros [= <- _]. by apply without_kept. Qed.

Lemma kept_trans limit a b c : kept limit a b -> (rpc_ok b -> within limit b -> kept limit b c) -> kept limit a c.
Proof. intros (H1 & H2 & H3) Hbc. destruct (Hbc H1 H2) as (H4 & H5 & H6). split_and!; [done|done|lia]. Qed.

Lemma chopOff_named n base chopped : named n -> chopOff n = (base, chopped) -> chopped = true -> named base.
Proof.
  intros [ls Hl] Hc ->. destruct ls as [|l ls]; [rewrite (chopOff_root _ Hl) in Hc; by injection Hc|].
  apply chopOff_represents in Hl as (n' & Hc' & Hl). exists ls. rewrite Hc' in Hc. by injection Hc as <-.
Qed.

Lemma wipe_names_kept limit names : forall c count0 c' count,
  rpc_ok c -> within limit c -> Forall named names -> doWipePacketCache_names names c count0 = Ok (c', count) -> kept limit c c'.
Proof.
  induction names as [|n names IH]; intros c count0 c' count Hok Hw Hn; cbn [doWipePacketCache_names]; [by intros [= <- _]|].
  apply Forall_cons in Hn as [Hn Hns]. set (r := if isWildcard n then _ else _). destruct r as [[c1 k]|x] eqn:Hr; cbn [mbind result_bind]; [|done].
  intros Hrest. apply (kept_trans limit c c1); [|intros Hok1 Hw1; by eapply IH]. subst r. destruct (isWildcard n); [|by eapply wipe_kept].
  destruct (chopOff n) as [base chopped] eqn:Hc. destruct chopped; [|by injection Hr as <- _]. eapply wipe_kept; [done|done| |exact Hr]. by eapply chopOff_named.
Qed.

Lemma rpc_size_total c : rpc_size c = total_count (map sh_content c).
Proof. induction c as [|s c IH]; [done|]. cbn [rpc_size foldr map total_count]. by rewrite <- IH. Qed.

Lemma zip_kept limit c P maps :
  rpc_ok c -> within limit c -> Forall2 (left_of P) (map sh_content c) maps -> kept limit c (zip_with put_content maps c).
Proof.
  intros [Hne Hok] Hw Hl. pose proof (Forall2_length _ _ _ Hl) as Hlen. rewrite length_map in Hlen.
  assert (zlen (zip_with put_content maps c) = zlen c) as Hz by (unfold zlen; rewrite length_zip_with; lia).
  assert (forall i s', zip_with put_content maps c !! i = Some s' ->
    exists s, c !! i = Some s /\ counted (sh_content s') /\ sh_map s' `sublist_of` sh_map s /\ sh_shardSize s' = sh_shardSize s) as Heach.
  { intros i s' Hi. apply lookup_zip_with_Some in Hi as (m & s & -> & Hm & Hs). exists s.
    destruct (Forall2_lookup_r _ _ _ _ _ Hl Hm) as (m0 & Hm0 & Hc & Hsub & _). rewrite list_lookup_fmap, Hs in Hm0. injection Hm0 as <-. done. }
  split_and!; [|apply Forall_forall|done].
  - split; [intros E; rewrite E in Hz; destruct c; [done|rewrite zlen_nil, zlen_cons in Hz; pose proof (zlen_nonneg c); lia]|].
    intros i s' Hi. destruct (Heach i s' Hi) as (s & Hs & Hc & Hsub & _). rewrite Hz. split; [done|]. eapply fine_sublist; [exact Hsub|]. by apply Hok.
  - intros s' [i Hi]%list_elem_of_lookup. destruct (Heach i s' Hi) as (s & Hs & _ & Hsub & ->). unfold within in Hw. rewrite Forall_forall in Hw.
    destruct (Hw s) as [H1 H2]; [by eapply list_elem_of_lookup_2|]. split; [|done]. apply sublist_length in Hsub. unfold zlen in *. lia.
Qed.

Lemma step_kept limit c c' : rpc_step c c' -> rpc_ok c -> within limit c -> kept limit c c'.
Proof.
  intros Hstep Hok Hw. destruct Hstep.
  - by apply insert_kept.
  - by eapply lookup_kept.
  - by eapply lookup_parse_kept.
  - by eapply wipe_kept.
  - by eapply wipe_names_kept.
  - unfold doPruneTo. destruct (pruneMutexCollectionsVector _ _ _ _) as [maps k] eqn:Hp. cbn [fst]. rewrite rpc_size_total in *.
    apply prune_bounded in Hp as (Hl & _); [by eapply zip_kept| |done|done]. destruct Hok as [_ Hok].
    apply Forall_fmap, Forall_forall. intros s [i Hi]%list_elem_of_lookup. by destruct (Hok i s Hi).
Qed.

Lemma within_entries limit c : within limit c -> zlen (rpc_entries c) <= limit * zlen c.
Proof.
  induction 1 as [|s c [Hs _] Hc IH]; [change (0 <= limit * 0); lia|]. change (rpc_entries (s :: c)) with (sh_map s ++ rpc_entries c). rewrite zlen_app, zlen_cons. lia.
Qed.

Lemma resize_kept limit c size :
  rpc_ok c -> within limit c -> Z.max size (zlen c) / zlen c <= limit -> kept limit c (setMaxSize size c).
Proof.
  intros Hok Hw Hl. unfold setMaxSize, setShardSizes. replace (if size <? zlen c then zlen c else size) with (Z.max size (zlen c))
    by (destruct (Z.ltb_spec size (zlen c)); lia).
  split_and!; [apply rpc_ok_map; [done|by intros count i s Hs]|apply Forall_fmap; eapply Forall_impl; [exact Hw|]; by intros s [? ?]|unfold zlen; by rewrite length_map].
Qed.

Lemma make_fine maxsize shards : 0 < shards -> 0 <= maxsize -> kept (Z.max maxsize shards / shards) (replicate (Z.to_nat shards) empty_shard) (rpc_make maxsize shards).
Proof.
  intros Hs Hm. assert (zlen (replicate (Z.to_nat shards) empty_shard) = shards) as Hl by (unfold zlen; rewrite length_replicate; lia).
  assert (0 <= Z.max maxsize shards / shards) by (apply Z.div_pos; lia). apply resize_kept; [| |by rewrite Hl].
  - split; [intros E; rewrite E in Hl; rewrite zlen_nil in Hl; lia|]. intros i s [-> _]%lookup_replicate. split; [done|]. split; constructor.
  - apply Forall_forall. intros s ->%elem_of_replicate_inv. cbn. rewrite zlen_nil. lia.
Qed.

Lemma reach_kept shards limit c :
  0 < shards -> rpc_reach shards limit c -> 0 <= limit /\ rpc_ok c /\ within (Z.max limit shards / shards) c /\ zlen c = shards.
Proof.
  intros Hs. induction 1 as [maxsize Hm|limit c c' _ (Hl & Hok & Hw & Hz) Hstep|limit c size _ (Hl & Hok & Hw & Hz) Hsize].
  - destruct (make_fine maxsize shards Hs Hm) as (H1 & H2 & H3). split_and!; [done..|]. rewrite H3. unfold zlen. rewrite length_replicate. lia.
  - destruct (step_kept _ c c' Hstep Hok Hw) as (H1 & H2 & H3). split_and!; [done..|lia].
  - destruct (resize_kept (Z.max (Z.max limit size) shards / shards) c size Hok) as (H1 & H2 & H3); [|rewrite Hz; apply Z.div_le_mono; lia|].
    + eapply Forall_impl; [exact Hw|]. intros s [H1 H2]. assert (Z.max limit shards / shards <= Z.max (Z.max limit size) shards / shards) by (apply Z.div_le_mono; lia). lia.
    + split_and!; [lia|done|done|lia].
Qed.

(** C35: whatever is inserted, looked up, wiped, pruned and resized, the cache never
    holds more than the largest size it was given, or, where that is more, as many
    entries as it has shards: [setMaxSize] raises a smaller size to their number.
    [size()] counts its entries, each question has at most one entry for a tag, hash
    and transport, and each entry is in the shard where it is looked for. *)
Theorem rpc_invariant shards limit c :
  0 < shards -> rpc_reach shards limit c ->
  rpc_size c = zlen (rpc_entries c) /\ rpc_size c <= Z.max limit shards
  /\ forall e, e ∈ rpc_entries c ->
       e ∈ sh_map (rpc_shard c (rpc_getMap c (e_tag e) (e_qhash e) (e_tcp e)))
       /\ forall e', e' ∈ rpc_entries c -> same_entry e e' = true -> e = e'.
Proof.
  intros Hs Hr. destruct (reach_kept shards limit c Hs Hr) as (Hl & Hok & Hw & Hz). rewrite (rpc_size_entries c Hok).
  split_and!; [done| |].
  - pose proof (within_entries _ _ Hw) as Hle. rewrite Hz in Hle. pose proof (Z.mul_div_le (Z.max limit shards) shards Hs). lia.
  - intros e He. assert (filed (e_tag e) (e_qhash e) (e_tcp e) e) as Hf by done. rewrite (filed_in_shard c _ _ _ e Hok Hf) in He. split; [done|].
    intros e' He' Hse. destruct (rpc_shard_fine c (e_tag e) (e_qhash e) (e_tcp e) Hok) as [_ Hfine].
    apply (fine_same _ _ _ e e' Hfine He); [|done]. apply (filed_in_shard c _ _ _ e' Hok); [|done].
    unfold same_entry in Hse. rewrite !andb_true_iff, !Z.eqb_eq, Bool.eqb_true_iff in Hse. unfold filed. naive_solver.
Qed.
End spec.

(** ** Examples *)

Module recpacketcache_example.
Import packetcache_example.

(** Some mixing of the hashes, and the hashed index in the order of the sequence. *)
#[local] Instance some_index : PacketCacheIndex.
Proof.
  refine {| combine tag hash tcp := (tag * 65599 + hash * 31 + if tcp then 1 else 0) mod 2 ^ 64;
            hashed_range l tag hash tcp := List.filter (fun e => (e_tag e =? tag) && (e_qhash e =? hash) && Bool.eqb (e_tcp e) tcp) l |}.
  - intros. by apply Z.mod_pos_bound.
  - done.
Defined.

Definition answer (id : Z) : bytes := be16 id ++ [129; 128; 0; 1; 0; 1; 0; 0; 0; 0] ++ d_storage upper ++ [0; 1; 0; 1] ++ [192; 12; 0; 1; 0; 1; 0; 0; 14; 16; 0; 4; 10; 0; 0; 1].
Definition h : Z := match canHashPacket true cached s_skipOptions with Ok h => h | Throw _ => 0 end.
Definition pb : PBData := mkPB [1] [2] false.
Definition fresh : list Shard := rpc_make 100 4.
Definition filled : list Shard := insertResponsePacket fresh 5 h cached upper 1 1 (answer 7) 1000 3600 Secure (Some pb) false (0, 0).

Lemma fresh_ok : rpc_ok fresh.
Proof. apply (make_fine 100 4); lia. Qed.

Lemma filled_ok : rpc_ok filled.
Proof.
  apply (insert_kept (Z.max 100 4 / 4)); [exact fresh_ok|apply (make_fine 100 4); lia|exact (ask_name _ _ cached_asks)|by_decide].
Qed.

Lemma insert_then_lookup_witness :
  exists r, getResponsePacket true 10 filled 5 query lower 1 1 1060 false = Ok r
    /\ gp_response r = Some (mkResponse (ztake 2 query ++ zsub (answer 7) 2 10 ++ d_storage lower ++ zdrop (12 + wirelength lower) (answer 7)) 60 Secure (Some pb) (0, 0)).
Proof.
  destruct (insert_then_lookup true 10 fresh 5 cached query lower upper 1 1 (answer 7) 1000 1060 3600 Secure (Some pb) false (0, 0) h)
    as (r & pb' & Hr & Hresp & Hpb); [..|exists r; split; [exact Hr|]; destruct Hpb as [->|[Hnone _]]; [exact Hresp|discriminate Hnone]].
  - exact fresh_ok.
  - apply Forall_forall. intros s Hs. vm_compute in Hs. repeat (apply elem_of_cons in Hs as [->|Hs]; [by vm_compute|]). by apply elem_of_nil in Hs.
  - by_decide.
  - by_decide.
  - exact cached_asks.
  - exact query_asks.
  - vm_compute. reflexivity.
  - right. vm_compute. reflexivity.
  - vm_compute. reflexivity.
  - vm_compute. reflexivity.
  - lia.
  - vm_compute. reflexivity.
Defined.

Lemma getResponsePacket_exact_witness :
  exists r, getResponsePacket true 10 filled 5 query lower 1 1 1060 false = Ok r /\ rpc_ok (gp_cache r).
Proof.
  destruct (getResponsePacket_exact true 10 filled 5 query lower 1 1 1060 false) as (r & Hr & _ & Hok & _);
    [exact filled_ok|by_decide|exact query_asks|]. exists r. split; [exact Hr|exact Hok].
Defined.

Lemma doWipePacketCache_exact_witness :
  exists c' count, doWipePacketCache (ex_name [bs "EXAMPLE"]) 65535 true filled 0 = Ok (c', count) /\ rpc_entries c' = [] /\ count = 1.
Proof.
  destruct (doWipePacketCache_exact filled (ex_name [bs "EXAMPLE"]) 65535 true) as (c' & count & Hw & _ & _ & He & Hc);
    [exact filled_ok|exists [bs "EXAMPLE"]; by_decide|]. exists c', count. split_and!; [exact Hw|rewrite He; vm_compute; reflexivity|rewrite Hc; vm_compute; reflexivity].
Defined.

Lemma rpc_invariant_witness : rpc_size filled = zlen (rpc_entries filled) /\ rpc_size filled <= 100.
Proof.
  destruct (rpc_invariant true 10 4 100 filled) as (H1 & H2 & _); [lia| |split; [exact H1|exact H2]].
  apply (reach_step true 10 4 100 fresh filled); [by apply reach_make|]. apply step_insert; [exact (ask_name _ _ cached_asks)|by_decide].
Defined.

(** a response that replaces another and comes without protobuf data keeps the
    data of the one it replaced, which a later hit returns with the new response. *)
Theorem replaced_keeps_old_pbdata :
  let c := insertResponsePacket filled 5 h query lower 1 1 (answer 8) 2000 60 Insecure None false (0, 0) in
  exists r response, getResponsePacket true 10 c 5 query lower 1 1 2010 false = Ok r /\ gp_response r = Some response
    /\ r_packet response = patch_response query lower (answer 8) /\ r_pbdata response = Some pb.
Proof. intros c. do 2 eexists. by vm_compute. Qed.
End recpacketcache_example.
