(* ===== verification/RecursorCache.v ===== *)
(** * The record cache of the recursor

    [pdns/recursordist/recursor_cache.cc], [recursor_cache.hh]: sets of records by name,
    type, routing tag and client network, in shards chosen by the hash of the name.
    The multi-index container of a shard is the list of its sequence index; an iterator
    is the key of its entry.  A shard also has the index of the client networks, one
    radix tree for each name and type, and the range that the last lookup found.
    Lookups run in the state monad, because what they change stays when they throw;
    the refresh tasks they push are part of the state. *)

From S2P Require Import Prelude Chars Dns Names NamesOrder NamesWire Validate IpUtils NetTree NetGroups.
From S2P Require Import NameIndex CacheCleaner TaskQueue.

#[local] Open Scope Z_scope.

(** [Flags]. *)
Definition RequireAuth : Z := 1.
Definition Refresh : Z := 2.
Definition ServeStale : Z := 4.
Definition ForcedRefresh : Z := 8.

Definition has_flag (flags flag : Z) : bool := negb (Z.land flags flag =? 0).

Definition NOTAG : bytes := [].

Definition s_staleExtensionPeriod : Z := 30.

(** [C] are the contents of records, [Sg] those of signatures, [Au] the authority
    records. *)
Record CacheEntry (C Sg Au : Type) : Type := mkCE {
  c_rtag : bytes;
  c_netmask : Netmask;
  c_from : ComboAddress;
  c_records : list C;
  c_qname : DNSName;
  c_authZone : DNSName;
  c_signatures : option (list Sg);
  c_authorityRecs : option (list Au);
  c_ttd : Z;
  c_orig_ttl : Z;
  c_servedStale : Z;
  c_qtype : Z;
  c_state : vState;
  c_auth : bool;
  c_submitted : bool;
  c_tooBig : bool;
  c_tcp : bool;
}.
Arguments mkCE {C Sg Au} _ _ _ _ _ _ _ _ _ _ _ _ _ _ _ _ _.
Arguments c_rtag {C Sg Au} _.
Arguments c_netmask {C Sg Au} _.
Arguments c_from {C Sg Au} _.
Arguments c_records {C Sg Au} _.
Arguments c_qname {C Sg Au} _.
Arguments c_authZone {C Sg Au} _.
Arguments c_signatures {C Sg Au} _.
Arguments c_authorityRecs {C Sg Au} _.
Arguments c_ttd {C Sg Au} _.
Arguments c_orig_ttl {C Sg Au} _.
Arguments c_servedStale {C Sg Au} _.
Arguments c_qtype {C Sg Au} _.
Arguments c_state {C Sg Au} _.
Arguments c_auth {C Sg Au} _.
Arguments c_submitted {C Sg Au} _.
Arguments c_tooBig {C Sg Au} _.
Arguments c_tcp {C Sg Au} _.

(** The static settings of the classes, and the sizes of objects. *)
Record cache_settings (C Sg Au : Type) : Type := {
  cs_maxServedStaleExtensions : Z;
  cs_maxRRSetSize : Z;
  cs_limitQTypeAny : bool;
  cs_maxEntrySize : Z;
  cs_refresh_ttlperc : Z;
  cs_locked_ttlperc : Z;
  cs_minimumTTL : Z;
  cs_maxcachettl : Z;
  cs_sizeof_entry : Z;
  cs_content_size : C -> Z;
  cs_signature_size : Sg -> Z;
  cs_record_size : Au -> Z;
}.
Arguments cs_maxServedStaleExtensions {C Sg Au} _.
Arguments cs_maxRRSetSize {C Sg Au} _.
Arguments cs_limitQTypeAny {C Sg Au} _.
Arguments cs_maxEntrySize {C Sg Au} _.
Arguments cs_refresh_ttlperc {C Sg Au} _.
Arguments cs_locked_ttlperc {C Sg Au} _.
Arguments cs_minimumTTL {C Sg Au} _.
Arguments cs_maxcachettl {C Sg Au} _.
Arguments cs_sizeof_entry {C Sg Au} _.
Arguments cs_content_size {C Sg Au} _.
Arguments cs_signature_size {C Sg Au} _.
Arguments cs_record_size {C Sg Au} _.

(** The unique key of an entry. *)
Record CacheKey : Type := mkKey { k_qname : DNSName; k_qtype : Z; k_rtag : bytes; k_netmask : Netmask }.

(** The client networks of a name and type. *)
Record ECSIndexEntry : Type := mkECS { x_qname : DNSName; x_qtype : Z; x_nmt : NetmaskTree Netmask bool }.

(** A shard: [LockedContent] with the count of its entries. *)
Record Content (C Sg Au : Type) : Type := mkContent {
  m_shard : MapCombo (CacheEntry C Sg Au);
  m_ecsIndex : list ECSIndexEntry;
  m_cachedqname : DNSName;
  m_cachedrtag : bytes;
  m_cachecache : list CacheKey;
  m_cachecachevalid : bool;
}.
Arguments mkContent {C Sg Au} _ _ _ _ _ _.
Arguments m_shard {C Sg Au} _.
Arguments m_ecsIndex {C Sg Au} _.
Arguments m_cachedqname {C Sg Au} _.
Arguments m_cachedrtag {C Sg Au} _.
Arguments m_cachecache {C Sg Au} _.
Arguments m_cachecachevalid {C Sg Au} _.

(** A record of a result. *)
Record found_record (C : Type) : Type := mkFound { fr_name : DNSName; fr_type : Z; fr_ttl : Z; fr_content : C }.
Arguments mkFound {C} _ _ _ _.
Arguments fr_name {C} _.
Arguments fr_type {C} _.
Arguments fr_ttl {C} _.
Arguments fr_content {C} _.

(** What [get] writes through its pointers. *)
Record Outputs (C Sg Au : Type) : Type := mkOut {
  o_res : list (found_record C);
  o_signatures : option (list Sg);
  o_authorityRecs : option (list Au);
  o_variable : bool;
  o_cachedState : option vState;
  o_state : option vState;
  o_wasAuth : bool;
  o_fromAuthZone : option DNSName;
  o_extra : option (ComboAddress * bool);
  o_origTTL : Z;
}.
Arguments mkOut {C Sg Au} _ _ _ _ _ _ _ _ _ _.
Arguments o_res {C Sg Au} _.
Arguments o_signatures {C Sg Au} _.
Arguments o_authorityRecs {C Sg Au} _.
Arguments o_variable {C Sg Au} _.
Arguments o_cachedState {C Sg Au} _.
Arguments o_state {C Sg Au} _.
Arguments o_wasAuth {C Sg Au} _.
Arguments o_fromAuthZone {C Sg Au} _.
Arguments o_extra {C Sg Au} _.
Arguments o_origTTL {C Sg Au} _.

(** The state of a lookup. *)
Record Lookup (C Sg Au : Type) : Type := mkLook {
  q_content : Content C Sg Au;
  q_tasks : list push_op;
  q_out : Outputs C Sg Au;
}.
Arguments mkLook {C Sg Au} _ _ _.
Arguments q_content {C Sg Au} _.
Arguments q_tasks {C Sg Au} _.
Arguments q_out {C Sg Au} _.

(** The order in which the hashed index lists the entries of a name and tag. *)
Class RangeIndex (C Sg Au : Type) : Type := {
  name_range_of : list (CacheEntry C Sg Au) -> DNSName -> bytes -> list (CacheEntry C Sg Au);
  name_range_of_spec : forall l qname rtag,
    name_range_of l qname rtag ≡ₚ List.filter (fun e => name_eqb (c_qname e) qname && bool_decide (c_rtag e = rtag)) l;
}.

Section cache.
Context {C Sg Au : Type} (cfg : cache_settings C Sg Au).
#[local] Abbreviation entry := (CacheEntry C Sg Au).
#[local] Abbreviation content := (Content C Sg Au).
#[local] Abbreviation lookup := (Lookup C Sg Au).
#[local] Abbreviation cache := (list (Content C Sg Au)).

(** ** Entries *)

Definition ce_isStale (now : Z) (e : entry) : bool :=
  if 0 <? cs_maxServedStaleExtensions cfg
  then c_ttd e + cs_maxServedStaleExtensions cfg * Z.min s_staleExtensionPeriod (c_orig_ttl e) <? now
  else c_ttd e <? now.

Definition ce_isEntryUsable (now : Z) (serveStale : bool) (e : entry) : bool :=
  (now <? c_ttd e) || serveStale || negb (c_servedStale e =? 0).

Definition sizes {A} (f : A -> Z) (l : list A) : Z := foldr (fun x n => f x + n) 0 l.

Definition ce_sizeEstimate (e : entry) : Z :=
  cs_sizeof_entry cfg + zlen (d_storage (c_qname e)) + zlen (d_storage (c_authZone e)) + sizes (cs_content_size cfg) (c_records e)
  + sizes (cs_record_size cfg) (default [] (c_authorityRecs e)) + sizes (cs_signature_size cfg) (default [] (c_signatures e)).

(** [CacheEntry(key, auth)]. *)
Definition ce_make (k : CacheKey) (auth : bool) : entry :=
  mkCE (k_rtag k) (getNormalized (k_netmask k)) ca_default [] (k_qname k) (mkDNSName []) None None 0 0 0 (k_qtype k)
    Indeterminate auth false false false.

Definition with_stale (ttd servedStale : Z) (e : entry) : entry :=
  mkCE (c_rtag e) (c_netmask e) (c_from e) (c_records e) (c_qname e) (c_authZone e) (c_signatures e) (c_authorityRecs e)
    ttd (c_orig_ttl e) servedStale (c_qtype e) (c_state e) (c_auth e) (c_submitted e) (c_tooBig e) (c_tcp e).

Definition with_submitted (b : bool) (e : entry) : entry :=
  mkCE (c_rtag e) (c_netmask e) (c_from e) (c_records e) (c_qname e) (c_authZone e) (c_signatures e) (c_authorityRecs e)
    (c_ttd e) (c_orig_ttl e) (c_servedStale e) (c_qtype e) (c_state e) (c_auth e) b (c_tooBig e) (c_tcp e).

Definition with_state (newState : vState) (capTTD : option Z) (e : entry) : entry :=
  mkCE (c_rtag e) (c_netmask e) (c_from e) (c_records e) (c_qname e) (c_authZone e) (c_signatures e) (c_authorityRecs e)
    (match capTTD with Some cap => Z.min (c_ttd e) cap | None => c_ttd e end)
    (c_orig_ttl e) (c_servedStale e) (c_qtype e) newState (c_auth e) (c_submitted e) (c_tooBig e) (c_tcp e).

(** ** Keys and indices *)

Definition key_of_entry (e : entry) : CacheKey := mkKey (c_qname e) (c_qtype e) (c_rtag e) (c_netmask e).

(** What the ordered index takes for the same key. *)
Definition key_eqb (a b : CacheKey) : bool :=
  name_eqb (k_qname a) (k_qname b) && (k_qtype a =? k_qtype b) && bool_decide (k_rtag a = k_rtag b)
  && incomparable nm_ltb (k_netmask a) (k_netmask b).

Definition has_key_of (k : CacheKey) (e : entry) : bool := key_eqb k (key_of_entry e).

(** [d_map.find(key)]. *)
Definition find_entry (k : CacheKey) (l : list entry) : option entry := List.find (has_key_of k) l.

(** The ordered index: name, type, tag, network. *)
Definition ce_leb_rest (a b : entry) : bool :=
  if c_qtype a <? c_qtype b then true
  else if c_qtype b <? c_qtype a then false
  else if memcmp_lt (c_rtag a) (c_rtag b) then true
  else if memcmp_lt (c_rtag b) (c_rtag a) then false
  else negb (nm_ltb (c_netmask b) (c_netmask a)).

Definition ce_leb (a b : entry) : bool :=
  if canonCompare (c_qname a) (c_qname b) false then true
  else if canonCompare (c_qname b) (c_qname a) false then false
  else ce_leb_rest a b.

Definition ecs_leb (a b : ECSIndexEntry) : bool :=
  if canonCompare (x_qname a) (x_qname b) false then true
  else if canonCompare (x_qname b) (x_qname a) false then false
  else x_qtype a <=? x_qtype b.

Definition is_ecs (qname : DNSName) (qtype : Z) (x : ECSIndexEntry) : bool := name_eqb (x_qname x) qname && (x_qtype x =? qtype).
Definition find_ecs (qname : DNSName) (qtype : Z) (l : list ECSIndexEntry) : option ECSIndexEntry := List.find (is_ecs qname qtype) l.

Definition put_ecs (x : ECSIndexEntry) (l : list ECSIndexEntry) : list ECSIndexEntry :=
  map (fun y => if is_ecs (x_qname x) (x_qtype x) y then x else y) l.
Definition erase_ecs (x : ECSIndexEntry) (l : list ECSIndexEntry) : list ECSIndexEntry :=
  List.filter (fun y => negb (is_ecs (x_qname x) (x_qtype x) y)) l.

(** Methods of [ECSIndexEntry]. *)
Definition lookupBestMatch (x : ECSIndexEntry) (addr : ComboAddress) : result Netmask :=
  o ← tree_lookup_addr false addr (-1) (x_nmt x);
  Ok (match o with Some (n, _) => n | None => nm_default end).

Definition ecs_addMask (netmask : Netmask) (x : ECSIndexEntry) : result ECSIndexEntry :=
  t ← insert_or_assign false netmask true (x_nmt x); Ok (mkECS (x_qname x) (x_qtype x) t).

Definition removeNetmask (netmask : Netmask) (x : ECSIndexEntry) : result ECSIndexEntry :=
  t ← tree_erase false netmask (x_nmt x); Ok (mkECS (x_qname x) (x_qtype x) t).

Definition ecs_isEmpty (x : ECSIndexEntry) : bool := tree_is_empty (x_nmt x).

(** Taking a network out of the index, with its entry when nothing is left. *)
Definition drop_netmask (netmask : Netmask) (x : ECSIndexEntry) (l : list ECSIndexEntry) : result (list ECSIndexEntry) :=
  x ← removeNetmask netmask x;
  Ok (if ecs_isEmpty x then erase_ecs x l else put_ecs x l).

(** [LockedContent::preRemoval], on the index. *)
Definition preRemoval (e : entry) (l : list ECSIndexEntry) : result (list ECSIndexEntry) :=
  if nm_empty (c_netmask e) then Ok l
  else match find_ecs (c_qname e) (c_qtype e) l with None => Ok l | Some x => drop_netmask (c_netmask e) x l end.

(** ** Shards *)

Definition empty_content : content := mkContent (mkMap [] 0) [] (mkDNSName []) [] [] false.

Definition mrc_make (mapsCount : Z) : cache := replicate (Z.to_nat (if mapsCount =? 0 then 1 else mapsCount)) empty_content.

Definition m_map (c : content) : list entry := d_map (m_shard c).
Definition m_count (c : content) : Z := d_entriesCount (m_shard c).

Definition mrc_size (maps : cache) : Z := foldr (fun c n => m_count c + n) 0 maps.
Definition mrc_bytes (maps : cache) : Z := foldr (fun c n => sizes ce_sizeEstimate (m_map c) + n) 0 maps.
Definition ecsIndexSize (maps : cache) : Z := foldr (fun c n => zlen (m_ecsIndex c) + n) 0 maps.

Definition mrc_getMap (maps : cache) (qname : DNSName) : nat := Z.to_nat (hash qname 0 mod zlen maps).
Definition content_at (maps : cache) (i : nat) : content := default empty_content (maps !! i).

Definition set_shard (s : MapCombo entry) (c : content) : content :=
  mkContent s (m_ecsIndex c) (m_cachedqname c) (m_cachedrtag c) (m_cachecache c) (m_cachecachevalid c).
Definition set_map (l : list entry) (c : content) : content := set_shard (mkMap l (m_count c)) c.
Definition set_ecs (x : list ECSIndexEntry) (c : content) : content :=
  mkContent (m_shard c) x (m_cachedqname c) (m_cachedrtag c) (m_cachecache c) (m_cachecachevalid c).
Definition invalidate (c : content) : content :=
  mkContent (m_shard c) (m_ecsIndex c) (m_cachedqname c) (m_cachedrtag c) (m_cachecache c) false.

Definition put_entry (e : entry) (l : list entry) : list entry := map (fun x => if has_key_of (key_of_entry e) x then e else x) l.

(** ** Lookups *)

Definition upd_content (f : content -> content) : SM lookup unit := sm_modify (fun s => mkLook (f (q_content s)) (q_tasks s) (q_out s)).
Definition upd_out (f : Outputs C Sg Au -> Outputs C Sg Au) : SM lookup unit := sm_modify (fun s => mkLook (q_content s) (q_tasks s) (f (q_out s))).
Definition push_tasks (ops : list push_op) : SM lookup unit := sm_modify (fun s => mkLook (q_content s) (q_tasks s ++ ops) (q_out s)).

Definition to_front (e : entry) : SM lookup unit :=
  upd_content (fun c => set_map (moveCacheItemToFront (has_key_of (key_of_entry e)) (m_map c)) c).
Definition to_back (e : entry) : SM lookup unit :=
  upd_content (fun c => set_map (moveCacheItemToBack (has_key_of (key_of_entry e)) (m_map c)) c).

Definition updateDNSSECValidationStateFromCache (state : option vState) (stateUpdate : vState) : option vState :=
  match state with
  | None => Some stateUpdate
  | Some st =>
      Some (if decide (stateUpdate = TA) then Secure
            else if decide (stateUpdate = NTA) then Insecure
            else if vStateIsBogus stateUpdate || bool_decide (stateUpdate = Indeterminate) then stateUpdate
            else if negb (vStateIsBogus st) && negb (bool_decide (st = Indeterminate)) then stateUpdate
            else st)
  end.

(** The records of an entry as they are returned. *)
Definition hit_records (qname : DNSName) (e : entry) : list (found_record C) :=
  map (mkFound qname (c_qtype e) (u32 (c_ttd e))) (c_records e).

(** [variable] and [origTTL], which a hit sets first. *)
Definition hit_variable (e : entry) (o : Outputs C Sg Au) : Outputs C Sg Au :=
  mkOut (o_res o) (o_signatures o) (o_authorityRecs o)
    (o_variable o || negb (nm_empty (c_netmask e)) || negb (bool_decide (c_rtag e = [])))
    (o_cachedState o) (o_state o) (o_wasAuth o) (o_fromAuthZone o) (o_extra o) (c_orig_ttl e).

(** What a hit adds to the outputs; [want_res] is [res != nullptr]. *)
Definition hit_outputs (want_res : bool) (qname : DNSName) (e : entry) (o : Outputs C Sg Au) : Outputs C Sg Au :=
  mkOut (if want_res then o_res o ++ hit_records qname e else o_res o)
    (match o_signatures o, c_signatures e with
     | Some (s :: ss), Some (t :: ts) => Some ((s :: ss) ++ (t :: ts))
     | _, Some sigs => Some sigs
     | _, None => Some []
     end)
    (Some (default [] (c_authorityRecs e))) (o_variable o)
    (updateDNSSECValidationStateFromCache (o_cachedState o) (c_state e)) (o_state o)
    (o_wasAuth o && c_auth e) (Some (c_authZone e)) (Some (c_from e, c_tcp e)) (o_origTTL o).

Definition handleHit (now : Z) (want_res : bool) (e : entry) (qname : DNSName) : SM lookup Z :=
  _ ← sm_throw_if (c_tooBig e) (ImmediateServFailException "too many records in RRSet");
  let ttd := c_ttd e in
  if ttd <=? now then mret ttd
  else
    _ ← upd_out (hit_variable e);
    res ← sm_get (fun s => o_res (q_out s));
    _ ← sm_throw_if (want_res && cs_limitQTypeAny cfg && (cs_maxRRSetSize cfg <? zlen res + zlen (c_records e)))
          (ImmediateServFailException "too many records in result");
    _ ← upd_out (hit_outputs want_res qname e);
    _ ← to_back e;
    mret ttd.

(** [pushRefreshTask]. *)
Definition refresh_tasks (qname : DNSName) (qtype deadline : Z) (netmask : Netmask) : list push_op :=
  if qtype =? QType.ADDR then [PushAlmostExpired qname QType.A deadline netmask false; PushAlmostExpired qname QType.AAAA deadline netmask false]
  else [PushAlmostExpired qname qtype deadline netmask false].

Definition ce_updateStaleEntry (now : Z) (e : entry) : entry :=
  let howlong := Z.max 1 (now - c_ttd e) in
  let extension := Z.max 1 (Z.min (c_orig_ttl e) s_staleExtensionPeriod) in
  with_stale (now + extension) (Z.min (c_servedStale e + 1 + howlong / extension) (cs_maxServedStaleExtensions cfg)) e.

(** The entry as [handleServeStaleBookkeeping] leaves it. *)
Definition handleServeStaleBookkeeping (now : Z) (serveStale : bool) (e : entry) : SM lookup entry :=
  if (serveStale || (0 <? c_servedStale e)) && (c_ttd e <=? now) && (c_servedStale e <? cs_maxServedStaleExtensions cfg) then
    let e := ce_updateStaleEntry now e in
    _ ← upd_content (fun c => set_map (put_entry e (m_map c)) c);
    _ ← push_tasks (refresh_tasks (c_qname e) (c_qtype e) (c_ttd e) (c_netmask e));
    mret e
  else mret e.

(** Dropping the best network from the index: [true] when nothing is left. *)
Definition forget_netmask (qname : DNSName) (qtype : Z) (best : Netmask) : SM lookup bool :=
  l ← sm_get (fun s => m_ecsIndex (q_content s));
  match find_ecs qname qtype l with
  | None => mret true
  | Some x =>
      x ← sm_lift (removeNetmask best x);
      _ ← upd_content (set_ecs (if ecs_isEmpty x then erase_ecs x l else put_ecs x l));
      mret (ecs_isEmpty x)
  end.

(** The loop over the networks that contain the client: [Some o] returns, [None]
    goes on to the generic entry. *)
Fixpoint ecs_loop (fuel : nat) (now : Z) (qname : DNSName) (qtype : Z) (requireAuth : bool) (who : ComboAddress) (serveStale : bool)
  : SM lookup (option (option entry)) :=
  match fuel with
  | O => sm_throw out_of_fuel
  | S fuel =>
      l ← sm_get (fun s => m_ecsIndex (q_content s));
      match find_ecs qname qtype l with
      | None => mret None
      | Some x =>
          best ← sm_lift (lookupBestMatch x who);
          if nm_empty best then mret None
          else
            o ← sm_get (fun s => find_entry (mkKey qname qtype NOTAG best) (m_map (q_content s)));
            match o with
            | None =>
                gone ← forget_netmask qname qtype best;
                if gone : bool then mret None else ecs_loop fuel now qname qtype requireAuth who serveStale
            | Some e =>
                e ← handleServeStaleBookkeeping now serveStale e;
                if now <? c_ttd e then mret (Some (if negb requireAuth || c_auth e then Some e else None))
                else
                  _ ← to_front e;
                  gone ← forget_netmask qname qtype best;
                  if gone : bool then mret None else ecs_loop fuel now qname qtype requireAuth who serveStale
            end
      end
  end.

(** One round for each network is enough, and one to see that there is none. *)
Definition getEntryUsingECSIndex (now : Z) (qname : DNSName) (qtype : Z) (requireAuth : bool) (who : ComboAddress) (serveStale : bool)
  : SM lookup (option entry) :=
  l ← sm_get (fun s => m_ecsIndex (q_content s));
  o ← (match find_ecs qname qtype l with
       | None => mret None
       | Some x => if ecs_isEmpty x then mret None
                   else ecs_loop (S (Z.to_nat (d_size (x_nmt x)))) now qname qtype requireAuth who serveStale
       end);
  match o with
  | Some o => mret o
  | None =>
      o ← sm_get (fun s => find_entry (mkKey qname qtype NOTAG nm_default) (m_map (q_content s)));
      match o with
      | None => mret None
      | Some e =>
          e ← handleServeStaleBookkeeping now serveStale e;
          if now <? c_ttd e then mret (if negb requireAuth || c_auth e then Some e else None)
          else _ ← to_front e; mret None
      end
  end.

Definition entryMatches (qtype : Z) (requireAuth : bool) (who : ComboAddress) (e : entry) : bool :=
  if requireAuth && negb (c_auth e) then false
  else ((c_qtype e =? qtype) || (qtype =? QType.ANY)
        || ((qtype =? QType.ADDR) && ((c_qtype e =? QType.A) || (c_qtype e =? QType.AAAA))))
       && (nm_empty (c_netmask e) || nm_match (c_netmask e) who).

(** Fake a miss if more than the percentage of the original TTL has passed. *)
Definition fakeTTD (e : entry) (qname : DNSName) (qtype ret now flags : Z) : SM lookup Z :=
  origTTL ← sm_get (fun s => o_origTTL (q_out s));
  let ttl := ret - now in
  if has_flag flags Refresh && (0 <? c_servedStale e) then mret (-1)
  else if (0 <? ttl) && (has_flag flags ForcedRefresh || (0 <? cs_refresh_ttlperc cfg)) then
    let deadline := if has_flag flags ForcedRefresh then origTTL / 2 else u32 (origTTL * cs_refresh_ttlperc cfg) / 100 in
    if u32 ttl <=? deadline then
      if has_flag flags Refresh then mret (-1)
      else if negb (c_submitted e) && (negb (qtype =? QType.NS) || negb (c_auth e)) then
        _ ← push_tasks (refresh_tasks qname qtype (c_ttd e) (c_netmask e));
        _ ← upd_content (fun c => set_map (put_entry (with_submitted true e) (m_map c)) c);
        mret ttl
      else mret ttl
    else mret ttl
  else mret ttl.

Context `{!RangeIndex C Sg Au}.

(** [getEntries]: the keys of the range, from the last lookup when it was for the same
    name and tag. *)
Definition range_is_cached (qname : DNSName) (rtag : bytes) (c : content) : bool :=
  m_cachecachevalid c && name_eqb (m_cachedqname c) qname && bool_decide (m_cachedrtag c = rtag).

Definition getEntries (qname : DNSName) (rtag : bytes) (c : content) : content :=
  if range_is_cached qname rtag c then c
  else mkContent (m_shard c) (m_ecsIndex c) qname rtag (map key_of_entry (name_range_of (m_map c) qname rtag)) true.

Definition getEntries_range (qname : DNSName) (rtag : bytes) : SM lookup (list CacheKey) :=
  _ ← upd_content (getEntries qname rtag);
  sm_get (fun s => m_cachecache (q_content s)).

(** The loop over the entries of a range: how many matched, the expiry of the last that
    did, and the last entry looked at. *)
Fixpoint range_loop (now : Z) (want_res : bool) (qname : DNSName) (qtype : Z) (requireAuth : bool) (who : ComboAddress) (serveStale : bool)
    (keys : list CacheKey) (found ttd : Z) (last : option entry) : SM lookup (Z * Z * option entry) :=
  match keys with
  | [] => mret (found, ttd, last)
  | k :: keys =>
      let next := range_loop now want_res qname qtype requireAuth who serveStale keys in
      o ← sm_get (fun s => find_entry k (m_map (q_content s)));
      match o with
      | None => next found ttd last
      | Some e =>
          if negb (ce_isEntryUsable now serveStale e) then
            _ ← to_front e; next found ttd (Some e)
          else if negb (entryMatches qtype requireAuth who e) then next found ttd (Some e)
          else
            let found := found + 1 in
            e ← handleServeStaleBookkeeping now serveStale e;
            _ ← upd_out (fun o => mkOut (o_res o) (o_signatures o) (Some []) (o_variable o) (o_cachedState o) (o_state o) (o_wasAuth o)
                                    (o_fromAuthZone o) (o_extra o) (o_origTTL o));
            ttd ← handleHit now want_res e qname;
            if (qtype =? QType.ADDR) && (found =? 2) then mret (found, ttd, Some e)
            else if negb (qtype =? QType.ANY) then mret (found, ttd, Some e)
            else next found ttd (Some e)
      end
  end.

(** [ptrAssign(state, *cachedState)] when the answer has not expired. *)
Definition assign_state (fresh : bool) : SM lookup unit :=
  upd_out (fun o =>
    match o_cachedState o with
    | Some st => if fresh then mkOut (o_res o) (o_signatures o) (o_authorityRecs o) (o_variable o) (o_cachedState o) (Some st) (o_wasAuth o)
                             (o_fromAuthZone o) (o_extra o) (o_origTTL o) else o
    | None => o
    end).

(** What is returned for a range. *)
Definition range_result (now : Z) (qname : DNSName) (qtype flags : Z) (r : Z * Z * option entry) : SM lookup Z :=
  let '(found, ttd, last) := r in
  match last with
  | Some e =>
      if 0 <? found then
        _ ← assign_state (now <? ttd);
        fakeTTD e qname qtype ttd now flags
      else mret (-1)
  | None => mret (-1)
  end.

(** The lookup for [QType::ADDR] through the index of networks. *)
Definition get_addr_ecs (now : Z) (want_res : bool) (qname : DNSName) (requireAuth : bool) (who : ComboAddress) (serveStale : bool) : SM lookup Z :=
  a ← getEntryUsingECSIndex now qname QType.A requireAuth who serveStale;
  ret ← (match a with None => mret (-1) | Some e => handleHit now want_res e qname end);
  aaaa ← getEntryUsingECSIndex now qname QType.AAAA requireAuth who serveStale;
  ret ← (match aaaa with
         | None => mret ret
         | Some e =>
             _ ← upd_out (fun o => mkOut (o_res o) (o_signatures o) (Some []) (o_variable o) (o_cachedState o) (o_state o) (o_wasAuth o)
                                     (o_fromAuthZone o) (o_extra o) (o_origTTL o));
             ttdAAAA ← handleHit now want_res e qname;
             mret (if 0 <? ret then Z.min ret ttdAAAA else ttdAAAA)
         end);
  _ ← assign_state (0 <? ret);
  mret (if 0 <? ret then ret - now else ret).

Definition get_ecs (now : Z) (want_res : bool) (qname : DNSName) (qtype flags : Z) (requireAuth : bool) (who : ComboAddress) (serveStale : bool)
  : SM lookup Z :=
  o ← getEntryUsingECSIndex now qname qtype requireAuth who serveStale;
  match o with
  | None => mret (-1)
  | Some e =>
      ret ← handleHit now want_res e qname;
      _ ← assign_state (now <? ret);
      fakeTTD e qname qtype ret now flags
  end.

(** The lookup in the range of a name and tag: [None] when the range is empty. *)
Definition get_range (now : Z) (want_res : bool) (qname : DNSName) (qtype flags : Z) (requireAuth : bool) (who : ComboAddress) (serveStale : bool)
    (rtag : bytes) : SM lookup (option Z) :=
  keys ← getEntries_range qname rtag;
  if bool_decide (keys = []) then mret None
  else
    r ← range_loop now want_res qname qtype requireAuth who serveStale keys 0 0 None;
    ret ← range_result now qname qtype flags r;
    mret (Some ret).

Definition get_content (now : Z) (want_res : bool) (qname : DNSName) (qtype flags : Z) (who : ComboAddress) (routingTag : bytes) : SM lookup Z :=
  let requireAuth := has_flag flags RequireAuth in
  let serveStale := has_flag flags ServeStale in
  ecs ← sm_get (fun s => m_ecsIndex (q_content s));
  if negb (qtype =? QType.ANY) && negb (bool_decide (ecs = [])) && bool_decide (routingTag = []) then
    if qtype =? QType.ADDR then get_addr_ecs now want_res qname requireAuth who serveStale
    else get_ecs now want_res qname qtype flags requireAuth who serveStale
  else
    tagged ← (if bool_decide (routingTag = []) then mret None
              else get_range now want_res qname qtype flags requireAuth who serveStale routingTag);
    match tagged with
    | Some ret => mret ret
    | None =>
        untagged ← get_range now want_res qname qtype flags requireAuth who serveStale NOTAG;
        mret (default (-1) untagged)
    end.

(** What the caller passed: signatures to append to and [*variable]. *)
Definition initial_outputs (signatures : option (list Sg)) (variable : bool) : Outputs C Sg Au :=
  mkOut [] signatures None variable None None true None None 0.

Record get_answer : Type := mkAnswer {
  ga_maps : cache;
  ga_tasks : list push_op;
  ga_out : Outputs C Sg Au;
  ga_ret : result Z;
}.

(** [MemRecursorCache::get]. *)
Definition mrc_get (maps : cache) (now : Z) (want_res : bool) (qname : DNSName) (qtype flags : Z) (who : ComboAddress) (routingTag : bytes)
    (signatures : option (list Sg)) (variable : bool) : get_answer :=
  let i := mrc_getMap maps qname in
  let '(s, ret) := get_content now want_res qname qtype flags who routingTag
                     (mkLook (content_at maps i) [] (initial_outputs signatures variable)) in
  mkAnswer (<[i := q_content s]> maps) (q_tasks s) (q_out s) ret.
End cache.
