(* ===== verification/RecursorCacheOps.v ===== *)
(** * Changes of the record cache

    The operations of [pdns/recursordist/recursor_cache.cc] that change the cache:
    [replace], wiping, ageing, updates of the validation state and pruning. *)

From S2P Require Import Prelude Chars Dns Names NamesOrder Validate IpUtils NetTree NetGroups.
From S2P Require Import NameIndex CacheCleaner TaskQueue RecursorCache.

#[local] Open Scope Z_scope.

Section operations.
Context {C Sg Au : Type} (cfg : cache_settings C Sg Au).
#[local] Abbreviation entry := (CacheEntry C Sg Au).
#[local] Abbreviation content := (Content C Sg Au).
#[local] Abbreviation lookup := (Lookup C Sg Au).
#[local] Abbreviation cache := (list (Content C Sg Au)).

(** ** Replacing *)

Definition with_auth (auth : bool) (e : entry) : entry :=
  mkCE (c_rtag e) (c_netmask e) (c_from e) (c_records e) (c_qname e) (c_authZone e) (c_signatures e) (c_authorityRecs e)
    (c_ttd e) (c_orig_ttl e) (c_servedStale e) (c_qtype e) (c_state e) auth (c_submitted e) (c_tooBig e) (c_tcp e).

(** Entries locked against replacement for a part of their TTL. *)
Definition is_locked (now : Z) (state : vState) (refresh : bool) (e : entry) : bool :=
  if 0 <? cs_locked_ttlperc cfg then
    if (c_ttd e <=? now) || bool_decide (state = Secure) || refresh then false
    else u32 (c_orig_ttl e * u32 (100 - cs_locked_ttlperc cfg)) / 100 <? u32 (c_ttd e - now)
  else false.

(** [shouldReplace], with the entry as it leaves it. *)
Definition shouldReplace (now : Z) (auth : bool) (state : vState) (refresh : bool) (e : entry) : entry * bool :=
  if negb auth && c_auth e && (now <? c_ttd e - 5) then (e, false)
  else
    let e := if negb auth && c_auth e then with_auth false e else e in
    if auth && (vStateIsBogus state && negb (vStateIsBogus (c_state e)) && negb (bool_decide (c_state e = Indeterminate)) && (now <? c_ttd e))
    then (e, false)
    else if auth && negb (c_auth e) then (e, true)
    else (e, negb (is_locked now state refresh e)).

(** The key under which [replace] stores: a tag only with a mask, a mask only without
    a tag. *)
Definition replace_key (qname : DNSName) (qtype : Z) (ednsmask : option Netmask) (routingTag : bytes) : CacheKey :=
  mkKey qname qtype (match ednsmask with Some _ => routingTag | None => NOTAG end)
    (match ednsmask with Some m => if bool_decide (routingTag = []) then m else nm_default | None => nm_default end).

(** The original TTL, kept within its limits. *)
Definition sane_ttl (ttd ttl_time : Z) : Z :=
  let orig := u32 (ttd - ttl_time) in
  if (orig <? cs_minimumTTL cfg) || (cs_maxcachettl cfg <? orig) then cs_minimumTTL cfg else orig.

(** The loop over the records, which come with the time of their expiry. *)
Fixpoint store_records (maxTTD : option Z) (ttl_time : Z) (toStore : nat) (records : list (Z * C)) (ttd orig_ttl : Z) (stored : list C)
  : Z * Z * list C :=
  match toStore, records with
  | S toStore, (ttl, c) :: records =>
      let ttd := match maxTTD with Some m => Z.min m ttl | None => ttl end in
      store_records maxTTD ttl_time toStore records ttd (sane_ttl ttd ttl_time) (stored ++ [c])
  | _, _ => (ttd, orig_ttl, stored)
  end.

Definition some_list {A} (l : list A) : option (list A) := match l with [] => None | _ => Some l end.

(** The entry that replaces [e]. *)
Definition replaced_entry (qtype : Z) (records : list (Z * C)) (signatures : list Sg) (authorityRecs : list Au) (auth : bool)
    (authZone : DNSName) (state : vState) (extra : option (ComboAddress * bool)) (ttl_time : Z) (maxTTD : option Z) (e : entry) : entry :=
  let tooBig := cs_maxRRSetSize cfg <? zlen records in
  let '(ttd, orig_ttl, stored) := store_records maxTTD ttl_time (if tooBig then 1 else length records) records (c_ttd e) (c_orig_ttl e) [] in
  mkCE (c_rtag e) (c_netmask e) (match extra with Some (a, _) => a | None => ca_default end) stored (c_qname e) authZone
    (some_list signatures) (some_list authorityRecs) ttd orig_ttl (c_servedStale e) qtype state (c_auth e || auth) (c_submitted e) tooBig
    (match extra with Some (_, tcp) => tcp | None => false end).

(** The index of networks when an entry is new or had expired; a name that is not in
    it gets an entry without networks first. *)
Definition index_netmask (qname : DNSName) (qtype : Z) (ednsmask : option Netmask) (routingTag : bytes) : SM content unit :=
  match ednsmask with
  | Some m =>
      if bool_decide (routingTag = []) && negb (nm_empty m) then
        l ← sm_get m_ecsIndex;
        x ← (match find_ecs qname qtype l with
             | Some x => mret x
             | None => let x := mkECS qname qtype (tree_empty false) in _ ← sm_modify (set_ecs (l ++ [x])); mret x
             end);
        x ← sm_lift (ecs_addMask m x);
        sm_modify (fun c => set_ecs (put_ecs x (m_ecsIndex c)) c)
      else mret tt
  | None => mret tt
  end.

Definition finished_entry (e : entry) : entry := with_submitted false (with_stale (c_ttd e) 0 e).

(** [replace] from the stored entry on, which was just made when [isNew]. *)
Definition replace_stored (now : Z) (qname : DNSName) (qtype : Z) (records : list (Z * C)) (signatures : list Sg) (authorityRecs : list Au)
    (auth : bool) (authZone : DNSName) (ednsmask : option Netmask) (routingTag : bytes) (state : vState)
    (extra : option (ComboAddress * bool)) (refresh : bool) (ttl_time : Z) (isNew : bool) (stored : entry) : SM content unit :=
  _ ← (if isNew || (c_ttd stored <=? now) then index_netmask qname qtype ednsmask routingTag else mret tt);
  let '(e, proceed) := if isNew then (stored, true) else shouldReplace now auth state refresh stored in
  if negb proceed then mret tt
  else
    let maxTTD := if c_auth e && auth && (qtype =? QType.NS) && negb isNew && negb (isRoot qname) then Some (c_ttd e) else None in
    let e := replaced_entry qtype records signatures authorityRecs auth authZone state extra ttl_time maxTTD e in
    if (0 <? cs_maxEntrySize cfg) && (cs_maxEntrySize cfg <? ce_sizeEstimate cfg e) then mret tt
    else
      _ ← (if isNew then mret tt
           else sm_modify (fun c => set_map (moveCacheItemToBack (has_key_of (key_of_entry stored)) (m_map c)) c));
      sm_modify (fun c => set_map (put_entry (finished_entry e) (m_map c)) c).

Definition append_entry (e : entry) (c : content) : content := set_shard (mkMap (m_map c ++ [e]) (m_count c + 1)) c.

(** [replace] in the shard of the name. *)
Definition replace_content (now : Z) (qname : DNSName) (qtype : Z) (records : list (Z * C)) (signatures : list Sg) (authorityRecs : list Au)
    (auth : bool) (authZone : DNSName) (ednsmaskArg : option Netmask) (routingTag : bytes) (state : vState)
    (extra : option (ComboAddress * bool)) (refresh : bool) (ttl_time : Z) : SM content unit :=
  _ ← sm_modify invalidate;
  let ednsmask := option_map getNormalized ednsmaskArg in
  let key := replace_key qname qtype ednsmask routingTag in
  let go := replace_stored now qname qtype records signatures authorityRecs auth authZone ednsmask routingTag state extra refresh ttl_time in
  found ← sm_get (fun c => find_entry key (m_map c));
  match found with
  | Some stored => go false stored
  | None => let stored := ce_make key auth in _ ← sm_modify (append_entry stored); go true stored
  end.

(** One operation on the shard of a name. *)
Definition on_shard {A} (maps : cache) (qname : DNSName) (op : SM content A) : cache * result A :=
  let i := mrc_getMap maps qname in
  let '(c, r) := op (content_at maps i) in
  (<[i := c]> maps, r).

Definition mrc_replace (maps : cache) (now : Z) (qname : DNSName) (qtype : Z) (records : list (Z * C)) (signatures : list Sg)
    (authorityRecs : list Au) (auth : bool) (authZone : DNSName) (ednsmask : option Netmask) (routingTag : bytes) (state : vState)
    (extra : option (ComboAddress * bool)) (refresh : bool) (ttl_time : Z) : cache * result unit :=
  on_shard maps qname
    (replace_content now qname qtype records signatures authorityRecs auth authZone ednsmask routingTag state extra refresh ttl_time).

(** [replace(CacheEntry&&)], for entries loaded from elsewhere. *)
Definition emplace_content (e : entry) : SM content bool :=
  if negb (nm_empty (c_netmask e)) || negb (bool_decide (c_rtag e = [])) then mret false
  else
    _ ← sm_modify invalidate;
    found ← sm_get (fun c => find_entry (key_of_entry e) (m_map c));
    match found with
    | Some _ => mret false
    | None =>
        _ ← sm_modify (append_entry (with_submitted false e));
        mret true
    end.

Definition mrc_replace_entry (maps : cache) (e : entry) : cache * result bool := on_shard maps (c_qname e) (emplace_content e).

(** ** Wiping *)

Definition of_type (qtype type : Z) : bool := (type =? qtype) || (qtype =? 65535).

(** The shard of the name, without [sub]. *)
Definition wipe_name_content (name : DNSName) (qtype : Z) (c : content) : content * Z :=
  let gone e := name_eqb (c_qname e) name && of_type qtype (c_qtype e) in
  let n := zlen (List.filter gone (m_map c)) in
  (set_ecs (List.filter (fun x => negb (name_eqb (x_qname x) name && ((qtype =? 65535) || (x_qtype x =? qtype)))) (m_ecsIndex c))
     (invalidate (set_shard (mkMap (List.filter (fun e => negb (gone e)) (m_map c)) (m_count c - n)) c)), n).

Definition same_entry_key (a b : entry) : bool := has_key_of (key_of_entry a) b.
Definition same_ecs (a b : ECSIndexEntry) : bool := is_ecs (x_qname a) (x_qtype a) b.

(** A shard, with [sub]: two walks from the lower bound of the name. *)
Definition wipe_sub_content (name : DNSName) (qtype : Z) (c : content) : result (content * Z) :=
  r ← erase_range (fun e => isPartOf (c_qname e) name) (fun e => of_type qtype (c_qtype e)) same_entry_key
        (lower_bound c_qname name (ordered_index ce_leb (m_map c))) (m_map c) 0;
  let '(l, n) := r in
  x ← erase_range (fun e => isPartOf (x_qname e) name) (fun e => of_type qtype (x_qtype e)) same_ecs
        (lower_bound x_qname name (ordered_index ecs_leb (m_ecsIndex c))) (m_ecsIndex c) 0;
  let '(ecs, _) := x in
  Ok (set_ecs ecs (invalidate (set_shard (mkMap l (m_count c - n)) c)), n).

Fixpoint wipe_sub (name : DNSName) (qtype : Z) (maps : cache) (count : Z) : result (cache * Z) :=
  match maps with
  | [] => Ok ([], count)
  | c :: maps =>
      r ← wipe_sub_content name qtype c;
      let '(c, n) := r in
      r ← wipe_sub name qtype maps (count + n);
      let '(maps, count) := r in
      Ok (c :: maps, count)
  end.

Definition doWipeCache (maps : cache) (name : DNSName) (sub : bool) (qtype : Z) : result (cache * Z) :=
  if sub then wipe_sub name qtype maps 0
  else
    let i := mrc_getMap maps name in
    let '(c, n) := wipe_name_content name qtype (content_at maps i) in
    Ok (<[i := c]> maps, n).

(** ** Ageing and validation *)

(** The first entry of the name and type in the ordered index. *)
Definition first_of_type (name : DNSName) (qtype : Z) (l : list entry) : option entry :=
  List.find (fun e => name_eqb (c_qname e) name && (c_qtype e =? qtype)) (ordered_index ce_leb l).

Definition age_content (now : Z) (name : DNSName) (qtype newTTL : Z) (c : content) : content * bool :=
  match first_of_type name qtype (m_map c) with
  | None => (c, false)
  | Some e =>
      if c_ttd e <? now then (c, false)
      else if newTTL <? u32 (c_ttd e - now) then
        let c := invalidate c in
        (if now + newTTL <? c_ttd e then set_map (put_entry (with_stale (now + newTTL) (c_servedStale e) e) (m_map c)) c else c, true)
      else (c, false)
  end.

Definition doAgeCache (maps : cache) (now : Z) (name : DNSName) (qtype newTTL : Z) : cache * bool :=
  let i := mrc_getMap maps name in
  let '(c, b) := age_content now name qtype newTTL (content_at maps i) in
  (<[i := c]> maps, b).

Context `{!RangeIndex C Sg Au}.

(** The first entry of the range that matches. *)
Fixpoint update_loop (qtype : Z) (requireAuth : bool) (who : ComboAddress) (newState : vState) (capTTD : option Z) (keys : list CacheKey)
  : SM lookup bool :=
  match keys with
  | [] => mret false
  | k :: keys =>
      o ← sm_get (fun s => find_entry k (m_map (q_content s)));
      match o with
      | None => update_loop qtype requireAuth who newState capTTD keys
      | Some e =>
          if negb (entryMatches qtype requireAuth who e) then update_loop qtype requireAuth who newState capTTD keys
          else
            _ ← upd_content (fun c => set_map (put_entry (with_state newState capTTD e) (m_map c)) c);
            mret true
      end
  end.

Definition update_content (now : Z) (qname : DNSName) (qtype : Z) (who : ComboAddress) (routingTag : bytes) (requireAuth : bool)
    (newState : vState) (capTTD : option Z) : SM lookup bool :=
  _ ← sm_throw_if (qtype =? QType.ANY) (runtime_error "Trying to update the DNSSEC validation status of all (via ANY) records");
  _ ← sm_throw_if (qtype =? QType.ADDR) (runtime_error "Trying to update the DNSSEC validation status of several (via ADDR) records");
  ecs ← sm_get (fun s => m_ecsIndex (q_content s));
  if negb (bool_decide (ecs = [])) && bool_decide (routingTag = []) then
    o ← getEntryUsingECSIndex cfg now qname qtype requireAuth who false;
    match o with
    | None => mret false
    | Some e =>
        _ ← upd_content (fun c => set_map (put_entry (with_state newState capTTD e) (m_map c)) c);
        mret true
    end
  else
    keys ← getEntries_range qname routingTag;
    update_loop qtype requireAuth who newState capTTD keys.

(** [updateValidationStatus]: the cache, the tasks pushed and whether an entry was
    updated. *)
Definition mrc_updateValidationStatus (maps : cache) (now : Z) (qname : DNSName) (qtype : Z) (who : ComboAddress) (routingTag : bytes)
    (requireAuth : bool) (newState : vState) (capTTD : option Z) : cache * list push_op * result bool :=
  let i := mrc_getMap maps qname in
  let '(s, r) := update_content now qname qtype who routingTag requireAuth newState capTTD
                   (mkLook (content_at maps i) [] (initial_outputs None false)) in
  (<[i := q_content s]> maps, q_tasks s, r).

(** ** Pruning *)

(** The entries of [before] that are not in [after]. *)
Definition erased_entries (before after : list entry) : list entry :=
  List.filter (fun e => negb (existsb (same_entry_key e) after)) before.

Fixpoint preRemovals (es : list entry) (l : list ECSIndexEntry) : result (list ECSIndexEntry) :=
  match es with
  | [] => Ok l
  | e :: es => l ← preRemoval e l; preRemovals es l
  end.

(** A shard after the two passes, which left [scanned] and then [trimmed]. *)
Definition prune_content (c : content) (scanned trimmed : MapCombo entry) : result content :=
  l ← preRemovals (erased_entries (m_map c) (d_map scanned) ++ erased_entries (d_map scanned) (d_map trimmed)) (m_ecsIndex c);
  Ok (set_ecs l (invalidate (set_shard trimmed c))).

Fixpoint prune_contents (maps : cache) (scanned trimmed : list (MapCombo entry)) : result cache :=
  match maps, scanned, trimmed with
  | c :: maps, s :: scanned, t :: trimmed =>
      c ← prune_content c s t;
      maps ← prune_contents maps scanned trimmed;
      Ok (c :: maps)
  | _, _, _ => Ok maps
  end.

Definition doPrune `{!Quotas} (maps : cache) (now keep : Z) : result cache :=
  let cacheSize := mrc_size maps in
  if (zlen maps =? 0) || (cacheSize =? 0) then Ok maps
  else
    let '(scanned, trimmed) := prune_phases (ce_isStale cfg now) (map m_shard maps) keep cacheSize in
    prune_contents maps scanned trimmed.
End operations.
