(* ===== verification/RecursorCacheFacts.v ===== *)
(** * The record cache: invariant

    The consistency of a shard of the record cache, and that lookups and changes keep
    it, whether they return or throw. *)

From S2P Require Import Prelude Chars Dns Names NamesFacts NamesOrder NamesSpec Denial DenialFacts Validate IpUtils NetTree NetGroups.
From S2P Require Import NameIndex CacheCleaner TaskQueue RecursorCache RecursorCacheOps.

#[local] Open Scope Z_scope.

Definition kkey : Type := key * Z * bytes * option (ComboAddress * Z).

(** What a key denotes: names without case, networks as the index compares them. *)
Definition abs_key (k : CacheKey) : kkey := (nkey (k_qname k), k_qtype k, k_rtag k, nm_key (k_netmask k)).

Definition good_key (k : CacheKey) : Prop := named (k_qname k) /\ nm_valid (k_netmask k).

Lemma key_eqb_spec a b : good_key a -> good_key b -> key_eqb a b = true <-> abs_key a = abs_key b.
Proof.
  intros [Ha1 Ha2] [Hb1 Hb2]. unfold key_eqb, abs_key.
  rewrite !andb_true_iff, name_eqb_key, Z.eqb_eq, bool_decide_eq_true, nm_incomparable by done.
  split; [by intros [[[-> ->] ->] ->]|by intros [= -> -> -> ->]].
Qed.

(** The entries of the index of networks. *)
Lemma same_ecs_same name qtype e x :
  named (x_qname e) -> named (x_qname x) -> same_ecs e x = true ->
  in_subtree x_qname name e = in_subtree x_qname name x /\ of_type qtype (x_qtype e) = of_type qtype (x_qtype x).
Proof.
  intros He Hx. unfold same_ecs, is_ecs. intros [Hn Ht%Z.eqb_eq]%andb_true_iff. rewrite name_eqb_key in Hn by done.
  unfold in_subtree. by rewrite Hn, Ht.
Qed.

Lemma same_ecs_refl e : named (x_qname e) -> same_ecs e e = true.
Proof. intros He. unfold same_ecs, is_ecs. rewrite Z.eqb_refl, andb_true_r. by apply name_eqb_key. Qed.

Section facts.
Context {C Sg Au : Type} (cfg : cache_settings C Sg Au).
#[local] Abbreviation entry := (CacheEntry C Sg Au).
#[local] Abbreviation content := (Content C Sg Au).
#[local] Abbreviation lookup := (Lookup C Sg Au).
Implicit Types (e : CacheEntry C Sg Au) (l : list (CacheEntry C Sg Au)) (c : Content C Sg Au) (s : Lookup C Sg Au).

Definition ce_key e : kkey := abs_key (key_of_entry e).

Section shard.
(** Shard [i] of [count]. *)
Context (count i : Z).

Definition good_entry e : Prop := good_key (key_of_entry e) /\ hash (c_qname e) 0 mod count = i.

Record entries_good l : Prop := {
  eg_each : Forall good_entry l;
  eg_keys : NoDup (map ce_key l);
}.

Definition of_name (qname : DNSName) (rtag : bytes) e : bool := name_eqb (c_qname e) qname && bool_decide (c_rtag e = rtag).

(** A cached range is the one the index would give. *)
Definition range_good c : Prop :=
  m_cachecachevalid c = true ->
  named (m_cachedqname c) /\ Forall good_key (m_cachecache c)
  /\ map abs_key (m_cachecache c) ≡ₚ map ce_key (List.filter (of_name (m_cachedqname c) (m_cachedrtag c)) (m_map c)).

Record content_good c : Prop := {
  cg_count : counted (m_shard c);
  cg_entries : entries_good (m_map c);
  cg_range : range_good c;
  cg_ecs : Forall (fun x => named (x_qname x)) (m_ecsIndex c);
}.

Lemma good_in l e : entries_good l -> e ∈ l -> good_entry e.
Proof. intros [Hg _] He. rewrite Forall_forall in Hg. auto. Qed.

Lemma has_key_of_spec k e : good_key k -> good_entry e -> has_key_of k e = true <-> abs_key k = ce_key e.
Proof. intros Hk [He _]. by apply key_eqb_spec. Qed.

Lemma has_key_self e : good_entry e -> has_key_of (key_of_entry e) e = true.
Proof. intros He. apply has_key_of_spec; [by destruct He|done|done]. Qed.

Lemma find_entry_spec k l e :
  good_key k -> entries_good l -> find_entry k l = Some e <-> e ∈ l /\ ce_key e = abs_key k.
Proof.
  intros Hk Hl. split.
  - intros [He Hp]%find_spec. split; [done|]. symmetry. apply has_key_of_spec; [done|by eapply good_in|done].
  - intros [He Hp]. apply find_unique; [|done|apply has_key_of_spec; [done|by eapply good_in|done]].
    intros x y Hx Hy Hpx Hpy. apply has_key_of_spec in Hpx; [|done|by eapply good_in]. apply has_key_of_spec in Hpy; [|done|by eapply good_in].
    apply (nodup_map_inj ce_key l); [by apply Hl|done|done|congruence].
Qed.

Lemma find_entry_perm k l l' : good_key k -> entries_good l -> l ≡ₚ l' -> find_entry k l = find_entry k l'.
Proof.
  intros Hk Hl Hp. apply find_perm; [|done]. intros x y Hx Hy Hpx Hpy.
  apply has_key_of_spec in Hpx; [|done|by eapply good_in]. apply has_key_of_spec in Hpy; [|done|by eapply good_in].
  apply (nodup_map_inj ce_key l); [by apply Hl|done|done|congruence].
Qed.

Lemma entries_good_perm l l' : l' ≡ₚ l -> entries_good l -> entries_good l'.
Proof. intros Hp [H1 H2]. split; [by rewrite Hp|by rewrite (Permutation_map ce_key Hp)]. Qed.

Lemma entries_good_sublist l l' : l' `sublist_of` l -> entries_good l -> entries_good l'.
Proof. intros Hs [H1 H2]. split; [by eapply forall_sublist|]. eapply sublist_NoDup; [exact H2|by apply fmap_sublist]. Qed.

(** ** Changes of the list *)

(** Keys that stay: the range does not depend on anything else. *)
Lemma of_name_key qname rtag e :
  named qname -> good_entry e -> of_name qname rtag e = true <-> (ce_key e).1.1.1 = nkey qname /\ (ce_key e).1.2 = rtag.
Proof.
  intros Hq [[Hn _] _]. unfold of_name. rewrite andb_true_iff, name_eqb_key, bool_decide_eq_true by done. done.
Qed.

(** The keys of the entries of a name. *)
Lemma range_keys qname rtag l : named qname -> Forall good_entry l ->
  map ce_key (List.filter (of_name qname rtag) l)
  = List.filter (fun k => bool_decide (k.1.1.1 = nkey qname /\ k.1.2 = rtag)) (map ce_key l).
Proof.
  intros Hq. induction 1 as [|e l He Hl IH]; [done|]. cbn [List.filter map].
  rewrite <- IH. pose proof (of_name_key qname rtag e Hq He) as Hiff.
  destruct (of_name qname rtag e) eqn:Hb; cbn [map]; [rewrite bool_decide_eq_true_2; [done|by apply Hiff]|].
  rewrite bool_decide_eq_false_2; [done|]. intros Hk. apply Hiff in Hk. done.
Qed.

(** A list with the same keys keeps everything. *)
Lemma set_map_good l c :
  content_good c -> Forall good_entry l -> map ce_key l ≡ₚ map ce_key (m_map c) -> content_good (set_map l c).
Proof.
  intros [Hc [Hg Hk] Hr He] Hl Hp. split; [| | |done].
  - unfold counted in *. cbn. unfold m_count. rewrite Hc. unfold zlen. apply Permutation_length in Hp. rewrite !length_map in Hp. unfold m_map in Hp. by rewrite Hp.
  - split; [done|]. cbn. by rewrite Hp.
  - intros Hv. destruct (Hr Hv) as (Hq & Hgk & Hperm). cbn. split_and!; [done|done|]. unfold m_map in *. cbn.
    rewrite range_keys in * by done. rewrite (filter_perm _ _ _ Hp). done.
Qed.

Lemma move_good p c (f := fun l => moveCacheItemToBack p l) : content_good c -> content_good (set_map (f (m_map c)) c).
Proof.
  intros Hc. pose proof (move_back_perm p (m_map c)) as Hp. apply set_map_good; [done| |by apply Permutation_map].
  unfold f. rewrite Hp. apply Hc.
Qed.

Lemma move_front_good p c : content_good c -> content_good (set_map (moveCacheItemToFront p (m_map c)) c).
Proof.
  intros Hc. pose proof (move_front_perm p (m_map c)) as Hp. apply set_map_good; [done| |by apply Permutation_map].
  rewrite Hp. apply Hc.
Qed.

Lemma put_entry_keys e l : good_entry e -> Forall good_entry l -> map ce_key (put_entry e l) = map ce_key l /\ Forall good_entry (put_entry e l).
Proof.
  intros He Hl. split.
  - unfold put_entry. rewrite map_map. apply map_ext_in. intros x Hx%list_elem_of_In. rewrite Forall_forall in Hl.
    destruct (has_key_of (key_of_entry e) x) eqn:Hh; [|done]. apply has_key_of_spec in Hh; [done|by destruct He|by apply Hl].
  - apply Forall_fmap. eapply Forall_impl; [exact Hl|]. intros x Hx. cbn. by destruct (has_key_of _ x).
Qed.

Lemma put_good e c : good_entry e -> content_good c -> content_good (set_map (put_entry e (m_map c)) c).
Proof.
  intros He Hc. destruct (put_entry_keys e (m_map c) He) as [Hk Hg]; [by apply Hc|]. apply set_map_good; [done|done|by rewrite Hk].
Qed.

Lemma invalidate_good c : content_good c -> content_good (invalidate c).
Proof. intros [? ? ? ?]. by split. Qed.

Lemma set_ecs_good x c : content_good c -> Forall (fun x => named (x_qname x)) x -> content_good (set_ecs x c).
Proof. intros [? ? ? ?] ?. by split. Qed.

(** A shorter list with its count, the range forgotten. *)
Lemma fewer_good l n c :
  content_good c -> l `sublist_of` m_map c -> n = zlen l -> content_good (invalidate (set_shard (mkMap l n) c)).
Proof. intros [Hc He Hr Hx] Hs ->. split; [done| |done|done]. by eapply entries_good_sublist. Qed.

(** ** Lookups keep the invariant *)

#[local] Abbreviation good_state := (fun s : lookup => content_good (q_content s)).
Definition good_opt (o : option entry) : Prop := match o with Some e => good_entry e | None => True end.

Lemma keeps_content f : (forall c, content_good c -> content_good (f c)) -> keeps good_state (upd_content f) (fun _ => True).
Proof. intros Hf. apply keeps_modify. intros s Hs. by apply Hf. Qed.

Lemma keeps_out f : keeps good_state (upd_out f) (fun _ => True).
Proof. by apply keeps_modify. Qed.

Lemma keeps_tasks ops : keeps good_state (push_tasks ops) (fun _ => True).
Proof. by apply keeps_modify. Qed.

Lemma keeps_front e : keeps good_state (to_front e) (fun _ => True).
Proof. apply keeps_content. intros c. apply move_front_good. Qed.

Lemma keeps_back e : keeps good_state (to_back e) (fun _ => True).
Proof. apply keeps_content. intros c. apply (move_good (has_key_of (key_of_entry e))). Qed.

Lemma keeps_put e : good_entry e -> keeps good_state (upd_content (fun c => set_map (put_entry e (m_map c)) c)) (fun _ => True).
Proof. intros He. apply keeps_content. intros c. by apply put_good. Qed.

Lemma keeps_find k : keeps good_state (sm_get (fun s => find_entry k (m_map (q_content s)))) good_opt.
Proof.
  apply keeps_get. intros s Hs. unfold good_opt. destruct (find_entry k _) as [e|] eqn:Hf; [|done]. apply find_spec in Hf as [He _].
  by eapply good_in; [apply Hs|].
Qed.

Lemma keeps_any {A} (f : lookup -> A) : keeps good_state (sm_get f) (fun _ => True).
Proof. by apply keeps_get. Qed.

(** One step of a proof that a method keeps the invariant. *)
Ltac keep_step :=
  first
    [ apply keeps_ret
    | apply keeps_throw
    | eapply keeps_bind; [first [ apply keeps_find | apply keeps_front | apply keeps_back | apply keeps_tasks | apply keeps_out | apply keeps_throw_if
                                | apply keeps_lift | by apply keeps_put | by apply keeps_any ] | intros ? ? ] ].

Lemma handleServeStaleBookkeeping_keeps now serveStale e :
  good_entry e -> keeps good_state (handleServeStaleBookkeeping cfg now serveStale e) good_entry.
Proof. intros He. unfold handleServeStaleBookkeeping. destruct (_ && _ && _); repeat keep_step; done. Qed.

Lemma handleHit_keeps now want_res e qname : keeps good_state (handleHit cfg now want_res e qname) (fun _ => True).
Proof. unfold handleHit. keep_step. destruct (c_ttd e <=? now); repeat keep_step; done. Qed.

Lemma removeNetmask_name m x x' : removeNetmask m x = Ok x' -> x_qname x' = x_qname x.
Proof. unfold removeNetmask. destruct (tree_erase _ _ _); cbn; [by intros [= <-]|done]. Qed.

Lemma find_ecs_named qname qtype (l : list ECSIndexEntry) x : Forall (fun x => named (x_qname x)) l -> find_ecs qname qtype l = Some x -> named (x_qname x).
Proof. intros Hl [Hx _]%find_spec. rewrite Forall_forall in Hl. auto. Qed.

Lemma put_ecs_named x (l : list ECSIndexEntry) : named (x_qname x) -> Forall (fun x => named (x_qname x)) l -> Forall (fun x => named (x_qname x)) (put_ecs x l).
Proof. intros Hx Hl. apply Forall_fmap. eapply Forall_impl; [exact Hl|]. intros y Hy. cbn. by destruct (is_ecs _ _ y). Qed.

Lemma forget_netmask_keeps qname qtype best : keeps good_state (forget_netmask qname qtype best) (fun _ => True).
Proof.
  eapply (keeps_bind _ _ _ (Forall (fun x => named (x_qname x)))); [apply keeps_get; intros s Hs; apply Hs|]. intros l Hl.
  destruct (find_ecs qname qtype l) as [x|] eqn:Hf; [|by keep_step].
  eapply (keeps_bind _ _ _ (fun x' => x_qname x' = x_qname x)).
  { intros s Hs. split; [done|]. intros x' Hx'. by apply removeNetmask_name in Hx'. }
  intros x' Hx'. eapply keeps_bind; [|by intros; keep_step]. apply keeps_content. intros c Hc. apply set_ecs_good; [done|].
  pose proof (find_ecs_named _ _ _ _ Hl Hf) as Hn. rewrite <- Hx' in Hn.
  destruct (ecs_isEmpty x'); [by eapply forall_sublist; [apply filter_sublist|]|by apply put_ecs_named].
Qed.

Lemma ecs_loop_keeps fuel now qname qtype requireAuth who serveStale :
  keeps good_state (ecs_loop cfg fuel now qname qtype requireAuth who serveStale) (fun o => match o with Some o => good_opt o | None => True end).
Proof.
  induction fuel as [|fuel IH]; cbn [ecs_loop]; [by keep_step|]. keep_step. destruct (find_ecs qname qtype _) as [x|]; [|by keep_step].
  keep_step. case_match; [by keep_step|]. keep_step. destruct a1 as [e|].
  - eapply keeps_bind; [by apply handleServeStaleBookkeeping_keeps|]. intros e' He'. case_match; [keep_step; by case_match|].
    keep_step. eapply keeps_bind; [apply forget_netmask_keeps|]. intros gone _. destruct gone; [by keep_step|done].
  - eapply keeps_bind; [apply forget_netmask_keeps|]. intros gone _. destruct gone; [by keep_step|done].
Qed.

Lemma getEntryUsingECSIndex_keeps now qname qtype requireAuth who serveStale :
  keeps good_state (getEntryUsingECSIndex cfg now qname qtype requireAuth who serveStale) good_opt.
Proof.
  unfold getEntryUsingECSIndex. keep_step.
  eapply (keeps_bind _ _ _ (fun o => match o with Some o => good_opt o | None => True end)).
  { destruct (find_ecs qname qtype _) as [x|]; [|by keep_step]. case_match; [by keep_step|apply ecs_loop_keeps]. }
  intros [o|] Ho; [by keep_step|]. keep_step. destruct a0 as [e|]; [|by keep_step].
  eapply keeps_bind; [by apply handleServeStaleBookkeeping_keeps|]. intros e' He'. case_match; repeat keep_step; [by case_match|done].
Qed.

Lemma fakeTTD_keeps e qname qtype ret now flags : good_entry e -> keeps good_state (fakeTTD cfg e qname qtype ret now flags) (fun _ => True).
Proof.
  intros He. unfold fakeTTD. keep_step. repeat case_match; repeat keep_step; done.
Qed.

Context `{HRange : !RangeIndex C Sg Au}.

Lemma getEntries_good qname rtag c : named qname -> content_good c -> content_good (getEntries qname rtag c).
Proof.
  intros Hq Hc. unfold getEntries. destruct (range_is_cached qname rtag c); [done|]. destruct Hc as [H1 H2 H3 H4]. split; [done|done| |done].
  intros _. cbn [m_cachedqname m_cachecache m_cachedrtag m_map m_shard]. fold (m_map c). split; [done|]. split.
  - apply Forall_fmap. rewrite name_range_of_spec. apply Forall_forall. intros e [He _]%list_elem_of_In%filter_In. apply list_elem_of_In in He.
    by destruct (good_in _ _ H2 He).
  - rewrite map_map. apply (Permutation_map ce_key), name_range_of_spec.
Qed.

Lemma getEntries_range_keeps qname rtag : named qname -> keeps good_state (getEntries_range qname rtag) (Forall good_key).
Proof.
  intros Hq s Hs. unfold getEntries_range. cbn. pose proof (getEntries_good qname rtag _ Hq Hs) as Hg. split; [done|].
  intros keys [= <-]. destruct (cg_range _ Hg) as (_ & Hk & _); [|done]. unfold getEntries.
  destruct (range_is_cached qname rtag (q_content s)) eqn:Hc; [|done]. unfold range_is_cached in Hc. by destruct (m_cachecachevalid _).
Qed.

Lemma range_loop_keeps now want_res qname qtype requireAuth who serveStale keys : forall found ttd last,
  good_opt last ->
  keeps good_state (range_loop cfg now want_res qname qtype requireAuth who serveStale keys found ttd last) (fun r => good_opt (snd r)).
Proof.
  induction keys as [|k keys IH]; intros found ttd last Hl; cbn [range_loop]; [by keep_step|]. keep_step. destruct a as [e|]; [|by apply IH].
  case_match; [keep_step; by apply IH|]. case_match; [by apply IH|].
  eapply keeps_bind; [by apply handleServeStaleBookkeeping_keeps|]. intros e' He'. keep_step.
  eapply keeps_bind; [apply handleHit_keeps|]. intros t _. case_match; [by keep_step|]. case_match; [by keep_step|]. by apply IH.
Qed.

Lemma assign_state_keeps b : keeps good_state (assign_state b) (fun _ => True).
Proof. apply keeps_out. Qed.

Lemma range_result_keeps now qname qtype flags r : good_opt (snd r) -> keeps good_state (range_result cfg now qname qtype flags r) (fun _ => True).
Proof.
  intros Hr. destruct r as [[found ttd] [e|]]; unfold range_result; [|by keep_step]. case_match; [|by keep_step].
  eapply keeps_bind; [apply assign_state_keeps|]. intros _ _. by apply fakeTTD_keeps.
Qed.

Lemma get_range_keeps now want_res qname qtype flags requireAuth who serveStale rtag :
  named qname -> keeps good_state (get_range cfg now want_res qname qtype flags requireAuth who serveStale rtag) (fun _ => True).
Proof.
  intros Hq. unfold get_range. eapply keeps_bind; [by apply getEntries_range_keeps|]. intros keys Hk. case_match; [by keep_step|].
  eapply keeps_bind; [by apply range_loop_keeps|]. intros r Hr. eapply keeps_bind; [by apply range_result_keeps|]. intros; by keep_step.
Qed.

Lemma get_content_keeps now want_res qname qtype flags who routingTag :
  named qname -> keeps good_state (get_content cfg now want_res qname qtype flags who routingTag) (fun _ => True).
Proof.
  intros Hq. unfold get_content. keep_step. case_match.
  - case_match.
    + unfold get_addr_ecs. eapply keeps_bind; [apply getEntryUsingECSIndex_keeps|]. intros a' Ha'.
      eapply (keeps_bind _ _ _ (fun _ => True)); [destruct a'; [apply handleHit_keeps|by keep_step]|]. intros ret _.
      eapply keeps_bind; [apply getEntryUsingECSIndex_keeps|]. intros a6 Ha6.
      eapply (keeps_bind _ _ _ (fun _ => True)).
      { destruct a6; [|by keep_step]. keep_step. eapply keeps_bind; [apply handleHit_keeps|]. intros; by keep_step. }
      intros. eapply keeps_bind; [apply assign_state_keeps|]. intros; by keep_step.
    + unfold get_ecs. eapply keeps_bind; [apply getEntryUsingECSIndex_keeps|]. intros [e|] He; [|by keep_step].
      eapply keeps_bind; [apply handleHit_keeps|]. intros ret _. eapply keeps_bind; [apply assign_state_keeps|]. intros; by apply fakeTTD_keeps.
  - eapply (keeps_bind _ _ _ (fun _ => True)); [case_match; [by keep_step|by apply get_range_keeps]|]. intros [ret|] _; [by keep_step|].
    eapply keeps_bind; [by apply get_range_keeps|]. intros; by keep_step.
Qed.

(** ** Changes keep the invariant *)

Lemma append_good e c :
  content_good c -> good_entry e -> m_cachecachevalid c = false -> find_entry (key_of_entry e) (m_map c) = None -> content_good (append_entry e c).
Proof.
  intros [Hc Hl Hr Hx] He Hv Hf. split; [| |by intros Hv'; cbn in Hv'; congruence|done].
  - unfold counted in *. cbn. unfold m_count, m_map. rewrite zlen_app, Hc. done.
  - destruct Hl as [Hg Hk]. cbn. split; [apply Forall_app; split; [done|by apply Forall_singleton]|]. rewrite map_app. apply NoDup_app.
    split_and!; [done| |apply NoDup_singleton]. intros k Hin ->%list_elem_of_singleton. apply list_elem_of_fmap in Hin as (x & Hx' & Hin).
    assert (find_entry (key_of_entry e) (m_map c) = Some x) as Hs; [|congruence].
    apply find_entry_spec; [by destruct He|by split|]. done.
Qed.

Lemma index_netmask_keeps qname qtype ednsmask routingTag :
  named qname -> keeps content_good (index_netmask qname qtype ednsmask routingTag) (fun _ => True).
Proof.
  intros Hq. unfold index_netmask. destruct ednsmask as [m|]; [|by apply keeps_ret]. apply keeps_if; [|by apply keeps_ret].
  eapply (keeps_bind _ _ _ (Forall (fun x => named (x_qname x)))); [apply keeps_get; intros c Hc; apply Hc|]. intros ecs He.
  eapply (keeps_bind _ _ _ (fun x => named (x_qname x))).
  - destruct (find_ecs qname qtype ecs) as [x|] eqn:Hf; [apply keeps_ret; by eapply find_ecs_named|].
    eapply (keeps_bind _ _ _ (fun _ => True)); [|by intros _ _; apply keeps_ret]. apply keeps_modify. intros c Hc. apply set_ecs_good; [done|].
    apply Forall_app. split; [done|]. by apply Forall_singleton.
  - intros x Hx. eapply (keeps_bind _ _ _ (fun x' => named (x_qname x'))).
    + intros c Hc. split; [done|]. unfold ecs_addMask. destruct (insert_or_assign _ _ _ _); cbn; [|done]. by intros y [= <-].
    + intros y Hy. apply keeps_modify. intros c Hc. apply set_ecs_good; [done|]. apply put_ecs_named; [done|apply Hc].
Qed.

Lemma replaced_entry_good qtype records signatures authorityRecs auth authZone state extra ttl_time maxTTD e :
  good_entry e -> good_entry (replaced_entry cfg qtype records signatures authorityRecs auth authZone state extra ttl_time maxTTD e).
Proof. intros He. unfold replaced_entry. by destruct (store_records _ _ _ _ _ _ _ _) as [[ttd orig] stored]. Qed.

Lemma shouldReplace_good now auth state refresh e : good_entry e -> good_entry (fst (shouldReplace cfg now auth state refresh e)).
Proof.
  intros He. unfold shouldReplace. destruct (negb auth && c_auth e && _); [done|]. destruct (negb auth && c_auth e);
    cbn zeta; (destruct (auth && (_ && _ && _ && _)); [done|]); by destruct (auth && _).
Qed.

Lemma replace_stored_keeps now qname qtype records signatures authorityRecs auth authZone ednsmask routingTag state extra refresh ttl_time isNew stored :
  named qname -> good_entry stored ->
  keeps content_good (replace_stored cfg now qname qtype records signatures authorityRecs auth authZone ednsmask routingTag state extra refresh ttl_time isNew stored)
    (fun _ => True).
Proof.
  intros Hq Hst. unfold replace_stored. eapply (keeps_bind _ _ _ (fun _ => True)).
  { case_match; [by apply index_netmask_keeps|by apply keeps_ret]. }
  intros _ _. destruct (if isNew then _ else _) as [e proceed] eqn:Hep. assert (good_entry e) as Hge.
  { destruct isNew; [by injection Hep as <- _|]. pose proof (shouldReplace_good now auth state refresh stored Hst) as Hsr. by rewrite Hep in Hsr. }
  apply keeps_if; [by apply keeps_ret|]. apply keeps_if; [by apply keeps_ret|]. eapply (keeps_bind _ _ _ (fun _ => True)).
  - destruct isNew; [by apply keeps_ret|]. apply keeps_modify. intros c Hc. by apply (move_good (has_key_of (key_of_entry stored))).
  - intros _ _. apply keeps_modify. intros c Hc. apply put_good; [|done]. by apply (replaced_entry_good _ _ _ _ _ _ _ _ _ _ e).
Qed.

(** A network as a caller passes it. *)
Definition mask_good (m : option Netmask) : Prop := match m with Some m => nm_ok m \/ m = nm_default | None => True end.

Lemma nm_default_valid : nm_valid nm_default.
Proof. by_decide. Qed.

Lemma ok_valid m : nm_ok m -> nm_valid m.
Proof. intros Hm. pose proof (nm_ok_network _ Hm) as Ha. unfold nm_valid, nm_empty. destruct Ha as [[[Hf _]|[Hf _]] Hb]; rewrite Hf; apply Hm. Qed.

Lemma mask_normal m : mask_good (Some m) -> getNormalized m = m /\ nm_valid m.
Proof. intros [Hm| ->]; [by split; [apply nm_ok_make|apply ok_valid]|by split; [|apply nm_default_valid]]. Qed.

(** The key of [replace] is one of the cache, and normalizing it again changes
    nothing. *)
Lemma replace_key_good qname qtype mask routingTag :
  named qname -> mask_good mask ->
  let k := replace_key qname qtype (option_map getNormalized mask) routingTag in good_key k /\ getNormalized (k_netmask k) = k_netmask k.
Proof.
  intros Hq Hm. unfold replace_key, good_key. cbn. pose proof nm_default_valid.
  destruct mask as [m|]; cbn; [|done]. destruct (mask_normal m Hm) as [-> Hv]. case_bool_decide; [|done]. by destruct (mask_normal m Hm).
Qed.

Lemma replace_content_good now qname qtype records signatures authorityRecs auth authZone mask routingTag state extra refresh ttl_time c :
  named qname -> hash qname 0 mod count = i -> mask_good mask -> content_good c ->
  content_good (fst (replace_content cfg now qname qtype records signatures authorityRecs auth authZone mask routingTag state extra refresh ttl_time c)).
Proof.
  intros Hq Hi Hm Hc. pose proof (replace_key_good qname qtype mask routingTag Hq Hm) as [Hk Hnorm]. apply invalidate_good in Hc.
  set (key := replace_key _ _ _ _) in Hk, Hnorm. unfold replace_content. rewrite sm_bind_run. cbn [sm_modify]. fold key.
  assert (k_qname key = qname) as Hkq by done. clearbody key. rewrite sm_bind_run. cbn [sm_get].
  destruct (find_entry key (m_map (invalidate c))) as [e|] eqn:Hf.
  - apply replace_stored_keeps; [done| |done]. apply find_spec in Hf as [He _]. by eapply good_in; [apply Hc|].
  - rewrite sm_bind_run. cbn [sm_modify].
    assert (key_of_entry (ce_make (C:=C) (Sg:=Sg) (Au:=Au) key auth) = key) as Hkey by (unfold key_of_entry; cbn; rewrite Hnorm; by destruct key).
    assert (good_entry (ce_make (C:=C) (Sg:=Sg) (Au:=Au) key auth)) as Hge by (split; [by rewrite Hkey|cbn; by rewrite Hkq]).
    apply replace_stored_keeps; [done|done|]. apply append_good; [done|done|done|]. by rewrite Hkey.
Qed.

Lemma emplace_content_good e c : good_entry e -> content_good c -> content_good (fst (emplace_content e c)).
Proof.
  intros He Hc0. pose proof (invalidate_good _ Hc0) as Hc. unfold emplace_content. destruct (_ || _) eqn:Hb; [done|].
  rewrite sm_bind_run. cbn [sm_modify]. rewrite sm_bind_run. cbn [sm_get]. destruct (find_entry (key_of_entry e) (m_map (invalidate c))) as [x|] eqn:Hf; [done|].
  rewrite sm_bind_run. cbn [sm_modify fst mret SM_ret]. by apply append_good.
Qed.

(** ** Wiping *)

Lemma ce_leb_le a b : named (c_qname a) -> named (c_qname b) ->
  if ce_leb a b then name_le (@c_qname C Sg Au) a b else name_le (@c_qname C Sg Au) b a.
Proof. apply (leb_by_name _ _ (fun a b => ce_leb_rest a b)). done. Qed.

Lemma ecs_leb_le a b : named (x_qname a) -> named (x_qname b) -> if ecs_leb a b then name_le x_qname a b else name_le x_qname b a.
Proof. by apply (leb_by_name _ _ (fun a b => x_qtype a <=? x_qtype b)). Qed.

(** The entries a wipe is to remove. *)
Definition ce_wiped (name : DNSName) (sub : bool) (qtype : Z) e : bool :=
  (if sub then in_subtree c_qname name e else at_name c_qname name e) && of_type qtype (c_qtype e).

Lemma same_entry_key_spec l a b : entries_good l -> a ∈ l -> b ∈ l -> same_entry_key a b = true <-> a = b.
Proof.
  intros Hl Ha Hb. pose proof (good_in _ _ Hl Ha) as Hga. unfold same_entry_key. rewrite has_key_of_spec; [|by destruct Hga|by eapply good_in].
  split; [|by intros ->]. intros Hk. apply (nodup_map_inj ce_key l); [apply Hl|done|done|done].
Qed.

Lemma wipe_sub_content_spec name qtype c :
  named name -> content_good c ->
  exists c', wipe_sub_content name qtype c = Ok (c', zlen (List.filter (ce_wiped name true qtype) (m_map c)))
    /\ content_good c' /\ m_map c' = List.filter (fun e => negb (ce_wiped name true qtype e)) (m_map c).
Proof.
  intros Hn Hc. unfold wipe_sub_content.
  rewrite (erase_range_exact c_qname _ ce_leb_le name Hn (in_subtree c_qname name)); [|by apply subtree_range| | | |].
  2: { intros e He. by apply isPartOf_key. }
  2: { apply Forall_forall. intros e He. by destruct (good_in _ _ (cg_entries _ Hc) He) as [[? _] _]. }
  2: { intros e x He Hx Hs. by apply (same_entry_key_spec _ _ _ (cg_entries _ Hc) He Hx) in Hs as <-. }
  2: { intros e He. by apply (same_entry_key_spec _ _ _ (cg_entries _ Hc) He He). }
  cbn [mbind result_bind].
  assert (exists ecs n, erase_range (fun x => isPartOf (x_qname x) name) (fun x => of_type qtype (x_qtype x)) same_ecs
        (lower_bound x_qname name (ordered_index ecs_leb (m_ecsIndex c))) (m_ecsIndex c) 0 = Ok (ecs, n)
        /\ ecs `sublist_of` m_ecsIndex c) as (ecs & n & -> & Hsub).
  { rewrite (erase_range_exact x_qname _ ecs_leb_le name Hn (in_subtree x_qname name)); [|by apply subtree_range| | | |].
    - do 2 eexists. split; [done|]. apply filter_sublist.
    - intros e He. by apply isPartOf_key.
    - apply Hc.
    - intros e x He Hx. apply same_ecs_same; pose proof (cg_ecs _ Hc) as Hx'; rewrite Forall_forall in Hx'; auto.
    - intros e He. apply same_ecs_refl. pose proof (cg_ecs _ Hc) as Hx'; rewrite Forall_forall in Hx'; auto. }
  cbn [mbind result_bind]. rewrite Z.add_0_l. eexists. split; [done|]. split; [|done]. apply set_ecs_good; [|by eapply forall_sublist; [|apply Hc]].
  apply fewer_good; [done|apply filter_sublist|]. unfold m_count. rewrite (cg_count _ Hc), filter_both_zlen. done.
Qed.

Lemma wipe_name_content_good name qtype c : content_good c -> content_good (fst (wipe_name_content name qtype c)).
Proof.
  intros Hc. unfold wipe_name_content. cbn [fst]. apply set_ecs_good; [|eapply forall_sublist; [apply filter_sublist|apply Hc]].
  apply fewer_good; [done|apply filter_sublist|]. unfold m_count. rewrite (cg_count _ Hc), filter_both_zlen. done.
Qed.

(** ** Ageing, validation and pruning *)

Lemma age_content_good now name qtype newTTL c : content_good c -> content_good (fst (age_content now name qtype newTTL c)).
Proof.
  intros Hc. unfold age_content. destruct (first_of_type name qtype (m_map c)) as [e|] eqn:Hf; [|done].
  apply find_spec in Hf as [He _]. rewrite ordered_perm in He. pose proof (good_in _ _ (cg_entries _ Hc) He) as Hge. apply invalidate_good in Hc as Hi.
  destruct (_ <? now); [done|]. destruct (newTTL <? _); [|done]. cbn [fst]. destruct (_ <? c_ttd e); [|done].
  by apply (put_good (with_stale (now + newTTL) (c_servedStale e) e)).
Qed.

Lemma update_loop_keeps qtype requireAuth who newState capTTD keys :
  keeps good_state (update_loop qtype requireAuth who newState capTTD keys) (fun _ => True).
Proof.
  induction keys as [|k keys IH]; cbn [update_loop]; [by keep_step|]. keep_step. destruct a as [e|]; [|done]. case_match; [done|].
  eapply keeps_bind; [by apply keeps_put|]. intros; by keep_step.
Qed.

Lemma update_content_keeps now qname qtype who routingTag requireAuth newState capTTD :
  named qname -> keeps good_state (update_content cfg now qname qtype who routingTag requireAuth newState capTTD) (fun _ => True).
Proof.
  intros Hq. unfold update_content. do 3 keep_step. case_match.
  - eapply keeps_bind; [apply getEntryUsingECSIndex_keeps|]. intros [e|] He; [|by keep_step]. eapply keeps_bind; [by apply keeps_put|]. intros; by keep_step.
  - eapply keeps_bind; [by apply getEntries_range_keeps|]. intros keys _. apply update_loop_keeps.
Qed.

Lemma drop_netmask_named m x (ecs ecs' : list ECSIndexEntry) :
  named (x_qname x) -> Forall (fun x => named (x_qname x)) ecs -> drop_netmask m x ecs = Ok ecs' -> Forall (fun x => named (x_qname x)) ecs'.
Proof.
  intros Hx Hl. unfold drop_netmask. destruct (removeNetmask m x) as [x'|] eqn:Hr; cbn; [|done]. intros [= <-].
  apply removeNetmask_name in Hr. case_match; [by eapply forall_sublist; [apply filter_sublist|]|]. apply put_ecs_named; [by rewrite Hr|done].
Qed.

Lemma preRemovals_named (es : list entry) : forall (ecs ecs' : list ECSIndexEntry),
  Forall (fun x => named (x_qname x)) ecs -> preRemovals es ecs = Ok ecs' -> Forall (fun x => named (x_qname x)) ecs'.
Proof.
  induction es as [|e es IH]; intros ecs ecs' Hl; cbn [preRemovals]; [by intros [= <-]|].
  destruct (preRemoval e ecs) as [ecs1|] eqn:Hp; cbn [mbind result_bind]; [|done]. apply IH. unfold preRemoval in Hp.
  destruct (nm_empty _); [by injection Hp as <-|]. destruct (find_ecs _ _ _) as [x|] eqn:Hf; [|by injection Hp as <-].
  eapply drop_netmask_named; [|exact Hl|exact Hp]. by eapply find_ecs_named.
Qed.

Lemma prune_content_good c scanned trimmed c' :
  content_good c -> counted trimmed -> d_map trimmed `sublist_of` m_map c -> prune_content c scanned trimmed = Ok c' ->
  content_good c' /\ m_shard c' = trimmed.
Proof.
  intros Hc Ht Hs. unfold prune_content. destruct (preRemovals _ _) as [ecs|] eqn:Hp; cbn [mbind result_bind]; [|done]. intros [= <-].
  split; [|done]. apply set_ecs_good; [|eapply preRemovals_named; [|exact Hp]; apply Hc]. destruct trimmed as [l n]. apply fewer_good; [done|done|exact Ht].
Qed.
End shard.
End facts.
