(* ===== verification/RecursorCacheSpec.v ===== *)
(** * What the record cache guarantees

    The invariant over any history, what is found after a set was stored, which data
    replaces which, and where the index of client networks goes wrong. *)

From S2P Require Import Prelude Chars Dns Names NamesFacts NamesOrder NamesSpec NamesWire Denial DenialFacts Validate IpUtils.
From S2P Require Import NetTree NetGroups NameIndex CacheCleaner TaskQueue RecursorCache RecursorCacheOps RecursorCacheFacts.

#[local] Open Scope Z_scope.

Section spec.
Context {C Sg Au : Type} (cfg : cache_settings C Sg Au).
#[local] Abbreviation entry := (CacheEntry C Sg Au).
#[local] Abbreviation content := (Content C Sg Au).
#[local] Abbreviation cache := (list (Content C Sg Au)).
Implicit Types (e : CacheEntry C Sg Au) (l : list (CacheEntry C Sg Au)) (c : Content C Sg Au) (maps : list (Content C Sg Au)).

(** ** Shards *)

Definition mrc_ok maps : Prop := maps <> [] /\ forall i c, maps !! i = Some c -> content_good (zlen maps) (Z.of_nat i) c.

Definition mrc_entries maps : list entry := concat (map m_map maps).

Lemma mrc_index maps qname : maps <> [] ->
  Z.of_nat (mrc_getMap maps qname) = hash qname 0 mod zlen maps /\ is_Some (maps !! mrc_getMap maps qname).
Proof.
  intros Hne. assert (zlen maps <> 0) by (intros E; by apply zlen_zero_inv in E). pose proof (zlen_nonneg maps).
  pose proof (Z.mod_pos_bound (hash qname 0) (zlen maps)). unfold mrc_getMap. split; [lia|]. apply lookup_lt_is_Some. unfold zlen in *. lia.
Qed.

Lemma content_at_good maps qname : mrc_ok maps -> content_good (zlen maps) (hash qname 0 mod zlen maps) (content_at maps (mrc_getMap maps qname)).
Proof.
  intros [Hne Hok]. destruct (mrc_index maps qname Hne) as [Hi [c Hc]]. unfold content_at. rewrite Hc, <- Hi. by apply Hok.
Qed.

Lemma mrc_put maps qname c :
  mrc_ok maps -> content_good (zlen maps) (hash qname 0 mod zlen maps) c -> mrc_ok (<[mrc_getMap maps qname := c]> maps).
Proof.
  intros [Hne Hok] Hc. split; [intros E; apply (f_equal length) in E; rewrite length_insert in E; by destruct maps|].
  intros j x Hj. replace (zlen (<[mrc_getMap maps qname := c]> maps)) with (zlen maps) by (unfold zlen; by rewrite length_insert).
  apply list_lookup_insert_Some in Hj as [(<- & -> & _)|[_ Hj]]; [|by apply Hok]. by rewrite (proj1 (mrc_index maps qname Hne)).
Qed.

Lemma mrc_size_entries maps : mrc_ok maps -> mrc_size maps = zlen (mrc_entries maps).
Proof.
  intros [_ Hok]. assert (Forall (fun c => counted (m_shard c)) maps) as Hc.
  { apply Forall_forall. intros c [i Hi]%list_elem_of_lookup. apply (Hok i c Hi). }
  clear Hok. induction Hc as [|c maps Hc Hcs IH]; [done|]. change (mrc_entries (c :: maps)) with (m_map c ++ mrc_entries maps).
  rewrite zlen_app, <- IH. cbn [mrc_size foldr]. unfold m_count, m_map. by rewrite Hc.
Qed.

Lemma elem_of_mrc maps e : e ∈ mrc_entries maps <-> exists i c, maps !! i = Some c /\ e ∈ m_map c.
Proof. apply elem_of_concat_map. Qed.

(** ** Every history *)

Lemma wipe_sub_good count name qtype maps : forall count0 maps' n (i0 : nat),
  named name -> (forall j c, maps !! j = Some c -> content_good count (Z.of_nat (i0 + j)) c) ->
  wipe_sub name qtype maps count0 = Ok (maps', n) ->
  length maps' = length maps /\ forall j c, maps' !! j = Some c -> content_good count (Z.of_nat (i0 + j)) c.
Proof.
  induction maps as [|c maps IH]; intros count0 maps' n i0 Hn Hg; cbn [wipe_sub]; [by intros [= <- <-]|].
  destruct (wipe_sub_content_spec count (Z.of_nat (i0 + 0)) name qtype c Hn (Hg O c eq_refl)) as (c1 & -> & Hc1 & _).
  cbn [mbind result_bind]. destruct (wipe_sub name qtype maps _) as [[maps1 n1]|] eqn:Hw; cbn [mbind result_bind]; [|done].
  intros [= <- <-]. apply (IH _ _ _ (S i0) Hn) in Hw as [Hl Hm].
  2: { intros j x Hj. rewrite Nat.add_succ_l, <- Nat.add_succ_r. by apply Hg. }
  split; [cbn; lia|]. intros [|j] x Hj; [by injection Hj as <-|]. rewrite Nat.add_succ_r, <- Nat.add_succ_l. by apply Hm.
Qed.

Lemma prune_contents_good count P maps : forall scanned trimmed maps' (i0 : nat),
  (forall j c, maps !! j = Some c -> content_good count (Z.of_nat (i0 + j)) c) ->
  Forall2 (left_of P) (map m_shard maps) trimmed -> prune_contents maps scanned trimmed = Ok maps' ->
  length maps' = length maps /\ forall j c, maps' !! j = Some c -> content_good count (Z.of_nat (i0 + j)) c.
Proof.
  induction maps as [|c maps IH]; intros scanned trimmed maps' i0 Hg Hl; cbn [prune_contents]; [by intros [= <-]|].
  destruct scanned as [|s scanned]; [by intros [= <-]|]. destruct trimmed as [|t trimmed]; [by intros [= <-]|].
  apply Forall2_cons in Hl as [(Hct & Hst & _) Hl]. destruct (prune_content c s t) as [c1|] eqn:Hp; cbn [mbind result_bind]; [|done].
  destruct (prune_contents maps scanned trimmed) as [maps1|] eqn:Hps; cbn [mbind result_bind]; [|done]. intros [= <-].
  apply (prune_content_good count (Z.of_nat (i0 + 0))) in Hp as [Hc1 _]; [|by apply Hg|done|done].
  destruct (IH scanned trimmed maps1 (S i0)) as [Hlen Hm]; [|done|done|].
  { intros j x Hj. rewrite Nat.add_succ_l, <- Nat.add_succ_r. by apply Hg. }
  split; [cbn; lia|]. intros [|j] x Hj; [by injection Hj as <-|]. rewrite Nat.add_succ_r, <- Nat.add_succ_l. by apply Hm.
Qed.

Context `{HR : !RangeIndex C Sg Au, HQ : !Quotas}.

(** One call of an operation. *)
Inductive mrc_step maps : cache -> Prop :=
| mrc_step_get now want_res qname qtype flags who routingTag signatures variable :
    named qname -> mrc_step maps (ga_maps (mrc_get cfg maps now want_res qname qtype flags who routingTag signatures variable))
| mrc_step_replace now qname qtype records signatures authorityRecs auth authZone mask routingTag state extra refresh ttl_time :
    named qname -> mask_good mask ->
    mrc_step maps (fst (mrc_replace cfg maps now qname qtype records signatures authorityRecs auth authZone mask routingTag state extra refresh ttl_time))
| mrc_step_emplace e : good_key (key_of_entry e) -> mrc_step maps (fst (mrc_replace_entry maps e))
| mrc_step_wipe name sub qtype maps' n : named name -> doWipeCache maps name sub qtype = Ok (maps', n) -> mrc_step maps maps'
| mrc_step_age now name qtype newTTL : mrc_step maps (fst (doAgeCache maps now name qtype newTTL))
| mrc_step_update now qname qtype who routingTag requireAuth newState capTTD :
    named qname -> mrc_step maps (fst (fst (mrc_updateValidationStatus cfg maps now qname qtype who routingTag requireAuth newState capTTD)))
| mrc_step_prune now keep maps' : 0 <= keep -> mrc_size maps < 2 ^ 26 -> doPrune cfg maps now keep = Ok maps' -> mrc_step maps maps'.

Lemma mrc_get_ok maps now want_res qname qtype flags who routingTag signatures variable :
  mrc_ok maps -> named qname -> mrc_ok (ga_maps (mrc_get cfg maps now want_res qname qtype flags who routingTag signatures variable)).
Proof.
  intros Hok Hq. unfold mrc_get. set (s0 := mkLook _ _ _).
  destruct (get_content_keeps cfg (zlen maps) (hash qname 0 mod zlen maps) now want_res qname qtype flags who routingTag Hq s0) as [Hg _];
    [by apply content_at_good|]. destruct (get_content _ _ _ _ _ _ _ _ s0) as [s r]. by apply mrc_put.
Qed.

Lemma replace_ok maps now qname qtype records signatures authorityRecs auth authZone mask routingTag state extra refresh ttl_time :
  mrc_ok maps -> named qname -> mask_good mask ->
  mrc_ok (fst (mrc_replace cfg maps now qname qtype records signatures authorityRecs auth authZone mask routingTag state extra refresh ttl_time)).
Proof.
  intros Hok Hq Hm. unfold mrc_replace, on_shard.
  pose proof (replace_content_good cfg (zlen maps) (hash qname 0 mod zlen maps) now qname qtype records signatures authorityRecs auth authZone mask
    routingTag state extra refresh ttl_time _ Hq eq_refl Hm (content_at_good maps qname Hok)) as Hg.
  destruct (replace_content _ _ _ _ _ _ _ _ _ _ _ _ _ _ _ _) as [c r]. by apply mrc_put.
Qed.

Lemma step_ok maps maps' : mrc_step maps maps' -> mrc_ok maps -> mrc_ok maps'.
Proof.
  intros Hstep Hok. destruct Hstep as [now want_res qname qtype flags who routingTag signatures variable Hq
    |now qname qtype records signatures authorityRecs auth authZone mask routingTag state extra refresh ttl_time Hq Hm
    |e He|name sub qtype maps' n Hn Hw|now name qtype newTTL|now qname qtype who routingTag requireAuth newState capTTD Hq|now keep maps' Hk Hs Hp].
  - by apply mrc_get_ok.
  - by apply replace_ok.
  - unfold mrc_replace_entry, on_shard. pose proof (emplace_content_good (zlen maps) (hash (c_qname e) 0 mod zlen maps) e _ (conj He eq_refl)
      (content_at_good maps (c_qname e) Hok)) as Hg. destruct (emplace_content e _) as [c r]. by apply mrc_put.
  - unfold doWipeCache in Hw. destruct sub.
    + destruct Hok as [Hne Hok]. destruct (wipe_sub_good (zlen maps) name qtype maps 0 maps' n 0 Hn Hok Hw) as [Hl Hg].
      split; [by destruct maps, maps'|]. intros i c Hi. replace (zlen maps') with (zlen maps) by (unfold zlen; lia). by apply (Hg i c).
    + pose proof (wipe_name_content_good (zlen maps) (hash name 0 mod zlen maps) name qtype _ (content_at_good maps name Hok)) as Hg.
      destruct (wipe_name_content name qtype _) as [c k]. injection Hw as <- _. by apply mrc_put.
  - unfold doAgeCache. pose proof (age_content_good (zlen maps) (hash name 0 mod zlen maps) now name qtype newTTL _ (content_at_good maps name Hok)) as Hg.
    destruct (age_content now name qtype newTTL _) as [c b]. by apply mrc_put.
  - unfold mrc_updateValidationStatus. set (s0 := mkLook _ _ _).
    destruct (update_content_keeps cfg (zlen maps) (hash qname 0 mod zlen maps) now qname qtype who routingTag requireAuth newState capTTD Hq s0) as [Hg _];
      [by apply content_at_good|]. destruct (update_content _ _ _ _ _ _ _ _ _ s0) as [s r]. by apply mrc_put.
  - unfold doPrune in Hp. destruct ((zlen maps =? 0) || (mrc_size maps =? 0)) eqn:Hz; [by injection Hp as <-|].
    destruct (prune_phases (ce_isStale cfg now) (map m_shard maps) keep (mrc_size maps)) as [scanned trimmed] eqn:Hph.
    assert (mrc_size maps = total_count (map m_shard maps)) as Htot.
    { clear. induction maps as [|c maps IH]; [done|]. cbn [mrc_size foldr map total_count]. by rewrite <- IH. }
    destruct Hok as [Hne Hok]. destruct (pruneMutexCollectionsVector (ce_isStale cfg now) (map m_shard maps) keep (total_count (map m_shard maps))) as [t k] eqn:Hpm.
    assert (t = trimmed) as ->.
    { rewrite <- Htot in Hpm. pose proof (prune_phases_end (ce_isStale cfg now) (map m_shard maps) keep (mrc_size maps)) as Hend.
      unfold zlen in Hend, Hz. rewrite length_map in Hend. rewrite Hph, Hpm in Hend. by apply Hend. }
    apply prune_bounded in Hpm as (Hl & _); [| |done|by rewrite <- Htot].
    2: { apply Forall_fmap, Forall_forall. intros c [i Hi]%list_elem_of_lookup. apply (Hok i c Hi). }
    destruct (prune_contents_good (zlen maps) _ maps scanned trimmed maps' 0 Hok Hl Hp) as [Hlen Hg].
    split; [by destruct maps, maps'|]. intros i c Hi. replace (zlen maps') with (zlen maps) by (unfold zlen; lia). by apply (Hg i c).
Qed.

Lemma mrc_make_ok mapsCount : 0 <= mapsCount -> mrc_ok (mrc_make mapsCount).
Proof.
  intros Hc. unfold mrc_make. set (k := Z.to_nat _). assert (0 < k)%nat as Hk by (unfold k; destruct (Z.eqb_spec mapsCount 0); lia).
  split; [by destruct k; [lia|]|]. intros i c [-> _]%lookup_replicate. split; [done|split; constructor|done|constructor].
Qed.

Lemma mrc_history_ok (mapsCount : Z) maps : 0 <= mapsCount -> rtc mrc_step (mrc_make mapsCount) maps -> mrc_ok maps.
Proof.
  intros Hc Hr. pose proof (mrc_make_ok mapsCount Hc) as Hm. induction Hr as [|a b d Hab _ IH]; [done|]. apply IH. by eapply step_ok.
Qed.

(** The entries of a name are in its shard. *)
Lemma entry_shard maps qname e :
  mrc_ok maps -> named qname -> e ∈ mrc_entries maps -> nkey (c_qname e) = nkey qname -> e ∈ m_map (content_at maps (mrc_getMap maps qname)).
Proof.
  intros [Hne Hok] Hq (i & c & Hi & He)%elem_of_mrc Hk. pose proof (Hok i c Hi) as Hg.
  destruct (good_in _ _ _ _ (cg_entries _ _ _ Hg) He) as [[Hn _] Hh].
  assert (hash (c_qname e) 0 = hash qname 0) as Hhash by (apply equal_names_equal_hashes; [by apply named_wf..|]; by apply name_eqb_key).
  destruct (mrc_index maps qname Hne) as [Hj _]. rewrite Hhash in Hh. unfold content_at. replace (mrc_getMap maps qname) with i by lia. by rewrite Hi.
Qed.

(** C33: after any history of lookups, insertions, wipes, ageings, updates and
    prunings, also of calls that threw, each name, type, tag and network has at most
    one set of records, [size()] counts the sets, and a range that a shard remembers
    from its last lookup lists exactly the sets of that name and tag. *)
Theorem mrc_invariant (mapsCount : Z) maps :
  0 <= mapsCount -> rtc mrc_step (mrc_make mapsCount) maps ->
  mrc_size maps = zlen (mrc_entries maps)
  /\ (forall e e', e ∈ mrc_entries maps -> e' ∈ mrc_entries maps -> ce_key e = ce_key e' -> e = e')
  /\ forall i c, maps !! i = Some c -> m_cachecachevalid c = true ->
       forall k, k ∈ map abs_key (m_cachecache c)
         <-> exists e, e ∈ m_map c /\ of_name (m_cachedqname c) (m_cachedrtag c) e = true /\ ce_key e = k.
Proof.
  intros Hc Hr. pose proof (mrc_history_ok _ _ Hc Hr) as Hok.
  split_and!; [by apply mrc_size_entries| |].
  - intros e e' He He' Hk. assert (named (c_qname e')) as Hn.
    { apply elem_of_mrc in He' as (i & c & Hi & He'). destruct (good_in _ _ _ _ (cg_entries _ _ _ (proj2 Hok i c Hi)) He') as [[Hn _] _]. done. }
    assert (nkey (c_qname e) = nkey (c_qname e')) as Hnk by (unfold ce_key, abs_key in Hk; by injection Hk).
    pose proof (content_at_good maps (c_qname e') Hok) as Hg. apply (entry_shard maps (c_qname e')) in He; [|done..]. apply (entry_shard maps (c_qname e')) in He'; [|done..].
    apply (nodup_map_inj ce_key (m_map (content_at maps (mrc_getMap maps (c_qname e'))))); [apply Hg|done..].
  - intros i c Hi Hv k. destruct Hok as [_ Hok]. destruct (cg_range _ _ _ (Hok i c Hi) Hv) as (_ & _ & ->). rewrite list_elem_of_fmap.
    split; intros (e & He).
    + destruct He as (-> & He). apply list_elem_of_In, filter_In in He as [He Hn]. apply list_elem_of_In in He. eauto.
    + destruct He as (He & Hn & <-). exists e. split; [done|]. apply list_elem_of_In, filter_In. by rewrite <- list_elem_of_In.
Qed.

(** ** What replaces what *)

Section replacing.
Context (now : Z) (qname : DNSName) (qtype : Z) (records : list (Z * C)) (signatures : list Sg) (authorityRecs : list Au)
  (auth : bool) (authZone : DNSName) (mask : option Netmask) (routingTag : bytes) (state : vState)
  (extra : option (ComboAddress * bool)) (refresh : bool) (ttl_time : Z).

#[local] Abbreviation stored_key := (replace_key qname qtype (option_map getNormalized mask) routingTag).
#[local] Abbreviation replacing := (replace_content cfg now qname qtype records signatures authorityRecs auth authZone mask routingTag state extra refresh ttl_time).
#[local] Abbreviation storing := (replace_stored cfg now qname qtype records signatures authorityRecs auth authZone (option_map getNormalized mask) routingTag state extra refresh ttl_time).

(** The entry to be filled, and whether to do it. *)
Definition candidate (isNew : bool) e : entry * bool := if isNew then (e, true) else shouldReplace cfg now auth state refresh e.

Definition ttd_limit (isNew : bool) e : option Z :=
  if c_auth e && auth && (qtype =? QType.NS) && negb isNew && negb (isRoot qname) then Some (c_ttd e) else None.

Definition filled (isNew : bool) e : entry :=
  replaced_entry cfg qtype records signatures authorityRecs auth authZone state extra ttl_time (ttd_limit isNew e) e.

Lemma index_netmask_map m tag c : m_map (fst (index_netmask qname qtype m tag c)) = m_map c.
Proof.
  unfold index_netmask. destruct m as [m|]; [|done]. destruct (_ && _); [|done]. rewrite sm_bind_run. cbn [sm_get].
  destruct (find_ecs qname qtype (m_ecsIndex c)); unfold mbind, SM_bind; cbn; by destruct (ecs_addMask m _).
Qed.

(** What storing makes of the list: nothing, or the new entry in the place of the
    old one. *)
Lemma storing_map isNew e c :
  let e1 := fst (candidate isNew e) in
  let c' := fst (storing isNew e c) in
  m_map c' = m_map c
  \/ (snd (candidate isNew e) = true
      /\ m_map c' = put_entry (finished_entry (filled isNew e1)) (if isNew then m_map c else moveCacheItemToBack (has_key_of (key_of_entry e)) (m_map c))).
Proof.
  intros e1 c'. subst c'. unfold replace_stored. rewrite sm_bind_run.
  set (step := if isNew || (c_ttd e <=? now) then _ else _). assert (m_map (fst (step c)) = m_map c) as Hm.
  { subst step. destruct (isNew || (c_ttd e <=? now)); [|done]. apply index_netmask_map. }
  destruct (step c) as [c1 [u|x]]; cbn [fst] in Hm; [|by left]. fold (candidate isNew e). subst e1.
  destruct (candidate isNew e) as [e1 proceed]. cbn [fst snd]. destruct proceed; cbn [negb]; [|by left].
  fold (ttd_limit isNew e1). fold (filled isNew e1). destruct (_ && (_ <? _)); [by left|]. right. split; [done|].
  destruct isNew; unfold mbind, SM_bind, mret, SM_ret, sm_modify; cbn; unfold m_map; cbn; unfold m_map in Hm; by rewrite Hm.
Qed.

Lemma candidate_key isNew e : key_of_entry (fst (candidate isNew e)) = key_of_entry e.
Proof.
  unfold candidate, shouldReplace. destruct isNew; [done|]. destruct (negb auth && c_auth e && _); [done|]. destruct (negb auth && c_auth e);
    cbn zeta; (destruct (auth && (_ && _ && _ && _)); [done|]); by destruct (auth && _).
Qed.

Lemma filled_key isNew e : c_qtype e = qtype -> key_of_entry (finished_entry (filled isNew e)) = key_of_entry e.
Proof. intros Hq. unfold filled, replaced_entry. destruct (store_records _ _ _ _ _ _ _ _) as [[? ?] ?]. unfold key_of_entry. cbn. by rewrite Hq. Qed.

(** What a stored entry is left as. *)
Lemma storing_entry count i e c :
  content_good count i c -> e ∈ m_map c -> c_qtype e = qtype ->
  exists x, x ∈ m_map (fst (storing false e c)) /\ ce_key x = ce_key e
    /\ (x = e \/ (snd (candidate false e) = true /\ x = finished_entry (filled false (fst (candidate false e))))).
Proof.
  intros Hc He Hq. destruct (storing_map false e c) as [Hm|[Hp Hm]]; rewrite Hm; [by exists e; auto|].
  set (f := finished_entry _) in *. assert (key_of_entry f = key_of_entry e) as Hf.
  { subst f. pose proof (candidate_key false e) as Hk. rewrite filled_key; [done|]. unfold key_of_entry in Hk. injection Hk. congruence. }
  exists f. split_and!; [|unfold ce_key; by rewrite Hf|by right]. apply list_elem_of_fmap. exists e. split; [|by rewrite move_back_perm].
  rewrite Hf, (has_key_self count i); [done|]. by eapply good_in; [apply Hc|].
Qed.

Lemma replacing_stored count i e c :
  content_good count i c -> good_key stored_key -> e ∈ m_map c -> ce_key e = abs_key stored_key ->
  exists x, x ∈ m_map (fst (replacing c)) /\ ce_key x = ce_key e
    /\ (x = e \/ (snd (candidate false e) = true /\ x = finished_entry (filled false (fst (candidate false e))))).
Proof.
  intros Hc Hk He Heq. unfold replace_content. do 2 (rewrite sm_bind_run; cbn [sm_modify sm_get]).
  assert (find_entry stored_key (m_map (invalidate c)) = Some e) as Hf by (apply (find_entry_spec count i); [done|apply Hc|done]).
  rewrite Hf. apply (storing_entry count i); [by apply invalidate_good|done|]. unfold ce_key, abs_key, key_of_entry in Heq. by injection Heq.
Qed.

(** Data that does not replace [e]: not authoritative over authoritative with more
    than five seconds to live, bogus over valid, or over a locked entry that is as
    authoritative. *)
Definition refused e : bool :=
  (negb auth && c_auth e && (now <? c_ttd e - 5))
  || (auth && vStateIsBogus state && negb (vStateIsBogus (c_state e)) && negb (bool_decide (c_state e = Indeterminate)) && (now <? c_ttd e))
  || (bool_decide (auth = c_auth e) && is_locked cfg now state refresh e).

Lemma refused_candidate e : refused e = true -> snd (candidate false e) = false.
Proof.
  unfold refused, candidate, shouldReplace. rewrite !orb_true_iff. intros [[-> | Hb]|[Heq%bool_decide_eq_true Hl]%andb_true_iff]; [done| |].
  - rewrite !andb_true_iff in Hb. destruct Hb as [[[[Ha H1] H2] H3] H4]. rewrite Ha. cbn. by rewrite H1, H2, H3, H4.
  - destruct auth; rewrite <- Heq; cbn; [destruct (_ && _ && _ && _); [done|]; rewrite <- Heq|]; by rewrite Hl.
Qed.

Lemma store_records_limit m n (recs : list (Z * C)) : forall ttd orig stored,
  ttd <= m -> (store_records cfg (Some m) ttl_time n recs ttd orig stored).1.1 <= m.
Proof.
  revert recs. induction n as [|n IH]; intros [|[t x] recs] ttd orig stored Hm; cbn [store_records]; [done..|]. apply IH. lia.
Qed.

(** Authoritative name servers are not prolonged by authoritative data. *)
Lemma delegation_limit e :
  auth = true -> c_auth e = true -> qtype = QType.NS -> isRoot qname = false -> c_ttd (finished_entry (filled false (fst (candidate false e)))) <= c_ttd e.
Proof.
  intros Ha Hea Hns Hr. assert (fst (candidate false e) = e) as ->.
  { unfold candidate, shouldReplace. rewrite Ha. cbn. destruct (_ && _ && _ && _); [done|]. by rewrite Hea. }
  unfold filled, ttd_limit, replaced_entry. rewrite Ha, Hea, Hns, Hr. cbn [andb negb].
  pose proof (store_records_limit (c_ttd e) (if cs_maxRRSetSize cfg <? zlen records then 1 else length records) records (c_ttd e) (c_orig_ttl e) []) as Hl.
  change (QType.NS =? QType.NS) with true. cbn [andb]. destruct (store_records _ _ _ _ _ _ _ _) as [[? ?] ?]. cbn in *. lia.
Qed.

(** C32: when a set of records is stored over another, a set is under its name, type,
    tag and network afterwards; it is the old one, unchanged, when the new data is not
    authoritative and the old one is and has more than five seconds to live, when the
    new data is authoritative but bogus and the old one is validated, not bogus and not
    expired, or when the old one is locked and the new data is as authoritative as it
    is (authoritative data replaces a set that is not, locked or not); and an
    authoritative set of name servers of a name other than the root is not kept longer
    than it was to be when authoritative data repeats it (a delegation the parent gave,
    which is not authoritative, is not protected in this way). *)
Theorem replace_protects (mapsCount : Z) maps e :
  0 <= mapsCount -> rtc mrc_step (mrc_make mapsCount) maps -> named qname -> mask_good mask ->
  e ∈ mrc_entries maps -> ce_key e = abs_key stored_key ->
  exists x, x ∈ mrc_entries (fst (mrc_replace cfg maps now qname qtype records signatures authorityRecs auth authZone mask routingTag state extra refresh ttl_time))
    /\ ce_key x = ce_key e
    /\ (refused e = true -> x = e)
    /\ (auth = true -> c_auth e = true -> qtype = QType.NS -> isRoot qname = false -> c_ttd x <= c_ttd e).
Proof.
  intros Hc Hr Hq Hm He Hk. pose proof (mrc_history_ok _ _ Hc Hr) as Hok. destruct (replace_key_good qname qtype mask routingTag Hq Hm) as [Hgk _].
  destruct (replacing_stored (zlen maps) (hash qname 0 mod zlen maps) e (content_at maps (mrc_getMap maps qname))) as (x & Hx & Hxk & Hor);
    [by apply content_at_good|done|apply entry_shard; [done..|unfold ce_key, abs_key in Hk; by injection Hk]|done|].
  exists x. split_and!; [|done| |].
  - unfold mrc_replace, on_shard. destruct (replacing _) as [c r] eqn:Hrep. cbn [fst] in *. apply elem_of_mrc. exists (mrc_getMap maps qname), c.
    split; [|done]. apply list_lookup_insert_eq, lookup_lt_is_Some, mrc_index. by destruct Hok.
  - intros Hno. destruct Hor as [->|[Hp _]]; [done|]. by rewrite refused_candidate in Hp.
  - intros. destruct Hor as [->|[_ ->]]; [done|by apply delegation_limit].
Qed.
End replacing.
End spec.
