(* ===== verification/RecursorCacheAnswers.v ===== *)
(** * What the record cache answers

    What [get] returns for an entry that is valid, by the range of its name and by the
    index of networks, and that what [replace] stored is what [get] returns. *)

From S2P Require Import Prelude Chars Dns Names NamesFacts NamesOrder NamesSpec NamesWire Denial DenialFacts Validate IpUtils.
From S2P Require Import NetTree NetGroups NameIndex CacheCleaner TaskQueue RecursorCache RecursorCacheOps RecursorCacheFacts RecursorCacheSpec.

#[local] Open Scope Z_scope.

Lemma name_eqb_length a b : name_eqb a b = true -> zlen (d_storage a) = zlen (d_storage b).
Proof. unfold name_eqb. destruct (_ || _) eqn:Ho; [done|]. lia. Qed.

Section answers.
Context {C Sg Au : Type} (cfg : cache_settings C Sg Au).
#[local] Abbreviation entry := (CacheEntry C Sg Au).
#[local] Abbreviation content := (Content C Sg Au).
#[local] Abbreviation lookup := (Lookup C Sg Au).
#[local] Abbreviation cache := (list (Content C Sg Au)).
Implicit Types (e x : CacheEntry C Sg Au) (s : Lookup C Sg Au) (o : Outputs C Sg Au).

(** A hit on an entry that has not expired. *)
Lemma handleHit_fresh now want_res e qname s :
  c_tooBig e = false -> now < c_ttd e ->
  want_res && cs_limitQTypeAny cfg && (cs_maxRRSetSize cfg <? zlen (o_res (q_out s)) + zlen (c_records e)) = false ->
  handleHit cfg now want_res e qname s
  = (mkLook (set_map (moveCacheItemToBack (has_key_of (key_of_entry e)) (m_map (q_content s))) (q_content s)) (q_tasks s)
       (hit_outputs want_res qname e (hit_variable e (q_out s))), Ok (c_ttd e)).
Proof.
  intros Hb Ht Hn. unfold handleHit. rewrite Hb. replace (c_ttd e <=? now) with false by lia.
  unfold mbind, SM_bind. cbn. by rewrite Hn.
Qed.

(** What a lookup returns for a time to live: what is left of it, or nothing when
    the caller came to refresh the set and its time is almost over. *)
Definition told_ttl (flags origTTL ttl : Z) : Z :=
  let deadline := if has_flag flags ForcedRefresh then origTTL / 2 else u32 (origTTL * cs_refresh_ttlperc cfg) / 100 in
  if has_flag flags Refresh && (has_flag flags ForcedRefresh || (0 <? cs_refresh_ttlperc cfg)) && (u32 ttl <=? deadline) then -1 else ttl.

Lemma fakeTTD_ttl e qname qtype ret now flags s :
  c_servedStale e = 0 -> now < ret ->
  exists s', fakeTTD cfg e qname qtype ret now flags s = (s', Ok (told_ttl flags (o_origTTL (q_out s)) (ret - now))) /\ q_out s' = q_out s.
Proof.
  intros He Hlt. unfold fakeTTD, told_ttl. rewrite sm_bind_run. cbn [sm_get]. rewrite He, andb_false_r. cbn [Z.ltb Z.compare].
  replace (0 <? ret - now) with true by lia. cbn [andb].
  destruct (has_flag flags Refresh), (has_flag flags ForcedRefresh || (0 <? cs_refresh_ttlperc cfg)); cbn [andb];
    repeat case_match; (eexists; split; [unfold mbind, SM_bind; cbn; reflexivity|done]).
Qed.

Lemma bookkeeping_fresh now serveStale e s : now < c_ttd e -> handleServeStaleBookkeeping cfg now serveStale e s = (s, Ok e).
Proof. intros Ht. unfold handleServeStaleBookkeeping. replace (c_ttd e <=? now) with false by lia. by rewrite andb_false_r. Qed.

Section finding.
Context (count i now : Z) (want_res : bool) (qname : DNSName) (qtype : Z) (requireAuth : bool) (who : ComboAddress) (serveStale : bool) (x : entry).
Context (Hany : qtype <> QType.ANY) (Haddr : qtype <> QType.ADDR) (Hfresh : now < c_ttd x) (Htype : c_qtype x = qtype)
  (Hnet : nm_empty (c_netmask x) = true) (Hauth : requireAuth = true -> c_auth x = true).

Lemma found_matches : entryMatches qtype requireAuth who x = true.
Proof.
  unfold entryMatches. rewrite Htype, Z.eqb_refl, Hnet. cbn. destruct requireAuth; [by rewrite Hauth|done].
Qed.

Lemma other_no_match e :
  (c_qtype e = qtype -> nm_empty (c_netmask e) || nm_match (c_netmask e) who = false) -> entryMatches qtype requireAuth who e = false.
Proof.
  intros Hm. unfold entryMatches. destruct (requireAuth && _); [done|]. replace (qtype =? QType.ANY) with false by lia.
  replace (qtype =? QType.ADDR) with false by lia. cbn. rewrite !orb_false_r. destruct (Z.eqb_spec (c_qtype e) qtype); [by apply Hm|done].
Qed.

Definition no_authorityRecs o : Outputs C Sg Au :=
  mkOut (o_res o) (o_signatures o) (Some []) (o_variable o) (o_cachedState o) (o_state o) (o_wasAuth o) (o_fromAuthZone o) (o_extra o) (o_origTTL o).

(** The walk over the range ends at [x]. *)
Lemma range_loop_finds keys : forall s ttd last,
  entries_good count i (m_map (q_content s)) -> x ∈ m_map (q_content s) -> Forall good_key keys -> ce_key x ∈ map abs_key keys ->
  (forall k e, k ∈ keys -> e ∈ m_map (q_content s) -> ce_key e = abs_key k -> e <> x ->
     c_qtype e = qtype -> nm_empty (c_netmask e) || nm_match (c_netmask e) who = false) ->
  exists s', m_map (q_content s') ≡ₚ m_map (q_content s) /\ q_out s' = q_out s
    /\ range_loop cfg now want_res qname qtype requireAuth who serveStale keys 0 ttd last s
       = (_ ← upd_out no_authorityRecs; ttd ← handleHit cfg now want_res x qname; mret (1, ttd, Some x)) s'.
Proof.
  induction keys as [|k keys IH]; intros s ttd last Hg Hx Hk Hin Ho; [by apply elem_of_nil in Hin|]. apply Forall_cons in Hk as [Hk Hks].
  cbn [range_loop]. rewrite sm_bind_run. cbn [sm_get]. cbn [map] in Hin. apply elem_of_cons in Hin.
  destruct (find_entry k (m_map (q_content s))) as [e|] eqn:Hf.
  - pose proof (proj1 (find_entry_spec count i k _ e Hk Hg) Hf) as [He Hek]. destruct (decide (ce_key e = ce_key x)) as [Hex|Hex].
    + assert (e = x) as -> by (apply (nodup_map_inj ce_key (m_map (q_content s))); [apply Hg|done..]).
      replace (ce_isEntryUsable now serveStale x) with true by (unfold ce_isEntryUsable; by replace (now <? c_ttd x) with true by lia).
      rewrite found_matches. cbn [negb]. exists s. split_and!; [done|done|]. rewrite sm_bind_run, bookkeeping_fresh by done.
      unfold mbind, SM_bind. cbn. destruct (handleHit cfg now want_res x qname _) as [s1 [t|]]; [|done].
      replace (qtype =? QType.ADDR) with false by lia. replace (qtype =? QType.ANY) with false by lia. done.
    + assert (e <> x) as Hne by congruence. assert (ce_key x ∈ map abs_key keys) as Hin' by (destruct Hin; [congruence|done]).
      destruct (negb (ce_isEntryUsable now serveStale e)) eqn:Hu.
      * rewrite sm_bind_run. cbn [to_front upd_content sm_modify]. set (s1 := mkLook _ _ _).
        assert (m_map (q_content s1) ≡ₚ m_map (q_content s)) as Hp by apply move_front_perm.
        destruct (IH s1 ttd (Some e)) as (s' & Hs1 & Hs2 & Hs3); [by eapply entries_good_perm|by rewrite Hp|done|done| |].
        { intros k' e' Hk' He'. rewrite Hp in He'. apply (Ho k' e'); [by right|done]. }
        exists s'. split_and!; [by rewrite Hs1|done|done].
      * rewrite other_no_match; [cbn [negb]; apply IH; try done|]; [intros k' e' Hk'; apply Ho; by right|].
        intros Ht. apply (Ho k e); [by left|done..].
  - apply IH; try done; [|intros k' e' Hk'; apply Ho; by right]. destruct Hin as [Hin|Hin]; [|done]. exfalso.
    assert (find_entry k (m_map (q_content s)) = Some x) by (by apply (find_entry_spec count i)). congruence.
Qed.

(** The index of networks has none for the client. *)
Lemma getEntryUsingECSIndex_generic s :
  (forall y, find_ecs qname qtype (m_ecsIndex (q_content s)) = Some y -> exists best, lookupBestMatch y who = Ok best /\ nm_empty best = true) ->
  find_entry (mkKey qname qtype NOTAG nm_default) (m_map (q_content s)) = Some x ->
  getEntryUsingECSIndex cfg now qname qtype requireAuth who serveStale s = (s, Ok (Some x)).
Proof.
  intros Hecs Hf. unfold getEntryUsingECSIndex. rewrite sm_bind_run. cbn [sm_get].
  set (m := match find_ecs _ _ _ with Some _ => _ | None => _ end). assert (m s = (s, Ok None)) as Hm.
  { subst m. destruct (find_ecs qname qtype (m_ecsIndex (q_content s))) as [y|] eqn:Hy; [|done]. destruct (ecs_isEmpty y); [done|].
    cbn [ecs_loop]. rewrite sm_bind_run. cbn [sm_get]. rewrite Hy. destruct (Hecs y eq_refl) as (best & Hb & He).
    rewrite sm_bind_run. unfold sm_lift. by rewrite Hb, He. }
  rewrite sm_bind_run, Hm. rewrite sm_bind_run. cbn [sm_get]. rewrite Hf. rewrite sm_bind_run, bookkeeping_fresh by done.
  replace (now <? c_ttd x) with true by lia. replace (negb requireAuth || c_auth x) with true; [done|].
  destruct requireAuth; [by rewrite Hauth|done].
Qed.
End finding.

(** ** Lookups of the generic entry *)

(** The entry [x] is the one for clients such as [who]: no entry of a network is for
    them, nor does the index of networks have one, and nothing is there for the tag
    of the lookup. *)
Record generic_hit (maps : cache) (qname : DNSName) (qtype : Z) (who : ComboAddress) (rtag : bytes) x : Prop := {
  gh_in : x ∈ mrc_entries maps;
  gh_key : ce_key x = abs_key (mkKey qname qtype NOTAG nm_default);
  gh_others : forall e, e ∈ mrc_entries maps -> nkey (c_qname e) = nkey qname -> c_qtype e = qtype -> c_rtag e = NOTAG ->
    nm_empty (c_netmask e) = false -> nm_match (c_netmask e) who = false;
  gh_index : rtag = NOTAG -> forall y, find_ecs qname qtype (m_ecsIndex (content_at maps (mrc_getMap maps qname))) = Some y ->
    exists best, lookupBestMatch y who = Ok best /\ nm_empty best = true;
  gh_tag : rtag <> NOTAG -> forall e, e ∈ mrc_entries maps -> nkey (c_qname e) = nkey qname -> c_rtag e <> rtag;
}.

(** What the caller gets for [x]. *)
Definition answer_of (want_res : bool) (qname : DNSName) (variable : bool) x : Outputs C Sg Au :=
  mkOut (if want_res then hit_records qname x else []) (Some (default [] (c_signatures x))) (Some (default [] (c_authorityRecs x))) variable
    (Some (c_state x)) (Some (c_state x)) (c_auth x) (Some (c_authZone x)) (Some (c_from x, c_tcp x)) (c_orig_ttl x).

Lemma hit_answer want_res qname x variable signatures o :
  nm_empty (c_netmask x) = true -> c_rtag x = NOTAG -> default [] signatures = [] ->
  o = initial_outputs signatures variable \/ o = no_authorityRecs (initial_outputs signatures variable) ->
  let o' := hit_outputs want_res qname x (hit_variable x o) in
  o_cachedState o' = Some (c_state x)
  /\ mkOut (o_res o') (o_signatures o') (o_authorityRecs o') (o_variable o') (o_cachedState o') (Some (c_state x)) (o_wasAuth o')
       (o_fromAuthZone o') (o_extra o') (o_origTTL o') = answer_of want_res qname variable x.
Proof.
  intros Hn Ht Hs Ho o'. split; [by destruct Ho as [-> | ->]|]. unfold answer_of. destruct Ho as [-> | ->]; subst o'; cbn; rewrite Hn, Ht; cbn;
    rewrite !orb_false_r; (destruct signatures as [[|? ?]|]; [|done|]); by destruct (c_signatures x).
Qed.

Context `{HR : !RangeIndex C Sg Au}.

(** The keys of a range, and that finding them changes no entry. *)
Lemma getEntries_range_run count i qname rtag s :
  named qname -> content_good count i (q_content s) ->
  exists s' keys, getEntries_range qname rtag s = (s', Ok keys) /\ m_map (q_content s') = m_map (q_content s) /\ q_out s' = q_out s
    /\ Forall good_key keys /\ map abs_key keys ≡ₚ map ce_key (List.filter (of_name qname rtag) (m_map (q_content s))).
Proof.
  intros Hq Hg. pose proof (getEntries_good count i qname rtag _ Hq Hg) as Hg'.
  unfold getEntries_range. rewrite sm_bind_run. cbn [upd_content sm_modify sm_get]. eexists _, _. split; [done|]. cbn [q_content q_out].
  assert (m_map (getEntries qname rtag (q_content s)) = m_map (q_content s)) as Hm by (unfold getEntries; by case_match).
  assert (m_cachecachevalid (getEntries qname rtag (q_content s)) = true) as Hv.
  { unfold getEntries, range_is_cached. destruct (_ && _ && _) eqn:Hr; [|done]. rewrite !andb_true_iff in Hr. by destruct Hr as [[? _] _]. }
  destruct (cg_range _ _ _ Hg' Hv) as (Hn & Hk & Hp). split_and!; [done..|]. rewrite Hp, Hm, !(range_keys count i) by (try apply Hg; done).
  assert (nkey (m_cachedqname (getEntries qname rtag (q_content s))) = nkey qname /\ m_cachedrtag (getEntries qname rtag (q_content s)) = rtag) as [-> ->]; [|done].
  unfold getEntries in *. destruct (range_is_cached qname rtag (q_content s)) eqn:Hr; [|done]. unfold range_is_cached in Hr.
  rewrite !andb_true_iff, bool_decide_eq_true, name_eqb_key in Hr by done. by destruct Hr as [[_ ?] ?].
Qed.

Section generic.
Context (now : Z) (want_res : bool) (qname : DNSName) (qtype flags : Z) (who : ComboAddress) (signatures : option (list Sg)) (variable : bool) (x : entry).
Context (Hany : qtype <> QType.ANY) (Haddr : qtype <> QType.ADDR) (Hfresh : now < c_ttd x) (Hsmall : c_tooBig x = false)
  (Hcount : want_res && cs_limitQTypeAny cfg && (cs_maxRRSetSize cfg <? zlen (c_records x)) = false)
  (Hauth : has_flag flags RequireAuth = true -> c_auth x = true) (Hstale : c_servedStale x = 0) (Hsigs : default [] signatures = [])
  (Hnet : nm_empty (c_netmask x) = true) (Htag : c_rtag x = NOTAG) (Hq : named qname).

#[local] Abbreviation init := (initial_outputs signatures variable).
#[local] Abbreviation answer_ttl := (told_ttl flags (c_orig_ttl x) (c_ttd x - now)).

(** From the hit on. *)
Lemma hit_tail s :
  q_out s = init \/ q_out s = no_authorityRecs init ->
  exists s', (ret ← handleHit cfg now want_res x qname; _ ← assign_state (now <? ret); fakeTTD cfg x qname qtype ret now flags) s = (s', Ok answer_ttl)
    /\ q_out s' = answer_of want_res qname variable x.
Proof.
  intros Ho. rewrite sm_bind_run, handleHit_fresh; [|done..|destruct Ho as [-> | ->]; exact Hcount].
  rewrite sm_bind_run. cbn [assign_state upd_out sm_modify]. set (s1 := mkLook _ _ _).
  destruct (fakeTTD_ttl x qname qtype (c_ttd x) now flags s1 Hstale Hfresh) as (s' & -> & Hs').
  assert (o_origTTL (q_out s1) = c_orig_ttl x) as -> by (subst s1; cbn; by repeat case_match).
  exists s'. split; [done|]. rewrite Hs'. subst s1. cbn [q_out].
  destruct (hit_answer want_res qname x variable signatures (q_out s) Hnet Htag Hsigs Ho) as [Hst Ha]. rewrite Hst in *. replace (now <? c_ttd x) with true by lia.
  exact Ha.
Qed.

Lemma get_range_generic count i s :
  content_good count i (q_content s) -> q_out s = init -> x ∈ m_map (q_content s) -> ce_key x = abs_key (mkKey qname qtype NOTAG nm_default) ->
  (forall e, e ∈ m_map (q_content s) -> nkey (c_qname e) = nkey qname -> c_qtype e = qtype -> c_rtag e = NOTAG ->
     nm_empty (c_netmask e) = false -> nm_match (c_netmask e) who = false) ->
  exists s', get_range cfg now want_res qname qtype flags (has_flag flags RequireAuth) who (has_flag flags ServeStale) NOTAG s = (s', Ok (Some answer_ttl))
    /\ q_out s' = answer_of want_res qname variable x.
Proof.
  intros Hg Ho Hx Hk Hothers. unfold get_range. rewrite sm_bind_run.
  destruct (getEntries_range_run count i qname NOTAG s Hq Hg) as (s1 & keys & -> & Hm1 & Ho1 & Hgk & Hkeys).
  assert (nkey (c_qname x) = nkey qname /\ c_qtype x = qtype) as [Hxn Hxt] by (unfold ce_key, abs_key in Hk; by injection Hk).
  assert (ce_key x ∈ map abs_key keys) as Hin.
  { rewrite Hkeys. apply list_elem_of_fmap. exists x. split; [done|]. apply list_elem_of_In, filter_In. rewrite <- list_elem_of_In. split; [done|].
    apply (of_name_key count i); [done|by eapply good_in; [apply Hg|]|]. by split. }
  rewrite bool_decide_eq_false_2 by (intros ->; by apply elem_of_nil in Hin). rewrite sm_bind_run.
  destruct (range_loop_finds count i now want_res qname qtype (has_flag flags RequireAuth) who (has_flag flags ServeStale) x Hany Haddr Hfresh Hxt Hnet Hauth
    keys s1 0 None) as (s2 & _ & Ho2 & ->); [rewrite Hm1; apply Hg|by rewrite Hm1|done|done| |].
  { intros k e Hke He Hek Hne Ht. rewrite Hm1 in He. assert (abs_key k ∈ map abs_key keys) as Hak by (apply list_elem_of_fmap; eauto).
    rewrite Hkeys in Hak. apply list_elem_of_fmap in Hak as (e' & He' & Hin'). apply list_elem_of_In, filter_In in Hin' as [Hin' Hof].
    apply list_elem_of_In in Hin'. assert (e' = e) as -> by (apply (nodup_map_inj ce_key (m_map (q_content s))); [apply Hg|congruence..]).
    apply (of_name_key count i) in Hof as [Hof1 Hof2]; [|done|by eapply good_in; [apply Hg|]].
    destruct (nm_empty (c_netmask e)) eqn:Hem; [|by apply Hothers]. exfalso. apply Hne.
    apply (nodup_map_inj ce_key (m_map (q_content s))); [apply Hg|done..|]. rewrite Hk. unfold ce_key, abs_key, nm_key. cbn in *. by rewrite Hem, Hof1, Hof2, Ht. }
  rewrite sm_bind_run. cbn [upd_out sm_modify]. set (s3 := mkLook _ _ _).
  destruct (hit_tail s3) as (s4 & Ht & Ho4); [right; cbn; by rewrite Ho2, Ho1, Ho|]. exists s4. split; [|done].
  rewrite !sm_bind_run in *. destruct (handleHit cfg now want_res x qname s3) as [s5 [ret|]]; [|done]. cbn. rewrite !sm_bind_run in *. by rewrite Ht.
Qed.

(** A tag nothing is stored under: its range is empty, and nothing changes but the
    range that is remembered. *)
Lemma get_range_empty count i rtag s :
  content_good count i (q_content s) -> (forall e, e ∈ m_map (q_content s) -> nkey (c_qname e) = nkey qname -> c_rtag e <> rtag) ->
  exists s', get_range cfg now want_res qname qtype flags (has_flag flags RequireAuth) who (has_flag flags ServeStale) rtag s = (s', Ok None)
    /\ content_good count i (q_content s') /\ m_map (q_content s') = m_map (q_content s) /\ q_out s' = q_out s.
Proof.
  intros Hg Hno. unfold get_range. rewrite sm_bind_run.
  destruct (getEntries_range_run count i qname rtag s Hq Hg) as (s1 & keys & Hrun & Hm1 & Ho1 & _ & Hkeys).
  assert (List.filter (of_name qname rtag) (m_map (q_content s)) = []) as Hnil.
  { destruct (List.filter _ _) as [|e l] eqn:Hf; [done|]. exfalso.
    assert (In e (List.filter (of_name qname rtag) (m_map (q_content s)))) as [Hin Hof]%filter_In by (rewrite Hf; by left).
    apply list_elem_of_In in Hin. apply (of_name_key count i) in Hof as [Hn Ht]; [|done|by eapply good_in; [apply Hg|]]. by eapply Hno. }
  rewrite Hnil in Hkeys. apply Permutation_nil_r, map_eq_nil in Hkeys as ->. rewrite Hrun. exists s1. split; [done|]. split; [|done].
  unfold getEntries_range in Hrun. rewrite sm_bind_run in Hrun. cbn [upd_content sm_modify sm_get] in Hrun. injection Hrun as <- _.
  by apply getEntries_good.
Qed.

(** All ways, through the index of networks and through the ranges. *)
Lemma get_generic maps rtag :
  mrc_ok maps -> generic_hit maps qname qtype who rtag x ->
  let a := mrc_get cfg maps now want_res qname qtype flags who rtag signatures variable in
  ga_ret a = Ok answer_ttl /\ ga_out a = answer_of want_res qname variable x.
Proof.
  intros Hok [Hin Hk Hothers Hindex Htags]. set (c := content_at maps (mrc_getMap maps qname)) in *.
  assert (nkey (c_qname x) = nkey qname /\ c_qtype x = qtype) as [Hxn Hxt] by (unfold ce_key, abs_key in Hk; by injection Hk).
  pose proof (content_at_good maps qname Hok) as Hg. fold c in Hg. pose proof (entry_shard maps qname x Hok Hq Hin Hxn) as Hx. fold c in Hx.
  assert (forall e, e ∈ m_map c -> e ∈ mrc_entries maps) as Hsub.
  { intros e He. apply elem_of_mrc. exists (mrc_getMap maps qname), c. split; [|done].
    destruct (mrc_index maps qname (proj1 Hok)) as [_ [d Hd]]. unfold c, content_at. by rewrite Hd. }
  unfold mrc_get. fold c. set (s0 := mkLook c [] init).
  assert (exists s', get_content cfg now want_res qname qtype flags who rtag s0 = (s', Ok answer_ttl) /\ q_out s' = answer_of want_res qname variable x) as
    (s' & -> & Ho); [|done].
  unfold get_content. rewrite sm_bind_run. cbn [sm_get]. replace (qtype =? QType.ANY) with false by lia. replace (qtype =? QType.ADDR) with false by lia.
  cbn [negb andb]. destruct (negb (bool_decide (m_ecsIndex (q_content s0) = [])) && bool_decide (rtag = [])) eqn:Hecs.
  2: { rewrite sm_bind_run.
    assert (exists s1, (if bool_decide (rtag = []) then mret None
      else get_range cfg now want_res qname qtype flags (has_flag flags RequireAuth) who (has_flag flags ServeStale) rtag) s0 = (s1, Ok None)
      /\ content_good (zlen maps) (hash qname 0 mod zlen maps) (q_content s1) /\ m_map (q_content s1) = m_map c /\ q_out s1 = init) as (s1 & -> & Hg1 & Hm1 & Ho1).
    { clear Hecs. case_bool_decide; [by exists s0|]. apply get_range_empty; [done|]. intros e He. apply Htags; [done|by apply Hsub]. }
    rewrite sm_bind_run. destruct (get_range_generic (zlen maps) (hash qname 0 mod zlen maps) s1) as (s' & -> & Ho);
      [done|done|by rewrite Hm1|done|intros e He; rewrite Hm1 in He; apply Hothers; by apply Hsub|by exists s']. }
  apply andb_prop in Hecs as [_ Htag0%bool_decide_eq_true].
  unfold get_ecs. rewrite sm_bind_run, (getEntryUsingECSIndex_generic now qname qtype _ who _ x); [|done..|by apply Hindex|].
  - destruct (hit_tail s0) as (s' & Ht & Ho); [by left|]. by exists s'.
  - apply (find_entry_spec (zlen maps) (hash qname 0 mod zlen maps)); [split; [done|apply nm_default_valid]|apply Hg|done].
Qed.
End generic.

(** ** Storing, then looking up *)

Section storing.
Context (now : Z) (qname : DNSName) (qtype : Z) (records : list (Z * C)) (signatures : list Sg) (authorityRecs : list Au)
  (auth : bool) (authZone : DNSName) (routingTag : bytes) (state : vState) (extra : option (ComboAddress * bool)) (refresh : bool) (ttl_time t : Z).
Context (Hq : named qname) (Hne : records <> []) (Ht : Forall (fun r => r.1 = t) records)
  (Hcount : zlen records <= cs_maxRRSetSize cfg).

#[local] Abbreviation generic_key := (replace_key qname qtype None routingTag).
#[local] Abbreviation replacing := (replace_content cfg now qname qtype records signatures authorityRecs auth authZone None routingTag state extra refresh ttl_time).
#[local] Abbreviation proposed := (candidate cfg now auth state refresh).
#[local] Abbreviation filling := (filled cfg qname qtype records signatures authorityRecs auth authZone state extra ttl_time).

Lemma store_same l : forall ttd orig stored,
  l <> [] -> Forall (fun r => r.1 = t) l -> store_records cfg None ttl_time (length l) l ttd orig stored = (t, sane_ttl cfg t ttl_time, stored ++ map snd l).
Proof.
  induction l as [|[u a] l IH]; intros ttd orig stored Hl Hall; [done|]. apply Forall_cons in Hall as [Hu Hall]. cbn in Hu. subst u. cbn.
  destruct l as [|r l]; [done|]. rewrite IH by done. by rewrite <- app_assoc.
Qed.

(** The entry that is stored under the name [n], which may be spelt differently. *)
Definition new_set (e : entry) : entry :=
  mkCE (c_rtag e) (c_netmask e) (match extra with Some (a, _) => a | None => ca_default end) (map snd records) (c_qname e) authZone
    (some_list signatures) (some_list authorityRecs) t (sane_ttl cfg t ttl_time) 0 qtype state auth false false
    (match extra with Some (_, tcp) => tcp | None => false end).

Lemma filled_set isNew e :
  c_auth e = auth \/ (auth = true /\ c_auth e = false) -> ttd_limit qname qtype auth isNew e = None -> finished_entry (filling isNew e) = new_set e.
Proof.
  intros Ha Hl. unfold filled, replaced_entry. rewrite Hl.
  replace (cs_maxRRSetSize cfg <? zlen records) with false by lia. rewrite store_same by done. unfold finished_entry, with_submitted, with_stale, new_set. cbn.
  f_equal. destruct Ha as [->|[-> ->]]; [apply orb_diag|done].
Qed.

Lemma proposed_auth isNew e : c_auth e = auth \/ isNew = false -> snd (proposed isNew e) = true ->
  c_auth (fst (proposed isNew e)) = auth \/ (auth = true /\ c_auth (fst (proposed isNew e)) = false).
Proof.
  intros He. unfold candidate. destruct isNew; [destruct He; [by left|done]|]. unfold shouldReplace.
  destruct auth, (c_auth e) eqn:Hea; cbn; try (destruct (_ && _ && _ && _); [done|]); try (destruct (now <? _); [done|]); cbn; rewrite ?Hea; cbn; auto.
Qed.

(** An entry of this size is kept. *)
Definition set_size : Z :=
  cs_sizeof_entry cfg + zlen (d_storage qname) + zlen (d_storage authZone) + sizes (cs_content_size cfg) (map snd records)
  + sizes (cs_record_size cfg) authorityRecs + sizes (cs_signature_size cfg) signatures.

Context (Hsize : cs_maxEntrySize cfg <= 0 \/ set_size <= cs_maxEntrySize cfg).

Lemma new_set_size e : zlen (d_storage (c_qname e)) = zlen (d_storage qname) -> ce_sizeEstimate cfg (new_set e) = set_size.
Proof. intros Hl. unfold ce_sizeEstimate, set_size. cbn. rewrite Hl. by destruct signatures, authorityRecs. Qed.

Lemma storing_generic isNew e c :
  c_auth e = auth \/ isNew = false -> snd (proposed isNew e) = true -> ttd_limit qname qtype auth isNew (fst (proposed isNew e)) = None -> zlen (d_storage (c_qname e)) = zlen (d_storage qname) ->
  let c' := fst (replace_stored cfg now qname qtype records signatures authorityRecs auth authZone None routingTag state extra refresh ttl_time isNew e c) in
  m_ecsIndex c' = m_ecsIndex c
  /\ m_map c' = put_entry (new_set (fst (proposed isNew e))) (if isNew then m_map c else moveCacheItemToBack (has_key_of (key_of_entry e)) (m_map c)).
Proof.
  intros Ha Hp Hlim Hl c'. subst c'. unfold replace_stored. rewrite sm_bind_run.
  set (step := if isNew || (c_ttd e <=? now) then _ else _). assert (step c = (c, Ok tt)) as ->.
  { subst step. by destruct (isNew || _). }
  fold (candidate cfg now auth state refresh isNew e). pose proof (proposed_auth isNew e Ha Hp) as Hpa. pose proof (candidate_key cfg now auth state refresh isNew e) as Hck.
  destruct (proposed isNew e) as [e1 proceed]. cbn [fst snd] in *. subst proceed. cbn [negb].
  fold (ttd_limit qname qtype auth isNew e1). fold (filling isNew e1).
  pose proof (filled_set isNew e1 Hpa Hlim) as Hf. assert (ce_sizeEstimate cfg (filling isNew e1) = set_size) as ->.
  { rewrite <- (new_set_size e1), <- Hf; [done|]. unfold key_of_entry in Hck. injection Hck as Hck _ _ _. by rewrite Hck. }
  replace ((0 <? cs_maxEntrySize cfg) && (cs_maxEntrySize cfg <? set_size)) with false by lia. rewrite Hf.
  destruct isNew; unfold mbind, SM_bind, mret, SM_ret, sm_modify; by cbn.
Qed.

(** The set may replace [e]: [shouldReplace] lets it, and it is not the set of name
    servers a zone gives for itself over an authoritative one, which is kept no longer
    than the old one was. *)
Definition may_replace (e : entry) : Prop :=
  snd (proposed false e) = true /\ (qtype = QType.NS -> auth = true -> isRoot qname = false -> c_auth e = false).

Lemma may_replace_limit e : may_replace e -> ttd_limit qname qtype auth false (fst (proposed false e)) = None.
Proof.
  intros [_ Hns]. unfold ttd_limit. destruct (Z.eqb_spec qtype QType.NS) as [Hty|]; [|by rewrite !andb_false_r].
  destruct (isRoot qname); [by rewrite andb_false_r|]. destruct auth; [|by rewrite andb_false_r]. specialize (Hns Hty eq_refl eq_refl).
  assert (c_auth (fst (candidate cfg now true state refresh false e)) = false) as Hp by (unfold candidate, shouldReplace; cbn; by repeat case_match).
  by rewrite Hp.
Qed.

Lemma replacing_generic count i c :
  content_good count i c -> (forall e, e ∈ m_map c -> ce_key e = abs_key generic_key -> may_replace e) ->
  let c' := fst (replacing c) in
  m_ecsIndex c' = m_ecsIndex c
  /\ exists e, key_of_entry (new_set e) = key_of_entry e /\ ce_key e = abs_key generic_key /\ new_set e ∈ m_map c'
      /\ forall y, y ∈ m_map c' -> y = new_set e \/ y ∈ m_map c.
Proof.
  intros Hc Hp. destruct (replace_key_good qname qtype None routingTag Hq I) as [Hgk _]. change (option_map getNormalized None) with (@None Netmask) in Hgk.
  unfold replace_content. do 2 (rewrite sm_bind_run; cbn [sm_modify sm_get]). cbn [option_map].
  destruct (find_entry generic_key (m_map (invalidate c))) as [e|] eqn:Hf.
  - apply (find_entry_spec count i) in Hf as [He Hek]; [|done|apply Hc]. cbn in He.
    assert (zlen (d_storage (c_qname e)) = zlen (d_storage qname)) as Hl.
    { apply name_eqb_length, name_eqb_key; [|done|unfold ce_key, abs_key in Hek; by injection Hek]. apply (good_in count i (m_map c)); [apply Hc|done]. }
    destruct (storing_generic false e (invalidate c)) as [Hecs Hm]; [by right|by apply Hp|by apply may_replace_limit, Hp|done|]. split; [done|].
    assert (key_of_entry (new_set (fst (proposed false e))) = key_of_entry e) as Hnk.
    { rewrite <- (candidate_key cfg now auth state refresh false e). unfold key_of_entry. cbn. f_equal.
      pose proof (candidate_key cfg now auth state refresh false e) as Hck. unfold key_of_entry in Hck. injection Hck as _ -> _ _.
      unfold ce_key, abs_key in Hek. injection Hek. cbn. congruence. }
    exists (fst (proposed false e)). rewrite (candidate_key cfg now auth state refresh false e), Hm.
    split_and!; [done|unfold ce_key; by rewrite candidate_key| |].
    + apply list_elem_of_fmap. exists e. split; [|by rewrite move_back_perm]. rewrite Hnk, (has_key_self count i); [done|]. by eapply good_in; [apply Hc|].
    + intros y Hy. apply list_elem_of_fmap in Hy as (z & -> & Hz). rewrite move_back_perm in Hz. destruct (has_key_of _ z); [by left|by right].
  - rewrite sm_bind_run. cbn [sm_modify]. set (e := ce_make generic_key auth). set (c1 := append_entry e (invalidate c)).
    destruct (storing_generic true e c1) as [Hecs Hm]; [by left|done|unfold ttd_limit; cbn; by rewrite !andb_false_r|done|]. split; [done|]. exists e. rewrite Hm. cbn [candidate fst].
    assert (has_key_of (key_of_entry e) e = true) as Hself.
    { apply (has_key_self count (hash qname 0 mod count)). split; [|done]. split; [done|apply nm_default_valid]. }
    split_and!; [done|done| |].
    + apply list_elem_of_fmap. exists e. split; [|apply elem_of_app; right; by left]. change (key_of_entry (new_set e)) with (key_of_entry e). by rewrite Hself.
    + intros y Hy. apply list_elem_of_fmap in Hy as (z & -> & Hz). destruct (has_key_of _ z) eqn:Hh; [by left|].
      apply elem_of_app in Hz as [Hz| ->%list_elem_of_singleton]; [by right|]. change (key_of_entry (new_set e)) with (key_of_entry e) in Hh. congruence.
Qed.

Lemma getMap_insert (maps : cache) i c n : mrc_getMap (<[i:=c]> maps) n = mrc_getMap maps n.
Proof. unfold mrc_getMap, zlen. by rewrite length_insert. Qed.

Lemma getMap_spelling (maps : cache) a b : named a -> named b -> nkey a = nkey b -> mrc_getMap maps a = mrc_getMap maps b.
Proof.
  intros Ha Hb Hk. unfold mrc_getMap. f_equal. f_equal. apply equal_names_equal_hashes; [by apply named_wf..|]. by apply name_eqb_key.
Qed.

Lemma content_at_insert (maps : cache) i c : is_Some (maps !! i) -> content_at (<[i:=c]> maps) i = c.
Proof. intros Hi. unfold content_at. by rewrite list_lookup_insert_eq by (by apply lookup_lt_is_Some). Qed.

(** The set is the one for clients without an entry of their own. *)
Lemma stored_generic_hit maps qname' who rtag :
  mrc_ok maps -> named qname' -> nkey qname' = nkey qname ->
  (forall e, e ∈ mrc_entries maps -> ce_key e = abs_key generic_key -> may_replace e) ->
  (forall e, e ∈ mrc_entries maps -> nkey (c_qname e) = nkey qname' -> c_qtype e = qtype -> c_rtag e = NOTAG ->
     nm_empty (c_netmask e) = false -> nm_match (c_netmask e) who = false) ->
  (rtag = NOTAG -> forall y, find_ecs qname' qtype (m_ecsIndex (content_at maps (mrc_getMap maps qname'))) = Some y ->
     exists best, lookupBestMatch y who = Ok best /\ nm_empty best = true) ->
  (rtag <> NOTAG -> forall e, e ∈ mrc_entries maps -> nkey (c_qname e) = nkey qname' -> c_rtag e <> rtag) ->
  exists e, nm_empty (c_netmask e) = true /\ c_rtag e = NOTAG
    /\ generic_hit (fst (mrc_replace cfg maps now qname qtype records signatures authorityRecs auth authZone None routingTag state extra refresh ttl_time))
         qname' qtype who rtag (new_set e).
Proof.
  intros Hok Hq' Hn Hp Hothers Hindex Htags. set (j := mrc_getMap maps qname). set (c := content_at maps j).
  destruct (mrc_index maps qname (proj1 Hok)) as [_ Hj]. fold j in Hj.
  assert (forall e, e ∈ m_map c -> e ∈ mrc_entries maps) as Hsub.
  { intros e He. apply elem_of_mrc. destruct Hj as [d Hd]. exists j, d. split; [done|]. unfold c, content_at in He. by rewrite Hd in He. }
  destruct (replacing_generic (zlen maps) (hash qname 0 mod zlen maps) c) as (Hecs & e & Hek & Hkey & Hin & Hall); [by apply content_at_good|by auto|].
  assert (nm_empty (c_netmask e) = true /\ c_rtag e = NOTAG) as [Hem Hrt].
  { unfold ce_key, abs_key, nm_key in Hkey. cbn in Hkey. by destruct (nm_empty (c_netmask e)); injection Hkey. }
  exists e. split_and!; [done..|]. unfold mrc_replace, on_shard. fold j c. destruct (replacing c) as [c' r]. cbn [fst] in *. split.
  - apply elem_of_mrc. exists j, c'. split; [|done]. apply list_lookup_insert_eq. by apply lookup_lt_is_Some.
  - unfold ce_key. rewrite Hek. fold (ce_key e). rewrite Hkey. unfold abs_key. cbn. by rewrite Hn.
  - intros y (k & d & Hd & Hy)%elem_of_mrc. apply list_lookup_insert_Some in Hd as [(_ & <- & _)|[_ Hd]].
    + destruct (Hall y Hy) as [-> |Hy']; [|by auto]. cbn. congruence.
    + apply Hothers. apply elem_of_mrc. eauto.
  - rewrite getMap_insert, (getMap_spelling maps qname' qname) by done. fold j. rewrite content_at_insert by done. rewrite Hecs.
    rewrite (getMap_spelling maps qname' qname) in Hindex by done. exact Hindex.
  - intros Htag y (k & d & Hd & Hy)%elem_of_mrc. apply list_lookup_insert_Some in Hd as [(_ & <- & _)|[_ Hd]].
    + destruct (Hall y Hy) as [-> |Hy']; [cbn; congruence|by auto].
    + apply Htags; [done|]. apply elem_of_mrc. eauto.
Qed.

Context `{HQ : !Quotas}.

End storing.
End answers.

Module recursorcache_example.

(** The hashed index in the order of the sequence. *)
#[local] Instance in_sequence : RangeIndex Z Z Z.
Proof. refine {| name_range_of l qname rtag := List.filter (of_name qname rtag) l |}. done. Defined.

Definition cfg : cache_settings Z Z Z :=
  {| cs_maxServedStaleExtensions := 0; cs_maxRRSetSize := 256; cs_limitQTypeAny := true; cs_maxEntrySize := 8192; cs_refresh_ttlperc := 0;
     cs_locked_ttlperc := 0; cs_minimumTTL := 1; cs_maxcachettl := 86400; cs_sizeof_entry := 200; cs_content_size := fun _ => 16;
     cs_signature_size := fun _ => 100; cs_record_size := fun _ => 100 |}.

Definition www : DNSName := ex_name [bs "www"; bs "Example"; bs "com"].
Definition WWW : DNSName := ex_name [bs "WWW"; bs "eXample"; bs "com"].
Definition com : DNSName := ex_name [bs "com"].

Lemma www_named : named www.
Proof. exists [bs "www"; bs "Example"; bs "com"]. by_decide. Qed.
Lemma WWW_named : named WWW.
Proof. exists [bs "WWW"; bs "eXample"; bs "com"]. by_decide. Qed.
Lemma com_named : named com.
Proof. exists [bs "com"]. by_decide. Qed.

Definition ip (a b c d : Z) : ComboAddress := mkCA 2 0 [a; b; c; d].

(** One record of content [v] that expires at [ttd], stored at 1000. *)
Definition put (qname : DNSName) (qtype v ttd : Z) (mask : option Netmask) (maps : list (Content Z Z Z)) : list (Content Z Z Z) :=
  fst (mrc_replace cfg maps 1000 qname qtype [(ttd, v)] [] [] true com mask [] Secure None false 1000).

Definition look (maps : list (Content Z Z Z)) (now qtype : Z) (who : ComboAddress) : get_answer (C:=Z) (Sg:=Z) (Au:=Z) :=
  mrc_get cfg maps now true www qtype 0 who [] None false.

Definition contents (a : get_answer (C:=Z) (Sg:=Z) (Au:=Z)) : list Z := map fr_content (o_res (ga_out a)).

Definition m0 : list (Content Z Z Z) := put www QType.AAAA 8 2000 None (put www QType.A 7 2000 None (mrc_make 4)).
Definition n1 : list (Content Z Z Z) :=
  put www QType.A 10 5000 (Some (nm_make (ip 10 1 3 0) 24)) (put www QType.A 9 1100 (Some (nm_make (ip 10 1 0 0) 16)) (put www QType.A 7 5000 None
    (put www QType.AAAA 11 5000 (Some (nm_make (ip 192 0 2 0) 24)) (mrc_make 4)))).
Definition n2 : list (Content Z Z Z) := ga_maps (look n1 1200 QType.A (ip 10 1 9 9)).
Definition n3 : list (Content Z Z Z) := match doPrune cfg n2 1200 3 with Ok m => m | Throw _ => [] end.

Lemma put_step qname qtype v ttd mask maps : named qname -> mask_good mask -> mrc_step cfg maps (put qname qtype v ttd mask maps).
Proof. intros Hq Hm. by apply mrc_step_replace. Qed.

Lemma m0_steps : rtc (mrc_step cfg) (mrc_make 4) m0.
Proof.
  apply rtc_l with (put www QType.A 7 2000 None (mrc_make 4)); [by apply put_step; [exact www_named|]|].
  apply rtc_once, put_step; [exact www_named|done].
Qed.

(** A name whose delegation the parent gave until 1100, and the child repeats. *)
Definition d0 : list (Content Z Z Z) := put com QType.NS 5 1100 None (mrc_make 4).
Definition d_entry : CacheEntry Z Z Z := mkCE [] nm_default ca_default [5] com com None None 1100 100 0 QType.NS Secure true false false false.

Lemma mrc_invariant_witness : mrc_size m0 = zlen (mrc_entries m0) /\ mrc_size m0 = 2.
Proof.
  split; [|by vm_compute]. apply (mrc_invariant cfg 4 m0); [lia|exact m0_steps].
Defined.

Lemma replace_protects_witness :
  refused cfg 1000 true BogusNoRRSIG false d_entry = true
  /\ exists x, x ∈ mrc_entries (fst (mrc_replace cfg d0 1000 com QType.NS [(9000, 6)] [] [] true com None [] BogusNoRRSIG None false 1000))
    /\ (true = true -> true = true -> QType.NS = QType.NS -> isRoot com = false -> c_ttd x <= 1100) /\ x = d_entry.
Proof.
  split; [by vm_compute|].
  destruct (replace_protects cfg 1000 com QType.NS [(9000, 6)] [] [] true com None [] BogusNoRRSIG None false 1000 4 d0 d_entry) as (x & Hx & _ & Hr & Ht);
    [lia|apply rtc_once, put_step; [exact com_named|done]|exact com_named|exact I|vm_compute; left|by vm_compute|].
  exists x. split_and!; [exact Hx|exact Ht|apply Hr; by vm_compute].
Defined.


(** with the addresses of both families in the cache and no index of networks, a
    lookup of [QType::ADDR] returns those of one family only, although the loop counts
    to two, because a hit ends it for every type but [ANY]; with an index of networks
    in the shard the same lookup returns both. *)
Theorem addr_lookup_one_family :
  contents (look m0 1500 QType.A (ip 10 0 0 1)) = [7] /\ contents (look m0 1500 QType.AAAA (ip 10 0 0 1)) = [8]
  /\ contents (look m0 1500 QType.ADDR (ip 10 0 0 1)) = [7]
  /\ contents (look (put www QType.TXT 1 2000 (Some (nm_make (ip 192 0 2 0) 24)) m0) 1500 QType.ADDR (ip 10 0 0 1)) = [7; 8].
Proof. by vm_compute. Qed.

(** pruning an expired entry of a network can hide the valid entry of a narrower
    one: a lookup had already taken the wider network out of the index, and taking it
    out again takes the narrower one. Before, the client gets the records of its
    network, and after, those for everyone. *)
Theorem pruning_hides_network :
  contents (look n2 1200 QType.A (ip 10 1 3 4)) = [10] /\ doPrune cfg n2 1200 3 = Ok n3
  /\ (exists e, e ∈ mrc_entries n3 /\ c_netmask e = nm_make (ip 10 1 3 0) 24 /\ c_records e = [10] /\ c_ttd e = 5000)
  /\ contents (look n3 1200 QType.A (ip 10 1 3 4)) = [7].
Proof.
  split_and!; [by vm_compute|by vm_compute| |by vm_compute].
  assert (existsb (fun e => bool_decide (c_netmask e = nm_make (ip 10 1 3 0) 24) && bool_decide (c_records e = [10]) && (c_ttd e =? 5000)) (mrc_entries n3) = true)
    as He by (by vm_compute).
  apply existsb_exists in He as (e & He & [[Hn%bool_decide_eq_true Hr%bool_decide_eq_true]%andb_true_iff Ht%Z.eqb_eq]%andb_true_iff).
  exists e. rewrite list_elem_of_In. exact (conj He (conj Hn (conj Hr Ht))).
Qed.
(** A new set that is too big for the cache leaves an entry without records, counted,
    and a network in the index. *)
Lemma too_big_leaves_entry :
  let maps := fst (mrc_replace cfg (mrc_make 1) 1000 www QType.A [(2000, 7)] (replicate 80 1) [] true com (Some (nm_make (ip 10 0 0 0) 8)) [] Secure None false 1000) in
  mrc_size maps = 1 /\ ecsIndexSize maps = 1 /\ map c_records (mrc_entries maps) = [[]] /\ map c_ttd (mrc_entries maps) = [0].
Proof. by vm_compute. Qed.
End recursorcache_example.
