(* ===== verification/IpText.v ===== *)
(** * Addresses and netmasks from text

    [makeIPv4sockaddr], [makeIPv6sockaddr] and [splitField] of [pdns/misc.cc],
    [makeComboAddress] and the constructor of [Netmask] from text of
    [pdns/iputils.hh].  The conversions of the C library are a class, with the two
    forms of text that its documentation guarantees. *)

From S2P Require Import Prelude Chars Dns Validate IpUtils.

#[local] Open Scope Z_scope.

(** ** Numbers *)

Definition LONG_MAX : Z := 2 ^ 63 - 1.

(** [strtol(s, &end, 10)]: the value and what [end] points at, [None] when no
    conversion was made. *)
Definition strtol (s : bytes) : Z * option bytes :=
  let s1 := skip_spaces s in
  let '(neg, s2) := match s1 with
                    | c :: s' => if c =? 45 then (true, s') else if c =? 43 then (false, s') else (false, s1)
                    | [] => (false, [])
                    end in
  let '(v, rest, any) := strtoul_digits s2 0 false in
  if any : bool then ((if neg : bool then Z.max (- v) (- LONG_MAX - 1) else Z.min v LONG_MAX), Some rest) else (0, None).

(** [std::stoi], to an [int] of 32 bits. *)
Definition stoi (s : bytes) : result Z :=
  match strtol (c_str s) with
  | (_, None) => Throw (logic_error "stoi")
  | (v, Some _) => if (v <? - 2 ^ 31) || (2 ^ 31 - 1 <? v) then Throw (out_of_range "stoi") else Ok v
  end.

(** [pdns::checked_stoi<T>] for an unsigned type with the largest value [max]. *)
Definition checked_stoi (max : Z) (s : bytes) : result Z :=
  match s with
  | [] => Ok 0
  | _ => match strtoul (c_str s) with
         | (_, None) => Throw (logic_error "stoull")
         | (v, Some _) => if max <? v then Throw (out_of_range "checked_conv") else Ok v
         end
  end.

(** ** Addresses *)

(** The C library: [inet_aton], [inet_pton] for IPv6 and [getaddrinfo] for IPv6 with
    [AI_NUMERICHOST], as the bytes of the address. *)
Class AddressParser : Type := {
  inet_aton : bytes -> option bytes;
  inet_pton6 : bytes -> option bytes;
  getaddrinfo6 : bytes -> option ComboAddress;
}.

(** [std::string::find] of a character. *)
Fixpoint find_char (c : Z) (s : bytes) : option Z :=
  match s with
  | [] => None
  | x :: s => if x =? c then Some 0 else Z.succ <$> find_char c s
  end.

Definition splitField (inp : bytes) (sepa : Z) : bytes * bytes :=
  match find_char sepa inp with
  | None => (inp, [])
  | Some cpos => (ztake cpos inp, zdrop (cpos + 1) inp)
  end.

Section parsing.
Context `{HAP : !AddressParser}.

(** [makeIPv4sockaddr] on [*ret], and whether it returned 0. *)
Definition makeIPv4sockaddr (arg : bytes) (ret : ComboAddress) : ComboAddress * bool :=
  let converted (text : bytes) (port : Z) :=
    match inet_aton (c_str text) with
    | Some a => (mkCA (sin_family ret) port a, true)
    | None => (mkCA (sin_family ret) port (sin_addr ret), false)
    end in
  match arg with
  | [] => (ret, false)
  | _ =>
      match find_char 58 arg with
      | None => converted arg (sin_port ret)
      | Some pos =>
          let text := c_str (zdrop (pos + 1) arg) in
          if bool_decide (text = []) then (ret, false)
          else
            let '(v, rest) := strtol text in
            let port := s32 v in
            if (port <? 0) || (65535 <? port) then (ret, false)
            else if negb (bool_decide (default text rest = [])) then (ret, false)
            else converted (ztake pos arg) port
      end
  end.

(** The text between brackets and the port behind them; [None] is -1. *)
Definition bracketed (addr : bytes) : option (bytes * option Z) :=
  match addr with
  | 91 :: _ =>
      pos ← find_char 93 addr;
      let ourAddr := c_str (zsub addr 1 (pos - 1)) in
      if negb (pos + 1 =? zlen addr) then
        if (zlen addr <? pos + 2) || negb (bool_decide (zat addr (pos + 1) = Some 58)) then None
        else match checked_stoi 65535 (zdrop (pos + 2) addr) with
             | Ok port => Some (ourAddr, Some port)
             | Throw _ => None
             end
      else Some (ourAddr, None)
  | _ => Some (addr, None)
  end.

(** [makeIPv6sockaddr] on [*ret]. *)
Definition makeIPv6sockaddr (addr : bytes) (ret : ComboAddress) : ComboAddress * bool :=
  match addr with
  | [] => (ret, false)
  | _ =>
      match bracketed addr with
      | None => (ret, false)
      | Some (ourAddr, port) =>
          let ret := mkCA AF_INET6 (sin_port ret) (sin_addr ret) in
          let converted (ret : ComboAddress) := (mkCA (sin_family ret) (default (sin_port ret) port) (sin_addr ret), true) in
          match inet_pton6 (c_str ourAddr) with
          | Some a => converted (mkCA (sin_family ret) (sin_port ret) a)
          | None =>
              match getaddrinfo6 (c_str ourAddr) with
              | None => (ret, false)
              | Some ret => converted ret
              end
          end
      end
  end.

Definition makeComboAddress (str : bytes) : result ComboAddress :=
  let '(address, ok) := makeIPv4sockaddr str (mkCA AF_INET 0 [0; 0; 0; 0]) in
  if ok : bool then Ok address
  else
    let '(address, ok) := makeIPv6sockaddr str (mkCA AF_INET6 (sin_port address) (sin_addr address)) in
    if ok : bool then Ok address else Throw (NetmaskException "Unable to convert to a netmask").

(** [Netmask(const string&)]. *)
Definition nm_of_text (mask : bytes) : result Netmask :=
  let '(first, second) := splitField mask 47 in
  network ← makeComboAddress first;
  match second with
  | [] => Ok (setBits network (if ca_isIPv4 network then 32 else 128))
  | _ => bits ← checked_stoi 255 second; Ok (setBits network bits)
  end.
End parsing.

(** ** What the C library promises *)

(** Texts separated by one character. *)
Fixpoint joined (sep : Z) (l : list bytes) : bytes :=
  match l with
  | [] => []
  | [x] => x
  | x :: l => x ++ sep :: joined sep l
  end.

(** Four decimal numbers are an IPv4 address; eight hexadecimal numbers, or fewer with
    one double colon for the zeroes, are an IPv6 address. *)
Class AddressForms (hex : Z -> bytes) (HAP : AddressParser) : Prop := {
  aton_quad : forall a b c d, 0 <= a < 256 -> 0 <= b < 256 -> 0 <= c < 256 -> 0 <= d < 256 ->
    inet_aton (joined 46 (map to_string [a; b; c; d])) = Some [a; b; c; d];
  pton6_full : forall l, length l = 8%nat -> Forall (fun e => 0 <= e < 65536) l ->
    inet_pton6 (joined 58 (map hex l)) = Some (concat (map be16 l));
  pton6_zeroes : forall l r, (length l + length r <= 7)%nat -> Forall (fun e => 0 <= e < 65536) (l ++ r) ->
    inet_pton6 (joined 58 (map hex l) ++ [58; 58] ++ joined 58 (map hex r))
    = Some (concat (map be16 (l ++ replicate (8 - (length l + length r)) 0 ++ r)));
}.
