(* ===== verification/Rpz.v ===== *)
(** * The filtering engine of the recursor

    [pdns/recursordist/filterpo.cc], [filterpo.hh]: policies for names and networks,
    grouped in zones in the order of their priority.  The data that all policies of a
    zone share is an object of a store, and the zone and its policies have pointers
    to it; a copied zone gets an object of its own, and its policies keep theirs.
    A hash map from names is an association list, whose order only shows in dumps. *)

From S2P Require Import Prelude Chars Dns Names NamesText NamesOrder Denial Validate IpUtils NetTree NetGroups.

#[local] Open Scope Z_scope.

Module PolicyKind.
Inductive t : Type := NoAction | Drop | NXDOMAIN | NODATA | Truncate | Custom.
#[global] Instance eq_dec : EqDecision t.
Proof. solve_decision. Defined.
End PolicyKind.

Module PolicyType.
Inductive t : Type := None | QName | ClientIP | ResponseIP | NSDName | NSIP.
#[global] Instance eq_dec : EqDecision t.
Proof. solve_decision. Defined.
End PolicyType.

Definition maximumPriority : Z := 65535.

(** What the engine uses of the contents of records: their type, their text, by which
    they are compared within a class, the target of a CNAME, the address of an A or
    AAAA record, and serial and refresh of a SOA record. *)
Class RecordContents (RC : Type) : Type := {
  rc_getType : RC -> Z;
  rc_class : RC -> Z;
  getZoneRepresentation : RC -> bytes;
  rc_target : RC -> option DNSName;
  rc_cname : DNSName -> RC;
  rc_getCA : RC -> option ComboAddress;
  rc_soa : RC -> option (Z * Z);
}.

(** A text form of addresses, for logging. *)
Class AddressText : Type := { ca_toString : ComboAddress -> bytes }.

(** [DNSRecord]. *)
Record PolicyRecord (RC : Type) : Type := mkRR {
  rr_name : DNSName;
  rr_type : Z;
  rr_class : Z;
  rr_ttl : Z;
  rr_place : Place;
  rr_content : RC;
}.
Arguments mkRR {RC} _ _ _ _ _ _.
Arguments rr_name {RC} _.
Arguments rr_type {RC} _.
Arguments rr_class {RC} _.
Arguments rr_ttl {RC} _.
Arguments rr_place {RC} _.
Arguments rr_content {RC} _.

Record PolicyZoneData (RC : Type) : Type := mkZoneData {
  zd_tags : list bytes;
  zd_name : bytes;
  zd_extendedErrorExtra : bytes;
  zd_soa : option (PolicyRecord RC);
  zd_extendedErrorCode : option Z;
  zd_priority : Z;
  zd_policyOverridesGettag : bool;
  zd_includeSOA : bool;
  zd_ignoreDuplicates : bool;
}.
Arguments mkZoneData {RC} _ _ _ _ _ _ _ _ _.
Arguments zd_tags {RC} _.
Arguments zd_name {RC} _.
Arguments zd_extendedErrorExtra {RC} _.
Arguments zd_soa {RC} _.
Arguments zd_extendedErrorCode {RC} _.
Arguments zd_priority {RC} _.
Arguments zd_policyOverridesGettag {RC} _.
Arguments zd_includeSOA {RC} _.
Arguments zd_ignoreDuplicates {RC} _.

(** [p_zoneData] points into the store. *)
Record Policy (RC : Type) : Type := mkPolicy {
  p_zoneData : option nat;
  p_custom : option (list RC);
  p_hitdata : option (DNSName * bytes);
  p_ttl : Z;
  p_kind : PolicyKind.t;
  p_type : PolicyType.t;
}.
Arguments mkPolicy {RC} _ _ _ _ _ _.
Arguments p_zoneData {RC} _.
Arguments p_custom {RC} _.
Arguments p_hitdata {RC} _.
Arguments p_ttl {RC} _.
Arguments p_kind {RC} _.
Arguments p_type {RC} _.

Record Zone (RC : Type) : Type := mkZone {
  d_qpolName : list (DNSName * Policy RC);
  d_qpolAddr : NetmaskTree Netmask (Policy RC);
  d_propolName : list (DNSName * Policy RC);
  d_propolNSAddr : NetmaskTree Netmask (Policy RC);
  d_postpolAddr : NetmaskTree Netmask (Policy RC);
  z_domain : DNSName;
  z_data : nat;
  z_serial : Z;
  z_refresh : Z;
}.
Arguments mkZone {RC} _ _ _ _ _ _ _ _ _.
Arguments d_qpolName {RC} _.
Arguments d_qpolAddr {RC} _.
Arguments d_propolName {RC} _.
Arguments d_propolNSAddr {RC} _.
Arguments d_postpolAddr {RC} _.
Arguments z_domain {RC} _.
Arguments z_data {RC} _.
Arguments z_serial {RC} _.
Arguments z_refresh {RC} _.

Definition rpzDropName : bytes := bs "rpz-drop.".
Definition rpzTruncateName : bytes := bs "rpz-tcp-only.".
Definition rpzNoActionName : bytes := bs "rpz-passthru.".
Definition rpzCustomName : bytes := bs "Local Data".
Definition rpzClientIPName : bytes := bs "rpz-client-ip".
Definition rpzIPName : bytes := bs "rpz-ip".
Definition rpzNSDnameName : bytes := bs "rpz-nsdname".
Definition rpzNSIPName : bytes := bs "rpz-nsip".

(** [getKindToString]: the root and the wildcard are texts of names. *)
Definition getKindToString (kind : PolicyKind.t) : bytes :=
  match kind with
  | PolicyKind.NoAction => rpzNoActionName
  | PolicyKind.Drop => rpzDropName
  | PolicyKind.NXDOMAIN => bs "."
  | PolicyKind.NODATA => bs "*."
  | PolicyKind.Truncate => rpzTruncateName
  | PolicyKind.Custom => rpzCustomName
  end.

Definition getTypeToString (type : PolicyType.t) : bytes :=
  match type with
  | PolicyType.None => bs "none"
  | PolicyType.QName => bs "QName"
  | PolicyType.ClientIP => bs "Client IP"
  | PolicyType.ResponseIP => bs "Response IP"
  | PolicyType.NSDName => bs "Name Server Name"
  | PolicyType.NSIP => bs "Name Server IP"
  end.

Section policies.
Context {RC : Type} `{HRC : !RecordContents RC} `{HAT : !AddressText}.
#[local] Abbreviation policy := (Policy RC).
#[local] Abbreviation zonedata := (PolicyZoneData RC).
#[local] Abbreviation store := (list (PolicyZoneData RC)).
#[local] Abbreviation record := (PolicyRecord RC).

(** [**it == *toRemove]. *)
Definition rc_eqb (a b : RC) : bool := (rc_class a =? rc_class b) && bool_decide (getZoneRepresentation a = getZoneRepresentation b).

(** ** Policies *)

Definition initial_data : zonedata := mkZoneData [] [] [] None None maximumPriority true false false.

Definition policy_default : policy := mkPolicy None None None 0 PolicyKind.NoAction PolicyType.None.

(** The object a pointer leads to. *)
Definition data_at (st : store) (i : nat) : zonedata := default initial_data (st !! i).
Definition data_of (st : store) (p : policy) : option zonedata := data_at st <$> p_zoneData p.

(** Copy assignment: the custom records of the target stay when the source has none. *)
Definition policy_assign (dst rhs : policy) : policy :=
  mkPolicy (p_zoneData rhs) (match p_custom rhs with Some c => Some c | None => p_custom dst end) (p_hitdata rhs) (p_ttl rhs) (p_kind rhs) (p_type rhs).

Definition p_getName (st : store) (p : policy) : bytes := match data_of st p with Some d => zd_name d | None => [] end.
Definition p_getTags (st : store) (p : policy) : list bytes := match data_of st p with Some d => zd_tags d | None => [] end.
Definition p_getPriority (st : store) (p : policy) : Z := match data_of st p with Some d => zd_priority d | None => maximumPriority end.
Definition p_policyOverridesGettag (st : store) (p : policy) : bool := match data_of st p with Some d => zd_policyOverridesGettag d | None => true end.
Definition p_getSOA (st : store) (p : policy) : option record := d ← data_of st p; zd_soa d.
Definition p_includeSOA (st : store) (p : policy) : bool := match data_of st p with Some d => zd_includeSOA d | None => false end.

Definition with_data_name (name : bytes) (d : zonedata) : zonedata :=
  mkZoneData (zd_tags d) name (zd_extendedErrorExtra d) (zd_soa d) (zd_extendedErrorCode d) (zd_priority d) (zd_policyOverridesGettag d)
    (zd_includeSOA d) (zd_ignoreDuplicates d).

(** [Policy::setName]: the shared data is copied first. *)
Definition p_setName (name : bytes) (st : store) (p : policy) : store * policy :=
  (st ++ [with_data_name name (default initial_data (data_of st p))],
   mkPolicy (Some (length st)) (p_custom p) (p_hitdata p) (p_ttl p) (p_kind p) (p_type p)).

Definition wasHit (p : policy) : bool := negb (bool_decide (p_type p = PolicyType.None)) && negb (bool_decide (p_kind p = PolicyKind.NoAction)).

Definition setHitData (name : DNSName) (hit : bytes) (p : policy) : policy :=
  mkPolicy (p_zoneData p) (p_custom p) (Some (name, hit)) (p_ttl p) (p_kind p) (p_type p).

Definition with_custom (c : option (list RC)) (p : policy) : policy := mkPolicy (p_zoneData p) c (p_hitdata p) (p_ttl p) (p_kind p) (p_type p).

(** In a zone: its data and the type of the trigger. *)
Definition in_zone (i : nat) (type : PolicyType.t) (p : policy) : policy :=
  mkPolicy (Some i) (p_custom p) (p_hitdata p) (p_ttl p) (p_kind p) type.

Definition customRecordsSize (p : policy) : Z := match p_custom p with Some c => zlen c | None => 0 end.
Definition getTrigger (p : policy) : DNSName := match p_hitdata p with Some (n, _) => n | None => mkDNSName [] end.
Definition getHit (p : policy) : bytes := match p_hitdata p with Some (_, h) => h | None => [] end.

(** [d_hitdata->d_trigger.appendRawLabel(label)]. *)
Definition append_trigger (label : bytes) (p : policy) : result policy :=
  match p_hitdata p with
  | Some (trigger, hit) => trigger ← appendRawLabel trigger label; Ok (setHitData trigger hit p)
  | None => Throw (logic_error "null pointer")
  end.

(** [d_hitdata->d_hit = hit]. *)
Definition replace_hit (hit : bytes) (p : policy) : policy := setHitData (getTrigger p) hit p.

Definition addSOAtoRPZResult (st : store) (p : policy) (ret : list record) : list record :=
  if p_includeSOA st p then
    match p_getSOA st p with
    | Some soa => ret ++ [mkRR (rr_name soa) (rr_type soa) (rr_class soa) (rr_ttl soa) ADDITIONAL (rr_content soa)]
    | None => ret
    end
  else ret.

(** ** Records of policies *)

(** The content, with a wildcard target put below the query name. *)
Definition custom_content (qname : DNSName) (custom : RC) : result RC :=
  if rc_getType custom =? QType.CNAME then
    match rc_target custom with
    | Some target =>
        if isWildcard target then target ← name_append qname (fst (chopOff target)); Ok (rc_cname target) else Ok custom
    | None => Ok custom
    end
  else Ok custom.

Definition getRecordFromCustom (qname : DNSName) (p : policy) (custom : RC) : result record :=
  content ← custom_content qname custom;
  Ok (mkRR qname (rc_getType custom) QClass.IN (u32 (p_ttl p)) ANSWER content).

Definition custom_wanted (qtype : Z) (custom : RC) : bool :=
  negb (negb (qtype =? QType.ANY) && negb (qtype =? rc_getType custom) && negb (rc_getType custom =? QType.CNAME)).

Fixpoint custom_loop (qname : DNSName) (qtype : Z) (p : policy) (customs : list RC) : result (list record) :=
  match customs with
  | [] => Ok []
  | custom :: customs =>
      if custom_wanted qtype custom then
        r ← getRecordFromCustom qname p custom;
        rs ← custom_loop qname qtype p customs;
        Ok (r :: rs)
      else custom_loop qname qtype p customs
  end.

Definition getCustomRecords (qname : DNSName) (qtype : Z) (p : policy) : result (list record) :=
  if negb (bool_decide (p_kind p = PolicyKind.Custom))
  then Throw (runtime_error "Asking for a custom record from a filtering policy of a non-custom type")
  else custom_loop qname qtype p (default [] (p_custom p)).

(** [getRecords]: a policy that is not custom is a CNAME to the name of its action. *)
Definition getRecords (qname : DNSName) (p : policy) : result (list record) :=
  if bool_decide (p_kind p = PolicyKind.Custom) then getCustomRecords qname QType.ANY p
  else
    target ← DNSName_from_text (getKindToString (p_kind p));
    Ok [mkRR qname QType.CNAME QClass.IN (u32 (p_ttl p)) ANSWER (rc_cname target)].

(** ** Triggers by name *)

#[local] Abbreviation polmap := (list (DNSName * Policy RC)).

Definition find_policy (m : polmap) (n : DNSName) : option (DNSName * policy) := List.find (fun '(k, _) => name_eqb k n) m.
Definition put_policy (n : DNSName) (p : policy) (m : polmap) : polmap := map (fun '(k, q) => (k, if name_eqb k n then p else q)) m.
Definition erase_policy (n : DNSName) (m : polmap) : polmap := List.filter (fun '(k, _) => negb (name_eqb k n)) m.

Definition findExactNamedPolicy (m : polmap) (qname : DNSName) (pol : policy) : result (option policy) :=
  if bool_decide (m = []) then Ok None
  else
    match find_policy m qname with
    | Some (_, p) => hit ← toStringNoDot qname; Ok (Some (setHitData qname hit (policy_assign pol p)))
    | None => Ok None
    end.

(** The names [while (sub.chopOff())] goes through, below a wildcard. *)
Fixpoint wildcards_loop (fuel : nat) (sub : DNSName) : result (list DNSName) :=
  match fuel with
  | O => Ok []
  | S fuel =>
      let '(sub, chopped) := chopOff sub in
      if chopped : bool then
        wc ← name_append g_wildcarddnsname sub;
        wcs ← wildcards_loop fuel sub;
        Ok (wc :: wcs)
      else Ok []
  end.

(** Each round takes a label off the name. *)
Definition wcNames (qname : DNSName) : result (list DNSName) := wildcards_loop (length (d_storage qname)) qname.

(** [findNamedPolicy], which does the same for one map and is not used. *)
Fixpoint named_wildcards (m : polmap) (qname : DNSName) (wcs : list DNSName) (pol : policy) : result (option policy) :=
  match wcs with
  | [] => Ok None
  | wc :: wcs =>
      match find_policy m wc with
      | Some (k, p) => hit ← toStringNoDot qname; Ok (Some (setHitData k hit (policy_assign pol p)))
      | None => named_wildcards m qname wcs pol
      end
  end.

Definition findNamedPolicy (m : polmap) (qname : DNSName) (pol : policy) : result (option policy) :=
  if bool_decide (m = []) then Ok None
  else
    match find_policy m qname with
    | Some (_, p) => Ok (Some (policy_assign pol p))
    | None => wcs ← wcNames qname; named_wildcards m qname wcs pol
    end.

(** [addCustom]. *)
Definition addCustom (existing pol : policy) : policy :=
  with_custom (Some (default [] (p_custom existing) ++ default [] (p_custom pol))) existing.

(** Whether a trigger may be added to an existing one, may not, or is ignored. *)
Inductive duplicate : Type := DupAdd | DupIgnore | DupThrow.

Definition on_duplicate (ignoreDuplicates : bool) (existing pol : policy) (ignoreDuplicate : bool) : duplicate :=
  if (negb (bool_decide (p_kind pol = PolicyKind.Custom)) && negb ignoreDuplicate)
     || (negb (bool_decide (p_kind existing = PolicyKind.Custom)) && negb ignoreDuplicate)
  then if ignoreDuplicates then DupIgnore else DupThrow
  else DupAdd.

Definition duplicate_name : exn := runtime_error "already exists for the following name".
Definition duplicate_netmask : exn := runtime_error "already exists for the following netmask".

Definition addNameTrigger (data : zonedata) (i : nat) (m : polmap) (n : DNSName) (pol : policy) (ignoreDuplicate : bool) (ptype : PolicyType.t)
  : result polmap :=
  match find_policy m n with
  | Some (_, existing) =>
      match on_duplicate (zd_ignoreDuplicates data) existing pol ignoreDuplicate with
      | DupAdd => Ok (put_policy n (addCustom existing pol) m)
      | DupIgnore => Ok m
      | DupThrow => Throw duplicate_name
      end
  | None => Ok (m ++ [(n, in_zone i ptype pol)])
  end.

(** Taking the first equal record out. *)
Fixpoint remove_custom (toRemove : RC) (customs : list RC) : option (list RC) :=
  match customs with
  | [] => None
  | c :: customs => if rc_eqb c toRemove then Some customs else (fun l => c :: l) <$> remove_custom toRemove customs
  end.

Fixpoint remove_customs (toRemove customs : list RC) (removed : bool) : list RC * bool :=
  match toRemove with
  | [] => (customs, removed)
  | r :: toRemove =>
      match remove_custom r customs with
      | Some customs => remove_customs toRemove customs true
      | None => remove_customs toRemove customs removed
      end
  end.

(** What is left of an existing policy, [None] for nothing, and the answer of the
    removal. *)
Definition remove_policy (existing pol : policy) : option policy * bool :=
  if negb (bool_decide (p_kind existing = PolicyKind.Custom)) then (None, true)
  else
    let '(rest, removed) :=
      match p_custom pol, p_custom existing with
      | Some toRemove, Some customs => let '(c, b) := remove_customs toRemove customs false in (with_custom (Some c) existing, b)
      | _, _ => (existing, false)
      end in
    if customRecordsSize rest =? 0 then (None, true) else (Some rest, removed).

Definition rmNameTrigger (m : polmap) (name : DNSName) (pol : policy) : polmap * bool :=
  match find_policy m name with
  | None => (m, false)
  | Some (_, existing) =>
      match remove_policy existing pol with
      | (None, b) => (erase_policy name m, b)
      | (Some rest, b) => (put_policy name rest m, b)
      end
  end.

(** ** Triggers by network *)

#[local] Abbreviation poltree := (NetmaskTree Netmask (Policy RC)).

Definition tree0 : poltree := tree_empty policy_default.

(** [nmt.lookup(netmask)->second], when [has_key] said yes. *)
Definition policy_at (nmt : poltree) (netmask : Netmask) : result policy :=
  o ← tree_lookup_key policy_default netmask nmt;
  match o with Some (_, p) => Ok p | None => Throw (logic_error "null pointer") end.

(** An assignment through the pointer, to the node that [insert] would find. *)
Definition assign_at (nmt : poltree) (netmask : Netmask) (p : policy) : result poltree := insert_or_assign policy_default netmask p nmt.

Definition addNetmaskTrigger (data : zonedata) (i : nat) (nmt : poltree) (netmask : Netmask) (pol : policy) (ignoreDuplicate : bool)
    (ptype : PolicyType.t) : result poltree :=
  exists_ ← has_key policy_default netmask nmt;
  if exists_ : bool then
    existing ← policy_at nmt netmask;
    match on_duplicate (zd_ignoreDuplicates data) existing pol ignoreDuplicate with
    | DupAdd => assign_at nmt netmask (addCustom existing pol)
    | DupIgnore => Ok nmt
    | DupThrow => Throw duplicate_netmask
    end
  else insert_or_assign policy_default netmask (in_zone i ptype pol) nmt.

Definition rmNetmaskTrigger (nmt : poltree) (netmask : Netmask) (pol : policy) : result (poltree * bool) :=
  found ← has_key policy_default netmask nmt;
  if negb found then Ok (nmt, false)
  else
    existing ← policy_at nmt netmask;
    match remove_policy existing pol with
    | (None, b) => t ← tree_erase policy_default netmask nmt; Ok (t, b)
    | (Some rest, b) => t ← assign_at nmt netmask rest; Ok (t, b)
    end.

(** ** Zones *)

#[local] Abbreviation zone := (Zone RC).

(** [Zone()] and the copy, each with new data. *)
Definition zone_make (st : store) : store * zone := (st ++ [initial_data], mkZone [] tree0 [] tree0 tree0 (mkDNSName []) (length st) 0 0).

Definition zone_copy (st : store) (z : zone) : result (store * zone) :=
  qa ← copyTree policy_default (d_qpolAddr z);
  na ← copyTree policy_default (d_propolNSAddr z);
  pa ← copyTree policy_default (d_postpolAddr z);
  Ok (st ++ [data_at st (z_data z)],
      mkZone (d_qpolName z) qa (d_propolName z) na pa (z_domain z) (length st) (z_serial z) (z_refresh z)).

Definition zone_clear (z : zone) : zone :=
  mkZone [] (tree_clear policy_default (d_qpolAddr z)) [] (tree_clear policy_default (d_propolNSAddr z)) (tree_clear policy_default (d_postpolAddr z))
    (z_domain z) (z_data z) (z_serial z) (z_refresh z).

(** Setters of the shared data. *)
Definition change_data (f : zonedata -> zonedata) (z : zone) (st : store) : store := <[z_data z := f (data_at st (z_data z))]> st.

Definition z_setName (name : bytes) : zone -> store -> store := change_data (with_data_name name).
Definition z_setTags (tags : list bytes) : zone -> store -> store :=
  change_data (fun d => mkZoneData tags (zd_name d) (zd_extendedErrorExtra d) (zd_soa d) (zd_extendedErrorCode d) (zd_priority d)
    (zd_policyOverridesGettag d) (zd_includeSOA d) (zd_ignoreDuplicates d)).
Definition setPolicyOverridesGettag (flag : bool) : zone -> store -> store :=
  change_data (fun d => mkZoneData (zd_tags d) (zd_name d) (zd_extendedErrorExtra d) (zd_soa d) (zd_extendedErrorCode d) (zd_priority d)
    flag (zd_includeSOA d) (zd_ignoreDuplicates d)).
Definition setExtendedErrorCode (code : Z) : zone -> store -> store :=
  change_data (fun d => mkZoneData (zd_tags d) (zd_name d) (zd_extendedErrorExtra d) (zd_soa d) (Some code) (zd_priority d)
    (zd_policyOverridesGettag d) (zd_includeSOA d) (zd_ignoreDuplicates d)).
Definition setExtendedErrorExtra (extra : bytes) : zone -> store -> store :=
  change_data (fun d => mkZoneData (zd_tags d) (zd_name d) extra (zd_soa d) (zd_extendedErrorCode d) (zd_priority d)
    (zd_policyOverridesGettag d) (zd_includeSOA d) (zd_ignoreDuplicates d)).
Definition z_setSOA (soa : record) : zone -> store -> store :=
  change_data (fun d => mkZoneData (zd_tags d) (zd_name d) (zd_extendedErrorExtra d) (Some soa) (zd_extendedErrorCode d) (zd_priority d)
    (zd_policyOverridesGettag d) (zd_includeSOA d) (zd_ignoreDuplicates d)).
Definition setIncludeSOA (flag : bool) : zone -> store -> store :=
  change_data (fun d => mkZoneData (zd_tags d) (zd_name d) (zd_extendedErrorExtra d) (zd_soa d) (zd_extendedErrorCode d) (zd_priority d)
    (zd_policyOverridesGettag d) flag (zd_ignoreDuplicates d)).
Definition setIgnoreDuplicates (flag : bool) : zone -> store -> store :=
  change_data (fun d => mkZoneData (zd_tags d) (zd_name d) (zd_extendedErrorExtra d) (zd_soa d) (zd_extendedErrorCode d) (zd_priority d)
    (zd_policyOverridesGettag d) (zd_includeSOA d) flag).

Definition with_data_priority (priority : Z) (d : zonedata) : zonedata :=
  mkZoneData (zd_tags d) (zd_name d) (zd_extendedErrorExtra d) (zd_soa d) (zd_extendedErrorCode d) priority (zd_policyOverridesGettag d)
    (zd_includeSOA d) (zd_ignoreDuplicates d).
Definition setPriority (priority : Z) : zone -> store -> store := change_data (with_data_priority priority).

(** Setters of the zone itself. *)
Definition setDomain (domain : DNSName) (z : zone) : zone :=
  mkZone (d_qpolName z) (d_qpolAddr z) (d_propolName z) (d_propolNSAddr z) (d_postpolAddr z) domain (z_data z) (z_serial z) (z_refresh z).
Definition setSerial (serial : Z) (z : zone) : zone :=
  mkZone (d_qpolName z) (d_qpolAddr z) (d_propolName z) (d_propolNSAddr z) (d_postpolAddr z) (z_domain z) (z_data z) serial (z_refresh z).
Definition setRefresh (refresh : Z) (z : zone) : zone :=
  mkZone (d_qpolName z) (d_qpolAddr z) (d_propolName z) (d_propolNSAddr z) (d_postpolAddr z) (z_domain z) (z_data z) (z_serial z) refresh.

Definition z_getName (st : store) (z : zone) : bytes := zd_name (data_at st (z_data z)).
Definition z_getPriority (st : store) (z : zone) : Z := zd_priority (data_at st (z_data z)).
Definition z_getSOA (st : store) (z : zone) : option record := zd_soa (data_at st (z_data z)).
Definition getQNames (z : zone) (names : list DNSName) : list DNSName :=
  fold_left (fun ns n => if existsb (fun m => name_eqb m n) ns then ns else ns ++ [n]) (map fst (d_qpolName z)) names.

Definition zone_size (z : zone) : Z :=
  d_size (d_qpolAddr z) + d_size (d_postpolAddr z) + zlen (d_propolName z) + d_size (d_propolNSAddr z) + zlen (d_qpolName z).

(** The maps of a zone. *)
Definition set_qpolName (m : polmap) (z : zone) : zone :=
  mkZone m (d_qpolAddr z) (d_propolName z) (d_propolNSAddr z) (d_postpolAddr z) (z_domain z) (z_data z) (z_serial z) (z_refresh z).
Definition set_qpolAddr (t : poltree) (z : zone) : zone :=
  mkZone (d_qpolName z) t (d_propolName z) (d_propolNSAddr z) (d_postpolAddr z) (z_domain z) (z_data z) (z_serial z) (z_refresh z).
Definition set_propolName (m : polmap) (z : zone) : zone :=
  mkZone (d_qpolName z) (d_qpolAddr z) m (d_propolNSAddr z) (d_postpolAddr z) (z_domain z) (z_data z) (z_serial z) (z_refresh z).
Definition set_propolNSAddr (t : poltree) (z : zone) : zone :=
  mkZone (d_qpolName z) (d_qpolAddr z) (d_propolName z) t (d_postpolAddr z) (z_domain z) (z_data z) (z_serial z) (z_refresh z).
Definition set_postpolAddr (t : poltree) (z : zone) : zone :=
  mkZone (d_qpolName z) (d_qpolAddr z) (d_propolName z) (d_propolNSAddr z) t (z_domain z) (z_data z) (z_serial z) (z_refresh z).

Definition addClientTrigger (st : store) (netmask : Netmask) (pol : policy) (ignoreDuplicate : bool) (z : zone) : result zone :=
  t ← addNetmaskTrigger (data_at st (z_data z)) (z_data z) (d_qpolAddr z) netmask pol ignoreDuplicate PolicyType.ClientIP; Ok (set_qpolAddr t z).
Definition addResponseTrigger (st : store) (netmask : Netmask) (pol : policy) (ignoreDuplicate : bool) (z : zone) : result zone :=
  t ← addNetmaskTrigger (data_at st (z_data z)) (z_data z) (d_postpolAddr z) netmask pol ignoreDuplicate PolicyType.ResponseIP; Ok (set_postpolAddr t z).
Definition addNSIPTrigger (st : store) (netmask : Netmask) (pol : policy) (ignoreDuplicate : bool) (z : zone) : result zone :=
  t ← addNetmaskTrigger (data_at st (z_data z)) (z_data z) (d_propolNSAddr z) netmask pol ignoreDuplicate PolicyType.NSIP; Ok (set_propolNSAddr t z).
Definition addQNameTrigger (st : store) (dnsname : DNSName) (pol : policy) (ignoreDuplicate : bool) (z : zone) : result zone :=
  m ← addNameTrigger (data_at st (z_data z)) (z_data z) (d_qpolName z) dnsname pol ignoreDuplicate PolicyType.QName; Ok (set_qpolName m z).
Definition addNSTrigger (st : store) (dnsname : DNSName) (pol : policy) (ignoreDuplicate : bool) (z : zone) : result zone :=
  m ← addNameTrigger (data_at st (z_data z)) (z_data z) (d_propolName z) dnsname pol ignoreDuplicate PolicyType.NSDName; Ok (set_propolName m z).

Definition rmClientTrigger (netmask : Netmask) (pol : policy) (z : zone) : result (zone * bool) :=
  '(t, b) ← rmNetmaskTrigger (d_qpolAddr z) netmask pol; Ok (set_qpolAddr t z, b).
Definition rmResponseTrigger (netmask : Netmask) (pol : policy) (z : zone) : result (zone * bool) :=
  '(t, b) ← rmNetmaskTrigger (d_postpolAddr z) netmask pol; Ok (set_postpolAddr t z, b).
Definition rmNSIPTrigger (netmask : Netmask) (pol : policy) (z : zone) : result (zone * bool) :=
  '(t, b) ← rmNetmaskTrigger (d_propolNSAddr z) netmask pol; Ok (set_propolNSAddr t z, b).
Definition rmQNameTrigger (dnsname : DNSName) (pol : policy) (z : zone) : zone * bool :=
  let '(m, b) := rmNameTrigger (d_qpolName z) dnsname pol in (set_qpolName m z, b).
Definition rmNSTrigger (dnsname : DNSName) (pol : policy) (z : zone) : zone * bool :=
  let '(m, b) := rmNameTrigger (d_propolName z) dnsname pol in (set_propolName m z, b).

Definition hasClientPolicies (z : zone) : bool := negb (tree_is_empty (d_qpolAddr z)).
Definition hasQNamePolicies (z : zone) : bool := negb (bool_decide (d_qpolName z = [])).
Definition hasNSPolicies (z : zone) : bool := negb (bool_decide (d_propolName z = [])).
Definition hasNSIPPolicies (z : zone) : bool := negb (tree_is_empty (d_propolNSAddr z)).
Definition hasResponsePolicies (z : zone) : bool := negb (tree_is_empty (d_postpolAddr z)).
End policies.
