(* ===== verification/RpzEngine.v ===== *)
(** * Lookups in the filtering engine

    [pdns/recursordist/filterpo.cc]: which policy applies to a name, an address or a
    record, over the zones in the order of their priority, and the names by which
    networks are written in response policy zones. *)

From S2P Require Import Prelude Chars Dns Names NamesText NamesOrder Denial Validate IpUtils NetTree NetGroups Rpz.

#[local] Open Scope Z_scope.

(** ** Networks as names *)

Definition hex_digit (d : Z) : Z := if d <? 10 then 48 + d else 87 + d.

Fixpoint hex_digits (fuel : nat) (n : Z) (acc : bytes) : bytes :=
  match fuel with
  | O => acc
  | S fuel => let acc := hex_digit (n mod 16) :: acc in if n <? 16 then acc else hex_digits fuel (n / 16) acc
  end.

(** ["%x"] of a 16-bit number. *)
Definition format_hex (n : Z) : bytes := hex_digits 4 n [].

(** The search for the last longest run of zeroes: [best] and [cur] are the base and
    the length of a run, the base -1 for none. *)
Definition better_run (best cur : Z * Z) : Z * Z := if (best.1 =? -1) || (best.2 <=? cur.2) then cur else best.

Fixpoint zero_runs (i : Z) (elems : list Z) (best cur : Z * Z) : (Z * Z) * (Z * Z) :=
  match elems with
  | [] => (best, cur)
  | e :: elems =>
      if e =? 0 then zero_runs (i + 1) elems best (if cur.1 =? -1 then (i, 1) else (cur.1, cur.2 + 1))
      else if cur.1 =? -1 then zero_runs (i + 1) elems best cur
      else zero_runs (i + 1) elems (better_run best cur) (-1, cur.2)
  end.

Definition best_run (elems : list Z) : Z * Z :=
  let '(best, cur) := zero_runs 0 elems (-1, 0) (-1, 0) in
  let best := if cur.1 =? -1 then best else better_run best cur in
  if negb (best.1 =? -1) && (best.2 <? 2) then (-1, best.2) else best.

(** The loop over the elements, which skips the run; each is put in front. *)
Fixpoint rpz_labels (fuel : nat) (i : Z) (elems : list Z) (best : Z * Z) (temp : DNSName) : result DNSName :=
  match fuel, elems with
  | S fuel, e :: rest =>
      if i =? best.1 then
        zz ← DNSName_from_text (bs "zz");
        temp ← name_append zz temp;
        rpz_labels fuel (i + best.2) (zdrop best.2 elems) best temp
      else
        l ← DNSName_from_text (format_hex e);
        temp ← name_append l temp;
        rpz_labels fuel (i + 1) rest best temp
  | _, _ => Ok temp
  end.

(** The 16-bit elements of an address, in network order. *)
Fixpoint elements (addr : bytes) : list Z :=
  match addr with
  | a :: b :: addr => (a * 256 + b) :: elements addr
  | _ => []
  end.

Definition at_byte (addr : bytes) (i : Z) : Z := default 0 (zat addr i).

Definition maskToRPZ (netmask : Netmask) : result DNSName :=
  res ← DNSName_from_text (to_string (nm_bits netmask));
  let addr := sin_addr (d_network netmask) in
  if ca_isIPv4 (d_network netmask) then
    rest ← DNSName_from_text (to_string (at_byte addr 3) ++ bs "." ++ to_string (at_byte addr 2) ++ bs "." ++ to_string (at_byte addr 1)
                                ++ bs "." ++ to_string (at_byte addr 0));
    name_append res rest
  else
    let elems := elements addr in
    rest ← rpz_labels (length elems) 0 elems (best_run elems) (mkDNSName []);
    name_append res rest.

Section engine.
Context {RC : Type} `{HRC : !RecordContents RC} `{HAT : !AddressText}.
#[local] Abbreviation policy := (Policy RC).
#[local] Abbreviation zone := (Zone RC).
#[local] Abbreviation store := (list (PolicyZoneData RC)).
#[local] Abbreviation record := (PolicyRecord RC).

(** ** One zone *)

Definition findExactQNamePolicy (z : zone) (qname : DNSName) (pol : policy) : result (option policy) :=
  findExactNamedPolicy (d_qpolName z) qname pol.

Definition findExactNSPolicy (z : zone) (qname : DNSName) (pol : policy) : result (option policy) :=
  o ← findExactNamedPolicy (d_propolName z) qname pol;
  match o with
  | Some p => p ← append_trigger rpzNSDnameName p; Ok (Some p)
  | None => Ok None
  end.

(** The three lookups by address. *)
Definition find_address (t : NetmaskTree Netmask policy) (label : bytes) (addr : ComboAddress) (pol : policy) : result (option policy) :=
  o ← tree_lookup_addr policy_default addr (-1) t;
  match o with
  | Some (netmask, p) =>
      trigger ← maskToRPZ netmask;
      p ← append_trigger label (setHitData trigger (ca_toString addr) (policy_assign pol p));
      Ok (Some p)
  | None => Ok None
  end.

Definition findNSIPPolicy (z : zone) (addr : ComboAddress) (pol : policy) : result (option policy) :=
  find_address (d_propolNSAddr z) rpzNSIPName addr pol.
Definition findResponsePolicy (z : zone) (addr : ComboAddress) (pol : policy) : result (option policy) :=
  find_address (d_postpolAddr z) rpzIPName addr pol.
Definition findClientPolicy (z : zone) (addr : ComboAddress) (pol : policy) : result (option policy) :=
  find_address (d_qpolAddr z) rpzClientIPName addr pol.

(** ** All zones *)

(** [d_zones]; a slot that [setZone] skipped is a null pointer, and to use it is
    undefined. *)
Definition deref (o : option zone) : result zone := match o with Some z => Ok z | None => Throw (logic_error "null pointer") end.

(** Whether the policies of a zone may replace [pol]. *)
Definition zone_enabled (st : store) (discarded : list bytes) (pol : policy) (z : zone) : bool :=
  negb (p_getPriority st pol <=? z_getPriority st z) && negb (bool_decide (z_getName st z ∈ discarded)).

Fixpoint zones_enabled (has : zone -> bool) (st : store) (discarded : list bytes) (pol : policy) (zones : list (option zone))
  : result (list bool) :=
  match zones with
  | [] => Ok []
  | o :: zones =>
      z ← deref o;
      bs ← zones_enabled has st discarded pol zones;
      Ok ((zone_enabled st discarded pol z && has z) :: bs)
  end.

(** The wildcards, in the order from the most to the least specific. *)
Fixpoint wildcards_match (find : DNSName -> policy -> result (option policy)) (qname : DNSName) (wcs : list DNSName) (pol : policy)
  : result (option policy) :=
  match wcs with
  | [] => Ok None
  | wc :: wcs =>
      o ← find wc pol;
      match o with
      | Some p => hit ← toStringNoDot qname; Ok (Some (replace_hit hit p))
      | None => wildcards_match find qname wcs pol
      end
  end.

Fixpoint names_loop (find : zone -> DNSName -> policy -> result (option policy)) (qname : DNSName) (wcs : list DNSName)
    (zones : list (option zone)) (enabled : list bool) (pol : policy) : result (option policy) :=
  match zones, enabled with
  | o :: zones, e :: enabled =>
      if negb e then names_loop find qname wcs zones enabled pol
      else
        z ← deref o;
        exact ← find z qname pol;
        match exact with
        | Some p => Ok (Some p)
        | None =>
            wild ← wildcards_match (find z) qname wcs pol;
            match wild with
            | Some p => Ok (Some p)
            | None => names_loop find qname wcs zones enabled pol
            end
        end
  | _, _ => Ok None
  end.

(** The body of the two lookups by name: [has] is the test for triggers of the kind,
    [find] the exact lookup of a zone. *)
Definition names_policy (has : zone -> bool) (find : zone -> DNSName -> policy -> result (option policy)) (st : store)
    (zones : list (option zone)) (qname : DNSName) (discarded : list bytes) (pol : policy) : result (option policy) :=
  enabled ← zones_enabled has st discarded pol zones;
  if negb (existsb id enabled) then Ok None
  else
    wcs ← wcNames qname;
    names_loop find qname wcs zones enabled pol.

(** The policy as the lookup leaves it, [None] when it returns [false]. *)
Definition getQueryPolicy : store -> list (option zone) -> DNSName -> list bytes -> policy -> result (option policy) :=
  names_policy hasQNamePolicies findExactQNamePolicy.
Definition getProcessingPolicy_name : store -> list (option zone) -> DNSName -> list bytes -> policy -> result (option policy) :=
  names_policy hasNSPolicies findExactNSPolicy.

(** The body of the lookups by address. *)
Fixpoint address_policy (find : zone -> ComboAddress -> policy -> result (option policy)) (st : store) (zones : list (option zone))
    (address : ComboAddress) (discarded : list bytes) (pol : policy) : result (option policy) :=
  match zones with
  | [] => Ok None
  | o :: zones =>
      z ← deref o;
      if p_getPriority st pol <=? z_getPriority st z then Ok None
      else if bool_decide (z_getName st z ∈ discarded) then address_policy find st zones address discarded pol
      else
        r ← find z address pol;
        match r with
        | Some p => Ok (Some p)
        | None => address_policy find st zones address discarded pol
        end
  end.

Definition getProcessingPolicy_address : store -> list (option zone) -> ComboAddress -> list bytes -> policy -> result (option policy) :=
  address_policy findNSIPPolicy.
Definition getClientPolicy : store -> list (option zone) -> ComboAddress -> list bytes -> policy -> result (option policy) :=
  address_policy findClientPolicy.

Definition getPostPolicy_record (st : store) (zones : list (option zone)) (r : record) (discarded : list bytes) (pol : policy)
  : result (option policy) :=
  if negb (bool_decide (rr_place r = ANSWER)) then Ok None
  else if (rr_type r =? QType.A) || (rr_type r =? QType.AAAA)
  then address_policy findResponsePolicy st zones (default ca_default (rc_getCA (rr_content r))) discarded pol
  else Ok None.

Fixpoint getPostPolicy (st : store) (zones : list (option zone)) (records : list record) (discarded : list bytes) (pol : policy)
  : result (option policy) :=
  match records with
  | [] => Ok None
  | r :: records =>
      o ← getPostPolicy_record st zones r discarded pol;
      match o with
      | Some p => Ok (Some p)
      | None => getPostPolicy st zones records discarded pol
      end
  end.

(** ** Changes of the list of zones *)

Fixpoint engine_clear (zones : list (option zone)) : result (list (option zone)) :=
  match zones with
  | [] => Ok []
  | o :: zones => z ← deref o; zs ← engine_clear zones; Ok (Some (zone_clear z) :: zs)
  end.

Definition clearZones (zones : list (option zone)) : list (option zone) := [].

Definition getZone (zones : list (option zone)) (zoneIdx : nat) : option zone := default None (zones !! zoneIdx).

Fixpoint getZone_name (st : store) (zones : list (option zone)) (name : bytes) : result (option zone) :=
  match zones with
  | [] => Ok None
  | o :: zones => z ← deref o; if bool_decide (z_getName st z = name) then Ok (Some z) else getZone_name st zones name
  end.

Definition addZone (st : store) (zones : list (option zone)) (newZone : zone) : store * list (option zone) * Z :=
  (setPriority (u16 (zlen zones)) newZone st, zones ++ [Some newZone], zlen zones).

Definition assureZones (zones : list (option zone)) (n : nat) : list (option zone) :=
  if (length zones <=? n)%nat then zones ++ replicate (S n - length zones) None else zones.

Definition setZone (st : store) (zones : list (option zone)) (zoneIdx : nat) (newZone : option zone) : store * list (option zone) :=
  match newZone with
  | Some z => (setPriority (u16 (Z.of_nat zoneIdx)) z st, <[zoneIdx := Some z]> (assureZones zones zoneIdx))
  | None => (st, zones)
  end.

(** [mergePolicyTags]. *)
Definition mergePolicyTags (tags newTags : list bytes) : list bytes :=
  fold_left (fun ts t => if bool_decide (t ∈ ts) then ts else ts ++ [t]) newTags tags.
End engine.
