(* ===== verification/RpzLoader.v ===== *)
(** * Response policy zones

    [pdns/recursordist/rpzloader.cc]: the networks in names of response policy zones,
    the policies their records stand for, and the updates of a zone by incremental
    transfers; with [Zone::dump] of [filterpo.cc], as the records it prints. *)

From S2P Require Import Prelude Chars Dns Names NamesText NamesOrder Denial Validate IpUtils IpText NetTree NetGroups Rpz RpzEngine.

#[local] Open Scope Z_scope.

(** ** Networks from names *)

Definition rpz_invalid : exn := PDNSException "Invalid IP address in RPZ".

(** The loop over the labels: [zz] becomes empty. *)
Fixpoint rpz_parts (parts : list bytes) (isV6 hadZZ : bool) : result (list bytes * bool * bool) :=
  match parts with
  | [] => Ok ([], isV6, hadZZ)
  | part :: parts =>
      let isV6 := isV6 || existsb (fun c => negb (c_isdigit c)) part in
      if pdns_iequals part (bs "zz") then
        _ ← throw_if hadZZ (PDNSException "more than one 'zz' label found in RPZ name");
        '(parts, isV6, hadZZ) ← rpz_parts parts true true;
        Ok ([] :: parts, isV6, hadZZ)
      else
        '(parts, isV6, hadZZ) ← rpz_parts parts isV6 hadZZ;
        Ok (part :: parts, isV6, hadZZ)
  end.

(** The loop [for (i = parts.size() - 1; i > 0; i--)] over the parts from the last to
    the second, which come as [parts] with their index. *)
Fixpoint v6_text (i : Z) (parts : list bytes) : bytes :=
  match parts with
  | [] => []
  | p :: parts => p ++ (if (1 <? i) || ((i =? 1) && bool_decide (p = [])) then [58] else []) ++ v6_text (i - 1) parts
  end.

Section netmasks.
Context `{HAP : !AddressParser}.

Definition makeNetmaskFromRPZ (name : DNSName) : result Netmask :=
  let parts := getRawLabels name in
  _ ← throw_if ((zlen parts <? 2) || (9 <? zlen parts)) rpz_invalid;
  match parts with
  | [] => Throw rpz_invalid
  | bits :: _ =>
      n ← stoi bits;
      '(parts, isV6, hadZZ) ← rpz_parts parts (32 <? n) false;
      _ ← throw_if (isV6 && (zlen parts <? 9) && negb hadZZ) (PDNSException "No 'zz' label found in an IPv6 RPZ name shorter than 9 elements");
      let part i := default [] (parts !! i) in
      if (zlen parts =? 5) && negb isV6
      then nm_of_text (part 4%nat ++ bs "." ++ part 3%nat ++ bs "." ++ part 2%nat ++ bs "." ++ part 1%nat ++ bs "/" ++ part 0%nat)
      else
        let lead := if bool_decide (default [] (last parts) = []) then [58] else [] in
        nm_of_text (lead ++ v6_text (zlen parts - 1) (rev (tail parts)) ++ bs "/" ++ part 0%nat)
  end.
End netmasks.

Section loading.
Context {RC : Type} `{HRC : !RecordContents RC} `{HAP : !AddressParser}.
#[local] Abbreviation policy := (Policy RC).
#[local] Abbreviation zone := (Zone RC).
#[local] Abbreviation store := (list (PolicyZoneData RC)).
#[local] Abbreviation record := (PolicyRecord RC).

(** ** Policies from records *)

Definition rpz_drop : DNSName := mkDNSName (8 :: bs "rpz-drop" ++ [0]).
Definition rpz_truncate : DNSName := mkDNSName (12 :: bs "rpz-tcp-only" ++ [0]).
Definition rpz_noaction : DNSName := mkDNSName (12 :: bs "rpz-passthru" ++ [0]).
Definition rpzClientIP : DNSName := mkDNSName (13 :: bs "rpz-client-ip" ++ [0]).
Definition rpzIP : DNSName := mkDNSName (6 :: bs "rpz-ip" ++ [0]).
Definition rpzNSDname : DNSName := mkDNSName (11 :: bs "rpz-nsdname" ++ [0]).
Definition rpzNSIP : DNSName := mkDNSName (8 :: bs "rpz-nsip" ++ [0]).
Definition rpzPrefix : bytes := bs "rpz-".

Definition with_kind (kind : PolicyKind.t) (p : policy) : policy := mkPolicy (p_zoneData p) (p_custom p) (p_hitdata p) (p_ttl p) kind (p_type p).
Definition with_ttl (ttl : Z) (p : policy) : policy := mkPolicy (p_zoneData p) (p_custom p) (p_hitdata p) ttl (p_kind p) (p_type p).

(** A custom policy with the content of the record. *)
Definition custom_policy (content : RC) : policy := with_custom (Some [content]) (with_kind PolicyKind.Custom policy_default).

(** The policy for a CNAME without a default policy; [None] for one to be ignored. *)
Definition cname_policy (target : DNSName) (content : RC) : result (option policy) :=
  let kind k := Ok (Some (with_kind k policy_default)) in
  if isRoot target then kind PolicyKind.NXDOMAIN
  else if name_eqb target g_wildcarddnsname then kind PolicyKind.NODATA
  else if name_eqb target rpz_drop then kind PolicyKind.Drop
  else if name_eqb target rpz_truncate then kind PolicyKind.Truncate
  else if name_eqb target rpz_noaction then kind PolicyKind.NoAction
  else
    reserved ← (if negb (name_empty target) then l ← getRawLabel target (countLabels target - 1); Ok (bool_decide (ztake 4 l = rpzPrefix)) else Ok false);
    Ok (if reserved : bool then None else Some (custom_policy content)).

(** The policy of a record and whether it is the default one. *)
Definition record_policy (r : record) (defpol : option policy) (defpolOverrideLocal : bool) : result (option (policy * bool)) :=
  if rr_type r =? QType.CNAME then
    match rc_target (rr_content r) with
    | None => Ok None
    | Some target =>
        match defpol with
        | Some d => Ok (Some (policy_assign policy_default d, true))
        | None => o ← cname_policy target (rr_content r); Ok (option_map (fun p => (p, false)) o)
        end
    end
  else
    match defpol with
    | Some d => if defpolOverrideLocal then Ok (Some (policy_assign policy_default d, true)) else Ok (Some (custom_policy (rr_content r), false))
    | None => Ok (Some (custom_policy (rr_content r), false))
    end.

Definition policy_ttl (r : record) (defpol : option policy) (applied : bool) (maxTTL : Z) (p : policy) : policy :=
  with_ttl (s32 (if negb applied || (match defpol with Some d => p_ttl d <? 0 | None => false end)
                 then Z.min maxTTL (rr_ttl r) else Z.min maxTTL (u32 (p_ttl p)))) p.

(** What a trigger is added to or removed from. *)
Definition trigger_name (add : bool) (st : store) (which : PolicyType.t) (n : DNSName) (p : policy) (dup : bool) (z : zone) : result zone :=
  match which with
  | PolicyType.NSDName => if add then addNSTrigger st n p dup z else Ok (fst (rmNSTrigger n p z))
  | _ => if add then addQNameTrigger st n p dup z else Ok (fst (rmQNameTrigger n p z))
  end.

Definition trigger_netmask (add : bool) (st : store) (which : PolicyType.t) (n : DNSName) (p : policy) (dup : bool) (z : zone) : result zone :=
  netmask ← makeNetmaskFromRPZ n;
  match which with
  | PolicyType.ClientIP => if add then addClientTrigger st netmask p dup z else '(z, _) ← rmClientTrigger netmask p z; Ok z
  | PolicyType.ResponseIP => if add then addResponseTrigger st netmask p dup z else '(z, _) ← rmResponseTrigger netmask p z; Ok z
  | _ => if add then addNSIPTrigger st netmask p dup z else '(z, _) ← rmNSIPTrigger netmask p z; Ok z
  end.

(** What to do with the policy: the zone and the name of a trigger by query name. *)
Definition apply_policy (add : bool) (st : store) (name : DNSName) (p : policy) (dup : bool) (z : zone) : result (zone * option DNSName) :=
  ns ← isPartOf name rpzNSDname;
  if ns : bool then n ← makeRelative name rpzNSDname; z ← trigger_name add st PolicyType.NSDName n p dup z; Ok (z, None)
  else
    client ← isPartOf name rpzClientIP;
    if client : bool then n ← makeRelative name rpzClientIP; z ← trigger_netmask add st PolicyType.ClientIP n p dup z; Ok (z, None)
    else
      ip ← isPartOf name rpzIP;
      if ip : bool then n ← makeRelative name rpzIP; z ← trigger_netmask add st PolicyType.ResponseIP n p dup z; Ok (z, None)
      else
        nsip ← isPartOf name rpzNSIP;
        if nsip : bool then n ← makeRelative name rpzNSIP; z ← trigger_netmask add st PolicyType.NSIP n p dup z; Ok (z, None)
        else z ← trigger_name add st PolicyType.QName name p dup z; Ok (z, Some name).

Definition RPZRecordToPolicy (st : store) (r : record) (addOrRemove : bool) (defpol : option policy) (defpolOverrideLocal : bool) (maxTTL : Z) (z : zone)
  : result (zone * option DNSName) :=
  if negb (rr_class r =? QClass.IN) then Ok (z, None)
  else
    o ← record_policy r defpol defpolOverrideLocal;
    match o with
    | None => Ok (z, None)
    | Some (p, applied) => apply_policy addOrRemove st (rr_name r) (policy_ttl r defpol applied maxTTL p) applied z
    end.

(** ** Dumps *)

(** The records of the policies of a map, each under its name and the suffix. *)
Fixpoint dump_names (m : list (DNSName * policy)) (suffix : DNSName) : result (list record) :=
  match m with
  | [] => Ok []
  | (n, p) :: m => n ← name_append n suffix; rs ← getRecords n p; rest ← dump_names m suffix; Ok (rs ++ rest)
  end.

Fixpoint dump_networks (l : list (Netmask * policy)) (suffix : DNSName) : result (list record) :=
  match l with
  | [] => Ok []
  | (netmask, p) :: l =>
      full ← maskToRPZ netmask;
      full ← name_append full suffix;
      rs ← getRecords full p;
      rest ← dump_networks l suffix;
      Ok (rs ++ rest)
  end.

(** [Zone::dump], without the SOA record. *)
Definition zone_dump (z : zone) : result (list record) :=
  let below label := name_append label (z_domain z) in
  q ← dump_names (d_qpolName z) (z_domain z);
  nsd ← below rpzNSDname;
  n ← dump_names (d_propolName z) nsd;
  cip ← below rpzClientIP;
  c ← dump_networks (tree_to_list (d_qpolAddr z)) cip;
  nsip ← below rpzNSIP;
  i ← dump_networks (tree_to_list (d_propolNSAddr z)) nsip;
  ip ← below rpzIP;
  r ← dump_networks (tree_to_list (d_postpolAddr z)) ip;
  Ok (q ++ n ++ c ++ i ++ r).

(** ** Incremental updates *)

(** What an update works on: the copy of the zone, the last SOA record with its serial
    and refresh, and the names whose policies changed. *)
Record RPZUpdate : Type := mkUpdate {
  u_zone : zone;
  u_soa : record;
  u_serial : Z;
  u_refresh : Z;
  u_names : list DNSName;
}.

Section updating.
Context (st : store) (defpol : option policy) (defpolOverrideLocal : bool) (maxTTL : Z).

Definition update_record (add : bool) (r : record) (u : RPZUpdate) : result RPZUpdate :=
  '(z, name) ← RPZRecordToPolicy st r add defpol defpolOverrideLocal maxTTL (u_zone u);
  Ok (mkUpdate z (u_soa u) (u_serial u) (u_refresh u) (u_names u ++ option_list name)).

Definition unexpected_serial : exn := runtime_error "Received an unexpected serial from SOA record while processing the removal part of an update".
Definition no_serial : exn := runtime_error "Unable to extract serial from SOA record while processing the removal part of an update".

Fixpoint update_remove (remove : list record) (u : RPZUpdate) : result RPZUpdate :=
  match remove with
  | [] => Ok u
  | r :: remove =>
      u ← (if rr_type r =? QType.NS then Ok u
           else if rr_type r =? QType.SOA then
             match rc_soa (rr_content r) with
             | Some (serial, _) => if serial =? u_serial u then Ok u else Throw unexpected_serial
             | None => Throw no_serial
             end
           else update_record false r u);
      update_remove remove u
  end.

Fixpoint update_add (add : list record) (u : RPZUpdate) : result RPZUpdate :=
  match add with
  | [] => Ok u
  | r :: add =>
      u ← (if (rr_type r =? QType.NS) || (rr_type r =? QType.ZONEMD) then Ok u
           else if rr_type r =? QType.SOA then
             Ok (match rc_soa (rr_content r) with
                 | Some (serial, refresh) =>
                     mkUpdate (u_zone u) (mkRR (z_domain (u_zone u)) (rr_type r) (rr_class r) (rr_ttl r) (rr_place r) (rr_content r)) serial refresh (u_names u)
                 | None => u
                 end)
           else update_record true r u);
      update_add add u
  end.

(** A delta without removals is a whole new zone. *)
Fixpoint update_deltas (deltas : list (list record * list record)) (u : RPZUpdate) : result RPZUpdate :=
  match deltas with
  | [] => Ok u
  | (remove, add) :: deltas =>
      let u := match remove with
               | [] => mkUpdate (zone_clear (u_zone u)) (u_soa u) (u_serial u) (u_refresh u) (getQNames (u_zone u) (u_names u))
               | _ => u
               end in
      u ← update_remove remove u;
      u ← update_add add u;
      update_deltas deltas u
  end.
End updating.

(** The part of [RPZTrackerIteration] that applies deltas to the zone at an index: the
    store, the zones and the serial and refresh to go on with; [None] when the zone of
    this name is no more, which ends the thread; an exception leaves all as it was. *)
Definition apply_update (st : store) (zones : list (option zone)) (zoneIdx : nat) (zoneName : DNSName)
    (deltas : list (list record * list record)) (soa : record)
    (serial refresh : Z) (defpol : option policy) (defpolOverrideLocal : bool) (maxTTL : Z)
  : result (option (store * list (option zone) * RPZUpdate)) :=
  match getZone zones zoneIdx with
  | None => Ok None
  | Some oldZone =>
      if negb (name_eqb (z_domain oldZone) zoneName) then Ok None
      else
        '(st, newZone) ← zone_copy st oldZone;
        u ← update_deltas st defpol defpolOverrideLocal maxTTL deltas (mkUpdate newZone soa serial refresh []);
        let st := z_setSOA (u_soa u) (u_zone u) st in
        let newZone := setRefresh (u_refresh u) (setSerial (u_serial u) (u_zone u)) in
        let '(st, zones) := setZone st zones zoneIdx (Some newZone) in
        Ok (Some (st, zones, u))
  end.

(** ** Loading a zone *)

(** What a load works on: the store, the zone, serial and refresh of the last SOA
    record, and the names whose policies changed. *)
Record RPZLoad : Type := mkLoad {
  l_store : store;
  l_zone : zone;
  l_soa : option (Z * Z);
  l_names : list DNSName;
}.

Section filling.
Context (defpol : option policy) (defpolOverrideLocal : bool) (maxTTL : Z).

Definition ignored_type (qtype : Z) : bool := (qtype =? QType.NS) || (qtype =? QType.TSIG) || (qtype =? QType.ZONEMD).

(** A record below the zone, with its name made relative. *)
Definition load_policy (domain : DNSName) (r : record) (l : RPZLoad) : result RPZLoad :=
  name ← makeRelative (rr_name r) domain;
  '(z, n) ← RPZRecordToPolicy (l_store l) (mkRR name (rr_type r) (rr_class r) (rr_ttl r) (rr_place r) (rr_content r)) true defpol defpolOverrideLocal maxTTL
              (l_zone l);
  Ok (mkLoad (l_store l) z (l_soa l) (l_names l ++ option_list n)).

(** The body of the loop of [loadRPZFromServer]. *)
Definition server_record (zoneName : DNSName) (r : record) (l : RPZLoad) : result RPZLoad :=
  if ignored_type (rr_type r) then Ok l
  else
    inside ← isPartOf (rr_name r) zoneName;
    if negb inside then Ok l
    else if rr_type r =? QType.SOA then Ok (mkLoad (z_setSOA r (l_zone l) (l_store l)) (l_zone l) (rc_soa (rr_content r)) (l_names l))
    else load_policy zoneName r l.

Fixpoint server_chunk (zoneName : DNSName) (chunk : list record) (l : RPZLoad) : result RPZLoad :=
  match chunk with
  | [] => Ok l
  | r :: chunk => l ← server_record zoneName r l; server_chunk zoneName chunk l
  end.

(** The chunks of a transfer, each with whether the time for it was over then. *)
Fixpoint server_chunks (zoneName : DNSName) (chunks : list (list record * bool)) (l : RPZLoad) : result RPZLoad :=
  match chunks with
  | [] => Ok l
  | (chunk, expired) :: chunks =>
      l ← server_chunk zoneName chunk l;
      _ ← throw_if expired (PDNSException "Total AXFR time exceeded!");
      server_chunks zoneName chunks l
  end.

Definition loadRPZFromServer (zoneName : DNSName) (chunks : list (list record * bool)) (st : store) (z : zone) (names : list DNSName)
  : result (RPZLoad * (Z * Z)) :=
  l ← server_chunks zoneName chunks (mkLoad st z None names);
  match l_soa l with
  | Some soa => Ok (l, soa)
  | None => Throw (PDNSException "No valid SOA found")
  end.

(** The body of the loop of [loadRPZFromFile], over the records of the zone parser; the
    last SOA record is kept beside. *)
Definition file_record (r : record) (s : RPZLoad * option record) : result (RPZLoad * option record) :=
  let '(l, soaRecord) := s in
  if rr_type r =? QType.SOA
  then Ok (mkLoad (l_store l) (setDomain (rr_name r) (l_zone l)) (rc_soa (rr_content r)) (l_names l), Some r)
  else if ignored_type (rr_type r) then Ok s
  else
    let domain := match soaRecord with Some soa => rr_name soa | None => mkDNSName [] end in
    inside ← isPartOf (rr_name r) domain;
    if negb inside then Ok s
    else l ← load_policy domain r l; Ok (l, soaRecord).

(** [catch (const PDNSException&)], which adds the place to the text. *)
Definition issue_parsing {A} (res : result A) : result A :=
  match res with
  | Throw (PDNSException _) => Throw (PDNSException "Issue parsing")
  | _ => res
  end.

Fixpoint file_records (rs : list record) (s : RPZLoad * option record) : result (RPZLoad * option record) :=
  match rs with
  | [] => Ok s
  | r :: rs => s ← issue_parsing (file_record r s); file_records rs s
  end.

Definition loadRPZFromFile (rs : list record) (st : store) (z : zone) (names : list DNSName) : result RPZLoad :=
  '(l, soaRecord) ← file_records rs (mkLoad st z None names, None);
  Ok (match l_soa l, soaRecord with
      | Some (_, refresh), Some soa => mkLoad (z_setSOA soa (l_zone l) (l_store l)) (setRefresh refresh (l_zone l)) (l_soa l) (l_names l)
      | _, _ => l
      end).
End filling.
End loading.
