(* ===== verification/RpzFacts.v ===== *)
(** * Which policy applies

    The lookups of the filtering engine against an abstract search: the first enabled
    zone with a trigger, and in it the most specific one. *)

From S2P Require Import Prelude Chars Dns Names NamesFacts NamesText NamesOrder NamesSpec Denial DenialFacts Validate IpUtils.
From S2P Require Import NetTree NetTreeFacts NetTreeSpec NetGroups NameIndex Rpz RpzEngine.

#[local] Open Scope Z_scope.

(** ** The wildcards of a name *)

(** The proper prefixes of a key, the longest first: the names above a name. *)
Definition proper_prefixes (q : key) : list key := map (fun i => take i q) (rev (seq 0 (length q))).

Lemma proper_prefixes_snoc q x : proper_prefixes (q ++ [x]) = q :: proper_prefixes q.
Proof.
  unfold proper_prefixes. rewrite length_app. cbn [length]. rewrite Nat.add_1_r, seq_S, rev_app_distr, Nat.add_0_l. cbn [rev app map].
  rewrite take_app_length. f_equal. apply map_ext_in. intros i Hi%in_rev%in_seq. apply take_app_le. lia.
Qed.

Lemma elem_of_proper_prefixes q c : c ∈ proper_prefixes q <-> c `prefix_of` q /\ c <> q.
Proof.
  unfold proper_prefixes. rewrite list_elem_of_fmap. split.
  - intros (i & -> & Hi%list_elem_of_In%in_rev%in_seq). split; [apply prefix_take|]. intros E. apply (f_equal length) in E. rewrite length_take in E. lia.
  - intros [[k Hk] Hne]. exists (length c). split; [by rewrite Hk, take_app_length|]. apply list_elem_of_In, in_rev. rewrite rev_involutive. apply in_seq.
    subst q. rewrite length_app. destruct k; [by rewrite app_nil_r in Hne|cbn; lia].
Qed.

(** They get shorter. *)
Lemma proper_prefixes_order q l1 c l2 c' :
  proper_prefixes q = l1 ++ c :: l2 -> c' `prefix_of` q -> c' <> q -> (length c < length c')%nat -> c' ∈ l1.
Proof.
  revert l1. induction q as [|x q IH] using rev_ind; intros l1 He Hp Hne Hl; [by destruct l1|]. rewrite proper_prefixes_snoc in He.
  assert (c' `prefix_of` q) as Hq.
  { destruct Hp as [k Hk]. destruct k as [|y k _] using rev_ind; [by rewrite app_nil_r in Hk|]. rewrite app_assoc in Hk. apply app_inj_tail in Hk as [-> _].
    by exists k. }
  destruct l1 as [|a l1]; cbn [app] in He; injection He as -> He; [apply prefix_length in Hq; lia|].
  destruct (decide (c' = a)) as [->|Hc]; [by left|]. right. by eapply IH.
Qed.

Lemma wildcards_loop_spec fuel : forall n ls, represents n ls -> (length ls <= fuel)%nat ->
  exists wcs, wildcards_loop fuel n = Ok wcs /\ Forall2 (fun wc c => named wc /\ nkey wc = c ++ [star]) wcs (proper_prefixes (ckey ls)).
Proof.
  induction fuel as [|fuel IH]; intros n ls Hr Hf.
  - destruct ls; [|cbn in Hf; lia]. exists []. split; [done|]. constructor.
  - destruct ls as [|l ls]; cbn [wildcards_loop].
    + rewrite (chopOff_root _ Hr). exists []. split; [done|]. constructor.
    + destruct (chopOff_represents _ _ _ Hr) as (n' & -> & Hr'). cbn [length] in Hf. destruct (IH n' ls Hr') as (wcs & Hw & Hall); [lia|].
      assert (zlen (storage_of ([star] ++ ls)) <= 255) as Hlen.
      { destruct Hr as (_ & Hv & Hl). unfold s_maxDNSNameLength in Hl. cbn [app]. rewrite zlen_storage_of_cons in *. inversion_clear Hv as [|?? [H1 _] _].
        change (zlen star) with 1. lia. }
      rewrite (name_append_represents _ _ _ _ wildcard_represents Hr' Hlen). cbn [mbind result_bind]. rewrite Hw. cbn [mbind result_bind].
      eexists. split; [done|]. change (l :: ls) with ([l] ++ ls). rewrite ckey_app. change (ckey [l]) with [toLower l]. rewrite proper_prefixes_snoc. constructor; [|done].
      assert (represents (mkDNSName (storage_of ([star] ++ ls))) ([star] ++ ls)) as Hw'.
      { split_and!; [done| |done]. destruct Hr' as (_ & Hv & _). apply Forall_app. split; [|done]. destruct wildcard_represents as (_ & ? & _). done. }
      split; [by eexists|]. unfold nkey. rewrite (getRawLabels_represents _ _ Hw'), ckey_app. done.
Qed.

Lemma wcNames_spec n : named n ->
  exists wcs, wcNames n = Ok wcs /\ Forall2 (fun wc c => named wc /\ nkey wc = c ++ [star]) wcs (proper_prefixes (nkey n)).
Proof.
  intros [ls Hr]. unfold wcNames, nkey. rewrite (getRawLabels_represents _ _ Hr). apply wildcards_loop_spec; [done|].
  destruct Hr as (Hs & Hv & _). rewrite Hs. clear Hs. induction Hv as [|l ls Hl Hv IH]; [cbn; lia|]. rewrite storage_of_cons. cbn [length]. rewrite length_app. lia.
Qed.

(** ** The most specific trigger *)

Section triggers.
Context {P : Type}.

(** [get] has a policy [p] for a name at the trigger [t]: the name itself, or else the
    wildcard that is closest above it. *)
Definition best_trigger (get : key -> option P) (q t : key) (p : P) : Prop :=
  get t = Some p
  /\ (t = q
      \/ (get q = None
          /\ exists c, t = c ++ [star] /\ c `prefix_of` q /\ c <> q
               /\ forall c', c' `prefix_of` q -> c' <> q -> (length c < length c')%nat -> get (c' ++ [star]) = None)).

Definition no_trigger (get : key -> option P) (q : key) : Prop := get q = None /\ forall c, c `prefix_of` q -> c <> q -> get (c ++ [star]) = None.

Lemma best_trigger_unique get q t p t' p' : best_trigger get q t p -> best_trigger get q t' p' -> t = t' /\ p = p'.
Proof.
  intros [Hg Ht] [Hg' Ht']. assert (t = t') as ->; [|by split; [|congruence]].
  destruct Ht as [->|(Hn & c & -> & Hp & Hne & Hl)], Ht' as [->|(Hn' & c' & -> & Hp' & Hne' & Hl')]; [done|congruence..|].
  destruct (Nat.lt_trichotomy (length c) (length c')) as [H|[H|H]].
  - rewrite (Hl c') in Hg' by done. done.
  - f_equal. destruct Hp as [k Hk], Hp' as [k' Hk']. rewrite Hk in Hk'. by apply app_inj_1 in Hk' as [-> _].
  - rewrite (Hl' c) in Hg by done. done.
Qed.

Lemma no_trigger_best get q t p : no_trigger get q -> best_trigger get q t p -> False.
Proof. intros [Hn Hw] [Hg [->|(_ & c & -> & Hp & Hne & _)]]; [congruence|]. by rewrite Hw in Hg. Qed.
End triggers.

Section lookups.
Context {RC : Type} `{HRC : !RecordContents RC} `{HAT : !AddressText}.
#[local] Abbreviation policy := (Policy RC).
#[local] Abbreviation zone := (Zone RC).
#[local] Abbreviation store := (list (PolicyZoneData RC)).
#[local] Abbreviation record := (PolicyRecord RC).
#[local] Abbreviation polmap := (list (DNSName * Policy RC)).

(** ** Maps by name *)

(** Legal names, each once. *)
Record names_ok (m : polmap) : Prop := {
  no_named : Forall (fun e => named e.1) m;
  no_unique : NoDup (map (fun e => nkey e.1) m);
}.

Definition get_policy (m : polmap) (k : key) : option policy := snd <$> List.find (fun e => bool_decide (nkey e.1 = k)) m.

Lemma find_policy_get m n : Forall (fun e => named e.1) m -> named n -> snd <$> find_policy m n = get_policy m (nkey n).
Proof.
  intros Hm Hn. unfold find_policy, get_policy. induction Hm as [|[k p] m Hk Hm IH]; [done|]. cbn [List.find fst] in *.
  destruct (name_eqb k n) eqn:He, (bool_decide_reflect (nkey k = nkey n)) as [Hd|Hd]; [done| | |done].
  - apply name_eqb_key in He; [done..|]. done.
  - apply not_true_iff_false in He. exfalso. apply He. by apply name_eqb_key.
Qed.

Lemma toStringNoDot_named n : named n -> exists s, toStringNoDot n = Ok s.
Proof.
  intros [ls Hr]. unfold toStringNoDot, toString, toString_to. rewrite (represents_not_empty _ _ Hr). destruct (isRoot n); eauto.
Qed.

(** The text of a name as it is logged. *)
Definition hit_text (n : DNSName) : bytes := match toStringNoDot n with Ok s => s | Throw _ => [] end.

Lemma hit_text_ok n : named n -> toStringNoDot n = Ok (hit_text n).
Proof. intros Hn. unfold hit_text. by destruct (toStringNoDot_named n Hn) as (s & ->). Qed.

Lemma findExactNamedPolicy_spec m n pol : Forall (fun e => named e.1) m -> named n ->
  findExactNamedPolicy m n pol = Ok ((fun p => setHitData n (hit_text n) (policy_assign pol p)) <$> get_policy m (nkey n)).
Proof.
  intros Hm Hn. unfold findExactNamedPolicy. case_bool_decide as He; [by subst m|]. rewrite <- (find_policy_get m n) by done.
  destruct (find_policy m n) as [[k p]|]; [|done]. rewrite hit_text_ok by done. done.
Qed.

(** What a lookup over zones answers: the first of the enabled zones with a hit, when
    those before it have none. *)
Definition first_match (enabled : zone -> bool) (hit : zone -> policy -> Prop) (miss : zone -> Prop) (zones : list zone) (o : option policy) : Prop :=
  match o with
  | None => forall z, z ∈ zones -> enabled z = true -> miss z
  | Some r => exists zs1 z zs2, zones = zs1 ++ z :: zs2 /\ enabled z = true /\ hit z r /\ forall z', z' ∈ zs1 -> enabled z' = true -> miss z'
  end.

Lemma first_match_mono enabled (hit hit' : zone -> policy -> Prop) (miss miss' : zone -> Prop) zones o :
  (forall z r, z ∈ zones -> hit z r -> hit' z r) -> (forall z, z ∈ zones -> miss z -> miss' z) ->
  first_match enabled hit miss zones o -> first_match enabled hit' miss' zones o.
Proof.
  intros Hh Hm. destruct o as [r|]; cbn; [|by auto]. intros (zs1 & z & zs2 & -> & He & Hhit & Hno). exists zs1, z, zs2. split_and!; [done..| |].
  - apply Hh; [set_solver|done].
  - intros z' Hz' Hz''. apply Hm; [set_solver|by apply Hno].
Qed.

(** ** Lookups by name *)

Section names_search.
Context (has : zone -> bool) (find : zone -> DNSName -> policy -> result (option policy)) (get : zone -> key -> option policy)
  (trig : DNSName -> DNSName) (fine : zone -> Prop).
Context (Hhas : forall z, has z = false -> forall k, get z k = None)
  (Hfind : forall z n pol, fine z -> named n ->
     find z n pol = Ok ((fun p => setHitData (trig n) (hit_text n) (policy_assign pol p)) <$> get z (nkey n))).

(** A policy of a zone that applies, as it is reported. *)
Definition zone_match (qname : DNSName) (pol : policy) (z : zone) (r : policy) : Prop :=
  exists tn p, best_trigger (get z) (nkey qname) (nkey tn) p /\ named tn /\ r = setHitData (trig tn) (hit_text qname) (policy_assign pol p).

Lemma wildcards_match_spec z qname pol wcs cs :
  fine z -> named qname -> Forall2 (fun wc c => named wc /\ nkey wc = c ++ [star]) wcs cs ->
  exists o, wildcards_match (find z) qname wcs pol = Ok o
    /\ match o with
       | None => Forall (fun c => get z (c ++ [star]) = None) cs
       | Some r => exists l1 c l2 wc p, cs = l1 ++ c :: l2 /\ Forall (fun c => get z (c ++ [star]) = None) l1 /\ get z (c ++ [star]) = Some p
           /\ named wc /\ nkey wc = c ++ [star] /\ r = setHitData (trig wc) (hit_text qname) (policy_assign pol p)
       end.
Proof.
  intros Hz Hq. induction 1 as [|wc c wcs cs [Hwc Hk] Hall IH]; [by exists None|]. cbn [wildcards_match]. rewrite Hfind, Hk by done. cbn [mbind result_bind].
  destruct (get z (c ++ [star])) as [p|] eqn:Hg; cbn [fmap option_fmap option_map].
  - rewrite hit_text_ok by done. cbn [mbind result_bind]. eexists. split; [done|]. by exists [], c, cs, wc, p.
  - destruct IH as (o & -> & Ho). exists o. split; [done|]. destruct o as [r|]; [|by constructor].
    destruct Ho as (l1 & c' & l2 & wc' & p & -> & Hn & Hrest). exists (c :: l1), c', l2, wc', p. split; [done|]. split; [by constructor|done].
Qed.

(** One zone. *)
Lemma zone_names_spec z qname pol wcs :
  fine z -> named qname -> Forall2 (fun wc c => named wc /\ nkey wc = c ++ [star]) wcs (proper_prefixes (nkey qname)) ->
  exists o, (exact ← find z qname pol;
             match exact with Some p => Ok (Some p) | None => wildcards_match (find z) qname wcs pol end) = Ok o
    /\ match o with None => no_trigger (get z) (nkey qname) | Some r => zone_match qname pol z r end.
Proof.
  intros Hz Hq Hw. rewrite Hfind by done. cbn [mbind result_bind]. destruct (get z (nkey qname)) as [p|] eqn:Hg; cbn [fmap option_fmap option_map].
  { eexists. split; [done|]. exists qname, p. split_and!; [|done|done]. split; [done|by left]. }
  destruct (wildcards_match_spec z qname pol wcs _ Hz Hq Hw) as (o & -> & Ho). exists o. split; [done|]. destruct o as [r|].
  - destruct Ho as (l1 & c & l2 & wc & p & Heq & Hn & Hgc & Hwc & Hk & ->). exists wc, p. split_and!; [|done|done]. rewrite Hk. split; [done|]. right. split; [done|].
    exists c. assert (c ∈ proper_prefixes (nkey qname)) as [Hp Hne]%elem_of_proper_prefixes by (rewrite Heq; set_solver). split_and!; [done..|].
    intros c' Hp' Hne' Hl. rewrite Forall_forall in Hn. apply Hn. by eapply proper_prefixes_order.
  - split; [done|]. intros c Hp Hne. rewrite Forall_forall in Ho. apply Ho. by apply elem_of_proper_prefixes.
Qed.

Definition searched (st : store) (discarded : list bytes) (pol : policy) (z : zone) : bool := zone_enabled st discarded pol z && has z.

Lemma zones_enabled_spec st discarded pol zones :
  zones_enabled has st discarded pol (map Some zones) = Ok (map (searched st discarded pol) zones).
Proof. induction zones as [|z zones IH]; [done|]. cbn. by rewrite IH. Qed.

Lemma names_loop_spec st discarded qname pol wcs zones :
  Forall fine zones -> named qname -> Forall2 (fun wc c => named wc /\ nkey wc = c ++ [star]) wcs (proper_prefixes (nkey qname)) ->
  exists o, names_loop find qname wcs (map Some zones) (map (searched st discarded pol) zones) pol = Ok o
    /\ match o with
       | None => forall z, z ∈ zones -> searched st discarded pol z = true -> no_trigger (get z) (nkey qname)
       | Some r => exists zs1 z zs2, zones = zs1 ++ z :: zs2 /\ searched st discarded pol z = true /\ zone_match qname pol z r
           /\ forall z', z' ∈ zs1 -> searched st discarded pol z' = true -> no_trigger (get z') (nkey qname)
       end.
Proof.
  intros Hz Hq Hw. induction Hz as [|z zones Hz Hzs IH]; [exists None; split; [done|]; set_solver|]. cbn [map names_loop].
  destruct (searched st discarded pol z) eqn:He; cbn [negb].
  - cbn [deref mbind result_bind]. destruct (zone_names_spec z qname pol wcs Hz Hq Hw) as (o & Hf & Ho).
    destruct (find z qname pol) as [[p|]|]; cbn [mbind result_bind] in *; [|rewrite Hf; cbn [mbind result_bind]|done].
    + injection Hf as <-. eexists. split; [done|]. exists [], z, zones. split_and!; [done..|set_solver].
    + destruct o as [r|]; [eexists; split; [done|]; exists [], z, zones; split_and!; [done..|set_solver]|].
      destruct IH as (o & -> & IH). exists o. split; [done|]. destruct o as [r|].
      * destruct IH as (zs1 & z' & zs2 & -> & Hs & Hm & Hno). exists (z :: zs1), z', zs2. split_and!; [done..|]. intros y [-> |Hy]%elem_of_cons; auto.
      * intros y [-> |Hy]%elem_of_cons; auto.
  - destruct IH as (o & -> & IH). exists o. split; [done|]. destruct o as [r|].
    + destruct IH as (zs1 & z' & zs2 & -> & Hs & Hm & Hno). exists (z :: zs1), z', zs2. split_and!; [done..|].
      intros y [-> |Hy]%elem_of_cons; [congruence|auto].
    + intros y [-> |Hy]%elem_of_cons; [congruence|auto].
Qed.

(** The whole lookup: the first zone with a trigger, among those that may replace the
    policy and are not discarded. *)
Lemma names_policy_spec st zones qname discarded pol :
  Forall fine zones -> named qname ->
  exists o, names_policy has find st (map Some zones) qname discarded pol = Ok o
    /\ first_match (zone_enabled st discarded pol) (zone_match qname pol) (fun z => no_trigger (get z) (nkey qname)) zones o.
Proof.
  intros Hz Hq. assert (forall z, (searched st discarded pol z = true -> no_trigger (get z) (nkey qname)) ->
    zone_enabled st discarded pol z = true -> no_trigger (get z) (nkey qname)) as Hno.
  { intros z Hs He. unfold searched in Hs. rewrite He in Hs. destruct (has z) eqn:Hh; [by apply Hs|]. by split; [|intros]; apply Hhas. }
  unfold names_policy. rewrite zones_enabled_spec. cbn [mbind result_bind]. destruct (existsb id _) eqn:Hex; cbn [negb].
  - destruct (wcNames_spec qname Hq) as (wcs & -> & Hw). cbn [mbind result_bind].
    destruct (names_loop_spec st discarded qname pol wcs zones Hz Hq Hw) as (o & -> & Ho). exists o. split; [done|]. destruct o as [r|].
    + destruct Ho as (zs1 & z & zs2 & -> & Hs & Hm & Hn). exists zs1, z, zs2. unfold searched in Hs. split_and!; [done| |done|].
      * by apply andb_true_iff in Hs as [? _].
      * intros z' Hz'. by apply Hno, Hn.
    + intros z Hz'. by apply Hno, Ho.
  - eexists. split; [done|]. intros z Hzin. apply Hno. intros Hs. exfalso. apply not_true_iff_false in Hex. apply Hex. apply existsb_exists.
    exists true. split; [|done]. apply in_map_iff. exists z. split; [done|by apply list_elem_of_In].
Qed.
End names_search.
End lookups.
