(* ===== verification/RpzNetmasks.v ===== *)
(** * Networks as names of response policy zones

    [maskToRPZ] and [makeNetmaskFromRPZ] are inverse to each other. *)

From S2P Require Import Prelude Chars Dns Names NamesFacts NamesText NamesOrder NamesSpec Denial DenialFacts Validate IpUtils IpText.
From S2P Require Import NetTree NetGroups NameIndex Rpz RpzEngine RpzLoader.

#[local] Open Scope Z_scope.

(** ** Names from plain text *)

Lemma span_dot_plain l : 46 ∉ l -> span_dot l = (l, []).
Proof.
  induction l as [|c l IH]; cbn; [done|]. intros [Hc Hl]%not_elem_of_cons. rewrite (proj2 (Z.eqb_neq _ _)) by done. by rewrite IH.
Qed.

Lemma text_loop_plain ls rs : forall fuel position,
  valid_labels rs -> Forall (fun l => 46 ∉ l) rs -> (length (joined 46 rs) <= fuel)%nat ->
  position = zlen (enc_labels ls) -> position + zlen (enc_labels rs) <= 254 ->
  DNSName_text_loop fuel (joined 46 rs) position (enc_labels ls) = Ok (enc_labels (ls ++ rs)).
Proof.
  revert ls. induction rs as [|l rs IH]; intros ls fuel position Hv Hd Hf Hpos Hlen.
  - rewrite app_nil_r. by destruct fuel.
  - inversion_clear Hv as [|?? [Hl Hb] Hv']. apply Forall_cons in Hd as [Hdot Hd]. rewrite zlen_enc_labels_cons in Hlen.
    pose proof (zlen_nonneg (enc_labels rs)). pose proof (zlen_nonneg (enc_labels ls)).
    destruct l as [|c l]; [rewrite zlen_nil in Hl; lia|]. pose proof Hdot as Hdot'. apply not_elem_of_cons in Hdot' as [Hc _].
    assert (enc_labels ls ++ zlen (c :: l) :: c :: l = enc_labels (ls ++ [c :: l])) as Hcat.
    { rewrite enc_labels_app, enc_labels_cons. by rewrite app_nil_r. }
    assert (zlen (enc_labels (ls ++ [c :: l])) = position + zlen (c :: l) + 1) as Hz by (rewrite <- Hcat, zlen_app, !zlen_cons; lia).
    destruct fuel as [|fuel]; [destruct rs; cbn in Hf; lia|]. destruct rs as [|r rs].
    + cbn [joined DNSName_text_loop]. rewrite (proj2 (Z.eqb_neq _ _)) by done. rewrite span_dot_plain by done.
      unfold throw_if, s_maxDNSLabelLength, s_maxDNSNameLength. rewrite !u8_small by lia. rewrite !(proj2 (Z.ltb_ge _ _)) by lia.
      cbn [mbind result_bind tail]. change ([0] ++ c :: l) with (0 :: c :: l). rewrite insert_middle by (unfold zlen; lia). rewrite Hcat. by destruct fuel.
    + change (joined 46 ((c :: l) :: r :: rs)) with ((c :: l) ++ 46 :: joined 46 (r :: rs)) in *. rewrite length_app in Hf.
      cbn [DNSName_text_loop app]. rewrite (proj2 (Z.eqb_neq _ _)) by done. rewrite app_comm_cons, span_dot_app by done.
      unfold throw_if, s_maxDNSLabelLength, s_maxDNSNameLength. rewrite !u8_small by lia. rewrite !(proj2 (Z.ltb_ge _ _)) by lia.
      cbn [mbind result_bind tail]. change ([0] ++ c :: l) with (0 :: c :: l). rewrite insert_middle by (unfold zlen; lia). rewrite Hcat.
      rewrite IH; [by rewrite <- app_assoc|done|done|cbn in *; lia|lia|lia].
Qed.

(** Short labels of lower case letters and digits, which need no escape. *)
Definition plain (l : bytes) : Prop := (1 <= length l <= 4)%nat /\ Forall (fun c => 48 <= c <= 57 \/ 97 <= c <= 122) l.

Lemma plain_valid l : plain l -> valid_label l.
Proof. intros [Hl Hc]. split; [unfold zlen; lia|]. eapply Forall_impl; [exact Hc|]. intros c Hb. cbn in *. unfold is_byte. lia. Qed.

Lemma plain_not_in l c : plain l -> ~ (48 <= c <= 57) -> ~ (97 <= c <= 122) -> c ∉ l.
Proof. intros [_ Hf] H1 H2 Hc. rewrite Forall_forall in Hf. apply Hf in Hc. lia. Qed.

Lemma plain_length rs : Forall plain rs -> zlen (enc_labels rs) <= 5 * zlen rs.
Proof.
  induction 1 as [|l rs [Hl _] Hrs IH]; [done|]. rewrite zlen_enc_labels_cons, zlen_cons. unfold zlen in *. lia.
Qed.

Lemma plain_represents rs : Forall plain rs -> zlen rs <= 50 -> represents (mkDNSName (storage_of rs)) rs.
Proof.
  intros Hp Hl. pose proof (plain_length rs Hp). split_and!; [done| |rewrite zlen_storage_of; unfold s_maxDNSNameLength; lia].
  eapply Forall_impl; [exact Hp|]. apply plain_valid.
Qed.

Lemma joined_elem sep l c : c ∈ joined sep l -> c = sep \/ exists x, x ∈ l /\ c ∈ x.
Proof.
  induction l as [|x l IH]; cbn; [by intros ?%elem_of_nil|]. destruct l as [|y l]; [intros Hc; right; exists x; split; [by left|done]|].
  rewrite elem_of_app, elem_of_cons. intros [Hc|[->|Hc]]; [right; exists x; split; [by left|done]|by left|].
  destruct (IH Hc) as [->|(z & Hz & Hcz)]; [by left|]. right. exists z. split; [by right|done].
Qed.

Lemma DNSName_from_plain rs : rs <> [] -> Forall plain rs -> zlen rs <= 50 -> DNSName_from_text (joined 46 rs) = Ok (mkDNSName (storage_of rs)).
Proof.
  intros Hne Hp Hl. pose proof (plain_length rs Hp) as Hlen. assert (Forall (fun l => 46 ∉ l) rs) as Hdot.
  { eapply Forall_impl; [exact Hp|]. intros l Hl'. apply (plain_not_in l); [done|lia..]. }
  destruct rs as [|l rs]; [done|]. assert (exists c t, joined 46 (l :: rs) = c :: t /\ c <> 46) as (c & t & Hj & Hc).
  { apply Forall_cons in Hdot as [Hd _]. apply Forall_cons in Hp as [[Hlen' _] _]. destruct l as [|c l]; [cbn in Hlen'; lia|].
    apply not_elem_of_cons in Hd as [Hc _]. exists c. destruct rs; cbn; eexists; (split; [done|congruence]). }
  unfold DNSName_from_text. rewrite (bool_decide_eq_false_2 (_ = [])), (bool_decide_eq_false_2 (_ = [46])) by (rewrite Hj; congruence). cbn [orb].
  rewrite bool_decide_eq_false_2.
  2: { intros [?|(x & Hx & Hc')]%joined_elem; [done|]. rewrite Forall_forall in Hp. by apply (plain_not_in x 92) in Hc'; [|apply Hp|lia..]. }
  rewrite (text_loop_plain [] (l :: rs)); [|eapply Forall_impl; [exact Hp|apply plain_valid]|done|done|done|change (zlen (enc_labels [])) with 0; lia].
  cbn [mbind result_bind app]. unfold throw_if, s_maxDNSNameLength. rewrite (proj2 (Z.ltb_ge _ _)) by lia. done.
Qed.

(** ** Numbers *)

Lemma all_below (P : Z -> Prop) `{!forall n, Decision (P n)} (k : nat) n :
  bool_decide (Forall (fun i => P (Z.of_nat i)) (seq 0 k)) = true -> 0 <= n < Z.of_nat k -> P n.
Proof.
  intros Hall%bool_decide_eq_true Hn. rewrite Forall_forall in Hall. specialize (Hall (Z.to_nat n)). rewrite Z2Nat.id in Hall by lia.
  apply Hall. apply list_elem_of_In, in_seq. lia.
Qed.

Lemma to_string_plain n : 0 <= n < 256 -> plain (to_string n).
Proof.
  intros Hn. destruct (to_string_spec n) as (_ & Hne & Hd); [lia|]. split.
  - assert ((length (to_string n) <= 4)%nat) by (revert n Hn Hne Hd; intros n Hn _ _; apply (all_below (fun n => (length (to_string n) <= 4)%nat) 256); [by vm_compute|lia]).
    destruct (to_string n); [done|cbn in *; lia].
  - eapply Forall_impl; [exact Hd|]. intros c. unfold c_isdigit. cbn. lia.
Qed.

(** Hexadecimal digits. *)
Definition hexy (l : bytes) : Prop := Forall (fun c => 48 <= c <= 57 \/ 97 <= c <= 102) l.

Lemma hex_digit_hexy d : 0 <= d < 16 -> 48 <= hex_digit d <= 57 \/ 97 <= hex_digit d <= 102.
Proof. unfold hex_digit. case_match; lia. Qed.

Lemma hex_digits_hexy fuel : forall n acc, 0 <= n -> hexy acc ->
  hexy (hex_digits fuel n acc) /\ (length acc <= length (hex_digits fuel n acc) <= length acc + fuel)%nat
  /\ (fuel <> O -> length acc < length (hex_digits fuel n acc))%nat.
Proof.
  induction fuel as [|fuel IH]; intros n acc Hn Ha; cbn [hex_digits]; [split_and!; [done|lia..]|].
  pose proof (Z.mod_pos_bound n 16). pose proof (Z.div_pos n 16).
  assert (hexy (hex_digit (n mod 16) :: acc)) as Ha' by (constructor; [apply hex_digit_hexy; lia|done]).
  destruct (n <? 16); [cbn; split_and!; [done|lia..]|]. destruct (IH (n / 16) (hex_digit (n mod 16) :: acc)) as (H1 & H2 & H3); [lia|done|].
  cbn in H2. split_and!; [done|lia..].
Qed.

Lemma format_hex_hexy n : 0 <= n -> hexy (format_hex n) /\ (1 <= length (format_hex n) <= 4)%nat.
Proof. intros Hn. destruct (hex_digits_hexy 4 n [] Hn) as (H1 & H2 & H3); [constructor|]. split; [done|]. cbn in *. unfold format_hex. lia. Qed.

Lemma format_hex_plain n : 0 <= n -> plain (format_hex n).
Proof. intros Hn. destruct (format_hex_hexy n Hn) as [Hh Hl]. split; [done|]. eapply Forall_impl; [exact Hh|]. intros c. cbn. lia. Qed.

Lemma to_string_hexy n : 0 <= n -> hexy (to_string n).
Proof. intros Hn. destruct (to_string_spec n Hn) as (_ & _ & Hd). eapply Forall_impl; [exact Hd|]. intros c. unfold c_isdigit. cbn. lia. Qed.

Lemma zz_plain : plain (bs "zz").
Proof. split; [cbn; lia|]. repeat constructor; cbn; lia. Qed.

(** ** Runs of zeroes *)

Lemma zlen_replicate n (x : Z) : 0 <= n -> zlen (replicate (Z.to_nat n) x) = n.
Proof. intros Hn. unfold zlen. rewrite length_replicate. lia. Qed.

(** [r] is the base and the length of a run of zeroes. *)
Definition run_in (l : list Z) (r : Z * Z) : Prop :=
  exists before after, l = before ++ replicate (Z.to_nat r.2) 0 ++ after /\ zlen before = r.1 /\ 1 <= r.2.

Definition run_at_end (l : list Z) (r : Z * Z) : Prop := exists before, l = before ++ replicate (Z.to_nat r.2) 0 /\ zlen before = r.1 /\ 1 <= r.2.

Lemma run_in_app l l' r : run_in l r -> run_in (l ++ l') r.
Proof. intros (b & a & -> & Hb & Hr). exists b, (a ++ l'). split; [|done]. by rewrite <- !app_assoc. Qed.

Lemma run_at_end_in l r : run_at_end l r -> run_in l r.
Proof. intros (b & -> & Hb). exists b, []. by rewrite app_nil_r. Qed.

Lemma better_run_in l best cur : best.1 = -1 \/ run_in l best -> run_in l cur -> run_in l (better_run best cur).
Proof. intros Hb Hc. unfold better_run. destruct (Z.eqb_spec best.1 (-1)); [done|]. destruct Hb; [done|]. cbn. by destruct (_ <=? _). Qed.

Lemma zero_runs_spec elems : forall before best cur,
  best.1 = -1 \/ run_in before best -> cur.1 = -1 \/ run_at_end before cur ->
  let '(best', cur') := zero_runs (zlen before) elems best cur in
  (best'.1 = -1 \/ run_in (before ++ elems) best') /\ (cur'.1 = -1 \/ run_at_end (before ++ elems) cur').
Proof.
  induction elems as [|e elems IH]; intros before best cur Hb Hc; cbn [zero_runs]; [by rewrite app_nil_r|].
  assert (zlen before + 1 = zlen (before ++ [e])) as -> by (rewrite zlen_app; done).
  replace (before ++ e :: elems) with ((before ++ [e]) ++ elems) by (by rewrite <- app_assoc).
  assert (best.1 = -1 \/ run_in (before ++ [e]) best) as Hb' by (destruct Hb; [by left|right; by apply run_in_app]).
  pose proof (zlen_nonneg before). destruct (Z.eqb_spec e 0) as [->|He].
  - apply IH; [done|]. right. destruct (Z.eqb_spec cur.1 (-1)) as [Hcur|Hcur]; [exists before; cbn; split_and!; done|]. destruct Hc as [?|(b & -> & Hl & Hr)]; [done|].
    exists b. cbn. split_and!; [|done|lia]. rewrite Z2Nat.inj_add, replicate_add by lia. by rewrite <- app_assoc.
  - destruct (Z.eqb_spec cur.1 (-1)) as [Hcur|Hcur]; [apply IH; [done|by left]|]. destruct Hc as [?|Hc]; [done|].
    apply IH; [|by left]. right. apply better_run_in; [done|]. by apply run_in_app, run_at_end_in.
Qed.

Lemma best_run_spec elems : (best_run elems).1 = -1 \/ (run_in elems (best_run elems) /\ 2 <= (best_run elems).2).
Proof.
  unfold best_run. pose proof (zero_runs_spec elems [] (-1, 0) (-1, 0) (or_introl eq_refl) (or_introl eq_refl)) as Hs.
  change (zlen []) with 0 in Hs. destruct (zero_runs 0 elems (-1, 0) (-1, 0)) as [best cur]. cbn [app] in Hs. destruct Hs as [Hb Hc].
  set (b := if cur.1 =? -1 then best else better_run best cur). assert (b.1 = -1 \/ run_in elems b) as Hb'.
  { subst b. destruct (Z.eqb_spec cur.1 (-1)); [done|]. destruct Hc; [done|]. right. by apply better_run_in, run_at_end_in. }
  clearbody b. destruct Hb' as [E|Hb']; [left; rewrite E; exact E|]. assert (b.1 <> -1) as Hn.
  { destruct Hb' as (x & y & _ & <- & _). pose proof (zlen_nonneg x). lia. }
  rewrite (proj2 (Z.eqb_neq _ _)) by done. cbn [negb andb]. destruct (Z.ltb_spec b.2 2); [by left|by right].
Qed.

(** ** The name of a network *)

Definition name_of_labels (ls : list bytes) : DNSName := match ls with [] => mkDNSName [] | _ => mkDNSName (storage_of ls) end.

Lemma append_plain l ls : plain l -> Forall plain ls -> zlen ls < 50 ->
  (n ← DNSName_from_text l; name_append n (name_of_labels ls)) = Ok (name_of_labels (l :: ls)).
Proof.
  intros Hl Hls Hz. change l with (joined 46 [l]) at 1. rewrite DNSName_from_plain; [|done|by constructor|change (zlen [l]) with 1; lia]. cbn [mbind result_bind].
  destruct ls as [|x ls].
  { pose proof (plain_length [l]) as Hp. unfold name_append, throw_if. cbn [d_storage name_of_labels]. rewrite zlen_storage_of. change (zlen []) with 0.
    change (zlen [l]) with 1 in Hp. specialize (Hp ltac:(by constructor)). unfold s_maxDNSNameLength. rewrite (proj2 (Z.ltb_ge _ _)) by lia. done. }
  cbn [name_of_labels].
  rewrite (name_append_represents _ _ [l] (x :: ls)); [done|apply plain_represents; [by constructor|change (zlen [l]) with 1; lia]|apply plain_represents; [done|lia]|].
  pose proof (plain_length (l :: x :: ls)) as Hp. rewrite zlen_storage_of. cbn [app]. rewrite (zlen_cons l) in Hp. assert (Forall plain (l :: x :: ls)) by by constructor.
  specialize (Hp ltac:(done)). lia.
Qed.

(** The labels of an IPv6 address, in the order of the address. *)
Definition v6_labels (elems : list Z) : list bytes :=
  let '(base, len) := best_run elems in
  if base =? -1 then map format_hex elems
  else map format_hex (ztake base elems) ++ [bs "zz"] ++ map format_hex (zdrop (base + len) elems).

Lemma hex_labels_plain elems : Forall (fun e => 0 <= e) elems -> Forall plain (map format_hex elems).
Proof. intros H. apply Forall_fmap. eapply Forall_impl; [exact H|]. intros e. apply format_hex_plain. Qed.

Lemma rpz_labels_rest fuel : forall i elems best temp,
  (length elems <= fuel)%nat -> Forall (fun e => 0 <= e) elems -> Forall plain temp -> zlen elems + zlen temp <= 50 ->
  (forall j, i <= j < i + zlen elems -> j <> best.1) ->
  rpz_labels fuel i elems best (name_of_labels temp) = Ok (name_of_labels (rev (map format_hex elems) ++ temp)).
Proof.
  induction fuel as [|fuel IH]; intros i elems best temp Hf He Ht Hz Hj; [by destruct elems; [|cbn in Hf; lia]|].
  destruct elems as [|e elems]; [done|]. apply Forall_cons in He as [He Hes]. rewrite zlen_cons in *. pose proof (zlen_nonneg elems). cbn [rpz_labels].
  rewrite (proj2 (Z.eqb_neq _ _)) by (apply Hj; lia).
  pose proof (append_plain (format_hex e) temp (format_hex_plain e He) Ht ltac:(lia)) as Ha. unfold mbind, result_bind in *.
  destruct (DNSName_from_text (format_hex e)) as [n|]; [|done]. rewrite Ha. rewrite IH; [|cbn in Hf; lia|done|constructor; [by apply format_hex_plain|done]|rewrite zlen_cons; lia|].
  - cbn [map rev]. by rewrite <- app_assoc.
  - intros j Hj'. apply Hj. lia.
Qed.

Lemma rpz_labels_run fuel : forall i before len after base temp,
  (length before + 1 + length after <= fuel)%nat -> 1 <= len -> base = i + zlen before ->
  Forall (fun e => 0 <= e) (before ++ after) -> Forall plain temp -> zlen before + 1 + zlen after + zlen temp <= 50 ->
  rpz_labels fuel i (before ++ replicate (Z.to_nat len) 0 ++ after) (base, len) (name_of_labels temp)
  = Ok (name_of_labels (rev (map format_hex before ++ [bs "zz"] ++ map format_hex after) ++ temp)).
Proof.
  induction fuel as [|fuel IH]; intros i before len after base temp Hf Hlen Hbase He Ht Hz; [lia|].
  destruct before as [|e before].
  - cbn [app]. change (zlen []) with 0 in *. destruct (Z.to_nat len) as [|k] eqn:Hk; [lia|]. cbn [replicate app rpz_labels fst snd].
    rewrite (proj2 (Z.eqb_eq _ _)) by lia. pose proof (append_plain (bs "zz") temp zz_plain Ht ltac:(pose proof (zlen_nonneg after); lia)) as Ha.
    unfold mbind, result_bind in *. destruct (DNSName_from_text (bs "zz")) as [n|]; [|done]. rewrite Ha.
    change (0 :: replicate k 0 ++ after) with (replicate (S k) 0 ++ after). rewrite <- Hk.
    replace (zdrop len (replicate (Z.to_nat len) 0 ++ after)) with after by (rewrite zdrop_app; [done|unfold zlen; rewrite length_replicate; lia]).
    rewrite rpz_labels_rest; [|cbn in Hf; lia|done|constructor; [exact zz_plain|done]|rewrite zlen_cons; lia|cbn; intros; lia].
    cbn [map rev app]. by rewrite <- app_assoc.
  - rewrite zlen_cons in *. cbn [app] in *. apply Forall_cons in He as [He Hes]. pose proof (zlen_nonneg before). pose proof (zlen_nonneg after). cbn [rpz_labels fst].
    rewrite (proj2 (Z.eqb_neq _ _)) by lia. pose proof (append_plain (format_hex e) temp (format_hex_plain e He) Ht ltac:(lia)) as Ha.
    unfold mbind, result_bind in *. destruct (DNSName_from_text (format_hex e)) as [n|]; [|done]. rewrite Ha.
    rewrite IH; [|cbn in Hf; lia|done|lia|done|constructor; [by apply format_hex_plain|done]|rewrite zlen_cons; lia].
    cbn [map rev app]. by rewrite <- !app_assoc.
Qed.

Lemma elements_spec a : bytes_ok a -> Nat.Even (length a) ->
  concat (map be16 (elements a)) = a /\ Forall (fun e => 0 <= e < 65536) (elements a) /\ length a = (2 * length (elements a))%nat.
Proof.
  intros Hb Hev. remember (length a) as n eqn:Hn. revert a Hb Hev Hn. induction n as [n IH] using lt_wf_ind. intros a Hb Hev Hn.
  destruct a as [|x [|y a]]; [by subst n|subst n; destruct Hev; cbn in *; lia|]. cbn [elements map concat length].
  inversion_clear Hb as [|?? Hx Hb']. inversion_clear Hb' as [|?? Hy Hb]. unfold is_byte in *. destruct (IH (length a)) with (a := a) as (H1 & H2 & H3);
    [cbn in Hn; lia|done|destruct Hev as [k Hk]; exists (k - 1)%nat; cbn in Hn; lia|done|].
  split_and!; [|constructor; [lia|done]|cbn in *; lia]. rewrite H1. unfold be16. cbn. f_equal; [|f_equal].
  - rewrite Z.div_add_l, (Z.div_small y) by lia. rewrite Z.add_0_r. apply Z.mod_small. lia.
  - rewrite Z.add_comm, Z.mod_add by lia. apply Z.mod_small. lia.
Qed.

(** The labels of a network, the first one being the number of bits. *)
Definition rpz_name (n : Netmask) : list bytes :=
  let addr := sin_addr (d_network n) in
  to_string (nm_bits n)
  :: (if ca_isIPv4 (d_network n) then map to_string [at_byte addr 3; at_byte addr 2; at_byte addr 1; at_byte addr 0] else rev (v6_labels (elements addr))).

Lemma network_cases n : nm_ok n ->
  (ca_isIPv4 (d_network n) = true /\ (exists a b c d, sin_addr (d_network n) = [a; b; c; d] /\ 0 <= a < 256 /\ 0 <= b < 256 /\ 0 <= c < 256 /\ 0 <= d < 256)
   /\ 0 <= nm_bits n <= 32)
  \/ (ca_isIPv4 (d_network n) = false /\ sin_family (d_network n) = AF_INET6 /\ length (sin_addr (d_network n)) = 16%nat /\ 0 <= nm_bits n <= 128).
Proof.
  intros [[Hfam Hb] Hp Hbits _ _]. unfold ca_getBits, ca_isIPv4, ca_isIPv6 in *. destruct Hfam as [[Hf Hl]|[Hf Hl]]; rewrite Hf in *; cbn in Hbits |- *.
  - left. split_and!; [done| |lia..]. destruct (sin_addr (d_network n)) as [|a [|b [|c [|d [|? ?]]]]] eqn:Ha; try (unfold zlen in Hl; cbn in Hl; lia).
    unfold bytes_ok, is_byte in Hb. rewrite !Forall_cons in Hb. exists a, b, c, d. split; [done|]. lia.
  - right. unfold zlen in Hl. split_and!; [done|done|lia..].
Qed.

Lemma v6_labels_plain elems : Forall (fun e => 0 <= e) elems -> Forall plain (v6_labels elems).
Proof.
  intros He. unfold v6_labels. destruct (best_run elems) as [base len]. case_match; [by apply hex_labels_plain|].
  apply Forall_app. split; [apply hex_labels_plain; by apply Forall_take|]. constructor; [exact zz_plain|]. apply hex_labels_plain. by apply Forall_drop.
Qed.

(** Where the run is. *)
Lemma v6_labels_cases elems :
  (v6_labels elems = map format_hex elems /\ (best_run elems).1 = -1)
  \/ exists before len after, 2 <= len /\ best_run elems = (zlen before, len) /\ elems = before ++ replicate (Z.to_nat len) 0 ++ after
       /\ v6_labels elems = map format_hex before ++ [bs "zz"] ++ map format_hex after.
Proof.
  unfold v6_labels. pose proof (best_run_spec elems) as Hs. destruct (best_run elems) as [base len]. cbn [fst snd] in Hs.
  destruct Hs as [->|[(before & after & Heq & Hbase & _) Hl]]; [by left|]. cbn [fst snd] in *. subst base. right. pose proof (zlen_nonneg before).
  rewrite (proj2 (Z.eqb_neq _ _)) by lia. exists before, len, after. split_and!; [done|done|done|]. rewrite Heq at 1 2. f_equal; [by rewrite ztake_app|].
  f_equal. f_equal. rewrite app_assoc. apply zdrop_app. rewrite zlen_app, zlen_replicate by lia. lia.
Qed.

Lemma zlen_v6_labels elems : (1 <= length elems)%nat -> 1 <= zlen (v6_labels elems) <= zlen elems.
Proof.
  intros Hl. destruct (v6_labels_cases elems) as [[-> _]|(before & len & after & H2 & _ & -> & ->)]; unfold zlen in *; [rewrite length_map; lia|].
  rewrite !length_app, !length_map, length_replicate. cbn. lia.
Qed.

Theorem maskToRPZ_labels n : nm_ok n -> maskToRPZ n = Ok (mkDNSName (storage_of (rpz_name n))) /\ Forall plain (rpz_name n) /\ 2 <= zlen (rpz_name n) <= 9.
Proof.
  intros Hok. pose proof (nm_ok_network _ Hok) as [_ Hbytes].
  assert (0 <= nm_bits n < 256) as Hbits by (destruct (network_cases n Hok) as [(_ & _ & ?)|(_ & _ & _ & ?)]; lia).
  unfold maskToRPZ, rpz_name. pose proof (to_string_plain (nm_bits n) Hbits) as Hp.
  change (to_string (nm_bits n)) with (joined 46 [to_string (nm_bits n)]) at 1.
  rewrite DNSName_from_plain; [|done|by constructor|done]. cbn [mbind result_bind].
  assert (represents (mkDNSName (storage_of [to_string (nm_bits n)])) [to_string (nm_bits n)]) as Hr by (apply plain_represents; [by constructor|done]).
  destruct (network_cases n Hok) as [(-> & (a & b & c & d & -> & Ha & Hb & Hc & Hd) & _)|(-> & Hf & Hl & _)].
  - change (at_byte [a; b; c; d] 3) with d. change (at_byte [a; b; c; d] 2) with c. change (at_byte [a; b; c; d] 1) with b. change (at_byte [a; b; c; d] 0) with a.
    assert (Forall plain (map to_string [d; c; b; a])) as Hps by (cbn [map]; rewrite !Forall_cons; split_and!; [by apply to_string_plain..|constructor]).
    change (to_string d ++ bs "." ++ to_string c ++ bs "." ++ to_string b ++ bs "." ++ to_string a) with (joined 46 (map to_string [d; c; b; a])).
    rewrite DNSName_from_plain by done. cbn [mbind result_bind].
    assert (Forall plain (to_string (nm_bits n) :: map to_string [d; c; b; a])) as Hall by (by constructor).
    rewrite (name_append_represents _ _ _ _ Hr (plain_represents _ Hps ltac:(done))); [by split_and!|].
    pose proof (plain_length _ Hall) as Hlen. rewrite zlen_storage_of. change (zlen (to_string (nm_bits n) :: map to_string [d; c; b; a])) with 5 in Hlen.
    cbn [app]. lia.
  - set (elems := elements (sin_addr (d_network n))). destruct (elements_spec (sin_addr (d_network n))) as (_ & He & Hlen); [done|exists 8%nat; lia|].
    fold elems in He, Hlen. assert (length elems = 8%nat) as H8 by lia. assert (Forall (fun e => 0 <= e) elems) as Hpos by (eapply Forall_impl; [exact He|]; intros; cbn in *; lia).
    pose proof (v6_labels_plain elems Hpos) as Hvp. pose proof (zlen_v6_labels elems ltac:(lia)) as Hvl. unfold zlen in Hvl at 3. rewrite H8 in Hvl.
    assert (rpz_labels (length elems) 0 elems (best_run elems) (mkDNSName []) = Ok (name_of_labels (rev (v6_labels elems)))) as ->.
    { change (mkDNSName []) with (name_of_labels []). rewrite <- (app_nil_r (rev (v6_labels elems))).
      destruct (v6_labels_cases elems) as [[-> Hb]|(before & len & after & H2 & Hb & Heq & ->)].
      - apply rpz_labels_rest; [done|done|constructor|unfold zlen; cbn; lia|intros; lia].
      - rewrite Hb, Heq. assert (length elems = length before + Z.to_nat len + length after)%nat as Hle by (rewrite Heq, !length_app, length_replicate; lia).
        apply rpz_labels_run; [rewrite !length_app, length_replicate; lia|lia|lia| |constructor|unfold zlen; cbn; lia].
        rewrite Heq, !Forall_app in Hpos. apply Forall_app. by destruct Hpos as [? [_ ?]]. }
    cbn [mbind result_bind]. assert (Forall plain (rev (v6_labels elems))) as Hrp by (by apply List.Forall_rev).
    assert (zlen (rev (v6_labels elems)) = zlen (v6_labels elems)) as Hrl by (unfold zlen; by rewrite length_rev).
    destruct (rev (v6_labels elems)) as [|x ls] eqn:Hrev; [change (zlen []) with 0 in Hrl; lia|]. cbn [name_of_labels].
    assert (Forall plain (to_string (nm_bits n) :: x :: ls)) as Hall by (by constructor).
    rewrite (name_append_represents _ _ _ _ Hr (plain_represents _ Hrp ltac:(lia))).
    2: { pose proof (plain_length _ Hall) as Hlen'. rewrite zlen_storage_of. rewrite zlen_cons in Hlen'. cbn [app]. lia. }
    split_and!; [done|done|rewrite zlen_cons; lia..].
Qed.

(** ** Reading it back *)

Lemma find_char_none c s : c ∉ s -> find_char c s = None.
Proof. induction s as [|x s IH]; cbn; [done|]. intros [Hc Hs]%not_elem_of_cons. rewrite (proj2 (Z.eqb_neq _ _)) by done. by rewrite IH. Qed.

Lemma find_char_some c s t : c ∉ s -> find_char c (s ++ c :: t) = Some (zlen s).
Proof.
  induction s as [|x s IH]; cbn; [by rewrite Z.eqb_refl|]. intros [Hc Hs]%not_elem_of_cons. rewrite (proj2 (Z.eqb_neq _ _)) by done. rewrite IH by done. cbn.
  f_equal. rewrite zlen_cons. lia.
Qed.

Lemma splitField_app c s t : c ∉ s -> splitField (s ++ c :: t) c = (s, t).
Proof.
  intros Hc. unfold splitField. rewrite find_char_some by done. f_equal; [by apply ztake_app|]. change (s ++ c :: t) with (s ++ [c] ++ t).
  rewrite app_assoc. apply zdrop_app. rewrite zlen_app. done.
Qed.

Lemma c_str_id s : 0 ∉ s -> c_str s = s.
Proof. induction s as [|x s IH]; cbn; [done|]. intros [Hc Hs]%not_elem_of_cons. rewrite (proj2 (Z.eqb_neq _ _)) by done. by rewrite IH. Qed.

Lemma checked_stoi_string max n : 0 <= n <= max -> max <= ULONG_MAX -> checked_stoi max (to_string n) = Ok n.
Proof.
  intros Hn Hm. destruct (to_string_spec n) as (_ & Hne & Hd); [lia|]. unfold checked_stoi. rewrite (c_str_digits _ Hd), strtoul_to_string by lia.
  destruct (to_string n); [done|]. by rewrite (proj2 (Z.ltb_ge _ _)) by lia.
Qed.

Lemma stoi_string n : 0 <= n < 2 ^ 31 -> stoi (to_string n) = Ok n.
Proof.
  intros Hn. destruct (to_string_spec n) as (Hv & Hne & Hd); [lia|]. unfold stoi. rewrite (c_str_digits _ Hd).
  destruct (to_string n) as [|c ds] eqn:E; [done|]. pose proof Hd as Hd'. inversion_clear Hd' as [|?? Hc Hds]. pose proof Hc as Hc'. unfold c_isdigit in Hc'.
  unfold strtol. cbn [skip_spaces]. assert (c_isspace c = false) as -> by (unfold c_isspace; lia).
  rewrite (proj2 (Z.eqb_neq c 45)), (proj2 (Z.eqb_neq c 43)) by lia. rewrite strtoul_digits_app by done. fold (dec_value (c :: ds)). rewrite Hv.
  rewrite (bool_decide_eq_false_2 (c :: ds = [])) by done. cbn [negb orb]. unfold LONG_MAX. rewrite Z.min_l by lia.
  rewrite !(proj2 (Z.ltb_ge _ _)) by lia. done.
Qed.

(** A second colon ends the port. *)
Lemma skip_spaces_colon s : 58 ∈ s -> 58 ∈ skip_spaces s.
Proof. induction s as [|c s IH]; cbn; [done|]. intros [<-|H]%elem_of_cons; [by left|]. destruct (c_isspace c); [by apply IH|by right]. Qed.

Lemma strtoul_digits_colon s : forall v any, 58 ∈ s -> 58 ∈ (strtoul_digits s v any).1.2.
Proof. induction s as [|c s IH]; intros v any; cbn; [done|]. intros [<-|H]%elem_of_cons; [by left|]. destruct (c_isdigit c); [by apply IH|by right]. Qed.

Lemma strtol_colon s : 58 ∈ s -> default s (strtol s).2 <> [].
Proof.
  intros Hs. unfold strtol. pose proof (skip_spaces_colon s Hs) as H1. set (r := match skip_spaces s with [] => _ | _ => _ end).
  assert (58 ∈ r.2) as H2.
  { subst r. destruct (skip_spaces s) as [|c l]; [done|]. destruct (Z.eqb_spec c 45) as [->|]; [by apply elem_of_cons in H1 as [?|?]|].
    destruct (Z.eqb_spec c 43) as [->|]; [by apply elem_of_cons in H1 as [?|?]|]. done. }
  destruct r as [neg s2]. pose proof (strtoul_digits_colon s2 0 false H2) as H3. destruct (strtoul_digits s2 0 false) as [[v rest] any]. cbn in H3.
  destruct any; cbn; intros ->; [by apply elem_of_nil in H3|by apply elem_of_nil in Hs].
Qed.

Section parsing.
Context `{HAP : !AddressParser} `{HAF : !AddressForms format_hex HAP}.

Lemma v4_address a b c d : 0 <= a < 256 -> 0 <= b < 256 -> 0 <= c < 256 -> 0 <= d < 256 ->
  makeComboAddress (joined 46 (map to_string [a; b; c; d])) = Ok (mkCA AF_INET 0 [a; b; c; d]).
Proof.
  intros Ha Hb Hc Hd. set (text := joined 46 _). assert (forall x, x ∈ text -> x = 46 \/ 48 <= x <= 57) as Hx.
  { intros x [->|(y & Hy & Hxy)]%joined_elem; [by left|]. right. apply list_elem_of_fmap in Hy as (z & -> & Hz).
    destruct (to_string_spec z) as (_ & _ & Hdig); [rewrite !elem_of_cons in Hz; destruct Hz as [->|[->|[->|[->|?%elem_of_nil]]]]; lia || done|].
    rewrite Forall_forall in Hdig. apply Hdig in Hxy. unfold c_isdigit in Hxy. lia. }
  unfold makeComboAddress, makeIPv4sockaddr. assert (text <> []) as Hne.
  { subst text. destruct (to_string_spec a) as (_ & Hn & _); [lia|]. intros [Hj _]%app_nil. done. }
  destruct text as [|t0 text'] eqn:Ht; [done|]. rewrite <- Ht in *. rewrite find_char_none by (intros H%Hx; lia).
  rewrite c_str_id by (intros H%Hx; lia). subst text. rewrite (aton_quad (hex:=format_hex)) by done. done.
Qed.

Lemma v6_address text addr :
  (forall x, x ∈ text -> 48 <= x <= 58 \/ 97 <= x <= 122) -> (exists s t u, text = s ++ 58 :: t ++ 58 :: u) ->
  inet_pton6 text = Some addr -> makeComboAddress text = Ok (mkCA AF_INET6 0 addr).
Proof.
  intros Hx (s & t & u & Htext) Hp. assert (c_str text = text) as Hcs by (apply c_str_id; intros H%Hx; lia).
  unfold makeComboAddress. assert (makeIPv4sockaddr text (mkCA AF_INET 0 [0; 0; 0; 0]) = (mkCA AF_INET 0 [0; 0; 0; 0], false)) as ->.
  { unfold makeIPv4sockaddr. destruct text as [|t0 text']; [done|]. set (w := t0 :: text') in *.
    assert (exists s t, w = s ++ 58 :: t /\ 58 ∉ s /\ 58 ∈ t) as (s' & t' & Hw & Hns & Hnt).
    { destruct (decide (58 ∈ s)) as [Hin|Hin]; [|exists s, (t ++ 58 :: u); split_and!; [done|done|set_solver]].
      apply list_elem_of_split_l in Hin as (s1 & s2 & -> & Hs1). exists s1, (s2 ++ 58 :: t ++ 58 :: u). split_and!; [|done|set_solver].
      rewrite Htext. by rewrite <- app_assoc. }
    rewrite Hw, find_char_some by done. change (s' ++ 58 :: t') with (s' ++ [58] ++ t'). rewrite app_assoc, zdrop_app by (rewrite zlen_app; done).
    assert (c_str t' = t') as -> by (apply c_str_id; intros H; specialize (Hx 0); rewrite Hw in Hx; specialize (Hx ltac:(set_solver)); lia).
    rewrite bool_decide_eq_false_2 by (intros ->; by apply elem_of_nil in Hnt). pose proof (strtol_colon t' Hnt) as Hr. destruct (strtol t') as [v rest]. cbn [snd] in Hr.
    destruct (_ || _); [done|]. by rewrite (bool_decide_eq_false_2 _ Hr). }
  unfold makeIPv6sockaddr. destruct text as [|t0 text']; [by destruct s|]. assert (bracketed (t0 :: text') = Some (t0 :: text', None)) as ->.
  { unfold bracketed. assert (t0 <> 91) by (specialize (Hx t0 ltac:(by left)); lia). repeat case_match; done. }
  rewrite Hcs, Hp. done.
Qed.

(** ** The round trip *)

Lemma hexy_not_zz l : hexy l -> pdns_iequals l (bs "zz") = false.
Proof.
  intros Hl. apply not_true_iff_false. intros H%pdns_iequals_spec. destruct l as [|c l]; [done|]. change (toLower (bs "zz")) with [122; 122] in H.
  cbn in H. injection H as Hc _. apply Forall_cons in Hl as [Hl _].
  assert (dns_tolower c <> 122); [|done]. assert (0 <= c < 103) as Hr by lia. clear Hc. revert Hl.
  apply (all_below (fun c => 48 <= c <= 57 \/ 97 <= c <= 102 -> dns_tolower c <> 122) 103); [by vm_compute|lia].
Qed.

Lemma rpz_parts_hexy ls : Forall hexy ls -> forall v h, exists v', rpz_parts ls v h = Ok (ls, v', h).
Proof.
  induction 1 as [|l ls Hl Hls IH]; intros v h; [by exists v|]. cbn [rpz_parts]. rewrite hexy_not_zz by done.
  destruct (IH (v || existsb (fun c => negb (c_isdigit c)) l) h) as (v' & ->). by exists v'.
Qed.

Lemma rpz_parts_digits ls : Forall (Forall (fun c => c_isdigit c = true)) ls -> forall v h, rpz_parts ls v h = Ok (ls, v, h).
Proof.
  induction 1 as [|l ls Hl Hls IH]; intros v h; [done|]. cbn [rpz_parts]. rewrite hexy_not_zz by (eapply Forall_impl; [exact Hl|]; intros c; unfold c_isdigit; cbn; lia).
  assert (existsb (fun c => negb (c_isdigit c)) l = false) as ->.
  { apply not_true_iff_false. intros (c & Hc%list_elem_of_In & Hn)%existsb_exists. rewrite Forall_forall in Hl. rewrite (Hl c Hc) in Hn. done. }
  rewrite orb_false_r. by rewrite IH.
Qed.

Lemma rpz_parts_true ls : Forall hexy ls -> forall h, rpz_parts ls true h = Ok (ls, true, h).
Proof. induction 1 as [|l ls Hl Hls IH]; intros h; [done|]. cbn [rpz_parts]. rewrite hexy_not_zz by done. cbn [orb]. by rewrite IH. Qed.

Lemma rpz_parts_zz a b : Forall hexy a -> Forall hexy b -> forall v, rpz_parts (a ++ [bs "zz"] ++ b) v false = Ok (a ++ [[]] ++ b, true, true).
Proof.
  intros Ha Hb. induction Ha as [|l a Hl Ha IH]; intros v; cbn [app rpz_parts].
  - change (pdns_iequals (bs "zz") (bs "zz")) with true. cbn [throw_if mbind result_bind]. by rewrite (rpz_parts_true b Hb true).
  - rewrite hexy_not_zz by done. cbn [app] in IH. by rewrite IH.
Qed.

Lemma joined_app a b : a <> [] -> b <> [] -> joined 58 (a ++ b) = joined 58 a ++ 58 :: joined 58 b.
Proof.
  intros Ha Hb. induction a as [|x a IH]; [done|]. destruct a as [|y a]; [by destruct b|].
  change (joined 58 ((x :: y :: a) ++ b)) with (x ++ 58 :: joined 58 ((y :: a) ++ b)). rewrite IH by done.
  change (joined 58 (x :: y :: a)) with (x ++ 58 :: joined 58 (y :: a)). by rewrite <- app_assoc.
Qed.

Lemma v6_text_joined l : l <> [] -> v6_text (zlen l) l = joined 58 l ++ (if bool_decide (last l = Some []) then [58] else []).
Proof.
  induction l as [|x l IH]; [done|]. intros _. destruct l as [|y l].
  - cbn. rewrite app_nil_r. destruct (decide (x = [])) as [->|Hx]; [done|]. by rewrite !bool_decide_eq_false_2 by congruence.
  - set (r := y :: l) in *. assert (zlen (x :: r) = zlen r + 1) as Hz by (rewrite zlen_cons; lia).
    assert (1 <= zlen r) as H1 by (subst r; rewrite zlen_cons; pose proof (zlen_nonneg l); lia).
    change (v6_text (zlen (x :: r)) (x :: r)) with (x ++ (if (1 <? zlen (x :: r)) || ((zlen (x :: r) =? 1) && bool_decide (x = [])) then [58] else [])
      ++ v6_text (zlen (x :: r) - 1) r).
    rewrite Hz, (proj2 (Z.ltb_lt 1 _)) by lia. cbn [orb]. replace (zlen r + 1 - 1) with (zlen r) by lia. rewrite IH by done.
    change (joined 58 (x :: r)) with (x ++ 58 :: joined 58 r). change (last (x :: r)) with (last r). rewrite <- app_assoc. done.
Qed.

Lemma setBits_again n : nm_ok n -> setBits (mkCA (sin_family (d_network n)) 0 (sin_addr (d_network n))) (nm_bits n) = n.
Proof.
  intros Hn. pose proof (nm_ok_make n Hn) as Hm. pose proof (nm_ok_port n Hn) as Hp. pose proof (nm_ok_bits n Hn). pose proof (ca_getBits_range (d_network n)).
  unfold getNormalized, nm_make, ca_setPort in Hm. by rewrite u8_small in Hm by lia.
Qed.

(** The text of an IPv6 address from its labels. *)
Definition lead (l : list bytes) : bytes := if bool_decide (default [] (head l) = []) then [58] else [].

Lemma last_nonempty (l : list bytes) : Forall (fun x => x <> []) l -> last l <> Some [].
Proof. intros Hl H%last_Some_elem_of. rewrite Forall_forall in Hl. by apply Hl in H. Qed.

Lemma v6_text_full l : l <> [] -> Forall (fun x => x <> []) l -> lead l ++ v6_text (zlen l) l = joined 58 l.
Proof.
  intros Hne Hl. unfold lead. rewrite v6_text_joined, (bool_decide_eq_false_2 _ (last_nonempty l Hl)), app_nil_r by done.
  destruct l as [|x l]; [done|]. apply Forall_cons in Hl as [Hx _]. cbn [head default]. by rewrite bool_decide_eq_false_2.
Qed.

Lemma v6_text_zz a b : Forall (fun x => x <> []) a -> Forall (fun x => x <> []) b ->
  lead (a ++ [[]] ++ b) ++ v6_text (zlen (a ++ [[]] ++ b)) (a ++ [[]] ++ b) = joined 58 a ++ [58; 58] ++ joined 58 b.
Proof.
  intros Ha Hb. rewrite v6_text_joined by (by destruct a). assert (joined 58 ([[]] ++ b) ++ (if bool_decide (last (a ++ [[]] ++ b) = Some []) then [58] else []) = 58 :: joined 58 b) as Htail.
  { rewrite app_assoc, last_app. destruct b as [|x b]; [by rewrite last_snoc|]. rewrite (joined_app [[]] (x :: b)) by done. cbn [joined app].
    pose proof (last_nonempty (x :: b) Hb) as Hl. destruct (last (x :: b)) as [y|] eqn:E; [|by apply last_None in E].
    rewrite (bool_decide_eq_false_2 _ Hl). by rewrite app_nil_r. }
  set (tl := if bool_decide (last (a ++ [[]] ++ b) = Some []) then [58] else []) in *. clearbody tl.
  destruct a as [|x a]; [change (lead ([] ++ [[]] ++ b)) with [58]; change (joined 58 ([] ++ [[]] ++ b)) with (joined 58 ([[]] ++ b)); by rewrite Htail|].
  rewrite (joined_app (x :: a)) by done. rewrite <- app_assoc. rewrite <- (app_comm_cons (joined 58 ([[]] ++ b)) tl 58). rewrite Htail.
  apply Forall_cons in Ha as [Hx _]. unfold lead. cbn [head default]. by rewrite bool_decide_eq_false_2.
Qed.

Lemma joined_hexy l : Forall hexy l -> forall c, c ∈ joined 58 l -> 48 <= c <= 58 \/ 97 <= c <= 122.
Proof.
  intros Hl c [->|(x & Hx & Hc)]%joined_elem; [lia|]. rewrite Forall_forall in Hl. specialize (Hl x Hx). unfold hexy in Hl. rewrite Forall_forall in Hl.
  specialize (Hl c Hc). lia.
Qed.

Lemma nm_of_text_bits text network bits : 47 ∉ text -> makeComboAddress text = Ok network -> 0 <= bits < 256 ->
  nm_of_text (text ++ bs "/" ++ to_string bits) = Ok (setBits network bits).
Proof.
  intros Ht Ha Hb. unfold nm_of_text. change (text ++ bs "/" ++ to_string bits) with (text ++ 47 :: to_string bits). rewrite splitField_app by done.
  rewrite Ha. cbn [mbind result_bind]. destruct (to_string_spec bits) as (_ & Hne & _); [lia|].
  destruct (to_string bits) as [|c t] eqn:E; [done|]. rewrite <- E. rewrite checked_stoi_string by (unfold ULONG_MAX; lia). done.
Qed.

Lemma hex_nonempty es : Forall (fun e => 0 <= e) es -> Forall (fun x => x <> []) (map format_hex es) /\ Forall hexy (map format_hex es).
Proof.
  intros He. split; apply Forall_fmap; (eapply Forall_impl; [exact He|]); intros e Hp; destruct (format_hex_hexy e Hp) as [Hh Hl]; [|done].
  intros E. change ((fun x : bytes => x) (format_hex e) = []) in E. cbv beta in E. rewrite E in Hl. change (length []) with O in Hl. lia.
Qed.

Lemma read_v4 n a b c d :
  nm_ok n -> sin_family (d_network n) = AF_INET -> sin_addr (d_network n) = [a; b; c; d] ->
  0 <= a < 256 -> 0 <= b < 256 -> 0 <= c < 256 -> 0 <= d < 256 -> 0 <= nm_bits n <= 32 ->
  makeNetmaskFromRPZ (mkDNSName (storage_of (to_string (nm_bits n) :: map to_string [d; c; b; a]))) = Ok n.
Proof.
  intros Hok Hf Haddr Ha Hb Hc Hd Hbits. set (ls := to_string (nm_bits n) :: map to_string [d; c; b; a]).
  assert (Forall (fun x => 0 <= x < 256) [nm_bits n; d; c; b; a]) as Hall by (repeat constructor; lia).
  assert (represents (mkDNSName (storage_of ls)) ls) as Hr.
  { apply plain_represents; [|done]. change ls with (map to_string [nm_bits n; d; c; b; a]). apply Forall_fmap. eapply Forall_impl; [exact Hall|]. apply to_string_plain. }
  unfold makeNetmaskFromRPZ. rewrite (getRawLabels_represents _ _ Hr). change (zlen ls) with 5. change ((5 <? 2) || (9 <? 5)) with false. subst ls.
  cbn [throw_if mbind result_bind]. rewrite stoi_string by lia. cbn [mbind result_bind].
  rewrite rpz_parts_digits.
  2: { change (to_string (nm_bits n) :: map to_string [d; c; b; a]) with (map to_string [nm_bits n; d; c; b; a]). apply Forall_fmap.
       eapply Forall_impl; [exact Hall|]. intros x Hx. cbn in Hx. destruct (to_string_spec x) as (_ & _ & Hdig); [lia|exact Hdig]. }
  cbn [mbind result_bind]. rewrite (proj2 (Z.ltb_ge 32 (nm_bits n))) by lia. cbn [andb throw_if mbind result_bind negb].
  change (zlen (to_string (nm_bits n) :: map to_string [d; c; b; a])) with 5. cbn [Z.eqb Pos.eqb andb map lookup list_lookup default from_option id].
  replace (to_string a ++ bs "." ++ to_string b ++ bs "." ++ to_string c ++ bs "." ++ to_string d ++ bs "/" ++ to_string (nm_bits n))
    with (joined 46 (map to_string [a; b; c; d]) ++ bs "/" ++ to_string (nm_bits n)).
  2: { cbn [joined map]. change (bs ".") with [46]. by repeat (rewrite <- app_assoc; cbn [app]). }
  rewrite (nm_of_text_bits _ (mkCA AF_INET 0 [a; b; c; d])); [|  |by apply v4_address|lia].
  - rewrite <- Hf, <- Haddr. f_equal. by apply setBits_again.
  - intros [?|(x & Hx & Hin)]%joined_elem; [done|]. apply list_elem_of_fmap in Hx as (z & -> & Hz).
    assert (0 <= z) as Hz0 by (rewrite !elem_of_cons in Hz; destruct Hz as [->|[->|[->|[->|?%elem_of_nil]]]]; lia || done).
    pose proof (to_string_hexy z Hz0) as Hh. unfold hexy in Hh. rewrite Forall_forall in Hh. apply Hh in Hin. lia.
Qed.

Lemma last_rev (l : list bytes) : last (rev l) = head l.
Proof. destruct l as [|x l]; [done|]. cbn [rev head]. apply last_snoc. Qed.

(** From the labels on. *)
Lemma v6_parts B C network bits :
  C <> [] -> B = to_string bits -> 0 <= bits < 256 -> 47 ∉ lead C ++ v6_text (zlen C) C -> makeComboAddress (lead C ++ v6_text (zlen C) C) = Ok network ->
  nm_of_text ((if bool_decide (default [] (last (B :: rev C)) = []) then [58] else []) ++ v6_text (zlen (B :: rev C) - 1) (rev (tail (B :: rev C)))
              ++ bs "/" ++ default [] ((B :: rev C) !! O))
  = Ok (setBits network bits).
Proof.
  intros Hne -> Hb H47 Ha. cbn [tail lookup list_lookup default from_option id]. rewrite rev_involutive, zlen_cons.
  replace (1 + zlen (rev C) - 1) with (zlen C) by (unfold zlen; rewrite length_rev; lia).
  assert (last (to_string bits :: rev C) = head C) as ->.
  { rewrite <- last_rev. destruct (rev C) as [|x r] eqn:Hr; [|done]. apply (f_equal (@length _)) in Hr. rewrite length_rev in Hr. by destruct C. }
  fold (lead C). rewrite app_assoc. by apply nm_of_text_bits.
Qed.

Lemma read_v6 n :
  nm_ok n -> sin_family (d_network n) = AF_INET6 -> length (sin_addr (d_network n)) = 16%nat -> 0 <= nm_bits n <= 128 ->
  represents (mkDNSName (storage_of (to_string (nm_bits n) :: rev (v6_labels (elements (sin_addr (d_network n)))))))
    (to_string (nm_bits n) :: rev (v6_labels (elements (sin_addr (d_network n))))) ->
  makeNetmaskFromRPZ (mkDNSName (storage_of (to_string (nm_bits n) :: rev (v6_labels (elements (sin_addr (d_network n))))))) = Ok n.
Proof.
  intros Hok Hf Hl Hbits Hr. set (elems := elements (sin_addr (d_network n))) in *.
  destruct (elements_spec (sin_addr (d_network n))) as (Hback & He & Hlen); [apply Hok|exists 8%nat; lia|]. fold elems in Hback, He, Hlen.
  assert (length elems = 8%nat) as H8 by lia. assert (Forall (fun e => 0 <= e) elems) as Hpos by (eapply Forall_impl; [exact He|]; intros; cbn in *; lia).
  pose proof (zlen_v6_labels elems ltac:(lia)) as Hvl. unfold zlen in Hvl at 3. rewrite H8 in Hvl.
  unfold makeNetmaskFromRPZ. rewrite (getRawLabels_represents _ _ Hr).
  assert (zlen (to_string (nm_bits n) :: rev (v6_labels elems)) = zlen (v6_labels elems) + 1) as Hz by (rewrite zlen_cons; unfold zlen; rewrite length_rev; lia).
  rewrite Hz. rewrite !(proj2 (Z.ltb_ge _ _)) by lia. cbn [orb throw_if mbind result_bind]. rewrite stoi_string by lia. cbn [mbind result_bind].
  pose proof (to_string_hexy (nm_bits n) ltac:(lia)) as Hbh.
  destruct (v6_labels_cases elems) as [[Hv _]|(before & len & after & H2 & _ & Heq & Hv)]; rewrite Hv in *.
  - destruct (hex_nonempty elems Hpos) as [Hne Hhx]. destruct (rpz_parts_hexy (to_string (nm_bits n) :: rev (map format_hex elems))) with (v := 32 <? nm_bits n) (h := false) as (v' & ->);
      [constructor; [done|by apply List.Forall_rev]|]. cbn [mbind result_bind].
    rewrite Hz. assert (zlen (map format_hex elems) + 1 = 9) as -> by (unfold zlen; rewrite length_map; lia).
    change (9 <? 9) with false. rewrite andb_false_r. cbn [andb throw_if mbind result_bind]. change ((9 =? 5) && negb v') with false. cbv iota.
    replace (9 - 1) with (zlen (to_string (nm_bits n) :: rev (map format_hex elems)) - 1) by (rewrite Hz; unfold zlen; rewrite length_map; lia).
    rewrite (v6_parts (to_string (nm_bits n)) (map format_hex elems) (mkCA AF_INET6 0 (sin_addr (d_network n))) (nm_bits n)).
    + rewrite <- Hf. f_equal. by apply setBits_again.
    + by destruct elems.
    + done.
    + lia.
    + rewrite v6_text_full by (by destruct elems || done). intros H%(joined_hexy _ Hhx). lia.
    + rewrite v6_text_full by (by destruct elems || done). apply v6_address; [by apply joined_hexy| |rewrite (pton6_full (hex:=format_hex)) by done; by rewrite Hback].
      destruct elems as [|e0 [|e1 [|e2 elems]]]; try (cbn in H8; lia).
      exists (format_hex e0), (format_hex e1), (joined 58 (map format_hex (e2 :: elems))). done.
  - assert (Forall (fun e => 0 <= e) before /\ Forall (fun e => 0 <= e) after) as [Hpb Hpa] by (rewrite Heq, !Forall_app in Hpos; tauto).
    destruct (hex_nonempty before Hpb) as [Hneb Hhb]. destruct (hex_nonempty after Hpa) as [Hnea Hha].
    assert (length before + Z.to_nat len + length after = 8)%nat as Hle by (rewrite <- H8, Heq, !length_app, length_replicate; lia).
    assert (to_string (nm_bits n) :: rev (map format_hex before ++ [bs "zz"] ++ map format_hex after)
      = (to_string (nm_bits n) :: rev (map format_hex after)) ++ [bs "zz"] ++ rev (map format_hex before)) as Hp.
    { rewrite !rev_app_distr. cbn [rev app]. by rewrite <- app_assoc. }
    rewrite Hp. rewrite rpz_parts_zz; [|constructor; [done|by apply List.Forall_rev]|by apply List.Forall_rev]. cbn [mbind result_bind].
    set (C := map format_hex before ++ [[]] ++ map format_hex after).
    assert ((to_string (nm_bits n) :: rev (map format_hex after)) ++ [[]] ++ rev (map format_hex before) = to_string (nm_bits n) :: rev C) as ->.
    { subst C. rewrite !rev_app_distr. cbn [rev app]. by rewrite <- app_assoc. }
    cbn [negb]. rewrite !andb_false_r. cbn [throw_if mbind result_bind].
    rewrite (v6_parts (to_string (nm_bits n)) C (mkCA AF_INET6 0 (sin_addr (d_network n))) (nm_bits n)).
    + rewrite <- Hf. f_equal. by apply setBits_again.
    + by destruct before.
    + done.
    + lia.
    + subst C. rewrite v6_text_zz by done. rewrite !elem_of_app. intros [H%(joined_hexy _ Hhb)|[H|H%(joined_hexy _ Hha)]]; [lia| |lia].
      rewrite !elem_of_cons in H. destruct H as [?|[?|?%elem_of_nil]]; done.
    + subst C. rewrite v6_text_zz by done. apply v6_address.
      * intros c. rewrite !elem_of_app. intros [H%(joined_hexy _ Hhb)|[H|H%(joined_hexy _ Hha)]]; [done| |done].
        rewrite !elem_of_cons in H. destruct H as [->|[->|?%elem_of_nil]]; [lia|lia|done].
      * exists (joined 58 (map format_hex before)), [], (joined 58 (map format_hex after)). done.
      * rewrite (pton6_zeroes (hex:=format_hex)); [|lia|rewrite Heq, !Forall_app in He; apply Forall_app; tauto].
        replace (8 - (length before + length after))%nat with (Z.to_nat len) by lia. by rewrite <- Heq, Hback.
Qed.

(** the name of a network in a response policy zone, as the engine writes it,
    reads back as the network, for IPv4 and for IPv6 with or without a run of zeroes
    that is left out. *)
Theorem rpz_netmask_round_trip n : nm_ok n -> exists name, maskToRPZ n = Ok name /\ makeNetmaskFromRPZ name = Ok n.
Proof.
  intros Hok. destruct (maskToRPZ_labels n Hok) as (Hm & Hp & Hz). eexists. split; [exact Hm|]. pose proof (plain_represents _ Hp ltac:(lia)) as Hr. unfold rpz_name in *.
  destruct (network_cases n Hok) as [(Hv4 & (a & b & c & d & Haddr & Ha & Hb & Hc & Hd) & Hbits)|(Hv4 & Hf & Hl & Hbits)]; rewrite Hv4 in *.
  - rewrite Haddr in *. unfold at_byte. cbn. apply (read_v4 n a b c d); try done. unfold ca_isIPv4 in Hv4. by apply Z.eqb_eq.
  - by apply read_v6.
Qed.
End parsing.

(** ** A parser of addresses with the promised forms *)

Module numeric_addresses.
Fixpoint split_on (sep : Z) (s : bytes) : list bytes :=
  match s with
  | [] => [[]]
  | c :: s => if c =? sep then [] :: split_on sep s
              else match split_on sep s with x :: l => (c :: x) :: l | [] => [[c]] end
  end.

Definition hex_value (c : Z) : Z := if c <? 58 then c - 48 else c - 87.
Definition hex_number (s : bytes) : Z := fold_left (fun v c => v * 16 + hex_value c) s 0.
Definition groups (s : bytes) : list Z := match s with [] => [] | _ => map hex_number (split_on 58 s) end.

(** The text before and after the first double colon. *)
Fixpoint double_colon (s : bytes) : option (bytes * bytes) :=
  match s with
  | [] => None
  | c :: s => if (c =? 58) && bool_decide (head s = Some 58) then Some ([], tail s) else (fun '(a, b) => (c :: a, b)) <$> double_colon s
  end.

Lemma double_colon_cons c s : c <> 58 \/ head s <> Some 58 -> double_colon (c :: s) = (fun '(a, b) => (c :: a, b)) <$> double_colon s.
Proof. intros H. cbn [double_colon]. case_bool_decide; [|by rewrite andb_false_r]. rewrite (proj2 (Z.eqb_neq c 58)) by (by destruct H). done. Qed.

#[export] Instance numeric : AddressParser := {
  inet_aton s := match map (checked_stoi 255) (split_on 46 s) with
                 | [Ok a; Ok b; Ok c; Ok d] => Some [a; b; c; d]
                 | _ => None
                 end;
  inet_pton6 s := match double_colon s with
                  | Some (a, b) =>
                      let '(l, r) := (groups a, groups b) in
                      if (length l + length r <=? 7)%nat then Some (concat (map be16 (l ++ replicate (8 - (length l + length r)) 0 ++ r))) else None
                  | None => let l := groups s in if (length l =? 8)%nat then Some (concat (map be16 l)) else None
                  end;
  getaddrinfo6 s := None;
}.

Lemma split_on_app sep x s : sep ∉ x -> split_on sep (x ++ s) = match split_on sep s with y :: l => (x ++ y) :: l | [] => [x] end.
Proof.
  induction x as [|c x IH]; intros Hx; cbn [app split_on]; [by destruct s as [|c s]; cbn; [|destruct (c =? sep), (split_on sep s)]|].
  rewrite not_elem_of_cons in Hx. destruct Hx as [Hc Hx]. rewrite (proj2 (Z.eqb_neq c sep)) by done. rewrite IH by done. by destruct (split_on sep s).
Qed.

Lemma split_on_joined sep l : l <> [] -> Forall (fun x => sep ∉ x) l -> split_on sep (joined sep l) = l.
Proof.
  intros Hne Hl. induction Hl as [|x l Hx Hl IH]; [done|]. destruct l as [|y l].
  - cbn [joined]. rewrite <- (app_nil_r x) at 1. rewrite split_on_app by done. cbn. by rewrite app_nil_r.
  - change (joined sep (x :: y :: l)) with (x ++ sep :: joined sep (y :: l)). rewrite split_on_app by done. cbn [split_on]. rewrite Z.eqb_refl, IH by done.
    by rewrite app_nil_r.
Qed.

Lemma hex_number_digits fuel : forall n acc, 0 <= n < 16 ^ Z.of_nat fuel -> fold_left (fun v c => v * 16 + hex_value c) (hex_digits fuel n acc) 0
  = fold_left (fun v c => v * 16 + hex_value c) acc n.
Proof.
  induction fuel as [|fuel IH]; intros n acc Hn; [assert (n = 0) as -> by (cbn in Hn; lia); done|]. cbn [hex_digits].
  assert (forall d, 0 <= d < 16 -> hex_value (hex_digit d) = d) as Hv by (intros d Hd; unfold hex_value, hex_digit; destruct (d <? 10) eqn:E; destruct (_ <? 58) eqn:E2; lia).
  destruct (n <? 16) eqn:E.
  - cbn [fold_left]. rewrite Z.mod_small, Hv by lia. f_equal; lia.
  - rewrite IH.
    + cbn [fold_left]. rewrite Hv by (apply Z.mod_pos_bound; lia). f_equal. pose proof (Z.div_mod n 16). lia.
    + rewrite Nat2Z.inj_succ, Z.pow_succ_r in Hn by lia. split; [apply Z.div_pos; lia|]. apply Z.div_lt_upper_bound; lia.
Qed.

Lemma groups_hex l : Forall (fun e => 0 <= e < 65536) l -> groups (joined 58 (map format_hex l)) = l.
Proof.
  intros Hl. destruct l as [|x l']; [done|]. set (l := x :: l') in *.
  assert (Forall (fun e => 0 <= e) l) as Hp by (eapply Forall_impl; [exact Hl|]; cbn; lia). destruct (hex_nonempty l Hp) as [Hne Hh].
  assert (joined 58 (map format_hex l) <> []) as Hj.
  { subst l. cbn [map] in *. apply Forall_cons in Hne as [Hx _]. destruct (format_hex x); [done|]. cbn [joined]. by destruct (map format_hex l'). }
  unfold groups. destruct (joined 58 (map format_hex l)) as [|c t] eqn:E; [done|]. rewrite <- E, split_on_joined by
    (done || (eapply Forall_impl; [exact Hh|]; intros y Hy; unfold hexy in Hy; rewrite Forall_forall in Hy; intros ?%Hy; lia)).
  rewrite map_map. clear -Hl. induction Hl as [|e l He Hl IH]; [done|]. cbn [map]. f_equal; [|exact IH]. unfold hex_number, format_hex.
  rewrite hex_number_digits by (change (16 ^ Z.of_nat 4) with 65536; lia). done.
Qed.

(** Parts that are not empty have no double colon in between. *)
Lemma double_colon_app x s : 58 ∉ x -> double_colon (x ++ s) = (fun '(a, b) => (x ++ a, b)) <$> double_colon s.
Proof.
  induction x as [|c x IH]; intros Hx; [cbn [app]; by destruct (double_colon s) as [[? ?]|]|].
  rewrite not_elem_of_cons in Hx. destruct Hx as [Hc Hx].
  cbn [app]. rewrite double_colon_cons, IH by auto. by destruct (double_colon s) as [[? ?]|].
Qed.

Lemma double_colon_none l : Forall (fun x => x <> [] /\ 58 ∉ x) l -> double_colon (joined 58 l) = None.
Proof.
  induction 1 as [|x l [Hx H58] Hl IH]; [done|]. destruct l as [|y l].
  - cbn [joined]. rewrite <- (app_nil_r x), double_colon_app by done. done.
  - change (joined 58 (x :: y :: l)) with (x ++ 58 :: joined 58 (y :: l)). rewrite double_colon_app by done.
    apply Forall_cons in Hl as [[Hy H58y] _]. destruct y as [|c y]; [done|]. rewrite not_elem_of_cons in H58y. destruct H58y as [Hc _].
    assert (exists t, joined 58 ((c :: y) :: l) = c :: t) as (t & Ht) by (destruct l; cbn [joined app]; eauto).
    rewrite Ht in *. rewrite double_colon_cons by (right; cbn; congruence). by rewrite IH.
Qed.

Lemma double_colon_some l r : Forall (fun x => x <> [] /\ 58 ∉ x) l -> double_colon (joined 58 l ++ 58 :: 58 :: r) = Some (joined 58 l, r).
Proof.
  induction 1 as [|x l [Hx H58] Hl IH]; [done|]. destruct l as [|y l].
  - cbn [joined]. rewrite double_colon_app by done. change (double_colon (58 :: 58 :: r)) with (Some ([] : bytes, r)). cbn [fmap option_fmap option_map].
    by rewrite app_nil_r.
  - change (joined 58 (x :: y :: l)) with (x ++ 58 :: joined 58 (y :: l)). rewrite <- app_assoc, double_colon_app by done. cbn [app].
    apply Forall_cons in Hl as [[Hy H58y] _]. destruct y as [|c y]; [done|]. rewrite not_elem_of_cons in H58y. destruct H58y as [Hc _].
    assert (exists t, joined 58 ((c :: y) :: l) = c :: t) as (t & Ht) by (destruct l; cbn [joined app]; eauto).
    rewrite Ht in *. cbn [app] in *. rewrite double_colon_cons by (right; cbn; congruence). by rewrite IH.
Qed.

Lemma hex_parts l : Forall (fun e => 0 <= e < 65536) l -> Forall (fun x => x <> [] /\ 58 ∉ x) (map format_hex l).
Proof.
  intros Hl. apply Forall_fmap. eapply Forall_impl; [exact Hl|]. intros e He. cbn in He. destruct (format_hex_hexy e) as [Hh Hlen]; [lia|].
  split; [intros E; change (format_hex e = []) in E; rewrite E in Hlen; change (length []) with O in Hlen; lia|]. unfold hexy in Hh. rewrite Forall_forall in Hh. intros ?%Hh. lia.
Qed.

#[export] Instance numeric_forms : AddressForms format_hex numeric.
Proof.
  split.
  - intros a b c d Ha Hb Hc Hd. unfold inet_aton, numeric. rewrite split_on_joined.
    + cbn [map]. by rewrite !checked_stoi_string by (unfold ULONG_MAX; lia).
    + done.
    + assert (Forall (fun e => 0 <= e) [a; b; c; d]) as Hp by (repeat constructor; lia). apply Forall_fmap. eapply Forall_impl; [exact Hp|].
      intros e He. cbn in *. pose proof (to_string_hexy e He) as Hh. unfold hexy in Hh. rewrite Forall_forall in Hh. intros ?%Hh. lia.
  - intros l Hlen Hl. unfold inet_pton6, numeric. rewrite double_colon_none by by apply hex_parts. rewrite groups_hex by done. by rewrite Hlen.
  - intros l r Hlen Hlr. apply Forall_app in Hlr as [Hl Hr]. unfold inet_pton6, numeric. cbn [app].
    rewrite double_colon_some by by apply hex_parts. rewrite !groups_hex by done. by rewrite (proj2 (Nat.leb_le _ _)).
Qed.
End numeric_addresses.

Definition net_2001_db8 : Netmask := nm_make (mkCA AF_INET6 0 ([32; 1; 13; 184] ++ replicate 12 0)) 32.

Lemma rpz_netmask_round_trip_witness :
  nm_ok net_2001_db8 /\ exists name, maskToRPZ net_2001_db8 = Ok name /\ makeNetmaskFromRPZ (HAP := numeric_addresses.numeric) name = Ok net_2001_db8.
Proof.
  assert (nm_ok net_2001_db8) as Hok by (apply nm_make_spec; [by apply (bool_decide_unpack _); vm_compute|lia]). split; [done|].
  exact (rpz_netmask_round_trip (HAP := numeric_addresses.numeric) (HAF := numeric_addresses.numeric_forms) net_2001_db8 Hok).
Defined.

(** 2001:db8::/32 is written [32.zz.db8.2001]. *)
Example maskToRPZ_2001_db8 : maskToRPZ net_2001_db8 = DNSName_from_text (bs "32.zz.db8.2001").
Proof. vm_compute. reflexivity. Qed.
