(* ===== verification/RpzLookups.v ===== *)
(** * What the lookups of the filtering engine find

    The lookups by name and by address of the filtering engine, over zones that keep
    their invariant. *)

From Stdlib Require Import Sorted.
From stdpp Require Import gmap.
From S2P Require Import Prelude Chars Dns Names NamesFacts NamesText NamesOrder NamesSpec Denial DenialFacts Validate IpUtils IpText.
From S2P Require Import NetTree NetTreeFacts NetTreeSpec NetGroups NameIndex Rpz RpzEngine RpzLoader RpzFacts RpzNetmasks.

#[local] Open Scope Z_scope.

Section lookups.
Context {RC : Type} `{HRC : !RecordContents RC} `{HAT : !AddressText}.
#[local] Abbreviation policy := (Policy RC).
#[local] Abbreviation zone := (Zone RC).
#[local] Abbreviation store := (list (PolicyZoneData RC)).
#[local] Abbreviation record := (PolicyRecord RC).
#[local] Abbreviation polmap := (list (DNSName * Policy RC)).
#[local] Abbreviation poltree := (NetmaskTree Netmask (Policy RC)).

Implicit Types (m : polmap) (z : zone) (zones : list zone) (pol p r : policy) (st : store) (t : poltree).

(** ** The invariant of zones *)

(** Triggers by name are legal and each is there once, with policies of one type. *)
Definition polmap_ok (type : PolicyType.t) (m : polmap) : Prop := names_ok m /\ Forall (fun e => p_type e.2 = type) m.

(** Networks are in a tree that is in order, with policies of one type. *)
Definition poltree_ok (type : PolicyType.t) (t : poltree) : Prop := tree_ok t /\ map_Forall (fun _ p => p_type p = type) (tree_map t).

(** A name of a name server has room for the label behind it. *)
Definition short_name (n : DNSName) : Prop := zlen (d_storage n) <= 243.

Record zone_ok (z : zone) : Prop := {
  zo_qname : polmap_ok PolicyType.QName (d_qpolName z);
  zo_ns : polmap_ok PolicyType.NSDName (d_propolName z);
  zo_ns_short : Forall (fun e => short_name e.1) (d_propolName z);
  zo_client : poltree_ok PolicyType.ClientIP (d_qpolAddr z);
  zo_nsip : poltree_ok PolicyType.NSIP (d_propolNSAddr z);
  zo_response : poltree_ok PolicyType.ResponseIP (d_postpolAddr z);
}.

Lemma get_policy_in m k p : get_policy m k = Some p -> exists n, (n, p) ∈ m /\ nkey n = k.
Proof.
  unfold get_policy. destruct (List.find _ m) as [[n q]|] eqn:Hf; [|done]. intros [= <-]. apply find_some in Hf as [Hin Hk]. exists n.
  apply list_elem_of_In in Hin. split; [done|]. by apply bool_decide_eq_true in Hk.
Qed.

Lemma get_policy_type type m k p : polmap_ok type m -> get_policy m k = Some p -> p_type p = type.
Proof. intros [_ Ht] (n & Hin & _)%get_policy_in. rewrite Forall_forall in Ht. by apply (Ht (n, p)). Qed.

(** ** Lookups by name *)

(** A trigger by query name that applies in a zone, and the policy it leads to. *)
Definition qname_match (qname : DNSName) (pol : policy) (z : zone) (r : policy) : Prop :=
  exists trigger p, best_trigger (get_policy (d_qpolName z)) (nkey qname) (nkey trigger) p /\ named trigger
    /\ r = setHitData trigger (hit_text qname) (policy_assign pol p) /\ p_type r = PolicyType.QName.

(** C28: the policy for a query name comes from the first zone, among those that come
    before the zone of the current policy and are not discarded, with a trigger for
    the name, and is that of the name itself, or else of the wildcard closest above it;
    without one there is none. *)
Theorem getQueryPolicy_exact st zones qname discarded pol :
  Forall zone_ok zones -> named qname ->
  exists o, getQueryPolicy st (map Some zones) qname discarded pol = Ok o
    /\ first_match (zone_enabled st discarded pol) (qname_match qname pol) (fun z => no_trigger (get_policy (d_qpolName z)) (nkey qname)) zones o.
Proof.
  intros Hz Hq. destruct (names_policy_spec hasQNamePolicies findExactQNamePolicy (fun z => get_policy (d_qpolName z)) id zone_ok) with
    (st := st) (zones := zones) (qname := qname) (discarded := discarded) (pol := pol) as (o & Ho & Hm); [| |done|done|].
  - intros z Hh k. unfold hasQNamePolicies in Hh. apply negb_false_iff, bool_decide_eq_true in Hh. by rewrite Hh.
  - intros z n p Hok Hn. apply findExactNamedPolicy_spec; [apply Hok|done].
  - exists o. split; [done|]. eapply first_match_mono; [| |exact Hm]; [|done]. intros z r Hin (tn & p & Hb & Hn & ->). exists tn, p. split_and!; [done..|].
    rewrite Forall_forall in Hz. destruct Hb as [Hg _]. by apply (get_policy_type _ _ _ _ (zo_qname z (Hz z Hin)) Hg).
Qed.

(** The trigger by a name of a name server, as it is reported. *)
Definition ns_trigger (n : DNSName) : DNSName := match appendRawLabel n rpzNSDnameName with Ok t => t | Throw _ => n end.

Lemma nkey_length (n m : DNSName) : named n -> named m -> nkey n = nkey m -> zlen (d_storage n) = zlen (d_storage m).
Proof.
  intros [ls Hl] [ms Hm]. unfold nkey. rewrite (getRawLabels_represents _ _ Hl), (getRawLabels_represents _ _ Hm). unfold ckey.
  intros E%(inj reverse). destruct Hl as (-> & _), Hm as (-> & _). by rewrite <- (zlen_storage_of_ci ls), E, zlen_storage_of_ci.
Qed.

Lemma findExactNSPolicy_spec z n pol : zone_ok z -> named n ->
  findExactNSPolicy z n pol = Ok ((fun p => setHitData (ns_trigger n) (hit_text n) (policy_assign pol p)) <$> get_policy (d_propolName z) (nkey n)).
Proof.
  intros Hz Hn. unfold findExactNSPolicy. rewrite findExactNamedPolicy_spec by (apply Hz || done). cbn [mbind result_bind].
  destruct (get_policy (d_propolName z) (nkey n)) as [p|] eqn:Hg; [|done]. cbn [fmap option_fmap option_map append_trigger p_hitdata setHitData].
  apply get_policy_in in Hg as (n' & Hin & Hk). pose proof (zo_ns_short z Hz) as Hs. rewrite Forall_forall in Hs. specialize (Hs (n', p) Hin). cbn in Hs.
  destruct (zo_ns z Hz) as [[Hnm _] _]. rewrite Forall_forall in Hnm. specialize (Hnm (n', p) Hin). cbn in Hnm. unfold short_name in Hs.
  rewrite (nkey_length n' n) in Hs by done. unfold ns_trigger. destruct Hn as [ls Hr].
  destruct (appendRawLabel_represents n ls rpzNSDnameName Hr) as (t & -> & _); [by_decide| |done].
  destruct Hr as (Hst & _). rewrite Hst in Hs. rewrite storage_of_app, zlen_app. rewrite zlen_storage_of in Hs. change (zlen (storage_of [rpzNSDnameName])) with 13. lia.
Qed.

Definition ns_match (qname : DNSName) (pol : policy) (z : zone) (r : policy) : Prop :=
  exists trigger p, best_trigger (get_policy (d_propolName z)) (nkey qname) (nkey trigger) p /\ named trigger
    /\ r = setHitData (ns_trigger trigger) (hit_text qname) (policy_assign pol p) /\ p_type r = PolicyType.NSDName.

(** The policy for the name of a name server. *)
Theorem getProcessingPolicy_name_exact st zones qname discarded pol :
  Forall zone_ok zones -> named qname ->
  exists o, getProcessingPolicy_name st (map Some zones) qname discarded pol = Ok o
    /\ first_match (zone_enabled st discarded pol) (ns_match qname pol) (fun z => no_trigger (get_policy (d_propolName z)) (nkey qname)) zones o.
Proof.
  intros Hz Hq. destruct (names_policy_spec hasNSPolicies findExactNSPolicy (fun z => get_policy (d_propolName z)) ns_trigger zone_ok) with
    (st := st) (zones := zones) (qname := qname) (discarded := discarded) (pol := pol) as (o & Ho & Hm); [| |done|done|].
  - intros z Hh k. unfold hasNSPolicies in Hh. apply negb_false_iff, bool_decide_eq_true in Hh. by rewrite Hh.
  - intros z n p Hok Hn. by apply findExactNSPolicy_spec.
  - exists o. split; [done|]. eapply first_match_mono; [| |exact Hm]; [|done]. intros z r Hin (tn & p & Hb & Hn & ->). exists tn, p. split_and!; [done..|].
    rewrite Forall_forall in Hz. destruct Hb as [Hg _]. by apply (get_policy_type _ _ _ _ (zo_ns z (Hz z Hin)) Hg).
Qed.

(** ** Lookups by address *)

Lemma nm_match_bits (n : Netmask) (a : ComboAddress) : nm_ok n -> ca_ok a -> nm_match n a = true -> nm_bits n <= ca_getBits a.
Proof.
  intros Hn Ha Hm. rewrite nm_match_spec in Hm by done. destruct Hm as [Hf _]. pose proof (nm_ok_bits _ Hn).
  replace (ca_getBits a) with (ca_getBits (d_network n)); [lia|]. unfold ca_getBits, ca_isIPv4, ca_isIPv6. by rewrite Hf.
Qed.

(** No network of a tree has the address. *)
Definition no_network t (addr : ComboAddress) : Prop := forall n p, tree_map t !! n = Some p -> nm_match n addr = false.

(** The policy of the smallest network that has the address; the trigger is its name
    with the label of the kind. *)
Definition network_match t (label : bytes) (addr : ComboAddress) pol r : Prop :=
  exists n p trigger, tree_map t !! n = Some p /\ nm_match n addr = true
    /\ (forall n' p', tree_map t !! n' = Some p' -> nm_match n' addr = true -> nm_bits n' <= nm_bits n)
    /\ represents trigger (rpz_name n ++ [label]) /\ r = setHitData trigger (ca_toString addr) (policy_assign pol p).

Lemma find_address_spec type t label addr pol :
  poltree_ok type t -> ca_ok addr -> valid_label label ->
  exists o, find_address t label addr pol = Ok o
    /\ match o with None => no_network t addr | Some r => network_match t label addr pol r /\ p_type r = type end.
Proof.
  intros [Ht Htype] Ha Hlabel. pose proof (ca_getBits_range addr) as Hr.
  destruct (tree_lookup_addr_spec policy_default addr (ca_getBits addr) t Ht Ha ltac:(lia)) as (o & Ho & Hms).
  assert (tree_lookup_addr policy_default addr (-1) t = Ok o) as Ho'.
  { rewrite <- Ho. unfold tree_lookup_addr. case_match; [done|]. rewrite (proj2 (Z.ltb_ge (ca_getBits addr) (ca_getBits addr))) by lia.
    by rewrite (proj2 (Z.ltb_ge (ca_getBits addr) 0)) by lia. }
  unfold find_address. rewrite Ho'. cbn [mbind result_bind]. destruct o as [[n p]|].
  - destruct Hms as (Hn & Hm & _ & Hmax). pose proof (tree_map_ok _ _ _ Ht Hn) as Hok. destruct (maskToRPZ_labels n Hok) as (-> & Hp & Hz).
    cbn [mbind result_bind append_trigger p_hitdata setHitData]. pose proof (plain_represents _ Hp ltac:(lia)) as Hrep.
    destruct (appendRawLabel_represents _ _ label Hrep Hlabel) as (trigger & -> & Htr).
    { rewrite storage_of_app, zlen_app, zlen_storage_of_cons. change (zlen (storage_of [])) with 1. pose proof (plain_length _ Hp). destruct Hlabel as [[_ ?] _]. lia. }
    cbn [mbind result_bind]. eexists. split; [done|]. split; [|exact (Htype n p Hn)]. exists n, p, trigger. split_and!; [done..| |done|done].
    intros n' p' Hn' Hm'. eapply Hmax; [done..|]. apply nm_match_bits; [by eapply tree_map_ok|done..].
  - eexists. split; [done|]. intros n p Hn. apply not_true_iff_false. intros Hm. specialize (Hms n p Hn Hm).
    pose proof (nm_match_bits n addr (tree_map_ok _ _ _ Ht Hn) Ha Hm). lia.
Qed.

(** The zones in the order of their priority. *)
Definition ordered st zones : Prop := StronglySorted (fun z z' => z_getPriority st z <= z_getPriority st z') zones.

Section address_search.
Context (find : zone -> ComboAddress -> policy -> result (option policy)) (tree : zone -> poltree) (label : bytes) (type : PolicyType.t).
Context (Hfind : forall z addr pol, find z addr pol = find_address (tree z) label addr pol)
  (Htree : forall z, zone_ok z -> poltree_ok type (tree z)) (Hlabel : valid_label label).

Lemma address_policy_spec st zones addr discarded pol :
  Forall zone_ok zones -> ordered st zones -> ca_ok addr ->
  exists o, address_policy find st (map Some zones) addr discarded pol = Ok o
    /\ first_match (zone_enabled st discarded pol) (fun z r => network_match (tree z) label addr pol r /\ p_type r = type)
         (fun z => no_network (tree z) addr) zones o.
Proof.
  intros Hz Hs Ha. induction zones as [|z zones IH]; [exists None; split; [done|]; intros ? ?%elem_of_nil; done|]. cbn [map address_policy deref mbind result_bind].
  apply Forall_cons in Hz as [Hz Hzs]. apply StronglySorted_inv in Hs as [Hs Hmin]. specialize (IH Hzs Hs).
  destruct (p_getPriority st pol <=? z_getPriority st z) eqn:Hp.
  { exists None. split; [done|]. intros z' Hin. unfold zone_enabled. apply Z.leb_le in Hp. assert (p_getPriority st pol <= z_getPriority st z') as Hp'.
    { apply elem_of_cons in Hin as [->|Hin]; [done|]. rewrite Forall_forall in Hmin. specialize (Hmin z' Hin). lia. }
    rewrite (proj2 (Z.leb_le _ _) Hp'). done. }
  assert (forall o, zone_enabled st discarded pol z = false \/ no_network (tree z) addr ->
    first_match (zone_enabled st discarded pol) (fun z r => network_match (tree z) label addr pol r /\ p_type r = type)
         (fun z => no_network (tree z) addr) zones o ->
    first_match (zone_enabled st discarded pol) (fun z r => network_match (tree z) label addr pol r /\ p_type r = type)
         (fun z => no_network (tree z) addr) (z :: zones) o) as Hskip.
  { intros o Hmiss Hm. destruct o as [r|].
    - destruct Hm as (zs1 & z1 & zs2 & -> & He & [Hh1 Hh2] & Hno). exists (z :: zs1), z1, zs2. split_and!; [done..|].
      intros z' [-> |Hin]%elem_of_cons; [intros He'; destruct Hmiss; [congruence|done]|by apply Hno].
    - intros z' [-> |Hin]%elem_of_cons; [intros He'; destruct Hmiss; [congruence|done]|by apply Hm]. }
  case_bool_decide as Hd.
  - destruct IH as (o & -> & Hm). exists o. split; [done|]. apply Hskip; [|done]. left. unfold zone_enabled. by rewrite (bool_decide_eq_true_2 _ Hd), andb_false_r.
  - rewrite Hfind. destruct (find_address_spec type (tree z) label addr pol (Htree z Hz) Ha Hlabel) as (o & -> & Ho). cbn [mbind result_bind]. destruct o as [r|].
    + eexists. split; [done|]. destruct Ho as [Ho1 Ho2]. exists [], z, zones. split_and!; [done| |done|done|by intros ? ?%elem_of_nil]. unfold zone_enabled. by rewrite Hp, (bool_decide_eq_false_2 _ Hd).
    + destruct IH as (o & -> & Hm). exists o. split; [done|]. apply Hskip; [by right|done].
Qed.
End address_search.

Definition client_match (addr : ComboAddress) pol z r : Prop := network_match (d_qpolAddr z) rpzClientIPName addr pol r /\ p_type r = PolicyType.ClientIP.

(** the policy for the address of a client comes from the first zone, in the order
    of priority, before that of the current policy and not discarded, with a network
    that has the address, and is that of the smallest such network. *)
Theorem getClientPolicy_exact st zones addr discarded pol :
  Forall zone_ok zones -> ordered st zones -> ca_ok addr ->
  exists o, getClientPolicy st (map Some zones) addr discarded pol = Ok o
    /\ first_match (zone_enabled st discarded pol) (client_match addr pol) (fun z => no_network (d_qpolAddr z) addr) zones o.
Proof. apply address_policy_spec; [done|apply zo_client|by_decide]. Qed.

(** Likewise for the address of a name server. *)
Lemma getProcessingPolicy_address_exact st zones addr discarded pol :
  Forall zone_ok zones -> ordered st zones -> ca_ok addr ->
  exists o, getProcessingPolicy_address st (map Some zones) addr discarded pol = Ok o
    /\ first_match (zone_enabled st discarded pol) (fun z r => network_match (d_propolNSAddr z) rpzNSIPName addr pol r /\ p_type r = PolicyType.NSIP)
         (fun z => no_network (d_propolNSAddr z) addr) zones o.
Proof. apply address_policy_spec; [done|apply zo_nsip|by_decide]. Qed.

(** The address of a record the engine looks up in an answer. *)
Definition answer_address (r : record) : option ComboAddress :=
  if bool_decide (rr_place r = ANSWER) && ((rr_type r =? QType.A) || (rr_type r =? QType.AAAA)) then Some (default ca_default (rc_getCA (rr_content r))) else None.

Definition response_match (addr : ComboAddress) pol z r : Prop := network_match (d_postpolAddr z) rpzIPName addr pol r /\ p_type r = PolicyType.ResponseIP.

Lemma getPostPolicy_record_exact st zones rec discarded pol :
  Forall zone_ok zones -> ordered st zones -> (forall addr, answer_address rec = Some addr -> ca_ok addr) ->
  exists o, getPostPolicy_record st (map Some zones) rec discarded pol = Ok o
    /\ match answer_address rec with
       | None => o = None
       | Some addr => first_match (zone_enabled st discarded pol) (response_match addr pol) (fun z => no_network (d_postpolAddr z) addr) zones o
       end.
Proof.
  intros Hz Hs Ha. unfold getPostPolicy_record, answer_address in *. case_bool_decide as Hp; cbn [negb andb] in *; [|by exists None].
  destruct ((rr_type rec =? QType.A) || (rr_type rec =? QType.AAAA)); [|by exists None].
  apply address_policy_spec; [done|apply zo_response|by_decide|done|done|by apply Ha].
Qed.

(** The policy for an answer is that of its first record with one. *)
Lemma getPostPolicy_exact st zones records discarded pol :
  Forall zone_ok zones -> ordered st zones -> (forall rec addr, rec ∈ records -> answer_address rec = Some addr -> ca_ok addr) ->
  exists o, getPostPolicy st (map Some zones) records discarded pol = Ok o
    /\ match o with
       | None => forall rec addr z, rec ∈ records -> answer_address rec = Some addr -> z ∈ zones -> zone_enabled st discarded pol z = true ->
           no_network (d_postpolAddr z) addr
       | Some r => exists rs1 rec rs2 addr, records = rs1 ++ rec :: rs2 /\ answer_address rec = Some addr
           /\ first_match (zone_enabled st discarded pol) (response_match addr pol) (fun z => no_network (d_postpolAddr z) addr) zones (Some r)
           /\ forall rec' addr z, rec' ∈ rs1 -> answer_address rec' = Some addr -> z ∈ zones -> zone_enabled st discarded pol z = true ->
                no_network (d_postpolAddr z) addr
       end.
Proof.
  intros Hz Hs Ha. induction records as [|rec records IH]; [exists None; split; [done|]; by intros ??? ?%elem_of_nil|]. cbn [getPostPolicy].
  destruct (getPostPolicy_record_exact st zones rec discarded pol Hz Hs) as (o & -> & Ho); [intros addr; apply Ha; set_solver|]. cbn [mbind result_bind].
  destruct o as [r|].
  - destruct (answer_address rec) as [addr|] eqn:Hr; [|done]. eexists. split; [done|]. exists [], rec, records, addr. split_and!; [done..|by intros ??? ?%elem_of_nil].
  - assert (forall addr z, answer_address rec = Some addr -> z ∈ zones -> zone_enabled st discarded pol z = true -> no_network (d_postpolAddr z) addr) as Hrec.
    { intros addr z E. rewrite E in Ho. apply Ho. }
    destruct IH as (o & -> & IH); [intros; eapply Ha; [by right|done]|]. exists o. split; [done|]. destruct o as [r|].
    + destruct IH as (rs1 & rec' & rs2 & addr & -> & E & Hm & Hno). exists (rec :: rs1), rec', rs2, addr. split_and!; [done..|].
      intros ??? [-> |Hin]%elem_of_cons; [apply Hrec|by apply Hno].
    + intros ??? [-> |Hin]%elem_of_cons; [apply Hrec|by apply IH].
Qed.
End lookups.
