(* ===== verification/RpzTriggers.v ===== *)
(** * Adding and removing triggers

    Triggers by name and by network are kept in different containers, and each
    operation on one of them is the same operation on the policy at one place. *)

From Stdlib Require Import Sorted.
From stdpp Require Import gmap.
From S2P Require Import Prelude Chars Dns Names NamesFacts NamesText NamesOrder NamesSpec Denial DenialFacts Validate IpUtils IpText.
From S2P Require Import NetTree NetTreeFacts NetTreeSpec NetGroups NameIndex Rpz RpzEngine RpzLoader RpzFacts RpzNetmasks RpzLookups.

#[local] Open Scope Z_scope.

Section triggers.
Context {RC : Type} `{HRC : !RecordContents RC}.
#[local] Abbreviation policy := (Policy RC).
#[local] Abbreviation zone := (Zone RC).
#[local] Abbreviation store := (list (PolicyZoneData RC)).
#[local] Abbreviation record := (PolicyRecord RC).
#[local] Abbreviation polmap := (list (DNSName * Policy RC)).
#[local] Abbreviation poltree := (NetmaskTree Netmask (Policy RC)).

Implicit Types (m : polmap) (z : zone) (pol p existing : policy) (st : store) (t : poltree) (data : PolicyZoneData RC).

(** ** The policy at one place *)

(** What an addition makes of the policy at its place; [None] is the exception for a
    duplicate. *)
Definition add_at data (i : nat) (ptype : PolicyType.t) pol (ignoreDuplicate : bool) (o : option policy) : option policy :=
  match o with
  | Some existing =>
      match on_duplicate (zd_ignoreDuplicates data) existing pol ignoreDuplicate with
      | DupAdd => Some (addCustom existing pol)
      | DupIgnore => Some existing
      | DupThrow => None
      end
  | None => Some (in_zone i ptype pol)
  end.

(** What a removal leaves, and its answer. *)
Definition remove_at pol (o : option policy) : option policy * bool :=
  match o with Some existing => remove_policy existing pol | None => (None, false) end.

Lemma add_at_type data i ptype pol dup o p : (forall q, o = Some q -> p_type q = ptype) -> add_at data i ptype pol dup o = Some p -> p_type p = ptype.
Proof.
  intros Ho. unfold add_at. destruct o as [q|]; [|by intros [= <-]]. specialize (Ho q eq_refl).
  destruct (on_duplicate _ _ _ _); [by intros [= <-]..|done].
Qed.

Lemma remove_policy_type existing pol p b : remove_policy existing pol = (Some p, b) -> p_type p = p_type existing.
Proof.
  unfold remove_policy. case_match; [done|]. destruct (p_custom pol) as [c|], (p_custom existing) as [d|]; [destruct (remove_customs c d false) as [c' b']|..];
    (case_match; [done|]); by intros [= <- _].
Qed.

(** ** Triggers by name *)

Lemma get_policy_cons n p m k : get_policy ((n, p) :: m) k = if bool_decide (nkey n = k) then Some p else get_policy m k.
Proof. unfold get_policy. cbn [List.find fst]. by case_bool_decide. Qed.

Lemma get_policy_app m m' k : get_policy (m ++ m') k = match get_policy m k with Some p => Some p | None => get_policy m' k end.
Proof. induction m as [|[n p] m IH]; [done|]. cbn [app]. rewrite !get_policy_cons. by case_bool_decide. Qed.

Lemma get_policy_none m k : get_policy m k = None <-> k ∉ map (fun e => nkey e.1) m.
Proof.
  induction m as [|[n p] m IH]; [by split; [intros _ ?%elem_of_nil|]|]. rewrite get_policy_cons. cbn [map fst]. rewrite not_elem_of_cons.
  case_bool_decide as Hk; [split; [done|by intros [? _]]|]. rewrite IH. split; [by split; [congruence|]|by intros [_ ?]].
Qed.

Lemma put_policy_map n p m : Forall (fun e => named e.1) m -> named n ->
  put_policy n p m = map (fun e => (e.1, if bool_decide (nkey e.1 = nkey n) then p else e.2)) m.
Proof.
  intros Hm Hn. unfold put_policy. induction Hm as [|[k q] m Hk Hm IH]; [done|]. cbn [map fst snd] in *. rewrite IH. f_equal. f_equal.
  rewrite (proj2 (Bool.eq_iff_eq_true (name_eqb k n) (bool_decide (nkey k = nkey n)))); [done|]. rewrite bool_decide_eq_true. by apply name_eqb_key.
Qed.

Lemma erase_policy_filter n m : Forall (fun e => named e.1) m -> named n ->
  erase_policy n m = List.filter (fun e => negb (bool_decide (nkey e.1 = nkey n))) m.
Proof.
  intros Hm Hn. unfold erase_policy. induction Hm as [|[k q] m Hk Hm IH]; [done|]. cbn [List.filter fst snd] in *. rewrite IH.
  rewrite (proj2 (Bool.eq_iff_eq_true (name_eqb k n) (bool_decide (nkey k = nkey n)))); [done|]. rewrite bool_decide_eq_true. by apply name_eqb_key.
Qed.

Lemma put_policy_ok type n p m : polmap_ok type m -> named n -> p_type p = type -> is_Some (get_policy m (nkey n)) ->
  polmap_ok type (put_policy n p m) /\ forall k, get_policy (put_policy n p m) k = if decide (k = nkey n) then Some p else get_policy m k.
Proof.
  intros [[Hm Hu] Ht] Hn Hp [q Hq]. rewrite put_policy_map by done. split.
  - split; [split|].
    + apply Forall_fmap. eapply Forall_impl; [exact Hm|]. done.
    + rewrite map_map. exact Hu.
    + apply Forall_fmap. eapply Forall_impl; [exact Ht|]. intros e He. cbn. by case_bool_decide.
  - intros k. clear Hu Ht Hm. revert Hq. induction m as [|[a b] m IH]; [done|]. rewrite get_policy_cons. cbn [map fst snd]. rewrite !get_policy_cons.
    destruct (bool_decide_reflect (nkey a = nkey n)) as [Ha|Ha].
    + intros _. rewrite Ha. destruct (decide (k = nkey n)) as [->|Hk]; [by rewrite bool_decide_eq_true_2|].
      rewrite bool_decide_eq_false_2 by congruence. clear IH. induction m as [|[c d] m IH]; [done|]. cbn [map fst snd]. rewrite !get_policy_cons.
      case_bool_decide as Hc; [|done]. by rewrite bool_decide_eq_false_2 by congruence.
    + intros Hq'. rewrite IH by done. destruct (decide (k = nkey n)) as [->|Hk]; [by rewrite bool_decide_eq_false_2|done].
Qed.

Lemma erase_policy_ok type n m : polmap_ok type m -> named n ->
  polmap_ok type (erase_policy n m) /\ forall k, get_policy (erase_policy n m) k = if decide (k = nkey n) then None else get_policy m k.
Proof.
  intros [[Hm Hu] Ht] Hn. rewrite erase_policy_filter by done. split.
  - split; [split|].
    + rewrite Forall_forall in *. intros e [He _]%list_elem_of_In%filter_In. by apply Hm, list_elem_of_In.
    + clear Ht Hm. induction m as [|e m IH]; [constructor|]. cbn [map] in Hu. apply NoDup_cons in Hu as [Hne Hu]. cbn [List.filter].
      destruct (negb _); [|by apply IH]. cbn [map]. apply NoDup_cons. split; [|by apply IH]. intros Hin. apply Hne.
      apply list_elem_of_fmap in Hin as (x & -> & [Hx _]%list_elem_of_In%filter_In). apply list_elem_of_fmap. exists x. split; [done|by apply list_elem_of_In].
    + rewrite Forall_forall in *. intros e [He _]%list_elem_of_In%filter_In. by apply Ht, list_elem_of_In.
  - intros k. clear Hu Ht Hm. induction m as [|[a b] m IH]; [by case_match|]. cbn [List.filter fst]. destruct (bool_decide_reflect (nkey a = nkey n)) as [Ha|Ha]; cbn [negb].
    + rewrite IH, get_policy_cons, Ha. destruct (decide (k = nkey n)) as [->|Hk]; [done|]. by rewrite bool_decide_eq_false_2 by congruence.
    + rewrite !get_policy_cons, IH. case_bool_decide as Hk; [|done]. by rewrite decide_False by congruence.
Qed.

(** The policies of [m'] are those of [m], with [o] at [k]. *)
Definition names_altered m m' (k : key) (o : option policy) : Prop := forall k', get_policy m' k' = if decide (k' = k) then o else get_policy m k'.

Lemma find_policy_some m n : Forall (fun e => named e.1) m -> named n ->
  match find_policy m n with Some (_, p) => get_policy m (nkey n) = Some p | None => get_policy m (nkey n) = None end.
Proof. intros Hm Hn. rewrite <- find_policy_get by done. by destruct (find_policy m n) as [[? ?]|]. Qed.

Lemma names_altered_same type m n o : polmap_ok type m -> get_policy m n = o -> names_altered m m n o.
Proof. intros _ <- k. by case_decide as E; [rewrite E|]. Qed.

(** Adding a trigger by name is [add_at] at the name, or the exception. *)
Lemma addNameTrigger_refines data i m n pol dup type :
  polmap_ok type m -> named n ->
  match add_at data i type pol dup (get_policy m (nkey n)) with
  | None => addNameTrigger data i m n pol dup type = Throw duplicate_name
  | Some p => exists m', addNameTrigger data i m n pol dup type = Ok m' /\ polmap_ok type m' /\ names_altered m m' (nkey n) (Some p)
  end.
Proof.
  intros Hm Hn. pose proof Hm as [[Hnm Hu] Ht]. pose proof (find_policy_some m n Hnm Hn) as Hf. unfold addNameTrigger.
  destruct (find_policy m n) as [[k existing]|]; rewrite Hf; cbn [add_at].
  - pose proof (get_policy_type _ _ _ _ Hm Hf) as Hty. destruct (on_duplicate _ _ _ _); [..|done]; eexists.
    + split; [done|]. apply put_policy_ok; [done..|by eexists].
    + split; [done|]. split; [done|]. by eapply names_altered_same.
  - eexists. split; [done|]. split.
    + split; [split|]; [apply Forall_app; by split; [|constructor]| |apply Forall_app; split; [done|by constructor]].
      rewrite map_app. apply NoDup_app. split_and!; [done| |apply NoDup_singleton]. intros k Hk Hin. cbn in Hin. apply list_elem_of_singleton in Hin as ->.
      by apply get_policy_none in Hf.
    + intros k. rewrite get_policy_app, get_policy_cons. case_decide as E; [subst k; rewrite Hf; by rewrite bool_decide_eq_true_2|].
      destruct (get_policy m k); [done|]. by rewrite bool_decide_eq_false_2 by congruence.
Qed.

(** Removing one is [remove_at]. *)
Lemma rmNameTrigger_refines m n pol type :
  polmap_ok type m -> named n ->
  exists m', rmNameTrigger m n pol = (m', snd (remove_at pol (get_policy m (nkey n)))) /\ polmap_ok type m'
    /\ names_altered m m' (nkey n) (fst (remove_at pol (get_policy m (nkey n)))).
Proof.
  intros Hm Hn. pose proof Hm as [[Hnm Hu] Ht]. pose proof (find_policy_some m n Hnm Hn) as Hf. unfold rmNameTrigger.
  destruct (find_policy m n) as [[k existing]|]; rewrite Hf; cbn [remove_at fst snd].
  - pose proof (get_policy_type _ _ _ _ Hm Hf) as Hty. destruct (remove_policy existing pol) as [[rest|] b] eqn:Hr; eexists; (split; [done|]).
    + apply put_policy_ok; [done..| |by eexists]. by rewrite (remove_policy_type _ _ _ _ Hr).
    + by apply erase_policy_ok.
  - eexists. split; [done|]. split; [done|]. by eapply names_altered_same.
Qed.

(** ** Triggers by network *)

Lemma lookup_stored t n p : tree_ok t -> nm_ok n -> tree_map t !! n = Some p -> tree_lookup_key policy_default n t = Ok (Some (n, p)).
Proof.
  intros Ht Hn Hp. destruct (tree_lookup_best_match policy_default n t Ht Hn) as (o & -> & Ho). destruct o as [[k v]|].
  - destruct Ho as (Hk & [Hf Hpre] & Hmax). pose proof (tree_map_ok _ _ _ Ht Hk) as Hkok.
    assert (k = n) as ->; [|congruence]. apply key_ok_ext; [done..|]. specialize (Hmax n ltac:(by eexists) ltac:(done)).
    destruct Hpre as [s Hs]. rewrite Hs in Hmax. rewrite length_app in Hmax. destruct s; [by rewrite Hs, app_nil_r|cbn in Hmax; lia].
  - exfalso. by apply (Ho n); [eexists|].
Qed.

Lemma has_key_spec t n : tree_ok t -> nm_ok n -> has_key policy_default n t = Ok (bool_decide (is_Some (tree_map t !! n))).
Proof.
  intros Ht Hn. unfold has_key. destruct (tree_map t !! n) as [p|] eqn:Hp.
  - rewrite (lookup_stored _ _ _ Ht Hn Hp). cbn [mbind result_bind]. rewrite bool_decide_eq_true_2 by eauto. f_equal. by apply key_ok_eqb.
  - destruct (tree_lookup_best_match policy_default n t Ht Hn) as (o & -> & Ho). cbn [mbind result_bind]. rewrite bool_decide_eq_false_2 by (by intros [? ?]).
    f_equal. destruct o as [[k v]|]; [|done]. apply not_true_iff_false. destruct Ho as (Hk & _). intros He%key_ok_eqb; [congruence| |done]. by eapply tree_map_ok.
Qed.

Lemma policy_at_spec t n p : tree_ok t -> nm_ok n -> tree_map t !! n = Some p -> policy_at t n = Ok p.
Proof. intros Ht Hn Hp. unfold policy_at. by rewrite (lookup_stored _ _ _ Ht Hn Hp). Qed.

(** The policies of [t'] are those of [t], with [o] at [n]. *)
Definition networks_altered t t' (n : Netmask) (o : option policy) : Prop := tree_map t' = partial_alter (fun _ => o) n (tree_map t).

Lemma assign_ok type t n p : poltree_ok type t -> nm_ok n -> p_type p = type ->
  exists t', insert_or_assign policy_default n p t = Ok t' /\ poltree_ok type t' /\ networks_altered t t' n (Some p).
Proof.
  intros [Ht Hty] Hn Hp. destruct (insert_or_assign_refines policy_default n p t Ht Hn) as (t' & Hi & Ht' & Hm). exists t'. split; [done|]. split; [|done].
  split; [done|]. rewrite Hm. by apply map_Forall_insert_2.
Qed.

Lemma networks_altered_same t n o : tree_map t !! n = o -> networks_altered t t n o.
Proof. intros <-. unfold networks_altered. symmetry. by apply partial_alter_self. Qed.

Lemma addNetmaskTrigger_refines data i t n pol dup type :
  poltree_ok type t -> nm_ok n ->
  match add_at data i type pol dup (tree_map t !! n) with
  | None => addNetmaskTrigger data i t n pol dup type = Throw duplicate_netmask
  | Some p => exists t', addNetmaskTrigger data i t n pol dup type = Ok t' /\ poltree_ok type t' /\ networks_altered t t' n (Some p)
  end.
Proof.
  intros Ht Hn. pose proof Ht as [Hok Hty]. unfold addNetmaskTrigger. rewrite has_key_spec by done. cbn [mbind result_bind].
  destruct (tree_map t !! n) as [existing|] eqn:Hp; cbn [add_at].
  - rewrite bool_decide_eq_true_2 by eauto. rewrite (policy_at_spec _ _ _ Hok Hn Hp). cbn [mbind result_bind].
    destruct (on_duplicate _ _ _ _); [|eexists; split; [done|]; split; [done|by apply networks_altered_same]|done].
    apply assign_ok; [done..|]. exact (Hty n existing Hp).
  - rewrite bool_decide_eq_false_2 by (by intros [? ?]). by apply assign_ok.
Qed.

Lemma rmNetmaskTrigger_refines t n pol type :
  poltree_ok type t -> nm_ok n ->
  exists t', rmNetmaskTrigger t n pol = Ok (t', snd (remove_at pol (tree_map t !! n))) /\ poltree_ok type t'
    /\ networks_altered t t' n (fst (remove_at pol (tree_map t !! n))).
Proof.
  intros Ht Hn. pose proof Ht as [Hok Hty]. unfold rmNetmaskTrigger. rewrite has_key_spec by done. cbn [mbind result_bind].
  destruct (tree_map t !! n) as [existing|] eqn:Hp; cbn [remove_at fst snd].
  - rewrite bool_decide_eq_true_2 by eauto. cbn [negb]. rewrite (policy_at_spec _ _ _ Hok Hn Hp). cbn [mbind result_bind].
    destruct (remove_policy existing pol) as [[rest|] b] eqn:Hr; cbn [fst snd].
    + destruct (assign_ok type t n rest Ht Hn) as (t' & Ha & Hrest); [rewrite (remove_policy_type _ _ _ _ Hr); exact (Hty n existing Hp)|].
      unfold assign_at. rewrite Ha. eauto.
    + destruct (tree_erase_refines policy_default n t Hok Hn) as (t' & -> & Ht' & Hm); [by eexists|]. eexists. split; [done|]. split; [|done].
      split; [done|]. rewrite Hm. by apply map_Forall_delete.
  - rewrite bool_decide_eq_false_2 by (by intros [? ?]). eexists. split; [done|]. split; [done|]. by apply networks_altered_same.
Qed.
End triggers.
