(* ===== verification/RpzZones.v ===== *)
(** * Zones of triggers and their updates

    A record of a response policy zone changes the policy at one trigger; zones and the
    list of zones keep their invariants through additions, replacements and
    incremental updates. *)

From Stdlib Require Import Sorted.
From stdpp Require Import gmap.
From S2P Require Import Prelude Chars Dns Names NamesFacts NamesText NamesOrder NamesSpec Denial DenialFacts Validate IpUtils IpText.
From S2P Require Import NetTree NetTreeFacts NetTreeSpec NetGroups NameIndex Rpz RpzEngine RpzLoader RpzFacts RpzNetmasks RpzLookups RpzTriggers.

#[local] Open Scope Z_scope.

(** ** Triggers *)

(** What a policy is for: names by their key, networks. *)
Inductive Trigger : Type :=
| QNameTrigger (k : key)
| NSTrigger (k : key)
| ClientTrigger (n : Netmask)
| ResponseTrigger (n : Netmask)
| NSIPTrigger (n : Netmask).

#[export] Instance Trigger_eq_dec : EqDecision Trigger.
Proof. solve_decision. Defined.

Definition trigger_type (t : Trigger) : PolicyType.t :=
  match t with
  | QNameTrigger _ => PolicyType.QName
  | NSTrigger _ => PolicyType.NSDName
  | ClientTrigger _ => PolicyType.ClientIP
  | ResponseTrigger _ => PolicyType.ResponseIP
  | NSIPTrigger _ => PolicyType.NSIP
  end.

Definition trigger_ok (t : Trigger) : Prop :=
  match t with
  | QNameTrigger _ | NSTrigger _ => True
  | ClientTrigger n | ResponseTrigger n | NSIPTrigger n => nm_ok n
  end.

Definition trigger_exn (t : Trigger) : exn := match t with QNameTrigger _ | NSTrigger _ => duplicate_name | _ => duplicate_netmask end.

Lemma makeRelative_label name l pre :
  represents name (pre ++ [l]) -> forall l' zone, represents zone [l'] -> toLower l = toLower l' ->
  makeRelative name zone = Ok (mkDNSName (storage_of pre)) /\ represents (mkDNSName (storage_of pre)) pre.
Proof.
  intros Hr l' zone Hz He. split.
  - eapply makeRelative_represents; [done..|]. cbn. by rewrite He.
  - destruct Hr as (Hs & Hv & Hl). apply Forall_app in Hv as [Hv _]. split_and!; [done..|]. unfold s_maxDNSNameLength in *. rewrite storage_of_app, zlen_app in Hl.
    rewrite zlen_storage_of in *. rewrite zlen_enc_labels_cons in Hl. pose proof (zlen_nonneg l). pose proof (zlen_nonneg (enc_labels [])). lia.
Qed.

(** Below a zone of one label: the relative name has the rest of the key, and is
    shorter by the label. *)
Lemma makeRelative_below name zone l : named name -> represents zone [l] -> nkey zone `prefix_of` nkey name ->
  exists rel, makeRelative name zone = Ok rel /\ named rel /\ nkey rel = drop 1 (nkey name) /\ zlen (d_storage rel) + 1 + zlen l = zlen (d_storage name).
Proof.
  intros [ls Hr] Hz Hp. unfold nkey in *. rewrite (getRawLabels_represents _ _ Hr), (getRawLabels_represents _ _ Hz) in *.
  destruct ls as [|x pre _] using rev_ind; [by apply prefix_nil_inv in Hp|]. rewrite ckey_app in *. change (ckey [x]) with [toLower x] in *. change (ckey [l]) with [toLower l] in Hp.
  apply prefix_cons_inv_1 in Hp. destruct (makeRelative_label name x pre Hr l zone Hz) as [Hm Hrel]; [done|]. eexists. split; [done|]. split; [by eexists|].
  rewrite (getRawLabels_represents _ _ Hrel). split; [done|]. cbn [d_storage]. destruct Hr as (-> & _). rewrite storage_of_app, zlen_app, zlen_storage_of.
  rewrite zlen_storage_of, zlen_enc_labels_cons. change (zlen (enc_labels [])) with 0. apply (f_equal zlen) in Hp. rewrite !zlen_toLower in Hp. lia.
Qed.

Section zones.
Context {RC : Type} `{HRC : !RecordContents RC} `{HAP : !AddressParser}.
#[local] Abbreviation policy := (Policy RC).
#[local] Abbreviation zone := (Zone RC).
#[local] Abbreviation store := (list (PolicyZoneData RC)).
#[local] Abbreviation record := (PolicyRecord RC).

Implicit Types (z : zone) (pol p : policy) (st : store).

(** The trigger a name of a response policy zone stands for. *)
Definition trigger_of (name : DNSName) : result Trigger :=
  if bool_decide (nkey rpzNSDname `prefix_of` nkey name) then Ok (NSTrigger (drop 1 (nkey name)))
  else if bool_decide (nkey rpzClientIP `prefix_of` nkey name) then n ← makeRelative name rpzClientIP; n ← makeNetmaskFromRPZ n; Ok (ClientTrigger n)
  else if bool_decide (nkey rpzIP `prefix_of` nkey name) then n ← makeRelative name rpzIP; n ← makeNetmaskFromRPZ n; Ok (ResponseTrigger n)
  else if bool_decide (nkey rpzNSIP `prefix_of` nkey name) then n ← makeRelative name rpzNSIP; n ← makeNetmaskFromRPZ n; Ok (NSIPTrigger n)
  else Ok (QNameTrigger (nkey name)).

(** A zone as a map from triggers to policies. *)
Definition policy_for z (t : Trigger) : option policy :=
  match t with
  | QNameTrigger k => get_policy (d_qpolName z) k
  | NSTrigger k => get_policy (d_propolName z) k
  | ClientTrigger n => tree_map (d_qpolAddr z) !! n
  | ResponseTrigger n => tree_map (d_postpolAddr z) !! n
  | NSIPTrigger n => tree_map (d_propolNSAddr z) !! n
  end.

(** [z'] is [z] with the policy [o] at the trigger [t]. *)
Record altered z z' (t : Trigger) (o : option policy) : Prop := {
  al_ok : zone_ok z';
  al_policies : forall t', policy_for z' t' = if decide (t' = t) then o else policy_for z t';
  al_same : (z_domain z', z_data z', z_serial z', z_refresh z') = (z_domain z, z_data z, z_serial z, z_refresh z);
}.

Lemma named_label l : valid_label l -> represents (mkDNSName (storage_of [l])) [l].
Proof.
  intros Hl. split_and!; [done|by constructor|]. unfold s_maxDNSNameLength. rewrite zlen_storage_of_cons. change (zlen (storage_of [])) with 1. destruct Hl as [[_ ?] _]. lia.
Qed.

(** The name of the policies, when they are for a query name. *)
Definition affected (name : DNSName) (t : Trigger) : option DNSName := match t with QNameTrigger _ => Some name | _ => None end.

(** What a record does to a zone. *)
Definition applied (add : bool) st z (t : Trigger) pol (dup : bool) (name : DNSName) (res : result (zone * option DNSName)) : Prop :=
  if add then
    match add_at (data_at st (z_data z)) (z_data z) (trigger_type t) pol dup (policy_for z t) with
    | None => res = Throw (trigger_exn t)
    | Some p => exists z', res = Ok (z', affected name t) /\ altered z z' t (Some p)
    end
  else exists z', res = Ok (z', affected name t) /\ altered z z' t (fst (remove_at pol (policy_for z t))).

(** *** One lemma for each kind of trigger *)

Lemma altered_qname z m' k o : zone_ok z -> polmap_ok PolicyType.QName m' -> names_altered (d_qpolName z) m' k o ->
  altered z (set_qpolName m' z) (QNameTrigger k) o.
Proof.
  intros Hz Hm Ha. split; [by split; try apply Hz| |done]. intros [?|?|?|?|?]; cbn [policy_for set_qpolName d_qpolName d_propolName d_qpolAddr d_postpolAddr d_propolNSAddr];
    [|by rewrite decide_False..]. rewrite Ha. by repeat case_decide; simplify_eq.
Qed.

Lemma short_altered (m m' : list (DNSName * policy)) n o :
  polmap_ok PolicyType.NSDName m -> polmap_ok PolicyType.NSDName m' -> names_altered m m' (nkey n) o -> Forall (fun e => short_name e.1) m ->
  named n -> short_name n -> Forall (fun e => short_name e.1) m'.
Proof.
  intros Hm Hm' Ha Hs Hn Hsn. rewrite Forall_forall in *. intros [n' p] Hin. cbn. destruct Hm' as [[Hnm _] _]. rewrite Forall_forall in Hnm.
  pose proof (Hnm (n', p) Hin) as Hn'. cbn in Hn'. destruct (decide (nkey n' = nkey n)) as [E|E]; [unfold short_name; by rewrite (nkey_length n' n)|].
  specialize (Ha (nkey n')). rewrite decide_False in Ha by done. destruct (get_policy m (nkey n')) as [q|] eqn:Hq.
  - apply get_policy_in in Hq as (x & Hx & Hk). destruct Hm as [[Hnm' _] _]. rewrite Forall_forall in Hnm'. specialize (Hnm' _ Hx). cbn in Hnm'.
    unfold short_name. rewrite <- (nkey_length x n') by done. exact (Hs _ Hx).
  - apply get_policy_none in Ha. destruct Ha. apply list_elem_of_fmap. by exists (n', p).
Qed.

Lemma altered_ns z m' n o : zone_ok z -> polmap_ok PolicyType.NSDName m' -> names_altered (d_propolName z) m' (nkey n) o -> named n -> short_name n ->
  altered z (set_propolName m' z) (NSTrigger (nkey n)) o.
Proof.
  intros Hz Hm Ha Hn Hs. split; [|
    |done].
  - split; try apply Hz; [done|]. eapply short_altered; [apply Hz|done|exact Ha|apply Hz|done|done].
  - intros [?|?|?|?|?]; cbn [policy_for set_propolName d_qpolName d_propolName d_qpolAddr d_postpolAddr d_propolNSAddr];
      [by rewrite decide_False|rewrite Ha; by repeat case_decide; simplify_eq|by rewrite decide_False..].
Qed.

Ltac altered_network Hz Ha :=
  split; [by split; try apply Hz| |done];
  intros [?|?|?|?|?]; cbn [policy_for set_qpolAddr set_postpolAddr set_propolNSAddr d_qpolName d_propolName d_qpolAddr d_postpolAddr d_propolNSAddr];
  try (by rewrite decide_False); unfold networks_altered in Ha; rewrite Ha;
  let E := fresh in case_decide as E; [injection E as ->; by rewrite lookup_partial_alter_eq|rewrite lookup_partial_alter_ne; [done|congruence]].

Lemma altered_client z t' n o : zone_ok z -> poltree_ok PolicyType.ClientIP t' -> networks_altered (d_qpolAddr z) t' n o ->
  altered z (set_qpolAddr t' z) (ClientTrigger n) o.
Proof. intros Hz Ht Ha. altered_network Hz Ha. Qed.

Lemma altered_response z t' n o : zone_ok z -> poltree_ok PolicyType.ResponseIP t' -> networks_altered (d_postpolAddr z) t' n o ->
  altered z (set_postpolAddr t' z) (ResponseTrigger n) o.
Proof. intros Hz Ht Ha. altered_network Hz Ha. Qed.

Lemma altered_nsip z t' n o : zone_ok z -> poltree_ok PolicyType.NSIP t' -> networks_altered (d_propolNSAddr z) t' n o ->
  altered z (set_propolNSAddr t' z) (NSIPTrigger n) o.
Proof. intros Hz Ht Ha. altered_network Hz Ha. Qed.

Lemma apply_qname (add : bool) st z name pol dup :
  zone_ok z -> named name ->
  applied add st z (QNameTrigger (nkey name)) pol dup name
    (z ← trigger_name add st PolicyType.QName name pol dup z; Ok (z, Some name)).
Proof.
  intros Hz Hn. unfold applied, trigger_name. cbn [trigger_type policy_for trigger_exn affected]. destruct add.
  - unfold addQNameTrigger. pose proof (addNameTrigger_refines (data_at st (z_data z)) (z_data z) (d_qpolName z) name pol dup PolicyType.QName (zo_qname z Hz) Hn) as Ha.
    destruct (add_at _ _ _ _ _ _) as [p|]; [|by rewrite Ha]. destruct Ha as (m' & -> & Hm' & Hal). eexists. split; [done|]. by apply altered_qname.
  - unfold rmQNameTrigger. destruct (rmNameTrigger_refines (d_qpolName z) name pol _ (zo_qname z Hz) Hn) as (m' & -> & Hm' & Hal).
    eexists. split; [done|]. by apply altered_qname.
Qed.

Lemma apply_ns (add : bool) st z name n pol dup :
  zone_ok z -> named n -> short_name n ->
  applied add st z (NSTrigger (nkey n)) pol dup name
    (z ← trigger_name add st PolicyType.NSDName n pol dup z; Ok (z, None)).
Proof.
  intros Hz Hn Hs. unfold applied, trigger_name. cbn [trigger_type policy_for trigger_exn affected]. destruct add.
  - unfold addNSTrigger. pose proof (addNameTrigger_refines (data_at st (z_data z)) (z_data z) (d_propolName z) n pol dup PolicyType.NSDName (zo_ns z Hz) Hn) as Ha.
    destruct (add_at _ _ _ _ _ _) as [p|]; [|by rewrite Ha]. destruct Ha as (m' & -> & Hm' & Hal). eexists. split; [done|]. by apply altered_ns.
  - unfold rmNSTrigger. destruct (rmNameTrigger_refines (d_propolName z) n pol _ (zo_ns z Hz) Hn) as (m' & -> & Hm' & Hal).
    eexists. split; [done|]. by apply altered_ns.
Qed.

(** The three kinds of networks. *)
Lemma apply_network (add : bool) st z name rel n pol dup which t :
  zone_ok z -> nm_ok n -> makeNetmaskFromRPZ rel = Ok n ->
  (which, t) ∈ [(PolicyType.ClientIP, ClientTrigger n); (PolicyType.ResponseIP, ResponseTrigger n); (PolicyType.NSIP, NSIPTrigger n)] ->
  applied add st z t pol dup name (z ← trigger_netmask add st which rel pol dup z; Ok (z, None)).
Proof.
  intros Hz Hn Hrel Hin. unfold applied, trigger_netmask. rewrite Hrel. cbn [mbind result_bind].
  rewrite !elem_of_cons, elem_of_nil in Hin. destruct Hin as [[= -> ->]|[[= -> ->]|[[= -> ->]|[]]]]; cbn [trigger_type policy_for trigger_exn affected]; destruct add.
  - unfold addClientTrigger. pose proof (addNetmaskTrigger_refines (data_at st (z_data z)) (z_data z) _ n pol dup _ (zo_client z Hz) Hn) as Ha.
    destruct (add_at _ _ _ _ _ _) as [p|]; [|by rewrite Ha]. destruct Ha as (m' & -> & Hm' & Hal). eexists. split; [done|]. by apply altered_client.
  - unfold rmClientTrigger. destruct (rmNetmaskTrigger_refines _ n pol _ (zo_client z Hz) Hn) as (m' & -> & Hm' & Hal). eexists. split; [done|]. by apply altered_client.
  - unfold addResponseTrigger. pose proof (addNetmaskTrigger_refines (data_at st (z_data z)) (z_data z) _ n pol dup _ (zo_response z Hz) Hn) as Ha.
    destruct (add_at _ _ _ _ _ _) as [p|]; [|by rewrite Ha]. destruct Ha as (m' & -> & Hm' & Hal). eexists. split; [done|]. by apply altered_response.
  - unfold rmResponseTrigger. destruct (rmNetmaskTrigger_refines _ n pol _ (zo_response z Hz) Hn) as (m' & -> & Hm' & Hal). eexists. split; [done|]. by apply altered_response.
  - unfold addNSIPTrigger. pose proof (addNetmaskTrigger_refines (data_at st (z_data z)) (z_data z) _ n pol dup _ (zo_nsip z Hz) Hn) as Ha.
    destruct (add_at _ _ _ _ _ _) as [p|]; [|by rewrite Ha]. destruct Ha as (m' & -> & Hm' & Hal). eexists. split; [done|]. by apply altered_nsip.
  - unfold rmNSIPTrigger. destruct (rmNetmaskTrigger_refines _ n pol _ (zo_nsip z Hz) Hn) as (m' & -> & Hm' & Hal). eexists. split; [done|]. by apply altered_nsip.
Qed.

Lemma special_names : represents rpzNSDname [bs "rpz-nsdname"] /\ represents rpzClientIP [bs "rpz-client-ip"] /\ represents rpzIP [bs "rpz-ip"]
  /\ represents rpzNSIP [bs "rpz-nsip"].
Proof. split_and!; by_decide. Qed.

(** The policy goes to the trigger of the name. *)
Lemma apply_policy_refines (add : bool) st z name pol dup :
  zone_ok z -> named name ->
  match trigger_of name with
  | Throw e => apply_policy add st name pol dup z = Throw e
  | Ok t => trigger_ok t -> applied add st z t pol dup name (apply_policy add st name pol dup z)
  end.
Proof.
  intros Hz Hn. destruct special_names as (Hns & Hcl & Hip & Hnsip). unfold trigger_of, apply_policy. rewrite !isPartOf_key by (done || by eexists).
  cbn [mbind result_bind]. case_bool_decide as H1.
  { intros _. destruct (makeRelative_below name rpzNSDname _ Hn Hns H1) as (rel & -> & Hrel & Hk & Hl). cbn [mbind result_bind]. rewrite <- Hk.
    apply apply_ns; [done..|]. unfold short_name. destruct Hn as [ls (Hst & _ & Hmax)]. rewrite <- Hst in Hmax. unfold s_maxDNSNameLength in Hmax. change (zlen (bs "rpz-nsdname")) with 11 in Hl. lia. }
  do 3 (case_bool_decide; [destruct (makeRelative name _) as [rel|e]; [|done]; cbn [mbind result_bind];
    destruct (makeNetmaskFromRPZ rel) as [n|e] eqn:Hm; cbn [mbind result_bind]; [|unfold trigger_netmask; by rewrite Hm];
    intros Hok; eapply apply_network; [done|exact Hok|done|set_solver]|]).
  intros _. by apply apply_qname.
Qed.

(** ** Records *)

(** What a record stands for: a trigger, its policy and whether it is the default one;
    [None] for a record that is passed over. *)
Definition read_record (r : record) (defpol : option policy) (defpolOverrideLocal : bool) (maxTTL : Z) : result (option (Trigger * policy * bool)) :=
  if negb (rr_class r =? QClass.IN) then Ok None
  else
    o ← record_policy r defpol defpolOverrideLocal;
    match o with
    | None => Ok None
    | Some (p, dflt) => t ← trigger_of (rr_name r); Ok (Some (t, policy_ttl r defpol dflt maxTTL p, dflt))
    end.

(** A legal name, and of a network that is in order if of a network. *)
Definition record_fine (r : record) : Prop := named (rr_name r) /\ forall t, trigger_of (rr_name r) = Ok t -> trigger_ok t.

Lemma record_refines (add : bool) st z (r : record) defpol defpolOverrideLocal maxTTL :
  zone_ok z -> record_fine r ->
  match read_record r defpol defpolOverrideLocal maxTTL with
  | Throw e => RPZRecordToPolicy st r add defpol defpolOverrideLocal maxTTL z = Throw e
  | Ok None => RPZRecordToPolicy st r add defpol defpolOverrideLocal maxTTL z = Ok (z, None)
  | Ok (Some (t, pol, dflt)) => applied add st z t pol dflt (rr_name r) (RPZRecordToPolicy st r add defpol defpolOverrideLocal maxTTL z)
  end.
Proof.
  intros Hz [Hn Hf]. unfold read_record, RPZRecordToPolicy. destruct (negb _); [done|]. destruct (record_policy r defpol defpolOverrideLocal) as [[[p dflt]|]|e]; [|done..].
  cbn [mbind result_bind]. pose proof (apply_policy_refines add st z (rr_name r) (policy_ttl r defpol dflt maxTTL p) dflt Hz Hn) as Ha.
  destruct (trigger_of (rr_name r)) as [t|e]; cbn [mbind result_bind]; [|done]. apply Ha, Hf. done.
Qed.

(** C29: a record of a response policy zone changes a zone at the one trigger its name
    stands for: there it adds its policy to the existing ones or takes it away, and an
    addition that clashes with another policy is an exception; all other policies and
    the invariant of the zone are kept. *)
Theorem RPZRecordToPolicy_refines (add : bool) st z (r : record) defpol defpolOverrideLocal maxTTL :
  zone_ok z -> record_fine r ->
  match read_record r defpol defpolOverrideLocal maxTTL with
  | Throw e => RPZRecordToPolicy st r add defpol defpolOverrideLocal maxTTL z = Throw e
  | Ok None => RPZRecordToPolicy st r add defpol defpolOverrideLocal maxTTL z = Ok (z, None)
  | Ok (Some (t, pol, dflt)) => applied add st z t pol dflt (rr_name r) (RPZRecordToPolicy st r add defpol defpolOverrideLocal maxTTL z)
  end.
Proof. apply record_refines. Qed.

Definition same_zone z z' : Prop := (z_domain z', z_data z', z_serial z', z_refresh z') = (z_domain z, z_data z, z_serial z, z_refresh z).

Lemma record_keeps_zone (add : bool) st z (r : record) defpol defpolOverrideLocal maxTTL z' n :
  zone_ok z -> record_fine r -> RPZRecordToPolicy st r add defpol defpolOverrideLocal maxTTL z = Ok (z', n) -> zone_ok z' /\ same_zone z z'.
Proof.
  intros Hz Hf H. assert (forall t pol dflt, applied add st z t pol dflt (rr_name r) (Ok (z', n)) -> zone_ok z' /\ same_zone z z') as Hap.
  { intros t pol dflt Ha. unfold applied in Ha. destruct add.
    - destruct (add_at _ _ _ _ _ _) as [p|]; [|done]. destruct Ha as (z1 & [= -> _] & [Hok _ Hs]). done.
    - destruct Ha as (z1 & [= -> _] & [Hok _ Hs]). done. }
  destruct Hf as [Hn Hf]. unfold RPZRecordToPolicy in H. destruct (negb _); [by injection H as -> _|].
  destruct (record_policy r defpol defpolOverrideLocal) as [[[p dflt]|]|e]; cbn [mbind result_bind] in H; [|by injection H as -> _|done].
  pose proof (apply_policy_refines add st z (rr_name r) (policy_ttl r defpol dflt maxTTL p) dflt Hz Hn) as Ha. rewrite H in Ha.
  destruct (trigger_of (rr_name r)) as [t|e]; [|done]. eapply Hap, Ha, Hf. done.
Qed.

(** ** Incremental updates *)

Section updates.
Context (st : store) (defpol : option policy) (defpolOverrideLocal : bool) (maxTTL : Z).

(** An update works on a zone in order, with the data and the domain of the copy. *)
Definition update_ok (i : nat) (domain : DNSName) (u : RPZUpdate (RC := RC)) : Prop := zone_ok (u_zone u) /\ z_data (u_zone u) = i /\ z_domain (u_zone u) = domain.

Lemma update_record_ok i domain add r u u' : update_ok i domain u -> record_fine r ->
  update_record st defpol defpolOverrideLocal maxTTL add r u = Ok u' -> update_ok i domain u' /\ u_soa u' = u_soa u.
Proof.
  intros (Hz & Hi & Hd) Hf H. unfold update_record in H. bind_inv H. destruct a as [z' n]. injection H as <-.
  destruct (record_keeps_zone _ _ _ _ _ _ _ _ _ Hz Hf E) as [Hz' [= Hd' Hi' _ _]]. cbn. split; [|done]. unfold update_ok. cbn. split_and!; congruence.
Qed.

Lemma update_remove_ok i domain l : forall u u', update_ok i domain u -> Forall record_fine l ->
  update_remove st defpol defpolOverrideLocal maxTTL l u = Ok u' -> update_ok i domain u'.
Proof.
  induction l as [|r l IH]; intros u u' Hu Hl H; cbn [update_remove] in H; [by injection H as <-|]. apply Forall_cons in Hl as [Hr Hl]. bind_inv H.
  apply (IH a u'); [|done|done]. revert E. repeat case_match; intros E; simplify_eq; try done. by eapply update_record_ok.
Qed.

Lemma update_add_ok i domain l : forall u u', update_ok i domain u -> Forall record_fine l ->
  update_add st defpol defpolOverrideLocal maxTTL l u = Ok u' -> update_ok i domain u'.
Proof.
  induction l as [|r l IH]; intros u u' Hu Hl H; cbn [update_add] in H; [by injection H as <-|]. apply Forall_cons in Hl as [Hr Hl]. bind_inv H.
  apply (IH a u'); [|done|done]. revert E. repeat case_match; intros E; simplify_eq; try done. by eapply update_record_ok.
Qed.

Lemma poltree_empty type t : poltree_ok type (tree_clear (policy_default (RC := RC)) t).
Proof. split; [apply tree_empty_ok|]. unfold tree_clear. rewrite tree_empty_map. apply map_Forall_empty. Qed.

Lemma zone_clear_ok z : zone_ok z -> zone_ok (zone_clear z).
Proof.
  intros Hz. assert (forall type, polmap_ok type ([] : list (DNSName * policy))) as Hnil by (intros; split; [split; constructor|constructor]).
  split; cbn; [done|done|constructor|by apply poltree_empty..].
Qed.

Lemma update_deltas_ok i domain deltas : forall u u', update_ok i domain u -> Forall (fun d => Forall record_fine d.1 /\ Forall record_fine d.2) deltas ->
  update_deltas st defpol defpolOverrideLocal maxTTL deltas u = Ok u' -> update_ok i domain u'.
Proof.
  induction deltas as [|[remove add] deltas IH]; intros u u' Hu Hd H; cbn [update_deltas] in H; [by injection H as <-|].
  apply Forall_cons in Hd as [[Hr Ha] Hd]. cbn in Hr, Ha. bind_inv H. bind_inv H. eapply IH; [|done|exact H].
  eapply update_add_ok; [|exact Ha|exact E0]. eapply update_remove_ok; [|exact Hr|exact E]. destruct remove; [|done]. destruct Hu as (Hz & Hi & Hdo).
  unfold update_ok. cbn. split_and!; [by apply zone_clear_ok|done|done].
Qed.
End updates.
End zones.
