(* ===== verification/RpzSpec.v ===== *)
(** * The list of zones over time

    The order of the zones, which the lookups rely on, is kept by additions,
    replacements and incremental updates; with what updates do not reach. *)

From Stdlib Require Import Sorted.
From stdpp Require Import gmap.
From S2P Require Import Prelude Chars Dns Names NamesFacts NamesText NamesOrder NamesSpec Denial DenialFacts Validate IpUtils IpText.
From S2P Require Import NetTree NetTreeFacts NetTreeSpec NetGroups NameIndex Rpz RpzEngine RpzLoader RpzFacts RpzNetmasks RpzLookups RpzTriggers RpzZones.

#[local] Open Scope Z_scope.

Section engine.
Context {RC : Type} `{HRC : !RecordContents RC} `{HAP : !AddressParser}.
#[local] Abbreviation policy := (Policy RC).
#[local] Abbreviation zone := (Zone RC).
#[local] Abbreviation zonedata := (PolicyZoneData RC).
#[local] Abbreviation store := (list (PolicyZoneData RC)).
#[local] Abbreviation record := (PolicyRecord RC).
#[local] Abbreviation update := (RPZUpdate (RC := RC)).

Implicit Types (z : zone) (zs : list zone) (pol p : policy) (st : store).

(** ** The invariant of the engine *)

(** All zones are in order, each has data of its own in the store, and its priority is
    its place in the list. *)
Record engine_ok st zs : Prop := {
  eo_zones : Forall zone_ok zs;
  eo_count : zlen zs <= 65536;
  eo_data : forall i z, zs !! i = Some z -> (z_data z < length st)%nat;
  eo_priority : forall i z, zs !! i = Some z -> z_getPriority st z = Z.of_nat i;
  eo_own : NoDup (map z_data zs);
}.

Lemma engine_ordered st zs : engine_ok st zs -> ordered st zs.
Proof.
  intros H. pose proof (eo_priority st zs H) as Hp. clear H. unfold ordered. assert (exists k, forall i z, zs !! i = Some z -> z_getPriority st z = k + Z.of_nat i) as (k & Hk)
    by (exists 0; auto). clear Hp. revert k Hk.
  induction zs as [|z zs IH]; intros k Hk; constructor.
  - apply (IH (k + 1)). intros i z' Hz. rewrite (Hk (S i) z') by done. lia.
  - rewrite Forall_forall. intros z' [i Hi]%list_elem_of_lookup. rewrite (Hk O z), (Hk (S i) z') by done. lia.
Qed.

Lemma data_at_app st l i : (i < length st)%nat -> data_at (st ++ l) i = data_at st i.
Proof. intros Hi. unfold data_at. by rewrite lookup_app_l. Qed.

Lemma data_at_new st d : data_at (st ++ [d]) (length st) = d.
Proof. unfold data_at. by rewrite lookup_app_r, Nat.sub_diag. Qed.

Lemma change_data_at (f : zonedata -> zonedata) z st i : (z_data z < length st)%nat ->
  data_at (change_data f z st) i = if decide (i = z_data z) then f (data_at st i) else data_at st i.
Proof.
  intros Hz. unfold change_data, data_at at 1. case_decide as E; [subst i; by rewrite list_lookup_insert_eq|]. by rewrite list_lookup_insert_ne.
Qed.

Lemma length_change_data (f : zonedata -> zonedata) z st : length (change_data f z st) = length st.
Proof. apply length_insert. Qed.

(** A zone whose data no zone of the list has. *)
Definition fresh_zone st zs z : Prop := zone_ok z /\ (z_data z < length st)%nat /\ z_data z ∉ map z_data zs.

Lemma setPriority_other st zs z i z' prio : fresh_zone st zs z -> zs !! i = Some z' -> z_getPriority (setPriority prio z st) z' = z_getPriority st z'.
Proof.
  intros (_ & Hl & Hf) Hz. unfold z_getPriority, setPriority. rewrite change_data_at by done. rewrite decide_False; [done|]. intros E. apply Hf. rewrite <- E.
  apply list_elem_of_fmap. exists z'. split; [done|]. by eapply list_elem_of_lookup_2.
Qed.

Lemma setPriority_self st z prio : (z_data z < length st)%nat -> z_getPriority (setPriority prio z st) z = prio.
Proof. intros Hl. unfold z_getPriority, setPriority. rewrite change_data_at by done. by rewrite decide_True. Qed.

(** A zone at a place of the list, or behind it. *)
Definition placed zs (i : nat) z : list zone := if (i <? length zs)%nat then <[i := z]> zs else zs ++ [z].

Lemma setZone_placed st zs i z : (i <= length zs)%nat -> setZone st (map Some zs) i (Some z) = (setPriority (u16 (Z.of_nat i)) z st, map Some (placed zs i z)).
Proof.
  intros Hi. unfold setZone, assureZones, placed. f_equal. rewrite length_map. destruct (Nat.ltb_spec i (length zs)).
  - rewrite (proj2 (Nat.leb_gt _ _)) by lia. symmetry. apply list_fmap_insert.
  - rewrite (proj2 (Nat.leb_le _ _)) by lia. assert (i = length zs) as -> by lia. replace (S (length zs) - length zs)%nat with 1%nat by lia. cbn [replicate].
    rewrite map_app. cbn [map]. rewrite <- (length_map Some zs). by rewrite insert_app_r_alt, Nat.sub_diag.
Qed.

Lemma placed_lookup zs i z j z' : (i <= length zs)%nat -> placed zs i z !! j = Some z' -> (j = i /\ z' = z) \/ (j <> i /\ zs !! j = Some z').
Proof.
  intros Hi. unfold placed. destruct (Nat.ltb_spec i (length zs)).
  - intros [(-> & <- & _)|[? ?]]%list_lookup_insert_Some; [by left|by right].
  - assert (i = length zs) as -> by lia. intros [?|[? ?]]%lookup_app_Some; [right; split; [|done]; apply lookup_lt_Some in H0; lia|].
    destruct (j - length zs)%nat eqn:E; [|done]. left. split; [lia|]. by cbn in *; simplify_eq.
Qed.

Lemma NoDup_insert_fresh (l : list nat) i x : NoDup l -> x ∉ l -> NoDup (<[i := x]> l).
Proof.
  intros Hl Hx. destruct (decide (i < length l)%nat) as [Hi|Hi]; [|by rewrite list_insert_ge by lia].
  apply NoDup_alt. intros a b y Ha Hb. apply list_lookup_insert_Some in Ha as [(<- & <- & _)|[? Ha]], Hb as [(<- & E & _)|[? Hb]]; try done.
  - destruct Hx. by eapply list_elem_of_lookup_2.
  - destruct Hx. subst y. by eapply list_elem_of_lookup_2.
  - by eapply NoDup_lookup.
Qed.

Lemma placed_engine st zs i z : engine_ok st zs -> fresh_zone st zs z -> (i <= length zs)%nat -> Z.of_nat i < 65536 ->
  engine_ok (setPriority (u16 (Z.of_nat i)) z st) (placed zs i z).
Proof.
  intros [Hz Hc Hd Hp Ho] Hf Hi Hmax. pose proof Hf as (Hok & Hl & Hnew). split.
  - rewrite Forall_lookup in *. intros j z' [[-> ->]|[? Hj]]%placed_lookup; [done|by eapply Hz|done].
  - unfold placed. destruct (Nat.ltb_spec i (length zs)); unfold zlen in *; [by rewrite length_insert|]. rewrite length_app. cbn. lia.
  - intros j z' Hj. unfold setPriority. rewrite length_change_data. apply placed_lookup in Hj as [[-> ->]|[? Hj]]; [done|by eapply Hd|done].
  - intros j z' Hj. apply placed_lookup in Hj as [[-> ->]|[? Hj]]; [|by rewrite (setPriority_other st zs z j z') by done; apply Hp|done].
    rewrite setPriority_self by done. unfold u16; apply Z.mod_small. lia.
  - unfold placed. destruct (Nat.ltb_spec i (length zs)).
    + rewrite list_fmap_insert. by apply NoDup_insert_fresh.
    + rewrite map_app. apply NoDup_app. split_and!; [done| |apply NoDup_singleton]. intros x Hx Hin. apply list_elem_of_singleton in Hin as ->. done.
Qed.

(** ** Incremental updates *)

Lemma copy_poltree type t : poltree_ok (RC := RC) type t -> exists t', copyTree policy_default t = Ok t' /\ poltree_ok type t' /\ tree_map t' = tree_map t.
Proof.
  intros [Ht Hty]. destruct (copyTree_same_map policy_default t Ht) as (t' & Hc & Ht' & Hm). exists t'. split; [done|]. split; [|done]. split; [done|]. by rewrite Hm.
Qed.

(** A copy has the same policies and new data with the same contents. *)
Lemma zone_copy_spec st z : zone_ok z ->
  exists z', zone_copy st z = Ok (st ++ [data_at st (z_data z)], z') /\ zone_ok z' /\ z_data z' = length st
    /\ (forall t, policy_for z' t = policy_for z t) /\ z_domain z' = z_domain z.
Proof.
  intros Hz. unfold zone_copy. destruct (copy_poltree _ _ (zo_client z Hz)) as (qa & -> & Hqa & Eq). destruct (copy_poltree _ _ (zo_nsip z Hz)) as (na & -> & Hna & En).
  destruct (copy_poltree _ _ (zo_response z Hz)) as (pa & -> & Hpa & Ep). cbn [mbind result_bind]. eexists. split; [done|]. split_and!; [|done| |done].
  - split; try apply Hz; done.
  - intros [?|?|?|?|?]; cbn [policy_for d_qpolName d_propolName d_qpolAddr d_postpolAddr d_propolNSAddr]; congruence.
Qed.

Definition delta_fine (d : list record * list record) : Prop := Forall record_fine d.1 /\ Forall record_fine d.2.

(** What an update makes of store and zones: the old data stays as it was, and one zone
    is replaced by one with new data. *)
Lemma apply_update_spec st zs idx name deltas soa serial refresh defpol ovr maxTTL st' zones' (u : update) :
  engine_ok st zs -> Forall delta_fine deltas -> apply_update st (map Some zs) idx name deltas soa serial refresh defpol ovr maxTTL = Ok (Some (st', zones', u)) ->
  exists z z' d', zs !! idx = Some z /\ zone_ok z' /\ z_data z' = length st /\ z_domain z' = z_domain z /\ z_serial z' = u_serial u /\ z_refresh z' = u_refresh u
    /\ (forall t, policy_for z' t = policy_for (u_zone u) t)
    /\ zones' = map Some (<[idx := z']> zs) /\ st' = st ++ [d'] /\ zd_soa d' = Some (u_soa u) /\ zd_priority d' = Z.of_nat idx
    /\ zd_name d' = zd_name (data_at st (z_data z)).
Proof.
  intros He Hd H. unfold apply_update, getZone in H. rewrite list_lookup_fmap in H. destruct (zs !! idx) as [z|] eqn:Hz; [|done]. cbn [fmap option_fmap option_map default] in H.
  unfold from_option, id in H. destruct (negb (name_eqb (z_domain z) name)); [done|].
  pose proof (eo_zones st zs He) as Hzs. rewrite Forall_lookup in Hzs. destruct (zone_copy_spec st z (Hzs _ _ Hz)) as (zc & Hc & Hzc & Hdc & _ & Hdom). rewrite Hc in H.
  cbn [mbind result_bind] in H. bind_inv H.
  assert (update_ok (length st) (z_domain z) a) as (Hzu & Hi & Hdu) by (eapply update_deltas_ok; [|exact Hd|exact E]; unfold update_ok; by cbn).
  assert (idx < length zs)%nat as Hlen by (by eapply lookup_lt_Some). rewrite setZone_placed in H by lia. injection H as <- <- <-.
  unfold placed. rewrite (proj2 (Nat.ltb_lt _ _)) by done. eexists z, (setRefresh (u_refresh a) (setSerial (u_serial a) (u_zone a))), _. split; [done|]. split; [|split_and!; [exact Hi|exact Hdu|done|done| |done|..]].
  - split; apply Hzu.
  - by intros [?|?|?|?|?].
  - unfold setPriority, z_setSOA, change_data. cbn [z_data setRefresh setSerial]. rewrite Hi. rewrite list_insert_insert_eq.
    rewrite insert_app_r_alt, Nat.sub_diag by done. cbn. done.
  - cbn. unfold data_at. rewrite list_lookup_insert_eq; [done|rewrite length_app; cbn; lia].
  - cbn. unfold u16; apply Z.mod_small. pose proof (eo_count st zs He) as Hcount. unfold zlen in Hcount. lia.
  - cbn. unfold data_at. rewrite list_lookup_insert_eq by (rewrite length_app; cbn; lia). cbn [default from_option with_data_name zd_name]. rewrite lookup_app_r, Nat.sub_diag by lia. done.
Qed.

(** ** The engine over time *)

#[local] Abbreviation state := (list (PolicyZoneData RC) * list (option (Zone RC)))%type.

(** A zone is given to the engine when it is filled, with data that no other zone has. *)
Inductive engine_step : state -> state -> Prop :=
| step_data st zones d : engine_step (st, zones) (st ++ [d], zones)
| step_add st zs z : fresh_zone st zs z -> zlen zs < 65536 -> engine_step (st, map Some zs) (addZone st (map Some zs) z).1
| step_set st zs i z : fresh_zone st zs z -> (i <= length zs)%nat -> Z.of_nat i < 65536 -> engine_step (st, map Some zs) (setZone st (map Some zs) i (Some z))
| step_update st zones idx name deltas soa serial refresh defpol ovr maxTTL st' zones' u :
    Forall delta_fine deltas -> apply_update st zones idx name deltas soa serial refresh defpol ovr maxTTL = Ok (Some (st', zones', u)) ->
    engine_step (st, zones) (st', zones')
| step_clear st zones : engine_step (st, zones) (st, clearZones zones).

Definition engine_inv (s : state) : Prop := exists zs, s.2 = map Some zs /\ engine_ok s.1 zs.

Lemma engine_data st zs d : engine_ok st zs -> engine_ok (st ++ [d]) zs.
Proof.
  intros [Hz Hc Hd Hp Ho]. split; [done|done| | |done].
  - intros i z Hi. rewrite length_app. specialize (Hd i z Hi). cbn. lia.
  - intros i z Hi. unfold z_getPriority. rewrite data_at_app by (by eapply Hd). by apply Hp.
Qed.

Lemma updated_engine st zs idx z' d' : engine_ok st zs -> zone_ok z' -> z_data z' = length st -> zd_priority d' = Z.of_nat idx ->
  engine_ok (st ++ [d']) (<[idx := z']> zs).
Proof.
  intros [Hz Hc Hd Hp Ho] Hok Hi Hprio. split.
  - rewrite Forall_lookup in *. intros j y [(-> & <- & _)|[_ Hj]]%list_lookup_insert_Some; [done|by eapply Hz].
  - unfold zlen. by rewrite length_insert.
  - intros j y Hj. rewrite length_app. cbn. apply list_lookup_insert_Some in Hj as [(-> & <- & _)|[_ Hj]]; [lia|]. specialize (Hd j y Hj). lia.
  - intros j y Hj. unfold z_getPriority. apply list_lookup_insert_Some in Hj as [(-> & <- & _)|[_ Hj]]; [by rewrite Hi, data_at_new|].
    rewrite data_at_app by (by eapply Hd). by apply Hp.
  - rewrite list_fmap_insert. apply NoDup_insert_fresh; [done|]. rewrite Hi. intros (y & E & [j Hj]%list_elem_of_lookup)%list_elem_of_fmap. specialize (Hd j y Hj). lia.
Qed.

Lemma engine_step_inv s s' : engine_inv s -> engine_step s s' -> engine_inv s'.
Proof.
  intros (zs & Hs & He) H. destruct H as [st zones d|st zs' z Hf Hc|st zs' i z Hf Hi Hmax|st zones idx name deltas soa serial refresh defpol ovr maxTTL st' zones' u Hd H|st zones];
    cbn [fst snd] in *.
  - exists zs. split; [done|]. by apply engine_data.
  - apply (inj (map Some)) in Hs as ->. exists (zs ++ [z]). cbn. split; [by rewrite map_app|].
    pose proof (placed_engine st zs (length zs) z He Hf ltac:(lia) Hc) as Hp. unfold placed in Hp. rewrite Nat.ltb_irrefl in Hp. unfold zlen. by rewrite length_map.
  - apply (inj (map Some)) in Hs as ->. rewrite setZone_placed by done. exists (placed zs i z). split; [done|]. by apply placed_engine.
  - subst zones. destruct (apply_update_spec _ _ _ _ _ _ _ _ _ _ _ _ _ _ He Hd H) as (z & z' & d' & Hz & Hok & Hi & _ & _ & _ & _ & -> & -> & _ & Hp & _).
    exists (<[idx := z']> zs). split; [done|]. by apply updated_engine.
  - exists []. split; [done|]. split; [constructor| |done|done|constructor]. done.
Qed.

(** C30: however zones are added, replaced and updated by incremental transfers, all
    zones of the engine keep their invariant, no two share their data, and they are in
    the order of their priorities, as the lookups by address need it to stop at the
    first zone that is not before the current policy. *)
Theorem engine_reachable (s : state) : rtc engine_step ([], []) s -> exists zs, s.2 = map Some zs /\ engine_ok s.1 zs /\ ordered s.1 zs.
Proof.
  intros H. assert (engine_inv s) as (zs & Hs & He).
  { remember ([], []) as s0 eqn:E. assert (engine_inv s0) as H0 by (subst s0; exists []; split; [done|]; split; [constructor|done|done|done|constructor]).
    clear E. induction H as [|s1 s2 s3 Hst Hr IH]; [done|]. apply IH. by eapply engine_step_inv. }
  exists zs. split_and!; [done..|by apply engine_ordered].
Qed.

(** an incremental update leaves the data of the old zone alone, and with it the
    SOA record that every policy taken over from the old zone reports, while the new
    zone has the SOA record of the update. *)
Theorem update_keeps_old_soa st zs idx name deltas soa serial refresh defpol ovr maxTTL st' zones' (u : update) :
  engine_ok st zs -> Forall delta_fine deltas -> apply_update st (map Some zs) idx name deltas soa serial refresh defpol ovr maxTTL = Ok (Some (st', zones', u)) ->
  (exists z', getZone zones' idx = Some z' /\ z_getSOA st' z' = Some (u_soa u))
  /\ forall p j, p_zoneData p = Some j -> (j < length st)%nat -> p_getSOA st' p = p_getSOA st p /\ forall ret, addSOAtoRPZResult st' p ret = addSOAtoRPZResult st p ret.
Proof.
  intros He Hd H. destruct (apply_update_spec _ _ _ _ _ _ _ _ _ _ _ _ _ _ He Hd H) as (z & z' & d' & Hz & Hok & Hi & _ & _ & _ & _ & -> & -> & Hsoa & Hp & _). split.
  - exists z'. split.
    + unfold getZone. rewrite list_lookup_fmap, list_lookup_insert_eq; [done|by eapply lookup_lt_Some].
    + unfold z_getSOA. by rewrite Hi, data_at_new.
  - intros p j Hj Hl. assert (data_of (st ++ [d']) p = data_of st p) as Hdata by (unfold data_of; rewrite Hj; cbn; by rewrite data_at_app).
    unfold addSOAtoRPZResult, p_includeSOA, p_getSOA. by rewrite Hdata.
Qed.

(** ** Whole transfers *)

(** A record whose name, relative to the zone, is in order. *)
Definition loads_fine (domain : DNSName) (r : record) : Prop :=
  forall name, makeRelative (rr_name r) domain = Ok name -> record_fine (mkRR name (rr_type r) (rr_class r) (rr_ttl r) (rr_place r) (rr_content r)).

(** A load of a zone keeps its invariant and changes no data but that of the zone. *)
Definition load_ok (i : nat) (n : nat) st0 (l : RPZLoad (RC := RC)) : Prop :=
  zone_ok (l_zone l) /\ z_data (l_zone l) = i /\ length (l_store l) = n /\ forall j, j <> i -> data_at (l_store l) j = data_at st0 j.

Lemma server_record_ok i n st0 defpol ovr maxTTL domain r l l' :
  (i < n)%nat -> load_ok i n st0 l -> loads_fine domain r -> server_record defpol ovr maxTTL domain r l = Ok l' -> load_ok i n st0 l'.
Proof.
  intros Hin (Hz & Hi & Hn & Hd) Hf H. unfold server_record in H. destruct (ignored_type _); [by injection H as <-|]. bind_inv H.
  destruct a; cbn [negb] in H; [|by injection H as <-]. destruct (rr_type r =? QType.SOA).
  - injection H as <-. unfold load_ok. cbn [l_zone l_store]. split_and!; [done|done|by unfold z_setSOA; rewrite length_change_data|].
    intros j Hj. unfold z_setSOA. rewrite change_data_at by lia. rewrite decide_False by congruence. by apply Hd.
  - unfold load_policy in H. bind_inv H. bind_inv H. destruct a0 as [z' nm]. injection H as <-.
    destruct (record_keeps_zone _ _ _ _ _ _ _ _ _ Hz (Hf _ E0) E1) as [Hz' [= Hdom Hdat _ _]]. unfold load_ok. cbn [l_zone l_store]. split_and!; [done|congruence|done|done].
Qed.

Lemma server_chunk_ok i n st0 defpol ovr maxTTL domain chunk : forall l l',
  (i < n)%nat -> load_ok i n st0 l -> Forall (loads_fine domain) chunk -> server_chunk defpol ovr maxTTL domain chunk l = Ok l' -> load_ok i n st0 l'.
Proof.
  induction chunk as [|r chunk IH]; intros l l' Hin Hl Hf H; cbn [server_chunk] in H; [by injection H as <-|]. apply Forall_cons in Hf as [Hr Hf]. bind_inv H.
  eapply IH; [done| |done|exact H]. by eapply server_record_ok.
Qed.

(** A zone that is loaded from a transfer is in order, and only its own data changed. *)
Lemma loadRPZFromServer_ok defpol ovr maxTTL domain chunks st z names l soa :
  zone_ok z -> (z_data z < length st)%nat -> Forall (fun c => Forall (loads_fine domain) c.1) chunks ->
  loadRPZFromServer defpol ovr maxTTL domain chunks st z names = Ok (l, soa) -> load_ok (z_data z) (length st) st l.
Proof.
  intros Hz Hd Hf H. unfold loadRPZFromServer in H. bind_inv H. assert (a = l) as -> by (repeat case_match; by simplify_eq). clear H.
  assert (load_ok (z_data z) (length st) st (mkLoad st z None names)) as Hl by done. revert E Hl. generalize (mkLoad st z None names).
  induction Hf as [|[chunk expired] chunks Hc Hcs IH]; intros l0 H Hl; cbn [server_chunks] in H; [by injection H as <-|]. bind_inv H. bind_inv H.
  eapply IH; [exact H|]. by eapply server_chunk_ok.
Qed.

(** ** Removals *)

(** with a default policy all records of a name stand for the same trigger, and the
    removal of one of them removes it: after adding two records of a new name and
    removing one, the zone has no trigger for the name. *)
Theorem default_policy_removed_early st z (r1 r2 : record) d maxTTL name :
  zone_ok z -> record_fine r1 -> rr_name r1 = name -> rr_name r2 = name -> trigger_of name = Ok (QNameTrigger (nkey name)) -> policy_for z (QNameTrigger (nkey name)) = None ->
  rr_class r1 = QClass.IN -> rr_class r2 = QClass.IN -> rr_type r1 <> QType.CNAME -> rr_type r2 <> QType.CNAME -> p_kind d <> PolicyKind.Custom ->
  exists z1 z2 z3, RPZRecordToPolicy st r1 true (Some d) true maxTTL z = Ok (z1, Some name)
    /\ RPZRecordToPolicy st r2 true (Some d) true maxTTL z1 = Ok (z2, Some name)
    /\ RPZRecordToPolicy st r1 false (Some d) true maxTTL z2 = Ok (z3, Some name)
    /\ (exists p, policy_for z2 (QNameTrigger (nkey name)) = Some p /\ p_kind p = p_kind d)
    /\ policy_for z3 (QNameTrigger (nkey name)) = None.
Proof.
  intros Hz Hf1 Hn1 Hn2 Ht Hnone Hc1 Hc2 Ht1 Ht2 Hk. assert (record_fine r2) as Hf2 by (unfold record_fine; rewrite Hn2, <- Hn1; exact Hf1).
  assert (forall r, rr_name r = name -> rr_class r = QClass.IN -> rr_type r <> QType.CNAME ->
    exists p, read_record r (Some d) true maxTTL = Ok (Some (QNameTrigger (nkey name), p, true)) /\ p_kind p = p_kind d) as Hread.
  { intros r Hn Hc Hty. unfold read_record, record_policy. rewrite Hn, Hc, Ht. rewrite (proj2 (Z.eqb_neq _ _) Hty). cbn. eexists. by split. }
  destruct (Hread r1 Hn1 Hc1 Ht1) as (p1 & Hr1 & Hk1), (Hread r2 Hn2 Hc2 Ht2) as (p2 & Hr2 & Hk2).
  pose proof (record_refines true st z r1 (Some d) true maxTTL Hz Hf1) as H1. rewrite Hr1, Hn1 in H1. unfold applied in H1. rewrite Hnone in H1. cbn [add_at] in H1.
  destruct H1 as (z1 & Hz1 & [Hok1 Hp1 _]). specialize (Hp1 (QNameTrigger (nkey name))). rewrite decide_True in Hp1 by done.
  pose proof (record_refines true st z1 r2 (Some d) true maxTTL Hok1 Hf2) as H2. rewrite Hr2, Hn2 in H2. unfold applied in H2. rewrite Hp1 in H2.
  unfold add_at, on_duplicate in H2. rewrite !andb_false_r in H2. cbn [orb] in H2. destruct H2 as (z2 & Hz2 & [Hok2 Hp2 _]).
  specialize (Hp2 (QNameTrigger (nkey name))). rewrite decide_True in Hp2 by done.
  pose proof (record_refines false st z2 r1 (Some d) true maxTTL Hok2 Hf1) as H3. rewrite Hr1, Hn1 in H3. unfold applied in H3. rewrite Hp2 in H3.
  destruct H3 as (z3 & Hz3 & [Hok3 Hp3 _]). specialize (Hp3 (QNameTrigger (nkey name))). rewrite decide_True in Hp3 by done.
  exists z1, z2, z3. split_and!; [done..| |].
  - eexists. split; [done|]. by cbn.
  - rewrite Hp3. unfold remove_at, remove_policy. rewrite bool_decide_eq_false_2 by (cbn; congruence). done.
Qed.
End engine.

(** ** Dumps of response policy zones and records taken back *)


(** The content of a CNAME record has its target. *)
Class RecordContentsLaws (RC : Type) `{HRC : !RecordContents RC} : Prop := {
  rc_target_cname : forall n, rc_target (rc_cname n) = Some n;
}.

Section dump.
Context {RC : Type} `{HRC : !RecordContents RC} `{HRL : !RecordContentsLaws RC} `{HAP : !AddressParser} `{HAF : !AddressForms format_hex HAP}.
#[local] Abbreviation policy := (Policy RC).
#[local] Abbreviation zone := (Zone RC).
#[local] Abbreviation store := (list (PolicyZoneData RC)).
#[local] Abbreviation record := (PolicyRecord RC).

Implicit Types (z : zone) (pol p : policy) (st : store).

(** *** Actions *)

(** The target that stands for an action. *)
Lemma action_target (kind : PolicyKind.t) (content : RC) : kind <> PolicyKind.Custom ->
  exists target, DNSName_from_text (getKindToString kind) = Ok target /\ cname_policy target content = Ok (Some (with_kind kind policy_default)).
Proof. destruct kind; try done; intros _; eexists; (split; [vm_compute; reflexivity|vm_compute; reflexivity]). Qed.

(** A policy as it is loaded from its own dump. *)
Definition reloaded (maxTTL : Z) p : policy := with_ttl (s32 (Z.min maxTTL (u32 (p_ttl p)))) (with_kind (p_kind p) policy_default).

Lemma action_record (name : DNSName) p (ovr : bool) maxTTL : p_kind p <> PolicyKind.Custom ->
  exists r, getRecords name p = Ok [r] /\ rr_name r = name
    /\ forall name', read_record (mkRR name' (rr_type r) (rr_class r) (rr_ttl r) (rr_place r) (rr_content r)) None ovr maxTTL
         = (t ← trigger_of name'; Ok (Some (t, reloaded maxTTL p, false))).
Proof.
  intros Hk. unfold getRecords. rewrite bool_decide_eq_false_2 by done. destruct (action_target (p_kind p) (rc_cname (mkDNSName [])) Hk) as (target & Ht & _). rewrite Ht.
  destruct (action_target (p_kind p) (rc_cname target) Hk) as (target' & Ht' & Hc). assert (target' = target) as -> by congruence.
  cbn [mbind result_bind]. eexists. split; [done|]. split; [done|]. intros name'. unfold read_record, record_policy. cbn [rr_class rr_type rr_content rr_name].
  change (negb (QClass.IN =? QClass.IN)) with false. change (QType.CNAME =? QType.CNAME) with true. cbv iota. rewrite rc_target_cname, Hc. done.
Qed.

(** *** Networks *)

Lemma sum_length a b c : zlen (storage_of (a ++ b ++ c)) = zlen (enc_labels a) + zlen (enc_labels b) + zlen (storage_of c).
Proof. rewrite storage_of_app, zlen_app, storage_of_app, zlen_app. lia. Qed.

Lemma top_label zone a name pre b : represents zone [a] -> represents name (pre ++ [b]) -> nkey zone `prefix_of` nkey name <-> toLower a = toLower b.
Proof.
  intros Hz Hn. unfold nkey. rewrite (getRawLabels_represents _ _ Hz), (getRawLabels_represents _ _ Hn), ckey_app. change (ckey [a]) with [toLower a]. change (ckey [b]) with [toLower b].
  cbn [app]. split; [apply prefix_cons_inv_1|]. intros ->. apply prefix_cons, prefix_nil.
Qed.

(** The triggers of networks and their labels. *)
Definition network_trigger (label : DNSName) (n : Netmask) (t : Trigger) : Prop :=
  (label = rpzClientIP /\ t = ClientTrigger n) \/ (label = rpzIP /\ t = ResponseTrigger n) \/ (label = rpzNSIP /\ t = NSIPTrigger n).

Lemma network_label label n t : network_trigger label n t -> exists l, represents label [l] /\ valid_label l /\ zlen l <= 13
  /\ forall name pre rel, represents name (pre ++ [l]) -> represents rel pre -> rel = mkDNSName (storage_of pre) -> makeNetmaskFromRPZ rel = Ok n -> trigger_of name = Ok t.
Proof.
  destruct special_names as (Hns & Hcl & Hip & Hnsip).
  assert (forall l zone a name pre, represents name (pre ++ [l]) -> represents zone [a] -> toLower a <> toLower l -> bool_decide (nkey zone `prefix_of` nkey name) = false) as Hno.
  { intros l zone a name pre Hn Hz Hne. apply bool_decide_eq_false_2. by rewrite (top_label zone a name pre l). }
  assert (forall l zone name pre, represents name (pre ++ [l]) -> represents zone [l] -> bool_decide (nkey zone `prefix_of` nkey name) = true) as Hyes.
  { intros l zone name pre Hn Hz. apply bool_decide_eq_true_2. by rewrite (top_label zone l name pre l). }
  intros [[-> ->]|[[-> ->]|[-> ->]]]; eexists; (split; [done|]); (split; [by_decide|]); (split; [by vm_compute|]); intros name pre rel Hn Hrel -> Hm; unfold trigger_of.
  - rewrite (Hno _ _ _ _ _ Hn Hns), (Hyes _ _ _ _ Hn Hcl) by by vm_compute. destruct (makeRelative_label name _ pre Hn _ _ Hcl) as [-> _]; [done|].
    cbn [mbind result_bind]. by rewrite Hm.
  - rewrite (Hno _ _ _ _ _ Hn Hns), (Hno _ _ _ _ _ Hn Hcl), (Hyes _ _ _ _ Hn Hip) by by vm_compute. destruct (makeRelative_label name _ pre Hn _ _ Hip) as [-> _]; [done|].
    cbn [mbind result_bind]. by rewrite Hm.
  - rewrite (Hno _ _ _ _ _ Hn Hns), (Hno _ _ _ _ _ Hn Hcl), (Hno _ _ _ _ _ Hn Hip), (Hyes _ _ _ _ Hn Hnsip) by by vm_compute.
    destruct (makeRelative_label name _ pre Hn _ _ Hnsip) as [-> _]; [done|]. cbn [mbind result_bind]. by rewrite Hm.
Qed.

(** what a dump writes for a network with an action reads back, relative to the zone,
    as the same network with the same action, for each of the three kinds of networks,
    when the name of the zone leaves room for them. *)
Theorem dumped_network_loads n label suffix domain ds p (ovr : bool) maxTTL t :
  nm_ok n -> represents domain ds -> zlen (storage_of ds) <= 190 -> network_trigger label n t -> name_append label domain = Ok suffix -> p_kind p <> PolicyKind.Custom ->
  exists r name, dump_networks [(n, p)] suffix = Ok [r] /\ makeRelative (rr_name r) domain = Ok name
    /\ read_record (mkRR name (rr_type r) (rr_class r) (rr_ttl r) (rr_place r) (rr_content r)) None ovr maxTTL = Ok (Some (t, reloaded maxTTL p, false)).
Proof.
  intros Hn Hd Hl Ht Hsuf Hk. destruct (rpz_netmask_round_trip n Hn) as (mask & Hmask & Hread). destruct (maskToRPZ_labels n Hn) as (Hm & Hp & Hz).
  rewrite Hmask in Hm. injection Hm as ->. pose proof (plain_represents _ Hp ltac:(lia)) as Hrep. pose proof (plain_length _ Hp) as Hpl.
  destruct (network_label label n t Ht) as (l & Hlab & Hv & Hl13 & Htrig).
  assert (zlen (enc_labels [l]) = 1 + zlen l) as Hel by (rewrite zlen_enc_labels_cons; change (zlen (enc_labels [])) with 0; lia).
  assert (zlen (storage_of ([l] ++ ds)) <= 255) as Hlen1 by (rewrite storage_of_app, zlen_app; lia).
  rewrite (name_append_represents _ _ _ _ Hlab Hd Hlen1) in Hsuf. injection Hsuf as <-.
  assert (represents (mkDNSName (storage_of (l :: ds))) ([l] ++ ds)) as Hsr.
  { split_and!; [done| |done]. apply Forall_app. split; [by constructor|apply Hd]. }
  assert (zlen (storage_of (rpz_name n ++ [l] ++ ds)) <= 255) as Hlen2 by (rewrite sum_length; lia).
  cbn [dump_networks]. rewrite Hmask. cbn [mbind result_bind]. rewrite (name_append_represents _ _ _ _ Hrep Hsr Hlen2). cbn [mbind result_bind].
  destruct (action_record (mkDNSName (storage_of (rpz_name n ++ [l] ++ ds))) p ovr maxTTL Hk) as (r & -> & Hrn & Hrd). cbn [mbind result_bind].
  exists r, (mkDNSName (storage_of (rpz_name n ++ [l]))). split; [done|].
  assert (Forall valid_label (rpz_name n ++ [l])) as Hval by (apply Forall_app; split; [apply Hrep|by constructor]).
  assert (represents (mkDNSName (storage_of (rpz_name n ++ [l]))) (rpz_name n ++ [l])) as Hfull.
  { split_and!; [done..|]. unfold s_maxDNSNameLength. rewrite storage_of_app, zlen_app, zlen_storage_of. rewrite Hel. lia. }
  split.
  - rewrite Hrn. apply (makeRelative_represents _ _ _ ds ds); [|done|done]. rewrite <- app_assoc. split_and!; [done| |done].
    rewrite app_assoc. apply Forall_app. split; [done|apply Hd].
  - rewrite Hrd. rewrite (Htrig _ (rpz_name n) _ Hfull Hrep); done.
Qed.

(** *** Local data *)

Lemma rc_eqb_refl (c : RC) : rc_eqb c c = true.
Proof. unfold rc_eqb. rewrite Z.eqb_refl. by rewrite bool_decide_eq_true_2. Qed.

Lemma remove_custom_last (c : RC) cs : Forall (fun x => rc_eqb x c = false) cs -> remove_custom c (cs ++ [c]) = Some cs.
Proof. induction 1 as [|x cs Hx Hcs IH]; cbn [app remove_custom]; [by rewrite rc_eqb_refl|]. by rewrite Hx, IH. Qed.

(** Places where a record of local data can be added: none, or one with local data that
    does not have the record. *)
Definition can_take (c : RC) (o : option policy) : Prop :=
  match o with
  | None => True
  | Some p => p_kind p = PolicyKind.Custom /\ exists cs, p_custom p = Some cs /\ cs <> [] /\ Forall (fun x => rc_eqb x c = false) cs
  end.

Lemma add_remove_at data i type (c : RC) ttl o : can_take c o ->
  exists p, add_at data i type (with_ttl ttl (custom_policy c)) false o = Some p /\ remove_at (with_ttl ttl (custom_policy c)) (Some p) = (o, true).
Proof.
  intros Ho. destruct o as [p|]; cbn [can_take add_at] in *.
  - destruct Ho as (Hk & cs & Hc & Hne & Hall). unfold on_duplicate. rewrite (bool_decide_eq_true_2 _ Hk). cbn. eexists. split; [done|]. unfold remove_policy, addCustom. cbn.
    rewrite Hc, Hk. cbn. rewrite remove_custom_last by done. cbn [customRecordsSize with_custom p_custom]. rewrite (proj2 (Z.eqb_neq _ _)).
    + rewrite bool_decide_eq_true_2 by done. cbn. do 2 f_equal. destruct p; cbn in *; by subst.
    + intros H0%zlen_zero_inv. done.
  - eexists. split; [done|]. unfold remove_at, remove_policy. cbn. by rewrite rc_eqb_refl.
Qed.

(** adding a record of local data and then removing it leaves every policy of the
    zone as it was, the one of its trigger included, when there was no other kind of
    policy and no equal record. *)
Theorem add_then_remove st z (r : record) (ovr : bool) maxTTL t :
  zone_ok z -> record_fine r -> rr_class r = QClass.IN -> rr_type r <> QType.CNAME -> trigger_of (rr_name r) = Ok t -> can_take (rr_content r) (policy_for z t) ->
  exists z1 z2, RPZRecordToPolicy st r true None ovr maxTTL z = Ok (z1, affected (rr_name r) t)
    /\ RPZRecordToPolicy st r false None ovr maxTTL z1 = Ok (z2, affected (rr_name r) t)
    /\ is_Some (policy_for z1 t) /\ forall t', policy_for z2 t' = policy_for z t'.
Proof.
  intros Hz Hf Hc Hty Ht Hcan.
  assert (read_record r None ovr maxTTL = Ok (Some (t, policy_ttl r None false maxTTL (custom_policy (rr_content r)), false))) as Hread.
  { unfold read_record, record_policy. rewrite Hc, Ht. rewrite (proj2 (Z.eqb_neq _ _) Hty). done. }
  pose proof (record_refines true st z r None ovr maxTTL Hz Hf) as H1. rewrite Hread in H1. unfold applied, policy_ttl in H1.
  destruct (add_remove_at (data_at st (z_data z)) (z_data z) (trigger_type t) (rr_content r) (s32 (Z.min maxTTL (rr_ttl r))) _ Hcan) as (p & Hadd & Hrem).
  cbn [negb orb] in H1. rewrite Hadd in H1. destruct H1 as (z1 & Hz1 & [Hok1 Hp1 _]). pose proof (Hp1 t) as Hpt. rewrite decide_True in Hpt by done.
  pose proof (record_refines false st z1 r None ovr maxTTL Hok1 Hf) as H2. rewrite Hread in H2. unfold applied, policy_ttl in H2. cbn [negb orb] in H2.
  rewrite Hpt, Hrem in H2. destruct H2 as (z2 & Hz2 & [Hok2 Hp2 _]). exists z1, z2. split_and!; [done..|by rewrite Hpt|].
  intros t'. rewrite Hp2. case_decide as E; [by subst t'|]. rewrite Hp1. by rewrite decide_False.
Qed.
End dump.
