(* ===== verification/RpzExamples.v ===== *)
(** * The filtering engine on a small response policy zone *)

From Stdlib Require Import Sorted.
From stdpp Require Import gmap.
From S2P Require Import Prelude Chars Dns Names NamesFacts NamesText NamesOrder NamesSpec Denial DenialFacts Validate IpUtils IpText.
From S2P Require Import NetTree NetTreeFacts NetTreeSpec NetGroups NameIndex Rpz RpzEngine RpzLoader RpzFacts RpzNetmasks RpzLookups RpzTriggers RpzZones.
From S2P Require Import RpzSpec.

#[local] Open Scope Z_scope.

Module rpz_example.
#[local] Existing Instance numeric_addresses.numeric.
#[local] Existing Instance numeric_addresses.numeric_forms.

(** Contents with what the engine asks of them. *)
Inductive content : Type :=
| Cname (n : DNSName)
| Address (a : ComboAddress)
| Soa (serial refresh : Z).

#[local] Instance contents : RecordContents content := {
  rc_getType c := match c with Cname _ => QType.CNAME | Address a => if ca_isIPv4 a then QType.A else QType.AAAA | Soa _ _ => QType.SOA end;
  rc_class c := match c with Cname _ => 1 | Address a => if ca_isIPv4 a then 2 else 3 | Soa _ _ => 4 end;
  getZoneRepresentation c := match c with Cname n => d_storage n | Address a => sin_addr a | Soa serial refresh => to_string serial ++ [32] ++ to_string refresh end;
  rc_target c := match c with Cname n => Some n | _ => None end;
  rc_cname := Cname;
  rc_getCA c := match c with Address a => Some a | _ => None end;
  rc_soa c := match c with Soa serial refresh => Some (serial, refresh) | _ => None end;
}.

#[local] Instance contents_laws : RecordContentsLaws content.
Proof. by split. Qed.

#[local] Instance text : AddressText := { ca_toString a := sin_addr a }.

Definition name (s : string) : DNSName := match DNSName_from_text (bs s) with Ok n => n | Throw _ => mkDNSName [] end.
Definition rr (s : string) (c : content) : PolicyRecord content := mkRR (name s) (rc_getType c) QClass.IN 300 ANSWER c.
Definition soa (serial : Z) : PolicyRecord content := rr "rpz.test" (Soa serial 60).

(** A network, two names and a wildcard. *)
Definition records : list (PolicyRecord content) :=
  [rr "bad.example" (Cname (name ".")); rr "*.ads.example" (Cname (name "*")); rr "www.ads.example" (Address (v4 192 0 2 1));
   rr "24.0.2.0.192.rpz-client-ip" (Cname (name "rpz-drop"))].

Fixpoint load (st : list (PolicyZoneData content)) (rs : list (PolicyRecord content)) (z : Zone content) : result (Zone content) :=
  match rs with
  | [] => Ok z
  | r :: rs => '(z, _) ← RPZRecordToPolicy st r true None false 86400 z; load st rs z
  end.

Definition st0 : list (PolicyZoneData content) := [initial_data].
Definition zone0 : Zone content := setDomain (name "rpz.test") (snd (zone_make [])).
Definition zone1 : Zone content := match load st0 records zone0 with Ok z => z | Throw _ => zone0 end.

(** In the store with its SOA record and the flag to report it. *)
Definition st1 : list (PolicyZoneData content) := setIncludeSOA true zone1 (z_setSOA (soa 1) zone1 (z_setName (bs "test") zone1 st0)).

Lemma fine_name (r : PolicyRecord content) ls t : represents (rr_name r) ls -> trigger_of (rr_name r) = Ok t -> trigger_ok t -> record_fine r.
Proof. intros Hr Ht Hok. split; [by eexists|]. intros t' Ht'. congruence. Qed.

Definition net_192_0_2 : Netmask := nm_make (v4 192 0 2 0) 24.

Lemma net_192_0_2_ok : nm_ok net_192_0_2.
Proof. apply nm_make_spec; [by apply (bool_decide_unpack _); vm_compute|lia]. Qed.

Lemma records_fine : Forall record_fine records.
Proof.
  unfold records. rewrite !Forall_cons, Forall_nil. split_and!; [..|done].
  - by apply (fine_name _ [bs "bad"; bs "example"] (QNameTrigger [bs "example"; bs "bad"])); [by_decide|vm_compute|].
  - by apply (fine_name _ [bs "*"; bs "ads"; bs "example"] (QNameTrigger [bs "example"; bs "ads"; bs "*"])); [by_decide|vm_compute|].
  - by apply (fine_name _ [bs "www"; bs "ads"; bs "example"] (QNameTrigger [bs "example"; bs "ads"; bs "www"])); [by_decide|vm_compute|].
  - apply (fine_name _ [bs "24"; bs "0"; bs "2"; bs "0"; bs "192"; bs "rpz-client-ip"] (ClientTrigger net_192_0_2)); [by_decide|by vm_compute|exact net_192_0_2_ok].
Qed.

Lemma load_ok st rs : Forall record_fine rs -> forall z z', zone_ok z -> load st rs z = Ok z' -> zone_ok z' /\ z_data z' = z_data z.
Proof.
  induction 1 as [|r rs Hr Hrs IH]; intros z z' Hz H; cbn [load] in H; [by injection H as <-|]. bind_inv H. destruct a as [z1 n].
  destruct (record_keeps_zone _ _ _ _ _ _ _ _ _ Hz Hr E) as [Hz1 Hs]. destruct (IH _ _ Hz1 H) as [Hok Hd]. split; [done|]. rewrite Hd. by injection Hs.
Qed.

Lemma zone0_ok : zone_ok zone0.
Proof. apply (zone_clear_ok zone0). split; cbn; try (by repeat constructor); by apply (poltree_empty _ (tree_empty policy_default)). Qed.

Lemma zone1_loaded : load st0 records zone0 = Ok zone1.
Proof. vm_compute. reflexivity. Qed.

Lemma zone1_ok : zone_ok zone1.
Proof. exact (proj1 (load_ok _ _ records_fine _ _ zone0_ok zone1_loaded)). Qed.

Lemma engine1_ok : engine_ok (setPriority 0 zone1 st1) [zone1].
Proof.
  split.
  - apply Forall_singleton. exact zone1_ok.
  - by vm_compute.
  - intros [|i] z Hi; [|done]. apply (inj Some) in Hi as <-. vm_compute. lia.
  - intros [|i] z Hi; [|done]. apply (inj Some) in Hi as <-. by vm_compute.
  - apply NoDup_singleton.
Qed.

(** ** Lookups *)

Definition st2 : list (PolicyZoneData content) := setPriority 0 zone1 st1.

(** [img.ads.example] is below the wildcard, and [www.ads.example] has a policy of its
    own. *)
Lemma getQueryPolicy_exact_witness :
  exists o, getQueryPolicy st2 (map Some [zone1]) (name "img.ads.example") [] policy_default = Ok o
    /\ first_match (zone_enabled st2 [] policy_default) (qname_match (name "img.ads.example") policy_default)
         (fun z => no_trigger (get_policy (d_qpolName z)) (nkey (name "img.ads.example"))) [zone1] o.
Proof.
  apply (getQueryPolicy_exact st2 [zone1]); [apply Forall_singleton; exact zone1_ok|]. exists [bs "img"; bs "ads"; bs "example"]. by_decide.
Defined.

Example img_is_nodata : exists p, getQueryPolicy st2 (map Some [zone1]) (name "img.ads.example") [] policy_default = Ok (Some p)
  /\ p_kind p = PolicyKind.NODATA /\ getTrigger p = name "*.ads.example" /\ getHit p = bs "img.ads.example".
Proof. eexists. split; [vm_compute; reflexivity|by vm_compute]. Qed.

Lemma getClientPolicy_exact_witness :
  exists o, getClientPolicy st2 (map Some [zone1]) (v4 192 0 2 77) [] policy_default = Ok o
    /\ first_match (zone_enabled st2 [] policy_default) (client_match (v4 192 0 2 77) policy_default)
         (fun z => no_network (d_qpolAddr z) (v4 192 0 2 77)) [zone1] o.
Proof.
  apply (getClientPolicy_exact st2 [zone1]); [apply Forall_singleton; exact zone1_ok|apply engine_ordered, engine1_ok|by apply (bool_decide_unpack _); vm_compute].
Defined.

Example client_is_dropped : exists p, getClientPolicy st2 (map Some [zone1]) (v4 192 0 2 77) [] policy_default = Ok (Some p)
  /\ p_kind p = PolicyKind.Drop /\ getTrigger p = name "24.0.2.0.192.rpz-client-ip".
Proof. eexists. split; [vm_compute; reflexivity|by vm_compute]. Qed.

(** ** Records *)

Definition extra : PolicyRecord content := rr "www.ads.example" (Address (v4 192 0 2 2)).

Lemma extra_fine : record_fine extra.
Proof. by apply (fine_name _ [bs "www"; bs "ads"; bs "example"] (QNameTrigger [bs "example"; bs "ads"; bs "www"])); [by_decide|vm_compute|]. Qed.

Lemma RPZRecordToPolicy_refines_witness :
  match read_record extra None false 86400 with
  | Throw e => RPZRecordToPolicy st2 extra true None false 86400 zone1 = Throw e
  | Ok None => RPZRecordToPolicy st2 extra true None false 86400 zone1 = Ok (zone1, None)
  | Ok (Some (t, pol, dflt)) => applied true st2 zone1 t pol dflt (rr_name extra) (RPZRecordToPolicy st2 extra true None false 86400 zone1)
  end.
Proof. apply RPZRecordToPolicy_refines; [exact zone1_ok|exact extra_fine]. Defined.

Lemma extra_taken : can_take (rr_content extra) (policy_for zone1 (QNameTrigger [bs "example"; bs "ads"; bs "www"])).
Proof.
  assert (exists p, policy_for zone1 (QNameTrigger [bs "example"; bs "ads"; bs "www"]) = Some p /\ p_kind p = PolicyKind.Custom
    /\ p_custom p = Some [Address (v4 192 0 2 1)]) as (p & -> & Hk & Hc) by (eexists; split; [vm_compute; reflexivity|done]).
  split; [done|]. eexists. split; [done|]. split; [done|]. apply Forall_singleton. by vm_compute.
Qed.

Lemma add_then_remove_witness :
  exists z1 z2, RPZRecordToPolicy st2 extra true None false 86400 zone1 = Ok (z1, Some (rr_name extra))
    /\ RPZRecordToPolicy st2 extra false None false 86400 z1 = Ok (z2, Some (rr_name extra))
    /\ is_Some (policy_for z1 (QNameTrigger [bs "example"; bs "ads"; bs "www"])) /\ forall t', policy_for z2 t' = policy_for zone1 t'.
Proof.
  apply (add_then_remove st2 zone1 extra false 86400 (QNameTrigger [bs "example"; bs "ads"; bs "www"]));
    [exact zone1_ok|exact extra_fine|done|done|by vm_compute|exact extra_taken].
Defined.

Definition drop_policy : Policy content := with_kind PolicyKind.Drop policy_default.

(** Two records of a name under a default policy. *)
Lemma default_policy_removed_early_witness :
  exists z1 z2 z3, RPZRecordToPolicy st2 extra true (Some drop_policy) true 86400 zone0 = Ok (z1, Some (name "www.ads.example"))
    /\ RPZRecordToPolicy st2 (rr "www.ads.example" (Address (v4 192 0 2 3))) true (Some drop_policy) true 86400 z1 = Ok (z2, Some (name "www.ads.example"))
    /\ RPZRecordToPolicy st2 extra false (Some drop_policy) true 86400 z2 = Ok (z3, Some (name "www.ads.example"))
    /\ (exists p, policy_for z2 (QNameTrigger (nkey (name "www.ads.example"))) = Some p /\ p_kind p = p_kind drop_policy)
    /\ policy_for z3 (QNameTrigger (nkey (name "www.ads.example"))) = None.
Proof.
  apply (default_policy_removed_early st2 zone0 extra (rr "www.ads.example" (Address (v4 192 0 2 3))) drop_policy 86400 (name "www.ads.example"));
    [exact zone0_ok|exact extra_fine|done|done|by vm_compute..].
Defined.

(** ** Dumps *)

Lemma dumped_network_loads_witness :
  exists r n, dump_networks [(net_192_0_2, drop_policy)] (mkDNSName (storage_of [bs "rpz-client-ip"; bs "rpz"; bs "test"])) = Ok [r]
    /\ makeRelative (rr_name r) (name "rpz.test") = Ok n
    /\ read_record (mkRR n (rr_type r) (rr_class r) (rr_ttl r) (rr_place r) (rr_content r)) None false 86400
       = Ok (Some (ClientTrigger net_192_0_2, reloaded 86400 drop_policy, false)).
Proof.
  apply (dumped_network_loads net_192_0_2 rpzClientIP _ (name "rpz.test") [bs "rpz"; bs "test"]);
    [exact net_192_0_2_ok|by_decide|by vm_compute|by left|by vm_compute|done].
Defined.

(** ** Updates *)

(** From serial 1 to serial 2, with one more record. *)
Definition deltas : list (list (PolicyRecord content) * list (PolicyRecord content)) := [([soa 1], [soa 2; extra])].

Definition updated : result (option (list (PolicyZoneData content) * list (option (Zone content)) * RPZUpdate)) :=
  apply_update st2 (map Some [zone1]) 0 (name "rpz.test") deltas (soa 1) 1 60 None false 86400.

Definition update1 : list (PolicyZoneData content) * list (option (Zone content)) * RPZUpdate :=
  match updated with Ok (Some x) => x | _ => (st2, [], mkUpdate zone1 (soa 1) 1 60 []) end.

Lemma deltas_fine : Forall delta_fine deltas.
Proof.
  assert (forall n, record_fine (soa n)) as Hsoa by (intros n; by apply (fine_name _ [bs "rpz"; bs "test"] (QNameTrigger [bs "test"; bs "rpz"])); [by_decide|vm_compute|]).
  apply Forall_singleton. split; cbn; [by apply Forall_singleton|]. apply Forall_cons. split; [done|]. apply Forall_singleton. exact extra_fine.
Qed.

Lemma updated_done : updated = Ok (Some (update1.1.1, update1.1.2, update1.2)).
Proof. vm_compute. reflexivity. Qed.

Lemma update_keeps_old_soa_witness :
  (exists z', getZone update1.1.2 0 = Some z' /\ z_getSOA update1.1.1 z' = Some (u_soa update1.2))
  /\ forall p j, p_zoneData p = Some j -> (j < length st2)%nat -> p_getSOA update1.1.1 p = p_getSOA st2 p /\ forall ret, addSOAtoRPZResult update1.1.1 p ret = addSOAtoRPZResult st2 p ret.
Proof.
  apply (update_keeps_old_soa st2 [zone1] 0 (name "rpz.test") deltas (soa 1) 1 60 None false 86400); [exact engine1_ok|exact deltas_fine|].
  exact updated_done.
Defined.

(** A query for the untouched [bad.example] is answered with the SOA record of serial 1
    when the zone is at serial 2. *)
Example old_serial_reported : exists p z', getQueryPolicy update1.1.1 update1.1.2 (name "bad.example") [] policy_default = Ok (Some p)
  /\ (rr_content <$> addSOAtoRPZResult update1.1.1 p []) = [Soa 1 60] /\ getZone update1.1.2 0 = Some z' /\ z_serial z' = 2.
Proof. eexists _, _. split; [vm_compute; reflexivity|]. split; [by vm_compute|]. split; by vm_compute. Qed.

(** An engine with the zone, updated. *)
Lemma engine_reachable_witness :
  exists zs, (update1.1.1, update1.1.2).2 = map Some zs /\ engine_ok (update1.1.1, update1.1.2).1 zs /\ ordered (update1.1.1, update1.1.2).1 zs.
Proof.
  apply (engine_reachable (update1.1.1, update1.1.2)).
  eapply rtc_l; [apply (step_data [] [] (data_at st1 0))|]. eapply rtc_l.
  - apply (step_add ([] ++ [data_at st1 0]) [] zone1); [|by vm_compute]. split; [exact zone1_ok|]. split; [vm_compute; lia|apply not_elem_of_nil].
  - eapply rtc_l; [|apply rtc_refl]. apply (step_update _ _ 0 (name "rpz.test") deltas (soa 1) 1 60 None false 86400 _ _ update1.2); [exact deltas_fine|]. vm_compute. reflexivity.
Defined.
End rpz_example.
