(* ===== verification/AggressiveNsec.v ===== *)
(** * The aggressive NSEC cache of the recursor

    [pdns/recursordist/aggressive_nsec.cc], [aggressive_nsec.hh]: the NSEC or NSEC3
    records of each zone, to answer for names they deny without asking.  Zones are in
    a [SuffixMatchTree] of shared pointers; the objects the pointers lead to are in a
    store.  The multi-index container of a zone is the list of its sequence index.
    One thread runs, so that [try_lock] succeeds. *)

From S2P Require Import Prelude Chars Dns Names NamesOrder NamesText NamesFacts StdSet SuffixTree Base32 NsecBitmap Denial.
From S2P Require Import NameIndex CacheCleaner.

#[local] Open Scope Z_scope.

(** ** Data *)

Record NsecEntry : Type := mkNE {
  ag_record : rr_content;
  ag_signatures : list RRSIGRecordContent;
  ag_owner : DNSName;
  ag_next : DNSName;
  ag_qname : DNSName;
  ag_ttd : Z;
  ag_qtype : Z;
}.

Inductive ZoneDenialType : Type := DenialUnknown | DenialNSEC | DenialNSEC3.

#[export] Instance ZoneDenialType_eq_dec : EqDecision ZoneDenialType.
Proof. solve_decision. Defined.

Record ZoneEntry : Type := mkZE {
  ze_entries : list NsecEntry;
  ze_zone : DNSName;
  ze_salt : bytes;
  ze_iterations : Z;
  ze_denialType : ZoneDenialType;
}.

Definition zone_entry (zone : DNSName) : ZoneEntry := mkZE [] zone [] 0 DenialUnknown.

Definition ze_set_entries (l : list NsecEntry) (e : ZoneEntry) : ZoneEntry :=
  mkZE l (ze_zone e) (ze_salt e) (ze_iterations e) (ze_denialType e).
Definition set_denialType (t : ZoneDenialType) (e : ZoneEntry) : ZoneEntry :=
  mkZE (ze_entries e) (ze_zone e) (ze_salt e) (ze_iterations e) t.
Definition set_parameters (salt : bytes) (iterations : Z) (e : ZoneEntry) : ZoneEntry :=
  mkZE (ze_entries e) (ze_zone e) salt iterations (ze_denialType e).

(** The static settings, and the size of an entry. *)
Record aggressive_settings : Type := {
  as_nsec3DenialProofMaxCost : Z;
  as_maxNSEC3CommonPrefix : Z;
  as_maxEntrySize : Z;
  as_sizeEstimate : NsecEntry -> Z;
}.

(** [AggressiveNSECCache]; a pointer is an index into [a_objects]. *)
Record Aggressive : Type := mkAggr {
  a_zones : SuffixMatchTree (option nat);
  a_objects : list ZoneEntry;
  a_entriesCount : Z;
  a_maxEntries : Z;
  a_nsecHits : Z;
  a_nsec3Hits : Z;
  a_nsecWildcardHits : Z;
  a_nsec3WildcardHits : Z;
}.

Definition aggressive_make (entries : Z) : Aggressive := mkAggr (tree_make None [] false) [] 0 entries 0 0 0 0.

Definition ag_set_zones (t : SuffixMatchTree (option nat)) (a : Aggressive) : Aggressive :=
  mkAggr t (a_objects a) (a_entriesCount a) (a_maxEntries a) (a_nsecHits a) (a_nsec3Hits a) (a_nsecWildcardHits a) (a_nsec3WildcardHits a).
Definition ag_set_objects (l : list ZoneEntry) (a : Aggressive) : Aggressive :=
  mkAggr (a_zones a) l (a_entriesCount a) (a_maxEntries a) (a_nsecHits a) (a_nsec3Hits a) (a_nsecWildcardHits a) (a_nsec3WildcardHits a).
Definition set_entriesCount (n : Z) (a : Aggressive) : Aggressive :=
  mkAggr (a_zones a) (a_objects a) n (a_maxEntries a) (a_nsecHits a) (a_nsec3Hits a) (a_nsecWildcardHits a) (a_nsec3WildcardHits a).
Definition setMaxEntries (n : Z) (a : Aggressive) : Aggressive :=
  mkAggr (a_zones a) (a_objects a) (a_entriesCount a) n (a_nsecHits a) (a_nsec3Hits a) (a_nsecWildcardHits a) (a_nsec3WildcardHits a).

(** The counters of hits. *)
Definition hit_nsec (a : Aggressive) : Aggressive :=
  mkAggr (a_zones a) (a_objects a) (a_entriesCount a) (a_maxEntries a) (a_nsecHits a + 1) (a_nsec3Hits a) (a_nsecWildcardHits a) (a_nsec3WildcardHits a).
Definition hit_nsec3 (a : Aggressive) : Aggressive :=
  mkAggr (a_zones a) (a_objects a) (a_entriesCount a) (a_maxEntries a) (a_nsecHits a) (a_nsec3Hits a + 1) (a_nsecWildcardHits a) (a_nsec3WildcardHits a).
Definition hit_nsec_wildcard (a : Aggressive) : Aggressive :=
  mkAggr (a_zones a) (a_objects a) (a_entriesCount a) (a_maxEntries a) (a_nsecHits a) (a_nsec3Hits a) (a_nsecWildcardHits a + 1) (a_nsec3WildcardHits a).
Definition hit_nsec3_wildcard (a : Aggressive) : Aggressive :=
  mkAggr (a_zones a) (a_objects a) (a_entriesCount a) (a_maxEntries a) (a_nsecHits a) (a_nsec3Hits a) (a_nsecWildcardHits a) (a_nsec3WildcardHits a + 1).

(** The object at a pointer, and a change of it. *)
Definition object (a : Aggressive) (p : nat) : ZoneEntry := default (zone_entry (mkDNSName [])) (a_objects a !! p).
Definition change_object (f : ZoneEntry -> ZoneEntry) (p : nat) (a : Aggressive) : Aggressive := ag_set_objects (<[p := f (object a p)]> (a_objects a)) a.

(** ** Zones *)

Definition getBestZone (zone : DNSName) : SM Aggressive (option nat) :=
  a ← sm_get id;
  got ← sm_lift (tree_lookup (a_zones a) zone);
  mret (default None got).

Definition ag_getZone (zone : DNSName) : SM Aggressive nat :=
  a ← sm_get id;
  got ← sm_lift (tree_lookup (a_zones a) zone);
  let fresh := length (a_objects a) in
  let create :=
    _ ← sm_modify (fun a => ag_set_zones (tree_add None zone (Some fresh) (a_zones a)) (ag_set_objects (a_objects a ++ [zone_entry zone]) a));
    mret fresh in
  match got with
  | Some (Some p) => if name_eqb (ze_zone (object a p)) zone then mret p else create
  | _ => create
  end.

(** [visit]: the children in their order, then the node. *)
Fixpoint tree_values {T} (t : SuffixMatchTree T) : list T :=
  (fix children cs := match cs with [] => [] | c :: cs => tree_values c ++ children cs end) (t_children t)
  ++ (if t_endNode t then [t_value t] else []).

(** The pointers of the zones that are not null. *)
Definition visited (a : Aggressive) : list nat := omap id (tree_values (a_zones a)).

Definition updateEntriesCount (a : Aggressive) : Aggressive :=
  set_entriesCount (fold_left (fun counter p => counter + zlen (ze_entries (object a p))) (visited a) 0) a.

Definition removeZoneInfo (zone : DNSName) (subzones : bool) : SM Aggressive unit :=
  if subzones then
    _ ← sm_modify (fun a => ag_set_zones (tree_remove None zone true (a_zones a)) a);
    sm_modify updateEntriesCount
  else
    a ← sm_get id;
    got ← sm_lift (tree_lookup (a_zones a) zone);
    match got with
    | Some (Some p) =>
        if negb (name_eqb (ze_zone (object a p)) zone) then mret tt
        else
          let removed := zlen (ze_entries (object a p)) in
          sm_modify (fun a => set_entriesCount (a_entriesCount a - removed) (ag_set_zones (tree_remove None zone false (a_zones a)) a))
    | _ => mret tt
    end.

(** ** Pruning *)

(** The first [todo] entries of a zone: what is left of them, with the rest, and how many went. *)
Fixpoint scan_expired (now : Z) (todo : nat) (l : list NsecEntry) : list NsecEntry * Z :=
  match todo, l with
  | S todo, e :: l =>
      let '(rest, n) := scan_expired now todo l in
      if ag_ttd e <=? now then (rest, n + 1) else (e :: rest, n)
  | _, _ => (l, 0)
  end.

(** The variables [erased] and [emptyEntries] of the first visit. *)
Fixpoint prune_expired (now : Z) (ps : list nat) (a : Aggressive) : Aggressive * (Z * list DNSName) :=
  match ps with
  | [] => (a, (0, []))
  | p :: ps =>
      let e := object a p in
      let '(l, n) := scan_expired now (Z.to_nat ((zlen (ze_entries e) + 9) / 10)) (ze_entries e) in
      let '(a, (erased, emptyEntries)) := prune_expired now ps (change_object (ze_set_entries l) p a) in
      (a, (n + erased, (if bool_decide (l = []) then [ze_zone e] else []) ++ emptyEntries))
  end.

Section pruning.
Context `{!Quotas}.

Definition inconsistent : exn := runtime_error "Inconsistent aggressive cache".

(** The second visit, with [toErase] and [entriesCount]; it gives [erased] and the zones
    that are empty. *)
Fixpoint prune_lru (ps : list nat) (toErase entriesCount : Z) : SM Aggressive (Z * list DNSName) :=
  match ps with
  | [] => mret (0, [])
  | p :: ps =>
      if entriesCount =? 0 then prune_lru ps toErase entriesCount
      else
        e ← sm_get (fun a => object a p);
        let zoneSize := zlen (ze_entries e) in
        let toTrimForThisZone := trim_quota toErase zoneSize entriesCount in
        _ ← sm_throw_if (entriesCount <? zoneSize) inconsistent;
        let n := Z.max 0 (Z.min (Z.min toTrimForThisZone zoneSize) toErase) in
        let l := zdrop n (ze_entries e) in
        _ ← sm_modify (change_object (ze_set_entries l) p);
        '(erased, emptyEntries) ← prune_lru ps (toErase - n) (entriesCount - zoneSize);
        mret (n + erased, (if bool_decide (l = []) then [ze_zone e] else []) ++ emptyEntries)
  end.

Definition remove_zones (names : list DNSName) (a : Aggressive) : Aggressive :=
  fold_left (fun a n => ag_set_zones (tree_remove None n false (a_zones a)) a) names a.

Definition aggressive_prune (now : Z) : SM Aggressive unit :=
  maxNumberOfEntries ← sm_get a_maxEntries;
  ps ← sm_get visited;
  '(erased, empty1) ← (fun a => let '(a, r) := prune_expired now ps a in (a, Ok r));
  _ ← sm_modify (fun a => set_entriesCount (a_entriesCount a - erased) a);
  entriesCount ← sm_get a_entriesCount;
  empty2 ← (if maxNumberOfEntries <? entriesCount then
              '(erased, empty2) ← prune_lru ps (entriesCount - maxNumberOfEntries) entriesCount;
              _ ← sm_modify (fun a => set_entriesCount (a_entriesCount a - erased) a);
              mret empty2
            else mret []);
  sm_modify (remove_zones (empty1 ++ empty2)).
End pruning.

(** ** Insertion *)

Definition isMinimallyCoveringNSEC (owner : DNSName) (nsec : NSECRecordContent) : bool :=
  let storage := d_storage owner in
  let nextStorage := d_storage (nsec_next nsec) in
  if (zlen nextStorage <=? 2) || negb (zlen storage =? zlen nextStorage - 2) then false
  else if negb (bool_decide (zat nextStorage 0 = Some 1)) || negb (bool_decide (zat nextStorage 1 = Some 0)) then false
  else bool_decide (zdrop 2 nextStorage = storage).

(** The loop over the bits of two bytes that differ. *)
Fixpoint common_bits (j : nat) (byte1 byte2 length bound : Z) : bool :=
  match j with
  | O => bound <? length
  | S j =>
      if negb (Bool.eqb (Z.testbit byte1 (Z.of_nat j)) (Z.testbit byte2 (Z.of_nat j))) then bound <? length
      else if bound <? length + 1 then true
      else common_bits j byte1 byte2 (length + 1) bound
  end.

Fixpoint commonPrefixIsLong_loop (one two : bytes) (length bound : Z) : bool :=
  match one, two with
  | byte1 :: one, byte2 :: two =>
      if byte1 =? byte2 then commonPrefixIsLong_loop one two (length + 8) bound
      else if byte2 <? byte1 then false
      else if bound <? length then true
      else common_bits 8 byte1 byte2 length bound
  | _, _ => bound <? length
  end.

Definition commonPrefixIsLong (one two : bytes) (bound : Z) : bool := commonPrefixIsLong_loop one two 0 bound.

Section inserting.
Context (settings : aggressive_settings) (cfg : validator_settings).

Definition nsec3Disabled : bool := as_maxNSEC3CommonPrefix settings =? 0.

Definition isSmallCoveringNSEC3 (owner : DNSName) (nextHash : bytes) : result bool :=
  label ← getRawLabel owner 0;
  let ownerHash := fromBase32Hex label in
  Ok (if bool_decide (ownerHash = nextHash) then false else commonPrefixIsLong ownerHash nextHash (as_maxNSEC3CommonPrefix settings)).

(** [DNSName(toBase32Hex(hash)) + zone]. *)
Definition hash_name (hash : bytes) (zone : DNSName) : result DNSName :=
  n ← DNSName_from_text (toBase32Hex hash); name_append n zone.

(** The checks of an NSEC record: the next name when it may be stored. *)
Definition check_nsec (zone owner : DNSName) (record : rr_content) : result (option DNSName) :=
  match as_nsec record with
  | None => Throw (runtime_error "Error getting the content from a NSEC record")
  | Some content =>
      let next := nsec_next content in
      inside ← isPartOf next zone;
      if negb inside then Ok None
      else if canonCompare next owner false && negb (wirelength next =? wirelength zone) then Ok None
      else if isMinimallyCoveringNSEC owner content then Ok None
      else Ok (Some next)
  end.

(** Those of an NSEC3 record, which may empty the zone. *)
Definition check_nsec3 (p : nat) (zone : DNSName) (record : rr_content) : SM Aggressive (option DNSName) :=
  match as_nsec3 record with
  | None => sm_throw (runtime_error "Error getting the content from a NSEC3 record")
  | Some content =>
      if isOptOut content then mret None
      else if negb (g_maxNSEC3Iterations cfg =? 0) && (g_maxNSEC3Iterations cfg <? nsec3_iterations content) then mret None
      else
        next ← sm_lift (hash_name (nsec3_nexthash content) zone);
        e ← sm_get (fun a => object a p);
        _ ← (if negb (ze_iterations e =? nsec3_iterations content) || negb (bool_decide (ze_salt e = nsec3_salt content)) then
               sm_modify (fun a => change_object (fun e => ze_set_entries [] (set_parameters (nsec3_salt content) (nsec3_iterations content) e)) p
                                     (set_entriesCount (a_entriesCount a - zlen (ze_entries e)) a))
             else mret tt);
        mret (Some next)
  end.

(** Two owners that the ordered index takes for the same. *)
Definition same_owner (a b : NsecEntry) : bool := name_eqb (ag_owner a) (ag_owner b).

Definition store_entry (p : nat) (e : NsecEntry) (a : Aggressive) : Aggressive :=
  let l := ze_entries (object a p) in
  if existsb (same_owner e) l
  then change_object (ze_set_entries (map (fun x => if same_owner e x then e else x) l)) p a
  else change_object (ze_set_entries (l ++ [e])) p (set_entriesCount (a_entriesCount a + 1) a).

Definition wanted_type (nsec3 : bool) : ZoneDenialType := if nsec3 then DenialNSEC3 else DenialNSEC.

(** The type of the zone is set by its first record. *)
Definition accepts_type (nsec3 : bool) (p : nat) : SM Aggressive bool :=
  e ← sm_get (fun a => object a p);
  match ze_denialType e with
  | DenialUnknown => _ ← sm_modify (change_object (set_denialType (wanted_type nsec3)) p); mret true
  | t => mret (bool_decide (t = wanted_type nsec3))
  end.

(** What [insertNSEC] does once it has the zone. *)
Definition insertNSEC_at (p : nat) (zone owner : DNSName) (record : rr_content) (ttl : Z) (signatures : list RRSIGRecordContent)
    (signature : RRSIGRecordContent) (nsec3 : bool) (qname : DNSName) (qtype : Z) : SM Aggressive unit :=
  accepted ← accepts_type nsec3 p;
  if negb accepted then mret tt
  else
    next ← (if nsec3 then check_nsec3 p zone record else sm_lift (check_nsec zone owner record));
    match next with
    | None => mret tt
    | Some next =>
        realOwner ← (if negb nsec3 && isWildcardExpanded_labels (countLabels owner) signature
                     then sm_lift (getNSECOwnerName owner signatures) else mret owner);
        let e := mkNE record signatures realOwner next qname ttl qtype in
        if (0 <? as_maxEntrySize settings) && (as_maxEntrySize settings <? as_sizeEstimate settings e) then mret tt
        else sm_modify (store_entry p e)
    end.

(** [record] is the content, and [ttl] already a time. *)
Definition insertNSEC (zone owner : DNSName) (record : rr_content) (ttl : Z) (signatures : list RRSIGRecordContent) (nsec3 : bool) (qname : DNSName) (qtype : Z)
  : SM Aggressive unit :=
  if nsec3 && nsec3Disabled then mret tt
  else
    match signatures with
    | [] => mret tt
    | signature :: _ => p ← ag_getZone zone; insertNSEC_at p zone owner record ttl signatures signature nsec3 qname qtype
    end.
End inserting.

(** ** Lookups in a zone *)

Definition owner_leb (a b : NsecEntry) : bool := canonCompare (ag_owner a) (ag_owner b) false.

(** The entries before [lower_bound], from the last to the first. *)
Fixpoint before_bound (name : DNSName) (l acc : list NsecEntry) : list NsecEntry :=
  match l with
  | [] => acc
  | x :: l => if canonCompare (ag_owner x) name false then before_bound name l (x :: acc) else acc
  end.

(** The loop backwards: [cur] is what the iterator points at, [None] the end of the
    index. *)
Fixpoint step_back (name : DNSName) (cur : option NsecEntry) (before : list NsecEntry) : option NsecEntry :=
  let stop := match cur with Some e => name_eqb (ag_owner e) name || canonCompare (ag_owner e) name false | None => false end in
  if stop then cur
  else match before with
       | [] => None
       | x :: before => step_back name (Some x) before
       end.

(** The entry the search of [getNSECBefore] ends at, in an index that is not empty. *)
Definition entry_before (name : DNSName) (l : list NsecEntry) : option NsecEntry :=
  let idx := ordered_index owner_leb l in
  let before := before_bound name idx [] in
  let it := head (lower_bound ag_owner name idx) in
  match before, it with
  | [], Some e => if negb (name_eqb (ag_owner e) name) then last idx else step_back name it before
  | _, _ => step_back name it before
  end.

(** An entry that is used goes to the back, one that expired to the front. *)
Definition use_entry (now : Z) (p : nat) (e : NsecEntry) : SM Aggressive (option NsecEntry) :=
  if ag_ttd e <=? now then
    _ ← sm_modify (change_object (fun z => ze_set_entries (moveCacheItemToFront (same_owner e) (ze_entries z)) z) p);
    mret None
  else
    _ ← sm_modify (change_object (fun z => ze_set_entries (moveCacheItemToBack (same_owner e) (ze_entries z)) z) p);
    mret (Some e).

Definition getNSECBefore (now : Z) (p : nat) (name : DNSName) : SM Aggressive (option NsecEntry) :=
  l ← sm_get (fun a => ze_entries (object a p));
  if bool_decide (l = []) then mret None
  else
    match entry_before name l with
    | None => mret None
    | Some e => use_entry now p e
    end.

Definition getNSEC3 (now : Z) (p : nat) (name : DNSName) : SM Aggressive (option NsecEntry) :=
  l ← sm_get (fun a => ze_entries (object a p));
  match List.find (fun e => name_eqb (ag_owner e) name) l with
  | None => mret None
  | Some e => use_entry now p e
  end.
