(* ===== verification/AggressiveDenial.v ===== *)
(** * Answers from the aggressive NSEC cache

    [AggressiveNSECCache::getDenial] of [pdns/recursordist/aggressive_nsec.cc]: a
    negative answer, or one synthesized from a wildcard, out of cached NSEC or NSEC3
    records and of the record cache.  The hash of NSEC3 is a parameter, as in the
    validator.  Log lines are left out. *)

From stdpp Require Import gmap.
From S2P Require Import Prelude Chars Dns Names NamesOrder Base32 NsecBitmap Denial.
From S2P Require Import IpUtils Validate TaskQueue RecursorCache AggressiveNsec.

#[local] Open Scope Z_scope.

(** ** The answer *)

Module RCode.
Definition NoError : Z := 0.
Definition NXDomain : Z := 3.
End RCode.

(** The content of a record of the answer: from the record cache, of a cached entry,
    or a signature. *)
Inductive answer_content (C : Type) : Type :=
| FromCache (c : C)
| DenialRecord (r : rr_content)
| SignatureRecord (s : RRSIGRecordContent).
Arguments FromCache {C} _.
Arguments DenialRecord {C} _.
Arguments SignatureRecord {C} _.

(** A record of class [IN]. *)
Record answer_record (C : Type) : Type := mkAR {
  an_name : DNSName;
  an_type : Z;
  an_ttl : Z;
  an_content : answer_content C;
  an_place : Place;
}.
Arguments mkAR {C} _ _ _ _ _.
Arguments an_name {C} _.
Arguments an_type {C} _.
Arguments an_ttl {C} _.
Arguments an_content {C} _.
Arguments an_place {C} _.

(** The signatures of a set, when they are wanted. *)
Definition add_signatures {C} (signatures : list RRSIGRecordContent) (owner : DNSName) (ttl : Z) (place : Place) (doDNSSEC : bool)
  : list (answer_record C) :=
  if doDNSSEC then map (fun s => mkAR owner QType.RRSIG ttl (SignatureRecord s) place) signatures else [].

(** [addToRRSet]: what it adds.  The records come from the record cache, which gives
    them class [IN]; the TTL of the signatures is that of the last of them. *)
Definition addToRRSet {C} (now : Z) (recordSet : list (found_record C)) (signatures : list RRSIGRecordContent) (owner : DNSName) (doDNSSEC : bool)
    (place : Place) : list (answer_record C) :=
  let ttl := match last recordSet with Some r => u32 (fr_ttl r - now) | None => 0 end in
  map (fun r => mkAR owner (fr_type r) (u32 (fr_ttl r - now)) (FromCache (fr_content r)) place) recordSet
  ++ add_signatures signatures owner ttl place doDNSSEC.

Definition addRecordToRRSet {C} (owner : DNSName) (type ttl : Z) (content : rr_content) (signatures : list RRSIGRecordContent) (doDNSSEC : bool)
  : list (answer_record C) :=
  mkAR owner type ttl (DenialRecord content) AUTHORITY :: add_signatures signatures owner ttl AUTHORITY doDNSSEC.

(** An entry as it is added to an answer. *)
Definition add_entry {C} (now type : Z) (e : NsecEntry) (doDNSSEC : bool) : list (answer_record C) :=
  addRecordToRRSet (ag_owner e) type (u32 (ag_ttd e - now)) (ag_record e) (ag_signatures e) doDNSSEC.

(** ** The state of a query *)

Record World (C Au : Type) : Type := mkWorld {
  w_aggressive : Aggressive;
  w_recCache : list (Content C RRSIGRecordContent Au);
  w_tasks : list push_op;
  w_context : ValidationContext;
}.
Arguments mkWorld {C Au} _ _ _ _.
Arguments w_aggressive {C Au} _.
Arguments w_recCache {C Au} _.
Arguments w_tasks {C Au} _.
Arguments w_context {C Au} _.

Definition getNSEC3DenialProofWorstCaseIterationsCount (maxLabels iterations saltLength : Z) : Z :=
  u32 (iterations + 1 + (if 0 <? saltLength then 1 else 0)) * u8 maxLabels.

Section denial.
Context {C Au : Type} (rec : cache_settings C RRSIGRecordContent Au) `{!RangeIndex C RRSIGRecordContent Au}.
Context (SHA1 : bytes -> bytes) (cfg : validator_settings) (settings : aggressive_settings).

#[local] Notation world := (World C Au).
#[local] Notation answers := (list (answer_record C)).

Definition in_aggressive {A} (m : SM Aggressive A) : SM world A :=
  fun w => let '(a, r) := m (w_aggressive w) in (mkWorld a (w_recCache w) (w_tasks w) (w_context w), r).

Definition in_validation {A} (m : SM ValidationContext A) : SM world A :=
  fun w => let '(c, r) := m (w_context w) in (mkWorld (w_aggressive w) (w_recCache w) (w_tasks w) c, r).

(** [g_recCache->get] for authoritative data: the records and signatures, when there
    are some and they are [Secure]. *)
Definition secure_get (now : Z) (name : DNSName) (type : Z) (who : ComboAddress) (routingTag : bytes) (doDNSSEC : bool)
  : SM world (option (list (found_record C) * list RRSIGRecordContent)) :=
  fun w =>
    let g := mrc_get rec (w_recCache w) now true name type RequireAuth who routingTag (if doDNSSEC then Some [] else None) false in
    (mkWorld (w_aggressive w) (ga_maps g) (w_tasks w ++ ga_tasks g) (w_context w),
     match ga_ret g with
     | Throw e => Throw e
     | Ok ret =>
         Ok (if (ret <=? 0) || negb (bool_decide (o_state (ga_out g) = Some Secure)) then None
             else Some (o_res (ga_out g), if doDNSSEC then default [] (o_signatures (ga_out g)) else []))
     end).

Definition localhost : ComboAddress := mkCA 2 0 [127; 0; 0; 1].

(** The two functions that synthesize from a wildcard differ in the type of the
    record and in the counter. *)
Definition synthesize (now : Z) (name : DNSName) (type : Z) (doDNSSEC : bool) (denialType : Z) (hit : Aggressive -> Aggressive) (e : NsecEntry)
    (wildcardName : DNSName) : SM world (option (Z * answers)) :=
  found ← secure_get now wildcardName type localhost NOTAG doDNSSEC;
  match found with
  | None => mret None
  | Some (wcSet, wcSignatures) =>
      _ ← in_aggressive (sm_modify hit);
      mret (Some (RCode.NoError, addToRRSet now wcSet wcSignatures name doDNSSEC ANSWER ++ add_entry now denialType e doDNSSEC))
  end.

Definition synthesizeFromNSEC3Wildcard (now : Z) (name : DNSName) (type : Z) (doDNSSEC : bool) (nextCloser : NsecEntry) (wildcardName : DNSName)
  : SM world (option (Z * answers)) :=
  synthesize now name type doDNSSEC QType.NSEC3 hit_nsec3_wildcard nextCloser wildcardName.

Definition synthesizeFromNSECWildcard (now : Z) (name : DNSName) (type : Z) (doDNSSEC : bool) (nsec : NsecEntry) (wildcardName : DNSName)
  : SM world (option (Z * answers)) :=
  synthesize now name type doDNSSEC QType.NSEC hit_nsec_wildcard nsec wildcardName.

(** ** NSEC3 *)

(** [DNSName(toBase32Hex(getHashFromNSEC3(name, ...))) + zone]. *)
Definition hashed_name (name : DNSName) (iterations : Z) (salt : bytes) (zone : DNSName) : SM world DNSName :=
  hash ← in_validation (getHashFromNSEC3 SHA1 cfg name iterations salt);
  sm_lift (hash_name hash zone).

(** The content of an entry, when it is an NSEC3 record with the parameters of the
    zone. *)
Definition valid_nsec3 (e : NsecEntry) (iterations : Z) (salt : bytes) : option NSEC3RecordContent :=
  match as_nsec3 (ag_record e) with
  | Some nsec3 => if negb (nsec3_iterations nsec3 =? iterations) || negb (bool_decide (nsec3_salt nsec3 = salt)) then None else Some nsec3
  | None => None
  end.

(** The record comes from the child zone and cannot deny a DS. *)
Definition from_child (type : Z) (name signer : DNSName) : bool := (type =? QType.DS) && negb (isRoot name) && name_eqb signer name.

(** The exact match: whether the entry denies the type at the name. *)
Definition exact_denies (name : DNSName) (type iterations : Z) (salt : bytes) (exact : NsecEntry) : bool :=
  match valid_nsec3 exact iterations salt with
  | None => false
  | Some nsec3 =>
      let signer := getSigner (ag_signatures exact) in
      if negb (isTypeDenied (nsec3_bitmap nsec3) type) then false
      else if negb (type =? QType.DS) && isNSECAncestorDelegation signer (ag_owner exact) (nsec3_bitmap nsec3) then false
      else negb (from_child type name signer)
  end.

(** Whether the entry found for a candidate makes it the closest encloser. *)
Definition encloses (name : DNSName) (type iterations : Z) (salt : bytes) (closest : NsecEntry) : bool :=
  match valid_nsec3 closest iterations salt with
  | None => false
  | Some nsec3 =>
      let signer := getSigner (ag_signatures closest) in
      if isNSECAncestorDelegation signer (ag_owner closest) (nsec3_bitmap nsec3) then false
      else if from_child type name signer then false
      else negb (isSet (nsec3_bitmap nsec3) QType.DNAME)
  end.

(** The loop for the closest encloser; the fuel is more than the labels of the
    name. *)
Fixpoint encloser_loop (fuel : nat) (now : Z) (p : nat) (name : DNSName) (type : Z) (zone : DNSName) (iterations : Z) (salt : bytes)
    (closestEncloser : DNSName) (remainingLabels : Z) : SM world (option (DNSName * NsecEntry)) :=
  match fuel with
  | O => mret None
  | S fuel =>
      let '(closestEncloser, chopped) := chopOff closestEncloser in
      if negb (chopped && (countLabels zone <=? remainingLabels)) then mret None
      else
        closestHash ← hashed_name closestEncloser iterations salt zone;
        found ← in_aggressive (getNSEC3 now p closestHash);
        match found with
        | None => encloser_loop fuel now p name type zone iterations salt closestEncloser (u32 (remainingLabels - 1))
        | Some closest => mret (if encloses name type iterations salt closest then Some (closestEncloser, closest) else None)
        end
  end.

(** An entry that covers the hash of a name: [None] when there is none that can be
    used. *)
Definition covering_entry (name : DNSName) (type iterations : Z) (salt : bytes) (hashName : DNSName) (e : NsecEntry) : bool :=
  if negb (isCoveredByNSEC hashName (ag_owner e) (ag_next e)) then false
  else match valid_nsec3 e iterations salt with
       | None => false
       | Some _ => negb (from_child type name (getSigner (ag_signatures e)))
       end.

(** What the entry at or before the hash of the wildcard tells. *)
Inductive wildcard_verdict : Type := WcNothing | WcSynthesize | WcNoData | WcNXDomain.

Definition wildcard_entry (name : DNSName) (type iterations : Z) (salt : bytes) (hashName : DNSName) (e : NsecEntry) : wildcard_verdict :=
  if name_eqb hashName (ag_owner e) then
    match valid_nsec3 e iterations salt with
    | None => WcNothing
    | Some nsec3 =>
        let signer := getSigner (ag_signatures e) in
        if negb (type =? QType.DS) && isNSECAncestorDelegation signer (ag_owner e) (nsec3_bitmap nsec3) then WcNothing
        else if from_child type name signer then WcNothing
        else if negb (isTypeDenied (nsec3_bitmap nsec3) type) then WcSynthesize
        else WcNoData
    end
  else if covering_entry name type iterations salt hashName e then WcNXDomain else WcNothing.

(** The records of a proof from NSEC3: none twice. *)
Definition proof_records (now : Z) (doDNSSEC : bool) (closest nextCloser wc : NsecEntry) : answers :=
  add_entry now QType.NSEC3 closest doDNSSEC
  ++ (if negb (name_eqb (ag_owner nextCloser) (ag_owner closest)) then add_entry now QType.NSEC3 nextCloser doDNSSEC else [])
  ++ (if negb (name_eqb (ag_owner wc) (ag_owner closest)) && negb (name_eqb (ag_owner wc) (ag_owner nextCloser))
      then add_entry now QType.NSEC3 wc doDNSSEC else []).

(** After the closest encloser is found. *)
Definition nsec3_proof (now : Z) (p : nat) (soa : answers) (name : DNSName) (type : Z) (doDNSSEC : bool) (zone : DNSName) (iterations : Z) (salt : bytes)
    (closestEncloser : DNSName) (closest : NsecEntry) : SM world (option (Z * answers)) :=
  let labelIdx := u32 (countLabels name - countLabels closestEncloser) in
  if labelIdx <? 1 then mret None
  else
    label ← sm_lift (getRawLabel name (labelIdx - 1));
    nextCloser ← sm_lift (prependRawLabel closestEncloser label);
    nextCloserHash ← hashed_name nextCloser iterations salt zone;
    found ← in_aggressive (getNSECBefore now p nextCloserHash);
    match found with
    | None => mret None
    | Some nextCloserEntry =>
        if negb (covering_entry name type iterations salt nextCloserHash nextCloserEntry) then mret None
        else
          wildcard ← sm_lift (name_append g_wildcarddnsname closestEncloser);
          wcHash ← hashed_name wildcard iterations salt zone;
          found ← in_aggressive (getNSECBefore now p wcHash);
          match found with
          | None => mret None
          | Some wcEntry =>
              let answer res :=
                _ ← in_aggressive (sm_modify hit_nsec3);
                mret (Some (res, soa ++ proof_records now doDNSSEC closest nextCloserEntry wcEntry)) in
              match wildcard_entry name type iterations salt wcHash wcEntry with
              | WcNothing => mret None
              | WcSynthesize => synthesizeFromNSEC3Wildcard now name type doDNSSEC nextCloserEntry wildcard
              | WcNoData => answer RCode.NoError
              | WcNXDomain => answer RCode.NXDomain
              end
          end
    end.

(** [soa] is what [addToRRSet] adds for the SOA. *)
Definition getNSEC3Denial (now : Z) (p : nat) (soa : answers) (name : DNSName) (type : Z) (doDNSSEC : bool) : SM world (option (Z * answers)) :=
  e ← in_aggressive (sm_get (fun a => object a p));
  let salt := ze_salt e in
  let zone := ze_zone e in
  let iterations := ze_iterations e in
  if negb (as_nsec3DenialProofMaxCost settings =? 0)
     && (as_nsec3DenialProofMaxCost settings
         <? getNSEC3DenialProofWorstCaseIterationsCount (u32 (countLabels name - countLabels zone)) iterations (zlen salt)) then mret None
  else
    nameHash ← hashed_name name iterations salt zone;
    found ← in_aggressive (getNSEC3 now p nameHash);
    match found with
    | Some exactNSEC3 =>
        if exact_denies name type iterations salt exactNSEC3 then
          _ ← in_aggressive (sm_modify hit_nsec3);
          mret (Some (RCode.NoError, soa ++ add_entry now QType.NSEC3 exactNSEC3 doDNSSEC))
        else mret None
    | None =>
        found ← encloser_loop (S (length (d_storage name))) now p name type zone iterations salt name (u32 (countLabels name - 1));
        match found with
        | None => mret None
        | Some (closestEncloser, closest) => nsec3_proof now p soa name type doDNSSEC zone iterations salt closestEncloser closest
        end
    end.

(** ** NSEC *)

(** An NSEC that proves that the name does not exist: the search for the wildcard. *)
Definition nsec_wildcard (now : Z) (p : nat) (soa : answers) (name : DNSName) (type : Z) (doDNSSEC : bool) (e : NsecEntry)
  : SM world (option (Z * answers)) :=
  closestEncloser ← sm_lift (getClosestEncloserFromNSEC name (ag_owner e) (ag_next e));
  wc ← sm_lift (name_append g_wildcarddnsname closestEncloser);
  found ← in_aggressive (getNSECBefore now p wc);
  match found with
  | None => mret None
  | Some wcEntry =>
      match as_nsec (ag_record wcEntry) with
      | None => mret None
      | Some nsecContent =>
          denial ← sm_lift (matchesNSEC wc type (ag_owner wcEntry) nsecContent (ag_signatures wcEntry));
          let needWildcard := negb (name_eqb (ag_owner wcEntry) wc) && negb (name_eqb (ag_owner wcEntry) (ag_owner e)) in
          let answer res :=
            _ ← in_aggressive (sm_modify hit_nsec);
            mret (Some (res, soa ++ add_entry now QType.NSEC e doDNSSEC
                              ++ (if needWildcard then add_entry now QType.NSEC wcEntry doDNSSEC else []))) in
          match denial with
          | NODENIAL | INCONCLUSIVE =>
              if name_eqb (ag_owner wcEntry) wc then synthesizeFromNSECWildcard now name type doDNSSEC e wc else mret None
          | NXQTYPE => answer RCode.NoError
          | NXDOMAIN => answer RCode.NXDomain
          | _ => mret None
          end
      end
  end.

(** The NSEC branch of [getDenial]. *)
Definition getNSECDenial (now : Z) (p : nat) (soa : answers) (name : DNSName) (type : Z) (doDNSSEC : bool) : SM world (option (Z * answers)) :=
  found ← in_aggressive (getNSECBefore now p name);
  match found with
  | None => mret None
  | Some e =>
      match as_nsec (ag_record e) with
      | None => mret None
      | Some content =>
          denial ← sm_lift (matchesNSEC name type (ag_owner e) content (ag_signatures e));
          match denial with
          | NXQTYPE =>
              _ ← in_aggressive (sm_modify hit_nsec);
              mret (Some (RCode.NoError, soa ++ add_entry now QType.NSEC e doDNSSEC))
          | NXDOMAIN => nsec_wildcard now p soa name type doDNSSEC e
          | _ => mret None
          end
      end
  end.

(** [AggressiveNSECCache::getDenial]: [None] is [false], otherwise [res] and the
    records added to [ret]. *)
Definition aggressive_getDenial (now : Z) (name : DNSName) (type : Z) (who : ComboAddress) (routingTag : bytes) (doDNSSEC : bool)
  : SM world (option (Z * answers)) :=
  zoneEntry ← in_aggressive (getBestZone (if type =? QType.DS then fst (chopOff name) else name));
  match zoneEntry with
  | None => mret None
  | Some p =>
      e ← in_aggressive (sm_get (fun a => object a p));
      if bool_decide (ze_entries e = []) then mret None
      else
        soa ← secure_get now (ze_zone e) QType.SOA who routingTag doDNSSEC;
        match soa with
        | None => mret None
        | Some (soaSet, soaSignatures) =>
            let soa := addToRRSet now soaSet soaSignatures (ze_zone e) doDNSSEC AUTHORITY in
            if bool_decide (ze_denialType e = DenialNSEC3) then getNSEC3Denial now p soa name type doDNSSEC
            else getNSECDenial now p soa name type doDNSSEC
        end
  end.
End denial.
