(* ===== verification/AggressiveLookup.v ===== *)
(** * Lookups in the aggressive NSEC cache

    [getNSECBefore] and [getNSEC3] of [pdns/recursordist/aggressive_nsec.cc]: the search
    ends at the entry with the greatest owner not after the name, or at the last one
    when all are after it; and it only moves entries in the sequence index. *)

From Stdlib Require Import Sorted.
From S2P Require Import Prelude Chars Dns Names NamesFacts NamesOrder NamesSpec NsecBitmap Denial DenialFacts.
From S2P Require Import NameIndex CacheCleaner SuffixTree AggressiveNsec.

#[local] Open Scope Z_scope.

Abbreviation okey := (fun e : NsecEntry => nkey (ag_owner e)).

(** The entries of a zone: legal owners, each once. *)
Record owners_ok (l : list NsecEntry) : Prop := {
  eo_named : Forall (fun e => named (ag_owner e)) l;
  eo_unique : NoDup (map (fun e => nkey (ag_owner e)) l);
}.

Lemma same_owner_key a b : named (ag_owner a) -> named (ag_owner b) -> same_owner a b = true <-> okey a = okey b.
Proof. apply name_eqb_key. Qed.

(** Entries with the same owner are the same entry. *)
Lemma entries_inj l a b : owners_ok l -> a ∈ l -> b ∈ l -> okey a = okey b -> a = b.
Proof.
  intros [_ Hu] Ha Hb E. apply list_elem_of_lookup in Ha as [i Hi], Hb as [j Hj].
  assert (i = j) as ->; [|congruence]. apply (NoDup_lookup _ i j (okey a) Hu); rewrite list_lookup_fmap.
  - by rewrite Hi.
  - by rewrite Hj, E.
Qed.

Lemma entries_submseteq l l' : l' ⊆+ l -> owners_ok l -> owners_ok l'.
Proof.
  intros Hs [Hn Hu]. split.
  - rewrite Forall_forall in *. intros e He. apply Hn. by eapply elem_of_submseteq.
  - apply submseteq_Permutation in Hs as [k Hk]. rewrite Hk, map_app in Hu. by apply NoDup_app in Hu as [? _].
Qed.

(** ** The search *)

(** The entry is at or before the name and no other is closer; or all are after the
    name and it is the last. *)
Definition best_before (name : key) (l : list NsecEntry) (e : NsecEntry) : Prop :=
  e ∈ l /\
  ((okey e ≤k name /\ forall x, x ∈ l -> okey x ≤k name -> okey x ≤k okey e)
   \/ ((forall x, x ∈ l -> name <k okey x) /\ forall x, x ∈ l -> okey x ≤k okey e)).

Lemma best_before_unique name l a b : owners_ok l -> best_before name l a -> best_before name l b -> a = b.
Proof.
  intros Hl [Ha Ha'] [Hb Hb']. apply (entries_inj l); [done..|].
  destruct Ha' as [[H1 H2]|[H1 H2]], Hb' as [[H3 H4]|[H3 H4]].
  - apply kle_antisym; auto.
  - apply H3, klt_nle in Ha. done.
  - apply H1, klt_nle in Hb. done.
  - apply kle_antisym; auto.
Qed.

Lemma owner_leb_name a b :
  named (ag_owner a) -> named (ag_owner b) -> if owner_leb a b then name_le ag_owner a b else name_le ag_owner b a.
Proof.
  intros Ha Hb. unfold owner_leb, name_le. pose proof (canonCompare_key _ _ Ha Hb) as H. destruct (canonCompare _ _ _).
  - apply kle_cases. left. by apply H.
  - apply knlt_le. intros Hlt. by apply H in Hlt.
Qed.

(** What is before the bound, from the last to the first, and what is not. *)
Lemma bound_split name l acc :
  exists pre, l = pre ++ lower_bound ag_owner name l /\ before_bound name l acc = reverse pre ++ acc
    /\ Forall (fun x => canonCompare (ag_owner x) name false = true) pre
    /\ (forall x, head (lower_bound ag_owner name l) = Some x -> canonCompare (ag_owner x) name false = false).
Proof.
  revert acc. induction l as [|x l IH]; intros acc; cbn.
  - exists []. by repeat split.
  - destruct (canonCompare (ag_owner x) name false) eqn:Hc.
    + destruct (IH (x :: acc)) as (pre & El & Eb & Hf & Hh). exists (x :: pre).
      split_and!; [by rewrite El at 1| |by constructor|done]. rewrite Eb, reverse_cons, <- app_assoc. done.
    + exists []. split_and!; [done|done|constructor|]. by intros ? [= <-].
Qed.

Lemma sorted_last_max (l : list NsecEntry) x e :
  StronglySorted (name_le ag_owner) l -> last l = Some e -> x ∈ l -> okey x ≤k okey e.
Proof.
  intros Hs. revert x. induction Hs as [|y l Hs IH Hy]; intros x He Hx; [by apply elem_of_nil in Hx|].
  destruct l as [|z l].
  - injection He as <-. apply list_elem_of_singleton in Hx as ->. apply kle_cases. by right.
  - assert (last (z :: l) = Some e) as He' by done. apply elem_of_cons in Hx as [->|Hx]; [|by apply IH].
    rewrite Forall_forall in Hy. apply Hy. by apply last_Some_elem_of.
Qed.

Section search.
Context (name : DNSName) (Hname : named name) (l : list NsecEntry) (Hl : owners_ok l).

#[local] Notation idx := (ordered_index owner_leb l).

Lemma idx_sorted : StronglySorted (name_le ag_owner) idx.
Proof. apply ordered_sorted; [exact owner_leb_name|apply Hl]. Qed.

Lemma idx_in x : x ∈ idx <-> x ∈ l.
Proof. by rewrite ordered_perm. Qed.

Lemma idx_named x : x ∈ idx -> named (ag_owner x).
Proof. rewrite idx_in. pose proof (eo_named _ Hl) as Hn. rewrite Forall_forall in Hn. apply Hn. Qed.

Lemma sorted_app_le pre post x y : idx = pre ++ post -> x ∈ pre -> y ∈ post -> okey x ≤k okey y.
Proof.
  intros E Hx Hy. pose proof idx_sorted as Hs. rewrite E in Hs. clear E. induction pre as [|z pre IH]; [by apply elem_of_nil in Hx|].
  cbn in Hs. inversion Hs as [|? ? Hs' Hz]; subst. apply elem_of_cons in Hx as [->|Hx]; [|by apply IH].
  rewrite Forall_forall in Hz. apply Hz. set_solver.
Qed.

Lemma kle_trans a b c : a ≤k b -> b ≤k c -> a ≤k c.
Proof. rewrite (kle_cases a). intros [H| ->] H2; [|done]. apply kle_cases. left. by eapply klt_le_trans. Qed.

Lemma kle_refl k : k ≤k k.
Proof. apply kle_cases. by right. Qed.

Lemma not_before_le x : named (ag_owner x) -> canonCompare (ag_owner x) name false = false -> nkey name ≤k okey x.
Proof. intros Hx Hc. apply knlt_le. intros Hlt. apply (canonCompare_key _ _ Hx Hname) in Hlt. congruence. Qed.

(** The parts of the index before the bound and from it on. *)
Lemma bound_parts :
  exists pre post, idx = pre ++ post /\ before_bound name idx [] = reverse pre /\ lower_bound ag_owner name idx = post
    /\ (forall x, x ∈ l <-> x ∈ pre \/ x ∈ post)
    /\ (forall x, x ∈ pre -> canonCompare (ag_owner x) name false = true /\ okey x <k nkey name)
    /\ (forall x, x ∈ post -> nkey name ≤k okey x).
Proof.
  destruct (bound_split name idx []) as (pre & Ei & Eb & Hpre & Hhead). rewrite app_nil_r in Eb.
  exists pre, (lower_bound ag_owner name idx). set (post := lower_bound ag_owner name idx) in *.
  split_and!; [done..| | |].
  - intros x. by rewrite <- idx_in, Ei, elem_of_app.
  - intros x Hx. rewrite Forall_forall in Hpre. split; [by apply Hpre|].
    apply canonCompare_key; [|done|by apply Hpre]. apply idx_named. rewrite Ei. set_solver.
  - intros x Hx. destruct post as [|y post'] eqn:Ep; [by apply elem_of_nil in Hx|].
    assert (y ∈ idx) as Hy by (rewrite Ei; set_solver).
    pose proof (not_before_le y (idx_named _ Hy) (Hhead y eq_refl)) as Hle. eapply kle_trans; [exact Hle|].
    apply elem_of_cons in Hx as [->|Hx]; [apply kle_refl|].
    apply (sorted_app_le (pre ++ [y]) post'); [by rewrite <- app_assoc|set_solver|done].
Qed.

Lemma step_back_stop e before :
  name_eqb (ag_owner e) name = true \/ canonCompare (ag_owner e) name false = true -> step_back name (Some e) before = Some e.
Proof. intros H. destruct before; cbn; (destruct H as [-> | ->]; [done|]); by rewrite orb_true_r. Qed.

Lemma name_eqb_false_lt x : named (ag_owner x) -> nkey name ≤k okey x -> name_eqb (ag_owner x) name = false ->
  nkey name <k okey x /\ canonCompare (ag_owner x) name false = false.
Proof.
  intros Hx Hle He. assert (nkey name <k okey x) as Hlt.
  { apply kle_cases in Hle as [?|E]; [done|]. symmetry in E. apply (name_eqb_key _ _ Hx Hname) in E. congruence. }
  split; [done|]. apply not_true_iff_false. rewrite canonCompare_key by done. intros H. by apply (klt_irrefl (okey x)), (klt_trans _ (nkey name)).
Qed.

(** on the index of a zone that is not empty the search of [getNSECBefore] always ends
    at an entry: the one with the greatest owner, in canonical order, that is not after
    the name, or the last of the zone when all owners are after it. *)
Lemma entry_before_best : l <> [] -> exists e, entry_before name l = Some e /\ best_before (nkey name) l e.
Proof.
  intros Hne. destruct bound_parts as (pre & post & Ei & Eb & Ep & Hin & Hpre & Hpost). unfold entry_before. rewrite Eb, Ep.
  destruct (match post with y :: _ => name_eqb (ag_owner y) name | [] => false end) eqn:Hexact.
  { destruct post as [|y post]; [done|]. exists y. cbn [head]. rewrite Hexact. cbn [negb].
    split; [destruct (reverse pre); rewrite step_back_stop by (by left); done|].
    assert (y ∈ l) as Hy by (apply Hin; set_solver). split; [done|]. left.
    apply name_eqb_key in Hexact as ->; [|by apply idx_named, idx_in|done]. split; [apply kle_refl|done]. }
  assert (forall y, y ∈ post -> nkey name <k okey y) as Hafter.
  { intros y Hy. destruct post as [|z post]; [by apply elem_of_nil in Hy|].
    destruct (name_eqb_false_lt z) as [Hz _]; [apply idx_named; rewrite Ei; set_solver|apply Hpost; set_solver|done|].
    eapply klt_le_trans; [exact Hz|]. apply elem_of_cons in Hy as [->|Hy]; [apply kle_refl|].
    apply (sorted_app_le (pre ++ [z]) post); [by rewrite <- app_assoc|set_solver|done]. }
  destruct pre as [|x pre _] using rev_ind.
  - destruct post as [|y post]; [destruct Hne; apply Permutation_nil_r; rewrite <- (ordered_perm owner_leb), Ei; done|].
    cbn [reverse head]. cbn in Ei. destruct (last_is_Some idx) as [_ [e He]]; [by rewrite Ei|].
    exists e. rewrite Hexact. cbn [negb]. split; [done|]. split; [by apply idx_in, last_Some_elem_of|]. right. split.
    + intros z [Hz|Hz]%Hin; [by apply elem_of_nil in Hz|by apply Hafter].
    + intros z Hz. eapply sorted_last_max; [apply idx_sorted|done|by apply idx_in].
  - rewrite reverse_snoc. exists x. destruct (Hpre x) as [Hc Hlt]; [set_solver|]. split.
    + cbn [step_back]. destruct (head post) as [y|] eqn:Hh; [|by apply step_back_stop; right].
      destruct post as [|z post]; [done|]. injection Hh as ->.
      destruct (name_eqb_false_lt y) as [_ Hcy]; [apply idx_named; rewrite Ei; set_solver|apply Hpost; set_solver|done|].
      rewrite Hexact, Hcy. apply step_back_stop. by right.
    + split; [apply Hin; set_solver|]. left. split; [by apply kle_cases; left|].
      intros y [Hy|Hy]%Hin Hle; [|by apply Hafter, klt_nle in Hy]. apply elem_of_app in Hy as [Hy|Hy].
      * apply (sorted_app_le pre (x :: post)); [rewrite Ei, <- app_assoc; done|done|left].
      * apply list_elem_of_singleton in Hy as ->. apply kle_refl.
Qed.
End search.

(** ** Records that cover little *)

(** The lowest [j] bits of a number, the highest first; the bits of a string. *)
Fixpoint bits_down (j : nat) (x : Z) : list bool := match j with O => [] | S j => Z.testbit x (Z.of_nat j) :: bits_down j x end.
Definition bits_of (s : bytes) : list bool := flat_map (bits_down 8) s.

(** The length of what two strings of bits have in common at the front. *)
Fixpoint common_prefix (a b : list bool) : Z :=
  match a, b with
  | x :: a, y :: b => if Bool.eqb x y then 1 + common_prefix a b else 0
  | _, _ => 0
  end.

Lemma common_prefix_same p a b : common_prefix (p ++ a) (p ++ b) = zlen p + common_prefix a b.
Proof. induction p as [|x p IH]; [done|]. cbn [app common_prefix]. rewrite Bool.eqb_reflx, IH, zlen_cons. lia. Qed.

Lemma common_prefix_differ p p' a b : length p = length p' -> p <> p' -> common_prefix (p ++ a) (p' ++ b) = common_prefix p p'.
Proof.
  revert p'. induction p as [|x p IH]; intros [|y p'] Hl Hne; try done. cbn. destruct (Bool.eqb x y) eqn:E; [|done].
  apply Bool.eqb_prop in E as ->. rewrite IH; [done|by injection Hl|congruence].
Qed.

Lemma common_prefix_nonneg a b : 0 <= common_prefix a b.
Proof. revert b. induction a as [|x a IH]; intros [|y b]; cbn; try done. destruct (Bool.eqb x y); [|done]. specialize (IH b). lia. Qed.

Definition number_of (l : list bool) : Z := fold_left (fun n (b : bool) => 2 * n + (if b then 1 else 0)) l 0.

Lemma bits_inj x y : is_byte x -> is_byte y -> bits_down 8 x = bits_down 8 y -> x = y.
Proof.
  assert (Forall (fun x => number_of (bits_down 8 x) = x) (seqZ 0 256)) as H by by_decide. rewrite Forall_forall in H.
  intros Hx Hy E. rewrite <- (H x), <- (H y), E; [done|apply elem_of_seqZ; unfold is_byte in *; lia..].
Qed.

Lemma common_bits_spec j x y len bound : common_bits j x y len bound = (bound <? len + common_prefix (bits_down j x) (bits_down j y)).
Proof.
  revert len. induction j as [|j IH]; intros len; cbn [common_bits bits_down common_prefix]; [by rewrite Z.add_0_r|].
  destruct (Bool.eqb _ _); cbn [negb]; [|by rewrite Z.add_0_r]. rewrite IH, Z.add_assoc.
  pose proof (common_prefix_nonneg (bits_down j x) (bits_down j y)). destruct (Z.ltb_spec bound (len + 1)); [|done]. symmetry. apply Z.ltb_lt. lia.
Qed.

(** For hashes of the same length the test of [commonPrefixIsLong] is whether they have
    more than [bound] bits in common at the front, and false when the first is after the
    second. *)
Lemma commonPrefixIsLong_spec one two bound :
  bytes_ok one -> bytes_ok two -> length one = length two ->
  commonPrefixIsLong one two bound
  = bool_decide (lex_compare Z.compare one two <> Gt) && (bound <? common_prefix (bits_of one) (bits_of two)).
Proof.
  unfold commonPrefixIsLong. intros H1. assert (forall len two, bytes_ok two -> length one = length two -> 0 <= len ->
    commonPrefixIsLong_loop one two len bound
    = bool_decide (lex_compare Z.compare one two <> Gt) && (bound <? len + common_prefix (bits_of one) (bits_of two))) as H; [|by intros; apply H].
  clear two. induction H1 as [|x one Hx H1 IH]; intros len two H2 Hl Hlen; destruct H2 as [|y two Hy H2]; try done.
  { cbn. by rewrite Z.add_0_r. }
  cbn [commonPrefixIsLong_loop lex_compare]. change (bits_of (?c :: ?l)) with (bits_down 8 c ++ bits_of l). injection Hl as Hl.
  destruct (Z.eqb_spec x y) as [->|Hne].
  - rewrite Z.compare_refl, IH by (done || lia). rewrite common_prefix_same, Z.add_assoc. done.
  - rewrite common_prefix_differ by (first [done|intros E; by apply Hne, bits_inj]). destruct (Z.ltb_spec y x) as [Hlt|Hge].
    + rewrite (proj2 (Z.compare_gt_iff x y)) by lia. by rewrite bool_decide_false by naive_solver.
    + rewrite (proj2 (Z.compare_lt_iff x y)), bool_decide_true by (done || lia). cbn [andb].
      pose proof (common_prefix_nonneg (bits_down 8 x) (bits_down 8 y)).
      destruct (Z.ltb_spec bound len); [symmetry; apply Z.ltb_lt; lia|]. apply common_bits_spec.
Qed.
