(* ===== verification/AggressiveZones.v ===== *)
(** * The zones of the aggressive NSEC cache

    What the tree of [pdns/recursordist/aggressive_nsec.cc] holds, visited as the code
    visits it, and the invariant of the cache: every zone of the tree leads to its own
    object, owners are unique, and the counter of entries is their number. *)

From S2P Require Import Prelude Chars Dns Names NamesFacts NamesOrder NamesSpec StdSet SuffixTree SuffixSpec Denial DenialFacts.
From S2P Require Import NameIndex CacheCleaner AggressiveNsec AggressiveLookup.

#[local] Open Scope Z_scope.

(** ** Visiting a tree *)

Section values.
Context {T : Type} (T_default : T).
Implicit Types (t c : SuffixMatchTree T) (p : list bytes) (v : T).

Lemma tree_ind' (P : SuffixMatchTree T -> Prop) :
  (forall t, Forall P (t_children t) -> P t) -> forall t, P t.
Proof.
  intros IH. fix rec 1. intros [n cs b v]. apply IH. cbn. induction cs as [|c cs IHcs]; constructor; [apply rec|exact IHcs].
Qed.

(** The values with the paths that lead to them. *)
Fixpoint bindings t : list (list bytes * T) :=
  (fix children cs := match cs with [] => [] | c :: cs => map (fun '(p, v) => (t_key c :: p, v)) (bindings c) ++ children cs end) (t_children t)
  ++ (if t_endNode t then [([], t_value t)] else []).

Definition child_bindings c : list (list bytes * T) := map (fun '(p, v) => (t_key c :: p, v)) (bindings c).

Lemma bindings_eq t : bindings t = flat_map child_bindings (t_children t) ++ (if t_endNode t then [([], t_value t)] else []).
Proof. destruct t as [n cs b v]. cbn. f_equal. Qed.

Lemma tree_values_eq t : tree_values t = flat_map tree_values (t_children t) ++ (if t_endNode t then [t_value t] else []).
Proof. destruct t as [n cs b v]. cbn. f_equal. Qed.

Lemma tree_values_bindings t : tree_values t = map snd (bindings t).
Proof.
  induction t as [t IH] using tree_ind'. rewrite bindings_eq, tree_values_eq, map_app. f_equal; [|by destruct (t_endNode t)].
  induction IH as [|c cs Hc _ IH]; [done|]. cbn. rewrite map_app, IH, Hc. f_equal. unfold child_bindings. rewrite map_map.
  apply map_ext. by intros [p v].
Qed.

Lemma child_bindings_in c p v : (p, v) ∈ child_bindings c <-> exists p', p = t_key c :: p' /\ (p', v) ∈ bindings c.
Proof.
  unfold child_bindings. rewrite list_elem_of_fmap. split.
  - intros ([p' v'] & [= -> ->] & Hin). by exists p'.
  - intros (p' & -> & Hin). by exists (p', v).
Qed.

Lemma bindings_in t p v : wf_tree t -> (p, v) ∈ bindings t <-> value_at p t = Some v.
Proof.
  revert p v. induction t as [t IH] using tree_ind'. intros p v Hw. rewrite bindings_eq, elem_of_app, list_elem_of_In, in_flat_map.
  inversion Hw as [? Hs Hc]; subst. rewrite Forall_forall in IH, Hc. destruct p as [|k p]; cbn [value_at].
  - unfold value_here. split.
    + intros [(c & _ & Hin%list_elem_of_In)|Hin]; [by apply child_bindings_in in Hin as (? & ? & _)|].
      destruct (t_endNode t); [|by apply elem_of_nil in Hin]. apply list_elem_of_singleton in Hin. by injection Hin as ->.
    + intros H. right. destruct (t_endNode t); [|done]. injection H as ->. left.
  - split.
    + intros [(c & Hc'%list_elem_of_In & Hin%list_elem_of_In)|Hin].
      * apply child_bindings_in in Hin as (p' & [= -> ->] & Hin). unfold child_get. rewrite (set_get_elem t_key bytes_compare) by done.
        by apply IH; [|apply Hc|].
      * destruct (t_endNode t); [apply list_elem_of_singleton in Hin; done|by apply elem_of_nil in Hin].
    + destruct (child_get k (t_children t)) as [c|] eqn:Hg; [|done]. intros H. left. exists c.
      apply (set_get_key t_key bytes_compare) in Hg as [Hk Hin]. rewrite <- !list_elem_of_In. split; [done|].
      apply child_bindings_in. exists p. split; [by rewrite Hk|]. by apply IH; [|apply Hc|].
Qed.

Lemma bindings_unique t : wf_tree t -> NoDup (map fst (bindings t)).
Proof.
  induction t as [t IH] using tree_ind'. intros Hw. inversion Hw as [? Hs Hc]; subst. rewrite bindings_eq, map_app.
  apply NoDup_app. split_and!.
  - clear Hw. induction Hs as [|c cs Hlt Hs IHs]; [constructor|]. apply Forall_cons in IH as [IHc IH], Hc as [Hcw Hc].
    cbn [flat_map]. rewrite map_app. apply NoDup_app. split_and!; [|intros p Hp Hp'|by apply IHs].
    + unfold child_bindings. rewrite map_map. assert (map (fun x => fst (let '(p, v) := x in (t_key c :: p, v))) (bindings c)
        = map (cons (t_key c)) (map fst (bindings c))) as -> by (rewrite map_map; apply map_ext; by intros [p v]).
      apply (NoDup_fmap_2 (cons (t_key c))). by apply IHc.
    + apply list_elem_of_fmap in Hp as ([p1 v1] & -> & (q1 & -> & _)%child_bindings_in).
      apply list_elem_of_fmap in Hp' as ([p2 v2] & E & Hin). cbn in E. subst p2.
      apply list_elem_of_In, in_flat_map in Hin as (d & Hd%list_elem_of_In & (q2 & Eq & _)%list_elem_of_In%child_bindings_in).
      injection Eq as Ek _. rewrite Forall_forall in Hlt. specialize (Hlt _ Hd). cbn in Hlt. rewrite Ek in Hlt.
      by rewrite (cmp_refl bytes_compare) in Hlt.
  - intros p Hp Hp'. apply list_elem_of_fmap in Hp as ([p1 v1] & -> & Hin).
    apply list_elem_of_In, in_flat_map in Hin as (d & _ & (q2 & -> & _)%list_elem_of_In%child_bindings_in).
    destruct (t_endNode t); cbn in Hp'; [apply list_elem_of_singleton in Hp'; done|by apply elem_of_nil in Hp'].
  - destruct (t_endNode t); cbn; [apply NoDup_singleton|constructor].
Qed.

(** Two trees with the same values at the same paths are visited alike. *)
Lemma bindings_perm t (l : list (list bytes * T)) :
  wf_tree t -> NoDup (map fst l) -> (forall p v, (p, v) ∈ l <-> value_at p t = Some v) -> bindings t ≡ₚ l.
Proof.
  intros Hw Hl Hin. apply NoDup_Permutation; [by eapply NoDup_fmap_1, bindings_unique|by eapply NoDup_fmap_1|].
  intros [p v]. rewrite bindings_in by done. symmetry. apply Hin.
Qed.

(** A new name adds its value, a removed one takes it away. *)
Lemma add_values t name v :
  wf_tree t -> value_at (reverse (ci_labels (getRawLabels name))) t = None ->
  tree_values (tree_add T_default name v t) ≡ₚ v :: tree_values t.
Proof.
  intros Hw Hnone. rewrite !tree_values_bindings. change (v :: map snd (bindings t)) with (map snd ((reverse (ci_labels (getRawLabels name)), v) :: bindings t)).
  apply Permutation_map, bindings_perm; [by apply add_labels_wf| |].
  - cbn [map fst]. constructor; [|by apply bindings_unique]. intros Hin. apply list_elem_of_fmap in Hin as ([p v'] & E & Hin).
    apply bindings_in in Hin; [|done]. cbn in E. rewrite E in Hnone. congruence.
  - intros p v'. unfold tree_add. rewrite add_labels_value, ci_reverse, elem_of_cons, bindings_in by done. case_decide as E; [subst|].
    + rewrite Hnone. split; [intros [[= ->]|?]; done|intros [= ->]; by left].
    + split; [intros [[= -> ->]|?]; done|by right].
Qed.

Lemma remove_values t name v :
  wf_tree t -> value_at (reverse (ci_labels (getRawLabels name))) t = Some v ->
  tree_values t ≡ₚ v :: tree_values (tree_remove T_default name false t).
Proof.
  intros Hw Hsome. rewrite !tree_values_bindings. change (v :: map snd ?l) with (map snd ((reverse (ci_labels (getRawLabels name)), v) :: l)).
  assert (forall p v', value_at p (tree_remove T_default name false t) = Some v' <-> p <> reverse (ci_labels (getRawLabels name)) /\ value_at p t = Some v') as Hrem.
  { intros p v'. unfold tree_remove. rewrite remove_labels_value, ci_reverse by done. case_decide; naive_solver. }
  pose proof (remove_labels_wf T_default (reverse (getRawLabels name)) false t Hw) as Hw'. fold (tree_remove T_default name false t) in Hw'.
  apply Permutation_map, bindings_perm; [done| |].
  - cbn [map fst]. constructor; [|by apply bindings_unique]. intros Hin. apply list_elem_of_fmap in Hin as ([p v'] & E & Hin).
    apply bindings_in in Hin; [|done]. apply Hrem in Hin as [Hne _]. by cbn in E.
  - intros p v'. rewrite elem_of_cons, bindings_in, Hrem by done. split.
    + intros [[= -> ->]|[_ ?]]; done.
    + intros H. destruct (decide (p = reverse (ci_labels (getRawLabels name)))) as [->|]; [left; congruence|by right].
Qed.

(** Removal, also of a subtree, adds nothing. *)
Lemma remove_subtree_value rl subtree t p v :
  wf_tree t -> value_at p (tree_remove_labels T_default rl subtree t) = Some v -> value_at p t = Some v.
Proof.
  revert t p. destruct subtree; [|intros t p Hw; rewrite remove_labels_value by done; by case_decide].
  intros t p Hw. destruct rl as [|l rl]; [by destruct p as [|k p]|]. rewrite remove_labels_cons. destruct p as [|k p]; [done|].
  rewrite alter_value_at by (done || apply remove_child_key). case_decide as E; [subst|done]. cbn [value_at].
  destruct (child_get _ _) as [c|] eqn:Hc; cbn [remove_child]; [|done]. destruct rl as [|l' rl]; [done|].
  rewrite remove_labels_value by apply (child_wf _ _ _ Hw Hc). by case_decide.
Qed.
End values.

(** ** The invariant *)

Definition size_of (a : Aggressive) (p : nat) : Z := zlen (ze_entries (object a p)).
Definition count_of (a : Aggressive) (ps : list nat) : Z := foldr (fun p n => size_of a p + n) 0 ps.

Lemma count_of_perm a ps qs : ps ≡ₚ qs -> count_of a ps = count_of a qs.
Proof. induction 1; unfold count_of in *; cbn [foldr]; lia. Qed.

Lemma count_of_ext a b ps : (forall p, p ∈ ps -> size_of a p = size_of b p) -> count_of a ps = count_of b ps.
Proof.
  induction ps as [|p ps IH]; intros H; [done|]. unfold count_of in *. cbn [foldr]. rewrite H by left. f_equal. apply IH. intros. apply H. by right.
Qed.

Lemma count_of_nonneg a ps : 0 <= count_of a ps.
Proof. induction ps as [|p ps IH]; [done|]. unfold count_of, size_of in *. cbn [foldr]. pose proof (zlen_nonneg (ze_entries (object a p))). lia. Qed.

(** [p] leads to the object of a zone of the tree. *)
Definition at_zone (a : Aggressive) (p : nat) (zone : DNSName) : Prop := p ∈ visited a /\ nkey (ze_zone (object a p)) = nkey zone.

(** The record is one of the kind of the zone. *)
Definition of_kind (t : ZoneDenialType) (r : rr_content) : Prop :=
  match t, r with
  | DenialNSEC, RR_NSEC _ => True
  | DenialNSEC3, RR_NSEC3 _ => True
  | _, _ => False
  end.

Section invariant.
(** What holds of the entries of a zone, given with its key. *)
Context (G : key -> NsecEntry -> Prop).

Record object_ok (o : ZoneEntry) : Prop := {
  oo_named : named (ze_zone o);
  oo_owners : owners_ok (ze_entries o);
  oo_all : Forall (G (nkey (ze_zone o))) (ze_entries o);
  oo_kind : Forall (fun e => of_kind (ze_denialType o) (ag_record e)) (ze_entries o);
  oo_iterations : 0 <= ze_iterations o;
}.

Record cache_ok (a : Aggressive) : Prop := {
  ok_tree : wf_tree (a_zones a);
  ok_pointer : forall p v, value_at p (a_zones a) = Some v ->
    exists i o, v = Some i /\ a_objects a !! i = Some o /\ nkey (ze_zone o) = p;
  ok_objects : Forall object_ok (a_objects a);
  ok_count : a_entriesCount a = count_of a (visited a);
}.

Lemma object_lookup a i o : a_objects a !! i = Some o -> object a i = o.
Proof. unfold object. by intros ->. Qed.

Lemma visited_in a i : cache_ok a -> i ∈ visited a <-> exists p, value_at p (a_zones a) = Some (Some i).
Proof.
  intros Ha. unfold visited. rewrite tree_values_bindings, list_elem_of_omap. split.
  - intros (v & Hv & E). cbn in E. subst v. apply list_elem_of_fmap in Hv as ([p v'] & E & Hin). cbn in E. subst v'. exists p.
    by apply bindings_in in Hin; [|apply Ha].
  - intros [p Hp]. exists (Some i). split; [|done]. apply list_elem_of_fmap. exists (p, Some i). split; [done|]. apply bindings_in; [apply Ha|done].
Qed.

Lemma visited_object a i : cache_ok a -> i ∈ visited a -> exists o, a_objects a !! i = Some o /\ object_ok o /\ object a i = o
  /\ value_at (nkey (ze_zone o)) (a_zones a) = Some (Some i).
Proof.
  intros Ha [p Hp]%visited_in; [|done]. destruct (ok_pointer _ Ha _ _ Hp) as (j & o & [= <-] & Ho & <-). exists o.
  split_and!; [done| |by apply object_lookup|done]. pose proof (ok_objects _ Ha) as Hf. rewrite Forall_lookup in Hf. by eapply Hf.
Qed.

Lemma NoDup_values {A} (l : list (list bytes * option A)) :
  NoDup (map fst l) -> (forall p q i, (p, Some i) ∈ l -> (q, Some i) ∈ l -> p = q) -> NoDup (omap id (map snd l)).
Proof.
  induction l as [|[p v] l IH]; intros Hd Hi; [constructor|]. cbn in Hd. apply NoDup_cons in Hd as [Hp Hd].
  assert (NoDup (omap id (map snd l))) as Hl by (apply IH; [done|]; intros; eapply Hi; by right).
  destruct v as [i|]; cbn; [|done]. constructor; [|done]. intros Hin. apply list_elem_of_omap in Hin as (v & Hv & E). cbn in E. subst v.
  apply list_elem_of_fmap in Hv as ([q v'] & Ev & Hin). cbn in Ev. subst v'. apply Hp. apply list_elem_of_fmap. exists (q, Some i).
  split; [|done]. cbn. eapply Hi; [left|by right].
Qed.

Lemma visited_unique a : cache_ok a -> NoDup (visited a).
Proof.
  intros Ha. unfold visited. rewrite tree_values_bindings. apply NoDup_values; [apply bindings_unique, Ha|].
  intros p q i Hp Hq. apply bindings_in in Hp, Hq; [|apply Ha..].
  destruct (ok_pointer _ Ha _ _ Hp) as (? & o & [= <-] & Ho & <-). destruct (ok_pointer _ Ha _ _ Hq) as (? & o' & [= <-] & Ho' & <-). congruence.
Qed.

(** ** Changes of one object *)

Lemma object_change a f i j :
  is_Some (a_objects a !! i) -> object (change_object f i a) j = if decide (j = i) then f (object a i) else object a j.
Proof.
  intros Hi. unfold object, change_object. cbn. case_decide as E; [subst|by rewrite list_lookup_insert_ne].
  rewrite list_lookup_insert_eq; [done|by apply lookup_lt_is_Some].
Qed.

Lemma count_of_change a f i ps :
  NoDup ps -> is_Some (a_objects a !! i) ->
  count_of (change_object f i a) ps
  = count_of a ps + (if decide (i ∈ ps) then zlen (ze_entries (f (object a i))) - size_of a i else 0).
Proof.
  intros Hd Hi. pose proof (fun j => object_change a f i j Hi) as Hobj.
  induction Hd as [|j ps Hj Hd IH]; [cbn; case_decide as E; [by apply elem_of_nil in E|lia]|].
  change (count_of (change_object f i a) (j :: ps)) with (size_of (change_object f i a) j + count_of (change_object f i a) ps).
  change (count_of a (j :: ps)) with (size_of a j + count_of a ps). rewrite IH. unfold size_of in *. rewrite Hobj.
  destruct (decide (j = i)) as [->|Hne].
  - rewrite (decide_False (P := i ∈ ps)), (decide_True (P := i ∈ i :: ps)) by (done || left). lia.
  - destruct (decide (i ∈ ps)); [rewrite decide_True by (by right); lia|].
    rewrite decide_False by (rewrite elem_of_cons; naive_solver). lia.
Qed.

Lemma change_ok a f i zone :
  cache_ok a -> at_zone a i zone -> (forall o, ze_zone (f o) = ze_zone o) -> object_ok (f (object a i)) ->
  let a' := set_entriesCount (a_entriesCount a + zlen (ze_entries (f (object a i))) - size_of a i) (change_object f i a) in
  cache_ok a' /\ at_zone a' i zone.
Proof.
  intros Ha [Hv Hz] Hf Hok a'. destruct (visited_object a i Ha Hv) as (o & Ho & Hoo & Eo & _).
  assert (i < length (a_objects a))%nat as Hlt by (by eapply lookup_lt_Some).
  assert (forall j, a_objects a' !! j = if decide (j = i) then Some (f (object a i)) else a_objects a !! j) as Hobj.
  { intros j. cbn. case_decide as E; [subst; by rewrite list_lookup_insert_eq|by rewrite list_lookup_insert_ne]. }
  split; [split|].
  - apply Ha.
  - intros p v Hp. destruct (ok_pointer _ Ha p v Hp) as (j & oj & -> & Hj & Hk). exists j. rewrite Hobj.
    destruct (decide (j = i)) as [->|]; [|by exists oj]. exists (f (object a i)). split_and!; [done..|]. rewrite Hf. by rewrite (object_lookup _ _ _ Hj).
  - rewrite Forall_lookup. intros j oj. rewrite Hobj. case_decide; [by intros [= <-]|]. pose proof (ok_objects _ Ha) as Hall.
    rewrite Forall_lookup in Hall. apply Hall.
  - change (visited a') with (visited a). change (count_of a' (visited a)) with (count_of (change_object f i a) (visited a)).
    rewrite count_of_change, decide_True by (done || by apply visited_unique). subst a'. cbn [a_entriesCount set_entriesCount]. rewrite (ok_count _ Ha). lia.
  - split; [done|]. rewrite (object_lookup a' i (f (object a i))); [by rewrite Hf|]. by rewrite Hobj, decide_True.
Qed.
End invariant.
