(* ===== verification/AggressiveOps.v ===== *)
(** * Operations of the aggressive NSEC cache keep its invariant

    For [pdns/recursordist/aggressive_nsec.cc]: zones are found and created, removed and
    pruned, entries stored and looked up, and the invariant of [AggressiveZones] holds
    after each, whatever holds of all entries included. *)

From S2P Require Import Prelude Chars Dns Names NamesFacts NamesOrder NamesSpec StdSet SuffixTree SuffixSpec Base32 NsecBitmap Denial DenialFacts.
From S2P Require Import NameIndex CacheCleaner AggressiveNsec AggressiveLookup AggressiveZones.

#[local] Open Scope Z_scope.

Lemma longest_match_value {T} (m : list bytes -> option T) ls v :
  longest_match m ls = Some v -> exists s, s `suffix_of` ls /\ m (ci_labels s) = Some v.
Proof.
  induction ls as [|l ls IH]; cbn [longest_match].
  - destruct (m (ci_labels [])) eqn:E; [|done]. intros [= <-]. by exists [].
  - destruct (m (ci_labels (l :: ls))) eqn:E; [intros [= <-]; by exists (l :: ls)|]. intros (s & Hs & Hm)%IH. exists s.
    split; [by apply suffix_cons_r|done].
Qed.

Lemma longest_match_here {T} (m : list bytes -> option T) ls v : m (ci_labels ls) = Some v -> longest_match m ls = Some v.
Proof. intros E. destruct ls; cbn [longest_match]; by rewrite E. Qed.

Lemma ckey_represents n ls : represents n ls -> nkey n = reverse (ci_labels ls).
Proof. intros Hr. unfold nkey, ckey. by rewrite (getRawLabels_represents n ls). Qed.

Section operations.
Context (G : key -> NsecEntry -> Prop).
#[local] Abbreviation ok := (cache_ok G).

(** ** Zones *)

Lemma aggressive_make_ok n : ok (aggressive_make n).
Proof. split; [apply leaf_wf|intros p v; cbn [a_zones aggressive_make]; by rewrite value_at_leaf|constructor|done]. Qed.

(** What a lookup of a zone finds. *)
Lemma lookup_zone a name :
  ok a -> named name ->
  exists got, tree_lookup (a_zones a) name = Ok got
    /\ (got = None -> value_at (nkey name) (a_zones a) = None)
    /\ forall v, got = Some v -> exists i, v = Some i /\ i ∈ visited a /\ nkey (ze_zone (object a i)) `prefix_of` nkey name
         /\ forall w, value_at (nkey name) (a_zones a) = Some w -> w = Some i.
Proof.
  intros Ha [ls Hr]. rewrite (tree_lookup_spec _ _ _ Hr). eexists. split; [done|]. rewrite (ckey_represents _ _ Hr). split.
  - intros Hnone. destruct (value_at _ _) as [v|] eqn:E; [|done]. by rewrite (longest_match_here _ _ v) in Hnone.
  - intros v Hv. destruct (longest_match_value _ _ _ Hv) as (s & Hs & Hm). unfold map_of in Hm.
    destruct (ok_pointer _ _ Ha _ _ Hm) as (i & o & -> & Ho & Hk). exists i. split_and!; [done|by eapply visited_in; eauto| |].
    + rewrite (object_lookup _ _ _ Ho), Hk. apply suffix_prefix_reverse. destruct Hs as [u ->]. exists (ci_labels u). apply map_app.
    + intros w Hw. rewrite (longest_match_here _ _ w) in Hv by done. by injection Hv as ->.
Qed.

Lemma getBestZone_spec a name :
  ok a -> named name ->
  exists r, getBestZone name a = (a, Ok r)
    /\ forall i, r = Some i -> i ∈ visited a /\ nkey (ze_zone (object a i)) `prefix_of` nkey name.
Proof.
  intros Ha Hn. destruct (lookup_zone a name Ha Hn) as (got & E & _ & Hgot). unfold getBestZone. rewrite sm_bind_run. cbn [sm_get id].
  rewrite sm_bind_run. unfold sm_lift. rewrite E. exists (default None got). split; [done|]. intros i Hi.
  destruct got as [v|]; [|done]. cbn in Hi. destruct (Hgot v eq_refl) as (j & -> & Hv & Hp & _). by injection Hi as ->.
Qed.

Lemma object_append a l i : (i < length (a_objects a))%nat -> object (ag_set_objects (a_objects a ++ l) a) i = object a i.
Proof. intros Hi. unfold object. cbn. by rewrite lookup_app_l. Qed.

(** A zone that is new to the tree. *)
Lemma create_ok a zone :
  ok a -> named zone -> value_at (nkey zone) (a_zones a) = None ->
  let fresh := length (a_objects a) in
  let a' := ag_set_zones (tree_add None zone (Some fresh) (a_zones a)) (ag_set_objects (a_objects a ++ [zone_entry zone]) a) in
  ok a' /\ at_zone a' fresh zone.
Proof.
  intros Ha Hz Hnone fresh a'.
  assert (forall p, value_at p (a_zones a') = if decide (p = nkey zone) then Some (Some fresh) else value_at p (a_zones a)) as Hval.
  { intros p. subst a'. cbn [a_zones ag_set_zones ag_set_objects]. unfold tree_add. rewrite add_labels_value, ci_reverse by apply Ha. done. }
  assert (a_objects a' !! fresh = Some (zone_entry zone)) as Hfresh by (cbn; by rewrite lookup_app_r, Nat.sub_diag by lia).
  assert (visited a' ≡ₚ fresh :: visited a) as Hvis.
  { unfold visited. subst a'. cbn [a_zones ag_set_zones ag_set_objects]. rewrite add_values by (done || apply Ha). done. }
  split; [split|].
  - subst a'. cbn [a_zones ag_set_zones ag_set_objects]. apply add_labels_wf, Ha.
  - intros p v. rewrite Hval. case_decide as E; [intros [= <-]; subst; by exists fresh, (zone_entry zone)|].
    intros Hp. destruct (ok_pointer _ _ Ha _ _ Hp) as (i & o & -> & Ho & Hk). exists i, o. split_and!; [done| |done].
    cbn. by apply lookup_app_l_Some.
  - cbn. apply Forall_app. split; [apply Ha|]. constructor; [|constructor]. split; [done|by split; constructor|constructor|constructor|done].
  - rewrite (count_of_perm _ _ _ Hvis). change (count_of a' (fresh :: visited a)) with (size_of a' fresh + count_of a' (visited a)).
    assert (size_of a' fresh = 0) as -> by (unfold size_of; by rewrite (object_lookup _ _ _ Hfresh)).
    change (a_entriesCount a') with (a_entriesCount a). rewrite (ok_count _ _ Ha). apply count_of_ext.
    intros i Hi. unfold size_of. destruct (visited_object _ _ _ Ha Hi) as (o & Ho & _).
    change (object a' i) with (object (ag_set_objects (a_objects a ++ [zone_entry zone]) a) i). rewrite object_append; [done|by eapply lookup_lt_Some].
  - split; [rewrite Hvis; left|]. by rewrite (object_lookup _ _ _ Hfresh).
Qed.

Lemma getZone_ok a zone :
  ok a -> named zone -> exists a' i, ag_getZone zone a = (a', Ok i) /\ ok a' /\ at_zone a' i zone.
Proof.
  intros Ha Hz. destruct (lookup_zone a zone Ha Hz) as (got & E & Hnone & Hgot). unfold ag_getZone. rewrite sm_bind_run. cbn [sm_get id].
  rewrite sm_bind_run. unfold sm_lift. rewrite E. assert (value_at (nkey zone) (a_zones a) = None -> exists a' i,
    (_ ← sm_modify (fun a0 => ag_set_zones (tree_add None zone (Some (length (a_objects a))) (a_zones a0)) (ag_set_objects (a_objects a0 ++ [zone_entry zone]) a0));
     mret (length (a_objects a)) : SM Aggressive nat) a = (a', Ok i) /\ ok a' /\ at_zone a' i zone) as Hcreate.
  { intros H. eexists _, _. split; [done|]. by apply create_ok. }
  destruct got as [v|]; [|by apply Hcreate, Hnone]. destruct (Hgot v eq_refl) as (i & -> & Hv & _ & Hmax).
  destruct (visited_object _ _ _ Ha Hv) as (o & Ho & Hoo & Eo & Hval). cbv zeta.
  destruct (name_eqb (ze_zone (object a i)) zone) eqn:En.
  - exists a, i. split; [done|]. split; [done|]. split; [done|]. apply name_eqb_key in En; [done| |done]. rewrite Eo. apply Hoo.
  - apply Hcreate. destruct (value_at (nkey zone) (a_zones a)) as [w|] eqn:Ew; [|done].
    pose proof (Hmax w eq_refl) as ->. destruct (ok_pointer _ _ Ha _ _ Ew) as (j & o' & [= <-] & Ho' & Hk).
    assert (name_eqb (ze_zone (object a i)) zone = true); [|congruence]. rewrite (object_lookup _ _ _ Ho').
    apply name_eqb_key; [|done|done]. rewrite Ho in Ho'. injection Ho' as <-. apply Hoo.
Qed.

(** ** Removal *)

(** A tree with fewer zones. *)
Lemma fewer_zones_ok a t n :
  ok a -> wf_tree t -> (forall p v, value_at p t = Some v -> value_at p (a_zones a) = Some v) ->
  n = count_of a (visited (ag_set_zones t a)) -> ok (set_entriesCount n (ag_set_zones t a)).
Proof.
  intros Ha Ht Hsub ->. split; [done| |apply Ha|done]. intros p v Hp. by apply (ok_pointer _ _ Ha), Hsub.
Qed.

Lemma fold_count a ps n : fold_left (fun counter p => counter + zlen (ze_entries (object a p))) ps n = n + count_of a ps.
Proof. revert n. induction ps as [|p ps IH]; intros n; cbn [fold_left]; [cbn; lia|]. rewrite IH. unfold count_of, size_of. cbn [foldr]. lia. Qed.

Lemma remove_one_ok a zone i :
  ok a -> at_zone a i zone ->
  ok (set_entriesCount (a_entriesCount a - size_of a i) (ag_set_zones (tree_remove None zone false (a_zones a)) a)).
Proof.
  intros Ha [Hv Hk]. destruct (visited_object _ _ _ Ha Hv) as (o & Ho & Hoo & Eo & Hval). rewrite Eo in Hk. rewrite Hk in Hval.
  apply fewer_zones_ok; [done|apply remove_labels_wf, Ha| |].
  - intros p v. unfold tree_remove. apply remove_subtree_value, Ha.
  - rewrite (ok_count _ _ Ha). pose proof (remove_values None (a_zones a) zone (Some i) (ok_tree _ _ Ha) Hval) as Hp.
    assert (visited a ≡ₚ i :: visited (ag_set_zones (tree_remove None zone false (a_zones a)) a)) as Hvis by (unfold visited; rewrite Hp; done).
    rewrite (count_of_perm _ _ _ Hvis). unfold count_of. cbn [foldr]. lia.
Qed.

(** removing the information of a zone, with or without what is below it, keeps the
    invariant: the counter is still the number of entries. *)
Lemma removeZoneInfo_ok a zone subzones :
  ok a -> named zone -> exists a', removeZoneInfo zone subzones a = (a', Ok tt) /\ ok a'.
Proof.
  intros Ha Hz. unfold removeZoneInfo. destruct subzones.
  - eexists. split; [done|]. unfold updateEntriesCount. rewrite fold_count, Z.add_0_l.
    set (t := tree_remove None zone true (a_zones a)). change (set_entriesCount ?n ?x) with (set_entriesCount n (ag_set_zones t a)).
    apply fewer_zones_ok; [done|apply remove_labels_wf, Ha| |done]. intros p v. apply remove_subtree_value, Ha.
  - destruct (lookup_zone a zone Ha Hz) as (got & E & _ & Hgot). rewrite sm_bind_run. cbn [sm_get id]. rewrite sm_bind_run. unfold sm_lift. rewrite E.
    destruct got as [v|]; [|by exists a]. destruct (Hgot v eq_refl) as (i & -> & Hv & _ & _).
    destruct (visited_object _ _ _ Ha Hv) as (o & Ho & Hoo & Eo & _). destruct (name_eqb (ze_zone (object a i)) zone) eqn:En; cbn [negb]; [|by exists a].
    eexists. split; [done|]. apply (remove_one_ok a zone i); [done|]. split; [done|]. apply name_eqb_key in En; [done| |done]. rewrite Eo. apply Hoo.
Qed.

(** ** Lookups *)

Lemma object_of_zone a i zone : ok a -> at_zone a i zone -> object_ok G (object a i) /\ is_Some (a_objects a !! i).
Proof. intros Ha [Hv _]. destruct (visited_object _ _ _ Ha Hv) as (o & Ho & Hoo & -> & _). by split. Qed.

Lemma reorder_ok o l : l ≡ₚ ze_entries o -> object_ok G o -> object_ok G (ze_set_entries l o).
Proof. intros Hp [H1 H2 H3 H4 H5]. split; [done|by apply (entries_submseteq _ _ (Permutation_submseteq _ _ Hp))|by cbn; rewrite Hp|by cbn; rewrite Hp|done]. Qed.

Lemma change_same_ok a f i zone :
  ok a -> at_zone a i zone -> (forall o, ze_zone (f o) = ze_zone o) -> object_ok G (f (object a i)) ->
  zlen (ze_entries (f (object a i))) = size_of a i -> ok (change_object f i a) /\ at_zone (change_object f i a) i zone.
Proof.
  intros Ha Hz Hf Hok Hlen. pose proof (change_ok G a f i zone Ha Hz Hf Hok) as H. cbv zeta in H.
  rewrite Hlen, Z.add_simpl_r in H. exact H.
Qed.

(** Moving an entry in the sequence index. *)
Lemma move_ok a i zone move :
  (forall l, move l ≡ₚ l) -> ok a -> at_zone a i zone ->
  let f z := ze_set_entries (move (ze_entries z)) z in
  ok (change_object f i a) /\ at_zone (change_object f i a) i zone.
Proof.
  intros Hm Ha Hz f. destruct (object_of_zone _ _ _ Ha Hz) as [Ho _]. apply change_same_ok; [done..| |].
  - by apply reorder_ok.
  - cbn. unfold size_of, zlen. by rewrite Hm.
Qed.

Lemma use_entry_ok a i zone now e :
  ok a -> at_zone a i zone ->
  exists a', use_entry now i e a = (a', Ok (if ag_ttd e <=? now then None else Some e)) /\ ok a' /\ at_zone a' i zone.
Proof.
  intros Ha Hz. unfold use_entry. destruct (ag_ttd e <=? now); (eexists; split; [done|]); apply move_ok; try done; intros l;
    [apply move_front_perm|apply move_back_perm].
Qed.

Lemma getNSECBefore_ok a i zone now name :
  ok a -> at_zone a i zone -> named name ->
  exists a' r, getNSECBefore now i name a = (a', Ok r) /\ ok a' /\ at_zone a' i zone
    /\ (r = None -> forall e, best_before (nkey name) (ze_entries (object a i)) e -> ag_ttd e <= now)
    /\ forall e, r = Some e -> best_before (nkey name) (ze_entries (object a i)) e /\ now < ag_ttd e.
Proof.
  intros Ha Hz Hn. destruct (object_of_zone _ _ _ Ha Hz) as [Ho _]. unfold getNSECBefore. rewrite sm_bind_run. cbn [sm_get].
  case_bool_decide as Hnil.
  { exists a, None. split_and!; [done..| |done]. intros _ e [He _]. rewrite Hnil in He. by apply elem_of_nil in He. }
  destruct (entry_before_best name Hn _ (oo_owners _ _ Ho) Hnil) as (e & -> & Hb).
  destruct (use_entry_ok a i zone now e Ha Hz) as (a' & E & Ha' & Hz'). rewrite E. exists a', (if ag_ttd e <=? now then None else Some e).
  split_and!; [done..| |]; destruct (Z.leb_spec (ag_ttd e) now); try done.
  - intros _ x Hx. by rewrite (best_before_unique (nkey name) _ x e (oo_owners _ _ Ho)).
  - by intros ? [= <-].
Qed.

Lemma getNSEC3_ok a i zone now name :
  ok a -> at_zone a i zone ->
  exists a' r, getNSEC3 now i name a = (a', Ok r) /\ ok a' /\ at_zone a' i zone
    /\ forall e, r = Some e -> e ∈ ze_entries (object a i) /\ name_eqb (ag_owner e) name = true /\ now < ag_ttd e.
Proof.
  intros Ha Hz. unfold getNSEC3. rewrite sm_bind_run. cbn [sm_get]. destruct (List.find _ _) as [e|] eqn:E; [|by exists a, None].
  apply find_some in E as [Hin He]. destruct (use_entry_ok a i zone now e Ha Hz) as (a' & Eu & Ha' & Hz'). rewrite Eu.
  exists a', (if ag_ttd e <=? now then None else Some e). split_and!; [done..|]. destruct (Z.leb_spec (ag_ttd e) now); [done|].
  intros ? [= <-]. by rewrite list_elem_of_In.
Qed.

(** ** Insertion *)

Definition replace_owner (e : NsecEntry) (l : list NsecEntry) : list NsecEntry := map (fun x => if same_owner e x then e else x) l.

Lemma replace_owner_ok e l : named (ag_owner e) -> owners_ok l -> owners_ok (replace_owner e l).
Proof.
  intros He [Hn Hu]. unfold replace_owner. split.
  - rewrite Forall_map. eapply Forall_impl; [exact Hn|]. intros x Hx. cbn. by destruct (same_owner e x).
  - rewrite map_map. rewrite (map_ext_in _ (fun x => nkey (ag_owner x))); [done|]. intros x Hx%list_elem_of_In.
    rewrite Forall_forall in Hn. destruct (same_owner e x) eqn:E; [|done]. by apply same_owner_key in E; [|done|apply Hn].
Qed.

Lemma store_entry_ok a i zone e :
  ok a -> at_zone a i zone -> named (ag_owner e) -> G (nkey zone) e -> of_kind (ze_denialType (object a i)) (ag_record e) ->
  ok (store_entry i e a) /\ at_zone (store_entry i e a) i zone.
Proof.
  intros Ha Hz He Hg Hkind. destruct (object_of_zone _ _ _ Ha Hz) as [[Ho1 Ho2 Ho3 Ho5 Ho4] _]. unfold store_entry. cbv zeta.
  assert (G (nkey (ze_zone (object a i))) e) as Hg' by (by rewrite (proj2 Hz)).
  destruct (existsb (same_owner e) (ze_entries (object a i))) eqn:Hex.
  - apply change_same_ok; [done..| |].
    + split; [done|by apply replace_owner_ok|..|done]; cbn; rewrite Forall_map.
      * eapply Forall_impl; [exact Ho3|]. intros x Hx. cbn. by destruct (same_owner e x).
      * eapply Forall_impl; [exact Ho5|]. intros x Hx. cbn. by destruct (same_owner e x).
    + cbn. unfold size_of, zlen. by rewrite length_map.
  - pose proof (change_ok G a (ze_set_entries (ze_entries (object a i) ++ [e])) i zone Ha Hz ltac:(done)) as H.
    cbn [ze_entries ze_set_entries] in H. replace (a_entriesCount a + zlen (ze_entries (object a i) ++ [e]) - size_of a i) with (a_entriesCount a + 1) in H
      by (unfold size_of; rewrite zlen_app; change (zlen [e]) with 1; lia).
    apply H. split; [done| |by cbn; apply Forall_app; split; [done|repeat constructor]..|done]. cbn. destruct Ho2 as [Hn Hu]. split.
    + apply Forall_app. by split; [|repeat constructor].
    + rewrite map_app. apply NoDup_app. split_and!; [done| |apply NoDup_singleton]. intros k Hk Hk'. cbn in Hk'. apply list_elem_of_singleton in Hk' as ->.
      apply list_elem_of_fmap in Hk as (x & Ex & Hx). apply not_true_iff_false in Hex. apply Hex. apply existsb_exists. exists x.
      split; [by apply list_elem_of_In|]. rewrite Forall_forall in Hn. apply same_owner_key; [done|by apply Hn|done].
Qed.

Lemma store_entry_type a i e : is_Some (a_objects a !! i) -> ze_denialType (object (store_entry i e a) i) = ze_denialType (object a i).
Proof.
  intros Hi. unfold store_entry. cbv zeta. destruct (existsb _ _); [by rewrite object_change, decide_True|].
  change (change_object ?f i (set_entriesCount ?n a)) with (set_entriesCount n (change_object f i a)).
  change (object (set_entriesCount ?n ?x) i) with (object x i). by rewrite object_change, decide_True.
Qed.

Context (settings : aggressive_settings) (cfg : validator_settings).

(** After the type of the zone is known to be right. *)
#[local] Notation inv i zone nsec3 := (fun a => (ok a /\ at_zone a i zone) /\ ze_denialType (object a i) = wanted_type nsec3).

Lemma accepts_ok a i zone nsec3 :
  ok a -> at_zone a i zone ->
  exists a' b, accepts_type nsec3 i a = (a', Ok b) /\ ok a' /\ at_zone a' i zone /\ (b = true -> ze_denialType (object a' i) = wanted_type nsec3).
Proof.
  intros Ha Hz. destruct (object_of_zone _ _ _ Ha Hz) as [[Ho1 Ho2 Ho3 Ho5 Ho4] Hs]. unfold accepts_type. rewrite sm_bind_run. cbn [sm_get].
  destruct (ze_denialType (object a i)) eqn:Ed.
  - eexists _, true. split; [done|]. assert (ze_entries (object a i) = []) as Hnil.
    { destruct (ze_entries (object a i)) as [|e l]; [done|]. by apply Forall_cons in Ho5 as [? _]. }
    destruct (change_same_ok a (set_denialType (wanted_type nsec3)) i zone Ha Hz) as [H1 H2];
      [done|split; try done; cbn; rewrite Hnil; constructor|done|]. split_and!; [done..|]. intros _. by rewrite object_change, decide_True.
  - eexists a, _. split; [done|]. split_and!; [done..|]. intros H%bool_decide_eq_true. by rewrite Ed.
  - eexists a, _. split; [done|]. split_and!; [done..|]. intros H%bool_decide_eq_true. by rewrite Ed.
Qed.

(** A next name that is stored. *)
Definition next_checked (zone owner : DNSName) (record : rr_content) (nsec3 : bool) (next : DNSName) : Prop :=
  if nsec3 then exists c, as_nsec3 record = Some c /\ isOptOut c = false /\ hash_name (nsec3_nexthash c) zone = Ok next
  else check_nsec zone owner record = Ok (Some next).

Lemma keeps_check_nsec3 i zone record owner :
  (forall c, as_nsec3 record = Some c -> 0 <= nsec3_iterations c) ->
  keeps (inv i zone true) (check_nsec3 cfg i zone record) (fun o => forall next, o = Some next -> next_checked zone owner record true next).
Proof.
  intros Hit. unfold check_nsec3, next_checked. destruct (as_nsec3 record) as [c|]; [|apply keeps_throw].
  destruct (isOptOut c) eqn:Ho; [by apply keeps_ret|]. apply keeps_if; [by apply keeps_ret|].
  intros a [[Ha Hz] Hd]. rewrite sm_bind_run. unfold sm_lift. destruct (hash_name _ zone) as [next|e] eqn:Eh; [|by split].
  rewrite sm_bind_run. cbn [sm_get]. rewrite sm_bind_run. destruct (object_of_zone _ _ _ Ha Hz) as [[Ho1 Ho2 Ho3 Ho5 Ho4] Hs].
  assert (forall a', inv i zone true a' -> inv i zone true (fst ((mret (Some next) : SM Aggressive _) a')) /\
    (forall o, snd ((mret (Some next) : SM Aggressive _) a') = Ok o -> forall n, o = Some n ->
      exists c0, Some c = Some c0 /\ isOptOut c0 = false /\ hash_name (nsec3_nexthash c0) zone = Ok n)) as Hret.
  { intros a' Ha'. split; [done|]. intros o [= <-] n [= <-]. by exists c. }
  destruct (_ || _); cbn; [|by apply Hret]. apply Hret.
  pose proof (change_ok G a (fun e => ze_set_entries [] (set_parameters (nsec3_salt c) (nsec3_iterations c) e)) i zone Ha Hz ltac:(done)) as H.
  cbn [ze_entries ze_set_entries] in H. change (zlen (@nil NsecEntry)) with 0 in H. rewrite Z.add_0_r in H. split.
  - apply H. split; [done|split; constructor|constructor|constructor|]. by apply Hit.
  - match goal with |- ze_denialType (object ?x i) = _ => change (object x i) with (object (change_object
      (fun e => ze_set_entries [] (set_parameters (nsec3_salt c) (nsec3_iterations c) e)) i a) i) end. by rewrite object_change, decide_True.
Qed.

(** insertion keeps the invariant when what it may store satisfies what holds of all
    entries. *)
Lemma insertNSEC_ok a zone owner record ttl signatures nsec3 qname qtype :
  ok a -> named zone -> (forall c, as_nsec3 record = Some c -> 0 <= nsec3_iterations c) ->
  (forall next realOwner, next_checked zone owner record nsec3 next -> signatures <> [] ->
     (if nsec3 then realOwner = owner else getNSECOwnerName owner signatures = Ok realOwner) ->
     named realOwner /\ G (nkey zone) (mkNE record signatures realOwner next qname ttl qtype)) ->
  ok (fst (insertNSEC settings cfg zone owner record ttl signatures nsec3 qname qtype a)).
Proof.
  intros Ha Hz Hit Hins. unfold insertNSEC. destruct (nsec3 && _); [done|]. destruct signatures as [|s signatures]; [done|].
  destruct (getZone_ok a zone Ha Hz) as (a1 & i & E & Ha1 & Hi). rewrite sm_bind_run, E.
  unfold insertNSEC_at. rewrite sm_bind_run. destruct (accepts_ok a1 i zone nsec3 Ha1 Hi) as (a2 & b & -> & Ha2 & Hi2 & Hd).
  destruct b; cbn [negb]; [|done]. match goal with |- ok (fst (?m a2)) => enough (keeps (inv i zone nsec3) m (fun _ => True)) as Hk end.
  { exact (proj1 (proj1 (proj1 (Hk a2 (conj (conj Ha2 Hi2) (Hd eq_refl)))))). }
  eapply (keeps_bind _ _ _ (fun o => forall next, o = Some next -> next_checked zone owner record nsec3 next)).
  { destruct nsec3; [by apply keeps_check_nsec3|]. intros a3 Ha3. split; [done|]. cbn. intros o Eo next ->. done. }
  intros [next|] Hnext; [|by apply keeps_ret]. specialize (Hnext next eq_refl).
  eapply (keeps_bind _ _ _ (fun r => if nsec3 then r = owner else getNSECOwnerName owner (s :: signatures) = Ok r)).
  { destruct nsec3; cbn [negb andb]; [by apply keeps_ret|]. destruct (isWildcardExpanded_labels (countLabels owner) s) eqn:Ew.
    - intros a3 Ha3. by split.
    - apply keeps_ret. unfold getNSECOwnerName. unfold isWildcardExpanded_labels in Ew. by rewrite Ew. }
  intros realOwner Hreal. destruct (Hins next realOwner Hnext ltac:(done) Hreal) as [Hn Hg]. cbv zeta. apply keeps_if; [by apply keeps_ret|].
  apply keeps_modify. intros a3 [[Ha3 Hi3] Hd3]. set (e := mkNE record (s :: signatures) realOwner next qname ttl qtype).
  assert (of_kind (ze_denialType (object a3 i)) (ag_record e)) as Hkind.
  { rewrite Hd3. unfold next_checked, check_nsec in Hnext. cbn. destruct nsec3; destruct record; try done; by destruct Hnext as (c & ? & _). }
  destruct (store_entry_ok a3 i zone e Ha3 Hi3 Hn Hg Hkind) as [H1 H2]. split; [done|]. rewrite <- Hd3. by apply store_entry_type; eapply object_of_zone.
Qed.
End operations.
