(* ===== verification/AggressivePrune.v ===== *)
(** * Pruning of the aggressive NSEC cache

    [AggressiveNSECCache::prune] of [pdns/recursordist/aggressive_nsec.cc]: it never finds
    its counter inconsistent, leaves at most the maximum, drops what has not expired only
    when there is too much, and keeps the invariant of the cache. *)

From S2P Require Import Prelude Chars Dns Names NamesFacts NamesSpec StdSet SuffixTree SuffixSpec DenialFacts.
From S2P Require Import NameIndex CacheCleaner AggressiveNsec AggressiveLookup AggressiveZones AggressiveOps.

#[local] Open Scope Z_scope.

Lemma scan_expired_spec now n l l' k :
  scan_expired now n l = (l', k) ->
  l' ⊆+ l /\ zlen l' = zlen l - k /\ forall e, e ∈ l -> now < ag_ttd e -> e ∈ l'.
Proof.
  revert l l' k. induction n as [|n IH]; intros l l' k; [intros [= <- <-]; split_and!; [done|lia|done]|].
  destruct l as [|x l]; [intros [= <- <-]; split_and!; [done|lia|done]|]. cbn [scan_expired].
  destruct (scan_expired now n l) as [r m] eqn:E. destruct (IH _ _ _ E) as (Hs & Hl & Hk).
  destruct (Z.leb_spec (ag_ttd x) now); intros [= <- <-]; rewrite !zlen_cons.
  - split_and!; [by apply submseteq_cons|lia|]. intros e [->|He]%elem_of_cons Ht; [lia|by apply Hk].
  - split_and!; [by apply submseteq_skip|lia|]. intros e [->|He]%elem_of_cons Ht; [left|right; by apply Hk].
Qed.

(** What pruning does to the objects. *)
Record shrunk (a a' : Aggressive) : Prop := {
  sh_zones : a_zones a' = a_zones a;
  sh_max : a_maxEntries a' = a_maxEntries a;
  sh_zone : forall i, ze_zone (object a' i) = ze_zone (object a i);
  sh_entries : forall i, ze_entries (object a' i) ⊆+ ze_entries (object a i);
}.

Lemma shrunk_refl a n : shrunk a (set_entriesCount n a).
Proof. by split. Qed.

Lemma shrunk_trans a b c : shrunk a b -> shrunk b c -> shrunk a c.
Proof. intros [H1 H2 H3 H4] [H5 H6 H7 H8]. split; [congruence|congruence| |]; intros i; [by rewrite H7, H3|etrans; [apply H8|apply H4]]. Qed.

Lemma shrunk_empty a b i : shrunk a b -> ze_entries (object a i) = [] -> ze_entries (object b i) = [].
Proof. intros H E. pose proof (sh_entries _ _ H i) as Hs. rewrite E in Hs. by apply submseteq_nil_r in Hs. Qed.

Section pruning.
Context (G : key -> NsecEntry -> Prop).
#[local] Abbreviation ok := (cache_ok G).

(** Entries of one zone are dropped, and the counter follows. *)
Lemma drop_ok a i l n :
  ok a -> i ∈ visited a -> l ⊆+ ze_entries (object a i) -> zlen l = size_of a i - n ->
  let a' := set_entriesCount (a_entriesCount a - n) (change_object (ze_set_entries l) i a) in
  ok a' /\ shrunk a a' /\ (forall j, j <> i -> object a' j = object a j) /\ ze_entries (object a' i) = l.
Proof.
  intros Ha Hv Hl Hn a'. destruct (visited_object _ _ _ Ha Hv) as (o & Ho & Hoo & Eo & _).
  assert (forall j, object a' j = if decide (j = i) then ze_set_entries l (object a i) else object a j) as Hobj
    by (intros j; apply (object_change a); by eexists).
  split_and!.
  - destruct (change_ok G a (ze_set_entries l) i (ze_zone (object a i)) Ha) as [H _]; [by split|done| |].
    + destruct Hoo as [H1 H2 H3 H4 H5]. rewrite Eo in *. split; [done|by eapply entries_submseteq|..|done]; cbn; rewrite Forall_forall in *;
        intros e He; [apply H3|apply H4]; by eapply elem_of_submseteq.
    + cbn [ze_entries ze_set_entries] in H. replace (a_entriesCount a + zlen l - size_of a i) with (a_entriesCount a - n) in H by lia. exact H.
  - split; [done|done| |]; intros j; rewrite Hobj; case_decide; by subst.
  - intros j Hj. by rewrite Hobj, decide_False.
  - by rewrite Hobj, decide_True.
Qed.

Lemma prune_expired_count now ps a n :
  prune_expired now ps (set_entriesCount n a) = let '(a', r) := prune_expired now ps a in (set_entriesCount n a', r).
Proof.
  revert a. induction ps as [|i ps IH]; intros a; [done|]. cbn [prune_expired].
  change (object (set_entriesCount n a) i) with (object a i). destruct (scan_expired _ _ _) as [l k].
  change (change_object (ze_set_entries l) i (set_entriesCount n a)) with (set_entriesCount n (change_object (ze_set_entries l) i a)).
  rewrite IH. by destruct (prune_expired now ps _) as [a' [? ?]].
Qed.

(** The zones named are empty now. *)
Definition emptied (a a' : Aggressive) (names : list DNSName) : Prop :=
  forall z, z ∈ names -> exists i, i ∈ visited a /\ z = ze_zone (object a i) /\ ze_entries (object a' i) = [].

(** The first visit. *)
Lemma prune_expired_ok now ps a a' erased names :
  ok a -> (forall i, i ∈ ps -> i ∈ visited a) -> prune_expired now ps a = (a', (erased, names)) ->
  let a'' := set_entriesCount (a_entriesCount a - erased) a' in
  ok a'' /\ shrunk a a'' /\ emptied a a'' names
  /\ (forall i e, e ∈ ze_entries (object a i) -> now < ag_ttd e -> e ∈ ze_entries (object a'' i)).
Proof.
  revert a a' erased names. induction ps as [|i ps IH]; intros a a' erased names Ha Hps.
  { intros [= <- <- <-]. rewrite Z.sub_0_r. assert (set_entriesCount (a_entriesCount a) a = a) as -> by (by destruct a).
    split_and!; [done|by split|intros z Hz; by apply elem_of_nil in Hz|done]. }
  cbn [prune_expired]. destruct (scan_expired now _ (ze_entries (object a i))) as [l n] eqn:E.
  destruct (prune_expired now ps _) as [b [er nm]] eqn:Er. intros [= <- <- <-].
  destruct (scan_expired_spec _ _ _ _ _ E) as (Hs & Hl & Hk).
  destruct (drop_ok a i l n Ha) as (Ha1 & Hsh & Hother & Hli); [apply Hps; left|done|done|].
  set (a1 := set_entriesCount (a_entriesCount a - n) (change_object (ze_set_entries l) i a)) in *.
  assert (prune_expired now ps a1 = (set_entriesCount (a_entriesCount a - n) b, (er, nm))) as Er' by (unfold a1; by rewrite prune_expired_count, Er).
  eapply IH in Er' as (H1 & H2 & H3 & H4); [|done|intros j Hj; apply (Hps j); by right].
  change (a_entriesCount a1) with (a_entriesCount a - n) in *. rewrite <- Z.sub_add_distr in *. split_and!.
  - exact H1.
  - by eapply shrunk_trans.
  - intros z [Hz|Hz]%elem_of_app.
    + case_bool_decide as Hnil; [|by apply elem_of_nil in Hz]. apply list_elem_of_singleton in Hz as ->. exists i.
      split_and!; [apply Hps; left|done|]. eapply shrunk_empty; [exact H2|]. by rewrite Hli.
    + destruct (H3 z Hz) as (j & Hj & -> & He). exists j. split_and!; [exact Hj|by rewrite (sh_zone _ _ Hsh)|exact He].
  - intros j e He Ht. apply H4; [|done]. destruct (decide (j = i)) as [->|Hne]; [rewrite Hli; by apply Hk|by rewrite Hother].
Qed.

Context `{HQ : !Quotas}.

Lemma count_of_shrunk a a' i ps : (forall j, j <> i -> object a' j = object a j) -> i ∉ ps -> count_of a' ps = count_of a ps.
Proof. intros Hother Hi. apply count_of_ext. intros j Hj. unfold size_of. by rewrite Hother by (intros ->; done). Qed.

Lemma sm_modify_count {A} (m : SM Aggressive A) (P : Aggressive -> Aggressive) a : (sm_modify P ≫= fun _ => m) a = m (P a).
Proof. done. Qed.

Lemma prune_lru_count ps toErase entriesCount a n :
  prune_lru ps toErase entriesCount (set_entriesCount n a)
  = let '(a', r) := prune_lru ps toErase entriesCount a in (set_entriesCount n a', r).
Proof.
  revert toErase entriesCount a. induction ps as [|i ps IH]; intros toErase entriesCount a; [done|]. cbn [prune_lru].
  destruct (entriesCount =? 0); [apply IH|]. rewrite !sm_bind_run. cbn [sm_get].
  change (object (set_entriesCount n a) i) with (object a i). cbv zeta. rewrite !sm_bind_run.
  destruct (entriesCount <? _); cbn [sm_throw_if sm_throw mret SM_ret]; [done|]. rewrite !sm_bind_run. cbn [sm_modify]. rewrite !sm_bind_run.
  change (change_object ?f i (set_entriesCount n a)) with (set_entriesCount n (change_object f i a)). rewrite IH.
  by destruct (prune_lru ps _ _ _) as [a' [[? ?]|e]].
Qed.

(** The second visit: it drops as many as it has to. *)
Lemma prune_lru_ok ps toErase entriesCount a :
  ok a -> NoDup ps -> (forall i, i ∈ ps -> i ∈ visited a) -> entriesCount = count_of a ps -> 0 <= toErase <= entriesCount -> entriesCount < 2 ^ 26 ->
  exists a' names, prune_lru ps toErase entriesCount a = (a', Ok (toErase, names))
    /\ let a'' := set_entriesCount (a_entriesCount a - toErase) a' in ok a'' /\ shrunk a a'' /\ emptied a a'' names.
Proof.
  intros Ha Hd. revert toErase entriesCount a Ha. induction Hd as [|i ps Hi Hd IH]; intros toErase entriesCount a Ha Hps Hc Ht Hbig.
  { cbn in Hc. assert (toErase = 0) as -> by lia. exists a, []. split; [done|]. rewrite Z.sub_0_r.
    assert (set_entriesCount (a_entriesCount a) a = a) as -> by (by destruct a). split_and!; [done|by split|intros z Hz; by apply elem_of_nil in Hz]. }
  change (count_of a (i :: ps)) with (size_of a i + count_of a ps) in Hc. pose proof (count_of_nonneg a ps). pose proof (zlen_nonneg (ze_entries (object a i))) as Hsz.
  fold (size_of a i) in Hsz. cbn [prune_lru]. destruct (Z.eqb_spec entriesCount 0) as [E0|E0].
  { apply IH; [done|intros j Hj; apply (Hps j); by right|lia|lia|lia]. }
  rewrite sm_bind_run. cbn [sm_get]. cbv zeta. fold (size_of a i). rewrite sm_bind_run, (proj2 (Z.ltb_ge entriesCount (size_of a i))) by lia.
  cbn [sm_throw_if mret SM_ret]. rewrite sm_bind_run. cbn [sm_modify].
  set (n := Z.max 0 (Z.min (Z.min (trim_quota toErase (size_of a i) entriesCount) (size_of a i)) toErase)).
  assert (0 <= n <= size_of a i /\ n <= toErase /\ toErase - n <= entriesCount - size_of a i) as (Hn1 & Hn2 & Hn3).
  { destruct (decide (toErase = 0)) as [->|]; [unfold n; lia|].
    destruct (trim_quota_fits toErase (size_of a i) entriesCount) as (Hq1 & Hq2 & Hq3); [lia|lia|nia|]. unfold n. lia. }
  clearbody n. set (l := zdrop n (ze_entries (object a i))).
  destruct (drop_ok a i l n Ha) as (Ha1 & Hsh & Hother & Hli);
    [apply Hps; left|apply sublist_submseteq, sublist_drop|unfold l, size_of; unfold size_of in *; rewrite zlen_zdrop by lia; lia|].
  set (a1 := set_entriesCount (a_entriesCount a - n) (change_object (ze_set_entries l) i a)) in *.
  destruct (IH (toErase - n) (entriesCount - size_of a i) a1) as (b & nm & E & H1 & H2 & H3);
    [done|intros j Hj; apply (Hps j); by right|rewrite (count_of_shrunk a a1 i) by done; lia|lia|lia|].
  unfold a1 in E. rewrite prune_lru_count in E. rewrite sm_bind_run.
  destruct (prune_lru ps (toErase - n) (entriesCount - size_of a i) (change_object (ze_set_entries l) i a)) as [b' [[er nm']|e]] eqn:Eb; [|done].
  injection E as <- -> ->. cbn [mret SM_ret]. replace (n + (toErase - n)) with toErase by lia. eexists _, _. split; [done|].
  change (a_entriesCount a1) with (a_entriesCount a - n) in *. replace (a_entriesCount a - n - (toErase - n)) with (a_entriesCount a - toErase) in * by lia.
  split_and!.
  - exact H1.
  - by eapply shrunk_trans.
  - intros z [Hz|Hz]%elem_of_app.
    + case_bool_decide as Hnil; [|by apply elem_of_nil in Hz]. apply list_elem_of_singleton in Hz as ->. exists i.
      split_and!; [apply Hps; left|done|]. eapply shrunk_empty; [exact H2|]. by rewrite Hli.
    + destruct (H3 z Hz) as (j & Hj & -> & He). exists j. split_and!; [exact Hj|by rewrite (sh_zone _ _ Hsh)|exact He].
Qed.

(** ** Zones that are empty *)

Lemma remove_empty_ok a z :
  ok a -> (forall i, at_zone a i z -> ze_entries (object a i) = []) ->
  let a' := ag_set_zones (tree_remove None z false (a_zones a)) a in
  ok a' /\ (forall i, i ∈ visited a' -> i ∈ visited a) /\ (forall i, i ∈ visited a -> ze_entries (object a i) <> [] -> i ∈ visited a').
Proof.
  intros Ha He a'.
  assert (forall p, value_at p (a_zones a') = if decide (p = nkey z) then None else value_at p (a_zones a)) as Hval.
  { intros p. subst a'. cbn [a_zones ag_set_zones]. unfold tree_remove. by rewrite remove_labels_value, ci_reverse by apply Ha. }
  assert (wf_tree (a_zones a')) as Hw by apply remove_labels_wf, Ha.
  assert (ok a') as Ha'.
  { destruct (value_at (nkey z) (a_zones a)) as [v|] eqn:Ev.
    - destruct (ok_pointer _ _ Ha _ _ Ev) as (i & o & -> & Ho & Hk). assert (at_zone a i z) as Hi.
      { split; [by eapply visited_in; eauto|]. by rewrite (object_lookup _ _ _ Ho). }
      pose proof (remove_one_ok G a z i Ha Hi) as H. unfold size_of in H. rewrite (He i Hi), Z.sub_0_r in H. exact H.
    - apply (fewer_zones_ok G a _ (a_entriesCount a)); [done|apply remove_labels_wf, Ha|intros p v; apply remove_subtree_value, Ha|].
      rewrite (ok_count _ _ Ha). apply count_of_perm. unfold visited. rewrite !tree_values_bindings. change (ag_set_zones _ a) with a'.
      apply omap_Permutation, Permutation_map, bindings_perm; [apply Ha|by apply bindings_unique|].
      intros p v. rewrite bindings_in, Hval by done. case_decide as E; [|done]. subst p. by rewrite Ev. }
  split_and!; [done| |].
  - intros i [p Hp]%(visited_in G); [|done]. rewrite Hval in Hp. case_decide; [done|]. eapply visited_in; eauto.
  - intros i Hi Hne. destruct (visited_object _ _ _ Ha Hi) as (o & Ho & Hoo & Eo & Hv). apply (visited_in G); [done|]. exists (nkey (ze_zone o)).
    rewrite Hval, decide_False; [done|]. intros E. apply Hne, He. split; [done|]. by rewrite Eo.
Qed.

Lemma remove_zones_ok names a :
  ok a -> (forall z i, z ∈ names -> at_zone a i z -> ze_entries (object a i) = []) ->
  let a' := remove_zones names a in
  ok a' /\ a_entriesCount a' = a_entriesCount a /\ a_objects a' = a_objects a
  /\ (forall i, i ∈ visited a -> ze_entries (object a i) <> [] -> i ∈ visited a').
Proof.
  revert a. unfold remove_zones. induction names as [|z names IH]; intros a Ha He; [done|]. cbn [fold_left].
  destruct (remove_empty_ok a z Ha) as (Ha1 & Hsub & Hkeep); [intros i; apply (He z); left|].
  set (a1 := ag_set_zones (tree_remove None z false (a_zones a)) a) in *.
  destruct (IH a1 Ha1) as (H1 & H2 & H3 & H4).
  { intros z' i Hz' [Hv Hk]. apply (He z'); [by right|]. split; [by apply Hsub|done]. }
  split_and!; [done..|]. intros i Hi Hne. apply H4; [by apply Hkeep|done].
Qed.

Lemma emptied_zone a a' names z i :
  ok a -> ok a' -> shrunk a a' -> emptied a a' names -> z ∈ names -> at_zone a' i z -> ze_entries (object a' i) = [].
Proof.
  intros Ha Ha' Hsh Hem Hz [Hv Hk]. destruct (Hem z Hz) as (j & Hj & -> & He). assert (i = j) as ->; [|done].
  assert (i ∈ visited a) as Hi by (unfold visited in *; by rewrite (sh_zones _ _ Hsh) in Hv).
  destruct (visited_object _ _ _ Ha Hi) as (o & _ & _ & Eo & Hvi). destruct (visited_object _ _ _ Ha Hj) as (o' & _ & _ & Eo' & Hvj).
  rewrite (sh_zone _ _ Hsh), Eo, Eo' in Hk. rewrite Hk, Hvj in Hvi. by injection Hvi.
Qed.

(** ** The whole *)

(** [prune] after its two visits. *)
Lemma prune_visits a now :
  ok a -> 0 <= a_maxEntries a -> a_entriesCount a < 2 ^ 26 ->
  exists a' names, aggressive_prune now a = (remove_zones names a', Ok tt) /\ ok a' /\ shrunk a a' /\ emptied a a' names
    /\ a_entriesCount a' <= a_maxEntries a /\ a_entriesCount a' <= a_entriesCount a
    /\ (a_entriesCount a <= a_maxEntries a \/ a_entriesCount a' < a_maxEntries a ->
        forall i e, e ∈ ze_entries (object a i) -> now < ag_ttd e -> e ∈ ze_entries (object a' i)).
Proof.
  intros Ha Hmax Hbig. unfold aggressive_prune. rewrite sm_bind_run. cbn [sm_get]. rewrite sm_bind_run. cbn [sm_get]. rewrite sm_bind_run.
  destruct (prune_expired now (visited a) a) as [b [erased names]] eqn:E.
  destruct (prune_expired_ok now (visited a) a b erased names Ha) as (Ha1 & Hsh & Hem & Hkeep); [done|done|].
  rewrite sm_bind_run. cbn [sm_modify]. assert (a_entriesCount b = a_entriesCount a) as Eb.
  { pose proof (prune_expired_count now (visited a) a (a_entriesCount a)) as Hc. rewrite E in Hc.
    replace (set_entriesCount (a_entriesCount a) a) with a in Hc by (by destruct a). rewrite E in Hc. injection Hc as Hc. rewrite Hc. done. }
  rewrite Eb. set (a1 := set_entriesCount (a_entriesCount a - erased) b) in *. rewrite sm_bind_run. cbn [sm_get].
  assert (visited a1 = visited a) as Hvis by (unfold visited; by rewrite (sh_zones _ _ Hsh)).
  assert (a_entriesCount a1 <= a_entriesCount a) as Hle.
  { rewrite (ok_count _ _ Ha), (ok_count _ _ Ha1), Hvis. clear -Hsh. induction (visited a) as [|i ps IH]; [done|].
    unfold count_of, size_of in *. cbn [foldr]. pose proof (submseteq_length _ _ (sh_entries _ _ Hsh i)). unfold zlen in *. lia. }
  destruct (Z.ltb_spec (a_maxEntries a) (a_entriesCount a1)) as [Hlt|Hge].
  - destruct (prune_lru_ok (visited a) (a_entriesCount a1 - a_maxEntries a) (a_entriesCount a1) a1) as (c & names2 & Ec & Hc1 & Hc2 & Hc3);
      [done|by apply (visited_unique G)|by rewrite Hvis|by rewrite (ok_count _ _ Ha1), Hvis|lia|lia|].
    rewrite sm_bind_run. rewrite sm_bind_run, Ec. cbn [sm_modify]. rewrite sm_bind_run. cbn [sm_modify].
    assert (a_entriesCount c = a_entriesCount a1) as Ecc.
    { pose proof (prune_lru_count (visited a) (a_entriesCount a1 - a_maxEntries a) (a_entriesCount a1) a1 (a_entriesCount a1)) as Hc. rewrite Ec in Hc.
      replace (set_entriesCount (a_entriesCount a1) a1) with a1 in Hc by (by destruct a1). rewrite Ec in Hc. injection Hc as Hc. rewrite Hc. done. }
    rewrite Ecc. set (a2 := set_entriesCount (a_entriesCount a1 - (a_entriesCount a1 - a_maxEntries a)) c) in *.
    exists a2, (names ++ names2). split; [done|]. split; [done|]. split; [by eapply shrunk_trans|]. split_and!.
    + intros z [Hz|Hz]%elem_of_app.
      * destruct (Hem z Hz) as (i & Hi & -> & He). exists i. split_and!; [done..|]. by eapply shrunk_empty.
      * destruct (Hc3 z Hz) as (i & Hi & -> & He). exists i. split_and!; [by rewrite <- Hvis|by rewrite (sh_zone _ _ Hsh)|done].
    + subst a2. cbn [a_entriesCount set_entriesCount]. lia.
    + subst a2. cbn [a_entriesCount set_entriesCount]. lia.
    + subst a2. cbn [a_entriesCount set_entriesCount]. intros [Hno|Hno]; lia.
  - rewrite sm_bind_run. cbn [mret SM_ret sm_modify]. exists a1, (names ++ []). split; [done|]. rewrite app_nil_r. split_and!; [done..|]. auto.
Qed.

(** pruning never throws. At most the maximum of entries is left, with their number in
    the counter; and when there were not more than that before, or fewer are left, only
    entries that have expired are gone. *)
Lemma prune_ok a now :
  ok a -> 0 <= a_maxEntries a -> a_entriesCount a < 2 ^ 26 ->
  exists a', aggressive_prune now a = (a', Ok tt) /\ ok a' /\ a_entriesCount a' <= a_maxEntries a
    /\ (a_entriesCount a <= a_maxEntries a \/ a_entriesCount a' < a_maxEntries a ->
        forall i e, i ∈ visited a -> e ∈ ze_entries (object a i) -> now < ag_ttd e -> i ∈ visited a' /\ e ∈ ze_entries (object a' i)).
Proof.
  intros Ha Hmax Hbig. destruct (prune_visits a now Ha Hmax Hbig) as (b & names & E & Hb & Hsh & Hem & H1 & H2 & H3).
  destruct (remove_zones_ok names b Hb) as (Hr1 & Hr2 & Hr3 & Hr4).
  { intros z i Hz Hi. by eapply (emptied_zone a b names). }
  exists (remove_zones names b). split_and!; [done|done|lia|]. intros Hle i e Hi He Ht. rewrite Hr2 in Hle. pose proof (H3 Hle i e He Ht) as Hin. split.
  - apply Hr4; [unfold visited in *; by rewrite (sh_zones _ _ Hsh)|]. intros Hnil. rewrite Hnil in Hin. by apply elem_of_nil in Hin.
  - unfold object in *. by rewrite Hr3.
Qed.
End pruning.
