(* ===== verification/Base32Order.v ===== *)
(** * base32hex keeps the order

    The point of the extended hex alphabet of [pdns/base32.cc]: the encodings of hashes
    of the same length are ordered as the hashes are, so that the canonical order of
    hashed owner names is the order of the hashes. *)

From S2P Require Import Prelude Chars Dns Names NamesFacts NamesText NamesSpec Base32 Denial DenialFacts NameIndex.
From S2P Require Import AggressiveNsec.

#[local] Open Scope Z_scope.

#[local] Abbreviation lexz := (lex_compare Z.compare).

Lemma lex_app a b c d : length a = length c -> lexz (a ++ b) (c ++ d) = match lexz a c with Eq => lexz b d | r => r end.
Proof.
  revert c. induction a as [|x a IH]; intros [|y c] Hl; try done. cbn. destruct (x ?= y); [|done..]. apply IH. by injection Hl.
Qed.

(** ** Numbers in a base *)

Section base.
Context (B : Z) (HB : 1 < B).

Fixpoint value (l : list Z) : Z := match l with [] => 0 | x :: l => x * B ^ zlen l + value l end.

Definition digits_ok (l : list Z) : Prop := Forall (fun x => 0 <= x < B) l.

Lemma value_range l : digits_ok l -> 0 <= value l < B ^ zlen l.
Proof.
  induction 1 as [|x l Hx Hl IH]; cbn [value]; [done|]. rewrite zlen_cons, Z.pow_add_r by (pose proof (zlen_nonneg l); lia).
  assert (0 < B ^ zlen l) by (apply Z.pow_pos_nonneg; [lia|apply zlen_nonneg]). nia.
Qed.

(** Digits of the same number compare as the numbers. *)
Lemma lex_value l m : digits_ok l -> digits_ok m -> length l = length m -> lexz l m = (value l ?= value m).
Proof.
  intros Hl. revert m. induction Hl as [|x l Hx Hl IH]; intros [|y m] Hm Hlen; try done. apply Forall_cons in Hm as [Hy Hm].
  cbn [lex_compare value]. injection Hlen as Hlen. assert (zlen m = zlen l) as -> by (unfold zlen; lia).
  pose proof (value_range l Hl). pose proof (value_range m Hm) as Hvm. replace (zlen m) with (zlen l) in Hvm by (unfold zlen; lia).
  destruct (Z.compare_spec x y) as [->|Hlt|Hgt].
  - rewrite (IH m Hm Hlen). symmetry. apply Z.add_compare_mono_l.
  - symmetry. apply Z.compare_lt_iff. nia.
  - symmetry. apply Z.compare_gt_iff. nia.
Qed.

(** The last [n] digits of a number. *)
Fixpoint dig (n : nat) (v : Z) : list Z := match n with O => [] | S n => dig n (v / B) ++ [v mod B] end.

Lemma value_snoc l x : value (l ++ [x]) = value l * B + x.
Proof.
  induction l as [|y l IH]; cbn [app value]; [change (zlen (@nil Z)) with 0; lia|].
  rewrite IH, zlen_app. change (zlen [x]) with 1. rewrite Z.pow_add_r by (pose proof (zlen_nonneg l); lia). lia.
Qed.

Lemma length_dig n v : length (dig n v) = n.
Proof. revert v. induction n as [|n IH]; intros v; [done|]. cbn. rewrite length_app, IH. cbn. lia. Qed.

Lemma dig_ok n v : digits_ok (dig n v).
Proof.
  revert v. induction n as [|n IH]; intros v; [constructor|]. cbn. apply Forall_app. split; [apply IH|]. repeat constructor; apply Z.mod_pos_bound; lia.
Qed.

Lemma value_dig n v : 0 <= v < B ^ Z.of_nat n -> value (dig n v) = v.
Proof.
  revert v. induction n as [|n IH]; intros v Hv; [change (B ^ Z.of_nat 0) with 1 in Hv; cbn; lia|]. cbn [dig]. rewrite value_snoc, IH.
  - rewrite (Z.div_mod v B) at 3 by lia. lia.
  - rewrite Nat2Z.inj_succ, Z.pow_succ_r in Hv by lia. split; [apply Z.div_pos; lia|]. apply Z.div_lt_upper_bound; lia.
Qed.
End base.

(** ** One group *)

Definition digit_char (v : Z) : Z := byte_at base32hex v.

Lemma digit_char_facts v :
  0 <= v < 32 -> (48 <= digit_char v <= 57 \/ 97 <= digit_char v <= 118) /\ digit_char v = if v <? 10 then 48 + v else 87 + v.
Proof.
  intros Hv. assert (Forall (fun v => (48 <= digit_char v <= 57 \/ 97 <= digit_char v <= 118) /\ digit_char v = if v <? 10 then 48 + v else 87 + v) (seqZ 0 32))
    as H by by_decide. rewrite Forall_forall in H. apply H, elem_of_seqZ. lia.
Qed.

Lemma digit_char_compare v w : 0 <= v < 32 -> 0 <= w < 32 -> (digit_char v ?= digit_char w) = (v ?= w).
Proof.
  intros Hv Hw. rewrite (proj2 (digit_char_facts v Hv)), (proj2 (digit_char_facts w Hw)).
  destruct (Z.ltb_spec v 10), (Z.ltb_spec w 10); destruct (Z.compare_spec v w); [apply Z.compare_eq_iff|apply Z.compare_lt_iff|apply Z.compare_gt_iff|..];
    try lia; first [apply Z.compare_eq_iff; lia|apply Z.compare_lt_iff; lia|apply Z.compare_gt_iff; lia].
Qed.

Lemma lex_digit_chars l m :
  digits_ok 32 l -> digits_ok 32 m -> lexz (map digit_char l) (map digit_char m) = lexz l m.
Proof.
  intros Hl. revert m. induction Hl as [|x l Hx Hl IH]; intros m Hm; destruct Hm as [|y m Hy Hm]; try done.
  cbn [map lex_compare]. rewrite digit_char_compare by done. destruct (x ?= y); [by apply IH|done..].
Qed.

(** The digits of a group are those of the number its five bytes stand for. *)
Lemma group_dig b0 b1 b2 b3 b4 rest :
  bytes_ok (b0 :: b1 :: b2 :: b3 :: b4 :: rest) ->
  base32_group (b0 :: b1 :: b2 :: b3 :: b4 :: rest) = map digit_char (dig 32 8 (value 256 [b0; b1; b2; b3; b4])).
Proof.
  intros Hs. rewrite base32_group_digits by done. set (s := b0 :: b1 :: b2 :: b3 :: b4 :: rest) in *.
  assert (5 <= zlen s) as Hlen by (unfold zlen, s; cbn [length]; lia).
  assert (stuffing (zlen s) = 0) as -> by (unfold stuffing; by rewrite !(proj2 (Z.eqb_neq _ _)) by lia).
  cbn [Z.to_nat replicate]. rewrite app_nil_r. unfold digits. change (seqZ 0 (8 - 0)) with [0; 1; 2; 3; 4; 5; 6; 7]. cbn [map].
  assert (bytes_ok [b0; b1; b2; b3; b4]) as H5 by exact (Forall_take _ 5 s Hs).
  pose proof (byte_at_ok s 5 Hs) as Hb5.
  unfold bytes_ok in H5. rewrite !Forall_cons in H5. destruct H5 as (H0 & H1 & H2 & H3 & H4 & _). unfold is_byte in *.
  cbn [dig app map]. rewrite !Z.div_div by lia. unfold five, digit_char.
  change (byte_at s (0 * 5 / 8)) with b0. change (byte_at s (1 * 5 / 8)) with b0. change (byte_at s (2 * 5 / 8)) with b1. change (byte_at s (3 * 5 / 8)) with b1.
  change (byte_at s (4 * 5 / 8)) with b2. change (byte_at s (5 * 5 / 8)) with b3. change (byte_at s (6 * 5 / 8)) with b3. change (byte_at s (7 * 5 / 8)) with b4.
  change (byte_at s (0 * 5 / 8 + 1)) with b1. change (byte_at s (1 * 5 / 8 + 1)) with b1. change (byte_at s (2 * 5 / 8 + 1)) with b2. change (byte_at s (3 * 5 / 8 + 1)) with b2.
  change (byte_at s (4 * 5 / 8 + 1)) with b3. change (byte_at s (5 * 5 / 8 + 1)) with b4. change (byte_at s (6 * 5 / 8 + 1)) with b4.
  change (7 * 5 / 8 + 1) with 5. set (b5 := byte_at s 5) in *. clearbody b5.
  cbn [value]. change (256 ^ zlen [b1; b2; b3; b4]) with 4294967296. change (256 ^ zlen [b2; b3; b4]) with 16777216. change (256 ^ zlen [b3; b4]) with 65536.
  change (256 ^ zlen [b4]) with 256. change (256 ^ zlen (@nil Z)) with 1.
  repeat match goal with |- context [2 ^ ?e] => let v := eval vm_compute in (2 ^ e) in change (2 ^ e) with v end.
  repeat match goal with |- context [32 * ?e] => let v := eval vm_compute in (32 * e) in progress change (32 * e) with v end.
  repeat (apply (f_equal2 cons); [apply (f_equal (byte_at base32hex)); Z.to_euclidean_division_equations; lia|]). done.
Qed.

(** ** The whole string *)

Definition b32_chars (l : bytes) : Prop := Forall (fun c => 48 <= c <= 57 \/ 97 <= c <= 118) l.

Lemma chars_of_digits l : digits_ok 32 l -> b32_chars (map digit_char l).
Proof. intros Hl. unfold b32_chars. rewrite Forall_map. eapply Forall_impl; [exact Hl|]. intros v Hv. by apply digit_char_facts. Qed.

Lemma group_value s : bytes_ok s -> length s = 5%nat -> 0 <= value 256 s < 32 ^ Z.of_nat 8.
Proof. intros Hs Hl. pose proof (value_range 256 ltac:(lia) s Hs) as H. unfold zlen in H. rewrite Hl in H. exact H. Qed.

Lemma loop_groups n : forall fuel s, bytes_ok s -> length s = (5 * n)%nat -> (length s <= fuel)%nat ->
  b32_chars (toBase32Hex_loop fuel s) /\ length (toBase32Hex_loop fuel s) = (8 * n)%nat
  /\ forall fuel' s', bytes_ok s' -> length s' = (5 * n)%nat -> (length s' <= fuel')%nat ->
     lexz (toBase32Hex_loop fuel s) (toBase32Hex_loop fuel' s') = lexz s s'.
Proof.
  induction n as [|n IH]; intros fuel s Hs Hl Hf.
  { apply length_zero_iff_nil in Hl as ->. assert (forall f, toBase32Hex_loop f [] = []) as E by (by destruct f). rewrite E.
    split_and!; [constructor|done|]. intros fuel' s' _ Hl' _. apply length_zero_iff_nil in Hl' as ->. by rewrite E. }
  assert (forall s : bytes, length s = (5 * S n)%nat -> exists b0 b1 b2 b3 b4 rest, s = b0 :: b1 :: b2 :: b3 :: b4 :: rest /\ length rest = (5 * n)%nat) as Hsplit.
  { intros u Hu. destruct u as [|b0 [|b1 [|b2 [|b3 [|b4 rest]]]]]; cbn in Hu; try lia. exists b0, b1, b2, b3, b4, rest. split; [done|]. lia. }
  destruct (Hsplit s Hl) as (b0 & b1 & b2 & b3 & b4 & rest & -> & Hr). destruct fuel as [|fuel]; [cbn in Hf; lia|].
  cbn [toBase32Hex_loop]. rewrite group_dig by done. change (drop 5 (b0 :: b1 :: b2 :: b3 :: b4 :: rest)) with rest.
  assert (bytes_ok [b0; b1; b2; b3; b4]) as H5 by exact (Forall_take _ 5 _ Hs). assert (bytes_ok rest) as Hrest by exact (Forall_drop _ 5 _ Hs).
  destruct (IH fuel rest Hrest Hr) as (I1 & I2 & I3); [cbn in Hf; lia|]. split_and!.
  - apply Forall_app. split; [|done]. apply chars_of_digits, dig_ok. lia.
  - rewrite length_app, length_map, length_dig, I2. lia.
  - intros fuel' s' Hs' Hl' Hf'. destruct (Hsplit s' Hl') as (c0 & c1 & c2 & c3 & c4 & rest' & -> & Hr'). destruct fuel' as [|fuel']; [cbn in Hf'; lia|].
    cbn [toBase32Hex_loop]. rewrite group_dig by done. change (drop 5 (c0 :: c1 :: c2 :: c3 :: c4 :: rest')) with rest'.
    assert (bytes_ok [c0; c1; c2; c3; c4]) as H5' by exact (Forall_take _ 5 _ Hs'). assert (bytes_ok rest') as Hrest' by exact (Forall_drop _ 5 _ Hs').
    rewrite lex_app by (by rewrite !length_map, !length_dig). rewrite lex_digit_chars by (apply dig_ok; lia).
    rewrite (lex_value 32), !value_dig by (first [lia|apply dig_ok; lia|by rewrite !length_dig|by apply group_value]).
    change (b0 :: b1 :: b2 :: b3 :: b4 :: rest) with ([b0; b1; b2; b3; b4] ++ rest). change (c0 :: c1 :: c2 :: c3 :: c4 :: rest') with ([c0; c1; c2; c3; c4] ++ rest').
    rewrite lex_app by done. rewrite (lex_value 256 ltac:(lia) _ _ H5 H5') by done. destruct (_ ?= _); [|done..]. apply I3; [done|done|cbn in Hf'; lia].
Qed.

(** the encodings of two hashes of twenty bytes are ordered as the hashes. *)
Lemma base32_order a b :
  bytes_ok a -> bytes_ok b -> zlen a = 20 -> zlen b = 20 -> lex_compare Z.compare (toBase32Hex a) (toBase32Hex b) = lex_compare Z.compare a b.
Proof.
  intros Ha Hb La Lb. unfold toBase32Hex. destruct (loop_groups 4 (length a) a Ha) as (_ & _ & H); [unfold zlen in *; lia|lia|].
  apply H; [done|unfold zlen in *; lia|lia].
Qed.

Lemma base32_text h : bytes_ok h -> zlen h = 20 -> b32_chars (toBase32Hex h) /\ zlen (toBase32Hex h) = 32.
Proof.
  intros Hh Hl. unfold toBase32Hex. destruct (loop_groups 4 (length h) h Hh) as (H1 & H2 & _); [unfold zlen in *; lia|lia|].
  split; [done|]. unfold zlen. rewrite H2. done.
Qed.

(** ** Hashed names *)

Lemma b32_lower l : b32_chars l -> toLower l = l.
Proof.
  induction 1 as [|c l Hc Hl IH]; [done|]. unfold toLower in *. cbn [map]. rewrite IH. f_equal.
  assert (Forall (fun c => 48 <= c <= 57 \/ 97 <= c <= 118 -> dns_tolower c = c) (seqZ 0 128)) as H by by_decide.
  rewrite Forall_forall in H. apply H; [apply elem_of_seqZ; lia|done].
Qed.

Lemma b32_bytes l : b32_chars l -> bytes_ok l.
Proof. intros Hl. eapply Forall_impl; [exact Hl|]. intros c Hc. unfold is_byte. cbn in Hc. lia. Qed.

Lemma b32_not l c : b32_chars l -> ~ (48 <= c <= 57 \/ 97 <= c <= 118) -> c ∉ l.
Proof. intros Hl Hc Hin. unfold b32_chars in Hl. rewrite Forall_forall in Hl. by apply Hc, Hl. Qed.

Lemma span_no_dot l : 46 ∉ l -> span_dot l = (l, []).
Proof.
  induction l as [|x l IH]; intros H46; [done|]. apply not_elem_of_cons in H46 as [Hx H46]. cbn. rewrite (proj2 (Z.eqb_neq x 46)) by congruence.
  by rewrite IH.
Qed.

Lemma text_loop_label l fuel : 46 ∉ l -> 0 < zlen l <= 63 -> DNSName_text_loop (S fuel) l 0 [] = Ok (zlen l :: l).
Proof.
  intros H46 Hlen. destruct l as [|c l]; [change (zlen (@nil Z)) with 0 in Hlen; lia|]. cbn [DNSName_text_loop].
  rewrite (proj2 (Z.eqb_neq c 46)) by (intros ->; apply H46; left). rewrite span_no_dot by done.
  unfold throw_if, s_maxDNSLabelLength, s_maxDNSNameLength. rewrite !u8_small by (change (zlen (@nil Z)) with 0; lia).
  rewrite !(proj2 (Z.ltb_ge _ _)) by lia. cbn [mbind result_bind tail]. change (zlen (@nil Z)) with 0. cbn. by destruct fuel.
Qed.

(** A text of one label. *)
Lemma from_text_label l : b32_chars l -> zlen l = 32 -> DNSName_from_text l = Ok (mkDNSName (storage_of [l])) /\ represents (mkDNSName (storage_of [l])) [l].
Proof.
  intros Hl Hlen. assert (46 ∉ l) as H46 by (apply b32_not; [done|lia]). assert (92 ∉ l) as H92 by (apply b32_not; [done|lia]).
  unfold DNSName_from_text. rewrite (bool_decide_false (l = [])), (bool_decide_false (l = [46])) by (intros E; rewrite E in Hlen; done). cbn [orb].
  rewrite bool_decide_false by done. assert (length l = S 31) as -> by (unfold zlen in Hlen; lia). rewrite text_loop_label by (done || lia).
  cbn [mbind result_bind]. unfold throw_if, s_maxDNSNameLength. rewrite zlen_cons, Hlen. cbn. unfold storage_of, enc_labels. cbn. rewrite app_nil_r, Hlen.
  split; [done|]. split_and!; [unfold storage_of, enc_labels; cbn; by rewrite app_nil_r, Hlen| |].
  - constructor; [|constructor]. split; [lia|by apply b32_bytes].
  - unfold storage_of, enc_labels. cbn. rewrite zlen_cons, zlen_app, app_nil_r, Hlen. done.
Qed.

(** [hash_name] puts the encoded hash before the zone. *)
Lemma hash_name_key h zone n :
  bytes_ok h -> zlen h = 20 -> named zone -> hash_name h zone = Ok n -> named_key n (nkey zone ++ [toBase32Hex h]).
Proof.
  intros Hh Hl [zl Hz] H. destruct (base32_text h Hh Hl) as [Hc H32]. destruct (from_text_label _ Hc H32) as [Et Hr].
  unfold hash_name in H. rewrite Et in H. cbn [mbind result_bind] in H.
  assert (zlen (storage_of ([toBase32Hex h] ++ zl)) <= 255) as Hlen.
  { unfold name_append in H. bind_inv H. apply throw_if_Ok, Z.ltb_ge in E. rewrite (proj1 Hz) in E. cbn [d_storage] in E.
    rewrite storage_of_app, zlen_app. rewrite zlen_storage_of in E. unfold s_maxDNSNameLength in E. lia. }
  rewrite (name_append_represents _ _ _ _ Hr Hz Hlen) in H. injection H as <-. exists (toBase32Hex h :: zl). split.
  - split_and!; [done| |done]. constructor; [|apply Hz]. split; [lia|by apply b32_bytes].
  - change (toBase32Hex h :: zl) with ([toBase32Hex h] ++ zl). rewrite ckey_app. f_equal.
    + unfold nkey. by rewrite (getRawLabels_represents zone zl).
    + unfold ckey, ci_labels. cbn. by rewrite b32_lower.
Qed.

(** The order of hashed names of a zone is that of the hashes. *)
Lemma hashed_compare k a b :
  bytes_ok a -> bytes_ok b -> zlen a = 20 -> zlen b = 20 ->
  kcompare (k ++ [toBase32Hex a]) (k ++ [toBase32Hex b]) = lex_compare Z.compare a b.
Proof.
  intros Ha Hb La Lb. rewrite <- (base32_order a b) by done. unfold kcompare. induction k as [|x k IH]; cbn.
  - by destruct (lexz _ _).
  - rewrite (cmp_refl (lex_compare Z.compare)). exact IH.
Qed.
