(* ===== verification/AggressiveSpec.v ===== *)
(** * What the aggressive cache answers from NSEC is right

    Soundness of the NSEC branch of [AggressiveNSECCache::getDenial]
    ([pdns/recursordist/aggressive_nsec.cc]): when the cached records are records of the
    zones, a negative answer is true of the zone, and an answer is synthesized from a
    wildcard only where the wildcard applies. *)

From S2P Require Import Prelude Chars Dns Names NamesFacts NamesOrder NamesSpec NsecBitmap Base32 Denial DenialFacts DenialSpec Nsec3Spec.
From S2P Require Import NameIndex IpUtils Validate TaskQueue RecursorCache CacheCleaner SuffixTree AggressiveNsec AggressiveDenial AggressiveLookup AggressiveZones AggressiveOps.

#[local] Open Scope Z_scope.

(** ** Triples *)

(** From states with [P] the method ends in states with [F], and what it returns
    satisfies [Q]. *)
Definition ends {S A} (P F : S -> Prop) (m : SM S A) (Q : A -> Prop) : Prop :=
  forall s, P s -> F (fst (m s)) /\ forall a, snd (m s) = Ok a -> Q a.

Section triples.
Context {S : Type} (P F : S -> Prop) (HPF : forall s, P s -> F s).

Lemma ends_keeps {A} (m : SM S A) Q : keeps P m Q -> ends P F m Q.
Proof. intros Hm s Hs. destruct (Hm s Hs). split; [by apply HPF|done]. Qed.

Lemma ends_ret {A} (a : A) (Q : A -> Prop) : Q a -> ends P F (mret a) Q.
Proof. intros Ha. by apply ends_keeps, keeps_ret. Qed.

Lemma ends_bind {A B} (m : SM S A) (f : A -> SM S B) R Q :
  keeps P m R -> (forall a, R a -> ends P F (f a) Q) -> ends P F (m ≫= f) Q.
Proof.
  intros Hm Hf s Hs. destruct (Hm s Hs) as [HP HR]. unfold mbind, SM_bind.
  destruct (m s) as [s' [a|e]]; cbn in *; [|split; [by apply HPF|done]]. by apply Hf; [apply HR|].
Qed.

Lemma ends_if {A} (b : bool) (m m' : SM S A) Q : (b = true -> ends P F m Q) -> (b = false -> ends P F m' Q) -> ends P F (if b then m else m') Q.
Proof. destruct b; auto. Qed.
End triples.

Lemma in_aggressive_get {C Au A B} (f : Aggressive -> A) (k : A -> SM (World C Au) B) w :
  (in_aggressive (sm_get f) ≫= k) w = k (f (w_aggressive w)) w.
Proof. by destruct w. Qed.

(** ** One NSEC record *)

Lemma matchesNSEC_verdict z name sigs nsec owner b n qname q qtype d :
  zone_ok z -> genuine_nsec z name sigs nsec owner b n -> named_key qname q ->
  matchesNSEC qname qtype name nsec sigs = Ok d ->
  match d with
  | NXQTYPE => nsec_usable z qtype b q /\ ((q = b /\ isTypeDenied (nsec_bitmap nsec) qtype = true) \/ (in_gap b n q /\ below_next b n q))
  | NXDOMAIN => nsec_usable z qtype b q /\ in_gap b n q /\ ~ below_next b n q
  | _ => True
  end.
Proof.
  intros Hz Hg Hq H. pose proof Hg as [G1 _ G3 G4 G5 G6 G7 (ts & Ets & Hts)]. unfold matchesNSEC in H. bind_inv H.
  destruct a; cbn [negb] in H; [|by injection H as <-]. rewrite G4 in H. cbn [mbind result_bind] in H.
  assert (z_apex z `prefix_of` q) as Hap.
  { apply (isPartOf_true_key qname (getSigner sigs)); [done|done|]. eapply all_part_of_true; [exact E|]. set_solver. }
  rewrite (key_isPartOf _ _ _ _ Hq G5) in H. cbn [mbind result_bind] in H.
  pose proof (key_name_eqb _ _ _ _ Hq G5) as Heq. pose proof (key_name_eqb _ _ _ _ G3 Hq) as Hsig.
  case_match eqn:Hanc; [by injection H as <-|].
  assert (z_cut z b -> b `prefix_of` q -> qtype = QType.DS /\ q = b) as Hcut.
  { intros Hc Hp. rewrite (genuine_delegation _ _ _ _ _ _ _ Hz Hg Hc), bool_decide_true in Hanc by done.
    cbn in Hanc. apply orb_false_elim in Hanc as [D1 D2]. apply negb_false_iff in D1, D2.
    split; [by apply Z.eqb_eq|by apply Heq]. }
  case_match eqn:Hqb.
  { assert (q = b) as -> by naive_solver. case_match eqn:Htd; [by injection H as <-|]. apply negb_false_iff in Htd.
    case_match eqn:Hds; injection H as <-; [done|]. split; [|by left]. split; [done|done|done|]. intros -> Ea. symmetry in Ea.
    apply Hsig in Ea. rewrite Ea, Z.eqb_refl in Hds. done. }
  assert (q <> b) as Hne by naive_solver. case_match eqn:Hdn; [by injection H as <-|].
  case_match eqn:Hcov; [|by injection H as <-]. apply (key_covered _ _ _ _ _ _ Hq G5 G6) in Hcov.
  assert (nsec_usable z qtype b q) as Hu.
  { split; [done|done| |].
    - intros (ts' & E1 & E2) Hp. rewrite Ets in E1. injection E1 as <-. rewrite bool_decide_true, Hts, E2 in Hdn by done. done.
    - intros _ ->. destruct (gap_not_node z b n (z_apex z) G7 Hcov). apply Hz. }
  destruct (key_nsecProvesENT _ _ _ _ _ _ Hq G5 G6) as (e & He & Hbn). rewrite He in H. cbn [mbind result_bind] in H.
  destruct e; injection H as <-; split; [done|right; naive_solver|done|naive_solver].
Qed.

(** ** Entries of zones *)

Section soundness.
Context (SHA1 : bytes -> bytes).

(** The zone at each apex. *)
Context (zs : key -> zone) (Hzs : forall k, zone_ok (zs k) /\ z_apex (zs k) = k).

(** An NSEC entry is a record of its zone, under the name it was signed for. *)
Definition nsec_entry (k : key) (e : NsecEntry) : Prop :=
  forall nsec, ag_record e = RR_NSEC nsec ->
    ag_next e = nsec_next nsec /\ exists b n, genuine_nsec (zs k) (ag_owner e) (ag_signatures e) nsec (ag_owner e) b n.

(** What may be answered for the name with key [q]: that it does not exist, that it
    does not have the type, or what the record cache has for the wildcard that
    applies. *)
Definition wildcard_applies (z : zone) (q ce : key) : Prop :=
  name_absent z q /\ nothing_below z q /\ closest_encloser z q ce /\ z_exists z (ce ++ [star]).

Context {C Au : Type} (rec : cache_settings C RRSIGRecordContent Au) `{HR : !RangeIndex C RRSIGRecordContent Au}.
Context (now : Z) (name : DNSName) (q : key) (type : Z) (doDNSSEC : bool) (maps : list (Content C RRSIGRecordContent Au)).

Inductive right_answer (z : zone) : Z * list (answer_record C) -> Prop :=
| right_nxdomain records : name_denied z q -> right_answer z (RCode.NXDomain, records)
| right_nodata records : type_denied z q type -> right_answer z (RCode.NoError, records)
| right_wildcard ce wc w w' wcSet wcSignatures proof :
    wildcard_applies z q ce -> named_key wc (ce ++ [star]) -> w_recCache w = maps ->
    secure_get rec now wc type localhost NOTAG doDNSSEC w = (w', Ok (Some (wcSet, wcSignatures))) ->
    right_answer z (RCode.NoError, addToRRSet now wcSet wcSignatures name doDNSSEC ANSWER ++ proof).

(** The code tells a denial of the name from the others. *)
Lemma right_answer_nxdomain z r : right_answer z r -> fst r = RCode.NXDomain -> name_denied z q.
Proof. by destruct 1. Qed.

(** The answer is right when [A] holds. *)
Context (A : Prop).
Definition right (z : zone) (o : option (Z * list (answer_record C))) : Prop := forall r, o = Some r -> A -> right_answer z r.

Context (G : key -> NsecEntry -> Prop) (HG : forall k e, G k e -> nsec_entry k e).
Context (Cx : ValidationContext -> Prop) (i : nat) (zone : DNSName).

(** The cache is as it should be, the zone in it, and the record cache unchanged. *)
Definition zone_state (w : World C Au) : Prop :=
  cache_ok G (w_aggressive w) /\ at_zone (w_aggressive w) i zone /\ Cx (w_context w).
Definition query_state (w : World C Au) : Prop := zone_state w /\ w_recCache w = maps.

Lemma query_zone w : query_state w -> zone_state w.
Proof. by intros []. Qed.

Lemma keeps_aggressive {T} (m : SM Aggressive T) Q :
  (forall a, cache_ok G a -> at_zone a i zone -> cache_ok G (fst (m a)) /\ at_zone (fst (m a)) i zone /\ forall x, snd (m a) = Ok x -> Q x) ->
  keeps query_state (in_aggressive m) Q.
Proof.
  intros Hm w [(Ha & Hi & Hc) Hr]. destruct (Hm _ Ha Hi) as (Ha' & Hi' & Hx). unfold in_aggressive.
  destruct (m (w_aggressive w)) as [a' x]. by cbn in *.
Qed.

Lemma keeps_before n :
  named n -> keeps query_state (in_aggressive (getNSECBefore now i n)) (fun o => forall e, o = Some e -> G (nkey zone) e /\ named (ag_owner e)).
Proof.
  intros Hn. apply keeps_aggressive. intros a Ha Hi. destruct (getNSECBefore_ok G a i zone now n Ha Hi Hn) as (a' & r & -> & Ha' & Hi' & _ & Hr).
  split_and!; [done..|]. intros o [= <-] e ->. destruct (Hr e eq_refl) as [[Hin _] _].
  destruct (object_of_zone _ _ _ _ Ha Hi) as [[_ [Hnm _] Hall _ _] _]. rewrite (proj2 Hi) in Hall. rewrite Forall_forall in *. auto.
Qed.

(** A counter of hits goes up. *)
Definition counts_hit (hit : Aggressive -> Aggressive) : Prop :=
  forall a, a_zones (hit a) = a_zones a /\ a_objects (hit a) = a_objects a /\ a_entriesCount (hit a) = a_entriesCount a.

Lemma hit_ok hit a : counts_hit hit -> cache_ok G a -> at_zone a i zone -> cache_ok G (hit a) /\ at_zone (hit a) i zone.
Proof.
  intros Hh Ha Hi. destruct (Hh a) as (E1 & E2 & E3). split.
  - destruct Ha as [H1 H2 H3 H4]. split; rewrite ?E1, ?E2, ?E3; [done..|]. unfold count_of, size_of, visited, object in *. by rewrite E1, E2.
  - destruct Hi as [H1 H2]. unfold at_zone, visited, object in *. by rewrite E1, E2.
Qed.

Lemma keeps_hit hit : counts_hit hit -> keeps query_state (in_aggressive (sm_modify hit)) (fun _ => True).
Proof. intros Hh. apply keeps_aggressive. intros a Ha Hi. destruct (hit_ok hit a Hh Ha Hi). by split_and!. Qed.

#[local] Notation result_ends := (ends query_state zone_state).

Lemma ends_answer z hit r :
  counts_hit hit ->
  (A -> right_answer z r) -> result_ends (_ ← in_aggressive (sm_modify hit); mret (Some r)) (right z).
Proof.
  intros Hh Hr. eapply ends_bind; [exact query_zone|by apply keeps_hit|]. intros _ _. apply ends_ret; [exact query_zone|]. by intros ? [= <-].
Qed.

(** An answer synthesized from a wildcard that applies. *)
Lemma ends_synthesize z dtype hit e wc ce :
  counts_hit hit ->
  (A -> wildcard_applies z q ce) -> named_key wc (ce ++ [star]) ->
  result_ends (synthesize rec now name type doDNSSEC dtype hit e wc) (right z).
Proof.
  intros Hh HW Hk w [(Ha & Hi & Hc) Hr]. unfold synthesize. rewrite sm_bind_run.
  destruct (secure_get rec now wc type localhost NOTAG doDNSSEC w) as [w' [found|ex]] eqn:E.
  - assert (w_aggressive w' = w_aggressive w /\ w_context w' = w_context w) as [Ea Ec] by (unfold secure_get in E; by injection E as <- _).
    destruct found as [[wcSet wcSignatures]|]; [|cbn; split; [by unfold zone_state; rewrite Ea, Ec|]; by intros ? [= <-]].
    rewrite sm_bind_run. unfold in_aggressive. cbn. rewrite Ea. split.
    + destruct (hit_ok hit _ Hh Ha Hi). by split_and!; cbn; rewrite ?Ec.
    + intros o [= <-] r [= <-] HA. eapply right_wildcard; [by apply HW|done..].
  - assert (zone_state w') as Hw'; [|by split]. unfold secure_get in E. injection E as <- _. done.
Qed.

(** ** The NSEC branch *)

Lemma apex_of_zone : z_apex (zs (nkey zone)) = nkey zone /\ zone_ok (zs (nkey zone)).
Proof. destruct (Hzs (nkey zone)). done. Qed.

#[local] Notation z := (zs (nkey zone)).

Context (Hname : named_key name q).

(** The name is covered by the entry [e]: the search for the wildcard. *)
Lemma ends_nsec_wildcard soa e b n :
  nsec_usable z type b q -> in_gap b n q -> ~ below_next b n q -> neighbours z b n ->
  named_key (ag_owner e) b -> named_key (ag_next e) n ->
  result_ends (nsec_wildcard rec now i soa name type doDNSSEC e) (right z).
Proof.
  intros Hu Hgap Hbn Hnb Hb Hn. destruct apex_of_zone as [_ Hz]. unfold nsec_wildcard.
  pose proof (covered_absent z Hz type b n q Hnb Hu Hgap) as Habs.
  pose proof (covered_nothing_below z Hz type b n q Hnb Hu Hgap Hbn) as Hbelow.
  eapply ends_bind; [exact query_zone|apply keeps_lift_eq|]. intros ce Hce.
  destruct (encloser_from_nsec z q name (ag_owner e) (ag_next e) b n ce) as (c & Kc & Hc); try done; [apply Hu|].
  eapply ends_bind; [exact query_zone|apply keeps_lift_eq|]. intros wc Hwc. pose proof (key_wildcard _ _ _ Kc Hwc) as Kw.
  eapply ends_bind; [exact query_zone|apply keeps_before; by destruct Kw as (ls & ? & _); exists ls|].
  intros [wce|] Hwce; [|by apply ends_ret; [exact query_zone|]]. destruct (Hwce wce eq_refl) as [Hg _]. apply HG in Hg.
  destruct (as_nsec (ag_record wce)) as [wnsec|] eqn:Er; [|by apply ends_ret; [exact query_zone|]].
  destruct (Hg wnsec) as (Hnx & b' & n' & Hgn); [destruct (ag_record wce); cbn in Er; by simplify_eq|].
  eapply ends_bind; [exact query_zone|apply keeps_lift_eq|]. intros d Hd.
  pose proof (matchesNSEC_verdict z _ _ _ _ b' n' wc (c ++ [star]) type d Hz Hgn Kw Hd) as Hv. destruct Hgn as [_ _ _ _ W5 W6 W7 (ts & Ets & Hts)].
  assert (result_ends (if name_eqb (ag_owner wce) wc then synthesizeFromNSECWildcard rec now name type doDNSSEC e wc else mret None) (right z)) as Hsyn.
  { apply ends_if; intros Heq; [|by apply ends_ret; [exact query_zone|]]. apply (ends_synthesize z _ _ _ _ c); [done| |done]. intros _.
    apply (key_name_eqb _ _ _ _ W5 Kw) in Heq as ->. split_and!; [done..|]. apply node_exists; [done|]. apply W7. }
  cbv zeta. destruct d; try exact Hsyn; try (by apply ends_ret; [exact query_zone|]); destruct Hv as [Hu' Hv]; apply ends_answer; try done; intros _.
  - destruct Hv as [Hgap' Hbn']. apply right_nxdomain. split_and!; [done..|]. exists c. split; [done|]. by eapply gap_not_node.
  - apply right_nodata. destruct Hv as [[<- Htd]|[Hgap' Hbn']].
    + apply (denied_at_wildcard z q type c); [done..| |].
      * apply node_exists; [done|]. by apply W7.
      * unfold isTypeDenied in Htd. rewrite !Hts in Htd.
        apply (missing_from_types _ _ ts); [done|by destruct (ts type)|by destruct (ts type), (ts QType.CNAME)].
    + pose proof (gap_not_node z b' n' _ W7 Hgap') as Hno. apply (denied_at_wildcard z q type c); [done..| |].
      * split; [apply Hu'|]. exists n'. split; [apply W7|apply Hbn'].
      * split; intros (ts' & E & _); apply Hno; by eexists.
Qed.

Lemma ends_getNSECDenial soa :
  result_ends (getNSECDenial rec now i soa name type doDNSSEC) (right z).
Proof.
  destruct apex_of_zone as [_ Hz]. unfold getNSECDenial.
  eapply ends_bind; [exact query_zone|apply keeps_before; by destruct Hname as (ls & ? & _); exists ls|].
  intros [e|] He; [|by apply ends_ret; [exact query_zone|]]. destruct (He e eq_refl) as [Hg _]. apply HG in Hg.
  destruct (as_nsec (ag_record e)) as [nsec|] eqn:Er; [|by apply ends_ret; [exact query_zone|]].
  destruct (Hg nsec) as (Hnx & b & n & Hgn); [destruct (ag_record e); cbn in Er; by simplify_eq|].
  eapply ends_bind; [exact query_zone|apply keeps_lift_eq|]. intros d Hd.
  pose proof (matchesNSEC_verdict z _ _ _ _ b n name q type d Hz Hgn Hname Hd) as Hv. destruct Hgn as [_ _ _ _ W5 W6 W7 (ts & Ets & Hts)].
  destruct d; try (by apply ends_ret; [exact query_zone|]); destruct Hv as [Hu Hv].
  - destruct Hv as [Hgap Hbn]. apply (ends_nsec_wildcard soa e b n); [done..|by rewrite Hnx].
  - apply ends_answer; [done|]. intros _. apply right_nodata. destruct Hv as [[-> Htd]|[Hgap Hbn]].
    + apply denied_at_node; [apply W7| |by intros Hc; apply (nu_cut _ _ _ _ Hu)|apply Hu].
      unfold isTypeDenied in Htd. rewrite !Hts in Htd. apply (missing_from_types _ _ ts); [done|by destruct (ts type)|by destruct (ts type), (ts QType.CNAME)].
    + apply (denied_at_empty z q type n); [by eapply covered_absent|apply W7|apply Hbn].
Qed.
End soundness.
