(* ===== verification/AggressiveSpec3.v ===== *)
(** * What the aggressive cache answers from NSEC3 is right

    Soundness of [AggressiveNSECCache::getNSEC3Denial]
    ([pdns/recursordist/aggressive_nsec.cc]): when the cached NSEC3 records are records of
    the zones and the hash confuses none of the names involved, a negative answer is true
    of the zone, and an answer is synthesized only from the wildcard that applies. *)

From S2P Require Import Prelude Chars Dns Names NamesFacts NamesOrder NamesSpec NsecBitmap Base32 Denial DenialFacts DenialSpec Nsec3Spec.
From S2P Require Import NameIndex IpUtils Validate TaskQueue RecursorCache SuffixTree AggressiveNsec AggressiveDenial AggressiveLookup AggressiveZones AggressiveOps.
From S2P Require Import Base32Order AggressiveSpec.

#[local] Open Scope Z_scope.

Lemma named_key_unique n a b : named_key n a -> named_key n b -> a = b.
Proof. intros Ha Hb. apply (key_name_eqb _ _ _ _ Ha Hb), (key_name_eqb _ _ _ _ Ha Ha). done. Qed.

Lemma named_key_nkey n : named n -> named_key n (nkey n).
Proof. apply nkey_named. Qed.

Lemma key_named n k : named_key n k -> named n.
Proof. intros (ls & Hl & _). by exists ls. Qed.

Lemma key_short n k : named_key n k -> (length k <= 255)%nat.
Proof.
  intros (ls & (_ & Hv & Hl) & ->). rewrite length_ckey. rewrite zlen_storage_of in Hl. unfold s_maxDNSNameLength in Hl.
  enough (Z.of_nat (length ls) <= zlen (enc_labels ls)) by lia. clear Hl. induction Hv as [|l ls [Hl _] Hv IH]; [done|].
  rewrite zlen_enc_labels_cons. cbn [length]. lia.
Qed.

Section soundness.
Context (SHA1 : bytes -> bytes) (Hlen : fixed_length SHA1) (Hbytes : forall b, bytes_ok (SHA1 b)) (cfg : validator_settings) (settings : aggressive_settings).
Context (zs : key -> zone) (Hzs : forall k, zone_ok (zs k) /\ z_apex (zs k) = k).

Lemma hash_fine salt it k : bytes_ok (hash_of_key SHA1 salt it k) /\ zlen (hash_of_key SHA1 salt it k) = 20.
Proof. unfold hash_of_key. destruct (Z.to_nat it); cbn; split; [apply Hbytes|apply Hlen|apply Hbytes|apply Hlen]. Qed.

#[local] Notation H3 c k := (hash_of_key SHA1 (nsec3_salt c) (nsec3_iterations c) k).

(** An NSEC3 entry is a record of its zone, without opt-out, under the encoded hash of
    the name it is for. *)
Definition nsec3_entry (k : key) (e : NsecEntry) : Prop :=
  forall c, ag_record e = RR_NSEC3 c ->
    isOptOut c = false /\ bytes_ok (nsec3_nexthash c) /\ zlen (nsec3_nexthash c) = 20
    /\ named_key (ag_next e) (k ++ [toBase32Hex (nsec3_nexthash c)])
    /\ exists x, genuine_nsec3 SHA1 (zs k) (ag_owner e) (ag_signatures e) c x /\ named_key (ag_owner e) (k ++ [toBase32Hex (H3 c x)]).

Context {C Au : Type} (rec : cache_settings C RRSIGRecordContent Au) `{HR : !RangeIndex C RRSIGRecordContent Au}.
Context (now : Z) (name : DNSName) (q : key) (type : Z) (doDNSSEC : bool) (maps : list (Content C RRSIGRecordContent Au)).
Context (G : key -> NsecEntry -> Prop) (HG : forall k e, G k e -> nsec3_entry k e).
Context (budget : Z) (i : nat) (zone : DNSName) (Hzone : named zone) (salt : bytes) (it : Z) (Hit : 0 <= it).

#[local] Notation z := (zs (nkey zone)).
#[local] Notation hash k := (hash_of_key SHA1 salt it k).
#[local] Notation state := (query_state maps G (context_ok SHA1 budget) i zone).
#[local] Notation result_ends := (ends state (zone_state G (context_ok SHA1 budget) i zone)).
(** No name looked at has the hash of another name that exists. *)
Definition no_confusion : Prop := forall k x, z_exists z k -> candidate q x -> hash k = hash x -> k = x.

#[local] Notation right := (right rec now name q type doDNSSEC maps no_confusion z).

Lemma apex3 : z_apex z = nkey zone /\ zone_ok z.
Proof. by destruct (Hzs (nkey zone)). Qed.

(** ** Hashed names *)

(** More iterations than the setting allows: the hash is empty. *)
Definition over_limit : bool := negb (g_maxNSEC3Iterations cfg =? 0) && (g_maxNSEC3Iterations cfg <? it).

Lemma hash_name_nil n : hash_name [] zone = Ok n -> named_key n (nkey zone).
Proof.
  intros H. change (hash_name [] zone) with (name_append (mkDNSName [0]) zone) in H. destruct Hzone as [zl Hz].
  rewrite (name_append_represents (mkDNSName [0]) zone [] zl) in H; [|by_decide|done|apply Hz].
  injection H as <-. exists zl. split; [|unfold nkey; by rewrite (getRawLabels_represents zone zl)]. destruct Hz as (_ & Hv & Hl). done.
Qed.

Definition hashed_key (n : DNSName) (k : key) : Prop :=
  if over_limit then named_key n (nkey zone) else named_key n (nkey zone ++ [toBase32Hex (hash k)]).

Lemma keeps_validation {A} (m : SM ValidationContext A) Q :
  keeps (context_ok SHA1 budget) m Q -> keeps state (in_validation m) Q.
Proof.
  intros Hm w [(Ha & Hi & Hc) Hr]. destruct (Hm _ Hc) as [Hc' HQ]. unfold in_validation. by destruct (m (w_context w)).
Qed.

Lemma keeps_hashed n k : named_key n k -> keeps state (hashed_name SHA1 cfg n it salt zone) (fun hn => hashed_key hn k).
Proof.
  intros Hn. unfold hashed_name.
  eapply (keeps_bind _ _ _ (fun h => h = if over_limit then [] else hash k)).
  - apply keeps_validation. intros c Hc. destruct (getHashFromNSEC3_ok SHA1 Hlen cfg budget c n k it salt Hc Hn Hit) as (c' & r & -> & Hc' & Hr).
    split; [done|]. cbn. intros h ->. unfold over_limit. destruct (_ && _); [by destruct Hr as [_ [= ->]]|]. destruct Hr as [[[= ->] _]|[? _]]; done.
  - intros h ->. apply keeps_weaken with (P := fun hn => hash_name (if over_limit then [] else hash k) zone = Ok hn); [apply keeps_lift_eq|].
    intros hn Hh. unfold hashed_key. destruct over_limit; [by apply hash_name_nil|]. destruct (hash_fine salt it k). by apply hash_name_key.
Qed.

(** ** Entries *)

Lemma keeps_getNSEC3 hn :
  keeps state (in_aggressive (getNSEC3 now i hn)) (fun o => forall e, o = Some e -> G (nkey zone) e /\ name_eqb (ag_owner e) hn = true).
Proof.
  apply keeps_aggressive. intros a Ha Hi. destruct (getNSEC3_ok G a i zone now hn Ha Hi) as (a' & r & -> & Ha' & Hi' & Hr).
  split_and!; [done..|]. intros o [= <-] e ->. destruct (Hr e eq_refl) as (Hin & He & _).
  destruct (object_of_zone _ _ _ _ Ha Hi) as [[_ _ Hall _ _] _]. rewrite (proj2 Hi) in Hall. rewrite Forall_forall in Hall. auto.
Qed.

Lemma valid_nsec3_inv e c :
  valid_nsec3 e it salt = Some c -> ag_record e = RR_NSEC3 c /\ nsec3_iterations c = it /\ nsec3_salt c = salt.
Proof.
  unfold valid_nsec3. destruct (ag_record e) as [|c'|]; cbn; try done. case_match eqn:E; [done|]. intros [= ->].
  apply orb_false_elim in E as [E1 E2]. apply negb_false_iff in E1, E2. split; [done|]. split; [by apply Z.eqb_eq|by apply bool_decide_eq_true in E2].
Qed.

(** A valid entry is for a name that exists, whose hash it has. *)
Record entry_for (e : NsecEntry) (c : NSEC3RecordContent) (x : key) : Prop := {
  ef_genuine : genuine_nsec3 SHA1 z (ag_owner e) (ag_signatures e) c x;
  ef_optout : isOptOut c = false;
  ef_parameters : nsec3_iterations c = it /\ nsec3_salt c = salt;
  ef_owner : named_key (ag_owner e) (nkey zone ++ [toBase32Hex (hash x)]);
  ef_next : named_key (ag_next e) (nkey zone ++ [toBase32Hex (nsec3_nexthash c)]) /\ bytes_ok (nsec3_nexthash c) /\ zlen (nsec3_nexthash c) = 20;
}.

Lemma valid_entry e c : G (nkey zone) e -> valid_nsec3 e it salt = Some c -> exists x, entry_for e c x.
Proof.
  intros Hg (Hr & Ei & Es)%valid_nsec3_inv. destruct (HG _ _ Hg c Hr) as (Ho & Hb & Hl & Hn & x & Hgen & Hown).
  rewrite Ei, Es in *. exists x. by split.
Qed.

(** The entry found for the hash of a candidate is for the candidate. *)
Lemma entry_match e c x hn y :
  entry_for e c x -> hashed_key hn y -> name_eqb (ag_owner e) hn = true -> over_limit = false /\ (no_confusion -> candidate q y -> x = y).
Proof.
  intros [Hgen _ Hx Hown _] Hn Heq. unfold hashed_key in Hn. destruct over_limit.
  - apply (key_name_eqb _ _ _ _ Hown Hn) in Heq. apply (f_equal length) in Heq. rewrite length_app in Heq. cbn in Heq. lia.
  - split; [done|]. intros Hcol Hy. apply (key_name_eqb _ _ _ _ Hown Hn) in Heq. apply app_inv_head in Heq. injection Heq as Heq.
    destruct (hash_fine salt it x), (hash_fine salt it y). apply Hcol; [apply Hgen|done|].
    rewrite <- (base32_round_trip (hash x)), <- (base32_round_trip (hash y)) by done. by rewrite Heq.
Qed.

(** The name whose hash the entry covers does not exist. *)
Lemma entry_covers e c x hn y :
  entry_for e c x -> hashed_key hn y -> over_limit = false -> isCoveredByNSEC hn (ag_owner e) (ag_next e) = true -> ~ z_exists z y.
Proof.
  intros [Hgen Ho [Ei Es] Hown (Hnext & Hb & Hl)] Hn Hov Hcov Hex. unfold hashed_key in Hn. rewrite Hov in Hn.
  apply (key_covered _ _ _ _ _ _ Hn Hown Hnext) in Hcov. destruct (hash_fine salt it x), (hash_fine salt it y).
  destruct (g3_gap _ _ _ _ _ _ Hgen y Hex) as [Ht _]; [|congruence]. rewrite Ei, Es. unfold in_gap, klt, kle in Hcov. unfold hash_between.
  rewrite !hashed_compare in Hcov by done. rewrite (cmp_opp (cmp := lex_compare Z.compare) (hash x) (nsec3_nexthash c)) in Hcov.
  destruct (lex_compare Z.compare (hash x) (nsec3_nexthash c)); cbn in Hcov; naive_solver.
Qed.

Lemma from_child_apex signer : named_key name q -> named_key signer (nkey zone) -> from_child type name signer = false ->
  type = QType.DS -> q = z_apex z -> q = [].
Proof.
  intros Hq Hs Hf -> Ea. rewrite (proj1 apex3) in Ea. unfold from_child in Hf. rewrite Z.eqb_refl in Hf. cbn [andb] in Hf. symmetry in Ea.
  apply (key_name_eqb _ _ _ _ Hs Hq) in Ea. rewrite Ea, andb_true_r in Hf. apply negb_false_iff in Hf. by apply (key_isRoot _ _ Hq).
Qed.

Lemma entry_delegation e c x : entry_for e c x -> z_cut z x -> isNSECAncestorDelegation (getSigner (ag_signatures e)) (ag_owner e) (nsec3_bitmap c) = true.
Proof.
  intros [Hgen _ _ Hown _] Hcut. eapply record_delegation; [apply apex3|exact Hgen|done|]. eexists. split; [exact Hown|].
  rewrite (proj1 apex3), length_app. cbn. lia.
Qed.

Lemma exact_sound e hn :
  named_key name q -> G (nkey zone) e -> hashed_key hn q -> name_eqb (ag_owner e) hn = true -> exact_denies name type it salt e = true ->
  no_confusion -> type_denied z q type.
Proof.
  intros Hq Hg Hn Heq He Hcol. unfold exact_denies in He. destruct (valid_nsec3 e it salt) as [c|] eqn:Ev; [|done].
  destruct (valid_entry e c Hg Ev) as [x Hx]. destruct (entry_match e c x hn q Hx Hn Heq) as [_ Hm]. rewrite (Hm Hcol (candidate_prefix q q (reflexivity q))) in Hx. clear Hm.
  case_match eqn:Htd; [done|]. apply negb_false_iff in Htd. case_match eqn:Hdel; [done|]. apply negb_true_iff in He.
  pose proof (ef_genuine _ _ _ Hx) as Hgen. apply match_denied; [apply apex3|apply Hgen|by eapply record_denied| |].
  - intros Hcut. rewrite (entry_delegation _ _ _ Hx Hcut), andb_true_r in Hdel. apply negb_false_iff in Hdel. by apply Z.eqb_eq.
  - eapply from_child_apex; [done| |exact He]. rewrite <- (proj1 apex3). apply Hgen.
Qed.

Lemma encloses_sound e hn c :
  c `prefix_of` q -> G (nkey zone) e -> hashed_key hn c -> name_eqb (ag_owner e) hn = true -> encloses name type it salt e = true ->
  over_limit = false /\ (no_confusion -> encloser z c).
Proof.
  intros Hc Hg Hn Heq He. unfold encloses in He. destruct (valid_nsec3 e it salt) as [n3|] eqn:Ev; [|done].
  destruct (valid_entry e n3 Hg Ev) as [x Hx]. destruct (entry_match e n3 x hn c Hx Hn Heq) as [Hov Hm]. split; [done|]. intros Hcol.
  rewrite (Hm Hcol (candidate_prefix q c Hc)) in Hx. case_match eqn:Hdel; [done|]. case_match; [done|]. apply negb_true_iff in He.
  pose proof (ef_genuine _ _ _ Hx) as Hgen. split_and!; [apply Hgen| |].
  - intros Hcut. rewrite (entry_delegation _ _ _ Hx Hcut) in Hdel. done.
  - intros Hd. apply (g3_types _ _ _ _ _ _ Hgen) in Hd. congruence.
Qed.

Lemma covering_sound e hn y :
  G (nkey zone) e -> hashed_key hn y -> over_limit = false -> covering_entry name type it salt hn e = true -> ~ z_exists z y.
Proof.
  intros Hg Hn Hov He. unfold covering_entry in He. case_match eqn:Hcov; [done|]. apply negb_false_iff in Hcov.
  destruct (valid_nsec3 e it salt) as [c|] eqn:Ev; [|done]. destruct (valid_entry e c Hg Ev) as [x Hx]. by eapply entry_covers.
Qed.

(** What the entry for the wildcard tells. *)
Lemma wildcard_sound e hn c :
  c `prefix_of` q -> G (nkey zone) e -> hashed_key hn (c ++ [star]) -> over_limit = false -> no_confusion ->
  match wildcard_entry name type it salt hn e with
  | WcNothing => True
  | WcSynthesize => z_exists z (c ++ [star])
  | WcNoData => z_exists z (c ++ [star]) /\ type_missing z (c ++ [star]) type
  | WcNXDomain => ~ z_exists z (c ++ [star])
  end.
Proof.
  intros Hc Hg Hn Hov Hcol. unfold wildcard_entry. destruct (name_eqb hn (ag_owner e)) eqn:Heq.
  - destruct (valid_nsec3 e it salt) as [n3|] eqn:Ev; [|done]. destruct (valid_entry e n3 Hg Ev) as [x Hx].
    assert (x = c ++ [star]) as ->.
    { apply (entry_match e n3 x hn (c ++ [star]) Hx Hn); [|done|exists c; by auto]. unfold hashed_key in Hn. rewrite Hov in Hn.
      apply (key_name_eqb _ _ _ _ (ef_owner _ _ _ Hx) Hn). symmetry. by apply (key_name_eqb _ _ _ _ Hn (ef_owner _ _ _ Hx)). }
    pose proof (ef_genuine _ _ _ Hx) as Hgen. cbv zeta. destruct (_ && isNSECAncestorDelegation _ _ _); [done|].
    destruct (from_child _ _ _); [done|]. destruct (isTypeDenied (nsec3_bitmap n3) type) eqn:Htd; cbn [negb]; [|apply Hgen].
    split; [apply Hgen|by eapply record_denied].
  - destruct (covering_entry name type it salt hn e) eqn:He; [|done]. by eapply covering_sound.
Qed.

(** ** The loop for the closest encloser *)

Definition encloser_result (o : option (DNSName * NsecEntry)) : Prop :=
  forall ce e, o = Some (ce, e) -> over_limit = false /\ exists c, named_key ce c /\ c `prefix_of` q /\ c <> q /\ (no_confusion -> encloser z c).

Lemma keeps_encloser_loop fuel ce x remaining :
  named_key ce x -> x `prefix_of` q ->
  keeps state (encloser_loop SHA1 cfg fuel now i name type zone it salt ce remaining) encloser_result.
Proof.
  revert ce x remaining. induction fuel as [|fuel IH]; intros ce x remaining Hce Hx; [by apply keeps_ret|]. cbn [encloser_loop].
  destruct (chopOff ce) as [ce' chopped] eqn:Ec. destruct chopped; cbn [andb negb]; [|by apply keeps_ret]. apply keeps_if; [by apply keeps_ret|].
  destruct (key_chopOff _ _ _ Hce Ec) as (c & l & -> & Hce').
  assert (c `prefix_of` q) as Hc by (etrans; [by apply prefix_app_r|done]).
  assert (c <> q) as Hne. { intros ->. apply prefix_length in Hx. rewrite length_app in Hx. cbn in Hx. lia. }
  eapply keeps_bind; [by apply (keeps_hashed ce' c)|]. intros hn Hn. eapply keeps_bind; [apply keeps_getNSEC3|]. intros [e|] He.
  - destruct (He e eq_refl) as [Hg Heq]. apply keeps_ret. destruct (encloses name type it salt e) eqn:Hen; [|done]. intros ? ? [= <- <-].
    destruct (encloses_sound e hn c Hc Hg Hn Heq Hen) as [Hov Henc]. split; [done|]. by exists c.
  - by apply (IH ce' c).
Qed.

(** ** The whole *)

Context (Hname : named_key name q) (Hapex : nkey zone `prefix_of` q).

Lemma hashed_named hn y : hashed_key hn y -> named hn.
Proof. unfold hashed_key. destruct over_limit; apply key_named. Qed.

Lemma ends_nsec3_proof soa ce c closest :
  named_key ce c -> c `prefix_of` q -> c <> q -> (no_confusion -> encloser z c) -> over_limit = false ->
  result_ends (nsec3_proof rec SHA1 cfg now i soa name type doDNSSEC zone it salt ce closest) right.
Proof.
  intros Hce Hc Hne Henc Hov. unfold nsec3_proof.
  assert (0 < countLabels name - countLabels ce < 2 ^ 32) as Hidx.
  { rewrite (key_countLabels _ _ Hname), (key_countLabels _ _ Hce). pose proof (prefix_length _ _ Hc). pose proof (key_short name q Hname). unfold zlen in *.
    destruct (decide (length q <= length c)%nat) as [Hle|]; [|lia]. destruct Hne. by apply prefix_length_eq. }
  assert (u32 (countLabels name - countLabels ce) = countLabels name - countLabels ce) as -> by (unfold u32; apply Z.mod_small; lia).
  rewrite (proj2 (Z.ltb_ge _ 1)) by lia.
  eapply ends_bind; [exact (query_zone _ _ _ _ _)|apply keeps_lift_eq|]. intros label Hlab.
  eapply ends_bind; [exact (query_zone _ _ _ _ _)|apply keeps_lift_eq|]. intros nc Hnc.
  destruct (key_next_closer _ _ _ _ _ _ Hname Hce Hc Hne Hlab Hnc) as (l & Hnk & Hp).
  eapply ends_bind; [exact (query_zone _ _ _ _ _)|by apply (keeps_hashed nc)|]. intros hn Hn.
  eapply ends_bind; [exact (query_zone _ _ _ _ _)|apply keeps_before, (hashed_named _ _ Hn)|].
  intros [e|] He; [|by apply ends_ret; [exact (query_zone _ _ _ _ _)|]]. destruct (He e eq_refl) as [Hg _].
  destruct (covering_entry name type it salt hn e) eqn:Hcov; cbn [negb]; [|by apply ends_ret; [exact (query_zone _ _ _ _ _)|]].
  pose proof (covering_sound e hn _ Hg Hn Hov Hcov) as Hno.
  assert (no_confusion -> name_absent z q /\ nothing_below z q /\ closest_encloser z q c) as Habs
    by (intros Hcol; exact (enclosed_absent z (proj2 apex3) q c l (Henc Hcol) Hc Hne Hp Hno)).
  eapply ends_bind; [exact (query_zone _ _ _ _ _)|apply keeps_lift_eq|]. intros wc Hwc. pose proof (key_wildcard _ _ _ Hce Hwc) as Kw.
  eapply ends_bind; [exact (query_zone _ _ _ _ _)|by apply (keeps_hashed wc)|]. intros wn Hwn.
  eapply ends_bind; [exact (query_zone _ _ _ _ _)|apply keeps_before, (hashed_named _ _ Hwn)|].
  intros [we|] Hwe; [|by apply ends_ret; [exact (query_zone _ _ _ _ _)|]]. destruct (Hwe we eq_refl) as [Hgw _].
  pose proof (wildcard_sound we wn c Hc Hgw Hwn Hov) as Hw. cbv zeta.
  destruct (wildcard_entry name type it salt wn we); [by apply ends_ret; [exact (query_zone _ _ _ _ _)|]|..].
  - apply (ends_synthesize rec now name q type doDNSSEC maps no_confusion G _ i zone z _ _ _ _ c); [done| |done]. intros Hcol.
    destruct (Habs Hcol) as (H1 & H2 & H4). by split_and!; [..|apply Hw].
  - apply ends_answer; [done|]. intros Hcol. destruct (Habs Hcol) as (H1 & H2 & H4), (Hw Hcol). apply right_nodata. by apply (denied_at_wildcard z q type c).
  - apply ends_answer; [done|]. intros Hcol. destruct (Habs Hcol) as (H1 & H2 & H4). apply right_nxdomain. split_and!; [done..|]. exists c. split; [done|].
    intros Hnode. apply (Hw Hcol), node_exists; [apply apex3|done].
Qed.

(** The zone has the parameters that the section is about. *)
Definition has_parameters (w : World C Au) : Prop :=
  ze_zone (object (w_aggressive w) i) = zone /\ ze_salt (object (w_aggressive w) i) = salt /\ ze_iterations (object (w_aggressive w) i) = it.

Lemma ends_getNSEC3Denial soa :
  ends (fun w => state w /\ has_parameters w) (zone_state G (context_ok SHA1 budget) i zone)
    (getNSEC3Denial rec SHA1 cfg settings now i soa name type doDNSSEC) right.
Proof.
  intros w [Hw (Ez & Es & Ei)]. unfold getNSEC3Denial. rewrite in_aggressive_get. cbv zeta. rewrite Ez, Es, Ei.
  match goal with |- context [fst (?m ?x)] => enough (result_ends m right) as Hm by exact (Hm x Hw) end.
  apply ends_if; intros _; [by apply ends_ret; [exact (query_zone _ _ _ _ _)|]|].
  eapply ends_bind; [exact (query_zone _ _ _ _ _)|by apply (keeps_hashed name q)|]. intros hn Hn.
  eapply ends_bind; [exact (query_zone _ _ _ _ _)|apply keeps_getNSEC3|]. intros [e|] He.
  - destruct (He e eq_refl) as [Hg Heq]. apply ends_if; intros Hex; [|by apply ends_ret; [exact (query_zone _ _ _ _ _)|]].
    apply ends_answer; [done|]. intros Hcol. apply right_nodata. exact (exact_sound e hn Hname Hg Hn Heq Hex Hcol).
  - eapply ends_bind; [exact (query_zone _ _ _ _ _)|by apply (keeps_encloser_loop _ name q)|].
    intros [[ce closest]|] Henc; [|by apply ends_ret; [exact (query_zone _ _ _ _ _)|]].
    destruct (Henc ce closest eq_refl) as (Hov & c & Hce & Hc & Hne & Hen). by apply (ends_nsec3_proof _ _ c).
Qed.
End soundness.
