(* ===== verification/AggressiveMain.v ===== *)
(** * The aggressive NSEC cache answers rightly

    The composition: whatever is inserted, removed, pruned and asked, a cache that was
    only given records of the zones answers what is true of the zones, and finds the NSEC
    record that covers a name whenever it holds it
    ([pdns/recursordist/aggressive_nsec.cc]). *)

From stdpp Require Import gmap.
From S2P Require Import Prelude Chars Dns Names NamesFacts NamesOrder NamesSpec NsecBitmap Base32 Denial DenialFacts DenialSpec Nsec3Spec.
From S2P Require Import NameIndex IpUtils Validate TaskQueue RecursorCache RecursorCacheOps RecursorCacheFacts CacheCleaner SuffixTree.
From S2P Require Import AggressiveNsec AggressiveDenial AggressiveLookup AggressiveZones AggressiveOps AggressivePrune Base32Order AggressiveSpec AggressiveSpec3.

#[local] Open Scope Z_scope.

(** ** Owner names *)

Lemma countLabels_loop_nonneg fuel p : 0 <= countLabels_loop fuel p.
Proof.
  revert p. induction fuel as [|fuel IH]; intros p; [done|]. destruct p as [|len p]; [done|]. cbn [countLabels_loop].
  destruct (len =? 0); [done|]. specialize (IH (zdrop len p)). lia.
Qed.

Lemma countLabels_nonneg n : 0 <= countLabels n.
Proof. apply countLabels_loop_nonneg. Qed.

(** The owner name that an NSEC was signed for is its own. *)
Lemma owner_name_again name sigs owner :
  named name -> getNSECOwnerName name sigs = Ok owner -> named owner /\ getNSECOwnerName owner sigs = Ok owner.
Proof.
  intros [ls Hl] H. destruct sigs as [|sig sigs]; [injection H as <-; split; [by exists ls|done]|]. unfold getNSECOwnerName in *.
  rewrite (countLabels_represents _ _ Hl) in H. case_match eqn:E; [|injection H as <-; split; [by exists ls|]; by rewrite (countLabels_represents _ _ Hl), E].
  apply andb_prop in E as [E1 E2]. apply Z.ltb_lt in E1. assert (0 <= sig_labels sig) as Hpos.
  { unfold isRRSIGLabelCountValid in E2. apply Z.leb_le in E2. pose proof (countLabels_nonneg (sig_signer sig)). lia. }
  set (rest := chopOff_times (Z.to_nat (zlen ls - sig_labels sig)) name) in *.
  pose proof (chopOff_times_represents (Z.to_nat (zlen ls - sig_labels sig)) _ _ Hl) as Hr. fold rest in Hr.
  pose proof (wildcard_append _ _ _ Hr H) as Ho. split; [by eexists|].
  rewrite (countLabels_represents _ _ Ho), zlen_cons. assert (zlen (drop (Z.to_nat (zlen ls - sig_labels sig)) ls) = sig_labels sig) as Hd.
  { unfold zlen in *. rewrite length_drop. lia. }
  rewrite Hd, (proj2 (Z.ltb_lt _ _)), E2 by lia. cbn [andb]. replace (Z.to_nat (1 + sig_labels sig - sig_labels sig)) with 1%nat by lia.
  destruct (chopOff_represents _ _ _ Ho) as (n' & E' & Hn'). change (chopOff_times 1 owner) with (fst (chopOff owner)). rewrite E'. cbn [fst].
  assert (n' = rest) as ->; [|done]. destruct Hn' as (En & _), Hr as (Er & _). destruct n', rest. cbn in *. congruence.
Qed.

(** ** Genuine caches *)

Section main.
Context (SHA1 : bytes -> bytes) (Hlen : fixed_length SHA1) (Hbytes : forall b, bytes_ok (SHA1 b)).
Context (zs : key -> zone) (Hzs : forall k, zone_ok (zs k) /\ z_apex (zs k) = k).

(** What the validator has established of a record before it is inserted: it is a
    record of the zone, signed by it. *)
Definition genuine_record (zone owner : DNSName) (record : rr_content) (signatures : list RRSIGRecordContent) : Prop :=
  match record with
  | RR_NSEC nsec => exists realOwner b n, genuine_nsec (zs (nkey zone)) owner signatures nsec realOwner b n
  | RR_NSEC3 c =>
      bytes_ok (nsec3_nexthash c) /\ zlen (nsec3_nexthash c) = 20
      /\ exists x, genuine_nsec3 SHA1 (zs (nkey zone)) owner signatures c x
           /\ named_key owner (nkey zone ++ [toBase32Hex (hash_of_key SHA1 (nsec3_salt c) (nsec3_iterations c) x)])
  | RR_other => True
  end.

Definition genuine_entry (k : key) (e : NsecEntry) : Prop := nsec_entry zs k e /\ nsec3_entry SHA1 zs k e.

#[local] Abbreviation ok := (cache_ok genuine_entry).

Lemma insert_genuine settings cfg a zone owner record ttl signatures nsec3 qname qtype :
  ok a -> named zone -> genuine_record zone owner record signatures ->
  ok (fst (insertNSEC settings cfg zone owner record ttl signatures nsec3 qname qtype a)).
Proof.
  intros Ha Hz Hg. apply insertNSEC_ok; [done|done| |].
  - intros c Hc. destruct record as [|c'|]; cbn in Hc; simplify_eq. destruct Hg as (_ & _ & x & Hgen & _). apply Hgen.
  - intros next real Hnext _ Hreal. destruct nsec3; cbn [next_checked] in Hnext.
    + destruct Hnext as (c & Ec & Ho & Hh). destruct record as [|c'|]; cbn in Ec; simplify_eq. destruct Hg as (Hb & Hl & x & Hgen & Hown).
      split; [by eapply key_named|]. split; [by intros nsec|]. intros c' [= <-]. split_and!; [done..|by apply hash_name_key|]. by exists x.
    + unfold check_nsec in Hnext. destruct record as [nsec| |]; cbn [as_nsec] in Hnext; [|done..]. destruct Hg as (ro & b & n & Hgen).
      bind_inv Hnext. assert (next = nsec_next nsec) as -> by (repeat case_match; simplify_eq; done).
      pose proof Hgen as [G1 [k G2] G3 G4 G5 G6 G7 G8]. rewrite G4 in Hreal. injection Hreal as <-.
      destruct (owner_name_again owner signatures ro (key_named _ _ G2) G4) as [Hn Hagain].
      split; [done|]. split; [|by intros c]. intros nsec' [= <-]. split; [done|]. exists b, n. split; try done. by exists b.
Qed.

(** ** Queries *)

Context {C Au : Type} (rec : cache_settings C RRSIGRecordContent Au) `{HR : !RangeIndex C RRSIGRecordContent Au}.
Context (cfg : validator_settings) (settings : aggressive_settings) (budget : Z).

(** The cache is genuine and the context of the query as it should be. *)
Definition world_ok (w : World C Au) : Prop := ok (w_aggressive w) /\ context_ok SHA1 budget (w_context w).

Lemma chopOff_key name q : named_key name q -> exists c, named_key (fst (chopOff name)) c /\ c `prefix_of` q.
Proof.
  intros (ls & Hl & ->). destruct ls as [|l ls].
  - rewrite (chopOff_root _ Hl). exists (ckey []). split; [by exists []|done].
  - destruct (chopOff_represents _ _ _ Hl) as (n' & -> & Hn'). exists (ckey ls). split; [by exists ls|].
    change (l :: ls) with ([l] ++ ls). rewrite ckey_app. by apply prefix_app_r.
Qed.

Lemma secure_get_world now name type who tag dnssec (w : World C Au) :
  let '(w', _) := secure_get rec now name type who tag dnssec w in w_aggressive w' = w_aggressive w /\ w_context w' = w_context w.
Proof. done. Qed.

(** The answer is right for the zone at [i], when the hash with its parameters does not
    confuse names. *)
Definition right_for (now : Z) (name : DNSName) (q : key) (type : Z) (who : ComboAddress) (tag : bytes) (dnssec : bool) (w : World C Au) (i : nat)
    (answer : Z * list (answer_record C)) : Prop :=
  let o := object (w_aggressive w) i in
  let maps := w_recCache (fst (secure_get rec now (ze_zone o) QType.SOA who tag dnssec w)) in
  nkey (ze_zone o) `prefix_of` q
  /\ (no_confusion SHA1 zs q (ze_zone o) (ze_salt o) (ze_iterations o) -> right_answer rec now name q type dnssec maps (zs (nkey (ze_zone o))) answer).

Lemma getDenial_right now name q type who tag dnssec w :
  world_ok w -> named_key name q ->
  let '(w', r) := aggressive_getDenial rec SHA1 cfg settings now name type who tag dnssec w in
  world_ok w' /\ forall answer, r = Ok (Some answer) -> exists i, i ∈ visited (w_aggressive w) /\ right_for now name q type who tag dnssec w i answer.
Proof.
  intros [Ha Hc] Hq. unfold aggressive_getDenial. rewrite sm_bind_run.
  set (best := if type =? QType.DS then fst (chopOff name) else name).
  assert (exists c, named_key best c /\ c `prefix_of` q) as (c & Hbest & Hcq) by (unfold best; destruct (type =? QType.DS); [by apply chopOff_key|by exists q]).
  destruct (getBestZone_spec genuine_entry (w_aggressive w) best Ha (key_named _ _ Hbest)) as (r & Er & Hr). unfold in_aggressive at 1. rewrite Er.
  replace (mkWorld (w_aggressive w) (w_recCache w) (w_tasks w) (w_context w)) with w by (by destruct w).
  destruct r as [i|]; [|by split]. destruct (Hr i eq_refl) as [Hv Hp].
  assert (nkey best = c) as Ec by (eapply named_key_unique; [by apply nkey_named, (key_named _ c)|done]). rewrite Ec in Hp.
  rewrite in_aggressive_get. set (o := object (w_aggressive w) i) in *. case_bool_decide; [by split|]. rewrite sm_bind_run.
  pose proof (secure_get_world now (ze_zone o) QType.SOA who tag dnssec w) as Hw.
  destruct (secure_get rec now (ze_zone o) QType.SOA who tag dnssec w) as [w1 [soa|ex]] eqn:Es; destruct Hw as [Ew Ecx]; [|by split; [unfold world_ok; rewrite Ew, Ecx|]].
  destruct soa as [[soaSet soaSignatures]|]; [|by split; [unfold world_ok; rewrite Ew, Ecx|]]. cbv zeta.
  destruct (visited_object _ _ _ Ha Hv) as (o' & _ & [Ho1 Ho2 Ho3 Ho4 Ho5] & Eo & _). fold o in Eo. subst o'.
  assert (query_state (w_recCache w1) genuine_entry (context_ok SHA1 budget) i (ze_zone o) w1) as Hstate
    by (split; [|done]; unfold zone_state; rewrite Ew, Ecx; split_and!; [done| |done]; by split).
  assert (nkey (ze_zone o) `prefix_of` q) as Hpq by (by etrans).
  match goal with |- let '(_, _) := ?m w1 in _ =>
    assert (zone_state genuine_entry (context_ok SHA1 budget) i (ze_zone o) (fst (m w1))
      /\ forall a, snd (m w1) = Ok a -> right rec now name q type dnssec (w_recCache w1) (no_confusion SHA1 zs q (ze_zone o) (ze_salt o) (ze_iterations o)) (zs (nkey (ze_zone o))) a) as [Hz Hx] end.
  { case_bool_decide.
    - apply (ends_getNSEC3Denial SHA1 Hlen Hbytes cfg settings zs Hzs rec now name q type dnssec (w_recCache w1) genuine_entry (fun k e H => proj2 H) budget i (ze_zone o) Ho1
               (ze_salt o) (ze_iterations o) Ho5 Hq). split; [done|]. unfold has_parameters. by rewrite Ew.
    - by apply (ends_getNSECDenial zs Hzs rec now name q type dnssec (w_recCache w1) _ genuine_entry (fun k e H => proj1 H) (context_ok SHA1 budget) i (ze_zone o)). }
  match goal with |- let '(_, _) := ?m w1 in _ => destruct (m w1) as [w' x] end. cbn in Hz, Hx. destruct Hz as (Hz1 & _ & Hz2). split; [done|].
  intros answer ->. exists i. split; [done|]. unfold right_for. fold o. rewrite Es. split; [done|]. intros Hcol. by apply (Hx (Some answer)).
Qed.

(** ** All histories *)

Definition with_aggressive (a : Aggressive) (w : World C Au) : World C Au := mkWorld a (w_recCache w) (w_tasks w) (w_context w).

Context `{HQ : !Quotas}.

(** What can happen to the cache: records of the zones are inserted, zones removed, it is
    pruned and asked; meanwhile the record cache changes at will and queries come with
    contexts of their own. *)
Inductive reach : World C Au -> Prop :=
| reach_start n maps tasks c : context_ok SHA1 budget c -> reach (mkWorld (aggressive_make n) maps tasks c)
| reach_insert w zone owner record ttl signatures nsec3 qname qtype :
    reach w -> named zone -> genuine_record zone owner record signatures ->
    reach (with_aggressive (fst (insertNSEC settings cfg zone owner record ttl signatures nsec3 qname qtype (w_aggressive w))) w)
| reach_remove w zone subzones :
    reach w -> named zone -> reach (with_aggressive (fst (removeZoneInfo zone subzones (w_aggressive w))) w)
| reach_prune w now :
    reach w -> 0 <= a_maxEntries (w_aggressive w) -> a_entriesCount (w_aggressive w) < 2 ^ 26 ->
    reach (with_aggressive (fst (aggressive_prune now (w_aggressive w))) w)
| reach_limit w n : reach w -> reach (with_aggressive (setMaxEntries n (w_aggressive w)) w)
| reach_query w now name type who tag dnssec :
    reach w -> named name -> reach (fst (aggressive_getDenial rec SHA1 cfg settings now name type who tag dnssec w))
| reach_other w maps tasks c : reach w -> context_ok SHA1 budget c -> reach (mkWorld (w_aggressive w) maps tasks c).

Lemma reach_ok w : reach w -> world_ok w.
Proof.
  induction 1 as [n maps tasks c Hc|w zone owner record ttl signatures nsec3 qname qtype _ [IHa IHc] Hz Hg|w zone subzones _ [IHa IHc] Hz|w now _ [IHa IHc] Hm Hb
                 |w n _ [IHa IHc]|w now name type who tag dnssec _ IH Hn|w maps tasks c _ [IHa _] Hc].
  - split; [apply aggressive_make_ok|done].
  - split; [by apply insert_genuine|done].
  - split; [|done]. destruct (removeZoneInfo_ok genuine_entry _ zone subzones IHa Hz) as (a' & E & Ha'). cbn. by rewrite E.
  - split; [|done]. destruct (prune_ok genuine_entry _ now IHa Hm Hb) as (a' & E & Ha' & _). cbn. by rewrite E.
  - split; [|done]. destruct IHa. by split.
  - pose proof (getDenial_right now name (nkey name) type who tag dnssec w IH (nkey_named _ Hn)) as H.
    destruct (aggressive_getDenial _ _ _ _ _ _ _ _ _ _ _) as [w' r]. apply H.
  - by split.
Qed.

(** C18: the answers are right. A cache that was only given records of the zones, whatever
    was inserted, removed, pruned and asked before, answers a query from one of its zones
    that the name is in. NXDOMAIN: in the zone the name owns nothing, nothing is below it,
    no delegation or DNAME is above it and there is no wildcard at its closest encloser. No
    data: the name, or the wildcard that applies to it, exists without the type and
    without CNAME. Otherwise the records are the secure ones that the record cache holds
    for the wildcard that applies to the name. For NSEC3 this is as far as the hash does
    not confuse the names looked at with others of the zone. *)
Theorem aggressive_denial_sound w now name q type who tag dnssec w' answer :
  reach w -> named_key name q ->
  aggressive_getDenial rec SHA1 cfg settings now name type who tag dnssec w = (w', Ok (Some answer)) ->
  exists i, i ∈ visited (w_aggressive w) /\ right_for now name q type who tag dnssec w i answer.
Proof.
  intros Hw Hq E. pose proof (getDenial_right now name q type who tag dnssec w (reach_ok w Hw) Hq) as H. rewrite E in H. by apply H.
Qed.

(** in every reachable state of the cache the zones of its tree lead to their own
    objects, an owner name has one entry at most, all entries of a zone are of one kind and
    records of the zone, and the counter is the number of entries. *)
Theorem aggressive_reachable w : reach w -> cache_ok genuine_entry (w_aggressive w).
Proof. intros Hw. apply (reach_ok w Hw). Qed.

(** C20: pruning a reachable cache never finds the counter inconsistent. It leaves at most
    the maximum of entries, with their number in the counter; and when there were not
    more than that before, or fewer are left, only entries that have expired are gone. *)
Theorem aggressive_prune_exact w now :
  reach w -> 0 <= a_maxEntries (w_aggressive w) -> a_entriesCount (w_aggressive w) < 2 ^ 26 ->
  let a := w_aggressive w in
  exists a', aggressive_prune now a = (a', Ok tt) /\ a_entriesCount a' = count_of a' (visited a') /\ a_entriesCount a' <= a_maxEntries a
    /\ (a_entriesCount a <= a_maxEntries a \/ a_entriesCount a' < a_maxEntries a ->
        forall i e, i ∈ visited a -> e ∈ ze_entries (object a i) -> now < ag_ttd e -> i ∈ visited a' /\ e ∈ ze_entries (object a' i)).
Proof.
  intros Hw Hm Hb a. destruct (prune_ok genuine_entry a now (proj1 (reach_ok w Hw)) Hm Hb) as (a' & E & Ha' & Hle & Hkeep).
  exists a'. split_and!; [done|apply Ha'|done..].
Qed.

(** ** Nothing that is there is missed *)

Lemma nsec_owner_node a i zone x c :
  ok a -> at_zone a i zone -> x ∈ ze_entries (object a i) -> ag_record x = RR_NSEC c ->
  ag_next x = nsec_next c /\ exists b n, genuine_nsec (zs (nkey zone)) (ag_owner x) (ag_signatures x) c (ag_owner x) b n /\ nkey (ag_owner x) = b.
Proof.
  intros Ha Hi Hx Er. destruct (object_of_zone _ _ _ _ Ha Hi) as [[_ _ Hall _ _] _]. rewrite (proj2 Hi) in Hall. rewrite Forall_forall in Hall.
  destruct (Hall x Hx) as [Hn _]. destruct (Hn c Er) as (Hnx & b & n & Hg). split; [done|]. exists b, n. split; [done|].
  pose proof (gn_owner_key _ _ _ _ _ _ _ Hg) as Hb. apply (named_key_unique (ag_owner x)); [by apply nkey_named, (key_named _ b)|done].
Qed.

(** In a zone of NSEC entries all are NSEC records. *)
Lemma same_kind a i zone e c x :
  ok a -> at_zone a i zone -> e ∈ ze_entries (object a i) -> ag_record e = RR_NSEC c -> x ∈ ze_entries (object a i) -> exists c', ag_record x = RR_NSEC c'.
Proof.
  intros Ha Hi He Er Hx. destruct (object_of_zone _ _ _ _ Ha Hi) as [[_ _ _ Hk _] _]. rewrite Forall_forall in Hk.
  pose proof (Hk e He) as Hke. pose proof (Hk x Hx) as Hkx. cbn in Hke, Hkx. rewrite Er in Hke.
  destruct (ze_denialType (object a i)); try done. destruct (ag_record x) as [c'| |]; try done. by exists c'.
Qed.

(** C19: the NSEC for a name is found. When a zone of a reachable cache holds an NSEC entry
    that has not expired and whose owner is the name, or that covers it, then
    [getNSECBefore] returns this entry. *)
Theorem covering_nsec_found w i zone now name e c :
  reach w -> at_zone (w_aggressive w) i zone -> named name -> nkey zone `prefix_of` nkey name ->
  e ∈ ze_entries (object (w_aggressive w) i) -> ag_record e = RR_NSEC c -> now < ag_ttd e ->
  name_eqb (ag_owner e) name = true \/ isCoveredByNSEC name (ag_owner e) (ag_next e) = true ->
  exists a', getNSECBefore now i name (w_aggressive w) = (a', Ok (Some e)).
Proof.
  intros Hw Hi Hn Hp He Er Ht Hcov. destruct (reach_ok w Hw) as [Ha _]. set (a := w_aggressive w) in *.
  destruct (nsec_owner_node a i zone e c Ha Hi He Er) as (Hnx & b & n & Hg & Eb). destruct Hg as [_ _ _ _ G5 G6 G7 _].
  destruct (Hzs (nkey zone)) as [Hz Eap].
  assert (b = nkey name \/ in_gap b n (nkey name)) as Hq.
  { destruct Hcov as [H|H]; [left; by apply (key_name_eqb _ _ _ _ G5 (nkey_named _ Hn))|right].
    rewrite Hnx in H. by apply (key_covered _ _ _ _ _ _ (nkey_named _ Hn) G5 G6). }
  assert (best_before (nkey name) (ze_entries (object a i)) e) as Hbest.
  { split; [done|]. left. rewrite Eb. destruct Hq as [->|Hgap]; [split; [apply kle_refl|done]|].
    assert (z_apex (zs (nkey zone)) `prefix_of` nkey name) as Hap by (by rewrite Eap).
    destruct (gap_shape _ Hz b n _ G7 Hap Hgap) as [Hlt _]. split; [by apply kle_cases; left|]. intros x Hx Hle.
    destruct (same_kind a i zone e c x Ha Hi He Er Hx) as [c' Er'].
    destruct (nsec_owner_node a i zone x c' Ha Hi Hx Er') as (_ & b' & n' & [_ _ _ _ _ _ G7' _] & Eb').
    destruct (gap_node_cases _ Hz b n _ G7 Hap Hgap b') as [?|[H1 H2]]; [apply G7'|by rewrite Eb'|].
    rewrite Eb' in Hle. apply klt_nle in H1. destruct H1. by eapply kle_trans. }
  destruct (getNSECBefore_ok genuine_entry a i zone now name Ha Hi Hn) as (a' & r & E & _ & _ & Hnone & Hsome). exists a'. rewrite E. do 2 f_equal.
  destruct r as [x|]; [|specialize (Hnone eq_refl e Hbest); lia]. destruct (Hsome x eq_refl) as [Hx _]. f_equal.
  destruct (object_of_zone _ _ _ _ Ha Hi) as [[_ Hok _ _ _] _]. by eapply best_before_unique.
Qed.
End main.

(** ** Examples

    A cache that holds the NSEC records of a small zone, with the SOA of the zone in the
    record cache, and the answers it gives; and the same with NSEC3. *)


Module aggressive_example.
Import example example3.

#[local] Instance sequence_index : RangeIndex Z RRSIGRecordContent Z.
Proof. refine {| name_range_of l qname rtag := List.filter (of_name qname rtag) l |}. done. Defined.

Definition rec_cfg : cache_settings Z RRSIGRecordContent Z :=
  {| cs_maxServedStaleExtensions := 0; cs_maxRRSetSize := 256; cs_limitQTypeAny := true; cs_maxEntrySize := 8192; cs_refresh_ttlperc := 0;
     cs_locked_ttlperc := 0; cs_minimumTTL := 1; cs_maxcachettl := 86400; cs_sizeof_entry := 200; cs_content_size := fun _ => 16;
     cs_signature_size := fun _ => 100; cs_record_size := fun _ => 100 |}.

Definition ag_settings : aggressive_settings :=
  {| as_nsec3DenialProofMaxCost := 150; as_maxNSEC3CommonPrefix := 10; as_maxEntrySize := 8192; as_sizeEstimate := fun _ => 400 |}.

(** A function with outputs of 20 bytes. *)
Definition byte_hash (b : bytes) : bytes := map (fun x => x mod 256) (toy_hash b).

Lemma byte_hash_length : fixed_length byte_hash.
Proof. intros b. unfold byte_hash, zlen. rewrite length_map. apply toy_hash_length. Qed.

Lemma byte_hash_bytes b : bytes_ok (byte_hash b).
Proof. unfold byte_hash, bytes_ok. rewrite Forall_map. apply Forall_true. intros x. apply Z.mod_pos_bound. lia. Qed.

(** The zones: [ex], and at other names zones with nothing but their apex. *)
Definition ex_zones (k : key) : zone := if decide (k = ex_apex) then ex_zone else zone_of k [(k, [QType.NS; QType.SOA])].

Lemma ex_zones_ok k : zone_ok (ex_zones k) /\ z_apex (ex_zones k) = k.
Proof.
  unfold ex_zones. case_decide as E; [subst; split; [exact ex_zone_ok|done]|]. split; [|done]. apply zone_of_ok. unfold list_ok. cbn.
  rewrite !bool_decide_true by (done || set_solver). rewrite !bool_decide_false by (rewrite list_elem_of_singleton || set_solver; done). done.
Qed.

Definition ex : DNSName := ex_name ex_labels.

Lemma ex_is_named ls : bool_decide (valid_labels ls /\ zlen (storage_of ls) <= s_maxDNSNameLength) = true -> named (ex_name ls).
Proof. intros H. eapply key_named. by apply ex_named. Qed.

(** The record cache has the SOA of the zone, secure, until 4600. *)
Definition rec_cache : list (Content Z RRSIGRecordContent Z) :=
  fst (mrc_replace rec_cfg (mrc_make 4) 1000 ex QType.SOA [(4600, 7)] [] [] true ex None [] Secure None false 1000).

Definition start (n : Z) : World Z Z := mkWorld (aggressive_make n) rec_cache [] ex_context.

(** The insertion of a record set of a response, until 3600. *)
Definition insert_set (nsec3 : bool) (w : World Z Z) (x : (DNSName * Z) * ContentSigPair) : World Z Z :=
  match csp_records x.2 with
  | r :: _ => with_aggressive (fst (insertNSEC ag_settings ex_settings ex x.1.1 r 3600 (csp_signatures x.2) nsec3 ex QType.A (w_aggressive w))) w
  | [] => w
  end.

Definition filled_cache (n : Z) : World Z Z := fold_left (insert_set false) ex_response (start n).

Definition reachable : World Z Z -> Prop := reach byte_hash ex_zones rec_cfg ex_settings ag_settings 600.

Lemma start_reachable n : reachable (start n).
Proof. apply reach_start. by split. Qed.

Lemma insert_reachable w x : ex_set_fine x -> reachable w -> reachable (insert_set false w x).
Proof.
  intros [_ Hf] Hw. unfold insert_set. destruct (csp_records x.2) as [|r l]; [done|]. apply Forall_cons in Hf as [(nsec & owner & b & n & -> & Hg) _].
  apply reach_insert; [done|by apply ex_is_named; vm_compute|]. exists owner, b, n. unfold ex_zones. by rewrite decide_True.
Qed.

Lemma filled_reachable n : reachable (filled_cache n).
Proof.
  unfold filled_cache. pose proof ex_response_fine as Hf. pose proof (start_reachable n) as Hw. revert Hw. generalize (start n). induction Hf as [|x l Hx Hf IH]; intros w Hw; [done|].
  apply IH. by apply insert_reachable.
Qed.

Definition localnet : ComboAddress := mkCA 2 0 [192; 0; 2; 1].

Definition ask (w : World Z Z) (ls : list bytes) (type : Z) : World Z Z * result (option (Z * list (answer_record Z))) :=
  aggressive_getDenial rec_cfg byte_hash ex_settings ag_settings 1100 (ex_name ls) type localnet [] true w.

(** The code and the types of the records of an answer. *)
Definition summary (r : result (option (Z * list (answer_record Z)))) : option (Z * list Z) :=
  match r with Ok (Some (res, l)) => Some (res, map an_type l) | _ => None end.

Definition b_ex : list bytes := bs "b" :: ex_labels.

(** [b.ex] does not exist: two NSEC records and the SOA; [e.ex] is an empty
    non-terminal; below the delegation [sub.ex] nothing is known. *)
Example nsec_answers :
  summary (snd (ask (filled_cache 100) b_ex QType.A)) = Some (RCode.NXDomain, [QType.SOA; QType.NSEC; QType.RRSIG; QType.NSEC; QType.RRSIG])
  /\ summary (snd (ask (filled_cache 100) (bs "e" :: ex_labels) QType.A)) = Some (RCode.NoError, [QType.SOA; QType.NSEC; QType.RRSIG])
  /\ summary (snd (ask (filled_cache 100) (bs "x" :: bs "sub" :: ex_labels) QType.A)) = None.
Proof. by vm_compute. Qed.

(** *** Zones below a zone *)

Definition zone_b : DNSName := ex_name b_ex.
Definition zone_cb : DNSName := ex_name (bs "c" :: b_ex).

(** The objects that lookups of two names lead to after [removeZoneInfo(b.ex, true)] in a
    cache with the zones [b.ex] and [c.b.ex]. *)
Definition after_removal : result (option nat) * result (option nat) :=
  let a := fst (ag_getZone zone_cb (fst (ag_getZone zone_b (aggressive_make 100)))) in
  let a := fst (removeZoneInfo zone_b true a) in
  (snd (getBestZone zone_b a), snd (getBestZone zone_cb a)).

(** The zone below stays. *)
Example subzones_stay : after_removal = (Ok None, Ok (Some 1%nat)).
Proof. by vm_compute. Qed.

(** The same from NSEC3 records. *)
Definition filled3 (n : Z) : World Z Z := fold_left (insert_set true) ex_response3 (start n).

Definition ask3 (w : World Z Z) (ls : list bytes) (type : Z) : result (option (Z * list (answer_record Z))) :=
  snd (aggressive_getDenial rec_cfg toy_hash ex_settings ag_settings 1100 (ex_name ls) type localnet [] true w).

Example nsec3_answers :
  summary (ask3 (filled3 100) b_ex QType.A)
    = Some (RCode.NXDomain, [QType.SOA; QType.NSEC3; QType.RRSIG; QType.NSEC3; QType.RRSIG; QType.NSEC3; QType.RRSIG])
  /\ summary (ask3 (filled3 100) (bs "a" :: ex_labels) QType.AAAA) = Some (RCode.NoError, [QType.SOA; QType.NSEC3; QType.RRSIG])
  /\ summary (ask3 (filled3 100) (bs "a" :: ex_labels) QType.A) = None.
Proof. by vm_compute. Qed.

Lemma ex_no_confusion : no_confusion byte_hash ex_zones (ckey b_ex) ex [] 0.
Proof.
  unfold no_confusion. change (ex_zones (nkey ex)) with ex_zone. apply finite_collision. by vm_compute.
Qed.

(** The answer for [b.ex] is true. *)
Lemma aggressive_denial_sound_witness : name_denied ex_zone (ckey b_ex).
Proof.
  destruct (aggressive_denial_sound byte_hash byte_hash_length byte_hash_bytes ex_zones ex_zones_ok rec_cfg ex_settings ag_settings 600 (filled_cache 100) 1100
              (ex_name b_ex) (ckey b_ex) QType.A localnet [] true (fst (ask (filled_cache 100) b_ex QType.A))
              (default (0, []) (match snd (ask (filled_cache 100) b_ex QType.A) with Ok o => o | Throw _ => None end))) as (i & Hi & Hp & Hr);
    [exact (filled_reachable 100)|by apply ex_named; vm_compute|by vm_compute|].
  assert (i = 0%nat) as -> by (revert Hi; vm_compute (visited _); by intros ->%list_elem_of_singleton).
  change (ze_zone (object (w_aggressive (filled_cache 100)) 0)) with ex in Hr. change (ex_zones (nkey ex)) with ex_zone in Hr.
  exact (right_answer_nxdomain _ _ _ _ _ _ _ _ _ (Hr ex_no_confusion) ltac:(by vm_compute)).
Defined.

Lemma aggressive_reachable_witness :
  a_entriesCount (w_aggressive (filled_cache 100)) = count_of (w_aggressive (filled_cache 100)) (visited (w_aggressive (filled_cache 100)))
  /\ a_entriesCount (w_aggressive (filled_cache 100)) = 3.
Proof.
  split; [|by vm_compute]. apply (ok_count (genuine_entry byte_hash ex_zones)).
  exact (aggressive_reachable byte_hash byte_hash_length byte_hash_bytes ex_zones ex_zones_ok rec_cfg ex_settings ag_settings 600 (filled_cache 100) (filled_reachable 100)).
Defined.

(** Room for two: one of the three entries goes. *)
Lemma aggressive_prune_exact_witness :
  exists a', aggressive_prune 1100 (w_aggressive (filled_cache 2)) = (a', Ok tt) /\ a_entriesCount a' <= 2.
Proof.
  destruct (aggressive_prune_exact byte_hash byte_hash_length byte_hash_bytes ex_zones ex_zones_ok rec_cfg ex_settings ag_settings 600 (filled_cache 2) 1100
              (filled_reachable 2)) as (a' & E & _ & Hle & _); [apply Z.leb_le; by vm_compute|apply Z.ltb_lt; by vm_compute|]. exists a'. split; [exact E|exact Hle].
Defined.

(** The second NSEC record covers [b.ex]. *)
Lemma covering_nsec_found_witness :
  exists e a', getNSECBefore 1100 0 (ex_name b_ex) (w_aggressive (filled_cache 100)) = (a', Ok (Some e)) /\ ag_owner e = ex_name (bs "a" :: ex_labels).
Proof.
  set (e := default (mkNE RR_other [] ex ex ex 0 0) (ze_entries (object (w_aggressive (filled_cache 100)) 0) !! 1%nat)).
  destruct (covering_nsec_found byte_hash byte_hash_length byte_hash_bytes ex_zones ex_zones_ok rec_cfg ex_settings ag_settings 600 (filled_cache 100) 0 ex 1100
              (ex_name b_ex) e (mkNSEC (ex_name (bs "y" :: bs "e" :: ex_labels)) (mkBitmap None [QType.A; QType.NSEC])) (filled_reachable 100)) as (a' & E).
  - split; by_decide.
  - by apply ex_is_named; vm_compute.
  - by_decide.
  - apply list_elem_of_lookup. exists 1%nat. by vm_compute.
  - by vm_compute.
  - by vm_compute.
  - right. by vm_compute.
  - exists e, a'. split; [exact E|by vm_compute].
Defined.
End aggressive_example.
