(* ===== verification/DnsdistBackend.v ===== *)
(** * Backends of dnsdist

    [DownstreamState] of [pdns/dnsdistdist/dnsdist.hh] and [dnsdist-backend.cc]: whether
    a backend takes queries, its health checks, the states of the queries in flight and
    the hashes of its weight.  A double is a binary64 number of [SpecFloat]; a reading of
    a clock is an argument. *)

From stdpp Require Import gmap.
From Stdlib Require Import SpecFloat.
From S2P Require Import Prelude Chars.

#[local] Open Scope Z_scope.

(** ** Doubles *)

Abbreviation double := spec_float.

Definition dbl (n : Z) : double := binary_normalize 53 1024 n 0 false.
Definition dadd : double -> double -> double := SFadd 53 1024.
Definition dsub : double -> double -> double := SFsub 53 1024.
Definition dmul : double -> double -> double := SFmul 53 1024.
Definition ddiv : double -> double -> double := SFdiv 53 1024.
Definition dltb : double -> double -> bool := SFltb.
Definition dleb : double -> double -> bool := SFleb.

(** [std::numeric_limits<double>::max()]. *)
Definition DBL_MAX : double := S754_finite false (2 ^ 53 - 1) 971.

(** ** Limits on the rate of queries *)

Record timespec : Type := mkTS { tv_sec : Z; tv_nsec : Z }.

(** [StopWatch::udiffAndSet]: what it returns when it is started at [start]. *)
Definition udiffAndSet (start now : timespec) : double :=
  dadd (dmul (dbl 1000000) (dbl (tv_sec now - tv_sec start))) (ddiv (dbl (tv_nsec now - tv_nsec start)) (dbl 1000)).

Record QPSLimiter : Type := mkLimiter {
  q_prev : timespec;
  q_tokens : double;
  q_rate : Z;
  q_burst : Z;
  q_passthrough : bool;
}.

Definition limiter_make (rate burst : Z) (now : timespec) : QPSLimiter := mkLimiter now (dbl burst) rate burst false.

Definition checkOnly (now : timespec) (q : QPSLimiter) : QPSLimiter * bool :=
  if q_passthrough q then (q, true)
  else
    let delta := udiffAndSet (q_prev q) now in
    let tokens := if dltb (dbl 0) delta then dadd (q_tokens q) (dmul (dmul (dbl 1) (dbl (q_rate q))) (ddiv delta (dbl 1000000))) else q_tokens q in
    let tokens := if dltb (dbl (q_burst q)) tokens then dbl (q_burst q) else tokens in
    (mkLimiter now tokens (q_rate q) (q_burst q) false, dleb (dbl 1) tokens).

Definition addHit (q : QPSLimiter) : QPSLimiter :=
  if q_passthrough q then q else mkLimiter (q_prev q) (dsub (q_tokens q) (dbl 1)) (q_rate q) (q_burst q) false.

(** ** Configuration *)

Inductive Availability : Type := AvailUp | AvailDown | AvailAuto.
Inductive HealthCheckMode : Type := CheckActive | CheckLazy.
Inductive LazyHealthCheckMode : Type := TimeoutOnly | TimeoutOrServFail.
Inductive LazyStatus : Type := Healthy | PotentialFailure | Failed.

#[export] Instance Availability_eq_dec : EqDecision Availability.
Proof. solve_decision. Defined.
#[export] Instance HealthCheckMode_eq_dec : EqDecision HealthCheckMode.
Proof. solve_decision. Defined.
#[export] Instance LazyHealthCheckMode_eq_dec : EqDecision LazyHealthCheckMode.
Proof. solve_decision. Defined.
#[export] Instance LazyStatus_eq_dec : EqDecision LazyStatus.
Proof. solve_decision. Defined.

(** [Config], as far as the operations here use it; [dc_tls] is whether there is a TLS
    context, [dc_doh] whether there is a path for DoH. *)
Record BackendConfig : Type := mkBC {
  dc_availability : Availability;
  dc_healthCheckMode : HealthCheckMode;
  dc_weight : Z;
  dc_id : bytes;
  dc_nameWithAddr : bytes;
  dc_order : Z;
  dc_qpsLimit : Z;
  dc_maxOutstandingQueries : Z;
  dc_maxUDPOutstanding : Z;
  dc_udpTimeout : Z;
  dc_useECS : bool;
  dc_disableZeroScope : bool;
  dc_tcpOnly : bool;
  dc_tls : bool;
  dc_doh : bool;
  dc_reconnectOnUp : bool;
  dc_checkInterval : Z;
  dc_maxCheckFailures : Z;
  dc_minRiseSuccesses : Z;
  dc_lazyHealthCheckMode : LazyHealthCheckMode;
  dc_lazyHealthCheckSampleSize : Z;
  dc_lazyHealthCheckMinSampleCount : Z;
  dc_lazyHealthCheckFailedInterval : Z;
  dc_lazyHealthCheckMaxBackOff : Z;
  dc_lazyHealthCheckThreshold : Z;
  dc_lazyHealthCheckUseExponentialBackOff : bool;
}.

(** The fields that change. *)
Definition bc_set (availability : Availability) (mode : HealthCheckMode) (weight : Z) (id : bytes) (c : BackendConfig) : BackendConfig :=
  mkBC availability mode weight id (dc_nameWithAddr c) (dc_order c) (dc_qpsLimit c) (dc_maxOutstandingQueries c) (dc_maxUDPOutstanding c)
    (dc_udpTimeout c) (dc_useECS c) (dc_disableZeroScope c) (dc_tcpOnly c) (dc_tls c) (dc_doh c) (dc_reconnectOnUp c) (dc_checkInterval c)
    (dc_maxCheckFailures c) (dc_minRiseSuccesses c) (dc_lazyHealthCheckMode c) (dc_lazyHealthCheckSampleSize c)
    (dc_lazyHealthCheckMinSampleCount c) (dc_lazyHealthCheckFailedInterval c) (dc_lazyHealthCheckMaxBackOff c)
    (dc_lazyHealthCheckThreshold c) (dc_lazyHealthCheckUseExponentialBackOff c).

Definition set_availability (a : Availability) (c : BackendConfig) : BackendConfig := bc_set a (dc_healthCheckMode c) (dc_weight c) (dc_id c) c.
Definition set_mode (m : HealthCheckMode) (c : BackendConfig) : BackendConfig := bc_set (dc_availability c) m (dc_weight c) (dc_id c) c.

(** [parseAvailabilityConfigFromStr]: the configuration, and whether the word is known. *)
Definition parseAvailabilityConfigFromStr (word : bytes) (c : BackendConfig) : BackendConfig * bool :=
  if pdns_iequals word (bs "auto") then (set_mode CheckActive (set_availability AvailAuto c), true)
  else if pdns_iequals word (bs "lazy") then (set_mode CheckLazy (set_availability AvailAuto c), true)
  else if pdns_iequals word (bs "up") then (set_availability AvailUp c, true)
  else if pdns_iequals word (bs "down") then (set_availability AvailDown c, true)
  else (c, false).

(** ** The state of a backend *)

(** [LazyHealthCheckStats]; the results are those of a circular buffer, the oldest
    first. *)
Record LazyHealthCheckStats : Type := mkLazy {
  lz_capacity : Z;
  lz_lastResults : list bool;
  lz_nextCheck : Z;
  lz_status : LazyStatus;
}.

Definition lz_push (r : bool) (s : LazyHealthCheckStats) : LazyHealthCheckStats :=
  mkLazy (lz_capacity s)
    (if lz_capacity s =? 0 then lz_lastResults s
     else if zlen (lz_lastResults s) =? lz_capacity s then zdrop 1 (lz_lastResults s) ++ [r] else lz_lastResults s ++ [r])
    (lz_nextCheck s) (lz_status s).
Definition lz_clear (s : LazyHealthCheckStats) : LazyHealthCheckStats := mkLazy (lz_capacity s) [] (lz_nextCheck s) (lz_status s).
Definition lz_set_status (st : LazyStatus) (s : LazyHealthCheckStats) : LazyHealthCheckStats :=
  mkLazy (lz_capacity s) (lz_lastResults s) (lz_nextCheck s) st.
Definition lz_set_next (t : Z) (s : LazyHealthCheckStats) : LazyHealthCheckStats := mkLazy (lz_capacity s) (lz_lastResults s) t (lz_status s).

(** [set_capacity]: the newest results that do not fit are dropped. *)
Definition lz_set_capacity (n : Z) (s : LazyHealthCheckStats) : LazyHealthCheckStats :=
  mkLazy n (ztake n (lz_lastResults s)) (lz_nextCheck s) (lz_status s).

Record Health : Type := mkHealth {
  upStatus : bool;
  connected : bool;
  currentCheckFailures : Z;
  consecutiveSuccessfulChecks : Z;
  hc_nextCheck : Z;
  lazyStats : LazyHealthCheckStats;
  hc_failures : Z;
  latencyUsec : double;
  latencyUsecTCP : double;
}.

(** [IDState]; [internal] is [None] when nothing was stored yet or it was moved away. *)
Record IDState (S : Type) : Type := mkIDS { ids_inUse : bool; ids_age : Z; ids_internal : option S }.
Arguments mkIDS {S} _ _ _.
Arguments ids_inUse {S} _.
Arguments ids_age {S} _.
Arguments ids_internal {S} _.

(** What becomes of a query that no response came for: its state is overwritten by a
    later one, a rule for timeouts takes it, or its client is told. *)
Inductive lost (S : Type) : Type :=
| LostReused (s : S)
| LostToRule (s : S)
| LostTimeout (s : S).
Arguments LostReused {S} _.
Arguments LostToRule {S} _.
Arguments LostTimeout {S} _.

(** The states of the queries in flight, by index or by id, and what was lost. *)
Record Inflight (S : Type) : Type := mkInflight {
  outstanding : Z;
  reuseds : Z;
  idOffset : Z;
  idStates : list (IDState S);
  idStatesMap : gmap Z (IDState S);
  lost_states : list (lost S);
}.
Arguments mkInflight {S} _ _ _ _ _ _.
Arguments outstanding {S} _.
Arguments reuseds {S} _.
Arguments idOffset {S} _.
Arguments idStates {S} _.
Arguments idStatesMap {S} _.
Arguments lost_states {S} _.

Record DownstreamState (S : Type) : Type := mkDS {
  d_config : BackendConfig;
  health : Health;
  inflight : Inflight S;
  hashes : list Z;
  hashesComputed : bool;
  d_qpsLimiter : option QPSLimiter;
}.
Arguments mkDS {S} _ _ _ _ _ _.
Arguments d_config {S} _.
Arguments health {S} _.
Arguments inflight {S} _.
Arguments hashes {S} _.
Arguments hashesComputed {S} _.
Arguments d_qpsLimiter {S} _.

Definition ds_set_config {S} (c : BackendConfig) (d : DownstreamState S) : DownstreamState S :=
  mkDS c (health d) (inflight d) (hashes d) (hashesComputed d) (d_qpsLimiter d).
Definition ds_set_health {S} (h : Health) (d : DownstreamState S) : DownstreamState S :=
  mkDS (d_config d) h (inflight d) (hashes d) (hashesComputed d) (d_qpsLimiter d).
Definition ds_set_inflight {S} (i : Inflight S) (d : DownstreamState S) : DownstreamState S :=
  mkDS (d_config d) (health d) i (hashes d) (hashesComputed d) (d_qpsLimiter d).
Definition ds_set_limiter {S} (q : option QPSLimiter) (d : DownstreamState S) : DownstreamState S :=
  mkDS (d_config d) (health d) (inflight d) (hashes d) (hashesComputed d) q.

(** ** Up and down *)

Definition isTCPOnly (c : BackendConfig) : bool := dc_tcpOnly c || dc_tls c.
Definition isDoH (c : BackendConfig) : bool := dc_doh c.

(** [getProtocol() == dnsdist::Protocol::DoUDP]. *)
Definition is_DoUDP (c : BackendConfig) : bool := negb (isDoH c) && negb (dc_tls c) && negb (isTCPOnly c).

Definition isUp {S} (d : DownstreamState S) : bool :=
  match dc_availability (d_config d) with
  | AvailDown => false
  | AvailUp => true
  | AvailAuto => upStatus (health d)
  end.

Definition h_setUpStatus (b : bool) (h : Health) : Health :=
  mkHealth b (connected h) (currentCheckFailures h) (consecutiveSuccessfulChecks h) (hc_nextCheck h) (lazyStats h) (hc_failures h)
    (if b then latencyUsec h else dbl 0) (if b then latencyUsecTCP h else dbl 0).

Definition setUpStatus {S} (b : bool) (d : DownstreamState S) : DownstreamState S := ds_set_health (h_setUpStatus b (health d)) d.
Definition setUp {S} (d : DownstreamState S) : DownstreamState S := ds_set_config (set_availability AvailUp (d_config d)) d.
Definition setDown {S} (d : DownstreamState S) : DownstreamState S :=
  let h := health d in
  ds_set_health (mkHealth (upStatus h) (connected h) (currentCheckFailures h) (consecutiveSuccessfulChecks h) (hc_nextCheck h) (lazyStats h)
                   (hc_failures h) (dbl 0) (dbl 0))
    (ds_set_config (set_availability AvailDown (d_config d)) d).
Definition setAuto {S} (d : DownstreamState S) : DownstreamState S := ds_set_config (set_availability AvailAuto (d_config d)) d.
Definition setActiveAuto {S} (d : DownstreamState S) : DownstreamState S :=
  ds_set_config (set_mode CheckActive (set_availability AvailAuto (d_config d))) d.

Definition h_set_lazy (s : LazyHealthCheckStats) (h : Health) : Health :=
  mkHealth (upStatus h) (connected h) (currentCheckFailures h) (consecutiveSuccessfulChecks h) (hc_nextCheck h) s (hc_failures h)
    (latencyUsec h) (latencyUsecTCP h).
Definition h_set_failures (n : Z) (h : Health) : Health :=
  mkHealth (upStatus h) (connected h) n (consecutiveSuccessfulChecks h) (hc_nextCheck h) (lazyStats h) (hc_failures h)
    (latencyUsec h) (latencyUsecTCP h).
Definition h_set_successes (n : Z) (h : Health) : Health :=
  mkHealth (upStatus h) (connected h) (currentCheckFailures h) n (hc_nextCheck h) (lazyStats h) (hc_failures h)
    (latencyUsec h) (latencyUsecTCP h).
Definition h_set_nextCheck (n : Z) (h : Health) : Health :=
  mkHealth (upStatus h) (connected h) (currentCheckFailures h) (consecutiveSuccessfulChecks h) n (lazyStats h) (hc_failures h)
    (latencyUsec h) (latencyUsecTCP h).
Definition h_set_connected (b : bool) (h : Health) : Health :=
  mkHealth (upStatus h) b (currentCheckFailures h) (consecutiveSuccessfulChecks h) (hc_nextCheck h) (lazyStats h) (hc_failures h)
    (latencyUsec h) (latencyUsecTCP h).
Definition h_count_failure (h : Health) : Health :=
  mkHealth (upStatus h) (connected h) (currentCheckFailures h) (consecutiveSuccessfulChecks h) (hc_nextCheck h) (lazyStats h)
    (hc_failures h + 1) (latencyUsec h) (latencyUsecTCP h).

Definition setLazyAuto {S} (d : DownstreamState S) : DownstreamState S :=
  let c := d_config d in
  ds_set_health (h_set_lazy (lz_set_capacity (dc_lazyHealthCheckSampleSize c) (lazyStats (health d))) (health d))
    (ds_set_config (set_mode CheckLazy (set_availability AvailAuto c)) d).

Definition getRelevantLatencyUsec {S} (d : DownstreamState S) : double :=
  if isTCPOnly (d_config d) then latencyUsecTCP (health d) else latencyUsec (health d).

(** [canAcceptNewQueries]: reading the limiter refills it; [now] is what its clock
    says. *)
Definition canAcceptNewQueries {S} (enforceQPS : bool) (now : timespec) (d : DownstreamState S) : DownstreamState S * bool :=
  if negb (isUp d) then (d, false)
  else if (0 <? dc_maxOutstandingQueries (d_config d)) && (dc_maxOutstandingQueries (d_config d) <=? outstanding (inflight d)) then (d, false)
  else if enforceQPS then
    match d_qpsLimiter d with
    | Some q => let '(q, b) := checkOnly now q in (ds_set_limiter (Some q) d, b)
    | None => (d, true)
    end
  else (d, true).

(** [canAcceptNewQueries(false)], which changes nothing. *)
Definition accepts {S} (d : DownstreamState S) : bool := snd (canAcceptNewQueries false (mkTS 0 0) d).

(** ** Hashes *)

(** A number in decimal, as [boost::format] writes it. *)
Fixpoint decimal_loop (fuel : nat) (n : Z) (acc : bytes) : bytes :=
  match fuel with
  | O => acc
  | S fuel => let acc := (48 + n mod 10) :: acc in if n / 10 =? 0 then acc else decimal_loop fuel (n / 10) acc
  end.
Definition decimal (n : Z) : bytes := decimal_loop (S (Z.to_nat (Z.log2 n))) n [].

(** The loop over the weight. *)
Fixpoint weight_hashes (perturbation : Z) (id : bytes) (weight : nat) : list Z :=
  match weight with
  | O => []
  | S w => burtleCI (id ++ bs "-" ++ decimal (Z.of_nat weight)) perturbation :: weight_hashes perturbation id w
  end.

Fixpoint sort_insert (x : Z) (l : list Z) : list Z :=
  match l with [] => [x] | y :: l' => if x <=? y then x :: l else y :: sort_insert x l' end.
Definition sort_numbers (l : list Z) : list Z := foldr sort_insert [] l.

Definition ds_hash {S} (perturbation : Z) (d : DownstreamState S) : DownstreamState S :=
  mkDS (d_config d) (health d) (inflight d)
    (sort_numbers (weight_hashes perturbation (dc_id (d_config d)) (Z.to_nat (dc_weight (d_config d))))) true (d_qpsLimiter d).

Definition rehash {S} (perturbation : Z) (d : DownstreamState S) : DownstreamState S := if hashesComputed d then ds_hash perturbation d else d.

Definition setId {S} (perturbation : Z) (id : bytes) (d : DownstreamState S) : DownstreamState S :=
  let c := d_config d in
  rehash perturbation (ds_set_config (bc_set (dc_availability c) (dc_healthCheckMode c) (dc_weight c) id c) d).

Definition setWeight {S} (perturbation : Z) (newWeight : Z) (d : DownstreamState S) : DownstreamState S :=
  let c := d_config d in
  if newWeight <? 1 then d
  else rehash perturbation (ds_set_config (bc_set (dc_availability c) (dc_healthCheckMode c) newWeight (dc_id c) c) d).

(** ** Health checks *)

Definition lazy_results (c : BackendConfig) : bool :=
  bool_decide (dc_availability c = AvailAuto) && bool_decide (dc_healthCheckMode c = CheckLazy) && (0 <? dc_lazyHealthCheckSampleSize c).

(** The constructor, without the connection; [id] is the one of the configuration or a
    new one. *)
Definition ds_make {S} (c : BackendConfig) (now : timespec) : DownstreamState S :=
  let h := mkHealth false false 0 0 0 (mkLazy 0 [] 0 Healthy) 0 (dbl 0) (dbl 0) in
  let h := if lazy_results c then h_setUpStatus true (h_set_lazy (lz_set_capacity (dc_lazyHealthCheckSampleSize c) (lazyStats h)) h) else h in
  mkDS c h (mkInflight 0 0 0 [] ∅ []) [] false (if 0 <? dc_qpsLimit c then Some (limiter_make (dc_qpsLimit c) (dc_qpsLimit c) now) else None).

Definition report {S} (failure : bool) (d : DownstreamState S) : DownstreamState S :=
  if lazy_results (d_config d) then ds_set_health (h_set_lazy (lz_push failure (lazyStats (health d))) (health d)) d else d.

Definition ServFail : Z := 2.

Definition reportResponse {S} (rcode : Z) (d : DownstreamState S) : DownstreamState S :=
  report (match dc_lazyHealthCheckMode (d_config d) with TimeoutOrServFail => rcode =? ServFail | TimeoutOnly => false end) d.

Definition reportTimeoutOrError {S} (d : DownstreamState S) : DownstreamState S := report true d.

(** [ExponentialBackOffTimer::get]; the argument is a [size_t]. *)
Definition backOff_get (maxBackOff consecutiveFailures : Z) : Z :=
  if consecutiveFailures <=? 31 then Z.min maxBackOff (Z.shiftl 1 consecutiveFailures) else maxBackOff.

Definition TIME_MAX : Z := 2 ^ 63 - 1.

(** The back-off after failures, in seconds.  [failedTests - 1] is converted to
    [size_t]. *)
Definition backOff (c : BackendConfig) (failedTests now : Z) : Z :=
  let interval := dc_lazyHealthCheckFailedInterval c in
  let maxBackOff := dc_lazyHealthCheckMaxBackOff c in
  let backOffCoeff := backOff_get maxBackOff ((failedTests - 1) mod 2 ^ 64) in
  if backOffCoeff <=? TIME_MAX / interval then
    let backOff := interval * backOffCoeff in
    if (maxBackOff <? backOff) || (TIME_MAX - now <=? backOff) then maxBackOff else backOff
  else maxBackOff.

(** [updateNextLazyHealthCheck]; [now] is [*currentTime] or what the clock says. *)
Definition updateNextLazyHealthCheck (c : BackendConfig) (h : Health) (checkScheduled : bool) (now : Z) : Health :=
  let stats := lazyStats h in
  let next :=
    if dc_lazyHealthCheckUseExponentialBackOff c then
      if bool_decide (lz_status stats = PotentialFailure) then now + dc_checkInterval c
      else if 0 <? consecutiveSuccessfulChecks h then now + dc_lazyHealthCheckFailedInterval c
      else
        let failedTests := if checkScheduled then u16 (currentCheckFailures h + 1) else currentCheckFailures h in
        now + backOff c failedTests now
    else now + dc_lazyHealthCheckFailedInterval c in
  h_set_lazy (lz_set_next next stats) h.

(** The rate of failures has reached the threshold.  The quotient of doubles is
    compared with a small integer; rounding is monotone and keeps integers, so the
    comparison is that of the exact quotient, and [false] for the quotient of zeroes. *)
Definition threshold_reached (c : BackendConfig) (results : list bool) : bool :=
  let totalCount := zlen results in
  let failures := zlen (List.filter id results) in
  (0 <? totalCount) && (dc_lazyHealthCheckThreshold c * totalCount <=? 100 * failures).

(** [healthCheckRequired]; [clock] is what [time(nullptr)] returns. *)
Definition healthCheckRequired {S} (currentTime : option Z) (clock : Z) (d : DownstreamState S) : DownstreamState S * bool :=
  let c := d_config d in
  let h := health d in
  let stats := lazyStats h in
  if negb (bool_decide (dc_availability c = AvailAuto)) then (d, false)
  else match dc_healthCheckMode c with
       | CheckLazy =>
           match lz_status stats with
           | PotentialFailure => (d, true)
           | Failed =>
               let now := default clock currentTime in
               if lz_nextCheck stats <=? now then (ds_set_health (updateNextLazyHealthCheck c h true now) d, true) else (d, false)
           | Healthy =>
               if zlen (lz_lastResults stats) <? dc_lazyHealthCheckMinSampleCount c then (d, false)
               else if threshold_reached c (lz_lastResults stats) then
                 let h := h_set_successes 0 (h_set_lazy (lz_set_status PotentialFailure (lz_clear stats)) h) in
                 (ds_set_health (updateNextLazyHealthCheck c h true clock) d, true)
               else (d, false)
           end
       | CheckActive =>
           if 1 <? hc_nextCheck h then (ds_set_health (h_set_nextCheck (hc_nextCheck h - 1) h) d, false)
           else (ds_set_health (h_set_nextCheck (dc_checkInterval c) h) d, true)
       end.

Definition getNextLazyHealthCheck {S} (d : DownstreamState S) : Z := lz_nextCheck (lazyStats (health d)).

(** A check succeeded, or failed: the counters, the state of lazy checks, and whether
    the backend is to be up. *)
Definition check_succeeded (c : BackendConfig) (clock : Z) (h : Health) : Health * bool :=
  let h := h_set_successes (u8 (consecutiveSuccessfulChecks h + 1)) (h_set_failures 0 h) in
  if negb (upStatus h) && (consecutiveSuccessfulChecks h <? dc_minRiseSuccesses c) then
    (match dc_healthCheckMode c with CheckLazy => updateNextLazyHealthCheck c h false clock | CheckActive => h end, false)
  else
    (match dc_healthCheckMode c with CheckLazy => h_set_lazy (lz_clear (lz_set_status Healthy (lazyStats h))) h | CheckActive => h end, true).

Definition check_failed (c : BackendConfig) (clock : Z) (h : Health) : Health * bool :=
  let h := h_set_failures (u16 (currentCheckFailures h + 1)) (h_set_successes 0 h) in
  if upStatus h then
    if currentCheckFailures h <? dc_maxCheckFailures c then (h, true)
    else
      (match dc_healthCheckMode c with
       | CheckLazy => updateNextLazyHealthCheck c (h_set_failures 1 (h_set_lazy (lz_set_status Failed (lazyStats h)) h)) false clock
       | CheckActive => h
       end, false)
  else (h, false).

(** [submitHealthCheckResult]; [reconnect] is what the sockets would answer: the value
    returned, and whether they are connected after it. *)
Definition submitHealthCheckResult {S} (initial newResult : bool) (clock : Z) (reconnect : bool * bool) (d : DownstreamState S) : DownstreamState S :=
  let c := d_config d in
  let h := if newResult then health d else h_count_failure (health d) in
  if initial then
    let h := h_setUpStatus newResult h in
    ds_set_health
      (if newResult then h
       else
         let h := h_set_failures (u16 (currentCheckFailures h + 1)) h in
         match dc_healthCheckMode c with
         | CheckLazy => updateNextLazyHealthCheck c (h_set_lazy (lz_set_status Failed (lazyStats h)) h) false clock
         | CheckActive => h
         end) d
  else
    let '(h, newState) := if newResult then check_succeeded c clock h else check_failed c clock h in
    if Bool.eqb newState (upStatus h) then ds_set_health h d
    else
      let '(h, newState) :=
        if newState && negb (isTCPOnly c) && (negb (connected h) || dc_reconnectOnUp c)
        then (h_set_connected (snd reconnect) h, fst reconnect) else (h, newState) in
      ds_set_health (h_setUpStatus newState h) d.

(** ** Queries in flight *)

Section states.
Context {S : Type}.

(** The states of a backend whose sockets are connected. *)
Definition connect_states (randomizeIDs : bool) (maxUDPOutstanding : Z) (d : DownstreamState S) : DownstreamState S :=
  let i := inflight d in
  let n := if 0 <? dc_maxUDPOutstanding (d_config d) then dc_maxUDPOutstanding (d_config d) else maxUDPOutstanding in
  let states :=
    if randomizeIDs then []
    else ztake n (idStates i) ++ replicate (Z.to_nat (n - zlen (idStates i))) (mkIDS false 0 None) in
  ds_set_inflight (mkInflight (outstanding i) (reuseds i) (idOffset i) states (idStatesMap i) (lost_states i)) d.

(** A state is lost, if there is one; it is counted in any case. *)
Definition lose (l : option (lost S)) (i : Inflight S) : Inflight S :=
  mkInflight (outstanding i) (reuseds i + 1) (idOffset i) (idStates i) (idStatesMap i) (lost_states i ++ option_list l).

Definition set_outstanding (n : Z) (i : Inflight S) : Inflight S :=
  mkInflight n (reuseds i) (idOffset i) (idStates i) (idStatesMap i) (lost_states i).
Definition set_id_map (m : gmap Z (IDState S)) (i : Inflight S) : Inflight S :=
  mkInflight (outstanding i) (reuseds i) (idOffset i) (idStates i) m (lost_states i).
Definition set_states (l : list (IDState S)) (i : Inflight S) : Inflight S :=
  mkInflight (outstanding i) (reuseds i) (idOffset i) l (idStatesMap i) (lost_states i).
Definition next_offset (i : Inflight S) : Inflight S :=
  mkInflight (outstanding i) (reuseds i) ((idOffset i + 1) mod 2 ^ 64) (idStates i) (idStatesMap i) (lost_states i).

(** The loop over random ids: [draw k] is the [k]-th number drawn. *)
Fixpoint save_random (remainingAttempts : nat) (draw : nat -> Z) (state : S) (i : Inflight S) : Inflight S * Z :=
  match remainingAttempts with
  | O => (i, 0)
  | Datatypes.S remaining =>
      let selectedID := draw O in
      match idStatesMap i !! selectedID with
      | None => (set_id_map (<[selectedID := mkIDS false 0 (Some state)]> (idStatesMap i)) (set_outstanding (outstanding i + 1) i), selectedID)
      | Some ids =>
          match remaining with
          | O => (set_id_map (<[selectedID := mkIDS (ids_inUse ids) 0 (Some state)]> (idStatesMap i)) (lose (LostReused <$> ids_internal ids) i), selectedID)
          | _ => save_random remaining (fun k => draw (Datatypes.S k)) state i
          end
      end
  end.

(** By index: one thread always acquires the state. *)
Definition save_next (state : S) (i : Inflight S) : Inflight S * Z :=
  let selectedID := u16 (idOffset i mod zlen (idStates i)) in
  let i := next_offset i in
  match idStates i !! Z.to_nat selectedID with
  | None => (i, selectedID)
  | Some ids =>
      let i := if ids_inUse ids then lose (LostReused <$> ids_internal ids) i else set_outstanding (outstanding i + 1) i in
      (set_states (<[Z.to_nat selectedID := mkIDS true 0 (Some state)]> (idStates i)) i, selectedID)
  end.

Definition saveState (randomizeIDs : bool) (draw : nat -> Z) (state : S) (i : Inflight S) : Inflight S * Z :=
  if randomizeIDs then save_random 5 draw state i else save_next state i.

Definition restoreState (randomizeIDs : bool) (id : Z) (state : S) (i : Inflight S) : Inflight S * result unit :=
  if randomizeIDs then
    match idStatesMap i !! id with
    | Some _ => (lose (Some (LostTimeout state)) i, Ok tt)
    | None => (set_outstanding (outstanding i + 1) (set_id_map (<[id := mkIDS false 0 (Some state)]> (idStatesMap i)) i), Ok tt)
    end
  else
    match idStates i !! Z.to_nat id with
    | None => (i, Throw (out_of_range "vector::_M_range_check"))
    | Some ids =>
        if ids_inUse ids then (lose (Some (LostTimeout state)) i, Ok tt)
        else (set_outstanding (outstanding i + 1) (set_states (<[Z.to_nat id := mkIDS true (ids_age ids) (Some state)]> (idStates i)) i), Ok tt)
    end.

Definition getState (randomizeIDs : bool) (id : Z) (i : Inflight S) : Inflight S * option S :=
  if randomizeIDs then
    match idStatesMap i !! id with
    | None => (i, None)
    | Some ids => (set_outstanding (outstanding i - 1) (set_id_map (delete id (idStatesMap i)) i), ids_internal ids)
    end
  else
    match idStates i !! Z.to_nat id with
    | None => (i, None)
    | Some ids =>
        let states := <[Z.to_nat id := mkIDS false (ids_age ids) (if ids_inUse ids then None else ids_internal ids)]> (idStates i) in
        if ids_inUse ids then (set_outstanding (outstanding i - 1) (set_states states i), ids_internal ids)
        else (set_states states i, None)
    end.

Definition isIDSExpired (ids : IDState S) (udpTimeout : Z) : bool := udpTimeout <? ids_age ids.

(** [handleUDPTimeout], without the rings of the last responses; [rule] tells whether a
    rule for timeouts takes the query. *)
Definition handleUDPTimeout (rule : S -> bool) (ids : IDState S) (d : DownstreamState S) : DownstreamState S :=
  let i := lose ((fun s => if rule s then LostToRule s else LostTimeout s) <$> ids_internal ids) (inflight d) in
  reportTimeoutOrError (ds_set_inflight (set_outstanding (outstanding i - 1) i) d).

Definition older (ids : IDState S) : IDState S := mkIDS (ids_inUse ids) (u16 (ids_age ids + 1)) (ids_internal ids).

(** The loop over the ids of the map, in their order. *)
Fixpoint timeouts_map (rule : S -> bool) (udpTimeout : Z) (keys : list Z) (d : DownstreamState S) : DownstreamState S :=
  match keys with
  | [] => d
  | k :: keys =>
      match idStatesMap (inflight d) !! k with
      | None => timeouts_map rule udpTimeout keys d
      | Some ids =>
          let set m d := ds_set_inflight (set_id_map m (inflight d)) d in
          timeouts_map rule udpTimeout keys
            (if isIDSExpired ids udpTimeout
             then let d := handleUDPTimeout rule ids d in set (delete k (idStatesMap (inflight d))) d
             else set (<[k := older ids]> (idStatesMap (inflight d))) d)
      end
  end.

(** The loop over the indices. *)
Fixpoint timeouts_states (rule : S -> bool) (udpTimeout : Z) (k n : nat) (d : DownstreamState S) : DownstreamState S :=
  match n with
  | O => d
  | Datatypes.S n =>
      let set ids d := ds_set_inflight (set_states (<[k := ids]> (idStates (inflight d))) (inflight d)) d in
      timeouts_states rule udpTimeout (Datatypes.S k) n
        match idStates (inflight d) !! k with
        | None => d
        | Some ids =>
            if negb (ids_inUse ids) then d
            else if negb (isIDSExpired ids udpTimeout) then set (older ids) d
            else set (mkIDS false 0 None) (handleUDPTimeout rule ids d)
        end
  end.

Definition handleUDPTimeouts (randomizeIDs : bool) (defaultTimeout : Z) (rule : S -> bool) (d : DownstreamState S) : DownstreamState S :=
  if negb (is_DoUDP (d_config d)) then d
  else
    let udpTimeout := if 0 <? dc_udpTimeout (d_config d) then dc_udpTimeout (d_config d) else defaultTimeout in
    if randomizeIDs then timeouts_map rule udpTimeout (sort_numbers (elements (dom (idStatesMap (inflight d))))) d
    else if 0 <? outstanding (inflight d) then timeouts_states rule udpTimeout 0 (length (idStates (inflight d))) d
    else d.
End states.
