(* ===== verification/DnsdistBackendSpec.v ===== *)
(** * What backends of dnsdist guarantee

    When a backend goes up and down, when it is checked, and what becomes of the queries
    sent to it. *)

From stdpp Require Import gmap.
From S2P Require Import Prelude Chars DnsdistBackend.

#[local] Open Scope Z_scope.

(** ** Up and down *)

(** Results of checks, the newest first: how many of the last ones are [r]. *)
Fixpoint run_length (r : bool) (h : list bool) : Z :=
  match h with [] => 0 | x :: h => if Bool.eqb x r then 1 + run_length r h else 0 end.

(** The specification: a backend that is up goes down at the check that makes the
    number of failures in a row reach the maximum; one that is down goes up at the
    check that makes the number of successes in a row reach the minimum. *)
Fixpoint up_after (start : bool) (maxFailures minRise : Z) (h : list bool) : bool :=
  match h with
  | [] => start
  | r :: rest =>
      if up_after start maxFailures minRise rest then r || (run_length false h <? maxFailures)
      else r && (minRise <=? run_length true h)
  end.

Lemma run_length_nonneg r h : 0 <= run_length r h.
Proof. induction h as [|x h IH]; cbn [run_length]; [done|]. destruct (Bool.eqb x r); lia. Qed.

Section health.
Context {S : Type}.
#[local] Abbreviation ds := (DownstreamState S).

(** Results of checks as they come in, each with the time and what the sockets do. *)
Record check_result : Type := mkCheck { ck_result : bool; ck_clock : Z; ck_reconnect : bool * bool }.

Definition submit (c : check_result) (d : ds) : ds := submitHealthCheckResult false (ck_result c) (ck_clock c) (ck_reconnect c) d.

(** The checks, the newest first. *)
Definition submitted (cs : list check_result) (d : ds) : ds := foldr submit d cs.

(** What the updates of lazy checks leave alone. *)
Lemma updateNext_health c h b t :
  let h' := updateNextLazyHealthCheck c h b t in
  upStatus h' = upStatus h /\ currentCheckFailures h' = currentCheckFailures h /\ consecutiveSuccessfulChecks h' = consecutiveSuccessfulChecks h
  /\ connected h' = connected h.
Proof. done. Qed.

Lemma submit_config c d : d_config (submit c d) = d_config d.
Proof.
  unfold submit, submitHealthCheckResult. cbv zeta. destruct (if ck_result c then _ else _) as [h n].
  destruct (Bool.eqb n (upStatus h)); [done|]. by destruct (n && _ && _).
Qed.

(** One check, when sockets that are needed can be connected. *)
Lemma submit_counts c d :
  fst (ck_reconnect c) = true -> 0 <= dc_minRiseSuccesses (d_config d) < 256 -> 
  let h := health d in
  let h' := health (submit c d) in
  if ck_result c then
    consecutiveSuccessfulChecks h' = u8 (consecutiveSuccessfulChecks h + 1) /\ currentCheckFailures h' = 0
    /\ upStatus h' = upStatus h || (dc_minRiseSuccesses (d_config d) <=? u8 (consecutiveSuccessfulChecks h + 1))
  else
    consecutiveSuccessfulChecks h' = 0
    /\ upStatus h' = upStatus h && (u16 (currentCheckFailures h + 1) <? dc_maxCheckFailures (d_config d))
    /\ (upStatus h' = true -> currentCheckFailures h' = u16 (currentCheckFailures h + 1)).
Proof.
  intros Hr Hm h h'. subst h'. unfold submit, submitHealthCheckResult. cbv zeta. fold h. destruct (ck_result c).
  - unfold check_succeeded. cbn [consecutiveSuccessfulChecks upStatus h_set_successes h_set_failures].
    destruct (upStatus h) eqn:Eu; cbn [negb andb].
    + destruct (dc_healthCheckMode (d_config d)); cbn; rewrite Eu; cbn; by rewrite ?Eu.
    + destruct (Z.ltb_spec (u8 (consecutiveSuccessfulChecks h + 1)) (dc_minRiseSuccesses (d_config d))) as [Hlt|Hge].
      * rewrite (proj2 (Z.leb_gt _ _)) by lia. destruct (dc_healthCheckMode (d_config d)); cbn; rewrite Eu; cbn; by rewrite ?Eu.
      * rewrite (proj2 (Z.leb_le _ _)) by lia. destruct (dc_healthCheckMode (d_config d)); cbn; rewrite Eu; cbn;
          destruct (negb (isTCPOnly _) && _); cbn; by rewrite ?Hr.
  - unfold check_failed. cbn [currentCheckFailures upStatus h_set_successes h_set_failures h_count_failure].
    destruct (upStatus h) eqn:Eu; [|cbn; rewrite Eu; cbn; by rewrite ?Eu].
    destruct (Z.ltb_spec (u16 (currentCheckFailures h + 1)) (dc_maxCheckFailures (d_config d))) as [Hlt|Hge]; [cbn; rewrite Eu; cbn; by rewrite ?Eu|].
    destruct (dc_healthCheckMode (d_config d)); cbn; rewrite Eu; cbn; by rewrite ?Eu.
Qed.

(** The counters of eight and sixteen bits never mislead: a count that matters is
    below its limit. *)
Lemma submitted_counts cs d :
  let M := dc_maxCheckFailures (d_config d) in
  let m := dc_minRiseSuccesses (d_config d) in
  0 <= m < 256 -> 0 <= M < 256 -> Forall (fun c => fst (ck_reconnect c) = true) cs ->
  consecutiveSuccessfulChecks (health d) = 0 -> (upStatus (health d) = true -> currentCheckFailures (health d) = 0) ->
  let h := map ck_result cs in
  let s := health (submitted cs d) in
  d_config (submitted cs d) = d_config d
  /\ upStatus s = up_after (upStatus (health d)) M m h
  /\ consecutiveSuccessfulChecks s = u8 (run_length true h)
  /\ (upStatus s = true -> currentCheckFailures s = run_length false h /\ (run_length false h < M \/ run_length false h = 0))
  /\ (upStatus s = false -> run_length true h < m \/ run_length true h = 0).
Proof.
  intros M m Hm HM Hcs Hs Hf. induction Hcs as [|c cs Hc _ IH]; cbv zeta in *; [cbn; split_and!; try done; auto|].
  destruct IH as (Ec & IH1 & IH2 & IH3 & IH4). change (submitted (c :: cs) d) with (submit c (submitted cs d)).
  set (h := map ck_result cs) in *. rewrite submit_config. split; [done|].
  pose proof (submit_counts c (submitted cs d) Hc) as H. rewrite Ec in H. specialize (H Hm). cbv zeta in H. fold M m in H.
  pose proof (run_length_nonneg true h) as P1. pose proof (run_length_nonneg false h) as P2.
  change (map ck_result (c :: cs)) with (ck_result c :: h). cbn [up_after]. rewrite <- IH1.
  destruct (ck_result c); cbn [run_length Bool.eqb orb andb].
  - destruct H as (H1 & H2 & H3). rewrite H1, H2, H3, IH2. unfold u8. rewrite Zplus_mod_idemp_l, (Z.add_comm _ 1).
    split_and!; [|done|auto|].
    + destruct (upStatus (health (submitted cs d))) eqn:Eu; [done|]. cbn. specialize (IH4 eq_refl). rewrite Z.mod_small by lia. done.
    + destruct (upStatus (health (submitted cs d))) eqn:Eu; [done|]. cbn. specialize (IH4 eq_refl). rewrite Z.mod_small by lia.
      intros ?%Z.leb_gt. lia.
  - destruct H as (H1 & H2 & H3). rewrite H1, H2. split_and!; [|done| |auto].
    + destruct (upStatus (health (submitted cs d))) eqn:Eu; [|done]. cbn. destruct (IH3 eq_refl) as [-> Hlt]. unfold u16.
      rewrite Z.mod_small by lia. by rewrite Z.add_comm.
    + intros [Hup Hlt]%andb_prop. rewrite H2, Hup, Hlt in H3. specialize (H3 eq_refl). destruct (IH3 Hup) as [E Hr]. rewrite H3, E in *.
      apply Z.ltb_lt in Hlt. unfold u16 in *. rewrite Z.mod_small in * by lia. lia.
Qed.

(** C21: a backend goes down and up as documented. Whatever the checks, their times and the
    mode, as long as sockets can be connected: the backend is up exactly when the
    specification says so, for limits of one byte and counters that may have wrapped
    around. *)
Theorem health_hysteresis cs d :
  0 <= dc_minRiseSuccesses (d_config d) < 256 -> 0 <= dc_maxCheckFailures (d_config d) < 256 -> Forall (fun c => fst (ck_reconnect c) = true) cs ->
  consecutiveSuccessfulChecks (health d) = 0 -> (upStatus (health d) = true -> currentCheckFailures (health d) = 0) ->
  upStatus (health (submitted cs d))
  = up_after (upStatus (health d)) (dc_maxCheckFailures (d_config d)) (dc_minRiseSuccesses (d_config d)) (map ck_result cs).
Proof. intros Hm HM Hcs Hs Hf. apply (submitted_counts cs d Hm HM Hcs Hs Hf). Qed.
End health.

(** ** Lazy checks *)

(** The wait after failures doubles up to the maximum. *)
Lemma backOff_exact c failedTests now :
  0 < dc_lazyHealthCheckFailedInterval c < 65536 -> 0 <= dc_lazyHealthCheckMaxBackOff c < 65536 -> 1 <= failedTests < 65536 ->
  now <= TIME_MAX - 2 ^ 32 ->
  backOff c failedTests now = Z.min (dc_lazyHealthCheckMaxBackOff c) (dc_lazyHealthCheckFailedInterval c * 2 ^ (failedTests - 1)).
Proof.
  intros Hi Hm Hf Hn. unfold backOff. cbv zeta. set (iv := dc_lazyHealthCheckFailedInterval c) in *. set (mx := dc_lazyHealthCheckMaxBackOff c) in *.
  rewrite (Z.mod_small (failedTests - 1)) by lia. unfold backOff_get.
  assert (65536 <= TIME_MAX / iv) as Hq by (apply Z.div_le_lower_bound; [lia|]; unfold TIME_MAX; lia).
  assert (0 < 2 ^ (failedTests - 1)) as Hpos by (apply Z.pow_pos_nonneg; lia).
  assert (forall k, 0 <= k <= mx -> (k = mx \/ k = 2 ^ (failedTests - 1)) -> mx <= 2 ^ (failedTests - 1) \/ k = 2 ^ (failedTests - 1) ->
    (if k <=? TIME_MAX / iv then if (mx <? iv * k) || (TIME_MAX - now <=? iv * k) then mx else iv * k else mx) = Z.min mx (iv * 2 ^ (failedTests - 1))) as Hk.
  { intros k Hk Hor Hbig. rewrite (proj2 (Z.leb_le _ _)) by lia. rewrite (proj2 (Z.leb_gt (TIME_MAX - now) (iv * k))) by nia. rewrite orb_false_r.
    destruct (Z.ltb_spec mx (iv * k)) as [H|H]; destruct Hor as [->| ->]; nia. }
  destruct (Z.leb_spec (failedTests - 1) 31) as [H31|H31].
  - rewrite Z.shiftl_mul_pow2, Z.mul_1_l by lia. apply Hk; lia.
  - assert (2 ^ 31 <= 2 ^ (failedTests - 1)) by (apply Z.pow_le_mono_r; lia). apply Hk; lia.
Qed.

Lemma backOff_le c failedTests now : backOff c failedTests now <= dc_lazyHealthCheckMaxBackOff c.
Proof.
  unfold backOff. cbv zeta. destruct (_ <=? _); [|done].
  destruct (Z.ltb_spec (dc_lazyHealthCheckMaxBackOff c)
    (dc_lazyHealthCheckFailedInterval c * backOff_get (dc_lazyHealthCheckMaxBackOff c) ((failedTests - 1) mod 2 ^ 64))); cbn; [done|].
  destruct (_ <=? _); lia.
Qed.

Section lazy.
Context {S : Type} (c : BackendConfig).
Context (Hlazy : lazy_results c = true) (Hm : 0 <= dc_minRiseSuccesses c < 256).
#[local] Abbreviation ds := (DownstreamState S).

(** The configuration with what the operators of the backend change. *)
Definition variant (a : Availability) (weight : Z) (id : bytes) : BackendConfig := bc_set a CheckLazy weight id c.

(** What happens to a backend with lazy checks up to a time: the check at the start,
    responses and timeouts, questions whether a check is due, results of checks, for
    which sockets can be connected; it is switched up, down and back to automatic, told
    to be up, given another weight or id, and whatever changes neither its health nor
    its settings.  A backend that was checked actively may be switched to lazy checks
    at any time at which it is up. *)
Inductive lazy_run : ds -> Z -> Prop :=
| lazy_start now t : lazy_run (ds_make c now) t
| lazy_initial now r t rc : lazy_run (submitHealthCheckResult true r t rc (ds_make c now)) t
| lazy_response d t rcode : lazy_run d t -> lazy_run (reportResponse rcode d) t
| lazy_timeout d t : lazy_run d t -> lazy_run (reportTimeoutOrError d) t
| lazy_required d t t' : lazy_run d t -> t <= t' -> lazy_run (fst (healthCheckRequired (Some t') t' d)) t'
| lazy_submit d t k : lazy_run d t -> t <= ck_clock k -> fst (ck_reconnect k) = true -> lazy_run (submit k d) (ck_clock k)
| lazy_setUp d t : lazy_run d t -> lazy_run (setUp d) t
| lazy_setDown d t : lazy_run d t -> lazy_run (setDown d) t
| lazy_setAuto d t : lazy_run d t -> lazy_run (setAuto d) t
| lazy_setLazyAuto d t : lazy_run d t -> lazy_run (setLazyAuto d) t
| lazy_forced_up d t : lazy_run d t -> lazy_run (setUpStatus true d) t
| lazy_setWeight d t perturbation weight : lazy_run d t -> lazy_run (setWeight perturbation weight d) t
| lazy_setId d t perturbation id : lazy_run d t -> lazy_run (setId perturbation id d) t
| lazy_other d d' t : lazy_run d t -> d_config d' = d_config d -> health d' = health d -> lazy_run d' t
| lazy_switched d t a m weight id :
    d_config d = bc_set a m weight id c -> upStatus (health d) = true -> 0 <= consecutiveSuccessfulChecks (health d) ->
    lazy_run (setLazyAuto d) t.

Definition longest_wait : Z := Z.max (dc_lazyHealthCheckFailedInterval c) (dc_lazyHealthCheckMaxBackOff c).

Record lazy_ok (d : ds) (t : Z) : Prop := {
  lo_config : exists a weight id, d_config d = variant a weight id;
  lo_status : upStatus (health d) = false -> lz_status (lazyStats (health d)) = Failed;
  lo_next : upStatus (health d) = false -> getNextLazyHealthCheck d <= t + longest_wait;
  lo_successes : 0 <= consecutiveSuccessfulChecks (health d) /\ (upStatus (health d) = false -> consecutiveSuccessfulChecks (health d) < Z.max 1 (dc_minRiseSuccesses c));
}.

Lemma lazy_mode : dc_availability c = AvailAuto /\ dc_healthCheckMode c = CheckLazy /\ 0 < dc_lazyHealthCheckSampleSize c.
Proof.
  unfold lazy_results in Hlazy. apply andb_prop in Hlazy as [[H1%bool_decide_eq_true H2%bool_decide_eq_true]%andb_prop H3%Z.ltb_lt]. done.
Qed.

Lemma variant_c : variant AvailAuto (dc_weight c) (dc_id c) = c.
Proof. destruct lazy_mode as (Ha & Hm' & _). unfold variant, bc_set. destruct c; simpl in *. by subst. Qed.

(** The time of the next check in the failed state. *)
Lemma next_check_bound a weight id h b t :
  lz_status (lazyStats h) = Failed -> lz_nextCheck (lazyStats (updateNextLazyHealthCheck (variant a weight id) h b t)) <= t + longest_wait.
Proof.
  intros Hs. unfold updateNextLazyHealthCheck, longest_wait. cbv zeta. cbn [lazyStats h_set_lazy lz_nextCheck lz_set_next]. rewrite Hs.
  rewrite bool_decide_eq_false_2 by done.
  pose proof (backOff_le (variant a weight id) (if b then u16 (currentCheckFailures h + 1) else currentCheckFailures h) t).
  cbn [variant bc_set dc_lazyHealthCheckUseExponentialBackOff dc_lazyHealthCheckFailedInterval dc_lazyHealthCheckMaxBackOff] in *.
  destruct (dc_lazyHealthCheckUseExponentialBackOff c); [destruct (0 <? _)|]; lia.
Qed.

(** Only the configuration changes, or the state is told to be up. *)
Lemma lazy_ok_config d d' t :
  lazy_ok d t -> (exists a weight id, d_config d' = variant a weight id) -> upStatus (health d') = upStatus (health d) ->
  lazyStats (health d') = lazyStats (health d) -> consecutiveSuccessfulChecks (health d') = consecutiveSuccessfulChecks (health d) -> lazy_ok d' t.
Proof.
  intros [H1 H2 H3 H4] Hc Hu Hl Hs. split; [done|by rewrite Hu, Hl| |by rewrite Hs, Hu]. unfold getNextLazyHealthCheck in *. by rewrite Hu, Hl.
Qed.

Lemma lazy_ok_up d t :
  (exists a weight id, d_config d = variant a weight id) -> upStatus (health d) = true -> 0 <= consecutiveSuccessfulChecks (health d) -> lazy_ok d t.
Proof. intros Hc Hu Hs. split; [done|by rewrite Hu..|]. by rewrite Hu. Qed.

Lemma report_ok b d t : lazy_ok d t -> lazy_ok (report b d) t.
Proof. intros [H1 H2 H3 H4]. unfold report. destruct (lazy_results (d_config d)); [|done]. by split. Qed.

Lemma required_ok d t t' : lazy_ok d t -> t <= t' -> lazy_ok (fst (healthCheckRequired (Some t') t' d)) t'.
Proof.
  intros Hd Ht. assert (lazy_ok d t') as Hd' by (destruct Hd; split; [done|done| |done]; intros Hu; pose proof (lo_next0 Hu); lia).
  destruct Hd as [(a & w & i & H1) H2 H3 H4]. unfold healthCheckRequired. cbv zeta. rewrite H1. cbn [variant bc_set dc_availability dc_healthCheckMode].
  destruct (bool_decide (a = AvailAuto)); [|done]. cbn [negb].
  destruct (lz_status (lazyStats (health d))) eqn:Es.
  - assert (upStatus (health d) = true) as Hu by (destruct (upStatus (health d)); [done|by specialize (H2 eq_refl)]).
    destruct (_ <? _); [done|]. destruct (threshold_reached _ _); [|done]. apply lazy_ok_up; [by exists a, w, i|done|cbn; lia].
  - done.
  - cbn [default id]. destruct (_ <=? _); [|done]. split; cbn; [by exists a, w, i|by rewrite Es| |done]. intros Hu.
    exact (next_check_bound a w i (health d) true t' Es).
Qed.

Lemma submit_lazy k d t :
  lazy_ok d t -> t <= ck_clock k -> fst (ck_reconnect k) = true ->
  let h := health (submit k d) in
  upStatus h = false -> lz_status (lazyStats h) = Failed /\ lz_nextCheck (lazyStats h) <= ck_clock k + longest_wait.
Proof.
  intros [(a & w & i & H1) H2 H3 _] Ht Hr.
  unfold submit, submitHealthCheckResult. cbv zeta. rewrite H1. unfold check_succeeded, check_failed.
  change (dc_healthCheckMode (variant a w i)) with CheckLazy. cbv iota.
  destruct (ck_result k); cbn [upStatus h_set_successes h_set_failures h_count_failure consecutiveSuccessfulChecks currentCheckFailures].
  - destruct (upStatus (health d)) eqn:Eu; cbn [negb andb]; [cbn; rewrite Eu; cbn; by rewrite Eu|].
    destruct (_ <? _); cbn [upStatus updateNextLazyHealthCheck h_set_lazy h_set_successes h_set_failures]; rewrite Eu; cbn [Bool.eqb].
    + cbn [health ds_set_health]. intros _. split; [cbn; by apply H2|]. apply next_check_bound. cbn. by apply H2.
    + destruct (true && _ && _); cbn; by rewrite ?Hr.
  - destruct (upStatus (health d)) eqn:Eu; [destruct (_ <? _)|].
    + cbn. rewrite Eu. cbn. by rewrite Eu.
    + cbn [upStatus updateNextLazyHealthCheck h_set_lazy h_set_successes h_set_failures h_count_failure]. rewrite Eu. cbn [Bool.eqb andb].
      cbn [health ds_set_health]. intros _. split; [done|]. cbn [lazyStats h_setUpStatus].
      apply (next_check_bound a w i (h_set_failures 1 (h_set_lazy (lz_set_status Failed (lazyStats (health d)))
        (h_set_failures (u16 (currentCheckFailures (health d) + 1)) (h_set_successes 0 (h_count_failure (health d)))))) false (ck_clock k)). done.
    + cbn. rewrite Eu. cbn. rewrite Eu. intros _. split; [by apply H2|]. specialize (H3 eq_refl). unfold getNextLazyHealthCheck in H3. lia.
Qed.

Lemma submit_ok k d t : lazy_ok d t -> t <= ck_clock k -> fst (ck_reconnect k) = true -> lazy_ok (submit k d) (ck_clock k).
Proof.
  intros Hd Ht Hr. pose proof (submit_lazy k d t Hd Ht Hr) as Hs. destruct Hd as [(a & w & i & H1) _ _ _].
  pose proof (submit_counts k d Hr) as Hc. rewrite H1 in Hc. specialize (Hc Hm). cbv zeta in Hc.
  split; [exists a, w, i; by rewrite submit_config|by intros Hu; apply Hs|by intros Hu; apply Hs|].
  change (dc_minRiseSuccesses (variant a w i)) with (dc_minRiseSuccesses c) in Hc.
  destruct (ck_result k).
  - destruct Hc as (E1 & _ & E3). rewrite E1, E3. split; [unfold u8; apply Z.mod_pos_bound; lia|]. intros [_ Hlt%Z.leb_gt]%orb_false_elim. lia.
  - destruct Hc as (E1 & _). rewrite E1. lia.
Qed.

Lemma lazy_run_ok d t : lazy_run d t -> lazy_ok d t.
Proof.
  destruct lazy_mode as (Hav & Hmode & Hsize).
  induction 1 as [now t|now r t rc|d t rcode _ IH|d t _ IH|d t t' _ IH Ht|d t k _ IH Ht Hr|d t _ IH|d t _ IH|d t _ IH|d t _ IH|d t _ IH
                 |d t pb w' _ IH|d t pb id' _ IH|d d' t _ IH Hcfg Hh|d t a m w i Hcfg Hup Hsucc].
  - unfold ds_make. rewrite Hlazy. apply lazy_ok_up; [|done|done]. exists AvailAuto, (dc_weight c), (dc_id c). by rewrite variant_c.
  - unfold ds_make. rewrite Hlazy. unfold submitHealthCheckResult. cbv zeta.
    assert (exists a w i, c = variant a w i) as Hv by (exists AvailAuto, (dc_weight c), (dc_id c); by rewrite variant_c).
    destruct r; [by apply lazy_ok_up|]. split; cbn; rewrite ?Hmode; cbn; try done; [|lia].
    intros _. pose proof (backOff_le c (u16 (0 + 1)) t). unfold longest_wait. destruct (dc_lazyHealthCheckUseExponentialBackOff c); [rewrite bool_decide_eq_false_2 by done|]; lia.
  - by apply report_ok.
  - by apply report_ok.
  - by eapply required_ok.
  - by eapply submit_ok.
  - eapply lazy_ok_config; [exact IH| |done..]. destruct IH as [(a & w & i & H1) _ _ _]. exists AvailUp, w, i. cbn. by rewrite H1.
  - eapply lazy_ok_config; [exact IH| |done..]. destruct IH as [(a & w & i & H1) _ _ _]. exists AvailDown, w, i. cbn. by rewrite H1.
  - eapply lazy_ok_config; [exact IH| |done..]. destruct IH as [(a & w & i & H1) _ _ _]. exists AvailAuto, w, i. cbn. by rewrite H1.
  - destruct IH as [(a & w & i & H1) H2 H3 H4]. split; [|done..]. exists AvailAuto, w, i. cbn. by rewrite H1.
  - destruct IH as [(a & w & i & H1) H2 H3 [H4 _]]. apply lazy_ok_up; [by exists a, w, i|done|done].
  - destruct IH as [(a & w & i & H1) H2 H3 H4]. unfold setWeight. destruct (w' <? 1); [by split; eauto|].
    unfold rehash. cbn [hashesComputed ds_set_config]. destruct (hashesComputed d); (split; [|done..]); exists a, w', i; cbn; by rewrite H1.
  - destruct IH as [(a & w & i & H1) H2 H3 H4]. unfold setId, rehash. cbn [hashesComputed ds_set_config].
    destruct (hashesComputed d); (split; [|done..]); exists a, w, id'; cbn; by rewrite H1.
  - eapply lazy_ok_config; [exact IH| |by rewrite Hh..]. rewrite Hcfg. by destruct IH.
  - apply lazy_ok_up; [|done|done]. exists AvailAuto, w, i. cbn. by rewrite Hcfg.
Qed.

(** Successes in a row bring a backend up. *)
Lemma successes_raise (cs : list check_result) (d : ds) :
  dc_minRiseSuccesses (d_config d) = dc_minRiseSuccesses c -> Forall (fun k => ck_result k = true /\ fst (ck_reconnect k) = true) cs ->
  upStatus (health d) = true
  \/ (0 <= consecutiveSuccessfulChecks (health d) < Z.max 1 (dc_minRiseSuccesses c) /\ 1 <= zlen cs
      /\ dc_minRiseSuccesses c <= consecutiveSuccessfulChecks (health d) + zlen cs) ->
  upStatus (health (submitted cs d)) = true.
Proof.
  intros Ec Hcs. revert d Ec. induction cs as [|k cs IH] using rev_ind; intros d Ec Hd; [destruct Hd as [|(_ & H & _)]; [done|by cbn in H]|].
  apply Forall_app in Hcs as [Hcs [Hk Hr]%Forall_singleton]. unfold submitted. rewrite foldr_app. cbn [foldr].
  pose proof (submit_counts k d Hr) as H. rewrite Ec, Hk in H. specialize (H Hm). cbv zeta in H. destruct H as (E1 & _ & E2).
  apply IH; [done|by rewrite submit_config|]. destruct Hd as [Hup|(Hs & _ & Hn)]; [left; by rewrite E2, Hup|].
  rewrite zlen_app in Hn. change (zlen [k]) with 1 in Hn. rewrite E2, E1. unfold u8. rewrite Z.mod_small by lia.
  destruct (Z.leb_spec (dc_minRiseSuccesses c) (consecutiveSuccessfulChecks (health d) + 1)); [left; by rewrite orb_true_r|]. right.
  pose proof (zlen_nonneg cs). lia.
Qed.

(** C39: a backend with lazy checks that is down is not given up, as long as sockets can
    be connected: when its availability is automatic, a check is due after the longest
    of the two waits at the latest, and as many checks in a row as are needed, all
    successful, bring it up.  Before that queries were answered or not, checks were
    made, and the backend may have been switched up, down and back, told to be up, and
    switched from active to lazy checks when it was up.  Switching a backend that is
    down to lazy checks is another matter ([lazy_switch_stops_checks]), as is telling
    it to be down. *)
Theorem lazy_recovers d t cs :
  lazy_run d t -> dc_availability (d_config d) = AvailAuto -> upStatus (health d) = false ->
  Forall (fun k => ck_result k = true /\ fst (ck_reconnect k) = true) cs -> Z.max 1 (dc_minRiseSuccesses c) <= zlen cs ->
  (forall t' clock, t + longest_wait <= t' -> snd (healthCheckRequired (Some t') clock d) = true)
  /\ upStatus (health (submitted cs d)) = true.
Proof.
  intros Hrun Hav Hdown Hcs Hlen. destruct (lazy_run_ok d t Hrun) as [(a & w & i & H1) H2 H3 [H4 H5]]. specialize (H3 Hdown). specialize (H5 Hdown). split.
  - intros t' clock Ht. unfold healthCheckRequired. cbv zeta. rewrite Hav, bool_decide_eq_true_2 by done. cbn [negb].
    rewrite H1. change (dc_healthCheckMode (variant a w i)) with CheckLazy. cbv iota. rewrite (H2 Hdown). cbn [default id].
    unfold getNextLazyHealthCheck in H3. by rewrite (proj2 (Z.leb_le _ _)) by lia.
  - apply successes_raise; [by rewrite H1|done|]. right. lia.
Qed.

(** a backend that is down and was checked actively so far has the status of a healthy
    one, and no results: after [setLazyAuto] no check is due, at any time, and as it
    gets no queries no results come. *)
Theorem lazy_switch_stops_checks (d : ds) :
  lz_status (lazyStats (health d)) = Healthy -> lz_lastResults (lazyStats (health d)) = [] -> 0 < dc_lazyHealthCheckMinSampleCount (d_config d) ->
  let d' := setLazyAuto d in upStatus (health d') = upStatus (health d) /\ forall now clock, healthCheckRequired now clock d' = (d', false).
Proof.
  intros Hs Hr Hmin. cbv zeta. split; [done|]. intros now clock. unfold healthCheckRequired, setLazyAuto. cbn. rewrite Hs, Hr.
  unfold ztake. rewrite take_nil. change (zlen []) with 0. by rewrite (proj2 (Z.ltb_lt _ _)).
Qed.

(** C40: a lost race with the sockets is for ever. When the check that would bring a
    backend up finds that its sockets cannot be connected, the backend stays down with
    the status of a healthy one, and is not checked again, whatever the time. *)
Theorem failed_reconnect_stops_checks (d : ds) t :
  d_config d = c -> upStatus (health d) = false -> connected (health d) = false -> isTCPOnly c = false -> 0 < dc_lazyHealthCheckMinSampleCount c ->
  dc_minRiseSuccesses c <= u8 (consecutiveSuccessfulChecks (health d) + 1) ->
  let d' := submitHealthCheckResult false true t (false, false) d in
  upStatus (health d') = false /\ forall now clock, healthCheckRequired now clock d' = (d', false).
Proof.
  intros H1 Hdown Hcon Htcp Hmin Hrise d'. destruct lazy_mode as (Hav & Hmode & _).
  assert (d_config d' = c /\ upStatus (health d') = false /\ lz_status (lazyStats (health d')) = Healthy /\ lz_lastResults (lazyStats (health d')) = []) as (E1 & E2 & E3 & E4).
  { unfold d', submitHealthCheckResult. cbv zeta. rewrite H1. unfold check_succeeded. rewrite Hmode.
    cbn [upStatus h_set_successes h_set_failures consecutiveSuccessfulChecks]. rewrite Hdown, (proj2 (Z.ltb_ge _ _)) by lia. cbn. rewrite Hdown. cbn.
    by rewrite Htcp, Hcon. }
  split; [done|]. intros now clock. unfold healthCheckRequired. cbv zeta. rewrite E1, Hav, Hmode, E3, E4.
  rewrite bool_decide_eq_true_2 by done. cbn [negb]. by rewrite (proj2 (Z.ltb_lt _ _)).
Qed.
End lazy.

(** ** Queries in flight *)

Lemma omap_replace {A B} (f : A -> option B) (l : list A) k x :
  l !! k = Some x ->
  exists rest, omap f l ≡ₚ option_list (f x) ++ rest /\ forall y, omap f (<[k := y]> l) ≡ₚ option_list (f y) ++ rest.
Proof.
  intros Hk. exists (omap f (take k l) ++ omap f (drop (Datatypes.S k) l)).
  assert (forall z, omap f (take k l ++ z :: drop (Datatypes.S k) l) ≡ₚ option_list (f z) ++ omap f (take k l) ++ omap f (drop (Datatypes.S k) l)) as H.
  { intros z. rewrite omap_app, Permutation_app_swap_app. apply Permutation_app_head. cbn. by destruct (f z). }
  split; [by rewrite <- H, take_drop_middle|]. intros y. rewrite insert_take_drop by (by eapply lookup_lt_Some). apply H.
Qed.

Lemma omap_map_insert {A B} (f : A -> option B) (m : gmap Z A) k y :
  omap (fun p => f (snd p)) (map_to_list (<[k := y]> m)) ≡ₚ option_list (f y) ++ omap (fun p => f (snd p)) (map_to_list (delete k m)).
Proof.
  rewrite <- insert_delete_eq, map_to_list_insert by apply lookup_delete_eq. cbn. by destruct (f y).
Qed.

Lemma omap_map_delete {A B} (f : A -> option B) (m : gmap Z A) k x :
  m !! k = Some x -> omap (fun p => f (snd p)) (map_to_list m) ≡ₚ option_list (f x) ++ omap (fun p => f (snd p)) (map_to_list (delete k m)).
Proof. intros Hk. by rewrite <- omap_map_insert, insert_id. Qed.

(** The side conditions of a change. *)
Ltac account :=
  try done; cbn -[Z.add Z.sub];
  first [done | by rewrite app_nil_r | by apply perm_swap | by right | by left; apply lookup_delete_eq | by rewrite lookup_insert_eq
        | by apply delete_insert_eq | by rewrite lookup_delete_eq | by apply delete_delete_eq | unfold zlen; cbn; lia | idtac].

Section flight.
Context {S : Type} (rnd : bool).
#[local] Abbreviation ds := (DownstreamState S).

(** The states of queries that wait for a response. *)
Definition in_use (ids : IDState S) : option S := if ids_inUse ids then ids_internal ids else None.
Definition held (i : Inflight S) : list S :=
  if rnd then omap (fun p => ids_internal (snd p)) (map_to_list (idStatesMap i)) else omap in_use (idStates i).

Definition lost_state (l : lost S) : S := match l with LostReused s | LostToRule s | LostTimeout s => s end.

(** [given]: the states stored so far, [returned]: those taken out for a response. *)
Record states_ok (i : Inflight S) (given returned : list S) : Prop := {
  ac_full : if rnd then map_Forall (fun _ ids => is_Some (ids_internal ids)) (idStatesMap i)
            else Forall (fun ids => ids_inUse ids = true -> is_Some (ids_internal ids)) (idStates i)
                 /\ 0 < zlen (idStates i) <= 65536 /\ 0 <= idOffset i;
  ac_outstanding : outstanding i = zlen (held i);
  ac_given : given ≡ₚ held i ++ returned ++ map lost_state (lost_states i);
  ac_lost : reuseds i = zlen (lost_states i);
}.

(** Changes at one place: [x] is what was there, [y] what is there now. *)
Lemma accounted_change i i' given returned rest x y (l : option (lost S)) (extra out : list S) :
  states_ok i given returned ->
  held i ≡ₚ option_list x ++ rest -> held i' ≡ₚ option_list y ++ rest ->
  option_list x ++ extra ≡ₚ option_list y ++ out ++ map lost_state (option_list l) ->
  outstanding i' = outstanding i + zlen (option_list y) - zlen (option_list x) ->
  lost_states i' = lost_states i ++ option_list l -> reuseds i' = reuseds i + zlen (option_list l) ->
  (if rnd then map_Forall (fun _ ids => is_Some (ids_internal ids)) (idStatesMap i')
   else Forall (fun ids => ids_inUse ids = true -> is_Some (ids_internal ids)) (idStates i')
        /\ 0 < zlen (idStates i') <= 65536 /\ 0 <= idOffset i') ->
  states_ok i' (given ++ extra) (returned ++ out).
Proof.
  intros [_ H2 H3 H4] Hx Hy Hxy Ho Hl Hr Hf. split; [done| | |by rewrite Hr, Hl, zlen_app, H4].
  - rewrite Ho, H2. unfold zlen. rewrite Hx, Hy, !length_app. lia.
  - rewrite H3, Hy, Hl, map_app. transitivity ((option_list x ++ extra) ++ rest ++ returned ++ map lost_state (lost_states i)).
    { rewrite Hx. rewrite (Permutation_app_comm _ extra), <- !app_assoc, (Permutation_app_swap_app extra). done. }
    rewrite Hxy, <- !app_assoc. apply Permutation_app_head. rewrite (app_assoc out), (app_assoc rest), Permutation_app_swap_app, <- !app_assoc.
    do 3 apply Permutation_app_head. apply Permutation_app_comm.
Qed.

(** A change of the state under an id. *)
Lemma map_change i i' given returned x y (l : option (lost S)) (extra out : list S) m' k :
  rnd = true -> states_ok i given returned -> idStatesMap i' = m' ->
  x = idStatesMap i !! k ≫= ids_internal -> y = m' !! k ≫= ids_internal -> delete k m' = delete k (idStatesMap i) ->
  (m' !! k = None \/ is_Some y) ->
  option_list x ++ extra ≡ₚ option_list y ++ out ++ map lost_state (option_list l) ->
  outstanding i' = outstanding i + zlen (option_list y) - zlen (option_list x) ->
  lost_states i' = lost_states i ++ option_list l -> reuseds i' = reuseds i + zlen (option_list l) ->
  states_ok i' (given ++ extra) (returned ++ out).
Proof.
  intros Er Hi Em -> -> Hd Hk Hp Ho Hl Hr.
  assert (forall m : gmap Z (IDState S), omap (fun p => ids_internal (snd p)) (map_to_list m)
    ≡ₚ option_list (m !! k ≫= ids_internal) ++ omap (fun p => ids_internal (snd p)) (map_to_list (delete k m))) as H.
  { intros m. destruct (m !! k) as [ids|] eqn:Ek; [by apply (omap_map_delete ids_internal)|]. by rewrite delete_id. }
  eapply (accounted_change i i' given returned); try done; unfold held; rewrite ?Er, ?Em; [apply H|rewrite <- Hd; apply H|].
  pose proof (ac_full _ _ _ Hi) as Hf. rewrite Er in Hf. apply map_Forall_lookup_2. intros j ids Hj. destruct (decide (j = k)) as [->|Hne].
  - rewrite Hj in Hk. by destruct Hk.
  - apply (map_Forall_lookup_1 _ _ j ids Hf). by rewrite <- (lookup_delete_ne _ k), <- Hd, lookup_delete_ne.
Qed.

Lemma map_state i given returned k ids :
  rnd = true -> states_ok i given returned -> idStatesMap i !! k = Some ids -> exists s, ids_internal ids = Some s.
Proof. intros Er Hi Hk. pose proof (ac_full _ _ _ Hi) as Hf. rewrite Er in Hf. by destruct (map_Forall_lookup_1 _ _ _ _ Hf Hk) as [s ?]; exists s. Qed.

Lemma save_random_ok n draw s i given returned :
  rnd = true -> states_ok i given returned -> states_ok (fst (save_random (Datatypes.S n) draw s i)) (given ++ [s]) returned.
Proof.
  intros Er Hi. revert draw. induction n as [|n IH]; intros draw; cbn [save_random]; destruct (idStatesMap i !! draw O) as [ids|] eqn:Ek; cbn [fst];
    [|rewrite <- (app_nil_r returned)|exact (IH (fun k => draw (Datatypes.S k)))|rewrite <- (app_nil_r returned)].
  - destruct (map_state _ _ _ _ _ Er Hi Ek) as [s' Es]. rewrite <- (app_nil_r returned).
    eapply (map_change i _ given returned (Some s') (Some s) (Some (LostReused s'))); account; [by rewrite Ek, <- Es|by rewrite Es].
  - eapply (map_change i _ given returned None (Some s) None); account; by rewrite Ek.
  - eapply (map_change i _ given returned None (Some s) None); account; by rewrite Ek.
Qed.

Lemma in_use_state i given returned k ids :
  rnd = false -> states_ok i given returned -> idStates i !! k = Some ids -> ids_inUse ids = true -> exists s, ids_internal ids = Some s.
Proof.
  intros Er Hi Hk Hu. pose proof (ac_full _ _ _ Hi) as Hf. rewrite Er in Hf. destruct Hf as [Hf _].
  rewrite Forall_lookup in Hf. destruct (Hf k ids Hk Hu) as [s ?]. by exists s.
Qed.

(** A change of the state at an index. *)
Lemma states_change i i' given returned k ids ids' (l : option (lost S)) (extra out : list S) :
  rnd = false -> states_ok i given returned -> idStates i !! k = Some ids -> idStates i' = <[k := ids']> (idStates i) -> 0 <= idOffset i' ->
  (ids_inUse ids' = true -> is_Some (ids_internal ids')) ->
  option_list (in_use ids) ++ extra ≡ₚ option_list (in_use ids') ++ out ++ map lost_state (option_list l) ->
  outstanding i' = outstanding i + zlen (option_list (in_use ids')) - zlen (option_list (in_use ids)) ->
  lost_states i' = lost_states i ++ option_list l -> reuseds i' = reuseds i + zlen (option_list l) ->
  states_ok i' (given ++ extra) (returned ++ out).
Proof.
  intros Er Hi Hk Hs Hoff Hf Hp Ho Hl Hr. destruct (omap_replace in_use _ _ _ Hk) as (rest & H1 & H2).
  eapply (accounted_change i i' given returned rest (in_use ids) (in_use ids') l); try done; unfold held; rewrite ?Er, ?Hs; [done|done|].
  pose proof (ac_full _ _ _ Hi) as Hfull. rewrite Er in Hfull. destruct Hfull as (Hall & Hsz & _). unfold zlen in *. rewrite length_insert.
  split; [by apply Forall_insert|done].
Qed.

Lemma save_next_ok s i given returned :
  rnd = false -> states_ok i given returned -> states_ok (fst (save_next s i)) (given ++ [s]) returned.
Proof.
  intros Er Hi. pose proof (ac_full _ _ _ Hi) as Hf. rewrite Er in Hf. destruct Hf as (_ & Hsz & Hoff). unfold save_next. cbv zeta.
  pose proof (Z.mod_pos_bound (idOffset i) (zlen (idStates i)) ltac:(lia)) as Hb.
  set (k := u16 (idOffset i mod zlen (idStates i))). assert (0 <= k < zlen (idStates i)) as Hk by (unfold k, u16; rewrite Z.mod_small by lia; lia).
  change (idStates (next_offset i)) with (idStates i). destruct (lookup_lt_is_Some_2 (idStates i) (Z.to_nat k)) as [ids Eids]; [unfold zlen in *; lia|].
  rewrite Eids. cbn [fst]. rewrite <- (app_nil_r returned). assert (0 <= (idOffset i + 1) mod 2 ^ 64) as Hoff' by (apply Z.mod_pos_bound; lia).
  destruct (ids_inUse ids) eqn:Eu.
  - destruct (in_use_state i given returned (Z.to_nat k) ids Er Hi Eids Eu) as [s' Es].
    eapply (states_change i _ given returned (Z.to_nat k) ids (mkIDS true 0 (Some s)) (Some (LostReused s'))); unfold in_use; rewrite ?Eu, ?Es; account; by rewrite Es.
  - eapply (states_change i _ given returned (Z.to_nat k) ids (mkIDS true 0 (Some s)) None); unfold in_use; rewrite ?Eu; account.
Qed.

Lemma rnd_cases : rnd = true \/ rnd = false.
Proof. destruct rnd; auto. Qed.

Lemma restoreState_ok id s i given returned :
  states_ok i given returned -> is_ok (snd (restoreState rnd id s i)) = true -> states_ok (fst (restoreState rnd id s i)) (given ++ [s]) returned.
Proof.
  intros Hi. rewrite <- (app_nil_r returned).
  assert (states_ok (lose (Some (LostTimeout s)) i) (given ++ [s]) (returned ++ [])) as Hlose.
  { eapply (accounted_change i _ given returned _ None None (Some (LostTimeout s))); account. apply (ac_full _ _ _ Hi). }
  destruct rnd_cases as [Er|Er].
  - assert (restoreState rnd id s i = restoreState true id s i) as -> by (by rewrite Er). unfold restoreState.
    destruct (idStatesMap i !! id) as [ids|] eqn:Ek; [done|]. intros _. cbn [fst].
    eapply (map_change i _ given returned None (Some s) None); account; by rewrite Ek.
  - assert (restoreState rnd id s i = restoreState false id s i) as -> by (by rewrite Er). unfold restoreState.
    destruct (idStates i !! Z.to_nat id) as [ids|] eqn:Ek; [|done]. intros _. destruct (ids_inUse ids) eqn:Eu; [done|]. cbn [fst].
    pose proof (ac_full _ _ _ Hi) as Hf. rewrite Er in Hf. destruct Hf as (_ & _ & Hoff).
    eapply (states_change i _ given returned (Z.to_nat id) ids (mkIDS true (ids_age ids) (Some s)) None); unfold in_use; rewrite ?Eu; account.
Qed.

Lemma getState_ok id i given returned :
  states_ok i given returned -> states_ok (fst (getState rnd id i)) given (returned ++ option_list (snd (getState rnd id i))).
Proof.
  intros Hi. rewrite <- (app_nil_r given). destruct rnd_cases as [Er|Er].
  - assert (getState rnd id i = getState true id i) as -> by (by rewrite Er). unfold getState.
    destruct (idStatesMap i !! id) as [ids|] eqn:Ek; cbn [fst snd]; [|by rewrite !app_nil_r].
    destruct (map_state _ _ _ _ _ Er Hi Ek) as [s Es]. rewrite Es.
    eapply (map_change i _ given returned (Some s) None None); account; by rewrite Ek, <- Es.
  - assert (getState rnd id i = getState false id i) as -> by (by rewrite Er). unfold getState.
    destruct (idStates i !! Z.to_nat id) as [ids|] eqn:Ek; cbn [fst snd]; [|by rewrite !app_nil_r].
    pose proof (ac_full _ _ _ Hi) as Hf. rewrite Er in Hf. destruct Hf as (_ & _ & Hoff). destruct (ids_inUse ids) eqn:Eu; cbn [fst snd].
    + destruct (in_use_state i given returned (Z.to_nat id) ids Er Hi Ek Eu) as [s Es]. rewrite Es.
      eapply (states_change i _ given returned (Z.to_nat id) ids (mkIDS false (ids_age ids) None) None); unfold in_use; rewrite ?Eu, ?Es; account.
    + eapply (states_change i _ given returned (Z.to_nat id) ids (mkIDS false (ids_age ids) (ids_internal ids)) None);
        unfold in_use; rewrite ?Eu; account.
Qed.

(** ** Timeouts *)

Lemma report_inflight b (d : ds) : inflight (report b d) = inflight d.
Proof. unfold report. by destruct (lazy_results _). Qed.

(** The states that are not expired get older, the others are lost. *)
Lemma timeouts_map_ok rule timeout keys (d : ds) given returned :
  rnd = true -> states_ok (inflight d) given returned -> states_ok (inflight (timeouts_map rule timeout keys d)) given returned.
Proof.
  intros Er. revert d. induction keys as [|k keys IH]; intros d Hi; [done|]. cbn [timeouts_map].
  destruct (idStatesMap (inflight d) !! k) as [ids|] eqn:Ek; [|by apply IH]. apply IH.
  destruct (map_state _ _ _ _ _ Er Hi Ek) as [s Es]. rewrite <- (app_nil_r given), <- (app_nil_r returned). destruct (isIDSExpired ids timeout).
  - unfold handleUDPTimeout, reportTimeoutOrError. cbn [inflight ds_set_inflight]. rewrite !report_inflight. cbn [inflight ds_set_inflight].
    eapply (map_change (inflight d) _ given returned (Some s) None (Some (if rule s then LostToRule s else LostTimeout s))); account;
      first [by rewrite Ek, <- Es|by destruct (rule s)|by rewrite Es].
  - eapply (map_change (inflight d) _ given returned (Some s) (Some s) None); account; first [by rewrite Ek, <- Es|by rewrite lookup_insert_eq, <- Es].
Qed.

Lemma timeouts_states_ok rule timeout k n (d : ds) given returned :
  rnd = false -> states_ok (inflight d) given returned -> states_ok (inflight (timeouts_states rule timeout k n d)) given returned.
Proof.
  intros Er. revert k d. induction n as [|n IH]; intros k d Hi; [done|]. cbn [timeouts_states]. apply IH.
  destruct (idStates (inflight d) !! k) as [ids|] eqn:Ek; [|done]. destruct (ids_inUse ids) eqn:Eu; cbn [negb]; [|done].
  pose proof (ac_full _ _ _ Hi) as Hf. rewrite Er in Hf. destruct Hf as (_ & _ & Hoff).
  destruct (in_use_state _ _ _ _ ids Er Hi Ek Eu) as [s Es]. rewrite <- (app_nil_r given), <- (app_nil_r returned). destruct (isIDSExpired ids timeout); cbn [negb].
  - unfold handleUDPTimeout, reportTimeoutOrError. cbn [inflight ds_set_inflight]. rewrite !report_inflight. cbn [inflight ds_set_inflight].
    eapply (states_change (inflight d) _ given returned k ids (mkIDS false 0 None) (Some (if rule s then LostToRule s else LostTimeout s)));
      unfold in_use; rewrite ?Eu, ?Es; account; first [by destruct (rule s)|by rewrite Es].
  - eapply (states_change (inflight d) _ given returned k ids (older ids) None); unfold in_use, older; cbn [ids_inUse ids_internal]; rewrite ?Eu, ?Es; account.
Qed.

Lemma handleUDPTimeouts_ok rule timeout (d : ds) given returned :
  states_ok (inflight d) given returned -> states_ok (inflight (handleUDPTimeouts rnd timeout rule d)) given returned.
Proof.
  intros Hi. unfold handleUDPTimeouts. destruct (negb _); [done|]. cbv zeta. destruct rnd_cases as [Er|Er].
  - match goal with |- context [if rnd then ?a else ?b] => assert ((if rnd then a else b) = a) as -> by (by rewrite Er) end. by apply timeouts_map_ok.
  - match goal with |- context [if rnd then ?a else ?b] => assert ((if rnd then a else b) = b) as -> by (by rewrite Er) end.
    destruct (0 <? _); [by apply timeouts_states_ok|done].
Qed.

(** ** All histories *)

(** A backend that was made and connected, states stored, put back and taken out, and
    timeouts handled, whatever else happens to it. *)
Inductive flight : ds -> list S -> list S -> Prop :=
| flight_start c now n :
    0 < (if 0 <? dc_maxUDPOutstanding c then dc_maxUDPOutstanding c else n) <= 65536 -> flight (connect_states rnd n (ds_make c now)) [] []
| flight_save d given returned draw s :
    flight d given returned -> flight (ds_set_inflight (fst (saveState rnd draw s (inflight d))) d) (given ++ [s]) returned
| flight_restore d given returned id s :
    flight d given returned -> is_ok (snd (restoreState rnd id s (inflight d))) = true ->
    flight (ds_set_inflight (fst (restoreState rnd id s (inflight d))) d) (given ++ [s]) returned
| flight_get d given returned id :
    flight d given returned ->
    flight (ds_set_inflight (fst (getState rnd id (inflight d))) d) given (returned ++ option_list (snd (getState rnd id (inflight d))))
| flight_timeouts d given returned rule timeout :
    flight d given returned -> flight (handleUDPTimeouts rnd timeout rule d) given returned
| flight_other d d' given returned : flight d given returned -> inflight d' = inflight d -> flight d' given returned.

Lemma saveState_ok draw s i given returned : states_ok i given returned -> states_ok (fst (saveState rnd draw s i)) (given ++ [s]) returned.
Proof.
  intros Hi. destruct rnd_cases as [Er|Er].
  - assert (saveState rnd draw s i = save_random 5 draw s i) as -> by (by rewrite Er). by apply save_random_ok.
  - assert (saveState rnd draw s i = save_next s i) as -> by (by rewrite Er). by apply save_next_ok.
Qed.

Lemma flight_ok d given returned : flight d given returned -> states_ok (inflight d) given returned.
Proof.
  induction 1 as [c now n Hn|d given returned draw s _ IH|d given returned id s _ IH Hok|d given returned id _ IH|d given returned rule timeout _ IH
                 |d d' given returned _ IH E].
  - set (m := if 0 <? dc_maxUDPOutstanding c then dc_maxUDPOutstanding c else n) in *.
    assert (ztake m (@nil (IDState S)) = []) as Et by (unfold ztake; apply take_nil).
    split; unfold held; destruct rnd_cases as [Er|Er]; rewrite Er; cbn -[replicate]; fold m; rewrite ?Et; try done.
    + split; [by apply Forall_replicate|]. rewrite app_nil_l. unfold zlen at 1 3. rewrite length_replicate. change (zlen (@nil (IDState S))) with 0. lia.
    + by induction (Z.to_nat (m - zlen [])).
    + by induction (Z.to_nat (m - zlen [])).
  - by apply saveState_ok.
  - by apply restoreState_ok.
  - by apply getState_ok.
  - by apply handleUDPTimeouts_ok.
  - by rewrite E.
Qed.

(** The id that is returned gives the state back. *)
Lemma save_get draw s i given returned :
  states_ok i given returned -> let '(i', id) := saveState rnd draw s i in snd (getState rnd id i') = Some s.
Proof.
  intros Hi. destruct rnd_cases as [Er|Er].
  - assert (saveState rnd draw s i = save_random 5 draw s i) as -> by (by rewrite Er).
    enough (forall n draw, let '(i', id) := save_random (Datatypes.S n) draw s i in exists ids, idStatesMap i' !! id = Some ids /\ ids_internal ids = Some s) as H.
    { specialize (H 4%nat draw). destruct (save_random 5 draw s i) as [i' id]. destruct H as (ids & E1 & E2).
      assert (getState rnd id i' = getState true id i') as -> by (by rewrite Er). unfold getState. by rewrite E1. }
    clear draw. intros n. induction n as [|n IH]; intros draw; cbn [save_random].
    + destruct (idStatesMap i !! draw O) as [ids|]; cbn; rewrite lookup_insert_eq; by eexists.
    + destruct (idStatesMap i !! draw O) as [ids|]; [exact (IH (fun k => draw (Datatypes.S k)))|]. cbn. rewrite lookup_insert_eq. by eexists.
  - assert (saveState rnd draw s i = save_next s i) as -> by (by rewrite Er).
    pose proof (ac_full _ _ _ Hi) as Hf. rewrite Er in Hf. destruct Hf as (_ & Hsz & Hoff). unfold save_next. cbv zeta.
    pose proof (Z.mod_pos_bound (idOffset i) (zlen (idStates i)) ltac:(lia)) as Hb.
    set (k := u16 (idOffset i mod zlen (idStates i))). assert (0 <= k < zlen (idStates i)) as Hk by (unfold k, u16; rewrite Z.mod_small by lia; lia).
    change (idStates (next_offset i)) with (idStates i). destruct (lookup_lt_is_Some_2 (idStates i) (Z.to_nat k)) as [ids Eids]; [unfold zlen in *; lia|].
    rewrite Eids. match goal with |- snd (getState rnd k ?x) = _ => assert (getState rnd k x = getState false k x) as -> by (by rewrite Er) end.
    unfold getState. cbn [idStates set_states].
    assert (idStates (if ids_inUse ids then lose (LostReused <$> ids_internal ids) (next_offset i) else set_outstanding (outstanding (next_offset i) + 1) (next_offset i)) = idStates i) as ->
      by (by destruct (ids_inUse ids)).
    by rewrite list_lookup_insert_eq by (unfold zlen in *; lia).
Qed.

(** C22: no query is forgotten. Whatever queries were sent to a backend, by index or under
    random ids, whichever responses came and whichever timed out: each state that was
    stored is waiting, was taken out for its response, or was lost and reported, and
    exactly once; [outstanding] is the number of those that wait and [reuseds] of those
    that were lost; and the id of a new state gives it back. *)
Theorem states_accounted d given returned draw s :
  flight d given returned ->
  outstanding (inflight d) = zlen (held (inflight d))
  /\ given ≡ₚ held (inflight d) ++ returned ++ map lost_state (lost_states (inflight d))
  /\ reuseds (inflight d) = zlen (lost_states (inflight d))
  /\ let '(i, id) := saveState rnd draw s (inflight d) in snd (getState rnd id i) = Some s.
Proof. intros Hd. apply flight_ok in Hd as Hi. split_and!; [apply Hi..|]. by eapply save_get. Qed.
End flight.

(** ** Examples *)

Module backend_example.

Definition noon : timespec := mkTS 43200 0.

(** The configuration of the unit test for lazy checks with back-off. *)
Definition lazy_config (availability : Availability) (mode : HealthCheckMode) (exponential : bool) : BackendConfig :=
  mkBC availability mode 1 (bs "one") (bs "one (192.0.2.1:53)") 1 0 0 3 0 false false false false false false 1 3 5 TimeoutOrServFail 100 11 15 600 20 exponential.

Definition lazy_backend : DownstreamState nat := ds_make (lazy_config AvailAuto CheckLazy true) noon.

(** Checks at a time with a result, when sockets can be connected. *)
Definition checks (n : nat) (r : bool) (t : Z) : list check_result := replicate n (mkCheck r t (true, true)).

(** Eleven timeouts make a check due; three failures bring the backend down. *)
Definition failing (t : Z) : DownstreamState nat := fst (healthCheckRequired (Some t) t (Nat.iter 11 reportTimeoutOrError lazy_backend)).
Definition down_at (t : Z) : DownstreamState nat := submitted (checks 3 false t) (failing t).

Example lazy_goes_down :
  snd (healthCheckRequired (Some 50) 50 (Nat.iter 10 reportTimeoutOrError lazy_backend)) = false
  /\ snd (healthCheckRequired (Some 50) 50 (Nat.iter 11 reportTimeoutOrError lazy_backend)) = true
  /\ upStatus (health (submitted (checks 2 false 50) (failing 50))) = true /\ upStatus (health (down_at 50)) = false
  /\ getNextLazyHealthCheck (down_at 50) = 65.
Proof. by vm_compute. Qed.

(** The wait doubles with each failure: 30, 60, 120, 240, 480 and then 600 seconds. *)
Definition fail_again (d : DownstreamState nat) : DownstreamState nat :=
  let t := getNextLazyHealthCheck d in submit (mkCheck false t (true, true)) (fst (healthCheckRequired (Some t) t d)).
Example waits_double :
  map (fun n => getNextLazyHealthCheck (Nat.iter n fail_again (down_at 0))) (seq 0 7) = [15; 45; 105; 225; 465; 945; 1545].
Proof. by vm_compute. Qed.

Lemma health_hysteresis_witness : upStatus (health (submitted (checks 5 true 70 ++ checks 3 false 50) lazy_backend)) = true.
Proof.
  rewrite (health_hysteresis (checks 5 true 70 ++ checks 3 false 50) lazy_backend); [by vm_compute|by vm_compute|by vm_compute| |by vm_compute|by vm_compute].
  by repeat constructor.
Defined.

Lemma down_at_runs t : 0 <= t -> lazy_run (lazy_config AvailAuto CheckLazy true) (down_at t) t.
Proof.
  intros Ht. unfold down_at, checks. cbn [replicate]. unfold submitted. cbn [foldr].
  assert (lazy_run (lazy_config AvailAuto CheckLazy true) (failing t) t) as H.
  { apply (lazy_required _ (Nat.iter 11 reportTimeoutOrError lazy_backend) 0 t); [|done]. generalize 11%nat as n.
    intros n. induction n as [|n IH]; [apply lazy_start|]. by apply (lazy_timeout _ (Nat.iter n reportTimeoutOrError lazy_backend)). }
  do 3 (eapply (lazy_submit _ _ t (mkCheck false t (true, true))); [|done|done]). exact H.
Qed.

(** The operator takes it out, and puts it back. *)
Definition switched_back : DownstreamState nat := setAuto (setDown (down_at 50)).

Lemma switched_runs t : 0 <= t -> lazy_run (lazy_config AvailAuto CheckLazy true) (setAuto (setDown (down_at t))) t.
Proof. intros Ht. by apply lazy_setAuto, lazy_setDown, down_at_runs. Qed.

Lemma lazy_recovers_witness : snd (healthCheckRequired (Some 650) 650 switched_back) = true /\ upStatus (health (submitted (checks 5 true 70) switched_back)) = true.
Proof.
  assert (lazy_results (lazy_config AvailAuto CheckLazy true) = true) as Hl by (by vm_compute).
  assert (0 <= dc_minRiseSuccesses (lazy_config AvailAuto CheckLazy true) < 256) as Hm by (by vm_compute).
  assert (Forall (fun k => ck_result k = true /\ fst (ck_reconnect k) = true) (checks 5 true 70)) as Hk by (by apply Forall_replicate).
  assert (Z.max 1 (dc_minRiseSuccesses (lazy_config AvailAuto CheckLazy true)) <= zlen (checks 5 true 70)) as Hn by (by vm_compute).
  assert (upStatus (health switched_back) = false) as Hd by (vm_compute; reflexivity).
  assert (dc_availability (d_config switched_back) = AvailAuto) as Ha by (vm_compute; reflexivity).
  pose proof (lazy_recovers _ Hl Hm switched_back 50 _ (switched_runs 50 ltac:(lia)) Ha Hd Hk Hn) as [H1 H2]. split; [|exact H2].
  apply H1. unfold longest_wait. cbn [dc_lazyHealthCheckFailedInterval dc_lazyHealthCheckMaxBackOff lazy_config]. lia.
Defined.

(** An actively checked backend that failed its first check, switched to lazy checks. *)
Example lazy_switch_never_checked :
  let d := setLazyAuto (submitHealthCheckResult true false 50 (true, true) (ds_make (lazy_config AvailAuto CheckActive true) noon) : DownstreamState nat) in
  isUp d = false /\ snd (healthCheckRequired (Some 1000000) 0 d) = false.
Proof. by vm_compute. Qed.

Lemma failed_reconnect_stops_checks_witness :
  snd (healthCheckRequired (Some 1000000) 0 (submitHealthCheckResult false true 90 (false, false) (submitted (checks 4 true 70) (down_at 50)))) = false.
Proof.
  destruct (failed_reconnect_stops_checks (lazy_config AvailAuto CheckLazy true) eq_refl (submitted (checks 4 true 70) (down_at 50)) 90) as [_ H];
    [by vm_compute..|]. by rewrite H.
Defined.

(** Three states are kept; the fourth query takes the place of the first. *)
Definition backend : DownstreamState nat := connect_states false 100 lazy_backend.
Definition save (s : nat) (d : DownstreamState nat) : DownstreamState nat := ds_set_inflight (fst (saveState false (fun _ => 0) s (inflight d))) d.

Definition saves (l : list nat) : DownstreamState nat := fold_left (fun d s => save s d) l backend.

Lemma saves_flight l : flight false (saves l) l [].
Proof.
  induction l as [|s l IH] using rev_ind; [by apply flight_start|]. unfold saves. rewrite fold_left_app. cbn [fold_left].
  exact (flight_save false (saves l) l [] (fun _ => 0) s IH).
Qed.

Lemma states_accounted_witness :
  let d := saves [1; 2; 3; 4]%nat in
  outstanding (inflight d) = 3 /\ [1; 2; 3; 4]%nat ≡ₚ held false (inflight d) ++ map lost_state (lost_states (inflight d)).
Proof.
  intros d. pose proof (states_accounted false d [1; 2; 3; 4]%nat [] (fun _ => 0) 5%nat (saves_flight [1; 2; 3; 4]%nat)) as (H1 & H2 & _).
  split; [rewrite H1; vm_compute; reflexivity|exact H2].
Defined.
End backend_example.
