(* ===== verification/DnsdistPools.v ===== *)
(** * Pools of backends and the choice of one

    [ServerPool] of [pdns/dnsdistdist/dnsdist-backend.cc], and the policies and pools of
    [dnsdist-lbpolicies.cc].  Backends are shared: they live in a store and a pool holds
    numbered pointers, indices into it. *)

From stdpp Require Import gmap.
From Stdlib Require Import SpecFloat.
From S2P Require Import Prelude Chars Names Denial NameIndex DnsdistBackend.

#[local] Open Scope Z_scope.

Definition UINT64_MAX : Z := 2 ^ 64 - 1.
Definition UINT_MAX : Z := 2 ^ 32 - 1.
Definition INT_MAX : Z := 2 ^ 31 - 1.

Section policies.
Context {S : Type}.
#[local] Abbreviation ds := (DownstreamState S).
#[local] Abbreviation store := (list (DownstreamState S)).

(** [NumberedServerVector], and the backends it points at. *)
Abbreviation NumberedServerVector := (list (Z * nat)).
Definition view (st : store) (servers : NumberedServerVector) : list (Z * ds) := omap (fun '(n, p) => pair n <$> st !! p) servers.

(** ** Fewest outstanding queries *)

Record least : Type := mkLeast { l_best : option Z; l_outstanding : Z; l_order : Z; l_latency : double }.

Definition least_step (l : least) (server : Z * ds) : least :=
  let '(position, d) := server in
  let seen := mkLeast (Some position) (outstanding (inflight d)) (dc_order (d_config d)) (getRelevantLatencyUsec d) in
  if negb (accepts d) then l
  else if l_outstanding l <? outstanding (inflight d) then l
  else if outstanding (inflight d) <? l_outstanding l then seen
  else if l_order l <? dc_order (d_config d) then l
  else if dltb (getRelevantLatencyUsec d) (l_latency l) then seen
  else l.

Definition getLeastOutstanding (servers : list (Z * ds)) : option Z :=
  l_best (fold_left least_step servers (mkLeast None UINT64_MAX INT_MAX DBL_MAX)).

Definition leastOutstanding (servers : list (Z * ds)) : option Z :=
  match servers with
  | [(_, d)] => if accepts d then Some 1 else getLeastOutstanding servers
  | _ => getLeastOutstanding servers
  end.

(** ** The first that is available *)

(** [clock k] is what the clock says when the limiter of the [k]-th server is read. *)
Fixpoint first_loop (clock : nat -> timespec) (servers : NumberedServerVector) (st : store) : store * option Z :=
  match servers with
  | [] => (st, None)
  | (position, p) :: servers =>
      match st !! p with
      | None => first_loop (fun k => clock (Datatypes.S k)) servers st
      | Some d =>
          let '(d, b) := canAcceptNewQueries true (clock O) d in
          let st := <[p := d]> st in
          if b then (st, Some position) else first_loop (fun k => clock (Datatypes.S k)) servers st
      end
  end.

Definition firstAvailable (clock : nat -> timespec) (servers : NumberedServerVector) (st : store) : store * option Z :=
  match first_loop clock servers st with
  | (st, Some position) => (st, Some position)
  | (st, None) => (st, leastOutstanding (view st servers))
  end.

(** ** Weights *)

(** The load up to which a server takes more queries, by its weight. *)
Definition current_load (servers : list (Z * ds)) : double * Z :=
  fold_left (fun '(load, weight) '(_, d) => if accepts d then (dadd load (dbl (outstanding (inflight d))), weight + dc_weight (d_config d)) else (load, weight))
    servers (dbl 1, 0).

Definition target_load (factor : double) (servers : list (Z * ds)) : double :=
  if dltb (dbl 0) factor then
    let '(currentLoad, totalWeight) := current_load servers in
    if 0 <? totalWeight then dmul (ddiv currentLoad (dbl totalWeight)) factor else DBL_MAX
  else DBL_MAX.

Definition below_target (factor targetLoad : double) (d : ds) : bool :=
  accepts d && (SFeqb factor (dbl 0) || dleb (dbl (outstanding (inflight d))) (dmul targetLoad (dbl (dc_weight (d_config d))))).

(** The table [poss] with the sums of the weights, and the last sum. *)
Fixpoint weight_sums (usable : ds -> bool) (servers : list (Z * ds)) (sum : Z) : list (Z * Z) * Z :=
  match servers with
  | [] => ([], sum)
  | (position, d) :: servers =>
      if usable d then
        let sum := if INT_MAX - sum <? dc_weight (d_config d) then INT_MAX else sum + dc_weight (d_config d) in
        let '(poss, total) := weight_sums usable servers sum in ((sum, position) :: poss, total)
      else weight_sums usable servers sum
  end.

Definition getValRandom (usable : ds -> bool) (servers : list (Z * ds)) (val : Z) : option Z :=
  let '(poss, sum) := weight_sums usable servers 0 in
  if bool_decide (poss = []) || (sum =? 0) then None
  else
    let randomVal := val mod sum in
    snd <$> List.find (fun p => randomVal <? fst p) poss.

(** [factor] is [d_weightedBalancingFactor]. *)
Definition valrandom (factor : double) (val : Z) (servers : list (Z * ds)) : option Z :=
  getValRandom (below_target factor (target_load factor servers)) servers val.

(** [random] is what [dns_random_uint32()] returns. *)
Definition wrandom (factor : double) (random : Z) (servers : list (Z * ds)) : option Z := valrandom factor random servers.

Definition whashedFromHash (factor : double) (servers : list (Z * ds)) (hash : Z) : option Z := valrandom factor (u32 hash) servers.

Definition whashed (factor : double) (perturbation : Z) (servers : list (Z * ds)) (qname : DNSName) : option Z :=
  whashedFromHash factor servers (hash qname perturbation).

(** ** Consistent hashing *)

Record ring : Type := mkRing { r_sel : Z; r_ret : option Z; r_min : Z; r_first : option Z }.

(** One server with its hashes, which are sorted. *)
Definition ring_step (qhash : Z) (position : Z) (hashes : list Z) (r : ring) : ring :=
  let r := match hashes with
           | h :: _ => if h <? r_min r then mkRing (r_sel r) (r_ret r) h (Some position) else r
           | [] => r
           end in
  match List.find (fun h => negb (h <? qhash)) hashes with
  | Some h => if h <? r_sel r then mkRing h (Some position) (r_min r) (r_first r) else r
  | None => r
  end.

Fixpoint chashed_loop (usable : ds -> bool) (perturbation qhash : Z) (servers : NumberedServerVector) (r : ring) (st : store) : store * ring :=
  match servers with
  | [] => (st, r)
  | (position, p) :: servers =>
      match st !! p with
      | None => chashed_loop usable perturbation qhash servers r st
      | Some d =>
          if usable d then
            let d := if hashesComputed d then d else ds_hash perturbation d in
            chashed_loop usable perturbation qhash servers (ring_step qhash position (hashes d) r) (<[p := d]> st)
          else chashed_loop usable perturbation qhash servers r st
      end
  end.

(** [factor] is [d_consistentHashBalancingFactor]. *)
Definition chashedFromHash (factor : double) (perturbation : Z) (servers : NumberedServerVector) (qhash : Z) (st : store) : store * option Z :=
  let usable := below_target factor (target_load factor (view st servers)) in
  let '(st, r) := chashed_loop usable perturbation qhash servers (mkRing UINT_MAX None UINT_MAX None) st in
  (st, match r_ret r with Some position => Some position | None => r_first r end).

Definition chashed (factor : double) (perturbation : Z) (servers : NumberedServerVector) (qname : DNSName) (st : store) : store * option Z :=
  chashedFromHash factor perturbation servers (hash qname perturbation) st.

(** ** In turn *)

(** The static counter goes with the result. *)
Definition roundrobin (failOnNoServer : bool) (servers : list (Z * ds)) (counter : Z) : Z * option Z :=
  match servers with
  | [] => (counter, None)
  | _ =>
      let serverIdx := counter mod zlen servers in
      let counter := u32 (counter + 1) in
      let pick l := l !! Z.to_nat (counter mod zlen l) in
      (counter,
       match servers !! Z.to_nat serverIdx with
       | Some (position, d) =>
           if accepts d then Some position
           else
             match map fst (List.filter (fun '(_, d) => accepts d) servers) with
             | [] => if failOnNoServer then None else pick (map fst servers)
             | candidates => pick candidates
             end
       | None => None
       end)
  end.

(** ** By order, without those that are tagged *)

(** The loop for the candidates with their positions. *)
Fixpoint ordered_candidates (tagged : bytes -> bool) (curOrder : Z) (servers : list (Z * ds)) : list (Z * ds) :=
  match servers with
  | [] => []
  | (position, d) :: servers =>
      if accepts d && negb (tagged (dc_nameWithAddr (d_config d))) then
        if curOrder <? dc_order (d_config d) then []
        else (position, d) :: ordered_candidates tagged (dc_order (d_config d)) servers
      else ordered_candidates tagged curOrder servers
  end.

Definition renumber {A} (l : list (Z * A)) : list (Z * A) := imap (fun k '(_, x) => (Z.of_nat k + 1, x)) l.

(** [tagged] tells which names are in the tags of the query. *)
Definition orderedWrandUntag (factor : double) (random : Z) (tagged : bytes -> bool) (servers : list (Z * ds)) : option Z :=
  match servers with
  | [] => None
  | _ =>
      let found := ordered_candidates tagged INT_MAX servers in
      match found with
      | [] => None
      | _ => selected ← wrandom factor random (renumber found); map fst found !! Z.to_nat (selected - 1)
      end
  end.

(** [getSelectedBackend]: the index in the vector for the position that a policy of
    dnsdist or of Lua returned, and for the one of a policy that uses the FFI. *)
Definition selected_index (position : option Z) (servers : NumberedServerVector) : option nat :=
  match position with
  | Some n => if (0 <? n) && (n <=? zlen servers) then Some (Z.to_nat (n - 1)) else None
  | None => None
  end.

Definition selected_index_ffi (selected : Z) (servers : NumberedServerVector) : option nat :=
  if zlen servers <=? selected then None else Some (Z.to_nat selected).

(** ** Pools *)

Record ServerPool (P : Type) : Type := mkPool {
  d_servers : NumberedServerVector;
  d_useECS : bool;
  d_zeroScope : bool;
  d_tcpOnly : bool;
  d_isConsistent : bool;
  d_policy : option P;
}.
Arguments mkPool {P} _ _ _ _ _ _.
Arguments d_servers {P} _.
Arguments d_useECS {P} _.
Arguments d_zeroScope {P} _.
Arguments d_tcpOnly {P} _.
Arguments d_isConsistent {P} _.
Arguments d_policy {P} _.

Context {P : Type}.
#[local] Abbreviation pool := (ServerPool P).

Definition pool_make : pool := mkPool [] false true false true None.

(** The variables of the loop of [updateConsistency] after the first server. *)
Record agreement : Type := mkAgree { ag_consistent : bool; ag_tcpOnly : bool }.

Definition agree_step (useECS zeroScope : bool) (a : agreement) (server : Z * ds) : agreement :=
  let c := d_config (snd server) in
  let consistent :=
    if ag_consistent a then Bool.eqb (dc_useECS c) useECS && negb (Bool.eqb (dc_disableZeroScope c) zeroScope) else false in
  if negb (Bool.eqb (isTCPOnly c) (ag_tcpOnly a)) then mkAgree false false else mkAgree consistent (ag_tcpOnly a).

Definition updateConsistency (st : store) (s : pool) : pool :=
  let '(useECS, zeroScope, a) :=
    match view st (d_servers s) with
    | [] => (false, true, mkAgree true false)
    | (_, d) :: servers =>
        let useECS := dc_useECS (d_config d) in
        let zeroScope := negb (dc_disableZeroScope (d_config d)) in
        (useECS, zeroScope, fold_left (agree_step useECS zeroScope) servers (mkAgree true (isTCPOnly (d_config d))))
    end in
  mkPool (d_servers s) (if ag_consistent a then useECS else d_useECS s) (if ag_consistent a then zeroScope else d_zeroScope s)
    (ag_tcpOnly a) (ag_consistent a) (d_policy s).

Definition set_servers (l : NumberedServerVector) (s : pool) : pool :=
  mkPool l (d_useECS s) (d_zeroScope s) (d_tcpOnly s) (d_isConsistent s) (d_policy s).

(** The order of a server, by which [stable_sort] compares. *)
Definition order_of (st : store) (p : nat) : Z := match st !! p with Some d => dc_order (d_config d) | None => 0 end.
Definition order_leb (st : store) (a b : Z * nat) : bool := order_of st (snd a) <=? order_of st (snd b).

Definition addServer (st : store) (server : nat) (s : pool) : pool :=
  let servers := d_servers s ++ [(zlen (d_servers s) + 1, server)] in
  updateConsistency st (set_servers (renumber (ordered_index (order_leb st) servers)) s).

(** The loop of [removeServer], with [idx] and [found]. *)
Fixpoint remove_loop (server : nat) (idx : Z) (found : bool) (l : NumberedServerVector) : NumberedServerVector * bool :=
  match l with
  | [] => ([], found)
  | (n, p) :: l =>
      if found then let '(r, b) := remove_loop server (idx + 1) true l in ((idx, p) :: r, b)
      else if bool_decide (p = server) then remove_loop server idx true l
      else let '(r, b) := remove_loop server (idx + 1) false l in ((n, p) :: r, b)
  end.

Definition removeServer (st : store) (server : nat) (s : pool) : pool :=
  let '(l, found) := remove_loop server 1 false (d_servers s) in
  let s := set_servers l s in
  if found && negb (d_isConsistent s) then updateConsistency st s else s.

Definition setECS (st : store) (useECS : bool) (s : pool) : pool :=
  updateConsistency st (mkPool (d_servers s) useECS (d_zeroScope s) (d_tcpOnly s) (d_isConsistent s) (d_policy s)).
Definition setZeroScope (st : store) (enabled : bool) (s : pool) : pool :=
  updateConsistency st (mkPool (d_servers s) (d_useECS s) enabled (d_tcpOnly s) (d_isConsistent s) (d_policy s)).

Definition poolLoad (st : store) (s : pool) : Z := foldr (fun '(_, d) n => outstanding (inflight d) + n) 0 (view st (d_servers s)).

(** [countServers], which reads the limiters of the servers. *)
Fixpoint count_loop (clock : nat -> timespec) (servers : NumberedServerVector) (st : store) : store * Z :=
  match servers with
  | [] => (st, 0)
  | (_, p) :: servers =>
      match st !! p with
      | None => count_loop (fun k => clock (Datatypes.S k)) servers st
      | Some d =>
          let '(d, b) := canAcceptNewQueries true (clock O) d in
          let '(st, n) := count_loop (fun k => clock (Datatypes.S k)) servers (<[p := d]> st) in
          (st, if b then n + 1 else n)
      end
  end.

Definition countServers (upOnly : bool) (clock : nat -> timespec) (s : pool) (st : store) : store * Z :=
  if upOnly then count_loop clock (d_servers s) st else (st, zlen (d_servers s)).

Definition hasAtLeastOneServerAvailable (clock : nat -> timespec) (s : pool) (st : store) : store * bool :=
  let '(st, r) := first_loop clock (d_servers s) st in (st, bool_decide (is_Some r)).

Definition shouldKeepStaleData (clock : nat -> timespec) (s : pool) (st : store) : store * bool :=
  if bool_decide (d_servers s = []) then (st, false) else let '(st, n) := countServers true clock s st in (st, n =? 0).

(** ** The pools by name *)

#[local] Abbreviation pools := (gmap bytes (ServerPool P)).

Definition no_pool : exn := out_of_range "No pool named ".

Definition getPool (name : bytes) (m : pools) : result pool := of_option no_pool (m !! name).
Definition getDownstreamCandidates (name : bytes) (m : pools) : result NumberedServerVector := s ← getPool name m; Ok (d_servers s).
Definition createPoolIfNotExists (name : bytes) (m : pools) : pools := match m !! name with Some _ => m | None => <[name := pool_make]> m end.

(** [emplace] makes a pool where there is none; then the pool is changed. *)
Definition change_pool (f : pool -> pool) (name : bytes) (m : pools) : pools := <[name := f (default pool_make (m !! name))]> m.

Definition setPoolPolicy (name : bytes) (policy : P) (m : pools) : pools :=
  change_pool (fun s => mkPool (d_servers s) (d_useECS s) (d_zeroScope s) (d_tcpOnly s) (d_isConsistent s) (Some policy)) name m.
Definition addServerToPool (st : store) (name : bytes) (server : nat) (m : pools) : pools := change_pool (addServer st server) name m.
Definition removeServerFromPool (st : store) (name : bytes) (server : nat) (m : pools) : pools := change_pool (removeServer st server) name m.

(** ** The backends of the configuration *)

(** [registerNewBackend]: at the end, then sorted by order. *)
Definition registerNewBackend (st : store) (server : nat) (backends : list nat) : list nat :=
  ordered_index (fun a b => order_of st a <=? order_of st b) (backends ++ [server]).
End policies.
Arguments mkPool {P} _ _ _ _ _ _.
Arguments d_servers {P} _.
Arguments d_useECS {P} _.
Arguments d_zeroScope {P} _.
Arguments d_tcpOnly {P} _.
Arguments d_isConsistent {P} _.
Arguments d_policy {P} _.
