(* ===== verification/DnsdistPoolsSpec.v ===== *)
(** * What pools and policies of dnsdist guarantee

    Which server each policy chooses, that only servers that take queries are chosen, and
    that pools stay numbered, sorted and consistent. *)

From stdpp Require Import gmap sorting.
From Stdlib Require Import SpecFloat Sorted.
From S2P Require Import Prelude Chars Names Denial NameIndex DnsdistBackend DnsdistBackendSpec DnsdistPools.

#[local] Open Scope Z_scope.

(** ** The order of doubles *)

(** Numbers compare as these keys, lexicographically. *)
Definition double_key (x : double) : Z * Z * Z :=
  match x with
  | S754_infinity s => (if s then -2 else 2, 0, 0)
  | S754_finite s m e => if s then (-1, - e, - Z.pos m) else (1, e, Z.pos m)
  | _ => (0, 0, 0)
  end.
Definition key_ltb (a b : Z * Z * Z) : bool :=
  let '(a1, a2, a3) := a in
  let '(b1, b2, b3) := b in
  (a1 <? b1) || ((a1 =? b1) && ((a2 <? b2) || ((a2 =? b2) && (a3 <? b3)))).
Definition is_number (x : double) : Prop := x <> S754_nan.

Lemma dltb_key x y : is_number x -> is_number y -> dltb x y = key_ltb (double_key x) (double_key y).
Proof.
  unfold dltb, SFltb, is_number.
  destruct x as [[]|[]| |[] m e], y as [[]|[]| |[] m' e']; cbn; try done; intros _ _;
    change (Pos.compare_cont Eq) with Pos.compare.
  - destruct (Z.compare_spec e e') as [->|H|H].
    + rewrite Z.ltb_irrefl, Z.eqb_refl. cbn. destruct (Pos.compare_spec m m') as [Em|H|H]; cbn [CompOpp];
        destruct (Z.ltb_spec (Z.neg m) (Z.neg m')); done || lia.
    + rewrite (proj2 (Z.ltb_ge _ _)), (proj2 (Z.eqb_neq _ _)) by lia. done.
    + by rewrite (proj2 (Z.ltb_lt _ _)) by lia.
  - destruct (Z.compare_spec e e') as [->|H|H].
    + rewrite Z.ltb_irrefl, Z.eqb_refl. cbn. destruct (Pos.compare_spec m m') as [Em|H|H]; destruct (Z.ltb_spec (Z.pos m) (Z.pos m')); done || lia.
    + by rewrite (proj2 (Z.ltb_lt _ _)) by lia.
    + rewrite (proj2 (Z.ltb_ge _ _)), (proj2 (Z.eqb_neq _ _)) by lia. done.
Qed.

Lemma dltb_irrefl x : is_number x -> dltb x x = false.
Proof. intros H. rewrite dltb_key by done. destruct (double_key x) as [[a b] c]. unfold key_ltb. lia. Qed.

Lemma dltb_weak x y z : is_number x -> is_number y -> is_number z -> dltb y x = false -> dltb z y = false -> dltb z x = false.
Proof.
  intros Hx Hy Hz. rewrite !dltb_key by done. destruct (double_key x) as [[a b] c], (double_key y) as [[d e] f], (double_key z) as [[g h] i].
  unfold key_ltb. lia.
Qed.

Lemma dltb_asym x y : is_number x -> is_number y -> dltb x y = true -> dltb y x = false.
Proof. intros Hx Hy. rewrite !dltb_key by done. destruct (double_key x) as [[a b] c], (double_key y) as [[d e] f]. unfold key_ltb. lia. Qed.

Lemma length_omap_all {A B} (f : A -> option B) l : Forall (fun x => is_Some (f x)) l -> length (omap f l) = length l.
Proof. induction 1 as [|x l [y Hy] _ IH]; [done|]. cbn. rewrite Hy. cbn. by rewrite IH. Qed.

Section policies.
Context {S : Type}.
#[local] Abbreviation ds := (DownstreamState S).

(** ** Fewest outstanding queries *)

(** Fewer outstanding queries, among equals a smaller order, among equals not slower. *)
Definition preferred (a b : ds) : Prop :=
  outstanding (inflight a) < outstanding (inflight b)
  \/ (outstanding (inflight a) = outstanding (inflight b)
      /\ (dc_order (d_config a) < dc_order (d_config b)
          \/ (dc_order (d_config a) = dc_order (d_config b) /\ dltb (getRelevantLatencyUsec b) (getRelevantLatencyUsec a) = false))).

Definition in_order (servers : list (Z * ds)) : Prop := StronglySorted (fun a b => dc_order (d_config (snd a)) <= dc_order (d_config (snd b))) servers.

(** Counters and latencies as a running dnsdist has them. *)
Definition sane (d : ds) : Prop := 0 <= outstanding (inflight d) < UINT64_MAX /\ is_number (getRelevantLatencyUsec d).

Lemma preferred_trans a b c : sane a -> sane b -> sane c -> preferred a b -> preferred b c -> preferred a c.
Proof.
  intros [_ Ha] [_ Hb] [_ Hc] [H|(E & [H|[E2 H]])] [H'|(E' & [H'|[E2' H']])]; unfold preferred; try lia.
  right. split; [lia|]. right. split; [lia|]. by apply (dltb_weak _ (getRelevantLatencyUsec b)).
Qed.

(** What the loop has seen. *)
Definition least_ok (seen : list (Z * ds)) (l : least) : Prop :=
  match l_best l with
  | None => Forall (fun s => accepts (snd s) = false) seen /\ l = mkLeast None UINT64_MAX INT_MAX DBL_MAX
  | Some n => exists d, (n, d) ∈ seen /\ accepts d = true
      /\ l = mkLeast (Some n) (outstanding (inflight d)) (dc_order (d_config d)) (getRelevantLatencyUsec d)
      /\ Forall (fun s => accepts (snd s) = true -> preferred d (snd s)) seen
  end.

Lemma least_step_ok seen l s :
  least_ok seen l -> Forall (fun x => sane (snd x)) (seen ++ [s]) -> Forall (fun x => dc_order (d_config (snd x)) <= dc_order (d_config (snd s))) seen ->
  least_ok (seen ++ [s]) (least_step l s).
Proof.
  intros Hl [Hseen [Hs _]%Forall_cons_1]%Forall_app Hord. destruct s as [n d]. cbn [snd] in *. unfold least_step.
  destruct (accepts d) eqn:Ea; cbn [negb].
  2: { unfold least_ok in *. destruct (l_best l) as [m|].
       - destruct Hl as (d' & Hin & Ha & El & Hall). exists d'. split_and!; [by apply elem_of_app; left|done|done|]. apply Forall_app. split; [done|].
         apply Forall_singleton. cbn. congruence.
       - destruct Hl as [Hall El]. split; [|done]. apply Forall_app. split; [done|]. by apply Forall_singleton. }
  assert (Forall (fun x => accepts (snd x) = true -> preferred d (snd x)) seen ->
    least_ok (seen ++ [(n, d)]) (mkLeast (Some n) (outstanding (inflight d)) (dc_order (d_config d)) (getRelevantLatencyUsec d))) as Hnew.
  { intros Hall. exists d. split_and!; [apply elem_of_app; right; by apply list_elem_of_singleton|done|done|]. apply Forall_app. split; [done|].
    apply Forall_singleton. intros _. right. split; [done|]. right. split; [done|]. apply dltb_irrefl, Hs. }
  unfold least_ok in Hl. destruct (l_best l) as [m|] eqn:Eb.
  - destruct Hl as (d' & Hin & Ha & El & Hall). subst l. cbn [l_outstanding l_order l_latency].
    assert (sane d') as Hd' by (rewrite Forall_forall in Hseen; apply (Hseen _ Hin)).
    assert (dc_order (d_config d') <= dc_order (d_config d)) as Ho by (rewrite Forall_forall in Hord; apply (Hord _ Hin)).
    assert (preferred d' d -> least_ok (seen ++ [(n, d)]) (mkLeast (Some m) (outstanding (inflight d')) (dc_order (d_config d')) (getRelevantLatencyUsec d'))) as Hold.
    { intros Hp. exists d'. split_and!; [by apply elem_of_app; left|done|done|]. apply Forall_app. split; [done|]. by apply Forall_singleton. }
    assert (preferred d d' -> Forall (fun x => accepts (snd x) = true -> preferred d (snd x)) seen) as Hbetter.
    { intros Hp. rewrite Forall_forall in Hall, Hseen |- *. intros x Hx Hax. eapply preferred_trans; [done|exact Hd'|by apply Hseen|done|by apply Hall]. }
    destruct (Z.ltb_spec (outstanding (inflight d')) (outstanding (inflight d))); [apply Hold; by left|].
    destruct (Z.ltb_spec (outstanding (inflight d)) (outstanding (inflight d'))); [apply Hnew, Hbetter; by left|].
    destruct (Z.ltb_spec (dc_order (d_config d')) (dc_order (d_config d))); [apply Hold; right; lia|].
    destruct (dltb (getRelevantLatencyUsec d) (getRelevantLatencyUsec d')) eqn:El.
    + apply Hnew, Hbetter. right. split; [lia|]. right. split; [lia|]. apply dltb_asym; [apply Hs|apply Hd'|done].
    + apply Hold. right. split; [lia|]. right. split; [lia|done].
  - destruct Hl as [Hall ->]. cbn [l_outstanding]. rewrite (proj2 (Z.ltb_ge _ _)), (proj2 (Z.ltb_lt _ _)) by (destruct Hs; lia).
    apply Hnew. eapply Forall_impl; [exact Hall|]. cbn. congruence.
Qed.

Lemma least_loop_ok servers : in_order servers -> Forall (fun x => sane (snd x)) servers ->
  least_ok servers (fold_left least_step servers (mkLeast None UINT64_MAX INT_MAX DBL_MAX)).
Proof.
  induction servers as [|s servers IH] using rev_ind; intros Hord Hs; [by split|]. rewrite fold_left_app. cbn [fold_left].
  apply StronglySorted_app in Hord as (H1 & H2 & H3). apply least_step_ok; [|done|].
  - apply IH; [done|]. by apply Forall_app in Hs as [? _].
  - apply Forall_forall. intros x Hx. apply H1; [done|by apply list_elem_of_singleton].
Qed.

(** A policy over several servers, or over one, chooses the preferred one. *)
Lemma getLeastOutstanding_spec servers : in_order servers -> Forall (fun x => sane (snd x)) servers ->
  match getLeastOutstanding servers with
  | Some n => exists d, (n, d) ∈ servers /\ accepts d = true /\ Forall (fun x => accepts (snd x) = true -> preferred d (snd x)) servers
  | None => Forall (fun x => accepts (snd x) = false) servers
  end.
Proof.
  intros Ho Hs. pose proof (least_loop_ok servers Ho Hs) as H. unfold getLeastOutstanding, least_ok in *.
  destruct (l_best _) as [n|]; [|by destruct H]. destruct H as (d & H1 & H2 & _ & H3). by exists d.
Qed.

(** ** Weights *)

Definition weight (d : ds) : Z := dc_weight (d_config d).
Definition total_weight (usable : ds -> bool) (servers : list (Z * ds)) : Z := foldr (fun x n => (if usable (snd x) then weight (snd x) else 0) + n) 0 servers.

(** Where a number falls when every usable server owns as many numbers as its weight. *)
Fixpoint share_of (usable : ds -> bool) (servers : list (Z * ds)) (v : Z) : option Z :=
  match servers with
  | [] => None
  | (n, d) :: servers => if usable d then if v <? weight d then Some n else share_of usable servers (v - weight d) else share_of usable servers v
  end.

Definition weights_positive (servers : list (Z * ds)) : Prop := Forall (fun x => 1 <= weight (snd x)) servers.

Lemma total_nonneg usable servers : weights_positive servers -> 0 <= total_weight usable servers.
Proof. induction 1 as [|x servers Hx _ IH]; [done|]. unfold total_weight in *. cbn [foldr]. destruct (usable _); lia. Qed.

Lemma weight_sums_spec usable servers sum : weights_positive servers -> 0 <= sum -> sum + total_weight usable servers <= INT_MAX ->
  let '(poss, total) := weight_sums usable servers sum in
  total = sum + total_weight usable servers /\ (poss = [] -> total = sum)
  /\ forall v, sum <= v -> snd <$> List.find (fun p => v <? fst p) poss = share_of usable servers (v - sum).
Proof.
  intros Hw. revert sum. induction Hw as [|[n d] servers Hd Hw IH]; intros sum Hs Hle; [cbn; split_and!; [lia|done|done]|].
  cbn [weight_sums share_of]. unfold total_weight in *. cbn [foldr snd] in *. cbn [snd] in Hd. pose proof (total_nonneg usable servers Hw) as Hn. unfold total_weight in Hn.
  destruct (usable d) eqn:Eu.
  - fold (weight d). rewrite (proj2 (Z.ltb_ge (INT_MAX - sum) (weight d))) by lia. specialize (IH (sum + weight d) ltac:(lia) ltac:(lia)).
    destruct (weight_sums usable servers (sum + weight d)) as [poss total]. destruct IH as (IH1 & _ & IH2). split_and!; [lia|done|].
    intros v Hv. cbn [List.find fst]. destruct (Z.ltb_spec v (sum + weight d)) as [H|H].
    + by rewrite (proj2 (Z.ltb_lt _ _)) by lia.
    + rewrite (proj2 (Z.ltb_ge _ _)), (IH2 v) by lia. f_equal. lia.
  - apply IH; lia.
Qed.

Lemma getValRandom_share usable servers v : weights_positive servers -> 0 < total_weight usable servers <= INT_MAX ->
  getValRandom usable servers v = share_of usable servers (v mod total_weight usable servers).
Proof.
  intros Hw Ht. pose proof (weight_sums_spec usable servers 0 Hw ltac:(lia) ltac:(lia)) as H. unfold getValRandom.
  destruct (weight_sums usable servers 0) as [poss total]. destruct H as (H1 & H2 & H3). rewrite Z.add_0_l in H1. subst total.
  rewrite (proj2 (Z.eqb_neq _ _)) by lia. rewrite bool_decide_eq_false_2 by (intros E; specialize (H2 E); lia). cbn [orb]. cbv zeta.
  rewrite H3 by (apply Z.mod_pos_bound; lia). by rewrite Z.sub_0_r.
Qed.

(** The numbers that fall to a server. *)
Lemma share_count usable servers n d start : weights_positive servers -> NoDup (map fst servers) -> (n, d) ∈ servers -> usable d = true ->
  zlen (List.filter (fun v => bool_decide (share_of usable servers (v - start) = Some n)) (seqZ start (total_weight usable servers))) = weight d.
Proof.
  assert (forall servers n start, n ∉ map fst servers -> forall v, share_of usable servers (v - start) <> Some n) as Hnot.
  { intros l k st. revert st. induction l as [|[m e] l IH]; intros st Hk v; [done|]. apply not_elem_of_cons in Hk as [Hne Hk]. cbn [share_of].
    destruct (usable e); [|by apply IH]. destruct (_ <? _); [by intros [= ?]|]. rewrite <- Z.sub_add_distr. by apply IH. }
  assert (forall (p : Z -> bool) l, (forall v, v ∈ l -> p v = false) -> List.filter p l = []) as Hnone.
  { intros p l. induction l as [|x l IH]; intros H; [done|]. cbn. rewrite H by left. apply IH. intros v Hv. apply H. by right. }
  assert (forall (p : Z -> bool) l, (forall v, v ∈ l -> p v = true) -> List.filter p l = l) as Hallf.
  { intros p l. induction l as [|x l IH]; intros H; [done|]. cbn. rewrite H by left. f_equal. apply IH. intros v Hv. apply H. by right. }
  intros Hw. revert start. induction Hw as [|[m e] servers He Hw IH]; intros start Hd Hin Hu; [by apply elem_of_nil in Hin|].
  apply NoDup_cons in Hd as [Hm Hd]. cbn [fst snd] in *. pose proof (total_nonneg usable servers Hw) as Hn.
  unfold total_weight in *. cbn [foldr snd share_of] in *. apply elem_of_cons in Hin as [[= <- <-]|Hin].
  - rewrite Hu. rewrite seqZ_app, List.filter_app by lia. rewrite (Hallf _ (seqZ start (weight d))), Hnone.
    + rewrite app_nil_r. unfold zlen. rewrite length_seqZ. lia.
    + intros v Hv%elem_of_seqZ. rewrite (proj2 (Z.ltb_ge _ _)) by lia. apply bool_decide_eq_false. rewrite <- Z.sub_add_distr. by apply Hnot.
    + intros v Hv%elem_of_seqZ. rewrite (proj2 (Z.ltb_lt _ _)) by lia. by apply bool_decide_eq_true.
  - assert (n <> m) as Hne by (intros ->; apply Hm; by apply (list_elem_of_fmap_2 fst servers (m, d))).
    destruct (usable e) eqn:Ee; [|by apply IH]. rewrite seqZ_app, List.filter_app by lia. rewrite (Hnone _ (seqZ start (weight e))).
    + cbn [app]. rewrite <- (IH (start + weight e) Hd Hin Hu). f_equal. apply filter_ext_in. intros v Hv%list_elem_of_In%elem_of_seqZ.
      rewrite (proj2 (Z.ltb_ge _ _)) by lia. by rewrite <- Z.sub_add_distr.
    + intros v Hv%elem_of_seqZ. rewrite (proj2 (Z.ltb_lt _ _)) by lia. apply bool_decide_eq_false. congruence.
Qed.

(** The server of a position of the table is usable, also where the sum of the weights
    saturates. *)
Lemma weight_sums_usable usable (servers : list (Z * ds)) sum :
  Forall (fun p => exists d, (snd p, d) ∈ servers /\ usable d = true) (fst (weight_sums usable servers sum)).
Proof.
  revert sum. induction servers as [|[n d] servers IH]; intros sum; [constructor|]. cbn [weight_sums].
  assert (forall sum, Forall (fun p => exists d', (snd p, d') ∈ (n, d) :: servers /\ usable d' = true) (fst (weight_sums usable servers sum))) as H.
  { intros sum'. eapply Forall_impl; [apply IH|]. intros p (d' & H1 & H2). exists d'. split; [by right|done]. }
  destruct (usable d) eqn:Eu; [|apply H]. cbv zeta. set (sum' := if _ <? _ then _ else _). specialize (H sum').
  destruct (weight_sums usable servers sum') as [poss total]. constructor; [|exact H]. exists d. split; [left|done].
Qed.

Lemma getValRandom_usable usable (servers : list (Z * ds)) v n : getValRandom usable servers v = Some n -> exists d, (n, d) ∈ servers /\ usable d = true.
Proof.
  unfold getValRandom. pose proof (weight_sums_usable usable servers 0) as H. destruct (weight_sums usable servers 0) as [poss total].
  destruct (_ || _); [done|]. cbv zeta. destruct (List.find _ poss) as [p|] eqn:E; [|done]. intros [= <-].
  apply find_some in E as [E _]. rewrite Forall_forall in H. apply H. by apply list_elem_of_In.
Qed.

(** C24: random choices are weighted. Of the numbers below the sum of the weights of the
    usable servers, exactly as many choose a server as its weight says, for every
    usable server and whatever the balancing factor; the sum has to fit an [int]. *)
Theorem wrandom_weighted factor servers n d :
  let usable := below_target factor (target_load factor servers) in
  weights_positive servers -> NoDup (map fst servers) -> total_weight usable servers <= INT_MAX -> (n, d) ∈ servers -> usable d = true ->
  zlen (List.filter (fun v => bool_decide (wrandom factor v servers = Some n)) (seqZ 0 (total_weight usable servers))) = weight d.
Proof.
  intros usable Hw Hd Ht Hin Hu. rewrite <- (share_count usable servers n d 0 Hw Hd Hin Hu). f_equal. apply filter_ext_in.
  intros v Hv%list_elem_of_In%elem_of_seqZ. unfold wrandom, valrandom. fold usable.
  by rewrite getValRandom_share, Z.mod_small, Z.sub_0_r by (done || lia).
Qed.

(** ** Consistent hashing *)

(** The first element with the least value below a bound. *)
Definition least_first {A} (f : A -> option Z) (l : list A) (start : Z * option A) : Z * option A :=
  fold_left (fun '(b, r) x => match f x with Some v => if v <? b then (v, Some x) else (b, r) | None => (b, r) end) l start.

(** [x] is found, with the value [v]: those before it have greater values, those after
    it none that is less. *)
Lemma least_first_found {A} (f : A -> option Z) l1 x l2 b r v :
  f x = Some v -> v < b -> Forall (fun y => forall w, f y = Some w -> v < w) l1 -> Forall (fun y => forall w, f y = Some w -> v <= w) l2 ->
  least_first f (l1 ++ x :: l2) (b, r) = (v, Some x).
Proof.
  intros Hx Hv H1 H2. unfold least_first. rewrite fold_left_app. revert b r Hv. induction H1 as [|y l1 Hy _ IH]; intros b r Hv; cbn [fold_left].
  - rewrite Hx, (proj2 (Z.ltb_lt _ _)) by lia. clear Hv. induction H2 as [|y l2 Hy _ IH]; [done|]. cbn [fold_left].
    destruct (f y) as [w|]; [|done]. by rewrite (proj2 (Z.ltb_ge _ _)) by (by apply Hy).
  - destruct (f y) as [w|] eqn:Ey; [|by apply IH]. specialize (Hy w eq_refl). destruct (Z.ltb_spec w b); apply IH; lia.
Qed.

Lemma least_first_none {A} (f : A -> option Z) l b r : Forall (fun y => forall w, f y = Some w -> b <= w) l -> least_first f l (b, r) = (b, r).
Proof.
  unfold least_first. induction 1 as [|y l Hy _ IH]; [done|]. cbn [fold_left].
  destruct (f y) as [w|]; [|done]. by rewrite (proj2 (Z.ltb_ge _ _)) by (by apply Hy).
Qed.

Lemma least_first_cases {A} (f : A -> option Z) l b :
  Forall (fun y => forall w, f y = Some w -> b <= w) l
  \/ exists l1 x l2 v, l = l1 ++ x :: l2 /\ f x = Some v /\ v < b /\ Forall (fun y => forall w, f y = Some w -> v < w) l1
       /\ Forall (fun y => forall w, f y = Some w -> v <= w) l2.
Proof.
  induction l as [|y l IH]; [by left|]. destruct IH as [IH|(l1 & x & l2 & v & -> & Hx & Hv & H1 & H2)].
  - destruct (f y) as [w|] eqn:Ey.
    + destruct (decide (w < b)) as [Hlt|Hge].
      * right. exists [], y, l, w. split_and!; [done..|]. eapply Forall_impl; [exact IH|]. intros z Hz u Eu. specialize (Hz u Eu). lia.
      * left. constructor; [|done]. intros u Eu. assert (u = w) by congruence. lia.
    + left. constructor; [congruence|done].
  - right. destruct (f y) as [w|] eqn:Ey; [destruct (decide (w <= v)) as [Hle|Hgt]|].
    + exists [], y, (l1 ++ x :: l2), w. split_and!; [done|done|lia|done|]. apply Forall_app. split; [|constructor].
      * eapply Forall_impl; [exact H1|]. intros z Hz u Eu. specialize (Hz u Eu). lia.
      * intros u Eu. assert (u = v) by congruence. lia.
      * eapply Forall_impl; [exact H2|]. intros z Hz u Eu. specialize (Hz u Eu). lia.
    + exists (y :: l1), x, l2, v. split_and!; [done..| |done]. constructor; [|done]. intros u Eu. assert (u = w) by congruence. lia.
    + exists (y :: l1), x, l2, v. split_and!; [done..| |done]. constructor; [congruence|done].
Qed.

(** Leaving out others than the one found changes nothing. *)
Lemma least_first_sub {A} (f : A -> option Z) (keep : A -> bool) l b :
  (forall x, snd (least_first f l (b, None)) = Some x -> keep x = true) ->
  least_first f (List.filter keep l) (b, None) = least_first f l (b, None).
Proof.
  assert (forall (P : A -> Prop) l, Forall P l -> Forall P (List.filter keep l)) as Hf.
  { intros P l'. rewrite !Forall_forall. intros H x [Hx _]%list_elem_of_In%filter_In. apply H. by apply list_elem_of_In. }
  intros Hk. destruct (least_first_cases f l b) as [H|(l1 & x & l2 & v & -> & Hx & Hv & H1 & H2)].
  - by rewrite !least_first_none by auto.
  - rewrite (least_first_found f l1 x l2 b None v) in Hk |- * by done. rewrite List.filter_app. cbn [List.filter]. rewrite (Hk x) by done.
    apply least_first_found; auto.
Qed.

(** The hashes of a server, computed when they are needed. *)
Definition hashes_of (perturbation : Z) (d : ds) : list Z := hashes (if hashesComputed d then d else ds_hash perturbation d).

(** A usable server on the ring: its position and its hashes. *)
Definition on_ring (usable : ds -> bool) (perturbation : Z) (servers : list (Z * ds)) : list (Z * list Z) :=
  omap (fun '(n, d) => if usable d then Some (n, hashes_of perturbation d) else None) servers.

Definition next_hash (qhash : Z) (x : Z * list Z) : option Z := List.find (fun h => negb (h <? qhash)) (snd x).
Definition first_hash (x : Z * list Z) : option Z := head (snd x).

Lemma ring_fold qhash l r s m fst0 :
  fold_left (fun r x => ring_step qhash (fst x) (snd x) r) l (mkRing s (fst <$> r) m (fst <$> fst0))
  = let '(s', r') := least_first (next_hash qhash) l (s, r) in
    let '(m', f') := least_first first_hash l (m, fst0) in mkRing s' (fst <$> r') m' (fst <$> f').
Proof.
  unfold least_first. revert r s m fst0. induction l as [|[n hs] l IH]; intros r s m fst0; [done|]. cbn [fold_left fst snd].
  unfold ring_step, next_hash at 2, first_hash at 2. cbn [snd].
  destruct hs as [|h hs]; cbn [head List.find].
  - apply IH.
  - cbn [r_min r_sel r_ret r_first]. destruct (h <? m); cbn [r_min r_sel r_ret r_first].
    all: destruct (if negb (h <? qhash) then Some h else List.find _ hs) as [w|]; [destruct (w <? s)|].
    all: first [exact (IH (Some (n, h :: hs)) w h (Some (n, h :: hs))) | exact (IH r s h (Some (n, h :: hs))) | exact (IH (Some (n, h :: hs)) w m fst0) | exact (IH r s m fst0)].
Qed.

#[local] Abbreviation store := (list (DownstreamState S)).

Lemma accepts_hash perturbation (d : ds) : accepts (ds_hash perturbation d) = accepts d.
Proof.
  unfold accepts, canAcceptNewQueries. change (isUp (ds_hash perturbation d)) with (isUp d). destruct (negb (isUp d)); [done|].
  change (inflight (ds_hash perturbation d)) with (inflight d). change (d_config (ds_hash perturbation d)) with (d_config d). by destruct (_ && _).
Qed.

(** Hashes that are computed on the way change nothing else. *)
Definition same_but_hashes (perturbation : Z) (d d0 : ds) : Prop := d = d0 \/ (hashesComputed d0 = false /\ d = ds_hash perturbation d0).

Lemma chashed_loop_ring usable perturbation qhash servers r st st0 :
  (forall d, usable (ds_hash perturbation d) = usable d) -> Forall2 (same_but_hashes perturbation) st st0 ->
  snd (chashed_loop usable perturbation qhash servers r st)
  = fold_left (fun r x => ring_step qhash (fst x) (snd x) r) (on_ring usable perturbation (view st0 servers)) r.
Proof.
  intros Hu. revert r st. induction servers as [|[n p] servers IH]; intros r st Hst; [done|]. cbn [chashed_loop].
  unfold view, on_ring in *. cbn [omap list_omap]. destruct (st !! p) as [d|] eqn:Ed.
  - destruct (Forall2_lookup_l _ _ _ _ _ Hst Ed) as (d0 & Ed0 & Hd). rewrite Ed0. cbn [fmap option_fmap option_map omap list_omap].
    assert (usable d = usable d0) as -> by (destruct Hd as [->|[_ ->]]; [done|apply Hu]).
    destruct (usable d0); [|by apply IH]. cbn [fold_left fst snd].
    set (d' := if hashesComputed d then d else ds_hash perturbation d).
    assert (hashes d' = hashes_of perturbation d0 /\ same_but_hashes perturbation d' d0) as [E Hd'].
    { unfold d', hashes_of. destruct Hd as [->|[E0 ->]]; [|cbn; by rewrite E0; split; [|right]].
      split; [done|]. destruct (hashesComputed d0) eqn:E0; [by left|by right]. }
    rewrite E. apply IH. rewrite <- (list_insert_id st0 p d0) by done. by apply Forall2_insert.
  - assert (st0 !! p = None) as -> by (apply lookup_ge_None; rewrite <- (Forall2_length _ _ _ Hst); by apply lookup_ge_None). by apply IH.
Qed.

(** The choice from the ring. *)
Definition ring_choice (qhash : Z) (l : list (Z * list Z)) : option Z :=
  match snd (least_first (next_hash qhash) l (UINT_MAX, None)) with
  | Some x => Some (fst x)
  | None => fst <$> snd (least_first first_hash l (UINT_MAX, None))
  end.

Lemma chashed_choice factor perturbation servers qhash (st : store) :
  snd (chashedFromHash factor perturbation servers qhash st)
  = ring_choice qhash (on_ring (below_target factor (target_load factor (view st servers))) perturbation (view st servers)).
Proof.
  unfold chashedFromHash. cbv zeta. set (usable := below_target _ _). set (l := on_ring _ _ _).
  pose proof (chashed_loop_ring usable perturbation qhash servers (mkRing UINT_MAX None UINT_MAX None) st st) as H.
  fold l in H. change (mkRing UINT_MAX None UINT_MAX None) with (mkRing UINT_MAX (@fst Z (list Z) <$> None) UINT_MAX (@fst Z (list Z) <$> None)) in H at 2.
  rewrite ring_fold in H. unfold ring_choice.
  destruct (chashed_loop _ _ _ _ _ _) as [st' r]. cbn [snd] in *. rewrite H; [|intros d; unfold usable, below_target; by rewrite accepts_hash|].
  - destruct (least_first (next_hash qhash) l (UINT_MAX, None)) as [s [x|]]; destruct (least_first first_hash l (UINT_MAX, None)) as [m [y|]]; done.
  - apply Forall_Forall2_diag, Forall_forall. intros d _. by left.
Qed.

Lemma on_ring_filter usable perturbation (keep : Z -> bool) servers (st : store) :
  on_ring usable perturbation (view st (List.filter (fun x => keep (fst x)) servers))
  = List.filter (fun x => keep (fst x)) (on_ring usable perturbation (view st servers)).
Proof.
  unfold on_ring, view. induction servers as [|[n p] servers IH]; [done|]. cbn [List.filter fst omap list_omap].
  destruct (keep n) eqn:Ek; cbn [omap list_omap]; (destruct (st !! p) as [d|]; cbn [fmap option_fmap option_map omap list_omap]; [destruct (usable d); cbn [List.filter fst]; rewrite ?Ek|]);
    by rewrite ?IH.
Qed.

(** C25: hashing is consistent. Without a balancing factor, a query keeps its server when
    any others go away; so a server that is added takes over queries, but none moves
    between the servers that were there. *)
Theorem chashed_consistent factor perturbation servers qhash (st : store) (keep : Z -> bool) n :
  SFeqb factor (dbl 0) = true -> snd (chashedFromHash factor perturbation servers qhash st) = Some n -> keep n = true ->
  snd (chashedFromHash factor perturbation (List.filter (fun x => keep (fst x)) servers) qhash st) = Some n.
Proof.
  intros Hf. rewrite !chashed_choice.
  assert (forall t l, on_ring (below_target factor t) perturbation l = on_ring accepts perturbation l) as Hb.
  { intros t l. apply list_omap_ext, Forall2_same_length_lookup_2; [done|]. intros i [a d] [b e] E1 E2. rewrite E1 in E2. injection E2 as <- <-.
    unfold below_target. rewrite Hf. cbn. by rewrite andb_true_r. }
  rewrite !Hb, on_ring_filter. set (l := on_ring _ _ _). unfold ring_choice. intros Hn Hk.
  rewrite least_first_sub.
  - destruct (snd (least_first (next_hash qhash) l (UINT_MAX, None))) as [x|]; [done|]. rewrite least_first_sub; [done|].
    intros x Hx. rewrite Hx in Hn. injection Hn as <-. done.
  - intros x Hx. rewrite Hx in Hn. injection Hn as <-. done.
Qed.

(** ** In turn *)

Fixpoint rr_calls (fail : bool) (servers : list (Z * ds)) (k : nat) (counter : Z) : list (option Z) :=
  match k with O => [] | Datatypes.S k => let '(counter, r) := roundrobin fail servers counter in r :: rr_calls fail servers k counter end.

Definition all_accept (servers : list (Z * ds)) : Prop := Forall (fun x => accepts (snd x) = true) servers.

Lemma roundrobin_turn fail servers counter : servers <> [] -> all_accept servers -> 0 <= counter < 2 ^ 32 ->
  roundrobin fail servers counter = (u32 (counter + 1), fst <$> servers !! Z.to_nat (counter mod zlen servers)).
Proof.
  intros Hne Ha Hc. unfold roundrobin. destruct servers as [|s0 rest]; [done|]. set (servers := s0 :: rest) in *. cbv zeta. f_equal.
  pose proof (Z.mod_pos_bound counter (zlen servers)) as Hb. destruct (lookup_lt_is_Some_2 servers (Z.to_nat (counter mod zlen servers))) as [[n d] E].
  { unfold zlen in *. assert (0 < Z.of_nat (length servers)) by (cbn; lia). lia. }
  rewrite E. unfold all_accept in Ha. rewrite Forall_lookup in Ha. specialize (Ha _ _ E). cbn in Ha. by rewrite Ha.
Qed.

Lemma rr_calls_turns fail servers k counter : servers <> [] -> all_accept servers -> 0 <= counter -> counter + Z.of_nat k <= 2 ^ 32 ->
  rr_calls fail servers k counter = map (fun i => fst <$> servers !! Z.to_nat ((counter + Z.of_nat i) mod zlen servers)) (seq 0 k).
Proof.
  intros Hne Ha. revert counter. induction k as [|k IH]; intros counter Hc Hk; [done|]. cbn [rr_calls].
  rewrite roundrobin_turn by (done || lia). cbn [seq map]. rewrite Z.add_0_r. f_equal. destruct k as [|k]; [done|].
  assert (u32 (counter + 1) = counter + 1) as -> by (unfold u32; apply Z.mod_small; lia). rewrite IH by lia. rewrite <- (fmap_S_seq 0). change (fmap Datatypes.S) with (map Datatypes.S). rewrite map_map.
  apply map_ext. intros i. by replace (counter + Z.of_nat (Datatypes.S i)) with (counter + 1 + Z.of_nat i) by lia.
Qed.

(** The turns that begin in the middle of the vector go once around it. *)
Lemma turns_rotate {A} (l : list A) (c : Z) : l <> [] -> 0 <= c ->
  map (fun i => l !! Z.to_nat ((c + Z.of_nat i) mod zlen l)) (seq 0 (length l)) ≡ₚ map Some l.
Proof.
  intros Hne Hc. assert (0 < zlen l) as Hn by (destruct l; [done|]; unfold zlen; cbn; lia).
  set (k := Z.to_nat (c mod zlen l)). pose proof (Z.mod_pos_bound c (zlen l) Hn) as Hb.
  transitivity (map Some (drop k l ++ take k l)).
  2: { apply Permutation_map. rewrite Permutation_app_comm. by rewrite take_drop. }
  match goal with |- ?a ≡ₚ ?b => assert (a = b) as ->; [|done] end. apply list_eq_same_length with (length l); [by rewrite length_map, length_app, length_drop, length_take; unfold zlen in *; lia|by rewrite length_map, length_seq|].
  intros i x y Hi. rewrite !list_lookup_fmap, lookup_seq_lt by done. cbn [fmap option_fmap option_map Nat.add].
  assert ((c + Z.of_nat i) mod zlen l = if decide (i < length l - k)%nat then c mod zlen l + Z.of_nat i else c mod zlen l + Z.of_nat i - zlen l) as ->.
  { pose proof (Z.div_mod c (zlen l) ltac:(lia)) as Hdm. unfold zlen in *. case_decide.
    - symmetry. apply Z.mod_unique with (c / Z.of_nat (length l)); lia.
    - symmetry. apply Z.mod_unique with (c / Z.of_nat (length l) + 1); lia. }
  case_decide as Hlt.
  - rewrite lookup_app_l by (rewrite length_drop; lia). rewrite lookup_drop. replace (Z.to_nat (c mod zlen l + Z.of_nat i)) with (k + i)%nat by lia. destruct (l !! _); [by intros [= <-] [= <-]|done].
  - rewrite lookup_app_r by (rewrite length_drop; lia). rewrite length_drop, lookup_take_lt by (unfold zlen in *; lia).
    replace (Z.to_nat (c mod zlen l + Z.of_nat i - zlen l)) with (i - (length l - k))%nat by (unfold zlen in *; lia).
    destruct (l !! _); [by intros [= <-] [= <-]|done].
Qed.

(** turns are fair. When all servers take queries, as many calls in a row as there are
    servers choose each server once, wherever the counter is, until it wraps
    around. *)
Theorem roundrobin_fair fail servers counter : servers <> [] -> all_accept servers -> 0 <= counter -> counter + zlen servers <= 2 ^ 32 ->
  rr_calls fail servers (length servers) counter ≡ₚ map (fun x => Some (fst x)) servers.
Proof.
  intros Hne Ha Hc Hk. rewrite rr_calls_turns by done.
  rewrite <- (map_map (fun i => servers !! Z.to_nat ((counter + Z.of_nat i) mod zlen servers)) (fmap fst)), (turns_rotate servers counter Hne Hc).
  by rewrite map_map.
Qed.

(** ** By order *)

Section ordered.
Context (tagged : bytes -> bool).

(** The servers among which the policy chooses. *)
Definition eligible (d : ds) : bool := accepts d && negb (tagged (dc_nameWithAddr (d_config d))).
Definition order (x : Z * ds) : Z := dc_order (d_config (snd x)).

Lemma candidates_at o servers : in_order servers -> Forall (fun x => o <= order x) servers ->
  ordered_candidates tagged o servers = List.filter (fun x => eligible (snd x) && (order x =? o)) servers.
Proof.
  intros Hs Ho. induction Hs as [|[n d] servers Hs IH Hd]; [done|]. apply Forall_cons in Ho as [Hod Ho]. cbn [ordered_candidates List.filter snd].
  unfold order in *. cbn [snd] in *. fold (eligible d). destruct (eligible d); cbn [andb]; [|by apply IH].
  destruct (Z.ltb_spec o (dc_order (d_config d))) as [Hlt|Hge].
  - rewrite (proj2 (Z.eqb_neq _ _)) by lia. clear -Hd Hlt. induction Hd as [|x servers Hx _ IH]; [done|]. cbn [List.filter].
    rewrite (proj2 (Z.eqb_neq (dc_order (d_config (snd x))) o)) by (cbn in Hx; lia). by rewrite andb_false_r.
  - assert (dc_order (d_config d) = o) as -> by lia. rewrite Z.eqb_refl. f_equal. by apply IH.
Qed.

Lemma candidates_spec servers x : in_order servers -> Forall (fun x => order x <= INT_MAX) servers ->
  x ∈ ordered_candidates tagged INT_MAX servers
  <-> x ∈ servers /\ eligible (snd x) = true /\ Forall (fun y => eligible (snd y) = true -> order x <= order y) servers.
Proof.
  intros Hs Hmax. induction Hs as [|[n d] servers Hs IH Hd]; [split; [intros H; by apply elem_of_nil in H|intros [H _]; by apply elem_of_nil in H]|].
  apply Forall_cons in Hmax as [Hm Hmax]. specialize (IH Hmax). cbn [ordered_candidates]. fold (eligible d).
  change (Forall (fun y => order (n, d) <= order y) servers) in Hd. destruct (eligible d) eqn:Ee.
  - unfold order in Hm. cbn [snd] in Hm. rewrite (proj2 (Z.ltb_ge _ _)) by lia. change (dc_order (d_config d)) with (order (n, d)). rewrite candidates_at by done.
    rewrite !elem_of_cons, Forall_cons. cbn [snd]. split.
    + intros [->|[Hin [He Ho%Z.eqb_eq]%andb_prop]%list_elem_of_In%filter_In].
      * split_and!; [by left|done|done|]. eapply Forall_impl; [exact Hd|]. auto.
      * apply list_elem_of_In in Hin. split_and!; [by right|done|cbv beta; intros _; lia|]. eapply Forall_impl; [exact Hd|]. intros y Hy _. cbv beta in *. lia.
    + intros ([->|Hin] & He & Ho & _); [by left|]. right. apply list_elem_of_In, filter_In. split; [by apply list_elem_of_In|]. rewrite He. cbn.
      apply Z.eqb_eq. specialize (Ho Ee). rewrite Forall_forall in Hd. specialize (Hd x Hin). lia.
  - rewrite IH, elem_of_cons, Forall_cons. cbn [snd]. split.
    + intros (H1 & H2 & H3). split_and!; [by right|done|congruence|done].
    + intros ([->|H1] & H2 & _ & H3); [cbn in H2; congruence|done].
Qed.
End ordered.

(** ** What any policy may choose *)

(** The vector of a pool: numbered from one, with pointers into the store. *)
Record vector_ok (st : store) (servers : list (Z * nat)) : Prop := {
  vo_numbers : map fst servers = seqZ 1 (zlen servers);
  vo_pointers : Forall (fun x => is_Some (st !! snd x)) servers;
}.

(** The backend that is selected. *)
Definition backend_at (st : store) (servers : list (Z * nat)) (position : option Z) : option ds :=
  k ← selected_index position servers; x ← servers !! k; st !! snd x.

Lemma elem_of_view st servers n (d : ds) : (n, d) ∈ view st servers <-> exists p, (n, p) ∈ servers /\ st !! p = Some d.
Proof.
  unfold view. rewrite list_elem_of_omap. split.
  - intros ([m p] & Hin & E). destruct (st !! p) as [e|] eqn:Ep; [|done]. injection E as -> ->. by exists p.
  - intros (p & Hin & E). exists (n, p). by rewrite E.
Qed.

(** A position of the vector stands for its server. *)
Lemma position_backend st servers n (d : ds) : vector_ok st servers -> (n, d) ∈ view st servers -> backend_at st servers (Some n) = Some d.
Proof.
  intros [Hn _] (p & Hin & E)%elem_of_view. apply list_elem_of_lookup in Hin as [k Hk].
  assert (map fst servers !! k = Some n) as Hf by (by rewrite list_lookup_fmap, Hk). rewrite Hn in Hf. apply lookup_seqZ in Hf as [-> Hlt].
  apply lookup_lt_Some in Hk as Hl. unfold backend_at, selected_index. unfold zlen.
  rewrite (proj2 (Z.ltb_lt _ _)), (proj2 (Z.leb_le _ _)) by lia. cbn [andb mbind option_bind].
  replace (Z.to_nat (1 + Z.of_nat k - 1)) with k by lia. by rewrite Hk.
Qed.

Definition takes_queries (st : store) (servers : list (Z * nat)) (position : option Z) : Prop :=
  position = None \/ exists d, backend_at st servers position = Some d /\ accepts d = true.

Lemma takes_view st servers position :
  vector_ok st servers -> (forall n, position = Some n -> exists d, (n, d) ∈ view st servers /\ accepts d = true) -> takes_queries st servers position.
Proof.
  intros Hv H. destruct position as [n|]; [|by left]. right. destruct (H n eq_refl) as (d & Hin & Ha). exists d. split; [|done]. by apply position_backend.
Qed.

Lemma least_sound (servers : list (Z * ds)) n : getLeastOutstanding servers = Some n -> exists d, (n, d) ∈ servers /\ accepts d = true.
Proof.
  unfold getLeastOutstanding. enough (forall l : least, (forall m, l_best l = Some m -> exists d, (m, d) ∈ servers /\ accepts d = true) ->
    forall l', l' ⊆ servers -> forall m, l_best (fold_left least_step l' l) = Some m -> exists d, (m, d) ∈ servers /\ accepts d = true) as H
    by (apply (H (mkLeast None UINT64_MAX INT_MAX DBL_MAX)); done).
  intros l Hl l'. revert l Hl. induction l' as [|[m d] l' IH]; intros l Hl Hsub; [exact Hl|]. cbn [fold_left]. apply IH; [|intros x Hx; apply Hsub; by right].
  intros k. unfold least_step. destruct (accepts d) eqn:Ea; cbn [negb]; [|apply Hl].
  assert (forall o r t, l_best (mkLeast (Some m) o r t) = Some k -> exists d, (k, d) ∈ servers /\ accepts d = true) as Hnew.
  { intros o r t [= <-]. exists d. split; [apply Hsub; left|done]. }
  repeat (destruct (_ <? _); [apply Hl || apply Hnew|]). destruct (dltb _ _); [apply Hnew|apply Hl].
Qed.

(** The only server of a vector has the position 1. *)
Lemma single_position st servers n (d : ds) : vector_ok st servers -> view st servers = [(n, d)] -> n = 1.
Proof.
  intros [Hn Hp] Ev. assert ((n, d) ∈ view st servers) as (p & Hin & _)%elem_of_view by (rewrite Ev; by left).
  assert (length servers = 1%nat) as Hlen.
  { rewrite <- (length_omap_all (fun '(n, p) => pair n <$> st !! p) servers); [change (length (view st servers) = 1%nat); by rewrite Ev|].
    eapply Forall_impl; [exact Hp|]. intros [a b] [e He]. cbn in He. rewrite He. by eexists. }
  destruct servers as [|[a b] [|? ?]]; [done| |done]. cbn in Hn. injection Hn as ->. apply list_elem_of_singleton in Hin. by injection Hin as -> _.
Qed.

Lemma leastOutstanding_ok st servers : vector_ok st servers -> takes_queries st servers (leastOutstanding (view st servers)).
Proof.
  intros Hv. apply takes_view; [done|]. intros n. unfold leastOutstanding.
  assert (getLeastOutstanding (view st servers) = Some n -> exists d, (n, d) ∈ view st servers /\ accepts d = true) as H by apply least_sound.
  destruct (view st servers) as [|[m d] [|y l]] eqn:Ev; [apply H| |apply H]. destruct (accepts d) eqn:Ea; [|apply H].
  intros [= <-]. exists d. split; [|done]. rewrite (single_position _ _ _ _ Hv Ev). by left.
Qed.

(** Reading the limiter tells no less than [accepts], and changes only the limiter. *)
Lemma canAccept_accepts b now (d d' : ds) r :
  canAcceptNewQueries b now d = (d', r) -> accepts d' = accepts d /\ (r = true -> accepts d = true).
Proof.
  assert (forall q, accepts (ds_set_limiter q d) = accepts d) as Hq.
  { intros q. unfold accepts, canAcceptNewQueries. change (isUp (ds_set_limiter q d)) with (isUp d). destruct (negb (isUp d)); [done|].
    change (inflight (ds_set_limiter q d)) with (inflight d). change (d_config (ds_set_limiter q d)) with (d_config d). by destruct (_ && _). }
  unfold canAcceptNewQueries at 1. destruct (negb (isUp d)) eqn:Eu; [by intros [= <- <-]|]. destruct (_ && _) eqn:Eo; [by intros [= <- <-]|].
  assert (accepts d = true) as Ha by (unfold accepts, canAcceptNewQueries; by rewrite Eu, Eo).
  destruct b; [|by intros [= <- <-]]. destruct (d_qpsLimiter d) as [q|]; [|by intros [= <- <-]].
  destruct (checkOnly now q) as [q' t]. intros [= <- <-]. by rewrite Hq.
Qed.

Lemma first_loop_ok clock servers (st st' : store) r :
  first_loop clock servers st = (st', r) ->
  length st' = length st /\ forall n, r = Some n -> exists p d, (n, p) ∈ servers /\ st' !! p = Some d /\ accepts d = true.
Proof.
  revert clock st. induction servers as [|[n p] servers IH]; intros clock st; cbn [first_loop]; [by intros [= <- <-]|].
  assert (forall st1, length st1 = length st -> first_loop (fun k => clock (Datatypes.S k)) servers st1 = (st', r) ->
    length st' = length st /\ forall m, r = Some m -> exists q d, (m, q) ∈ (n, p) :: servers /\ st' !! q = Some d /\ accepts d = true) as Hrec.
  { intros st1 Hl E. destruct (IH _ _ E) as [H1 H2]. split; [by rewrite H1|]. intros m Hm. destruct (H2 m Hm) as (q & d & Hin & Hq). exists q, d. split; [by right|done]. }
  destruct (st !! p) as [d|] eqn:Ed; [|by apply Hrec]. destruct (canAcceptNewQueries true (clock 0%nat) d) as [d' b] eqn:Ec.
  destruct (canAccept_accepts _ _ _ _ _ Ec) as [H1 H2]. destruct b; [|apply Hrec; apply length_insert].
  intros [= <- <-]. split; [apply length_insert|]. intros m [= <-]. exists p, d'.
  split_and!; [left|apply list_lookup_insert_eq; by eapply lookup_lt_Some|by rewrite H1, H2].
Qed.

Lemma vector_ok_length (st st' : store) servers : length st' = length st -> vector_ok st servers -> vector_ok st' servers.
Proof.
  intros Hl [H1 H2]. split; [done|]. eapply Forall_impl; [exact H2|]. intros x. rewrite !lookup_lt_is_Some. by rewrite Hl.
Qed.

Lemma firstAvailable_ok clock servers (st : store) :
  vector_ok st servers -> let '(st', r) := firstAvailable clock servers st in takes_queries st' servers r.
Proof.
  intros Hv. unfold firstAvailable. destruct (first_loop clock servers st) as [st' r] eqn:E. destruct (first_loop_ok _ _ _ _ _ E) as [Hl H].
  apply (vector_ok_length _ st') in Hv; [|done]. destruct r as [n|]; [|by apply leastOutstanding_ok].
  apply takes_view; [done|]. intros m [= <-]. destruct (H n eq_refl) as (p & d & Hin & Hp & Ha). exists d. split; [|done]. apply elem_of_view. by exists p.
Qed.

Lemma valrandom_ok factor val servers (st : store) : vector_ok st servers -> takes_queries st servers (valrandom factor val (view st servers)).
Proof.
  intros Hv. apply takes_view; [done|]. intros n (d & Hin & [Ha _]%andb_prop)%getValRandom_usable. by exists d.
Qed.

Lemma least_first_in {A} (f : A -> option Z) l b x : snd (least_first f l (b, None)) = Some x -> x ∈ l.
Proof.
  destruct (least_first_cases f l b) as [H|(l1 & y & l2 & v & -> & Hx & Hv & H1 & H2)]; [by rewrite least_first_none|].
  rewrite (least_first_found f l1 y l2 b None v) by done. intros [= <-]. apply elem_of_app. right. by left.
Qed.

Lemma chashed_ok factor perturbation servers qhash (st : store) :
  vector_ok st servers -> takes_queries st servers (snd (chashedFromHash factor perturbation servers qhash st)).
Proof.
  intros Hv. apply takes_view; [done|]. intros n. rewrite chashed_choice. set (l := on_ring _ _ _). unfold ring_choice. intros Hn.
  assert (exists x, x ∈ l /\ fst x = n) as ([m hs] & Hin & <-).
  { destruct (snd (least_first (next_hash qhash) l (UINT_MAX, None))) as [x|] eqn:E; [injection Hn as <-; exists x; split; [by eapply least_first_in|done]|].
    destruct (snd (least_first first_hash l (UINT_MAX, None))) as [x|] eqn:E2; [|done]. injection Hn as <-. exists x. split; [by eapply least_first_in|done]. }
  unfold l, on_ring in Hin. apply list_elem_of_omap in Hin as ([k d] & Hin & E). destruct (below_target _ _ d) eqn:Eb; [|done].
  injection E as <- _. apply andb_prop in Eb as [Ha _]. by exists d.
Qed.

(** No server of a list takes queries. *)
Definition none_accepts (servers : list (Z * ds)) : Prop := Forall (fun x => accepts (snd x) = false) servers.

(** Round robin chooses a server that takes queries; when there is none, it
    chooses none, or any if it is not told to fail. *)
Lemma roundrobin_ok fail servers counter (st : store) :
  vector_ok st servers ->
  let r := snd (roundrobin fail (view st servers) counter) in
  takes_queries st servers r
  \/ fail = false /\ none_accepts (view st servers) /\ is_Some (backend_at st servers r).
Proof.
  intros Hv. cbv zeta. unfold roundrobin. destruct (view st servers) as [|x l] eqn:Ev; [left; by left|]. rewrite <- Ev.
  assert (0 < zlen (view st servers)) as Hpos by (rewrite Ev, zlen_cons; pose proof (zlen_nonneg l); lia). clear x l Ev.
  cbv zeta. cbn [snd]. destruct (view st servers !! _) as [[m d]|] eqn:E; [|left; by left]. apply list_elem_of_lookup_2 in E.
  destruct (accepts d) eqn:Ea; [left; apply takes_view; [done|]; intros n [= <-]; by exists d|].
  destruct (map fst (List.filter (fun '(_, d) => accepts d) (view st servers))) as [|y c'] eqn:Ec.
  - destruct fail; [left; by left|]. right. split; [done|]. split.
    + apply Forall_forall. intros [k e] Hin. cbn. destruct (accepts e) eqn:Ee; [|done]. exfalso.
      apply map_eq_nil in Ec. assert ((k, e) ∈ List.filter (fun '(_, d) => accepts d) (view st servers)) as Hf
        by (apply list_elem_of_In, filter_In; split; [by apply list_elem_of_In|done]).
      rewrite Ec in Hf. by apply elem_of_nil in Hf.
    + set (i := u32 (counter + 1) mod zlen (map fst (view st servers))).
      assert (zlen (map fst (view st servers)) = zlen (view st servers)) as Hlen by (unfold zlen; by rewrite length_map).
      assert (0 <= i < zlen (view st servers)) as Hi by (unfold i; rewrite Hlen; by apply Z.mod_pos_bound).
      destruct (lookup_lt_is_Some_2 (view st servers) (Z.to_nat i)) as [[k e] Hk]; [unfold zlen in Hi; lia|].
      change (map fst (view st servers)) with (fst <$> view st servers). rewrite list_lookup_fmap, Hk. cbn.
      exists e. apply position_backend; [done|]. by apply list_elem_of_lookup_2 in Hk.
  - left. apply takes_view; [done|]. intros n Hn. apply list_elem_of_lookup_2 in Hn. rewrite <- Ec in Hn.
    apply list_elem_of_fmap in Hn as ([k e] & -> & Hin). apply list_elem_of_In, filter_In in Hin as [Hin Hae].
    exists e. split; [by apply list_elem_of_In|done].
Qed.

(** The candidates keep their servers when they are numbered anew. *)
Lemma orderedWrandUntag_sound factor random tagged (servers : list (Z * ds)) n :
  orderedWrandUntag factor random tagged servers = Some n -> exists d, (n, d) ∈ ordered_candidates tagged INT_MAX servers /\ accepts d = true.
Proof.
  unfold orderedWrandUntag. destruct servers as [|s0 l0]; [done|]. set (found := ordered_candidates tagged INT_MAX (s0 :: l0)).
  destruct found as [|x f] eqn:Ef; [done|]. rewrite <- Ef. clear Ef. destruct (wrandom factor random (renumber found)) as [m|] eqn:E; [|done]. cbn [mbind option_bind].
  apply getValRandom_usable in E as (d & Hin & [Ha _]%andb_prop). unfold renumber in Hin. apply elem_of_lookup_imap in Hin as (k & [a e] & [= -> ->] & Hk).
  replace (Z.to_nat (Z.of_nat k + 1 - 1)) with k by lia. change (map fst found) with (fst <$> found). rewrite list_lookup_fmap, Hk. intros [= <-].
  exists e. split; [|done]. by eapply list_elem_of_lookup_2.
Qed.

Lemma candidates_in tagged o (servers : list (Z * ds)) x : x ∈ ordered_candidates tagged o servers -> x ∈ servers.
Proof.
  revert o. induction servers as [|[n d] servers IH]; intros o; [done|]. cbn [ordered_candidates]. destruct (_ && _); [|intros H; right; by eapply IH].
  destruct (_ <? _); [intros H; by apply elem_of_nil in H|]. rewrite !elem_of_cons. intros [->|H]; [by left|right; by eapply IH].
Qed.

End policies.

(** ** Pools *)

Section sorting.
Context {A : Type} (f : A -> Z).
#[local] Abbreviation leb := (fun a b => f a <=? f b).

Lemma ordered_by_perm l : ordered_index leb l ≡ₚ l.
Proof. apply ordered_perm. Qed.

Lemma ordered_by_sorted l : StronglySorted (fun a b => f a <= f b) (ordered_index leb l).
Proof.
  induction l as [|x l IH]; [constructor|]. cbn [ordered_index foldr]. change (foldr (ordered_insert leb) [] l) with (ordered_index leb l).
  induction IH as [|y r Hs IH Hy]; cbn [ordered_insert]; [by repeat constructor|]. destruct (Z.leb_spec (f x) (f y)) as [Hle|Hgt].
  - constructor; [by constructor|]. constructor; [done|]. eapply Forall_impl; [exact Hy|]. intros z Hz. cbv beta in *. lia.
  - constructor; [done|]. rewrite ordered_insert_perm. constructor; [lia|done].
Qed.
End sorting.

Section pools.
Context {S P : Type} (st : list (DownstreamState S)).
#[local] Abbreviation ds := (DownstreamState S).
#[local] Abbreviation pool := (ServerPool P).

(** Servers are added, taken away, and settings changed; the backends keep their
    configuration. *)
Inductive pool_run : pool -> Prop :=
| run_make : pool_run pool_make
| run_add s p : pool_run s -> is_Some (st !! p) -> pool_run (addServer st p s)
| run_remove s p : pool_run s -> pool_run (removeServer st p s)
| run_ecs s b : pool_run s -> pool_run (setECS st b s)
| run_zeroScope s b : pool_run s -> pool_run (setZeroScope st b s)
| run_policy s x : pool_run s -> pool_run (mkPool (d_servers s) (d_useECS s) (d_zeroScope s) (d_tcpOnly s) (d_isConsistent s) x).

(** The settings that the servers of a pool should share. *)
Definition settings_of (d : ds) : bool * bool * bool := (dc_useECS (d_config d), negb (dc_disableZeroScope (d_config d)), isTCPOnly (d_config d)).
Definition backends (s : pool) : list ds := map snd (view st (d_servers s)).
Definition all_agree (l : list ds) : Prop := forall a b, a ∈ l -> b ∈ l -> settings_of a = settings_of b.

Record pool_ok (s : pool) : Prop := {
  po_vector : vector_ok st (d_servers s);
  po_sorted : StronglySorted (fun p q => order_of st p <= order_of st q) (map snd (d_servers s));
  po_consistent : d_isConsistent s = true <-> all_agree (backends s);
  po_settings : d_isConsistent s = true ->
    Forall (fun d => dc_useECS (d_config d) = d_useECS s /\ negb (dc_disableZeroScope (d_config d)) = d_zeroScope s) (backends s);
  po_tcpOnly : backends s <> [] -> d_tcpOnly s = true <-> Forall (fun d => isTCPOnly (d_config d) = true) (backends s);
}.

(** The loop over the servers after the first. *)
Lemma agree_loop useECS zeroScope (servers : list (Z * ds)) t :
  let a := fold_left (agree_step useECS zeroScope) servers (mkAgree true t) in
  (ag_consistent a = true <-> Forall (fun x => settings_of (snd x) = (useECS, zeroScope, t)) servers)
  /\ (ag_tcpOnly a = true <-> t = true /\ Forall (fun x => isTCPOnly (d_config (snd x)) = true) servers).
Proof.
  assert (forall servers : list (Z * ds), fold_left (agree_step useECS zeroScope) servers (mkAgree false false) = mkAgree false false) as Hff.
  { intros l. induction l as [|x l IH]; [done|]. cbn [fold_left]. unfold agree_step at 2. cbn. by destruct (isTCPOnly _). }
  assert (forall (servers : list (Z * ds)) t, let a := fold_left (agree_step useECS zeroScope) servers (mkAgree false t) in
    ag_consistent a = false /\ (ag_tcpOnly a = true <-> t = true /\ Forall (fun x => isTCPOnly (d_config (snd x)) = true) servers)) as Hf.
  { intros l. induction l as [|x l IH]; intros u; cbn [fold_left]; [cbn; split; [done|]; split; [by intros ->|by intros [-> _]]|].
    unfold agree_step at 2 4. cbn [ag_consistent ag_tcpOnly]. destruct (isTCPOnly (d_config (snd x))) eqn:Et, u; cbn [Bool.eqb negb].
    - destruct (IH true) as [H1 H2]. split; [done|]. rewrite H2, Forall_cons. naive_solver.
    - rewrite Hff. cbn. naive_solver.
    - rewrite Hff. cbn. split; [done|]. split; [done|]. intros [_ [H _]%Forall_cons_1]. congruence.
    - destruct (IH false) as [H1 H2]. split; [done|]. rewrite H2. by split; intros [? _]. }
  induction servers as [|x l IH]; cbn [fold_left]; [cbn; split; [done|]; split; [by intros ->|by intros [-> _]]|].
  unfold agree_step at 2 4. cbn [ag_consistent ag_tcpOnly]. rewrite !Forall_cons.
  assert (settings_of (snd x) = (useECS, zeroScope, t)
    <-> Bool.eqb (dc_useECS (d_config (snd x))) useECS && negb (Bool.eqb (dc_disableZeroScope (d_config (snd x))) zeroScope) = true
        /\ isTCPOnly (d_config (snd x)) = t) as Hset.
  { unfold settings_of. destruct (dc_useECS _), (dc_disableZeroScope _), useECS, zeroScope, (isTCPOnly _), t; cbn; naive_solver. }
  rewrite Hset. destruct (isTCPOnly (d_config (snd x))) eqn:Et, t; cbn [Bool.eqb negb].
  2,3: rewrite Hff; cbn; naive_solver.
  all: destruct (_ && _) eqn:E; cbn [andb]; [destruct IH as [H1 H2]; rewrite H1, H2; naive_solver|].
  all: match goal with |- context [mkAgree false ?t] => destruct (Hf l t) as [H1 H2] end; rewrite H1, H2; naive_solver.
Qed.

Lemma updateConsistency_ok s :
  vector_ok st (d_servers s) -> StronglySorted (fun p q => order_of st p <= order_of st q) (map snd (d_servers s)) -> pool_ok (updateConsistency st s).
Proof.
  intros Hv Hs. unfold updateConsistency. destruct (view st (d_servers s)) as [|[n d] l] eqn:Ev.
  - split; cbn [d_servers d_isConsistent d_useECS d_zeroScope d_tcpOnly]; [done|done|..]; unfold backends; cbn [d_servers]; rewrite Ev;
      [split; [by intros _ ? ? H%elem_of_nil|done]|done|done].
  - destruct (agree_loop (dc_useECS (d_config d)) (negb (dc_disableZeroScope (d_config d))) l (isTCPOnly (d_config d))) as [H1 H2].
    set (a := fold_left _ l _) in *.
    assert (ag_consistent a = true -> Forall (fun e => settings_of e = settings_of d) (d :: map snd l)) as Hall.
    { intros Ha%H1. constructor; [done|]. by apply Forall_fmap. }
    split; cbn [d_servers d_isConsistent d_useECS d_zeroScope d_tcpOnly]; [done|done|..]; unfold backends; cbn [d_servers]; rewrite Ev; cbn [map snd].
    + split.
      * intros Ha%Hall. rewrite Forall_forall in Ha. intros x y Hx Hy. by rewrite (Ha x Hx), (Ha y Hy).
      * intros Ha. apply H1, Forall_forall. intros x Hx. apply (Ha (snd x) d); [right; by apply (list_elem_of_fmap_2 snd l x)|by left].
    + intros Ha. rewrite Ha. eapply Forall_impl; [by apply Hall|]. intros e. unfold settings_of. by intros [= ? ? ?].
    + intros _. rewrite H2, Forall_cons. change (map snd l) with (snd <$> l). by rewrite Forall_fmap.
Qed.

Lemma renumber_numbers {A} (l : list (Z * A)) : map fst (renumber l) = seqZ 1 (zlen (renumber l)) /\ map snd (renumber l) = map snd l.
Proof.
  unfold renumber. split.
  - apply list_eq_same_length with (length l); [by rewrite length_seqZ; unfold zlen; rewrite length_imap; lia|by rewrite length_map, length_imap|].
    intros i x y Hi. change (map fst ?m) with (fst <$> m). rewrite list_lookup_fmap, list_lookup_imap. destruct (l !! i) as [[a b]|]; [|done].
    cbn. intros [= <-] [-> _]%lookup_seqZ. lia.
  - apply list_eq. intros i. change (map snd ?m) with (snd <$> m). rewrite !list_lookup_fmap, list_lookup_imap. by destruct (l !! i) as [[a b]|].
Qed.

Lemma vector_make servers : map fst servers = seqZ 1 (zlen servers) -> Forall (fun p => is_Some (st !! p)) (map snd servers) -> vector_ok st servers.
Proof. intros H1 H2. split; [done|]. change (map snd servers) with (snd <$> servers) in H2. by rewrite Forall_fmap in H2. Qed.

Lemma addServer_ok s p : pool_ok s -> is_Some (st !! p) -> pool_ok (addServer st p s).
Proof.
  intros [[Hn Hp] Hs _ _ _] Hst. unfold addServer. cbv zeta. set (servers := d_servers s ++ _). set (sorted := ordered_index (order_leb st) servers).
  assert (sorted ≡ₚ servers) as Hperm by apply (ordered_by_perm (fun x : Z * nat => order_of st (snd x))).
  destruct (renumber_numbers sorted) as [E1 E2]. apply updateConsistency_ok; cbn [d_servers set_servers].
  - apply vector_make; [done|]. rewrite E2. change (map snd sorted) with (snd <$> sorted). rewrite Forall_fmap, Hperm. apply Forall_app. split; [done|]. by apply Forall_singleton.
  - rewrite E2. assert (StronglySorted (fun a b : Z * nat => order_of st (snd a) <= order_of st (snd b)) sorted) as H
      by apply (ordered_by_sorted (fun x : Z * nat => order_of st (snd x)) servers). clear -H. clearbody sorted.
    induction H as [|x l H IH Hx]; [constructor|]. cbn. constructor; [done|]. change (map snd l) with (snd <$> l). by apply Forall_fmap.
Qed.

(** The loop of [removeServer]. *)
Lemma remove_found server idx l : let '(r, b) := remove_loop server idx true l in map fst r = seqZ idx (zlen r) /\ map snd r = map snd l /\ b = true.
Proof.
  revert idx. induction l as [|[n p] l IH]; intros idx; cbn [remove_loop]; [done|]. specialize (IH (idx + 1)).
  destruct (remove_loop server (idx + 1) true l) as [r b]. destruct IH as (H1 & H2 & H3). split_and!; [|cbn; by rewrite H2|done].
  cbn [map fst]. rewrite H1, zlen_cons. rewrite (seqZ_cons idx (1 + zlen r)) by (pose proof (zlen_nonneg r); lia). do 2 f_equal; lia.
Qed.

Lemma remove_loop_ok server idx l : map fst l = seqZ idx (zlen l) ->
  let '(r, b) := remove_loop server idx false l in
  map fst r = seqZ idx (zlen r) /\ map snd r `sublist_of` map snd l /\ (b = false -> r = l).
Proof.
  revert idx. induction l as [|[n p] l IH]; intros idx Hl; cbn [remove_loop]; [done|]. pose proof (zlen_nonneg l) as Hlen.
  rewrite zlen_cons, (seqZ_cons idx (1 + zlen l)) in Hl by lia. cbn [map fst] in Hl. injection Hl as -> Hl.
  case_bool_decide as Ep.
  - pose proof (remove_found server idx l) as H. destruct (remove_loop server idx true l) as [r b]. destruct H as (H1 & H2 & H3).
    split_and!; [done| |by rewrite H3]. rewrite H2. by constructor.
  - specialize (IH (idx + 1)). replace (Z.pred (1 + zlen l)) with (zlen l) in Hl by lia. replace (Z.succ idx) with (idx + 1) in Hl by lia. specialize (IH Hl).
    destruct (remove_loop server (idx + 1) false l) as [r b]. destruct IH as (H1 & H2 & H3). pose proof (zlen_nonneg r).
    split_and!; [|cbn; by constructor|intros Hb; by rewrite H3].
    cbn [map fst]. rewrite H1, zlen_cons, (seqZ_cons idx (1 + zlen r)) by lia. do 2 f_equal; lia.
Qed.

Lemma Forall_sub {A} (Q : A -> Prop) l l' : l `sublist_of` l' -> Forall Q l' -> Forall Q l.
Proof. intros Hl. rewrite !Forall_forall. intros H x Hx. apply H. eapply elem_of_submseteq; [exact Hx|by apply sublist_submseteq]. Qed.

Lemma StronglySorted_sub {A} (R : A -> A -> Prop) l l' : l `sublist_of` l' -> StronglySorted R l' -> StronglySorted R l.
Proof.
  intros Hl. induction Hl as [|x l l' Hl IH|x l l' Hl IH]; intros Hs; [done| |]; apply StronglySorted_inv in Hs as [H1 H2]; [|by apply IH].
  constructor; [by apply IH|]. by eapply Forall_sub.
Qed.

Lemma backends_pointers s : backends s = omap (fun p => st !! p) (map snd (d_servers s)).
Proof.
  unfold backends, view. induction (d_servers s) as [|[n p] l IH]; [done|]. cbn. destruct (st !! p); cbn; by rewrite IH.
Qed.

Lemma removeServer_ok s p : pool_ok s -> pool_ok (removeServer st p s).
Proof.
  intros Hs. pose proof Hs as [[Hn Hp] Hso Hc Hse Ht]. unfold removeServer. pose proof (remove_loop_ok p 1 (d_servers s) Hn) as H.
  destruct (remove_loop p 1 false (d_servers s)) as [l found]. destruct H as (H1 & H2 & H3).
  destruct found; cbn [andb]; [|rewrite (H3 eq_refl); by destruct s].
  assert (vector_ok st l) as Hv.
  { apply vector_make; [done|]. eapply Forall_sub; [exact H2|]. change (map snd (d_servers s)) with (snd <$> d_servers s). by apply Forall_fmap. }
  assert (StronglySorted (fun p q => order_of st p <= order_of st q) (map snd l)) as Hl by (by eapply StronglySorted_sub).
  cbn [d_isConsistent set_servers]. destruct (d_isConsistent s) eqn:Ec; cbn [negb]; [|by apply updateConsistency_ok].
  assert (backends (set_servers l s) ⊆ backends s) as Hsub.
  { rewrite !backends_pointers. cbn [d_servers set_servers]. intros d (q & Hq & E)%list_elem_of_omap. apply list_elem_of_omap. exists q. split; [|done].
    eapply elem_of_submseteq; [exact Hq|by apply sublist_submseteq]. }
  specialize (Hse eq_refl). assert (all_agree (backends s)) as Hag by (by apply Hc).
  split; cbn [d_servers d_isConsistent d_useECS d_zeroScope d_tcpOnly set_servers]; [done|done|..].
  - rewrite Ec. split; [|done]. intros _ a b Ha Hb. apply Hag; by apply Hsub.
  - intros _. rewrite Forall_forall in Hse |- *. intros d Hd. by apply Hse, Hsub.
  - intros Hne. assert (exists d, d ∈ backends (set_servers l s)) as [d Hd] by (destruct (backends (set_servers l s)) as [|d ?]; [done|exists d; by left]).
    assert (forall l', d ∈ l' -> l' ⊆ backends s -> Forall (fun e => isTCPOnly (d_config e) = true) l' <-> isTCPOnly (d_config d) = true) as Hone.
    { intros l' Hin Hl'. rewrite Forall_forall. split; [intros H; by apply H|]. intros Hd' e He.
      assert (settings_of e = settings_of d) as E by (apply Hag; by apply Hl'). unfold settings_of in E. congruence. }
    rewrite Ht, !Hone; [done|done|done|by apply Hsub|done|]. intros E. rewrite E in Hsub. by apply Hsub, elem_of_nil in Hd.
Qed.

Lemma pool_run_ok s : pool_run s -> pool_ok s.
Proof.
  induction 1 as [|s p _ IH Hp|s p _ IH|s b _ IH|s b _ IH|s x _ IH].
  - split; cbn; [split; [done|constructor]|constructor|split; [by intros _ ? ? H%elem_of_nil|done]|constructor|done].
  - by apply addServer_ok.
  - by apply removeServer_ok.
  - apply updateConsistency_ok; apply IH.
  - apply updateConsistency_ok; apply IH.
  - destruct IH. by split.
Qed.

(** C26: a pool is what its servers make it. After any changes its servers are numbered from
    one in the order of their configuration, it is consistent exactly when they agree on
    their settings, which are then its own, and it is for TCP only exactly when all of
    them are. *)
Theorem pool_invariant s : pool_run s -> pool_ok s.
Proof. apply pool_run_ok. Qed.

(** The servers of a pool, as the policies get them. *)
Lemma pool_in_order s : pool_run s -> in_order (view st (d_servers s)).
Proof.
  intros [_ Hs _ _ _]%pool_run_ok. unfold in_order, view. induction (d_servers s) as [|[n p] l IH]; [constructor|]. cbn [map snd] in Hs.
  apply StronglySorted_inv in Hs as [H1 H2]. cbn [omap list_omap]. destruct (st !! p) as [d|] eqn:Ep; cbn [fmap option_fmap option_map]; [|by apply IH].
  constructor; [by apply IH|]. apply Forall_forall. intros [m e] (q & Hq & Eq)%elem_of_view. change (map snd l) with (snd <$> l) in H2. rewrite Forall_fmap, Forall_forall in H2.
  specialize (H2 _ Hq). unfold order_of in H2. cbn in H2. by rewrite Ep, Eq in H2.
Qed.

(** C27: the policies by load and by order choose the best. Over the servers of a pool,
    however it came about: [leastOutstanding] chooses, among the servers that take queries,
    one with the fewest outstanding, among those one of the smallest order, and among
    those none is faster; [orderedWrandUntag] chooses a server of the smallest order
    among those that take queries and are not tagged. *)
Theorem pool_policies_best s factor random tagged :
  pool_run s -> Forall sane (backends s) -> Forall (fun d => dc_order (d_config d) <= INT_MAX) (backends s) ->
  let servers := view st (d_servers s) in
  match leastOutstanding servers with
  | Some n => exists d, (n, d) ∈ servers /\ accepts d = true /\ Forall (fun x => accepts (snd x) = true -> preferred d (snd x)) servers
  | None => Forall (fun x => accepts (snd x) = false) servers
  end
  /\ forall n, orderedWrandUntag factor random tagged servers = Some n ->
      exists d, (n, d) ∈ servers /\ eligible tagged d = true /\ Forall (fun y => eligible tagged (snd y) = true -> dc_order (d_config d) <= order y) servers.
Proof.
  intros Hr Hs Hm servers. pose proof (pool_in_order s Hr) as Ho. unfold backends in Hs, Hm. fold servers in Ho, Hs, Hm.
  change (map snd servers) with (snd <$> servers) in Hs, Hm. rewrite Forall_fmap in Hs, Hm. split.
  - pose proof (getLeastOutstanding_spec servers Ho Hs) as H. unfold leastOutstanding.
    destruct servers as [|[n d] [|y l]] eqn:Ev; [exact H| |exact H]. destruct (accepts d) eqn:Ea; [|exact H].
    destruct (getLeastOutstanding [(n, d)]) as [m|]; [|apply Forall_cons_1 in H as [H _]; cbn in H; congruence].
    destruct H as (e & He & H). apply list_elem_of_singleton in He as [= -> ->]. exists d. split; [|done].
    destruct (pool_run_ok s Hr) as [Hv _ _ _ _]. rewrite (single_position _ _ n d Hv Ev). by left.
  - intros n (d & Hin & _)%orderedWrandUntag_sound. apply candidates_spec in Hin as (H1 & H2 & H3); [|done|done]. by exists d.
Qed.
End pools.

(** ** Examples *)

Module pool_example.
Import backend_example.

Definition a_config (name : string) (order weight : Z) (tcp : bool) : BackendConfig :=
  mkBC AvailUp CheckActive weight (bs name) (bs name) order 0 0 0 0 false false tcp false false false 1 1 1 TimeoutOnly 100 1 30 3600 20 false.

Definition a_backend (name : string) (order weight : Z) (tcp : bool) : DownstreamState nat := ds_make (a_config name order weight tcp) noon.

(** Four backends; the second and the fourth come first in the order. *)
Definition servers : list (DownstreamState nat) :=
  [a_backend "one" 2 1 false; a_backend "two" 1 2 false; a_backend "three" 2 3 true; a_backend "four" 1 4 false].

Definition fill (l : list nat) : ServerPool unit := fold_left (fun s p => addServer servers p s) l pool_make.
Definition full : ServerPool unit := fill [0; 1; 2; 3]%nat.

Lemma fill_run l : Forall (fun p => is_Some (servers !! p)) l -> pool_run servers (fill l).
Proof.
  induction l as [|p l IH] using rev_ind; intros Hl; [constructor|]. apply Forall_app in Hl as [Hl [Hp _]%Forall_cons_1].
  unfold fill. rewrite fold_left_app. cbn [fold_left]. apply (run_add servers (fill l) p); [by apply IH|done].
Qed.

Lemma full_run : pool_run servers full.
Proof. apply fill_run. by repeat constructor. Qed.

Example full_vector : d_servers full = [(1, 1%nat); (2, 3%nat); (3, 0%nat); (4, 2%nat)] /\ d_isConsistent full = false /\ d_tcpOnly full = false.
Proof. by vm_compute. Qed.

Lemma pool_invariant_witness : d_isConsistent (removeServer servers 2 full) = true /\ all_agree (backends servers (removeServer servers 2 full)).
Proof.
  assert (d_isConsistent (removeServer servers 2 full) = true) as H by (vm_compute; reflexivity).
  split; [exact H|]. apply (pool_invariant servers (removeServer servers 2 full) (run_remove servers full 2 full_run)). exact H.
Defined.

Definition choices : list (Z * DownstreamState nat) := view servers (d_servers full).

Lemma pool_policies_best_witness : orderedWrandUntag (dbl 0) 5 (fun _ => false) choices = Some 2 /\ exists d, (2, d) ∈ choices /\ dc_order (d_config d) = 1.
Proof.
  assert (orderedWrandUntag (dbl 0) 5 (fun _ => false) choices = Some 2) as E by (vm_compute; reflexivity). split; [exact E|].
  destruct (pool_policies_best servers full (dbl 0) 5 (fun _ => false) full_run) as [_ H];
    [repeat constructor; done|repeat constructor; done|]. destruct (H 2 E) as (d & Hin & _ & Hall). exists d. split; [exact Hin|].
  assert (dc_order (d_config d) <= 1) as Hle.
  { rewrite Forall_forall in Hall. apply (Hall (1, a_backend "two" 1 2 false)); [by left|vm_compute; reflexivity]. }
  assert (Forall (fun x => 1 <= dc_order (d_config (snd x))) choices) as Hge by (repeat constructor; done).
  rewrite Forall_forall in Hge. specialize (Hge _ Hin). cbn [snd] in Hge. lia.
Defined.

Lemma vector_full : vector_ok servers (d_servers full).
Proof. split; [by vm_compute|]. repeat constructor; by eexists. Qed.


(** The fourth backend has four of the ten numbers. *)
Lemma wrandom_weighted_witness : zlen (List.filter (fun v => bool_decide (wrandom (dbl 0) v choices = Some 2)) (seqZ 0 10)) = 4.
Proof.
  apply (wrandom_weighted (dbl 0) choices 2 (a_backend "four" 1 4 false)); [repeat constructor; done| |done|right; by left|vm_compute; reflexivity].
  apply (bool_decide_unpack _). vm_compute. exact I.
Defined.

Lemma roundrobin_fair_witness : rr_calls true choices 4 7 ≡ₚ [Some 1; Some 2; Some 3; Some 4].
Proof. apply (roundrobin_fair true choices 7); [done|repeat constructor; done|done|done]. Defined.

(** Without the third server the query stays with the server it had. *)
Definition choose (l : list (Z * nat)) : option Z := snd (chashedFromHash (dbl 0) 0 l 1000 servers).
Lemma chashed_consistent_witness : choose (d_servers full) = Some 4 /\ choose (List.filter (fun x => negb (fst x =? 3)) (d_servers full)) = Some 4.
Proof.
  assert (choose (d_servers full) = Some 4) as E by (vm_compute; reflexivity). split; [exact E|].
  apply (chashed_consistent (dbl 0) 0 (d_servers full) 1000 servers (fun n => negb (n =? 3)) 4); [vm_compute; reflexivity|exact E|reflexivity].
Defined.

(** Where the sum of the weights reaches the limit, what comes after has no share. *)
Example weights_saturate :
  let l := [(1, a_backend "one" 1 (INT_MAX - 1) false); (2, a_backend "two" 1 INT_MAX false); (3, a_backend "three" 1 INT_MAX false)] in
  map (fun v => wrandom (dbl 0) v l) [0; INT_MAX - 2; INT_MAX - 1; INT_MAX; UINT_MAX] = [Some 1; Some 1; Some 2; Some 1; Some 1].
Proof. by vm_compute. Qed.
End pool_example.
